(* ===== verification/_CoqProject ===== *)
-Q . S2P
Prelude.v
CLib.v
Mq.v
GlobalMq.v
Handle.v
NameTable.v
HandleTable.v
HandleWitness.v
Timer.v
TimerSpec.v
Calendar.v
CNum.v
Module.v
Node.v
Server.v
Command.v
ServerSpec.v
DataBuffer.v
ServiceApi.v
HashId.v
Gate.v
GateSpec.v
NetPack.v
NetPackSpec.v
Bytes.v
LuaValue.v
Seri.v
SeriSpec.v
SeriSafe.v
Harbor.v
HarborSpec.v
HarborRoute.v
HarborDown.v
HarborWitness.v
SocketKernel.v
SocketData.v
SocketWrite.v
SocketCtrl.v
SocketPoll.v
SocketApi.v
SocketStream.v
SocketIds.v
SocketOrder.v
SocketRaces.v
SocketSlots.v
SocketWitness.v
Bits.v
Des.v
DesEquiv.v
Crypt.v
DesCodec.v
CryptSpec.v
Base64Spec.v
Sha1.v
Sha1Equiv.v
Sha1Spec.v
Md5.v
Md5Hash.v
Md5Lib.v
CryptWitness.v
Bson.v
BsonUtf8.v
BsonWrite.v
BsonSpec.v
BsonRead.v
BsonTotal.v
BsonIndex.v
BsonThms.v
BsonTypes.v
Cluster.v
ClusterSpec.v
ClusterReply.v
LuaSocket.v
LuaSocketSpec.v
SkynetSocket.v
LuaSocketApi.v
SprotoPack.v
Sproto.v
Stm.v
Multicast.v
