(* ===== verification/Prelude.v ===== *)
(** * A verification library for xsServer

    xsServer is a game server: a C framework of message-passing services
    (skynet) with Lua scripts on top. This library models the C code that makes
    the framework work, as executable definitions, and proves what it promises.

    ** The program

    - skynet-src/ is the core. A _service_ is a context with a handle and a
      message queue; worker threads take queues from a global queue and dispatch
      their messages; a timer thread puts messages of elapsed timers into
      queues; a socket thread turns the events of sockets into messages; a
      monitor thread watches for services that do not return.
    - service-src/ holds the services written in C: the gate (clients), the
      harbor (the other processes of a cluster), the logger and the Lua service.
    - lualib-src/ holds the C libraries of Lua services: serialization of Lua
      values, packets of a client, cryptography, documents of a database,
      structured messages.
    - 3rd/ is vendored code, of which the MD5 library is modelled because the
      crypt library refers to it; game/, lualib/, service/ are Lua scripts.

    ** Files, and the code they model

    Each component has a file with its data and operations, named as in the
    source and in its order, and files with its theorems; the witnesses use them
    at concrete inputs.

    - [Prelude]: outcomes of C code ([Ret], [AssertFail], [Undef], [NoFuel]),
      machine integers with their wrap-around, arrays with bounds, [for] loops
      and their invariant rule, ring buffers, tactics. [CLib], [CNum]: strings,
      strtol, printf conversions, the constants of skynet.h. [Bytes], [Bits]: bytes
      and words.
    - [Mq] (skynet_mq.c), with [GlobalMq]: queues as rings, the intrusive global
      queue, and the protocol by which each queue with messages is scheduled
      exactly once.
    - [Handle] (skynet_handle.c), with [NameTable] and [HandleTable]: handles as
      a finite map that doubles, names as a sorted array.
    - [Timer] (skynet_timer.c), with [TimerSpec] and [Calendar]: the wheel as a
      calendar.
    - [Module] (skynet_module.c), [Node], [Server] and [Command]
      (skynet_server.c, skynet_harbor.c, skynet_monitor.c, skynet_env.c,
      skynet_error.c, skynet_log.c), with [ServerSpec]: contexts, sending and
      dispatching, reference counts, the text commands.
    - [ServiceApi]: the class of the core functions a C service calls. The gate
      and the harbor are written and proved against it.
    - [DataBuffer] (databuffer.h), [HashId] (hashid.h), [Gate] (service_gate.c),
      with [GateSpec]; [NetPack] (lua-netpack.c), with [NetPackSpec]: two ways
      to cut a byte stream into packets.
    - [Harbor] (service_harbor.c), with [HarborSpec], [HarborRoute],
      [HarborDown].
    - [SocketKernel], [SocketData], [SocketWrite], [SocketCtrl], [SocketPoll],
      [SocketApi] (socket_server.c, socket_epoll.h), with [SocketStream],
      [SocketIds], [SocketOrder], [SocketRaces], [SocketSlots]. The system is the
      class [Kernel] of [SocketKernel].
    - [SkynetSocket] (skynet_socket.c, and the unpacking of its messages in
      lua-socket.c): results of the socket server as messages of services.
    - [LuaSocket], [LuaSocketApi] (lua-socket.c), with [LuaSocketSpec]: the read
      buffers of a Lua service and the calls it makes.
    - [Cluster] (lua-cluster.c, with what clusteragent.lua and socketchannel.lua
      do with its answers), with [ClusterSpec] and [ClusterReply]: requests and
      responses between the nodes of a cluster.
    - [LuaValue]: Lua values and errors as C libraries see them. [Seri]
      (lua-seri.c), with [SeriSpec] and [SeriSafe].
    - [Des], [Crypt] (lua-crypt.c), with the standard and the theorems
      in [DesEquiv], [DesCodec], [CryptSpec], [Base64Spec].
    - [Sha1] (lsha1.c), with the standards in [Sha1Equiv] and the theorems in
      [Sha1Equiv] and [Sha1Spec].
    - [Md5] (3rd/lua-md5, and the hashes of lua-crypt.c), with [Md5Hash]
      and [Md5Lib].
    - [Bson] (lua-bson.c: the encoder and the decoder), with the format in
      [BsonSpec], the accepted strings in [BsonUtf8], what the encoder writes in
      [BsonWrite], what the decoder reads in [BsonRead] and [BsonTotal];
      [BsonIndex]: values replaced in place; [BsonTypes]: dates, object ids and
      the like; the theorems in [BsonThms].
    - [SprotoPack] (the packing of sproto.c and its calls in lsproto.c), [Sproto]
      (the encoder and decoder of sproto.c), with their theorems.
    - [Stm] (lua-stm.c, rwlock.h), with its theorems: snapshots of a message
      that a writer shares with readers in other services. [Multicast]
      (lua-multicast.c): messages for several services.

    State is passed explicitly. A C function is a function to [outcome]; a
    function that may raise a Lua error is a function to [lua]. An array is a
    list whose accesses are checked; a wrapped integer is a [Z] with its width
    written out ([u32], [i32], ...); signed overflow is [Undef]. Memory that is
    shared is a table of the state (nodes of the global queue, contexts by
    handle, chunks of a buffer by index), not a copy.

    ** What the theorems show

    - Scheduling: no queue with messages is ever lost and none is scheduled
      twice, under any interleaving of pushes, pops and releases; a queue is a
      FIFO across the growth of its ring.
    - Handles and names: the table implements a finite map, a new handle is
      fresh, the sorted array implements a map from names, retirement drops
      exactly the names of its handle.
    - Timers: any sequence of additions and ticks delivers each timer at its
      time and no other, across the cascades and the wrap of 32 bits; an update
      is undefined when it has to count 2^31 ticks.
    - Server: a send to a living service appends to its queue and to nothing
      else, and takes the memory of the message; the last reference frees the
      context; a service that does not return is reported.
    - Byte streams: however a stream is cut, the gate, the packet filter and the
      harbor deliver exactly the packets it contains; the id table implements a
      map; the connections of the gate stay consistent.
    - Socket server: the bytes that leave a TCP socket are the buffers in the
      order they were sent, under any interleaving of senders and of the socket
      thread; the slots stay well formed from the creation on; counts of sends
      never fail an assertion; ids are fresh; stale requests change nothing. A
      result for a live service is one message of its queue that reads back as
      the result; the read buffers of a Lua service are streams of bytes whose
      nodes are neither lost nor shared.
    - Clusters: a request, a push or a response, cut into frames and mixed with
      others, is delivered once and whole; its memory is freed once.
    - Codecs: packing and unpacking of Lua values, BSON documents, structured
      messages and their packed form, DES with padding, base 64, the MD5 cipher
      and harbor frames are inverse; unpacking foreign bytes always answers,
      except where a theorem shows the read past the end; the strings of a
      document are UTF-8; a value replaced in a document is replaced in its
      table.
    - Shared snapshots: under any interleaving of the accesses of the services,
      a copy is freed once and after its last use, each reader is given whole
      messages in their order, and the object is used after it is freed at one
      place only, which two readers reach.
    - Cryptography: DES, SHA-1, HMAC-SHA-1 and MD5 are those of their standards,
      for every input the standards define and with the exact divergence for
      texts that are too long; the two sides of a key exchange agree.
    - Errors: the theorems that end the list show, at reachable states, what the
      code does against its comments and names.

    ** Bounds and fuel

    A loop whose end the kernel cannot see has fuel, and a theorem that it is
    enough: 32 halvings of the overload threshold; two tables for registering a
    handle and two passes for retiring all; the number of names for a binary
    search; four levels for the timer's cascade; one more than the bytes at hand
    for the packet loops of the gate, the packet filter and the harbor; the
    chunks of a buffer for its reads; one per slot for reserving a socket id;
    one more than the signals for an interrupted write; 34 levels for packing
    (the source stops at 32) and five for each byte for unpacking; 130 levels for
    encoding a document (the source stops at 128) and one for each byte for
    decoding it; 64 bits for the modular arithmetic; the length of the text for
    the codecs; 64 zeros for the padding of SHA-1; two rounds more than whole
    blocks for MD5; the number of nodes, and one, for the read buffers of a Lua
    service; the length of the source for packing a structured message, its data
    for the arrays in it, one more than its fields for the search of a tag. The
    Lua calls that pack double their buffer as often as a source of 8 MB needs.
    The loop of the socket thread runs as long as the poll
    reports nothing: its fuel is an argument.

    ** Interleaving

    The functions under one lock are one atomic step. The senders of a socket
    take their lock more than once, and are a step relation at that
    granularity; the scheduling of queues is a step relation over workers. The
    shared snapshots and their lock are modelled at the single accesses to
    memory, which is sequentially consistent. A
    registration of a handle and the store of the handle in its context are
    separate steps.

    ** Not modelled

    The Lua virtual machine and the other vendored libraries (3rd/), which the
    program calls through their documented interface; the scripts in Lua; the
    starting of threads and the signal handlers (skynet_start.c, skynet_main.c,
    skynet_daemon.c), which are calls to the system; malloc_hook.c, whose
    statistics no other part reads; the kqueue variant of the poll, which is not
    built on Linux; the binding of the core for Lua (lua-skynet.c) and its like,
    which move arguments between the Lua stack and the functions modelled here;
    the schema of structured messages beyond the list of fields of a type, and
    the callbacks that walk Lua tables for them (lsproto.c); the snapshots of
    Lua tables shared by services; TLS, which is OpenSSL's. Thread-local handles,
    the content of log lines beyond their text, the addresses of memory blocks
    and the failure of malloc (the program does not handle it) are outside the
    model. The manifest lists every part with its state.
*)
From stdpp Require Export base gmap list strings fin_maps.
From Stdlib Require Export ZArith Lia.

Declare Scope skynet_scope.
Delimit Scope skynet_scope with skynet.
#[global] Open Scope Z_scope.

(** ** Outcomes of C code

    [Ret] is a normal return, [AssertFail] a failing [assert], [Undef] an
    operation C leaves undefined (NULL dereference, index out of range, signed
    overflow), [NoFuel] a loop that did not finish within the fuel given. *)
Inductive outcome (A : Type) : Type :=
  | Ret (a : A)
  | AssertFail
  | Undef
  | NoFuel.
Arguments Ret {A} a.
Arguments AssertFail {A}.
Arguments Undef {A}.
Arguments NoFuel {A}.

#[export] Instance outcome_ret : MRet outcome := @Ret.
#[export] Instance outcome_bind : MBind outcome := λ A B f m,
  match m with
  | Ret a => f a
  | AssertFail => AssertFail
  | Undef => Undef
  | NoFuel => NoFuel
  end.
#[export] Instance outcome_fmap : FMap outcome := λ A B f m,
  match m with
  | Ret a => Ret (f a)
  | AssertFail => AssertFail
  | Undef => Undef
  | NoFuel => NoFuel
  end.

(** [assert(b)] *)
Definition cassert (b : bool) : outcome unit := if b then Ret tt else AssertFail.

(** Dereferencing a pointer that must not be NULL, or an object that must be live. *)
Definition deref {A} (o : option A) : outcome A :=
  match o with Some a => Ret a | None => Undef end.

(** Outcomes of two programs that agree: the same failure, or related results. *)
Definition out_rel {A B} (R : A → B → Prop) (m1 : outcome A) (m2 : outcome B) : Prop :=
  match m1, m2 with
  | Ret a, Ret b => R a b
  | AssertFail, AssertFail | Undef, Undef | NoFuel, NoFuel => True
  | _, _ => False
  end.

Lemma out_rel_bind {A B A' B'} (R : A → B → Prop) (R' : A' → B' → Prop) m1 m2 k1 k2 :
  out_rel R m1 m2 → (∀ a b, R a b → out_rel R' (k1 a) (k2 b)) →
  out_rel R' (m1 ≫= k1) (m2 ≫= k2).
Proof. destruct m1, m2; simpl; naive_solver. Qed.

Lemma out_rel_refl {A} (R : A → A → Prop) m : (∀ a, R a a) → out_rel R m m.
Proof. destruct m; simpl; naive_solver. Qed.

(** ** Arrays: an index out of range is undefined *)
Definition get_idx {A} (l : list A) (i : Z) : outcome A :=
  if decide (0 ≤ i) then deref (l !! Z.to_nat i) else Undef.
Definition set_idx {A} (l : list A) (i : Z) (x : A) : outcome (list A) :=
  if decide (0 ≤ i < Z.of_nat (length l)) then Ret (<[Z.to_nat i := x]> l) else Undef.

Definition Zlen {A} (l : list A) : Z := Z.of_nat (length l).

(** An address. A pointer that may be NULL is an [option loc]. *)
Abbreviation loc := Z (only parsing).

(** ** Machine integers *)
Definition u8 (x : Z) : Z := x mod 2 ^ 8.
Definition u16 (x : Z) : Z := x mod 2 ^ 16.
Definition u32 (x : Z) : Z := x mod 2 ^ 32.
Definition u64 (x : Z) : Z := x mod 2 ^ 64.
(** conversion to a signed type: two's complement, as every platform of the Makefile *)
Definition i32 (x : Z) : Z := (x + 2 ^ 31) mod 2 ^ 32 - 2 ^ 31.
Definition i64 (x : Z) : Z := (x + 2 ^ 63) mod 2 ^ 64 - 2 ^ 63.
Definition INT_MAX : Z := 2 ^ 31 - 1.
(** signed [int] arithmetic: overflow is undefined *)
Definition chk_int (x : Z) : outcome Z :=
  if decide (- 2 ^ 31 ≤ x ≤ INT_MAX) then Ret x else Undef.

Lemma i32_small z : - 2 ^ 31 ≤ z < 2 ^ 31 → i32 z = z.
Proof. intros. unfold i32. rewrite Z.mod_small; lia. Qed.

(** ** Monad laws used by every component *)
Section outcome.
Context {A B : Type}.

Lemma bind_Ret (m : outcome A) (f : A → outcome B) b :
  m ≫= f = Ret b ↔ ∃ a, m = Ret a ∧ f a = Ret b.
Proof. destruct m; simpl; naive_solver. Qed.

Lemma Ret_bind (a : A) (f : A → outcome B) : Ret a ≫= f = f a.
Proof. done. Qed.

Lemma cassert_Ret (b : bool) u : cassert b = Ret u ↔ b = true.
Proof. destruct u, b; simpl; naive_solver. Qed.

Lemma deref_Ret (o : option A) a : deref o = Ret a ↔ o = Some a.
Proof. destruct o; simpl; naive_solver. Qed.

Lemma get_idx_Ret (l : list A) i x :
  get_idx l i = Ret x ↔ 0 ≤ i ∧ l !! Z.to_nat i = Some x.
Proof. unfold get_idx. case_decide; rewrite ?deref_Ret; naive_solver. Qed.

Lemma set_idx_Ret (l : list A) i x l' :
  set_idx l i x = Ret l' ↔ 0 ≤ i < Zlen l ∧ l' = <[Z.to_nat i := x]> l.
Proof. unfold set_idx, Zlen. case_decide; naive_solver. Qed.

Lemma set_idx_ok (l : list A) i x :
  0 ≤ i < Zlen l → set_idx l i x = Ret (<[Z.to_nat i := x]> l).
Proof. intros. by apply set_idx_Ret. Qed.

Lemma get_idx_ok (l : list A) i :
  0 ≤ i < Zlen l → ∃ x, get_idx l i = Ret x ∧ l !! Z.to_nat i = Some x.
Proof.
  unfold Zlen. intros Hi.
  destruct (lookup_lt_is_Some_2 l (Z.to_nat i)) as [x Hx]; [lia|].
  exists x. split; [|done]. apply get_idx_Ret. split; [lia|done].
Qed.

Lemma chk_int_Ret x y : chk_int x = Ret y ↔ - 2 ^ 31 ≤ x ≤ INT_MAX ∧ y = x.
Proof. unfold chk_int. case_decide; naive_solver. Qed.

Lemma chk_int_ok x : - 2 ^ 31 ≤ x ≤ INT_MAX → chk_int x = Ret x.
Proof. intros. by apply chk_int_Ret. Qed.
End outcome.

Create HintDb skynet.


(** [inv_out] turns a hypothesis [m = Ret r], with [m] a composition of the
    operations above, into the equations of its parts. *)
Ltac inv_out_step :=
  match goal with
  | H : _ ∧ _ |- _ => destruct H
  | H : ∃ _, _ |- _ => destruct H
  | H : (_, _) = (_, _) |- _ => simplify_eq H
  | H : Ret _ = Ret _ |- _ => injection H as H; subst
  | H : AssertFail = Ret _ |- _ => discriminate H
  | H : Undef = Ret _ |- _ => discriminate H
  | H : NoFuel = Ret _ |- _ => discriminate H
  | H : mret _ = Ret _ |- _ => injection H as H; subst
  | H : mbind _ _ = Ret _ |- _ => apply bind_Ret in H
  | H : cassert _ = Ret _ |- _ => apply cassert_Ret in H
  | H : deref _ = Ret _ |- _ => apply deref_Ret in H
  | H : get_idx _ _ = Ret _ |- _ => apply get_idx_Ret in H
  | H : set_idx _ _ _ = Ret _ |- _ => apply set_idx_Ret in H
  | H : chk_int _ = Ret _ |- _ => apply chk_int_Ret in H
  end.
Ltac inv_out := repeat (inv_out_step; simplify_eq/=).

(** two runs of one computation return the same *)
Ltac det :=
  repeat match goal with
  | H1 : ?m = Ret ?a, H2 : ?m = Ret ?b |- _ =>
      rewrite H1 in H2; injection H2 as H2; subst
  end.

(** ** Rings

    Several queues of the program are arrays used as rings: [ring_repr l h n xs]
    says that the [n] cells of [l] from index [h] on, wrapping at the end of
    the array, hold the list [xs]. *)
Definition ring_repr {A} (l : list A) (h n : Z) (xs : list A) : Prop :=
  Zlen xs = n ∧
  ∀ i, 0 ≤ i < n → xs !! Z.to_nat i = l !! Z.to_nat ((h + i) mod Zlen l).

(** One step of a ring index: [if (++i >= cap) i = 0]. *)
Lemma ring_succ h cap :
  0 ≤ h < cap → (h + 1) mod cap = if decide (cap ≤ h + 1) then 0 else h + 1.
Proof.
  intros. case_decide.
  - replace (h + 1) with cap by lia. apply Z.mod_same. lia.
  - apply Z.mod_small. lia.
Qed.

Lemma mod_range x n : 0 < n → 0 ≤ x mod n < n.
Proof. apply Z.mod_pos_bound. Qed.

(** Distinct offsets below [cap] reach distinct cells. *)
Lemma ring_offset_inj h i j cap :
  0 ≤ i < cap → 0 ≤ j < cap → (h + i) mod cap = (h + j) mod cap → i = j.
Proof.
  intros Hi Hj E.
  assert ((i - j) mod cap = 0) as E'.
  { replace (i - j) with ((h + i) - (h + j)) by lia.
    rewrite Zminus_mod, E, Z.sub_diag. apply Z.mod_0_l. lia. }
  apply Z.mod_divide in E' as [k Hk]; [|lia].
  assert (k = 0) as -> by (destruct (Z.lt_trichotomy k 0) as [|[|]]; nia). lia.
Qed.

Section ring.
Context {A : Type}.
Implicit Types (l xs : list A) (h n : Z).

Lemma ring_repr_nil l h : ring_repr l h 0 [].
Proof. split; [done|lia]. Qed.

Lemma Zlen_insert l k (x : A) : Zlen (<[k := x]> l) = Zlen l.
Proof. unfold Zlen. by rewrite length_insert. Qed.

Lemma Zlen_nonneg l : 0 ≤ Zlen l.
Proof. unfold Zlen. lia. Qed.

(** Storing at the tail appends. *)
Lemma ring_push l h n xs x :
  ring_repr l h n xs → 0 ≤ n < Zlen l →
  ring_repr (<[Z.to_nat ((h + n) mod Zlen l) := x]> l) h (n + 1) (xs ++ [x]).
Proof.
  intros [Hlen Hr] Hn. split.
  { unfold Zlen in *. rewrite length_app. simpl. lia. }
  intros i Hi. rewrite Zlen_insert.
  pose proof (mod_range (h + n) (Zlen l) ltac:(lia)).
  pose proof (mod_range (h + i) (Zlen l) ltac:(lia)).
  destruct (decide (i = n)) as [->|Hne].
  - rewrite list_lookup_insert_eq by (unfold Zlen in *; lia).
    rewrite lookup_app_r by (unfold Zlen in *; lia).
    replace (Z.to_nat n - length xs)%nat with 0%nat by (unfold Zlen in *; lia). done.
  - rewrite list_lookup_insert_ne.
    + rewrite lookup_app_l by (unfold Zlen in *; lia). apply Hr. lia.
    + intros E. apply Hne. symmetry. apply (ring_offset_inj h _ _ (Zlen l)); lia.
Qed.

(** The cell at the head is the first element, and what follows is the rest. *)
Lemma ring_pop l h n x xs :
  ring_repr l h n (x :: xs) → 0 ≤ h < Zlen l →
  l !! Z.to_nat h = Some x ∧ ring_repr l ((h + 1) mod Zlen l) (n - 1) xs.
Proof.
  intros [Hlen Hr] Hh. unfold Zlen in Hlen. simpl in Hlen. split.
  - specialize (Hr 0 ltac:(lia)). rewrite Z.add_0_r, Z.mod_small in Hr by lia.
    simpl in Hr. by rewrite <- Hr.
  - split; [unfold Zlen; lia|]. intros i Hi.
    specialize (Hr (i + 1) ltac:(lia)).
    replace (Z.to_nat (i + 1)) with (S (Z.to_nat i)) in Hr by lia. simpl in Hr.
    rewrite Hr. f_equal. f_equal. rewrite Zplus_mod_idemp_l. f_equal. lia.
Qed.

(** Copying a ring to the front of a longer array keeps its contents. *)
Lemma ring_copy l l' h n xs :
  ring_repr l h n xs → n ≤ Zlen l' →
  (∀ i, 0 ≤ i < n → l' !! Z.to_nat i = l !! Z.to_nat ((h + i) mod Zlen l)) →
  ring_repr l' 0 n xs.
Proof.
  intros [Hlen Hr] Hle Hc. split; [done|]. intros i Hi.
  rewrite Hr, <- Hc by lia. f_equal. f_equal. rewrite Z.mod_small; lia.
Qed.

Lemma ring_unroll l l' h xs :
  ring_repr l h (Zlen l) xs → Zlen l ≤ Zlen l' →
  (∀ i, 0 ≤ i < Zlen l → l' !! Z.to_nat i = l !! Z.to_nat ((h + i) mod Zlen l)) →
  ring_repr l' 0 (Zlen l) xs.
Proof. apply ring_copy. Qed.
End ring.

Lemma Zlen_app {A} (l k : list A) : Zlen (l ++ k) = Zlen l + Zlen k.
Proof. unfold Zlen. rewrite length_app. lia. Qed.
Lemma Zlen_cons {A} (x : A) l : Zlen (x :: l) = 1 + Zlen l.
Proof. unfold Zlen. simpl. lia. Qed.
Lemma Zlen_nil {A} : Zlen (@nil A) = 0.
Proof. done. Qed.
Lemma Zlen_0 {A} (l : list A) : Zlen l = 0 → l = [].
Proof. destruct l; [done|]. unfold Zlen. cbn. lia. Qed.
Lemma Zlen_replicate {A} n (x : A) : 0 ≤ n → Zlen (replicate (Z.to_nat n) x) = n.
Proof. intros. unfold Zlen. rewrite length_replicate. lia. Qed.

Lemma Zlen_fmap {A B} (f : A → B) l : Zlen (f <$> l) = Zlen l.
Proof. unfold Zlen. by rewrite length_fmap. Qed.
Lemma Zlen_seqZ i n : 0 ≤ n → Zlen (seqZ i n) = n.
Proof. intros. unfold Zlen. rewrite length_seqZ. lia. Qed.

(** ** Concatenation *)
Lemma mjoin_cons {A} (x : list A) l : mjoin (x :: l) = x ++ mjoin l.
Proof. done. Qed.

Lemma mjoin_snoc {A} (l : list (list A)) x : mjoin (l ++ [x]) = mjoin l ++ x.
Proof.
  induction l as [|y l IH]; [by rewrite app_nil_l, mjoin_cons, app_nil_r|].
  by rewrite <- app_comm_cons, !mjoin_cons, IH, app_assoc.
Qed.

(** A loop that fills an array from another one succeeds when every read does. *)
Lemma mapM_Ret {A B} (f : A → outcome B) (g : A → B) (l : list A) :
  (∀ x, x ∈ l → f x = Ret (g x)) → mapM f l = Ret (g <$> l).
Proof.
  induction l as [|x l IH]; intros Hf; [done|]. simpl.
  rewrite Hf by set_solver. simpl. rewrite IH by set_solver. done.
Qed.

#[export] Hint Resolve ring_repr_nil Zlen_nonneg mod_range : skynet.
#[export] Hint Rewrite @Zlen_insert @Zlen_app @Zlen_cons @Zlen_nil : skynet.

(** ** Counting loops

    [for_loop n i d body s] runs [body] at [i], [i+d], ... for [n] rounds: the
    source's [for] loops, whose bounds do not change while they run. *)
Section for_loop.
Context {S : Type} (body : Z → S → outcome S).

Fixpoint for_loop (n : nat) (i d : Z) (s : S) : outcome S :=
  match n with
  | O => Ret s
  | Datatypes.S n => s ← body i s; for_loop n (i + d) d s
  end.

(** The invariant rule: [P k s] before round [k]. *)
Lemma for_loop_inv (P : Z → S → Prop) n i d s :
  P 0 s →
  (∀ k s, 0 ≤ k < Z.of_nat n → P k s → ∃ s', body (i + k * d) s = Ret s' ∧ P (k + 1) s') →
  ∃ s', for_loop n i d s = Ret s' ∧ P (Z.of_nat n) s'.
Proof.
  revert i s P. induction n as [|n IH]; intros i s P H0 Hstep; [eauto|].
  destruct (Hstep 0 s) as (s1 & E & H1); [lia|done|].
  rewrite Z.mul_0_l, Z.add_0_r in E. simpl. rewrite E. simpl.
  destruct (IH (i + d) s1 (λ k, P (k + 1))) as (s2 & E2 & H2); [done| |].
  - intros k s' Hk Hs'. destruct (Hstep (k + 1) s') as (s3 & E3 & H3); [lia|done|].
    exists s3. split; [|done]. rewrite <- E3. f_equal. lia.
  - exists s2. split; [done|]. replace (Z.of_nat (Datatypes.S n)) with (Z.of_nat n + 1) by lia.
    done.
Qed.
End for_loop.

(** ** Powers of two and masks *)
Lemma land_mask x k : 0 ≤ k → Z.land x (2 ^ k - 1) = x mod 2 ^ k.
Proof. intros. rewrite <- Z.land_ones by done. f_equal. rewrite Z.ones_equiv. lia. Qed.

Lemma land_shiftl_low x y k : 0 ≤ k → 0 ≤ x < 2 ^ k → Z.land x (Z.shiftl y k) = 0.
Proof.
  intros Hk Hx. apply Z.bits_inj'. intros n Hn. rewrite Z.land_spec, Z.bits_0.
  destruct (Z.lt_ge_cases n k).
  - rewrite Z.shiftl_spec_low by lia. apply andb_false_r.
  - replace (Z.testbit x n) with false; [done|]. symmetry.
    rewrite <- (Z.mod_small x (2 ^ k)) by done. apply Z.mod_pow2_bits_high. lia.
Qed.

(** or-ing high bits onto a small number is addition *)
Lemma lor_high x y k : 0 ≤ k → 0 ≤ x < 2 ^ k → Z.lor x (y * 2 ^ k) = x + y * 2 ^ k.
Proof.
  intros Hk Hx. rewrite <- Z.shiftl_mul_pow2 by done.
  pose proof (land_shiftl_low x y k Hk Hx).
  by rewrite Z.add_nocarry_lxor, Z.lxor_lor.
Qed.

(** or-ing a low mask keeps the high part and fills the low one *)
Lemma lor_mask x k : 0 ≤ k → Z.lor x (2 ^ k - 1) = (x / 2 ^ k) * 2 ^ k + (2 ^ k - 1).
Proof.
  intros Hk. assert (0 < 2 ^ k) by lia.
  rewrite Z.add_comm, <- lor_high by lia. rewrite Z.lor_comm.
  apply Z.bits_inj'. intros n Hn. rewrite !Z.lor_spec.
  replace (2 ^ k - 1) with (Z.ones k) by (rewrite Z.ones_equiv; lia).
  destruct (Z.lt_ge_cases n k).
  - by rewrite Z.ones_spec_low by lia.
  - rewrite Z.ones_spec_high, Z.mul_pow2_bits, Z.div_pow2_bits by lia.
    simpl. f_equal. lia.
Qed.

Lemma lor_mask_eq x y k :
  0 ≤ k → Z.lor x (2 ^ k - 1) = Z.lor y (2 ^ k - 1) ↔ x / 2 ^ k = y / 2 ^ k.
Proof. intros Hk. rewrite !lor_mask by done. assert (0 < 2 ^ k) by lia. split; nia. Qed.

(** residues of a residue *)
Lemma mod_pow2_mod x j k : 0 ≤ j ≤ k → (x mod 2 ^ k) mod 2 ^ j = x mod 2 ^ j.
Proof.
  intros. apply Z.mod_mod_divide. exists (2 ^ (k - j)).
  rewrite <- Z.pow_add_r by lia. f_equal. lia.
Qed.
