(* ===== verification/CLib.v ===== *)
(** * The constants of the public interface: skynet.h, skynet_harbor.h and skynet_socket.h *)
From S2P Require Import Prelude.
From Stdlib Require Import Ascii String.
#[local] Open Scope Z_scope.

(** types of messages *)
Definition PTYPE_TEXT : Z := 0.
Definition PTYPE_RESPONSE : Z := 1.
Definition PTYPE_CLIENT : Z := 3.
Definition PTYPE_SYSTEM : Z := 4.
Definition PTYPE_HARBOR : Z := 5.
Definition PTYPE_SOCKET : Z := 6.
Definition PTYPE_ERROR : Z := 7.
Definition PTYPE_TAG_DONTCOPY : Z := 0x10000.
Definition PTYPE_TAG_ALLOCSESSION : Z := 0x20000.

Definition GLOBALNAME_LENGTH : Z := 16.
Definition REMOTE_MAX : Z := 256.

(** types of the events of the socket thread *)
Definition SKYNET_SOCKET_TYPE_DATA : Z := 1.
Definition SKYNET_SOCKET_TYPE_CONNECT : Z := 2.
Definition SKYNET_SOCKET_TYPE_CLOSE : Z := 3.
Definition SKYNET_SOCKET_TYPE_ACCEPT : Z := 4.
Definition SKYNET_SOCKET_TYPE_ERROR : Z := 5.
Definition SKYNET_SOCKET_TYPE_UDP : Z := 6.
Definition SKYNET_SOCKET_TYPE_WARNING : Z := 7.

(** ** The parts of the C library the program uses on strings

    A C string is the sequence of its characters before the terminating NUL,
    modelled as a [string]. *)
(** the character as an [unsigned char] *)
Definition char_code (c : ascii) : Z := Z.of_N (N_of_ascii c).

Lemma char_code_inj c d : char_code c = char_code d → c = d.
Proof.
  unfold char_code. intros E%N2Z.inj. rewrite <- (ascii_N_embedding c), E.
  apply ascii_N_embedding.
Qed.

(** the characters before the first zero *)
Fixpoint c_text (s : list Z) : string :=
  match s with
  | [] => EmptyString
  | x :: s => if bool_decide (x = 0) then EmptyString else String (ascii_of_N (Z.to_N x)) (c_text s)
  end.

(** [strcmp]: C specifies the sign of the result only *)
Fixpoint strcmp (a b : string) : Z :=
  match a, b with
  | EmptyString, EmptyString => 0
  | EmptyString, String _ _ => -1
  | String _ _, EmptyString => 1
  | String c a, String d b => if decide (char_code c = char_code d) then strcmp a b
                              else char_code c - char_code d
  end.

Definition strlt (a b : string) : Prop := strcmp a b < 0.

Lemma strcmp_refl a : strcmp a a = 0.
Proof. induction a as [|c a IH]; simpl; [done|]. by rewrite decide_True. Qed.

Lemma strcmp_eq a b : strcmp a b = 0 ↔ a = b.
Proof.
  split; [|intros ->; apply strcmp_refl].
  revert b. induction a as [|c a IH]; intros [|d b]; simpl; try done.
  case_decide as E; [|lia]. apply char_code_inj in E as ->. intros ->%IH. done.
Qed.

Lemma strcmp_antisym a b : strcmp a b < 0 ↔ 0 < strcmp b a.
Proof.
  revert b. induction a as [|c a IH]; intros [|d b]; simpl; try lia.
  repeat case_decide; try lia. apply IH.
Qed.

#[export] Instance strlt_transitive : Transitive strlt.
Proof.
  unfold strlt. intros a. induction a as [|c a IH]; intros [|d b] [|e f]; simpl; try lia.
  repeat case_decide; try lia. apply IH.
Qed.

#[export] Instance strlt_irreflexive : Irreflexive strlt.
Proof. intros a. unfold complement, strlt. rewrite strcmp_refl. lia. Qed.
