(* ===== verification/Mq.v ===== *)
(** * Message queues: skynet-src/skynet_mq.c and skynet_mq.h

    A [message_queue] is a growing ring of messages; the queues that have work
    are linked, through their [next] field, into the one global queue [Q] the
    worker threads pop from. Queues live in a store indexed by address, so the
    intrusive list is modelled with its pointers. Every function body runs
    under a spin lock in the source and is one atomic transition here. *)
From S2P Require Import Prelude.

Definition DEFAULT_QUEUE_SIZE : Z := 64.
Definition MQ_IN_GLOBAL : Z := 1.
Definition MQ_OVERLOAD : Z := 1024.

Record skynet_message : Type := Message {
  source : Z;
  session : Z;
  data : option loc;
  sz : Z
}.

(** a cell of a freshly allocated array, whose value C does not define *)
Definition junk_message : skynet_message := Message 0 0 None 0.

Record message_queue : Type := MessageQueue {
  handle : Z;
  cap : Z;
  head : Z;
  tail : Z;
  release : Z;
  in_global : Z;
  overload : Z;
  overload_threshold : Z;
  queue : list skynet_message;
  next : option loc
}.

Record global_queue : Type := GlobalQueue {
  gq_head : option loc;
  gq_tail : option loc
}.

(** every live message queue, and the global queue [Q] *)
Record mq_store : Type := MqStore {
  mqs : gmap loc message_queue;
  Q : global_queue
}.

#[export] Instance skynet_message_eq_dec : EqDecision skynet_message.
Proof. solve_decision. Defined.

(** ** Field updates *)
Definition set_head (v : Z) (q : message_queue) : message_queue :=
  MessageQueue (handle q) (cap q) v (tail q) (release q) (in_global q) (overload q)
    (overload_threshold q) (queue q) (next q).
Definition set_tail (v : Z) (q : message_queue) : message_queue :=
  MessageQueue (handle q) (cap q) (head q) v (release q) (in_global q) (overload q)
    (overload_threshold q) (queue q) (next q).
Definition set_release (v : Z) (q : message_queue) : message_queue :=
  MessageQueue (handle q) (cap q) (head q) (tail q) v (in_global q) (overload q)
    (overload_threshold q) (queue q) (next q).
Definition set_in_global (v : Z) (q : message_queue) : message_queue :=
  MessageQueue (handle q) (cap q) (head q) (tail q) (release q) v (overload q)
    (overload_threshold q) (queue q) (next q).
Definition set_overload (v t : Z) (q : message_queue) : message_queue :=
  MessageQueue (handle q) (cap q) (head q) (tail q) (release q) (in_global q) v
    t (queue q) (next q).
Definition set_queue (l : list skynet_message) (q : message_queue) : message_queue :=
  MessageQueue (handle q) (cap q) (head q) (tail q) (release q) (in_global q) (overload q)
    (overload_threshold q) l (next q).
Definition set_cap (c : Z) (q : message_queue) : message_queue :=
  MessageQueue (handle q) c (head q) (tail q) (release q) (in_global q) (overload q)
    (overload_threshold q) (queue q) (next q).
Definition set_next (n : option loc) (q : message_queue) : message_queue :=
  MessageQueue (handle q) (cap q) (head q) (tail q) (release q) (in_global q) (overload q)
    (overload_threshold q) (queue q) n.

Definition store_mq (p : loc) (q : message_queue) (s : mq_store) : mq_store :=
  MqStore (<[p := q]> (mqs s)) (Q s).
Definition load_mq (p : loc) (s : mq_store) : outcome message_queue := deref (mqs s !! p).

(** ** The global queue *)
Definition skynet_globalmq_push (p : loc) (s : mq_store) : outcome mq_store :=
  q ← load_mq p s;
  cassert (bool_decide (next q = None));;
  match gq_tail (Q s) with
  | Some t =>
      tq ← load_mq t s;
      let s := store_mq t (set_next (Some p) tq) s in
      Ret (MqStore (mqs s) (GlobalQueue (gq_head (Q s)) (Some p)))
  | None => Ret (MqStore (mqs s) (GlobalQueue (Some p) (Some p)))
  end.

Definition skynet_globalmq_pop (s : mq_store) : outcome (option loc * mq_store) :=
  match gq_head (Q s) with
  | None => Ret (None, s)
  | Some p =>
      q ← load_mq p s;
      tl ← (match next q with
            | None =>
                cassert (bool_decide (gq_tail (Q s) = Some p));;
                Ret None
            | Some _ => Ret (gq_tail (Q s))
            end);
      Ret (Some p, store_mq p (set_next None q) (MqStore (mqs s) (GlobalQueue (next q) tl)))
  end.

(** ** One queue *)
Definition skynet_mq_create (h : Z) : message_queue :=
  MessageQueue h DEFAULT_QUEUE_SIZE 0 0 0 MQ_IN_GLOBAL 0 MQ_OVERLOAD
    (replicate (Z.to_nat DEFAULT_QUEUE_SIZE) junk_message) None.

(** [_release]: the queue object is gone *)
Definition _release (p : loc) (s : mq_store) : outcome mq_store :=
  q ← load_mq p s;
  cassert (bool_decide (next q = None));;
  Ret (MqStore (delete p (mqs s)) (Q s)).

Definition skynet_mq_handle (q : message_queue) : Z := handle q.

Definition skynet_mq_length (q : message_queue) : Z :=
  if bool_decide (head q ≤ tail q) then tail q - head q
  else tail q + cap q - head q.

(** returns the pending overload mark and clears it *)
Definition skynet_mq_overload (q : message_queue) : Z * message_queue :=
  if bool_decide (overload q ≠ 0)
  then (overload q, set_overload 0 (overload_threshold q) q)
  else (0, q).

(** [while (length > q->overload_threshold)]: the threshold doubles, so 32
    rounds reach any [int] length. *)
Definition OVERLOAD_FUEL : nat := 32.
Fixpoint overload_loop (fuel : nat) (length : Z) (q : message_queue) : outcome message_queue :=
  if bool_decide (overload_threshold q < length) then
    match fuel with
    | O => NoFuel
    | S fuel =>
        t ← chk_int (overload_threshold q * 2);
        overload_loop fuel length (set_overload length t q)
    end
  else Ret q.

(** [Ret (Some m, q')] is the source's return value 0 with [*message = m],
    [Ret (None, q')] its return value 1. *)
Definition skynet_mq_pop (q : message_queue) : outcome (option skynet_message * message_queue) :=
  if bool_decide (head q ≠ tail q) then
    m ← get_idx (queue q) (head q);
    let q := set_head (head q + 1) q in
    let q := if bool_decide (cap q ≤ head q) then set_head 0 q else q in
    let length := tail q - head q in
    let length := if bool_decide (length < 0) then length + cap q else length in
    q ← overload_loop OVERLOAD_FUEL length q;
    Ret (Some m, q)
  else
    let q := set_overload (overload q) MQ_OVERLOAD q in
    Ret (None, set_in_global 0 q).

Definition expand_queue (q : message_queue) : outcome message_queue :=
  copied ← mapM (λ i, get_idx (queue q) ((head q + i) mod cap q)) (seqZ 0 (cap q));
  let new_queue := copied ++ replicate (Z.to_nat (cap q)) junk_message in
  let q' := set_tail (cap q) (set_head 0 q) in
  c ← chk_int (cap q * 2);
  Ret (set_queue new_queue (set_cap c q')).

(** the part of [skynet_mq_push] that stores the message *)
Definition mq_put (m : skynet_message) (q : message_queue) : outcome message_queue :=
  l ← set_idx (queue q) (tail q) m;
  let q := set_tail (tail q + 1) (set_queue l q) in
  let q := if bool_decide (cap q ≤ tail q) then set_tail 0 q else q in
  if bool_decide (head q = tail q) then expand_queue q else Ret q.

Definition skynet_mq_push (p : loc) (m : skynet_message) (s : mq_store) : outcome mq_store :=
  q ← load_mq p s;
  q ← mq_put m q;
  if bool_decide (in_global q = 0)
  then skynet_globalmq_push p (store_mq p (set_in_global MQ_IN_GLOBAL q) s)
  else Ret (store_mq p q s).

Definition skynet_mq_init : mq_store := MqStore ∅ (GlobalQueue None None).

Definition skynet_mq_mark_release (p : loc) (s : mq_store) : outcome mq_store :=
  q ← load_mq p s;
  cassert (bool_decide (release q = 0));;
  let s := store_mq p (set_release 1 q) s in
  if bool_decide (in_global q ≠ MQ_IN_GLOBAL) then skynet_globalmq_push p s else Ret s.

(** [skynet_mq_pop] on the queue at address [p] *)
Definition mq_pop_at (p : loc) (s : mq_store) : outcome (option skynet_message * mq_store) :=
  q ← load_mq p s;
  '(m, q) ← skynet_mq_pop q;
  Ret (m, store_mq p q s).

(** ** Releasing a queue

    [_drop_queue] calls back into the program for every message, so it runs in
    any world [W] that contains the queue store. *)
Class HasMq (W : Type) : Type := {
  get_mq : W → mq_store;
  put_mq : mq_store → W → W
}.
#[export] Instance mq_store_HasMq : HasMq mq_store :=
  {| get_mq := λ s, s; put_mq := λ s _, s |}.

Section release.
Context {W : Type} `{!HasMq W}.

Fixpoint _drop_queue (fuel : nat) (p : loc)
  (drop_func : skynet_message → W → outcome W) (w : W) : outcome W :=
  match fuel with
  | O => NoFuel
  | S fuel =>
    '(m, s) ← mq_pop_at p (get_mq w);
    let w := put_mq s w in
    match m with
    | Some msg => w ← drop_func msg w; _drop_queue fuel p drop_func w
    | None => s ← _release p (get_mq w); Ret (put_mq s w)
    end
  end.

(** one round per queued message and one for the empty queue *)
Definition drop_fuel (q : message_queue) : nat := S (Z.to_nat (skynet_mq_length q)).

Definition skynet_mq_release (p : loc)
  (drop_func : skynet_message → W → outcome W) (w : W) : outcome W :=
  q ← load_mq p (get_mq w);
  if bool_decide (release q ≠ 0)
  then _drop_queue (drop_fuel q) p drop_func w
  else s ← skynet_globalmq_push p (get_mq w); Ret (put_mq s w).
End release.

(** ** What a queue holds

    [mq_repr q xs]: the ring of [q] holds exactly the messages [xs], oldest
    first. One cell always stays free, so [head = tail] means empty. *)
Record mq_wf (q : message_queue) : Prop := {
  wf_cap : ∃ k, 0 ≤ k ≤ 30 ∧ cap q = 2 ^ k;
  wf_queue : Zlen (queue q) = cap q;
  wf_head : 0 ≤ head q < cap q;
  wf_threshold : MQ_OVERLOAD ≤ overload_threshold q
}.

Record mq_repr (q : message_queue) (xs : list skynet_message) : Prop := {
  repr_wf : mq_wf q;
  repr_ring : ring_repr (queue q) (head q) (Zlen xs) xs;
  repr_tail : tail q = (head q + Zlen xs) mod cap q;
  repr_free : Zlen xs < cap q
}.

Lemma load_mq_Some p s q : mqs s !! p = Some q → load_mq p s = Ret q.
Proof. intros H. unfold load_mq. by rewrite H. Qed.

(** the fields neither a push nor a pop of messages touches *)
Definition same_flags (q q' : message_queue) : Prop :=
  handle q' = handle q ∧ release q' = release q ∧ next q' = next q.

Lemma wf_cap_bound q : mq_wf q → 0 < cap q ≤ 2 ^ 30.
Proof.
  intros [(k & Hk & ->) _ _ _]. split; [lia|]. apply Z.pow_le_mono_r; lia.
Qed.

(** closes [mq_repr] goals that differ from [H] in flags only *)
Ltac mq_frame H :=
  destruct H as [[] ? ? ?]; split; [split|..]; simpl in *; solve [done | lia].

Lemma mq_create_repr h : mq_repr (skynet_mq_create h) [].
Proof.
  unfold skynet_mq_create, DEFAULT_QUEUE_SIZE.
  split; [split|..]; simpl; try done; try apply ring_repr_nil; try lia.
  exists 6. split; [lia|done].
Qed.

Lemma skynet_mq_length_repr q xs : mq_repr q xs → skynet_mq_length q = Zlen xs.
Proof.
  intros [Hwf _ Ht Hf]. pose proof (wf_head _ Hwf). pose proof (Zlen_nonneg xs).
  unfold skynet_mq_length. rewrite Ht.
  destruct (decide (head q + Zlen xs < cap q)).
  - rewrite Z.mod_small by lia. case_bool_decide; lia.
  - replace ((head q + Zlen xs) mod cap q) with (head q + Zlen xs - cap q)
      by (apply (Z.mod_unique_pos _ _ 1); lia).
    case_bool_decide; lia.
Qed.

Lemma head_tail_empty q xs : mq_repr q xs → head q = tail q ↔ xs = [].
Proof.
  intros H. pose proof (skynet_mq_length_repr _ _ H) as Hlen.
  destruct H as [Hwf _ Ht Hf]. pose proof (wf_head _ Hwf).
  pose proof (mod_range (head q + Zlen xs) (cap q) ltac:(lia)).
  unfold skynet_mq_length in Hlen. split.
  - intros E. rewrite bool_decide_eq_true_2 in Hlen by lia.
    destruct xs; [done|]. autorewrite with skynet in *.
    pose proof (Zlen_nonneg xs). lia.
  - intros ->. rewrite Ht, Zlen_nil, Z.add_0_r, Z.mod_small; lia.
Qed.

Lemma expand_queue_repr q xs :
  mq_wf q → tail q = head q → Zlen xs = cap q → cap q < 2 ^ 30 →
  ring_repr (queue q) (head q) (cap q) xs →
  ∃ q', expand_queue q = Ret q' ∧ mq_repr q' xs ∧ same_flags q q' ∧
        in_global q' = in_global q.
Proof.
  intros Hwf Ht Hlen Hlt Hr. pose proof (wf_cap_bound _ Hwf) as Hb.
  pose proof (wf_queue _ Hwf) as Hq. pose proof (wf_head _ Hwf) as Hh.
  destruct (wf_cap _ Hwf) as (k & Hk & Hcap).
  set (cell := λ i, default junk_message (queue q !! Z.to_nat ((head q + i) mod cap q))).
  assert (∀ i, queue q !! Z.to_nat ((head q + i) mod cap q) = Some (cell i)) as Hcell.
  { intros i. unfold cell. pose proof (mod_range (head q + i) (cap q) ltac:(lia)).
    destruct (lookup_lt_is_Some_2 (queue q) (Z.to_nat ((head q + i) mod cap q))) as [x Hx];
      [unfold Zlen in *; lia|]. by rewrite Hx. }
  eexists. unfold expand_queue.
  rewrite (mapM_Ret _ cell).
  2:{ intros i _. apply get_idx_Ret. split; [apply mod_range; lia | apply Hcell]. }
  simpl. rewrite chk_int_ok by (unfold INT_MAX; lia). simpl.
  split; [done|]. split; [|done].
  assert (k ≠ 30) by (intros ->; lia).
  assert (2 ^ (k + 1) = 2 * 2 ^ k) as Hpow by (rewrite Z.pow_add_r; lia).
  split; simpl.
  - split; simpl; [| | lia | exact (wf_threshold _ Hwf)].
    + exists (k + 1). lia.
    + autorewrite with skynet. rewrite Zlen_replicate by lia.
      unfold Zlen. rewrite length_fmap, length_seqZ. lia.
  - rewrite Hlen. rewrite <- Hq in Hr |- *. eapply ring_unroll; [exact Hr| |].
    + autorewrite with skynet. unfold Zlen. rewrite length_fmap, length_seqZ. lia.
    + intros i Hi. rewrite Hq in *. rewrite Hcell.
      rewrite lookup_app_l by (rewrite length_fmap, length_seqZ; lia).
      rewrite list_lookup_fmap, lookup_seqZ_lt by lia. simpl. do 2 f_equal. lia.
  - rewrite Z.mod_small; lia.
  - lia.
Qed.

(** Storing one more message in a queue that does not outgrow an [int] capacity. *)
Lemma mq_put_repr q xs m :
  mq_repr q xs → Zlen xs + 1 < 2 ^ 30 →
  ∃ q', mq_put m q = Ret q' ∧ mq_repr q' (xs ++ [m]) ∧ same_flags q q' ∧
        in_global q' = in_global q.
Proof.
  intros [Hwf Hr Ht Hf] Hbig. pose proof (wf_cap_bound _ Hwf) as Hb.
  pose proof (wf_queue _ Hwf) as Hq. pose proof (wf_head _ Hwf) as Hh.
  pose proof (Zlen_nonneg xs).
  pose proof (mod_range (head q + Zlen xs) (cap q) ltac:(lia)) as Htr.
  unfold mq_put. rewrite set_idx_ok by (rewrite Hq; lia). simpl.
  set (l' := <[Z.to_nat (tail q) := m]> (queue q)).
  set (t' := (tail q + 1) mod cap q).
  assert ((if bool_decide (cap q ≤ tail q + 1)
           then set_tail 0 (set_tail (tail q + 1) (set_queue l' q))
           else set_tail (tail q + 1) (set_queue l' q))
          = set_tail t' (set_queue l' q)) as ->.
  { unfold t'. rewrite ring_succ by lia. by case_bool_decide; case_decide. }
  simpl.
  assert (t' = (head q + Zlen (xs ++ [m])) mod cap q) as Ht'.
  { unfold t'. rewrite Ht. autorewrite with skynet. rewrite Zplus_mod_idemp_l. f_equal. lia. }
  assert (ring_repr l' (head q) (Zlen (xs ++ [m])) (xs ++ [m])) as Hr'.
  { unfold l'. rewrite Ht, <- Hq. replace (Zlen (xs ++ [m])) with (Zlen xs + 1)
      by (autorewrite with skynet; lia). apply ring_push; [done|lia]. }
  assert (Zlen l' = cap q) as Hl' by (unfold l'; by rewrite Zlen_insert).
  assert (mq_wf (set_tail t' (set_queue l' q))) as Hwf'.
  { destruct Hwf. by split. }
  case_bool_decide as Hfull.
  - assert (Zlen (xs ++ [m]) = cap q) as Hn.
    { autorewrite with skynet in Ht' |- *.
      destruct (decide (Zlen xs + (1 + 0) = cap q)); [done|].
      assert (0 = Zlen xs + (1 + 0)); [|lia].
      apply (ring_offset_inj (head q) _ _ (cap q)); try lia.
      rewrite <- Ht', <- Hfull, Z.add_0_r, Z.mod_small; lia. }
    apply (expand_queue_repr (set_tail t' (set_queue l' q)) (xs ++ [m]) Hwf'); simpl; [done..| |].
    + autorewrite with skynet in Hn. lia.
    + by rewrite <- Hn.
  - eexists. split; [done|]. split; [|done]. split; simpl; [done..|].
    autorewrite with skynet in *.
    destruct (decide (Zlen xs + (1 + 0) = cap q)); [|lia].
    exfalso. apply Hfull. rewrite Ht'.
    replace (head q + (Zlen xs + (1 + 0))) with (head q + 1 * cap q) by lia.
    rewrite Z.mod_add, Z.mod_small; lia.
Qed.

Lemma overload_eta q : q = set_overload (overload q) (overload_threshold q) q.
Proof. by destruct q. Qed.

Lemma overload_loop_spec fuel len q :
  MQ_OVERLOAD ≤ overload_threshold q → len ≤ 2 ^ 30 →
  len ≤ overload_threshold q * 2 ^ Z.of_nat fuel →
  ∃ v t, overload_loop fuel len q = Ret (set_overload v t q) ∧ len ≤ t ∧
    (len ≤ overload_threshold q → v = overload q ∧ t = overload_threshold q) ∧
    (overload_threshold q < len → v = len ∧ overload_threshold q < t < 2 * len).
Proof.
  unfold MQ_OVERLOAD. revert q. induction fuel as [|fuel IH]; intros q Ht Hlen Hf; simpl.
  - rewrite Z.pow_0_r in Hf. rewrite bool_decide_eq_false_2 by lia.
    exists (overload q), (overload_threshold q). rewrite <- overload_eta.
    split; [done|]. lia.
  - case_bool_decide as Hc; simpl.
    + rewrite chk_int_ok by (unfold INT_MAX; lia). simpl.
      rewrite Nat2Z.inj_succ, Z.pow_succ_r in Hf by lia.
      destruct (IH (set_overload len (overload_threshold q * 2) q))
        as (v & t & -> & Hle & Hsmall & Hbig); simpl in *; [lia..|].
      exists v, t. split; [done|]. split; [done|]. split; [lia|]. intros _.
      destruct (decide (len ≤ overload_threshold q * 2)).
      * destruct Hsmall as [-> ->]; lia.
      * destruct Hbig as [-> ?]; lia.
    + exists (overload q), (overload_threshold q). rewrite <- overload_eta.
      split; [done|]. lia.
Qed.

#[global] Arguments overload_loop : simpl never.

(** What a pop does to a non-empty queue. *)
Lemma mq_pop_cons q x xs :
  mq_repr q (x :: xs) →
  ∃ v t, skynet_mq_pop q = Ret (Some x, set_overload v t (set_head ((head q + 1) mod cap q) q)) ∧
    mq_repr (set_overload v t (set_head ((head q + 1) mod cap q) q)) xs ∧
    (Zlen xs ≤ overload_threshold q → v = overload q ∧ t = overload_threshold q) ∧
    (overload_threshold q < Zlen xs → v = Zlen xs ∧ overload_threshold q < t < 2 * Zlen xs) ∧
    Zlen xs ≤ t.
Proof.
  intros H. pose proof (head_tail_empty _ _ H) as Hne.
  destruct H as [Hwf Hr Ht Hf]. pose proof (wf_cap_bound _ Hwf) as Hb.
  pose proof (wf_queue _ Hwf) as Hq. pose proof (wf_head _ Hwf) as Hh.
  autorewrite with skynet in *. pose proof (Zlen_nonneg xs).
  apply ring_pop in Hr as [Hx Hr]; [|lia]. rewrite Hq in Hr.
  set (h' := (head q + 1) mod cap q) in *.
  assert (0 ≤ h' < cap q) by (apply mod_range; lia).
  assert (mq_repr (set_head h' q) xs) as Hrepr.
  { split; simpl; [destruct Hwf; by split| | |lia].
    - by replace (Zlen xs) with (1 + Zlen xs - 1) by lia.
    - rewrite Ht. unfold h'. rewrite Zplus_mod_idemp_l. f_equal. lia. }
  pose proof (skynet_mq_length_repr _ _ Hrepr) as Hlen.
  unfold skynet_mq_length in Hlen; simpl in Hlen.
  unfold skynet_mq_pop. rewrite bool_decide_eq_true_2 by naive_solver.
  assert (get_idx (queue q) (head q) = Ret x) as -> by (apply get_idx_Ret; split; [lia|done]).
  simpl.
  assert ((if bool_decide (cap q ≤ head q + 1) then set_head 0 (set_head (head q + 1) q)
           else set_head (head q + 1) q) = set_head h' q) as ->.
  { unfold h'. rewrite ring_succ by lia. clear Hlen. by case_bool_decide; case_decide. }
  simpl.
  assert ((if bool_decide (tail q - h' < 0) then tail q - h' + cap q else tail q - h')
          = Zlen xs) as ->.
  { rewrite <- Hlen. repeat case_bool_decide; lia. }
  destruct (overload_loop_spec OVERLOAD_FUEL (Zlen xs) (set_head h' q)) as (v & t & E & Hle & Hs & Hg).
  { apply Hwf. } { lia. }
  { simpl. pose proof (wf_threshold _ Hwf). unfold MQ_OVERLOAD in *.
    assert (2 ^ Z.of_nat OVERLOAD_FUEL = 4294967296) as -> by done. lia. }
  exists v, t. rewrite E. simpl in *. split; [done|]. split; [|done].
  destruct Hrepr as [[] ? ? ?]. split; [split|..]; try done; simpl.
  destruct (decide (Zlen xs ≤ overload_threshold q)); pose proof (wf_threshold _ Hwf); lia.
Qed.

Lemma mq_pop_nil q :
  mq_repr q [] →
  skynet_mq_pop q = Ret (None, set_in_global 0 (set_overload (overload q) MQ_OVERLOAD q)) ∧
  mq_repr (set_in_global 0 (set_overload (overload q) MQ_OVERLOAD q)) [].
Proof.
  intros H. assert (head q = tail q) as E by (by apply (head_tail_empty _ [])).
  unfold skynet_mq_pop. rewrite bool_decide_eq_false_2 by naive_solver.
  split; [done|]. mq_frame H.
Qed.

(** C2. A message queue is a FIFO. In the state holding [xs], oldest first, the
    length is that of [xs]; a push appends (growing the ring when it is full,
    up to 2^30 messages); a pop of a non-empty queue returns the oldest message
    and leaves the rest, and a pop of an empty one reports emptiness, clears
    [in_global] and leaves it empty. *)
Theorem mq_fifo q xs :
  mq_repr q xs →
  skynet_mq_length q = Zlen xs ∧
  (∀ m, Zlen xs + 1 < 2 ^ 30 →
     ∃ q', mq_put m q = Ret q' ∧ mq_repr q' (xs ++ [m]) ∧
           same_flags q q' ∧ in_global q' = in_global q) ∧
  match xs with
  | [] => ∃ q', skynet_mq_pop q = Ret (None, q') ∧ mq_repr q' [] ∧ in_global q' = 0
  | x :: xs' => ∃ q', skynet_mq_pop q = Ret (Some x, q') ∧ mq_repr q' xs' ∧
                      in_global q' = in_global q
  end.
Proof.
  intros H. split; [by apply skynet_mq_length_repr|].
  split; [intros m; by apply mq_put_repr|].
  destruct xs as [|x xs].
  - destruct (mq_pop_nil _ H) as [-> ?]. eauto.
  - destruct (mq_pop_cons _ _ _ H) as (v & t & -> & ? & _). eauto.
Qed.

(** The overload report. Popping a message when more than the threshold
    remain records the remaining length and raises the threshold beyond it (and
    to less than twice it); otherwise nothing is recorded; emptying the queue
    puts the threshold back to [MQ_OVERLOAD]; and [skynet_mq_overload] hands a
    recorded length out exactly once. *)
Theorem mq_overload_report q x xs :
  mq_repr q (x :: xs) →
  ∃ q', skynet_mq_pop q = Ret (Some x, q') ∧ Zlen xs ≤ overload_threshold q' ∧
    (if decide (overload_threshold q < Zlen xs)
     then overload_threshold q' < 2 * Zlen xs ∧
          ∃ q'', skynet_mq_overload q' = (Zlen xs, q'') ∧
                 skynet_mq_overload q'' = (0, q'') ∧ mq_repr q'' xs
     else overload q' = overload q ∧ overload_threshold q' = overload_threshold q) ∧
    (∀ e, mq_repr e [] → ∃ e', skynet_mq_pop e = Ret (None, e') ∧
                               overload_threshold e' = MQ_OVERLOAD).
Proof.
  intros H. destruct (mq_pop_cons _ _ _ H) as (v & t & -> & Hr & Hs & Hg & Hle).
  eexists. split; [done|]. split; [done|]. split.
  - case_decide as Hd; simpl; [|apply Hs; lia].
    destruct (Hg Hd) as [-> Ht]. split; [lia|].
    pose proof (wf_threshold _ (repr_wf _ _ H)) as Hw. unfold MQ_OVERLOAD in Hw.
    unfold skynet_mq_overload. simpl. rewrite bool_decide_eq_true_2 by lia.
    eexists. split; [done|]. simpl. split; [done|].
    mq_frame Hr.
  - intros e He. destruct (mq_pop_nil _ He) as [-> _]. eauto.
Qed.

(** A push that succeeds had room: at 2^30 messages the capacity overflows. *)
Lemma mq_put_room q xs m q' :
  mq_repr q xs → mq_put m q = Ret q' → Zlen xs + 1 < 2 ^ 30.
Proof.
  intros [Hwf _ Ht Hf] E. destruct (decide (Zlen xs + 1 < 2 ^ 30)); [done|exfalso].
  pose proof (wf_cap_bound _ Hwf). pose proof (wf_head _ Hwf).
  assert (cap q = 2 ^ 30) as Hcap by lia. assert (Zlen xs = cap q - 1) as Hx by lia.
  assert ((tail q + 1) mod cap q = head q) as Hfull.
  { rewrite Ht, Zplus_mod_idemp_l, Hx.
    replace (head q + (cap q - 1) + 1) with (head q + 1 * cap q) by lia.
    rewrite Z.mod_add, Z.mod_small; lia. }
  pose proof (mod_range (head q + Zlen xs) (cap q) ltac:(lia)).
  rewrite ring_succ in Hfull by lia.
  unfold mq_put in E. apply bind_Ret in E as (l & _ & E). simpl in E.
  case_decide; [rewrite (bool_decide_eq_true_2 (cap q ≤ _)) in E by done
               |rewrite (bool_decide_eq_false_2 (cap q ≤ _)) in E by done]; simpl in E;
  (rewrite bool_decide_eq_true_2 in E by lia); unfold expand_queue in E; inv_out;
  unfold INT_MAX in *; lia.
Qed.

Lemma mq_put_inv q xs m q' :
  mq_repr q xs → mq_put m q = Ret q' →
  mq_repr q' (xs ++ [m]) ∧ same_flags q q' ∧ in_global q' = in_global q.
Proof.
  intros H E. destruct (mq_put_repr q xs m H) as (q'' & E' & ?); [by eapply mq_put_room|].
  by det.
Qed.
