(* ===== verification/GlobalMq.v ===== *)
(** * The global queue as a list, and the scheduling protocol

    [gq_repr s l] reads the intrusive list from [Q]; the push and pop of
    skynet_mq.c refine append and head removal on it. The second half models
    how worker threads, senders and the release path share the queues, as a
    step relation, and proves that no queue is ever linked twice and no queue
    with messages is ever forgotten. *)
From S2P Require Import Prelude Mq.

(** [linked m h ps]: following [next] from [h] visits exactly [ps]. *)
Fixpoint linked (m : gmap loc message_queue) (h : option loc) (ps : list loc) : Prop :=
  match ps with
  | [] => h = None
  | p :: ps => h = Some p ∧ ∃ q, m !! p = Some q ∧ linked m (next q) ps
  end.

Definition gq_repr (s : mq_store) (ps : list loc) : Prop :=
  linked (mqs s) (gq_head (Q s)) ps ∧ gq_tail (Q s) = last ps ∧ NoDup ps.

Lemma linked_insert_ne m h ps p q :
  p ∉ ps → linked m h ps → linked (<[p := q]> m) h ps.
Proof.
  revert h. induction ps as [|p' ps IH]; intros h Hp; simpl; [done|].
  intros (-> & q' & Hq' & Hl). split; [done|]. exists q'.
  rewrite lookup_insert_ne by set_solver. split; [done|]. apply IH; [set_solver|done].
Qed.

(** updating any cell without touching its [next] keeps the list *)
Lemma linked_update m h ps p q q' :
  m !! p = Some q → next q' = next q → linked m h ps → linked (<[p := q']> m) h ps.
Proof.
  intros Hp Hn. revert h. induction ps as [|p' ps IH]; intros h; simpl; [done|].
  intros (-> & x & Hx & Hl). split; [done|].
  destruct (decide (p' = p)) as [->|].
  - exists q'. rewrite lookup_insert_eq. split; [done|]. rewrite Hn. simplify_eq. auto.
  - exists x. rewrite lookup_insert_ne by done. auto.
Qed.

Lemma linked_dom m h ps p : linked m h ps → p ∈ ps → is_Some (m !! p).
Proof.
  revert h. induction ps as [|p' ps IH]; intros h; simpl; [set_solver|].
  intros (-> & q & Hq & Hl) [->|Hin]%elem_of_cons; eauto.
Qed.

Lemma linked_last_next m h ps t qt :
  linked m h ps → last ps = Some t → m !! t = Some qt → next qt = None.
Proof.
  revert h. induction ps as [|p ps IH]; intros h; simpl; [done|].
  intros (-> & q & Hq & Hl) Hlast Ht. destruct ps as [|p' ps].
  - simpl in *. naive_solver.
  - rewrite last_cons_cons in Hlast. eauto.
Qed.

Lemma linked_snoc m h ps t qt p qp :
  linked m h ps → NoDup ps → last ps = Some t → m !! t = Some qt →
  p ∉ ps → m !! p = Some qp → next qp = None →
  linked (<[t := set_next (Some p) qt]> m) h (ps ++ [p]).
Proof.
  revert h. induction ps as [|p' ps IH]; intros h Hl Hnd Hlast Ht Hp Hqp Hn; [done|].
  destruct Hl as (-> & q & Hq & Hl). split; [done|].
  apply NoDup_cons in Hnd as [Hp' Hnd]. destruct ps as [|p'' ps].
  - simpl in Hlast. simplify_eq. simpl. eexists.
    rewrite lookup_insert_eq. split; [done|]. split; [done|].
    exists qp. rewrite lookup_insert_ne by set_solver. done.
  - rewrite last_cons_cons in Hlast.
    assert (t ∈ p'' :: ps) by (by apply last_Some_elem_of).
    exists q. rewrite lookup_insert_ne by set_solver. split; [done|].
    apply IH; try done. set_solver.
Qed.

(** Pushing a queue that is not linked yet appends it. *)
Lemma globalmq_push_repr s ps p q :
  gq_repr s ps → p ∉ ps → mqs s !! p = Some q → next q = None →
  ∃ s', skynet_globalmq_push p s = Ret s' ∧ gq_repr s' (ps ++ [p]) ∧
    (∀ r, r ∈ p :: ps → is_Some (mqs s' !! r)) ∧
    (∀ r qr, mqs s !! r = Some qr →
       ∃ n, mqs s' !! r = Some (set_next n qr) ∧ (r ∉ ps → n = next qr)).
Proof.
  intros (Hl & Ht & Hnd) Hp Hq Hn. unfold skynet_globalmq_push, load_mq.
  rewrite Hq. simpl. rewrite bool_decide_eq_true_2 by done. simpl. rewrite Ht.
  assert (NoDup (ps ++ [p])).
  { apply NoDup_app. split; [done|]. split; [set_solver|]. apply NoDup_singleton. }
  destruct (last ps) as [t|] eqn:Hlast.
  - assert (t ∈ ps) as Hin by (by apply last_Some_elem_of).
    destruct (linked_dom _ _ _ _ Hl Hin) as [qt Hqt]. rewrite Hqt. simpl.
    eexists. split; [done|]. split; [split; [|split]|split]; simpl.
    + by eapply linked_snoc.
    + by rewrite last_snoc.
    + done.
    + intros r Hr. destruct (decide (r = t)) as [->|];
        [rewrite lookup_insert_eq; eauto | rewrite lookup_insert_ne by done].
      apply elem_of_cons in Hr as [->|]; [eauto|by eapply linked_dom].
    + intros r qr Hr. destruct (decide (t = r)) as [->|].
      * exists (Some p). rewrite lookup_insert_eq. simplify_eq. split; [done|]. set_solver.
      * exists (next qr). rewrite lookup_insert_ne by done. by destruct qr.
  - apply last_None in Hlast as ->. eexists. split; [done|]. split; [split; [|split]|split]; simpl.
    + split; [done|]. exists q. done.
    + done.
    + done.
    + set_solver.
    + intros r qr Hr. exists (next qr). by destruct qr.
Qed.

(** Popping returns the oldest queue, unlinked, or nothing when it is empty. *)
Lemma globalmq_pop_repr s ps :
  gq_repr s ps →
  match ps with
  | [] => skynet_globalmq_pop s = Ret (None, s)
  | p :: ps' => ∃ q, mqs s !! p = Some q ∧ ∃ s',
      skynet_globalmq_pop s = Ret (Some p, s') ∧ gq_repr s' ps' ∧
      mqs s' = <[p := set_next None q]> (mqs s)
  end.
Proof.
  intros (Hl & Ht & Hnd). unfold skynet_globalmq_pop. destruct ps as [|p ps].
  - simpl in Hl. by rewrite Hl.
  - destruct Hl as (Hh & q & Hq & Hl). rewrite Hh. unfold load_mq. rewrite Hq. simpl.
    exists q. split; [done|]. apply NoDup_cons in Hnd as [Hp Hnd].
    destruct ps as [|p' ps].
    + simpl in Hl. rewrite Hl, Ht. simpl. rewrite bool_decide_eq_true_2 by done. simpl.
      eexists. split; [done|]. split; [|done]. split; [done|]. split; [done|].
      apply NoDup_nil_2.
    + pose proof Hl as [Hn _].
      apply (linked_insert_ne _ _ _ p (set_next None q) Hp) in Hl.
      rewrite Hn in Hl |- *. simpl.
      eexists. split; [done|]. split; [|done]. split; [exact Hl|done].
Qed.

(** ** The scheduling protocol

    [held] is the set of queues some thread owns: a worker that popped the
    queue from [Q], or the thread creating the service. The steps are the calls
    of skynet_server.c, each under its lock. *)
Record sched : Type := Sched { st : mq_store; held : gset loc }.

Inductive sched_step : sched → sched → Prop :=
  | step_create s H p h :
      (* skynet_context_new: skynet_mq_create *)
      mqs s !! p = None →
      sched_step (Sched s H) (Sched (store_mq p (skynet_mq_create h) s) ({[p]} ∪ H))
  | step_send s H p q m s' :
      (* skynet_context_push: the sender holds a reference, so no release mark *)
      mqs s !! p = Some q → release q = 0 → skynet_mq_push p m s = Ret s' →
      sched_step (Sched s H) (Sched s' H)
  | step_take s H p s' :
      (* a worker takes the next queue *)
      skynet_globalmq_pop s = Ret (Some p, s') →
      sched_step (Sched s H) (Sched s' ({[p]} ∪ H))
  | step_put_back s H p s' :
      (* a worker, the creator, or skynet_mq_release without mark *)
      p ∈ H → skynet_globalmq_push p s = Ret s' →
      sched_step (Sched s H) (Sched s' (H ∖ {[p]}))
  | step_work s H p q m s' :
      p ∈ H → mqs s !! p = Some q → release q = 0 → mq_pop_at p s = Ret (Some m, s') →
      sched_step (Sched s H) (Sched s' H)
  | step_idle s H p q s' :
      (* the queue is empty: the worker lets it go *)
      p ∈ H → mqs s !! p = Some q → release q = 0 → mq_pop_at p s = Ret (None, s') →
      sched_step (Sched s H) (Sched s' (H ∖ {[p]}))
  | step_mark s H p s' :
      (* delete_context *)
      skynet_mq_mark_release p s = Ret s' →
      sched_step (Sched s H) (Sched s' H)
  | step_drop s H p q m s' :
      (* _drop_queue: one more message dropped *)
      p ∈ H → mqs s !! p = Some q → release q ≠ 0 → mq_pop_at p s = Ret (Some m, s') →
      sched_step (Sched s H) (Sched s' H)
  | step_free s H p q s' s'' :
      p ∈ H → mqs s !! p = Some q → release q ≠ 0 → mq_pop_at p s = Ret (None, s') →
      _release p s' = Ret s'' →
      sched_step (Sched s H) (Sched s'' (H ∖ {[p]})).

Definition sched_reachable : sched → Prop := rtc sched_step (Sched skynet_mq_init ∅).

(** [sch]: the queue is linked in [Q] or held by a thread *)
Record queue_ok (sch : Prop) (q : message_queue) : Prop := {
  ok_repr : ∃ xs, mq_repr q xs ∧ (in_global q = 0 → xs = []);
  ok_flag : in_global q = 0 ∨ in_global q = 1;
  ok_release : release q = 0 ∨ release q = 1;
  ok_sched : sch ↔ in_global q = 1 ∨ release q = 1
}.

Record sched_inv (s : mq_store) (H : gset loc) (ps : list loc) : Prop := {
  inv_gq : gq_repr s ps;
  inv_disj : ∀ p, p ∈ ps → p ∉ H;
  inv_live : ∀ p, p ∈ H → is_Some (mqs s !! p);
  inv_next : ∀ p q, mqs s !! p = Some q → p ∉ ps → next q = None;
  inv_queue : ∀ p q, mqs s !! p = Some q → queue_ok (p ∈ ps ∨ p ∈ H) q
}.

Lemma sched_inv_init : sched_inv skynet_mq_init ∅ [].
Proof.
  split; simpl; try set_solver.
  split; [done|]. split; [done|]. apply NoDup_nil_2.
Qed.

Lemma queue_ok_set_next sch n q : queue_ok sch q → queue_ok sch (set_next n q).
Proof. intros [(xs & Hr & ?) ? ? ?]. split; simpl; try done. exists xs. split; [mq_frame Hr|done]. Qed.

Lemma queue_ok_iff (A B : Prop) q : (A ↔ B) → queue_ok A q → queue_ok B q.
Proof. intros E []. split; try done. by rewrite <- E. Qed.

(** Handing a held queue to the global queue. *)
Lemma sched_inv_push s H ps p :
  sched_inv s H ps → p ∈ H →
  ∃ s', skynet_globalmq_push p s = Ret s' ∧ sched_inv s' (H ∖ {[p]}) (ps ++ [p]).
Proof.
  intros [Hgq Hd Hl Hn Hq] Hp. destruct (Hl p Hp) as [q Hpq].
  assert (p ∉ ps) as Hps by naive_solver.
  destruct (globalmq_push_repr s ps p q Hgq Hps Hpq (Hn _ _ Hpq Hps))
    as (s' & E & Hgq' & Hlive & Hfr).
  exists s'. split; [done|].
  assert (∀ r qr', mqs s' !! r = Some qr' → ∃ qr n, mqs s !! r = Some qr ∧
            qr' = set_next n qr ∧ (r ∉ ps → n = next qr)) as Hback.
  { intros r qr' Hr. destruct (mqs s !! r) as [qr|] eqn:E'.
    - destruct (Hfr r qr E') as (n & Hn' & ?). naive_solver.
    - exfalso. clear -E E' Hr Hpq. revert E. unfold skynet_globalmq_push, load_mq.
      intros E. inv_out. destruct (gq_tail (Q s)); inv_out; simpl in *;
        rewrite ?lookup_insert in Hr; repeat case_decide; congruence. }
  split; [done|set_solver|..].
  - intros r [Hr _]%elem_of_difference. destruct (Hl r Hr) as [qr Hqr].
    destruct (Hfr r qr Hqr) as (n & -> & _). eauto.
  - intros r qr' Hr Hnin. destruct (Hback r qr' Hr) as (qr & n & Hqr & -> & Hnn).
    simpl. rewrite Hnn by set_solver. eapply Hn; set_solver.
  - intros r qr' Hr. destruct (Hback r qr' Hr) as (qr & n & Hqr & -> & _).
    apply queue_ok_set_next. eapply queue_ok_iff; [|by apply Hq].
    rewrite elem_of_app, list_elem_of_singleton, elem_of_difference, elem_of_singleton.
    destruct (decide (r = p)) as [->|]; naive_solver.
Qed.

(** Replacing the record of one queue, its links untouched. *)
Lemma sched_inv_update s H H' ps p q q' :
  sched_inv s H ps → mqs s !! p = Some q → next q' = next q →
  (∀ r, r ≠ p → r ∈ H' ↔ r ∈ H) → (p ∈ H' → p ∉ ps) →
  queue_ok (p ∈ ps ∨ p ∈ H') q' →
  sched_inv (store_mq p q' s) H' ps.
Proof.
  intros [(Hl & Ht & Hnd) Hd Hlive Hn Hq] Hp Hnext Hagree Hpp Hok. split; simpl.
  - split; [|done]. by eapply linked_update.
  - intros r Hr Hr'. destruct (decide (r = p)) as [->|]; naive_solver.
  - intros r Hr. destruct (decide (r = p)) as [->|].
    + rewrite lookup_insert_eq. eauto.
    + rewrite lookup_insert_ne by done. naive_solver.
  - intros r qr Hr. destruct (decide (p = r)) as [->|].
    + rewrite lookup_insert_eq in Hr. simplify_eq. rewrite Hnext. eauto.
    + rewrite lookup_insert_ne in Hr by done. eauto.
  - intros r qr Hr. destruct (decide (p = r)) as [->|].
    + rewrite lookup_insert_eq in Hr. by simplify_eq.
    + rewrite lookup_insert_ne in Hr by done. eapply queue_ok_iff; [|by apply Hq].
      rewrite Hagree by done. done.
Qed.

(** A pop at an address: what it returns, and the record it leaves. *)
Lemma mq_pop_at_inv p s q xs m s' :
  mqs s !! p = Some q → mq_repr q xs → mq_pop_at p s = Ret (m, s') →
  ∃ q', s' = store_mq p q' s ∧ same_flags q q' ∧ m = xs !! 0%nat ∧
    match xs with
    | [] => mq_repr q' [] ∧ in_global q' = 0
    | _ :: xs' => mq_repr q' xs' ∧ in_global q' = in_global q
    end.
Proof.
  intros Hp Hr E. unfold mq_pop_at, load_mq in E. rewrite Hp in E. simpl in E.
  destruct xs as [|x xs].
  - destruct (mq_pop_nil _ Hr) as [E' ?]. rewrite E' in E. simpl in E. inv_out.
    eexists. split; [done|]. done.
  - destruct (mq_pop_cons _ _ _ Hr) as (v & t & E' & ? & _). rewrite E' in E.
    simpl in E. inv_out. eexists. split; [done|]. done.
Qed.

Lemma sched_inv_create s H ps p h :
  sched_inv s H ps → mqs s !! p = None →
  sched_inv (store_mq p (skynet_mq_create h) s) ({[p]} ∪ H) ps.
Proof.
  intros [(Hl & Ht & Hnd) Hd Hlive Hn Hq] Hp.
  assert (p ∉ ps) as Hps.
  { intros Hin. destruct (linked_dom _ _ _ _ Hl Hin). congruence. }
  assert (p ∉ H) as HpH by (intros Hin; destruct (Hlive p Hin); congruence).
  split; simpl; [|set_solver|..].
  - split; [|done]. by apply linked_insert_ne.
  - intros r Hr. destruct (decide (r = p)) as [->|];
      [rewrite lookup_insert_eq; eauto | rewrite lookup_insert_ne by done; apply Hlive; set_solver].
  - intros r qr Hr. rewrite lookup_insert in Hr. case_decide; naive_solver.
  - intros r qr Hr. rewrite lookup_insert in Hr. case_decide as Hrp; simplify_eq.
    + split; simpl; [|by right|by left|].
      * exists []. split; [apply mq_create_repr|done].
      * split; [by left|]. set_solver.
    + eapply queue_ok_iff; [|by apply Hq]. set_solver.
Qed.

(** A queue record whose flags stay, or whose queue leaves the protocol empty. *)
Lemma sched_inv_pop s H ps p q m s' :
  sched_inv s H ps → p ∈ H → mqs s !! p = Some q → mq_pop_at p s = Ret (m, s') →
  match m with
  | Some _ => sched_inv s' H ps
  | None => if decide (release q = 0) then sched_inv s' (H ∖ {[p]}) ps else sched_inv s' H ps
  end.
Proof.
  intros Hinv HpH Hp E. pose proof (inv_queue _ _ _ Hinv _ _ Hp) as [(xs & Hr & Hx) Hf Hrel Hs].
  pose proof (inv_disj _ _ _ Hinv p) as Hd.
  destruct (mq_pop_at_inv _ _ _ _ _ _ Hp Hr E) as (q' & -> & (Hh & Hrl & Hnx) & -> & Hcase).
  destruct xs as [|x xs]; simpl; destruct Hcase as [Hr' Hg'].
  - case_decide as Hz;
      (eapply sched_inv_update; [done|done|done|set_solver|set_solver|]);
      (split; [by exists []|by left|by rewrite Hrl|]); rewrite Hg', Hrl.
    + rewrite Hz. set_solver.
    + destruct Hrel; set_solver.
  - eapply sched_inv_update; [done|done|done|done|naive_solver|].
    split; [|by rewrite Hg'|by rewrite Hrl|by rewrite Hg', Hrl].
    exists xs. split; [done|]. intros Hz. rewrite Hg' in Hz. by discriminate (Hx Hz).
Qed.

Lemma sched_inv_send s H ps p q m s' :
  sched_inv s H ps → mqs s !! p = Some q → release q = 0 → skynet_mq_push p m s = Ret s' →
  ∃ ps', sched_inv s' H ps'.
Proof.
  intros Hinv Hp Hz E. pose proof (inv_queue _ _ _ Hinv _ _ Hp) as [(xs & Hr & Hx) Hf Hrel Hs].
  unfold skynet_mq_push, load_mq in E. rewrite Hp in E. simpl in E.
  apply bind_Ret in E as (q' & Hput & E).
  destruct (mq_put_inv _ _ _ _ Hr Hput) as (Hr' & (Hh & Hrl & Hnx) & Hg).
  pose proof (inv_disj _ _ _ Hinv p) as Hd.
  case_bool_decide as Hg0.
  - assert (¬ (p ∈ ps ∨ p ∈ H)) as Hnot by (rewrite Hs; lia).
    destruct (sched_inv_push (store_mq p (set_in_global MQ_IN_GLOBAL q') s) ({[p]} ∪ H) ps p)
      as (s'' & E' & Hinv').
    { eapply sched_inv_update; [done|done|done|set_solver|set_solver|].
      split; simpl; [|by right|by rewrite Hrl|].
      - exists (xs ++ [m]). split; [mq_frame Hr'|done].
      - split; [by left|]. set_solver. }
    { set_solver. }
    det. exists (ps ++ [p]).
    replace (({[p]} ∪ H) ∖ {[p]}) with H in Hinv'; [done|]. set_solver.
  - inv_out. exists ps. eapply sched_inv_update; [done|done|done|done|naive_solver|].
    split; [|by rewrite Hg|by rewrite Hrl|by rewrite Hg, Hrl].
    exists (xs ++ [m]). split; [done|]. lia.
Qed.

Lemma sched_inv_mark s H ps p s' :
  sched_inv s H ps → skynet_mq_mark_release p s = Ret s' → ∃ ps', sched_inv s' H ps'.
Proof.
  intros Hinv E. unfold skynet_mq_mark_release, load_mq in E.
  apply bind_Ret in E as (q & Hp & E). apply deref_Ret in Hp.
  apply bind_Ret in E as (u & Hz & E). apply cassert_Ret in Hz.
  pose proof (inv_queue _ _ _ Hinv _ _ Hp) as [(xs & Hr & Hx) Hf Hrel Hs].
  pose proof (inv_disj _ _ _ Hinv p) as Hd.
  apply bool_decide_eq_true_1 in Hz.
  rewrite Hz in Hs. case_bool_decide as Hg.
  - assert (¬ (p ∈ ps ∨ p ∈ H)) as Hnot by (rewrite Hs; unfold MQ_IN_GLOBAL in Hg; lia).
    destruct (sched_inv_push (store_mq p (set_release 1 q) s) ({[p]} ∪ H) ps p)
      as (s'' & E' & Hinv').
    { eapply sched_inv_update; [done|done|done|set_solver|set_solver|].
      split; simpl; [|done|by right|].
      - exists xs. split; [mq_frame Hr|done].
      - split; [by right|]. set_solver. }
    { set_solver. }
    det. exists (ps ++ [p]).
    replace (({[p]} ∪ H) ∖ {[p]}) with H in Hinv'; [done|]. set_solver.
  - inv_out. exists ps. eapply sched_inv_update; [done|done|done|done|naive_solver|].
    split; simpl; [|done|by right|].
    + exists xs. split; [mq_frame Hr|done].
    + rewrite Hs. unfold MQ_IN_GLOBAL in *. lia.
Qed.

(** The mark succeeds once, and leaves the queue marked and scheduled. *)
Lemma sched_mark_ok s H ps p q :
  sched_inv s H ps → mqs s !! p = Some q → release q = 0 →
  ∃ s' q', skynet_mq_mark_release p s = Ret s' ∧ mqs s' !! p = Some q' ∧ release q' = 1.
Proof.
  intros Hinv Hp Hz. unfold skynet_mq_mark_release, load_mq. rewrite Hp. cbn [deref].
  rewrite !Ret_bind, (bool_decide_eq_true_2 (release q = 0)) by done. cbn [cassert]. rewrite Ret_bind.
  pose proof (inv_queue _ _ _ Hinv _ _ Hp) as [(xs & Hr & Hx) Hf Hrel Hs].
  assert (mqs (store_mq p (set_release 1 q) s) !! p = Some (set_release 1 q)) as Hq1
    by apply lookup_insert_eq.
  case_bool_decide as Hg.
  - assert (¬ (p ∈ ps ∨ p ∈ H)) as Hnot by (rewrite Hs; unfold MQ_IN_GLOBAL in Hg; lia).
    assert (gq_repr (store_mq p (set_release 1 q) s) ps) as Hgq.
    { destruct (inv_gq _ _ _ Hinv) as (Hl & Ht & Hnd). split; [|done]. by eapply linked_update. }
    destruct (globalmq_push_repr _ ps p (set_release 1 q) Hgq) as (s' & E & _ & _ & Hfr);
      [tauto|done|cbn; eapply inv_next; [done|done|tauto]|].
    destruct (Hfr p _ Hq1) as (n & Hn & _). exists s', (set_next n (set_release 1 q)).
    split; [|done]. rewrite E. done.
  - exists (store_mq p (set_release 1 q) s), (set_release 1 q). done.
Qed.

Lemma linked_delete_ne m h ps p :
  p ∉ ps → linked m h ps → linked (delete p m) h ps.
Proof.
  revert h. induction ps as [|p' ps IH]; intros h Hp; simpl; [done|].
  intros (-> & q' & Hq' & Hl). split; [done|]. exists q'.
  rewrite lookup_delete_ne by set_solver. split; [done|]. apply IH; [set_solver|done].
Qed.

Lemma sched_inv_free s H ps p s' :
  sched_inv s H ps → p ∈ H → _release p s = Ret s' → sched_inv s' (H ∖ {[p]}) ps.
Proof.
  intros [(Hl & Ht & Hnd) Hd Hlive Hn Hq] Hp E. unfold _release in E. inv_out.
  assert (p ∉ ps) as Hps by naive_solver. split; simpl.
  - split; [|done]. by apply linked_delete_ne.
  - set_solver.
  - intros r Hr. rewrite lookup_delete_ne by set_solver. apply Hlive. set_solver.
  - intros r qr Hr. rewrite lookup_delete in Hr. case_decide; naive_solver.
  - intros r qr Hr. rewrite lookup_delete in Hr. case_decide; [done|].
    eapply queue_ok_iff; [|by apply Hq]. set_solver.
Qed.

Ltac pop_case Hinv :=
  match goal with
  | Hp : ?p ∈ _, Hq : mqs _ !! ?p = Some _, E : mq_pop_at ?p _ = Ret _ |- _ =>
      pose proof (sched_inv_pop _ _ _ _ _ _ _ Hinv Hp Hq E); simpl in *
  end.

(** Every step keeps the protocol's invariant. *)
Lemma sched_step_inv a b ps :
  sched_inv (st a) (held a) ps → sched_step a b → ∃ ps', sched_inv (st b) (held b) ps'.
Proof.
  intros Hinv Hstep. destruct Hstep; simpl in *.
  - exists ps. by apply sched_inv_create.
  - by eapply sched_inv_send.
  - pose proof (inv_gq _ _ _ Hinv) as Hgq. pose proof (globalmq_pop_repr _ _ Hgq) as Hpop.
    destruct ps as [|p' ps]; [congruence|].
    destruct Hpop as (q & Hq & s2 & E & Hgq' & Hm). det. simplify_eq.
    exists ps. destruct Hinv as [(Hl & Ht & Hnd) Hd Hlive Hn Hok].
    apply NoDup_cons in Hnd as [Hp Hnd]. split; [done|set_solver|..]; rewrite Hm.
    + intros r Hr. rewrite lookup_insert. case_decide; [eauto|]. apply Hlive. set_solver.
    + intros r qr Hr Hnin. rewrite lookup_insert in Hr. case_decide; simplify_eq; [done|].
      eapply Hn; [done|]. set_solver.
    + intros r qr Hr. rewrite lookup_insert in Hr. case_decide; simplify_eq.
      * apply queue_ok_set_next. eapply queue_ok_iff; [|by apply Hok]. set_solver.
      * eapply queue_ok_iff; [|by apply Hok]. set_solver.
  - destruct (sched_inv_push _ _ _ p Hinv) as (s2 & E & ?); [done|].
    det. eauto.
  - exists ps. pop_case Hinv. done.
  - exists ps. pop_case Hinv. by case_decide.
  - by eapply sched_inv_mark.
  - exists ps. pop_case Hinv. done.
  - exists ps. pop_case Hinv. case_decide; [done|].
    by eapply sched_inv_free.
Qed.

Lemma sched_reachable_inv s : sched_reachable s → ∃ ps, sched_inv (st s) (held s) ps.
Proof.
  intros Hr. unfold sched_reachable in Hr.
  remember (Sched skynet_mq_init ∅) as a eqn:Ea.
  assert (∃ ps, sched_inv (st a) (held a) ps) as Hinv
    by (subst; exists []; apply sched_inv_init).
  clear Ea. induction Hr as [|a b c Hstep _ IH]; [done|].
  apply IH. destruct Hinv as [ps Hinv]. by eapply sched_step_inv.
Qed.

(** The intrusive global queue implements a list of queues: pushing a queue
    that is not linked (its [next] is NULL) appends it and keeps every other
    field of every queue; popping takes the first one and unlinks it, and an
    empty list gives NULL. No assertion of either function fails. *)
Theorem globalmq_refines_list s ps :
  gq_repr s ps →
  (∀ p q, p ∉ ps → mqs s !! p = Some q → next q = None →
     ∃ s', skynet_globalmq_push p s = Ret s' ∧ gq_repr s' (ps ++ [p]) ∧
       ∀ r qr, mqs s !! r = Some qr → ∃ n, mqs s' !! r = Some (set_next n qr)) ∧
  match ps with
  | [] => skynet_globalmq_pop s = Ret (None, s)
  | p :: ps' => ∃ q s', mqs s !! p = Some q ∧ skynet_globalmq_pop s = Ret (Some p, s') ∧
      gq_repr s' ps' ∧ mqs s' = <[p := set_next None q]> (mqs s)
  end.
Proof.
  intros H. split.
  - intros p q Hp Hq Hn. destruct (globalmq_push_repr s ps p q H Hp Hq Hn)
      as (s' & E & Hs' & _ & Hfr). exists s'. split; [done|]. split; [done|].
    intros r qr Hr. destruct (Hfr r qr Hr) as (n & ? & _). eauto.
  - pose proof (globalmq_pop_repr s ps H) as Hpop. destruct ps; [done|]. naive_solver.
Qed.

(** C1. In every reachable state of the scheduling protocol the global queue is
    a duplicate-free list disjoint from the queues threads hold; every queue
    that still has a message, or is marked for release, is linked or held, so
    it will be dispatched or freed (no lost wake-up); an idle queue is empty.
    Moreover the assertions of the code hold there: pops of [Q], pushes of
    held queues, sends to queues not marked (below 2^30 messages), and release
    marks all return. *)
Theorem sched_no_lost_queue s :
  sched_reachable s →
  ∃ ps, gq_repr (st s) ps ∧ (∀ p, p ∈ ps → p ∉ held s) ∧
    (∀ p q, mqs (st s) !! p = Some q →
       (∃ xs, mq_repr q xs ∧ (xs ≠ [] → p ∈ ps ∨ p ∈ held s)) ∧
       (release q ≠ 0 → p ∈ ps ∨ p ∈ held s)) ∧
    (∃ r s', skynet_globalmq_pop (st s) = Ret (r, s')) ∧
    (∀ p, p ∈ held s → ∃ s', skynet_globalmq_push p (st s) = Ret s') ∧
    (∀ p q m, mqs (st s) !! p = Some q → release q = 0 →
       skynet_mq_length q + 1 < 2 ^ 30 → ∃ s', skynet_mq_push p m (st s) = Ret s') ∧
    (∀ p q, mqs (st s) !! p = Some q → release q = 0 →
       ∃ s', skynet_mq_mark_release p (st s) = Ret s').
Proof.
  intros Hreach. destruct (sched_reachable_inv s Hreach) as [ps Hinv].
  exists ps. split; [apply Hinv|]. split; [apply Hinv|].
  assert (∀ p q q', mqs (st s) !! p = Some q → next q' = next q →
            in_global q = 0 → release q = 0 → mq_wf q' →
            ∃ s', skynet_globalmq_push p (store_mq p q' (st s)) = Ret s') as Hidle.
  { intros p q q' Hp Hn Hg Hz Hwf. destruct (inv_queue _ _ _ Hinv _ _ Hp) as [_ _ _ Hs].
    assert (p ∉ ps) as Hps by (intros ?; destruct Hs as [Hs _]; destruct Hs; [by left|lia..]).
    destruct (globalmq_push_repr (store_mq p q' (st s)) ps p q') as (s' & E & _); [|done|..|eauto].
    - destruct (inv_gq _ _ _ Hinv) as (Hl & Ht & Hnd). split; [|done].
      by apply linked_insert_ne.
    - apply lookup_insert_eq.
    - rewrite Hn. by eapply inv_next. }
  split; [|split; [|split; [|split]]].
  - intros p q Hp. destruct (inv_queue _ _ _ Hinv _ _ Hp) as [(xs & Hr & Hx) Hf Hrel Hs].
    split; [|rewrite Hs; lia]. exists xs. split; [done|]. intros Hne. rewrite Hs.
    destruct Hf as [Hf|Hf]; [|by left]. by apply Hx in Hf.
  - pose proof (globalmq_pop_repr _ _ (inv_gq _ _ _ Hinv)) as Hpop.
    destruct ps; naive_solver.
  - intros p Hp. destruct (sched_inv_push _ _ _ p Hinv Hp) as (s' & E & _). eauto.
  - intros p q m Hp Hz Hlen. destruct (inv_queue _ _ _ Hinv _ _ Hp) as [(xs & Hr & Hx) Hf _ _].
    rewrite (skynet_mq_length_repr _ _ Hr) in Hlen.
    destruct (mq_put_repr q xs m Hr Hlen) as (q' & E & Hr' & (_ & _ & Hn) & Hg).
    unfold skynet_mq_push, load_mq. rewrite Hp. simpl. rewrite E. simpl.
    case_bool_decide as Hg0; [|eauto]. apply (Hidle _ q); simpl; try done; [congruence|].
    destruct Hr' as [[] _ _ _]. by split.
  - intros p q Hp Hz. destruct (inv_queue _ _ _ Hinv _ _ Hp) as [(xs & Hr & Hx) Hf _ _].
    unfold skynet_mq_mark_release, load_mq. rewrite Hp. simpl.
    rewrite (bool_decide_eq_true_2 (release q = 0)) by done. simpl.
    case_bool_decide as Hg; [|eauto]. unfold MQ_IN_GLOBAL in Hg.
    apply (Hidle _ q); simpl; try done; [lia|]. destruct Hr as [[] _ _ _]. by split.
Qed.

(** ** Dropping the messages of a released queue *)
Class HasMqLaws (W : Type) `{!HasMq W} : Prop := {
  get_put_mq : ∀ s w, get_mq (put_mq s w) = s
}.
#[export] Instance mq_store_HasMqLaws : HasMqLaws mq_store.
Proof. by split. Qed.

Section drop.
Context {W : Type} `{!HasMq W, !HasMqLaws W}.
(** what an observer of the drops sees *)
Context (dropped : W → list skynet_message).
Context (drop_func : skynet_message → W → outcome W).
Context (p : loc).

(** the callback reports the message and leaves the queue at [p] alone *)
Definition drop_reports : Prop := ∀ m w, ∃ w', drop_func m w = Ret w' ∧
  dropped w' = dropped w ++ [m] ∧ mqs (get_mq w') !! p = mqs (get_mq w) !! p.
Definition put_silent : Prop := ∀ s w, dropped (put_mq s w) = dropped w.

Lemma drop_queue_spec xs w q fuel :
  drop_reports → put_silent →
  mqs (get_mq w) !! p = Some q → mq_repr q xs → next q = None →
  (length xs < fuel)%nat →
  ∃ w', _drop_queue fuel p drop_func w = Ret w' ∧
  dropped w' = dropped w ++ xs ∧ mqs (get_mq w') !! p = None.
Proof.
  intros Hd Hs. revert w q fuel. induction xs as [|x xs IH];
    intros w q [|fuel] Hq Hr Hn Hfuel; simpl in Hfuel; try lia; simpl;
    unfold mq_pop_at, load_mq; rewrite Hq; simpl.
  - destruct (mq_pop_nil q Hr) as [-> Hr']. simpl. rewrite get_put_mq.
    unfold _release, load_mq. simpl. rewrite lookup_insert_eq. simpl.
    rewrite bool_decide_eq_true_2 by done. simpl.
    eexists. split; [done|]. rewrite !Hs, app_nil_r. split; [done|].
    rewrite get_put_mq. simpl. apply lookup_delete_eq.
  - destruct (mq_pop_cons q x xs Hr) as (v & t & -> & Hr' & _). simpl.
    set (q' := set_overload v t _) in *.
    destruct (Hd x (put_mq (store_mq p q' (get_mq w)) w)) as (w' & -> & Hw' & Hp'). simpl.
    rewrite get_put_mq in Hp'. simpl in Hp'. rewrite lookup_insert_eq in Hp'.
    destruct (IH w' q' fuel Hp' Hr' Hn ltac:(lia)) as (w'' & -> & Hw'' & ?).
    exists w''. split; [done|]. split; [|done].
    by rewrite Hw'', Hw', Hs, <- app_assoc.
Qed.

(** Releasing a queue that is marked hands every queued message to the drop
    callback, each once and oldest first, and frees the queue; the loop
    terminates. An unmarked queue is pushed back to the global queue instead,
    its messages kept. *)
Theorem mq_release_drops_all w q xs :
  drop_reports → put_silent →
  mqs (get_mq w) !! p = Some q → mq_repr q xs → next q = None →
  (release q ≠ 0 →
   ∃ w', skynet_mq_release p drop_func w = Ret w' ∧
     dropped w' = dropped w ++ xs ∧ mqs (get_mq w') !! p = None) ∧
  (∀ ps, release q = 0 → gq_repr (get_mq w) ps → p ∉ ps →
   ∃ w', skynet_mq_release p drop_func w = Ret w' ∧
     dropped w' = dropped w ∧ gq_repr (get_mq w') (ps ++ [p]) ∧
     ∃ q', mqs (get_mq w') !! p = Some q' ∧ mq_repr q' xs).
Proof.
  intros Hd Hs Hq Hr Hn. split.
  - intros Hrel. unfold skynet_mq_release. rewrite (load_mq_Some _ _ _ Hq), Ret_bind.
    rewrite bool_decide_eq_true_2 by done.
    eapply drop_queue_spec; try done. unfold drop_fuel.
    rewrite (skynet_mq_length_repr _ _ Hr). unfold Zlen. lia.
  - intros ps Hrel Hgq Hps. unfold skynet_mq_release.
    rewrite (load_mq_Some _ _ _ Hq), Ret_bind.
    rewrite bool_decide_eq_false_2 by naive_solver.
    destruct (globalmq_push_repr _ _ _ _ Hgq Hps Hq Hn) as (s' & -> & Hgq' & _ & Hfr).
    simpl. eexists. split; [done|]. rewrite Hs, get_put_mq. split; [done|]. split; [done|].
    destruct (Hfr p q Hq) as (n & -> & _). eexists. split; [done|]. mq_frame Hr.
Qed.
End drop.

(** ** Concrete runs of the message queue theorems *)
Definition msg1 : skynet_message := Message 3 1 (Some 1000) 5.
Definition msg2 : skynet_message := Message 4 0 None 0.

(** a queue holding two messages, built by the code *)
Definition q_two : outcome message_queue :=
  q ← mq_put msg1 (skynet_mq_create 7); mq_put msg2 q.

Lemma q_two_repr : ∃ q, q_two = Ret q ∧ mq_repr q [msg1; msg2] ∧ next q = None.
Proof.
  unfold q_two. destruct (mq_put_repr (skynet_mq_create 7) [] msg1)
    as (q1 & -> & H1 & (_ & _ & N1) & _); [apply mq_create_repr|done|].
  rewrite Ret_bind. destruct (mq_put_repr q1 [msg1] msg2 H1)
    as (q2 & -> & H2 & (_ & _ & N2) & _); [done|].
  exists q2. split; [done|]. split; [done|]. rewrite N2, N1. done.
Qed.

Lemma mq_fifo_witness : ∃ q q', q_two = Ret q ∧ skynet_mq_length q = 2 ∧
  skynet_mq_pop q = Ret (Some msg1, q') ∧ mq_repr q' [msg2].
Proof.
  destruct q_two_repr as (q & E & H & _).
  destruct (mq_fifo q [msg1; msg2] H) as (Hlen & _ & q' & Hpop & Hq' & _).
  exists q, q'. done.
Defined.

Lemma mq_overload_report_witness : ∃ q q', q_two = Ret q ∧
  skynet_mq_pop q = Ret (Some msg1, q') ∧ 1 ≤ overload_threshold q'.
Proof.
  destruct q_two_repr as (q & E & H & _).
  destruct (mq_overload_report q msg1 [msg2] H) as (q' & Hpop & Hle & _).
  exists q, q'. done.
Defined.

(** one fresh queue in an otherwise empty program *)
Definition one_queue : mq_store := store_mq 40 (skynet_mq_create 7) skynet_mq_init.

Lemma one_queue_gq : gq_repr one_queue [].
Proof. split; [done|]. split; [done|]. apply NoDup_nil_2. Qed.

Lemma globalmq_refines_list_witness :
  ∃ s', skynet_globalmq_push 40 one_queue = Ret s' ∧ gq_repr s' [40].
Proof.
  destruct (globalmq_refines_list one_queue [] one_queue_gq) as [Hpush _].
  destruct (Hpush 40 (skynet_mq_create 7)) as (s' & E & H & _); [set_solver|done|done|].
  exists s'. done.
Defined.

Lemma sched_no_lost_queue_witness :
  ∃ s', skynet_mq_push 40 msg1 one_queue = Ret s'.
Proof.
  destruct (sched_no_lost_queue (Sched one_queue {[40]})) as (ps & _ & _ & _ & _ & _ & Hpush & _).
  { eapply rtc_l; [apply (step_create skynet_mq_init ∅ 40 7); done|].
    replace ({[40]} ∪ ∅ : gset Z) with ({[40]} : gset Z) by set_solver. apply rtc_refl. }
  apply (Hpush 40 (skynet_mq_create 7) msg1); done.
Defined.

(** a world that logs the dropped messages *)
#[export] Instance logged_HasMq : HasMq (mq_store * list skynet_message) :=
  {| get_mq := fst; put_mq := λ s w, (s, w.2) |}.
#[export] Instance logged_HasMqLaws : HasMqLaws (mq_store * list skynet_message).
Proof. by split. Qed.
Definition log_drop (m : skynet_message) (w : mq_store * list skynet_message) :
    outcome (mq_store * list skynet_message) := Ret (w.1, w.2 ++ [m]).

Lemma mq_release_drops_all_witness : ∃ q w', q_two = Ret q ∧
  skynet_mq_release 40 log_drop (store_mq 40 (set_release 1 q) skynet_mq_init, []) = Ret w' ∧
  w'.2 = [msg1; msg2] ∧ mqs w'.1 !! 40 = None.
Proof.
  destruct q_two_repr as (q & E & H & N).
  destruct (mq_release_drops_all (λ w : mq_store * list skynet_message, w.2) log_drop 40
    (store_mq 40 (set_release 1 q) skynet_mq_init, []) (set_release 1 q) [msg1; msg2])
    as [Hdrop _].
  - intros m w. eexists. by split.
  - done.
  - apply lookup_insert_eq.
  - mq_frame H.
  - done.
  - destruct (Hdrop ltac:(done)) as (w' & E' & Hw & Hn). exists q, w'. done.
Defined.
