(* ===== verification/Handle.v ===== *)
(** * The handle storage: skynet-src/skynet_handle.c and skynet_handle.h

    A growing open-addressed table from 24-bit handles to service contexts, and
    the sorted table of local names. The functions run under the storage's
    read-write lock in the source and are atomic transitions here; what they
    need of the contexts is the interface [ContextStore]. *)
From S2P Require Import Prelude CLib.
#[local] Open Scope Z_scope.

Definition DEFAULT_SLOT_SIZE : Z := 4.
Definition MAX_SLOT_SIZE : Z := 0x40000000.
Definition HANDLE_MASK : Z := 0xffffff.
Definition HANDLE_REMOTE_SHIFT : Z := 24.

Record handle_name : Type := HandleName { name : string; nhandle : Z }.
Definition junk_name : handle_name := HandleName "" 0.

Record handle_storage : Type := HandleStorage {
  harbor : Z;
  handle_index : Z;
  slot_size : Z;
  slot : list (option loc);
  name_cap : Z;
  name_count : Z;
  names : list handle_name
}.

(** What this component needs of the service contexts: the handle stored in a
    live context ([skynet_context_handle]), and taking and giving back a
    reference. Giving back the last one runs the service's release code. *)
Class ContextStore (W : Type) : Type := {
  skynet_context_handle : W → loc → option Z;
  skynet_context_grab : loc → W → outcome W;
  skynet_context_release : loc → W → outcome W
}.

Definition set_slots (n : Z) (l : list (option loc)) (s : handle_storage) : handle_storage :=
  HandleStorage (harbor s) (handle_index s) n l (name_cap s) (name_count s) (names s).
Definition set_index (i : Z) (s : handle_storage) : handle_storage :=
  HandleStorage (harbor s) i (slot_size s) (slot s) (name_cap s) (name_count s) (names s).
Definition set_names (c n : Z) (l : list handle_name) (s : handle_storage) : handle_storage :=
  HandleStorage (harbor s) (handle_index s) (slot_size s) (slot s) c n l.

Definition skynet_handle_init (harbor : Z) : handle_storage :=
  HandleStorage (u32 (Z.shiftl (Z.land harbor 0xff) HANDLE_REMOTE_SHIFT)) 1 DEFAULT_SLOT_SIZE
    (replicate (Z.to_nat DEFAULT_SLOT_SIZE) None) 2 0 (replicate 2 junk_name).

(** ** Registering a context *)

(** the inner [for]: the first free slot from [handle] on, if any *)
Fixpoint register_scan (n : nat) (handle : Z) (s : handle_storage) : outcome (option Z) :=
  match n with
  | O => Ret None
  | S n =>
      let handle := if bool_decide (HANDLE_MASK < handle) then 1 else handle in
      c ← get_idx (slot s) (Z.land handle (slot_size s - 1));
      match c with
      | None => Ret (Some handle)
      | Some _ => register_scan n (handle + 1) s
      end
  end.

(** one context moved to the doubled table *)
Definition rehash_one (hof : loc → option Z) (s : handle_storage) (i : Z)
    (new_slot : list (option loc)) : outcome (list (option loc)) :=
  c ← get_idx (slot s) i;
  ctx ← deref c;
  h ← deref (hof ctx);
  let hash := Z.land h (slot_size s * 2 - 1) in
  o ← get_idx new_slot hash;
  cassert (bool_decide (o = None));;
  set_idx new_slot hash (Some ctx).

Definition register_grow (hof : loc → option Z) (s : handle_storage) : outcome handle_storage :=
  cassert (bool_decide (slot_size s * 2 - 1 ≤ HANDLE_MASK));;
  new_slot ← for_loop (rehash_one hof s) (Z.to_nat (slot_size s)) 0 1
               (replicate (Z.to_nat (slot_size s * 2)) None);
  Ret (set_slots (slot_size s * 2) new_slot s).

Fixpoint register_loop (fuel : nat) (hof : loc → option Z) (ctx : loc) (s : handle_storage) :
    outcome (Z * handle_storage) :=
  match fuel with
  | O => NoFuel
  | S fuel =>
      r ← register_scan (Z.to_nat (slot_size s)) (handle_index s) s;
      match r with
      | Some handle =>
          l ← set_idx (slot s) (Z.land handle (slot_size s - 1)) (Some ctx);
          Ret (Z.lor handle (harbor s), set_index (handle + 1) (set_slots (slot_size s) l s))
      | None => s ← register_grow hof s; register_loop fuel hof ctx s
      end
  end.

(** The [for (;;)] runs at most twice: after doubling, a slot is free. *)
Definition skynet_handle_register {W} `{!ContextStore W} (ctx : loc) (w : W)
    (s : handle_storage) : outcome (Z * handle_storage) :=
  register_loop 2 (skynet_context_handle w) ctx s.

(** ** Lookup, retirement *)
Definition slot_lookup (hof : loc → option Z) (handle : Z) (s : handle_storage) :
    outcome (option loc) :=
  c ← get_idx (slot s) (Z.land handle (slot_size s - 1));
  match c with
  | None => Ret None
  | Some ctx => h ← deref (hof ctx); Ret (if bool_decide (h = handle) then Some ctx else None)
  end.

Definition skynet_handle_grab {W} `{!ContextStore W} (handle : Z) (s : handle_storage) (w : W) :
    outcome (option loc * W) :=
  r ← slot_lookup (skynet_context_handle w) handle s;
  match r with
  | Some ctx => w ← skynet_context_grab ctx w; Ret (Some ctx, w)
  | None => Ret (None, w)
  end.

(** the compaction loop of [skynet_handle_retire]: state [(j, name array)] *)
Definition retire_name (handle : Z) (i : Z) (st : Z * list handle_name) :
    outcome (Z * list handle_name) :=
  let '(j, l) := st in
  n ← get_idx l i;
  if bool_decide (nhandle n = handle) then Ret (j, l)
  else if bool_decide (i ≠ j) then l ← set_idx l j n; Ret (j + 1, l)
  else Ret (j + 1, l).

(** the part of [skynet_handle_retire] under the write lock: the context that
    left its slot, and the storage without it and without its names *)
Definition retire_locked (hof : loc → option Z) (handle : Z) (s : handle_storage) :
    outcome (option loc * handle_storage) :=
  r ← slot_lookup hof handle s;
  match r with
  | Some ctx =>
      l ← set_idx (slot s) (Z.land handle (slot_size s - 1)) None;
      '(j, nl) ← for_loop (retire_name handle) (Z.to_nat (name_count s)) 0 1 (0, names s);
      Ret (Some ctx, set_names (name_cap s) j nl (set_slots (slot_size s) l s))
  | None => Ret (None, s)
  end.

(** Releasing a context runs code of the program outside the lock, so it sees,
    and may change, the world that contains the storage. *)
Class HandleWorld (W : Type) : Type := {
  get_handles : W → handle_storage;
  put_handles : handle_storage → W → W
}.

Section retire.
Context {W : Type} `{!ContextStore W, !HandleWorld W}.

Definition skynet_handle_retire (handle : Z) (w : W) : outcome (Z * W) :=
  '(ctx, s) ← retire_locked (skynet_context_handle w) handle (get_handles w);
  let w := put_handles s w in
  match ctx with
  | Some ctx => w ← skynet_context_release ctx w; Ret (1, w)
  | None => Ret (0, w)
  end.

(** one slot of [skynet_handle_retireall]: state [(n, world)] *)
Definition retire_slot (i : Z) (st : Z * W) : outcome (Z * W) :=
  let '(n, w) := st in
  c ← get_idx (slot (get_handles w)) i;
  handle ← match c with
           | None => Ret 0
           | Some ctx => deref (skynet_context_handle w ctx)
           end;
  if bool_decide (handle ≠ 0) then
    '(r, w) ← skynet_handle_retire handle w;
    Ret ((if bool_decide (r ≠ 0) then n + 1 else n), w)
  else Ret (n, w).

Fixpoint skynet_handle_retireall (fuel : nat) (w : W) : outcome W :=
  match fuel with
  | O => NoFuel
  | S fuel =>
      '(n, w) ← for_loop retire_slot (Z.to_nat (slot_size (get_handles w))) 0 1 (0, w);
      if bool_decide (n = 0) then Ret w else skynet_handle_retireall fuel w
  end.
End retire.

(** ** Names *)

(** the binary search of [skynet_handle_findname] and [_insert_name]: the
    index found, or the index to insert at *)
Fixpoint name_search (fuel : nat) (l : list handle_name) (key : string) (first last : Z) :
    outcome (Z + Z) :=
  if bool_decide (first ≤ last) then
    match fuel with
    | O => NoFuel
    | S fuel =>
        t ← chk_int (first + last);
        let mid := t ÷ 2 in
        n ← get_idx l mid;
        let c := strcmp (name n) key in
        if bool_decide (c = 0) then Ret (inl mid)
        else if bool_decide (c < 0) then name_search fuel l key (mid + 1) last
        else name_search fuel l key first (mid - 1)
    end
  else Ret (inr first).

Definition search_fuel (s : handle_storage) : nat := Z.to_nat (name_count s).

Definition skynet_handle_findname (key : string) (s : handle_storage) : outcome Z :=
  r ← name_search (search_fuel s) (names s) key 0 (name_count s - 1);
  match r with
  | inl mid => n ← get_idx (names s) mid; Ret (nhandle n)
  | inr _ => Ret 0
  end.

(** [dst[i+off] = src[i]] *)
Definition copy_name (src : list handle_name) (off : Z) (i : Z) (dst : list handle_name) :
    outcome (list handle_name) :=
  n ← get_idx src i; set_idx dst (i + off) n.
(** [name[i] = name[i-1]] *)
Definition shift_name (i : Z) (l : list handle_name) : outcome (list handle_name) :=
  n ← get_idx l (i - 1); set_idx l i n.

(** the hole at index [before], in a doubled array when the array is full *)
Definition make_room (before : Z) (s : handle_storage) : outcome handle_storage :=
  if bool_decide (name_cap s ≤ name_count s) then
    c ← chk_int (name_cap s * 2);
    cassert (bool_decide (c ≤ MAX_SLOT_SIZE));;
    n ← for_loop (copy_name (names s) 0) (Z.to_nat before) 0 1
          (replicate (Z.to_nat c) junk_name);
    n ← for_loop (copy_name (names s) 1) (Z.to_nat (name_count s - before)) before 1 n;
    Ret (set_names c (name_count s) n s)
  else
    l ← for_loop shift_name (Z.to_nat (name_count s - before)) (name_count s) (-1) (names s);
    Ret (set_names (name_cap s) (name_count s) l s).

Definition _insert_name_before (nm : string) (handle before : Z) (s : handle_storage) :
    outcome handle_storage :=
  s ← make_room before s;
  l ← set_idx (names s) before (HandleName nm handle);
  Ret (set_names (name_cap s) (name_count s + 1) l s).

(** the returned name, or NULL when it is taken *)
Definition _insert_name (nm : string) (handle : Z) (s : handle_storage) :
    outcome (option string * handle_storage) :=
  r ← name_search (search_fuel s) (names s) nm 0 (name_count s - 1);
  match r with
  | inl _ => Ret (None, s)
  | inr first => s ← _insert_name_before nm handle first s; Ret (Some nm, s)
  end.

Definition skynet_handle_namehandle (handle : Z) (nm : string) (s : handle_storage) :
    outcome (option string * handle_storage) := _insert_name nm handle s.
