(* ===== verification/NameTable.v ===== *)
(** * The name table of the handle storage

    The sorted array of local names implements a finite map from names to
    handles: lookups by binary search, insertion and the compaction done when
    a handle retires are the map operations. *)
From S2P Require Import Prelude CLib Handle.
#[local] Open Scope Z_scope.

(** the valid prefix of the array *)
Definition names_of (s : handle_storage) : list handle_name :=
  take (Z.to_nat (name_count s)) (names s).

Definition names_sorted (xs : list handle_name) : Prop :=
  ∀ (i j : nat) a b, (i < j)%nat → xs !! i = Some a → xs !! j = Some b →
    strlt (name a) (name b).

Record names_inv (s : handle_storage) : Prop := {
  names_len : Zlen (names s) = name_cap s;
  names_count : 0 ≤ name_count s ≤ name_cap s;
  names_cap : 0 < name_cap s ≤ MAX_SLOT_SIZE;
  names_order : names_sorted (names_of s)
}.

(** the abstract table *)
Definition name_map (s : handle_storage) : gmap string Z :=
  list_to_map ((λ n, (name n, nhandle n)) <$> names_of s).

Lemma names_sorted_sublist xs ys :
  sublist ys xs → names_sorted xs → names_sorted ys.
Proof.
  intros Hsub Hs. induction Hsub as [|x ys xs Hsub IH|x ys xs Hsub IH]; [done| |].
  - assert (names_sorted xs) as Hs'.
    { intros i j a b Hij Ha Hb. apply (Hs (S i) (S j)); [lia|done..]. }
    intros [|i] [|j] a b Hij; simpl; try lia.
    + intros [= ->] Hb. apply list_elem_of_lookup_2, (sublist_subseteq _ _ Hsub) in Hb.
      apply list_elem_of_lookup in Hb as [k Hk]. apply (Hs 0%nat (S k)); [lia|done..].
    + apply (IH Hs'). lia.
  - apply IH. intros i j a b Hij Ha Hb. apply (Hs (S i) (S j)); [lia|done..].
Qed.

Lemma names_sorted_NoDup xs : names_sorted xs → NoDup (name <$> xs).
Proof.
  intros Hs. apply NoDup_alt. intros i j k.
  rewrite !list_lookup_fmap, !fmap_Some. intros (a & Ha & ->) (b & Hb & E).
  destruct (Nat.lt_trichotomy i j) as [H|[H|H]]; [|done|].
  - pose proof (Hs _ _ _ _ H Ha Hb) as Hlt. rewrite E in Hlt. by apply strlt_irreflexive in Hlt.
  - pose proof (Hs _ _ _ _ H Hb Ha) as Hlt. rewrite E in Hlt. by apply strlt_irreflexive in Hlt.
Qed.

Lemma elem_of_pairs n (xs : list handle_name) :
  (name n, nhandle n) ∈ (λ n, (name n, nhandle n)) <$> xs ↔ n ∈ xs.
Proof.
  rewrite list_elem_of_fmap. split; [|eauto].
  intros ([] & [= E1 E2] & ?). destruct n; simpl in *. by subst.
Qed.

Lemma name_map_Some s k h :
  names_inv s → name_map s !! k = Some h ↔ HandleName k h ∈ names_of s.
Proof.
  intros Hs. unfold name_map. rewrite <- elem_of_list_to_map.
  - change (k, h) with (name (HandleName k h), nhandle (HandleName k h)).
    apply elem_of_pairs.
  - rewrite <- list_fmap_compose.
    apply (names_sorted_NoDup _ (names_order _ Hs)).
Qed.

Lemma name_map_None s k :
  names_inv s → name_map s !! k = None ↔ ∀ n, n ∈ names_of s → name n ≠ k.
Proof.
  intros Hs. rewrite eq_None_not_Some. split.
  - intros Hn [k' h] Hin <-. apply Hn. exists h. by apply name_map_Some.
  - intros Hn [h Hh]. apply name_map_Some in Hh; [|done]. by apply (Hn _ Hh).
Qed.

Lemma names_of_lookup s i :
  names_inv s → 0 ≤ i < name_count s → ∃ n, names s !! Z.to_nat i = Some n ∧
    names_of s !! Z.to_nat i = Some n ∧ get_idx (names s) i = Ret n.
Proof.
  intros [Hl Hc _ _] Hi. destruct (get_idx_ok (names s) i) as (n & E & Hn); [lia|].
  exists n. split; [done|]. split; [|done]. unfold names_of.
  by rewrite lookup_take_lt by lia.
Qed.

Lemma names_of_length s : names_inv s → length (names_of s) = Z.to_nat (name_count s).
Proof. intros [Hl Hc _ _]. unfold names_of, Zlen in *. rewrite length_take. lia. Qed.

(** [before k s i]: every name below index [i] is smaller than [k], the others
    of the prefix not below [j] are larger *)
Definition split_at (s : handle_storage) (k : string) (i j : Z) : Prop :=
  ∀ m n, names_of s !! Z.to_nat m = Some n → 0 ≤ m →
    (m < i → strcmp (name n) k < 0) ∧ (j ≤ m → 0 < strcmp (name n) k).

Lemma name_search_spec fuel s k first last :
  names_inv s → 0 ≤ first → last < name_count s → first ≤ last + 1 →
  last - first + 1 ≤ Z.of_nat fuel → split_at s k first (last + 1) →
  ∃ r, name_search fuel (names s) k first last = Ret r ∧
    match r with
    | inl mid => 0 ≤ mid < name_count s ∧
                 ∃ n, names_of s !! Z.to_nat mid = Some n ∧ name n = k
    | inr i => 0 ≤ i ≤ name_count s ∧ split_at s k i i
    end.
Proof.
  intros Hs. pose proof (names_count _ Hs). pose proof (names_cap _ Hs).
  unfold MAX_SLOT_SIZE in *.
  revert first last. induction fuel as [|fuel IH]; intros first last H1 H2 H3 Hf Hsp.
  all: simpl; case_bool_decide as Hc; try lia.
  2: rewrite chk_int_ok by (unfold INT_MAX; lia); simpl;
     rewrite (Z.quot_div_nonneg _ 2) by lia;
     set (mid := (first + last) / 2);
     assert (first ≤ mid ≤ last) as Hmid by (unfold mid; split;
       [apply Z.div_le_lower_bound | apply Z.div_le_upper_bound]; lia);
     destruct (names_of_lookup s mid Hs ltac:(lia)) as (n & _ & Hn & ->); simpl;
     repeat case_bool_decide.
  - eexists. split; [done|]. split; [lia|]. by replace first with (last + 1) in * by lia.
  - eexists. split; [done|]. split; [lia|]. exists n. split; [done|]. by apply strcmp_eq.
  - apply IH; try lia. intros m a Ha Hm. specialize (Hsp m a Ha Hm). split; [|lia].
    intros Hlt. destruct (decide (m = mid)) as [->|]; [congruence|].
    destruct (decide (m < mid)) as [Hlt'|]; [|lia].
    assert (strlt (name a) (name n)) as Hlt2.
    { apply (names_order _ Hs (Z.to_nat m) (Z.to_nat mid)); [lia|done..]. }
    revert Hlt2. unfold strlt. intros. by apply (strlt_transitive _ (name n)).
  - apply IH; try lia. intros m a Ha Hm. specialize (Hsp m a Ha Hm). split; [lia|].
    intros Hle. destruct (decide (m = mid)) as [->|].
    { simplify_eq. lia. }
    assert (strlt (name n) (name a)) as Hlt2.
    { apply (names_order _ Hs (Z.to_nat mid) (Z.to_nat m)); [lia|done..]. }
    apply strcmp_antisym. apply (strlt_transitive _ (name n)); [|done].
    apply strcmp_antisym. lia.
  - eexists. split; [done|]. split; [lia|]. by replace first with (last + 1) in * by lia.
Qed.

(** ** Insertion *)
Lemma take_insert_shifted {A} (l l' : list A) (b n : nat) x :
  (b ≤ n)%nat → (n < length l')%nat → (n ≤ length l)%nat →
  (∀ j, (j < b)%nat → l' !! j = l !! j) →
  (∀ j, (b ≤ j < n)%nat → l' !! S j = l !! j) →
  take (S n) (<[b := x]> l') = take b l ++ x :: drop b (take n l).
Proof.
  intros Hb Hn Hl H1 H2. apply list_eq. intros i.
  destruct (decide (S n ≤ i)%nat) as [Hi|Hi].
  { rewrite !lookup_ge_None_2; [done| |];
      rewrite ?length_app, ?length_cons, ?length_drop, ?length_take, ?length_insert; lia. }
  rewrite lookup_take_lt by lia.
  destruct (Nat.lt_trichotomy i b) as [Hlt|[->|Hgt]].
  - rewrite list_lookup_insert_ne by lia. rewrite lookup_app_l by (rewrite length_take; lia).
    rewrite lookup_take_lt by lia. auto.
  - rewrite list_lookup_insert_eq by lia.
    rewrite lookup_app_r by (rewrite length_take; lia).
    rewrite length_take. by replace (b - b `min` length l)%nat with 0%nat by lia.
  - rewrite list_lookup_insert_ne by lia.
    rewrite lookup_app_r by (rewrite length_take; lia).
    rewrite length_take. replace (i - b `min` length l)%nat with (S (i - b - 1))%nat by lia.
    simpl. rewrite lookup_drop, lookup_take_lt by lia.
    replace i with (S (i - 1)) at 1 by lia. rewrite H2 by lia. f_equal. lia.
Qed.

Lemma copy_loop src off n i dst :
  0 ≤ i → 0 ≤ off → i + Z.of_nat n ≤ Zlen src → i + Z.of_nat n + off ≤ Zlen dst →
  ∃ dst', for_loop (copy_name src off) n i 1 dst = Ret dst' ∧ Zlen dst' = Zlen dst ∧
    ∀ j, 0 ≤ j → dst' !! Z.to_nat j =
      if decide (i + off ≤ j < i + off + Z.of_nat n) then src !! Z.to_nat (j - off)
      else dst !! Z.to_nat j.
Proof.
  intros Hi Hoff Hs Hd.
  set (P := λ (k : Z) (a : list handle_name), Zlen a = Zlen dst ∧ ∀ j, 0 ≤ j →
    a !! Z.to_nat j = if decide (i + off ≤ j < i + off + k) then src !! Z.to_nat (j - off)
                      else dst !! Z.to_nat j).
  apply (for_loop_inv _ P).
  - split; [done|]. intros j Hj. rewrite decide_False by lia. done.
  - intros k a Hk [Hl Ha]. unfold copy_name.
    destruct (get_idx_ok src (i + k * 1)) as (x & -> & Hx); [lia|]. simpl.
    rewrite set_idx_ok by lia. eexists. split; [done|]. split; [by rewrite Zlen_insert|].
    intros j Hj. destruct (decide (j = i + k * 1 + off)) as [->|E].
    + rewrite list_lookup_insert_eq, decide_True by (unfold Zlen in *; lia).
      rewrite <- Hx. f_equal. lia.
    + rewrite list_lookup_insert_ne, Ha by lia. repeat case_decide; try done; lia.
Qed.

Lemma shift_loop l n i :
  0 ≤ i - Z.of_nat n → i < Zlen l →
  ∃ l', for_loop shift_name n i (-1) l = Ret l' ∧ Zlen l' = Zlen l ∧
    ∀ j, 0 ≤ j → l' !! Z.to_nat j =
      if decide (i - Z.of_nat n < j ≤ i) then l !! Z.to_nat (j - 1) else l !! Z.to_nat j.
Proof.
  intros Hi Hl.
  set (P := λ (k : Z) (a : list handle_name), Zlen a = Zlen l ∧ ∀ j, 0 ≤ j →
    a !! Z.to_nat j = if decide (i - k < j ≤ i) then l !! Z.to_nat (j - 1)
                      else l !! Z.to_nat j).
  apply (for_loop_inv _ P).
  - split; [done|]. intros j Hj. rewrite decide_False by lia. done.
  - intros k a Hk [Hla Ha]. unfold shift_name.
    destruct (get_idx_ok a (i + k * -1 - 1)) as (x & -> & Hx); [lia|]. simpl.
    rewrite set_idx_ok by lia. eexists. split; [done|]. split; [by rewrite Zlen_insert|].
    rewrite Ha in Hx by lia. rewrite decide_False in Hx by lia.
    intros j Hj. destruct (decide (j = i + k * -1)) as [->|E].
    + rewrite list_lookup_insert_eq, decide_True by (unfold Zlen in *; lia).
      by rewrite <- Hx.
    + rewrite list_lookup_insert_ne, Ha by lia. repeat case_decide; try done; lia.
Qed.

Lemma make_room_spec s b :
  names_inv s → 0 ≤ b ≤ name_count s →
  (name_count s = name_cap s → name_cap s * 2 ≤ MAX_SLOT_SIZE) →
  ∃ c l', make_room b s = Ret (set_names c (name_count s) l' s) ∧ Zlen l' = c ∧
    name_count s < c ≤ MAX_SLOT_SIZE ∧
    (∀ j, 0 ≤ j < b → l' !! Z.to_nat j = names s !! Z.to_nat j) ∧
    (∀ j, b ≤ j < name_count s → l' !! Z.to_nat (j + 1) = names s !! Z.to_nat j).
Proof.
  intros Hs Hb Hroom. pose proof (names_len _ Hs) as Hlen.
  pose proof (names_count _ Hs) as Hcnt. pose proof (names_cap _ Hs) as Hcap.
  unfold make_room. case_bool_decide as Hfull.
  - rewrite chk_int_ok by (unfold INT_MAX, MAX_SLOT_SIZE in *; lia). simpl.
    rewrite bool_decide_eq_true_2 by (apply Hroom; lia). simpl.
    destruct (copy_loop (names s) 0 (Z.to_nat b) 0
      (replicate (Z.to_nat (name_cap s * 2)) junk_name)) as (a & -> & Ha & Ha');
      [lia..|rewrite Zlen_replicate; lia|]. simpl. rewrite Zlen_replicate in Ha by lia.
    destruct (copy_loop (names s) 1 (Z.to_nat (name_count s - b)) b a)
      as (a2 & -> & Ha2 & Ha2'); [lia..|]. simpl.
    exists (name_cap s * 2), a2. split; [done|]. split; [lia|].
    split; [pose proof (Hroom ltac:(lia)); lia|]. split.
    + intros j Hj. rewrite Ha2' by lia. rewrite decide_False by lia.
      rewrite Ha' by lia. rewrite decide_True by lia. f_equal. lia.
    + intros j Hj. rewrite Ha2' by lia. rewrite decide_True by lia. f_equal. lia.
  - destruct (shift_loop (names s) (Z.to_nat (name_count s - b)) (name_count s))
      as (a & -> & Ha & Ha'); [lia..|]. simpl.
    exists (name_cap s), a. split; [done|]. split; [lia|]. split; [lia|]. split.
    + intros j Hj. rewrite Ha' by lia. rewrite decide_False by lia. done.
    + intros j Hj. rewrite Ha' by lia. rewrite decide_True by lia. f_equal. lia.
Qed.

(** what an update of the names leaves alone *)
Definition same_slots (s s' : handle_storage) : Prop :=
  harbor s' = harbor s ∧ handle_index s' = handle_index s ∧
  slot_size s' = slot_size s ∧ slot s' = slot s.

(** [_insert_name_before] puts the entry at its index, growing the array. *)
Lemma insert_name_before_spec s nm h b :
  names_inv s → 0 ≤ b ≤ name_count s →
  (name_count s = name_cap s → name_cap s * 2 ≤ MAX_SLOT_SIZE) →
  ∃ s', _insert_name_before nm h b s = Ret s' ∧
    names_of s' = take (Z.to_nat b) (names_of s) ++ HandleName nm h :: drop (Z.to_nat b) (names_of s) ∧
    Zlen (names s') = name_cap s' ∧ 0 ≤ name_count s' ≤ name_cap s' ∧
    0 < name_cap s' ≤ MAX_SLOT_SIZE ∧ same_slots s s'.
Proof.
  intros Hs Hb Hroom. pose proof (names_len _ Hs) as Hlen.
  pose proof (names_count _ Hs) as Hcnt.
  destruct (make_room_spec s b Hs Hb Hroom) as (c & l' & E & Hl' & Hc & H1 & H2).
  unfold _insert_name_before. rewrite E. simpl. rewrite set_idx_ok by lia.
  eexists. split; [done|]. simpl. rewrite Zlen_insert.
  split; [|split; [done|split; [lia|split; [lia|done]]]].
  unfold names_of; simpl.
  replace (Z.to_nat (name_count s + 1)) with (S (Z.to_nat (name_count s))) by lia.
  rewrite (take_insert_shifted (names s)); unfold Zlen in *; try lia.
  - f_equal. rewrite take_take. f_equal. lia.
  - intros j Hj. specialize (H1 (Z.of_nat j) ltac:(lia)). by rewrite Nat2Z.id in H1.
  - intros j Hj. specialize (H2 (Z.of_nat j) ltac:(lia)). rewrite Nat2Z.id in H2.
    rewrite <- H2. f_equal. lia.
Qed.

Lemma names_sorted_insert xs b x :
  names_sorted xs →
  (∀ (m : nat) n, xs !! m = Some n →
     ((m < b)%nat → strlt (name n) (name x)) ∧ ((b ≤ m)%nat → strlt (name x) (name n))) →
  names_sorted (take b xs ++ x :: drop b xs).
Proof.
  intros Hs Hx i j n1 n2 Hij.
  assert (∀ i n, (take b xs ++ x :: drop b xs) !! i = Some n →
            ((i < b)%nat ∧ xs !! i = Some n) ∨ (i = b `min` length xs ∧ n = x)%nat ∨
            ((b < i)%nat ∧ xs !! (i - 1)%nat = Some n)) as Hcase.
  { intros k n. rewrite lookup_app. destruct (take b xs !! k) eqn:E.
    - intros [= ->]. apply lookup_take_Some in E. naive_solver.
    - apply lookup_ge_None in E. rewrite length_take in *.
      destruct (k - b `min` length xs)%nat eqn:E2; simpl.
      + intros [= ->]. right. left. split; [lia|done].
      + rewrite lookup_drop. intros Hn. right. right.
        assert (b ≤ length xs)%nat by (apply lookup_lt_Some in Hn; lia).
        split; [lia|]. rewrite <- Hn. f_equal. lia. }
  intros H1%Hcase H2%Hcase.
  destruct H1 as [[? H1]|[[? ->]|[? H1]]], H2 as [[? H2]|[[? ->]|[? H2]]]; try lia.
  - exact (Hs _ _ _ _ Hij H1 H2).
  - by apply (proj1 (Hx _ _ H1)).
  - refine (Hs _ _ _ _ _ H1 H2). lia.
  - apply lookup_lt_Some in H2. lia.
  - apply (proj2 (Hx _ _ H2)). lia.
  - refine (Hs _ _ _ _ _ H1 H2). lia.
Qed.

Lemma split_at_absent s nm b :
  names_inv s → split_at s nm b b → name_map s !! nm = None.
Proof.
  intros Hs Hsp. apply name_map_None; [done|]. intros n Hin <-.
  apply list_elem_of_lookup in Hin as [m Hm].
  specialize (Hsp (Z.of_nat m) n). rewrite Nat2Z.id, strcmp_refl in Hsp.
  destruct (Hsp Hm); lia.
Qed.

(** The binary search of the whole table terminates and decides membership. *)
Lemma name_search_names s nm :
  names_inv s →
  ∃ r, name_search (search_fuel s) (names s) nm 0 (name_count s - 1) = Ret r ∧
    match r with
    | inl mid => ∃ h, get_idx (names s) mid = Ret (HandleName nm h) ∧ name_map s !! nm = Some h
    | inr b => 0 ≤ b ≤ name_count s ∧ split_at s nm b b ∧ name_map s !! nm = None
    end.
Proof.
  intros Hs. pose proof (names_count _ Hs) as Hc.
  destruct (name_search_spec (search_fuel s) s nm 0 (name_count s - 1)) as (r & E & Hr);
    [done|lia..|unfold search_fuel; lia| |].
  { intros m n Hn Hm. apply lookup_lt_Some in Hn. rewrite names_of_length in Hn by done. lia. }
  exists r. split; [done|]. destruct r as [mid|b].
  - destruct Hr as (Hmid & [nm' h'] & Hn & <-).
    destruct (names_of_lookup s mid Hs Hmid) as (n & _ & Hn' & ->). simplify_eq/=.
    apply list_elem_of_lookup_2, name_map_Some in Hn; eauto.
  - destruct Hr as (Hb & Hsp). eauto using split_at_absent.
Qed.

Lemma name_map_insert s s' nm h b :
  names_inv s → names_inv s' → name_map s !! nm = None →
  names_of s' = take b (names_of s) ++ HandleName nm h :: drop b (names_of s) →
  name_map s' = <[nm := h]> (name_map s).
Proof.
  intros Hs Hs' Hnone Hn. apply map_eq. intros k. apply option_eq. intros v.
  rewrite name_map_Some, Hn, lookup_insert_Some, name_map_Some by done.
  assert (HandleName k v ∈ names_of s ↔
          HandleName k v ∈ take b (names_of s) ∨ HandleName k v ∈ drop b (names_of s)) as E.
  { by rewrite <- elem_of_app, take_drop. }
  rewrite elem_of_app, elem_of_cons, E. split.
  - intros [H|[[= -> ->]|H]]; [|by left|];
      (right; split; [|by auto]; intros ->;
       assert (name_map s !! k = Some v) by (apply name_map_Some; [done|]; apply E; auto);
       congruence).
  - intros [[-> ->]|[_ [H|H]]]; auto.
Qed.

(** C4. Naming a handle refines insertion into a finite map. When the name is
    taken the call returns NULL and changes nothing; otherwise it returns the
    name, the table maps it to the handle and every other name as before, and
    it is still sorted and within its array. The hypothesis is the capacity
    limit the code asserts. *)
Theorem namehandle_refines_map s h nm :
  names_inv s → (name_count s = name_cap s → name_cap s * 2 ≤ MAX_SLOT_SIZE) →
  match name_map s !! nm with
  | Some _ => skynet_handle_namehandle h nm s = Ret (None, s)
  | None => ∃ s', skynet_handle_namehandle h nm s = Ret (Some nm, s') ∧
      names_inv s' ∧ name_map s' = <[nm := h]> (name_map s) ∧ same_slots s s'
  end.
Proof.
  intros Hs Hroom. unfold skynet_handle_namehandle, _insert_name.
  destruct (name_search_names s nm Hs) as (r & -> & Hr). simpl. destruct r as [mid|b].
  - destruct Hr as (h' & _ & ->). done.
  - destruct Hr as (Hb & Hsp & Hnone). rewrite Hnone.
    destruct (insert_name_before_spec s nm h b Hs Hb Hroom)
      as (s' & -> & Hn & Hl & Hc' & Hcap & Hsame). simpl.
    exists s'. split; [done|].
    assert (names_inv s') as Hs'.
    { split; [done..|]. rewrite Hn. apply names_sorted_insert; [apply Hs|].
      intros m n Hm. specialize (Hsp (Z.of_nat m) n). rewrite Nat2Z.id in Hsp.
      specialize (Hsp Hm ltac:(lia)). unfold strlt. rewrite (strcmp_antisym nm). simpl. lia. }
    eauto using name_map_insert.
Qed.

(** Looking a name up returns the handle the abstract table maps it to, and
    0 when it is not there; the binary search always terminates. *)
Theorem findname_correct s nm :
  names_inv s → skynet_handle_findname nm s = Ret (default 0 (name_map s !! nm)).
Proof.
  intros Hs. unfold skynet_handle_findname.
  destruct (name_search_names s nm Hs) as (r & -> & Hr). simpl. destruct r as [mid|b].
  - by destruct Hr as (h' & -> & ->).
  - by destruct Hr as (_ & _ & ->).
Qed.

(** ** Retiring a handle's names *)
Lemma retire_loop s h :
  names_inv s →
  ∃ j l, for_loop (retire_name h) (Z.to_nat (name_count s)) 0 1 (0, names s) = Ret (j, l) ∧
    0 ≤ j ≤ name_count s ∧ Zlen l = name_cap s ∧
    take (Z.to_nat j) l = filter (λ n, nhandle n ≠ h) (names_of s).
Proof.
  intros Hs. pose proof (names_len _ Hs) as Hlen. pose proof (names_count _ Hs) as Hc.
  set (P := λ (k : Z) (st : Z * list handle_name), 0 ≤ st.1 ≤ k ∧ Zlen st.2 = name_cap s ∧
    take (Z.to_nat st.1) st.2 = filter (λ n, nhandle n ≠ h) (take (Z.to_nat k) (names s)) ∧
    ∀ m, k ≤ m → st.2 !! Z.to_nat m = names s !! Z.to_nat m).
  destruct (for_loop_inv (retire_name h) P (Z.to_nat (name_count s)) 0 1 (0, names s))
    as ([j l] & E & Hj & Hl & Ht & _).
  - split; [simpl; lia|]. by split.
  - intros k [j l] Hk (Hj & Hl & Ht & Hr). simpl in *.
    destruct (get_idx_ok (names s) k) as (n & _ & Hn); [lia|].
    assert (get_idx l (0 + k * 1) = Ret n) as E.
    { apply get_idx_Ret. split; [lia|]. rewrite <- Hn, <- Hr by lia. f_equal. lia. }
    unfold retire_name. rewrite E. simpl.
    assert (take (Z.to_nat (k + 1)) (names s) = take (Z.to_nat k) (names s) ++ [n]) as Htake.
    { replace (Z.to_nat (k + 1)) with (S (Z.to_nat k)) by lia. by apply take_S_r. }
    case_bool_decide as Hh.
    + eexists. split; [done|]. split; simpl; [lia|]. split; [done|]. split.
      * rewrite Htake, filter_app, filter_cons_False, app_nil_r by (simpl; tauto). done.
      * intros m Hm. apply Hr. lia.
    + assert (∃ l', (if bool_decide (0 + k * 1 ≠ j) then
                  l ← set_idx l j n; Ret (j + 1, l) else Ret (j + 1, l)) = Ret (j + 1, l') ∧
                Zlen l' = Zlen l ∧ take (Z.to_nat (j + 1)) l' = take (Z.to_nat j) l ++ [n] ∧
                ∀ m, k + 1 ≤ m → l' !! Z.to_nat m = l !! Z.to_nat m)
        as (l' & -> & Hl' & Ht' & Hr').
      { replace (Z.to_nat (j + 1)) with (S (Z.to_nat j)) by lia. case_bool_decide as Hkj.
        - rewrite set_idx_ok by lia. simpl. eexists. split; [done|]. rewrite Zlen_insert.
          split; [done|]. split.
          + rewrite (take_S_r _ _ n), take_insert_ge by (done || apply list_lookup_insert_eq;
              unfold Zlen in *; lia). done.
          + intros m Hm. rewrite list_lookup_insert_ne by lia. done.
        - exists l. split; [done|]. split; [done|]. split; [|done].
          apply take_S_r. apply get_idx_Ret in E as [_ E]. rewrite <- E. f_equal. lia. }
      eexists. split; [done|]. split; simpl; [lia|]. split; [lia|]. split.
      * rewrite Ht', Ht, Htake, filter_app. by rewrite filter_cons_True.
      * intros m Hm. rewrite Hr', Hr by lia. done.
  - exists j, l. split; [done|]. simpl in *. rewrite Z2Nat.id in Hj, Ht by lia.
    split; [lia|]. by split.
Qed.

Lemma name_map_retire s s' h :
  names_inv s → names_inv s' →
  names_of s' = filter (λ n, nhandle n ≠ h) (names_of s) →
  name_map s' = filter (λ kv, kv.2 ≠ h) (name_map s).
Proof.
  intros Hs Hs' Hn. apply map_eq. intros k. apply option_eq. intros v.
  rewrite map_lookup_filter_Some, !name_map_Some, Hn, list_elem_of_filter by done. simpl. tauto.
Qed.
