(* ===== verification/HandleTable.v ===== *)
(** * The slot table of the handle storage

    The slots of [handle_storage] implement a finite map from handles to
    contexts, with the harbor in the high byte. The theorems follow a handle
    through its life: registration (with the doubling of the table), lookup,
    retirement. *)
From S2P Require Import Prelude CLib Handle NameTable.

Record slots_inv (hof : loc → option Z) (s : handle_storage) : Prop := {
  sl_size : ∃ k, 2 ≤ k ≤ 24 ∧ slot_size s = 2 ^ k;
  sl_len : Zlen (slot s) = slot_size s;
  sl_index : 1 ≤ handle_index s ≤ HANDLE_MASK + 1;
  sl_harbor : ∃ b, 0 ≤ b < 256 ∧ harbor s = b * 2 ^ 24;
  sl_ctx : ∀ i c, 0 ≤ i → slot s !! Z.to_nat i = Some (Some c) →
    ∃ x, 1 ≤ x ≤ HANDLE_MASK ∧ hof c = Some (x + harbor s) ∧ x mod slot_size s = i
}.

(** the abstract registry: context [c] is registered under [h] *)
Definition registered (hof : loc → option Z) (s : handle_storage) (h : Z) (c : loc) : Prop :=
  ∃ i, 0 ≤ i ∧ slot s !! Z.to_nat i = Some (Some c) ∧ hof c = Some h.

Lemma slots_size_pos hof s : slots_inv hof s → 4 ≤ slot_size s ≤ 2 ^ 24.
Proof.
  intros H. destruct (sl_size _ _ H) as (k & Hk & ->).
  split; [change 4 with (2 ^ 2)|]; apply Z.pow_le_mono_r; lia.
Qed.

(** the hash of the code is the residue *)
Lemma slot_hash hof s h : slots_inv hof s → Z.land h (slot_size s - 1) = h mod slot_size s.
Proof. intros H. destruct (sl_size _ _ H) as (k & Hk & ->). apply land_mask. lia. Qed.

(** harbor bits do not take part in the hash *)
Lemma hash_harbor hof s x k :
  slots_inv hof s → 0 ≤ k ≤ 24 → (x + harbor s) mod 2 ^ k = x mod 2 ^ k.
Proof.
  intros H Hk. destruct (sl_harbor _ _ H) as (b & Hb & ->).
  replace (b * 2 ^ 24) with (b * 2 ^ (24 - k) * 2 ^ k).
  - apply Z.mod_add. lia.
  - rewrite <- Z.mul_assoc, <- Z.pow_add_r by lia. do 2 f_equal. lia.
Qed.

Lemma registered_slot hof s h c :
  slots_inv hof s → registered hof s h c →
  slot s !! Z.to_nat (h mod slot_size s) = Some (Some c).
Proof.
  intros H (i & Hi & Hc & Hh). destruct (sl_ctx _ _ H i c Hi Hc) as (x & Hx & E & Hm).
  destruct (sl_size _ _ H) as (k & Hk & Hsz). rewrite Hsz in *.
  simplify_eq. rewrite (hash_harbor _ _ _ _ H) by lia. done.
Qed.

Lemma slot_lookup_spec hof s h :
  slots_inv hof s →
  ∃ r, slot_lookup hof h s = Ret r ∧ ∀ c, r = Some c ↔ registered hof s h c.
Proof.
  intros H. pose proof (slots_size_pos _ _ H). pose proof (sl_len _ _ H) as Hl.
  unfold slot_lookup. rewrite (slot_hash _ _ _ H).
  pose proof (mod_range h (slot_size s) ltac:(lia)).
  destruct (get_idx_ok (slot s) (h mod slot_size s)) as (o & -> & Ho); [lia|]. simpl.
  destruct o as [c|].
  - destruct (sl_ctx _ _ H (h mod slot_size s) c ltac:(lia) Ho) as (x & Hx & Hc & Hm). rewrite Hc. simpl.
    eexists. split; [done|]. intros c'. case_bool_decide as E.
    + split.
      * intros [= <-]. eexists. split; [|split; [exact Ho|congruence]]. lia.
      * intros Hr%registered_slot; [|done]. congruence.
    + split; [done|]. intros Hr. pose proof (registered_slot _ _ _ _ H Hr).
      destruct Hr as (i & _ & _ & ?). congruence.
  - eexists. split; [done|]. intros c'. split; [done|].
    intros Hr%registered_slot; [|done]. congruence.
Qed.

(** ** The scan for a free slot *)
Definition norm (h : Z) : Z := if bool_decide (HANDLE_MASK < h) then 1 else h.
(** the [k]-th handle the scan from [h] tries *)
Fixpoint visited (k : nat) (h : Z) : Z :=
  match k with O => norm h | S k => visited k (norm h + 1) end.

Lemma visited_closed k h :
  1 ≤ h ≤ HANDLE_MASK + 1 → Z.of_nat k < HANDLE_MASK →
  visited k h = if decide (h + Z.of_nat k ≤ HANDLE_MASK) then h + Z.of_nat k
                else h + Z.of_nat k - HANDLE_MASK.
Proof.
  unfold HANDLE_MASK. revert h. induction k as [|k IH]; intros h Hh Hk; simpl; unfold norm.
  - case_bool_decide; case_decide; unfold HANDLE_MASK in *; lia.
  - case_bool_decide; unfold HANDLE_MASK in *; rewrite IH by lia; repeat case_decide; lia.
Qed.

Lemma scan_spec hof s n h :
  slots_inv hof s →
  ∃ r, register_scan n h s = Ret r ∧
    match r with
    | Some x => (1 ≤ h → 1 ≤ x ≤ HANDLE_MASK) ∧
                slot s !! Z.to_nat (x mod slot_size s) = Some None ∧
                ∃ k, (k < n)%nat ∧ x = visited k h
    | None => ∀ k, (k < n)%nat → ∃ c,
        slot s !! Z.to_nat (visited k h mod slot_size s) = Some (Some c)
    end.
Proof.
  intros H. pose proof (slots_size_pos _ _ H). pose proof (sl_len _ _ H).
  revert h. induction n as [|n IH]; intros h; simpl.
  - exists None. split; [done|]. lia.
  - fold (norm h). rewrite (slot_hash _ _ _ H).
    pose proof (mod_range (norm h) (slot_size s) ltac:(lia)).
    destruct (get_idx_ok (slot s) (norm h mod slot_size s)) as (o & -> & Ho); [lia|]. simpl.
    assert (1 ≤ h → 1 ≤ norm h ≤ HANDLE_MASK) as Hnorm.
    { unfold norm, HANDLE_MASK. case_bool_decide; lia. }
    destruct o as [c|].
    + destruct (IH (norm h + 1)) as (r & -> & Hr). exists r. split; [done|].
      destruct r as [x|].
      { destruct Hr as (? & ? & k & ? & ?). split; [intros; lia|]. split; [done|].
        exists (S k). split; [lia|done]. }
      intros [|k] Hk; simpl; [eauto|]. apply Hr. lia.
    + eexists. split; [done|]. split; [done|]. split; [done|]. exists 0%nat. split; [lia|done].
Qed.

(** the scan tries slot 0: it stays below the mask, or starts by wrapping, in a table
    that has a handle for slot 0 *)
Definition reaches_zero (s : handle_storage) : Prop :=
  slot_size s ≤ HANDLE_MASK ∧
  (handle_index s + slot_size s - 1 ≤ HANDLE_MASK ∨ handle_index s = HANDLE_MASK + 1).

(** Every slot is tried, except slot 0 when the scan wraps on its way. *)
Lemma visited_covers hof s j :
  slots_inv hof s → 0 ≤ j < slot_size s → reaches_zero s ∨ j ≠ 0 →
  ∃ k, (k < Z.to_nat (slot_size s))%nat ∧
       visited k (handle_index s) mod slot_size s = j.
Proof.
  intros H Hj Hcase. pose proof (slots_size_pos _ _ H) as Hsz.
  pose proof (sl_index _ _ H) as Hix.
  destruct (sl_size _ _ H) as (e & He & Hse).
  unfold reaches_zero in Hcase. pose proof (eq_refl : HANDLE_MASK = 2 ^ 24 - 1) as HM.
  revert Hj Hcase Hsz Hix Hse. generalize (slot_size s), (handle_index s).
  intros S h Hj Hcase Hsz Hix Hse. clear H.
  assert ((HANDLE_MASK + 1) mod S = 0) as Hwrap.
  { change (HANDLE_MASK + 1) with (2 ^ 24). rewrite Hse.
    replace 24 with (24 - e + e) by lia. rewrite Z.pow_add_r by lia. apply Z.mod_mul. lia. }
  assert (∀ a, (a - HANDLE_MASK) mod S = (a + 1) mod S) as Hshift.
  { intros a. replace (a - HANDLE_MASK) with (a + 1 - (HANDLE_MASK + 1)) by lia.
    by rewrite Zminus_mod, Hwrap, Z.sub_0_r, Z.mod_mod by lia. }
  set (k := (j - h) mod S). pose proof (mod_range (j - h) S ltac:(lia)) as Hk. fold k in Hk.
  assert ((h + k) mod S = j) as Ehk.
  { unfold k. rewrite Zplus_mod_idemp_r. replace (h + (j - h)) with j by lia.
    apply Z.mod_small. lia. }
  assert (∀ m, 0 ≤ m < S → m < HANDLE_MASK → visited (Z.to_nat m) h =
     if decide (h + m ≤ HANDLE_MASK) then h + m else h + m - HANDLE_MASK) as Hv.
  { intros m Hm Hmm. rewrite visited_closed by lia. by rewrite Z2Nat.id by lia. }
  destruct (decide (h + k ≤ HANDLE_MASK)) as [Hlow|Hhigh].
  - exists (Z.to_nat k). split; [lia|]. by rewrite Hv, decide_True by lia.
  - destruct (decide (k = 0)) as [->|Hk0].
    + (* the scan starts by wrapping: slot 0 is the last one tried *)
      assert (h = HANDLE_MASK + 1) as Eh by lia.
      assert (S ≤ HANDLE_MASK) by (destruct Hcase as [[? _]|Hj0]; [done|];
        rewrite Z.add_0_r, Eh, Hwrap in Ehk; lia).
      exists (Z.to_nat (S - 1)). split; [lia|].
      rewrite Hv, decide_False, Hshift by lia.
      replace (h + (S - 1) + 1) with (h + 0 + 1 * S) by lia. rewrite Z.mod_add by lia. done.
    + exists (Z.to_nat (k - 1)). split; [lia|]. rewrite Hv by lia.
      case_decide as Hd.
      * (* the value tried is the one just before the wrap: only for slot 0 *)
        exfalso. assert (h + k = HANDLE_MASK + 1) as E by lia. rewrite E, Hwrap in Ehk.
        lia.
      * rewrite Hshift. by replace (h + (k - 1) + 1) with (h + k) by lia.
Qed.

(** ** Doubling the table *)
Definition full (s : handle_storage) : Prop :=
  ∀ i, 0 ≤ i < slot_size s → ∃ c, slot s !! Z.to_nat i = Some (Some c).

(** [moved s k m c]: context [c] of one of the first [k] slots hashes to [m]
    in the doubled table *)
Definition moved (hof : loc → option Z) (s : handle_storage) (k m : Z) (c : loc) : Prop :=
  ∃ i h, 0 ≤ i < k ∧ slot s !! Z.to_nat i = Some (Some c) ∧ hof c = Some h ∧
    h mod (slot_size s * 2) = m.

Lemma rehash_loop hof s :
  slots_inv hof s → full s → slot_size s < 2 ^ 24 →
  ∃ l, for_loop (rehash_one hof s) (Z.to_nat (slot_size s)) 0 1
         (replicate (Z.to_nat (slot_size s * 2)) None) = Ret l ∧
    Zlen l = slot_size s * 2 ∧
    ∀ m c, 0 ≤ m → l !! Z.to_nat m = Some (Some c) ↔ moved hof s (slot_size s) m c.
Proof.
  intros H Hf Hlt. pose proof (slots_size_pos _ _ H) as Hsz.
  destruct (sl_size _ _ H) as (e & He & Hse).
  assert (e < 24) as He' by (apply (Z.pow_lt_mono_r_iff 2); lia).
  set (P := λ (k : Z) (l : list (option loc)), Zlen l = slot_size s * 2 ∧
    ∀ m c, 0 ≤ m → l !! Z.to_nat m = Some (Some c) ↔ moved hof s k m c).
  destruct (for_loop_inv (rehash_one hof s) P (Z.to_nat (slot_size s)) 0 1
    (replicate (Z.to_nat (slot_size s * 2)) None)) as (l & E & Hl).
  - split; [apply Zlen_replicate; lia|]. intros m c Hm. split.
    + intros Hc%lookup_replicate. naive_solver.
    + intros (i & h & Hi & _). lia.
  - intros k l Hk [Hl Hr]. rewrite Z2Nat.id in Hk by lia.
    destruct (Hf k Hk) as (c & Hc).
    destruct (sl_ctx _ _ H k c ltac:(lia) Hc) as (x & Hx & Hh & Hm).
    unfold rehash_one.
    replace (get_idx (slot s) (0 + k * 1)) with (Ret (Some c))
      by (symmetry; apply get_idx_Ret; split; [lia|rewrite <- Hc; f_equal; lia]).
    simpl. rewrite Hh. simpl.
    replace (slot_size s * 2) with (2 ^ (e + 1)) by (rewrite Hse, Z.pow_add_r; lia).
    rewrite land_mask by lia. rewrite (hash_harbor _ _ _ _ H) by lia.
    assert (2 ^ (e + 1) = slot_size s * 2) as E2 by (rewrite Hse, Z.pow_add_r; lia).
    set (hash := x mod 2 ^ (e + 1)).
    assert (0 ≤ hash < slot_size s * 2) as Hhash
      by (unfold hash; rewrite E2; apply mod_range; lia).
    assert ((x + harbor s) mod (slot_size s * 2) = hash) as Ehash
      by (rewrite <- E2; apply (hash_harbor _ _ _ _ H); lia).
    destruct (get_idx_ok l hash) as (o & -> & Ho); [lia|]. simpl.
    assert (o = None) as ->.
    { destruct o as [c'|]; [exfalso|done].
      apply Hr in Ho as (i & h & Hi & Hc' & Hh' & Hm'); [|lia].
      destruct (sl_ctx _ _ H i c' ltac:(lia) Hc') as (x' & Hx' & Hh'' & Hmi).
      simplify_eq. rewrite <- E2, (hash_harbor _ _ _ _ H) in Hm' by lia.
      assert (x' mod slot_size s = x mod slot_size s); [|lia].
      rewrite Hse, <- (mod_pow2_mod x' e (e + 1)), <- (mod_pow2_mod x e (e + 1)) by lia.
      by rewrite Hm'. }
    simpl. rewrite set_idx_ok by lia. eexists. split; [done|].
    split; [by rewrite Zlen_insert|]. intros m c' Hm0.
    destruct (decide (m = hash)) as [->|Hne].
    + rewrite list_lookup_insert_eq by (unfold Zlen in *; lia). split.
      * intros [= <-]. exists k, (x + harbor s). split; [lia|]. by rewrite Ehash.
      * intros (i & h & Hi & Hc' & Hh' & Hm').
        destruct (decide (i = k)) as [->|]; [congruence|].
        exfalso. assert (l !! Z.to_nat hash = Some (Some c')); [|congruence].
        apply Hr; [lia|]. exists i, h. split; [lia|]. done.
    + rewrite list_lookup_insert_ne by lia. rewrite Hr by done. split.
      * intros (i & h & Hi & ?). exists i, h. split; [lia|done].
      * intros (i & h & Hi & Hc' & Hh' & Hm').
        destruct (decide (i = k)) as [->|]; [congruence|]. exists i, h. split; [lia|done].
  - exists l. split; [done|]. destruct Hl as [Hl Hr]. split; [done|].
    by rewrite Z2Nat.id in Hr by lia.
Qed.

(** A full table doubles: same contexts, same handles, and some slot other
    than slot 0 is free. *)
Lemma register_grow_spec hof s :
  slots_inv hof s → full s → slot_size s < 2 ^ 24 →
  ∃ l, register_grow hof s = Ret (set_slots (slot_size s * 2) l s) ∧
    slots_inv hof (set_slots (slot_size s * 2) l s) ∧
    (∀ h c, registered hof (set_slots (slot_size s * 2) l s) h c ↔ registered hof s h c) ∧
    (∃ j, 0 < j < slot_size s * 2 ∧ l !! Z.to_nat j = Some None) ∧
    (∀ c, Some c ∈ l ↔ Some c ∈ slot s).
Proof.
  intros H Hf Hlt. pose proof (slots_size_pos _ _ H) as Hsz.
  destruct (sl_size _ _ H) as (e & He & Hse).
  assert (e < 24) as He' by (apply (Z.pow_lt_mono_r_iff 2); lia).
  assert (2 ^ e ≤ 2 ^ 23) by (apply Z.pow_le_mono_r; lia).
  destruct (rehash_loop hof s H Hf Hlt) as (l & E & Hl & Hr).
  unfold register_grow. rewrite bool_decide_eq_true_2 by (unfold HANDLE_MASK; lia).
  simpl. rewrite E. simpl. exists l. split; [done|].
  pose proof (sl_len _ _ H) as Hlen.
  assert (∀ c, (∃ i, 0 ≤ i ∧ l !! Z.to_nat i = Some (Some c)) ↔
               (∃ i, 0 ≤ i ∧ slot s !! Z.to_nat i = Some (Some c))) as Hsame.
  { intros c. split.
    - intros (i & Hi & Hc). apply Hr in Hc as (j & h & Hj & Hc & _); [|done].
      exists j. split; [lia|done].
    - intros (i & Hi & Hc). destruct (sl_ctx _ _ H i c Hi Hc) as (x & Hx & Hh & Hm).
      exists ((x + harbor s) mod (slot_size s * 2)).
      pose proof (mod_range (x + harbor s) (slot_size s * 2) ltac:(lia)). split; [lia|].
      apply Hr; [lia|]. exists i, (x + harbor s).
      assert (i < slot_size s) by (apply lookup_lt_Some in Hc; unfold Zlen in *; lia).
      split; [lia|]. done. }
  split; [|split; [|split]].
  - split; simpl.
    + exists (e + 1). rewrite Hse, Z.pow_add_r by lia. lia.
    + done.
    + apply H.
    + apply H.
    + intros i c Hi Hc. apply Hr in Hc as (j & h & Hj & Hc & Hh & Hm); [|done].
      destruct (sl_ctx _ _ H j c ltac:(lia) Hc) as (x & Hx & Hh' & Hmj).
      exists x. split; [done|]. split; [done|]. simplify_eq.
      replace (slot_size s * 2) with (2 ^ (e + 1)) by (rewrite Hse, Z.pow_add_r; lia).
      rewrite (hash_harbor _ _ _ _ H) by lia. done.
  - intros h c. unfold registered; simpl. specialize (Hsame c). naive_solver.
  - destruct (get_idx_ok l 1) as (o1 & _ & Ho1); [lia|].
    destruct (get_idx_ok l (1 + slot_size s)) as (o2 & _ & Ho2); [lia|].
    destruct o1 as [c1|]; [|exists 1; split; [lia|done]].
    destruct o2 as [c2|]; [|exists (1 + slot_size s); split; [lia|done]].
    exfalso. apply Hr in Ho1 as (i1 & h1 & Hi1 & Hc1 & Hh1 & Hm1); [|lia].
    apply Hr in Ho2 as (i2 & h2 & Hi2 & Hc2 & Hh2 & Hm2); [|lia].
    assert (∀ i c h m, 0 ≤ i → slot s !! Z.to_nat i = Some (Some c) → hof c = Some h →
              h mod (slot_size s * 2) = m → m mod slot_size s = i) as Hback.
    { intros i c h m Hi Hc Hh <-. destruct (sl_ctx _ _ H i c Hi Hc) as (x & _ & Hh' & Hm).
      simplify_eq. rewrite Z.mod_mod_divide by (exists 2; lia). rewrite Hse in *.
      by rewrite (hash_harbor _ _ _ _ H) by lia. }
    pose proof (Hback i1 c1 h1 _ ltac:(lia) Hc1 Hh1 Hm1) as B1.
    pose proof (Hback i2 c2 h2 _ ltac:(lia) Hc2 Hh2 Hm2) as B2.
    replace (1 + slot_size s) with (1 + 1 * slot_size s) in B2 by lia.
    rewrite Z.mod_add in B2 by lia. rewrite Z.mod_small in B1, B2 by lia.
    simplify_eq. lia.
  - intros c. rewrite !list_elem_of_lookup. specialize (Hsame c).
    assert (∀ k : list (option loc), (∃ i, k !! i = Some (Some c)) ↔
              (∃ i, 0 ≤ i ∧ k !! Z.to_nat i = Some (Some c))) as Hz.
    { intros k. split; [intros (i & Hi); exists (Z.of_nat i); rewrite Nat2Z.id; split; [lia|done]|].
      intros (i & _ & Hi). eauto. }
    rewrite !Hz. done.
Qed.

(** ** Registration *)

(** the table after [ctx] took the free slot of handle [x] *)
Definition placed (x : Z) (ctx : loc) (s : handle_storage) : handle_storage :=
  set_index (x + 1)
    (set_slots (slot_size s) (<[Z.to_nat (x mod slot_size s) := Some ctx]> (slot s)) s).

Lemma placed_spec hof hof' s x ctx :
  slots_inv hof s → 1 ≤ x ≤ HANDLE_MASK → Some ctx ∉ slot s →
  slot s !! Z.to_nat (x mod slot_size s) = Some None →
  (∀ c, c ≠ ctx → hof' c = hof c) → hof' ctx = Some (x + harbor s) →
  slots_inv hof' (placed x ctx s) ∧ registered hof' (placed x ctx s) (x + harbor s) ctx ∧
  ∀ h c, h ≠ x + harbor s → registered hof' (placed x ctx s) h c ↔ registered hof s h c.
Proof.
  intros H Hx Hfresh Hfree Hhof Hctx. pose proof (slots_size_pos _ _ H) as Hsz.
  pose proof (mod_range x (slot_size s) ltac:(lia)) as Hm.
  pose proof (sl_len _ _ H) as Hlen. unfold Zlen in Hlen.
  assert (∀ i c, 0 ≤ i → slot (placed x ctx s) !! Z.to_nat i = Some (Some c) ↔
            (i = x mod slot_size s ∧ c = ctx) ∨
            (slot s !! Z.to_nat i = Some (Some c) ∧ c ≠ ctx)) as Hslot.
  { intros i c Hi. simpl. destruct (decide (i = x mod slot_size s)) as [->|Hne].
    - rewrite list_lookup_insert_eq by lia. rewrite Hfree. naive_solver.
    - rewrite list_lookup_insert_ne by lia. split; [|naive_solver].
      intros Hc. right. split; [done|]. intros ->. apply Hfresh.
      by eapply list_elem_of_lookup_2. }
  split; [|split].
  - split; simpl.
    + apply H.
    + rewrite Zlen_insert. apply H.
    + unfold HANDLE_MASK in *. lia.
    + apply H.
    + intros i c Hi Hc. apply (Hslot i c Hi) in Hc as [[-> ->]|[Hc Hne]]; [by exists x|].
      rewrite Hhof by done. by apply H.
  - exists (x mod slot_size s). split; [lia|]. split; [|done]. apply Hslot; [lia|]. by left.
  - intros h c Hne. unfold registered. split.
    + intros (i & Hi & Hc & Hh). apply Hslot in Hc as [[-> ->]|[Hc Hn]]; [congruence| |done].
      rewrite Hhof in Hh by done. by exists i.
    + intros (i & Hi & Hc & Hh).
      assert (c ≠ ctx) as Hn by (intros ->; apply Hfresh; by eapply list_elem_of_lookup_2).
      exists i. split; [done|]. rewrite Hslot, Hhof by done. split; [by right|done].
Qed.

Lemma lor_harbor hof s x :
  slots_inv hof s → 1 ≤ x ≤ HANDLE_MASK → Z.lor x (harbor s) = x + harbor s.
Proof.
  intros H Hx. destruct (sl_harbor _ _ H) as (b & Hb & ->). unfold HANDLE_MASK in *.
  apply lor_high; lia.
Qed.

(** One round of the loop that finds a slot. *)
Lemma register_found hof s ctx x fuel :
  slots_inv hof s → 1 ≤ x ≤ HANDLE_MASK →
  register_scan (Z.to_nat (slot_size s)) (handle_index s) s = Ret (Some x) →
  register_loop (S fuel) hof ctx s = Ret (x + harbor s, placed x ctx s).
Proof.
  intros H Hx E. pose proof (slots_size_pos _ _ H). pose proof (sl_len _ _ H).
  simpl. rewrite E. simpl. rewrite (slot_hash _ _ _ H).
  pose proof (mod_range x (slot_size s) ltac:(lia)).
  rewrite set_idx_ok by lia. simpl. by rewrite (lor_harbor _ _ _ H).
Qed.

(** One round that doubles the table. *)
Lemma register_full hof s ctx s1 fuel :
  register_scan (Z.to_nat (slot_size s)) (handle_index s) s = Ret None →
  register_grow hof s = Ret s1 →
  register_loop (S fuel) hof ctx s = register_loop fuel hof ctx s1.
Proof. intros E Eg. simpl. rewrite E. simpl. by rewrite Eg. Qed.

(** only slot 0 is free, or none *)
Definition others_taken (s : handle_storage) : Prop :=
  ∀ i, 0 < i < slot_size s → ∃ c, slot s !! Z.to_nat i = Some (Some c).
(** slot 0 is the only free slot, and the scan wraps past it *)
Definition zero_missed (s : handle_storage) : Prop :=
  ¬ reaches_zero s ∧ slot s !! 0%nat = Some None ∧ others_taken s.

Lemma register_loop_spec hof s ctx :
  slots_inv hof s → Some ctx ∉ slot s → ¬ zero_missed s →
  ∃ x s1, register_loop 2 hof ctx s = Ret (x + harbor s, placed x ctx s1) ∧
    1 ≤ x ≤ HANDLE_MASK ∧ slots_inv hof s1 ∧ (Some ctx ∉ slot s1) ∧ harbor s1 = harbor s ∧
    slot s1 !! Z.to_nat (x mod slot_size s1) = Some None ∧
    (∀ h c, registered hof s1 h c ↔ registered hof s h c) ∧
    (name_cap s1, name_count s1, names s1) = (name_cap s, name_count s, names s).
Proof.
  intros H Hfresh Hcase. pose proof (slots_size_pos _ _ H) as Hsz.
  pose proof (sl_index _ _ H) as Hix. pose proof (sl_len _ _ H) as Hlen.
  destruct (scan_spec hof s (Z.to_nat (slot_size s)) (handle_index s) H) as ([x|] & E & Hr).
  - destruct Hr as (Hx & Hfree & _). exists x, s.
    rewrite (register_found hof s ctx x 1) by (done || apply Hx; lia).
    split; [done|]. split; [apply Hx; lia|]. done.
  - assert (full s) as Hfull.
    { assert (∀ i, 0 ≤ i < slot_size s → reaches_zero s ∨ i ≠ 0 → ∃ c, slot s !! Z.to_nat i = Some (Some c)) as Ht.
      { intros i Hi Hd. destruct (visited_covers hof s i H Hi Hd) as (k & Hk & <-). by apply Hr. }
      intros i Hi. destruct (get_idx_ok (slot s) i) as ([c|] & _ & Ho); [lia|eauto|].
      destruct (decide (i = 0)) as [->|]; [|apply Ht; lia].
      exfalso. apply Hcase. split; [|split; [done|intros j Hj; apply Ht; lia]].
      intros Hz. destruct (Ht 0) as (c & Hc); [lia|tauto|]. congruence. }
    assert (slot_size s < 2 ^ 24) as Hlt.
    { destruct (Hfull 0) as (c & Hc); [lia|]. destruct (sl_ctx _ _ H 0 c ltac:(lia) Hc) as (x & Hx & _ & Hm).
      assert (slot_size s ≠ 2 ^ 24); [|lia]. intros Es. rewrite Es, Z.mod_small in Hm by (unfold HANDLE_MASK in *; lia). lia. }
    destruct (register_grow_spec hof s H Hfull Hlt) as (l & Eg & H1 & Hreg & (j & Hj & Hfree) & Hin).
    set (s1 := set_slots (slot_size s * 2) l s) in *.
    destruct (scan_spec hof s1 (Z.to_nat (slot_size s1)) (handle_index s1) H1) as (r & E1 & Hr1).
    destruct r as [x|].
    2:{ exfalso. destruct (visited_covers hof s1 j H1) as (k & Hk & Ek); [simpl; lia|right; lia|].
        destruct (Hr1 k Hk) as (c & Hc). rewrite Ek in Hc. simpl in Hc. congruence. }
    destruct Hr1 as (Hx & Hxf & _). exists x, s1.
    assert (1 ≤ x ≤ HANDLE_MASK) as Hx' by (apply Hx; simpl; lia).
    assert (register_loop 2 hof ctx s = register_loop 1 hof ctx s1) as ->.
    { by apply register_full. }
    rewrite (register_found hof s1 ctx x 0) by done.
    split; [done|]. split; [done|]. split; [done|]. split; [|done].
    simpl. by rewrite Hin.
Qed.

(** The scan skips slot 0 exactly when it wraps: then a table whose only free
    slot is slot 0 is taken for full. *)
Lemma scan_skips_zero hof s :
  slots_inv hof s → ¬ reaches_zero s → others_taken s →
  register_scan (Z.to_nat (slot_size s)) (handle_index s) s = Ret None.
Proof.
  intros H Hw Hocc. pose proof (slots_size_pos _ _ H) as Hsz.
  pose proof (sl_index _ _ H) as Hix. unfold reaches_zero in Hw.
  destruct (scan_spec hof s (Z.to_nat (slot_size s)) (handle_index s) H) as ([x|] & E & Hr);
    [exfalso|done].
  destruct Hr as (Hx & Hfree & k & Hk & Ek). specialize (Hx ltac:(lia)).
  assert (x mod slot_size s ≠ 0) as Hnz.
  { destruct (decide (slot_size s ≤ HANDLE_MASK)) as [Hs|Hs].
    2:{ unfold HANDLE_MASK in *. rewrite Z.mod_small by lia. lia. }
    rewrite Ek, visited_closed by lia.
    destruct (sl_size _ _ H) as (e & He & Hse). case_decide.
    - replace (handle_index s + Z.of_nat k) with
        (slot_size s - (HANDLE_MASK + 1 - handle_index s - Z.of_nat k)
        + (2 ^ (24 - e) - 1) * slot_size s).
      + rewrite Z.mod_add, Z.mod_small by lia. lia.
      + rewrite Hse. change (HANDLE_MASK + 1) with (2 ^ 24).
        replace (2 ^ 24) with (2 ^ (24 - e) * 2 ^ e); [lia|].
        rewrite <- Z.pow_add_r by lia. f_equal. lia.
    - rewrite Z.mod_small by lia. lia. }
  pose proof (mod_range x (slot_size s) ltac:(lia)).
  destruct (Hocc (x mod slot_size s)) as (c & Hc); [lia|]. congruence.
Qed.

(** rehashing a table whose slot 0 is NULL *)
Lemma register_grow_null hof s :
  0 < slot_size s → slot_size s * 2 - 1 ≤ HANDLE_MASK → slot s !! 0%nat = Some None →
  register_grow hof s = Undef.
Proof.
  intros Hsz Hm H0. unfold register_grow. rewrite bool_decide_eq_true_2 by done.
  cbn [cassert]. rewrite Ret_bind.
  replace (Z.to_nat (slot_size s)) with (S (Z.to_nat (slot_size s - 1))) by lia.
  assert (∀ l, rehash_one hof s 0 l = Undef) as E.
  { intros l. unfold rehash_one.
    assert (get_idx (slot s) 0 = Ret None) as -> by (by apply get_idx_Ret). done. }
  cbn [for_loop]. by rewrite E.
Qed.

(** A scan that misses a free slot 0 does not end well: the rehash takes the handle of
    the NULL in slot 0, unless the table has its largest size. *)
Lemma register_missed hof s ctx :
  slots_inv hof s → zero_missed s →
  register_loop 2 hof ctx s = if decide (slot_size s < 2 ^ 24) then Undef else AssertFail.
Proof.
  intros H (Hw & H0 & Hocc). pose proof (slots_size_pos _ _ H) as Hsz.
  cbn [register_loop]. rewrite (scan_skips_zero _ s H Hw Hocc), Ret_bind.
  destruct (sl_size _ _ H) as (e & He & Hse). case_decide.
  - assert (e < 24) as He' by (apply (Z.pow_lt_mono_r_iff 2); lia).
    assert (2 ^ e ≤ 2 ^ 23) by (apply Z.pow_le_mono_r; lia).
    rewrite register_grow_null; [done|lia|unfold HANDLE_MASK; lia|done].
  - unfold register_grow. rewrite bool_decide_eq_false_2 by (unfold HANDLE_MASK; lia). done.
Qed.

Section registry.
Context {W : Type} `{!ContextStore W}.
Implicit Types (w : W) (s : handle_storage).

(** C3. Registration of a context that is not in the table, in any well-formed
    table (every context in it has its handle stored, at most 2^24 slots). When the
    only free slot is slot 0 and the scan does not try it, because it wraps around
    the 24-bit index on its way or because the table has 2^24 slots, registration
    dereferences the NULL pointer of slot 0, respectively fails the assertion on the
    table's size. Otherwise it terminates (doubling the table when it is full), and
    returns a handle with the harbor's high byte and a non-zero low part that no
    registered context has. Once the caller has stored that handle in the context,
    the table is well formed, the handle leads to the context, and every other handle
    leads where it did; the names are untouched. *)
Theorem handle_register_fresh w s ctx :
  slots_inv (skynet_context_handle w) s → Some ctx ∉ slot s →
  (zero_missed s → skynet_handle_register ctx w s =
     if decide (slot_size s < 2 ^ 24) then Undef else AssertFail) ∧
  (¬ zero_missed s →
    ∃ h s', skynet_handle_register ctx w s = Ret (h, s') ∧
    h / 2 ^ 24 * 2 ^ 24 = harbor s ∧ 1 ≤ h mod 2 ^ 24 ≤ HANDLE_MASK ∧
    (∀ c, ¬ registered (skynet_context_handle w) s h c) ∧
    names_of s' = names_of s ∧ harbor s' = harbor s ∧
    ∀ hof', (∀ c, c ≠ ctx → hof' c = skynet_context_handle w c) → hof' ctx = Some h →
      slots_inv hof' s' ∧ registered hof' s' h ctx ∧
      ∀ h' c, h' ≠ h →
        registered hof' s' h' c ↔ registered (skynet_context_handle w) s h' c).
Proof.
  intros H Hfresh. split; [intros Hm; by apply register_missed|]. intros Hcase.
  destruct (register_loop_spec _ s ctx H Hfresh Hcase)
    as (x & s1 & E & Hx & H1 & Hf1 & Hh & Hfree & Hreg & [= Hn1 Hn2 Hn3]).
  exists (x + harbor s), (placed x ctx s1). split; [done|].
  destruct (sl_harbor _ _ H) as (b & Hb & Ehb).
  assert (x < 2 ^ 24) by (unfold HANDLE_MASK in *; lia).
  split.
  { rewrite Ehb, Z.div_add, Z.div_small by lia. done. }
  split.
  { rewrite Ehb, Z.mod_add, Z.mod_small by lia. done. }
  split.
  { intros c Hc. rewrite <- Hreg in Hc. apply registered_slot in Hc; [|done].
    destruct (sl_size _ _ H1) as (k & Hk & Hsz). rewrite Hsz, <- Hh in *.
    rewrite (hash_harbor _ _ _ _ H1) in Hc by lia. congruence. }
  split.
  { unfold names_of. simpl. by rewrite Hn2, Hn3. }
  split; [done|].
  intros hof' Hother Hctx. rewrite <- Hh in *.
  destruct (placed_spec _ hof' s1 x ctx H1 Hx Hf1 Hfree Hother Hctx) as (Ha & Hb' & Hc).
  split; [done|]. split; [done|]. intros h' c Hne. by rewrite Hc, Hreg.
Qed.

(** Lookup. [skynet_handle_grab] returns the registered context with one
    more reference, and NULL, the world unchanged, for any other handle. *)
Theorem handle_grab_correct w s h :
  slots_inv (skynet_context_handle w) s →
  (∀ c w', registered (skynet_context_handle w) s h c → skynet_context_grab c w = Ret w' →
   skynet_handle_grab h s w = Ret (Some c, w')) ∧
  ((∀ c, ¬ registered (skynet_context_handle w) s h c) →
   skynet_handle_grab h s w = Ret (None, w)).
Proof.
  intros H. destruct (slot_lookup_spec _ s h H) as (r & E & Hr).
  unfold skynet_handle_grab. rewrite E. simpl. split.
  - intros c w' Hc%Hr Hg. subst r. by rewrite Hg.
  - intros Hnone. destruct r as [c|]; [|done]. exfalso. apply (Hnone c). by apply Hr.
Qed.
End registry.

(** ** Retirement *)

(** the storage after [c] left slot [i] and its names were compacted *)
Definition retired_from (s s' : handle_storage) (h : Z) (i : Z) : Prop :=
  slot s' = <[Z.to_nat i := None]> (slot s) ∧ slot_size s' = slot_size s ∧
  harbor s' = harbor s ∧ handle_index s' = handle_index s ∧
  (names_inv s → names_inv s' ∧ name_map s' = filter (λ kv, kv.2 ≠ h) (name_map s)).

Lemma retired_slots hof hof' s s' h c i :
  slots_inv hof s → 0 ≤ i → slot s !! Z.to_nat i = Some (Some c) → hof c = Some h →
  retired_from s s' h i → (∀ c', c' ≠ c → hof' c' = hof c') →
  (∀ j c', 0 ≤ j → slot s' !! Z.to_nat j = Some (Some c') →
     slot s !! Z.to_nat j = Some (Some c') ∧ c' ≠ c ∧ j ≠ i).
Proof.
  intros H Hi Hc Hh (E & _) Hother j c' Hj. rewrite E.
  assert (Z.to_nat i < length (slot s))%nat by (by eapply lookup_lt_Some).
  destruct (decide (j = i)) as [->|Hne].
  - rewrite list_lookup_insert_eq by lia. done.
  - rewrite list_lookup_insert_ne by lia. intros Hc'. split; [done|]. split; [|done].
    intros ->. destruct (sl_ctx _ _ H i c Hi Hc) as (x & _ & E1 & M1).
    destruct (sl_ctx _ _ H j c Hj Hc') as (x' & _ & E2 & M2). simplify_eq. apply Hne.
    f_equal. lia.
Qed.

Lemma retired_inv hof hof' s s' h c i :
  slots_inv hof s → 0 ≤ i → slot s !! Z.to_nat i = Some (Some c) → hof c = Some h →
  retired_from s s' h i → (∀ c', c' ≠ c → hof' c' = hof c') →
  slots_inv hof' s' ∧ ∀ h' c', registered hof' s' h' c' ↔ h' ≠ h ∧ registered hof s h' c'.
Proof.
  intros H Hi Hc Hh Hret Hother.
  pose proof (retired_slots hof hof' s s' h c i H Hi Hc Hh Hret Hother) as Hslots.
  destruct Hret as (E & Esz & Eh & Ei & _). split.
  - split; rewrite ?Esz, ?Eh, ?Ei; try apply H.
    + rewrite E, Zlen_insert. apply H.
    + intros j c' Hj Hc'. destruct (Hslots j c' Hj Hc') as (Hc'' & Hne & _).
      rewrite Hother by done. by apply H.
  - intros h' c'. split.
    + intros (j & Hj & Hc' & Hh'). destruct (Hslots j c' Hj Hc') as (Hc'' & Hne & Hji).
      rewrite Hother in Hh' by done. split; [|by exists j]. intros ->.
      pose proof (registered_slot hof s h c' H ltac:(by exists j)) as R1.
      pose proof (registered_slot hof s h c H ltac:(by exists i)) as R2. congruence.
    + intros (Hne & j & Hj & Hc' & Hh').
      assert (c' ≠ c) by congruence. exists j. split; [done|].
      assert (j ≠ i) by congruence. rewrite E, list_lookup_insert_ne, Hother by (done || lia).
      done.
Qed.

Lemma retire_locked_spec hof s h c i :
  slots_inv hof s → names_inv s → 0 ≤ i → slot s !! Z.to_nat i = Some (Some c) →
  hof c = Some h →
  ∃ s', retire_locked hof h s = Ret (Some c, s') ∧ retired_from s s' h i.
Proof.
  intros H Hn Hi Hc Hh. destruct (slot_lookup_spec _ s h H) as (r & E & Hr).
  assert (r = Some c) as -> by (apply Hr; by exists i).
  destruct (sl_ctx _ _ H i c Hi Hc) as (x & Hx & Hh' & Hm).
  assert (h mod slot_size s = i) as Ei.
  { destruct (sl_size _ _ H) as (k & Hk & Hsz). rewrite Hsz in *.
    simplify_eq. by rewrite (hash_harbor _ _ _ _ H) by lia. }
  unfold retire_locked. rewrite E. simpl. rewrite (slot_hash _ _ _ H), Ei.
  rewrite set_idx_ok by (apply lookup_lt_Some in Hc; unfold Zlen; lia). simpl.
  destruct (retire_loop s h Hn) as (j & l & -> & Hj & Hl & Ht). simpl.
  eexists. split; [done|]. split; [done|]. split; [done|]. split; [done|]. split; [done|].
  intros _.
  set (s' := set_names _ _ _ _).
  assert (names_of s' = filter (λ n, nhandle n ≠ h) (names_of s)) as En by done.
  assert (names_inv s') as Hn'.
  { pose proof (names_cap _ Hn). pose proof (names_count _ Hn).
    split; simpl; [done|lia|done|]. rewrite En.
    eapply names_sorted_sublist; [|apply Hn]. apply sublist_filter. }
  split; [done|]. by apply name_map_retire.
Qed.

(** What retirement relies on: the storage is a part of the world that the
    contexts do not see. *)
Class HandleWorldLaws (W : Type) `{!ContextStore W, !HandleWorld W} : Prop := {
  get_put_handles : ∀ s w, get_handles (put_handles s w) = s;
  put_get_handles : ∀ w, put_handles (get_handles w) w = w;
  context_put_handles : ∀ s w c,
    skynet_context_handle (put_handles s w) c = skynet_context_handle w c
}.

Section retire.
Context {W : Type} `{!ContextStore W, !HandleWorld W, !HandleWorldLaws W}.
Implicit Types (w : W) (s : handle_storage).
Abbreviation hof := skynet_context_handle.

(** Retirement. Retiring a registered handle first takes the context out
    of the table, which then holds exactly the other registrations and exactly
    the names of the other handles, then gives the storage's reference to the
    context back and returns 1; retiring any other handle returns 0 and
    changes nothing. *)
Theorem handle_retire_correct w h :
  let s := get_handles w in
  slots_inv (hof w) s → names_inv s →
  (∀ c, registered (hof w) s h c →
   ∃ s', skynet_handle_retire h w =
           (w' ← skynet_context_release c (put_handles s' w); Ret (1, w')) ∧
     names_inv s' ∧ name_map s' = filter (λ kv, kv.2 ≠ h) (name_map s) ∧
     ∀ hof', (∀ c', c' ≠ c → hof' c' = hof w c') →
       slots_inv hof' s' ∧
       ∀ h' c', registered hof' s' h' c' ↔ h' ≠ h ∧ registered (hof w) s h' c') ∧
  ((∀ c, ¬ registered (hof w) s h c) → skynet_handle_retire h w = Ret (0, w)).
Proof.
  intros s H Hn. split.
  - intros c (i & Hi & Hc & Hh).
    destruct (retire_locked_spec _ s h c i H Hn Hi Hc Hh) as (s' & E & Hret).
    exists s'. unfold skynet_handle_retire. fold s. rewrite E. split; [done|].
    destruct Hret as (E1 & E2 & E3 & E4 & Hnames).
    destruct (Hnames Hn) as [Hn' Hmap]. split; [done|]. split; [done|].
    intros hof' Hother. eapply retired_inv; [done|exact Hi|done|done| |done].
    done.
  - intros Hnone. destruct (slot_lookup_spec _ s h H) as (r & E & Hr).
    unfold skynet_handle_retire, retire_locked. fold s. rewrite E. simpl.
    destruct r as [c|]; [|simpl; unfold s; by rewrite put_get_handles].
    exfalso. apply (Hnone c). by apply Hr.
Qed.

(** Every live context can be released; the others keep their handles, and the
    storage is left alone. *)
Definition release_frame : Prop := ∀ c w, is_Some (hof w c) →
  ∃ w', skynet_context_release c w = Ret w' ∧ get_handles w' = get_handles w ∧
        ∀ c', c' ≠ c → hof w' c' = hof w c'.

(** the state of a pass of [skynet_handle_retireall] after [k] slots: those
    are empty, with their names gone, and the rest is as before *)
Definition retire_progress w n0 (k : Z) (st : Z * W) : Prop :=
  let '(n, w') := st in
  let s := get_handles w in
  let s' := get_handles w' in
  slots_inv (hof w') s' ∧ names_inv s' ∧ slot_size s' = slot_size s ∧
  (∀ i, 0 ≤ i < slot_size s → slot s' !! Z.to_nat i =
   if decide (i < k) then Some None else slot s !! Z.to_nat i) ∧
  (∀ i c, k ≤ i < slot_size s → slot s !! Z.to_nat i = Some (Some c) → hof w' c = hof w c) ∧
  ((∀ i, 0 ≤ i < slot_size s → slot s !! Z.to_nat i = Some None) → n = n0) ∧
  ∀ nm h, name_map s' !! nm = Some h → name_map s !! nm = Some h ∧
  ∀ i c, 0 ≤ i < k → slot s !! Z.to_nat i = Some (Some c) → hof w c ≠ Some h.

Lemma retire_slot_step w n0 k st :
  release_frame → slots_inv (hof w) (get_handles w) → 0 ≤ k < slot_size (get_handles w) →
  retire_progress w n0 k st →
  ∃ st', retire_slot (0 + k * 1) st = Ret st' ∧ retire_progress w n0 (k + 1) st'.
Proof.
  intros Hrel H Hk. destruct st as [n w1]. unfold retire_progress at 1.
  set (s := get_handles w) in *. set (s1 := get_handles w1).
  intros (H1 & Hn1 & Hz1 & Hs1 & Hw1 & Hc1 & Hm1).
  unfold retire_slot. fold s1.
  pose proof (Hs1 k ltac:(lia)) as Hsk. rewrite decide_False in Hsk by lia.
  pose proof (sl_len _ _ H) as Hlen.
  destruct (get_idx_ok (slot s) k) as (o & _ & Ho); [lia|]. rewrite Ho in Hsk.
  replace (get_idx (slot s1) (0 + k * 1)) with (Ret o)
    by (symmetry; apply get_idx_Ret; split; [lia|rewrite <- Hsk; f_equal; lia]).
  rewrite Ret_bind. destruct o as [c|].
  + destruct (sl_ctx _ _ H1 k c ltac:(lia) Hsk) as (x & Hx & Hh & Hm).
    destruct (sl_harbor _ _ H1) as (b & Hb & Ehb).
    rewrite Hh. simpl. rewrite bool_decide_eq_true_2 by lia.
    destruct (retire_locked_spec _ s1 _ c k H1 Hn1 ltac:(lia) Hsk Hh) as (s2 & El & Hret).
    destruct (Hrel c (put_handles s2 w1)) as (w2 & Ew & Eh & Hfr);
      [rewrite context_put_handles; eauto|].
    rewrite get_put_handles in Eh.
    assert (∀ c', c' ≠ c → hof w2 c' = hof w1 c') as Hfr'
      by (intros; by rewrite Hfr, context_put_handles).
    unfold skynet_handle_retire. fold s1. rewrite El. simpl. rewrite Ew. simpl.
    destruct (retired_inv _ (hof w2) s1 s2 _ c k H1 ltac:(lia) Hsk Hh Hret Hfr') as [H2 _].
    destruct Hret as (E2 & Ez & _ & _ & Hnames). destruct (Hnames Hn1) as [Hn2 Hmap].
    eexists. split; [done|]. unfold retire_progress. fold s. rewrite Eh.
    split; [done|]. split; [done|]. split; [congruence|]. split; [|split; [|split]].
    * intros i Hi. rewrite E2. destruct (decide (i = k)) as [->|].
      -- rewrite decide_True by lia. apply list_lookup_insert_eq.
        by eapply lookup_lt_Some.
      -- rewrite list_lookup_insert_ne, Hs1 by lia. repeat case_decide; try done; lia.
    * intros i c' Hi Hc'. rewrite Hfr'; [by apply (Hw1 i); [lia|]|].
      intros ->. rewrite (Hw1 i) in Hh by (done || lia).
      destruct (sl_ctx _ _ H i c ltac:(lia) Hc') as (x1 & _ & Ex1 & M1).
      destruct (sl_ctx _ _ H k c ltac:(lia) Ho) as (x2 & _ & Ex2 & M2).
      simplify_eq. assert (x1 = x2) by lia. subst. lia.
    * intros Hall. rewrite Hall in Ho by lia. done.
    * intros nm h Hl. rewrite Hmap, map_lookup_filter_Some in Hl. simpl in Hl.
      destruct Hl as [Hl Hneq]. destruct (Hm1 nm h Hl) as [Hl' Hother]. split; [done|].
      intros i c' Hi Hc'. destruct (decide (i = k)) as [->|].
      -- assert (c' = c) as -> by congruence.
        rewrite <- (Hw1 k) by (done || lia). congruence.
      -- apply (Hother i); [lia|done].
  + rewrite Ret_bind. rewrite bool_decide_eq_false_2 by lia.
    eexists. split; [done|]. unfold retire_progress. fold s s1.
    split; [done|]. split; [done|]. split; [done|].
    split; [|split; [|split]].
    * intros i Hi. rewrite Hs1 by done. destruct (decide (i = k)) as [->|].
      -- rewrite decide_False, decide_True by lia. done.
      -- repeat case_decide; try done; lia.
    * intros i c Hi. apply Hw1. lia.
    * done.
    * intros nm h Hl. destruct (Hm1 nm h Hl) as [Hl' Hother]. split; [done|].
      intros i c' Hi Hc'. destruct (decide (i = k)) as [->|]; [congruence|].
      apply (Hother i); [lia|done].
Qed.

Lemma retire_pass w n0 : let s := get_handles w in
  release_frame → slots_inv (hof w) s → names_inv s →
  ∃ n w', for_loop retire_slot (Z.to_nat (slot_size s)) 0 1 (n0, w) = Ret (n, w') ∧
  let s' := get_handles w' in
  slots_inv (hof w') s' ∧ names_inv s' ∧ slot_size s' = slot_size s ∧
  (∀ i, 0 ≤ i < slot_size s → slot s' !! Z.to_nat i = Some None) ∧
  ((∀ i, 0 ≤ i < slot_size s → slot s !! Z.to_nat i = Some None) → n = n0) ∧
  ∀ k h, name_map s' !! k = Some h →
    name_map s !! k = Some h ∧ ∀ c, ¬ registered (hof w) s h c.
Proof.
  intros s Hrel H Hn. pose proof (slots_size_pos _ _ H) as Hsz.
  destruct (for_loop_inv retire_slot (retire_progress w n0) (Z.to_nat (slot_size s)) 0 1
    (n0, w)) as ([n w'] & E & Hs' & Hn' & Hz & Hnone & _ & Hcnt & Hnm).
  - split; [done|]. split; [done|]. split; [done|]. split; [|split; [done|split; [done|]]].
    + intros i Hi. by rewrite decide_False by lia.
    + intros nm h Hnm. split; [done|]. lia.
  - intros k st Hk. apply retire_slot_step; [done..|]. fold s. lia.
  - exists n, w'. fold s in Hz, Hnone, Hcnt, Hnm. rewrite Z2Nat.id in * by lia.
    split; [done|]. split; [done|]. split; [done|]. split; [done|]. split; [|split; [done|]].
    + intros i Hi. rewrite Hnone, decide_True by lia. done.
    + intros k h Hk. destruct (Hnm k h Hk) as [? Hother]. split; [done|].
      intros c (i & Hi & Hc & Hh).
      assert (i < slot_size s) by (apply lookup_lt_Some in Hc;
        pose proof (sl_len _ _ H); unfold Zlen in *; lia).
      by apply (Hother i c).
Qed.

(** Shutdown. [skynet_handle_retireall] terminates in two passes over the
    table: it retires every context, so no handle is registered any more,
    and the names that remain are names of handles that were not registered. *)
Theorem handle_retireall_correct w : let s := get_handles w in
  release_frame → slots_inv (hof w) s → names_inv s →
  ∃ w', skynet_handle_retireall 2 w = Ret w' ∧
  let s' := get_handles w' in
  slots_inv (hof w') s' ∧ names_inv s' ∧ (∀ h c, ¬ registered (hof w') s' h c) ∧
  ∀ k h, name_map s' !! k = Some h →
    name_map s !! k = Some h ∧ ∀ c, ¬ registered (hof w) s h c.
Proof.
  intros s Hrel H Hn.
  destruct (retire_pass w 0 Hrel H Hn) as (n & w1 & E1 & H1 & Hn1 & Hz1 & Hs1 & _ & Hm1).
  destruct (retire_pass w1 0 Hrel H1 Hn1) as (n2 & w2 & E2 & H2 & Hn2 & Hz2 & Hs2 & Hc2 & Hm2).
  fold s in Hz1, Hs1, Hm1, E1.
  rewrite Hz1 in Hs2, Hc2. specialize (Hc2 Hs1). subst n2.
  assert (∀ w', slots_inv (hof w') (get_handles w') → slot_size (get_handles w') = slot_size s →
    (∀ i, 0 ≤ i < slot_size s → slot (get_handles w') !! Z.to_nat i = Some None) →
    ∀ h c, ¬ registered (hof w') (get_handles w') h c) as Hempty.
  { intros w' H' Hz' Hnone h c (i & Hi & Hc & _).
    assert (i < slot_size s) by (apply lookup_lt_Some in Hc;
      pose proof (sl_len _ _ H'); unfold Zlen in *; lia).
    rewrite Hnone in Hc by lia. done. }
  cbn [skynet_handle_retireall]. fold s. rewrite E1, Ret_bind. case_bool_decide.
  - exists w1. split; [done|]. split; [done|]. split; [done|]. split; [|done].
    by apply Hempty.
  - rewrite E2, Ret_bind. rewrite bool_decide_eq_true_2 by done.
    exists w2. split; [done|]. split; [done|]. split; [done|]. split.
    + apply Hempty; [done|congruence|done].
    + intros k h Hk. apply Hm1. by destruct (Hm2 k h Hk).
Qed.
End retire.
