(* ===== verification/HandleWitness.v ===== *)
(** * Concrete runs of the handle storage theorems *)
From S2P Require Import Prelude CLib Handle NameTable HandleTable.
#[local] Open Scope Z_scope.

(** contexts reduced to their handle; references are not counted *)
#[export] Instance toy_contexts : ContextStore (gmap Z Z) := {|
  skynet_context_handle := λ w c, w !! c;
  skynet_context_grab := λ _ w, Ret w;
  skynet_context_release := λ _ w, Ret w
|}.

(** case analysis on an index of a concrete table of four slots *)
Ltac four_slots i Hi Hc :=
  let Hlt := fresh in
  pose proof (lookup_lt_Some _ _ _ Hc) as Hlt; simpl in Hlt;
  assert (i = 0 ∨ i = 1 ∨ i = 2 ∨ i = 3) as [->|[->|[->| ->]]] by lia;
  simpl in Hc; simplify_eq.

Definition h0 : handle_storage := skynet_handle_init 1.

Lemma h0_names : names_inv h0.
Proof.
  split; [done|simpl; lia|unfold MAX_SLOT_SIZE; simpl; lia|]. intros i j a b Hij Ha. done.
Qed.

Lemma h0_slots : slots_inv (skynet_context_handle (∅ : gmap Z Z)) h0.
Proof.
  split; [exists 2; split; [lia|done]|done|unfold HANDLE_MASK; simpl; lia| |].
  - exists 1. split; [lia|done].
  - intros i c Hi Hc. by four_slots i Hi Hc.
Qed.

Lemma namehandle_refines_map_witness :
  ∃ s', skynet_handle_namehandle 0x1000001 "logger" h0 = Ret (Some "logger"%string, s') ∧
    name_map s' = {["logger" := 0x1000001]}.
Proof.
  pose proof (namehandle_refines_map h0 0x1000001 "logger" h0_names) as H.
  destruct H as (s' & E & _ & Hm & _); [unfold MAX_SLOT_SIZE; simpl; lia|].
  exists s'. done.
Defined.

(** the table with two names *)
Definition h2 : handle_storage :=
  HandleStorage 0x1000000 1 4 [None; None; None; None] 2 2
    [HandleName "launcher" 0x1000002; HandleName "logger" 0x1000001].

Lemma h2_names : names_inv h2.
Proof.
  split; [done|simpl; lia|unfold MAX_SLOT_SIZE; simpl; lia|].
  intros [|[|i]] [|[|j]] a b Hij Ha Hb; try lia; try done. simpl in *. by simplify_eq.
Qed.

Lemma findname_correct_witness :
  skynet_handle_findname "logger" h2 = Ret 0x1000001 ∧
  skynet_handle_findname "gate" h2 = Ret 0.
Proof. split; rewrite (findname_correct h2 _ h2_names); reflexivity. Defined.

(** three services, the index about to wrap, slot 0 free *)
Definition h_wrap : handle_storage :=
  HandleStorage 0x1000000 0xfffffe 4 [None; Some 11; Some 12; Some 13] 2 0
    (replicate 2 junk_name).
Definition w_wrap : gmap Z Z := {[11 := 0x1000005; 12 := 0x1000006; 13 := 0x1000007]}.

Lemma h_wrap_slots : slots_inv (skynet_context_handle w_wrap) h_wrap.
Proof.
  split; [exists 2; split; [lia|done]|done|unfold HANDLE_MASK; simpl; lia| |].
  - exists 1. split; [lia|done].
  - intros i c Hi Hc. unfold HANDLE_MASK.
    four_slots i Hi Hc; [exists 5|exists 6|exists 7]; (split; [lia|done]).
Qed.

(** a table with free slots gives a handle; one whose free slot 0 is missed does not *)
Lemma handle_register_fresh_witness :
  (∃ h s', skynet_handle_register 100 (∅ : gmap Z Z) h0 = Ret (h, s') ∧ 1 ≤ h mod 2 ^ 24 ≤ HANDLE_MASK) ∧
  skynet_handle_register 100 w_wrap h_wrap = Undef.
Proof.
  split.
  - destruct (handle_register_fresh (∅ : gmap Z Z) h0 100 h0_slots) as [_ H]; [set_solver|].
    destruct H as (h & s' & E & _ & Hh & _); [|by exists h, s'].
    intros (Hr & _). apply Hr. split; [done|by left].
  - destruct (handle_register_fresh w_wrap h_wrap 100 h_wrap_slots) as [H _]; [set_solver|].
    apply H. split; [unfold reaches_zero, HANDLE_MASK; simpl; lia|]. split; [done|].
    intros i Hi. simpl in Hi. assert (i = 1 ∨ i = 2 ∨ i = 3) as [->|[->| ->]] by lia; simpl; eauto.
Defined.

Lemma wrap_registered : registered (skynet_context_handle w_wrap) h_wrap 0x1000006 12.
Proof. exists 2. split; [lia|]. done. Qed.
Lemma h_wrap_names : names_inv h_wrap.
Proof.
  split; [done|simpl; lia|unfold MAX_SLOT_SIZE; simpl; lia|]. intros i j a b Hij Ha. done.
Qed.

Lemma handle_grab_correct_witness :
  skynet_handle_grab 0x1000006 h_wrap w_wrap = Ret (Some 12, w_wrap).
Proof.
  destruct (handle_grab_correct w_wrap h_wrap 0x1000006 h_wrap_slots) as [H _].
  apply (H 12 w_wrap wrap_registered). done.
Defined.

#[export] Instance toy_world_contexts : ContextStore (handle_storage * gmap Z Z) := {|
  skynet_context_handle := λ w c, w.2 !! c;
  skynet_context_grab := λ _ w, Ret w;
  skynet_context_release := λ _ w, Ret w
|}.
#[export] Instance toy_world : HandleWorld (handle_storage * gmap Z Z) :=
  {| get_handles := fst; put_handles := λ s w, (s, w.2) |}.
#[export] Instance toy_world_laws : HandleWorldLaws (handle_storage * gmap Z Z).
Proof. split; [done|by intros []|done]. Qed.

Lemma world_slots :
  slots_inv (skynet_context_handle (h_wrap, w_wrap)) (get_handles (h_wrap, w_wrap)).
Proof. destruct h_wrap_slots as [A B C D E]. by split. Qed.

Lemma handle_retire_correct_witness : ∃ s',
  skynet_handle_retire 0x1000006 (h_wrap, w_wrap) = Ret (1, (s', w_wrap)) ∧ names_inv s'.
Proof.
  destruct (handle_retire_correct (h_wrap, w_wrap) 0x1000006 world_slots h_wrap_names) as [H _].
  destruct (H 12 wrap_registered) as (s' & E & Hn & _). exists s'. done.
Defined.

Lemma handle_retireall_correct_witness : ∃ w',
  skynet_handle_retireall 2 (h_wrap, w_wrap) = Ret w' ∧
  ∀ h c, ¬ registered (skynet_context_handle w') (get_handles w') h c.
Proof.
  destruct (handle_retireall_correct (h_wrap, w_wrap)) as (w' & E & _ & _ & Hn & _).
  - intros c w _. exists w. done.
  - apply world_slots.
  - apply h_wrap_names.
  - exists w'. done.
Defined.

(** ** The window between registration and the store of the handle

    [skynet_handle_register] puts the context in its slot before
    [skynet_context_new] stores the returned handle in it. If another thread
    registers a context in between and the table doubles, the rehash reads the
    handle 0 of the first context and files it under slot 0: once its handle
    is stored, looking it up finds nothing. *)
Definition h_window : handle_storage :=
  HandleStorage 0x1000000 5 4 [Some 14; Some 11; Some 12; Some 13] 2 0
    (replicate 2 junk_name).
Definition w_window : gmap Z Z := {[11 := 0x1000001; 12 := 0x1000002; 13 := 0x1000003; 14 := 0]}.

(** A registration that runs in the window succeeds, files the other
    context under slot 0, and leaves it unreachable by its own handle. *)
Theorem register_window_loses_context :
  ∃ s', skynet_handle_register 15 w_window h_window = Ret (0x1000005, s') ∧
    slot_lookup (skynet_context_handle (<[14 := 0x1000004]> w_window)) 0x1000004 s' = Ret None ∧
    slot s' !! 0%nat = Some (Some 14).
Proof.
  exists (HandleStorage 0x1000000 6 8
    [Some 14; Some 11; Some 12; Some 13; None; Some 15; None; None] 2 0 (replicate 2 junk_name)).
  split; [|split]; reflexivity.
Qed.
