(* ===== verification/Timer.v ===== *)
(** * The timer wheel: skynet-src/skynet_timer.c

    256 near slots of one tick and four levels of 64 slots, cascading. The
    linked lists of nodes are modelled by the list of their nodes; a node is
    its [timer_node] header together with the [timer_event] stored behind it.
    Time is a 32-bit count of centiseconds and wraps. *)
From S2P Require Import Prelude CLib Mq.

Definition TIME_NEAR_SHIFT : Z := 8.
Definition TIME_NEAR : Z := 256.
Definition TIME_LEVEL_SHIFT : Z := 6.
Definition TIME_LEVEL : Z := 64.
Definition TIME_NEAR_MASK : Z := TIME_NEAR - 1.
Definition TIME_LEVEL_MASK : Z := TIME_LEVEL - 1.
Definition MESSAGE_TYPE_SHIFT : Z := 56.
Definition MESSAGE_TYPE_MASK : Z := (2 ^ 64 - 1) / 2 ^ 8.

Record timer_event : Type := TimerEvent { ev_handle : Z; ev_session : Z }.
Record timer_node : Type := TimerNode { expire : Z; event : timer_event }.
Abbreviation link_list := (list timer_node).

Record timer : Type := Timer {
  near : list link_list;
  t : list (list link_list);
  time : Z;
  starttime : Z;
  current : Z;
  current_point : Z
}.

#[export] Instance timer_event_eq_dec : EqDecision timer_event.
Proof. solve_decision. Defined.

(** What the timer needs of the services: delivering a message to a handle
    ([skynet_context_push], 0 or -1) and reporting an error. *)
Class Services (W : Type) : Type := {
  skynet_context_push : Z → skynet_message → W → outcome (Z * W);
  skynet_error : option loc → string → W → outcome W
}.

Definition set_near (l : list link_list) (T : timer) : timer :=
  Timer l (t T) (time T) (starttime T) (current T) (current_point T).
Definition set_t (l : list (list link_list)) (T : timer) : timer :=
  Timer (near T) l (time T) (starttime T) (current T) (current_point T).
Definition set_time (v : Z) (T : timer) : timer :=
  Timer (near T) (t T) v (starttime T) (current T) (current_point T).
Definition set_clock (start cur point : Z) (T : timer) : timer :=
  Timer (near T) (t T) (time T) start cur point.

(** [link_clear]: the nodes, and the emptied list *)
Definition link_clear (l : link_list) : link_list * link_list := (l, []).
(** [link]: appending at the tail *)
Definition link (l : link_list) (node : timer_node) : link_list := l ++ [node].

Definition link_near (T : timer) (i : Z) (node : timer_node) : outcome timer :=
  l ← get_idx (near T) i;
  near' ← set_idx (near T) i (link l node);
  Ret (set_near near' T).

Definition link_level (T : timer) (level i : Z) (node : timer_node) : outcome timer :=
  ls ← get_idx (t T) level;
  l ← get_idx ls i;
  ls' ← set_idx ls i (link l node);
  t' ← set_idx (t T) level ls';
  Ret (set_t t' T).

(** the [for] of [add_node]: the first level whose window holds both times *)
Fixpoint find_level (n : nat) (i mask time current_time : Z) : Z :=
  match n with
  | O => i
  | S n =>
      if bool_decide (Z.lor time (mask - 1) = Z.lor current_time (mask - 1)) then i
      else find_level n (i + 1) (u32 (Z.shiftl mask TIME_LEVEL_SHIFT)) time current_time
  end.

Definition add_node (T : timer) (node : timer_node) : outcome timer :=
  let e := expire node in
  let current_time := time T in
  if bool_decide (Z.lor e TIME_NEAR_MASK = Z.lor current_time TIME_NEAR_MASK)
  then link_near T (Z.land e TIME_NEAR_MASK) node
  else
    let i := find_level 3 0 (Z.shiftl TIME_NEAR TIME_LEVEL_SHIFT) e current_time in
    link_level T i
      (Z.land (Z.shiftr e (TIME_NEAR_SHIFT + i * TIME_LEVEL_SHIFT)) TIME_LEVEL_MASK) node.

Definition timer_add (T : timer) (arg : timer_event) (delay : Z) : outcome timer :=
  add_node T (TimerNode (u32 (delay + time T)) arg).

Fixpoint add_nodes (T : timer) (nodes : link_list) : outcome timer :=
  match nodes with
  | [] => Ret T
  | node :: nodes => T ← add_node T node; add_nodes T nodes
  end.

Definition move_list (T : timer) (level idx : Z) : outcome timer :=
  ls ← get_idx (t T) level;
  l ← get_idx ls idx;
  let '(nodes, l) := link_clear l in
  ls' ← set_idx ls idx l;
  t' ← set_idx (t T) level ls';
  add_nodes (set_t t' T) nodes.

(** the [while] of [timer_shift]; a 32-bit time that is not 0 has a non-zero
    index on one of the four levels *)
Fixpoint shift_loop (fuel : nat) (T : timer) (ct mask time i : Z) : outcome timer :=
  if bool_decide (Z.land ct (mask - 1) = 0) then
    match fuel with
    | O => NoFuel
    | S fuel =>
        let idx := Z.land time TIME_LEVEL_MASK in
        if bool_decide (idx ≠ 0) then move_list T i idx
        else shift_loop fuel T ct (Z.shiftl mask TIME_LEVEL_SHIFT)
               (Z.shiftr time TIME_LEVEL_SHIFT) (i + 1)
    end
  else Ret T.

Definition timer_shift (T : timer) : outcome timer :=
  let ct := u32 (time T + 1) in
  let T := set_time ct T in
  if bool_decide (ct = 0) then move_list T 3 0
  else shift_loop 4 T ct TIME_NEAR (Z.shiftr ct TIME_NEAR_SHIFT) 0.

(** the message of a timeout: an empty response to the session *)
Definition timeout_message (session : Z) : skynet_message :=
  Message 0 session None (Z.shiftl PTYPE_RESPONSE MESSAGE_TYPE_SHIFT).

Definition timer_create_timer : timer :=
  Timer (replicate (Z.to_nat TIME_NEAR) []) (replicate 4 (replicate (Z.to_nat TIME_LEVEL) []))
    0 0 0 0.

Section execute.
Context {W : Type} `{!Services W}.

Fixpoint dispatch_list (nodes : link_list) (w : W) : outcome W :=
  match nodes with
  | [] => Ret w
  | node :: nodes =>
      '(_, w) ← skynet_context_push (ev_handle (event node))
                  (timeout_message (ev_session (event node))) w;
      dispatch_list nodes w
  end.

(** [while (T->near[idx].head.next)]: deliveries do not add timers, so a second
    look finds the list empty *)
Fixpoint timer_execute (fuel : nat) (T : timer) (w : W) : outcome (timer * W) :=
  let idx := Z.land (time T) TIME_NEAR_MASK in
  l ← get_idx (near T) idx;
  match l with
  | [] => Ret (T, w)
  | _ :: _ =>
      match fuel with
      | O => NoFuel
      | S fuel =>
          let '(current, l) := link_clear l in
          near' ← set_idx (near T) idx l;
          w ← dispatch_list current w;
          timer_execute fuel (set_near near' T) w
      end
  end.

Definition timer_update (T : timer) (w : W) : outcome (timer * W) :=
  '(T, w) ← timer_execute 1 T w;
  T ← timer_shift T;
  timer_execute 1 T w.

Definition skynet_timeout (handle delay session : Z) (T : timer) (w : W) :
    outcome (Z * timer * W) :=
  if bool_decide (delay ≤ 0) then
    '(r, w) ← skynet_context_push handle (timeout_message session) w;
    Ret (if bool_decide (r ≠ 0) then -1 else session, T, w)
  else
    T ← timer_add T (TimerEvent handle session) delay;
    Ret (session, T, w).

(** one round of the loop of [skynet_updatetime], whose counter is an [int] *)
Definition tick (i : Z) (st : timer * W) : outcome (timer * W) :=
  let '(T, w) := st in
  '(T, w) ← timer_update T w;
  _ ← chk_int (i + 1);
  Ret (T, w).

(** [cp] is the monotonic clock [gettime()] read; the ticks that are due *)
Definition update_clock (cp : Z) (T : timer) (w : W) : outcome (Z * timer * W) :=
  if bool_decide (cp < current_point T) then
    w ← skynet_error None "time diff error" w;
    Ret (0, set_clock (starttime T) (current T) cp T, w)
  else if bool_decide (cp ≠ current_point T) then
    let diff := u32 (cp - current_point T) in
    Ret (diff, set_clock (starttime T) (u64 (current T + diff)) cp T, w)
  else Ret (0, T, w).

(** the comparison [i<diff] is unsigned: [diff] rounds, if the counter does not
    overflow before. The lock is free between two rounds. *)
Definition skynet_updatetime (cp : Z) (T : timer) (w : W) : outcome (timer * W) :=
  '(diff, T, w) ← update_clock cp T w;
  for_loop tick (Z.to_nat diff) 0 1 (T, w).
End execute.

Definition skynet_starttime (T : timer) : Z := starttime T.
Definition skynet_now (T : timer) : Z := current T.

(** [sec], [cs]: the wall clock [systime] reads; [cp]: the monotonic clock *)
Definition skynet_timer_init (sec cs cp : Z) : timer :=
  set_clock sec cs cp timer_create_timer.
