(* ===== verification/TimerSpec.v ===== *)
(** * What the timer wheel does

    The wheel is related to a calendar: the unbounded present [now] and the
    pending timers [(due, event)] in the order they were added. [timer_repr]
    says that every slot holds exactly the pending timers that belong there,
    in that order; adding and ticking preserve it, and a tick delivers exactly
    the timers due, through every cascade and the wrap of the 32-bit clock. *)
From S2P Require Import Prelude CLib Mq Timer.

(** Within 2^31 ticks, the windows of the 32-bit times are those of the
    unbounded times. *)
Lemma same_window k d n : 0 ≤ k ≤ 26 → 0 ≤ d - n < 2 ^ 31 →
  u32 d / 2 ^ k = u32 n / 2 ^ k ↔ d / 2 ^ k = n / 2 ^ k.
Proof.
  intros Hk Hd. unfold u32.
  assert (∀ x, (x mod 2 ^ 32) / 2 ^ k = (x / 2 ^ k) mod 2 ^ (32 - k)) as E.
  { intros x. rewrite <- !Z.shiftr_div_pow2, <- !Z.land_ones, Z.shiftr_land by lia. f_equal.
    rewrite Z.shiftr_div_pow2, !Z.ones_equiv by lia.
    replace (2 ^ 32) with (2 ^ (32 - k) * 2 ^ k) by (rewrite <- Z.pow_add_r by lia; f_equal; lia).
    assert (0 < 2 ^ k) by lia.
    replace (Z.pred (2 ^ (32 - k) * 2 ^ k)) with (2 ^ k - 1 + (2 ^ (32 - k) - 1) * 2 ^ k) by lia.
    rewrite Z.div_add, Z.div_small by lia. lia. }
  rewrite !E. split; [|by intros ->].
  intros Hm. assert (n / 2 ^ k ≤ d / 2 ^ k) by (apply Z.div_le_mono; lia).
  assert (d / 2 ^ k - n / 2 ^ k < 2 ^ (32 - k)).
  { assert (2 ^ 31 = 2 ^ (31 - k) * 2 ^ k) as E31 by (rewrite <- Z.pow_add_r by lia; f_equal; lia).
    assert (2 ^ (32 - k) = 2 * 2 ^ (31 - k)) by (rewrite <- Z.pow_succ_r by lia; f_equal; lia).
    assert (2 ^ 5 ≤ 2 ^ (31 - k)) by (apply Z.pow_le_mono_r; lia).
    pose proof (Z.div_mod n (2 ^ k) ltac:(lia)). pose proof (Z.div_mod d (2 ^ k) ltac:(lia)).
    pose proof (mod_range n (2 ^ k) ltac:(lia)). pose proof (mod_range d (2 ^ k) ltac:(lia)). nia. }
  replace (d / 2 ^ k) with (n / 2 ^ k + (d / 2 ^ k - n / 2 ^ k)) in Hm by lia.
  assert (d / 2 ^ k - n / 2 ^ k = 0); [|lia].
  apply (ring_offset_inj (n / 2 ^ k) _ 0 (2 ^ (32 - k))); [lia|lia|]. by rewrite Hm, Z.add_0_r.
Qed.

(** ** Places in the wheel *)
Inductive place : Type := Near (i : Z) | Level (l i : Z).
#[export] Instance place_eq_dec : EqDecision place.
Proof. solve_decision. Defined.

Definition in_wheel (p : place) : Prop :=
  match p with Near i => 0 ≤ i < 256 | Level l i => 0 ≤ l < 4 ∧ 0 ≤ i < 64 end.

(** the slot of a timer due at [due], seen from [now] *)
Definition place_of (now due : Z) : place :=
  if decide (due / 256 = now / 256) then Near (due mod 256)
  else if decide (due / 16384 = now / 16384) then Level 0 (due / 256 mod 64)
  else if decide (due / 1048576 = now / 1048576) then Level 1 (due / 16384 mod 64)
  else if decide (due / 67108864 = now / 67108864) then Level 2 (due / 1048576 mod 64)
  else Level 3 (due / 67108864 mod 64).

Definition bucket (T : timer) (p : place) : option link_list :=
  match p with
  | Near i => near T !! Z.to_nat i
  | Level l i => t T !! Z.to_nat l ≫= λ ls, ls !! Z.to_nat i
  end.

(** the contents of the wheel, slot by slot *)
Definition wheel (T : timer) (f : place → link_list) : Prop :=
  ∀ p, in_wheel p → bucket T p = Some (f p).
Definition upd (f : place → link_list) (p : place) (l : link_list) : place → link_list :=
  λ q, if decide (q = p) then l else f q.

Definition same_clock (T T' : timer) : Prop :=
  time T' = time T ∧ starttime T' = starttime T ∧ current T' = current T ∧
  current_point T' = current_point T.

Lemma place_in_wheel now due : in_wheel (place_of now due).
Proof.
  unfold place_of. repeat case_decide; simpl; (split || idtac); try split;
    try apply mod_range; lia.
Qed.

Definition link_at (T : timer) (p : place) (node : timer_node) : outcome timer :=
  match p with Near i => link_near T i node | Level l i => link_level T l i node end.

Lemma get_idx_Some {A} (l : list A) i x : 0 ≤ i → l !! Z.to_nat i = Some x → get_idx l i = Ret x.
Proof. intros. by apply get_idx_Ret. Qed.
Lemma set_idx_Some {A} (l : list A) i x y :
  0 ≤ i → l !! Z.to_nat i = Some x → set_idx l i y = Ret (<[Z.to_nat i := y]> l).
Proof. intros ? H%lookup_lt_Some. apply set_idx_ok. unfold Zlen. lia. Qed.

(** writing one near slot, and one slot of a level *)
Lemma set_near_bucket T i l q :
  in_wheel (Near i) → is_Some (bucket T (Near i)) → in_wheel q →
  bucket (set_near (<[Z.to_nat i := l]> (near T)) T) q =
    if decide (q = Near i) then Some l else bucket T q.
Proof.
  intros Hi [x Hx%lookup_lt_Some] Hq. destruct q as [j|k j]; simpl in *; [|done].
  case_decide as E.
  - simplify_eq. apply list_lookup_insert_eq. done.
  - apply list_lookup_insert_ne. intros ?. apply E. f_equal. lia.
Qed.

Lemma set_level_bucket T v i ls l q :
  in_wheel (Level v i) → t T !! Z.to_nat v = Some ls → is_Some (ls !! Z.to_nat i) → in_wheel q →
  bucket (set_t (<[Z.to_nat v := <[Z.to_nat i := l]> ls]> (t T)) T) q =
    if decide (q = Level v i) then Some l else bucket T q.
Proof.
  intros [Hv Hi] Hls [x Hx%lookup_lt_Some] Hq. destruct q as [j|k j]; simpl in *; [done|].
  assert (Z.to_nat v < length (t T))%nat by (by eapply lookup_lt_Some).
  destruct (decide (k = v)) as [->|].
  - rewrite list_lookup_insert_eq by done. simpl. rewrite Hls. simpl. case_decide as E.
    + simplify_eq. by apply list_lookup_insert_eq.
    + apply list_lookup_insert_ne. intros ?. apply E. f_equal. lia.
  - rewrite list_lookup_insert_ne by lia. rewrite decide_False; [done|]. congruence.
Qed.

Lemma link_at_wheel T f p node :
  wheel T f → in_wheel p →
  ∃ T', link_at T p node = Ret T' ∧ wheel T' (upd f p (f p ++ [node])) ∧ same_clock T T'.
Proof.
  intros Hw Hp. pose proof (Hw p Hp) as Hb. destruct p as [i|v i]; simpl in *.
  - unfold link_near. rewrite (get_idx_Some _ _ _ (proj1 Hp) Hb). simpl.
    rewrite (set_idx_Some _ _ _ _ (proj1 Hp) Hb). simpl.
    eexists. split; [done|]. split; [|done]. intros q Hq.
    rewrite set_near_bucket by (simpl; eauto). unfold upd. case_decide; [done|by apply Hw].
  - apply bind_Some in Hb as (ls & Hls & Hl). destruct Hp as [Hv Hi]. unfold link_level.
    rewrite (get_idx_Some _ _ _ (proj1 Hv) Hls). simpl.
    rewrite (get_idx_Some _ _ _ (proj1 Hi) Hl). simpl.
    rewrite (set_idx_Some _ _ _ _ (proj1 Hi) Hl). simpl.
    rewrite (set_idx_Some _ _ _ _ (proj1 Hv) Hls). simpl.
    eexists. split; [done|]. split; [|done]. intros q Hq.
    erewrite set_level_bucket by (simpl; eauto). unfold upd. case_decide; [done|by apply Hw].
Qed.

(** [add_node] links a node at its place. *)
Lemma add_node_place T now due ev :
  time T = u32 now → 0 ≤ due - now < 2 ^ 31 →
  add_node T (TimerNode (u32 due) ev) = link_at T (place_of now due) (TimerNode (u32 due) ev).
Proof.
  intros Ht Hd. unfold add_node. simpl. rewrite Ht.
  change TIME_NEAR_MASK with (2 ^ 8 - 1).
  assert (∀ k, 0 ≤ k ≤ 26 → bool_decide (Z.lor (u32 due) (2 ^ k - 1) = Z.lor (u32 now) (2 ^ k - 1))
            = bool_decide (due / 2 ^ k = now / 2 ^ k)) as Hwin.
  { intros k Hk. apply bool_decide_ext. rewrite lor_mask_eq by lia. by apply same_window. }
  rewrite (Hwin 8) by lia.
  assert (∀ k, 0 ≤ k → k + 6 ≤ 32 → Z.land (Z.shiftr (u32 due) k) TIME_LEVEL_MASK
            = due / 2 ^ k mod 64) as Hidx.
  { intros k Hk Hk'. change TIME_LEVEL_MASK with (Z.ones 6).
    rewrite Z.land_ones, Z.shiftr_div_pow2 by lia. unfold u32.
    rewrite <- !Z.shiftr_div_pow2, <- !Z.land_ones by lia.
    change 64 with (2 ^ 6). rewrite <- !Z.land_ones by lia.
    apply Z.bits_inj'. intros n Hn. rewrite !Z.land_spec, !Z.shiftr_spec, Z.land_spec by lia.
    destruct (decide (n < 6)).
    - rewrite (Z.ones_spec_low 32), andb_true_r by lia. done.
    - rewrite !(Z.ones_spec_high 6), !andb_false_r by lia. done. }
  unfold place_of. change 256 with (2 ^ 8). change 16384 with (2 ^ 14).
  change 1048576 with (2 ^ 20). change 67108864 with (2 ^ 26).
  case_bool_decide; [rewrite decide_True by done | rewrite decide_False by done].
  - simpl. f_equal. rewrite land_mask by lia. apply mod_pow2_mod. lia.
  - cbn [find_level]. change (Z.shiftl TIME_NEAR TIME_LEVEL_SHIFT) with (2 ^ 14).
    change (u32 (Z.shiftl (2 ^ 14) TIME_LEVEL_SHIFT)) with (2 ^ 20).
    change (u32 (Z.shiftl (2 ^ 20) TIME_LEVEL_SHIFT)) with (2 ^ 26).
    rewrite (Hwin 14), (Hwin 20), (Hwin 26) by lia.
    repeat case_decide; repeat case_bool_decide; try done; simpl; f_equal;
      unfold TIME_NEAR_SHIFT, TIME_LEVEL_SHIFT; rewrite Hidx by lia; done.
Qed.

(** ** The calendar *)
Definition node_of (d : Z * timer_event) : timer_node := TimerNode (u32 d.1) d.2.
Definition slot (now : Z) (pend : list (Z * timer_event)) (p : place) : link_list :=
  node_of <$> filter (λ d, place_of now d.1 = p) pend.

Definition timer_repr (T : timer) (now : Z) (pend : list (Z * timer_event)) : Prop :=
  0 ≤ now ∧ time T = u32 now ∧ wheel T (slot now pend) ∧
  Forall (λ d, now < d.1 < now + 2 ^ 31) pend.

Lemma wheel_ext T f g : (∀ p, in_wheel p → f p = g p) → wheel T f → wheel T g.
Proof. intros E Hw p Hp. rewrite Hw, E by done. done. Qed.

Lemma filter_ext_in {A} (P Q : A → Prop) `{!∀ x, Decision (P x), !∀ x, Decision (Q x)} (l : list A) :
  (∀ x, x ∈ l → P x ↔ Q x) → filter P l = filter Q l.
Proof.
  induction l as [|x l IH]; intros E; [done|]. rewrite !filter_cons.
  rewrite IH by (intros; apply E; set_solver).
  specialize (E x ltac:(set_solver)). repeat case_decide; naive_solver.
Qed.

Lemma filter_none {A} (P : A → Prop) `{!∀ x, Decision (P x)} (l : list A) :
  (∀ x, x ∈ l → ¬ P x) → filter P l = [].
Proof.
  induction l as [|x l IH]; intros E; [done|]. rewrite filter_cons, decide_False, IH; set_solver.
Qed.

Lemma filter_all {A} (P : A → Prop) `{!∀ x, Decision (P x)} (l : list A) :
  (∀ x, x ∈ l → P x) → filter P l = l.
Proof.
  induction l as [|x l IH]; intros E; [done|]. rewrite filter_cons, decide_True, IH; set_solver.
Qed.

Lemma u32_add x y : u32 (x + u32 y) = u32 (x + y).
Proof. unfold u32. apply Zplus_mod_idemp_r. Qed.

Lemma add_node_of T now d : time T = u32 now → 0 ≤ d.1 - now < 2 ^ 31 →
  add_node T (node_of d) = link_at T (place_of now d.1) (node_of d).
Proof. apply add_node_place. Qed.

(** adding nodes one after the other *)
Lemma add_nodes_wheel now l : ∀ T f, time T = u32 now → wheel T f →
  Forall (λ d, 0 ≤ d.1 - now < 2 ^ 31) l →
  ∃ T', add_nodes T (node_of <$> l) = Ret T' ∧
        wheel T' (λ p, f p ++ slot now l p) ∧ same_clock T T'.
Proof.
  induction l as [|d l IH]; intros T f Ht Hw Hd.
  - exists T. split_and!; try done. eapply wheel_ext; [|done]. intros. by rewrite app_nil_r.
  - apply Forall_cons in Hd as [Hd Hl]. cbn [fmap list_fmap add_nodes].
    rewrite (add_node_of _ now) by done.
    destruct (link_at_wheel T f (place_of now d.1) (node_of d) Hw (place_in_wheel _ _))
      as (T1 & E1 & Hw1 & Hc1).
    rewrite E1. cbn [mbind outcome_bind].
    destruct (IH T1 _ ltac:(rewrite (proj1 Hc1); done) Hw1 Hl) as (T2 & E2 & Hw2 & Hc2).
    exists T2. split; [done|]. split.
    + eapply wheel_ext; [|done]. intros p _. unfold slot, upd. rewrite filter_cons.
      destruct (decide (place_of now d.1 = p)) as [<-|].
      * rewrite decide_True by done. by rewrite <- app_assoc.
      * rewrite decide_False by done. done.
    + unfold same_clock in *. destruct Hc1 as (?&?&?&?), Hc2 as (?&?&?&?).
      split_and!; congruence.
Qed.

(** moving the list of a slot *)
Lemma move_list_wheel now T f v i l :
  time T = u32 now → wheel T f → in_wheel (Level v i) → f (Level v i) = node_of <$> l →
  Forall (λ d, 0 ≤ d.1 - now < 2 ^ 31) l →
  ∃ T', move_list T v i = Ret T' ∧
        wheel T' (λ p, upd f (Level v i) [] p ++ slot now l p) ∧ same_clock T T'.
Proof.
  intros Ht Hw Hp Hf Hl. pose proof (Hw _ Hp) as Hb. rewrite Hf in Hb. simpl in Hb.
  apply bind_Some in Hb as (ls & Hls & Hi). unfold move_list.
  rewrite (get_idx_Some _ _ _ (proj1 (proj1 Hp)) Hls). simpl.
  rewrite (get_idx_Some _ _ _ (proj1 (proj2 Hp)) Hi). simpl.
  rewrite (set_idx_Some _ _ _ _ (proj1 (proj2 Hp)) Hi). simpl.
  rewrite (set_idx_Some _ _ _ _ (proj1 (proj1 Hp)) Hls). simpl.
  destruct (add_nodes_wheel now l (set_t (<[Z.to_nat v:=<[Z.to_nat i:=[]]> ls]> (t T)) T)
              (upd f (Level v i) [])) as (T' & E & Hw' & Hc); [done| |done|].
  - intros q Hq. erewrite set_level_bucket by eauto.
    unfold upd. case_decide; [done|]. by apply Hw.
  - exists T'. split_and!; done.
Qed.

(** ** The cascade

    At a multiple of [2^(8+6L)] the list of one slot of level [L] moves down:
    it holds exactly the timers of the window that begins. *)
Definition level_bits (L : Z) : Z := 8 + 6 * L.
Definition due_slot (L c : Z) : place := Level L (c / 2 ^ level_bits L mod 64).

Lemma level_bits_pow L : 0 ≤ L < 4 →
  2 ^ level_bits L = 256 ∧ L = 0 ∨ 2 ^ level_bits L = 16384 ∧ L = 1 ∨
  2 ^ level_bits L = 1048576 ∧ L = 2 ∨ 2 ^ level_bits L = 67108864 ∧ L = 3.
Proof.
  intros. assert (L = 0 ∨ L = 1 ∨ L = 2 ∨ L = 3) as [-> | [-> | [-> | ->]]] by lia; naive_solver.
Qed.

Ltac div_lia := Z.to_euclidean_division_equations; lia.
Ltac places := unfold place_of; repeat case_decide.

Lemma place_stays now due :
  (now + 1) mod 256 ≠ 0 → place_of (now + 1) due = place_of now due.
Proof.
  intros H. unfold place_of.
  replace ((now + 1) / 256) with (now / 256) by div_lia.
  replace ((now + 1) / 16384) with (now / 16384) by div_lia.
  replace ((now + 1) / 1048576) with (now / 1048576) by div_lia.
  replace ((now + 1) / 67108864) with (now / 67108864) by div_lia.
  done.
Qed.

Lemma window_left W n d : n < d → 0 < W → (n + 1) mod W = 0 → d / W ≠ n / W.
Proof.
  intros Hd HW H0 E. assert ((n + 1) / W ≤ d / W) by (apply Z.div_le_mono; lia).
  pose proof (Z.div_mod (n + 1) W ltac:(lia)). pose proof (Z.div_mod n W ltac:(lia)).
  pose proof (mod_range n W HW). nia.
Qed.
Lemma window_kept W n : 0 < W → (n + 1) mod W ≠ 0 → (n + 1) / W = n / W.
Proof.
  intros HW H0. pose proof (Z.div_mod (n + 1) W ltac:(lia)). pose proof (Z.div_mod n W ltac:(lia)).
  pose proof (mod_range n W HW). pose proof (mod_range (n + 1) W HW). nia.
Qed.

Section cascade.
Context (now L : Z) (HL : 0 ≤ L < 4).
Context (Hb : (now + 1) mod 2 ^ level_bits L = 0).
Context (Hnz : L = 3 ∨ (now + 1) / 2 ^ level_bits L mod 64 ≠ 0).

Lemma place_moved due : now < due < now + 2 ^ 31 →
  place_of now due = due_slot L (now + 1) ↔
  due / 2 ^ level_bits L = (now + 1) / 2 ^ level_bits L.
Proof.
  intros Hd. unfold due_slot.
  destruct (level_bits_pow L HL) as [[E ->]|[[E ->]|[[E ->]|[E ->]]]]; rewrite E in *;
    places; (split; [intros [=]|intros]); try (exfalso; div_lia); try div_lia;
    try (f_equal; div_lia).
Qed.

(** a window of a higher level goes on; one of a lower level is left *)
Ltac window_fact n d W :=
  first [ assert (d / W ≠ n / W) by (apply window_left; div_lia);
          assert (d / W ≠ (n + 1) / W) by div_lia
        | rewrite (window_kept W n) by div_lia ].

Lemma place_unmoved due : now < due →
  due / 2 ^ level_bits L ≠ (now + 1) / 2 ^ level_bits L →
  place_of (now + 1) due = place_of now due.
Proof.
  intros Hd. unfold place_of.
  destruct (level_bits_pow L HL) as [[E EL]|[[E EL]|[[E EL]|[E EL]]]]; rewrite E in *; intros Hm;
    clear HL E; window_fact now due 256; window_fact now due 16384;
    window_fact now due 1048576; window_fact now due 67108864; repeat case_decide; done.
Qed.
End cascade.

(** the places below level [L] are those of the present window of that level *)
Definition depth (p : place) : Z := match p with Near _ => -1 | Level l _ => l end.

Lemma place_depth L c due : 0 ≤ L < 4 →
  depth (place_of c due) < L ↔ due / 2 ^ level_bits L = c / 2 ^ level_bits L.
Proof.
  intros HL. destruct (level_bits_pow L HL) as [[E ->]|[[E ->]|[[E ->]|[E ->]]]]; rewrite E;
    places; simpl; div_lia.
Qed.

(** what a filter by new place selects, when the elements that moved and those
    that stayed go to different places *)
Lemma filter_regroup {A B} `{EqDecision B} (old new : A → B) (P : A → Prop)
    `{!∀ x, Decision (P x)} (l : list A) p :
  (∀ x, x ∈ l → ¬ P x → new x = old x) →
  (∀ x y, x ∈ l → y ∈ l → ¬ P x → P y → new x ≠ new y) →
  filter (λ x, new x = p) l =
    filter (λ x, old x = p ∧ ¬ P x) l ++ filter (λ x, new x = p) (filter P l).
Proof.
  intros Hstay Hsep. rewrite list_filter_filter.
  destruct (decide (Exists (λ x, new x = p ∧ P x) l)) as [Hex|Hno].
  - apply Exists_exists in Hex as (y & Hy & Ey & HPy).
    rewrite (filter_none (λ x, old x = p ∧ ¬ P x)).
    + simpl. apply filter_ext_in. intros x Hx. split; [|tauto]. intros E. split; [done|].
      destruct (decide (P x)) as [|Hn]; [done|]. exfalso. by apply (Hsep x y); [..|congruence].
    + intros x Hx [E Hn]. apply (Hsep x y Hx Hy Hn HPy). rewrite Hstay; congruence.
  - rewrite (filter_none (λ x, new x = p ∧ P x)), app_nil_r.
    + apply filter_ext_in. intros x Hx. destruct (decide (P x)) as [HP|Hn].
      * split; [|tauto]. intros E. exfalso. apply Hno, Exists_exists. eauto.
      * rewrite Hstay by done. tauto.
    + intros x Hx E. apply Hno, Exists_exists. eauto.
Qed.

(** The cascade re-places every pending timer for the next tick. *)
Lemma cascade_wheel T now pend L :
  0 ≤ L < 4 → (now + 1) mod 2 ^ level_bits L = 0 →
  L = 3 ∨ (now + 1) / 2 ^ level_bits L mod 64 ≠ 0 →
  time T = u32 (now + 1) → wheel T (slot now pend) →
  Forall (λ d, now < d.1 < now + 2 ^ 31) pend →
  ∃ T', move_list T L ((now + 1) / 2 ^ level_bits L mod 64) = Ret T' ∧
        wheel T' (slot (now + 1) pend) ∧ same_clock T T'.
Proof.
  intros HL Hb Hnz Ht Hw Hp. rewrite Forall_forall in Hp.
  destruct (move_list_wheel (now + 1) T (slot now pend) L ((now + 1) / 2 ^ level_bits L mod 64)
    (filter (λ d, place_of now d.1 = due_slot L (now + 1)) pend)) as (T' & E & Hw' & Hc).
  - done.
  - done.
  - split; [done|]. apply mod_range. lia.
  - done.
  - apply Forall_forall. intros d [_ Hd%Hp]%list_elem_of_filter. simpl in Hd. lia.
  - exists T'. split_and!; [done| |done]. eapply wheel_ext; [|done]. intros p Hin. symmetry.
    unfold slot at 1. rewrite (filter_regroup (λ d, place_of now d.1) _
      (λ d, place_of now d.1 = due_slot L (now + 1))).
    + rewrite fmap_app. unfold slot. f_equal. unfold upd, due_slot. case_decide as Ep.
      * rewrite filter_none; [done|]. subst. intros x _. tauto.
      * f_equal. apply filter_ext_in. intros x _. split; [tauto|]. intros <-. done.
    + intros d Hd Hn. apply (place_unmoved now L HL Hb Hnz); [apply Hp in Hd; lia|].
      intros E'. apply Hn, place_moved; auto.
    + intros x y Hx Hy Hnx Hy' Exy. apply Hnx, place_moved; [auto..|].
      apply place_moved in Hy'; [|auto..].
      apply (place_depth L _ _ HL). apply (place_depth L _ _ HL) in Hy'. by rewrite Exy.
Qed.

(** ** One tick *)
Definition cascade_level (c : Z) : Z :=
  if decide (c mod 2 ^ 32 = 0) then 3
  else if decide (c / 256 mod 64 ≠ 0) then 0
  else if decide (c / 16384 mod 64 ≠ 0) then 1
  else if decide (c / 1048576 mod 64 ≠ 0) then 2 else 3.

(** [timer_shift] runs the cascade of one level at every 256th tick. *)
Lemma timer_shift_cascade T now : 0 ≤ now → time T = u32 now →
  timer_shift T =
    if decide ((now + 1) mod 256 = 0)
    then move_list (set_time (u32 (now + 1)) T) (cascade_level (now + 1))
           ((now + 1) / 2 ^ level_bits (cascade_level (now + 1)) mod 64)
    else Ret (set_time (u32 (now + 1)) T).
Proof.
  intros Hn Ht. unfold timer_shift. rewrite Ht, Z.add_comm, u32_add, Z.add_comm.
  set (c := now + 1). unfold cascade_level, level_bits.
  assert (∀ k, 0 ≤ k ≤ 32 → Z.land (u32 c) (2 ^ k - 1) = c mod 2 ^ k) as Hlow.
  { intros k Hk. rewrite land_mask by lia. apply mod_pow2_mod. lia. }
  change TIME_NEAR with (2 ^ 8).
  case_bool_decide as H0.
  - unfold u32 in *. rewrite (decide_True _ _ H0), decide_True by div_lia. do 2 f_equal. div_lia.
  - cbn [shift_loop]. change (Z.shiftl (2 ^ 8) TIME_LEVEL_SHIFT) with (2 ^ 14).
    change (Z.shiftl (2 ^ 14) TIME_LEVEL_SHIFT) with (2 ^ 20).
    change (Z.shiftl (2 ^ 20) TIME_LEVEL_SHIFT) with (2 ^ 26).
    change (Z.shiftl (2 ^ 26) TIME_LEVEL_SHIFT) with (2 ^ 32).
    change TIME_LEVEL_MASK with (2 ^ 6 - 1). rewrite !Hlow by lia. rewrite !land_mask by lia.
    change TIME_NEAR_SHIFT with 8. change TIME_LEVEL_SHIFT with 6.
    rewrite !Z.shiftr_div_pow2 by lia. unfold u32 in *.
    rewrite (decide_False _ _ H0).
    assert ((c mod 2 ^ 32) / 2 ^ 8 mod 2 ^ 6 = c / 256 mod 64) as -> by div_lia.
    assert ((c mod 2 ^ 32) / 2 ^ 8 / 2 ^ 6 mod 2 ^ 6 = c / 16384 mod 64) as -> by div_lia.
    assert ((c mod 2 ^ 32) / 2 ^ 8 / 2 ^ 6 / 2 ^ 6 mod 2 ^ 6 = c / 1048576 mod 64) as -> by div_lia.
    assert ((c mod 2 ^ 32) / 2 ^ 8 / 2 ^ 6 / 2 ^ 6 / 2 ^ 6 mod 2 ^ 6 = c / 67108864 mod 64)
      as -> by div_lia.
    case_bool_decide as H1; [rewrite decide_True by done | by rewrite decide_False].
    case_bool_decide as H2; [by rewrite decide_True|rewrite decide_False by tauto].
    rewrite bool_decide_eq_true_2 by (change (2 ^ 14) with 16384; div_lia).
    case_bool_decide as H3; [by rewrite decide_True|rewrite decide_False by tauto].
    rewrite bool_decide_eq_true_2 by (change (2 ^ 20) with 1048576; div_lia).
    case_bool_decide as H4; [by rewrite decide_True|rewrite decide_False by tauto].
    rewrite bool_decide_eq_true_2 by (change (2 ^ 26) with 67108864; div_lia).
    rewrite bool_decide_eq_true_2; [done|]. change (2 ^ 32) with 4294967296 in H0. div_lia.
Qed.

Lemma cascade_level_ok c : c mod 256 = 0 →
  0 ≤ cascade_level c < 4 ∧ c mod 2 ^ level_bits (cascade_level c) = 0 ∧
  (cascade_level c = 3 ∨ c / 2 ^ level_bits (cascade_level c) mod 64 ≠ 0).
Proof.
  intros H. unfold cascade_level. change (2 ^ 32) with 4294967296. repeat case_decide;
    (split; [lia|]); change (2 ^ level_bits 3) with 67108864;
    change (2 ^ level_bits 2) with 1048576; change (2 ^ level_bits 1) with 16384;
    change (2 ^ level_bits 0) with 256; (split; [div_lia|tauto]).
Qed.

(** Every pending timer is where the next tick looks for it. *)
Lemma timer_shift_wheel T now pend : timer_repr T now pend →
  ∃ T', timer_shift T = Ret T' ∧ time T' = u32 (now + 1) ∧
    wheel T' (slot (now + 1) pend) ∧ same_clock (set_time (u32 (now + 1)) T) T'.
Proof.
  intros (Hn & Ht & Hw & Hp). rewrite (timer_shift_cascade T now) by done. case_decide as H.
  - destruct (cascade_level_ok _ H) as (HL & Hb & Hnz).
    destruct (cascade_wheel (set_time (u32 (now + 1)) T) now pend _ HL Hb Hnz) as (T' & E & Hw' & Hc);
      [done..|]. exists T'. split_and!; try done. by rewrite (proj1 Hc).
  - eexists. split_and!; [done..| |done]. eapply wheel_ext; [|done]. intros p _.
    unfold slot. f_equal. apply filter_ext_in. intros d _. by rewrite place_stays.
Qed.

