(* ===== verification/Calendar.v ===== *)
(** * The timer as a calendar

    A tick delivers exactly the timers due, and the run of any sequence of
    [skynet_timeout] and [skynet_updatetime] calls, and of the single ticks of an
    update with the calls of other threads between them, refines a calendar: a
    list of due times with no wheel, no 32-bit clock and no cascade. *)
From stdpp Require Import sorting.
From S2P Require Import Prelude CLib Mq Timer TimerSpec.

Lemma place_now now due : place_of now due = Near (now mod 256) ↔ due = now.
Proof.
  places; (split; [intros [=]|intros ->]); try done; div_lia.
Qed.

Lemma slot_now now pend :
  slot now pend (Near (now mod 256)) = node_of <$> filter (λ d, d.1 = now) pend.
Proof. unfold slot. f_equal. apply filter_ext_in. intros d _. apply place_now. Qed.

Lemma slot_not_now now pend p : p ≠ Near (now mod 256) →
  slot now (filter (λ d, d.1 ≠ now) pend) p = slot now pend p.
Proof.
  intros Hp. unfold slot. rewrite list_filter_filter. f_equal. apply filter_ext_in.
  intros d _. split; [tauto|]. intros <-. split; [done|]. intros E. by apply Hp, place_now.
Qed.

Lemma same_clock_trans T1 T2 T3 : same_clock T1 T2 → same_clock T2 T3 → same_clock T1 T3.
Proof. unfold same_clock. intros (?&?&?&?) (?&?&?&?). split_and!; congruence. Qed.

Section ticks.
Context {W : Type} `{!Services W}.

(** [timer_execute] delivers the timers due now, and empties their slot. *)
Lemma timer_execute_due T now pend :
  time T = u32 now → wheel T (slot now pend) →
  ∃ T', (∀ w, timer_execute 1 T w =
                w ← dispatch_list (node_of <$> filter (λ d, d.1 = now) pend) w; Ret (T', w)) ∧
        wheel T' (slot now (filter (λ d, d.1 ≠ now) pend)) ∧ same_clock T T'.
Proof.
  intros Ht Hw. set (i := Near (now mod 256)).
  assert (Hi : in_wheel i) by (apply mod_range; lia).
  pose proof (Hw i Hi) as Hb. unfold i in Hb. rewrite slot_now in Hb. cbn [bucket] in Hb.
  assert (Z.land (time T) TIME_NEAR_MASK = now mod 256) as Hidx.
  { rewrite Ht. change TIME_NEAR_MASK with (2 ^ 8 - 1). rewrite land_mask by lia.
    apply (mod_pow2_mod now 8 32). lia. }
  destruct (node_of <$> filter (λ d, d.1 = now) pend) as [|x l] eqn:El.
  - exists T. split_and!; [| |done].
    + intros w. cbn [timer_execute dispatch_list]. rewrite Hidx.
      by rewrite (get_idx_Some _ _ _ (proj1 Hi) Hb).
    + eapply wheel_ext; [|done]. intros p _. destruct (decide (p = i)) as [->|Hp].
      * unfold i. rewrite !slot_now, El, list_filter_filter, filter_none; [done|]. tauto.
      * symmetry. by apply slot_not_now.
  - exists (set_near (<[Z.to_nat (now mod 256) := []]> (near T)) T). split_and!; [| |done].
    + intros w. cbn [timer_execute]. rewrite Hidx, (get_idx_Some _ _ _ (proj1 Hi) Hb).
      cbn [mbind outcome_bind link_clear]. rewrite (set_idx_Some _ _ _ _ (proj1 Hi) Hb).
      cbn [mbind outcome_bind]. destruct (dispatch_list (x :: l) w); [|done..].
      cbn [mbind outcome_bind time set_near near]. rewrite Hidx.
      rewrite (get_idx_Some _ _ [] (proj1 Hi)); [done|].
      apply list_lookup_insert_eq. by eapply lookup_lt_Some.
    + intros q Hq. rewrite (set_near_bucket T _ _ q Hi ltac:(simpl; eauto) Hq). fold i.
      case_decide as E.
      * subst. unfold i. rewrite slot_now, list_filter_filter, filter_none; [done|]. tauto.
      * rewrite slot_not_now by done. by apply Hw.
Qed.

Lemma timer_update_tick T now pend : timer_repr T now pend →
  ∃ T', (∀ w, timer_update T w =
           w ← dispatch_list (node_of <$> filter (λ d, d.1 = now + 1) pend) w; Ret (T', w)) ∧
        timer_repr T' (now + 1) (filter (λ d, d.1 ≠ now + 1) pend) ∧
        same_clock (set_time (u32 (now + 1)) T) T'.
Proof.
  intros Hr. destruct (Hr) as (Hn & Ht & Hw & Hp). rewrite Forall_forall in Hp.
  destruct (timer_execute_due T now pend Ht Hw) as (T0 & E0 & Hw0 & Hc0).
  rewrite (filter_none (λ d, d.1 = now)) in E0 by (intros d Hd%Hp; lia).
  assert (filter (λ d, d.1 ≠ now) pend = pend) as Hall.
  { apply filter_all. intros d Hd%Hp. lia. }
  rewrite Hall in Hw0.
  destruct (timer_shift_wheel T0 now pend) as (T1 & E1 & Ht1 & Hw1 & Hc1).
  { split_and!; [done| |done|by apply Forall_forall]. by rewrite (proj1 Hc0). }
  destruct (timer_execute_due T1 (now + 1) pend Ht1 Hw1) as (T2 & E2 & Hw2 & Hc2).
  exists T2. split_and!.
  - intros w. unfold timer_update. rewrite E0. cbn [fmap list_fmap dispatch_list mbind outcome_bind].
    rewrite E1. apply E2.
  - split_and!; [lia| |done|].
    + rewrite (proj1 Hc2). done.
    + apply Forall_forall. intros d [Hne Hd%Hp]%list_elem_of_filter. lia.
  - destruct Hc0 as (?&?&?&?), Hc1 as (?&?&?&?), Hc2 as (?&?&?&?).
    unfold same_clock in *; simpl in *; split_and!; congruence.
Qed.

(** the timers that fire in the next [n] ticks, tick by tick *)
Fixpoint deliveries (n : nat) (now : Z) (pend : list (Z * timer_event)) :
    list (Z * timer_event) :=
  match n with
  | O => []
  | S n => filter (λ d, d.1 = now + 1) pend ++ deliveries n (now + 1) pend
  end.

Lemma deliveries_filter n : ∀ now m pend, m ≤ now →
  deliveries n now (filter (λ d, d.1 ≠ m) pend) = deliveries n now pend.
Proof.
  induction n as [|n IH]; intros now m pend Hm; [done|]. cbn [deliveries].
  rewrite IH by lia. f_equal. rewrite list_filter_filter. apply filter_ext_in. intros d _. lia.
Qed.

Lemma dispatch_list_app l1 l2 w :
  dispatch_list (l1 ++ l2) w = w ← dispatch_list l1 w; dispatch_list l2 w.
Proof.
  revert w. induction l1 as [|x l1 IH]; intros w; [done|]. cbn [app dispatch_list].
  destruct (skynet_context_push _ _ w) as [[r w1]| | |]; try done. apply IH.
Qed.

Lemma ticks n : ∀ T now pend, timer_repr T now pend →
  ∃ T', (∀ w i, 0 ≤ i → i + Z.of_nat n ≤ INT_MAX → for_loop tick n i 1 (T, w) =
           w ← dispatch_list (node_of <$> deliveries n now pend) w; Ret (T', w)) ∧
        timer_repr T' (now + Z.of_nat n) (filter (λ d, now + Z.of_nat n < d.1) pend) ∧
        same_clock (set_time (u32 (now + Z.of_nat n)) T) T'.
Proof.
  induction n as [|n IH]; intros T now pend Hr.
  - exists T. rewrite Z.add_0_r. destruct Hr as (Hn & Ht & Hw & Hp). split_and!; try done.
    rewrite filter_all; [done|]. rewrite Forall_forall in Hp. intros d Hd%Hp. lia.
  - destruct (timer_update_tick T now pend Hr) as (T1 & E1 & Hr1 & Hc1).
    destruct (IH _ _ _ Hr1) as (T2 & E2 & Hr2 & Hc2). exists T2.
    replace (now + Z.of_nat (S n)) with (now + 1 + Z.of_nat n) by lia. split_and!.
    + intros w i Hi Hmax. cbn [for_loop tick deliveries]. rewrite fmap_app, dispatch_list_app, E1.
      destruct (dispatch_list _ w) as [w1| | |]; [|done..]. cbn [mbind outcome_bind].
      rewrite chk_int_ok by lia. cbn [mbind outcome_bind].
      rewrite E2 by lia. by rewrite deliveries_filter by lia.
    + rewrite list_filter_filter in Hr2.
      replace (filter (λ d, now + 1 + Z.of_nat n < d.1) pend) with
        (filter (λ d : Z * timer_event, now + 1 + Z.of_nat n < d.1 ∧ d.1 ≠ now + 1) pend); [done|].
      apply filter_ext_in. intros d _. lia.
    + unfold same_clock in *. simpl in *. destruct Hc1 as (?&?&?&?), Hc2 as (?&?&?&?).
      split_and!; congruence.
Qed.

(** the counter overflows behind the tick that it cannot count *)
Lemma ticks_overflow k : ∀ n T now pend, timer_repr T now pend → (k < n)%nat →
  ∀ w i, 0 ≤ i → i + Z.of_nat k = INT_MAX → for_loop tick n i 1 (T, w) =
    w ← dispatch_list (node_of <$> deliveries (S k) now pend) w; Undef.
Proof.
  induction k as [|k IH]; intros [|n] T now pend Hr Hn w i Hi Hmax; try lia;
    destruct (timer_update_tick T now pend Hr) as (T1 & E1 & Hr1 & _);
    cbn [for_loop tick]; rewrite E1; change (deliveries (S ?k) now pend) with
      (filter (λ d : Z * timer_event, d.1 = now + 1) pend ++ deliveries k (now + 1) pend);
    rewrite fmap_app, dispatch_list_app;
    (destruct (dispatch_list (node_of <$> filter _ pend) w) as [w1| | |]; [|done..]); cbn [mbind outcome_bind].
  - unfold chk_int. by rewrite decide_False by (unfold INT_MAX in *; lia).
  - rewrite chk_int_ok by lia. cbn [mbind outcome_bind]. rewrite (IH n _ (now + 1) _ Hr1) by lia.
    by rewrite deliveries_filter by lia.
Qed.
End ticks.

(** what fires and what stays are together what was pending *)
Lemma deliveries_perm n : ∀ now pend, Forall (λ d, now < d.1) pend →
  deliveries n now pend ++ filter (λ d, now + Z.of_nat n < d.1) pend ≡ₚ pend.
Proof.
  induction n as [|n IH]; intros now pend HF; rewrite Forall_forall in HF.
  - rewrite Z.add_0_r. simpl. by rewrite filter_all.
  - cbn [deliveries]. rewrite <- (deliveries_filter n (now + 1) (now + 1)) by lia.
    rewrite <- app_assoc.
    etransitivity; [|apply (filter_app_complement (λ d, d.1 = now + 1))].
    apply Permutation_app_head. etransitivity; [|apply (IH (now + 1))].
    + apply Permutation_app_head. rewrite list_filter_filter.
      erewrite filter_ext_in; [done|]. intros d _. lia.
    + apply Forall_forall. intros d [? Hd%HF]%list_elem_of_filter. lia.
Qed.

Definition due_le (d e : Z * timer_event) : Prop := d.1 ≤ e.1.

Lemma deliveries_after n now pend d : d ∈ deliveries n now pend → now < d.1.
Proof.
  revert now. induction n as [|n IH]; intros now; [set_solver|]. cbn [deliveries].
  intros [[-> _]%list_elem_of_filter|H%IH]%elem_of_app; lia.
Qed.

Lemma deliveries_sorted n : ∀ now pend, StronglySorted due_le (deliveries n now pend).
Proof.
  induction n as [|n IH]; intros now pend; [constructor|]. cbn [deliveries].
  set (l := filter _ pend).
  assert (∀ d, d ∈ l → d.1 = now + 1) as Hl by (intros d [??]%list_elem_of_filter; done).
  clearbody l. induction l as [|d l IHl]; [apply IH|]. cbn [app]. constructor.
  - apply IHl. set_solver.
  - apply Forall_forall. unfold due_le. rewrite (Hl d) by set_solver.
    intros e [He|He%deliveries_after]%elem_of_app; [rewrite (Hl e) by set_solver|]; lia.
Qed.

(** ** Runs of the timer's interface *)
Lemma timer_init_repr sec cs cp : timer_repr (skynet_timer_init sec cs cp) 0 [].
Proof.
  split_and!; [done|done| |constructor]. intros p Hp. unfold slot.
  destruct p as [i|l i]; cbn [in_wheel bucket near t skynet_timer_init set_clock timer_create_timer] in *.
  - apply lookup_replicate_2. unfold TIME_NEAR. lia.
  - destruct Hp. rewrite (lookup_replicate_2 4) by lia. cbn [mbind option_bind].
    apply lookup_replicate_2. unfold TIME_LEVEL. lia.
Qed.

Lemma timer_add_repr T now pend ev delay : timer_repr T now pend → 0 < delay ≤ INT_MAX →
  ∃ T', timer_add T ev delay = Ret T' ∧
        timer_repr T' now (pend ++ [(now + delay, ev)]) ∧ same_clock T T'.
Proof.
  intros (Hn & Ht & Hw & Hp) Hd. unfold INT_MAX in Hd. unfold timer_add.
  rewrite Ht, u32_add, (Z.add_comm delay), (add_node_place _ now) by (done || lia).
  destruct (link_at_wheel T _ (place_of now (now + delay)) (TimerNode (u32 (now + delay)) ev)
    Hw (place_in_wheel _ _)) as (T' & E & Hw' & Hc).
  exists T'. split; [done|]. split; [|done]. split_and!; [done| | |].
  - by rewrite (proj1 Hc).
  - eapply wheel_ext; [|done]. intros p _. unfold slot, upd. rewrite filter_app, filter_cons.
    cbn [fst]. destruct (decide (p = place_of now (now + delay))) as [->|].
    + rewrite decide_True by done. by rewrite fmap_app.
    + rewrite decide_False by congruence. by rewrite filter_nil, app_nil_r.
  - apply Forall_app. split; [done|]. constructor; [|constructor]. simpl. lia.
Qed.

Inductive timer_op : Type :=
  | OTimeout (handle delay session : Z)
  | OUpdate (cp : Z)
  (** the parts of an update that the lock makes atomic: the clock, and a tick *)
  | OClock (cp : Z)
  | OTick.

Section runs.
Context {W : Type} `{!Services W}.

Definition timer_step (op : timer_op) (st : timer * W) : outcome (Z * (timer * W)) :=
  let '(T, w) := st in
  match op with
  | OTimeout handle delay session =>
      '(r, T, w) ← skynet_timeout handle delay session T w; Ret (r, (T, w))
  | OUpdate cp => st ← skynet_updatetime cp T w; Ret (0, st)
  | OClock cp => '(diff, T, w) ← update_clock cp T w; Ret (diff, (T, w))
  | OTick => st ← timer_update T w; Ret (0, st)
  end.

(** the results of a run of calls, and its final state *)
Fixpoint run {St : Type} (step : timer_op → St → outcome (Z * St)) (ops : list timer_op)
    (st : St) : outcome (list Z * St) :=
  match ops with
  | [] => Ret ([], st)
  | op :: ops =>
      '(r, st) ← step op st;
      '(rs, st) ← run step ops st;
      Ret (r :: rs, st)
  end.

(** The specification: due times and events, in the order they were added. *)
Record calendar : Type := Calendar {
  c_now : Z;
  c_pending : list (Z * timer_event);
  c_starttime : Z;
  c_current : Z;
  c_point : Z
}.

Definition c_timeout (handle delay session : Z) (c : calendar) (w : W) :
    outcome (Z * (calendar * W)) :=
  if decide (delay ≤ 0) then
    '(r, w) ← skynet_context_push handle (timeout_message session) w;
    Ret (if decide (r = 0) then session else -1, (c, w))
  else
    Ret (session, (Calendar (c_now c)
                     (c_pending c ++ [(c_now c + delay, TimerEvent handle session)])
                     (c_starttime c) (c_current c) (c_point c), w)).

(** The clock went from [c_point] to [cp]: the ticks that are due. *)
Definition c_clock (cp : Z) (c : calendar) (w : W) : outcome (Z * (calendar * W)) :=
  if decide (cp < c_point c) then
    w ← skynet_error None "time diff error" w;
    Ret (0, (Calendar (c_now c) (c_pending c) (c_starttime c) (c_current c) cp, w))
  else
    let n := u32 (cp - c_point c) in
    Ret (n, (Calendar (c_now c) (c_pending c) (c_starttime c) (u64 (c_current c + n)) cp, w)).

(** The time advances by [n]: the timers due up to then fire, in the order of their
    due times, and of their adding for one due time. *)
Definition c_advance (n : Z) (c : calendar) (w : W) : outcome (calendar * W) :=
  w ← dispatch_list (node_of <$> deliveries (Z.to_nat n) (c_now c) (c_pending c)) w;
  Ret (Calendar (c_now c + n) (filter (λ d, c_now c + n < d.1) (c_pending c))
         (c_starttime c) (c_current c) (c_point c), w).

(** both; the code counts the ticks in an [int], and has no behaviour beyond *)
Definition c_update (cp : Z) (c : calendar) (w : W) : outcome (Z * (calendar * W)) :=
  '(n, (c, w)) ← c_clock cp c w;
  st ← c_advance (Z.min n (2 ^ 31)) c w;
  if decide (n < 2 ^ 31) then Ret (0, st) else Undef.

Definition c_step (op : timer_op) (st : calendar * W) : outcome (Z * (calendar * W)) :=
  match op with
  | OTimeout handle delay session => c_timeout handle delay session st.1 st.2
  | OUpdate cp => c_update cp st.1 st.2
  | OClock cp => c_clock cp st.1 st.2
  | OTick => st ← c_advance 1 st.1 st.2; Ret (0, st)
  end.

(** [delay] is an [int] *)
Definition op_ok (op : timer_op) : Prop :=
  match op with OTimeout _ delay _ => delay ≤ INT_MAX | _ => True end.

Definition timer_cal (T : timer) (c : calendar) : Prop :=
  timer_repr T (c_now c) (c_pending c) ∧ starttime T = c_starttime c ∧
  current T = c_current c ∧ current_point T = c_point c ∧ 0 ≤ current T < 2 ^ 64.
Definition sim (r1 : Z * (timer * W)) (r2 : Z * (calendar * W)) : Prop :=
  r1.1 = r2.1 ∧ r1.2.2 = r2.2.2 ∧ timer_cal r1.2.1 r2.2.1.

Lemma timeout_sim handle delay session T w c : timer_cal T c → delay ≤ INT_MAX →
  out_rel sim (timer_step (OTimeout handle delay session) (T, w))
              (c_timeout handle delay session c w).
Proof.
  intros (Hr & Hs & Hc & Hp & Hb) Hd. unfold timer_step, c_timeout, skynet_timeout.
  case_bool_decide as Hneg; [rewrite decide_True by done|rewrite decide_False by done].
  - destruct (skynet_context_push handle (timeout_message session) w) as [[r w']| | |]; try done.
    cbn. split; [|done]. case_bool_decide; case_decide; done.
  - destruct (timer_add_repr T _ _ (TimerEvent handle session) delay Hr) as (T' & E & Hr' & Hc'); [lia|].
    rewrite E. cbn. destruct Hc' as (_ & E1 & E2 & E3).
    split_and!; [done|done|]. split_and!; simpl; try congruence; lia.
Qed.

Lemma clock_sim cp T w c : timer_cal T c →
  out_rel sim (timer_step (OClock cp) (T, w)) (c_clock cp c w) ∧
  ∀ n st, c_clock cp c w = Ret (n, st) → 0 ≤ n < 2 ^ 32.
Proof.
  intros (Hr & Hs & Hc & Hp & Hb). unfold timer_step, c_clock, update_clock. rewrite Hp.
  case_bool_decide as Hlt; [rewrite !decide_True by done|rewrite !decide_False by done].
  - destruct (skynet_error None "time diff error" w); split; try done. intros n st [= <- _]. lia.
  - pose proof (mod_range (cp - c_point c) (2 ^ 32) ltac:(lia)) as Hn. split; [|intros n st [= <- _]; done].
    case_bool_decide as Hne; cbn.
    + split; [done|]. split; [done|]. split; [done|]. split_and!; simpl; try congruence; apply mod_range; lia.
    + assert (cp = c_point c) as -> by lia. rewrite Z.sub_diag. change (u32 0) with 0. rewrite Z.add_0_r.
      unfold sim, timer_cal, u64. simpl. rewrite Z.mod_small by lia. split_and!; try done; lia.
Qed.

Lemma advance_sim n T w c : timer_cal T c → 0 ≤ n ≤ INT_MAX →
  out_rel (λ r1 r2, r1.2 = r2.2 ∧ timer_cal r1.1 r2.1) (for_loop tick (Z.to_nat n) 0 1 (T, w)) (c_advance n c w).
Proof.
  intros (Hr & Hs & Hc & Hp & Hb) Hn. unfold c_advance.
  destruct (ticks (Z.to_nat n) T (c_now c) (c_pending c) Hr) as (T' & E & Hr' & Hc').
  rewrite E by lia. destruct (dispatch_list _ w) as [w'| | |]; [|done..]. cbn.
  destruct Hc' as (_ & E1 & E2 & E3). rewrite Z2Nat.id in * by lia. simpl in *.
  split; [done|]. split_and!; simpl; try congruence; lia.
Qed.

Lemma updatetime_sim cp T w c : timer_cal T c →
  out_rel sim (timer_step (OUpdate cp) (T, w)) (c_update cp c w).
Proof.
  intros HT. unfold timer_step, c_update, skynet_updatetime.
  destruct (clock_sim cp T w c HT) as [Hsim Hrange]. cbn [timer_step] in Hsim.
  destruct (update_clock cp T w) as [[[n T1] w1]| | |], (c_clock cp c w) as [[m [c1 w2]]| | |]; try done. cbn in Hsim |- *.
  destruct Hsim as (E1 & E2 & HT1). cbn [fst snd] in E1, E2, HT1. subst m w2. specialize (Hrange n _ eq_refl).
  destruct (decide (n < 2 ^ 31)) as [Hn|Hn].
  - rewrite Z.min_l by lia. pose proof (advance_sim n T1 w1 c1 HT1 ltac:(unfold INT_MAX; lia)) as Ha.
    destruct (for_loop _ _ _ _ _) as [[T2 w2]| | |], (c_advance n c1 w1) as [[c2 w3]| | |]; try done.
  - rewrite Z.min_r by lia. destruct HT1 as (Hr & _). unfold c_advance.
    rewrite (ticks_overflow (Z.to_nat INT_MAX) _ _ _ _ Hr) by (unfold INT_MAX; lia).
    replace (S (Z.to_nat INT_MAX)) with (Z.to_nat (2 ^ 31)) by (unfold INT_MAX; lia).
    by destruct (dispatch_list _ w1).
Qed.

Lemma tick_sim T w c : timer_cal T c → out_rel sim (timer_step OTick (T, w)) (c_step OTick (c, w)).
Proof.
  intros HT. pose proof (advance_sim 1 T w c HT ltac:(done)) as Ha. cbn [timer_step c_step fst snd].
  change (for_loop tick (Z.to_nat 1) 0 1 (T, w)) with
    (st ← ('(T, w) ← timer_update T w; _ ← chk_int (0 + 1); Ret (T, w)); Ret st : outcome (timer * W)) in Ha.
  destruct (timer_update T w) as [[T1 w1]| | |], (c_advance 1 c w) as [[c2 w3]| | |]; try done.
Qed.

Lemma run_sim ops : ∀ T c w, timer_cal T c → Forall op_ok ops →
  out_rel (λ r1 r2, r1.1 = r2.1 ∧ r1.2.2 = r2.2.2 ∧ timer_cal r1.2.1 r2.2.1)
    (run timer_step ops (T, w)) (run c_step ops (c, w)).
Proof.
  induction ops as [|op ops IH]; intros T c w Hc Hok; [done|].
  apply Forall_cons in Hok as [Hop Hok]. cbn [run].
  apply (out_rel_bind sim).
  - destruct op; [by apply timeout_sim|by apply updatetime_sim|by apply clock_sim|by apply tick_sim].
  - intros [r1 [T1 w1]] [r2 [c2 w2]] (Er & Ew & HT). simpl in *. subst.
    eapply out_rel_bind; [by apply IH|]. intros [rs1 s1] [rs2 s2] (Ers & Ew2 & HT2). simpl in *.
    split_and!; congruence || done.
Qed.

(** C5. From the initialised timer, any sequence of [skynet_timeout] and
    [skynet_updatetime] calls returns the same results, sends the same messages
    in the same order, and fails in the same way, as the calendar: the 32-bit
    clock, the 5 wheels and their cascades never lose, repeat, advance or delay
    a timer, whatever the length of the run. The sequence may also hold the parts
    of an update, the clock and the single ticks, between which other threads get
    the lock for their timers. The [int] that counts the ticks of an update
    overflows when 2^31 centiseconds, 248 days, passed since the update before:
    the calendar is undefined there too. *)
Theorem timer_refines_calendar sec cs cp ops w : 0 ≤ cs < 2 ^ 64 → Forall op_ok ops →
  out_rel (λ r1 r2, r1.1 = r2.1 ∧ r1.2.2 = r2.2.2 ∧ timer_cal r1.2.1 r2.2.1)
    (run timer_step ops (skynet_timer_init sec cs cp, w))
    (run c_step ops (Calendar 0 [] sec cs cp, w)).
Proof.
  intros Hcs. apply run_sim. split_and!; try done; try apply Hcs. apply timer_init_repr.
Qed.

(** C6. Delivery in one update: when the clock advances from its last reading by
    [n] centiseconds, fewer than 2^31, [skynet_updatetime] delivers exactly the
    timers due up to the new time, in the order of their due times and, for one
    due time, of their adding, each once; the others stay pending. When it
    advances by more, the counter of the ticks overflows behind the deliveries of
    the first 2^31. *)
Theorem updatetime_delivers T now pend cp : timer_repr T now pend →
  0 ≤ current T < 2 ^ 64 → 0 ≤ cp - current_point T < 2 ^ 32 →
  let n := cp - current_point T in
  let fired := deliveries (Z.to_nat n) now pend in
  let rest := filter (λ d, now + n < d.1) pend in
  (n < 2 ^ 31 →
   ∃ T', (∀ w, skynet_updatetime cp T w = w ← dispatch_list (node_of <$> fired) w; Ret (T', w)) ∧
         timer_repr T' (now + n) rest ∧ current T' = u64 (current T + n) ∧ current_point T' = cp) ∧
  (2 ^ 31 ≤ n → ∀ w, skynet_updatetime cp T w =
     w ← dispatch_list (node_of <$> deliveries (Z.to_nat (2 ^ 31)) now pend) w; Undef) ∧
  fired ++ rest ≡ₚ pend ∧ StronglySorted due_le fired.
Proof.
  intros Hr Hcur Hn n fired rest. destruct (Hr) as (_ & _ & _ & HF).
  assert (u32 n = n) as En by (apply Z.mod_small; lia).
  assert (cp ≠ current_point T → ∀ w, skynet_updatetime cp T w =
    for_loop tick (Z.to_nat n) 0 1 (set_clock (starttime T) (u64 (current T + n)) cp T, w)) as Hloop.
  { intros Hne w. unfold skynet_updatetime, update_clock. rewrite bool_decide_eq_false_2 by lia.
    rewrite bool_decide_eq_true_2 by done. fold n. by rewrite En. }
  split_and!.
  - intros Hmax. destruct (decide (cp = current_point T)) as [E|Hne].
    + exists T. assert (n = 0) as E0 by (unfold n; lia). unfold rest, fired. rewrite E0, Z.add_0_r.
      rewrite filter_all by (rewrite Forall_forall in HF; intros d Hd%HF; lia).
      rewrite Z.add_0_r. unfold u64. rewrite Z.mod_small by lia. split_and!; try done; try apply Hr.
      intros w. unfold skynet_updatetime, update_clock. rewrite !bool_decide_eq_false_2 by lia. done.
    + destruct (ticks (Z.to_nat n) (set_clock (starttime T) (u64 (current T + n)) cp T) now pend Hr)
        as (T' & E & Hr' & _ & _ & E2 & E3). rewrite Z2Nat.id in * by lia.
      exists T'. split_and!; try done; try apply Hr'.
      intros w. rewrite Hloop by done. apply E; [lia|unfold INT_MAX; lia].
  - intros Hmax w. rewrite Hloop by (unfold n in Hmax; lia).
    replace (Z.to_nat (2 ^ 31)) with (S (Z.to_nat INT_MAX)) by (unfold INT_MAX; lia).
    apply ticks_overflow; [exact Hr|unfold INT_MAX; lia..].
  - pose proof (deliveries_perm (Z.to_nat n) now pend) as Hperm. rewrite Z2Nat.id in Hperm by lia.
    apply Hperm. eapply Forall_impl; [done|]. simpl. lia.
  - apply deliveries_sorted.
Qed.
End runs.

(** ** A concrete world: the messages delivered so far *)
Module Log.
#[export] Instance log_services : Services (list (Z * Z)) := {|
  skynet_context_push h m w := Ret (0, w ++ [(h, session m)]);
  skynet_error _ _ w := Ret w
|}.

(** two timers, one of them through a cascade, and one fired at once *)
Definition script : list timer_op :=
  [OTimeout 1 300 7; OTimeout 2 5 8; OTimeout 3 0 9; OUpdate 10; OUpdate 305; OUpdate 200;
   OClock 202; OTimeout 4 1 10; OTick; OTick].

Example script_runs :
  (r ← run timer_step script (skynet_timer_init 1000 50 0, []); Ret (r.1, r.2.2)) =
  Ret ([7; 8; 9; 0; 0; 0; 2; 10; 0; 0], [(3, 9); (2, 8); (1, 7); (4, 10)]).
Proof. vm_compute. reflexivity. Qed.

Lemma timer_refines_calendar_witness :
  out_rel (λ r1 r2, r1.1 = r2.1 ∧ r1.2.2 = r2.2.2 ∧ timer_cal r1.2.1 r2.2.1)
    (run timer_step script (skynet_timer_init 1000 50 0, []))
    (run c_step script (Calendar 0 [] 1000 50 0, [])).
Proof.
  apply timer_refines_calendar; [lia|]. unfold script, INT_MAX.
  repeat constructor; simpl; unfold INT_MAX; lia.
Defined.

Lemma updatetime_delivers_witness :
  ∃ T, timer_repr T 0 [(300, TimerEvent 1 7)] ∧ current_point T = 0 ∧
    ∃ T', (∀ w : list (Z * Z), skynet_updatetime 400 T w = Ret (T', w ++ [(1, 7)])) ∧
          timer_repr T' 400 [].
Proof.
  destruct (timer_add_repr (skynet_timer_init 0 0 0) 0 [] (TimerEvent 1 7) 300
    (timer_init_repr 0 0 0)) as (T & _ & Hr & _ & _ & Hc & Hp); [unfold INT_MAX; lia|].
  change (current_point T = 0) in Hp. change (current T = 0) in Hc.
  exists T. split; [exact Hr|]. split; [exact Hp|].
  destruct (updatetime_delivers T 0 [(300, TimerEvent 1 7)] 400) as [H _];
    [exact Hr|lia|lia|]. destruct H as (T' & E & Hr' & _); [lia|]. rewrite Hp in E, Hr'. exists T'. split; [|exact Hr'].
  intros w. rewrite E. reflexivity.
Defined.
End Log.
