(* ===== verification/CNum.v ===== *)
(** * Numbers as text: the conversions of the C library the program uses

    [strtol] and [strtoul] of <stdlib.h> for 64-bit [long], and the conversions
    %x, %0Nx, %d and %u of [sprintf], in the C locale. *)
From S2P Require Import Prelude CLib.
From Stdlib Require Import Ascii String.
#[local] Open Scope Z_scope.

Definition chr (c : Z) : ascii := ascii_of_N (Z.to_N c).

Lemma char_code_chr c : 0 ≤ c < 256 → char_code (chr c) = c.
Proof. intros. unfold char_code, chr. rewrite N_ascii_embedding by lia. lia. Qed.

(** [isspace] *)
Definition isspace (c : ascii) : bool :=
  let c := char_code c in bool_decide (c = 32 ∨ 9 ≤ c ≤ 13).

(** the value of a digit of any base up to 36 *)
Definition digit_val (c : ascii) : option Z :=
  let c := char_code c in
  if decide (48 ≤ c ≤ 57) then Some (c - 48)
  else if decide (97 ≤ c ≤ 122) then Some (c - 87)
  else if decide (65 ≤ c ≤ 90) then Some (c - 55)
  else None.

Definition digit_in (b : Z) (c : ascii) : option Z :=
  v ← digit_val c; if decide (v < b) then Some v else None.

Fixpoint skip_space (s : string) : string :=
  match s with
  | String c s' => if isspace c then skip_space s' else s
  | EmptyString => EmptyString
  end.

(** the longest prefix of digits, as a number, and what follows it *)
Fixpoint strto_digits (b acc : Z) (s : string) : Z * string :=
  match s with
  | String c s' =>
      match digit_in b c with
      | Some v => strto_digits b (acc * b + v) s'
      | None => (acc, s)
      end
  | EmptyString => (acc, s)
  end.

Definition strto_sign (s : string) : bool * string :=
  match s with
  | String c s' =>
      if decide (char_code c = 45) then (true, s')
      else if decide (char_code c = 43) then (false, s') else (false, s)
  | EmptyString => (false, s)
  end.

(** the base and the digits: a [0x] is skipped in base 16, and base 0 is chosen
    by the prefix *)
Definition strto_base (b : Z) (s : string) : Z * string :=
  match s with
  | String z (String x (String d s')) =>
      if decide ((b = 0 ∨ b = 16) ∧ char_code z = 48 ∧
                 (char_code x = 120 ∨ char_code x = 88) ∧ is_Some (digit_in 16 d))
      then (16, String d s')
      else if decide (b = 0) then (if decide (char_code z = 48) then 8 else 10, s) else (b, s)
  | String z _ =>
      if decide (b = 0) then (if decide (char_code z = 48) then 8 else 10, s) else (b, s)
  | EmptyString => (b, s)
  end.

Definition strto (b : Z) (s : string) : bool * Z :=
  let '(neg, s) := strto_sign (skip_space s) in
  let '(b, s) := strto_base b s in
  (neg, (strto_digits b 0 s).1).

Definition ULONG_MAX : Z := 2 ^ 64 - 1.
Definition LONG_MAX : Z := 2 ^ 63 - 1.
Definition strtoul (s : string) (b : Z) : Z :=
  let '(neg, v) := strto b s in
  if decide (ULONG_MAX < v) then ULONG_MAX else if neg : bool then u64 (- v) else v.
Definition strtol (s : string) (b : Z) : Z :=
  let '(neg, v) := strto b s in
  if neg : bool then (if decide (LONG_MAX + 1 < v) then - LONG_MAX - 1 else - v)
  else if decide (LONG_MAX < v) then LONG_MAX else v.

(** ** [sscanf] *)

(** one "%s" of [sscanf]: the word after white space, and the rest *)
Fixpoint word (s : string) : string * string :=
  match s with
  | EmptyString => (EmptyString, EmptyString)
  | String c s' => if isspace c then (EmptyString, s)
                   else let '(a, b) := word s' in (String c a, b)
  end.
Definition scan_word (s : string) : option (string * string) :=
  match word (skip_space s) with
  | (EmptyString, _) => None
  | (w, rest) => Some (w, rest)
  end.

(** one "%d": white space, a sign and at least one digit *)
Definition scan_int (s : string) : option (Z * string) :=
  let '(neg, d) := strto_sign (skip_space s) in
  let '(v, rest) := strto_digits 10 0 d in
  if decide (d = rest) then None else Some (if neg : bool then - v else v, rest).

(** ** Printing *)
Definition digit_chr (up : bool) (v : Z) : ascii :=
  chr (if decide (v < 10) then 48 + v else if up then 55 + v else 87 + v).

(** [n] in base [b], at least one digit and at most [fuel + 1], before [acc] *)
Fixpoint show_base (fuel : nat) (up : bool) (b n : Z) (acc : string) : string :=
  let acc := String (digit_chr up (n mod b)) acc in
  match fuel with
  | O => acc
  | S fuel => if decide (n / b = 0) then acc else show_base fuel up b (n / b) acc
  end.

(** [k] digits of [n] *)
Fixpoint show_fixed (k : nat) (up : bool) (b n : Z) (acc : string) : string :=
  match k with
  | O => acc
  | S k => show_fixed k up b (n / b) (String (digit_chr up (n mod b)) acc)
  end.

(** %x and %08x of a 32-bit number, %02x of a byte, %u and %d of 64-bit ones *)
Definition fmt_x (n : Z) : string := show_base 7 false 16 n "".
Definition fmt_08x (n : Z) : string := show_fixed 8 false 16 n "".
Definition fmt_02x (n : Z) : string := show_fixed 2 false 16 n "".
Definition fmt_u (n : Z) : string := show_base 19 false 10 n "".
Definition fmt_d (n : Z) : string :=
  if decide (n < 0) then String (chr 45) (fmt_u (- n)) else fmt_u n.

Lemma digit_in_chr up b v : 0 ≤ v < b → b ≤ 36 → digit_in b (digit_chr up v) = Some v.
Proof.
  intros Hv Hb. unfold digit_in, digit_val, digit_chr.
  destruct up; rewrite char_code_chr by (case_decide; lia);
    repeat case_decide; simpl; rewrite ?decide_True by lia; try (f_equal; lia); lia.
Qed.

Lemma strto_show_fixed b k up : 2 ≤ b ≤ 36 → ∀ n a acc, 0 ≤ n →
  strto_digits b a (show_fixed k up b n acc) =
  strto_digits b (a * b ^ Z.of_nat k + n mod b ^ Z.of_nat k) acc.
Proof.
  intros Hb. induction k as [|k IH]; intros n a acc Hn.
  - simpl. rewrite Z.mod_1_r. f_equal. lia.
  - cbn [show_fixed]. rewrite IH by (apply Z.div_pos; lia). cbn [strto_digits].
    rewrite digit_in_chr by (try apply mod_range; lia). f_equal.
    rewrite Nat2Z.inj_succ, Z.pow_succ_r by lia.
    assert (0 < b ^ Z.of_nat k) by (apply Z.pow_pos_nonneg; lia).
    rewrite (Z.rem_mul_r n b) by lia. lia.
Qed.

Lemma strto_show_base b fuel up : 2 ≤ b ≤ 36 → ∀ n acc, 0 ≤ n < b ^ (Z.of_nat fuel + 1) →
  ∃ k, 0 ≤ k ∧ ∀ a,
    strto_digits b a (show_base fuel up b n acc) = strto_digits b (a * b ^ k + n) acc.
Proof.
  intros Hb. induction fuel as [|fuel IH]; intros n acc Hn.
  - exists 1. split; [lia|]. intros a. cbn [show_base strto_digits].
    rewrite digit_in_chr by (try apply mod_range; lia).
    rewrite Z.mod_small by (simpl in Hn; lia). f_equal. lia.
  - cbn [show_base]. case_decide as H0.
    + exists 1. split; [lia|]. intros a. cbn [strto_digits].
      rewrite digit_in_chr by (try apply mod_range; lia). f_equal.
      pose proof (Z.div_mod n b ltac:(lia)). nia.
    + destruct (IH (n / b) (String (digit_chr up (n mod b)) acc)) as (k & Hk & E).
      { split; [apply Z.div_pos; lia|]. apply Z.div_lt_upper_bound; [lia|].
        replace (Z.of_nat (S fuel) + 1) with (Z.succ (Z.of_nat fuel + 1)) in Hn by lia.
        rewrite Z.pow_succ_r in Hn by lia. lia. }
      exists (Z.succ k). split; [lia|]. intros a. rewrite E. cbn [strto_digits].
      rewrite digit_in_chr by (try apply mod_range; lia). f_equal.
      rewrite Z.pow_succ_r by lia. pose proof (Z.div_mod n b ltac:(lia)). nia.
Qed.

(** a printed number starts with a digit *)
Lemma digit_plain up v : 0 ≤ v < 36 →
  isspace (digit_chr up v) = false ∧ char_code (digit_chr up v) ≠ 45 ∧
  char_code (digit_chr up v) ≠ 43 ∧ char_code (digit_chr up v) ≠ 120 ∧
  char_code (digit_chr up v) ≠ 88 ∨ 33 ≤ v.
Proof.
  intros Hv. destruct (decide (33 ≤ v)); [by right|left].
  assert (48 ≤ char_code (digit_chr up v) ≤ 119 ∧ char_code (digit_chr up v) ≠ 88) as [? ?].
  { unfold digit_chr. rewrite char_code_chr by (destruct up; case_decide; lia).
    destruct up; case_decide; lia. }
  unfold isspace. rewrite bool_decide_eq_false_2; lia.
Qed.

(** [b] is the base of every digit of [s] *)
Fixpoint all_digits (b : Z) (s : string) : Prop :=
  match s with
  | EmptyString => True
  | String c s => (∃ up v, c = digit_chr up v ∧ 0 ≤ v < b) ∧ all_digits b s
  end.

Lemma show_base_digits b fuel up : 2 ≤ b ≤ 16 → ∀ n acc, 0 ≤ n → all_digits b acc →
  all_digits b (show_base fuel up b n acc).
Proof.
  intros Hb. induction fuel as [|fuel IH]; intros n acc Hn Ha; cbn [show_base].
  - split; [|done]. do 2 eexists. split; [done|]. apply mod_range. lia.
  - assert (all_digits b (String (digit_chr up (n mod b)) acc)).
    { split; [|done]. do 2 eexists. split; [done|]. apply mod_range. lia. }
    case_decide; [done|]. apply IH; [apply Z.div_pos; lia|done].
Qed.

Lemma show_fixed_digits b k up : 2 ≤ b ≤ 16 → ∀ n acc, 0 ≤ n → all_digits b acc →
  all_digits b (show_fixed k up b n acc).
Proof.
  intros Hb. induction k as [|k IH]; intros n acc Hn Ha; cbn [show_fixed]; [done|].
  apply IH; [apply Z.div_pos; lia|]. split; [|done].
  do 2 eexists. split; [done|]. apply mod_range. lia.
Qed.

Lemma strto_of_digits b s : 1 < b ≤ 16 → all_digits b s → strto b s = (false, (strto_digits b 0 s).1).
Proof.
  intros Hb Hs. unfold strto. destruct s as [|c s]; [done|].
  destruct Hs as [(up & v & -> & Hv) Hs].
  destruct (digit_plain up v) as [(Hsp & Hm & Hp & _)|]; [lia| |lia].
  cbn [skip_space]. rewrite Hsp. cbn [strto_sign]. rewrite !decide_False by done.
  assert (strto_base b (String (digit_chr up v) s) = (b, String (digit_chr up v) s)) as ->; [|done].
  unfold strto_base. destruct s as [|x [|d s]]; rewrite ?decide_False by lia; try done.
  rewrite decide_False; [by rewrite decide_False by lia|]. intros (_ & _ & Hx & _).
  destruct Hs as [(up' & v' & -> & Hv') _].
  destruct (digit_plain up' v') as [(_ & _ & _ & ? & ?)|]; lia.
Qed.

(** A 32-bit number printed in hexadecimal reads back as itself. *)
Lemma strtoul_fmt_x n : 0 ≤ n < 2 ^ 32 → strtoul (fmt_x n) 16 = n.
Proof.
  intros Hn. unfold strtoul, fmt_x.
  rewrite strto_of_digits by (try apply show_base_digits; simpl; lia || done).
  destruct (strto_show_base 16 7 false ltac:(lia) n "") as (k & _ & E).
  { change (16 ^ (Z.of_nat 7 + 1)) with (2 ^ 32). lia. }
  rewrite E. cbn [strto_digits fst]. rewrite decide_False by (unfold ULONG_MAX; lia). lia.
Qed.

Lemma strtoul_fixed8 up n : 0 ≤ n < 2 ^ 32 → strtoul (show_fixed 8 up 16 n "") 16 = n.
Proof.
  intros Hn. unfold strtoul.
  rewrite strto_of_digits by (try apply show_fixed_digits; simpl; lia || done).
  rewrite strto_show_fixed by lia. cbn [strto_digits fst].
  change (16 ^ Z.of_nat 8) with (2 ^ 32). rewrite Z.mod_small by lia.
  rewrite decide_False by (unfold ULONG_MAX; lia). lia.
Qed.
