(* ===== verification/Module.v ===== *)
(** * Service modules: skynet-src/skynet_module.c

    The table of loaded modules. The dynamic loader is outside the program:
    [dlopen] and [dlsym] are the parameters of the section, fixed while a
    module is looked up. A function pointer is the address [dlsym] returned. *)
From S2P Require Import Prelude CLib CNum.
From Stdlib Require Import Ascii String.
#[local] Open Scope Z_scope.

Definition MAX_MODULE_TYPE : Z := 32.

Record skynet_module : Type := SkynetModule {
  mod_name : string;
  dl : Z;
  create_fn : option loc;
  init_fn : option loc;
  release_fn : option loc;
  signal_fn : option loc
}.

(** [count] is the length of the list *)
Record modules : Type := Modules { path : string; m : list skynet_module }.

(** [strchr]: the text from the first [c] on *)
Fixpoint strchr (c : Z) (s : string) : option string :=
  match s with
  | EmptyString => None
  | String d s' => if decide (char_code d = c) then Some s else strchr c s'
  end.

(** the text before the first [c], and from it on *)
Fixpoint split_at (c : Z) (s : string) : string * string :=
  match s with
  | EmptyString => (EmptyString, EmptyString)
  | String d s' =>
      if decide (char_code d = c) then (EmptyString, s)
      else let '(a, b) := split_at c s' in (String d a, b)
  end.

(** the loop over leading semicolons *)
Fixpoint skip_semicolons (s : string) : string :=
  match s with
  | String d s' => if decide (char_code d = 59) then skip_semicolons s' else s
  | EmptyString => EmptyString
  end.

(** the text after the last [c], or all of it: [strrchr] *)
Fixpoint after_last (c : Z) (s : string) : string :=
  match s with
  | EmptyString => EmptyString
  | String d s' =>
      match strchr c s' with
      | Some _ => after_last c s'
      | None => if decide (char_code d = c) then s' else s
      end
  end.

Section modules.
Context (dlopen : string → option Z) (dlsym : Z → string → option loc).

(** the file name of a template: its first '?' replaced by the name. A template
    without one makes the source exit: [None]. *)
Definition template_file (template name : string) : option string :=
  match split_at 63 template with
  | (before, String _ after) => Some (before +:+ name +:+ after)
  | (_, EmptyString) => None
  end.

(** [Ret None] when every template failed; [exit(1)] is [AssertFail]. Each round
    consumes at least one character of the path. *)
Fixpoint _try_open (fuel : nat) (path name : string) : outcome (option Z) :=
  match fuel with
  | O => NoFuel
  | S fuel =>
      let path := skip_semicolons path in
      match path with
      | EmptyString => Ret None
      | String _ _ =>
          let '(template, rest) := split_at 59 path in
          match template_file template name with
          | None => AssertFail
          | Some tmp =>
              match dlopen tmp with
              | Some d => Ret (Some d)
              | None => _try_open fuel rest name
              end
          end
      end
  end.

(** the index of the module, in the order of loading *)
Fixpoint _query (l : list skynet_module) (name : string) : option skynet_module :=
  match l with
  | [] => None
  | md :: l => if bool_decide (strcmp (mod_name md) name = 0) then Some md else _query l name
  end.

(** the symbol is named after the last component of a dotted name *)
Definition get_api (d : Z) (name api_name : string) : option loc :=
  dlsym d (after_last 46 (name +:+ api_name)).

(** [open_sym]: the module, when it has an init function *)
Definition open_sym (d : Z) (name : string) : option skynet_module :=
  match get_api d name "_init" with
  | Some init =>
      Some (SkynetModule name d (get_api d name "_create") (Some init)
              (get_api d name "_release") (get_api d name "_signal"))
  | None => None
  end.

Definition skynet_module_query (name : string) (M : modules) :
    outcome (option skynet_module * modules) :=
  match _query (m M) name with
  | Some md => Ret (Some md, M)
  | None =>
      if bool_decide (Zlen (m M) < MAX_MODULE_TYPE) then
        d ← _try_open (S (String.length (path M))) (path M) name;
        match d with
        | None => Ret (None, M)
        | Some d =>
            match open_sym d name with
            | Some md => Ret (Some md, Modules (path M) (m M ++ [md]))
            | None => Ret (None, M)
            end
        end
      else Ret (None, M)
  end.
End modules.

Definition skynet_module_insert (md : skynet_module) (M : modules) : outcome modules :=
  cassert (bool_decide (_query (m M) (mod_name md) = None ∧ Zlen (m M) < MAX_MODULE_TYPE));;
  Ret (Modules (path M) (m M ++ [md])).

Definition skynet_module_init (path : string) : modules := Modules path [].

(** ** The search path *)
Section search.
Context (dlopen : string → option Z).

(** the templates of a path: the non-empty parts between semicolons *)
Definition is_template (p : string) : Prop := p ≠ "" ∧ strchr 59 p = None.
Fixpoint path_of (ts : list string) : string :=
  match ts with
  | [] => EmptyString
  | [p] => p
  | p :: ts => p +:+ ";" +:+ path_of ts
  end.

Lemma skip_semicolons_template p s : is_template p → skip_semicolons (p +:+ s) = p +:+ s.
Proof.
  intros [Hp Hs]. destruct p as [|c p]; [done|].
  change (String c p +:+ s) with (String c (p +:+ s)). cbn [strchr skip_semicolons] in *.
  by destruct (decide (char_code c = 59)).
Qed.

Lemma split_at_app c p s : strchr c p = None →
  split_at c (p +:+ s) = (p +:+ (split_at c s).1, (split_at c s).2).
Proof.
  induction p as [|d p IH]; intros E; [change ("" +:+ s) with s; by destruct (split_at c s)|].
  change (String d p +:+ s) with (String d (p +:+ s)). cbn [strchr split_at] in *.
  case_decide; [done|]. by rewrite (IH E).
Qed.

Lemma append_nil_r (s : string) : s +:+ "" = s.
Proof. induction s as [|c s IH]; [done|]. change (String c (s +:+ "") = String c s). by rewrite IH. Qed.

Lemma length_append (a b : string) : String.length (a +:+ b) = (String.length a + String.length b)%nat.
Proof.
  induction a as [|c a IH]; [done|]. change (S (String.length (a +:+ b)) = S (String.length a + String.length b)%nat).
  by rewrite IH.
Qed.

(** the first library that opens, in the order of the templates *)
Fixpoint first_open (files : list string) : option Z :=
  match files with
  | [] => None
  | f :: files => match dlopen f with Some d => Some d | None => first_open files end
  end.

Lemma try_open_rest fuel s name :
  _try_open dlopen fuel (String (chr 59) s) name = _try_open dlopen fuel s name.
Proof. destruct fuel; [done|]. cbn [_try_open skip_semicolons]. by rewrite decide_True by done. Qed.

Lemma try_open_templates name ts : ∀ fuel,
  Forall is_template ts → Forall (λ p, is_Some (template_file p name)) ts →
  (String.length (path_of ts) < fuel)%nat →
  _try_open dlopen fuel (path_of ts) name =
    Ret (first_open (omap (λ p, template_file p name) ts)).
Proof.
  induction ts as [|p ts IH]; intros fuel Ht Hf Hl; (destruct fuel as [|fuel]; [simpl in *; lia|]); [done|].
  apply Forall_cons in Ht as [Hp Ht]. apply Forall_cons in Hf as [[f Ef] Hf].
  destruct Hp as [Hne Hs].
  assert (∃ s, path_of (p :: ts) = p +:+ s ∧ (split_at 59 s).1 = "" ∧
            ∀ fl, (String.length (split_at 59 s).2 < fl)%nat →
              (String.length (path_of ts) < fl)%nat ∧
              _try_open dlopen fl (split_at 59 s).2 name = _try_open dlopen fl (path_of ts) name)
    as (s & E & E1 & E2).
  { destruct ts as [|p' ts].
    - exists "". split; [by rewrite append_nil_r|]. done.
    - exists (";" +:+ path_of (p' :: ts)). split; [done|]. split; [done|].
      intros fl Hfl. change (";" +:+ path_of (p' :: ts)) with (String (chr 59) (path_of (p' :: ts))) in *.
      cbn [split_at] in *. rewrite decide_True in * by done.
      split; [simpl in *; lia|]. apply try_open_rest. }
  rewrite E in *. cbn [_try_open]. rewrite skip_semicolons_template by done.
  rewrite split_at_app, E1, append_nil_r by done.
  destruct (p +:+ s) as [|c q] eqn:Ep; [by destruct p|]. rewrite <- Ep in *. clear Ep.
  cbn [omap list_omap]. rewrite Ef. cbn [first_open]. destruct (dlopen f); [done|].
  assert (String.length (split_at 59 s).2 < fuel)%nat as Hlt.
  { rewrite length_append in Hl. destruct p; [done|]. simpl in Hl.
    enough (String.length (split_at 59 s).2 ≤ String.length s)%nat by lia. clear.
    induction s as [|c s IH]; [done|]. simpl. case_decide; [done|].
    destruct (split_at 59 s). simpl in *. lia. }
  destruct (E2 fuel Hlt) as [Hl' ->]. by apply IH.
Qed.
End search.

Section query.
Context (dlopen : string → option Z) (dlsym : Z → string → option loc).

Lemma query_app l l' name :
  _query (l ++ l') name = match _query l name with Some md => Some md | None => _query l' name end.
Proof. induction l as [|md l IH]; [done|]. simpl. by case_bool_decide. Qed.

Lemma open_sym_name d name md : open_sym dlsym d name = Some md → mod_name md = name.
Proof. unfold open_sym. destruct (get_api _ _ _ "_init"); naive_solver. Qed.

(** Loading a module. When the name is not in the table, the table has room
    and every template of the search path has a '?', the first library that
    opens decides: with an [_init] symbol the module is added at the end, and
    otherwise the query fails and the table is unchanged. A query that
    succeeded leaves the module in the table, where any later query of the name
    finds it without the loader. *)
Theorem module_query_correct name M ts :
  path M = path_of ts → Forall is_template ts →
  Forall (λ p, is_Some (template_file p name)) ts →
  _query (m M) name = None → Zlen (m M) < MAX_MODULE_TYPE →
  skynet_module_query dlopen dlsym name M =
    Ret (match first_open dlopen (omap (λ p, template_file p name) ts) ≫=
               λ d, open_sym dlsym d name with
         | Some md => (Some md, Modules (path M) (m M ++ [md]))
         | None => (None, M)
         end) ∧
  ∀ md M' dlopen' dlsym', skynet_module_query dlopen dlsym name M = Ret (Some md, M') →
    skynet_module_query dlopen' dlsym' name M' = Ret (Some md, M').
Proof.
  intros Hp Ht Hf Hq Hl.
  assert (skynet_module_query dlopen dlsym name M =
    Ret (match first_open dlopen (omap (λ p, template_file p name) ts) ≫=
               λ d, open_sym dlsym d name with
         | Some md => (Some md, Modules (path M) (m M ++ [md]))
         | None => (None, M)
         end)) as E.
  { unfold skynet_module_query. rewrite Hq, bool_decide_eq_true_2 by done.
    rewrite Hp, try_open_templates by (done || lia). cbn [mbind outcome_bind].
    destruct (first_open _ _) as [d|]; [|done]. cbn [mbind option_bind].
    by destruct (open_sym dlsym d name). }
  split; [done|]. intros md M' dlopen' dlsym'. rewrite E.
  destruct (first_open _ _) as [d|]; [|done]. cbn [mbind option_bind].
  destruct (open_sym dlsym d name) as [md'|] eqn:Eo; [|done]. intros [= <- <-].
  unfold skynet_module_query. cbn [m]. rewrite query_app, Hq. cbn [_query].
  rewrite (open_sym_name _ _ _ Eo), strcmp_refl. by rewrite bool_decide_eq_true_2.
Qed.
End query.

(** two templates; only the second one has the library *)
Definition demo_open (f : string) : option Z :=
  if bool_decide (f = "./cservice/logger.so") then Some 7 else None.
Definition demo_sym (d : Z) (s : string) : option loc :=
  if bool_decide (s = "logger_init") then Some 100 else None.

Lemma module_query_correct_witness :
  skynet_module_query demo_open demo_sym "logger" (skynet_module_init "./x/?.so;./cservice/?.so")
  = Ret (Some (SkynetModule "logger" 7 None (Some 100) None None),
         Modules "./x/?.so;./cservice/?.so" [SkynetModule "logger" 7 None (Some 100) None None]).
Proof.
  destruct (module_query_correct demo_open demo_sym "logger"
    (skynet_module_init "./x/?.so;./cservice/?.so") ["./x/?.so"; "./cservice/?.so"]) as [E _].
  - reflexivity.
  - repeat constructor; done.
  - repeat constructor; eexists; reflexivity.
  - reflexivity.
  - reflexivity.
  - rewrite E. reflexivity.
Defined.
