(* ===== verification/Node.v ===== *)
(** * The state of a skynet process

    The globals of skynet-src in one record, the service contexts of
    skynet_server.c with their reference counts, and the environment, harbor and
    error reporting every other part calls. The code of the services
    themselves, loaded at run time, and the operating system are the class
    [External]: functions on the process state about which nothing is assumed. *)
From S2P Require Import Prelude CLib Mq GlobalMq Handle HandleTable Timer CNum Module.
From Stdlib Require Import Ascii String.
#[local] Open Scope Z_scope.

Definition THREAD_MAIN : Z := 1.

Record skynet_context : Type := SkynetContext {
  ctx_instance : option loc;
  ctx_mod : skynet_module;
  ctx_cb_ud : option loc;
  ctx_cb : option loc;
  ctx_queue : loc;
  ctx_logfile : option loc;
  ctx_cpu_cost : Z;
  ctx_cpu_start : Z;
  ctx_result : string;
  ctx_handle : Z;
  ctx_session_id : Z;
  ctx_ref : Z;
  ctx_message_count : Z;
  ctx_init : bool;
  ctx_endless : bool;
  ctx_profile : bool
}.

Record remote_name : Type := RemoteName { rname : list Z; rhandle : Z }.
Record remote_message : Type := RemoteMessage {
  destination : remote_name;
  message : option loc;
  rsz : Z;
  rtype : Z
}.
(** on the 64-bit platforms of the Makefile *)
Definition sizeof_remote_message : Z := 48.

(** a live block of the heap: bytes, or a message for the harbor *)
Inductive block : Type :=
  | Bytes (l : list Z)
  | Remote (r : remote_message).

Record skynet_monitor : Type := SkynetMonitor {
  version : Z;
  check_version : Z;
  mon_source : Z;
  mon_destination : Z
}.

(** [skynet_node] and the static variables of the files of skynet-src *)
Record node : Type := Node {
  contexts : gmap loc skynet_context;
  mq : mq_store;
  storage : handle_storage;
  TI : timer;
  M : modules;
  heap : gmap loc block;
  env : gmap string string;
  files : gmap loc string;
  monitors : gmap loc skynet_monitor;
  total : Z;
  monitor_exit : Z;
  node_profile : bool;
  HARBOR : Z;
  REMOTE : option loc;
  logger : Z
}.

Definition set_contexts v w := Node v (mq w) (storage w) (TI w) (M w) (heap w) (env w) (files w)
  (monitors w) (total w) (monitor_exit w) (node_profile w) (HARBOR w) (REMOTE w) (logger w).
Definition set_mq v w := Node (contexts w) v (storage w) (TI w) (M w) (heap w) (env w) (files w)
  (monitors w) (total w) (monitor_exit w) (node_profile w) (HARBOR w) (REMOTE w) (logger w).
Definition set_storage v w := Node (contexts w) (mq w) v (TI w) (M w) (heap w) (env w) (files w)
  (monitors w) (total w) (monitor_exit w) (node_profile w) (HARBOR w) (REMOTE w) (logger w).
Definition set_TI v w := Node (contexts w) (mq w) (storage w) v (M w) (heap w) (env w) (files w)
  (monitors w) (total w) (monitor_exit w) (node_profile w) (HARBOR w) (REMOTE w) (logger w).
Definition set_M v w := Node (contexts w) (mq w) (storage w) (TI w) v (heap w) (env w) (files w)
  (monitors w) (total w) (monitor_exit w) (node_profile w) (HARBOR w) (REMOTE w) (logger w).
Definition set_heap v w := Node (contexts w) (mq w) (storage w) (TI w) (M w) v (env w) (files w)
  (monitors w) (total w) (monitor_exit w) (node_profile w) (HARBOR w) (REMOTE w) (logger w).
Definition set_env v w := Node (contexts w) (mq w) (storage w) (TI w) (M w) (heap w) v (files w)
  (monitors w) (total w) (monitor_exit w) (node_profile w) (HARBOR w) (REMOTE w) (logger w).
Definition set_files v w := Node (contexts w) (mq w) (storage w) (TI w) (M w) (heap w) (env w) v
  (monitors w) (total w) (monitor_exit w) (node_profile w) (HARBOR w) (REMOTE w) (logger w).
Definition set_monitors v w := Node (contexts w) (mq w) (storage w) (TI w) (M w) (heap w) (env w)
  (files w) v (total w) (monitor_exit w) (node_profile w) (HARBOR w) (REMOTE w) (logger w).
Definition set_total v w := Node (contexts w) (mq w) (storage w) (TI w) (M w) (heap w) (env w)
  (files w) (monitors w) v (monitor_exit w) (node_profile w) (HARBOR w) (REMOTE w) (logger w).
Definition set_monitor_exit v w := Node (contexts w) (mq w) (storage w) (TI w) (M w) (heap w)
  (env w) (files w) (monitors w) (total w) v (node_profile w) (HARBOR w) (REMOTE w) (logger w).
Definition set_profile v w := Node (contexts w) (mq w) (storage w) (TI w) (M w) (heap w)
  (env w) (files w) (monitors w) (total w) (monitor_exit w) v (HARBOR w) (REMOTE w) (logger w).
Definition set_HARBOR v w := Node (contexts w) (mq w) (storage w) (TI w) (M w) (heap w)
  (env w) (files w) (monitors w) (total w) (monitor_exit w) (node_profile w) v (REMOTE w) (logger w).
Definition set_REMOTE v w := Node (contexts w) (mq w) (storage w) (TI w) (M w) (heap w)
  (env w) (files w) (monitors w) (total w) (monitor_exit w) (node_profile w) (HARBOR w) v (logger w).
Definition set_logger v w := Node (contexts w) (mq w) (storage w) (TI w) (M w) (heap w)
  (env w) (files w) (monitors w) (total w) (monitor_exit w) (node_profile w) (HARBOR w) (REMOTE w) v.

(** fields of a context the server writes *)
Definition ctx_set_ref v c := SkynetContext (ctx_instance c) (ctx_mod c) (ctx_cb_ud c) (ctx_cb c)
  (ctx_queue c) (ctx_logfile c) (ctx_cpu_cost c) (ctx_cpu_start c) (ctx_result c) (ctx_handle c)
  (ctx_session_id c) v (ctx_message_count c) (ctx_init c) (ctx_endless c) (ctx_profile c).
Definition ctx_set_handle v c := SkynetContext (ctx_instance c) (ctx_mod c) (ctx_cb_ud c) (ctx_cb c)
  (ctx_queue c) (ctx_logfile c) (ctx_cpu_cost c) (ctx_cpu_start c) (ctx_result c) v
  (ctx_session_id c) (ctx_ref c) (ctx_message_count c) (ctx_init c) (ctx_endless c) (ctx_profile c).
Definition ctx_set_queue v c := SkynetContext (ctx_instance c) (ctx_mod c) (ctx_cb_ud c) (ctx_cb c)
  v (ctx_logfile c) (ctx_cpu_cost c) (ctx_cpu_start c) (ctx_result c) (ctx_handle c)
  (ctx_session_id c) (ctx_ref c) (ctx_message_count c) (ctx_init c) (ctx_endless c) (ctx_profile c).
Definition ctx_set_logfile v c := SkynetContext (ctx_instance c) (ctx_mod c) (ctx_cb_ud c) (ctx_cb c)
  (ctx_queue c) v (ctx_cpu_cost c) (ctx_cpu_start c) (ctx_result c) (ctx_handle c)
  (ctx_session_id c) (ctx_ref c) (ctx_message_count c) (ctx_init c) (ctx_endless c) (ctx_profile c).
Definition ctx_set_cpu cost start c := SkynetContext (ctx_instance c) (ctx_mod c) (ctx_cb_ud c)
  (ctx_cb c) (ctx_queue c) (ctx_logfile c) cost start (ctx_result c) (ctx_handle c)
  (ctx_session_id c) (ctx_ref c) (ctx_message_count c) (ctx_init c) (ctx_endless c) (ctx_profile c).
Definition ctx_set_result v c := SkynetContext (ctx_instance c) (ctx_mod c) (ctx_cb_ud c) (ctx_cb c)
  (ctx_queue c) (ctx_logfile c) (ctx_cpu_cost c) (ctx_cpu_start c) v (ctx_handle c)
  (ctx_session_id c) (ctx_ref c) (ctx_message_count c) (ctx_init c) (ctx_endless c) (ctx_profile c).
Definition ctx_set_session v c := SkynetContext (ctx_instance c) (ctx_mod c) (ctx_cb_ud c) (ctx_cb c)
  (ctx_queue c) (ctx_logfile c) (ctx_cpu_cost c) (ctx_cpu_start c) (ctx_result c) (ctx_handle c)
  v (ctx_ref c) (ctx_message_count c) (ctx_init c) (ctx_endless c) (ctx_profile c).
Definition ctx_set_count v c := SkynetContext (ctx_instance c) (ctx_mod c) (ctx_cb_ud c) (ctx_cb c)
  (ctx_queue c) (ctx_logfile c) (ctx_cpu_cost c) (ctx_cpu_start c) (ctx_result c) (ctx_handle c)
  (ctx_session_id c) (ctx_ref c) v (ctx_init c) (ctx_endless c) (ctx_profile c).
Definition ctx_set_init v c := SkynetContext (ctx_instance c) (ctx_mod c) (ctx_cb_ud c) (ctx_cb c)
  (ctx_queue c) (ctx_logfile c) (ctx_cpu_cost c) (ctx_cpu_start c) (ctx_result c) (ctx_handle c)
  (ctx_session_id c) (ctx_ref c) (ctx_message_count c) v (ctx_endless c) (ctx_profile c).
Definition ctx_set_endless v c := SkynetContext (ctx_instance c) (ctx_mod c) (ctx_cb_ud c) (ctx_cb c)
  (ctx_queue c) (ctx_logfile c) (ctx_cpu_cost c) (ctx_cpu_start c) (ctx_result c) (ctx_handle c)
  (ctx_session_id c) (ctx_ref c) (ctx_message_count c) (ctx_init c) v (ctx_profile c).
Definition ctx_set_cb cb ud c := SkynetContext (ctx_instance c) (ctx_mod c) ud cb
  (ctx_queue c) (ctx_logfile c) (ctx_cpu_cost c) (ctx_cpu_start c) (ctx_result c) (ctx_handle c)
  (ctx_session_id c) (ctx_ref c) (ctx_message_count c) (ctx_init c) (ctx_endless c) (ctx_profile c).

Definition load_ctx (p : loc) (w : node) : outcome skynet_context := deref (contexts w !! p).
Definition store_ctx (p : loc) (c : skynet_context) (w : node) : node :=
  set_contexts (<[p := c]> (contexts w)) w.
(** [ctx->field = ...] *)
Definition mod_ctx (p : loc) (f : skynet_context → skynet_context) (w : node) : outcome node :=
  c ← load_ctx p w; Ret (store_ctx p (f c) w).

(** ** The heap *)
Definition skynet_malloc (b : block) (w : node) : loc * node :=
  let p := fresh (dom (heap w)) in (p, set_heap (<[p := b]> (heap w)) w).
(** [free(NULL)] does nothing; freeing what is not live is undefined *)
Definition skynet_free (p : option loc) (w : node) : outcome node :=
  match p with
  | None => Ret w
  | Some p => _ ← deref (heap w !! p); Ret (set_heap (delete p (heap w)) w)
  end.
(** [n] bytes read from a block *)
Definition read_bytes (p : loc) (n : Z) (w : node) : outcome (list Z) :=
  match heap w !! p with
  | Some (Bytes l) => if bool_decide (n ≤ Zlen l) then Ret (take (Z.to_nat n) l) else Undef
  | _ => Undef
  end.
Fixpoint bytes_of (s : string) : list Z :=
  match s with EmptyString => [] | String c s => char_code c :: bytes_of s end.

Class External : Type := {
  dlopen : string → option Z;
  dlsym : Z → string → option loc;
  call_create : loc → node → outcome (option loc * node);
  call_init : loc → option loc → loc → option string → node → outcome (Z * node);
  call_release : loc → option loc → node → outcome node;
  call_signal : loc → option loc → Z → node → outcome node;
  call_cb : loc → loc → option loc → Z → Z → Z → option loc → Z → node → outcome (Z * node);
  skynet_thread_time : node → Z * node;
  fopen : string → bool;
  ctime : Z → string
}.

(** ** skynet_harbor.c: which handles are of another process *)
Definition invalid_type (type : Z) : bool :=
  bool_decide (type ≠ PTYPE_SYSTEM ∧ type ≠ PTYPE_HARBOR).
Definition skynet_harbor_message_isremote (handle : Z) (w : node) : outcome bool :=
  cassert (bool_decide (HARBOR w ≠ 2 ^ 32 - 1));;
  let h := Z.land handle (2 ^ 32 - 1 - HANDLE_MASK) in
  Ret (bool_decide (h ≠ HARBOR w ∧ h ≠ 0)).
Definition skynet_harbor_init (harbor : Z) (w : node) : node :=
  set_HARBOR (u32 (Z.shiftl harbor HANDLE_REMOTE_SHIFT)) w.
Definition skynet_isremote (handle : Z) (w : node) : outcome (bool * Z) :=
  r ← skynet_harbor_message_isremote handle w;
  Ret (r, Z.shiftr handle HANDLE_REMOTE_SHIFT).

(** ** skynet_env.c: string variables of the environment's Lua state, set once *)
Definition skynet_getenv (key : string) (w : node) : option string := env w !! key.
Definition skynet_setenv (key value : string) (w : node) : outcome node :=
  cassert (bool_decide (env w !! key = None));;
  Ret (set_env (<[key := value]> (env w)) w).

(** ** Reference counts *)
Definition skynet_context_total (w : node) : Z := total w.
Definition context_inc (w : node) : node := set_total (i32 (total w + 1)) w.
Definition context_dec (w : node) : node := set_total (i32 (total w - 1)) w.

Definition context_grab (p : loc) (w : node) : outcome node :=
  mod_ctx p (λ c, ctx_set_ref (i32 (ctx_ref c + 1)) c) w.
Definition skynet_context_reserve (p : loc) (w : node) : outcome node :=
  w ← context_grab p w; Ret (context_dec w).

Definition skynet_module_instance_release `{!External} (md : skynet_module) (inst : option loc)
    (w : node) : outcome node :=
  match release_fn md with Some f => call_release f inst w | None => Ret w end.

(** [fclose] *)
Definition fclose (f : loc) (w : node) : outcome node :=
  _ ← deref (files w !! f); Ret (set_files (delete f (files w)) w).

Definition delete_context `{!External} (p : loc) (w : node) : outcome node :=
  c ← load_ctx p w;
  w ← match ctx_logfile c with Some f => fclose f w | None => Ret w end;
  w ← skynet_module_instance_release (ctx_mod c) (ctx_instance c) w;
  s ← skynet_mq_mark_release (ctx_queue c) (mq w);
  let w := set_mq s w in
  Ret (context_dec (set_contexts (delete p (contexts w)) w)).

(** the context, or NULL when this was its last reference *)
Definition context_release `{!External} (p : loc) (w : node) : outcome (option loc * node) :=
  c ← load_ctx p w;
  let r := i32 (ctx_ref c - 1) in
  let w := store_ctx p (ctx_set_ref r c) w in
  if bool_decide (r = 0) then w ← delete_context p w; Ret (None, w)
  else Ret (Some p, w).

#[export] Instance node_contexts `{!External} : ContextStore node := {|
  skynet_context_handle w p := ctx_handle <$> contexts w !! p;
  skynet_context_grab := context_grab;
  skynet_context_release p w := '(_, w) ← context_release p w; Ret w
|}.
#[export] Instance node_handles : HandleWorld node :=
  {| get_handles := storage; put_handles := set_storage |}.
#[export] Instance node_handles_laws `{!External} : HandleWorldLaws node.
Proof. split; [done|by intros []|done]. Qed.
#[export] Instance node_mq : HasMq node := {| get_mq := mq; put_mq := set_mq |}.

(** [skynet_handle_grab] on the process's storage *)
Definition grab `{!External} (handle : Z) (w : node) : outcome (option loc * node) :=
  skynet_handle_grab handle (storage w) w.

(** ** Sending to a context *)
Definition context_push `{!External} (handle : Z) (msg : skynet_message) (w : node) :
    outcome (Z * node) :=
  '(r, w) ← grab handle w;
  match r with
  | None => Ret (-1, w)
  | Some p =>
      c ← load_ctx p w;
      s ← skynet_mq_push (ctx_queue c) msg (mq w);
      '(_, w) ← context_release p (set_mq s w);
      Ret (0, w)
  end.

Definition skynet_context_endless `{!External} (handle : Z) (w : node) : outcome node :=
  '(r, w) ← grab handle w;
  match r with
  | None => Ret w
  | Some p =>
      w ← mod_ctx p (ctx_set_endless true) w;
      '(_, w) ← context_release p w;
      Ret w
  end.

Definition skynet_context_send (p : loc) (msg : option loc) (sz source type session : Z) (w : node) :
    outcome node :=
  c ← load_ctx p w;
  s ← skynet_mq_push (ctx_queue c)
        (Message source session msg (Z.lor sz (u64 (Z.shiftl type MESSAGE_TYPE_SHIFT)))) (mq w);
  Ret (set_mq s w).

(** ** skynet_error.c *)
Definition LOG_MESSAGE_SIZE : Z := 256.

(** the doubling of the buffer until the formatted text of [len] characters
    and its NUL fit *)
Fixpoint error_buffer (fuel : nat) (max_size len : Z) : outcome Z :=
  match fuel with
  | O => NoFuel
  | S fuel =>
      max_size ← chk_int (max_size * 2);
      if bool_decide (len < max_size) then Ret max_size else error_buffer fuel max_size len
  end.

(** [text] is the formatted message *)
Definition error `{!External} (context : option loc) (text : string) (w : node) : outcome node :=
  w ← (if bool_decide (logger w = 0)
       then l ← skynet_handle_findname "logger" (storage w); Ret (set_logger l w)
       else Ret w);
  if bool_decide (logger w = 0) then Ret w
  else
    let len := Z.of_nat (String.length text) in
    _ ← (if bool_decide (len < LOG_MESSAGE_SIZE) then Ret LOG_MESSAGE_SIZE
         else error_buffer 24 LOG_MESSAGE_SIZE len);
    let '(data, w) := skynet_malloc (Bytes (bytes_of text ++ [0])) w in
    source ← match context with
             | None => Ret 0
             | Some p => c ← load_ctx p w; Ret (ctx_handle c)
             end;
    '(_, w) ← context_push (logger w)
                (Message source 0 (Some data) (Z.lor len (Z.shiftl PTYPE_TEXT MESSAGE_TYPE_SHIFT))) w;
    Ret w.

#[export] Instance node_services `{!External} : Services node :=
  {| skynet_context_push := context_push; skynet_error := error |}.
