(* ===== verification/Server.v ===== *)
(** * The service server: skynet-src/skynet_server.c, and its neighbours
    skynet_harbor.c, skynet_monitor.c and skynet_log.c

    Creating and releasing services, sending, dispatching the messages of a
    queue, and the text commands of a service. Every function is the sequence
    of its calls, each a transition of the process state [node]. *)
From S2P Require Import Prelude CLib Mq GlobalMq Handle HandleTable Timer CNum Module Node.
From Stdlib Require Import Ascii String.
#[local] Open Scope Z_scope.

(** the text ":" and the eight upper-case digits of a handle *)
Definition id_to_hex (id : Z) : string := String (chr 58) (show_fixed 8 true 16 id "").

(** the 16 bytes of a global name: cut, and padded with NUL *)
Definition copy_name (addr : string) : list Z :=
  take (Z.to_nat GLOBALNAME_LENGTH)
    (bytes_of addr ++ replicate (Z.to_nat GLOBALNAME_LENGTH) 0).

Definition first_char (s : string) : Z :=
  match s with EmptyString => 0 | String c _ => char_code c end.
(** [s + 1] *)
Definition tail_of (s : string) : string :=
  match s with EmptyString => EmptyString | String _ s => s end.
(** the characters ':' and '.' *)
Definition COLON : Z := 58.
Definition DOT : Z := 46.

(** ** skynet_monitor.c *)
Definition skynet_monitor_trigger (sm : loc) (source destination : Z) (w : node) : outcome node :=
  m ← deref (monitors w !! sm);
  Ret (set_monitors (<[sm := SkynetMonitor (i32 (version m + 1)) (check_version m)
                               source destination]> (monitors w)) w).

Section server.
Context `{!External}.

Definition skynet_monitor_new (w : node) : loc * node :=
  let p := fresh (dom (monitors w)) in
  (p, set_monitors (<[p := SkynetMonitor 0 0 0 0]> (monitors w)) w).

Definition skynet_monitor_check (sm : loc) (w : node) : outcome node :=
  m ← deref (monitors w !! sm);
  if bool_decide (version m = check_version m) then
    if bool_decide (mon_destination m ≠ 0) then
      w ← skynet_context_endless (mon_destination m) w;
      error None ("A message from [ :" +:+ fmt_08x (mon_source m) +:+ " ] to [ :" +:+
                  fmt_08x (mon_destination m) +:+ " ] maybe in an endless loop (version = " +:+
                  fmt_d (version m) +:+ ")") w
    else Ret w
  else Ret (set_monitors (<[sm := SkynetMonitor (version m) (version m) (mon_source m)
                                    (mon_destination m)]> (monitors w)) w).

(** ** skynet_log.c *)

(** [fprintf] on an open stream *)
Definition fprintf (f : loc) (text : string) (w : node) : outcome node :=
  s ← deref (files w !! f); Ret (set_files (<[f := s +:+ text]> (files w)) w).

Definition skynet_log_open (ctx : option loc) (handle : Z) (w : node) :
    outcome (option loc * node) :=
  match skynet_getenv "logpath" w with
  | None => Ret (None, w)
  | Some logpath =>
      let tmp := logpath +:+ "/" +:+ fmt_08x handle +:+ ".log" in
      if fopen tmp then
        let f := fresh (dom (files w)) in
        let w := set_files (<[f := EmptyString]> (files w)) w in
        let ti := skynet_starttime (TI w) + skynet_now (TI w) / 100 in
        w ← error ctx ("Open log file " +:+ tmp) w;
        w ← fprintf f ("open time: " +:+ fmt_u (u32 (skynet_now (TI w))) +:+ " " +:+ ctime ti) w;
        Ret (Some f, w)
      else w ← error ctx ("Open log file " +:+ tmp +:+ " fail") w; Ret (None, w)
  end.

Definition skynet_log_close (ctx : option loc) (f : loc) (handle : Z) (w : node) : outcome node :=
  w ← error ctx ("Close log file :" +:+ fmt_08x handle) w;
  w ← fprintf f ("close time: " +:+ fmt_u (u32 (skynet_now (TI w))) +:+ String (chr 10) "") w;
  fclose f w.

Fixpoint log_blob (l : list Z) : string :=
  match l with [] => EmptyString | b :: l => fmt_02x b +:+ log_blob l end.

(** [skynet_socket_message] in memory: three [int]s, padding, a pointer *)
Definition sizeof_socket_message : Z := 24.
Fixpoint little_endian (l : list Z) : Z :=
  match l with [] => 0 | b :: l => b + 2 ^ 8 * little_endian l end.
Definition field (l : list Z) (off len : nat) : Z := little_endian (take len (drop off l)).

(** the text "%s" prints: up to the NUL, which must be there *)
Fixpoint c_string (l : list Z) : outcome string :=
  match l with
  | [] => Undef
  | b :: l => if bool_decide (b = 0) then Ret EmptyString
              else s ← c_string l; Ret (String (chr b) s)
  end.

Definition log_socket (f : loc) (message : option loc) (sz : Z) (w : node) : outcome node :=
  p ← deref message;
  l ← match heap w !! p with Some (Bytes l) => Ret l | _ => Undef end;
  _ ← read_bytes p sizeof_socket_message w;
  w ← fprintf f ("[socket] " +:+ fmt_d (i32 (field l 0 4)) +:+ " " +:+ fmt_d (i32 (field l 4 4)) +:+
                 " " +:+ fmt_d (i32 (field l 8 4)) +:+ " ") w;
  w ← (if bool_decide (field l 16 8 = 0) then
         s ← c_string (drop (Z.to_nat sizeof_socket_message) l);
         fprintf f ("[" +:+ s +:+ "]") w
       else
         blob ← read_bytes (field l 16 8) (u64 (i32 (field l 8 4))) w;
         fprintf f (log_blob blob) w);
  fprintf f (String (chr 10) "") w.

Definition skynet_log_output (f : loc) (source type session : Z) (buffer : option loc) (sz : Z)
    (w : node) : outcome node :=
  if bool_decide (type = PTYPE_SOCKET) then log_socket f buffer sz w
  else
    blob ← (if bool_decide (sz = 0) then Ret []
            else p ← deref buffer; read_bytes p sz w);
    fprintf f (":" +:+ fmt_08x source +:+ " " +:+ fmt_d type +:+ " " +:+ fmt_d session +:+ " " +:+
               fmt_u (u32 (skynet_now (TI w))) +:+ " " +:+ log_blob blob +:+ String (chr 10) "") w.

(** ** Sessions and sending *)

(** [++ctx->session_id] on an [int] *)
Definition skynet_context_newsession (p : loc) (w : node) : outcome (Z * node) :=
  c ← load_ctx p w;
  session ← chk_int (ctx_session_id c + 1);
  if bool_decide (session ≤ 0)
  then Ret (1, store_ctx p (ctx_set_session 1 c) w)
  else Ret (session, store_ctx p (ctx_set_session session c) w).

Definition flag (type tag : Z) : bool := bool_decide (Z.land type tag ≠ 0).

(** the session, the data to send and its size with the type in the top byte *)
Definition _filter_args (context : option loc) (type session : Z) (data : option loc) (sz : Z)
    (w : node) : outcome (Z * option loc * Z * node) :=
  let needcopy := negb (flag type PTYPE_TAG_DONTCOPY) in
  let allocsession := flag type PTYPE_TAG_ALLOCSESSION in
  let type := Z.land type 0xff in
  '(session, w) ← (if allocsession
                   then cassert (bool_decide (session = 0));;
                        p ← deref context; skynet_context_newsession p w
                   else Ret (session, w));
  '(data, w) ← (match data with
                | Some p =>
                    if needcopy then
                      l ← read_bytes p sz w;
                      let '(msg, w) := skynet_malloc (Bytes (l ++ [0])) w in
                      Ret (Some msg, w)
                    else Ret (data, w)
                | None => Ret (data, w)
                end);
  Ret (session, data, Z.lor sz (Z.shiftl type MESSAGE_TYPE_SHIFT), w).

Definition skynet_harbor_send (rmsg : loc) (source session : Z) (w : node) : outcome node :=
  match heap w !! rmsg with
  | Some (Remote r) =>
      cassert (invalid_type (rtype r) && bool_decide (REMOTE w ≠ None));;
      remote ← deref (REMOTE w);
      skynet_context_send remote (Some rmsg) sizeof_remote_message source PTYPE_SYSTEM session w
  | _ => Undef
  end.

(** [data] freed when the caller gave it away *)
Definition free_given (type : Z) (data : option loc) (w : node) : outcome node :=
  if flag type PTYPE_TAG_DONTCOPY then skynet_free data w else Ret w.

(** the harbor's message: the name or handle, and the packed size split again *)
Definition remote_of (name : list Z) (handle : Z) (data : option loc) (sz : Z) : remote_message :=
  RemoteMessage (RemoteName name handle) data (Z.land sz MESSAGE_TYPE_MASK)
    (Z.shiftr sz MESSAGE_TYPE_SHIFT).

(** the own handle, for a source of 0 *)
Definition source_of (context : option loc) (source : Z) (w : node) : outcome Z :=
  if bool_decide (source = 0)
  then p ← deref context; c ← load_ctx p w; Ret (ctx_handle c)
  else Ret source.

Definition skynet_send (context : option loc) (source destination type session : Z)
    (data : option loc) (sz : Z) (w : node) : outcome (Z * node) :=
  if bool_decide (Z.land sz MESSAGE_TYPE_MASK ≠ sz) then
    w ← error context ("The message to " +:+ fmt_x destination +:+ " is too large") w;
    w ← free_given type data w;
    Ret (-2, w)
  else
    '(session, data, sz, w) ← _filter_args context type session data sz w;
    source ← source_of context source w;
    if bool_decide (destination = 0) then
      match data with
      | Some _ =>
          w ← error context "Destination address can't be 0" w;
          w ← skynet_free data w;
          Ret (-1, w)
      | None => Ret (session, w)
      end
    else
      remote ← skynet_harbor_message_isremote destination w;
      if remote : bool then
        (* the name of a message sent by handle is never read *)
        let '(rmsg, w) := skynet_malloc (Remote (remote_of [] destination data sz)) w in
        w ← skynet_harbor_send rmsg source session w;
        Ret (session, w)
      else
        '(r, w) ← context_push destination (Message source session data sz) w;
        if bool_decide (r ≠ 0) then w ← skynet_free data w; Ret (-1, w)
        else Ret (session, w).

Definition skynet_sendname (context : option loc) (source : Z) (addr : string)
    (type session : Z) (data : option loc) (sz : Z) (w : node) : outcome (Z * node) :=
  source ← source_of context source w;
  if bool_decide (first_char addr = COLON) then
    skynet_send context source (u32 (strtoul (tail_of addr) 16)) type session data sz w
  else if bool_decide (first_char addr = DOT) then
    des ← skynet_handle_findname (tail_of addr) (storage w);
    if bool_decide (des = 0) then w ← free_given type data w; Ret (-1, w)
    else skynet_send context source des type session data sz w
  else if bool_decide (Z.land sz MESSAGE_TYPE_MASK ≠ sz) then
    w ← error context ("The message to " +:+ addr +:+ " is too large") w;
    w ← free_given type data w;
    Ret (-2, w)
  else
    '(session, data, sz, w) ← _filter_args context type session data sz w;
    let '(rmsg, w) := skynet_malloc (Remote (remote_of (copy_name addr) 0 data sz)) w in
    w ← skynet_harbor_send rmsg source session w;
    Ret (session, w).

(** ** Dispatching *)

(** a message nobody will handle: its source gets an error *)
Definition drop_message (handle : Z) (msg : skynet_message) (w : node) : outcome node :=
  w ← skynet_free (data msg) w;
  cassert (bool_decide (handle ≠ 0));;
  '(_, w) ← skynet_send None handle (source msg) PTYPE_ERROR 0 None 0 w;
  Ret w.

Definition dispatch_message (p : loc) (msg : skynet_message) (w : node) : outcome node :=
  c ← load_ctx p w;
  cassert (ctx_init c);;
  let type := Z.shiftr (sz msg) MESSAGE_TYPE_SHIFT in
  let sz := Z.land (sz msg) MESSAGE_TYPE_MASK in
  w ← match ctx_logfile c with
      | Some f => skynet_log_output f (source msg) type (session msg) (data msg) sz w
      | None => Ret w
      end;
  c ← load_ctx p w;
  n ← chk_int (ctx_message_count c + 1);
  let w := store_ctx p (ctx_set_count n c) w in
  cb ← deref (ctx_cb c);
  '(reserve_msg, w) ←
    (if ctx_profile c then
       let '(start, w) := skynet_thread_time w in
       w ← mod_ctx p (λ c, ctx_set_cpu (ctx_cpu_cost c) start c) w;
       '(r, w) ← call_cb cb p (ctx_cb_ud c) type (session msg) (source msg) (data msg) sz w;
       let '(now, w) := skynet_thread_time w in
       w ← mod_ctx p (λ c, ctx_set_cpu (u64 (ctx_cpu_cost c + u64 (now - ctx_cpu_start c)))
                             (ctx_cpu_start c) c) w;
       Ret (r, w)
     else call_cb cb p (ctx_cb_ud c) type (session msg) (source msg) (data msg) sz w);
  if bool_decide (reserve_msg = 0) then skynet_free (data msg) w else Ret w.

(** before the process exits *)
Fixpoint skynet_context_dispatchall (fuel : nat) (p : loc) (q : loc) (w : node) : outcome node :=
  '(m, s) ← mq_pop_at q (mq w);
  let w := set_mq s w in
  match m with
  | None => Ret w
  | Some msg =>
      match fuel with
      | O => NoFuel
      | S fuel => w ← dispatch_message p msg w; skynet_context_dispatchall fuel p q w
      end
  end.

(** the [for] of [skynet_context_message_dispatch]: [true] when it ran [n]
    rounds, [false] when the queue was empty first *)
Fixpoint dispatch_loop (fuel : nat) (i n : Z) (sm q p : loc) (handle weight : Z) (w : node) :
    outcome (bool * node) :=
  if bool_decide (i < n) then
    match fuel with
    | O => NoFuel
    | S fuel =>
        '(m, s) ← mq_pop_at q (mq w);
        let w := set_mq s w in
        match m with
        | None => Ret (false, w)
        | Some msg =>
            mqr ← load_mq q (mq w);
            let n := if bool_decide (i = 0 ∧ 0 ≤ weight)
                     then Z.shiftr (skynet_mq_length mqr) weight else n in
            let '(overload, mqr) := skynet_mq_overload mqr in
            let w := set_mq (store_mq q mqr (mq w)) w in
            w ← (if bool_decide (overload ≠ 0)
                 then error (Some p) ("May overload, message queue length = " +:+ fmt_d overload) w
                 else Ret w);
            w ← skynet_monitor_trigger sm (source msg) handle w;
            c ← load_ctx p w;
            w ← match ctx_cb c with
                | None => skynet_free (data msg) w
                | Some _ => dispatch_message p msg w
                end;
            w ← skynet_monitor_trigger sm 0 0 w;
            dispatch_loop fuel (i + 1) n sm q p handle weight w
        end
    end
  else Ret (true, w).

Definition globalmq_pop (w : node) : outcome (option loc * node) :=
  '(q, s) ← skynet_globalmq_pop (mq w); Ret (q, set_mq s w).

(** the work on a queue: the queue to go on with *)
Definition dispatch_queue (sm q : loc) (weight : Z) (w : node) : outcome (option loc * node) :=
  mqr ← load_mq q (mq w);
  let handle := skynet_mq_handle mqr in
  '(r, w) ← grab handle w;
  match r with
  | None => w ← skynet_mq_release q (drop_message handle) w; globalmq_pop w
  | Some p =>
      '(ran, w) ← dispatch_loop (S (Z.to_nat (skynet_mq_length mqr))) 0 1 sm q p handle weight w;
      if ran : bool then
        c ← load_ctx p w;
        cassert (bool_decide (q = ctx_queue c));;
        '(nq, w) ← globalmq_pop w;
        '(next, w) ← (match nq with
                      | Some _ => s ← skynet_globalmq_push q (mq w); Ret (nq, set_mq s w)
                      | None => Ret (Some q, w)
                      end);
        '(_, w) ← context_release p w;
        Ret (next, w)
      else '(_, w) ← context_release p w; globalmq_pop w
  end.

Definition skynet_context_message_dispatch (sm : loc) (q : option loc) (weight : Z) (w : node) :
    outcome (option loc * node) :=
  match q with
  | Some q => dispatch_queue sm q weight w
  | None =>
      '(q, w) ← globalmq_pop w;
      match q with
      | Some q => dispatch_queue sm q weight w
      | None => Ret (None, w)
      end
  end.

(** ** Creating a service *)
Definition skynet_module_instance_create (md : skynet_module) (w : node) :
    outcome (option loc * node) :=
  match create_fn md with
  | Some f => call_create f w
  | None => Ret (Some (2 ^ 64 - 1), w)
  end.

(** the fields of a fresh context; the queue is set after the registration *)
Definition new_context (md : skynet_module) (inst : option loc) (profile : bool) : skynet_context :=
  SkynetContext inst md None None 0 None 0 0 "" 0 0 2 0 false false profile.

Definition skynet_context_new (name : string) (param : option string) (w : node) :
    outcome (option loc * node) :=
  '(md, M') ← skynet_module_query dlopen dlsym name (M w);
  let w := set_M M' w in
  match md with
  | None => Ret (None, w)
  | Some md =>
      '(inst, w) ← skynet_module_instance_create md w;
      match inst with
      | None => Ret (None, w)
      | Some _ =>
          let p := fresh (dom (contexts w)) in
          let w := store_ctx p (new_context md inst (node_profile w)) w in
          '(handle, s) ← skynet_handle_register p w (storage w);
          w ← mod_ctx p (ctx_set_handle handle) (set_storage s w);
          let queue := fresh (dom (mqs (mq w))) in
          let w := set_mq (store_mq queue (skynet_mq_create handle) (mq w)) w in
          w ← mod_ctx p (ctx_set_queue queue) w;
          let w := context_inc w in
          f ← deref (init_fn md);
          '(r, w) ← call_init f inst p param w;
          if bool_decide (r = 0) then
            '(ret, w) ← context_release p w;
            w ← (match ret with Some p => mod_ctx p (ctx_set_init true) w | None => Ret w end);
            s ← skynet_globalmq_push queue (mq w);
            let w := set_mq s w in
            w ← (match ret with
                 | Some _ => error ret ("LAUNCH " +:+ name +:+ " " +:+ default EmptyString param) w
                 | None => Ret w
                 end);
            Ret (ret, w)
          else
            w ← error (Some p) ("FAILED launch " +:+ name) w;
            c ← load_ctx p w;
            let handle := ctx_handle c in
            '(_, w) ← context_release p w;
            '(_, w) ← skynet_handle_retire handle w;
            w ← skynet_mq_release queue (drop_message handle) w;
            Ret (None, w)
      end
  end.
End server.
