(* ===== verification/Command.v ===== *)
(** * The text commands of a service: skynet-src/skynet_server.c

    [skynet_command] finds the handler of a command by its name; a handler
    takes the parameter string, NULL allowed for some, and returns a string or
    NULL. The string [context->result] holds is returned with the new state. *)
From S2P Require Import Prelude CLib Mq GlobalMq Handle HandleTable Timer CNum Module Node Server.
From Stdlib Require Import Ascii String.
#[local] Open Scope Z_scope.

Section commands.
Context `{!External}.

Abbreviation reply := (outcome (option string * node)).

(** [sprintf(context->result, ...); return context->result] *)
Definition reply_result (ctx : loc) (text : string) (w : node) : reply :=
  w ← mod_ctx ctx (ctx_set_result text) w; Ret (Some text, w).

(** a name given through the process's handle table *)
Definition namehandle (handle : Z) (nm : string) (w : node) : reply :=
  '(r, s) ← skynet_handle_namehandle handle nm (storage w); Ret (r, set_storage s w).

Definition skynet_queryname (ctx : loc) (name : string) (w : node) : outcome (Z * node) :=
  if bool_decide (first_char name = COLON) then Ret (u32 (strtoul (tail_of name) 16), w)
  else if bool_decide (first_char name = DOT) then
    h ← skynet_handle_findname (tail_of name) (storage w); Ret (h, w)
  else w ← error (Some ctx) ("Don't support query global name " +:+ name) w; Ret (0, w).

Definition handle_exit (ctx : loc) (handle : Z) (w : node) : outcome node :=
  '(handle, w) ← (if bool_decide (handle = 0) then
                    c ← load_ctx ctx w;
                    w ← error (Some ctx) "KILL self" w;
                    Ret (ctx_handle c, w)
                  else w ← error (Some ctx) ("KILL :" +:+ fmt_x handle) w; Ret (handle, w));
  w ← (if bool_decide (monitor_exit w ≠ 0) then
         '(_, w) ← skynet_send (Some ctx) handle (monitor_exit w) PTYPE_CLIENT 0 None 0 w; Ret w
       else Ret w);
  '(_, w) ← skynet_handle_retire handle w;
  Ret w.

(** the timer of the process; a push may run code that sets timers, so the
    timer is stored back only when this call added to it *)
Definition timeout (handle ti session : Z) (w : node) : outcome node :=
  '(_, T, w) ← skynet_timeout handle ti session (TI w) w;
  Ret (if bool_decide (0 < ti) then set_TI T w else w).

Definition cmd_timeout (ctx : loc) (param : string) (w : node) : reply :=
  let ti := i32 (strtol param 10) in
  '(session, w) ← skynet_context_newsession ctx w;
  c ← load_ctx ctx w;
  w ← timeout (ctx_handle c) ti session w;
  reply_result ctx (fmt_d session) w.

Definition cmd_reg (ctx : loc) (param : option string) (w : node) : reply :=
  c ← load_ctx ctx w;
  match param with
  | None | Some EmptyString => reply_result ctx (":" +:+ fmt_x (ctx_handle c)) w
  | Some param =>
      if bool_decide (first_char param = DOT) then namehandle (ctx_handle c) (tail_of param) w
      else
        w ← error (Some ctx) ("Can't register global name " +:+ param +:+ " in C") w;
        Ret (None, w)
  end.

Definition cmd_query (ctx : loc) (param : string) (w : node) : reply :=
  if bool_decide (first_char param = DOT) then
    handle ← skynet_handle_findname (tail_of param) (storage w);
    if bool_decide (handle ≠ 0) then reply_result ctx (":" +:+ fmt_x handle) w else Ret (None, w)
  else Ret (None, w).

(** a word [sscanf] did not fill is an uninitialised array *)
Definition cmd_name (ctx : loc) (param : string) (w : node) : reply :=
  '(name, rest) ← deref (scan_word param);
  '(handle, _) ← deref (scan_word rest);
  if bool_decide (first_char handle ≠ COLON) then Ret (None, w)
  else
    let handle_id := u32 (strtoul (tail_of handle) 16) in
    if bool_decide (handle_id = 0) then Ret (None, w)
    else if bool_decide (first_char name = DOT) then namehandle handle_id (tail_of name) w
    else w ← error (Some ctx) ("Can't set global name " +:+ name +:+ " in C") w; Ret (None, w).

Definition cmd_exit (ctx : loc) (w : node) : reply :=
  w ← handle_exit ctx 0 w; Ret (None, w).

Definition tohandle (ctx : loc) (param : string) (w : node) : outcome (Z * node) :=
  if bool_decide (first_char param = COLON) then Ret (u32 (strtoul (tail_of param) 16), w)
  else if bool_decide (first_char param = DOT) then
    h ← skynet_handle_findname (tail_of param) (storage w); Ret (h, w)
  else w ← error (Some ctx) ("Can't convert " +:+ param +:+ " to handle") w; Ret (0, w).

Definition cmd_kill (ctx : loc) (param : string) (w : node) : reply :=
  '(handle, w) ← tohandle ctx param w;
  if bool_decide (handle ≠ 0) then w ← handle_exit ctx handle w; Ret (None, w)
  else Ret (None, w).

(** [strsep]: the text before the first delimiter, and after it when there is one *)
Fixpoint strsep (delim : ascii → bool) (s : string) : string * option string :=
  match s with
  | EmptyString => (EmptyString, None)
  | String c s' => if delim c then (EmptyString, Some s')
                   else let '(a, b) := strsep delim s' in (String c a, b)
  end.
Definition is_blank (c : ascii) : bool :=
  let c := char_code c in bool_decide (c = 32 ∨ c = 9 ∨ c = 13 ∨ c = 10).
Definition is_eol (c : ascii) : bool :=
  let c := char_code c in bool_decide (c = 13 ∨ c = 10).

Definition cmd_launch (ctx : loc) (param : string) (w : node) : reply :=
  let '(md, args) := strsep is_blank param in
  let args := match args with Some a => Some (strsep is_eol a).1 | None => None end in
  '(inst, w) ← skynet_context_new md args w;
  match inst with
  | None => Ret (None, w)
  | Some p => c ← load_ctx p w; reply_result ctx (id_to_hex (ctx_handle c)) w
  end.

Definition cmd_getenv (param : string) (w : node) : reply := Ret (skynet_getenv param w, w).

(** the key is the text before the first space, the value everything after it *)
Definition cmd_setenv (param : string) (w : node) : reply :=
  match split_at 32 param with
  | (key, String _ value) => w ← skynet_setenv key value w; Ret (None, w)
  | (_, EmptyString) => Ret (None, w)
  end.

Definition cmd_starttime (ctx : loc) (w : node) : reply :=
  reply_result ctx (fmt_u (skynet_starttime (TI w))) w.

(** two passes over the handles, as [handle_retireall_correct] shows *)
Definition cmd_abort (w : node) : reply := w ← skynet_handle_retireall 2 w; Ret (None, w).

Definition cmd_monitor (ctx : loc) (param : option string) (w : node) : reply :=
  match param with
  | None | Some EmptyString =>
      if bool_decide (monitor_exit w ≠ 0)
      then reply_result ctx (":" +:+ fmt_x (monitor_exit w)) w
      else Ret (None, w)
  | Some param =>
      '(handle, w) ← tohandle ctx param w; Ret (None, set_monitor_exit handle w)
  end.

(** "%lf" of a number of microseconds, in seconds *)
Definition fmt_seconds (us : Z) : string :=
  fmt_u (us / 1000000) +:+ "." +:+ show_fixed 6 false 10 us "".

Definition cmd_stat (ctx : loc) (param : string) (w : node) : reply :=
  c ← load_ctx ctx w;
  if bool_decide (strcmp param "mqlen" = 0) then
    q ← load_mq (ctx_queue c) (mq w);
    reply_result ctx (fmt_d (skynet_mq_length q)) w
  else if bool_decide (strcmp param "endless" = 0) then
    if ctx_endless c
    then '(r, w) ← reply_result ctx "1" w; w ← mod_ctx ctx (ctx_set_endless false) w; Ret (r, w)
    else reply_result ctx "0" w
  else if bool_decide (strcmp param "cpu" = 0) then reply_result ctx (fmt_seconds (ctx_cpu_cost c)) w
  else if bool_decide (strcmp param "time" = 0) then
    if ctx_profile c then
      let '(now, w) := skynet_thread_time w in
      reply_result ctx (fmt_seconds (u64 (now - ctx_cpu_start c))) w
    else reply_result ctx "0" w
  else if bool_decide (strcmp param "message" = 0)
  then reply_result ctx (fmt_d (ctx_message_count c)) w
  else reply_result ctx "" w.

Definition cmd_logon (ctx : loc) (param : string) (w : node) : reply :=
  '(handle, w) ← tohandle ctx param w;
  if bool_decide (handle = 0) then Ret (None, w)
  else
    '(r, w) ← grab handle w;
    match r with
    | None => Ret (None, w)
    | Some p =>
        c ← load_ctx p w;
        w ← match ctx_logfile c with
            | Some _ => Ret w
            | None =>
                '(f, w) ← skynet_log_open (Some ctx) handle w;
                match f with
                | None => Ret w
                | Some f =>
                    (* ATOM_CAS_POINTER *)
                    c ← load_ctx p w;
                    match ctx_logfile c with
                    | None => Ret (store_ctx p (ctx_set_logfile (Some f) c) w)
                    | Some _ => fclose f w
                    end
                end
            end;
        '(_, w) ← context_release p w;
        Ret (None, w)
    end.

Definition cmd_logoff (ctx : loc) (param : string) (w : node) : reply :=
  '(handle, w) ← tohandle ctx param w;
  if bool_decide (handle = 0) then Ret (None, w)
  else
    '(r, w) ← grab handle w;
    match r with
    | None => Ret (None, w)
    | Some p =>
        c ← load_ctx p w;
        w ← match ctx_logfile c with
            | None => Ret w
            | Some f =>
                skynet_log_close (Some ctx) f handle (store_ctx p (ctx_set_logfile None c) w)
            end;
        '(_, w) ← context_release p w;
        Ret (None, w)
    end.

Definition skynet_module_instance_signal (md : skynet_module) (inst : option loc) (sig : Z)
    (w : node) : outcome node :=
  match signal_fn md with Some f => call_signal f inst sig w | None => Ret w end.

Definition cmd_signal (ctx : loc) (param : string) (w : node) : reply :=
  '(handle, w) ← tohandle ctx param w;
  if bool_decide (handle = 0) then Ret (None, w)
  else
    '(r, w) ← grab handle w;
    match r with
    | None => Ret (None, w)
    | Some p =>
        let sig := match strchr 32 param with Some s => i32 (strtol s 0) | None => 0 end in
        c ← load_ctx p w;
        w ← skynet_module_instance_signal (ctx_mod c) (ctx_instance c) sig w;
        '(_, w) ← context_release p w;
        Ret (None, w)
    end.

Definition command : Type := loc → option string → node → reply.
(** a handler that reads its parameter: NULL is a crash *)
Definition need (f : string → node → reply) (param : option string) (w : node) : reply :=
  param ← deref param; f param w.

Definition cmd_funcs : list (string * command) := [
  ("TIMEOUT"%string, λ ctx, need (cmd_timeout ctx));
  ("REG"%string, cmd_reg);
  ("QUERY"%string, λ ctx, need (cmd_query ctx));
  ("NAME"%string, λ ctx, need (cmd_name ctx));
  ("EXIT"%string, λ ctx _, cmd_exit ctx);
  ("KILL"%string, λ ctx, need (cmd_kill ctx));
  ("LAUNCH"%string, λ ctx, need (cmd_launch ctx));
  ("GETENV"%string, λ _, need cmd_getenv);
  ("SETENV"%string, λ _, need cmd_setenv);
  ("STARTTIME"%string, λ ctx _, cmd_starttime ctx);
  ("ABORT"%string, λ _ _, cmd_abort);
  ("MONITOR"%string, cmd_monitor);
  ("STAT"%string, λ ctx, need (cmd_stat ctx));
  ("LOGON"%string, λ ctx, need (cmd_logon ctx));
  ("LOGOFF"%string, λ ctx, need (cmd_logoff ctx));
  ("SIGNAL"%string, λ ctx, need (cmd_signal ctx))
].

Fixpoint find_command (l : list (string * command)) (cmd : string) : option command :=
  match l with
  | [] => None
  | (name, f) :: l => if bool_decide (strcmp cmd name = 0) then Some f else find_command l cmd
  end.

Definition skynet_command (ctx : loc) (cmd : string) (param : option string) (w : node) : reply :=
  match find_command cmd_funcs cmd with
  | Some f => f ctx param w
  | None => Ret (None, w)
  end.
End commands.

(** ** Start and stop *)
Definition skynet_callback (ctx : loc) (ud cb : option loc) (w : node) : outcome node :=
  mod_ctx ctx (ctx_set_cb cb ud) w.
Definition skynet_harbor_start (ctx : loc) (w : node) : outcome node :=
  w ← skynet_context_reserve ctx w; Ret (set_REMOTE (Some ctx) w).
Definition skynet_harbor_exit `{!External} (w : node) : outcome node :=
  match REMOTE w with
  | None => Ret (set_REMOTE None w)
  | Some p => '(_, w) ← context_release p (set_REMOTE None w); Ret w
  end.

(** the globals before the first service: [skynet_globalinit] and the calls of
    [skynet_start] up to [skynet_profile_enable] *)
Definition skynet_globals (harbor : Z) (module_path : string) (profile : bool)
    (sec cs cp : Z) (env : gmap string string) : node :=
  Node ∅ skynet_mq_init (skynet_handle_init harbor) (skynet_timer_init sec cs cp)
    (skynet_module_init module_path) ∅ env ∅ ∅ 0 0 profile
    (u32 (Z.shiftl harbor HANDLE_REMOTE_SHIFT)) None 0.
