(* ===== verification/ServerSpec.v ===== *)
(** * Sending, handles and reference counts

    What a send does to the queue of its destination and to the memory of the
    message on every branch, how handles are told apart and written as text,
    and what the last release of a context does. *)
From S2P Require Import Prelude CLib Mq GlobalMq Handle NameTable HandleTable Timer CNum Module Node Server Command.
From Stdlib Require Import Ascii String.
#[local] Open Scope Z_scope.

Lemma i32_add x y : i32 (i32 x + y) = i32 (x + y).
Proof.
  unfold i32. f_equal.
  replace ((x + 2 ^ 31) mod 2 ^ 32 - 2 ^ 31 + y + 2 ^ 31) with ((x + 2 ^ 31) mod 2 ^ 32 + y) by lia.
  rewrite Zplus_mod_idemp_l. f_equal. lia.
Qed.

Lemma set_contexts_id w : set_contexts (contexts w) w = w.
Proof. by destruct w. Qed.

Lemma ctx_set_ref_id c : ctx_set_ref (ctx_ref c) c = c.
Proof. by destruct c. Qed.

Section spec.
Context `{!External}.
Abbreviation hof := skynet_context_handle.
Implicit Types (w : node) (p : loc) (h : Z).

(** ** Grabbing and giving back *)

(** [h] leads to the live context [c] at [p], whose count cannot overflow *)
Definition serves (w : node) (h : Z) (p : loc) (c : skynet_context) : Prop :=
  registered (hof w) (storage w) h p ∧ contexts w !! p = Some c ∧ 0 < ctx_ref c < INT_MAX.

Lemma grab_serves w h p c : slots_inv (hof w) (storage w) → serves w h p c →
  grab h w = Ret (Some p, store_ctx p (ctx_set_ref (ctx_ref c + 1) c) w).
Proof.
  intros Hs (Hr & Hc & Hb). unfold grab, skynet_handle_grab.
  destruct (slot_lookup_spec _ _ h Hs) as (r & E & Hiff). rewrite E.
  apply Hiff in Hr as ->. cbn [mbind outcome_bind].
  change (skynet_context_grab p w) with (context_grab p w).
  unfold context_grab, mod_ctx, load_ctx. rewrite Hc. cbn [deref mbind outcome_bind].
  rewrite i32_small by (unfold INT_MAX in *; lia). done.
Qed.

Lemma grab_none w h : slots_inv (hof w) (storage w) →
  (∀ p, ¬ registered (hof w) (storage w) h p) → grab h w = Ret (None, w).
Proof.
  intros Hs Hn. unfold grab, skynet_handle_grab.
  destruct (slot_lookup_spec _ _ h Hs) as (r & E & Hiff). rewrite E.
  destruct r as [p|]; [|done]. exfalso. apply (Hn p). by apply Hiff.
Qed.

Lemma release_keeps w p c : contexts w !! p = Some c → 1 < ctx_ref c ≤ INT_MAX →
  context_release p w = Ret (Some p, store_ctx p (ctx_set_ref (ctx_ref c - 1) c) w).
Proof.
  intros Hc Hb. unfold context_release, load_ctx. rewrite Hc. cbn [deref mbind outcome_bind].
  rewrite i32_small by (unfold INT_MAX in *; lia). by rewrite bool_decide_eq_false_2 by lia.
Qed.

(** a reference taken and given back leaves the context as it was *)
Lemma push_serves w h p c msg : slots_inv (hof w) (storage w) → serves w h p c →
  context_push h msg w =
    s ← skynet_mq_push (ctx_queue c) msg (mq w); Ret (0, set_mq s w).
Proof.
  intros Hs Hv. unfold context_push. rewrite (grab_serves _ _ _ _ Hs Hv).
  destruct Hv as (_ & Hc & Hb). cbn [mbind outcome_bind].
  unfold load_ctx. cbn [contexts store_ctx set_contexts]. rewrite lookup_insert_eq.
  cbn [deref mbind outcome_bind ctx_queue ctx_set_ref mq store_ctx set_contexts].
  destruct (skynet_mq_push _ _ _) as [s| | |]; try done. cbn [mbind outcome_bind].
  erewrite release_keeps; [|cbn; by rewrite lookup_insert_eq|cbn; lia].
  cbn [mbind outcome_bind]. do 2 f_equal. cbn [ctx_ref ctx_set_ref].
  unfold store_ctx. cbn [contexts set_contexts set_mq]. rewrite insert_insert_eq.
  replace (ctx_set_ref (ctx_ref c + 1 - 1) (ctx_set_ref (ctx_ref c + 1) c)) with c
    by (rewrite Z.add_simpl_r; by destruct c).
  rewrite insert_id by done. by destruct w.
Qed.

Lemma push_none w h msg : slots_inv (hof w) (storage w) →
  (∀ p, ¬ registered (hof w) (storage w) h p) → context_push h msg w = Ret (-1, w).
Proof. intros Hs Hn. unfold context_push. by rewrite grab_none. Qed.

(** ** Types and sizes share a word *)
Lemma pack_size sz type : 0 ≤ sz < 2 ^ 56 → 0 ≤ type < 256 →
  Z.lor sz (Z.shiftl type MESSAGE_TYPE_SHIFT) = sz + type * 2 ^ 56.
Proof.
  intros. unfold MESSAGE_TYPE_SHIFT. rewrite Z.shiftl_mul_pow2 by lia. by apply lor_high.
Qed.

Lemma unpack_size sz type : 0 ≤ sz < 2 ^ 56 → 0 ≤ type < 256 →
  Z.land (sz + type * 2 ^ 56) MESSAGE_TYPE_MASK = sz ∧
  Z.shiftr (sz + type * 2 ^ 56) MESSAGE_TYPE_SHIFT = type.
Proof.
  intros. change MESSAGE_TYPE_MASK with (2 ^ 56 - 1). unfold MESSAGE_TYPE_SHIFT.
  rewrite land_mask, Z.shiftr_div_pow2 by lia.
  rewrite Z.mod_add, Z.mod_small, Z.div_add, Z.div_small by lia. lia.
Qed.

Lemma size_fits sz : 0 ≤ sz < 2 ^ 56 → bool_decide (Z.land sz MESSAGE_TYPE_MASK ≠ sz) = false.
Proof.
  intros. apply bool_decide_eq_false_2. change MESSAGE_TYPE_MASK with (2 ^ 56 - 1).
  rewrite land_mask, Z.mod_small by lia. lia.
Qed.

Lemma type_byte type : 0 ≤ Z.land type 0xff < 256.
Proof. change 0xff with (2 ^ 8 - 1). rewrite land_mask by lia. apply mod_range. lia. Qed.

(** ** Local handles *)
Definition local (w : node) (h : Z) : Prop := skynet_harbor_message_isremote h w = Ret false.

(** the queued message, as [dispatch_message] will take it apart *)
Definition packed (source session type : Z) (data : option loc) (sz : Z) : skynet_message :=
  Message source session data (Z.lor sz (Z.shiftl (Z.land type 0xff) MESSAGE_TYPE_SHIFT)).

(** delivering to a local handle, the failed message freed *)
Definition deliver (dst : Z) (msg : skynet_message) (w : node) : outcome (Z * node) :=
  '(r, w) ← context_push dst msg w;
  if bool_decide (r ≠ 0) then w ← skynet_free (data msg) w; Ret (-1, w)
  else Ret (session msg, w).

(** ** What a send reports to *)

(** every registered service is live, its count of references in range *)
Definition services_live (w : node) : Prop := ∀ h p,
  registered (hof w) (storage w) h p → ∃ c, contexts w !! p = Some c ∧ 0 < ctx_ref c < INT_MAX.

Lemma served_or_none w h : slots_inv (hof w) (storage w) → services_live w →
  (∃ p c, serves w h p c) ∨ ∀ p, ¬ registered (hof w) (storage w) h p.
Proof.
  intros Hs Hl. destruct (slot_lookup_spec _ _ h Hs) as ([p|] & _ & Hr).
  - left. assert (registered (hof w) (storage w) h p) as Hp by (by apply Hr).
    destruct (Hl h p Hp) as (c & Hc & Hb). by exists p, c.
  - right. intros p Hp%Hr. done.
Qed.

(** a report to the logger allocates at most its own text *)
Lemma error_keeps_heap ctx text w w' p b : slots_inv (hof w) (storage w) → services_live w →
  error ctx text w = Ret w' → heap w !! p = Some b → heap w' !! p = Some b.
Proof.
  intros Hs Hl E Hp. unfold error in E.
  destruct (if bool_decide (logger w = 0) then _ else _) as [w1| | |] eqn:E1 in E; try done.
  assert (∃ v, w1 = set_logger v w) as (v & ->).
  { destruct (bool_decide (logger w = 0)); [|exists (logger w); injection E1 as <-; by destruct w].
    destruct (skynet_handle_findname _ _) as [x| | |]; try done. exists x. cbn in E1. by injection E1 as <-. }
  cbn [mbind outcome_bind] in E. clear E1.
  destruct (bool_decide (logger (set_logger v w) = 0)); [by injection E as <-|].
  destruct (if bool_decide (_ < _) then _ else _) as [z| | |] in E; try done.
  cbn [mbind outcome_bind skynet_malloc heap set_logger] in E.
  set (w2 := set_heap _ _) in E.
  destruct (match ctx with Some _ => _ | None => _ end) as [source| | |] in E; try done.
  cbn [mbind outcome_bind] in E. change (logger w2) with v in E.
  assert (heap w2 !! p = Some b) as Hp2.
  { cbn. rewrite lookup_insert_ne; [done|]. intros Ef. apply (is_fresh (dom (heap w))).
    rewrite Ef. by eapply elem_of_dom_2. }
  destruct (served_or_none w2 v) as [(q & c & Hv)|Hn]; [done|done| |].
  - rewrite (push_serves w2 v q c) in E by done.
    destruct (skynet_mq_push _ _ _) as [s| | |]; try done.
    cbn [mbind outcome_bind] in E. injection E as <-. exact Hp2.
  - rewrite (push_none w2) in E by done. cbn [mbind outcome_bind] in E. injection E as <-. exact Hp2.
Qed.

(** two states with the same services, their session counters apart *)
Record alike (w w' : node) : Prop := {
  al_storage : storage w' = storage w;
  al_mq : mq w' = mq w;
  al_harbor : HARBOR w' = HARBOR w;
  al_contexts : ∀ p, ctx_set_session 0 <$> contexts w' !! p = ctx_set_session 0 <$> contexts w !! p
}.

Lemma alike_hof w w' p : alike w w' → hof w' p = hof w p.
Proof.
  intros Hal. pose proof (al_contexts _ _ Hal p) as E. cbn.
  destruct (contexts w' !! p) as [[]|], (contexts w !! p) as [[]|]; naive_solver.
Qed.

Lemma alike_registered w w' h p : alike w w' →
  registered (hof w') (storage w') h p ↔ registered (hof w) (storage w) h p.
Proof. intros Hal. unfold registered. by rewrite (al_storage _ _ Hal), (alike_hof w w' p Hal). Qed.

Lemma alike_slots w w' : alike w w' → slots_inv (hof w) (storage w) → slots_inv (hof w') (storage w').
Proof.
  intros Hal [A B C D E]. rewrite (al_storage _ _ Hal). split; [done..|].
  intros i c Hi Hc. rewrite (alike_hof w w' c Hal). by apply E.
Qed.

Lemma alike_live w w' : alike w w' → services_live w → services_live w'.
Proof.
  intros Hal Hl h p Hr. apply (alike_registered w w' h p Hal) in Hr.
  destruct (Hl h p Hr) as (c & Hc & Hb). pose proof (al_contexts _ _ Hal p) as E. rewrite Hc in E.
  destruct (contexts w' !! p) as [c'|]; [|done]. exists c'. split; [done|].
  destruct c, c'. naive_solver.
Qed.

Lemma alike_serves w w' h p c : alike w w' → serves w h p c →
  ∃ c', serves w' h p c' ∧ ctx_queue c' = ctx_queue c.
Proof.
  intros Hal (Hr & Hc & Hb). pose proof (al_contexts _ _ Hal p) as E. rewrite Hc in E.
  destruct (contexts w' !! p) as [c'|] eqn:Hc'; [|done]. exists c'.
  assert (ctx_ref c' = ctx_ref c ∧ ctx_queue c' = ctx_queue c) as [Er Eq] by (destruct c, c'; naive_solver).
  split; [|done]. split; [by apply (alike_registered w w')|]. split; [done|]. by rewrite Er.
Qed.

Lemma alike_local w w' h : alike w w' → local w h → local w' h.
Proof. intros Hal. unfold local, skynet_harbor_message_isremote. by rewrite (al_harbor _ _ Hal). Qed.


(** ** Sending to a local handle *)

(** the context of the caller: needed for a source of 0 and for a fresh session *)
Definition caller_of (ctx : option loc) (w : node) : option skynet_context :=
  match ctx with Some p => contexts w !! p | None => None end.
Definition has_caller (ctx : option loc) (src type : Z) (w : node) : Prop :=
  src = 0 ∨ flag type PTYPE_TAG_ALLOCSESSION = true → is_Some (caller_of ctx w).
(** a source of 0 stands for the caller *)
Definition source_sent (ctx : option loc) (src : Z) (w : node) : Z :=
  if decide (src = 0) then from_option ctx_handle 0 (caller_of ctx w) else src.
(** PTYPE_TAG_ALLOCSESSION asks for the caller's next session *)
Definition last_session (ctx : option loc) (w : node) : Z :=
  from_option ctx_session_id 0 (caller_of ctx w).
Definition session_sent (ctx : option loc) (type ses : Z) (w : node) : Z :=
  if flag type PTYPE_TAG_ALLOCSESSION then last_session ctx w + 1 else ses.
Definition session_ok (ctx : option loc) (type ses : Z) (w : node) : Prop :=
  flag type PTYPE_TAG_ALLOCSESSION = true → ses = 0 ∧ 0 ≤ last_session ctx w < INT_MAX.
Definition session_kept (ctx : option loc) (type : Z) (w : node) : node :=
  match ctx, caller_of ctx w with
  | Some p, Some c =>
      if flag type PTYPE_TAG_ALLOCSESSION then store_ctx p (ctx_set_session (ctx_session_id c + 1) c) w else w
  | _, _ => w
  end.
(** what is queued for the bytes [l] at [data], and the state with it *)
Definition copied (type : Z) (data : option loc) (l : list Z) (sz : Z) (w : node) : option loc * node :=
  match data with
  | Some _ => if flag type PTYPE_TAG_DONTCOPY then (data, w)
              else let '(p, w) := skynet_malloc (Bytes (take (Z.to_nat sz) l ++ [0])) w in (Some p, w)
  | None => (None, w)
  end.
Definition freed (data : option loc) (w : node) : node :=
  match data with Some p => set_heap (delete p (heap w)) w | None => w end.
(** after a failure: what the caller gave away is freed, what it kept is not *)
Definition given_back (type : Z) (data : option loc) (w : node) : node :=
  if flag type PTYPE_TAG_DONTCOPY then freed data w else w.
(** [data] is NULL or the address of the bytes [l] *)
Definition points_to (data : option loc) (l : list Z) (w : node) : Prop :=
  match data with Some p => heap w !! p = Some (Bytes l) | None => True end.

Lemma session_kept_alike ctx type w : alike w (session_kept ctx type w).
Proof.
  unfold session_kept. destruct ctx as [p|]; [|done].
  destruct (caller_of (Some p) w) as [c|] eqn:Ec; [|done]. destruct (flag _ _); [|done].
  split; [done..|]. intros q. cbn in *. destruct (decide (q = p)) as [->|].
  - by rewrite lookup_insert_eq, Ec.
  - by rewrite lookup_insert_ne by done.
Qed.
Lemma session_kept_heap ctx type w : heap (session_kept ctx type w) = heap w.
Proof.
  unfold session_kept. destruct ctx as [p|]; [|done]. destruct (caller_of _ w); [|done]. by destruct (flag _ _).
Qed.
Lemma copied_alike type data l sz w : alike w (copied type data l sz w).2.
Proof. unfold copied. destruct data; [|done]. by destruct (flag _ _). Qed.

Lemma session_kept_source ctx type src w : has_caller ctx src type w →
  source_of ctx src (session_kept ctx type w) = Ret (source_sent ctx src w).
Proof.
  intros Hc. unfold source_of, source_sent. destruct (decide (src = 0)) as [->|Hne].
  2:{ by rewrite bool_decide_eq_false_2. }
  rewrite bool_decide_eq_true_2 by done. destruct Hc as [c Hc]; [by left|]. rewrite Hc.
  destruct ctx as [p|]; [|done]. cbn [deref mbind outcome_bind from_option]. unfold session_kept. rewrite Hc.
  unfold load_ctx. destruct (flag _ _).
  - cbn [contexts store_ctx set_contexts]. rewrite lookup_insert_eq. by destruct c.
  - cbn in Hc. by rewrite Hc.
Qed.

(** a copied message freed again leaves the memory as it was *)
Lemma freed_copy type data l sz w : freed (copied type data l sz w).1 (copied type data l sz w).2 = given_back type data w.
Proof.
  unfold copied, given_back, freed. destruct data as [p|]; [|by destruct (flag _ _)].
  destruct (flag _ _); [done|]. cbn. rewrite delete_insert_id by (apply not_elem_of_dom, is_fresh). by destruct w.
Qed.

(** [_filter_args] on every branch of the session *)
Lemma filter_args_spec ctx src type ses data l sz w : has_caller ctx src type w →
  points_to data l w → data = None ∨ sz ≤ Zlen l →
  (session_ok ctx type ses w → _filter_args ctx type ses data sz w =
     let '(d, w') := copied type data l sz (session_kept ctx type w) in
     Ret (session_sent ctx type ses w, d, Z.lor sz (Z.shiftl (Z.land type 0xff) MESSAGE_TYPE_SHIFT), w')) ∧
  (flag type PTYPE_TAG_ALLOCSESSION = true → ses ≠ 0 → _filter_args ctx type ses data sz w = AssertFail) ∧
  (flag type PTYPE_TAG_ALLOCSESSION = true → ses = 0 → last_session ctx w = INT_MAX →
     _filter_args ctx type ses data sz w = Undef).
Proof.
  intros Hc Hp Hl. unfold _filter_args, session_ok. set (t := flag type PTYPE_TAG_ALLOCSESSION) in *.
  assert (t = true → ses = 0 → ∃ p c, ctx = Some p ∧ contexts w !! p = Some c) as Hcc.
  { intros Ht ->. destruct Hc as [c Hc]; [by right|]. destruct ctx as [p|]; [|done]. by exists p, c. }
  split; [|split].
  - intros Hok.
    assert ((if t then cassert (bool_decide (ses = 0));; p ← deref ctx; skynet_context_newsession p w
             else Ret (ses, w)) = Ret (session_sent ctx type ses w, session_kept ctx type w)) as ->.
    { unfold session_sent, session_kept. fold t. destruct t; [|destruct ctx; [by destruct (caller_of _ w)|done]].
      destruct (Hok eq_refl) as (-> & Hb). destruct Hcc as (p & c & -> & Hcw); [done..|].
      cbn in *. rewrite Hcw in *. cbn in *. unfold skynet_context_newsession, load_ctx, chk_int. rewrite Hcw.
      cbn. unfold INT_MAX in *. rewrite decide_True by lia. cbn. by rewrite bool_decide_eq_false_2 by lia. }
    cbn [mbind outcome_bind]. destruct data as [p|]; [|done]. unfold copied.
    destruct (flag type PTYPE_TAG_DONTCOPY); cbn [negb mbind outcome_bind]; [done|].
    unfold read_bytes. rewrite session_kept_heap. cbn in Hp. rewrite Hp.
    destruct Hl as [|Hl]; [done|]. by rewrite bool_decide_eq_true_2 by done.
  - intros -> Hne. by rewrite bool_decide_eq_false_2.
  - intros Ht -> Hlast. destruct Hcc as (p & c & -> & Hcw); [done..|]. rewrite Ht. cbn in *.
    rewrite Hcw in Hlast. cbn in Hlast. unfold skynet_context_newsession, load_ctx, chk_int. rewrite Hcw.
    cbn. by rewrite Hlast.
Qed.

(** C7. Sending to a local handle, on every branch: source 0 is the caller, and
    PTYPE_TAG_ALLOCSESSION takes the caller's next session. (1) A size of 2^56 or
    more is reported and refused with -2, and the message freed if it was handed over
    with PTYPE_TAG_DONTCOPY. (2) A fresh session asked for together with a session
    fails the assertion, and after session INT_MAX the counter overflows. Otherwise
    (3) a message to handle 0 is reported and refused with -1, and what would have
    been queued is freed, while NULL data to handle 0 only returns the session.
    (4) To a live destination the packed message is appended through its queue's push
    and the session returned: data handed over is queued as it is, other data as a
    fresh NUL-terminated copy, the original left alone, NULL as NULL. (5) To a handle
    nobody has, the result is -1 and the message that would have been queued is freed:
    the one handed over, or the copy, in which case the memory is what it was. *)
Theorem send_local ctx src dst type ses data l sz w :
  slots_inv (hof w) (storage w) → services_live w → local w dst → has_caller ctx src type w →
  0 ≤ sz → points_to data l w →
  let send := skynet_send ctx src dst type ses data sz w in
  (2 ^ 56 ≤ sz → send =
     w' ← error ctx ("The message to " +:+ fmt_x dst +:+ " is too large") w;
     Ret (-2, given_back type data w')) ∧
  (sz < 2 ^ 56 → data = None ∨ sz ≤ Zlen l →
    (flag type PTYPE_TAG_ALLOCSESSION = true → ses ≠ 0 → send = AssertFail) ∧
    (flag type PTYPE_TAG_ALLOCSESSION = true → ses = 0 → last_session ctx w = INT_MAX → send = Undef) ∧
    (session_ok ctx type ses w →
      let session := session_sent ctx type ses w in
      let w1 := session_kept ctx type w in
      let '(d, w2) := copied type data l sz w1 in
      (dst = 0 → send = match data with
         | Some _ => w' ← error ctx "Destination address can't be 0" w2; Ret (-1, freed d w')
         | None => Ret (session, w1)
         end) ∧
      (dst ≠ 0 → ∀ q c, serves w dst q c → send =
         s ← skynet_mq_push (ctx_queue c) (packed (source_sent ctx src w) session type d sz) (mq w);
         Ret (session, set_mq s w2)) ∧
      (dst ≠ 0 → (∀ q, ¬ registered (hof w) (storage w) dst q) →
         send = Ret (-1, given_back type data w1)))).
Proof.
  intros Hs Hlive Hloc Hcall Hsz Hp send. split.
  - intros Hbig. unfold send, skynet_send. rewrite bool_decide_eq_true_2.
    2:{ change MESSAGE_TYPE_MASK with (2 ^ 56 - 1). rewrite land_mask by lia.
        pose proof (mod_range sz (2 ^ 56) ltac:(lia)). lia. }
    destruct (error _ _ w) as [w'| | |] eqn:Ee; try done. cbn [mbind outcome_bind].
    unfold free_given, given_back. destruct (flag _ _); [|done]. destruct data as [p|]; [|done].
    cbn. by rewrite (error_keeps_heap _ _ _ _ p (Bytes l) Hs Hlive Ee Hp).
  - intros Hlt Hl. destruct (filter_args_spec ctx src type ses data l sz w Hcall Hp Hl) as (Hok & Ha & Hu).
    unfold send, skynet_send. rewrite (size_fits sz) by lia.
    split; [intros; by rewrite Ha|]. split; [intros; by rewrite Hu|]. intros Hses. rewrite Hok by done.
    pose proof (session_kept_alike ctx type w) as A1. pose proof (copied_alike type data l sz (session_kept ctx type w)) as A2.
    pose proof (freed_copy type data l sz (session_kept ctx type w)) as Hfree.
    pose proof (session_kept_source ctx type src w Hcall) as Hsrc.
    set (w1 := session_kept ctx type w) in *.
    destruct (copied type data l sz w1) as [d w2] eqn:Ecp. cbn [fst snd] in *.
    assert (source_of ctx src w2 = Ret (source_sent ctx src w)) as Hsrc2.
    { rewrite <- Hsrc. unfold copied in Ecp. destruct data; [destruct (flag type PTYPE_TAG_DONTCOPY)|];
        cbn in Ecp; by injection Ecp as <- <-. }
    cbn [mbind outcome_bind]. rewrite Hsrc2. cbn [mbind outcome_bind].
    assert (∀ p, d = Some p → is_Some (heap w2 !! p)) as Hd.
    { intros p ->. unfold copied in Ecp. destruct data as [p'|]; [destruct (flag type PTYPE_TAG_DONTCOPY)|done];
        cbn in Ecp; injection Ecp as <- <-; [unfold w1; rewrite session_kept_heap; by eexists|].
      cbn. rewrite lookup_insert_eq. by eexists. }
    assert (slots_inv (hof w2) (storage w2)) as Hs2 by (eapply alike_slots; [exact A2|by eapply alike_slots]).
    split; [|split].
    + intros ->. rewrite bool_decide_eq_true_2 by done. destruct data as [p|].
      2:{ unfold copied in Ecp. by injection Ecp as <- <-. }
      destruct d as [p'|]; [|unfold copied in Ecp; by destruct (flag type PTYPE_TAG_DONTCOPY)].
      destruct (error _ _ w2) as [w'| | |] eqn:Ee; try done. cbn [mbind outcome_bind].
      destruct (Hd p' eq_refl) as [b Hb]. cbn.
      assert (services_live w2) as Hlive2 by (eapply alike_live; [exact A2|by eapply alike_live]).
      by rewrite (error_keeps_heap _ _ _ _ p' b Hs2 Hlive2 Ee Hb).
    + intros Hne q c Hv. rewrite bool_decide_eq_false_2 by done.
      pose proof (alike_local _ _ dst A2 (alike_local _ _ dst A1 Hloc)) as ->. cbn [mbind outcome_bind].
      destruct (alike_serves w w1 dst q c A1 Hv) as (c1 & Hv1 & E1).
      destruct (alike_serves w1 w2 dst q c1 A2 Hv1) as (c2 & Hv2 & E2).
      rewrite (push_serves w2 dst q c2) by done. rewrite E2, E1, (al_mq _ _ A2), (al_mq _ _ A1). unfold packed.
      by destruct (skynet_mq_push _ _ _).
    + intros Hne Hn. rewrite bool_decide_eq_false_2 by done.
      pose proof (alike_local _ _ dst A2 (alike_local _ _ dst A1 Hloc)) as ->. cbn [mbind outcome_bind].
      rewrite push_none; [|done|].
      2:{ intros q Hr. apply (Hn q), (alike_registered w w1 dst q A1), (alike_registered w1 w2 dst q A2), Hr. }
      cbn [mbind outcome_bind]. rewrite bool_decide_eq_true_2 by lia. rewrite <- Hfree. unfold skynet_free, freed.
      destruct d as [p|]; [|done]. by destruct (Hd p eq_refl) as [b ->].
Qed.

(** ** Handles of other processes *)
Lemma isremote_spec w h b : HARBOR w = b * 2 ^ 24 → 0 ≤ b < 256 → 0 ≤ h < 2 ^ 32 →
  skynet_harbor_message_isremote h w = Ret (bool_decide (h / 2 ^ 24 ≠ b ∧ h / 2 ^ 24 ≠ 0)).
Proof.
  intros Hb Hr Hh. unfold skynet_harbor_message_isremote.
  rewrite (bool_decide_eq_true_2 (HARBOR w ≠ 2 ^ 32 - 1)) by (rewrite Hb; lia). cbn [cassert]. rewrite Ret_bind. f_equal.
  assert (Z.land h (2 ^ 32 - 1 - HANDLE_MASK) = h / 2 ^ 24 * 2 ^ 24) as ->.
  { change (2 ^ 32 - 1 - HANDLE_MASK) with (Z.shiftl (Z.ones 8) 24).
    rewrite <- Z.shiftl_mul_pow2, <- Z.shiftr_div_pow2 by lia. apply Z.bits_inj'. intros n Hn.
    rewrite Z.land_spec. destruct (decide (n < 24)).
    - rewrite !Z.shiftl_spec_low by lia. apply andb_false_r.
    - rewrite !Z.shiftl_spec, Z.shiftr_spec by lia. replace (n - 24 + 24) with n by lia.
      destruct (decide (n < 32)); [rewrite Z.ones_spec_low by lia; by rewrite andb_true_r|].
      rewrite Z.ones_spec_high by lia. rewrite andb_false_r.
      rewrite <- (Z.mod_small h (2 ^ 32)) by lia. symmetry. apply Z.mod_pow2_bits_high. lia. }
  rewrite Hb. apply bool_decide_ext. lia.
Qed.

(** The harbor byte routes messages: a handle is remote exactly when its
    high byte is neither 0 nor the byte of this process, and the handle of a
    registered service is never remote. *)
Theorem harbor_routing w b : slots_inv (hof w) (storage w) → 0 ≤ b < 256 →
  HARBOR w = b * 2 ^ 24 → harbor (storage w) = b * 2 ^ 24 →
  (∀ h, 0 ≤ h < 2 ^ 32 → skynet_isremote h w =
     Ret (bool_decide (h / 2 ^ 24 ≠ b ∧ h / 2 ^ 24 ≠ 0), h / 2 ^ 24)) ∧
  ∀ h p, registered (hof w) (storage w) h p → local w h.
Proof.
  intros Hs Hb HH Hst. split.
  - intros h Hh. unfold skynet_isremote. rewrite (isremote_spec w h b) by done.
    cbn [mbind outcome_bind]. unfold HANDLE_REMOTE_SHIFT. by rewrite Z.shiftr_div_pow2 by lia.
  - intros h p (i & Hi & Hp & Hh). destruct (sl_ctx _ _ Hs i p Hi Hp) as (x & Hx & Hh' & _).
    rewrite Hh in Hh'. injection Hh' as ->. unfold HANDLE_MASK in Hx. rewrite Hst.
    unfold local. rewrite (isremote_spec w _ b) by (done || lia).
    rewrite Z.div_add, Z.div_small by lia. rewrite bool_decide_eq_false_2; [done|lia].
Qed.

(** ** Handles as text *)

(** Both texts of a handle, the eight digits LAUNCH returns and the plain
    hexadecimal of REG and QUERY, read back as the handle wherever an address
    is accepted. *)
Theorem handle_text_roundtrip h ctx p w : 0 ≤ h < 2 ^ 32 →
  Forall (λ text,
    skynet_queryname p text w = Ret (h, w) ∧ tohandle p text w = Ret (h, w) ∧
    ∀ src type ses d sz, src ≠ 0 →
      skynet_sendname ctx src text type ses d sz w = skynet_send ctx src h type ses d sz w)
  [id_to_hex h; ":" +:+ fmt_x h].
Proof.
  intros Hh. assert (u32 h = h) as Eh by (apply Z.mod_small; lia).
  assert (∀ text, first_char text = COLON → u32 (strtoul (tail_of text) 16) = h →
    skynet_queryname p text w = Ret (h, w) ∧ tohandle p text w = Ret (h, w) ∧
    ∀ src type ses d sz, src ≠ 0 →
      skynet_sendname ctx src text type ses d sz w = skynet_send ctx src h type ses d sz w) as Hall.
  { intros text Hc Ht. unfold skynet_queryname, tohandle, skynet_sendname, source_of.
    rewrite Hc, Ht, bool_decide_eq_true_2 by done. split; [done|]. split; [done|].
    intros src type ses d sz Hsrc. by rewrite bool_decide_eq_false_2 by done. }
  constructor; [|constructor; [|constructor]]; apply Hall; try done.
  - change (tail_of (id_to_hex h)) with (show_fixed 8 true 16 h "").
    by rewrite strtoul_fixed8 by lia.
  - change (tail_of (":" +:+ fmt_x h)) with (fmt_x h). by rewrite strtoul_fmt_x by lia.
Qed.

(** ** Sessions *)

(** Sessions are the successive positive integers, never 0, up to INT_MAX;
    the next increment overflows the [int] before the code's check for it. *)
Theorem newsession_positive p c w : contexts w !! p = Some c → 0 ≤ ctx_session_id c ≤ INT_MAX →
  skynet_context_newsession p w =
    if decide (ctx_session_id c = INT_MAX) then Undef
    else Ret (ctx_session_id c + 1, store_ctx p (ctx_set_session (ctx_session_id c + 1) c) w).
Proof.
  intros Hc Hs. unfold skynet_context_newsession, load_ctx. rewrite Hc.
  cbn [deref mbind outcome_bind]. unfold chk_int, INT_MAX in *. case_decide as E.
  - rewrite decide_False by lia. cbn [mbind outcome_bind].
    by rewrite bool_decide_eq_false_2 by lia.
  - by rewrite decide_True by lia.
Qed.

(** ** The monitor *)
Lemma serves_endless w h p c : slots_inv (hof w) (storage w) → serves w h p c →
  skynet_context_endless h w = Ret (store_ctx p (ctx_set_endless true c) w).
Proof.
  intros Hs Hv. unfold skynet_context_endless. rewrite (grab_serves _ _ _ _ Hs Hv).
  destruct Hv as (_ & Hc & Hb). cbn [mbind outcome_bind]. unfold mod_ctx, load_ctx.
  cbn [contexts store_ctx set_contexts]. rewrite lookup_insert_eq. cbn [deref mbind outcome_bind].
  erewrite release_keeps; [|cbn; by rewrite lookup_insert_eq|cbn; lia].
  cbn [mbind outcome_bind]. f_equal. unfold store_ctx. cbn [contexts set_contexts].
  rewrite !insert_insert_eq. cbn. rewrite Z.add_simpl_r. by destruct c.
Qed.

(** the triggers of a worker between two checks *)
Fixpoint triggers (sm : loc) (l : list (Z * Z)) (w : node) : outcome node :=
  match l with
  | [] => Ret w
  | (src, dst) :: l => w ← skynet_monitor_trigger sm src dst w; triggers sm l w
  end.

Lemma triggers_version sm l : ∀ w m, monitors w !! sm = Some m → - 2 ^ 31 ≤ version m < 2 ^ 31 →
  ∃ m', triggers sm l w = Ret (set_monitors (<[sm := m']> (monitors w)) w) ∧
        version m' = i32 (version m + Zlen l) ∧ check_version m' = check_version m ∧
        - 2 ^ 31 ≤ version m' < 2 ^ 31.
Proof.
  induction l as [|[src dst] l IH]; intros w m Hm Hb.
  - exists m. rewrite Zlen_nil, Z.add_0_r, i32_small by done. split; [|done].
    cbn. rewrite insert_id by done. by destruct w.
  - cbn [triggers]. unfold skynet_monitor_trigger. rewrite Hm. cbn [deref mbind outcome_bind].
    set (m1 := SkynetMonitor _ _ _ _). set (w1 := set_monitors _ _).
    assert (- 2 ^ 31 ≤ version m1 < 2 ^ 31) as Hb1.
    { cbn. unfold i32. pose proof (mod_range (version m + 1 + 2 ^ 31) (2 ^ 32) ltac:(lia)). lia. }
    destruct (IH w1 m1) as (m' & E & Hv & Hcv & Hb'); [apply lookup_insert_eq|done|].
    exists m'. split; [|split; [|by split]].
    + rewrite E. unfold w1. cbn. by rewrite insert_insert_eq.
    + rewrite Hv, Zlen_cons. cbn [version m1]. rewrite i32_add. f_equal. lia.
Qed.

(** C9. The monitor of a worker. After a check has noted the version, a worker
    that starts or finishes at least one message before the next check, and
    fewer than 2^32 of them, is never reported: the check only notes the new
    version. A worker still in the same message marks the service it serves as
    endless before the report is logged. *)
Theorem monitor_detects sm m l w : monitors w !! sm = Some m →
  - 2 ^ 31 ≤ version m < 2 ^ 31 → check_version m = version m → Zlen l < 2 ^ 32 →
  (l ≠ [] → ∃ m', (w ← triggers sm l w; skynet_monitor_check sm w) =
      Ret (set_monitors (<[sm := m']> (monitors w)) w) ∧ check_version m' = version m') ∧
  (l = [] → ∀ p c, slots_inv (hof w) (storage w) → serves w (mon_destination m) p c →
     mon_destination m ≠ 0 → ∃ text,
     (w ← triggers sm l w; skynet_monitor_check sm w) =
       error None text (store_ctx p (ctx_set_endless true c) w)).
Proof.
  intros Hm Hb Hc Hlen. split.
  - intros Hl. destruct (triggers_version sm l w m Hm Hb) as (m' & E & Hv & Hcv & Hb').
    rewrite E. cbn [mbind outcome_bind]. unfold skynet_monitor_check. cbn.
    rewrite lookup_insert_eq. cbn. rewrite bool_decide_eq_false_2.
    + eexists. rewrite insert_insert_eq. by split.
    + rewrite Hcv, Hc, Hv. unfold i32. intros E'.
      assert (1 ≤ Zlen l) by (destruct l; [done|]; rewrite Zlen_cons; pose proof (Zlen_nonneg l); lia).
      assert (((version m + 2 ^ 31) + Zlen l) mod 2 ^ 32 = (version m + 2 ^ 31 + 0) mod 2 ^ 32) as E2.
      { rewrite Z.add_0_r, (Z.mod_small (version m + 2 ^ 31)) by lia.
        replace (version m + 2 ^ 31 + Zlen l) with (version m + Zlen l + 2 ^ 31) by lia. lia. }
      apply ring_offset_inj in E2; lia.
  - intros -> p c Hs Hv Hd. cbn [triggers mbind outcome_bind]. unfold skynet_monitor_check.
    rewrite Hm. cbn [deref mbind outcome_bind]. rewrite !bool_decide_eq_true_2 by (done || lia).
    rewrite (serves_endless _ _ _ _ Hs Hv). eexists. reflexivity.
Qed.

(** ** The last reference *)

(** the state in which the release function of [c]'s module runs: the handle is out of
    the table and its names with it, the count is 0, the log file is closed *)
Record at_release (h : Z) (p : loc) (c : skynet_context) (w w1 : node) : Prop := {
  ar_slots : slots_inv (hof w1) (storage w1);
  ar_contexts : contexts w1 = <[p := ctx_set_ref 0 c]> (contexts w);
  ar_registered : ∀ h' p', registered (hof w1) (storage w1) h' p' ↔
    h' ≠ h ∧ registered (hof w) (storage w) h' p';
  ar_names : name_map (storage w1) = filter (λ kv, kv.2 ≠ h) (name_map (storage w));
  ar_files : files w1 = match ctx_logfile c with Some f => delete f (files w) | None => files w end;
  ar_mq : mq w1 = mq w;
  ar_heap : heap w1 = heap w;
  ar_total : total w1 = total w
}.

(** what a release function keeps, whatever else it does (free its instance, send, close
    sockets, retire or launch other services): the tables stay well formed, nothing is
    registered under the dead handle or at the dead context, and its queue is there *)
Record release_keeps_tables (h : Z) (p queue : loc) (hs : gset loc) (w2 : node) : Prop := {
  rk_slots : slots_inv (hof w2) (storage w2);
  rk_handle : ∀ p', ¬ registered (hof w2) (storage w2) h p';
  rk_context : ∀ h', ¬ registered (hof w2) (storage w2) h' p;
  rk_sched : ∃ ps, sched_inv (mq w2) hs ps;
  rk_queue : ∃ q, mqs (mq w2) !! queue = Some q ∧ release q = 0
}.

Lemma slots_elsewhere w2 w3 p : slots_inv (hof w2) (storage w2) →
  (∀ h, ¬ registered (hof w2) (storage w2) h p) → storage w3 = storage w2 →
  (∀ p', p' ≠ p → hof w3 p' = hof w2 p') →
  slots_inv (hof w3) (storage w3) ∧
  ∀ h p', registered (hof w3) (storage w3) h p' ↔ registered (hof w2) (storage w2) h p'.
Proof.
  intros Hs Hp Est Hother. rewrite Est.
  assert (∀ i c, 0 ≤ i → slot (storage w2) !! Z.to_nat i = Some (Some c) → hof w3 c = hof w2 c) as Hsame.
  { intros i c Hi Hc. apply Hother. intros ->. destruct (sl_ctx _ _ Hs i p Hi Hc) as (x & _ & Hh & _).
    eapply Hp. by exists i. }
  split.
  - destruct Hs as [A B C D E]. split; [done..|]. intros i c Hi Hc. rewrite (Hsame i c) by done. by apply E.
  - intros h p'. split; intros (i & Hi & Hc & Hh); exists i; by rewrite (Hsame i p') in *.
Qed.

(** giving the last reference back: the file is closed, the release function runs, the
    queue is marked and the context freed *)
Lemma release_last p w c w2 s : contexts w !! p = Some c → ctx_ref c = 1 →
  (∀ f, ctx_logfile c = Some f → is_Some (files w !! f)) →
  skynet_module_instance_release (ctx_mod c) (ctx_instance c)
    (set_files (match ctx_logfile c with Some f => delete f (files w) | None => files w end)
      (store_ctx p (ctx_set_ref 0 c) w)) = Ret w2 →
  skynet_mq_mark_release (ctx_queue c) (mq w2) = Ret s →
  context_release p w = Ret (None, context_dec (set_contexts (delete p (contexts w2)) (set_mq s w2))).
Proof.
  intros Hc Href Hlog Hrel Hm. unfold context_release, load_ctx. rewrite Hc.
  cbn [deref mbind outcome_bind]. rewrite Href. change (i32 (1 - 1)) with 0.
  rewrite bool_decide_eq_true_2 by done. unfold delete_context, load_ctx.
  assert (contexts (store_ctx p (ctx_set_ref 0 c) w) !! p = Some (ctx_set_ref 0 c)) as ->
    by apply lookup_insert_eq.
  cbn [deref mbind outcome_bind ctx_logfile ctx_set_ref ctx_mod ctx_instance ctx_queue].
  assert (match ctx_logfile c with Some f => fclose f (store_ctx p (ctx_set_ref 0 c) w)
          | None => Ret (store_ctx p (ctx_set_ref 0 c) w) end =
          Ret (set_files (match ctx_logfile c with Some f => delete f (files w) | None => files w end)
                 (store_ctx p (ctx_set_ref 0 c) w))) as ->.
  { destruct (ctx_logfile c) as [f|]; [|by destruct w]. destruct (Hlog f eq_refl) as [x Hf].
    unfold fclose. cbn [files store_ctx set_contexts]. by rewrite Hf. }
  cbn [mbind outcome_bind]. rewrite Hrel. cbn [mbind outcome_bind]. rewrite Hm. reflexivity.
Qed.

(** C8. The end of a service. Retiring a handle whose context has no other reference
    takes the handle and its names out of the table and closes the context's log file
    before the module's release function runs, which runs once, on the instance, if the
    module has one. The function is code of the service: it may change the process as it
    likes, as long as it returns and keeps the tables well formed, registers nothing
    under this handle, and leaves the context and its queue alone. Then retiring returns
    1, the context is gone and one service less counted, every registration the release
    function left stays, the handle leads nowhere, so that a push to it fails, and the
    queue is marked for release and scheduled, so that a worker will drop what it still
    holds. *)
Theorem retire_last_reference h p c w q hs ps :
  slots_inv (hof w) (storage w) → names_inv (storage w) → serves w h p c → ctx_ref c = 1 →
  (∀ f, ctx_logfile c = Some f → is_Some (files w !! f)) →
  sched_inv (mq w) hs ps → mqs (mq w) !! ctx_queue c = Some q → release q = 0 →
  (∀ f w1, release_fn (ctx_mod c) = Some f → at_release h p c w w1 →
     ∃ w2, call_release f (ctx_instance c) w1 = Ret w2 ∧ release_keeps_tables h p (ctx_queue c) hs w2) →
  ∃ w1 w2 w', at_release h p c w w1 ∧
    skynet_module_instance_release (ctx_mod c) (ctx_instance c) w1 = Ret w2 ∧
    skynet_handle_retire h w = Ret (1, w') ∧
    contexts w' = delete p (contexts w2) ∧ total w' = i32 (total w2 - 1) ∧
    heap w' = heap w2 ∧ storage w' = storage w2 ∧ files w' = files w2 ∧
    (∀ h' p', registered (hof w') (storage w') h' p' ↔ registered (hof w2) (storage w2) h' p') ∧
    (∀ msg, context_push h msg w' = Ret (-1, w')) ∧
    ∃ ps' q', sched_inv (mq w') hs ps' ∧ mqs (mq w') !! ctx_queue c = Some q' ∧ release q' = 1 ∧
      (ctx_queue c ∈ ps' ∨ ctx_queue c ∈ hs).
Proof.
  intros Hs Hn (Hr & Hc & Hb) Href Hlog Hsched Hq Hz Hrel.
  destruct Hr as (i & Hi & Hp & Hh).
  destruct (retire_locked_spec _ _ h p i Hs Hn Hi Hp Hh) as (s' & E & Hret).
  set (w1 := set_files (match ctx_logfile c with Some f => delete f (files w) | None => files w end)
               (store_ctx p (ctx_set_ref 0 c) (set_storage s' w))).
  assert (∀ p', hof w1 p' = hof w p') as Hof1.
  { intros p'. unfold w1. cbn. destruct (decide (p' = p)) as [->|].
    - rewrite lookup_insert_eq, Hc. by destruct c.
    - by rewrite lookup_insert_ne by done. }
  destruct (retired_inv _ (hof w1) _ s' h p i Hs Hi Hp Hh Hret) as [Hs1 Hreg1]; [by intros; apply Hof1|].
  assert (at_release h p c w w1) as Hat.
  { destruct Hret as (_ & _ & _ & _ & Hnames). by split; try done; apply Hnames. }
  assert (∃ w2, skynet_module_instance_release (ctx_mod c) (ctx_instance c) w1 = Ret w2 ∧
    release_keeps_tables h p (ctx_queue c) hs w2) as (w2 & E2 & [Hs2 Hh2 Hp2 (ps2 & Hsc2) (q2 & Hq2 & Hz2)]).
  { unfold skynet_module_instance_release. destruct (release_fn (ctx_mod c)) as [f|]; [by apply Hrel|].
    exists w1. split; [done|]. split; [done| | |by exists ps|by exists q].
    - intros p' [? _]%Hreg1. done.
    - intros h' Hr'. apply Hreg1 in Hr' as [Hne (j & _ & _ & Hh')]. rewrite Hh in Hh'. by injection Hh' as <-. }
  destruct (sched_mark_ok _ _ _ _ _ Hsc2 Hq2 Hz2) as (mq' & q' & Em & Hq' & Hz').
  destruct (sched_inv_mark _ _ _ _ _ Hsc2 Em) as (ps' & Hsched').
  set (w' := context_dec (set_contexts (delete p (contexts w2)) (set_mq mq' w2))).
  destruct (slots_elsewhere w2 w' p Hs2 Hp2 eq_refl) as [Hs' Hreg'].
  { intros p' Hne. cbn. by rewrite lookup_delete_ne. }
  exists w1, w2, w'. split; [done|]. split; [done|]. split.
  { unfold skynet_handle_retire. cbn [get_handles node_handles]. rewrite E.
    cbn [mbind outcome_bind put_handles node_handles skynet_context_release node_contexts].
    by rewrite (release_last p (set_storage s' w) c w2 mq'). }
  do 5 (split; [done|]). split; [exact Hreg'|]. split.
  - intros msg. apply push_none; [done|]. intros p' Hr%Hreg'. by apply (Hh2 p').
  - exists ps', q'. do 3 (split; [done|]).
    apply (ok_sched _ _ (inv_queue _ _ _ Hsched' _ _ Hq')). by right.
Qed.
End spec.

(** ** A concrete process: one service, and the server theorems on it *)
(** services that free their instance when they are released, and no files *)
#[export] Instance small_services : External := {|
  dlopen _ := None;
  dlsym _ _ := None;
  call_create _ w := Ret (Some 1, w);
  call_init _ _ _ _ w := Ret (0, w);
  call_release _ inst w := skynet_free inst w;
  call_signal _ _ _ w := Ret w;
  call_cb _ _ _ _ _ _ _ _ w := Ret (0, w);
  skynet_thread_time w := (0, w);
  fopen _ := false;
  ctime _ := EmptyString
|}.

Definition one_module : skynet_module := SkynetModule "echo" 7 None (Some 50) (Some 51) None.
Definition one_context : skynet_context :=
  SkynetContext (Some 301) one_module None (Some 60) 200 (Some 500) 0 0 "" 0x1000001 0 1 0 true false false.
Definition one_storage : handle_storage :=
  HandleStorage 0x1000000 2 4 [None; Some 100; None; None] 2 0 (replicate 2 junk_name).
Definition one_mq : mq_store :=
  store_mq 200 (skynet_mq_create 0x1000001) skynet_mq_init.
Definition one_node : node :=
  Node {[100 := one_context]} one_mq one_storage (skynet_timer_init 0 0 0)
    (skynet_module_init "./?.so") {[300 := Bytes [104; 105]; 301 := Bytes [0]]} ∅ {[500 := EmptyString]}
    {[400 := SkynetMonitor 5 5 0 0x1000001]} 1 0 false 0x1000000 None 0.

Lemma one_slots : slots_inv (skynet_context_handle one_node) (storage one_node).
Proof.
  split; [exists 2; split; [lia|done]|done|unfold HANDLE_MASK; simpl; lia| |].
  - exists 1. split; [lia|done].
  - intros i c Hi Hc. pose proof (lookup_lt_Some _ _ _ Hc) as Hlt. simpl in Hlt.
    assert (i = 0 ∨ i = 1 ∨ i = 2 ∨ i = 3) as [->|[->|[-> | ->]]] by lia; simpl in Hc; simplify_eq.
    exists 1. unfold HANDLE_MASK. split; [lia|done].
Qed.

Lemma one_names : names_inv (storage one_node).
Proof.
  split; [done|simpl; lia|unfold MAX_SLOT_SIZE; simpl; lia|]. intros i j a b Hij Ha. done.
Qed.

Lemma one_serves : serves one_node 0x1000001 100 one_context.
Proof.
  split; [exists 1; split; [lia|done]|]. split; [done|]. unfold INT_MAX. simpl. lia.
Qed.

Lemma one_sched : sched_inv (mq one_node) {[200]} [].
Proof.
  pose proof (sched_inv_create skynet_mq_init ∅ [] 200 0x1000001 sched_inv_init ltac:(done)) as Hi.
  by rewrite (right_id_L ∅ (∪)) in Hi.
Qed.

Lemma one_registered h q : registered (skynet_context_handle one_node) (storage one_node) h q →
  h = 0x1000001 ∧ q = 100.
Proof.
  intros (i & Hi & Hq & Hh). pose proof (lookup_lt_Some _ _ _ Hq) as Hlt. simpl in Hlt.
  assert (i = 0 ∨ i = 1 ∨ i = 2 ∨ i = 3) as [->|[->|[-> | ->]]] by lia; simpl in Hq; simplify_eq.
  change (Some 0x1000001 = Some h) in Hh. by injection Hh as <-.
Qed.
Lemma one_live : services_live one_node.
Proof.
  intros h q [-> ->]%one_registered. exists one_context. split; [done|]. unfold INT_MAX. simpl. lia.
Qed.

(** a copy with a fresh session to itself; a refusal by handle and by size *)
Lemma send_local_witness :
  (∃ w', skynet_send (Some 100) 0 0x1000001 PTYPE_TAG_ALLOCSESSION 0 (Some 300) 2 one_node = Ret (1, w') ∧
    heap w' = <[fresh (dom (heap one_node)) := Bytes [104; 105; 0]]> (heap one_node)) ∧
  skynet_send None 5 0x1000002 0 9 (Some 300) 2 one_node = Ret (-1, one_node) ∧
  (∃ w', skynet_send None 5 0x1000001 PTYPE_TAG_DONTCOPY 9 (Some 300) (2 ^ 56) one_node = Ret (-2, w') ∧
    heap w' = {[301 := Bytes [0]]}).
Proof.
  assert (local one_node 0x1000001 ∧ local one_node 0x1000002) as [L1 L2] by (split; reflexivity).
  split; [|split].
  - destruct (send_local (Some 100) 0 0x1000001 PTYPE_TAG_ALLOCSESSION 0 (Some 300) [104; 105] 2 one_node
      one_slots one_live L1) as (_ & E); [by eexists|done|done|].
    destruct E as (_ & _ & E); [done|by right|]. destruct E as (_ & E & _); [by split|].
    rewrite (E ltac:(done) 100 one_context one_serves).
    eexists. split; [reflexivity|reflexivity].
  - destruct (send_local None 5 0x1000002 0 9 (Some 300) [104; 105] 2 one_node one_slots one_live L2)
      as (_ & E); [by intros [|]|done|done|].
    destruct E as (_ & _ & E); [done|by right|]. destruct E as (_ & _ & E); [done|].
    apply E; [done|]. by intros q [? _]%one_registered.
  - destruct (send_local None 5 0x1000001 PTYPE_TAG_DONTCOPY 9 (Some 300) [104; 105] (2 ^ 56) one_node
      one_slots one_live L1) as (E & _); [by intros [|]|done|done|].
    rewrite E by done. eexists. split; [reflexivity|reflexivity].
Defined.

Lemma harbor_routing_witness :
  skynet_isremote 0x2000001 one_node = Ret (true, 2) ∧ local one_node 0x1000001.
Proof.
  destruct (harbor_routing one_node 1 one_slots) as [E L]; [lia|done|done|].
  split; [rewrite E by lia; reflexivity|]. apply (L _ 100). apply one_serves.
Defined.

Lemma handle_text_roundtrip_witness :
  skynet_queryname 100 (id_to_hex 0x1000abc) one_node = Ret (0x1000abc, one_node) ∧
  tohandle 100 ":1000abc" one_node = Ret (0x1000abc, one_node).
Proof.
  pose proof (handle_text_roundtrip 0x1000abc None 100 one_node ltac:(lia)) as HF.
  apply Forall_cons in HF as [(E1 & _) HF]. apply Forall_cons in HF as [(_ & E2 & _) _].
  split; [exact E1|exact E2].
Defined.

Lemma newsession_positive_witness :
  skynet_context_newsession 100 one_node =
    Ret (1, store_ctx 100 (ctx_set_session 1 one_context) one_node).
Proof.
  rewrite (newsession_positive 100 one_context one_node); [reflexivity|done|].
  unfold INT_MAX. simpl. lia.
Defined.

Lemma monitor_detects_witness : ∃ w',
  (w ← triggers 400 [(7, 0x1000001); (0, 0)] one_node; skynet_monitor_check 400 w) = Ret w'.
Proof.
  destruct (monitor_detects 400 (SkynetMonitor 5 5 0 0x1000001) [(7, 0x1000001); (0, 0)] one_node)
    as [Hl _]; [done|simpl; lia|done|reflexivity|].
  destruct Hl as (m' & E & _); [done|]. eexists. exact E.
Defined.

(** the only service goes, its instance freed and its log file closed *)
Lemma retire_last_reference_witness : ∃ w',
  skynet_handle_retire 0x1000001 one_node = Ret (1, w') ∧ contexts w' = ∅ ∧ total w' = 0 ∧
  heap w' = {[300 := Bytes [104; 105]]} ∧ files w' = ∅.
Proof.
  destruct (retire_last_reference 0x1000001 100 one_context one_node
    (skynet_mq_create 0x1000001) {[200]} [] one_slots one_names one_serves)
    as (w1 & w2 & w' & [_ Hc1 _ _ Hf1 _ Hh1 Ht1] & E2 & E & Hc & Ht & Hh & _ & Hf & _);
    [done|by intros f [= <-]|exact one_sched|done|done| |].
  - intros f w1 [= <-] [Hs1 Hc1 Hr1 _ _ Hm1 Hh1 _]. cbn. rewrite Hh1. cbn. eexists. split; [done|].
    split; [done| | |exists []|exists (skynet_mq_create 0x1000001)].
    + by intros p' [? _]%Hr1.
    + intros h' [Hne [? _]%one_registered]%Hr1. done.
    + cbn. rewrite Hm1. exact one_sched.
    + cbn. rewrite Hm1. done.
  - assert (heap w1 !! 301 = Some (Bytes [0])) as Hfree by (by rewrite Hh1).
    change (skynet_free (Some 301) w1 = Ret w2) in E2. unfold skynet_free in E2. rewrite Hfree in E2.
    cbn [deref mbind outcome_bind] in E2. injection E2 as <-. cbn in Hc, Ht, Hh, Hf.
    exists w'. split; [exact E|]. rewrite Hc, Ht, Hh, Hf, Hc1, Ht1, Hh1, Hf1.
    split; [|split; [|split]]; reflexivity.
Defined.
