(* ===== verification/DataBuffer.v ===== *)
(** * The receive buffer of a connection: service-src/databuffer.h

    The chunks that arrived on a socket, in order, and a read offset into the
    first one. The linked list of [struct message] nodes is the list [msgs]; the
    pool the nodes come from is modelled by the number of its blocks and of its
    free nodes, and [freed] records the buffers given back to the allocator. *)
From S2P Require Import Prelude.

Definition MESSAGEPOOL : Z := 1023.

(** a node in use: its buffer and the bytes in it, [size] of them *)
Record message : Type := Message { buffer : loc; bytes : list Z }.

Record databuffer : Type := Databuffer {
  header : Z;
  offset : Z;
  size : Z;
  msgs : list message
}.

Record messagepool : Type := Messagepool {
  pools : Z;
  freelist : Z;
  freed : list loc
}.

Definition messagepool_free (mp : messagepool) : messagepool := Messagepool 0 0 (freed mp).

Definition _return_message (db : databuffer) (mp : messagepool) :
    outcome (databuffer * messagepool) :=
  match msgs db with
  | [] => Undef
  | m :: l =>
      Ret (Databuffer (header db) (offset db) (size db) l,
           Messagepool (pools mp) (freelist mp + 1) (freed mp ++ [buffer m]))
  end.

Definition set_offset (o : Z) (db : databuffer) : databuffer :=
  Databuffer (header db) o (size db) (msgs db).
Definition set_size (n : Z) (db : databuffer) : databuffer :=
  Databuffer (header db) (offset db) n (msgs db).
Definition set_header (h : Z) (db : databuffer) : databuffer :=
  Databuffer h (offset db) (size db) (msgs db).

(** [n] bytes of a chunk from [off] on *)
Definition slice (l : list Z) (off n : Z) : list Z := take (Z.to_nat n) (drop (Z.to_nat off) l).

(** the [for (;;)] of [databuffer_read]; each round but the last returns a node *)
Fixpoint read_loop (fuel : nat) (db : databuffer) (mp : messagepool) (sz : Z) :
    outcome (list Z * databuffer * messagepool) :=
  match msgs db with
  | [] => Undef
  | current :: _ =>
      let bsz := Zlen (bytes current) - offset db in
      if bool_decide (sz < bsz) then
        Ret (slice (bytes current) (offset db) sz, set_offset (offset db + sz) db, mp)
      else if bool_decide (bsz = sz) then
        '(db', mp) ← _return_message (set_offset 0 db) mp;
        Ret (slice (bytes current) (offset db) sz, db', mp)
      else
        match fuel with
        | O => NoFuel
        | S fuel =>
            '(db', mp) ← _return_message db mp;
            '(rest, db', mp) ← read_loop fuel (set_offset 0 db') mp (sz - bsz);
            Ret (slice (bytes current) (offset db) bsz ++ rest, db', mp)
        end
  end.

Definition databuffer_read (db : databuffer) (mp : messagepool) (sz : Z) :
    outcome (list Z * databuffer * messagepool) :=
  cassert (bool_decide (sz ≤ size db));;
  read_loop (length (msgs db)) (set_size (size db - sz) db) mp sz.

(** a node from the free list, or from a fresh block of nodes *)
Definition take_node (mp : messagepool) : messagepool :=
  if bool_decide (freelist mp ≠ 0)
  then Messagepool (pools mp) (freelist mp - 1) (freed mp)
  else Messagepool (pools mp + 1) (MESSAGEPOOL - 1) (freed mp).

Definition databuffer_push (db : databuffer) (mp : messagepool) (data : message) :
    outcome (databuffer * messagepool) :=
  n ← chk_int (size db + Zlen (bytes data));
  Ret (Databuffer (header db) (offset db) n (msgs db ++ [data]), take_node mp).

(** a big-endian length of two or four bytes; the shift of the first of four
    into the sign bit wraps *)
Definition header_value (plen : list Z) : outcome Z :=
  match plen with
  | [a; b] => Ret (Z.lor (Z.shiftl a 8) b)
  | [a; b; c; d] =>
      Ret (i32 (Z.lor (Z.lor (Z.lor (Z.shiftl a 24) (Z.shiftl b 16)) (Z.shiftl c 8)) d))
  | _ => Undef
  end.

Definition databuffer_readheader (db : databuffer) (mp : messagepool) (header_size : Z) :
    outcome (Z * databuffer * messagepool) :=
  r ← (if bool_decide (header db = 0) then
         if bool_decide (size db < header_size) then Ret None
         else
           '(plen, db, mp) ← databuffer_read db mp header_size;
           h ← header_value plen;
           Ret (Some (set_header h db, mp))
       else Ret (Some (db, mp)));
  match r with
  | None => Ret (-1, db, mp)
  | Some (db, mp) =>
      if bool_decide (size db < header db) then Ret (-1, db, mp) else Ret (header db, db, mp)
  end.

Definition databuffer_reset (db : databuffer) : databuffer := set_header 0 db.

Fixpoint clear_loop (fuel : nat) (db : databuffer) (mp : messagepool) :
    outcome (databuffer * messagepool) :=
  match msgs db, fuel with
  | [], _ => Ret (db, mp)
  | _ :: _, O => NoFuel
  | _ :: _, S fuel => '(db, mp) ← _return_message db mp; clear_loop fuel db mp
  end.
Definition empty_buffer : databuffer := Databuffer 0 0 0 [].
Definition databuffer_clear (db : databuffer) (mp : messagepool) :
    outcome (databuffer * messagepool) :=
  '(_, mp) ← clear_loop (length (msgs db)) db mp; Ret (empty_buffer, mp).

(** ** The buffer as a stream of bytes *)
Definition stream (l : list message) : list Z := mjoin (bytes <$> l).
Definition content (db : databuffer) : list Z := drop (Z.to_nat (offset db)) (stream (msgs db)).

Definition offset_ok (o : Z) (l : list message) : Prop :=
  match l with [] => o = 0 | m :: _ => o = 0 ∨ 0 < o < Zlen (bytes m) end.

Record db_wf (db : databuffer) : Prop := {
  wf_size : size db = Zlen (content db);
  wf_offset : offset_ok (offset db) (msgs db)
}.

(** No node and no buffer is lost: the nodes of the pool are free or in the
    buffer, and every buffer pushed is still there or was freed, once, in order. *)
Definition nodes (db : databuffer) (mp : messagepool) : Z :=
  MESSAGEPOOL * pools mp - freelist mp - Zlen (msgs db).
Definition buffers (db : databuffer) (mp : messagepool) : list loc :=
  freed mp ++ (buffer <$> msgs db).

Lemma content_cons o m l : offset_ok o (m :: l) →
  drop (Z.to_nat o) (stream (m :: l)) = drop (Z.to_nat o) (bytes m) ++ stream l.
Proof.
  intros Ho. unfold stream. cbn [fmap list_fmap mjoin list_join].
  apply drop_app_le. simpl in Ho. pose proof (Zlen_nonneg (bytes m)). unfold Zlen in *. lia.
Qed.

Lemma drop_Zlen (l : list Z) o : 0 ≤ o ≤ Zlen l → Zlen (drop (Z.to_nat o) l) = Zlen l - o.
Proof. intros. unfold Zlen in *. rewrite length_drop. lia. Qed.

Lemma offset_range o m l : offset_ok o (m :: l) → 0 ≤ o ≤ Zlen (bytes m).
Proof. simpl. pose proof (Zlen_nonneg (bytes m)). lia. Qed.

Lemma read_loop_spec fuel : ∀ db mp sz, (length (msgs db) ≤ fuel)%nat → 0 < sz ≤ Zlen (content db) →
  offset_ok (offset db) (msgs db) →
  ∃ db' mp', read_loop fuel db mp sz = Ret (take (Z.to_nat sz) (content db), db', mp') ∧
    content db' = drop (Z.to_nat sz) (content db) ∧ offset_ok (offset db') (msgs db') ∧
    size db' = size db ∧ header db' = header db ∧
    nodes db' mp' = nodes db mp ∧ buffers db' mp' = buffers db mp ∧ 0 ≤ freelist mp' - freelist mp.
Proof.
  induction fuel as [|fuel IH]; intros [h o n [|m l]] mp sz Hf Hsz Ho.
  1, 3: exfalso; unfold content, Zlen in Hsz; cbn in Hsz; rewrite drop_nil in Hsz; simpl in Hsz; lia.
  { simpl in Hf. lia. }
  unfold content in *. cbn [read_loop msgs offset set_offset] in *.
  rewrite (content_cons _ _ _ Ho) in *. pose proof (offset_range _ _ _ Ho) as Hr.
  pose proof (drop_Zlen _ _ Hr) as Hd. set (rest := drop (Z.to_nat o) (bytes m)) in *.
  case_bool_decide as H1; [|case_bool_decide as H2].
  - eexists _, _. split; [f_equal; f_equal; f_equal|].
    + unfold slice. fold rest. rewrite take_app_le by (unfold Zlen in *; lia). done.
    + cbn [msgs offset set_offset]. assert (offset_ok (o + sz) (m :: l)) as Ho' by (cbn; lia).
      rewrite (content_cons _ _ _ Ho'). split; [|split_and!; done || lia].
      rewrite drop_app_le by (unfold Zlen in *; lia). unfold rest. rewrite drop_drop. do 2 f_equal. lia.
  - cbn [_return_message msgs mbind outcome_bind]. eexists _, _. split; [f_equal; f_equal; f_equal|].
    + unfold slice. fold rest. rewrite (firstn_all2 rest) by (unfold Zlen in *; lia).
      rewrite take_app_length'; [done|unfold Zlen in *; lia].
    + cbn. rewrite drop_app_length' by (unfold Zlen in *; lia).
      unfold nodes, buffers. cbn. rewrite <- app_assoc, Zlen_cons.
      split_and!; try done; try lia. destruct l; cbn; lia.
  - cbn [_return_message msgs mbind outcome_bind].
    set (db1 := set_offset 0 _). set (mp1 := Messagepool _ _ _).
    rewrite Zlen_app in Hsz.
    destruct (IH db1 mp1 (sz - (Zlen (bytes m) - o))) as (db' & mp' & E & Hc & Ho' & Hs & Hh & Hn & Hb & Hfl).
    { simpl in *. lia. }
    { change (msgs db1) with l. change (offset db1) with 0. change (Z.to_nat 0) with 0%nat. rewrite drop_0. lia. }
    { destruct l; cbn; lia. }
    exists db', mp'. rewrite E. cbn [mbind outcome_bind]. rewrite Hc. cbn in Hs, Hh, Hn, Hb, Hfl |- *.
    split; [do 3 f_equal|].
    + unfold slice. fold rest. rewrite (firstn_all2 rest) by (unfold Zlen in *; lia).
      rewrite take_app_ge by (unfold Zlen in *; lia). do 2 f_equal.
      unfold Zlen in *. lia.
    + rewrite drop_app_ge by (unfold Zlen in *; lia). split; [f_equal; unfold Zlen in *; lia|].
      split_and!; try done; try lia.
      * rewrite Hn. unfold nodes. cbn. rewrite Zlen_cons. lia.
      * rewrite Hb. unfold buffers. cbn. by rewrite <- app_assoc.
Qed.

Lemma databuffer_read_spec db mp sz : db_wf db → 0 < sz ≤ size db →
  ∃ db' mp', databuffer_read db mp sz = Ret (take (Z.to_nat sz) (content db), db', mp') ∧
    db_wf db' ∧ content db' = drop (Z.to_nat sz) (content db) ∧ size db' = size db - sz ∧
    header db' = header db ∧ nodes db' mp' = nodes db mp ∧ buffers db' mp' = buffers db mp ∧
    0 ≤ freelist mp' - freelist mp.
Proof.
  intros [Hs Ho] Hsz. unfold databuffer_read. rewrite bool_decide_eq_true_2 by lia.
  cbn [cassert]. rewrite Ret_bind.
  destruct (read_loop_spec (length (msgs db)) (set_size (size db - sz) db) mp sz)
    as (db' & mp' & E & Hc & Ho' & Hs' & Hh & Hn & Hb & Hf).
  { done. }
  { change (content (set_size _ _)) with (content db). lia. }
  { done. }
  exists db', mp'. split; [done|]. split; [|split_and!; try done]. split; [|done].
  rewrite Hs', Hc. cbn. change (content (set_size _ _)) with (content db) in *.
  rewrite drop_Zlen by lia. lia.
Qed.

Lemma databuffer_push_spec db mp d : db_wf db → 0 ≤ freelist mp →
  size db + Zlen (bytes d) ≤ INT_MAX →
  ∃ db' mp', databuffer_push db mp d = Ret (db', mp') ∧
    db_wf db' ∧ content db' = content db ++ bytes d ∧ size db' = size db + Zlen (bytes d) ∧
    header db' = header db ∧ nodes db' mp' = nodes db mp ∧
    buffers db' mp' = buffers db mp ++ [buffer d] ∧ 0 ≤ freelist mp'.
Proof.
  intros [Hs Ho] Hf Hi. unfold databuffer_push.
  pose proof (Zlen_nonneg (content db)). pose proof (Zlen_nonneg (bytes d)).
  rewrite chk_int_ok by (unfold INT_MAX in *; lia). cbn [mbind outcome_bind].
  assert (content (Databuffer (header db) (offset db) (size db + Zlen (bytes d)) (msgs db ++ [d]))
          = content db ++ bytes d) as Hc.
  { unfold content, stream. cbn. rewrite fmap_app, join_app. cbn. rewrite app_nil_r.
    destruct (msgs db) as [|m l] eqn:E.
    - simpl in *. rewrite Ho. by rewrite drop_0.
    - pose proof (offset_range _ _ _ Ho). rewrite drop_app_le; [done|].
      cbn. rewrite length_app. unfold Zlen in *. lia. }
  eexists _, _. split; [done|]. split; [split|].
  - rewrite Hc, Zlen_app. cbn. lia.
  - cbn. by destruct (msgs db) as [|m l]; [left|].
  - split; [done|]. split; [done|]. split; [done|].
    unfold nodes, buffers, take_node. cbn. rewrite fmap_app, Zlen_app, app_assoc.
    unfold Zlen at 2. case_bool_decide; cbn; split_and!; try done; unfold MESSAGEPOOL; cbn; lia.
Qed.

Lemma clear_loop_spec fuel : ∀ db mp, (length (msgs db) ≤ fuel)%nat →
  ∃ db' mp', clear_loop fuel db mp = Ret (db', mp') ∧ msgs db' = [] ∧
    nodes db' mp' = nodes db mp ∧ buffers db' mp' = buffers db mp ∧ 0 ≤ freelist mp' - freelist mp.
Proof.
  induction fuel as [|fuel IH]; intros [h o n [|m l]] mp Hf; cbn in *; try lia;
    try (eexists _, _; split_and!; done || lia).
  destruct (IH (Databuffer h o n l) (Messagepool (pools mp) (freelist mp + 1) (freed mp ++ [buffer m])))
    as (db' & mp' & E & Hm & Hn & Hb & Hfl); [cbn; lia|].
  exists db', mp'. split; [done|]. split; [done|]. rewrite Hn, Hb. unfold nodes, buffers. cbn in *.
  rewrite Zlen_cons, <- app_assoc. split_and!; done || lia.
Qed.

Lemma databuffer_clear_spec db mp :
  ∃ mp', databuffer_clear db mp = Ret (empty_buffer, mp') ∧ nodes empty_buffer mp' = nodes db mp ∧
    buffers empty_buffer mp' = buffers db mp ∧ 0 ≤ freelist mp' - freelist mp.
Proof.
  unfold databuffer_clear.
  destruct (clear_loop_spec (length (msgs db)) db mp) as (db' & mp' & -> & Hm & Hn & Hb & Hf); [done|].
  exists mp'. cbn [mbind outcome_bind]. split; [done|]. rewrite <- Hn, <- Hb.
  unfold nodes, buffers. rewrite Hm. done.
Qed.

Lemma empty_wf : db_wf empty_buffer.
Proof. by split. Qed.

(** C12. The receive buffer is a stream of bytes. Pushing a chunk appends its
    bytes; reading [sz] of the bytes there returns the first [sz], across chunk
    borders, and removes exactly them; both keep the buffer well formed.
    Clearing empties it. No operation loses a node of the pool or a buffer:
    every node is free or in use, and every buffer pushed is still in the
    stream or was freed once, in order. *)
Theorem databuffer_refines_stream db mp : db_wf db → 0 ≤ freelist mp →
  (∀ d, size db + Zlen (bytes d) ≤ INT_MAX → ∃ db' mp', databuffer_push db mp d = Ret (db', mp') ∧
     db_wf db' ∧ content db' = content db ++ bytes d ∧ nodes db' mp' = nodes db mp ∧
     buffers db' mp' = buffers db mp ++ [buffer d] ∧ 0 ≤ freelist mp') ∧
  (∀ sz, 0 < sz ≤ size db → ∃ db' mp',
     databuffer_read db mp sz = Ret (take (Z.to_nat sz) (content db), db', mp') ∧
     db_wf db' ∧ content db' = drop (Z.to_nat sz) (content db) ∧ nodes db' mp' = nodes db mp ∧
     buffers db' mp' = buffers db mp ∧ 0 ≤ freelist mp') ∧
  ∃ mp', databuffer_clear db mp = Ret (empty_buffer, mp') ∧ nodes empty_buffer mp' = nodes db mp ∧
    freed mp' = buffers db mp.
Proof.
  intros Hwf Hf. split; [|split].
  - intros d Hd. destruct (databuffer_push_spec db mp d Hwf Hf Hd)
      as (db' & mp' & E & H1 & H2 & _ & _ & H3 & H4 & H5). eauto 10.
  - intros sz Hsz. destruct (databuffer_read_spec db mp sz Hwf Hsz)
      as (db' & mp' & E & H1 & H2 & _ & _ & H3 & H4 & H5).
    exists db', mp'. split_and!; try done; try apply H1. lia.
  - destruct (databuffer_clear_spec db mp) as (mp' & E & Hn & Hb & _). exists mp'.
    split; [done|]. split; [done|]. rewrite <- Hb. unfold buffers. cbn. by rewrite app_nil_r.
Qed.

(** a buffer with an offset; a read across its two chunks *)
Definition two_chunks : databuffer :=
  Databuffer 0 1 4 [Message 100 [1; 2; 3]; Message 101 [4; 5]].

Lemma databuffer_refines_stream_witness : ∃ db' mp',
  databuffer_read two_chunks (Messagepool 1 1021 []) 3 = Ret ([2; 3; 4], db', mp') ∧
  content db' = [5] ∧ buffers db' mp' = [100; 101].
Proof.
  destruct (databuffer_refines_stream two_chunks (Messagepool 1 1021 [])) as (_ & Hr & _).
  - split; [reflexivity|]. right. simpl. unfold Zlen. simpl. lia.
  - simpl. lia.
  - destruct (Hr 3) as (db' & mp' & E & _ & Hc & _ & Hb & _); [simpl; lia|].
    exists db', mp'. split; [exact E|]. split; [exact Hc|exact Hb].
Defined.
