(* ===== verification/ServiceApi.v ===== *)
(** * What a C service calls in the core

    The functions of the core the gate and the harbor service use, as a class over
    the state [W] of everything outside of the service. A message is the bytes it
    carries; [skynet_socket_send] also stands for [skynet_socket_sendbuffer] with
    a raw pointer, whose bytes are copied before it returns. *)
From S2P Require Import Prelude CLib CNum DataBuffer.
From Stdlib Require Import Ascii String.
#[local] Open Scope Z_scope.

Class ServiceApi (W : Type) : Type := {
  (** source, destination, type, session and bytes; a negative result when the
      destination is dead *)
  skynet_send : Z → Z → Z → Z → list Z → W → outcome (Z * W);
  skynet_socket_close : Z → W → outcome W;
  skynet_socket_start : Z → W → outcome W;
  skynet_socket_send : Z → list Z → W → outcome W;
  skynet_socket_listen : string → Z → Z → W → outcome (Z * W);
  skynet_queryname : string → W → outcome (Z * W);
  skynet_error : string → W → outcome W;
  skynet_free : loc → W → outcome W;
  (** from now on the messages of the service go to its handler *)
  skynet_callback : W → outcome W;
  skynet_harbor_start : W → outcome W
}.

Fixpoint text_bytes (s : string) : list Z :=
  match s with EmptyString => [] | String c s => char_code c :: text_bytes s end.

(** the text of a byte array, up to its NUL *)
Fixpoint string_of_bytes (l : list Z) : string :=
  match l with
  | [] => EmptyString
  | b :: l => if decide (b = 0) then EmptyString else String (chr b) (string_of_bytes l)
  end.

(** a message of the socket thread: its header, and the buffer or text with it *)
Record socket_message : Type := SocketMessage {
  sm_type : Z;
  sm_id : Z;
  sm_ud : Z;
  sm_buffer : message;
  sm_text : list Z
}.
