(* ===== verification/HashId.v ===== *)
(** * The table of socket ids: service-src/hashid.h

    At most [cap] ids, each in a node of the array [id]; the nodes of one hash
    value are chained through [next]. The index of its node identifies the
    connection of an id. Pointers to nodes are their indices. *)
From S2P Require Import Prelude.

Record hashid_node : Type := HashidNode { nid : Z; nnext : option Z }.

Record hashid : Type := Hashid {
  hashmod : Z;
  hcap : Z;
  count : Z;
  ids : list hashid_node;
  hash : list (option Z)
}.

(** [while (hashcap < max) hashcap *= 2] *)
Fixpoint hash_size (fuel : nat) (hashcap max : Z) : outcome Z :=
  if bool_decide (hashcap < max) then
    match fuel with
    | O => NoFuel
    | S fuel => c ← chk_int (hashcap * 2); hash_size fuel c max
    end
  else Ret hashcap.

Definition hashid_init (max : Z) : outcome hashid :=
  hashcap ← hash_size 32 16 max;
  Ret (Hashid (hashcap - 1) max 0 (replicate (Z.to_nat max) (HashidNode (-1) None))
         (replicate (Z.to_nat hashcap) None)).

Definition hashid_clear (hi : hashid) : hashid := Hashid 1 0 0 [] [].

(** the chain walked for an id *)
Fixpoint lookup_chain (fuel : nat) (l : list hashid_node) (c : option Z) (id : Z) : outcome Z :=
  match c with
  | None => Ret (-1)
  | Some i =>
      n ← get_idx l i;
      if bool_decide (nid n = id) then Ret i
      else match fuel with O => NoFuel | S fuel => lookup_chain fuel l (nnext n) id end
  end.

Definition hashid_lookup (hi : hashid) (id : Z) : outcome Z :=
  c ← get_idx (hash hi) (Z.land id (hashmod hi));
  lookup_chain (length (ids hi)) (ids hi) c id.

(** [while (c->next)]: the node after [c] that has the id, unlinked from [c] *)
Fixpoint unlink_chain (fuel : nat) (l : list hashid_node) (c id : Z) :
    outcome (option (Z * list hashid_node)) :=
  n ← get_idx l c;
  match nnext n with
  | None => Ret None
  | Some i =>
      temp ← get_idx l i;
      if bool_decide (nid temp = id) then
        l ← set_idx l c (HashidNode (nid n) (nnext temp)); Ret (Some (i, l))
      else match fuel with O => NoFuel | S fuel => unlink_chain fuel l i id end
  end.

(** [_clear] *)
Definition clear_node (hi : hashid) (c : Z) : outcome (Z * hashid) :=
  l ← set_idx (ids hi) c (HashidNode (-1) None);
  Ret (c, Hashid (hashmod hi) (hcap hi) (count hi - 1) l (hash hi)).

Definition hashid_remove (hi : hashid) (id : Z) : outcome (Z * hashid) :=
  let h := Z.land id (hashmod hi) in
  c ← get_idx (hash hi) h;
  match c with
  | None => Ret (-1, hi)
  | Some c =>
      n ← get_idx (ids hi) c;
      if bool_decide (nid n = id) then
        hs ← set_idx (hash hi) h (nnext n);
        clear_node (Hashid (hashmod hi) (hcap hi) (count hi) (ids hi) hs) c
      else
        r ← unlink_chain (length (ids hi)) (ids hi) c id;
        match r with
        | None => Ret (-1, hi)
        | Some (c, l) => clear_node (Hashid (hashmod hi) (hcap hi) (count hi) l (hash hi)) c
        end
  end.

(** the first free node from [id % cap] on; [%] truncates *)
Fixpoint find_free (n : nat) (i : Z) (hi : hashid) (id : Z) : outcome (option Z) :=
  match n with
  | O => Ret None
  | S n =>
      s ← chk_int (i + id);
      let index := Z.rem s (hcap hi) in
      c ← get_idx (ids hi) index;
      if bool_decide (nid c = -1) then Ret (Some index) else find_free n (i + 1) hi id
  end.

Definition hashid_insert (hi : hashid) (id : Z) : outcome (Z * hashid) :=
  c ← find_free (Z.to_nat (hcap hi)) 0 hi id;
  match c with
  | None => AssertFail
  | Some c =>
      n ← get_idx (ids hi) c;
      cassert (bool_decide (nnext n = None));;
      let h := Z.land id (hashmod hi) in
      first ← get_idx (hash hi) h;
      l ← set_idx (ids hi) c (HashidNode id first);
      hs ← set_idx (hash hi) h (Some c);
      Ret (c, Hashid (hashmod hi) (hcap hi) (count hi + 1) l hs)
  end.

Definition hashid_full (hi : hashid) : bool := bool_decide (count hi = hcap hi).

(** ** Chains *)

(** [linked l c js]: following [nnext] from [c] visits the nodes [js] *)
Fixpoint linked (l : list hashid_node) (c : option Z) (js : list Z) : Prop :=
  match js with
  | [] => c = None
  | i :: js => c = Some i ∧ 0 ≤ i ∧ ∃ n, l !! Z.to_nat i = Some n ∧ linked l (nnext n) js
  end.

(** the table as the map from ids to nodes *)
Record hashid_repr (hi : hashid) (m : gmap Z Z) : Prop := {
  hr_mod : ∃ k, 4 ≤ k ≤ 30 ∧ hashmod hi = 2 ^ k - 1 ∧ Zlen (hash hi) = 2 ^ k;
  hr_cap : Zlen (ids hi) = hcap hi;
  hr_capmax : 0 < hcap hi ≤ 2 ^ 30;
  hr_count : count hi = Z.of_nat (size m);
  hr_ids : ∀ i n, 0 ≤ i → ids hi !! Z.to_nat i = Some n →
    if decide (nid n = -1) then nnext n = None else m !! nid n = Some i;
  hr_map : ∀ id i, m !! id = Some i → 0 ≤ id ∧ 0 ≤ i ∧ nid <$> ids hi !! Z.to_nat i = Some id;
  hr_chain : ∀ h, 0 ≤ h < Zlen (hash hi) → ∃ c js, hash hi !! Z.to_nat h = Some c ∧
    linked (ids hi) c js ∧ NoDup js ∧
    ∀ i, i ∈ js ↔ ∃ id, m !! id = Some i ∧ id mod Zlen (hash hi) = h
}.

Lemma linked_length l c js : linked l c js → NoDup js → (length js ≤ length l)%nat.
Proof.
  intros Hl Hnd. assert (js ⊆ seqZ 0 (Z.of_nat (length l))) as Hsub.
  { revert c Hl. clear Hnd. induction js as [|i js IH]; intros c; [set_solver|].
    intros (_ & Hi & n & Hn & Hl) j [->|Hj]%elem_of_cons; [|by eapply IH].
    apply lookup_lt_Some in Hn. apply elem_of_seqZ. lia. }
  apply NoDup_submseteq in Hsub; [|done]. apply submseteq_length in Hsub.
  rewrite length_seqZ in Hsub. lia.
Qed.

Lemma linked_ext l l' c js : linked l c js → (∀ i, i ∈ js → l' !! Z.to_nat i = l !! Z.to_nat i) →
  linked l' c js.
Proof.
  revert c. induction js as [|i js IH]; intros c; [done|]. intros (-> & Hi & n & Hn & Hl) Hext.
  split; [done|]. split; [done|]. exists n. rewrite Hext by set_solver. split; [done|].
  apply IH; [done|]. set_solver.
Qed.

Lemma linked_get l c js i : linked l c js → i ∈ js → 0 ≤ i ∧ is_Some (l !! Z.to_nat i).
Proof.
  revert c. induction js as [|j js IH]; intros c; [set_solver|].
  intros (_ & Hj & n & Hn & Hl) [->|Hin]%elem_of_cons; eauto.
Qed.

(** the id of a node *)
Definition id_at (l : list hashid_node) (i : Z) : option Z := nid <$> l !! Z.to_nat i.

Lemma lookup_chain_spec l id js : ∀ fuel c, linked l c js → (length js ≤ fuel)%nat →
  lookup_chain fuel l c id =
    Ret (default (-1) (head (filter (λ i, id_at l i = Some id) js))).
Proof.
  induction js as [|i js IH]; intros fuel c Hl Hf; [by rewrite Hl; destruct fuel|].
  destruct Hl as (-> & Hi & n & Hn & Hl). destruct fuel as [|fuel]; [simpl in Hf; lia|].
  cbn [lookup_chain]. replace (get_idx l i) with (Ret n) by (symmetry; by apply get_idx_Ret).
  assert (id_at l i = Some (nid n)) as Ei by (unfold id_at; by rewrite Hn).
  rewrite Ret_bind, filter_cons. case_bool_decide as E.
  - rewrite decide_True by congruence. done.
  - rewrite decide_False by congruence. apply IH; [done|]. simpl in Hf. lia.
Qed.

Section repr.
Context (hi : hashid) (m : gmap Z Z) (HR : hashid_repr hi m).

Lemma hash_of id : Z.land id (hashmod hi) = id mod Zlen (hash hi).
Proof. destruct (hr_mod _ _ HR) as (k & Hk & -> & ->). apply land_mask. lia. Qed.

Lemma hash_size_pos : 16 ≤ Zlen (hash hi).
Proof.
  destruct (hr_mod _ _ HR) as (k & Hk & _ & ->). change 16 with (2 ^ 4). apply Z.pow_le_mono_r; lia.
Qed.

Lemma chain_of id : ∃ c js, get_idx (hash hi) (Z.land id (hashmod hi)) = Ret c ∧
  linked (ids hi) c js ∧ NoDup js ∧ (length js ≤ length (ids hi))%nat ∧
  ∀ i, i ∈ js ↔ ∃ id', m !! id' = Some i ∧ id' mod Zlen (hash hi) = id mod Zlen (hash hi).
Proof.
  pose proof hash_size_pos. pose proof (mod_range id (Zlen (hash hi)) ltac:(lia)).
  destruct (hr_chain _ _ HR (id mod Zlen (hash hi)) ltac:(lia)) as (c & js & Hc & Hl & Hnd & Hin).
  exists c, js. rewrite hash_of. split; [apply get_idx_Ret; split; [lia|done]|].
  split_and!; try done. by eapply linked_length.
Qed.

(** the node of an id is the only one of its chain with it *)
Lemma chain_filter id js :
  (∀ i, i ∈ js ↔ ∃ id', m !! id' = Some i ∧ id' mod Zlen (hash hi) = id mod Zlen (hash hi)) →
  NoDup js → filter (λ i, id_at (ids hi) i = Some id) js = option_list (m !! id).
Proof.
  intros Hin Hnd.
  assert (∀ i, i ∈ filter (λ i, id_at (ids hi) i = Some id) js ↔ m !! id = Some i) as Hiff.
  { intros i. rewrite list_elem_of_filter, Hin. split.
    - intros [Hid (id' & Hm & _)]. destruct (hr_map _ _ HR _ _ Hm) as (_ & _ & Hid').
      unfold id_at in Hid. congruence.
    - intros Hm. destruct (hr_map _ _ HR _ _ Hm) as (_ & _ & Hid). eauto. }
  assert (NoDup (filter (λ i, id_at (ids hi) i = Some id) js)) as Hnd' by (by apply NoDup_filter).
  destruct (filter _ js) as [|a [|b l]] eqn:E.
  - destruct (m !! id) as [i|] eqn:Em; [|done]. exfalso. apply (not_elem_of_nil i). by apply Hiff.
  - assert (m !! id = Some a) as -> by (apply Hiff; set_solver). done.
  - exfalso. assert (a = b) as ->.
    { assert (m !! id = Some a) by (apply Hiff; set_solver).
      assert (m !! id = Some b) by (apply Hiff; set_solver). congruence. }
    apply NoDup_cons in Hnd' as [Hn _]. set_solver.
Qed.

Lemma lookup_spec id : hashid_lookup hi id = Ret (default (-1) (m !! id)).
Proof.
  destruct (chain_of id) as (c & js & Ec & Hl & Hnd & Hlen & Hin). unfold hashid_lookup.
  rewrite Ec, Ret_bind, (lookup_chain_spec _ _ js) by done.
  rewrite (chain_filter id js) by done. by destruct (m !! id).
Qed.
End repr.

(** ** Removal *)
Lemma id_at_insert l c n i : 0 ≤ c → 0 ≤ i → id_at l c = Some (nid n) →
  id_at (<[Z.to_nat c := n]> l) i = id_at l i.
Proof.
  intros Hc Hi Hn. unfold id_at in *. destruct (decide (i = c)) as [->|].
  - destruct (l !! Z.to_nat c) eqn:E; [|done].
    rewrite list_lookup_insert_eq by (by eapply lookup_lt_Some). done.
  - by rewrite list_lookup_insert_ne by lia.
Qed.

Lemma unlink_spec id i0 l js : ∀ fuel c, linked l (Some c) (c :: js) → NoDup (c :: js) →
  (length js ≤ fuel)%nat → i0 ∈ js → id_at l i0 = Some id →
  (∀ j, j ∈ js → id_at l j = Some id → j = i0) →
  ∃ l', unlink_chain fuel l c id = Ret (Some (i0, l')) ∧ length l' = length l ∧
    linked l' (Some c) (c :: filter (λ j, j ≠ i0) js) ∧
    (∀ i, 0 ≤ i → id_at l' i = id_at l i) ∧
    (∀ i, 0 ≤ i → i ∉ c :: js → l' !! Z.to_nat i = l !! Z.to_nat i) ∧
    l' !! Z.to_nat i0 = l !! Z.to_nat i0.
Proof.
  induction js as [|j js IH]; intros fuel c Hl Hnd Hf Hin Hid Huniq; [set_solver|].
  destruct Hl as (_ & Hc & n & Hn & Hj & Hj0 & nj & Hnj & Hl).
  apply NoDup_cons in Hnd as [Hcj Hnd].
  assert (get_idx l c = Ret n) as Ec by (by apply get_idx_Ret).
  assert (get_idx l j = Ret nj) as Ej by (by apply get_idx_Ret).
  assert (id_at l j = Some (nid nj)) as Eid by (unfold id_at; by rewrite Hnj).
  destruct fuel as [|fuel]; [simpl in Hf; lia|].
  cbn [unlink_chain]. rewrite Ec, Ret_bind, Hj, Ej, Ret_bind. case_bool_decide as E.
  - assert (j = i0) as -> by (apply Huniq; [set_solver|congruence]).
    apply NoDup_cons in Hnd as [Hi0 Hnd].
    rewrite set_idx_ok by (apply lookup_lt_Some in Hn; unfold Zlen; lia). rewrite Ret_bind.
    eexists. split; [done|]. split; [by rewrite length_insert|].
    assert (filter (λ j, j ≠ i0) (i0 :: js) = js) as ->.
    { rewrite filter_cons, decide_False by tauto. clear -Hi0. induction js as [|a js IH]; [done|].
      rewrite filter_cons, decide_True by set_solver. rewrite IH; set_solver. }
    split; [|split; [|split]].
    + split; [done|]. split; [done|]. eexists.
      rewrite list_lookup_insert_eq by (by eapply lookup_lt_Some). split; [done|]. cbn [nnext].
      eapply linked_ext; [done|]. intros i Hi. rewrite list_lookup_insert_ne; [done|].
      destruct (linked_get _ _ _ _ Hl Hi). intros ?. assert (c = i) by lia. set_solver.
    + intros i Hi. apply id_at_insert; [done|done|]. unfold id_at. by rewrite Hn.
    + intros i Hi Hnin. rewrite list_lookup_insert_ne; [done|]. intros ?.
      assert (c = i) by lia. set_solver.
    + rewrite list_lookup_insert_ne; [done|]. intros ?. assert (c = i0) by lia. set_solver.
  - assert (i0 ∈ js) as Hin' by (apply elem_of_cons in Hin as [->|]; [congruence|done]).
    destruct (IH fuel j) as (l' & E' & Hlen & Hl' & Hids & Hfr & Hi0).
    + split; [done|]. split; [done|]. by exists nj.
    + done.
    + simpl in Hf. lia.
    + done.
    + done.
    + intros. apply Huniq; [set_solver|done].
    + exists l'. split; [done|]. split; [done|].
      rewrite filter_cons, decide_True by (intros ->; congruence).
      split; [|split; [done|split; [|done]]].
      * split; [done|]. split; [done|]. exists n. rewrite Hfr by done. split; [done|].
        by rewrite Hj.
      * intros i Hi Hnin. apply Hfr; [done|]. set_solver.
Qed.

Lemma unlink_none id l js : ∀ fuel c, linked l (Some c) (c :: js) → (length js ≤ fuel)%nat →
  (∀ j, j ∈ js → id_at l j ≠ Some id) → unlink_chain fuel l c id = Ret None.
Proof.
  induction js as [|j js IH]; intros fuel c Hl Hf Hno;
    destruct Hl as (_ & Hc & n & Hn & Hl);
    assert (get_idx l c = Ret n) as Ec by (by apply get_idx_Ret).
  - destruct fuel; cbn [unlink_chain]; by rewrite Ec, Ret_bind, Hl.
  - destruct Hl as (Hj & Hj0 & nj & Hnj & Hl). destruct fuel as [|fuel]; [simpl in Hf; lia|].
    cbn [unlink_chain]. rewrite Ec, Ret_bind, Hj.
    replace (get_idx l j) with (Ret nj) by (symmetry; by apply get_idx_Ret).
    rewrite Ret_bind, bool_decide_eq_false_2.
    + apply IH; [split; [done|]; split; [done|]; by exists nj|simpl in Hf; lia|set_solver].
    + intros E. apply (Hno j); [set_solver|]. unfold id_at. rewrite Hnj. simpl. congruence.
Qed.

Section remove.
Context (hi : hashid) (m : gmap Z Z) (HR : hashid_repr hi m).

(** the table after the node [i0] of [id] left its chain and was cleared *)
Lemma cleared_repr id i0 c' l' js :
  m !! id = Some i0 → length l' = length (ids hi) → NoDup js →
  (∀ i, i ∈ js ↔ ∃ id', m !! id' = Some i ∧ id' mod Zlen (hash hi) = id mod Zlen (hash hi)) →
  linked l' c' (filter (λ j, j ≠ i0) js) →
  (∀ i, 0 ≤ i → id_at l' i = id_at (ids hi) i) →
  (∀ i, 0 ≤ i → i ∉ js → l' !! Z.to_nat i = ids hi !! Z.to_nat i) →
  hashid_repr (Hashid (hashmod hi) (hcap hi) (count hi - 1)
    (<[Z.to_nat i0 := HashidNode (-1) None]> l')
    (<[Z.to_nat (id mod Zlen (hash hi)) := c']> (hash hi))) (delete id m).
Proof.
  intros Hm Hlen Hnd Hin Hl Hids Hfr.
  destruct (hr_map _ _ HR _ _ Hm) as (Hid & Hi0 & Hat).
  pose proof (hash_size_pos _ _ HR) as Hsz.
  pose proof (mod_range id (Zlen (hash hi)) ltac:(lia)) as Hh.
  assert (Z.to_nat i0 < length l')%nat as Hlt.
  { rewrite Hlen. destruct (ids hi !! Z.to_nat i0) eqn:E; [by eapply lookup_lt_Some|done]. }
  assert (∀ id' i, delete id m !! id' = Some i → i ≠ i0) as Hne.
  { intros id' i [Hne Hm']%lookup_delete_Some ->.
    destruct (hr_map _ _ HR _ _ Hm') as (_ & _ & Hat'). congruence. }
  split; cbn.
  - destruct (hr_mod _ _ HR) as (k & Hk & E1 & E2). exists k. by rewrite Zlen_insert.
  - rewrite Zlen_insert. unfold Zlen. rewrite Hlen. apply (hr_cap _ _ HR).
  - apply (hr_capmax _ _ HR).
  - rewrite map_size_delete, Hm, (hr_count _ _ HR). cbn.
    assert (size m ≠ 0%nat) by (intros E%map_size_empty_inv; set_solver). lia.
  - intros i n Hi Hn. destruct (decide (i = i0)) as [->|Hii].
    + rewrite list_lookup_insert_eq in Hn by done. injection Hn as <-. done.
    + rewrite list_lookup_insert_ne in Hn by lia.
      assert (id_at (ids hi) i = Some (nid n)) as Eid.
      { rewrite <- Hids by done. unfold id_at. by rewrite Hn. }
      unfold id_at in Eid. destruct (ids hi !! Z.to_nat i) as [n0|] eqn:E0; [|done].
      injection Eid as Eid. pose proof (hr_ids _ _ HR i n0 Hi E0) as Hok. rewrite Eid in Hok.
      case_decide as Ed.
      * rewrite Hfr in Hn; [congruence|done|]. intros (id' & Hm' & _)%Hin.
        destruct (hr_map _ _ HR _ _ Hm') as (Hp & _ & Hat'). rewrite E0 in Hat'.
        simpl in Hat'. injection Hat' as Hat'. lia.
      * rewrite lookup_delete_ne; [done|]. intros Ei. rewrite <- Ei in Hok. congruence.
  - intros id' i Hm'. pose proof (Hne _ _ Hm') as Hii. apply lookup_delete_Some in Hm' as [_ Hm'].
    destruct (hr_map _ _ HR _ _ Hm') as (? & ? & Hat'). split; [done|]. split; [done|].
    rewrite list_lookup_insert_ne by lia. rewrite <- Hat'. by apply Hids.
  - rewrite Zlen_insert. intros h Hhr.
    destruct (decide (h = id mod Zlen (hash hi))) as [->|Hhn].
    + exists c', (filter (λ j, j ≠ i0) js).
      rewrite list_lookup_insert_eq by (unfold Zlen in *; lia). split; [done|]. split; [|split].
      * eapply linked_ext; [done|]. intros i [Hi Hij]%list_elem_of_filter.
        rewrite list_lookup_insert_ne; [done|]. intros ?. apply Hin in Hij as (id' & Hm' & _).
        destruct (hr_map _ _ HR _ _ Hm'). lia.
      * by apply NoDup_filter.
      * intros i. rewrite list_elem_of_filter, Hin. split.
        -- intros [Hi (id' & Hm' & Hmod)]. exists id'. split; [|done].
           apply lookup_delete_Some. split; [congruence|done].
        -- intros (id' & Hm' & Hmod). split; [by eapply Hne|]. apply lookup_delete_Some in Hm'.
           naive_solver.
    + destruct (hr_chain _ _ HR h Hhr) as (c & js' & Hc & Hl' & Hnd' & Hin').
      exists c, js'. rewrite list_lookup_insert_ne by lia. split; [done|].
      assert (∀ i, i ∈ js' → i ≠ i0 ∧ i ∉ js) as Hdis.
      { intros i (id' & Hm' & Hmod)%Hin'. destruct (hr_map _ _ HR _ _ Hm') as (_ & _ & Hat').
        split; [intros ->; congruence|]. intros (id2 & Hm2 & Hmod2)%Hin.
        destruct (hr_map _ _ HR _ _ Hm2) as (_ & _ & Hat2). congruence. }
      split; [|split; [done|]].
      * eapply linked_ext; [done|]. intros i Hi. destruct (Hdis i Hi) as [Hii Hij].
        destruct (linked_get _ _ _ _ Hl' Hi) as [Hi0' _].
        rewrite list_lookup_insert_ne by lia. by apply Hfr.
      * intros i. rewrite Hin'. split.
        -- intros (id' & Hm' & Hmod). exists id'. split; [|done].
           apply lookup_delete_Some. split; [congruence|done].
        -- intros (id' & [_ Hm']%lookup_delete_Some & Hmod). eauto.
Qed.

Lemma remove_spec id : ∃ hi',
  hashid_remove hi id = Ret (default (-1) (m !! id), hi') ∧ hashid_repr hi' (delete id m).
Proof.
  destruct (chain_of hi m HR id) as (c & js & Ec & Hl & Hnd & Hlen & Hin).
  pose proof (chain_filter hi m HR id js Hin Hnd) as Hfil. pose proof (hash_size_pos _ _ HR) as Hsz.
  pose proof (mod_range id (Zlen (hash hi)) ltac:(lia)) as Hh.
  unfold hashid_remove. rewrite Ec, Ret_bind. destruct js as [|c0 js].
  { simpl in Hl. subst c. exists hi. destruct (m !! id) eqn:Em; [done|].
    split; [done|]. by rewrite delete_id. }
  destruct Hl as (-> & Hc0 & n & Hn & Hl).
  assert (id_at (ids hi) c0 = Some (nid n)) as Eid by (unfold id_at; by rewrite Hn).
  replace (get_idx (ids hi) c0) with (Ret n) by (symmetry; by apply get_idx_Ret).
  rewrite Ret_bind. rewrite filter_cons in Hfil.
  pose proof Hnd as Hnd0. apply NoDup_cons in Hnd as [Hc0n Hnd].
  assert (Z.to_nat c0 < length (ids hi))%nat by (by eapply lookup_lt_Some).
  case_bool_decide as E.
  - rewrite decide_True in Hfil by congruence.
    destruct (m !! id) as [i0|] eqn:Em; [|done]. injection Hfil as <- Hfil.
    rewrite (hash_of hi m HR), set_idx_ok by done. rewrite Ret_bind. unfold clear_node. cbn.
    rewrite set_idx_ok by (unfold Zlen; lia). cbn. eexists. split; [done|].
    apply (cleared_repr id c0 (nnext n) (ids hi) (c0 :: js)); try done.
    rewrite filter_cons, decide_False by tauto.
    assert (filter (λ j, j ≠ c0) js = js) as ->; [|done].
    clear -Hc0n. induction js as [|a js IH]; [done|].
    rewrite filter_cons, decide_True by set_solver. rewrite IH; set_solver.
  - rewrite decide_False in Hfil by congruence.
    assert (∀ i, i ∈ js ∧ id_at (ids hi) i = Some id ↔ i ∈ option_list (m !! id)) as Hiff.
    { intros i. rewrite <- Hfil, list_elem_of_filter. tauto. }
    assert (linked (ids hi) (Some c0) (c0 :: js)) as Hl0 by (split; [done|]; split; [done|]; by exists n).
    destruct (m !! id) as [i0|] eqn:Em.
    + destruct (Hiff i0) as [_ Hi0]. destruct Hi0 as [Hi0 Hi0id]; [simpl; set_solver|].
      destruct (unlink_spec id i0 (ids hi) js (length (ids hi)) c0) as
        (l' & Eu & Hl' & Hlk & Hids & Hfr & Hsame); try done.
      { simpl in Hlen. lia. }
      { intros j Hj Hjid. assert (j ∈ option_list (Some i0)) by (by apply Hiff). simpl in *. set_solver. }
      rewrite Eu, Ret_bind. unfold clear_node. cbn.
      assert (i0 ∈ c0 :: js) as Hi0' by set_solver.
      destruct (linked_get _ _ _ _ Hl0 Hi0') as [Hi0p [ni Hni]].
      rewrite set_idx_ok by (unfold Zlen; rewrite Hl'; apply lookup_lt_Some in Hni; lia).
      cbn. eexists. split; [done|].
      assert (hash hi = <[Z.to_nat (id mod Zlen (hash hi)) := Some c0]> (hash hi)) as Eh.
      { symmetry. apply list_insert_id. rewrite (hash_of hi m HR) in Ec.
        by apply get_idx_Ret in Ec as [_ ?]. }
      rewrite Eh. apply (cleared_repr id i0 (Some c0) l' (c0 :: js)); try done.
      rewrite filter_cons, decide_True; [done|]. intros ->. set_solver.
    + rewrite (unlink_none id (ids hi) js); [|done|simpl in Hlen; lia|].
      * rewrite Ret_bind. exists hi. split; [done|]. by rewrite delete_id.
      * intros j Hj Hjid. assert (j ∈ option_list (@None Z)) by (apply Hiff; done). simpl in *. set_solver.
Qed.
End remove.

(** ** Insertion *)
Lemma find_free_spec hi id n : ∀ i, 0 ≤ i → 0 ≤ id → 0 < hcap hi → Zlen (ids hi) = hcap hi →
  i + Z.of_nat n - 1 + id ≤ INT_MAX →
  (∃ c, find_free n i hi id = Ret (Some c) ∧ 0 ≤ c < hcap hi ∧ id_at (ids hi) c = Some (-1)) ∨
  find_free n i hi id = Ret None ∧
    ∀ j, i ≤ j < i + Z.of_nat n → id_at (ids hi) ((j + id) mod hcap hi) ≠ Some (-1).
Proof.
  induction n as [|n IH]; intros i Hi Hid Hc Hl Hmax; [by right; split; [|lia]|].
  cbn [find_free]. rewrite chk_int_ok by (unfold INT_MAX in *; lia). rewrite Ret_bind.
  rewrite Z.rem_mod_nonneg by lia. pose proof (mod_range (i + id) (hcap hi) Hc) as Hr.
  destruct (get_idx_ok (ids hi) ((i + id) mod hcap hi)) as (c & -> & Hlk); [lia|]. rewrite Ret_bind.
  case_bool_decide as E.
  - left. eexists. split; [done|]. split; [done|]. unfold id_at. rewrite Hlk. simpl. congruence.
  - destruct (IH (i + 1)) as [H|[-> Hno]]; [lia..|by left|]. right. split; [done|].
    intros j Hj. destruct (decide (j = i)) as [->|]; [|apply Hno; lia].
    unfold id_at. rewrite Hlk. simpl. congruence.
Qed.

Section insert.
Context (hi : hashid) (m : gmap Z Z) (HR : hashid_repr hi m).

(** a table that is not full has a free node *)
Lemma free_node : Z.of_nat (size m) < hcap hi → ∃ c, 0 ≤ c < hcap hi ∧ id_at (ids hi) c = Some (-1).
Proof.
  intros Hsz. destruct (decide (Exists (λ c, id_at (ids hi) c = Some (-1)) (seqZ 0 (hcap hi)))) as [Hex|Hno].
  { apply Exists_exists in Hex as (c & Hc%elem_of_seqZ & E). exists c. split; [lia|done]. }
  exfalso. rewrite <- Forall_Exists_neg, Forall_forall in Hno.
  assert (seqZ 0 (hcap hi) ⊆ (map_to_list m).*2) as Hsub.
  { intros c Hc. pose proof (Hno c Hc) as Hn. apply elem_of_seqZ in Hc.
    destruct (get_idx_ok (ids hi) c) as (n & _ & Hlk); [rewrite (hr_cap _ _ HR); lia|].
    pose proof (hr_ids _ _ HR c n ltac:(lia) Hlk) as Hok. unfold id_at in Hn. rewrite Hlk in Hn.
    rewrite decide_False in Hok by (simpl in Hn; congruence).
    apply list_elem_of_fmap. exists (nid n, c). split; [done|]. by apply elem_of_map_to_list. }
  apply NoDup_submseteq in Hsub; [|apply NoDup_seqZ]. apply submseteq_length in Hsub.
  rewrite length_fmap, length_map_to_list, length_seqZ in Hsub. lia.
Qed.

Lemma insert_spec id : m !! id = None → 0 ≤ id → id + hcap hi ≤ INT_MAX →
  Z.of_nat (size m) < hcap hi →
  ∃ c hi', hashid_insert hi id = Ret (c, hi') ∧ hashid_repr hi' (<[id := c]> m) ∧
    0 ≤ c < hcap hi ∧ hcap hi' = hcap hi ∧ ∀ id', m !! id' ≠ Some c.
Proof.
  intros Hm Hid Hmax Hsz. pose proof (hr_capmax _ _ HR) as Hcap. pose proof (hr_cap _ _ HR) as Hlen.
  pose proof (hash_size_pos _ _ HR) as Hhs.
  pose proof (mod_range id (Zlen (hash hi)) ltac:(lia)) as Hh.
  unfold hashid_insert.
  destruct (find_free_spec hi id (Z.to_nat (hcap hi)) 0) as [(c & E & Hc & Hfree)|[_ Hno]];
    [lia|lia|lia|done|lia| |].
  2:{ exfalso. destruct (free_node Hsz) as (c & Hc & Hfree).
      apply (Hno ((c - id) mod hcap hi)).
      - pose proof (mod_range (c - id) (hcap hi) ltac:(lia)). lia.
      - rewrite Zplus_mod_idemp_l, Z.sub_add, Z.mod_small by lia. done. }
  rewrite E, Ret_bind. destruct (get_idx_ok (ids hi) c) as (n & Eg & Hlk); [lia|].
  pose proof (hr_ids _ _ HR c n ltac:(lia) Hlk) as Hok. unfold id_at in Hfree. rewrite Hlk in Hfree.
  cbn in Hfree. injection Hfree as Hfree. rewrite decide_True in Hok by done.
  rewrite Eg, Ret_bind, bool_decide_eq_true_2 by done. cbn [cassert]. rewrite Ret_bind.
  assert (∀ id', m !! id' ≠ Some c) as Hnc.
  { intros id' Hm'. destruct (hr_map _ _ HR _ _ Hm') as (? & _ & Hat). rewrite Hlk in Hat.
    simpl in Hat. injection Hat as Hat. lia. }
  destruct (chain_of hi m HR id) as (f & js & Ef & Hl & Hnd & _ & Hin).
  rewrite Ef, Ret_bind, (set_idx_ok (ids hi) c) by lia. rewrite Ret_bind.
  rewrite (hash_of hi m HR), (set_idx_ok (hash hi)) by done. rewrite Ret_bind.
  eexists c, _. split; [done|]. split; [|by split_and!; try done; lia].
  assert (Z.to_nat c < length (ids hi))%nat by (by eapply lookup_lt_Some).
  split; cbn.
  - destruct (hr_mod _ _ HR) as (k & Hk & E1 & E2). exists k. by rewrite Zlen_insert.
  - by rewrite Zlen_insert.
  - done.
  - rewrite map_size_insert, Hm, (hr_count _ _ HR). cbn. lia.
  - intros i x Hi Hx. destruct (decide (i = c)) as [->|].
    + rewrite list_lookup_insert_eq in Hx by done. injection Hx as <-. cbn.
      rewrite decide_False by lia. by rewrite lookup_insert_eq.
    + rewrite list_lookup_insert_ne in Hx by lia. pose proof (hr_ids _ _ HR i x Hi Hx) as Hokx.
      case_decide; [done|]. rewrite lookup_insert_ne; [done|]. intros Ei. rewrite <- Ei in Hokx. congruence.
  - intros id' i [[<- <-]|[Hne Hm']]%lookup_insert_Some.
    + split; [lia|]. split; [lia|]. by rewrite list_lookup_insert_eq by done.
    + destruct (hr_map _ _ HR _ _ Hm') as (? & ? & Hat). split; [done|]. split; [done|].
      rewrite list_lookup_insert_ne; [done|]. intros ?. apply (Hnc id'). rewrite Hm'. f_equal. lia.
  - rewrite Zlen_insert. intros h Hhr.
    assert (∀ js' c', linked (ids hi) c' js' →
      (∀ i, i ∈ js' → ∃ id', m !! id' = Some i) →
      linked (<[Z.to_nat c := HashidNode id f]> (ids hi)) c' js') as Hkeep.
    { intros js' c' Hl' Hin'. eapply linked_ext; [done|]. intros i Hi.
      rewrite list_lookup_insert_ne; [done|]. intros ?. destruct (Hin' i Hi) as (id' & Hm').
      destruct (hr_map _ _ HR _ _ Hm') as (_ & ? & _). apply (Hnc id'). rewrite Hm'. f_equal. lia. }
    destruct (decide (h = id mod Zlen (hash hi))) as [->|Hhn].
    + exists (Some c), (c :: js). rewrite list_lookup_insert_eq by (unfold Zlen in *; lia).
      split; [done|]. split; [|split].
      * split; [done|]. split; [lia|]. eexists. rewrite list_lookup_insert_eq by done.
        split; [done|]. apply Hkeep; [done|]. intros i Hi. apply Hin in Hi. naive_solver.
      * constructor; [|done]. intros (id' & Hm' & _)%Hin. by apply (Hnc id').
      * intros i. rewrite elem_of_cons, Hin. split.
        -- intros [->|(id' & Hm' & Hmod)].
           ++ exists id. by rewrite lookup_insert_eq.
           ++ exists id'. rewrite lookup_insert_ne by congruence. done.
        -- intros (id' & [[<- <-]|[Hne Hm']]%lookup_insert_Some & Hmod); [by left|right; eauto].
    + destruct (hr_chain _ _ HR h Hhr) as (c' & js' & Hc' & Hl' & Hnd' & Hin').
      exists c', js'. rewrite list_lookup_insert_ne by lia. split; [done|].
      split; [|split; [done|]].
      * apply Hkeep; [done|]. intros i Hi. apply Hin' in Hi. naive_solver.
      * intros i. rewrite Hin'. split.
        -- intros (id' & Hm' & Hmod). exists id'. rewrite lookup_insert_ne by congruence. done.
        -- intros (id' & [[<- <-]|[Hne Hm']]%lookup_insert_Some & Hmod); [congruence|eauto].
Qed.
End insert.

Lemma hash_size_spec fuel : ∀ k max, 4 ≤ k → k + Z.of_nat fuel = 30 → max ≤ 2 ^ 30 →
  ∃ k', 4 ≤ k' ≤ 30 ∧ hash_size fuel (2 ^ k) max = Ret (2 ^ k').
Proof.
  induction fuel as [|fuel IH]; intros k max Hk Hf Hm; cbn [hash_size].
  - assert (k = 30) as -> by lia. rewrite bool_decide_eq_false_2 by lia. exists 30. by split.
  - case_bool_decide; [|exists k; split; [lia|done]].
    assert (2 ^ (k + 1) = 2 * 2 ^ k) by (rewrite <- Z.pow_succ_r by lia; f_equal; lia).
    assert (2 ^ (k + 1) ≤ 2 ^ 30) by (apply Z.pow_le_mono_r; lia).
    rewrite chk_int_ok by (unfold INT_MAX; lia). rewrite Ret_bind.
    replace (2 ^ k * 2) with (2 ^ (k + 1)) by lia. apply IH; lia.
Qed.

Lemma hash_size_mono fuel fuel' c max r : hash_size fuel c max = Ret r → (fuel ≤ fuel')%nat →
  hash_size fuel' c max = Ret r.
Proof.
  revert fuel' c. induction fuel as [|fuel IH]; intros [|fuel'] c; cbn [hash_size]; try done; try lia.
  - case_bool_decide; done.
  - case_bool_decide; [|done]. intros E Hf. apply bind_Ret in E as (c' & -> & E).
    rewrite Ret_bind. apply IH; [done|lia].
Qed.

Lemma init_spec max : 0 < max ≤ 2 ^ 30 →
  ∃ hi, hashid_init max = Ret hi ∧ hcap hi = max ∧ hashid_repr hi ∅.
Proof.
  intros Hm. destruct (hash_size_spec 26 4 max ltac:(lia) ltac:(lia) ltac:(lia)) as (k & Hk & E).
  apply (hash_size_mono _ 32) in E; [|lia]. unfold hashid_init. change 16 with (2 ^ 4). rewrite E, Ret_bind.
  assert (0 < 2 ^ k) by (apply Z.pow_pos_nonneg; lia).
  eexists. split; [done|]. split; [done|]. split; cbn.
  - exists k. rewrite Zlen_replicate by lia. done.
  - by rewrite Zlen_replicate by lia.
  - lia.
  - done.
  - intros i n Hi [-> _]%lookup_replicate. done.
  - done.
  - rewrite Zlen_replicate by lia. intros h Hh. exists None, [].
    rewrite lookup_replicate_2 by lia. split; [done|]. split; [done|]. split; [constructor|].
    intros i. split; [set_solver|]. intros (id & E' & _). done.
Qed.

(** The table of socket ids implements a finite map from ids to distinct
    indices below the capacity. It starts empty; a lookup returns the index of
    an id or -1; inserting a new id into a table that is not full finds a free
    index, terminates, and changes the index of no other id; removing an id
    returns its index, or -1, and removes exactly it; [hashid_full] says whether
    every index is taken. *)
Theorem hashid_refines_map :
  (∀ max, 0 < max ≤ 2 ^ 30 → ∃ hi, hashid_init max = Ret hi ∧ hashid_repr hi ∅) ∧
  ∀ hi m, hashid_repr hi m →
    (∀ id, hashid_lookup hi id = Ret (default (-1) (m !! id))) ∧
    (hashid_full hi = bool_decide (Z.of_nat (size m) = hcap hi)) ∧
    (∀ id, m !! id = None → 0 ≤ id → id + hcap hi ≤ INT_MAX → Z.of_nat (size m) < hcap hi →
      ∃ c hi', hashid_insert hi id = Ret (c, hi') ∧ hashid_repr hi' (<[id := c]> m) ∧
        0 ≤ c < hcap hi ∧ ∀ id', m !! id' ≠ Some c) ∧
    (∀ id, ∃ hi', hashid_remove hi id = Ret (default (-1) (m !! id), hi') ∧
      hashid_repr hi' (delete id m)).
Proof.
  split.
  - intros max Hm. destruct (init_spec max Hm) as (hi & E & _ & HR). eauto.
  - intros hi m HR. split; [by apply lookup_spec|]. split.
    + unfold hashid_full. by rewrite (hr_count _ _ HR).
    + split; [|by apply remove_spec]. intros id H1 H2 H3 H4.
      destruct (insert_spec hi m HR id H1 H2 H3 H4) as (c & hi' & ? & ? & ? & _ & ?). eauto 10.
Qed.

(** two ids of one hash value, then the first one removed *)
Lemma hashid_refines_map_witness : ∃ hi0 hi1 hi2 hi3 c1 c2,
  hashid_init 4 = Ret hi0 ∧ hashid_insert hi0 3 = Ret (c1, hi1) ∧
  hashid_insert hi1 19 = Ret (c2, hi2) ∧ hashid_remove hi2 3 = Ret (c1, hi3) ∧
  hashid_lookup hi3 3 = Ret (-1) ∧ hashid_lookup hi3 19 = Ret c2.
Proof.
  destruct hashid_refines_map as [Hinit Hops].
  destruct (Hinit 4) as (hi0 & E0 & R0); [lia|]. destruct (Hops _ _ R0) as (_ & _ & Hins & _).
  assert (hcap hi0 = 4) as C0 by (injection E0 as <-; reflexivity).
  destruct (Hins 3) as (c1 & hi1 & E1 & R1 & B1 & _);
    [done|lia|rewrite C0; unfold INT_MAX; lia|rewrite C0, map_size_empty; lia|].
  destruct (Hops _ _ R1) as (_ & _ & Hins1 & _).
  assert (hcap hi1 = 4) as C1.
  { unfold hashid_insert in E1. apply bind_Ret in E1 as ([c|] & _ & E1); [|done].
    inv_out. done. }
  destruct (Hins1 19) as (c2 & hi2 & E2 & R2 & _);
    [done|lia|rewrite C1; unfold INT_MAX; lia
    |rewrite C1, map_size_insert_None, map_size_empty by done; lia|].
  destruct (Hops _ _ R2) as (_ & _ & _ & Hrem). destruct (Hrem 3) as (hi3 & E3 & R3).
  destruct (Hops _ _ R3) as (Hlook & _).
  exists hi0, hi1, hi2, hi3, c1, c2. split; [exact E0|]. split; [exact E1|]. split; [exact E2|].
  split; [exact E3|]. split; rewrite Hlook; reflexivity.
Defined.
