(* ===== verification/Gate.v ===== *)
(** * The gate service: service-src/service_gate.c

    Accepts connections, cuts the byte stream of each into length-prefixed
    packets and forwards these to a broker, an agent or the watchdog. What the
    gate calls in the core is the class [ServiceApi]; the service's own state is
    [gate]. *)
From S2P Require Import Prelude CLib CNum Module DataBuffer ServiceApi HashId.
From Stdlib Require Import Ascii String.
#[local] Open Scope Z_scope.

Definition BACKLOG : Z := 128.
Definition REMOTE_NAME_LEN : Z := 32.

Record connection : Type := Connection {
  c_id : Z;
  agent : Z;
  client : Z;
  remote_name : list Z;
  c_buffer : databuffer
}.

Record gate : Type := Gate {
  listen_id : Z;
  watchdog : Z;
  broker : Z;
  client_tag : Z;
  header_size : Z;
  max_connection : Z;
  g_hash : hashid;
  conn : list connection;
  mp : messagepool
}.

Definition empty_connection (id : Z) : connection := Connection id 0 0 [] empty_buffer.

Definition set_listen v g := Gate v (watchdog g) (broker g) (client_tag g) (header_size g)
  (max_connection g) (g_hash g) (conn g) (mp g).
Definition set_broker v g := Gate (listen_id g) (watchdog g) v (client_tag g) (header_size g)
  (max_connection g) (g_hash g) (conn g) (mp g).
Definition set_table h c g := Gate (listen_id g) (watchdog g) (broker g) (client_tag g)
  (header_size g) (max_connection g) h c (mp g).
Definition set_mp v g := Gate (listen_id g) (watchdog g) (broker g) (client_tag g) (header_size g)
  (max_connection g) (g_hash g) (conn g) v.
Definition set_buffer b c := Connection (c_id c) (agent c) (client c) (remote_name c) b.

Definition gate_create : gate := Gate (-1) 0 0 0 0 0 (Hashid 0 0 0 [] []) [] (Messagepool 0 0 []).

Section gate.
Context {W : Type} `{!ServiceApi W}.

(** closing the socket of every connection, in order *)
Definition close_conn (g : gate) (i : Z) (w : W) : outcome W :=
  c ← get_idx (conn g) i;
  if bool_decide (0 ≤ c_id c) then skynet_socket_close (c_id c) w else Ret w.
Definition gate_release (g : gate) (w : W) : outcome (messagepool * W) :=
  w ← for_loop (close_conn g) (Z.to_nat (max_connection g)) 0 1 w;
  w ← (if bool_decide (0 ≤ listen_id g) then skynet_socket_close (listen_id g) w else Ret w);
  Ret (messagepool_free (mp g), w).

(** ** Packets *)
Definition _report (g : gate) (text : string) (w : W) : outcome W :=
  if bool_decide (watchdog g = 0) then Ret w
  else '(_, w) ← skynet_send 0 (watchdog g) PTYPE_TEXT 0 (text_bytes text) w; Ret w.

(** the buffer and the pool are the parts of the gate that forwarding changes *)
Definition _forward (g : gate) (c : connection) (b : databuffer) (p : messagepool) (size : Z) (w : W) :
    outcome (databuffer * messagepool * W) :=
  let fd := c_id c in
  if bool_decide (fd ≤ 0) then Ret (b, p, w)
  else if bool_decide (broker g ≠ 0) then
    '(temp, b, p) ← databuffer_read b p size;
    '(_, w) ← skynet_send 0 (broker g) (Z.lor (client_tag g) PTYPE_TAG_DONTCOPY) fd temp w;
    Ret (b, p, w)
  else if bool_decide (agent c ≠ 0) then
    '(temp, b, p) ← databuffer_read b p size;
    '(_, w) ← skynet_send (client c) (agent c) (Z.lor (client_tag g) PTYPE_TAG_DONTCOPY) fd temp w;
    Ret (b, p, w)
  else if bool_decide (watchdog g ≠ 0) then
    '(tmp, b, p) ← databuffer_read b p size;
    '(_, w) ← skynet_send 0 (watchdog g) (Z.lor PTYPE_TEXT PTYPE_TAG_DONTCOPY) fd
                (text_bytes (fmt_d (c_id c) +:+ " data ") ++ tmp) w;
    Ret (b, p, w)
  else Ret (b, p, w).

Definition MAX_PACKET : Z := 0x1000000.

(** the [for (;;)] of [dispatch_message]: every round but the first consumes a
    header of the buffer *)
Fixpoint packet_loop (fuel : nat) (g : gate) (c : connection) (id : Z)
    (b : databuffer) (p : messagepool) (w : W) : outcome (databuffer * messagepool * W) :=
  match fuel with
  | O => NoFuel
  | S fuel =>
      '(size, b, p) ← databuffer_readheader b p (header_size g);
      if bool_decide (size < 0) then Ret (b, p, w)
      else if bool_decide (0 < size) then
        if bool_decide (MAX_PACKET ≤ size) then
          '(b, p) ← databuffer_clear b p;
          w ← skynet_socket_close id w;
          w ← skynet_error "Recv socket message > 16M" w;
          Ret (b, p, w)
        else
          '(b, p, w) ← _forward g c b p size w;
          packet_loop fuel g c id (databuffer_reset b) p w
      else packet_loop fuel g c id b p w
  end.

Definition dispatch_message (g : gate) (c : connection) (id : Z) (data : message) (w : W) :
    outcome (databuffer * messagepool * W) :=
  '(b, p) ← databuffer_push (c_buffer c) (mp g) data;
  packet_loop (2 + Z.to_nat (size b)) g c id b p w.

(** ** Events of the socket thread *)
Definition dispatch_socket_message (g : gate) (m : socket_message) (w : W) : outcome (gate * W) :=
  if bool_decide (sm_type m = SKYNET_SOCKET_TYPE_DATA) then
    id ← hashid_lookup (g_hash g) (sm_id m);
    if bool_decide (0 ≤ id) then
      c ← get_idx (conn g) id;
      '(b, p, w) ← dispatch_message g c (sm_id m) (sm_buffer m) w;
      l ← set_idx (conn g) id (set_buffer b c);
      Ret (set_mp p (set_table (g_hash g) l g), w)
    else
      w ← skynet_error ("Drop unknown connection " +:+ fmt_d (sm_id m) +:+ " message") w;
      w ← skynet_socket_close (sm_id m) w;
      Ret (set_mp (Messagepool (pools (mp g)) (freelist (mp g))
                     (freed (mp g) ++ [buffer (sm_buffer m)])) g, w)
  else if bool_decide (sm_type m = SKYNET_SOCKET_TYPE_CONNECT) then
    if bool_decide (sm_id m = listen_id g) then Ret (g, w)
    else
      id ← hashid_lookup (g_hash g) (sm_id m);
      if bool_decide (id < 0) then
        w ← skynet_error ("Close unknown connection " +:+ fmt_d (sm_id m)) w;
        w ← skynet_socket_close (sm_id m) w;
        Ret (g, w)
      else Ret (g, w)
  else if bool_decide (sm_type m = SKYNET_SOCKET_TYPE_CLOSE ∨ sm_type m = SKYNET_SOCKET_TYPE_ERROR) then
    '(id, h) ← hashid_remove (g_hash g) (sm_id m);
    if bool_decide (0 ≤ id) then
      c ← get_idx (conn g) id;
      '(_, p) ← databuffer_clear (c_buffer c) (mp g);
      l ← set_idx (conn g) id (empty_connection (-1));
      let g := set_mp p (set_table h l g) in
      w ← _report g (fmt_d (sm_id m) +:+ " close") w;
      Ret (g, w)
    else Ret (set_table h (conn g) g, w)
  else if bool_decide (sm_type m = SKYNET_SOCKET_TYPE_ACCEPT) then
    cassert (bool_decide (listen_id g = sm_id m));;
    if hashid_full (g_hash g) then w ← skynet_socket_close (sm_ud m) w; Ret (g, w)
    else
      '(i, h) ← hashid_insert (g_hash g) (sm_ud m);
      c ← get_idx (conn g) i;
      let name := take (Z.to_nat (REMOTE_NAME_LEN - 1)) (sm_text m) in
      l ← set_idx (conn g) i (Connection (sm_ud m) (agent c) (client c) name (c_buffer c));
      let g := set_table h l g in
      let id := fmt_d (sm_ud m) in
      w ← _report g (id +:+ " open " +:+ id +:+ " " +:+ string_of_bytes name +:+ ":0") w;
      w ← skynet_error ("socket open: " +:+ fmt_x (u32 (sm_ud m))) w;
      Ret (g, w)
  else if bool_decide (sm_type m = SKYNET_SOCKET_TYPE_WARNING) then
    w ← skynet_error ("fd (" +:+ fmt_d (sm_id m) +:+ ") send buffer (" +:+ fmt_d (sm_ud m) +:+ ")K") w;
    Ret (g, w)
  else Ret (g, w).

(** ** Text commands *)

(** the word before the first space, and the text from the space on *)
Definition command_word (s : string) : string * string := split_at 32 s.

(** [memcmp(command, name, i) == 0] for the first [i] bytes of the command:
    every prefix of the name passes, the empty one too *)
Definition is_command (word name : string) : bool := String.prefix word name.

(** [_parm]: the text after the word and the spaces behind it *)
Fixpoint _parm (s : string) : string :=
  match s with
  | String c s' => if decide (char_code c = 32) then _parm s' else s
  | EmptyString => EmptyString
  end.

(** [strsep(&p, " ")]: the token, and the rest when there was a space *)
Definition strsep_space (s : string) : string * option string :=
  match split_at 32 s with
  | (a, String _ b) => (a, Some b)
  | (a, EmptyString) => (a, None)
  end.

Definition _forward_agent (g : gate) (fd agentaddr clientaddr : Z) : outcome gate :=
  id ← hashid_lookup (g_hash g) fd;
  if bool_decide (0 ≤ id) then
    c ← get_idx (conn g) id;
    l ← set_idx (conn g) id (Connection (c_id c) agentaddr clientaddr (remote_name c) (c_buffer c));
    Ret (set_table (g_hash g) l g)
  else Ret g.

(** [p + 1] on a token: behind an empty token is the text after its space *)
Definition after_first (s rest : string) : string :=
  match s with EmptyString => rest | String _ s => s end.
(** [p + 1] on the last token; behind an empty one is memory the text left *)
Definition after_first_last (s : string) : outcome string :=
  match s with EmptyString => Undef | String _ s => Ret s end.

Definition ctrl_forward (g : gate) (parm : string) : outcome gate :=
  match strsep_space parm with
  | (_, None) => Ret g
  | (idstr, Some rest) =>
      let id := i32 (strtol idstr 10) in
      match strsep_space rest with
      | (_, None) => Ret g
      | (agent, Some client) =>
          cl ← after_first_last client;
          _forward_agent g id (u32 (strtoul (after_first agent client) 16)) (u32 (strtoul cl 16))
      end
  end.

Definition _ctrl (g : gate) (msg : string) (w : W) : outcome (gate * W) :=
  match msg with
  | EmptyString => Ret (g, w)
  | _ =>
    let '(word, rest) := command_word msg in
    if is_command word "kick" then
      let uid := i32 (strtol (_parm rest) 10) in
      id ← hashid_lookup (g_hash g) uid;
      if bool_decide (0 ≤ id) then w ← skynet_socket_close uid w; Ret (g, w) else Ret (g, w)
    else if is_command word "forward" then g ← ctrl_forward g (_parm rest); Ret (g, w)
    else if is_command word "broker" then
      '(b, w) ← skynet_queryname (_parm rest) w; Ret (set_broker b g, w)
    else if is_command word "start" then
      let uid := i32 (strtol (_parm rest) 10) in
      id ← hashid_lookup (g_hash g) uid;
      if bool_decide (0 ≤ id) then w ← skynet_socket_start uid w; Ret (g, w) else Ret (g, w)
    else if is_command word "close" then
      if bool_decide (0 ≤ listen_id g)
      then w ← skynet_socket_close (listen_id g) w; Ret (set_listen (-1) g, w)
      else Ret (g, w)
    else w ← skynet_error ("[gate] Unkown command : " +:+ msg) w; Ret (g, w)
  end.

(** the four bytes of a socket id, least significant first; the shift of the
    last one into the sign bit wraps *)
Definition client_socket (idbuf : list Z) : outcome Z :=
  match idbuf with
  | [a; b; c; d] =>
      Ret (u32 (Z.lor (Z.lor (Z.lor a (Z.shiftl b 8)) (Z.shiftl c 16)) (Z.shiftl d 24)))
  | _ => Undef
  end.

(** what a service gets: text, bytes for a client, or an event of a socket *)
Inductive gate_message : Type :=
  | GText (msg : string)
  | GClient (msg : list Z)
  | GSocket (m : socket_message)
  | GOther.

(** returns 1 when it keeps the message *)
Definition _cb (g : gate) (source : Z) (msg : gate_message) (w : W) : outcome (Z * gate * W) :=
  match msg with
  | GText text => '(g, w) ← _ctrl g text w; Ret (0, g, w)
  | GClient msg =>
      let sz := Zlen msg in
      if bool_decide (sz ≤ 4) then
        w ← skynet_error ("Invalid client message from " +:+ fmt_x source) w; Ret (0, g, w)
      else
        uid ← client_socket (slice msg (sz - 4) 4);
        id ← hashid_lookup (g_hash g) (i32 uid);
        if bool_decide (0 ≤ id) then
          w ← skynet_socket_send (i32 uid) (slice msg 0 (sz - 4)) w; Ret (1, g, w)
        else
          w ← skynet_error ("Invalid client id " +:+ fmt_d (i32 uid) +:+ " from " +:+ fmt_x source) w;
          Ret (0, g, w)
  | GSocket m => '(g, w) ← dispatch_socket_message g m w; Ret (0, g, w)
  | GOther => Ret (0, g, w)
  end.

(** ** Starting *)

(** the text before the last ':' and after it: [strrchr] *)
Fixpoint split_last (c : Z) (s : string) : option (string * string) :=
  match s with
  | EmptyString => None
  | String d s' =>
      match split_last c s' with
      | Some (a, b) => Some (String d a, b)
      | None => if decide (char_code d = c) then Some (EmptyString, s') else None
      end
  end.

(** 1 on failure *)
Definition start_listen (g : gate) (listen_addr : string) (w : W) : outcome (Z * gate * W) :=
  let '(host, portstr) := match split_last 58 listen_addr with
                          | None => (EmptyString, listen_addr)
                          | Some (host, portstr) => (host, portstr)
                          end in
  let port := i32 (strtol portstr 10) in
  if bool_decide (port ≤ 0) then
    w ← skynet_error ("Invalid gate address " +:+ listen_addr) w; Ret (1, g, w)
  else
    '(id, w) ← skynet_socket_listen host port BACKLOG w;
    let g := set_listen id g in
    if bool_decide (id < 0) then Ret (1, g, w)
    else w ← skynet_socket_start id w; Ret (0, g, w).

(** the parameters [sscanf] finds with "%c %s %s %d %d", and how many *)
Record gate_parm : Type := GateParm {
  p_n : Z;
  p_header : Z;
  p_watchdog : string;
  p_binding : string;
  p_client_tag : Z;
  p_max : Z
}.

Definition scan_parm (s : string) : gate_parm :=
  match s with
  | EmptyString => GateParm (-1) 0 "" "" 0 0
  | String h s =>
      let h := char_code h in
      match scan_word s with
      | None => GateParm 1 h "" "" 0 0
      | Some (wd, s) =>
          match scan_word s with
          | None => GateParm 2 h wd "" 0 0
          | Some (b, s) =>
              match scan_int s with
              | None => GateParm 3 h wd b 0 0
              | Some (tag, s) =>
                  match scan_int s with
                  | None => GateParm 4 h wd b (i32 tag) 0
                  | Some (mx, _) => GateParm 5 h wd b (i32 tag) (i32 mx)
                  end
              end
          end
      end
  end.

Definition header_S : Z := 83.
Definition header_L : Z := 76.

Definition gate_init (g : gate) (parm : option string) (w : W) :
    outcome (Z * gate * W) :=
  match parm with
  | None => Ret (1, g, w)
  | Some parm =>
      let p := scan_parm parm in
      if bool_decide (p_n p < 4) then
        w ← skynet_error ("Invalid gate parm " +:+ parm) w; Ret (1, g, w)
      else if bool_decide (p_max p ≤ 0) then
        w ← skynet_error "Need max connection" w; Ret (1, g, w)
      else if bool_decide (p_header p ≠ header_S ∧ p_header p ≠ header_L) then
        w ← skynet_error "Invalid data header style" w; Ret (1, g, w)
      else
        let tag := if bool_decide (p_client_tag p = 0) then PTYPE_CLIENT else p_client_tag p in
        '(wd, w) ← (match p_watchdog p with
                    | String c _ =>
                        if decide (char_code c = 33) then Ret (Some 0, w)
                        else
                          '(h, w) ← skynet_queryname (p_watchdog p) w;
                          if bool_decide (h = 0) then
                            w ← skynet_error ("Invalid watchdog " +:+ p_watchdog p) w; Ret (None, w)
                          else Ret (Some h, w)
                    | EmptyString => Undef
                    end);
        match wd with
        | None => Ret (1, g, w)
        | Some wd =>
            h ← hashid_init (p_max p);
            w ← skynet_callback w;
            start_listen
              (Gate (listen_id g) wd (broker g) tag
                 (if bool_decide (p_header p = header_S) then 2 else 4) (p_max p) h
                 (replicate (Z.to_nat (p_max p)) (empty_connection (-1))) (mp g))
              (p_binding p) w
        end
  end.
End gate.
