(* ===== verification/GateSpec.v ===== *)
(** * What the gate does with a byte stream

    The packets of a stream are defined on its bytes, and on whether somebody takes
    packets; the theorem says that the gate forwards exactly these, however the
    stream was cut into chunks, and keeps the rest. *)
From S2P Require Import Prelude CLib CNum Module DataBuffer ServiceApi HashId Gate.
#[local] Open Scope Z_scope.

(** what is left of a stream after its complete packets: an incomplete packet; a length of
    2^31 or more, which the code takes for a negative one; or a packet that is too big *)
Inductive ending : Type := More (rest : list Z) | Stuck (rest : list Z) | TooBig.

(** the value of a big-endian length *)
Definition big_endian (hd : list Z) : Z := foldl (λ n x, n * 256 + x) 0 hd.

(** [taken]: somebody takes the packets; otherwise the body of a packet is not consumed,
    and is read for further lengths *)
Fixpoint parse (fuel : nat) (taken : bool) (hs : Z) (bs : list Z) : list (list Z) * ending :=
  match fuel with
  | O => ([], More bs)
  | S fuel =>
      if decide (Zlen bs < hs) then ([], More bs)
      else
        let n := big_endian (take (Z.to_nat hs) bs) in
        let body := drop (Z.to_nat hs) bs in
        if decide (2 ^ 31 ≤ n) then ([], Stuck bs)
        else if decide (Zlen body < n) then ([], More bs)
        else if decide (n = 0) then parse fuel taken hs body
        else if decide (MAX_PACKET ≤ n) then ([], TooBig)
        else if taken then
          let '(fs, e) := parse fuel taken hs (drop (Z.to_nat n) body) in
          (take (Z.to_nat n) body :: fs, e)
        else parse fuel taken hs body
  end.
Definition packets (taken : bool) (hs : Z) (bs : list Z) : list (list Z) * ending :=
  parse (S (length bs)) taken hs bs.

Definition octets (bs : list Z) : Prop := Forall (λ b, 0 ≤ b < 256) bs.

(** the length as the code computes it, in an [int] *)
Definition length_of (hd : list Z) : Z := match header_value hd with Ret n => n | _ => 0 end.

Lemma i32_neg m : 2 ^ 31 ≤ m → 0 ≤ m < 2 ^ 32 → i32 m < 0.
Proof.
  intros. unfold i32. replace (m + 2 ^ 31) with (m - 2 ^ 31 + 1 * 2 ^ 32) by lia.
  rewrite Z.mod_add, Z.mod_small by lia. lia.
Qed.

Lemma length_of_spec hd hs : hs = 2 ∨ hs = 4 → Zlen hd = hs → octets hd →
  0 ≤ big_endian hd < 2 ^ 32 ∧ length_of hd = i32 (big_endian hd).
Proof.
  intros Hhs Hl Hb. unfold octets in Hb. destruct hd as [|a [|b [|c [|d [|e l]]]]]; unfold Zlen in Hl; simpl in Hl;
    try (destruct Hhs; lia); unfold length_of, big_endian; cbn [header_value foldl];
    rewrite !Forall_cons in Hb; destruct_and!.
  - rewrite Z.shiftl_mul_pow2, (Z.lor_comm _ b), (lor_high b a 8) by lia. rewrite i32_small; lia.
  - rewrite !Z.shiftl_mul_pow2 by lia.
    rewrite (Z.lor_comm (a * 2 ^ 24)), (lor_high (b * 2 ^ 16) a 24) by lia.
    replace (b * 2 ^ 16 + a * 2 ^ 24) with ((b + a * 256) * 2 ^ 16) by lia.
    rewrite (Z.lor_comm (_ * 2 ^ 16)), (lor_high (c * 2 ^ 8) _ 16) by lia.
    replace (c * 2 ^ 8 + (b + a * 256) * 2 ^ 16) with ((c + (b + a * 256) * 256) * 2 ^ 8) by lia.
    rewrite (Z.lor_comm (_ * 2 ^ 8)), (lor_high d _ 8) by lia.
    split; [lia|]. f_equal. lia.
Qed.

(** the bytes a buffer stands for: its header, when already read, and its content *)
Definition pending (hs : Z) (b : databuffer) (bs : list Z) : Prop :=
  header b = 0 ∧ bs = content b ∨
  header b ≠ 0 ∧ ∃ hd, Zlen hd = hs ∧ header_value hd = Ret (header b) ∧ bs = hd ++ content b.

Lemma header_value_len hd hs : hs = 2 ∨ hs = 4 → Zlen hd = hs → ∃ n, header_value hd = Ret n.
Proof.
  intros Hhs Hl. destruct hd as [|a [|b [|c [|d [|e l]]]]]; unfold Zlen in Hl; simpl in Hl;
    try (destruct Hhs; lia); eexists; reflexivity.
Qed.

Section packets.
Context {W : Type} `{!ServiceApi W}.

(** one packet sent on: to the broker, to the agent in the name of the client,
    or to the watchdog as text *)
Definition forward_packet (g : gate) (c : connection) (payload : list Z) (w : W) : outcome W :=
  '(_, w) ← (if bool_decide (broker g ≠ 0)
             then skynet_send 0 (broker g) (Z.lor (client_tag g) PTYPE_TAG_DONTCOPY) (c_id c) payload w
             else if bool_decide (agent c ≠ 0)
             then skynet_send (client c) (agent c) (Z.lor (client_tag g) PTYPE_TAG_DONTCOPY) (c_id c)
                    payload w
             else skynet_send 0 (watchdog g) (Z.lor PTYPE_TEXT PTYPE_TAG_DONTCOPY) (c_id c)
                    (text_bytes (fmt_d (c_id c) +:+ " data ") ++ payload) w);
  Ret w.

Fixpoint forward_packets (g : gate) (c : connection) (l : list (list Z)) (w : W) : outcome W :=
  match l with
  | [] => Ret w
  | p :: l => w ← forward_packet g c p w; forward_packets g c l w
  end.

(** somebody takes the packets of the connection *)
Definition has_consumer (g : gate) (c : connection) : bool :=
  bool_decide (0 < c_id c ∧ (broker g ≠ 0 ∨ agent c ≠ 0 ∨ watchdog g ≠ 0)).

Lemma forward_consumes g c b p n : has_consumer g c = true → db_wf b → 0 < n ≤ size b →
  ∃ b' p', (∀ w, _forward g c b p n w =
              w ← forward_packet g c (take (Z.to_nat n) (content b)) w; Ret (b', p', w)) ∧
    db_wf b' ∧ content b' = drop (Z.to_nat n) (content b) ∧ nodes b' p' = nodes b p ∧
    buffers b' p' = buffers b p.
Proof.
  intros [Hfd Hc]%bool_decide_eq_true_1 Hwf Hn.
  destruct (databuffer_read_spec b p n Hwf Hn) as (b' & p' & E & H1 & H2 & _ & _ & H3 & H4 & _).
  exists b', p'. split; [|done]. intros w. unfold _forward, forward_packet.
  rewrite bool_decide_eq_false_2 by lia.
  case_bool_decide as Hb; [rewrite E; cbn; by destruct (skynet_send _ _ _ _ _ w) as [[]| | |]|].
  case_bool_decide as Ha; [rewrite E; cbn; by destruct (skynet_send _ _ _ _ _ w) as [[]| | |]|].
  rewrite bool_decide_eq_true_2 by tauto.
  rewrite E; cbn; by destruct (skynet_send _ _ _ _ _ w) as [[]| | |].
Qed.

Lemma forward_leaves g c b p n w : has_consumer g c = false → _forward g c b p n w = Ret (b, p, w).
Proof.
  intros Hc%bool_decide_eq_false_1. unfold _forward. case_bool_decide as Hfd; [done|].
  assert (0 < c_id c) by lia. by repeat (case_bool_decide; [tauto|]).
Qed.

(** reading the header of the next packet, on every branch *)
Lemma readheader_spec hs b p bs : hs = 2 ∨ hs = 4 → db_wf b → pending hs b bs →
  ∃ b' p', db_wf b' ∧ nodes b' p' = nodes b p ∧ buffers b' p' = buffers b p ∧
    if decide (Zlen bs < hs) then
      databuffer_readheader b p hs = Ret (-1, b', p') ∧ b' = b ∧ header b = 0
    else
      let n := length_of (take (Z.to_nat hs) bs) in
      let body := drop (Z.to_nat hs) bs in
      content b' = body ∧ header b' = n ∧
      header_value (take (Z.to_nat hs) bs) = Ret n ∧
      databuffer_readheader b p hs = Ret (if decide (Zlen body < n) then -1 else n, b', p').
Proof.
  intros Hhs Hwf Hp. unfold databuffer_readheader. pose proof (wf_size _ Hwf) as Hsz.
  destruct Hp as [[H0 ->]|[H0 (hd & Hl & Hv & ->)]].
  - rewrite (bool_decide_eq_true_2 (header b = 0)) by done. rewrite Hsz. case_decide as Hlt.
    + exists b, p. rewrite bool_decide_eq_true_2 by done. done.
    + rewrite bool_decide_eq_false_2 by done.
      destruct (databuffer_read_spec b p hs Hwf) as (b' & p' & E & H1 & H2 & H2' & _ & H3 & H4 & _); [lia|].
      rewrite E. cbn [mbind outcome_bind].
      destruct (header_value_len (take (Z.to_nat hs) (content b)) hs Hhs) as [n Hn].
      { unfold Zlen in *. rewrite length_take. lia. }
      rewrite Hn. cbn [mbind outcome_bind]. exists (set_header n b'), p'.
      assert (length_of (take (Z.to_nat hs) (content b)) = n) as -> by (unfold length_of; by rewrite Hn).
      split; [by destruct H1|]. split; [done|]. split; [done|]. cbn.
      change (content (set_header n b')) with (content b'). split; [done|]. split; [done|].
      split; [done|]. rewrite H2', Hsz.
      assert (Zlen (drop (Z.to_nat hs) (content b)) = Zlen (content b) - hs) as ->
        by (apply drop_Zlen; lia).
      case_bool_decide; case_decide; done || lia.
  - rewrite (bool_decide_eq_false_2 (header b = 0)) by done. cbn [mbind outcome_bind].
    exists b, p. split; [done|]. split; [done|]. split; [done|].
    rewrite Zlen_app. pose proof (Zlen_nonneg (content b)).
    rewrite decide_False by lia.
    assert (take (Z.to_nat hs) (hd ++ content b) = hd) as ->
      by (apply take_app_length'; unfold Zlen in Hl; lia).
    assert (drop (Z.to_nat hs) (hd ++ content b) = content b) as ->
      by (apply drop_app_length'; unfold Zlen in Hl; lia).
    unfold length_of. rewrite Hv, Hsz. split; [done|]. split; [done|]. split; [done|].
    case_bool_decide; case_decide; done || lia.
Qed.

(** how many rounds the loop may need: one for the packet whose header was read before
    and one for every header after it *)
Definition rounds_left (b : databuffer) : nat :=
  (length (content b) + (if decide (header b = 0)%Z then 0 else 1))%nat.

(** a round with a complete header: the packet is there, or the loop ends and the buffer
    stands for the same bytes *)
Lemma header_round hs b p bs : hs = 2 ∨ hs = 4 → db_wf b → octets bs → pending hs b bs → hs ≤ Zlen bs →
  let n := big_endian (take (Z.to_nat hs) bs) in
  let body := drop (Z.to_nat hs) bs in
  ∃ b1 p1, db_wf b1 ∧ nodes b1 p1 = nodes b p ∧ buffers b1 p1 = buffers b p ∧
    content b1 = body ∧ 0 ≤ n ∧ (length body < rounds_left b)%nat ∧
    if decide (2 ^ 31 ≤ n ∨ Zlen body < n)
    then (∃ k, k < 0 ∧ databuffer_readheader b p hs = Ret (k, b1, p1)) ∧ pending hs b1 bs
    else databuffer_readheader b p hs = Ret (n, b1, p1) ∧ header b1 = n.
Proof.
  intros Hhs Hwf Hby Hp Hlen n body.
  destruct (readheader_spec hs b p bs Hhs Hwf Hp) as (b1 & p1 & Hwf1 & Hn1 & Hb1 & Hcase).
  rewrite decide_False in Hcase by lia. destruct Hcase as (Hc & Hh & Hv & E). fold body in Hc, E.
  assert (Zlen (take (Z.to_nat hs) bs) = hs) as Hl by (unfold Zlen in *; rewrite length_take; lia).
  destruct (length_of_spec _ hs Hhs Hl) as [Hbe Hlo]; [by apply Forall_take|]. fold n in Hbe, Hlo.
  exists b1, p1. split_and!; try done; [lia| |].
  { unfold rounds_left, body. rewrite length_drop. destruct Hp as [[H0 ->]|[H0 (hd & Hl' & _ & ->)]].
    - rewrite decide_True by done. unfold Zlen in Hlen. lia.
    - rewrite decide_False, length_app by done. unfold Zlen in Hl'. lia. }
  pose proof (Zlen_nonneg body). destruct (decide (2 ^ 31 ≤ n ∨ Zlen body < n)) as [Hend|Hend].
  - split.
    + destruct (decide (2 ^ 31 ≤ n)) as [Hneg|].
      * exists (length_of (take (Z.to_nat hs) bs)). pose proof (i32_neg n Hneg Hbe).
        split; [lia|]. rewrite E. by rewrite decide_False by lia.
      * exists (-1). split; [done|]. rewrite E, Hlo, i32_small by lia. by rewrite decide_True by lia.
    + right. split.
      * rewrite Hh, Hlo. destruct (decide (2 ^ 31 ≤ n)) as [Hneg|]; [pose proof (i32_neg n Hneg Hbe); lia|].
        rewrite i32_small by lia. lia.
      * exists (take (Z.to_nat hs) bs). rewrite Hh, Hc. unfold body. by rewrite take_drop.
  - rewrite i32_small in Hlo by lia. rewrite E, Hh, Hlo. by rewrite decide_False by lia.
Qed.

(** what the loop does on the packets [fs] of a stream with the ending [e] *)
Definition loop_result (g : gate) (c : connection) (id : Z) (b : databuffer) (p : messagepool)
    (run : W → outcome (databuffer * messagepool * W)) (fs : list (list Z)) (e : ending) : Prop :=
  ∃ b' p',
    (∀ w, run w =
       w ← forward_packets g c fs w;
       match e with
       | More _ | Stuck _ => Ret (b', p', w)
       | TooBig => w ← skynet_socket_close id w; w ← skynet_error "Recv socket message > 16M" w;
                   Ret (b', p', w)
       end) ∧
    db_wf b' ∧ nodes b' p' = nodes b p ∧ buffers b' p' = buffers b p ∧
    match e with
    | More rest | Stuck rest => pending (header_size g) b' rest
    | TooBig => b' = empty_buffer
    end.

Lemma forward_packets_app g c l fs w :
  forward_packets g c (l ++ fs) w = w ← forward_packets g c l w; forward_packets g c fs w.
Proof.
  revert w. induction l as [|x l IH]; intros w; [done|]. cbn [app forward_packets].
  destruct (forward_packet g c x w) as [w'| | |]; try done. apply IH.
Qed.

(** a round, and the loop behind it *)
Lemma loop_result_step g c id b p b1 p1 run run1 l fs e :
  loop_result g c id b1 p1 run1 fs e → nodes b1 p1 = nodes b p → buffers b1 p1 = buffers b p →
  (∀ w, run w = w ← forward_packets g c l w; run1 w) → loop_result g c id b p run (l ++ fs) e.
Proof.
  intros (b' & p' & Ew & Hwf & Hn & Hb & He) Hn1 Hb1 Hrun. exists b', p'.
  split; [|split_and!; try done; congruence]. intros w. rewrite Hrun, forward_packets_app.
  destruct (forward_packets g c l w) as [w'| | |]; try done. apply Ew.
Qed.

(** the loop on a buffer that stands for [bs] *)
Lemma packet_loop_spec g c id : header_size g = 2 ∨ header_size g = 4 →
  ∀ fuel pf b p bs, db_wf b → octets bs → pending (header_size g) b bs →
  (length bs < pf)%nat → (rounds_left b < fuel)%nat →
  let '(fs, e) := parse pf (has_consumer g c) (header_size g) bs in
  loop_result g c id b p (packet_loop fuel g c id b p) fs e.
Proof.
  intros Hhs. induction fuel as [|fuel IH]; intros pf b p bs Hwf Hby Hp Hpf Hfuel; [lia|].
  destruct pf as [|pf]; [lia|]. cbn [parse].
  destruct (decide (Zlen bs < header_size g)) as [Hshort|Hshort].
  { destruct (readheader_spec (header_size g) b p bs Hhs Hwf Hp) as (b1 & p1 & _ & Hn1 & Hb1 & Hcase).
    rewrite decide_True in Hcase by done. destruct Hcase as (E & -> & _). exists b, p1.
    split; [|by split_and!]. intros w. cbn [packet_loop]. by rewrite E. }
  destruct (header_round (header_size g) b p bs Hhs Hwf Hby Hp ltac:(lia))
    as (b1 & p1 & Hwf1 & Hn1 & Hb1 & Hc & Hpos & Hr & Hround).
  set (n := big_endian _) in *. set (body := drop _ bs) in *.
  assert (octets body) as Hbody by (by apply Forall_drop).
  assert (length body < length bs)%nat as Hlb by (unfold body; rewrite length_drop; unfold Zlen in *; lia).
  destruct (decide (2 ^ 31 ≤ n ∨ Zlen body < n)) as [Hend|Hend].
  { destruct Hround as [(k & Hk & E) Hpd].
    assert (∀ e, e = Stuck bs ∨ e = More bs → loop_result g c id b p (packet_loop (S fuel) g c id b p) [] e) as Hstop.
    { intros e He. exists b1, p1. split; [|split_and!; try done; by destruct He as [-> | ->]].
      intros w. cbn [packet_loop forward_packets]. rewrite E. cbn [mbind outcome_bind].
      rewrite bool_decide_eq_true_2 by done. by destruct He as [-> | ->]. }
    destruct (decide (2 ^ 31 ≤ n)); [apply Hstop; by left|]. rewrite decide_True by lia. apply Hstop. by right. }
  rewrite decide_False by lia. rewrite decide_False by lia. destruct Hround as [E Hh].
  assert (∀ fs e b2 p2 run, loop_result g c id b2 p2 run fs e → nodes b2 p2 = nodes b1 p1 →
    buffers b2 p2 = buffers b1 p1 → ∀ l, (∀ w, packet_loop (S fuel) g c id b p w = w ← forward_packets g c l w; run w) →
    loop_result g c id b p (packet_loop (S fuel) g c id b p) (l ++ fs) e) as Hstep.
  { intros fs e b2 p2 run Hres Hn2 Hb2 l Hrun. eapply loop_result_step; [exact Hres|congruence..|exact Hrun]. }
  destruct (decide (n = 0)) as [H0|H0].
  { specialize (IH pf b1 p1 body Hwf1 Hbody). destruct (parse pf _ _ body) as [fs e].
    apply (Hstep fs e b1 p1 (packet_loop fuel g c id b1 p1)) with (l := []); [|done..|].
    - apply IH; [left; split; congruence|lia|]. unfold rounds_left. rewrite Hc, decide_True by congruence. lia.
    - intros w. cbn [packet_loop forward_packets]. rewrite E. cbn [mbind outcome_bind].
      rewrite bool_decide_eq_false_2 by lia. by rewrite bool_decide_eq_false_2 by lia. }
  destruct (decide (MAX_PACKET ≤ n)) as [Hbig|Hbig].
  { destruct (databuffer_clear_spec b1 p1) as (p' & Ec & Hn' & Hb' & _).
    exists empty_buffer, p'. split; [|split_and!; try done; try congruence; apply empty_wf].
    intros w. cbn [packet_loop forward_packets]. rewrite E. cbn [mbind outcome_bind].
    rewrite bool_decide_eq_false_2 by lia. rewrite bool_decide_eq_true_2 by lia.
    rewrite bool_decide_eq_true_2 by done. by rewrite Ec. }
  assert (∀ b2, db_wf b2 → db_wf (databuffer_reset b2)) as Hreset by (by intros b2 []).
  destruct (has_consumer g c) eqn:Hcons.
  - assert (0 < n ≤ size b1) as Hn by (rewrite (wf_size _ Hwf1), Hc; lia).
    destruct (forward_consumes g c b1 p1 n Hcons Hwf1 Hn) as (b2 & p2 & Ef & Hwf2 & Hc2 & Hn2 & Hb2).
    specialize (IH pf (databuffer_reset b2) p2 (drop (Z.to_nat n) body) (Hreset _ Hwf2)).
    destruct (parse pf _ _ (drop _ body)) as [fs e]. rewrite Hc in *.
    apply (Hstep fs e (databuffer_reset b2) p2 (packet_loop fuel g c id (databuffer_reset b2) p2))
      with (l := [take (Z.to_nat n) body]); [|done..|].
    + apply IH; [by apply Forall_drop|by left|rewrite length_drop; lia|]. unfold rounds_left.
      change (content (databuffer_reset b2)) with (content b2). rewrite Hc2, length_drop, decide_True by done. lia.
    + intros w. cbn [packet_loop forward_packets]. rewrite E. cbn [mbind outcome_bind].
      rewrite bool_decide_eq_false_2 by lia. rewrite bool_decide_eq_true_2 by lia.
      rewrite bool_decide_eq_false_2 by lia. rewrite Ef. by destruct (forward_packet g c _ w).
  - specialize (IH pf (databuffer_reset b1) p1 body (Hreset _ Hwf1) Hbody).
    destruct (parse pf _ _ body) as [fs e].
    apply (Hstep fs e (databuffer_reset b1) p1 (packet_loop fuel g c id (databuffer_reset b1) p1))
      with (l := []); [|done..|].
    + apply IH; [by left|lia|]. unfold rounds_left. change (content (databuffer_reset b1)) with (content b1).
      rewrite Hc, decide_True by done. lia.
    + intros w. cbn [packet_loop forward_packets]. rewrite E. cbn [mbind outcome_bind].
      rewrite bool_decide_eq_false_2 by lia. rewrite bool_decide_eq_true_2 by lia.
      rewrite bool_decide_eq_false_2 by lia. by rewrite (forward_leaves g c b1 p1 n w Hcons).
Qed.

(** C10. Packets. A chunk that arrives makes the gate send on exactly the complete packets
    of the bytes pending before and the chunk, in order, and nothing else, however the
    stream was cut; the rest stays pending. A complete packet of 16M and less than 2^31
    bytes empties the buffer, closes the socket and is reported, after the packets before
    it were sent. A length of 2^31 or more ends the stream for good without that: the code
    reads it as a negative number, and everything from there on stays pending. When nobody
    takes the packets of the connection (no broker, agent or watchdog), the body of a packet
    stays in the buffer and is parsed as further lengths. No node and no buffer is lost.
    Bytes pending beyond INT_MAX overflow the buffer's [int] size. *)
Theorem gate_reassembles g c id data bs : header_size g = 2 ∨ header_size g = 4 →
  db_wf (c_buffer c) → 0 ≤ freelist (mp g) →
  octets bs → octets (bytes data) → pending (header_size g) (c_buffer c) bs →
  (INT_MAX < size (c_buffer c) + Zlen (bytes data) → ∀ w, dispatch_message g c id data w = Undef) ∧
  (size (c_buffer c) + Zlen (bytes data) ≤ INT_MAX →
  let '(fs, e) := packets (has_consumer g c) (header_size g) (bs ++ bytes data) in
  ∃ b' p',
    (∀ w, dispatch_message g c id data w =
       w ← forward_packets g c fs w;
       match e with
       | More _ | Stuck _ => Ret (b', p', w)
       | TooBig => w ← skynet_socket_close id w; w ← skynet_error "Recv socket message > 16M" w;
                   Ret (b', p', w)
       end) ∧
    db_wf b' ∧ nodes b' p' = nodes (c_buffer c) (mp g) ∧
    buffers b' p' = buffers (c_buffer c) (mp g) ++ [buffer data] ∧
    match e with
    | More rest | Stuck rest => pending (header_size g) b' rest
    | TooBig => b' = empty_buffer
    end).
Proof.
  intros Hhs Hwf Hf Hbs Hdata Hp. split.
  { intros Hmax w. unfold dispatch_message, databuffer_push, chk_int, INT_MAX in *. by rewrite decide_False by lia. }
  intros Hmax.
  destruct (databuffer_push_spec _ (mp g) data Hwf Hf Hmax)
    as (b1 & p1 & E & Hwf1 & Hc1 & Hs1 & Hh1 & Hn1 & Hb1 & _).
  assert (pending (header_size g) b1 (bs ++ bytes data)) as Hp1.
  { destruct Hp as [[H0 ->]|[H0 (hd & Hl & Hv & ->)]].
    - left. split; [congruence|]. by rewrite Hc1.
    - right. split; [congruence|]. exists hd. rewrite Hh1, Hc1, app_assoc. done. }
  pose proof (packet_loop_spec g c id Hhs (2 + Z.to_nat (size b1))
    (S (length (bs ++ bytes data))) b1 p1 (bs ++ bytes data) Hwf1 ltac:(by apply Forall_app) Hp1 ltac:(lia)) as Hloop.
  unfold packets. destruct (parse _ _ _ _) as [fs e].
  destruct Hloop as (b' & p' & Ew & Hwf' & Hn' & Hb' & He).
  - rewrite (wf_size _ Hwf1). unfold rounds_left, Zlen. case_decide; lia.
  - exists b', p'. split; [|split_and!; try done; congruence].
    intros w. unfold dispatch_message. rewrite E. apply Ew.
Qed.
End packets.

(** ** The table of connections *)

(** [m] maps the sockets to their entries of [conn]; the others are blank *)
Record conns_ok (g : gate) (m : gmap Z Z) : Prop := {
  co_hash : hashid_repr (g_hash g) m;
  co_len : Zlen (conn g) = hcap (g_hash g);
  co_used : ∀ id i, m !! id = Some i → ∃ c, conn g !! Z.to_nat i = Some c ∧ c_id c = id;
  co_free : ∀ i c, 0 ≤ i → conn g !! Z.to_nat i = Some c → (∀ id, m !! id ≠ Some i) →
    c = empty_connection (-1)
}.

Section connections.
Context {W : Type} `{!ServiceApi W}.

Lemma conns_insert g m i id c h : conns_ok g m → hashid_repr h (<[id := i]> m) →
  hcap h = hcap (g_hash g) → 0 ≤ i < hcap h → c_id c = id → m !! id = None →
  (∀ id', m !! id' ≠ Some i) → ∀ l, l = <[Z.to_nat i := c]> (conn g) →
  conns_ok (set_table h l g) (<[id := i]> m).
Proof.
  intros [HR Hl Hu Hf] HR' Hc Hi Hid Hm Hfree l ->. split; cbn.
  - done.
  - rewrite Zlen_insert. congruence.
  - intros id' i' [[<- <-]|[Hne Hm']]%lookup_insert_Some.
    + exists c. split; [|done]. apply list_lookup_insert_eq. unfold Zlen in Hl. lia.
    + destruct (Hu _ _ Hm') as (c' & Hc' & ?). exists c'. split; [|done].
      rewrite list_lookup_insert_ne; [done|]. intros ?.
      destruct (hr_map _ _ HR _ _ Hm') as (_ & ? & _). apply (Hfree id'). rewrite Hm'. f_equal. lia.
  - intros i' c' Hi' Hc' Hno. destruct (decide (i' = i)) as [->|].
    + exfalso. apply (Hno id). by rewrite lookup_insert_eq.
    + rewrite list_lookup_insert_ne in Hc' by lia. apply (Hf i'); [done|done|].
      intros id' Hm'. apply (Hno id'). rewrite lookup_insert_ne; [done|]. congruence.
Qed.

Lemma conns_delete g m i id h p : conns_ok g m → m !! id = Some i → hashid_repr h (delete id m) →
  hcap h = hcap (g_hash g) →
  conns_ok (set_mp p (set_table h (<[Z.to_nat i := empty_connection (-1)]> (conn g)) g)) (delete id m).
Proof.
  intros [HR Hl Hu Hf] Hm HR' Hc. destruct (hr_map _ _ HR _ _ Hm) as (_ & Hi & Hat). split; cbn.
  - done.
  - rewrite Zlen_insert. congruence.
  - intros id' i' [Hne Hm']%lookup_delete_Some. destruct (Hu _ _ Hm') as (c' & Hc' & ?).
    exists c'. split; [|done]. rewrite list_lookup_insert_ne; [done|]. intros ?.
    destruct (hr_map _ _ HR _ _ Hm') as (_ & ? & Hat').
    assert (i = i') by lia. subst. congruence.
  - intros i' c' Hi' Hc' Hno. destruct (decide (i' = i)) as [->|].
    + destruct (Hu _ _ Hm) as (c & Hcc & _). rewrite list_lookup_insert_eq in Hc'; [congruence|].
      by eapply lookup_lt_Some.
    + rewrite list_lookup_insert_ne in Hc' by lia. apply (Hf i'); [done|done|].
      intros id' Hm'. apply (Hno id'). apply lookup_delete_Some. split; [|done].
      intros <-. congruence.
Qed.

(** removal keeps the capacity *)
Lemma remove_cap hi id r hi' : hashid_remove hi id = Ret (r, hi') → hcap hi' = hcap hi.
Proof.
  unfold hashid_remove, clear_node. intros E. apply bind_Ret in E as ([c|] & _ & E); [|by inv_out].
  apply bind_Ret in E as (n & _ & E). case_bool_decide; [by inv_out|].
  apply bind_Ret in E as ([[c' l]|] & _ & E); by inv_out.
Qed.

Lemma dispatch_accept g ev w :
  sm_type ev = SKYNET_SOCKET_TYPE_ACCEPT → listen_id g = sm_id ev →
  dispatch_socket_message g ev w =
    if hashid_full (g_hash g) then w ← skynet_socket_close (sm_ud ev) w; Ret (g, w)
    else
      '(i, h) ← hashid_insert (g_hash g) (sm_ud ev);
      c ← get_idx (conn g) i;
      let name := take 31 (sm_text ev) in
      l ← set_idx (conn g) i (Connection (sm_ud ev) (agent c) (client c) name (c_buffer c));
      let id := fmt_d (sm_ud ev) in
      w ← _report (set_table h l g)
            (id +:+ " open " +:+ id +:+ " " +:+ string_of_bytes name +:+ ":0") w;
      w ← skynet_error ("socket open: " +:+ fmt_x (u32 (sm_ud ev))) w;
      Ret (set_table h l g, w).
Proof.
  intros Ht Hl. unfold dispatch_socket_message. rewrite Ht.
  rewrite (bool_decide_eq_true_2 (listen_id g = sm_id ev)) by done. reflexivity.
Qed.

(** C11. Accepting and closing. The gate's table keeps one entry per open socket,
    with that socket's id, and blank entries elsewhere. A socket accepted while
    there is room gets an entry with no agent, no client and an empty buffer,
    whoever used the entry before; one accepted without room is closed. A
    socket that closes or fails loses its entry, its buffer goes back to the
    pool, and the watchdog is told; an unknown one changes nothing. *)
Theorem gate_connections g m (ev : socket_message) : conns_ok g m →
  (sm_type ev = SKYNET_SOCKET_TYPE_ACCEPT → listen_id g = sm_id ev →
   Z.of_nat (base.size m) = hcap (g_hash g) →
   ∀ w, dispatch_socket_message g ev w = w ← skynet_socket_close (sm_ud ev) w; Ret (g, w)) ∧
  (sm_type ev = SKYNET_SOCKET_TYPE_ACCEPT → listen_id g = sm_id ev → m !! sm_ud ev = None →
   0 ≤ sm_ud ev → sm_ud ev + hcap (g_hash g) ≤ INT_MAX →
   Z.of_nat (base.size m) < hcap (g_hash g) →
   ∃ i g' text1 text2, conns_ok g' (<[sm_ud ev := i]> m) ∧
     conn g' = <[Z.to_nat i := Connection (sm_ud ev) 0 0 (take 31 (sm_text ev)) empty_buffer]> (conn g) ∧
     ∀ w, dispatch_socket_message g ev w =
       w ← _report g text1 w; w ← skynet_error text2 w; Ret (g', w)) ∧
  (sm_type ev = SKYNET_SOCKET_TYPE_CLOSE ∨ sm_type ev = SKYNET_SOCKET_TYPE_ERROR →
   (m !! sm_id ev = None → ∃ g', conns_ok g' m ∧ conn g' = conn g ∧
      ∀ w, dispatch_socket_message g ev w = Ret (g', w)) ∧
   ∀ i c, m !! sm_id ev = Some i → conn g !! Z.to_nat i = Some c →
     ∃ g' text, conns_ok g' (delete (sm_id ev) m) ∧
       freed (mp g') = buffers (c_buffer c) (mp g) ∧
       ∀ w, dispatch_socket_message g ev w = w ← _report g text w; Ret (g', w)).
Proof.
  intros HC. pose proof HC as [HR Hl Hu Hf]. split; [|split].
  - intros Ht Hls Hfull w. rewrite dispatch_accept by done. unfold hashid_full.
    by rewrite (hr_count _ _ HR), bool_decide_eq_true_2 by done.
  - intros Ht Hls Hm Hid Hmax Hroom.
    destruct (insert_spec _ _ HR _ Hm Hid Hmax Hroom) as (i & h & E & HR' & Hi & Hcap & Hfree).
    destruct (get_idx_ok (conn g) i) as (c & Eg & Hlk); [lia|].
    assert (c = empty_connection (-1)) as -> by (apply (Hf i); [lia|done|done]).
    set (c' := Connection (sm_ud ev) 0 0 (take 31 (sm_text ev)) empty_buffer).
    exists i, (set_table h (<[Z.to_nat i := c']> (conn g)) g). eexists _, _.
    split; [|split; [done|]].
    + apply (conns_insert g m i (sm_ud ev) c' h HC HR' Hcap); [lia|done..].
    + intros w. rewrite dispatch_accept by done. unfold hashid_full.
      rewrite (hr_count _ _ HR), bool_decide_eq_false_2 by lia.
      rewrite E. cbn [mbind outcome_bind]. rewrite Eg. cbn [mbind outcome_bind].
      rewrite set_idx_ok by lia. reflexivity.
  - intros Ht.
    destruct (remove_spec _ _ HR (sm_id ev)) as (h & E & HR').
    pose proof (remove_cap _ _ _ _ E) as Hcap.
    assert (∀ w, dispatch_socket_message g ev w =
      '(id, h) ← hashid_remove (g_hash g) (sm_id ev);
      if bool_decide (0 ≤ id) then
        c ← get_idx (conn g) id;
        '(_, p) ← databuffer_clear (c_buffer c) (mp g);
        l ← set_idx (conn g) id (empty_connection (-1));
        w ← _report (set_mp p (set_table h l g)) (fmt_d (sm_id ev) +:+ " close") w;
        Ret (set_mp p (set_table h l g), w)
      else Ret (set_table h (conn g) g, w)) as Edef.
    { intros w. unfold dispatch_socket_message. destruct Ht as [-> | ->]; done. }
    split.
    + intros Hm. rewrite Hm in E. rewrite delete_id in HR' by done.
      exists (set_table h (conn g) g). split; [split; cbn; try done; congruence|]. split; [done|].
      intros w. rewrite Edef, E. done.
    + intros i c Hm Hc. rewrite Hm in E. change (default (-1) (Some i)) with i in E. destruct (hr_map _ _ HR _ _ Hm) as (_ & Hi & _).
      destruct (databuffer_clear_spec (c_buffer c) (mp g)) as (p & Ec & _ & Hb & _).
      exists (set_mp p (set_table h (<[Z.to_nat i := empty_connection (-1)]> (conn g)) g)).
      eexists. split; [by apply conns_delete|]. split.
      * rewrite <- Hb. unfold buffers. cbn. by rewrite app_nil_r.
      * intros w. rewrite Edef, E. cbn [mbind outcome_bind].
        rewrite bool_decide_eq_true_2 by done.
        rewrite (proj2 (get_idx_Ret (conn g) i c)) by (split; [lia|done]).
        cbn [mbind outcome_bind]. rewrite Ec. cbn [mbind outcome_bind].
        rewrite set_idx_ok by (apply lookup_lt_Some in Hc; unfold Zlen; lia). reflexivity.
Qed.
End connections.

(** ** A concrete gate: the log of what it sent *)
#[export] Instance log_api : ServiceApi (list (Z * list Z)) := {|
  skynet_send _ dst _ ses l w := Ret (ses, w ++ [(dst, l)]);
  skynet_socket_close id w := Ret (w ++ [(- id, [])]);
  skynet_socket_start _ w := Ret w;
  skynet_socket_send id l w := Ret (w ++ [(id, l)]);
  skynet_free _ w := Ret w;
  skynet_callback w := Ret w;
  skynet_harbor_start w := Ret w;
  skynet_socket_listen _ _ _ w := Ret (3, w);
  skynet_queryname _ w := Ret (0, w);
  skynet_error _ w := Ret w
|}.

Definition demo_connection (b : databuffer) : connection := Connection 5 9 0 [] b.
Definition demo_gate : gate :=
  Gate 3 0 0 3 2 1
    (Hashid 15 1 0 [HashidNode (-1) None] (replicate 16 None)) [empty_connection (-1)]
    (Messagepool 0 0 []).

Definition set_header_size (n : Z) (g : gate) : gate :=
  Gate (listen_id g) (watchdog g) (broker g) (client_tag g) n (max_connection g) (g_hash g) (conn g) (mp g).

(** the length of the second packet is cut between two chunks; and a length of 2^31 *)
Lemma gate_reassembles_witness :
  (∃ b' p' w', dispatch_message demo_gate
    (demo_connection (Databuffer 0 0 3 [Message 100 [0; 2; 65]])) 5
    (Message 101 [66; 0; 1; 67; 0]) [] = Ret (b', p', w') ∧
    w' = [(9, [65; 66]); (9, [67])] ∧ content b' = [0]) ∧
  ∃ b' p', dispatch_message (set_header_size 4 demo_gate) (demo_connection empty_buffer) 5
    (Message 101 [128; 0; 0; 0; 65]) [] = Ret (b', p', []).
Proof.
  split.
  - pose proof (gate_reassembles demo_gate (demo_connection (Databuffer 0 0 3 [Message 100 [0; 2; 65]]))
      5 (Message 101 [66; 0; 1; 67; 0]) [0; 2; 65]) as H.
    destruct H as [_ H]; [..|destruct H as (b' & p' & E & _ & _ & _ & Hp)].
    + by left.
    + by split; [|left].
    + done.
    + by repeat constructor; lia.
    + by repeat constructor; lia.
    + by left.
    + unfold INT_MAX. simpl. unfold Zlen. simpl. lia.
    + exists b', p', [(9, [65; 66]); (9, [67])]. split; [rewrite E; reflexivity|]. split; [done|].
      destruct Hp as [[_ Hp]|[_ (hd & Hl & _ & Hp)]]; [done|].
      destruct hd as [|x [|y hd]]; unfold Zlen in Hl; simpl in Hl; try lia. discriminate Hp.
  - pose proof (gate_reassembles (set_header_size 4 demo_gate) (demo_connection empty_buffer)
      5 (Message 101 [128; 0; 0; 0; 65]) []) as H.
    destruct H as [_ H]; [..|destruct H as (b' & p' & E & _)].
    + by right.
    + apply empty_wf.
    + done.
    + constructor.
    + by repeat constructor; lia.
    + by left.
    + unfold INT_MAX. simpl. unfold Zlen. simpl. lia.
    + exists b', p'. rewrite E. reflexivity.
Defined.

Lemma gate_connections_witness : ∃ g' i,
  conns_ok g' {[8 := i]} ∧
  ∀ w, dispatch_socket_message demo_gate (SocketMessage SKYNET_SOCKET_TYPE_ACCEPT 3 8
         (Message 0 []) [49; 50]) w = Ret (g', w).
Proof.
  destruct (init_spec 1) as (h & Eh & Hcap & HR); [lia|]. injection Eh as <-.
  assert (conns_ok demo_gate ∅) as HC.
  { split; [exact HR|reflexivity|set_solver|].
    intros i c Hi Hc _. destruct (Z.to_nat i) as [|n]; [by injection Hc as <-|done]. }
  destruct (gate_connections demo_gate ∅ (SocketMessage SKYNET_SOCKET_TYPE_ACCEPT 3 8
         (Message 0 []) [49; 50]) HC) as (_ & Hacc & _).
  destruct Hacc as (i & g' & t1 & t2 & HC' & _ & E);
    [reflexivity|reflexivity|reflexivity|simpl; lia|unfold INT_MAX; simpl; lia
    |rewrite map_size_empty; simpl; lia|].
  exists g', i. split; [by rewrite insert_empty in HC'|]. intros w. rewrite E. reflexivity.
Defined.

(** Without anybody to forward to, the body of a packet is not consumed:
    its bytes are taken for the next header, and the stream is cut wrongly from
    there. Here the body [0;3] of a packet that nobody took is read as the
    length 3, so that the agent which takes over gets the next packet, [65],
    with its length bytes as one of three bytes. *)
Theorem gate_unconsumed_desync : ∃ b1 p1 b2 p2,
  dispatch_message demo_gate (Connection 5 0 0 [] empty_buffer) 5 (Message 100 [0; 2; 0; 3]) []
    = Ret (b1, p1, []) ∧
  dispatch_message (set_mp p1 demo_gate) (demo_connection b1) 5 (Message 101 [0; 1; 65]) []
    = Ret (b2, p2, [(9, [0; 1; 65])]) ∧
  packets true 2 [0; 2; 0; 3; 0; 1; 65] = ([[0; 3]; [65]], More []).
Proof.
  eexists _, _, _, _. split; [reflexivity|]. split; [reflexivity|]. reflexivity.
Qed.
