(* ===== verification/NetPack.v ===== *)
(** * Packets for Lua services: lualib-src/lua-netpack.c

    The second assembler of length-prefixed packets of the program: a queue of
    complete packets, a ring that grows, and a hash table of the incomplete
    packet of every socket. The userdata at index 1 of the Lua stack, the queue
    or nil, is the state; a table chain is the list of its nodes, and a packet's
    buffer the bytes filled so far. *)
From S2P Require Import Prelude CLib DataBuffer.

Definition QUEUESIZE : Z := 1024.
Definition HASHSIZE : Z := 4096.

Record netpack : Type := Netpack { np_id : Z; np_buffer : list Z }.
Definition junk_pack : netpack := Netpack 0 [].

Record uncomplete : Type := Uncomplete {
  u_id : Z;
  u_size : Z;
  u_buffer : list Z;
  u_read : Z;
  u_header : Z
}.

Record queue : Type := Queue {
  q_cap : Z;
  q_head : Z;
  q_tail : Z;
  q_hash : list (list uncomplete);
  q_queue : list netpack
}.

(** what a call returns to Lua *)
Inductive result : Type :=
  | RNone
  | RData (fd : Z) (msg : list Z)
  | RMore
  | RError (fd : Z) (text : list Z)
  | ROpen (fd : Z) (text : list Z)
  | RClose (fd : Z)
  | RWarning (fd size : Z).

(** the sum of the shifted id, as an unsigned number *)
Definition hash_fd (fd : Z) : Z :=
  u32 (Z.shiftr fd 24 + Z.shiftr fd 12 + fd) mod HASHSIZE.

Definition new_queue : queue :=
  Queue QUEUESIZE 0 0 (replicate (Z.to_nat HASHSIZE) []) (replicate (Z.to_nat QUEUESIZE) junk_pack).
Definition get_queue (q : option queue) : queue := default new_queue q.

Definition set_hash (h : list (list uncomplete)) (q : queue) : queue :=
  Queue (q_cap q) (q_head q) (q_tail q) h (q_queue q).

(** the chain without the first node of the id, and that node *)
Fixpoint unchain (l : list uncomplete) (fd : Z) : option (uncomplete * list uncomplete) :=
  match l with
  | [] => None
  | uc :: l =>
      if decide (u_id uc = fd) then Some (uc, l)
      else match unchain l fd with Some (r, l) => Some (r, uc :: l) | None => None end
  end.

Definition find_uncomplete (q : option queue) (fd : Z) : outcome (option uncomplete * option queue) :=
  match q with
  | None => Ret (None, None)
  | Some q =>
      c ← get_idx (q_hash q) (hash_fd fd);
      match unchain c fd with
      | None => Ret (None, Some q)
      | Some (uc, c) => h ← set_idx (q_hash q) (hash_fd fd) c; Ret (Some uc, Some (set_hash h q))
      end
  end.

(** a node put at the front of its chain *)
Definition chain_uncomplete (uc : uncomplete) (q : queue) : outcome queue :=
  c ← get_idx (q_hash q) (hash_fd (u_id uc));
  h ← set_idx (q_hash q) (hash_fd (u_id uc)) (uc :: c);
  Ret (set_hash h q).

Definition save_uncomplete (uc : uncomplete) (q : option queue) : outcome (option queue) :=
  q ← chain_uncomplete uc (get_queue q); Ret (Some q).

Definition expand_queue (q : queue) : outcome queue :=
  copied ← mapM (λ i, get_idx (q_queue q) (Z.rem (q_head q + i) (q_cap q))) (seqZ 0 (q_cap q));
  Ret (Queue (q_cap q + QUEUESIZE) 0 (q_cap q) (q_hash q)
         (copied ++ replicate (Z.to_nat QUEUESIZE) junk_pack)).

Definition push_data (q : option queue) (fd : Z) (buffer : list Z) : outcome (option queue) :=
  let q := get_queue q in
  l ← set_idx (q_queue q) (q_tail q) (Netpack fd buffer);
  let t := q_tail q + 1 in
  let t := if bool_decide (q_cap q ≤ t) then t - q_cap q else t in
  let q := Queue (q_cap q) (q_head q) t (q_hash q) l in
  if bool_decide (q_head q = t) then q ← expand_queue q; Ret (Some q) else Ret (Some q).

Definition read_size (buffer : list Z) : outcome Z :=
  match buffer with
  | a :: b :: _ => Ret (Z.lor (Z.shiftl a 8) b)
  | _ => Undef
  end.

(** an incomplete packet: one byte of its length, or its length and a part *)
Definition half_header (fd b : Z) : uncomplete := Uncomplete fd 0 [] (-1) b.
Definition partial (fd pack_size : Z) (buffer : list Z) : uncomplete :=
  Uncomplete fd pack_size buffer (Zlen buffer) 0.

(** every round consumes at least two bytes *)
Fixpoint push_more (fuel : nat) (q : option queue) (fd : Z) (buffer : list Z) : outcome (option queue) :=
  match buffer with
  | [b] => save_uncomplete (half_header fd b) q
  | _ =>
      pack_size ← read_size buffer;
      let buffer := drop 2 buffer in
      if bool_decide (Zlen buffer < pack_size) then save_uncomplete (partial fd pack_size buffer) q
      else
        q ← push_data q fd (slice buffer 0 pack_size);
        let buffer := drop (Z.to_nat pack_size) buffer in
        if bool_decide (0 < Zlen buffer) then
          match fuel with O => NoFuel | S fuel => push_more fuel q fd buffer end
        else Ret q
  end.

Definition close_uncomplete (q : option queue) (fd : Z) : outcome (option queue) :=
  '(_, q) ← find_uncomplete q fd; Ret q.

(** [filter_data_], where an incomplete packet was found *)
Definition fill_uncomplete (uc : uncomplete) (q : option queue) (fd : Z) (buffer : list Z) :
    outcome (result * option queue) :=
  '(uc, buffer) ←
    (if bool_decide (u_read uc < 0) then
       cassert (bool_decide (u_read uc = -1));;
       match buffer with
       | [] => Undef
       | b :: buffer =>
           Ret (Uncomplete (u_id uc) (Z.lor b (Z.shiftl (u_header uc) 8)) [] 0 (u_header uc), buffer)
       end
     else Ret (uc, buffer));
  let need := u_size uc - u_read uc in
  if bool_decide (Zlen buffer < need) then
    q ← deref q;
    q ← chain_uncomplete (Uncomplete (u_id uc) (u_size uc) (u_buffer uc ++ buffer)
                            (u_read uc + Zlen buffer) (u_header uc)) q;
    Ret (RNone, Some q)
  else
    let pack := u_buffer uc ++ slice buffer 0 need in
    let buffer := drop (Z.to_nat need) buffer in
    if bool_decide (Zlen buffer = 0) then Ret (RData fd pack, q)
    else
      q ← push_data q fd pack;
      q ← push_more (length buffer) q fd buffer;
      Ret (RMore, q).

Definition filter_data (q : option queue) (fd : Z) (buffer : list Z) : outcome (result * option queue) :=
  '(uc, q) ← find_uncomplete q fd;
  match uc with
  | Some uc => fill_uncomplete uc q fd buffer
  | None =>
      match buffer with
      | [b] => q ← save_uncomplete (half_header fd b) q; Ret (RNone, q)
      | _ =>
          pack_size ← read_size buffer;
          let buffer := drop 2 buffer in
          if bool_decide (Zlen buffer < pack_size) then
            q ← save_uncomplete (partial fd pack_size buffer) q; Ret (RNone, q)
          else if bool_decide (Zlen buffer = pack_size) then Ret (RData fd buffer, q)
          else
            q ← push_data q fd (slice buffer 0 pack_size);
            let buffer := drop (Z.to_nat pack_size) buffer in
            q ← push_more (length buffer) q fd buffer;
            Ret (RMore, q)
      end
  end.

(** an event of the socket thread, the text of it when it carries one *)
Record socket_event : Type := SocketEvent {
  m_type : Z;
  m_id : Z;
  m_ud : Z;
  m_text : option (list Z);
  m_data : list Z
}.

Definition lfilter (q : option queue) (m : socket_event) : outcome (result * option queue) :=
  let text := default [] (m_text m) in
  if bool_decide (m_type m = SKYNET_SOCKET_TYPE_DATA) then
    cassert (bool_decide (m_text m = None));;
    filter_data q (m_id m) (take (Z.to_nat (m_ud m)) (m_data m))
  else if bool_decide (m_type m = SKYNET_SOCKET_TYPE_CONNECT) then Ret (RNone, q)
  else if bool_decide (m_type m = SKYNET_SOCKET_TYPE_CLOSE) then
    q ← close_uncomplete q (m_id m); Ret (RClose (m_id m), q)
  else if bool_decide (m_type m = SKYNET_SOCKET_TYPE_ACCEPT) then Ret (ROpen (m_ud m) text, q)
  else if bool_decide (m_type m = SKYNET_SOCKET_TYPE_ERROR) then
    q ← close_uncomplete q (m_id m); Ret (RError (m_id m) text, q)
  else if bool_decide (m_type m = SKYNET_SOCKET_TYPE_WARNING) then Ret (RWarning (m_id m) (m_ud m), q)
  else Ret (RNone, q).

Definition lpop (q : option queue) : outcome (option netpack * option queue) :=
  match q with
  | None => Ret (None, None)
  | Some q =>
      if bool_decide (q_head q = q_tail q) then Ret (None, Some q)
      else
        np ← get_idx (q_queue q) (q_head q);
        let h := q_head q + 1 in
        let h := if bool_decide (q_cap q ≤ h) then 0 else h in
        Ret (Some np, Some (Queue (q_cap q) h (q_tail q) (q_hash q) (q_queue q)))
  end.

Definition lclear (q : option queue) : option queue :=
  match q with
  | None => None
  | Some q => Some (Queue (q_cap q) 0 0 (replicate (Z.to_nat HASHSIZE) []) (q_queue q))
  end.

Definition write_size (len : Z) : list Z := [Z.land (Z.shiftr len 8) 0xff; Z.land len 0xff].

(** [None]: the Lua error about the size *)
Definition lpack (msg : list Z) : option (list Z) :=
  if bool_decide (0x10000 ≤ Zlen msg) then None else Some (write_size (Zlen msg) ++ msg).
