(* ===== verification/NetPackSpec.v ===== *)
(** * What the packet filter of Lua services returns and keeps

    The same contract as the gate's, on a different design: the packets of the
    stream of a socket, however it is cut, with the streams of the other sockets
    untouched, and the queue of complete packets a growing FIFO. *)
From S2P Require Import Prelude CLib DataBuffer NetPack.

(** the packets of a stream with two-byte lengths, and the incomplete rest *)
Fixpoint unpack (fuel : nat) (bs : list Z) : list (list Z) * list Z :=
  match fuel, bs with
  | S fuel, a :: b :: body =>
      let n := Z.lor (Z.shiftl a 8) b in
      if decide (Zlen body < n) then ([], bs)
      else let '(fs, rest) := unpack fuel (drop (Z.to_nat n) body) in
           (take (Z.to_nat n) body :: fs, rest)
  | _, _ => ([], bs)
  end.
Definition unpacked (bs : list Z) : list (list Z) * list Z := unpack (S (length bs)) bs.

Definition bytes_ok (bs : list Z) : Prop := Forall (λ b, 0 ≤ b < 256) bs.

(** the bytes an incomplete packet stands for *)
Definition stands_for (uc : uncomplete) (bs : list Z) : Prop :=
  u_read uc = -1 ∧ bs = [u_header uc] ∨
  u_read uc = Zlen (u_buffer uc) ∧ u_read uc < u_size uc ∧
  ∃ a b, u_size uc = Z.lor (Z.shiftl a 8) b ∧ bs = a :: b :: u_buffer uc.

Definition pending (m : gmap Z uncomplete) (fd : Z) (bs : list Z) : Prop :=
  match m !! fd with
  | None => bs = []
  | Some uc => u_id uc = fd ∧ stands_for uc bs
  end.

(** the hash table as a map *)
Definition table (h : list (list uncomplete)) (m : gmap Z uncomplete) : Prop :=
  Zlen h = HASHSIZE ∧
  ∀ k c, 0 ≤ k → h !! Z.to_nat k = Some c →
    NoDup (u_id <$> c) ∧ ∀ uc, uc ∈ c ↔ m !! u_id uc = Some uc ∧ hash_fd (u_id uc) = k.

Record repr (q : queue) (xs : list netpack) (m : gmap Z uncomplete) : Prop := {
  r_len : Zlen (q_queue q) = q_cap q;
  r_head : 0 ≤ q_head q < q_cap q;
  r_ring : ring_repr (q_queue q) (q_head q) (Zlen xs) xs;
  r_tail : q_tail q = (q_head q + Zlen xs) mod q_cap q;
  r_room : Zlen xs < q_cap q;
  r_table : table (q_hash q) m;
  r_keys : ∀ fd uc, m !! fd = Some uc → u_id uc = fd
}.

Lemma hash_range fd : 0 ≤ hash_fd fd < HASHSIZE.
Proof. apply mod_range. done. Qed.

Lemma new_table : table (replicate (Z.to_nat HASHSIZE) []) ∅.
Proof.
  split; [by apply Zlen_replicate|].
  intros k c Hk [-> _]%lookup_replicate. split; [constructor|]. intros uc. set_solver.
Qed.

Lemma new_repr : repr new_queue [] ∅.
Proof.
  split.
  - by apply Zlen_replicate.
  - done.
  - apply ring_repr_nil.
  - done.
  - done.
  - apply new_table.
  - intros fd uc. by rewrite lookup_empty.
Qed.

(** ** The table *)
Lemma unchain_spec fd l : NoDup (u_id <$> l) →
  match unchain l fd with
  | Some (uc, l') => uc ∈ l ∧ u_id uc = fd ∧ NoDup (u_id <$> l') ∧
                     ∀ x, x ∈ l' ↔ x ∈ l ∧ u_id x ≠ fd
  | None => ∀ x, x ∈ l → u_id x ≠ fd
  end.
Proof.
  induction l as [|uc l IH]; intros Hnd; [set_solver|]. cbn in Hnd |- *.
  apply NoDup_cons in Hnd as [Hn Hnd]. case_decide as E.
  - split; [set_solver|]. split; [done|]. split; [done|]. intros x. rewrite elem_of_cons. split.
    + intros Hx. split; [by right|]. intros Ex. apply Hn. rewrite E, <- Ex.
      by apply list_elem_of_fmap_2.
    + intros [[->|Hx] Hne]; [done|done].
  - specialize (IH Hnd). destruct (unchain l fd) as [[r l']|].
    + destruct IH as (Hr & Hid & Hnd' & Hiff). split; [set_solver|]. split; [done|]. split.
      * cbn. apply NoDup_cons. split; [|done]. intros (x & Ex & Hx%Hiff)%list_elem_of_fmap.
        apply Hn. rewrite Ex. apply list_elem_of_fmap_2. tauto.
      * intros x. rewrite !elem_of_cons, Hiff. naive_solver.
    + set_solver.
Qed.

Lemma chain_of_fd h m fd : table h m → ∃ c, get_idx h (hash_fd fd) = Ret c ∧
  h !! Z.to_nat (hash_fd fd) = Some c.
Proof.
  intros [Hl _]. pose proof (hash_range fd). destruct (get_idx_ok h (hash_fd fd)) as (c & E & Hc);
    [lia|]. eauto.
Qed.

Lemma find_spec q xs m fd : repr (get_queue q) xs m →
  ∃ q', find_uncomplete q fd = Ret (m !! fd, q') ∧ repr (get_queue q') xs (delete fd m) ∧
        (is_Some (m !! fd) → is_Some q').
Proof.
  intros HR. destruct q as [q|].
  2:{ exists None. assert (m = ∅) as ->.
      2:{ rewrite lookup_empty, delete_empty. split; [done|]. split; [done|]. by intros []. }
      apply map_eq. intros k. rewrite lookup_empty. destruct (m !! k) as [uc|] eqn:E; [|done].
      exfalso. pose proof (r_keys _ _ _ HR _ _ E) as Hk. destruct (r_table _ _ _ HR) as [_ Ht].
      destruct (Ht (hash_fd k) []) as [_ Hiff].
      - apply hash_range.
      - pose proof (hash_range k). cbn [get_queue default new_queue q_hash].
        apply lookup_replicate_2. lia.
      - apply (not_elem_of_nil uc). apply Hiff. by rewrite Hk. }
  unfold get_queue in HR. cbn [default find_uncomplete id] in *.
  destruct HR as [H1 H2 H3 H4 H5 H6 H7]. destruct (chain_of_fd _ _ fd H6) as (c & Ec & Hc).
  pose proof (hash_range fd) as Hr. destruct H6 as [Hl Ht].
  destruct (Ht _ _ (proj1 Hr) Hc) as [Hnd Hiff].
  rewrite Ec, Ret_bind. pose proof (unchain_spec fd c Hnd) as Hun.
  destruct (unchain c fd) as [[uc c']|].
  - destruct Hun as (Hin & Hid & Hnd' & Hiff'). rewrite set_idx_ok, Ret_bind by lia.
    apply Hiff in Hin as [Hm _]. rewrite Hid in Hm. rewrite Hm.
    eexists. split; [done|]. split; [|done]. split; cbn; try done.
    + split; [by rewrite Zlen_insert|]. intros k c2 Hk Hc2.
      destruct (decide (k = hash_fd fd)) as [->|Hne].
      * rewrite list_lookup_insert_eq in Hc2 by (unfold Zlen in Hl; lia). injection Hc2 as <-.
        split; [done|]. intros x. rewrite Hiff', Hiff, lookup_delete_Some. clear.
        split; intros [[? ?] ?]; repeat split; auto.
      * rewrite list_lookup_insert_ne in Hc2 by lia. destruct (Ht _ _ Hk Hc2) as [? Hx].
        split; [done|]. intros x. rewrite Hx, lookup_delete_Some. clear - Hne.
        split; [intros [? ?]; repeat split; auto; congruence|tauto].
    + intros fd' uc' [_ Hm']%lookup_delete_Some. eauto.
  - assert (m !! fd = None) as Hm.
    { destruct (m !! fd) as [uc|] eqn:E; [|done]. exfalso. pose proof (H7 _ _ E) as Hid.
      apply (Hun uc); [apply Hiff; by rewrite Hid|done]. }
    rewrite Hm. exists (Some q). split; [done|]. rewrite delete_id by done. by split.
Qed.

Lemma chain_spec q xs m uc : repr q xs m → m !! u_id uc = None →
  ∃ q', chain_uncomplete uc q = Ret q' ∧ repr q' xs (<[u_id uc := uc]> m).
Proof.
  intros [H1 H2 H3 H4 H5 H6 H7] Hm. unfold chain_uncomplete.
  destruct (chain_of_fd _ _ (u_id uc) H6) as (c & Ec & Hc). pose proof (hash_range (u_id uc)) as Hr.
  destruct H6 as [Hl Ht]. destruct (Ht _ _ (proj1 Hr) Hc) as [Hnd Hiff].
  rewrite Ec, Ret_bind, set_idx_ok, Ret_bind by lia.
  eexists. split; [done|]. split; cbn; try done.
  - split; [by rewrite Zlen_insert|]. intros k c2 Hk Hc2.
    destruct (decide (k = hash_fd (u_id uc))) as [->|Hne].
    + rewrite list_lookup_insert_eq in Hc2 by (unfold Zlen in Hl; lia). injection Hc2 as <-. split.
      * cbn. apply NoDup_cons. split; [|done]. intros (x & Ex & Hx%Hiff)%list_elem_of_fmap.
        rewrite Ex in Hm. destruct Hx. congruence.
      * intros x. rewrite elem_of_cons, Hiff, lookup_insert_Some. split.
        -- intros [->|[Hx ?]]; [split; [by left|done]|]. split; [|done]. right. split; [|done]. congruence.
        -- intros [[[Hid ->]|[Hne Hx]] Hh]; [by left|by right].
    + rewrite list_lookup_insert_ne in Hc2 by lia. destruct (Ht _ _ Hk Hc2) as [? Hx].
      split; [done|]. intros x. rewrite Hx, lookup_insert_Some. split.
      * intros [Hx' ?]. split; [|done]. right. split; [congruence|done].
      * intros [[[Hid ->]|[Hne' Hx']] Hh]; [congruence|done].
  - intros fd' uc' [[<- <-]|[_ Hm']]%lookup_insert_Some; eauto.
Qed.

Lemma save_spec q xs m uc : repr (get_queue q) xs m → m !! u_id uc = None →
  ∃ q', save_uncomplete uc q = Ret q' ∧ repr (get_queue q') xs (<[u_id uc := uc]> m).
Proof.
  intros HR Hm. destruct (chain_spec _ _ _ uc HR Hm) as (q' & E & HR').
  exists (Some q'). unfold save_uncomplete. by rewrite E.
Qed.

(** ** The queue *)
Lemma push_data_spec q xs m fd l : repr (get_queue q) xs m →
  ∃ q', push_data q fd l = Ret (Some q') ∧ repr q' (xs ++ [Netpack fd l]) m.
Proof.
  intros [H1 H2 H3 H4 H5 H6 H7]. unfold push_data. set (r := get_queue q) in *.
  pose proof (mod_range (q_head r + Zlen xs) (q_cap r) ltac:(lia)) as Ht. rewrite <- H4 in Ht.
  pose proof (Zlen_nonneg xs) as Hx.
  rewrite set_idx_ok, Ret_bind by lia. set (l' := <[_ := _]> (q_queue r)).
  assert (ring_repr l' (q_head r) (Zlen xs + 1) (xs ++ [Netpack fd l])) as Hring.
  { unfold l'. rewrite H4, <- H1. apply ring_push; [done|lia]. }
  cbv zeta. set (t := if bool_decide (q_cap r ≤ q_tail r + 1) then _ else _).
  assert (t = (q_head r + (Zlen xs + 1)) mod q_cap r) as Et.
  { unfold t. rewrite Z.add_assoc, <- (Zplus_mod_idemp_l (q_head r + Zlen xs)), <- H4.
    rewrite ring_succ by done. case_bool_decide; case_decide; lia. }
  assert (Zlen (xs ++ [Netpack fd l]) = Zlen xs + 1) as Hlen by (by rewrite Zlen_app).
  assert (Zlen l' = q_cap r) as Hl' by (unfold l'; by rewrite Zlen_insert).
  case_bool_decide as Hfull.
  - cbn [q_head] in Hfull. assert (Zlen xs + 1 = q_cap r) as Hcap.
    { destruct (decide (Zlen xs + 1 = q_cap r)); [done|]. exfalso.
      assert ((q_head r + 0) mod q_cap r = (q_head r + (Zlen xs + 1)) mod q_cap r) as E.
      { rewrite <- Et, <- Hfull, Z.add_0_r. apply Z.mod_small. lia. }
      apply ring_offset_inj in E; lia. }
    unfold expand_queue. cbn [q_head q_cap q_queue q_hash].
    set (cell := λ i, default junk_pack (l' !! Z.to_nat ((q_head r + i) mod q_cap r))).
    assert (∀ i, l' !! Z.to_nat ((q_head r + i) mod q_cap r) = Some (cell i)) as Hcell.
    { intros i. unfold cell. pose proof (mod_range (q_head r + i) (q_cap r) ltac:(lia)).
      destruct (lookup_lt_is_Some_2 l' (Z.to_nat ((q_head r + i) mod q_cap r))) as [x Hx'];
        [unfold Zlen in *; lia|]. by rewrite Hx'. }
    rewrite (mapM_Ret _ cell).
    2:{ intros i Hi%elem_of_seqZ. rewrite Z.rem_mod_nonneg by lia.
        apply get_idx_Ret. split; [apply mod_range; lia|apply Hcell]. }
    cbn [mbind outcome_bind]. eexists. split; [done|].
    assert (Zlen (cell <$> seqZ 0 (q_cap r)) = q_cap r) as Hc.
    { unfold Zlen. rewrite length_fmap, length_seqZ. lia. }
    split; cbn; try done.
    + rewrite Zlen_app, Hc. by rewrite Zlen_replicate by (unfold QUEUESIZE; lia).
    + unfold QUEUESIZE. lia.
    + rewrite Hlen, Hcap. rewrite Hcap in Hring. rewrite <- Hl' in Hring |- *.
      eapply ring_unroll; [exact Hring| |].
      * rewrite Zlen_app. unfold Zlen at 2. rewrite length_fmap, length_seqZ.
        pose proof (Zlen_nonneg (replicate (Z.to_nat QUEUESIZE) junk_pack)). lia.
      * intros i Hi. rewrite Hl' in *. rewrite Hcell.
        rewrite lookup_app_l by (rewrite length_fmap, length_seqZ; lia).
        rewrite list_lookup_fmap, lookup_seqZ_lt by lia. cbn. do 2 f_equal. lia.
    + rewrite Hlen, Hcap, Z.mod_small by (unfold QUEUESIZE; lia). done.
    + rewrite Hlen. unfold QUEUESIZE. lia.
  - cbn [q_head] in Hfull. eexists. split; [done|]. split; cbn; try done.
    + by rewrite Hlen.
    + by rewrite Hlen.
    + rewrite Hlen. destruct (decide (Zlen xs + 1 = q_cap r)) as [E|]; [|lia]. exfalso. apply Hfull.
      rewrite Et, E. replace (q_head r + q_cap r) with (q_head r + 1 * q_cap r) by lia.
      rewrite Z.mod_add, Z.mod_small by lia. done.
Qed.

Lemma lpop_spec q xs m : repr q xs m →
  match xs with
  | [] => lpop (Some q) = Ret (None, Some q)
  | x :: xs => ∃ q', lpop (Some q) = Ret (Some x, Some q') ∧ repr q' xs m
  end.
Proof.
  intros [H1 H2 H3 H4 H5 H6 H7]. unfold lpop. destruct xs as [|x xs].
  - rewrite bool_decide_eq_true_2; [done|]. rewrite H4, Zlen_nil, Z.add_0_r, Z.mod_small; lia.
  - rewrite bool_decide_eq_false_2.
    + rewrite Zlen_cons in *. pose proof (Zlen_nonneg xs).
      assert (ring_repr (q_queue q) (q_head q) (1 + Zlen xs) (x :: xs)) as H3' by done.
      destruct (ring_pop _ _ _ _ _ H3') as [Hx Hr]; [lia|].
      rewrite (proj2 (get_idx_Ret _ _ x)) by (split; [lia|done]). rewrite Ret_bind.
      eexists. split; [done|]. rewrite H1 in Hr. rewrite ring_succ in Hr by done.
      assert ((if bool_decide (q_cap q ≤ q_head q + 1) then 0 else q_head q + 1) =
              (q_head q + 1) mod q_cap q) as Eh.
      { rewrite ring_succ by done. case_bool_decide; case_decide; done || lia. }
      pose proof (mod_range (q_head q + 1) (q_cap q) ltac:(lia)).
      split; cbn; rewrite ?Eh; try done; try lia.
      * rewrite ring_succ by done. replace (1 + Zlen xs - 1) with (Zlen xs) in Hr by lia. done.
      * rewrite H4, Zplus_mod_idemp_l. f_equal. lia.
    + rewrite H4. intros E. rewrite Zlen_cons in *. pose proof (Zlen_nonneg xs).
      assert ((q_head q + 0) mod q_cap q = (q_head q + (1 + Zlen xs)) mod q_cap q) as E'.
      { rewrite <- E, Z.add_0_r. apply Z.mod_small. lia. }
      apply ring_offset_inj in E'; lia.
Qed.

(** ** The packets of a stream *)
Lemma unpack_enough n k bs : (length bs ≤ n)%nat → (length bs ≤ k)%nat → unpack n bs = unpack k bs.
Proof.
  revert k bs. induction n as [|n IH]; intros [|k] [|a [|b body]] Hn Hk; cbn in *; try done || lia.
  case_decide; [done|]. rewrite (IH k); [done|..]; rewrite length_drop; lia.
Qed.

Lemma unpacked_cons a b body : unpacked (a :: b :: body) =
  let n := Z.lor (Z.shiftl a 8) b in
  if decide (Zlen body < n) then ([], a :: b :: body)
  else (take (Z.to_nat n) body :: (unpacked (drop (Z.to_nat n) body)).1,
        (unpacked (drop (Z.to_nat n) body)).2).
Proof.
  unfold unpacked at 1. cbn [unpack]. cbv zeta. case_decide; [done|].
  rewrite (unpack_enough _ (S (length (drop (Z.to_nat (Z.lor (Z.shiftl a 8) b)) body))));
    [|cbn [length]; rewrite length_drop; lia|lia].
  unfold unpacked. by destruct (unpack _ (drop _ _)).
Qed.

Lemma pack_size_range a b : 0 ≤ a < 256 → 0 ≤ b < 256 → 0 ≤ Z.lor (Z.shiftl a 8) b < 65536.
Proof.
  intros Ha Hb. rewrite Z.lor_comm, Z.shiftl_mul_pow2, lor_high by lia. lia.
Qed.

Lemma bytes_ok_drop n bs : bytes_ok bs → bytes_ok (drop n bs).
Proof. apply Forall_drop. Qed.

(** what a socket's table entry and the queue become when [bs] is left over *)
Definition kept (m m' : gmap Z uncomplete) (fd : Z) (rest : list Z) : Prop :=
  pending m' fd rest ∧ ∀ fd', fd' ≠ fd → m' !! fd' = m !! fd'.

Lemma kept_insert m uc fd rest : u_id uc = fd → stands_for uc rest →
  kept m (<[u_id uc := uc]> m) fd rest.
Proof.
  intros <- Hs. split.
  - unfold pending. by rewrite lookup_insert_eq.
  - intros fd' Hne. by rewrite lookup_insert_ne.
Qed.

Lemma kept_same m fd : m !! fd = None → kept m m fd [].
Proof. intros Hm. split; [|done]. unfold pending. by rewrite Hm. Qed.

Lemma half_stands fd b : stands_for (half_header fd b) [b].
Proof. by left. Qed.

Lemma partial_stands fd a b body : Zlen body < Z.lor (Z.shiftl a 8) b →
  stands_for (partial fd (Z.lor (Z.shiftl a 8) b) body) (a :: b :: body).
Proof. intros Hlt. right. cbn. split; [done|]. split; [done|]. eauto. Qed.

Lemma Zlen_zero {A} (l : list A) : Zlen l = 0 → l = [].
Proof. destruct l; [done|]. rewrite Zlen_cons. pose proof (Zlen_nonneg l). lia. Qed.

Lemma slice_0 l n : slice l 0 n = take (Z.to_nat n) l.
Proof. done. Qed.

Lemma push_more_spec fuel q xs m fd bs :
  repr (get_queue q) xs m → m !! fd = None → bs ≠ [] → bytes_ok bs → (length bs ≤ fuel)%nat →
  ∃ q' m', push_more fuel q fd bs = Ret q' ∧
    repr (get_queue q') (xs ++ (Netpack fd <$> (unpacked bs).1)) m' ∧
    kept m m' fd (unpacked bs).2.
Proof.
  revert q xs bs. induction fuel as [|fuel IH];
    intros q xs [|a [|b body]] HR Hm Hne Hok Hf; cbn [length] in Hf; try done || lia.
  - destruct (save_spec _ _ _ (half_header fd a) HR Hm) as (q' & E & HR').
    exists q', (<[fd := half_header fd a]> m). cbn. rewrite app_nil_r. split; [done|].
    split; [done|]. apply (kept_insert m (half_header fd a)); [done|apply half_stands].
  - rewrite unpacked_cons. cbn [push_more read_size]. rewrite Ret_bind. cbv zeta.
    apply Forall_cons in Hok as [Ha [Hb Hbody]%Forall_cons].
    pose proof (pack_size_range a b Ha Hb) as Hn. set (n := Z.lor _ _) in *.
    cbn [drop]. rewrite skipn_O. destruct (decide (Zlen body < n)) as [Hlt|Hge].
    + rewrite bool_decide_eq_true_2 by done.
      destruct (save_spec _ _ _ (partial fd n body) HR Hm) as (q' & E & HR').
      exists q', (<[fd := partial fd n body]> m). cbn [fst snd fmap list_fmap].
      rewrite app_nil_r. split; [done|]. split; [done|].
      apply (kept_insert m (partial fd n body)); [done|by apply partial_stands].
    + rewrite bool_decide_eq_false_2 by done. rewrite slice_0.
      destruct (push_data_spec _ _ _ fd (take (Z.to_nat n) body) HR) as (q1 & E1 & HR1).
      rewrite E1, Ret_bind. cbn [fst snd fmap list_fmap].
      case_bool_decide as Hz.
      * destruct (IH (Some q1) (xs ++ [Netpack fd (take (Z.to_nat n) body)])
          (drop (Z.to_nat n) body)) as (q' & m' & E & HR' & Hk); [done|done|..].
        -- intros E. by rewrite E in Hz.
        -- by apply bytes_ok_drop.
        -- rewrite length_drop. lia.
        -- exists q', m'. split; [done|]. split; [|done]. by rewrite <- app_assoc in HR'.
      * assert (drop (Z.to_nat n) body = []) as ->.
        { apply Zlen_zero. pose proof (Zlen_nonneg (drop (Z.to_nat n) body)). lia. }
        exists (Some q1), m. split; [done|]. split; [done|]. by apply kept_same.
Qed.

(** ** The filter *)

(** what the filter returns for the packets [fs] completed by a block after
    which [rest] is left, and the packets it puts into the queue *)
Definition delivery (fd : Z) (fs : list (list Z)) (rest : list Z) : result * list netpack :=
  match fs, rest with
  | [], _ => (RNone, [])
  | [f], [] => (RData fd f, [])
  | _, _ => (RMore, Netpack fd <$> fs)
  end.

Definition filtered (fd : Z) (q : option queue) (xs : list netpack) (m : gmap Z uncomplete)
    (bs : list Z) (o : outcome (result * option queue)) : Prop :=
  ∃ q' m', o = Ret ((delivery fd (unpacked bs).1 (unpacked bs).2).1, q') ∧
    repr (get_queue q') (xs ++ (delivery fd (unpacked bs).1 (unpacked bs).2).2) m' ∧
    kept m m' fd (unpacked bs).2.

Lemma unpacked_nil : unpacked [] = ([], []).
Proof. done. Qed.
Lemma unpacked_one b : unpacked [b] = ([], [b]).
Proof. done. Qed.

Lemma unpacked_more bs : bs ≠ [] → (unpacked bs).1 = [] → (unpacked bs).2 ≠ [].
Proof.
  destruct bs as [|a [|b body]]; [done|done|]. rewrite unpacked_cons. cbv zeta. by case_decide.
Qed.

(** a first complete packet followed by more bytes goes to the queue *)
Lemma more_filtered q xs m fd bs f body k :
  repr (get_queue q) xs m → m !! fd = None → bytes_ok body → body ≠ [] →
  unpacked bs = (f :: (unpacked body).1, (unpacked body).2) →
  k = (λ q, Ret (RMore, q)) →
  filtered fd q xs m bs
    (q ← push_data q fd f; q ← push_more (length body) q fd body; k q).
Proof.
  intros HR Hm Hok Hne E ->. unfold filtered. rewrite E. cbn [fst snd].
  assert (delivery fd (f :: (unpacked body).1) (unpacked body).2 =
          (RMore, Netpack fd <$> f :: (unpacked body).1)) as ->.
  { pose proof (unpacked_more body Hne). destruct (unpacked body) as [[|g fs] rest]; [|by destruct rest].
    cbn in *. destruct rest; [by destruct (H eq_refl)|done]. }
  cbn [fst snd]. destruct (push_data_spec _ _ _ fd f HR) as (q1 & -> & HR1). rewrite Ret_bind.
  destruct (push_more_spec (length body) (Some q1) _ m fd body HR1 Hm Hne Hok)
    as (q' & m' & -> & HR' & Hk); [lia|].
  exists q', m'. split; [done|]. split; [|done]. by rewrite <- app_assoc in HR'.
Qed.

Lemma fill_header uc q fd h b buffer : u_read uc = -1 → u_header uc = h →
  fill_uncomplete uc q fd (b :: buffer) =
  fill_uncomplete (Uncomplete (u_id uc) (Z.lor (Z.shiftl h 8) b) [] 0 h) q fd buffer.
Proof.
  intros Hr Hh. destruct uc; cbn in *. subst.
  rewrite (Z.lor_comm (Z.shiftl _ _)). reflexivity.
Qed.

Lemma fill_spec q xs m uc a b data fd :
  repr (get_queue q) xs m → m !! fd = None → (is_Some q) → bytes_ok data →
  u_id uc = fd → u_read uc = Zlen (u_buffer uc) → 0 ≤ a < 256 → 0 ≤ b < 256 →
  u_size uc = Z.lor (Z.shiftl a 8) b → u_read uc ≤ u_size uc →
  filtered fd q xs m (a :: b :: u_buffer uc ++ data) (fill_uncomplete uc q fd data).
Proof.
  intros HR Hm [q0 Hq] Hok Hid Hread Ha Hb Hsize Hle. unfold fill_uncomplete.
  pose proof (Zlen_nonneg (u_buffer uc)) as Hlen.
  rewrite bool_decide_eq_false_2, Ret_bind by lia.
  pose proof (unpacked_cons a b (u_buffer uc ++ data)) as E. cbv zeta in E. rewrite <- Hsize in E.
  rewrite Zlen_app, <- Hread in E.
  case_bool_decide as Hneed.
  - rewrite decide_True in E by lia. unfold filtered. rewrite E. cbn [fst snd delivery].
    subst q. cbn [deref get_queue default id] in *. rewrite Ret_bind.
    set (uc' := Uncomplete _ _ _ _ _).
    destruct (chain_spec _ _ _ uc' HR) as (q' & Eq & HR'); [by cbn; rewrite Hid|].
    rewrite Eq, Ret_bind. eexists _, _. rewrite app_nil_r. split; [done|]. split; [exact HR'|].
    apply kept_insert; [done|]. right. cbn. rewrite Zlen_app, Hread. split; [done|].
    split; [lia|]. eauto.
  - rewrite decide_False in E by lia.
    rewrite take_app_ge, drop_app_ge in E by (unfold Zlen in *; lia).
    replace (Z.to_nat (u_size uc) - length (u_buffer uc))%nat
      with (Z.to_nat (u_size uc - u_read uc)) in E by (unfold Zlen in *; lia).
    rewrite slice_0. case_bool_decide as Hz.
    + apply Zlen_zero in Hz. rewrite Hz in E. rewrite unpacked_nil in E. cbn [fst snd] in E.
      unfold filtered. rewrite E. cbn [fst snd delivery]. exists q, m. rewrite app_nil_r.
      split; [done|]. split; [done|]. by apply kept_same.
    + eapply more_filtered; [done|done|by apply bytes_ok_drop| |exact E|done].
      intros En. apply Hz. by rewrite En.
Qed.

Lemma filter_data_spec q xs m fd bs data :
  repr (get_queue q) xs m → pending m fd bs → bytes_ok bs → bytes_ok data → data ≠ [] →
  filtered fd q xs (delete fd m) (bs ++ data) (filter_data q fd data).
Proof.
  intros HR Hp Hbs Hok Hne. unfold filter_data, pending in *.
  destruct (find_spec q xs m fd HR) as (q1 & -> & HR1 & Hq). rewrite Ret_bind.
  pose proof (lookup_delete_eq m fd) as Hm.
  destruct (m !! fd) as [uc|].
  - specialize (Hq (mk_is_Some _ _ eq_refl)).
    destruct Hp as [Hid [[Hr ->]|(Hr & Hlt & a & b & Hsz & ->)]].
    + destruct data as [|b data]; [done|].
      apply Forall_cons in Hok as [Hb Hok]. apply Forall_cons in Hbs as [Ha _].
      rewrite (fill_header uc q1 fd (u_header uc) b data) by done.
      pose proof (pack_size_range (u_header uc) b Ha Hb).
      apply (fill_spec q1 xs _ (Uncomplete (u_id uc) _ [] 0 (u_header uc)) (u_header uc) b); cbn;
        done || lia.
    + apply Forall_cons in Hbs as [Ha [Hb _]%Forall_cons].
      apply (fill_spec q1 xs _ uc a b); done || lia.
  - subst bs. cbn [app]. destruct data as [|a [|b data]]; [done|..].
    + destruct (save_spec _ _ _ (half_header fd a) HR1 Hm) as (q' & -> & HR').
      eexists _, _. rewrite unpacked_one. cbn [fst snd delivery]. rewrite app_nil_r.
      split; [done|]. split; [exact HR'|]. apply kept_insert; [done|apply half_stands].
    + apply Forall_cons in Hok as [Ha [Hb Hok]%Forall_cons].
      pose proof (pack_size_range a b Ha Hb) as Hn.
      pose proof (unpacked_cons a b data) as E. cbv zeta in E.
      cbn [read_size]. rewrite Ret_bind. cbv zeta. set (n := Z.lor _ _) in *.
      change (drop 2 (a :: b :: data)) with data. case_bool_decide as Hlt.
      * destruct (save_spec _ _ _ (partial fd n data) HR1 Hm) as (q' & -> & HR').
        rewrite decide_True in E by done. unfold filtered. rewrite E. cbn [fst snd delivery].
        eexists _, _. rewrite app_nil_r. split; [done|]. split; [exact HR'|].
        apply kept_insert; [done|by apply partial_stands].
      * rewrite decide_False in E by done. rewrite slice_0. case_bool_decide as Heq.
        -- rewrite take_ge, drop_ge, unpacked_nil in E by (unfold Zlen in *; lia).
           unfold filtered. rewrite E. cbn [fst snd delivery]. exists q1, (delete fd m).
           rewrite app_nil_r. split; [done|]. split; [done|]. by apply kept_same.
        -- apply (more_filtered q1 xs _ fd (a :: b :: data) (take (Z.to_nat n) data)
             (drop (Z.to_nat n) data)); try done.
           ++ by apply bytes_ok_drop.
           ++ intros E0%(f_equal length). rewrite length_drop in E0. unfold Zlen in *. cbn in E0. lia.
Qed.

(** The packet filter of the Lua services returns and queues the packets of
    the length-prefixed stream of a socket, however it is cut into blocks: with
    the incomplete bytes [bs] kept for the socket, a block [data] delivers the
    packets complete in [bs ++ data], keeps the incomplete rest, and leaves the
    packets waiting and the other sockets alone. *)
Theorem netpack_reassembles q xs m fd bs data :
  repr (get_queue q) xs m → pending m fd bs → bytes_ok bs → bytes_ok data → data ≠ [] →
  let '(fs, rest) := unpacked (bs ++ data) in
  let '(r, queued) := delivery fd fs rest in
  ∃ q' m', filter_data q fd data = Ret (r, q') ∧ repr (get_queue q') (xs ++ queued) m' ∧
    pending m' fd rest ∧ ∀ fd', fd' ≠ fd → m' !! fd' = m !! fd'.
Proof.
  intros HR Hp Hbs Hok Hne.
  destruct (filter_data_spec q xs m fd bs data HR Hp Hbs Hok Hne) as (q' & m' & E & HR' & Hp' & Hm').
  destruct (unpacked (bs ++ data)) as [fs rest]. cbn [fst snd] in *.
  destruct (delivery fd fs rest) as [r queued]. exists q', m'. do 3 (split; [done|]).
  intros fd' Hfd. rewrite Hm' by done. by apply lookup_delete_ne.
Qed.

(** The queue of complete packets is a FIFO that grows when it is full: a
    packet pushed is the last one out, a pop takes the first or nothing when
    there is none, and clearing drops the packets and the incomplete ones. *)
Theorem netpack_queue_fifo q xs m : repr (get_queue q) xs m →
  (∀ fd l, ∃ q', push_data q fd l = Ret (Some q') ∧ repr q' (xs ++ [Netpack fd l]) m) ∧
  (∃ q', lpop q = Ret (head xs, q') ∧ repr (get_queue q') (tail xs) m) ∧
  repr (get_queue (lclear q)) [] ∅.
Proof.
  intros HR. split; [intros fd l; by apply push_data_spec|]. split.
  - destruct q as [q|].
    + pose proof (lpop_spec q xs m HR) as Hp. destruct xs as [|x xs].
      * eauto.
      * destruct Hp as (q' & E & HR'). eauto.
    + exists None. destruct xs as [|x xs]; [done|]. exfalso. pose proof (r_tail _ _ _ HR) as Ht.
      pose proof (r_room _ _ _ HR) as Hr. cbn [get_queue default new_queue q_head q_cap q_tail] in *.
      pose proof (Zlen_nonneg xs). rewrite Zlen_cons, Z.mod_small in *; lia.
  - destruct q as [q|]; [|apply new_repr]. destruct HR as [H1 H2 H3 H4 H5 H6 H7].
    split; cbn [lclear get_queue default id q_queue q_cap q_head q_tail q_hash].
    + done.
    + cbn in H2. lia.
    + apply ring_repr_nil.
    + cbn in *. by rewrite Z.mod_0_l by lia.
    + cbn in *. rewrite Zlen_nil. lia.
    + apply new_table.
    + intros fd uc. by rewrite lookup_empty.
Qed.

Lemma unpacked_frame msg rest : Zlen msg < 65536 →
  unpacked (write_size (Zlen msg) ++ msg ++ rest) = (msg :: (unpacked rest).1, (unpacked rest).2).
Proof.
  intros Hl. pose proof (Zlen_nonneg msg). unfold write_size. cbn [app].
  rewrite unpacked_cons. cbv zeta.
  assert (Z.lor (Z.shiftl (Z.land (Z.shiftr (Zlen msg) 8) 255) 8) (Z.land (Zlen msg) 255) =
          Zlen msg) as ->.
  { rewrite Z.lor_comm, Z.shiftl_mul_pow2 by lia. change 255 with (2 ^ 8 - 1).
    rewrite !land_mask, lor_high, Z.shiftr_div_pow2 by (try apply mod_range; lia).
    rewrite (Z.mod_small (_ / _)) by (split; [apply Z.div_pos|apply Z.div_lt_upper_bound]; lia).
    pose proof (Z.div_mod (Zlen msg) (2 ^ 8)). lia. }
  rewrite decide_False by (rewrite Zlen_app; pose proof (Zlen_nonneg rest); lia).
  unfold Zlen. by rewrite Nat2Z.id, take_app_length, drop_app_length.
Qed.

(** Packing is the inverse of the filter's reading: a message shorter than
    64K is framed by its length, and the packets of a stream of frames are the
    messages, whatever follows; a longer message is refused. *)
Theorem netpack_roundtrip msgs rest :
  match mapM lpack msgs with
  | Some frames =>
      Forall (λ msg, Zlen msg < 65536) msgs ∧
      unpacked (mjoin frames ++ rest) = (msgs ++ (unpacked rest).1, (unpacked rest).2)
  | None => ∃ msg, msg ∈ msgs ∧ 65536 ≤ Zlen msg
  end.
Proof.
  induction msgs as [|msg msgs IH].
  - split; [done|]. apply surjective_pairing.
  - change (mapM lpack (msg :: msgs)) with
      (y ← lpack msg; k ← mapM lpack msgs; Some (y :: k)).
    destruct (lpack msg) as [frame|] eqn:Ef; unfold lpack in Ef; case_bool_decide as Hl; simplify_eq.
    2:{ exists msg. split; [left|lia]. }
    change (Some ?x ≫= ?f) with (f x). cbv beta.
    destruct (mapM lpack msgs) as [frames|].
    2:{ destruct IH as (m0 & Hin & Hm0). exists m0. split; [by right|done]. }
    change (Some ?x ≫= ?f) with (f x). cbv beta.
    destruct IH as [Hall E]. split; [constructor; [lia|done]|].
    change (mjoin (?f :: frames)) with (f ++ mjoin frames).
    by rewrite <- !app_assoc, unpacked_frame, E by lia.
Qed.

(** ** Witnesses *)
Definition demo_waiting : option queue :=
  Some (set_hash (<[Z.to_nat (hash_fd 7) := [half_header 7 0]]> (q_hash new_queue)) new_queue).

Lemma demo_repr : repr (get_queue demo_waiting) [] {[7 := half_header 7 0]}.
Proof.
  destruct (chain_spec new_queue [] ∅ (half_header 7 0) new_repr) as (q' & E & HR).
  { by rewrite lookup_empty. }
  injection E as <-. exact HR.
Qed.

(** half a length kept, then the other half, its packet and half of the next one *)
Lemma netpack_reassembles_witness :
  let '(fs, rest) := unpacked ([0] ++ [2; 65; 66; 0]) in
  let '(r, queued) := delivery 7 fs rest in
  ∃ q' m', filter_data demo_waiting 7 [2; 65; 66; 0] = Ret (r, q') ∧
    repr (get_queue q') ([] ++ queued) m' ∧
    pending m' 7 rest ∧ ∀ fd', fd' ≠ 7 → m' !! fd' = ({[7 := half_header 7 0]} : gmap Z _) !! fd'.
Proof.
  apply (netpack_reassembles demo_waiting [] {[7 := half_header 7 0]} 7 [0] [2; 65; 66; 0]).
  - apply demo_repr.
  - unfold pending. rewrite lookup_singleton_eq. split; [done|]. by left.
  - repeat constructor; lia.
  - repeat constructor; lia.
  - done.
Defined.

Lemma netpack_queue_fifo_witness :
  (∀ fd l, ∃ q', push_data None fd l = Ret (Some q') ∧ repr q' ([] ++ [Netpack fd l]) ∅) ∧
  (∃ q', lpop None = Ret (head [], q') ∧ repr (get_queue q') (tail []) ∅) ∧
  repr (get_queue (lclear None)) [] ∅.
Proof. apply (netpack_queue_fifo None [] ∅). apply new_repr. Defined.

Example demo_filter : (filter_data None 7 [0; 2; 65; 66; 0; 1; 67; 0]) ≫=
  (λ '(r, q), '(np, _) ← lpop q; Ret (r, np)) = Ret (RMore, Some (Netpack 7 [65; 66])).
Proof. vm_compute. reflexivity. Qed.
