(* ===== verification/Bytes.v ===== *)
(** * Little-endian bytes

    What [memcpy] of an integer puts into a buffer on the little-endian machines
    the program runs on, and what it reads back. *)
From S2P Require Import Prelude.

Definition byte (b : Z) : Prop := 0 ≤ b < 256.

(** the [n] low bytes of [v] *)
Fixpoint le_bytes (n : nat) (v : Z) : list Z :=
  match n with O => [] | S n => v mod 256 :: le_bytes n (v / 256) end.
Fixpoint le_value (l : list Z) : Z :=
  match l with [] => 0 | b :: l => b + 256 * le_value l end.

Lemma le_bytes_length n v : length (le_bytes n v) = n.
Proof. revert v. induction n as [|n IH]; intros v; cbn; [done|]. by rewrite IH. Qed.

Lemma Zlen_le_bytes n v : Zlen (le_bytes n v) = Z.of_nat n.
Proof. unfold Zlen. by rewrite le_bytes_length. Qed.

Lemma le_bytes_ok n v : Forall byte (le_bytes n v).
Proof.
  revert v. induction n as [|n IH]; intros v; cbn; constructor; [|done].
  apply mod_range. lia.
Qed.

Lemma le_roundtrip n v : le_value (le_bytes n v) = v mod 256 ^ Z.of_nat n.
Proof.
  revert v. induction n as [|n IH]; intros v; cbn [le_bytes le_value].
  - by rewrite Z.mod_1_r.
  - rewrite IH, Nat2Z.inj_succ, Z.pow_succ_r by lia.
    pose proof (Z.rem_mul_r v 256 (256 ^ Z.of_nat n)). lia.
Qed.

Lemma le_value_bytes l : Forall byte l → le_bytes (length l) (le_value l) = l.
Proof.
  induction 1 as [|b l Hb Hl IH]; [done|]. cbn [length le_bytes le_value]. unfold byte in Hb. f_equal.
  - rewrite Z.mul_comm, Z.mod_add by lia. by apply Z.mod_small.
  - rewrite Z.mul_comm, Z.div_add, Z.div_small by lia. by rewrite Z.add_0_l.
Qed.

Lemma le_value_range l : Forall byte l → 0 ≤ le_value l < 256 ^ Zlen l.
Proof.
  induction 1 as [|b l Hb Hl IH]; [done|]. rewrite Zlen_cons. cbn [le_value].
  rewrite Z.pow_add_r by (pose proof (Zlen_nonneg l); lia). unfold byte in Hb. lia.
Qed.

(** signed integers survive *)
Lemma i32_le v : - 2 ^ 31 ≤ v < 2 ^ 31 → i32 (le_value (le_bytes 4 v)) = v.
Proof.
  intros Hv. rewrite le_roundtrip. change (256 ^ Z.of_nat 4) with (2 ^ 32). unfold i32.
  rewrite Zplus_mod_idemp_l, Z.mod_small; lia.
Qed.
Lemma i64_le v : - 2 ^ 63 ≤ v < 2 ^ 63 → i64 (le_value (le_bytes 8 v)) = v.
Proof.
  intros Hv. rewrite le_roundtrip. change (256 ^ Z.of_nat 8) with (2 ^ 64). unfold i64.
  rewrite Zplus_mod_idemp_l, Z.mod_small; lia.
Qed.
Lemma le_small n v : 0 ≤ v < 256 ^ Z.of_nat n → le_value (le_bytes n v) = v.
Proof. intros Hv. rewrite le_roundtrip. by apply Z.mod_small. Qed.

(** [memcpy(b + ptr, src, n)] *)
Definition copy_at (b : list Z) (ptr : Z) (src : list Z) : list Z :=
  take (Z.to_nat ptr) b ++ src ++ drop (Z.to_nat ptr + length src) b.

Lemma copy_at_spec b ptr src : 0 ≤ ptr → ptr + Zlen src ≤ Zlen b →
  Zlen (copy_at b ptr src) = Zlen b ∧
  take (Z.to_nat (ptr + Zlen src)) (copy_at b ptr src) = take (Z.to_nat ptr) b ++ src.
Proof.
  intros Hp Hl. unfold copy_at, Zlen in *.
  assert (length (take (Z.to_nat ptr) b) = Z.to_nat ptr) as Ht by (rewrite length_take; lia).
  split.
  - rewrite !length_app, length_drop, Ht. lia.
  - rewrite app_assoc, take_app_le by (rewrite length_app; lia).
    rewrite take_ge; [done|]. rewrite length_app. lia.
Qed.

(** or-ing a small number below a shifted one is addition *)
Lemma lor_shift x y k : 0 ≤ k → 0 ≤ y < 2 ^ k → Z.lor (Z.shiftl x k) y = x * 2 ^ k + y.
Proof. intros. rewrite Z.lor_comm, Z.shiftl_mul_pow2, lor_high by done. lia. Qed.

Lemma be_value a b c d : byte b → byte c → byte d →
  Z.lor (Z.lor (Z.lor (Z.shiftl a 24) (Z.shiftl b 16)) (Z.shiftl c 8)) d =
  a * 2 ^ 24 + b * 2 ^ 16 + c * 2 ^ 8 + d.
Proof.
  unfold byte. intros. rewrite <- !Z.lor_assoc.
  rewrite (lor_shift c d 8), (lor_shift b _ 16), (lor_shift a _ 24) by lia. lia.
Qed.

(** the byte of a word at a shift *)
Lemma byte_at n k : 0 ≤ k → Z.land (Z.shiftr n k) 0xff = (n / 2 ^ k) mod 256.
Proof. intros. change 0xff with (2 ^ 8 - 1). by rewrite land_mask, Z.shiftr_div_pow2. Qed.
Lemma byte_low n : Z.land n 0xff = n mod 256.
Proof. change 0xff with (2 ^ 8 - 1). by rewrite land_mask. Qed.
Lemma mod_byte n : byte (n mod 256).
Proof. by apply mod_range. Qed.
