(* ===== verification/LuaValue.v ===== *)
(** * Lua values and errors, as the C libraries of Lua services see them

    A value is its content; a table the list of its entries in the order in which
    [lua_next] visits them. Raw assignment is that of the Lua manual: keys equal
    by raw equality, floats with an integral value turned into integers, nil
    and NaN refused as keys, a nil value removing the entry. Tables are fresh
    objects, so that no table is raw-equal to another one. *)
From S2P Require Import Prelude.

Inductive value : Type :=
  | VNil
  | VBool (b : bool)
  | VInt (z : Z)
  | VReal (bits : Z)
  | VString (s : list Z)
  | VPointer (p : Z)
  | VTable (es : list (value * value))
  (** a table with a [__pairs] metamethod: the pairs its iteration yields *)
  | VPairs (es : list (value * value))
  (** a function, thread or full userdata, by the name of its type *)
  | VOther (typename : string).

Inductive lua_error : Type :=
  | TooDeep
  | Unsupported (typename : string)
  | InvalidStream (len line : Z)
  | NullPointer
  (** the text given to [luaL_error] *)
  | Message (text : string)
  | BadKey.

(** ** A call that may raise a Lua error *)
Inductive lua (A : Type) : Type :=
  | LRet (a : A)
  | LError (e : lua_error)
  | LUndef
  | LNoFuel.
Arguments LRet {A} a.
Arguments LError {A} e.
Arguments LUndef {A}.
Arguments LNoFuel {A}.

#[export] Instance lua_ret : MRet lua := @LRet.
#[export] Instance lua_bind : MBind lua := λ A B f m,
  match m with
  | LRet a => f a
  | LError e => LError e
  | LUndef => LUndef
  | LNoFuel => LNoFuel
  end.

Definition lift {A} (m : outcome A) : lua A :=
  match m with Ret a => LRet a | NoFuel => LNoFuel | _ => LUndef end.

Lemma LRet_bind {A B} (a : A) (f : A → lua B) : LRet a ≫= f = f a.
Proof. done. Qed.

(** ** Numbers *)

(** the integer a double is equal to, if any; [None] for NaN *)
Definition real_key (bits : Z) : option value :=
  let e := Z.land (Z.shiftr bits 52) 0x7ff in
  let m := bits mod 2 ^ 52 in
  let integral n :=
    let n := if Z.testbit bits 63 then - n else n in
    if bool_decide (- 2 ^ 63 ≤ n < 2 ^ 63) then VInt n else VReal bits in
  if bool_decide (e = 0x7ff) then (if bool_decide (m = 0) then Some (VReal bits) else None)
  else if bool_decide (e = 0) then (if bool_decide (m = 0) then Some (VInt 0) else Some (VReal bits))
  else
    let x := e - 1075 in
    let m := m + 2 ^ 52 in
    if bool_decide (0 ≤ x) then Some (integral (m * 2 ^ x))
    else if bool_decide (m mod 2 ^ (- x) = 0) then Some (integral (m / 2 ^ (- x)))
    else Some (VReal bits).

Definition norm_key (k : value) : option value :=
  match k with
  | VNil => None
  | VReal bits => real_key bits
  | k => Some k
  end.

(** ** Tables *)
Definition same_key (a b : value) : bool :=
  match a, b with
  | VBool x, VBool y => bool_decide (x = y)
  | VInt x, VInt y | VReal x, VReal y | VPointer x, VPointer y => bool_decide (x = y)
  | VString x, VString y => bool_decide (x = y)
  | _, _ => false
  end.

Fixpoint set_entry (k v : value) (es : list (value * value)) : list (value * value) :=
  match es with
  | [] => match v with VNil => [] | _ => [(k, v)] end
  | (k', v') :: es =>
      if same_key k k' then match v with VNil => es | _ => (k, v) :: es end
      else (k', v') :: set_entry k v es
  end.
Definition rawset (es : list (value * value)) (k v : value) : lua (list (value * value)) :=
  match norm_key k with None => LError BadKey | Some k => LRet (set_entry k v es) end.
Definition rawseti (es : list (value * value)) (i : Z) (v : value) : list (value * value) :=
  set_entry (VInt i) v es.

Fixpoint rawgeti (es : list (value * value)) (i : Z) : value :=
  match es with
  | [] => VNil
  | (k, v) :: es => if same_key (VInt i) k then v else rawgeti es i
  end.

(** a table as Lua keeps it: normalised keys, each once, and no nil *)
Definition key_ok (k : value) : Prop := norm_key k = Some k.
Fixpoint distinct_keys (es : list (value * value)) : Prop :=
  match es with
  | [] => True
  | (k, v) :: es => Forall (λ p, same_key k p.1 = false) es ∧ distinct_keys es
  end.
Definition table_ok (es : list (value * value)) : Prop :=
  distinct_keys es ∧ Forall (λ p, key_ok p.1 ∧ p.2 ≠ VNil) es.

(** ** Equality of contents

    Scalars are equal; tables have equal entries, in any order. A table whose
    iteration is that of its metamethod equals the table of the pairs. *)
Inductive same_value : value → value → Prop :=
  | same_nil : same_value VNil VNil
  | same_bool b : same_value (VBool b) (VBool b)
  | same_int z : same_value (VInt z) (VInt z)
  | same_real z : same_value (VReal z) (VReal z)
  | same_string s : same_value (VString s) (VString s)
  | same_pointer p : same_value (VPointer p) (VPointer p)
  | same_table es es1 es2 : es ≡ₚ es1 →
      Forall2 (λ p q, same_value p.1 q.1 ∧ same_value p.2 q.2) es1 es2 →
      same_value (VTable es) (VTable es2)
  | same_pairs es es1 es2 : es ≡ₚ es1 →
      Forall2 (λ p q, same_value p.1 q.1 ∧ same_value p.2 q.2) es1 es2 →
      same_value (VPairs es) (VTable es2).

Definition same_entries (es es' : list (value * value)) : Prop :=
  Forall2 (λ p q, same_value p.1 q.1 ∧ same_value p.2 q.2) es es'.

Lemma same_nil_iff v v' : same_value v v' → v = VNil ↔ v' = VNil.
Proof. by destruct 1. Qed.

Lemma same_key_same a a' b b' : same_value a a' → same_value b b' →
  same_key a' b' = same_key a b.
Proof. destruct 1, 1; done. Qed.

Lemma key_ok_same k k' : same_value k k' → key_ok k → key_ok k'.
Proof. destruct 1; done. Qed.

Lemma same_int_inv k i : same_value k (VInt i) → k = VInt i.
Proof. by inversion 1. Qed.

(** a new key goes to the end *)
Lemma set_entry_fresh k v es : Forall (λ p, same_key k p.1 = false) es → v ≠ VNil →
  set_entry k v es = es ++ [(k, v)].
Proof.
  intros Hf Hv. induction Hf as [|[k' v'] es Hk Hf IH]; cbn in *; [by destruct v|].
  by rewrite Hk, IH.
Qed.

Lemma set_entry_nil k es : Forall (λ p, same_key k p.1 = false) es → set_entry k VNil es = es.
Proof. induction 1 as [|[k' v'] es Hk Hf IH]; cbn in *; [done|]. by rewrite Hk, IH. Qed.

Lemma rawgeti_nil i es : (∀ v, (VInt i, v) ∉ es) → rawgeti es i = VNil.
Proof.
  induction es as [|[k v] es IH]; intros Hn; [done|]. cbn.
  destruct k; try (apply IH; intros v' Hv'; by apply (Hn v'); right).
  case_bool_decide as E; [subst; destruct (Hn v); by left|].
  apply IH. intros v' Hv'. apply (Hn v'). by right.
Qed.

Lemma rawgeti_In i v es : distinct_keys es → (VInt i, v) ∈ es → rawgeti es i = v.
Proof.
  induction es as [|[k w] es IH]; intros Hd Hin; [by apply not_elem_of_nil in Hin|].
  destruct Hd as [Hf Hd]. apply elem_of_cons in Hin as [E|Hin].
  - injection E as <- <-. cbn. by rewrite bool_decide_eq_true_2.
  - rewrite Forall_forall in Hf. specialize (Hf _ Hin). cbn [rawgeti fst] in *.
    replace (same_key (VInt i) k) with (same_key k (VInt i)); [by rewrite Hf; apply IH|].
    destruct k; try done. cbn. by apply bool_decide_ext.
Qed.

Lemma rawgeti_inv i es : rawgeti es i = VNil ∨ (VInt i, rawgeti es i) ∈ es.
Proof.
  induction es as [|[k w] es IH]; [by left|]. cbn [rawgeti].
  destruct (same_key (VInt i) k) eqn:E.
  - destruct k; try done. cbn in E. apply bool_decide_eq_true in E as <-. right. by left.
  - destruct IH as [->|Hin]; [by left|]. right. by right.
Qed.
