(* ===== verification/Seri.v ===== *)
(** * Serialization of Lua values: lualib-src/lua-seri.c

    [luaseri_pack] writes values into a chain of blocks and copies these into one
    buffer; [luaseri_unpack] reads a buffer back. The Lua stack is left out: a
    function that pushes a value returns it. What [lua_rawlen] answers for a table,
    one of its borders, is a parameter, and so are the bytes of a fresh block. *)
From S2P Require Import Prelude Bytes LuaValue.

Definition TYPE_NIL : Z := 0.
Definition TYPE_BOOLEAN : Z := 1.
Definition TYPE_NUMBER : Z := 2.
Definition TYPE_NUMBER_ZERO : Z := 0.
Definition TYPE_NUMBER_BYTE : Z := 1.
Definition TYPE_NUMBER_WORD : Z := 2.
Definition TYPE_NUMBER_DWORD : Z := 4.
Definition TYPE_NUMBER_QWORD : Z := 6.
Definition TYPE_NUMBER_REAL : Z := 8.
Definition TYPE_USERDATA : Z := 3.
Definition TYPE_SHORT_STRING : Z := 4.
Definition TYPE_LONG_STRING : Z := 5.
Definition TYPE_TABLE : Z := 6.
Definition MAX_COOKIE : Z := 32.
Definition COMBINE_TYPE (t v : Z) : Z := u8 (Z.lor t (Z.shiftl v 3)).
Definition BLOCK_SIZE : Z := 128.
Definition MAX_DEPTH : Z := 32.

(** ** Writing *)

(** the chain of blocks: the full ones, and the current one *)
Record write_block : Type := WriteBlock {
  wb_full : list (list Z);
  wb_current : list Z;
  wb_len : Z;
  wb_ptr : Z
}.

Record read_block : Type := ReadBlock { rb_buffer : list Z; rb_len : Z; rb_ptr : Z }.

Section pack.
Context (junk : list Z) (rawlen : list (value * value) → Z).

Definition blk_alloc : list Z := junk.

Definition next_block (b : write_block) : write_block :=
  WriteBlock (wb_full b ++ [wb_current b]) blk_alloc (wb_len b) 0.

(** from the comparison on; every round but the last fills a block *)
Fixpoint wb_copy (fuel : nat) (b : write_block) (buf : list Z) : lua write_block :=
  if bool_decide (wb_ptr b ≤ BLOCK_SIZE - Zlen buf) then
    len ← lift (chk_int (wb_len b + Zlen buf));
    LRet (WriteBlock (wb_full b) (copy_at (wb_current b) (wb_ptr b) buf) len (wb_ptr b + Zlen buf))
  else
    let copy := BLOCK_SIZE - wb_ptr b in
    let part := take (Z.to_nat copy) buf in
    len ← lift (chk_int (wb_len b + copy));
    let b := WriteBlock (wb_full b) (copy_at (wb_current b) (wb_ptr b) part) len (wb_ptr b) in
    match fuel with
    | O => LNoFuel
    | S fuel => wb_copy fuel (next_block b) (drop (Z.to_nat copy) buf)
    end.

Definition wb_push (b : write_block) (buf : list Z) : lua write_block :=
  wb_copy (length buf) (if bool_decide (wb_ptr b = BLOCK_SIZE) then next_block b else b) buf.

Definition wb_init : write_block := WriteBlock [] blk_alloc 0 0.

Definition wb_nil (b : write_block) : lua write_block := wb_push b [TYPE_NIL].
Definition wb_boolean (b : write_block) (boolean : bool) : lua write_block :=
  wb_push b [COMBINE_TYPE TYPE_BOOLEAN (if boolean then 1 else 0)].

Definition wb_integer (b : write_block) (v : Z) : lua write_block :=
  let header t := [COMBINE_TYPE TYPE_NUMBER t] in
  if bool_decide (v = 0) then wb_push b (header TYPE_NUMBER_ZERO)
  else if bool_decide (v ≠ i32 v) then
    b ← wb_push b (header TYPE_NUMBER_QWORD); wb_push b (le_bytes 8 v)
  else if bool_decide (v < 0) then
    b ← wb_push b (header TYPE_NUMBER_DWORD); wb_push b (le_bytes 4 v)
  else if bool_decide (v < 0x100) then
    b ← wb_push b (header TYPE_NUMBER_BYTE); wb_push b (le_bytes 1 v)
  else if bool_decide (v < 0x10000) then
    b ← wb_push b (header TYPE_NUMBER_WORD); wb_push b (le_bytes 2 v)
  else
    b ← wb_push b (header TYPE_NUMBER_DWORD); wb_push b (le_bytes 4 v).

Definition wb_real (b : write_block) (v : Z) : lua write_block :=
  b ← wb_push b [COMBINE_TYPE TYPE_NUMBER TYPE_NUMBER_REAL]; wb_push b (le_bytes 8 v).
Definition wb_pointer (b : write_block) (v : Z) : lua write_block :=
  b ← wb_push b [TYPE_USERDATA]; wb_push b (le_bytes 8 v).

Definition wb_string (b : write_block) (str : list Z) (len : Z) : lua write_block :=
  if bool_decide (len < 0) then LUndef
  else if bool_decide (len < MAX_COOKIE) then
    b ← wb_push b [COMBINE_TYPE TYPE_SHORT_STRING len];
    if bool_decide (0 < len) then wb_push b (take (Z.to_nat len) str) else LRet b
  else
    b ← (if bool_decide (len < 0x10000) then
           b ← wb_push b [COMBINE_TYPE TYPE_LONG_STRING 2]; wb_push b (le_bytes 2 len)
         else
           b ← wb_push b [COMBINE_TYPE TYPE_LONG_STRING 4]; wb_push b (le_bytes 4 len));
    wb_push b (take (Z.to_nat len) str).

(** a loop over a list that threads the blocks *)
Fixpoint wb_each {A} (f : A → write_block → lua write_block) (l : list A) (b : write_block) :
    lua write_block :=
  match l with [] => LRet b | x :: l => b ← f x b; wb_each f l b end.

(** the key is packed with the array part *)
Definition in_array (array_size : Z) (k : value) : bool :=
  match k with VInt x => bool_decide (0 < x ≤ array_size) | _ => false end.

(** [pack_one], and the functions it shares the recursion with, given itself *)
Section pack_table.
Context (pack_one : value → Z → write_block → lua write_block).

Definition wb_table_array (es : list (value * value)) (depth : Z) (b : write_block) :
    lua (Z * write_block) :=
  let array_size := i32 (rawlen es) in
  b ← (if bool_decide (MAX_COOKIE - 1 ≤ array_size) then
         b ← wb_push b [COMBINE_TYPE TYPE_TABLE (MAX_COOKIE - 1)]; wb_integer b array_size
       else if bool_decide (array_size < 0) then LUndef
       else wb_push b [COMBINE_TYPE TYPE_TABLE array_size]);
  b ← wb_each (λ i, pack_one (rawgeti es i) depth) (seqZ 1 array_size) b;
  LRet (array_size, b).

Definition wb_pair (depth : Z) (p : value * value) (b : write_block) : lua write_block :=
  b ← pack_one p.1 depth b; pack_one p.2 depth b.

Definition wb_table_hash (es : list (value * value)) (depth array_size : Z) (b : write_block) :
    lua write_block :=
  b ← wb_each (λ p b, if in_array array_size p.1 then LRet b else wb_pair depth p b) es b;
  wb_nil b.

(** the pairs until the iteration returns nil *)
Fixpoint yielded (es : list (value * value)) : list (value * value) :=
  match es with
  | [] => []
  | (VNil, _) :: _ => []
  | p :: es => p :: yielded es
  end.
Definition wb_table_metapairs (es : list (value * value)) (depth : Z) (b : write_block) :
    lua write_block :=
  b ← wb_push b [COMBINE_TYPE TYPE_TABLE 0];
  b ← wb_each (wb_pair depth) (yielded es) b;
  wb_nil b.

Definition wb_table (t : value) (depth : Z) (b : write_block) : lua write_block :=
  match t with
  | VPairs es => wb_table_metapairs es depth b
  | VTable es => '(array_size, b) ← wb_table_array es depth b; wb_table_hash es depth array_size b
  | _ => LUndef
  end.
End pack_table.

(** the recursion ends at [MAX_DEPTH] *)
Fixpoint pack_one (fuel : nat) (v : value) (depth : Z) (b : write_block) : lua write_block :=
  match fuel with
  | O => LNoFuel
  | S fuel =>
      if bool_decide (MAX_DEPTH < depth) then LError TooDeep
      else
        match v with
        | VNil => wb_nil b
        | VInt x => wb_integer b x
        | VReal n => wb_real b n
        | VBool x => wb_boolean b x
        | VString s => wb_string b s (i32 (Zlen s))
        | VPointer p => wb_pointer b p
        | VTable _ | VPairs _ => wb_table (pack_one fuel) v (depth + 1) b
        | VOther t => LError (Unsupported t)
        end
  end.
Definition PACK_FUEL : nat := 34.

Definition pack_from (vs : list value) (b : write_block) : lua write_block :=
  wb_each (λ v, pack_one PACK_FUEL v 0) vs b.

(** the bytes of the chain, block by block *)
Fixpoint seri_loop (blocks : list (list Z)) (len : Z) : outcome (list Z) :=
  if bool_decide (len ≤ 0) then Ret []
  else match blocks with
  | [] => Undef
  | b :: blocks =>
      if bool_decide (BLOCK_SIZE ≤ len) then rest ← seri_loop blocks (len - BLOCK_SIZE); Ret (b ++ rest)
      else Ret (take (Z.to_nat len) b)
  end.
Definition seri (b : write_block) : outcome (list Z) :=
  seri_loop (wb_full b ++ [wb_current b]) (wb_len b).

Definition luaseri_pack (vs : list value) : lua (list Z) :=
  b ← pack_from vs wb_init; lift (seri b).
End pack.

(** ** Reading *)
Definition rball_init (buffer : list Z) (size : Z) : read_block := ReadBlock buffer size 0.

(** the position of the bytes read, [None] for NULL *)
Definition rb_read (rb : read_block) (sz : Z) : option (Z * read_block) :=
  if bool_decide (rb_len rb < sz) then None
  else Some (rb_ptr rb, ReadBlock (rb_buffer rb) (rb_len rb - sz) (rb_ptr rb + sz)).

(** the [n] bytes of the buffer at [ptr], which must be inside of it *)
Definition bytes_at (rb : read_block) (ptr n : Z) : lua (list Z) :=
  if bool_decide (0 ≤ ptr ∧ 0 ≤ n ∧ ptr + n ≤ Zlen (rb_buffer rb))
  then LRet (take (Z.to_nat n) (drop (Z.to_nat ptr) (rb_buffer rb)))
  else LUndef.

Definition invalid_stream {A} (rb : read_block) (line : Z) : lua A :=
  LError (InvalidStream (rb_len rb) line).

(** reading a fixed number of bytes, or the error of that line *)
Definition read_bytes (rb : read_block) (n line : Z) : lua (list Z * read_block) :=
  match rb_read rb n with
  | None => invalid_stream rb line
  | Some (p, rb) => l ← bytes_at rb p n; LRet (l, rb)
  end.

Definition get_integer (rb : read_block) (cookie : Z) : lua (Z * read_block) :=
  if bool_decide (cookie = TYPE_NUMBER_ZERO) then LRet (0, rb)
  else if bool_decide (cookie = TYPE_NUMBER_BYTE) then
    '(l, rb) ← read_bytes rb 1 368; LRet (le_value l, rb)
  else if bool_decide (cookie = TYPE_NUMBER_WORD) then
    '(l, rb) ← read_bytes rb 2 376; LRet (le_value l, rb)
  else if bool_decide (cookie = TYPE_NUMBER_DWORD) then
    '(l, rb) ← read_bytes rb 4 384; LRet (i32 (le_value l), rb)
  else if bool_decide (cookie = TYPE_NUMBER_QWORD) then
    '(l, rb) ← read_bytes rb 8 392; LRet (i64 (le_value l), rb)
  else invalid_stream rb 397.

Definition get_real (rb : read_block) : lua (Z * read_block) :=
  '(l, rb) ← read_bytes rb 8 407; LRet (le_value l, rb).
Definition get_pointer (rb : read_block) : lua (Z * read_block) :=
  '(l, rb) ← read_bytes rb 8 417; LRet (le_value l, rb).
(** [len] is an [int] *)
Definition get_buffer (rb : read_block) (len : Z) : lua (value * read_block) :=
  '(l, rb) ← read_bytes rb (i32 len) 427; LRet (VString l, rb).

Definition get_string (rb : read_block) (cookie : Z) : lua (value * read_block) :=
  if bool_decide (cookie = 2) then
    '(l, rb) ← read_bytes rb 2 493; get_buffer rb (le_value l)
  else if bool_decide (cookie = 4) then
    '(l, rb) ← read_bytes rb 4 504; get_buffer rb (le_value l)
  else invalid_stream rb 500.

(** the size of the array part, which may be a packed integer *)
Definition get_array_size (rb : read_block) (array_size : Z) : lua (Z * read_block) :=
  if bool_decide (array_size = MAX_COOKIE - 1) then
    '(t, rb) ← read_bytes rb 1 440;
    let type := le_value t in
    let cookie := Z.shiftr type 3 in
    if bool_decide (Z.land type 7 ≠ TYPE_NUMBER ∨ cookie = TYPE_NUMBER_REAL)
    then invalid_stream rb 445
    else '(n, rb) ← get_integer rb cookie; LRet (i32 n, rb)
  else LRet (array_size, rb).

(** a value takes at least one byte: the fuel bounds the values and the rounds
    of the loops *)
Fixpoint push_value (fuel : nat) (rb : read_block) (type cookie : Z) : lua (value * read_block) :=
  match fuel with
  | O => LNoFuel
  | S fuel =>
      if bool_decide (type = TYPE_NIL) then LRet (VNil, rb)
      else if bool_decide (type = TYPE_BOOLEAN) then LRet (VBool (bool_decide (cookie ≠ 0)), rb)
      else if bool_decide (type = TYPE_NUMBER) then
        if bool_decide (cookie = TYPE_NUMBER_REAL) then '(n, rb) ← get_real rb; LRet (VReal n, rb)
        else '(n, rb) ← get_integer rb cookie; LRet (VInt n, rb)
      else if bool_decide (type = TYPE_USERDATA) then '(p, rb) ← get_pointer rb; LRet (VPointer p, rb)
      else if bool_decide (type = TYPE_SHORT_STRING) then get_buffer rb cookie
      else if bool_decide (type = TYPE_LONG_STRING) then get_string rb cookie
      else if bool_decide (type = TYPE_TABLE) then
        '(array_size, rb) ← get_array_size rb cookie;
        unpack_array fuel rb 1 array_size []
      else invalid_stream rb 517
  end
with unpack_one (fuel : nat) (rb : read_block) : lua (value * read_block) :=
  match fuel with
  | O => LNoFuel
  | S fuel =>
      '(t, rb) ← read_bytes rb 1 528;
      let type := le_value t in
      push_value fuel rb (Z.land type 7) (Z.shiftr type 3)
  end
with unpack_array (fuel : nat) (rb : read_block) (i array_size : Z) (es : list (value * value)) :
    lua (value * read_block) :=
  match fuel with
  | O => LNoFuel
  | S fuel =>
      if bool_decide (i ≤ array_size) then
        '(v, rb) ← unpack_one fuel rb;
        unpack_array fuel rb (i + 1) array_size (rawseti es i v)
      else unpack_hash fuel rb es
  end
with unpack_hash (fuel : nat) (rb : read_block) (es : list (value * value)) : lua (value * read_block) :=
  match fuel with
  | O => LNoFuel
  | S fuel =>
      '(k, rb) ← unpack_one fuel rb;
      match k with
      | VNil => LRet (VTable es, rb)
      | k =>
          '(v, rb) ← unpack_one fuel rb;
          es ← rawset es k v;
          unpack_hash fuel rb es
      end
  end.

(** the values of a buffer; the loop ends where no byte is left *)
Fixpoint unpack_all (fuel : nat) (rb : read_block) : lua (list value) :=
  match fuel with
  | O => LNoFuel
  | S fuel =>
      match rb_read rb 1 with
      | None => LRet []
      | Some (p, rb) =>
          t ← bytes_at rb p 1;
          let type := le_value t in
          '(v, rb) ← push_value fuel rb (Z.land type 7) (Z.shiftr type 3);
          vs ← unpack_all fuel rb;
          LRet (v :: vs)
      end
  end.
Definition unpack_fuel (len : Z) : nat := 5 + 4 * Z.to_nat len.

Inductive seri_argument : Type :=
  | ArgNone
  | ArgString (s : list Z)
  | ArgPointer (buffer : option (list Z)) (len : Z).

Definition luaseri_unpack (a : seri_argument) : lua (list value) :=
  match a with
  | ArgNone => LRet []
  | ArgString s =>
      let len := i32 (Zlen s) in
      if bool_decide (len = 0) then LRet [] else unpack_all (unpack_fuel len) (rball_init s len)
  | ArgPointer buffer len =>
      let len := i32 len in
      if bool_decide (len = 0) then LRet []
      else match buffer with
      | None => LError NullPointer
      | Some s => unpack_all (unpack_fuel len) (rball_init s len)
      end
  end.
