(* ===== verification/SeriSpec.v ===== *)
(** * What is packed is unpacked

    Packing and unpacking are inverse to each other up to the order of table
    entries, whatever the border and the order Lua answers; unpacking ends on
    every buffer. *)
From S2P Require Import Prelude Bytes LuaValue Seri.

(** ** The blocks as bytes *)
Definition block_ok (b : list Z) : Prop := Zlen b = BLOCK_SIZE.

Record wb_repr (b : write_block) (bs : list Z) : Prop := {
  wr_full : Forall block_ok (wb_full b);
  wr_current : block_ok (wb_current b);
  wr_ptr : 0 ≤ wb_ptr b ≤ BLOCK_SIZE;
  wr_bytes : mjoin (wb_full b) ++ take (Z.to_nat (wb_ptr b)) (wb_current b) = bs;
  wr_len : wb_len b = Zlen bs
}.

Lemma Zlen_mjoin l : Forall block_ok l → Zlen (mjoin l) = BLOCK_SIZE * Zlen l.
Proof.
  induction 1 as [|b l Hb _ IH]; [done|]. rewrite mjoin_cons.
  rewrite Zlen_app, Zlen_cons, Hb, IH. lia.
Qed.

Section pack.
Context (junk : list Z) (Hjunk : block_ok junk).

Lemma wb_init_repr : wb_repr (wb_init junk) [].
Proof. split; cbn; try done. Qed.

(** ** Writing *)
Definition writes (w : write_block → lua write_block) (e : list Z) : Prop :=
  ∀ b bs, wb_repr b bs → Zlen bs + Zlen e ≤ INT_MAX →
    ∃ b', w b = LRet b' ∧ wb_repr b' (bs ++ e).

Lemma next_block_repr b bs : wb_repr b bs → wb_ptr b = BLOCK_SIZE → wb_repr (next_block junk b) bs.
Proof.
  intros [H1 H2 H3 H4 H5] Hp. split; cbn.
  - apply Forall_app. by split; [|constructor].
  - done.
  - done.
  - rewrite app_nil_r, mjoin_snoc, <- H4. f_equal. rewrite take_ge; [done|].
    unfold block_ok, Zlen in *. lia.
  - done.
Qed.

Lemma write_part b bs part : wb_repr b bs → wb_ptr b + Zlen part ≤ BLOCK_SIZE →
  wb_repr (WriteBlock (wb_full b) (copy_at (wb_current b) (wb_ptr b) part)
             (wb_len b + Zlen part) (wb_ptr b + Zlen part)) (bs ++ part).
Proof.
  intros [H1 H2 H3 H4 H5] Hp. pose proof (Zlen_nonneg part).
  destruct (copy_at_spec (wb_current b) (wb_ptr b) part) as [Hl Ht]; [lia|by rewrite H2|].
  split; cbn.
  - done.
  - unfold block_ok. by rewrite Hl.
  - lia.
  - by rewrite Ht, app_assoc, H4.
  - by rewrite Zlen_app, H5.
Qed.

Lemma wb_copy_spec fuel b bs buf : wb_repr b bs → wb_ptr b < BLOCK_SIZE →
  (length buf ≤ fuel)%nat → Zlen bs + Zlen buf ≤ INT_MAX →
  ∃ b', wb_copy junk fuel b buf = LRet b' ∧ wb_repr b' (bs ++ buf).
Proof.
  revert b bs buf. induction fuel as [|fuel IH]; intros b bs buf HR Hp Hf Hmax;
    pose proof (Zlen_nonneg bs); pose proof (Zlen_nonneg buf);
    pose proof HR as [H1 H2 H3 H4 H5]; cbn [wb_copy];
    destruct (decide (wb_ptr b ≤ BLOCK_SIZE - Zlen buf)) as [Hc|Hc].
  1,3: rewrite bool_decide_eq_true_2 by done; rewrite chk_int_ok by (rewrite H5; lia);
    eexists; split; [done|]; apply write_part; [done|lia].
  { exfalso. unfold Zlen in *. lia. }
  rewrite bool_decide_eq_false_2 by done. set (copy := BLOCK_SIZE - wb_ptr b).
  assert (Zlen (take (Z.to_nat copy) buf) = copy) as Hcopy.
  { unfold Zlen in *. rewrite length_take. unfold copy. lia. }
  rewrite chk_int_ok by (rewrite H5; unfold copy; lia). cbn [lift mbind lua_bind].
  replace (bs ++ buf) with ((bs ++ take (Z.to_nat copy) buf) ++ drop (Z.to_nat copy) buf)
    by (by rewrite <- app_assoc, take_drop).
  apply IH.
  - pose proof (write_part b bs (take (Z.to_nat copy) buf) HR) as HW. rewrite Hcopy in HW.
    refine (next_block_repr _ _ (HW _) _); cbn; unfold copy; lia.
  - done.
  - rewrite length_drop. unfold copy. lia.
  - rewrite Zlen_app. rewrite Hcopy. unfold Zlen in *. rewrite length_drop. unfold copy. lia.
Qed.

Lemma writes_push buf : writes (λ b, wb_push junk b buf) buf.
Proof.
  intros b bs HR Hmax. unfold wb_push. pose proof (wr_ptr _ _ HR).
  case_bool_decide as Hp; apply wb_copy_spec; try done.
  - by apply next_block_repr.
  - lia.
Qed.

Lemma writes_seq w1 w2 e1 e2 : writes w1 e1 → writes w2 e2 →
  writes (λ b, b ← w1 b; w2 b) (e1 ++ e2).
Proof.
  intros H1 H2 b bs HR Hmax. rewrite Zlen_app in Hmax. pose proof (Zlen_nonneg e2).
  destruct (H1 b bs HR) as (b1 & -> & HR1); [lia|].
  destruct (H2 b1 _ HR1) as (b2 & E2 & HR2); [rewrite Zlen_app; lia|].
  exists b2. rewrite app_assoc. done.
Qed.

Lemma writes_each {A} (f : A → write_block → lua write_block) l es :
  Forall2 (λ x e, writes (f x) e) l es → writes (wb_each f l) (mjoin es).
Proof.
  induction 1 as [|x e l es Hx _ IH].
  - intros b bs HR _. exists b. by rewrite app_nil_r.
  - exact (writes_seq _ _ _ _ Hx IH).
Qed.

Lemma seri_loop_spec l c n : Forall block_ok l → block_ok c → 0 ≤ n ≤ BLOCK_SIZE →
  seri_loop (l ++ [c]) (BLOCK_SIZE * Zlen l + n) = Ret (mjoin l ++ take (Z.to_nat n) c).
Proof.
  intros Hl Hc Hn. induction Hl as [|b l Hb Hl IH].
  - cbn [app seri_loop]. replace (BLOCK_SIZE * Zlen (@nil (list Z)) + n) with n by (unfold Zlen; cbn [length]; lia).
    case_bool_decide; [by replace n with 0 by lia|].
    unfold block_ok, Zlen in Hc.
    case_bool_decide; [|done]. replace n with BLOCK_SIZE by lia. rewrite Z.sub_diag. cbn [seri_loop].
    rewrite bool_decide_eq_true_2, Ret_bind, app_nil_r by done. rewrite take_ge; [done|lia].
  - rewrite Zlen_cons. pose proof (Zlen_nonneg l). cbn [app seri_loop].
    rewrite bool_decide_eq_false_2 by (unfold BLOCK_SIZE in *; lia).
    rewrite bool_decide_eq_true_2 by (unfold BLOCK_SIZE in *; lia).
    replace (BLOCK_SIZE * (1 + Zlen l) + n - BLOCK_SIZE) with (BLOCK_SIZE * Zlen l + n) by lia.
    rewrite IH. cbn [mbind outcome_bind]. by rewrite app_assoc.
Qed.

Lemma seri_spec b bs : wb_repr b bs → seri b = Ret bs.
Proof.
  intros [H1 H2 H3 H4 H5]. unfold seri.
  replace (wb_len b) with (BLOCK_SIZE * Zlen (wb_full b) + wb_ptr b).
  - by rewrite seri_loop_spec, H4.
  - rewrite H5, <- H4, Zlen_app, Zlen_mjoin by done. f_equal. unfold block_ok, Zlen in *.
    rewrite length_take. lia.
Qed.
End pack.

(** ** Reading *)

(** what is left after the first [Zlen pre] bytes *)
Definition at_ (pre rest : list Z) : read_block := ReadBlock (pre ++ rest) (Zlen rest) (Zlen pre).

Lemma read_bytes_at pre l rest line n : n = Zlen l →
  read_bytes (at_ pre (l ++ rest)) n line = LRet (l, at_ (pre ++ l) rest).
Proof.
  intros ->. unfold read_bytes, rb_read, at_. cbn [rb_len rb_ptr rb_buffer].
  pose proof (Zlen_nonneg l). pose proof (Zlen_nonneg rest). pose proof (Zlen_nonneg pre).
  rewrite bool_decide_eq_false_2 by (rewrite Zlen_app; lia). unfold bytes_at. cbn [rb_buffer].
  rewrite bool_decide_eq_true_2 by (rewrite !Zlen_app; lia).
  rewrite LRet_bind. unfold Zlen at 1 2. rewrite !Nat2Z.id, drop_app_length, take_app_length.
  do 3 f_equal.
  - by rewrite app_assoc.
  - rewrite Zlen_app. lia.
  - rewrite Zlen_app. lia.
Qed.

Lemma combine_split t v : 0 ≤ t < 8 → 0 ≤ v < 32 →
  COMBINE_TYPE t v = t + v * 8 ∧ Z.land (COMBINE_TYPE t v) 7 = t ∧
  Z.shiftr (COMBINE_TYPE t v) 3 = v.
Proof.
  intros Ht Hv. unfold COMBINE_TYPE. rewrite Z.shiftl_mul_pow2 by lia.
  rewrite (lor_high t v 3) by lia. unfold u8. rewrite Z.mod_small by lia.
  change 7 with (2 ^ 3 - 1). rewrite land_mask, Z.shiftr_div_pow2, Z.mod_add, Z.div_add by lia.
  rewrite Z.mod_small, Z.div_small by lia. lia.
Qed.

Definition reads (r : nat → read_block → lua (value * read_block)) (k : nat) (e : list Z) (v : value) :
    Prop :=
  ∀ fuel pre rest, (4 * length (e ++ rest) + k ≤ fuel)%nat →
    r fuel (at_ pre (e ++ rest)) = LRet (v, at_ (pre ++ e) rest).

Lemma read_header t v pre rest fuel : 0 ≤ t < 8 → 0 ≤ v < 32 →
  unpack_one (S fuel) (at_ pre (COMBINE_TYPE t v :: rest)) =
  push_value fuel (at_ (pre ++ [COMBINE_TYPE t v]) rest) t v.
Proof.
  intros Ht Hv. cbn [unpack_one].
  rewrite (read_bytes_at pre [COMBINE_TYPE t v] rest) by done. rewrite LRet_bind. cbn [le_value].
  destruct (combine_split t v Ht Hv) as (_ & E1 & E2).
  rewrite Z.mul_0_r, Z.add_0_r. by rewrite E1, E2.
Qed.

(** a value packed as a header and a body *)
Lemma reads_header t c body v : 0 ≤ t < 8 → 0 ≤ c < 32 →
  reads (λ fuel rb, push_value fuel rb t c) 4 body v →
  reads unpack_one 1 (COMBINE_TYPE t c :: body) v.
Proof.
  intros Ht Hc Hr [|fuel] pre rest Hf; cbn [app length] in Hf; [lia|].
  cbn [app]. rewrite read_header by done. rewrite Hr by lia.
  do 3 f_equal. by rewrite <- app_assoc.
Qed.

(** ** Scalars *)
Ltac decide_all :=
  repeat first [rewrite bool_decide_eq_true_2 by (done || lia) |
                rewrite bool_decide_eq_false_2 by (done || lia)].

Section scalars.
Context (junk : list Z) (Hjunk : block_ok junk).

Lemma writes_header (w : write_block → lua write_block) h body :
  writes w body → writes (λ b, b ← wb_push junk b [h]; w b) (h :: body).
Proof. intros Hw. apply (writes_seq _ _ [h] body); [by apply writes_push|done]. Qed.

Lemma integer_codec v : - 2 ^ 63 ≤ v < 2 ^ 63 → ∃ c body,
  0 ≤ c < 8 ∧ writes (λ b, wb_integer junk b v) (COMBINE_TYPE TYPE_NUMBER c :: body) ∧
  ∀ pre rest, get_integer (at_ pre (body ++ rest)) c = LRet (v, at_ (pre ++ body) rest).
Proof.
  intros Hv. unfold wb_integer. cbv zeta.
  destruct (decide (v = 0)) as [->|H0].
  { exists 0, []. decide_all. split; [lia|]. split; [by apply writes_push|].
    intros pre rest. by rewrite app_nil_r. }
  rewrite (bool_decide_eq_false_2 (v = 0)) by done.
  destruct (decide (v ≠ i32 v)) as [H1|H1].
  { exists 6, (le_bytes 8 v). rewrite bool_decide_eq_true_2 by done. split; [lia|].
    split; [by apply writes_header, writes_push|]. intros pre rest. unfold get_integer. decide_all.
    rewrite read_bytes_at by (by rewrite Zlen_le_bytes). by rewrite LRet_bind, i64_le. }
  assert (- 2 ^ 31 ≤ v < 2 ^ 31) as Hi.
  { apply dec_stable in H1. rewrite H1. unfold i32.
    pose proof (Z.mod_pos_bound (v + 2 ^ 31) (2 ^ 32)). lia. }
  rewrite (bool_decide_eq_false_2 (v ≠ i32 v)) by done.
  destruct (decide (v < 0)) as [H2|H2].
  { exists 4, (le_bytes 4 v). rewrite bool_decide_eq_true_2 by done. split; [lia|].
    split; [by apply writes_header, writes_push|]. intros pre rest. unfold get_integer. decide_all.
    rewrite read_bytes_at by (by rewrite Zlen_le_bytes). by rewrite LRet_bind, i32_le. }
  rewrite (bool_decide_eq_false_2 (v < 0)) by done.
  destruct (decide (v < 0x100)) as [H3|H3].
  { exists 1, (le_bytes 1 v). rewrite bool_decide_eq_true_2 by done. split; [lia|].
    split; [by apply writes_header, writes_push|]. intros pre rest. unfold get_integer. decide_all.
    rewrite read_bytes_at by (by rewrite Zlen_le_bytes). rewrite LRet_bind, le_small; [done|].
    cbn. lia. }
  rewrite (bool_decide_eq_false_2 (v < 0x100)) by done.
  destruct (decide (v < 0x10000)) as [H4|H4].
  { exists 2, (le_bytes 2 v). rewrite bool_decide_eq_true_2 by done. split; [lia|].
    split; [by apply writes_header, writes_push|]. intros pre rest. unfold get_integer. decide_all.
    rewrite read_bytes_at by (by rewrite Zlen_le_bytes). rewrite LRet_bind, le_small; [done|].
    cbn. lia. }
  rewrite (bool_decide_eq_false_2 (v < 0x10000)) by done.
  exists 4, (le_bytes 4 v). split; [lia|].
  split; [by apply writes_header, writes_push|]. intros pre rest. unfold get_integer. decide_all.
  rewrite read_bytes_at by (by rewrite Zlen_le_bytes). by rewrite LRet_bind, i32_le.
Qed.

Lemma get_buffer_at pre s rest : Zlen s ≤ INT_MAX →
  get_buffer (at_ pre (s ++ rest)) (Zlen s) = LRet (VString s, at_ (pre ++ s) rest).
Proof.
  intros Hs. unfold get_buffer. pose proof (Zlen_nonneg s). unfold INT_MAX in Hs.
  rewrite read_bytes_at by (apply i32_small; lia). done.
Qed.

Lemma string_codec s : Zlen s ≤ INT_MAX → ∃ e,
  writes (λ b, wb_string junk b s (i32 (Zlen s))) e ∧ reads unpack_one 1 e (VString s).
Proof.
  intros Hs. pose proof (Zlen_nonneg s) as Hs0. unfold INT_MAX in Hs.
  rewrite i32_small by lia. unfold wb_string. rewrite bool_decide_eq_false_2 by lia.
  replace (take (Z.to_nat (Zlen s)) s) with s by (unfold Zlen; by rewrite Nat2Z.id, take_ge).
  destruct (decide (Zlen s < MAX_COOKIE)) as [Hc|Hc].
  - rewrite bool_decide_eq_true_2 by done. unfold MAX_COOKIE in Hc.
    exists (COMBINE_TYPE TYPE_SHORT_STRING (Zlen s) :: s). split.
    + apply writes_header. case_bool_decide as Hp; [by apply writes_push|].
      assert (s = []) as -> by (destruct s; [done|rewrite Zlen_cons in *; pose proof (Zlen_nonneg s); lia]).
      intros b bs HR _. exists b. by rewrite app_nil_r.
    + apply reads_header; [done|lia|]. intros [|fuel] pre rest Hf; [lia|]. cbn [push_value].
      decide_all. apply get_buffer_at. unfold INT_MAX. lia.
  - rewrite bool_decide_eq_false_2 by done. unfold MAX_COOKIE in Hc.
    case_bool_decide as Hl.
    + exists (COMBINE_TYPE TYPE_LONG_STRING 2 :: le_bytes 2 (Zlen s) ++ s). split.
      * intros b bs HR Hmax.
        apply (writes_seq (λ b, b ← wb_push junk b _; wb_push junk b _) (λ b, wb_push junk b s)
          (_ :: le_bytes 2 (Zlen s)) s); [|by apply writes_push|done|done].
        by apply writes_header, writes_push.
      * apply reads_header; [done..|]. intros [|fuel] pre rest Hf; [lia|]. cbn [push_value].
        decide_all. unfold get_string. decide_all. rewrite <- app_assoc.
        rewrite read_bytes_at by (by rewrite Zlen_le_bytes). rewrite LRet_bind.
        rewrite le_small by (change (256 ^ Z.of_nat 2) with 65536; lia).
        rewrite get_buffer_at, <- app_assoc by (unfold INT_MAX; lia). done.
    + exists (COMBINE_TYPE TYPE_LONG_STRING 4 :: le_bytes 4 (Zlen s) ++ s). split.
      * intros b bs HR Hmax.
        apply (writes_seq (λ b, b ← wb_push junk b _; wb_push junk b _) (λ b, wb_push junk b s)
          (_ :: le_bytes 4 (Zlen s)) s); [|by apply writes_push|done|done].
        by apply writes_header, writes_push.
      * apply reads_header; [done..|]. intros [|fuel] pre rest Hf; [lia|]. cbn [push_value].
        decide_all. unfold get_string. decide_all. rewrite <- app_assoc.
        rewrite read_bytes_at by (by rewrite Zlen_le_bytes). rewrite LRet_bind.
        rewrite le_small by (change (256 ^ Z.of_nat 4) with (2 ^ 32); lia).
        rewrite get_buffer_at, <- app_assoc by (unfold INT_MAX; lia). done.
Qed.

Lemma word_codec t v line (w : Z) (f : value) : 0 ≤ t < 8 → 0 ≤ v < 32 → 0 ≤ w < 2 ^ 64 →
  (∀ fuel rb, push_value (S fuel) rb t v =
     '(l, rb) ← read_bytes rb 8 line;
     LRet (match f with VReal _ => VReal (le_value l) | _ => VPointer (le_value l) end, rb)) →
  (f = VReal w ∨ f = VPointer w) →
  ∃ e, writes (λ b, b ← wb_push junk b [COMBINE_TYPE t v]; wb_push junk b (le_bytes 8 w)) e ∧
       reads unpack_one 1 e f.
Proof.
  intros Ht Hv Hw Hp Hf. exists (COMBINE_TYPE t v :: le_bytes 8 w). split.
  - by apply writes_header, writes_push.
  - apply reads_header; [done..|]. intros [|fuel] pre rest Hfu; [lia|]. rewrite Hp.
    rewrite read_bytes_at by (by rewrite Zlen_le_bytes). rewrite LRet_bind, le_small by (cbn; lia).
    by destruct Hf as [-> | ->].
Qed.

Lemma scalar_codec v : match v with
  | VNil | VBool _ => True
  | VInt z => - 2 ^ 63 ≤ z < 2 ^ 63
  | VReal w | VPointer w => 0 ≤ w < 2 ^ 64
  | VString s => Zlen s ≤ INT_MAX
  | _ => False
  end → ∀ rawlen n d, d ≤ MAX_DEPTH →
  ∃ e, writes (pack_one junk rawlen (S n) v d) e ∧ reads unpack_one 1 e v.
Proof.
  intros Hv rawlen n d Hd. unfold writes. cbn [pack_one].
  rewrite bool_decide_eq_false_2 by lia. destruct v as [|x|z|w|s|p| | |]; try done.
  - exists [COMBINE_TYPE TYPE_NIL 0]. split; [by apply writes_push|].
    apply reads_header; [done..|]. intros [|fuel] pre rest Hf; [lia|]. cbn [push_value].
    decide_all. by rewrite app_nil_r.
  - exists [COMBINE_TYPE TYPE_BOOLEAN (if x then 1 else 0)]. split; [by apply writes_push|].
    apply reads_header; [done|by destruct x|]. intros [|fuel] pre rest Hf; [lia|].
    cbn [push_value]. decide_all. rewrite app_nil_r. by destruct x.
  - destruct (integer_codec z Hv) as (c & body & Hc & Hw & Hr).
    exists (COMBINE_TYPE TYPE_NUMBER c :: body). split; [done|].
    apply reads_header; [done|lia|]. intros [|fuel] pre rest Hf; [lia|]. cbn [push_value].
    decide_all. rewrite (bool_decide_eq_false_2 (c = TYPE_NUMBER_REAL)) by (unfold TYPE_NUMBER_REAL; lia).
    by rewrite Hr.
  - apply (word_codec TYPE_NUMBER TYPE_NUMBER_REAL 407 w (VReal w)); try done; [|by left].
    intros fuel rb. cbn [push_value]. decide_all. unfold get_real.
    destruct (read_bytes rb 8 407) as [[l rb']|e| |]; done.
  - by apply string_codec.
  - apply (word_codec TYPE_USERDATA 0 417 p (VPointer p)); try done; [|by right].
    intros fuel rb. cbn [push_value]. decide_all. unfold get_pointer.
    destruct (read_bytes rb 8 417) as [[l rb']|e| |]; done.
Qed.
End scalars.

(** ** Tables *)
Inductive packable : nat → value → Prop :=
  | p_nil n : packable n VNil
  | p_bool n b : packable n (VBool b)
  | p_int n z : - 2 ^ 63 ≤ z < 2 ^ 63 → packable n (VInt z)
  | p_real n w : 0 ≤ w < 2 ^ 64 → packable n (VReal w)
  | p_string n s : Zlen s ≤ INT_MAX → packable n (VString s)
  | p_pointer n w : 0 ≤ w < 2 ^ 64 → packable n (VPointer w)
  | p_table n es : table_ok es → Forall (λ p, packable n p.1 ∧ packable n p.2) es →
      packable (S n) (VTable es)
  | p_pairs n es : table_ok es → Forall (λ p, packable n p.1 ∧ packable n p.2) es →
      packable (S n) (VPairs es).

(** the entries of the array part from index [i] on *)
Fixpoint arr_entries (i : Z) (vs : list value) : list (value * value) :=
  match vs with
  | [] => []
  | VNil :: vs => arr_entries (i + 1) vs
  | v :: vs => (VInt i, v) :: arr_entries (i + 1) vs
  end.

Lemma arr_entries_keys i vs p : p ∈ arr_entries i vs →
  ∃ k, i ≤ k < i + Zlen vs ∧ p.1 = VInt k ∧ vs !! Z.to_nat (k - i) = Some p.2 ∧ p.2 ≠ VNil.
Proof.
  revert i. induction vs as [|v vs IH]; intros i Hin; [by apply not_elem_of_nil in Hin|].
  rewrite Zlen_cons. pose proof (Zlen_nonneg vs).
  assert (p ∈ arr_entries (i + 1) vs ∨ v ≠ VNil ∧ p = (VInt i, v)) as [Hp|[Hv ->]].
  { destruct v; cbn in Hin; try by left.
    all: apply elem_of_cons in Hin as [->|?]; [by right|by left]. }
  - destruct (IH _ Hp) as (k & Hk & E & Hl & Hn). exists k. split; [lia|]. split; [done|].
    split; [|done]. replace (Z.to_nat (k - i)) with (S (Z.to_nat (k - (i + 1)))) by lia. done.
  - exists i. split; [lia|]. split; [done|]. by rewrite Z.sub_diag.
Qed.

Lemma arr_entries_In i vs k v : vs !! k = Some v → v ≠ VNil →
  (VInt (i + Z.of_nat k), v) ∈ arr_entries i vs.
Proof.
  revert i k. induction vs as [|w vs IH]; intros i [|k] Hk Hv; try done; cbn in Hk.
  - injection Hk as ->. rewrite Z.add_0_r. destruct v; try done; by left.
  - specialize (IH (i + 1) k Hk Hv).
    replace (i + Z.of_nat (S k)) with (i + 1 + Z.of_nat k) by lia.
    destruct w; cbn; try done; by right.
Qed.

Lemma arr_entries_NoDup i vs : NoDup (arr_entries i vs).
Proof.
  revert i. induction vs as [|v vs IH]; intros i; [constructor|].
  destruct v; cbn; try apply IH.
  all: constructor; [|apply IH]; intros Hin; apply arr_entries_keys in Hin as (k & Hk & [= <-] & _);
    lia.
Qed.

Lemma arr_entries_same i vs vs' : Forall2 same_value vs vs' →
  same_entries (arr_entries i vs) (arr_entries i vs').
Proof.
  intros Hs. revert i. induction Hs as [|v v' vs vs' Hv Hs IH]; intros i; [constructor|].
  destruct Hv; cbn; try apply IH.
  all: constructor; [|apply IH]; split; [constructor|by econstructor].
Qed.

Definition hash_entries (n : Z) (es : list (value * value)) : list (value * value) :=
  filter (λ p, in_array n p.1 = false) es.

(** a table is its array part, up to any border, and the other entries *)
Lemma table_split n es : table_ok es → 0 ≤ n →
  es ≡ₚ arr_entries 1 (rawgeti es <$> seqZ 1 n) ++ hash_entries n es.
Proof.
  intros [Hd Hok] Hn. rewrite <- (filter_app_complement (λ p, in_array n p.1 = true) es) at 1.
  apply Permutation_app.
  2:{ unfold hash_entries. apply reflexive_eq. apply list_filter_iff. intros [k v]. cbn.
      by destruct (in_array n k). }
  apply NoDup_Permutation; [|apply arr_entries_NoDup|].
  - clear Hok. induction es as [|[k v] es IH]; [constructor|]. destruct Hd as [Hf Hd].
    rewrite filter_cons. case_decide as E; [|by apply IH]. constructor; [|by apply IH].
    rewrite list_elem_of_filter. intros [_ Hin]. rewrite Forall_forall in Hf. specialize (Hf _ Hin).
    cbn in *. destruct k; try done. cbn in Hf. by rewrite bool_decide_eq_true_2 in Hf.
  - intros [k v]. rewrite list_elem_of_filter. cbn [fst]. split.
    + intros [E Hin]. destruct k as [| |x| | | | | |]; try done. cbn in E.
      apply bool_decide_eq_true in E. rewrite Forall_forall in Hok.
      destruct (Hok _ Hin) as [_ Hv]. cbn in Hv.
      replace x with (1 + Z.of_nat (Z.to_nat (x - 1))) by lia. apply arr_entries_In; [|done].
      rewrite list_lookup_fmap, lookup_seqZ_lt by lia. cbn.
      replace (1 + Z.of_nat (Z.to_nat (x - 1))) with x by lia. by rewrite (rawgeti_In x v).
    + intros Hin. destruct (arr_entries_keys _ _ _ Hin) as (x & Hx & E & Hl & Hv). cbn in *. subst k.
      rewrite Zlen_fmap, Zlen_seqZ in Hx by done. cbn [in_array]. rewrite bool_decide_eq_true_2 by lia.
      split; [done|]. rewrite list_lookup_fmap, lookup_seqZ_lt in Hl by lia. cbn in Hl.
      replace (1 + Z.of_nat (Z.to_nat (x - 1))) with x in Hl by lia. injection Hl as <-.
      by destruct (rawgeti_inv x es) as [?|?].
Qed.

Lemma set_entry_arr i v es : (∀ p, p ∈ es → ∃ k, p.1 = VInt k ∧ k < i) →
  rawseti es i v = es ++ arr_entries i [v].
Proof.
  intros Hes. assert (Forall (λ p, same_key (VInt i) p.1 = false) es) as Hf.
  { apply Forall_forall. intros p Hp. destruct (Hes p Hp) as (k & -> & Hk). cbn.
    apply bool_decide_eq_false_2. lia. }
  unfold rawseti. destruct v; cbn; try (by rewrite set_entry_fresh).
  by rewrite set_entry_nil, app_nil_r.
Qed.

Lemma arr_entries_cons i v vs : arr_entries i (v :: vs) = arr_entries i [v] ++ arr_entries (i + 1) vs.
Proof. by destruct v. Qed.

(** the rounds of the array part, to the first of the hash part *)
Lemma unpack_array_spec items i n es rest pre fuel :
  Forall (λ p, reads unpack_one 1 p.1 p.2) items → Zlen items = n - i + 1 →
  (∀ p, p ∈ es → ∃ k, p.1 = VInt k ∧ k < i) →
  (4 * length (mjoin (fst <$> items) ++ rest) + 3 ≤ fuel)%nat → Forall (λ p, p.1 ≠ []) items →
  ∃ fuel', (4 * length rest + 2 ≤ fuel')%nat ∧
    unpack_array fuel (at_ pre (mjoin (fst <$> items) ++ rest)) i n es =
    unpack_hash fuel' (at_ (pre ++ mjoin (fst <$> items)) rest) (es ++ arr_entries i (snd <$> items)).
Proof.
  intros Hr. revert i es pre fuel.
  induction Hr as [|[e v] items He Hr IH]; intros i es pre [|fuel] Hn Hes Hf Hne; try (cbn in Hf; lia).
  - exists fuel. split; [cbn in Hf; lia|]. cbn [unpack_array].
    rewrite bool_decide_eq_false_2 by (unfold Zlen in Hn; cbn in Hn; lia).
    cbn [fmap list_fmap mjoin list_join arr_entries]. by rewrite !app_nil_r.
  - rewrite Zlen_cons in Hn. pose proof (Zlen_nonneg items). apply Forall_cons in Hne as [Hee Hne].
    cbn [fst snd] in *. rewrite !fmap_cons, mjoin_cons in *. cbn [fst snd] in *.
    rewrite <- app_assoc in *. cbn [unpack_array]. rewrite bool_decide_eq_true_2 by lia.
    assert (1 ≤ length e)%nat by (destruct e; [done|cbn; lia]).
    rewrite He by lia. rewrite LRet_bind.
    rewrite length_app in Hf.
    destruct (IH (i + 1) (rawseti es i v) (pre ++ e) fuel) as (fuel' & Hf' & E); [lia| |lia|done|].
    + rewrite set_entry_arr by done. intros p [Hp|Hp]%elem_of_app.
      * destruct (Hes p Hp) as (k & ? & ?). exists k. split; [done|lia].
      * destruct (arr_entries_keys _ _ _ Hp) as (k & Hk & ? & _). exists k. split; [done|].
        rewrite Zlen_cons, Zlen_nil in Hk. lia.
    + exists fuel'. split; [done|]. rewrite E, set_entry_arr by done.
      by rewrite <- !app_assoc, <- arr_entries_cons.
Qed.

(** a packed entry and what it is read as *)
Definition pair_item : Type := (list Z * value) * (list Z * value).
Definition item_bytes (p : pair_item) : list Z := p.1.1 ++ p.2.1.
Definition item_entry (p : pair_item) : value * value := (p.1.2, p.2.2).
Definition item_ok (p : pair_item) : Prop :=
  reads unpack_one 1 p.1.1 p.1.2 ∧ reads unpack_one 1 p.2.1 p.2.2 ∧ p.1.1 ≠ [] ∧
  key_ok p.1.2 ∧ p.2.2 ≠ VNil.

(** no key of [es] or before is met again *)
Definition fresh_keys (es l : list (value * value)) : Prop :=
  distinct_keys l ∧ Forall (λ p, Forall (λ q, same_key p.1 q.1 = false) es) l.

Lemma same_key_comm a b : same_key a b = same_key b a.
Proof. destruct a, b; try done; cbn; by apply bool_decide_ext. Qed.

Lemma fresh_keys_cons es p l : fresh_keys es (p :: l) → fresh_keys (es ++ [p]) l.
Proof.
  destruct p as [k v]. intros [[Hk Hd] [Hf Hfs]%Forall_cons]. split; [done|].
  rewrite Forall_forall in *. intros q Hq. apply Forall_app. split; [by apply Hfs|].
  constructor; [|constructor]. cbn. rewrite same_key_comm. by apply (Hk q).
Qed.

Lemma unpack_hash_spec items es pre rest fuel :
  Forall item_ok items → fresh_keys es (item_entry <$> items) →
  (4 * length (mjoin (item_bytes <$> items) ++ TYPE_NIL :: rest) + 2 ≤ fuel)%nat →
  unpack_hash fuel (at_ pre (mjoin (item_bytes <$> items) ++ TYPE_NIL :: rest)) es =
  LRet (VTable (es ++ (item_entry <$> items)), at_ (pre ++ mjoin (item_bytes <$> items) ++ [TYPE_NIL]) rest).
Proof.
  intros Hok. revert es pre fuel.
  induction Hok as [|[[ek k] [ev v]] items [Hk [Hv [Hne [Hkey Hnil]]]] Hok IH];
    intros es pre [|fuel] Hfr Hf; try lia.
  - cbn [unpack_hash fmap list_fmap mjoin list_join app]. rewrite app_nil_r.
    destruct fuel as [|fuel]; [cbn in Hf; lia|]. change TYPE_NIL with (COMBINE_TYPE TYPE_NIL 0) at 1.
    rewrite read_header by done. destruct fuel as [|fuel]; [cbn in Hf; lia|]. done.
  - cbn [fst snd] in *. rewrite !fmap_cons, mjoin_cons in *.
    change (item_bytes (ek, k, (ev, v))) with (ek ++ ev) in *.
    change (item_entry (ek, k, (ev, v))) with (k, v) in *.
    rewrite <- !app_assoc in *. cbn [unpack_hash].
    assert (1 ≤ length ek)%nat by (destruct ek; [done|cbn; lia]).
    rewrite Hk by lia. rewrite LRet_bind.
    assert (∀ A (x y : A), match k with VNil => x | _ => y end = y) as Hm.
    { destruct k; try done. }
    rewrite Hm. rewrite length_app in Hf. rewrite Hv by lia. rewrite LRet_bind.
    unfold rawset. rewrite Hkey, LRet_bind.
    destruct Hfr as [Hd Hfs] eqn:Efr. pose proof (Forall_inv Hfs) as Hf1. cbn in Hf1.
    rewrite set_entry_fresh by done. rewrite length_app in Hf.
    rewrite IH by (try apply (fresh_keys_cons _ _ _ Hfr); lia).
    rewrite <- !app_assoc. done.
Qed.

Lemma Forall2_choose {A B} (R : A → B → Prop) l :
  (∀ x, x ∈ l → ∃ y, R x y) → ∃ k, Forall2 R l k.
Proof.
  induction l as [|x l IH]; intros H; [exists []; constructor|].
  destruct (H x) as [y Hy]; [by left|]. destruct IH as [k Hk]; [intros z Hz; apply H; by right|].
  exists (y :: k). by constructor.
Qed.

Lemma wb_each_filter {A} (t : A → bool) (f : A → write_block → lua write_block) l b :
  wb_each (λ x b, if t x then LRet b else f x b) l b = wb_each f (filter (λ x, t x = false) l) b.
Proof.
  revert b. induction l as [|x l IH]; intros b; [done|]. cbn [wb_each]. rewrite filter_cons.
  destruct (t x); [rewrite decide_False by done; apply IH|rewrite decide_True by done].
  cbn [wb_each]. destruct (f x b) as [b'| | |]; [apply IH|done..].
Qed.

Lemma reads_nonempty e v : reads unpack_one 1 e v → e ≠ [].
Proof. intros Hr ->. by specialize (Hr 1%nat [] [] ltac:(cbn; lia)). Qed.

Section tables.
Context (junk : list Z) (Hjunk : block_ok junk).
Context (rawlen : list (value * value) → Z) (Hrawlen : ∀ es, 0 ≤ rawlen es ≤ INT_MAX).

Lemma size_codec n : 0 ≤ n ≤ INT_MAX → ∃ c body, 0 ≤ c < 32 ∧
  writes (λ b, if bool_decide (MAX_COOKIE - 1 ≤ n) then
                 b ← wb_push junk b [COMBINE_TYPE TYPE_TABLE (MAX_COOKIE - 1)]; wb_integer junk b n
               else if bool_decide (n < 0) then LUndef
               else wb_push junk b [COMBINE_TYPE TYPE_TABLE n])
    (COMBINE_TYPE TYPE_TABLE c :: body) ∧
  ∀ pre rest, get_array_size (at_ pre (body ++ rest)) c = LRet (n, at_ (pre ++ body) rest).
Proof.
  intros Hn. unfold INT_MAX in Hn. destruct (decide (MAX_COOKIE - 1 ≤ n)) as [Hc|Hc].
  - destruct (integer_codec junk Hjunk n) as (c & body & Hcr & Hw & Hr); [lia|].
    exists (MAX_COOKIE - 1), (COMBINE_TYPE TYPE_NUMBER c :: body). split; [done|].
    rewrite bool_decide_eq_true_2 by done. split; [by apply writes_header|]. intros pre rest.
    unfold get_array_size. decide_all.
    rewrite (read_bytes_at pre [COMBINE_TYPE TYPE_NUMBER c] (body ++ rest)) by done.
    rewrite LRet_bind. cbn [le_value]. rewrite Z.mul_0_r, Z.add_0_r. cbv zeta.
    destruct (combine_split TYPE_NUMBER c) as (_ & -> & ->); [done|lia|].
    rewrite bool_decide_eq_false_2 by (unfold TYPE_NUMBER_REAL; lia).
    rewrite Hr, LRet_bind, i32_small by lia. by rewrite <- app_assoc.
  - exists n, []. unfold MAX_COOKIE in Hc. split; [lia|]. decide_all.
    split; [by apply writes_push|]. intros pre rest. unfold get_array_size, MAX_COOKIE. decide_all.
    by rewrite app_nil_r.
Qed.

(** the values at one depth of the recursion *)
Definition codec (w : write_block → lua write_block) (v : value) : Prop :=
  ∃ e v', writes w e ∧ reads unpack_one 1 e v' ∧ same_value v v'.

Lemma pairs_codec w d es : (∀ p, p ∈ es → codec (w p.1 d) p.1 ∧ codec (w p.2 d) p.2) →
  Forall (λ p, key_ok p.1 ∧ p.2 ≠ VNil) es →
  ∃ items, Forall item_ok items ∧ same_entries es (item_entry <$> items) ∧
    writes (wb_each (wb_pair w d) es) (mjoin (item_bytes <$> items)).
Proof.
  intros Hc Hok. rewrite Forall_forall in Hok.
  destruct (Forall2_choose (λ p it, item_ok it ∧ same_value p.1 it.1.2 ∧ same_value p.2 it.2.2 ∧
     writes (wb_pair w d p) (item_bytes it)) es) as [items Hitems].
  { intros p Hp. destruct (Hc p Hp) as [(ek & k & Hwk & Hrk & Hsk) (ev & v & Hwv & Hrv & Hsv)].
    destruct (Hok p Hp) as [Hk Hv]. exists ((ek, k), (ev, v)). cbn. split; [|split; [done|split; [done|]]].
    - split; [done|]. split; [done|]. split; [by eapply reads_nonempty|].
      split; [by eapply key_ok_same|]. cbn. intros ->. apply Hv. by apply (same_nil_iff _ _ Hsv).
    - by apply writes_seq. }
  exists items. split; [|split].
  - clear -Hitems. induction Hitems as [|p it es items [H _] _ IH]; by constructor.
  - clear -Hitems. unfold same_entries.
    induction Hitems as [|p it es items (_ & H1 & H2 & _) _ IH]; by constructor.
  - apply writes_each. clear -Hitems.
    induction Hitems as [|p it es items (_ & _ & _ & H) _ IH]; by constructor.
Qed.

Lemma distinct_same es es' : same_entries es es' → distinct_keys es → distinct_keys es'.
Proof.
  induction 1 as [|[k v] [k' v'] es es' [Hk Hv] Hs IH]; [done|]. intros [Hf Hd]. cbn in *.
  split; [|by apply IH]. clear -Hk Hs Hf.
  induction Hs as [|p p' es es' [Hp _] Hs IH]; [constructor|].
  apply Forall_cons in Hf as [Hf1 Hf]. constructor; [|by apply IH].
  by rewrite (same_key_same k k' p.1 p'.1).
Qed.

Lemma distinct_filter (P : value * value → Prop) `{!∀ x, Decision (P x)} es :
  distinct_keys es → distinct_keys (filter P es).
Proof.
  induction es as [|[k v] es IH]; intros Hd; [done|]. destruct Hd as [Hf Hd].
  rewrite filter_cons. case_decide; [|by apply IH]. split; [|by apply IH].
  rewrite Forall_forall in *. intros p Hp. apply list_elem_of_filter in Hp as [_ Hp]. by apply Hf.
Qed.

Lemma writes_ext w w' e : (∀ b, w b = w' b) → writes w' e → writes w e.
Proof. intros Hw H b bs HR Hmax. rewrite Hw. by apply H. Qed.

Lemma hash_fresh n es es' items vs : table_ok es → hash_entries n es = es' →
  same_entries es' items → Zlen vs = n → fresh_keys (arr_entries 1 vs) items.
Proof.
  intros [Hd _] <- Hs Hn. split; [eapply distinct_same; [done|by apply distinct_filter]|].
  apply Forall_forall. intros p Hp. apply Forall_forall. intros q Hq.
  destruct (arr_entries_keys _ _ _ Hq) as (k & Hk & Eq & _). rewrite Eq.
  apply list_elem_of_lookup in Hp as [i Hi].
  destruct (Forall2_lookup_r _ _ _ _ _ Hs Hi) as (p0 & Hp0 & Hsame & _).
  apply list_elem_of_lookup_2, list_elem_of_filter in Hp0 as [Hin _].
  destruct Hsame; try done. cbn in Hin |- *. apply bool_decide_eq_false in Hin.
  apply bool_decide_eq_false_2. lia.
Qed.

(** the entries of a table behind its header and the size of the array part *)
Lemma reads_table c hb items pairs n : 0 ≤ c < 32 →
  (∀ pre rest, get_array_size (at_ pre (hb ++ rest)) c = LRet (n, at_ (pre ++ hb) rest)) →
  Zlen items = n → Forall (λ p, reads unpack_one 1 p.1 p.2) items → Forall item_ok pairs →
  fresh_keys (arr_entries 1 (snd <$> items)) (item_entry <$> pairs) →
  reads unpack_one 1
    (COMBINE_TYPE TYPE_TABLE c :: hb ++ mjoin (fst <$> items) ++ mjoin (item_bytes <$> pairs) ++ [TYPE_NIL])
    (VTable (arr_entries 1 (snd <$> items) ++ (item_entry <$> pairs))).
Proof.
  intros Hc Hsize Hn Hitems Hpairs Hfr. apply reads_header; [done..|].
  intros [|fuel] pre rest Hf; [lia|]. cbn [push_value]. decide_all.
  rewrite <- !app_assoc in *. rewrite Hsize, LRet_bind. rewrite length_app in Hf.
  destruct (unpack_array_spec items 1 n [] (mjoin (item_bytes <$> pairs) ++ [TYPE_NIL] ++ rest)
    (pre ++ hb) fuel) as (fuel' & Hf' & E); [done|lia| |lia| |].
  - intros p Hp. by apply not_elem_of_nil in Hp.
  - apply (Forall_impl _ _ _ Hitems). intros p Hp. by apply (reads_nonempty _ p.2).
  - rewrite E, app_nil_l. cbn [app]. rewrite unpack_hash_spec by done.
    by rewrite <- !app_assoc.
Qed.

Lemma array_codec (w : value → Z → write_block → lua write_block) d es n : (∀ v, v = VNil ∨ v ∈ es.*2 → codec (w v d) v) → 0 ≤ n →
  ∃ items, Zlen items = n ∧ Forall (λ p, reads unpack_one 1 p.1 p.2) items ∧
    Forall2 same_value (rawgeti es <$> seqZ 1 n) (snd <$> items) ∧
    writes (wb_each (λ i, w (rawgeti es i) d) (seqZ 1 n)) (mjoin (fst <$> items)).
Proof.
  intros Hc Hn.
  destruct (Forall2_choose (λ i it, writes (w (rawgeti es i) d) it.1 ∧
     reads unpack_one 1 it.1 it.2 ∧ same_value (rawgeti es i) it.2) (seqZ 1 n)) as [items Hitems].
  { intros i _. destruct (Hc (rawgeti es i)) as (e & v' & H1 & H2 & H3); [|by exists (e, v')].
    destruct (rawgeti_inv i es) as [->|Hin]; [by left|]. right.
    apply (list_elem_of_fmap_2 snd) in Hin. done. }
  exists items. split; [|split; [|split]].
  - rewrite <- (Zlen_seqZ 1 n) by done. unfold Zlen. by rewrite (Forall2_length _ _ _ Hitems).
  - clear -Hitems. induction Hitems as [|i it l items (_ & H & _) _ IH]; by constructor.
  - clear -Hitems. induction Hitems as [|i it l items (_ & _ & H) _ IH]; by constructor.
  - apply writes_each. clear -Hitems.
    induction Hitems as [|i it l items (H & _) _ IH]; by constructor.
Qed.

Lemma yielded_all es : Forall (λ p, key_ok p.1 ∧ p.2 ≠ VNil) es → yielded es = es.
Proof. induction 1 as [|[k v] es [Hk _] _ IH]; [done|]. destruct k; cbn in *; try done; by rewrite IH. Qed.

Lemma in_pairs (P : value → Prop) es : Forall (λ p, P p.1 ∧ P p.2) es →
  ∀ p, p ∈ es → P p.1 ∧ P p.2.
Proof. intros Hf p Hp. rewrite Forall_forall in Hf. by apply Hf. Qed.

Lemma table_codec w d es : (∀ v, v = VNil ∨ (∃ p, p ∈ es ∧ (v = p.1 ∨ v = p.2)) → codec (w v d) v) →
  table_ok es → codec (wb_table junk rawlen w (VTable es) d) (VTable es).
Proof.
  intros Hc Hok. set (n := rawlen es). pose proof (Hrawlen es) as Hn. fold n in Hn.
  destruct (size_codec n Hn) as (c & hb & Hcr & Hw & Hr).
  destruct (array_codec w d es n) as (items & Hlen & Hreads & Hsame & Hwa); [|lia|].
  { intros v [->|(p & -> & Hp)%list_elem_of_fmap]; apply Hc; [by left|right; exists p; by split; [|right]]. }
  destruct (pairs_codec w d (hash_entries n es)) as (pairs & Hpok & Hps & Hwp).
  { intros p [_ Hp]%list_elem_of_filter. split; apply Hc; right; exists p; split; auto. }
  { apply Forall_forall. intros p [_ Hp]%list_elem_of_filter. destruct Hok as [_ Hok].
    rewrite Forall_forall in Hok. by apply Hok. }
  exists (COMBINE_TYPE TYPE_TABLE c :: hb ++ mjoin (fst <$> items) ++ mjoin (item_bytes <$> pairs) ++ [TYPE_NIL]).
  eexists. split; [|split].
  - eapply writes_ext; [|exact (writes_seq _ _ _ _ Hw (writes_seq _ _ _ _ Hwa
      (writes_seq _ _ _ _ Hwp (writes_push junk Hjunk [TYPE_NIL]))))].
    intros b. cbn [wb_table]. unfold wb_table_array. rewrite i32_small by (unfold INT_MAX in Hn; lia).
    fold n. cbv zeta. destruct (if bool_decide (MAX_COOKIE - 1 ≤ n) then _ else _) as [b1| | |]; try done.
    cbn [mbind lua_bind]. destruct (wb_each _ (seqZ 1 n) b1) as [b2| | |]; try done.
    cbn [mbind lua_bind]. unfold wb_table_hash. by rewrite wb_each_filter.
  - eapply reads_table; [done|done|done|done|done|].
    eapply hash_fresh; [exact Hok|done|exact Hps|]. by rewrite Zlen_fmap.
  - eapply same_table; [apply (table_split n); [done|lia]|].
    apply Forall2_app; [by apply arr_entries_same|done].
Qed.

Lemma pairs_table_codec w d es :
  (∀ v, v = VNil ∨ (∃ p, p ∈ es ∧ (v = p.1 ∨ v = p.2)) → codec (w v d) v) →
  table_ok es → codec (wb_table junk rawlen w (VPairs es) d) (VPairs es).
Proof.
  intros Hc [Hd Hok].
  destruct (pairs_codec w d es) as (pairs & Hpok & Hps & Hwp); [|done|].
  { intros p Hp. split; apply Hc; right; exists p; split; auto. }
  set (no_items := @nil (list Z * value)).
  exists (COMBINE_TYPE TYPE_TABLE 0 :: [] ++ mjoin (fst <$> no_items) ++ mjoin (item_bytes <$> pairs) ++ [TYPE_NIL]).
  exists (VTable (arr_entries 1 (snd <$> no_items) ++ (item_entry <$> pairs))). split; [|split].
  - eapply writes_ext; [|exact (writes_seq _ _ [_] _ (writes_push junk Hjunk _)
      (writes_seq _ _ _ _ Hwp (writes_push junk Hjunk [TYPE_NIL])))].
    intros b. cbn [wb_table]. unfold wb_table_metapairs. by rewrite yielded_all.
  - apply (reads_table 0 [] [] pairs 0); try done.
    + intros pre rest. by rewrite app_nil_r.
    + split; [by eapply distinct_same|]. apply Forall_forall. intros p Hp. constructor.
  - by eapply same_pairs.
Qed.

Definition scalar_ok (v : value) : Prop :=
  match v with
  | VNil | VBool _ => True
  | VInt z => - 2 ^ 63 ≤ z < 2 ^ 63
  | VReal w | VPointer w => 0 ≤ w < 2 ^ 64
  | VString s => Zlen s ≤ INT_MAX
  | _ => False
  end.

Lemma packable_inv n v : packable n v → scalar_ok v ∨ ∃ m es, n = S m ∧
  (v = VTable es ∨ v = VPairs es) ∧ table_ok es ∧ Forall (λ p, packable m p.1 ∧ packable m p.2) es.
Proof. destruct 1; try (by left); right; eauto 10. Qed.

Lemma scalar_same v : scalar_ok v → same_value v v.
Proof. destruct v; try done; constructor. Qed.

Lemma value_codec n v : packable n v → Z.of_nat n ≤ MAX_DEPTH →
  codec (pack_one junk rawlen (S (S n)) v (MAX_DEPTH - Z.of_nat n)) v.
Proof.
  revert v. induction n as [|n IH]; intros v Hp Hn;
    destruct (packable_inv _ _ Hp) as [Hs|(m & es & Em & Hv & Hok & Hf)];
    try (injection Em as <-); try done.
  1,2: match goal with |- codec (pack_one _ _ (S (S ?k)) _ ?d) _ =>
         destruct (scalar_codec junk Hjunk v Hs rawlen (S k) d) as (e & H1 & H2) end;
       [unfold MAX_DEPTH; lia|]; exists e, v; split; [done|]; split; [done|by apply scalar_same].
  assert (∀ v, v = VNil ∨ (∃ p, p ∈ es ∧ (v = p.1 ∨ v = p.2)) →
    codec (pack_one junk rawlen (S (S n)) v (MAX_DEPTH - Z.of_nat (S n) + 1)) v) as Hc.
  { intros u Hu. replace (MAX_DEPTH - Z.of_nat (S n) + 1) with (MAX_DEPTH - Z.of_nat n) by lia.
    apply IH; [|lia]. destruct Hu as [->|(p & Hin & Hu)]; [constructor|].
    rewrite Forall_forall in Hf. destruct (Hf p Hin). by destruct Hu as [-> | ->]. }
  destruct Hv as [-> | ->].
  - destruct (table_codec _ _ _ Hc Hok) as (e & v' & Hw & Hrs). exists e, v'. split; [|done].
    eapply writes_ext; [|exact Hw]. intros b. cbn [pack_one].
    case_bool_decide; [lia|reflexivity].
  - destruct (pairs_table_codec _ _ _ Hc Hok) as (e & v' & Hw & Hrs). exists e, v'. split; [|done].
    eapply writes_ext; [|exact Hw]. intros b. cbn [pack_one].
    case_bool_decide; [lia|reflexivity].
Qed.

(** ** Whole messages *)
Lemma unpack_all_spec es vs pre fuel : Forall2 (reads unpack_one 1) es vs →
  (4 * length (mjoin es) + 1 ≤ fuel)%nat →
  unpack_all fuel (at_ pre (mjoin es)) = LRet vs.
Proof.
  intros Hr. revert pre fuel. induction Hr as [|e v es vs He Hr IH]; intros pre [|fuel] Hf; try lia.
  - done.
  - rewrite mjoin_cons in *. cbn [unpack_all].
    pose proof (reads_nonempty e v He) as Hne. destruct e as [|h e]; [done|].
    pose proof (He (S fuel) pre (mjoin es) ltac:(lia)) as E. cbn [unpack_one] in E.
    cbn [app] in E |- *.
    pose proof (read_bytes_at pre [h] (e ++ mjoin es) 528 1 eq_refl) as Eh. cbn [app] in Eh.
    rewrite Eh in E.
    pose proof (read_bytes_at pre [h] (e ++ mjoin es) 0 1 eq_refl) as E1. unfold read_bytes in E1.
    cbn [app] in E1. destruct (rb_read (at_ pre (h :: e ++ mjoin es)) 1) as [[p rb]|]; [|done].
    destruct (bytes_at rb p 1) as [l| | |]; try done. rewrite LRet_bind in E1.
    injection E1 as -> ->. cbn [mbind lua_bind] in E |- *. rewrite E. cbn [mbind lua_bind].
    rewrite length_app in Hf. cbn [length] in Hf. rewrite IH by lia. done.
Qed.

(** C13. Unpacking inverts packing: values nested at most 32 tables deep, whose
    tables hold each key once, are packed into some bytes [e], unless these are
    more than an [int] can count, and the bytes are read back as values with the
    same contents, given as a string or as a pointer and a size. *)
Theorem seri_roundtrip vs : Forall (packable 32) vs →
  ∃ e vs', Forall2 same_value vs vs' ∧
    (Zlen e ≤ INT_MAX → luaseri_pack junk rawlen vs = LRet e ∧
                        luaseri_unpack (ArgString e) = LRet vs' ∧
                        luaseri_unpack (ArgPointer (Some e) (Zlen e)) = LRet vs').
Proof.
  intros Hp.
  destruct (Forall2_choose (λ v it, writes (pack_one junk rawlen PACK_FUEL v 0) it.1 ∧
    reads unpack_one 1 it.1 it.2 ∧ same_value v it.2) vs) as [items Hitems].
  { intros v Hv. rewrite Forall_forall in Hp.
    destruct (value_codec 32 v (Hp v Hv)) as (e & v' & H); [done|]. by exists (e, v'). }
  exists (mjoin (fst <$> items)), (snd <$> items).
  assert (Forall2 same_value vs (snd <$> items)) as Hs.
  { clear -Hitems. induction Hitems as [|v it vs items (_ & _ & H) _ IH]; by constructor. }
  assert (Forall2 (reads unpack_one 1) (fst <$> items) (snd <$> items)) as Hr.
  { clear -Hitems. induction Hitems as [|v it vs items (_ & H & _) _ IH]; by constructor. }
  split; [done|]. intros Hmax. set (e := mjoin _) in *.
  pose proof (Zlen_nonneg e) as He. unfold INT_MAX in Hmax.
  assert (i32 (Zlen e) = Zlen e) as Ei by (apply i32_small; lia).
  assert (unpack_all (unpack_fuel (Zlen e)) (rball_init e (Zlen e)) = LRet (snd <$> items)) as Eu.
  { change (rball_init e (Zlen e)) with (at_ [] e). apply unpack_all_spec; [done|].
    unfold unpack_fuel, Zlen. rewrite Nat2Z.id. fold e. lia. }
  split.
  - destruct (writes_each (λ v, pack_one junk rawlen PACK_FUEL v 0) vs (fst <$> items))
      with (b := wb_init junk) (bs := @nil Z) as (b' & E & HR).
    + clear -Hitems. induction Hitems as [|v it vs items (H & _) _ IH]; by constructor.
    + by apply wb_init_repr.
    + rewrite Zlen_nil. unfold INT_MAX. fold e. lia.
    + unfold luaseri_pack, pack_from. rewrite E, LRet_bind.
      by rewrite (seri_spec junk b' _ HR).
  - assert (Zlen e = 0 → snd <$> items = []) as Hnil.
    { intros E0. unfold Zlen in E0. destruct e eqn:Ee; [|done]. subst e.
      destruct items as [|[e1 v1] items]; [done|]. apply Forall2_cons_1 in Hr as [Hr1 _].
      apply reads_nonempty in Hr1. rewrite fmap_cons, mjoin_cons in Ee. by destruct e1. }
    unfold luaseri_unpack. rewrite Ei. case_bool_decide as E0; [|done]. by rewrite Hnil.
Qed.
End tables.
