(* ===== verification/SeriSafe.v ===== *)
(** * Unpacking a buffer from anywhere

    [luaseri_unpack] is also given bytes it did not write (clusters, other
    processes). It always ends, and stays inside the buffer unless it comes to a long
    string that claims a length that is negative as an [int]. *)
From S2P Require Import Prelude Bytes LuaValue Seri SeriSpec.

(** ** The tokens of a stream *)

(** the bytes of a token behind its header: of a number by its cookie, of any token *)
Definition number_extent (cookie : Z) : option Z :=
  if decide (cookie = TYPE_NUMBER_ZERO) then Some 0
  else if decide (cookie = TYPE_NUMBER_BYTE) then Some 1
  else if decide (cookie = TYPE_NUMBER_WORD) then Some 2
  else if decide (cookie = TYPE_NUMBER_DWORD) then Some 4
  else if decide (cookie = TYPE_NUMBER_QWORD ∨ cookie = TYPE_NUMBER_REAL) then Some 8
  else None.

Inductive extent : Type := Extent (k : Z) | Huge | Malformed.

(** [h] is the header, [l] the bytes behind it; the elements of a table are tokens of
    their own, and so is the size of a long array *)
Definition token_extent (h : Z) (l : list Z) : extent :=
  let cookie := h / 8 in
  if decide (h mod 8 = TYPE_NIL ∨ h mod 8 = TYPE_BOOLEAN ∨ h mod 8 = TYPE_TABLE) then Extent 0
  else if decide (h mod 8 = TYPE_NUMBER) then from_option Extent Malformed (number_extent cookie)
  else if decide (h mod 8 = TYPE_USERDATA) then Extent 8
  else if decide (h mod 8 = TYPE_SHORT_STRING) then Extent cookie
  else if decide (h mod 8 = TYPE_LONG_STRING) then
    if decide (cookie = 2) then if decide (Zlen l < 2) then Malformed else Extent (2 + le_value (take 2 l))
    else if decide (cookie = 4) then
      if decide (Zlen l < 4) then Malformed
      else if decide (2 ^ 31 ≤ le_value (take 4 l)) then Huge
      else Extent (4 + le_value (take 4 l))
    else Malformed
  else Malformed.

(** the stream, read token by token from byte [skip] on, comes to a long string of 2^31
    bytes or more *)
Fixpoint huge_from (skip : Z) (s : list Z) : bool :=
  match s with
  | [] => false
  | h :: l =>
      if decide (0 < skip) then huge_from (skip - 1) l
      else match token_extent h l with
           | Extent k => huge_from k l
           | Huge => true
           | Malformed => false
           end
  end.
Definition huge_string (s : list Z) : bool := huge_from 0 s.

Lemma huge_from_drop k s : 0 ≤ k → huge_from k s = huge_string (drop (Z.to_nat k) s).
Proof.
  revert k. induction s as [|h l IH]; intros k Hk; [by destruct (Z.to_nat k)|].
  destruct (decide (k = 0)) as [->|]; [done|].
  replace (Z.to_nat k) with (S (Z.to_nat (k - 1))) by lia. cbn [huge_from drop].
  rewrite decide_True by lia. apply IH. lia.
Qed.

Definition rb_ok (s : list Z) (rb : read_block) : Prop :=
  rb_buffer rb = s ∧ 0 ≤ rb_ptr rb ∧ 0 ≤ rb_len rb ∧ rb_ptr rb + rb_len rb = Zlen s.

(** what is left to read comes to a huge string *)
Definition huge_ahead (s : list Z) (rb : read_block) : Prop :=
  huge_string (drop (Z.to_nat (rb_ptr rb)) s) = true.

(** the outcome of a read with at most [n] bytes left after it; it fails, or comes to a
    huge string later, only under [P] *)
Definition safe {A} (s : list Z) (P : Prop) (n : Z) (m : lua (A * read_block)) : Prop :=
  match m with
  | LRet (_, rb) => rb_ok s rb ∧ rb_len rb ≤ n ∧ (huge_ahead s rb → P)
  | LError _ => True
  | LUndef => P
  | LNoFuel => False
  end.

Section safe.
Context (s : list Z) (Hs : Forall byte s).

Lemma safe_weaken {A} (P Q : Prop) n n' (m : lua (A * read_block)) :
  (P → Q) → n ≤ n' → safe s P n m → safe s Q n' m.
Proof.
  destruct m as [[x rb]|e| |]; cbn; try tauto. intros ? ? (? & ? & ?). split; [done|]. split; [lia|tauto].
Qed.

Lemma safe_bind {A B} P n n' (m : lua (A * read_block)) (f : A * read_block → lua (B * read_block)) :
  safe s P n m → (∀ x rb, rb_ok s rb → rb_len rb ≤ n → safe s (huge_ahead s rb) n' (f (x, rb))) →
  safe s P n' (m ≫= f).
Proof.
  destruct m as [[x rb]|e| |]; cbn; try done. intros (H1 & H2 & H3) Hf.
  eapply safe_weaken; [exact H3|reflexivity|by apply Hf].
Qed.

Lemma read_bytes_cases rb n line : rb_ok s rb → 0 ≤ n →
  (∃ rb', read_bytes rb n line = LRet (take (Z.to_nat n) (drop (Z.to_nat (rb_ptr rb)) s), rb') ∧
    rb_ok s rb' ∧ rb_len rb' = rb_len rb - n ∧ rb_ptr rb' = rb_ptr rb + n) ∨
  ∃ e, read_bytes rb n line = LError e.
Proof.
  intros (Hb & Hp & Hl & Hsum) Hn. unfold read_bytes, rb_read. case_bool_decide as Hlt.
  - right. by eexists.
  - left. eexists. unfold bytes_at. cbn [rb_buffer]. rewrite Hb.
    rewrite bool_decide_eq_true_2 by lia. rewrite LRet_bind. split; [done|].
    unfold rb_ok. cbn. repeat split; done || lia.
Qed.

Lemma get_integer_cases rb c : rb_ok s rb →
  (∃ x rb' k, get_integer rb c = LRet (x, rb') ∧ number_extent c = Some k ∧ 0 ≤ k ∧
    rb_ok s rb' ∧ rb_len rb' = rb_len rb - k ∧ rb_ptr rb' = rb_ptr rb + k) ∨
  ∃ e, get_integer rb c = LError e.
Proof.
  intros Hok. unfold get_integer, number_extent.
  do 4 try (case_bool_decide as Hc; [rewrite decide_True by done|rewrite decide_False by done; clear Hc]).
  5: { case_bool_decide; [rewrite decide_True by tauto|right; by eexists].
    destruct (read_bytes_cases rb 8 392 Hok) as [(rb' & -> & ? & ? & ?)|[e ->]]; [lia| |right; by eexists].
    left. eexists _, rb', 8. split_and!; done || lia. }
  - left. exists 0, rb, 0. split_and!; done || lia.
  - destruct (read_bytes_cases rb 1 368 Hok) as [(rb' & -> & ? & ? & ?)|[e ->]]; [lia| |right; by eexists].
    left. eexists _, rb', 1. split_and!; done || lia.
  - destruct (read_bytes_cases rb 2 376 Hok) as [(rb' & -> & ? & ? & ?)|[e ->]]; [lia| |right; by eexists].
    left. eexists _, rb', 2. split_and!; done || lia.
  - destruct (read_bytes_cases rb 4 384 Hok) as [(rb' & -> & ? & ? & ?)|[e ->]]; [lia| |right; by eexists].
    left. eexists _, rb', 4. split_and!; done || lia.
Qed.

(** a token with header [h] whose other bytes start at the position of [rb] *)
Definition token_ahead (rb : read_block) (h : Z) : Prop :=
  huge_string (h :: drop (Z.to_nat (rb_ptr rb)) s) = true.

Lemma after_token rb rb' h k : rb_ok s rb → token_extent h (drop (Z.to_nat (rb_ptr rb)) s) = Extent k →
  0 ≤ k → rb_ptr rb' = rb_ptr rb + k → huge_ahead s rb' → token_ahead rb h.
Proof.
  intros (_ & Hp & _) E Hk Ep. unfold huge_ahead, token_ahead, huge_string at 2. cbn [huge_from].
  rewrite decide_False, E, huge_from_drop, drop_drop, Ep by lia.
  by replace (Z.to_nat (rb_ptr rb) + Z.to_nat k)%nat with (Z.to_nat (rb_ptr rb + k)) by lia.
Qed.

Lemma read_token {A} rb h k line (g : list Z → A) : rb_ok s rb →
  token_extent h (drop (Z.to_nat (rb_ptr rb)) s) = Extent k → 0 ≤ k →
  safe s (token_ahead rb h) (rb_len rb) ('(l, rb) ← read_bytes rb k line; LRet (g l, rb)).
Proof.
  intros Hok E Hk. destruct (read_bytes_cases rb k line Hok Hk) as [(rb' & -> & Hok' & Hl & Hp)|[e ->]]; [|done].
  cbn. split; [done|]. split; [lia|]. by eapply after_token.
Qed.

Lemma taken_range i n k : 0 ≤ k → n = Z.to_nat k → 0 ≤ le_value (take n (drop i s)) < 256 ^ k.
Proof.
  intros Hk ->. assert (Forall byte (take (Z.to_nat k) (drop i s))) as Hb by (by apply Forall_take, Forall_drop).
  pose proof (le_value_range _ Hb) as Hr.
  assert (256 ^ Zlen (take (Z.to_nat k) (drop i s)) ≤ 256 ^ k); [|lia].
  apply Z.pow_le_mono_r; [lia|]. unfold Zlen. rewrite length_take. lia.
Qed.

(** a string whose length is in the [k] bytes behind the header *)
Lemma long_string_safe rb h k line : rb_ok s rb → 0 ≤ k →
  let d := drop (Z.to_nat (rb_ptr rb)) s in
  let n := le_value (take (Z.to_nat k) d) in
  (k ≤ Zlen d → n < 2 ^ 31 → token_extent h d = Extent (k + n)) →
  (k ≤ Zlen d → 2 ^ 31 ≤ n → n < 2 ^ 32 ∧ token_extent h d = Huge) →
  safe s (token_ahead rb h) (rb_len rb) ('(l, rb) ← read_bytes rb k line; get_buffer rb (le_value l)).
Proof.
  intros Hok Hk d n Hsmall Hbig. pose proof Hok as (_ & Hp0 & Hl0 & Hsum).
  assert (Zlen d = rb_len rb) as Hd by (unfold d; unfold Zlen in *; rewrite length_drop; lia).
  destruct (read_bytes_cases rb k line Hok Hk) as [(rb' & -> & Hok' & Hl & Hp)|[e ->]]; [|done].
  pose proof Hok' as (Hb' & Hp' & Hl' & Hsum'). rewrite LRet_bind. fold d n.
  pose proof (taken_range (Z.to_nat (rb_ptr rb)) (Z.to_nat k) k Hk eq_refl) as Hn. fold d n in Hn.
  unfold get_buffer. destruct (decide (n < 2 ^ 31)) as [Hlt|Hge].
  - rewrite i32_small by lia. specialize (Hsmall ltac:(lia) Hlt).
    destruct (read_bytes_cases rb' n 427 Hok') as [(rb2 & -> & Hok2 & Hl2 & Hp2)|[e ->]]; [lia| |done].
    cbn. split; [done|]. split; [lia|]. apply (after_token rb rb2 h (k + n)); done || lia.
  - destruct Hbig as [H32 Hhuge]; [lia..|]. assert (i32 n < 0) as Hneg.
    { unfold i32. rewrite <- (Z.mod_add _ (-1)) by lia. rewrite Z.mod_small; lia. }
    unfold read_bytes, rb_read, bytes_at. rewrite bool_decide_eq_false_2 by lia.
    rewrite bool_decide_eq_false_2 by lia. cbn. unfold token_ahead, huge_string. cbn [huge_from].
    fold d. by rewrite decide_False, Hhuge by lia.
Qed.

Lemma get_string_safe rb h : rb_ok s rb → h mod 8 = TYPE_LONG_STRING →
  safe s (token_ahead rb h) (rb_len rb) (get_string rb (h / 8)).
Proof.
  intros Hok Ht. unfold get_string. set (d := drop (Z.to_nat (rb_ptr rb)) s).
  assert (token_extent h d = if decide (h / 8 = 2) then
      if decide (Zlen d < 2) then Malformed else Extent (2 + le_value (take 2 d))
    else if decide (h / 8 = 4) then
      if decide (Zlen d < 4) then Malformed
      else if decide (2 ^ 31 ≤ le_value (take 4 d)) then Huge else Extent (4 + le_value (take 4 d))
    else Malformed) as Et by (unfold token_extent; by rewrite Ht).
  case_bool_decide as E2; [|case_bool_decide as E4; [|done]].
  - rewrite decide_True in Et by done. apply long_string_safe; [done|done|..]; fold d.
    + intros Hd _. by rewrite decide_False in Et by lia.
    + intros _ Hn. pose proof (taken_range (Z.to_nat (rb_ptr rb)) (Z.to_nat 2) 2 ltac:(done) eq_refl) as Hr.
      fold d in Hr. lia.
  - rewrite decide_False, decide_True in Et by done. apply long_string_safe; [done|done|..]; fold d.
    + intros Hd Hn. change (Z.to_nat 4) with 4%nat in *. by rewrite !decide_False in Et by lia.
    + intros Hd Hn. pose proof (taken_range (Z.to_nat (rb_ptr rb)) (Z.to_nat 4) 4 ltac:(done) eq_refl) as Hr.
      fold d in Hr. change (Z.to_nat 4) with 4%nat in *.
      split; [lia|]. by rewrite decide_False, decide_True in Et by lia.
Qed.

(** [h] is the header at the position of [rb] *)
Lemma ahead_header rb h : rb_ok s rb → s !! Z.to_nat (rb_ptr rb) = Some h →
  drop (Z.to_nat (rb_ptr rb)) s = h :: drop (Z.to_nat (rb_ptr rb + 1)) s.
Proof.
  intros (_ & Hp & _) Hh. rewrite (drop_S _ _ _ Hh). by replace (Z.to_nat (rb_ptr rb + 1)) with (S (Z.to_nat (rb_ptr rb))) by lia.
Qed.

(** reading a header byte *)
Lemma next_header rb line : rb_ok s rb →
  (∃ h rb', read_bytes rb 1 line = LRet ([h], rb') ∧ 0 ≤ h < 256 ∧ rb_ok s rb' ∧ rb_len rb' = rb_len rb - 1 ∧
    (token_ahead rb' h ↔ huge_ahead s rb)) ∨
  ∃ e, read_bytes rb 1 line = LError e.
Proof.
  intros Hok. destruct (read_bytes_cases rb 1 line Hok) as [(rb' & -> & Hok' & Hl & Hp)|[e ->]];
    [lia| |right; by eexists].
  left. pose proof Hok as (_ & Hp0 & _ & Hsum). pose proof Hok' as (_ & _ & Hl' & _).
  destruct (lookup_lt_is_Some_2 s (Z.to_nat (rb_ptr rb))) as [h Hh]; [unfold Zlen in *; lia|].
  pose proof (ahead_header rb h Hok Hh) as Ed. exists h, rb'. rewrite Ed. split; [done|].
  split; [rewrite Forall_lookup in Hs; by apply (Hs _ _ Hh)|]. split; [done|]. split; [done|].
  unfold token_ahead, huge_ahead. by rewrite Ed, Hp.
Qed.

Lemma header_bits h : 0 ≤ h → Z.land h 7 = h mod 8 ∧ Z.shiftr h 3 = h / 8.
Proof.
  intros Hh. change 7 with (2 ^ 3 - 1). by rewrite land_mask, Z.shiftr_div_pow2 by lia.
Qed.

Lemma number_token h d k : h mod 8 = TYPE_NUMBER → number_extent (h / 8) = Some k → token_extent h d = Extent k.
Proof. intros Ht Hn. unfold token_extent. by rewrite Ht, Hn. Qed.

(** the size of a long array is a token of its own *)
Lemma get_array_size_safe rb c : rb_ok s rb → safe s (huge_ahead s rb) (rb_len rb) (get_array_size rb c).
Proof.
  intros Hok. unfold get_array_size. case_bool_decide; [|by cbn].
  destruct (next_header rb 440 Hok) as [(h & rb' & -> & Hh & Hok' & Hl & Hiff)|[e ->]]; [|done].
  rewrite LRet_bind. cbv zeta. replace (le_value [h]) with h by (unfold le_value; lia).
  destruct (header_bits h) as [-> ->]; [lia|]. case_bool_decide as Ht; [done|].
  destruct (get_integer_cases rb' (h / 8) Hok') as [(x & rb2 & k & -> & Hk & Hk0 & Hok2 & Hl2 & Hp2)|[e ->]]; [|done].
  cbn. split; [done|]. split; [lia|]. intros Hahead. apply Hiff. eapply after_token; [done| |done|done|done].
  apply number_token; [|done]. destruct (decide (h mod 8 = TYPE_NUMBER)); tauto.
Qed.

(** a header that is not of a long string *)
Lemma plain_token h d k : 0 ≤ k →
  (h mod 8 = TYPE_NIL ∨ h mod 8 = TYPE_BOOLEAN ∨ h mod 8 = TYPE_TABLE) ∧ k = 0 ∨
  h mod 8 = TYPE_USERDATA ∧ k = 8 ∨ h mod 8 = TYPE_SHORT_STRING ∧ k = h / 8 →
  token_extent h d = Extent k.
Proof. intros Hk. unfold token_extent. intros [([-> | [-> | ->]] & ->)|[[-> ->]|[-> ->]]]; done. Qed.

(** a token that is only its header *)
Lemma bare_token {A} rb h (x : A) : rb_ok s rb →
  h mod 8 = TYPE_NIL ∨ h mod 8 = TYPE_BOOLEAN → safe s (token_ahead rb h) (rb_len rb) (LRet (x, rb)).
Proof.
  intros Hok Ht. cbn. split; [done|]. split; [lia|]. apply (after_token rb rb h 0); [done| |done|lia].
  apply plain_token; [done|]. tauto.
Qed.

(** the functions of a value in a mutual induction: [push_value] behind a header *)
Lemma push_value_safe fuel rb h : rb_ok s rb → 0 ≤ h < 256 →
  (∀ rb' n es, rb_ok s rb' → rb_len rb' ≤ rb_len rb →
     safe s (huge_ahead s rb') (rb_len rb') (unpack_array fuel rb' 1 n es)) →
  safe s (token_ahead rb h) (rb_len rb) (push_value (S fuel) rb (h mod 8) (h / 8)).
Proof.
  intros Hok Hh Harray. cbn [push_value]. pose proof (Z.div_pos h 8 ltac:(lia) ltac:(lia)) as Hc.
  case_bool_decide as T0; [apply bare_token; tauto|]. case_bool_decide as T1; [apply bare_token; tauto|].
  case_bool_decide as T2.
  { case_bool_decide as Er.
    - unfold get_real. eapply safe_bind; [apply (read_token rb h 8); [done| |done]|].
      + apply number_token; [done|]. by rewrite Er.
      + intros x rb' Hok' Hl. by cbn.
    - destruct (get_integer_cases rb (h / 8) Hok) as [(x & rb' & k & -> & Hk & Hk0 & Hok' & Hl & Hp)|[e ->]]; [|done].
      cbn. split; [done|]. split; [lia|]. eapply after_token; [done|by apply number_token|done|done]. }
  case_bool_decide as T3.
  { unfold get_pointer. eapply safe_bind; [apply (read_token rb h 8); [done| |done]|].
    - apply plain_token; [done|]. tauto.
    - intros x rb' Hok' Hl. by cbn. }
  case_bool_decide as T4.
  { unfold get_buffer. rewrite i32_small by (pose proof (Z.div_lt_upper_bound h 8 32); lia).
    apply (read_token rb h (h / 8)); [done| |done]. apply plain_token; tauto. }
  case_bool_decide as T5; [by apply get_string_safe|].
  case_bool_decide as T6; [|done].
  eapply (safe_weaken (huge_ahead s rb) _ (rb_len rb)); [|done|].
  - apply (after_token rb rb h 0); [done| |done|lia]. apply plain_token; [done|]. tauto.
  - eapply safe_bind; [by apply get_array_size_safe|]. intros n rb' Hok' Hl.
    eapply (safe_weaken (huge_ahead s rb') _ (rb_len rb')); [tauto|exact Hl|]. by apply Harray.
Qed.

Lemma unpack_safe fuel rb : rb_ok s rb →
  (∀ h, 0 ≤ h < 256 → 4 * rb_len rb + 4 ≤ Z.of_nat fuel →
     safe s (token_ahead rb h) (rb_len rb) (push_value fuel rb (h mod 8) (h / 8))) ∧
  (4 * rb_len rb + 1 ≤ Z.of_nat fuel → safe s (huge_ahead s rb) (rb_len rb - 1) (unpack_one fuel rb)) ∧
  (∀ i n es, 4 * rb_len rb + 3 ≤ Z.of_nat fuel → safe s (huge_ahead s rb) (rb_len rb) (unpack_array fuel rb i n es)) ∧
  (∀ es, 4 * rb_len rb + 2 ≤ Z.of_nat fuel → safe s (huge_ahead s rb) (rb_len rb) (unpack_hash fuel rb es)).
Proof.
  revert rb. induction fuel as [|fuel IH]; intros rb Hok.
  { pose proof Hok as (_ & _ & Hl & _). repeat split; intros; lia. }
  assert (4 * rb_len rb + 1 ≤ Z.of_nat (S fuel) →
    safe s (huge_ahead s rb) (rb_len rb - 1) (unpack_one (S fuel) rb)) as Hone.
  { intros Hf. cbn [unpack_one].
    destruct (next_header rb 528 Hok) as [(h & rb' & -> & Hh & Hok' & Hl & Hiff)|[e ->]]; [|done].
    rewrite LRet_bind. cbv zeta. replace (le_value [h]) with h by (unfold le_value; lia).
    destruct (header_bits h) as [-> ->]; [lia|]. pose proof Hok' as (_ & _ & Hl' & _).
    eapply safe_weaken; [apply Hiff| |apply (IH rb' Hok'); lia]. lia. }
  split; [|split; [exact Hone|split]].
  - intros h Hh Hf. apply push_value_safe; [done|done|]. intros rb' n es Hok' Hl. apply (IH rb' Hok'). lia.
  - intros i n es Hf. cbn [unpack_array]. case_bool_decide; [|apply (IH rb Hok); lia].
    eapply safe_bind; [apply (IH rb Hok); lia|]. intros v rb' Hok' Hl.
    eapply (safe_weaken (huge_ahead s rb') _ (rb_len rb')); [tauto| |apply (IH rb' Hok'); lia]. lia.
  - intros es Hf. cbn [unpack_hash]. eapply safe_bind; [apply (IH rb Hok); lia|].
    intros k rb' Hok' Hl.
    assert (safe s (huge_ahead s rb') (rb_len rb)
      ('(v, rb) ← unpack_one fuel rb'; es ← rawset es k v; unpack_hash fuel rb es)) as Hnext.
    { eapply safe_bind; [apply (IH rb' Hok'); lia|]. intros v rb2 Hok2 Hl2.
      unfold rawset. destruct (norm_key k); [|done]. rewrite LRet_bind.
      eapply (safe_weaken (huge_ahead s rb2) _ (rb_len rb2)); [tauto| |apply (IH rb2 Hok2); lia]. lia. }
    destruct k; try exact Hnext. cbn. split; [done|]. split; [lia|done].
Qed.

Lemma unpack_all_safe fuel rb : rb_ok s rb → 4 * rb_len rb + 1 ≤ Z.of_nat fuel →
  match unpack_all fuel rb with LUndef => huge_ahead s rb | LNoFuel => False | _ => True end.
Proof.
  revert rb. induction fuel as [|fuel IH]; intros rb Hok Hf.
  { pose proof Hok as (_ & _ & Hl & _). lia. }
  cbn [unpack_all]. pose proof (proj1 (proj2 (unpack_safe (S fuel) rb Hok)) Hf) as Hone.
  cbn [unpack_one] in Hone. unfold read_bytes in Hone. destruct (rb_read rb 1) as [[p rb']|]; [|done].
  destruct (bytes_at rb' p 1) as [t|e| |]; try done. cbn [mbind lua_bind] in *.
  destruct (push_value _ _ _ _) as [[v rb2]|e| |]; cbn in *; try done.
  destruct Hone as (Hok2 & Hl2 & Hh2).
  specialize (IH rb2 Hok2). destruct (unpack_all fuel rb2) as [vs|e| |]; cbn in *; try done.
  - apply Hh2, IH. lia.
  - apply IH. lia.
Qed.
End safe.

(** A long string whose length does not fit an [int] passes the bounds check of
    [rb_read]: the negative size is less than what is left, and the string is read
    outside the buffer. *)
Lemma seri_huge_string_undefined n s : 2 ^ 31 ≤ n < 2 ^ 32 → Zlen s + 5 ≤ INT_MAX →
  luaseri_unpack (ArgString (COMBINE_TYPE TYPE_LONG_STRING 4 :: le_bytes 4 n ++ s)) = LUndef.
Proof.
  intros Hn Hs. unfold INT_MAX in Hs. pose proof (Zlen_nonneg s). set (l := _ :: _ ++ _).
  assert (Zlen l = Zlen s + 5) as Hl.
  { unfold l. rewrite Zlen_cons, Zlen_app, Zlen_le_bytes. lia. }
  unfold luaseri_unpack. rewrite Hl, i32_small by lia. rewrite bool_decide_eq_false_2 by lia.
  unfold unpack_fuel. cbn [Nat.add unpack_all].
  pose proof (read_bytes_at [] [COMBINE_TYPE TYPE_LONG_STRING 4] (le_bytes 4 n ++ s) 0 1 eq_refl) as E.
  change (at_ [] _) with (ReadBlock l (Zlen l) 0) in E. rewrite Hl in E.
  unfold read_bytes in E. unfold rball_init.
  destruct (rb_read (ReadBlock l (Zlen s + 5) 0) 1) as [[p rb]|]; [|done].
  destruct (bytes_at rb p 1) as [t|e| |]; try done. cbn [mbind lua_bind] in *.
  injection E as -> ->. cbv zeta.
  replace (Z.land (le_value [COMBINE_TYPE TYPE_LONG_STRING 4]) 7) with TYPE_LONG_STRING by done.
  replace (Z.shiftr (le_value [COMBINE_TYPE TYPE_LONG_STRING 4]) 3) with 4 by done.
  cbn [push_value]. decide_all. unfold get_string. decide_all.
  rewrite (read_bytes_at _ (le_bytes 4 n) s) by (by rewrite Zlen_le_bytes). rewrite LRet_bind.
  rewrite le_small by (change (256 ^ Z.of_nat 4) with (2 ^ 32); lia).
  assert (i32 n < 0) as Hneg.
  { unfold i32. rewrite <- (Z.mod_add _ (-1)) by lia. rewrite Z.mod_small; lia. }
  unfold get_buffer, read_bytes, rb_read, bytes_at. cbn [rb_len at_].
  rewrite bool_decide_eq_false_2 by lia. by rewrite bool_decide_eq_false_2 by lia.
Qed.

(** C14. Unpacking any sequence of bytes ends, with values or a Lua error, and reads inside
    of it, unless the stream, read token by token from its start, comes to a long string
    that claims 2^31 bytes or more. Such a string at the start of a stream is read outside
    of it. *)
Theorem seri_unpack_total s : Forall byte s → Zlen s ≤ INT_MAX →
  (∀ a, a = ArgString s ∨ a = ArgPointer (Some s) (Zlen s) →
    match luaseri_unpack a with LUndef => huge_string s = true | LNoFuel => False | _ => True end) ∧
  ∀ n l, s = COMBINE_TYPE TYPE_LONG_STRING 4 :: le_bytes 4 n ++ l → 2 ^ 31 ≤ n < 2 ^ 32 →
    luaseri_unpack (ArgString s) = LUndef.
Proof.
  intros Hs Hmax. pose proof (Zlen_nonneg s). split.
  2:{ intros n l -> Hn. apply seri_huge_string_undefined; [done|].
      rewrite Zlen_cons, Zlen_app, Zlen_le_bytes in Hmax. lia. }
  intros a Ha. unfold INT_MAX in Hmax.
  assert (i32 (Zlen s) = Zlen s) as Ei by (apply i32_small; lia).
  assert (luaseri_unpack a = if bool_decide (Zlen s = 0) then LRet []
                             else unpack_all (unpack_fuel (Zlen s)) (rball_init s (Zlen s))) as ->.
  { destruct Ha as [-> | ->]; unfold luaseri_unpack; by rewrite Ei. }
  case_bool_decide; [done|]. apply (unpack_all_safe s Hs (unpack_fuel (Zlen s)) (rball_init s (Zlen s))); unfold rball_init.
  - repeat split; cbn; lia.
  - cbn [rb_len]. unfold unpack_fuel. lia.
Qed.

(** ** Witnesses *)
Definition demo_table : value :=
  VTable [(VInt 1, VString [104; 105]); (VString [107], VTable [(VInt 1, VReal 0x4004000000000000)]);
          (VInt 2, VBool true)].

(** a border of the table *)
Definition demo_rawlen (es : list (value * value)) : Z :=
  match rawgeti es 1, rawgeti es 2 with VNil, _ => 0 | _, VNil => 1 | _, _ => 2 end.

Lemma demo_packable : Forall (packable 32) [demo_table; VInt (-70000); VNil].
Proof.
  repeat first [constructor | split | done].
Qed.

Lemma seri_roundtrip_witness :
  ∃ e vs', Forall2 same_value [demo_table; VInt (-70000); VNil] vs' ∧
    (Zlen e ≤ INT_MAX →
     luaseri_pack (replicate 128 7) demo_rawlen
       [demo_table; VInt (-70000); VNil] = LRet e ∧
     luaseri_unpack (ArgString e) = LRet vs' ∧
     luaseri_unpack (ArgPointer (Some e) (Zlen e)) = LRet vs').
Proof.
  apply seri_roundtrip.
  - done.
  - intros es. unfold demo_rawlen. destruct (rawgeti es 1), (rawgeti es 2); done.
  - apply demo_packable.
Defined.

(** a string that holds the header of a huge one is read like any other; a huge one is not *)
Lemma seri_unpack_total_witness :
  luaseri_unpack (ArgString [44; 37; 97; 98; 99; 228]) ≠ LUndef ∧
  luaseri_unpack (ArgString [37; 255; 255; 255; 255; 1]) = LUndef.
Proof.
  destruct (seri_unpack_total [44; 37; 97; 98; 99; 228]) as [H _]; [repeat constructor; lia|done|].
  destruct (seri_unpack_total [37; 255; 255; 255; 255; 1]) as [_ H']; [repeat constructor; lia|done|].
  split.
  - specialize (H _ (or_introl eq_refl)). intros E. rewrite E in H. vm_compute in H. done.
  - by apply (H' 0xffffffff [1]).
Defined.

(** packing and unpacking run *)
Example demo_roundtrip :
  luaseri_pack (replicate 128 0) demo_rawlen [demo_table; VInt (-70000)] ≫=
  (λ e, luaseri_unpack (ArgString e)) =
  LRet [VTable [(VInt 1, VString [104; 105]); (VInt 2, VBool true);
                (VString [107], VTable [(VInt 1, VReal 0x4004000000000000)])]; VInt (-70000)].
Proof. vm_compute. reflexivity. Qed.

(** a table below 32 others is refused *)
Fixpoint nested (n : nat) : value :=
  match n with O => VInt 1 | S n => VTable [(VInt 1, nested n)] end.
Example demo_too_deep :
  luaseri_pack (replicate 128 0) Zlen [nested 33] = LError TooDeep ∧
  ∃ e, luaseri_pack (replicate 128 0) Zlen [nested 32] = LRet e.
Proof. split; [vm_compute; reflexivity|]. eexists. vm_compute. reflexivity. Qed.
