(* ===== verification/Harbor.v ===== *)
(** * The harbor service: service-src/service_harbor.c

    Sends the messages of this process to the other processes of the cluster, the
    harbors, one socket each, and forwards what arrives from them. Messages wait
    in queues while a harbor is not connected yet or a global name is not known.
    The core is the class [ServiceApi]. *)
From S2P Require Import Prelude CLib Bytes CNum Handle DataBuffer ServiceApi.
From Stdlib Require Import Ascii String.
#[local] Open Scope Z_scope.

Definition HASH_SIZE : Z := 4096.
Definition DEFAULT_QUEUE_SIZE : Z := 1024.
Definition HEADER_COOKIE_LENGTH : Z := 12.
Definition UINT32_MAX : Z := 2 ^ 32 - 1.

Record remote_message_header : Type := Header {
  h_source : Z;
  h_destination : Z;
  h_session : Z
}.

(** a message with its header; its bytes are those of the buffer *)
Record harbor_msg : Type := HarborMsg { hm_header : remote_message_header; hm_body : message }.
Definition junk_msg : harbor_msg := HarborMsg (Header 0 0 0) (Message 0 []).

Record harbor_msg_queue : Type := HarborMsgQueue {
  hq_size : Z;
  hq_head : Z;
  hq_tail : Z;
  hq_data : list harbor_msg
}.

Record keyvalue : Type := Keyvalue {
  kv_key : list Z;
  kv_hash : Z;
  kv_value : Z;
  kv_queue : option harbor_msg_queue
}.

Definition STATUS_WAIT : Z := 0.
Definition STATUS_HANDSHAKE : Z := 1.
Definition STATUS_HEADER : Z := 2.
Definition STATUS_CONTENT : Z := 3.
Definition STATUS_DOWN : Z := 4.

Record slave : Type := Slave {
  s_fd : Z;
  s_queue : option harbor_msg_queue;
  s_status : Z;
  s_length : Z;
  s_read : Z;
  s_size : list Z;
  (** the bytes of [recv_buffer] filled so far *)
  s_recv : list Z
}.
Definition set_fd v s := Slave v (s_queue s) (s_status s) (s_length s) (s_read s) (s_size s) (s_recv s).
Definition set_queue v s := Slave (s_fd s) v (s_status s) (s_length s) (s_read s) (s_size s) (s_recv s).
Definition set_status v s := Slave (s_fd s) (s_queue s) v (s_length s) (s_read s) (s_size s) (s_recv s).

Record harbor : Type := MkHarbor {
  hb_id : Z;
  hb_slave : Z;
  hb_map : list (list keyvalue);
  hb_s : list slave
}.
Definition set_map v h := MkHarbor (hb_id h) (hb_slave h) v (hb_s h).
Definition set_slaves v h := MkHarbor (hb_id h) (hb_slave h) (hb_map h) v.

(** ** Queues of messages *)
Definition push_queue_msg (queue : harbor_msg_queue) (m : harbor_msg) : outcome harbor_msg_queue :=
  queue ←
    (if bool_decide (Z.rem (hq_tail queue + 1) (hq_size queue) = hq_head queue) then
       size ← chk_int (hq_size queue * 2);
       copied ← mapM (λ i, get_idx (hq_data queue) (Z.rem (i + hq_head queue) (hq_size queue)))
                  (seqZ 0 (hq_size queue - 1));
       Ret (HarborMsgQueue size 0 (hq_size queue - 1)
              (copied ++ replicate (Z.to_nat (hq_size queue + 1)) junk_msg))
     else Ret queue);
  data ← set_idx (hq_data queue) (hq_tail queue) m;
  Ret (HarborMsgQueue (hq_size queue) (hq_head queue) (Z.rem (hq_tail queue + 1) (hq_size queue)) data).

Definition push_queue (queue : harbor_msg_queue) (body : message) (header : remote_message_header) :
    outcome harbor_msg_queue :=
  push_queue_msg queue (HarborMsg header body).

Definition pop_queue (queue : harbor_msg_queue) : outcome (option harbor_msg * harbor_msg_queue) :=
  if bool_decide (hq_head queue = hq_tail queue) then Ret (None, queue)
  else
    slot ← get_idx (hq_data queue) (hq_head queue);
    Ret (Some slot, HarborMsgQueue (hq_size queue) (Z.rem (hq_head queue + 1) (hq_size queue))
                      (hq_tail queue) (hq_data queue)).

(** [while ((m = pop_queue(queue)) != NULL)]: a queue holds fewer messages than
    it has cells *)
Fixpoint drain {S} (fuel : nat) (f : harbor_msg → S → outcome S) (queue : harbor_msg_queue) (s : S) :
    outcome (harbor_msg_queue * S) :=
  '(m, queue) ← pop_queue queue;
  match m with
  | None => Ret (queue, s)
  | Some m =>
      match fuel with
      | O => NoFuel
      | Datatypes.S fuel => s ← f m s; drain fuel f queue s
      end
  end.
Definition drain_queue {S} (f : harbor_msg → S → outcome S) (queue : harbor_msg_queue) (s : S) :
    outcome (harbor_msg_queue * S) :=
  drain (List.length (hq_data queue)) f queue s.

Definition new_queue : harbor_msg_queue :=
  HarborMsgQueue DEFAULT_QUEUE_SIZE 0 0 (replicate (Z.to_nat DEFAULT_QUEUE_SIZE) junk_msg).

(** ** Global names *)

(** [strncmp(a, b, n) == 0] *)
Fixpoint strncmp_eq (n : nat) (a b : list Z) : bool :=
  match n, a, b with
  | Datatypes.S n, x :: a, y :: b =>
      if bool_decide (x = y) then if bool_decide (x = 0) then true else strncmp_eq n a b else false
  | _, _, _ => true
  end.

(** the exclusive or of the four words of a name *)
Definition name_hash (name : list Z) : Z :=
  let word i := le_value (take 4 (drop (4 * i) name)) in
  Z.lxor (Z.lxor (Z.lxor (word 0%nat) (word 1%nat)) (word 2%nat)) (word 3%nat).

Definition name_match (h : Z) (name : list Z) (node : keyvalue) : bool :=
  bool_decide (kv_hash node = h) && strncmp_eq (Z.to_nat GLOBALNAME_LENGTH) (kv_key node) name.

Fixpoint chain_search (l : list keyvalue) (h : Z) (name : list Z) : option keyvalue :=
  match l with
  | [] => None
  | node :: l => if name_match h name node then Some node else chain_search l h name
  end.
Definition hash_search (map : list (list keyvalue)) (name : list Z) : outcome (option keyvalue) :=
  let h := name_hash name in
  chain ← get_idx map (h mod HASH_SIZE);
  Ret (chain_search chain h name).

Definition new_node (name : list Z) : keyvalue := Keyvalue name (name_hash name) 0 None.
Definition hash_insert (map : list (list keyvalue)) (name : list Z) :
    outcome (keyvalue * list (list keyvalue)) :=
  let h := name_hash name in
  chain ← get_idx map (h mod HASH_SIZE);
  map ← set_idx map (h mod HASH_SIZE) (new_node name :: chain);
  Ret (new_node name, map).

(** writing through the pointer of the node the search found *)
Fixpoint chain_store (l : list keyvalue) (h : Z) (name : list Z) (kv : keyvalue) : list keyvalue :=
  match l with
  | [] => []
  | node :: l => if name_match h name node then kv :: l else node :: chain_store l h name kv
  end.
Definition store_node (map : list (list keyvalue)) (name : list Z) (kv : keyvalue) :
    outcome (list (list keyvalue)) :=
  let h := name_hash name in
  chain ← get_idx map (h mod HASH_SIZE);
  set_idx map (h mod HASH_SIZE) (chain_store chain h name kv).

Definition hash_new : list (list keyvalue) := replicate (Z.to_nat HASH_SIZE) [].

(** the node of a name, a new one if there is none *)
Definition node_of (h : harbor) (name : list Z) : outcome (keyvalue * harbor) :=
  node ← hash_search (hb_map h) name;
  match node with
  | Some node => Ret (node, h)
  | None => '(node, map) ← hash_insert (hb_map h) name; Ret (node, set_map map h)
  end.
Definition put_node (h : harbor) (name : list Z) (kv : keyvalue) : outcome harbor :=
  map ← store_node (hb_map h) name kv; Ret (set_map map h).
Definition put_slave (h : harbor) (id : Z) (s : slave) : outcome harbor :=
  l ← set_idx (hb_s h) id s; Ret (set_slaves l h).

(** ** Bytes of messages *)
Definition to_bigendian (n : Z) : list Z :=
  [Z.land (Z.shiftr n 24) 0xff; Z.land (Z.shiftr n 16) 0xff; Z.land (Z.shiftr n 8) 0xff; Z.land n 0xff].
Definition header_to_message (header : remote_message_header) : list Z :=
  to_bigendian (h_source header) ++ to_bigendian (h_destination header) ++ to_bigendian (h_session header).
Definition from_bigendian (l : list Z) : outcome Z :=
  match l with
  | [a; b; c; d] => Ret (u32 (Z.lor (Z.lor (Z.lor (Z.shiftl a 24) (Z.shiftl b 16)) (Z.shiftl c 8)) d))
  | _ => Undef
  end.
Definition message_to_header (l : list Z) : outcome remote_message_header :=
  source ← from_bigendian (take 4 l);
  destination ← from_bigendian (take 4 (drop 4 l));
  session ← from_bigendian (take 4 (drop 8 l));
  Ret (Header source destination session).

Section harbor.
Context {W : Type} `{!ServiceApi W}.

Definition release_queue (queue : option harbor_msg_queue) (w : W) : outcome W :=
  match queue with
  | None => Ret w
  | Some queue => '(_, w) ← drain_queue (λ m w, skynet_free (buffer (hm_body m)) w) queue w; Ret w
  end.

Definition close_harbor (h : harbor) (id : Z) (w : W) : outcome (harbor * W) :=
  s ← get_idx (hb_s h) id;
  let s := set_status STATUS_DOWN s in
  w ← (if bool_decide (s_fd s ≠ 0) then skynet_socket_close (s_fd s) w else Ret w);
  w ← release_queue (s_queue s) w;
  h ← put_slave h id (set_queue None s);
  Ret (h, w).

Definition report_harbor_down (h : harbor) (id : Z) (w : W) : outcome W :=
  '(_, w) ← skynet_send 0 (hb_slave h) PTYPE_TEXT 0 (text_bytes ("D " +:+ fmt_d id)) w; Ret w.

Definition empty_slave : slave := Slave 0 None STATUS_WAIT 0 0 [0; 0; 0; 0] [].
Definition harbor_create : harbor :=
  MkHarbor 0 0 hash_new (replicate (Z.to_nat REMOTE_MAX) empty_slave).

(** every connected harbor closed, the queues of the names released *)
Definition release_one (i : Z) (hw : harbor * W) : outcome (harbor * W) :=
  let '(h, w) := hw in
  s ← get_idx (hb_s h) i;
  if bool_decide (s_fd s ≠ 0 ∧ s_status s ≠ STATUS_DOWN) then close_harbor h i w else Ret (h, w).
Fixpoint hash_delete (nodes : list keyvalue) (w : W) : outcome W :=
  match nodes with
  | [] => Ret w
  | node :: nodes => w ← release_queue (kv_queue node) w; hash_delete nodes w
  end.
Definition harbor_release (h : harbor) (w : W) : outcome W :=
  '(h, w) ← for_loop release_one (Z.to_nat (REMOTE_MAX - 1)) 1 1 (h, w);
  hash_delete (mjoin (hb_map h)) w.

(** ** From the sockets *)
Definition forward_local_messsage (h : harbor) (msg : list Z) (w : W) : outcome W :=
  let sz := Zlen msg in
  if bool_decide (sz < HEADER_COOKIE_LENGTH) then Undef
  else
    header ← message_to_header (drop (Z.to_nat (sz - HEADER_COOKIE_LENGTH)) msg);
    let body := take (Z.to_nat (sz - HEADER_COOKIE_LENGTH)) msg in
    let type := Z.shiftr (h_destination header) HANDLE_REMOTE_SHIFT in
    let destination := Z.lor (Z.land (h_destination header) HANDLE_MASK)
                             (u32 (Z.shiftl (hb_id h) HANDLE_REMOTE_SHIFT)) in
    '(r, w) ← skynet_send (h_source header) destination (Z.lor type PTYPE_TAG_DONTCOPY)
                (i32 (h_session header)) body w;
    if bool_decide (r < 0) then
      w ← (if bool_decide (type ≠ PTYPE_ERROR) then
             '(_, w) ← skynet_send destination (h_source header) PTYPE_ERROR (i32 (h_session header)) [] w;
             Ret w
           else Ret w);
      skynet_error ("Unknown destination :" +:+ fmt_x destination +:+ " from :" +:+
                    fmt_x (h_source header) +:+ " type(" +:+ fmt_d type +:+ ")") w
    else Ret w.

Definition send_remote (fd : Z) (body : list Z) (cookie : remote_message_header) (w : W) : outcome W :=
  let sz_header := Zlen body + HEADER_COOKIE_LENGTH in
  if bool_decide (UINT32_MAX < sz_header) then
    skynet_error ("remote message from :" +:+ fmt_08x (h_source cookie) +:+ " to :" +:+
                  fmt_08x (h_destination cookie) +:+ " is too large.") w
  else skynet_socket_send fd (to_bigendian sz_header ++ body ++ header_to_message cookie) w.

(** a queued message sent to the socket, and freed *)
Definition send_queued (fd : Z) (m : harbor_msg) (w : W) : outcome W :=
  w ← send_remote fd (bytes (hm_body m)) (hm_header m) w;
  skynet_free (buffer (hm_body m)) w.

Definition with_handle (handle : Z) (m : harbor_msg) : harbor_msg :=
  let hd := hm_header m in
  HarborMsg (Header (h_source hd) (Z.lor (h_destination hd) (Z.land handle HANDLE_MASK)) (h_session hd))
            (hm_body m).

Definition send_local (handle : Z) (m : harbor_msg) (w : W) : outcome W :=
  let type := Z.shiftr (h_destination (hm_header m)) HANDLE_REMOTE_SHIFT in
  '(_, w) ← skynet_send (h_source (hm_header m)) handle (Z.lor type PTYPE_TAG_DONTCOPY)
              (i32 (h_session (hm_header m))) (bytes (hm_body m)) w;
  Ret w.

(** the queue of a name whose handle is known now; the node comes back *)
Definition dispatch_name_queue (h : harbor) (node : keyvalue) (queue : harbor_msg_queue) (w : W) :
    outcome (harbor * keyvalue * W) :=
  let handle := kv_value node in
  let id := Z.shiftr handle HANDLE_REMOTE_SHIFT in
  s ← get_idx (hb_s h) id;
  if bool_decide (s_fd s = 0) then
    if bool_decide (s_status s = STATUS_DOWN) then
      w ← skynet_error ("Drop message to " +:+ string_of_bytes (kv_key node) +:+ " (in harbor " +:+
                        fmt_d id +:+ ")") w;
      Ret (h, node, w)
    else
      '(sq, rest) ← (match s_queue s with
                     | None => Ret (queue, None)
                     | Some sq =>
                         '(queue, sq) ← drain_queue (λ m sq, push_queue_msg sq m) queue sq;
                         Ret (sq, Some queue)
                     end);
      let node := Keyvalue (kv_key node) (kv_hash node) handle rest in
      if bool_decide (id = Z.shiftr (hb_slave h) HANDLE_REMOTE_SHIFT) then
        '(sq, w) ← drain_queue (send_local handle) sq w;
        w ← release_queue (Some sq) w;
        h ← put_slave h id (set_queue None s);
        Ret (h, node, w)
      else
        h ← put_slave h id (set_queue (Some sq) s);
        Ret (h, node, w)
  else
    '(queue, w) ← drain_queue (λ m, send_queued (s_fd s) (with_handle handle m)) queue w;
    Ret (h, Keyvalue (kv_key node) (kv_hash node) handle (Some queue), w).

Definition dispatch_queue (h : harbor) (id : Z) (w : W) : outcome (harbor * W) :=
  s ← get_idx (hb_s h) id;
  cassert (bool_decide (s_fd s ≠ 0));;
  match s_queue s with
  | None => Ret (h, w)
  | Some queue =>
      '(queue, w) ← drain_queue (send_queued (s_fd s)) queue w;
      w ← release_queue (Some queue) w;
      h ← put_slave h id (set_queue None s);
      Ret (h, w)
  end.

(** the first harbor with the socket, 0 if there is none *)
Fixpoint find_fd (n : nat) (i : Z) (l : list slave) (fd : Z) : outcome Z :=
  match n with
  | O => Ret 0
  | Datatypes.S n => s ← get_idx l i; if bool_decide (s_fd s = fd) then Ret i else find_fd n (i + 1) l fd
  end.
Definition harbor_id (h : harbor) (fd : Z) : outcome Z :=
  find_fd (Z.to_nat (REMOTE_MAX - 1)) 1 (hb_s h) fd.

(** *** The bytes of a harbor: its id, then messages behind their lengths *)

(** [STATUS_CONTENT]; the loop goes on while bytes are left *)
Definition content_step (loop : harbor → list Z → W → outcome (harbor * W)) (h : harbor) (id : Z)
    (s : slave) (buffer : list Z) (w : W) : outcome (harbor * W) :=
  let need := s_length s - s_read s in
  if bool_decide (Zlen buffer < need) then
    h ← put_slave h id (Slave (s_fd s) (s_queue s) (s_status s) (s_length s) (s_read s + Zlen buffer)
                          (s_size s) (s_recv s ++ buffer));
    Ret (h, w)
  else
    w ← forward_local_messsage h (s_recv s ++ take (Z.to_nat need) buffer) w;
    h ← put_slave h id (Slave (s_fd s) (s_queue s) STATUS_HEADER 0 0 (s_size s) []);
    let buffer := drop (Z.to_nat need) buffer in
    if bool_decide (Zlen buffer = 0) then Ret (h, w) else loop h buffer w.

Definition content_length (size : list Z) : outcome Z :=
  match size with
  | [_; b; c; d] => Ret (Z.lor (Z.lor (Z.shiftl b 16) (Z.shiftl c 8)) d)
  | _ => Undef
  end.

Definition header_step (loop : harbor → list Z → W → outcome (harbor * W)) (h : harbor) (id : Z)
    (s : slave) (buffer : list Z) (w : W) : outcome (harbor * W) :=
  let need := 4 - s_read s in
  if bool_decide (Zlen buffer < need) then
    h ← put_slave h id (Slave (s_fd s) (s_queue s) (s_status s) (s_length s) (s_read s + Zlen buffer)
                          (copy_at (s_size s) (s_read s) buffer) (s_recv s));
    Ret (h, w)
  else
    let size := copy_at (s_size s) (s_read s) (take (Z.to_nat need) buffer) in
    let buffer := drop (Z.to_nat need) buffer in
    first ← get_idx size 0;
    if bool_decide (first ≠ 0) then
      w ← skynet_error ("Message is too long from harbor " +:+ fmt_d id) w;
      h ← put_slave h id (Slave (s_fd s) (s_queue s) (s_status s) (s_length s) (s_read s) size (s_recv s));
      close_harbor h id w
    else
      length ← content_length size;
      let s := Slave (s_fd s) (s_queue s) STATUS_CONTENT length 0 size [] in
      if bool_decide (Zlen buffer = 0) then h ← put_slave h id s; Ret (h, w)
      else content_step loop h id s buffer w.

(** every round but the last consumes a byte at least *)
Fixpoint socket_loop (fuel : nat) (h : harbor) (id fd : Z) (buffer : list Z) (w : W) :
    outcome (harbor * W) :=
  match fuel with
  | O => NoFuel
  | Datatypes.S fuel =>
      s ← get_idx (hb_s h) id;
      let loop h buffer w := socket_loop fuel h id fd buffer w in
      if bool_decide (s_status s = STATUS_HANDSHAKE) then
        remote_id ← get_idx buffer 0;
        if bool_decide (remote_id ≠ id) then
          w ← skynet_error ("Invalid shakehand id (" +:+ fmt_d id +:+ ") from fd = " +:+ fmt_d fd +:+
                            " , harbor = " +:+ fmt_d remote_id) w;
          close_harbor h id w
        else
          let buffer := drop 1 buffer in
          h ← put_slave h id (set_status STATUS_HEADER s);
          '(h, w) ← dispatch_queue h id w;
          if bool_decide (Zlen buffer = 0) then loop h buffer w
          else s ← get_idx (hb_s h) id; header_step loop h id s buffer w
      else if bool_decide (s_status s = STATUS_HEADER) then header_step loop h id s buffer w
      else if bool_decide (s_status s = STATUS_CONTENT) then content_step loop h id s buffer w
      else Ret (h, w)
  end.

Definition push_socket_data (h : harbor) (m : socket_message) (w : W) : outcome (harbor * W) :=
  cassert (bool_decide (sm_type m = SKYNET_SOCKET_TYPE_DATA));;
  let fd := sm_id m in
  id ← harbor_id h fd;
  if bool_decide (id = 0) then
    w ← skynet_error ("Invalid socket fd (" +:+ fmt_d fd +:+ ") data") w; Ret (h, w)
  else socket_loop (3 + List.length (bytes (sm_buffer m))) h id fd (bytes (sm_buffer m)) w.

(** ** To the sockets *)
Definition update_name (h : harbor) (name : list Z) (handle : Z) (w : W) : outcome (harbor * W) :=
  '(node, h) ← node_of h name;
  let node := Keyvalue (kv_key node) (kv_hash node) handle (kv_queue node) in
  match kv_queue node with
  | None => h ← put_node h name node; Ret (h, w)
  | Some queue =>
      '(h, node, w) ← dispatch_name_queue h node queue w;
      w ← release_queue (kv_queue node) w;
      h ← put_node h name (Keyvalue (kv_key node) (kv_hash node) handle None);
      Ret (h, w)
  end.

(** 1: the message was handed on, 0: it is still the caller's *)
Definition remote_send_handle (h : harbor) (source destination type session : Z) (msg : message) (w : W) :
    outcome (Z * harbor * W) :=
  let id := Z.shiftr destination HANDLE_REMOTE_SHIFT in
  if bool_decide (id = hb_id h) then
    '(_, w) ← skynet_send source destination (Z.lor type PTYPE_TAG_DONTCOPY) session (bytes msg) w;
    Ret (1, h, w)
  else
    s ← get_idx (hb_s h) id;
    let header := Header source (Z.lor (u32 (Z.shiftl type HANDLE_REMOTE_SHIFT))
                                       (Z.land destination HANDLE_MASK)) (u32 session) in
    if bool_decide (s_fd s = 0 ∨ s_status s = STATUS_HANDSHAKE) then
      if bool_decide (s_status s = STATUS_DOWN) then
        '(_, w) ← skynet_send destination source PTYPE_ERROR 0 [] w;
        w ← skynet_error ("Drop message to harbor " +:+ fmt_d id +:+ " from " +:+ fmt_x source +:+ " to " +:+
                          fmt_x destination +:+ " (session = " +:+ fmt_d session +:+ ", msgsz = " +:+
                          fmt_d (i32 (Zlen (bytes msg))) +:+ ")") w;
        Ret (0, h, w)
      else
        queue ← push_queue (default new_queue (s_queue s)) msg header;
        h ← put_slave h id (set_queue (Some queue) s);
        Ret (1, h, w)
    else
      w ← send_remote (s_fd s) (bytes msg) header w;
      Ret (0, h, w).

Definition remote_send_name (h : harbor) (source : Z) (name : list Z) (type session : Z) (msg : message)
    (w : W) : outcome (Z * harbor * W) :=
  '(node, h) ← node_of h name;
  if bool_decide (kv_value node = 0) then
    let header := Header source (u32 (Z.shiftl type HANDLE_REMOTE_SHIFT)) (u32 session) in
    queue ← push_queue (default new_queue (kv_queue node)) msg header;
    h ← put_node h name (Keyvalue (kv_key node) (kv_hash node) 0 (Some queue));
    '(_, w) ← skynet_send 0 (hb_slave h) PTYPE_TEXT 0
                (text_bytes ("Q " +:+ string_of_bytes (take (Z.to_nat GLOBALNAME_LENGTH) name))) w;
    Ret (1, h, w)
  else remote_send_handle h source (kv_value node) type session msg w.

Definition handshake (h : harbor) (id : Z) (w : W) : outcome W :=
  s ← get_idx (hb_s h) id;
  skynet_socket_send (s_fd s) [u8 (hb_id h)] w.

(** the two numbers of a command, 0 for a missing one *)
Definition scan_fd_id (text : string) : Z * Z :=
  match scan_int text with
  | None => (0, 0)
  | Some (fd, rest) => match scan_int rest with None => (i32 fd, 0) | Some (id, _) => (i32 fd, i32 id) end
  end.

Definition connect_command (accept : bool) (h : harbor) (text : string) (w : W) : outcome (harbor * W) :=
  let '(fd, id) := scan_fd_id text in
  if bool_decide (fd = 0 ∨ id ≤ 0 ∨ REMOTE_MAX ≤ id) then
    w ← skynet_error ("Invalid command " +:+ (if accept then "A " else "S ") +:+ text) w; Ret (h, w)
  else
    s ← get_idx (hb_s h) id;
    if bool_decide (s_fd s ≠ 0) then
      w ← skynet_error ("Harbor " +:+ fmt_d id +:+ " alreay exist") w; Ret (h, w)
    else
      h ← put_slave h id (set_fd fd s);
      w ← skynet_socket_start fd w;
      w ← handshake h id w;
      if accept then
        h ← put_slave h id (set_status STATUS_HEADER (set_fd fd s));
        dispatch_queue h id w
      else
        h ← put_slave h id (set_status STATUS_HANDSHAKE (set_fd fd s));
        Ret (h, w).

Definition harbor_command (h : harbor) (msg : list Z) (source : Z) (w : W) : outcome (harbor * W) :=
  c ← get_idx msg 0;
  let s := Zlen msg - 2 in
  let name := drop 2 msg in
  if bool_decide (c = 78) then
    if bool_decide (s ≤ 0 ∨ GLOBALNAME_LENGTH ≤ s) then
      w ← skynet_error ("Invalid global name " +:+ string_of_bytes name) w; Ret (h, w)
    else update_name h (name ++ replicate (Z.to_nat (GLOBALNAME_LENGTH - s)) 0) source w
  else if bool_decide (c = 83 ∨ c = 65) then
    if bool_decide (s < 0) then Undef
    else connect_command (bool_decide (c = 65)) h (string_of_bytes name) w
  else
    w ← skynet_error ("Unknown command " +:+ string_of_bytes msg) w; Ret (h, w).

(** what the service receives *)
Inductive harbor_input : Type :=
  | HSocket (m : socket_message)
  | HCommand (msg : list Z) (source : Z)
  (** a message of this process for another one, by handle or, with 0, by name *)
  | HRemote (handle : Z) (name : list Z) (type session source : Z) (msg : message)
  | HOther (type session source : Z).

Definition socket_event (h : harbor) (m : socket_message) (w : W) : outcome (harbor * W) :=
  if bool_decide (sm_type m = SKYNET_SOCKET_TYPE_DATA) then
    '(h, w) ← push_socket_data h m w;
    w ← skynet_free (buffer (sm_buffer m)) w; Ret (h, w)
  else if bool_decide (sm_type m = SKYNET_SOCKET_TYPE_ERROR ∨ sm_type m = SKYNET_SOCKET_TYPE_CLOSE) then
    id ← harbor_id h (sm_id m);
    w ← (if bool_decide (id ≠ 0) then report_harbor_down h id w
         else skynet_error ("Unkown fd (" +:+ fmt_d (sm_id m) +:+ ") closed") w);
    Ret (h, w)
  else if bool_decide (sm_type m = SKYNET_SOCKET_TYPE_CONNECT) then Ret (h, w)
  else if bool_decide (sm_type m = SKYNET_SOCKET_TYPE_WARNING) then
    id ← harbor_id h (sm_id m);
    w ← (if bool_decide (id ≠ 0) then
           skynet_error ("message havn't send to Harbor (" +:+ fmt_d id +:+ ") reach " +:+
                         fmt_d (sm_ud m) +:+ " K") w
         else Ret w);
    Ret (h, w)
  else
    w ← skynet_error ("recv invalid socket message type " +:+ fmt_d PTYPE_SOCKET) w; Ret (h, w).

Definition mainloop (h : harbor) (e : harbor_input) (w : W) : outcome (harbor * W) :=
  match e with
  | HSocket m => socket_event h m w
  | HCommand msg source => harbor_command h msg source w
  | HRemote handle name type session source msg =>
      '(handed, h, w) ← (if bool_decide (handle = 0) then remote_send_name h source name type session msg w
                         else remote_send_handle h source handle type session msg w);
      if bool_decide (handed ≠ 0) then Ret (h, w)
      else w ← skynet_free (buffer msg) w; Ret (h, w)
  | HOther type session source =>
      w ← skynet_error ("recv invalid message from " +:+ fmt_x source +:+ ",  type = " +:+ fmt_d type) w;
      if bool_decide (session ≠ 0 ∧ type ≠ PTYPE_ERROR) then
        '(_, w) ← skynet_send 0 source PTYPE_ERROR session [] w; Ret (h, w)
      else Ret (h, w)
  end.

Definition harbor_init (h : harbor) (args : string) (w : W) : outcome (Z * harbor * W) :=
  let '(id, slave) :=
    match scan_int args with
    | None => (0, 0)
    | Some (id, rest) => match scan_int rest with None => (i32 id, 0) | Some (s, _) => (i32 id, u32 s) end
    end in
  if bool_decide (slave = 0) then Ret (1, h, w)
  else
    w ← skynet_callback w;
    w ← skynet_harbor_start w;
    Ret (0, MkHarbor id slave (hb_map h) (hb_s h), w).
End harbor.
