(* ===== verification/HarborSpec.v ===== *)
(** * What the harbor service delivers

    The queues of waiting messages are FIFOs; the messages of another harbor are
    those of its byte stream, however the stream is cut into blocks; a message
    framed by one harbor is delivered unchanged by the other. *)
From S2P Require Import Prelude CLib Bytes CNum Handle DataBuffer ServiceApi Harbor.
From Stdlib Require Import Ascii String.
#[local] Open Scope Z_scope.

Abbreviation length := List.length.

(** ** Queues *)
Record hq_repr (q : harbor_msg_queue) (xs : list harbor_msg) : Prop := {
  hr_size : hq_size q = Zlen (hq_data q);
  hr_head : 0 ≤ hq_head q < hq_size q;
  hr_ring : ring_repr (hq_data q) (hq_head q) (Zlen xs) xs;
  hr_tail : hq_tail q = (hq_head q + Zlen xs) mod hq_size q;
  hr_room : Zlen xs < hq_size q
}.

Lemma new_queue_repr : hq_repr new_queue [].
Proof.
  split.
  - symmetry. by apply Zlen_replicate.
  - done.
  - apply ring_repr_nil.
  - done.
  - done.
Qed.

Lemma hq_full q xs : hq_repr q xs →
  Z.rem (hq_tail q + 1) (hq_size q) = hq_head q ↔ Zlen xs + 1 = hq_size q.
Proof.
  intros [H1 H2 H3 H4 H5]. pose proof (Zlen_nonneg xs).
  pose proof (mod_range (hq_head q + Zlen xs) (hq_size q) ltac:(lia)).
  rewrite Z.rem_mod_nonneg, H4, Zplus_mod_idemp_l, <- Z.add_assoc by lia. split.
  - intros E. destruct (decide (Zlen xs + 1 = hq_size q)); [done|]. exfalso.
    rewrite <- (Z.mod_small (hq_head q) (hq_size q)) in E at 2 by lia.
    rewrite <- (Z.add_0_r (hq_head q)) in E at 2. apply ring_offset_inj in E; lia.
  - intros ->. rewrite <- (Z.mul_1_l (hq_size q)) at 1. by rewrite Z.mod_add, Z.mod_small by lia.
Qed.

Lemma hq_put q xs m : hq_repr q xs → Zlen xs + 1 < hq_size q →
  ∃ q', (data ← set_idx (hq_data q) (hq_tail q) m;
         Ret (HarborMsgQueue (hq_size q) (hq_head q) (Z.rem (hq_tail q + 1) (hq_size q)) data)) = Ret q' ∧
        hq_repr q' (xs ++ [m]) ∧ hq_size q' = hq_size q.
Proof.
  intros [H1 H2 H3 H4 H5] Hroom. pose proof (Zlen_nonneg xs).
  pose proof (mod_range (hq_head q + Zlen xs) (hq_size q) ltac:(lia)) as Ht. rewrite <- H4 in Ht.
  rewrite set_idx_ok, Ret_bind by lia. eexists. split; [done|]. split; [|done].
  assert (Zlen (xs ++ [m]) = Zlen xs + 1) as Hl by (by rewrite Zlen_app).
  split; cbn; rewrite ?Hl.
  - by rewrite Zlen_insert.
  - done.
  - rewrite H4, H1. apply ring_push; [done|lia].
  - rewrite Z.rem_mod_nonneg, H4, Zplus_mod_idemp_l by lia. f_equal. lia.
  - lia.
Qed.

Lemma push_queue_msg_spec q xs m : hq_repr q xs → hq_size q * 2 ≤ INT_MAX →
  ∃ q', push_queue_msg q m = Ret q' ∧ hq_repr q' (xs ++ [m]).
Proof.
  intros HR Hmax. pose proof HR as [H1 H2 H3 H4 H5]. pose proof (Zlen_nonneg xs).
  unfold push_queue_msg. case_bool_decide as Hfull; rewrite (hq_full q xs HR) in Hfull.
  2:{ rewrite Ret_bind. destruct (hq_put q xs m HR) as (q' & E & HR' & _); [lia|eauto]. }
  unfold INT_MAX in Hmax. rewrite chk_int_ok by (unfold INT_MAX; lia). rewrite Ret_bind.
  set (cell := λ i, default junk_msg (hq_data q !! Z.to_nat ((hq_head q + i) mod hq_size q))).
  assert (∀ i, hq_data q !! Z.to_nat ((hq_head q + i) mod hq_size q) = Some (cell i)) as Hcell.
  { intros i. unfold cell. pose proof (mod_range (hq_head q + i) (hq_size q) ltac:(lia)).
    destruct (lookup_lt_is_Some_2 (hq_data q) (Z.to_nat ((hq_head q + i) mod hq_size q))) as [x Hx];
      [unfold Zlen in *; lia|]. by rewrite Hx. }
  rewrite (mapM_Ret _ cell).
  2:{ intros i Hi%elem_of_seqZ. rewrite Z.rem_mod_nonneg, (Z.add_comm i) by lia.
      apply get_idx_Ret. split; [apply mod_range; lia|apply Hcell]. }
  rewrite !Ret_bind. set (q1 := HarborMsgQueue _ _ _ _).
  assert (Zlen (cell <$> seqZ 0 (hq_size q - 1)) = hq_size q - 1) as Hc.
  { rewrite Zlen_fmap, Zlen_seqZ; lia. }
  assert (hq_repr q1 xs) as HR1.
  { split; cbn.
    - rewrite Zlen_app, Hc, Zlen_replicate by lia. lia.
    - lia.
    - apply (ring_copy (hq_data q) _ (hq_head q)); [done| |].
      + rewrite Zlen_app, Hc, Zlen_replicate by lia. lia.
      + intros i Hi. rewrite <- H1, Hcell, lookup_app_l by (rewrite length_fmap, length_seqZ; lia).
        rewrite list_lookup_fmap, lookup_seqZ_lt by lia. cbn. do 2 f_equal. lia.
    - rewrite Z.mod_small by lia. lia.
    - lia. }
  destruct (hq_put q1 xs m HR1) as (q' & E & HR' & _); [cbn; lia|eauto].
Qed.

Lemma pop_queue_spec q xs : hq_repr q xs →
  match xs with
  | [] => pop_queue q = Ret (None, q)
  | m :: xs => ∃ q', pop_queue q = Ret (Some m, q') ∧ hq_repr q' xs ∧ hq_data q' = hq_data q
  end.
Proof.
  intros [H1 H2 H3 H4 H5]. unfold pop_queue. destruct xs as [|m xs].
  - rewrite bool_decide_eq_true_2; [done|]. rewrite H4, Zlen_nil, Z.add_0_r, Z.mod_small; lia.
  - rewrite Zlen_cons in *. pose proof (Zlen_nonneg xs).
    rewrite bool_decide_eq_false_2.
    2:{ rewrite H4. intros E. rewrite <- (Z.mod_small (hq_head q) (hq_size q)) in E at 1 by lia.
        rewrite <- (Z.add_0_r (hq_head q)) in E at 1. apply ring_offset_inj in E; lia. }
    destruct (ring_pop _ _ _ _ _ H3) as [Hx Hr]; [lia|].
    rewrite (proj2 (get_idx_Ret _ _ m)) by (split; [lia|done]). rewrite Ret_bind.
    eexists. split; [done|]. split; [|done].
    pose proof (mod_range (hq_head q + 1) (hq_size q) ltac:(lia)).
    split; cbn; rewrite ?Z.rem_mod_nonneg by lia; try done.
    + rewrite H1. by replace (Zlen xs) with (1 + Zlen xs - 1) by lia.
    + rewrite H4, Zplus_mod_idemp_l. f_equal. lia.
    + lia.
Qed.

(** one step per message, in order *)
Fixpoint each {S} (f : harbor_msg → S → outcome S) (xs : list harbor_msg) (s : S) : outcome S :=
  match xs with [] => Ret s | m :: xs => s ← f m s; each f xs s end.

Definition drained (q : harbor_msg_queue) : harbor_msg_queue :=
  HarborMsgQueue (hq_size q) (hq_tail q) (hq_tail q) (hq_data q).

Lemma drained_repr q xs : hq_repr q xs → hq_repr (drained q) [].
Proof.
  intros [H1 H2 H3 H4 H5].
  pose proof (mod_range (hq_head q + Zlen xs) (hq_size q) ltac:(lia)) as Ht. rewrite <- H4 in Ht.
  split; cbn; try done.
  - apply ring_repr_nil.
  - rewrite Z.add_0_r. by rewrite Z.mod_small.
  - change (Zlen (@nil harbor_msg)) with 0. lia.
Qed.

Lemma drain_spec {S} (f : harbor_msg → S → outcome S) fuel q xs s :
  hq_repr q xs → (length xs ≤ fuel)%nat →
  drain fuel f q s = s ← each f xs s; Ret (drained q, s).
Proof.
  revert q xs s. induction fuel as [|fuel IH]; intros q xs s HR Hf;
    pose proof (pop_queue_spec q xs HR) as Hp; destruct xs as [|m xs]; cbn in Hf; try lia.
  1,2: cbn [drain]; rewrite Hp, Ret_bind; cbn; do 2 f_equal; destruct q, HR as [H1 H2 H3 H4 H5];
    unfold drained; cbn in *; f_equal; rewrite H4; change (Zlen (@nil harbor_msg)) with 0;
    rewrite Z.add_0_r, Z.mod_small; lia.
  destruct Hp as (q1 & E & HR1 & Hd).
  assert (drained q1 = drained q) as <-.
  { unfold pop_queue in E. case_bool_decide; [done|]. apply bind_Ret in E as (x & _ & E).
    injection E as _ <-. done. }
  cbn [drain each]. rewrite E, Ret_bind. destruct (f m s) as [s1| | |]; try done.
  rewrite !Ret_bind. apply IH; [done|lia].
Qed.

Lemma drain_queue_spec {S} (f : harbor_msg → S → outcome S) q xs s : hq_repr q xs →
  drain_queue f q s = s ← each f xs s; Ret (drained q, s).
Proof.
  intros HR. apply drain_spec; [done|]. destruct HR. unfold Zlen in *. lia.
Qed.

(** ** The messages of a byte stream: what each block completes, and the rest *)
Inductive ending : Type := More (rest : list Z) | TooLong.

Definition length_of (b c d : Z) : Z := Z.lor (Z.lor (Z.shiftl b 16) (Z.shiftl c 8)) d.

Fixpoint parse (fuel : nat) (bs : list Z) : list (list Z) * ending :=
  match fuel, bs with
  | S fuel, a :: b :: c :: d :: body =>
      let n := length_of b c d in
      if decide (a ≠ 0) then ([], TooLong)
      else if decide (Zlen body < n) then ([], More bs)
      else let '(cs, e) := parse fuel (drop (Z.to_nat n) body) in (take (Z.to_nat n) body :: cs, e)
  | _, _ => ([], More bs)
  end.
Definition messages (bs : list Z) : list (list Z) * ending := parse (S (length bs)) bs.
#[local] Arguments messages : simpl never.

Lemma parse_enough n k bs : (length bs ≤ n)%nat → (length bs ≤ k)%nat → parse n bs = parse k bs.
Proof.
  revert k bs. induction n as [|n IH]; intros [|k] [|a [|b [|c [|d body]]]] Hn Hk; cbn in *; try done || lia.
  repeat case_decide; try done. rewrite (IH k); [done|..]; rewrite length_drop; lia.
Qed.

Lemma messages_cons a b c d body : messages (a :: b :: c :: d :: body) =
  let n := length_of b c d in
  if decide (a ≠ 0) then ([], TooLong)
  else if decide (Zlen body < n) then ([], More (a :: b :: c :: d :: body))
  else (take (Z.to_nat n) body :: (messages (drop (Z.to_nat n) body)).1,
        (messages (drop (Z.to_nat n) body)).2).
Proof.
  unfold messages at 1. cbn [parse]. cbv zeta. repeat case_decide; try done.
  rewrite (parse_enough _ (S (length (drop (Z.to_nat (length_of b c d)) body))));
    [|cbn [length]; rewrite length_drop; lia|lia].
  unfold messages. by destruct (parse _ (drop _ _)).
Qed.

Lemma messages_short bs : (length bs < 4)%nat → messages bs = ([], More bs).
Proof. by destruct bs as [|a [|b [|c [|d bs]]]]; cbn; intros; try lia. Qed.

Lemma length_of_range b c d : byte b → byte c → byte d → 0 ≤ length_of b c d < 2 ^ 24.
Proof.
  unfold byte, length_of. intros Hb Hc Hd. rewrite <- Z.lor_assoc, Z.lor_comm.
  assert (Z.lor (Z.shiftl c 8) d = d + c * 2 ^ 8) as ->.
  { rewrite Z.lor_comm, Z.shiftl_mul_pow2, lor_high by lia. done. }
  rewrite Z.shiftl_mul_pow2, lor_high by lia. lia.
Qed.

(** the bytes of an incomplete message *)
Definition pending (s : slave) (bs : list Z) : Prop :=
  s_status s = STATUS_HEADER ∧ Zlen (s_size s) = 4 ∧ 0 ≤ s_read s < 4 ∧
    bs = take (Z.to_nat (s_read s)) (s_size s) ∨
  s_status s = STATUS_CONTENT ∧ ∃ b c d, s_size s = [0; b; c; d] ∧ s_length s = length_of b c d ∧
    s_read s = Zlen (s_recv s) ∧ s_read s ≤ s_length s ∧ bs = 0 :: b :: c :: d :: s_recv s.

Section stream.
Context {W : Type} `{!ServiceApi W}.

Fixpoint forward_all (h : harbor) (cs : list (list Z)) (w : W) : outcome W :=
  match cs with [] => Ret w | c :: cs => w ← forward_local_messsage h c w; forward_all h cs w end.

(** what is left to do behind the last message *)
Definition finish (h : harbor) (id : Z) (e : ending) (w : W) : outcome (harbor * W) :=
  match e with
  | More _ => Ret (h, w)
  | TooLong => w ← skynet_error ("Message is too long from harbor " +:+ fmt_d id) w; close_harbor h id w
  end.

Definition with_slave (h : harbor) (id : Z) (s : slave) : harbor :=
  set_slaves (<[Z.to_nat id := s]> (hb_s h)) h.

(** [k] does what the bytes ask for, and leaves the slave with the rest *)
Definition delivers (h : harbor) (id : Z) (s : slave) (bs : list Z) (k : W → outcome (harbor * W)) : Prop :=
  Forall (λ c, HEADER_COOKIE_LENGTH ≤ Zlen c) (messages bs).1 →
  ∃ s', s_fd s' = s_fd s ∧ s_queue s' = s_queue s ∧
    match (messages bs).2 with More rest => pending s' rest | TooLong => True end ∧
    ∀ w, k w = w ← forward_all h (messages bs).1 w; finish (with_slave h id s') id (messages bs).2 w.

Lemma put_slave_ok h id s s0 : 0 ≤ id → hb_s h !! Z.to_nat id = Some s0 →
  put_slave h id s = Ret (with_slave h id s).
Proof.
  intros Hid Hs. unfold put_slave. rewrite set_idx_ok; [done|].
  apply lookup_lt_Some in Hs. unfold Zlen. lia.
Qed.

Lemma with_slave_lookup h id s s0 : 0 ≤ id → hb_s h !! Z.to_nat id = Some s0 →
  hb_s (with_slave h id s) !! Z.to_nat id = Some s.
Proof.
  intros Hid Hs. cbn. apply list_lookup_insert_eq. by eapply lookup_lt_Some.
Qed.

Lemma with_slave_twice h id s s' : with_slave (with_slave h id s) id s' = with_slave h id s'.
Proof. unfold with_slave. cbn. by rewrite list_insert_insert_eq. Qed.

Lemma forward_all_slaves h id s cs w : forward_all (with_slave h id s) cs w = forward_all h cs w.
Proof.
  revert w. induction cs as [|c cs IH]; intros w; [done|]. cbn [forward_all].
  change (forward_local_messsage (with_slave h id s) c w) with (forward_local_messsage h c w).
  destruct (forward_local_messsage h c w); cbn; [apply IH|done..].
Qed.

(** the loop as the steps see it: it does what a fresh message asks for *)
Definition loop_ok (loop : harbor → list Z → W → outcome (harbor * W)) (id : Z) (n : nat) : Prop :=
  ∀ h s buffer, hb_s h !! Z.to_nat id = Some s → s_status s = STATUS_HEADER → s_read s = 0 →
    Zlen (s_size s) = 4 → Forall byte buffer → buffer ≠ [] → (length buffer ≤ n)%nat →
    delivers h id s buffer (loop h buffer).

Lemma content_step_spec loop h id s s0 b c d buffer n :
  loop_ok loop id n → 0 ≤ id → hb_s h !! Z.to_nat id = Some s0 → (length buffer ≤ n)%nat →
  Forall byte buffer → s_status s = STATUS_CONTENT → s_size s = [0; b; c; d] → byte b → byte c → byte d →
  s_length s = length_of b c d → s_read s = Zlen (s_recv s) → s_read s ≤ s_length s →
  delivers h id s (0 :: b :: c :: d :: s_recv s ++ buffer) (content_step loop h id s buffer).
Proof.
  intros Hloop Hid Hs Hn Hok Hst Hsz Hb Hc Hd Hlen Hread Hle. unfold delivers, content_step.
  pose proof (length_of_range b c d Hb Hc Hd) as Hrange. pose proof (Zlen_nonneg (s_recv s)) as Hrecv.
  rewrite messages_cons. cbv zeta. rewrite decide_False by (by intros []). rewrite <- Hlen in *.
  rewrite Zlen_app, <- Hread. destruct (decide (Zlen buffer < s_length s - s_read s)) as [Hlt|Hge].
  - rewrite decide_True by lia. rewrite bool_decide_eq_true_2 by done. cbn [fst snd]. intros _.
    eexists. split; [|split; [|split]]; last first.
    + intros w. rewrite (put_slave_ok h id _ s0) by done. rewrite Ret_bind. reflexivity.
    + right. cbn. split; [done|]. exists b, c, d. rewrite Zlen_app. split; [done|]. split; [done|].
      split; [lia|]. split; [lia|done].
    + done.
    + done.
  - rewrite decide_False by lia. rewrite bool_decide_eq_false_2 by done. cbn [fst snd].
    rewrite take_app_ge, drop_app_ge by (unfold Zlen in *; lia).
    replace (Z.to_nat (s_length s) - length (s_recv s))%nat
      with (Z.to_nat (s_length s - s_read s)) by (unfold Zlen in *; lia).
    set (k := Z.to_nat (s_length s - s_read s)). intros [Hc12 Hcs]%Forall_cons.
    set (s1 := Slave (s_fd s) (s_queue s) STATUS_HEADER 0 0 (s_size s) []).
    destruct (decide (Zlen (drop k buffer) = 0)) as [Hz|Hz].
    + assert (drop k buffer = []) as E0.
      { destruct (drop k buffer); [done|]. rewrite Zlen_cons in Hz. pose proof (Zlen_nonneg l). lia. }
      rewrite E0 in *. exists s1. split; [done|]. split; [done|]. split.
      * left. cbn. rewrite Hsz. done.
      * intros w. rewrite bool_decide_eq_true_2 by done. cbn [forward_all].
        destruct (forward_local_messsage h _ w); try done. rewrite !Ret_bind.
        by rewrite (put_slave_ok h id _ s0).
    + destruct (Hloop (with_slave h id s1) s1 (drop k buffer)) as (s' & Hf & Hq & Hp & E).
      * by eapply with_slave_lookup.
      * done.
      * done.
      * cbn. by rewrite Hsz.
      * by apply Forall_drop.
      * intros E0. by rewrite E0 in Hz.
      * rewrite length_drop. lia.
      * exact Hcs.
      * exists s'. split; [done|]. split; [done|]. split; [done|]. intros w.
        rewrite bool_decide_eq_false_2 by done. cbn [forward_all].
        destruct (forward_local_messsage h _ w) as [w1| | |]; try done. rewrite !Ret_bind.
        rewrite (put_slave_ok h id _ s0), Ret_bind by done. rewrite E, forward_all_slaves.
        by rewrite with_slave_twice.
Qed.

Lemma copy_at_full size r part : Zlen size = 4 → 0 ≤ r → r + Zlen part ≤ 4 →
  Zlen (copy_at size r part) = 4 ∧
  take (Z.to_nat (r + Zlen part)) (copy_at size r part) = take (Z.to_nat r) size ++ part.
Proof. intros Hl Hr Hp. rewrite <- Hl at 1. apply copy_at_spec; [done|lia]. Qed.

Lemma header_step_spec loop h id s s0 buffer n :
  loop_ok loop id n → 0 ≤ id → hb_s h !! Z.to_nat id = Some s0 → (length buffer ≤ S n)%nat →
  Forall byte (take (Z.to_nat (s_read s)) (s_size s)) → Forall byte buffer →
  s_status s = STATUS_HEADER → Zlen (s_size s) = 4 → 0 ≤ s_read s < 4 →
  delivers h id s (take (Z.to_nat (s_read s)) (s_size s) ++ buffer) (header_step loop h id s buffer).
Proof.
  intros Hloop Hid Hs Hn Hok1 Hok2 Hst Hsz Hread. unfold header_step.
  set (got := take (Z.to_nat (s_read s)) (s_size s)) in *.
  assert (Zlen got = s_read s) as Hgot.
  { unfold got, Zlen in *. rewrite length_take. lia. }
  destruct (decide (Zlen buffer < 4 - s_read s)) as [Hlt|Hge].
  - rewrite bool_decide_eq_true_2 by done. unfold delivers.
    rewrite messages_short by (rewrite length_app; unfold Zlen in *; lia). intros _.
    pose proof (Zlen_nonneg buffer).
    destruct (copy_at_full (s_size s) (s_read s) buffer) as [Hl Ht]; [done|lia|lia|].
    eexists. split; [|split; [|split]]; last first.
    + intros w. rewrite (put_slave_ok h id _ s0) by done. rewrite Ret_bind. reflexivity.
    + left. cbn. split; [done|]. split; [done|]. split; [lia|]. by rewrite Ht.
    + done.
    + done.
  - rewrite bool_decide_eq_false_2 by done. set (k := Z.to_nat (4 - s_read s)).
    assert (Zlen (take k buffer) = 4 - s_read s) as Hpart.
    { unfold k, Zlen in *. rewrite length_take. lia. }
    destruct (copy_at_full (s_size s) (s_read s) (take k buffer)) as [Hl Ht]; [done|lia|lia|].
    rewrite Hpart in Ht. replace (s_read s + (4 - s_read s)) with 4 in Ht by lia.
    rewrite take_ge in Ht by (unfold Zlen in Hl; lia).
    assert (Forall byte (copy_at (s_size s) (s_read s) (take k buffer))) as Hokc.
    { rewrite Ht. apply Forall_app. split; [done|by apply Forall_take]. }
    assert (got ++ buffer = copy_at (s_size s) (s_read s) (take k buffer) ++ drop k buffer) as ->.
    { rewrite Ht, <- app_assoc. fold got. by rewrite take_drop. }
    destruct (copy_at (s_size s) (s_read s) (take k buffer)) as [|a [|b [|c [|d [|x l]]]]];
      try (unfold Zlen in Hl; cbn in Hl; lia).
    apply Forall_cons in Hokc as [Ha [Hb [Hc [Hd _]%Forall_cons]%Forall_cons]%Forall_cons].
    assert (get_idx [a; b; c; d] 0 = Ret a) as -> by done.
    change ([a; b; c; d] ++ drop k buffer) with (a :: b :: c :: d :: drop k buffer).
    destruct (decide (a = 0)) as [->|Hne].
    + set (s1 := Slave (s_fd s) (s_queue s) STATUS_CONTENT (length_of b c d) 0 [0; b; c; d] []).
      assert (delivers h id s1 (0 :: b :: c :: d :: s_recv s1 ++ drop k buffer)
                (content_step loop h id s1 (drop k buffer))) as Hdel.
      { apply (content_step_spec loop h id s1 s0 b c d _ n); try done.
        - rewrite length_drop. unfold k. lia.
        - by apply Forall_drop.
        - pose proof (length_of_range b c d Hb Hc Hd). cbn. lia. }
      cbn [s_recv s1 app] in Hdel. intros H12. destruct (Hdel H12) as (s' & Hf & Hq & Hp & E).
      destruct (decide (Zlen (drop k buffer) = 0)) as [Hz|Hz].
      * assert (drop k buffer = []) as E0.
        { destruct (drop k buffer); [done|]. rewrite Zlen_cons in Hz. pose proof (Zlen_nonneg l). lia. }
        rewrite E0 in *. clear E Hp Hdel. rewrite messages_cons in *. cbv zeta in *.
        rewrite (decide_False (P := 0 ≠ 0)) in * by (by intros []).
        pose proof (length_of_range b c d Hb Hc Hd) as Hr.
        destruct (decide (Zlen [] < length_of b c d)) as [Hlt'|Hlt'].
        -- exists s1. split; [done|]. split; [done|]. split.
           ++ right. split; [done|]. exists b, c, d. cbn. repeat split; done || lia.
           ++ intros w. rewrite Ret_bind. rewrite bool_decide_eq_false_2 by (by intros []).
              cbn [content_length]. rewrite Ret_bind. fold (length_of b c d).
              rewrite bool_decide_eq_true_2 by done. by rewrite (put_slave_ok h id _ s0).
        -- apply Forall_cons in H12 as [H12 _]. rewrite take_nil in H12. done.
      * exists s'. split; [done|]. split; [done|]. split; [done|]. intros w. rewrite <- E.
        rewrite Ret_bind. rewrite bool_decide_eq_false_2 by (by intros []).
        cbn [content_length]. rewrite Ret_bind. fold (length_of b c d).
        by rewrite bool_decide_eq_false_2.
    + unfold delivers. rewrite messages_cons. cbv zeta. rewrite decide_True by done. intros _.
      eexists. split; [|split; [|split]]; last first.
      * intros w. rewrite Ret_bind. rewrite bool_decide_eq_true_2 by done. cbn [fst snd forward_all finish].
        rewrite Ret_bind. destruct (skynet_error _ w) as [w1| | |]; try done. rewrite !Ret_bind.
        by rewrite (put_slave_ok h id _ s0).
      * done.
      * done.
      * done.
Qed.

Lemma socket_loop_ok fuel id fd : 0 ≤ id → loop_ok (λ h b w, socket_loop fuel h id fd b w) id fuel.
Proof.
  intros Hid. induction fuel as [|fuel IH]; intros h s buffer Hs Hst Hread Hsz Hok Hne Hn.
  { destruct buffer; [done|cbn in Hn; lia]. }
  intros H12. cbn [socket_loop].
  destruct (header_step_spec (λ h b w, socket_loop fuel h id fd b w) h id s s buffer fuel)
    as (s' & Hf & Hq & Hp & E); try done.
  - by rewrite Hread.
  - lia.
  - rewrite Hread. exact H12.
  - rewrite Hread in *. change (take (Z.to_nat 0) (s_size s) ++ buffer) with buffer in *.
    exists s'. split; [done|]. split; [done|]. split; [done|]. intros w. rewrite <- E.
    rewrite (proj2 (get_idx_Ret _ _ s)) by done. rewrite Ret_bind, Hst.
    rewrite bool_decide_eq_false_2 by done. by rewrite bool_decide_eq_true_2.
Qed.

(** However the bytes of a connected harbor are cut into blocks, the service
    forwards exactly the messages they complete, in order, keeps the incomplete
    rest, and closes the harbor where a length does not fit 24 bits; the other
    harbors are left alone. *)
Theorem harbor_reassembles h id s bs m : sm_type m = SKYNET_SOCKET_TYPE_DATA →
  harbor_id h (sm_id m) = Ret id → 0 < id → hb_s h !! Z.to_nat id = Some s → pending s bs →
  Forall byte bs → Forall byte (bytes (sm_buffer m)) →
  delivers h id s (bs ++ bytes (sm_buffer m)) (push_socket_data h m).
Proof.
  intros Ht Hfd Hid Hs Hp Hbs Hdata. unfold push_socket_data.
  set (data := bytes (sm_buffer m)) in *.
  assert (delivers h id s (bs ++ data)
    (λ w, socket_loop (3 + length data) h id (sm_id m) data w)) as Hdel.
  { pose proof (socket_loop_ok (2 + length data) id (sm_id m) ltac:(lia)) as Hloop.
    destruct Hp as [(Hst & Hsz & Hread & ->)|(Hst & b & c & d & Hsz & Hlen & Hread & Hle & ->)].
    - pose proof (header_step_spec _ h id s s data _ Hloop ltac:(lia) Hs ltac:(lia) Hbs Hdata Hst Hsz Hread)
        as Hd. intros H12. destruct (Hd H12) as (s' & Hf & Hq & Hpe & E).
      exists s'. split; [done|]. split; [done|]. split; [done|]. intros w. rewrite <- E.
      cbn [Nat.add socket_loop]. rewrite (proj2 (get_idx_Ret _ _ s)) by (split; [lia|done]).
      rewrite Ret_bind, Hst. rewrite bool_decide_eq_false_2 by done. by rewrite bool_decide_eq_true_2.
    - apply Forall_cons in Hbs as [_ [Hb [Hc [Hd _]%Forall_cons]%Forall_cons]%Forall_cons].
      pose proof (content_step_spec _ h id s s b c d data _ Hloop ltac:(lia) Hs ltac:(lia) Hdata Hst Hsz
        Hb Hc Hd Hlen Hread Hle) as Hde.
      intros H12. destruct (Hde H12) as (s' & Hf & Hq & Hpe & E).
      exists s'. split; [done|]. split; [done|]. split; [done|]. intros w. rewrite <- E.
      cbn [Nat.add socket_loop]. rewrite (proj2 (get_idx_Ret _ _ s)) by (split; [lia|done]).
      rewrite Ret_bind, Hst. do 2 rewrite bool_decide_eq_false_2 by done. by rewrite bool_decide_eq_true_2. }
  intros H12. destruct (Hdel H12) as (s' & Hf & Hq & Hpe & E). exists s'.
  split; [done|]. split; [done|]. split; [done|]. intros w. rewrite <- E.
  rewrite bool_decide_eq_true_2 by done. cbn [cassert]. rewrite Ret_bind, Hfd, Ret_bind.
  by rewrite bool_decide_eq_false_2 by lia.
Qed.
End stream.
