(* ===== verification/HarborRoute.v ===== *)
(** * Routing between harbors

    A message sent to a connected harbor is delivered there unchanged; messages
    for a harbor that is not connected yet wait and go out in order when it is;
    what happens to the messages for a global name and to those for a harbor
    that was closed. *)
From S2P Require Import Prelude CLib Bytes CNum Handle DataBuffer ServiceApi Harbor HarborSpec.
From Stdlib Require Import Ascii String.
#[local] Open Scope Z_scope.

(** ** Numbers as bytes *)
Definition word32 (n : Z) : Prop := 0 ≤ n < 2 ^ 32.

Lemma bigendian_eq n : to_bigendian n =
  [(n / 2 ^ 24) mod 256; (n / 2 ^ 16) mod 256; (n / 2 ^ 8) mod 256; n mod 256].
Proof. unfold to_bigendian. by rewrite !byte_at, byte_low. Qed.

Lemma four_bytes n : word32 n →
  n = (n / 2 ^ 24) mod 256 * 2 ^ 24 + (n / 2 ^ 16) mod 256 * 2 ^ 16 + (n / 2 ^ 8) mod 256 * 2 ^ 8 + n mod 256.
Proof. unfold word32. intros. Z.div_mod_to_equations. lia. Qed.

Lemma bigendian_roundtrip n : word32 n → from_bigendian (to_bigendian n) = Ret n.
Proof.
  intros Hn. rewrite bigendian_eq. cbn [from_bigendian]. rewrite be_value by apply mod_byte.
  rewrite <- four_bytes by done. unfold u32. by rewrite Z.mod_small.
Qed.

Definition header_ok (hd : remote_message_header) : Prop :=
  word32 (h_source hd) ∧ word32 (h_destination hd) ∧ word32 (h_session hd).

Lemma Zlen_cookie hd : Zlen (header_to_message hd) = HEADER_COOKIE_LENGTH.
Proof. done. Qed.

Lemma header_roundtrip hd : header_ok hd → message_to_header (header_to_message hd) = Ret hd.
Proof.
  intros (H1 & H2 & H3). unfold message_to_header.
  change (take 4 (header_to_message hd)) with (to_bigendian (h_source hd)).
  change (take 4 (drop 4 (header_to_message hd))) with (to_bigendian (h_destination hd)).
  change (take 4 (drop 8 (header_to_message hd))) with (to_bigendian (h_session hd)).
  rewrite !bigendian_roundtrip by done. by destruct hd.
Qed.

(** ** From one harbor to another *)
Section route.
Context {W : Type} `{!ServiceApi W}.

(** what the sender puts on the wire, and what the receiver takes off it *)
Definition content (hd : remote_message_header) (body : list Z) : list Z := body ++ header_to_message hd.
Definition frame (hd : remote_message_header) (body : list Z) : list Z :=
  to_bigendian (Zlen body + HEADER_COOKIE_LENGTH) ++ content hd body.

Lemma frame_messages hd body rest : Zlen body + HEADER_COOKIE_LENGTH < 2 ^ 24 →
  messages (frame hd body ++ rest) = (content hd body :: (messages rest).1, (messages rest).2).
Proof.
  unfold HEADER_COOKIE_LENGTH. intros Hl. pose proof (Zlen_nonneg body) as Hb.
  unfold frame. rewrite bigendian_eq. rewrite <- app_assoc. cbn [app]. rewrite messages_cons. cbv zeta.
  unfold HEADER_COOKIE_LENGTH.
  assert (∀ n, word32 n → n < 2 ^ 24 → (n / 2 ^ 24) mod 256 = 0 ∧
    length_of ((n / 2 ^ 16) mod 256) ((n / 2 ^ 8) mod 256) (n mod 256) = n) as Hn.
  { intros n Hn Hlt. assert ((n / 2 ^ 24) mod 256 = 0) as E0.
    { rewrite Z.div_small by (unfold word32 in Hn; lia). done. }
    split; [done|]. unfold length_of. pose proof (four_bytes n Hn) as E. rewrite E0 in E.
    pose proof (be_value 0 ((n / 2 ^ 16) mod 256) ((n / 2 ^ 8) mod 256) (n mod 256)
      (mod_byte _) (mod_byte _) (mod_byte _)) as Ev.
    rewrite Z.shiftl_0_l, Z.lor_0_l in Ev. rewrite Ev. lia. }
  destruct (Hn (Zlen body + 12)) as [-> ->]; [unfold word32; lia|lia|].
  assert (Zlen (content hd body) = Zlen body + 12) as Hc.
  { unfold content. by rewrite Zlen_app, Zlen_cookie. }
  rewrite decide_False by (by intros []). rewrite decide_False.
  2:{ rewrite Zlen_app, Hc. pose proof (Zlen_nonneg rest). lia. }
  rewrite <- Hc. unfold Zlen. by rewrite Nat2Z.id, take_app_length, drop_app_length.
Qed.

(** what a message for [destination] amounts to in its process *)
Definition deliver_local (source destination type session : Z) (body : list Z) (w : W) : outcome W :=
  '(r, w) ← skynet_send source destination (Z.lor type PTYPE_TAG_DONTCOPY) session body w;
  if bool_decide (r < 0) then
    w ← (if bool_decide (type ≠ PTYPE_ERROR) then
           '(_, w) ← skynet_send destination source PTYPE_ERROR session [] w; Ret w
         else Ret w);
    skynet_error ("Unknown destination :" +:+ fmt_x destination +:+ " from :" +:+
                  fmt_x source +:+ " type(" +:+ fmt_d type +:+ ")") w
  else Ret w.

(** the header of a message for another harbor *)
Definition wire_header (source destination type session : Z) : remote_message_header :=
  Header source (Z.lor (u32 (Z.shiftl type HANDLE_REMOTE_SHIFT)) (Z.land destination HANDLE_MASK))
         (u32 session).

Lemma wire_destination destination type : word32 destination → 0 ≤ type < 256 →
  Z.lor (u32 (Z.shiftl type HANDLE_REMOTE_SHIFT)) (Z.land destination HANDLE_MASK) =
    type * 2 ^ 24 + destination mod 2 ^ 24.
Proof.
  unfold word32, HANDLE_REMOTE_SHIFT, HANDLE_MASK. intros Hd Ht.
  assert (u32 (Z.shiftl type 24) = Z.shiftl type 24) as ->.
  { unfold u32. rewrite Z.shiftl_mul_pow2, Z.mod_small by lia. done. }
  change 0xffffff with (2 ^ 24 - 1). rewrite land_mask by lia.
  apply lor_shift; [lia|]. by apply mod_range.
Qed.

Lemma wire_header_ok source destination type session : word32 source → word32 destination →
  0 ≤ type < 256 → header_ok (wire_header source destination type session).
Proof.
  intros Hs Hd Ht. split; [done|]. cbn. rewrite wire_destination by done. split.
  - unfold word32 in *. pose proof (mod_range destination (2 ^ 24) ltac:(lia)). lia.
  - unfold word32, u32. by apply mod_range.
Qed.

Lemma i32_u32 z : - 2 ^ 31 ≤ z < 2 ^ 31 → i32 (u32 z) = z.
Proof.
  intros. unfold i32, u32. rewrite Zplus_mod_idemp_l, Z.mod_small; lia.
Qed.

Lemma forward_content h source destination type session body w :
  word32 source → word32 destination → 0 ≤ type < 256 → - 2 ^ 31 ≤ session < 2 ^ 31 →
  hb_id h = Z.shiftr destination HANDLE_REMOTE_SHIFT →
  forward_local_messsage h (content (wire_header source destination type session) body) w =
  deliver_local source destination type session body w.
Proof.
  intros Hs Hd Ht Hses Hid. set (hd := wire_header source destination type session).
  pose proof (wire_header_ok source destination type session Hs Hd Ht) as Hok. fold hd in Hok.
  unfold forward_local_messsage, content. cbv zeta. rewrite Zlen_app, Zlen_cookie.
  pose proof (Zlen_nonneg body). unfold HEADER_COOKIE_LENGTH at 1 2.
  rewrite bool_decide_eq_false_2 by lia.
  replace (Zlen body + HEADER_COOKIE_LENGTH - HEADER_COOKIE_LENGTH) with (Zlen body) by lia.
  unfold Zlen. rewrite Nat2Z.id, take_app_length, drop_app_length.
  rewrite header_roundtrip, Ret_bind by done. cbn [h_source h_destination h_session hd wire_header].
  rewrite wire_destination, i32_u32 by done.
  pose proof (mod_range destination (2 ^ 24) ltac:(lia)) as Hm.
  assert (Z.shiftr (type * 2 ^ 24 + destination mod 2 ^ 24) HANDLE_REMOTE_SHIFT = type) as ->.
  { unfold HANDLE_REMOTE_SHIFT. rewrite Z.shiftr_div_pow2, Z.div_add_l, Z.div_small by lia. lia. }
  assert (Z.lor (Z.land (type * 2 ^ 24 + destination mod 2 ^ 24) HANDLE_MASK)
            (u32 (Z.shiftl (hb_id h) HANDLE_REMOTE_SHIFT)) = destination) as ->; [|done].
  unfold HANDLE_MASK, HANDLE_REMOTE_SHIFT in *. change 0xffffff with (2 ^ 24 - 1).
  rewrite land_mask, Z.add_comm, Z.mod_add, Z.mod_mod by lia. rewrite Hid.
  unfold word32 in Hd. rewrite Z.shiftr_div_pow2 by lia.
  pose proof (Z.div_mod destination (2 ^ 24) ltac:(lia)) as E.
  assert (0 ≤ destination / 2 ^ 24 < 256) by (Z.div_mod_to_equations; lia).
  assert (u32 (Z.shiftl (destination / 2 ^ 24) 24) = destination / 2 ^ 24 * 2 ^ 24) as ->.
  { unfold u32. rewrite Z.shiftl_mul_pow2, Z.mod_small by lia. done. }
  rewrite lor_high by lia. lia.
Qed.

Lemma send_connected h1 s source destination type session msg :
  let id := Z.shiftr destination HANDLE_REMOTE_SHIFT in
  word32 destination → hb_id h1 ≠ id → hb_s h1 !! Z.to_nat id = Some s → s_fd s ≠ 0 → s_status s ≠ STATUS_HANDSHAKE →
  ∀ w, remote_send_handle h1 source destination type session msg w =
    w ← send_remote (s_fd s) (bytes msg) (wire_header source destination type session) w; Ret (0, h1, w).
Proof.
  intros id Hd Hne Hsl Hfd Hst w. unfold remote_send_handle. fold id. rewrite bool_decide_eq_false_2 by done.
  assert (0 ≤ id) by (apply Z.shiftr_nonneg; unfold word32 in Hd; lia).
  rewrite (proj2 (get_idx_Ret _ _ s)) by done. rewrite Ret_bind.
  by rewrite bool_decide_eq_false_2 by (by intros [|]).
Qed.

(** a length of 2^24 or more is refused *)
Lemma long_messages n rest : 2 ^ 24 ≤ n < 2 ^ 32 → messages (to_bigendian n ++ rest) = ([], TooLong).
Proof.
  intros Hn. rewrite bigendian_eq. cbn [app]. rewrite messages_cons. cbv zeta. rewrite decide_True; [done|].
  rewrite Z.mod_small by (split; [apply Z.div_pos; lia|apply Z.div_lt_upper_bound; lia]).
  assert (1 ≤ n / 2 ^ 24) by (apply Z.div_le_lower_bound; lia). lia.
Qed.

(** a receiver that has [bs] of a message of harbor [id], and takes the next block *)
Definition receives (h : harbor) (id : Z) (s : slave) (bs : list Z) (m : socket_message) : Prop :=
  sm_type m = SKYNET_SOCKET_TYPE_DATA ∧ harbor_id h (sm_id m) = Ret id ∧ 0 < id ∧ hb_s h !! Z.to_nat id = Some s ∧
  pending s bs ∧ Forall byte bs ∧ Forall byte (bytes (sm_buffer m)).

(** C15. A message for a handle of a connected harbor arrives unchanged when it and its
    header of twelve bytes have less than 2^24 bytes: the sender puts one frame on
    the socket of that harbor and keeps the message; however the frame is cut into
    blocks, the receiver, when it takes the last of them, forwards the same bytes
    with the source, destination, type and session the sender was given, and
    reports a dead destination to the source. The length of a larger message does
    not fit: the sender sends it all the same, and the receiver closes the harbor,
    with all that comes behind, at the first block with its length. Only a message
    of 4 GB is refused by the sender, which drops it with a line in the log. *)
Theorem harbor_roundtrip h1 h2 s source destination type session msg :
  word32 source → word32 destination → 0 ≤ type < 256 → - 2 ^ 31 ≤ session < 2 ^ 31 →
  hb_id h1 ≠ hb_id h2 → hb_id h2 = Z.shiftr destination HANDLE_REMOTE_SHIFT →
  hb_s h1 !! Z.to_nat (hb_id h2) = Some s → s_fd s ≠ 0 → s_status s ≠ STATUS_HANDSHAKE →
  let n := Zlen (bytes msg) + HEADER_COOKIE_LENGTH in
  let f := frame (wire_header source destination type session) (bytes msg) in
  (n ≤ UINT32_MAX →
   ∀ w, remote_send_handle h1 source destination type session msg w =
        w ← skynet_socket_send (s_fd s) f w; Ret (0, h1, w)) ∧
  (n < 2 ^ 24 → ∀ id r bs m, receives h2 id r bs m → bs ++ bytes (sm_buffer m) = f →
   ∃ r', s_fd r' = s_fd r ∧ pending r' [] ∧
     ∀ w, push_socket_data h2 m w =
          w ← deliver_local source destination type session (bytes msg) w; Ret (with_slave h2 id r', w)) ∧
  (2 ^ 24 ≤ n ≤ UINT32_MAX → ∀ id r bs m rest, receives h2 id r bs m → bs ++ bytes (sm_buffer m) = take 4 f ++ rest →
   ∃ r', s_fd r' = s_fd r ∧
     ∀ w, push_socket_data h2 m w =
          w ← skynet_error ("Message is too long from harbor " +:+ fmt_d id) w; close_harbor (with_slave h2 id r') id w) ∧
  (UINT32_MAX < n →
   ∀ w, remote_send_handle h1 source destination type session msg w =
        w ← skynet_error ("remote message from :" +:+ fmt_08x source +:+ " to :" +:+
              fmt_08x (h_destination (wire_header source destination type session)) +:+ " is too large.") w;
        Ret (0, h1, w)).
Proof.
  intros Hs Hd Ht Hses Hne Hid Hsl Hfd Hst n f. pose proof (Zlen_nonneg (bytes msg)). unfold HEADER_COOKIE_LENGTH in n.
  set (hd := wire_header source destination type session). rewrite Hid in Hne, Hsl.
  pose proof (send_connected h1 s source destination type session msg Hd Hne Hsl Hfd Hst) as Hsend. fold hd in Hsend.
  change (frame _ _) with (frame hd (bytes msg)) in f. split; [|split; [|split]].
  - intros Hn w. rewrite Hsend. unfold send_remote. cbv zeta. by rewrite bool_decide_eq_false_2 by (unfold HEADER_COOKIE_LENGTH; lia).
  - intros Hn id r bs m (R1 & R2 & R3 & R4 & R5 & R6 & R7) E.
    pose proof (harbor_reassembles h2 id r bs m R1 R2 R3 R4 R5 R6 R7) as Hr. unfold delivers in Hr. rewrite E in Hr.
    pose proof (frame_messages hd (bytes msg) [] Hn) as Em. rewrite app_nil_r in Em. unfold f in Hr. rewrite Em in Hr. cbn [fst snd] in Hr.
    change (messages []) with (@nil (list Z), More []) in Hr. cbn [fst snd] in Hr. destruct Hr as (r' & E1 & _ & E2 & E3).
    { constructor; [|constructor]. unfold content. rewrite Zlen_app, Zlen_cookie. lia. }
    exists r'. split; [done|]. split; [done|]. intros w. rewrite E3. cbn [forward_all finish].
    unfold hd. rewrite forward_content by done. by destruct (deliver_local _ _ _ _ _ _).
  - intros Hn id r bs m rest (R1 & R2 & R3 & R4 & R5 & R6 & R7) E.
    pose proof (harbor_reassembles h2 id r bs m R1 R2 R3 R4 R5 R6 R7) as Hr. unfold delivers in Hr. rewrite E in Hr.
    change (take 4 f) with (to_bigendian n) in Hr.
    rewrite long_messages in Hr by (unfold UINT32_MAX in Hn; lia). cbn [fst snd] in Hr.
    destruct Hr as (r' & E1 & _ & _ & E3); [constructor|]. exists r'. split; [done|]. intros w. rewrite E3. done.
  - intros Hn w. rewrite Hsend. unfold send_remote. cbv zeta. by rewrite bool_decide_eq_true_2 by (unfold HEADER_COOKIE_LENGTH; lia).
Qed.

(** ** Waiting for a harbor *)

(** the messages that wait for a harbor *)
Definition waiting (o : option harbor_msg_queue) (xs : list harbor_msg) : Prop :=
  match o with None => xs = [] | Some q => hq_repr q xs ∧ hq_size q * 2 ≤ INT_MAX end.

Lemma waiting_default o xs : waiting o xs → hq_repr (default new_queue o) xs ∧
  hq_size (default new_queue o) * 2 ≤ INT_MAX.
Proof. destruct o; cbn; [done|]. intros ->. split; [apply new_queue_repr|done]. Qed.

Lemma release_drained q xs w : hq_repr q xs → release_queue (Some (drained q)) w = Ret w.
Proof.
  intros HR. unfold release_queue. rewrite (drain_queue_spec _ _ []) by (by eapply drained_repr).
  done.
Qed.

Lemma dispatch_queue_spec h id s xs w : 0 ≤ id → hb_s h !! Z.to_nat id = Some s → s_fd s ≠ 0 →
  waiting (s_queue s) xs →
  dispatch_queue h id w = w ← each (send_queued (s_fd s)) xs w; Ret (with_slave h id (set_queue None s), w).
Proof.
  intros Hid Hs Hfd Hw. unfold dispatch_queue. rewrite (proj2 (get_idx_Ret _ _ s)) by done.
  rewrite Ret_bind, bool_decide_eq_true_2 by done. cbn [cassert]. rewrite Ret_bind.
  unfold waiting in Hw. destruct (s_queue s) as [q|] eqn:Eq.
  - destruct Hw as [HR _]. rewrite (drain_queue_spec _ _ _ w HR).
    destruct (each (send_queued (s_fd s)) xs w) as [w1| | |]; try done. rewrite !Ret_bind.
    rewrite (release_drained q xs) by done. rewrite Ret_bind. by rewrite (put_slave_ok h id _ s).
  - subst xs. cbn [each]. rewrite Ret_bind. unfold with_slave. do 2 f_equal. unfold set_slaves.
    destruct h as [a b c l]. cbn in *. f_equal. symmetry. apply list_insert_id. rewrite Hs.
    f_equal. unfold set_queue. rewrite <- Eq. by destruct s.
Qed.

Definition handshake_bytes (h : harbor) : list Z := [u8 (hb_id h)].

(** While a harbor is not connected, or has not shaken hands yet, the messages
    for it are kept in the order they were sent, and nothing goes out. When it is
    accepted, or its handshake with the right id arrives, they go out in that
    order, behind the handshake, each freed after it was sent, and the queue is
    gone. *)
Theorem harbor_waits_then_flushes h id s xs : 0 < id < REMOTE_MAX → hb_s h !! Z.to_nat id = Some s →
  waiting (s_queue s) xs → id ≠ hb_id h →
  (∀ source destination type session msg,
     Z.shiftr destination HANDLE_REMOTE_SHIFT = id →
     s_fd s = 0 ∨ s_status s = STATUS_HANDSHAKE → s_status s ≠ STATUS_DOWN →
     ∃ q, hq_repr q (xs ++ [HarborMsg (wire_header source destination type session) msg]) ∧
       ∀ w, remote_send_handle h source destination type session msg w =
            Ret (1, with_slave h id (set_queue (Some q) s), w)) ∧
  (∀ fd text, scan_fd_id text = (fd, id) → fd ≠ 0 → s_fd s = 0 →
     ∀ w, connect_command true h text w =
       w ← skynet_socket_start fd w; w ← skynet_socket_send fd (handshake_bytes h) w;
       w ← each (send_queued fd) xs w;
       Ret (with_slave h id (set_queue None (set_status STATUS_HEADER (set_fd fd s))), w)) ∧
  (∀ m, sm_type m = SKYNET_SOCKET_TYPE_DATA → harbor_id h (sm_id m) = Ret id → bytes (sm_buffer m) = [id] →
     s_fd s ≠ 0 → s_status s = STATUS_HANDSHAKE → s_read s = 0 → Zlen (s_size s) = 4 →
     ∃ s', s_status s' = STATUS_HEADER ∧ s_fd s' = s_fd s ∧ s_queue s' = None ∧ s_read s' = 0 ∧
       ∀ w, push_socket_data h m w = w ← each (send_queued (s_fd s)) xs w; Ret (with_slave h id s', w)).
Proof.
  intros Hid Hs Hw Hne. split; [|split].
  - intros source destination type session msg Hd Hconn Hdown.
    destruct (waiting_default _ _ Hw) as [HR Hmax].
    destruct (push_queue_msg_spec _ _ (HarborMsg (wire_header source destination type session) msg) HR Hmax)
      as (q & E & HR'). exists q. split; [done|]. intros w. unfold remote_send_handle. rewrite Hd.
    rewrite bool_decide_eq_false_2 by done. rewrite (proj2 (get_idx_Ret _ _ s)) by (split; [lia|done]).
    rewrite Ret_bind. cbv zeta. rewrite bool_decide_eq_true_2 by done.
    rewrite bool_decide_eq_false_2 by done. unfold push_queue.
    fold (wire_header source destination type session). rewrite E, Ret_bind.
    rewrite (put_slave_ok h id _ s) by (done || lia). done.
  - intros fd text Hscan Hfd Hs0 w. unfold connect_command. rewrite Hscan.
    rewrite bool_decide_eq_false_2 by lia. rewrite (proj2 (get_idx_Ret _ _ s)) by (split; [lia|done]).
    rewrite Ret_bind, bool_decide_eq_false_2 by (rewrite Hs0; by intros []).
    rewrite (put_slave_ok h id _ s) by (done || lia). rewrite Ret_bind.
    destruct (skynet_socket_start fd w) as [w1| | |]; try done. rewrite !Ret_bind.
    unfold handshake. rewrite (proj2 (get_idx_Ret _ _ (set_fd fd s))).
    2:{ split; [lia|]. eapply with_slave_lookup; [lia|done]. }
    rewrite Ret_bind. cbn [s_fd set_fd]. change (hb_id (with_slave h id (set_fd fd s))) with (hb_id h).
    destruct (skynet_socket_send fd _ w1) as [w2| | |]; try done. rewrite !Ret_bind.
    rewrite (put_slave_ok _ id _ (set_fd fd s)), Ret_bind by (lia || (eapply with_slave_lookup; [lia|done])).
    rewrite with_slave_twice.
    rewrite (dispatch_queue_spec _ id (set_status STATUS_HEADER (set_fd fd s)) xs); try done; [|lia|].
    + cbn [s_fd set_status set_fd]. destruct (each _ _ _); try done. rewrite !Ret_bind.
      by rewrite with_slave_twice.
    + eapply with_slave_lookup; [lia|done].
  - intros m Ht Hfd Hb Hsfd Hst Hread Hsz. eexists. split; [|split; [|split; [|split]]]; last first.
    + intros w. unfold push_socket_data. rewrite bool_decide_eq_true_2 by done. cbn [cassert].
      rewrite Ret_bind, Hfd, Ret_bind. rewrite bool_decide_eq_false_2 by lia. rewrite Hb.
      cbn [List.length Nat.add socket_loop]. rewrite (proj2 (get_idx_Ret _ _ s)) by (split; [lia|done]).
      rewrite Ret_bind. rewrite bool_decide_eq_true_2 by done.
      change (get_idx [id] 0) with (Ret id). rewrite Ret_bind, bool_decide_eq_false_2 by (by intros []).
      rewrite (put_slave_ok h id _ s), Ret_bind by (done || lia).
      rewrite (dispatch_queue_spec _ id (set_status STATUS_HEADER s) xs); try done; [|lia|].
      2:{ eapply with_slave_lookup; [lia|done]. }
      cbn [s_fd set_status]. destruct (each _ _ _) as [w1| | |]; try done. rewrite !Ret_bind.
      rewrite with_slave_twice. change (drop 1 [id]) with (@nil Z).
      rewrite bool_decide_eq_true_2 by done.
      rewrite (proj2 (get_idx_Ret _ _ (set_queue None (set_status STATUS_HEADER s)))).
      2:{ split; [lia|]. eapply with_slave_lookup; [lia|done]. }
      rewrite Ret_bind. rewrite bool_decide_eq_false_2 by done. rewrite bool_decide_eq_true_2 by done.
      unfold header_step. cbn [s_read set_queue set_status s_size s_fd s_queue s_length s_recv s_status].
      rewrite Hread. rewrite bool_decide_eq_true_2 by done.
      rewrite (put_slave_ok _ id _ (set_queue None (set_status STATUS_HEADER s))), Ret_bind
        by (lia || (eapply with_slave_lookup; [lia|done])).
      rewrite with_slave_twice. reflexivity.
    + done.
    + done.
    + done.
    + done.
Qed.
End route.
