(* ===== verification/HarborDown.v ===== *)
(** * Messages for a global name

    A message sent to a name whose handle is not known waits without a handle.
    When the handle comes it is added to the messages if the harbor is connected
    and if the service is local, but not if the messages have to wait for their
    harbor: these are then sent to handle 0 of it. *)
From S2P Require Import Prelude CLib Bytes CNum Handle DataBuffer ServiceApi Harbor HarborSpec HarborRoute.
From Stdlib Require Import Ascii String.
#[local] Open Scope Z_scope.

(** a message sent: source, type, session and body; and what is queued for it *)
Definition sent : Type := Z * Z * Z * message.
Definition addressed (handle : Z) (p : sent) : harbor_msg :=
  let '(source, type, session, msg) := p in HarborMsg (wire_header source handle type session) msg.

Lemma with_handle_addressed handle p : with_handle handle (addressed 0 p) = addressed handle p.
Proof.
  destruct p as [[[source type] session] msg]. unfold with_handle, addressed, wire_header. cbn [hm_header hm_body
    h_source h_destination h_session]. by rewrite Z.land_0_l, Z.lor_0_r.
Qed.

Section names.
Context {W : Type} `{!ServiceApi W}.

Lemma each_addressed fd handle ps w :
  each (λ m, send_queued fd (with_handle handle m)) (addressed 0 <$> ps) w =
  each (send_queued fd) (addressed handle <$> ps) w.
Proof.
  revert w. induction ps as [|p ps IH]; intros w; [done|]. cbn [fmap list_fmap each].
  rewrite with_handle_addressed. destruct (send_queued fd (addressed handle p) w); try done. apply IH.
Qed.

(** Messages for a global name are queued without the handle they are meant
    for. When the name becomes known and its harbor is connected they are sent to
    its handle, in order; a service of this process gets them at once; but when
    the harbor is not connected yet they are moved to its queue as they are, and
    accepting the harbor sends them to its handle 0, in order. *)
Theorem harbor_name_loses_handle h node q ps s :
  let handle := kv_value node in let id := Z.shiftr handle HANDLE_REMOTE_SHIFT in
  let known o := Keyvalue (kv_key node) (kv_hash node) handle o in
  hq_repr q (addressed 0 <$> ps) → hq_size q * 2 ≤ INT_MAX → 0 ≤ id → hb_s h !! Z.to_nat id = Some s →
  (s_fd s ≠ 0 → ∀ w, dispatch_name_queue h node q w =
     w ← each (send_queued (s_fd s)) (addressed handle <$> ps) w; Ret (h, known (Some (drained q)), w)) ∧
  (s_fd s = 0 → s_status s ≠ STATUS_DOWN → s_queue s = None → id = Z.shiftr (hb_slave h) HANDLE_REMOTE_SHIFT →
     ∀ w, dispatch_name_queue h node q w =
       w ← each (send_local handle) (addressed 0 <$> ps) w;
       Ret (with_slave h id (set_queue None s), known None, w)) ∧
  (s_fd s = 0 → s_status s ≠ STATUS_DOWN → s_queue s = None → id ≠ Z.shiftr (hb_slave h) HANDLE_REMOTE_SHIFT →
     0 < id < REMOTE_MAX →
     ∃ h', (∀ w, dispatch_name_queue h node q w = Ret (h', known None, w)) ∧
       ∀ fd text w, scan_fd_id text = (fd, id) → fd ≠ 0 → ∃ h'',
         connect_command true h' text w =
         w ← skynet_socket_start fd w; w ← skynet_socket_send fd (handshake_bytes h) w;
         w ← each (send_queued fd) (addressed 0 <$> ps) w; Ret (h'', w)).
Proof.
  intros handle id known HR Hmax Hid Hs.
  assert (get_idx (hb_s h) id = Ret s) as Hget by (apply get_idx_Ret; by split).
  unfold dispatch_name_queue. fold handle id. split; [|split].
  - intros Hfd w. rewrite Hget, Ret_bind, bool_decide_eq_false_2 by done.
    rewrite (drain_queue_spec _ _ _ w HR), each_addressed. by destruct (each _ _ _).
  - intros Hfd Hdown Hq Hloc w. rewrite Hget, Ret_bind, bool_decide_eq_true_2 by done.
    rewrite bool_decide_eq_false_2, Hq, Ret_bind by done. cbv zeta.
    rewrite bool_decide_eq_true_2 by done. rewrite (drain_queue_spec _ _ _ w HR).
    destruct (each _ _ w) as [w1| | |]; try done. rewrite !Ret_bind.
    rewrite (release_drained q _ w1 HR), Ret_bind. by rewrite (put_slave_ok h id _ s).
  - intros Hfd Hdown Hq Hloc Hrange. exists (with_slave h id (set_queue (Some q) s)). split.
    + intros w. rewrite Hget, Ret_bind, bool_decide_eq_true_2 by done.
      rewrite bool_decide_eq_false_2, Hq, Ret_bind by done. cbv zeta.
      rewrite bool_decide_eq_false_2 by done. by rewrite (put_slave_ok h id _ s).
    + intros fd text w Hscan Hne. set (s1 := set_queue (Some q) s). set (h1 := with_slave h id s1).
      assert (∀ s', get_idx (hb_s (with_slave h1 id s')) id = Ret s') as Hg.
      { intros s'. apply get_idx_Ret. split; [lia|]. eapply with_slave_lookup; [lia|].
        by eapply with_slave_lookup. }
      assert (get_idx (hb_s h1) id = Ret s1) as Hg1.
      { apply get_idx_Ret. split; [lia|]. by eapply with_slave_lookup. }
      assert (∀ h2 s2 s', get_idx (hb_s h2) id = Ret s2 → put_slave h2 id s' = Ret (with_slave h2 id s')) as Hput.
      { intros h2 s2 s' [_ E]%get_idx_Ret. by rewrite (put_slave_ok h2 id s' s2). }
      eexists. unfold connect_command. rewrite Hscan, bool_decide_eq_false_2 by lia.
      rewrite Hg1, Ret_bind, bool_decide_eq_false_2 by (by intros []).
      rewrite (Hput h1 s1) by done. rewrite Ret_bind.
      destruct (skynet_socket_start fd w) as [w1| | |]; try done. rewrite !Ret_bind.
      unfold handshake. rewrite Hg, Ret_bind. cbn [s_fd set_fd].
      change (hb_id (with_slave h1 id (set_fd fd s1))) with (hb_id h). fold (handshake_bytes h).
      destruct (skynet_socket_send fd _ w1) as [w2| | |]; try done. rewrite !Ret_bind.
      rewrite (Hput _ (set_fd fd s1)), Ret_bind by apply Hg. rewrite with_slave_twice.
      rewrite (dispatch_queue_spec _ id (set_status STATUS_HEADER (set_fd fd s1)) (addressed 0 <$> ps)).
      * cbn [s_fd set_status set_fd]. destruct (each _ _ w2); try done.
      * lia.
      * eapply get_idx_Ret. apply Hg.
      * done.
      * by split.
Qed.
End names.

(** ** A closed harbor

    [close_harbor] keeps the number of the socket it closes, and both places that
    drop a message for a closed harbor ask for a slave without socket: they are
    dead code, and messages for a closed harbor go to its closed socket. *)
Section down.
Context {W : Type} `{!ServiceApi W}.

(** a slave without socket has never had one *)
Definition slave_ok (s : slave) : Prop := s_fd s = 0 → s_status s = STATUS_WAIT.
Definition slaves_ok (h : harbor) : Prop := Forall slave_ok (hb_s h).

Lemma slaves_get h id s : slaves_ok h → get_idx (hb_s h) id = Ret s → slave_ok s.
Proof. intros Hok [_ Hs]%get_idx_Ret. by eapply Forall_lookup_1. Qed.

Lemma slaves_put h id s h' : slaves_ok h → slave_ok s → put_slave h id s = Ret h' → slaves_ok h'.
Proof.
  intros Hok Hs E. unfold put_slave in E. apply bind_Ret in E as (l & El & E).
  apply set_idx_Ret in El as [_ ->]. injection E as <-. by apply Forall_insert.
Qed.

Lemma fd_ok s : s_fd s ≠ 0 → slave_ok s.
Proof. intros H E. by destruct (H E). Qed.

Ltac split_pairs := repeat match goal with p : _ * _ |- _ => destruct p end.

(** an operation that keeps the slaves well-formed *)
Definition keeps (h : harbor) (o : outcome (harbor * W)) : Prop :=
  slaves_ok h → ∀ h' w', o = Ret (h', w') → slaves_ok h'.

Lemma close_keeps h id w : (∀ s, get_idx (hb_s h) id = Ret s → s_fd s ≠ 0) → keeps h (close_harbor h id w).
Proof.
  intros Hfd Hok h' w' E. unfold close_harbor in E. apply bind_Ret in E as (s & Es & E).
  specialize (Hfd s Es). inv_out. eapply slaves_put; [exact Hok| |eassumption]. by apply fd_ok.
Qed.

Lemma dispatch_queue_keeps h id w : keeps h (dispatch_queue h id w).
Proof.
  intros Hok h' w' E. unfold dispatch_queue in E. apply bind_Ret in E as (s & Es & E).
  pose proof (slaves_get _ _ _ Hok Es) as Hs. destruct (s_queue s); inv_out; [|done].
  split_pairs. inv_out.
  eapply slaves_put; [exact Hok| |eassumption]. exact Hs.
Qed.

Lemma content_keeps loop h id s buffer w : s_fd s ≠ 0 → (∀ h b w, keeps h (loop h b w)) →
  keeps h (content_step loop h id s buffer w).
Proof.
  intros Hfd Hloop Hok h' w' E. unfold content_step in E. case_bool_decide; inv_out.
  - eapply slaves_put; [exact Hok| |eassumption]. by apply fd_ok.
  - match goal with H : put_slave _ _ _ = Ret _ |- _ => apply slaves_put in H; [|done|by apply fd_ok] end.
    case_bool_decide; inv_out; [done|]. by eapply Hloop.
Qed.

Lemma header_keeps loop h id s buffer w : s_fd s ≠ 0 → (∀ h b w, keeps h (loop h b w)) →
  keeps h (header_step loop h id s buffer w).
Proof.
  intros Hfd Hloop Hok h' w' E. unfold header_step in E. case_bool_decide; inv_out.
  - eapply slaves_put; [exact Hok| |eassumption]. by apply fd_ok.
  - case_bool_decide; inv_out.
    + match goal with H : put_slave _ _ _ = Ret _ |- _ =>
        pose proof H as Hput; apply slaves_put in H; [|done|by apply fd_ok] end.
      eapply close_keeps; [|eassumption|eassumption]. intros s1 Hs1.
      unfold put_slave in Hput. inv_out.
      cbn in *. rewrite list_lookup_insert_eq in * by (unfold Zlen in *; lia). by simplify_eq.
    + case_bool_decide; inv_out.
      * eapply slaves_put; [exact Hok| |eassumption]. by apply fd_ok.
      * eapply content_keeps; [|exact Hloop|exact Hok|eassumption]. done.
Qed.

Lemma active_fd s st : slave_ok s → s_status s = st → st ≠ STATUS_WAIT → s_fd s ≠ 0.
Proof. intros Hok <- Hst E. apply Hst. by apply Hok. Qed.

Lemma put_slave_get h id s h' s' : put_slave h id s = Ret h' → get_idx (hb_s h') id = Ret s' → s' = s.
Proof.
  intros Hp Hg. unfold put_slave in Hp. inv_out. unfold Zlen in *.
  rewrite list_lookup_insert_eq in * by lia. by simplify_eq.
Qed.

Lemma dispatch_queue_fd h id w h' w' s : dispatch_queue h id w = Ret (h', w') →
  get_idx (hb_s h') id = Ret s → s_fd s ≠ 0.
Proof.
  intros E Hs. unfold dispatch_queue in E. apply bind_Ret in E as (s0 & Es & E).
  apply bind_Ret in E as (u & Ec & E). apply cassert_Ret, bool_decide_eq_true in Ec.
  destruct (s_queue s0).
  - apply bind_Ret in E as ([q w1] & _ & E). apply bind_Ret in E as (w2 & _ & E).
    apply bind_Ret in E as (h1 & Ep & E). injection E as -> ->.
    by rewrite (put_slave_get _ _ _ _ _ Ep Hs).
  - injection E as -> ->. rewrite Es in Hs. by injection Hs as <-.
Qed.

Lemma loop_keeps fuel id fd h buffer w : keeps h (socket_loop fuel h id fd buffer w).
Proof.
  revert h buffer w. induction fuel as [|fuel IH]; intros h buffer w Hok h' w' E; [done|].
  cbn [socket_loop] in E. apply bind_Ret in E as (s & Es & E).
  pose proof (slaves_get _ _ _ Hok Es) as Hs. cbv zeta in E.
  case_bool_decide as H1; [|case_bool_decide as H2; [|case_bool_decide as H3]].
  - assert (s_fd s ≠ 0) as Hfd by by eapply active_fd.
    apply bind_Ret in E as (rid & _ & E). case_bool_decide.
    + apply bind_Ret in E as (w1 & _ & E). eapply close_keeps; [|exact Hok|exact E].
      intros s1 Hs1. rewrite Es in Hs1. by injection Hs1 as <-.
    + apply bind_Ret in E as (h1 & Ep & E). apply bind_Ret in E as ([h2 w2] & Ed & E).
      apply slaves_put in Ep; [|done|by apply fd_ok].
      pose proof (dispatch_queue_keeps _ _ _ Ep _ _ Ed) as Hok2. case_bool_decide; [by eapply IH|].
      apply bind_Ret in E as (s2 & Es2 & E). eapply header_keeps; [|exact IH|exact Hok2|exact E].
      by eapply dispatch_queue_fd.
  - eapply header_keeps; [|exact IH|exact Hok|exact E]. by eapply active_fd.
  - eapply content_keeps; [|exact IH|exact Hok|exact E]. by eapply active_fd.
  - by injection E as <- _.
Qed.

Lemma push_socket_data_keeps h m w : keeps h (push_socket_data h m w).
Proof.
  intros Hok h' w' E. unfold push_socket_data in E. apply bind_Ret in E as (u & _ & E).
  apply bind_Ret in E as (id & _ & E). case_bool_decide; [by inv_out|]. by eapply loop_keeps.
Qed.

Lemma dispatch_name_keeps h node queue w h' node' w' : slaves_ok h →
  dispatch_name_queue h node queue w = Ret (h', node', w') → slaves_ok h'.
Proof.
  intros Hok E. unfold dispatch_name_queue in E. apply bind_Ret in E as (s & Es & E).
  pose proof (slaves_get _ _ _ Hok Es) as Hs. case_bool_decide.
  - case_bool_decide.
    { apply bind_Ret in E as (w1 & _ & E). by injection E as <- _ _. }
    apply bind_Ret in E as ([sq rest] & _ & E). cbv zeta in E. case_bool_decide.
    + apply bind_Ret in E as ([q w1] & _ & E). apply bind_Ret in E as (w2 & _ & E).
      apply bind_Ret in E as (h1 & Ep & E). injection E as -> _ _.
      eapply slaves_put; [exact Hok| |exact Ep]. exact Hs.
    + apply bind_Ret in E as (h1 & Ep & E). injection E as -> _ _.
      eapply slaves_put; [exact Hok| |exact Ep]. exact Hs.
  - apply bind_Ret in E as ([q w1] & _ & E). by injection E as <- _ _.
Qed.

Lemma node_of_slaves h name node h' : node_of h name = Ret (node, h') → hb_s h' = hb_s h ∧ hb_id h' = hb_id h.
Proof.
  intros E. unfold node_of in E. apply bind_Ret in E as ([n|] & _ & E).
  - by injection E as _ <-.
  - apply bind_Ret in E as ([n map] & _ & E). by injection E as _ <-.
Qed.

Lemma put_node_slaves h name kv h' : put_node h name kv = Ret h' → hb_s h' = hb_s h.
Proof. intros E. unfold put_node in E. apply bind_Ret in E as (map & _ & E). by injection E as <-. Qed.

Lemma update_name_keeps h name handle w : keeps h (update_name h name handle w).
Proof.
  intros Hok h' w' E. unfold update_name in E. apply bind_Ret in E as ([node h1] & En & E).
  apply node_of_slaves in En as [Es _]. assert (slaves_ok h1) as Hok1 by (unfold slaves_ok; by rewrite Es).
  cbv zeta in E. destruct (kv_queue _).
  - apply bind_Ret in E as ([[h2 node2] w2] & Ed & E). apply dispatch_name_keeps in Ed; [|done].
    apply bind_Ret in E as (w3 & _ & E). apply bind_Ret in E as (h3 & Ep & E). injection E as -> _.
    apply put_node_slaves in Ep. unfold slaves_ok. by rewrite Ep.
  - apply bind_Ret in E as (h3 & Ep & E). injection E as -> _. apply put_node_slaves in Ep.
    unfold slaves_ok. by rewrite Ep.
Qed.

Lemma remote_handle_keeps h source destination type session msg w r h' w' : slaves_ok h →
  remote_send_handle h source destination type session msg w = Ret (r, h', w') → slaves_ok h'.
Proof.
  intros Hok E. unfold remote_send_handle in E. case_bool_decide.
  { apply bind_Ret in E as ([a b] & _ & E). by injection E as _ <- _. }
  apply bind_Ret in E as (s & Es & E). pose proof (slaves_get _ _ _ Hok Es) as Hs. cbv zeta in E.
  case_bool_decide; [case_bool_decide|].
  - apply bind_Ret in E as ([a b] & _ & E). apply bind_Ret in E as (w1 & _ & E). by injection E as _ <- _.
  - apply bind_Ret in E as (q & _ & E). apply bind_Ret in E as (h1 & Ep & E). injection E as _ -> _.
    eapply slaves_put; [exact Hok| |exact Ep]. exact Hs.
  - apply bind_Ret in E as (w1 & _ & E). by injection E as _ <- _.
Qed.

Lemma remote_name_keeps h source name type session msg w r h' w' : slaves_ok h →
  remote_send_name h source name type session msg w = Ret (r, h', w') → slaves_ok h'.
Proof.
  intros Hok E. unfold remote_send_name in E. apply bind_Ret in E as ([node h1] & En & E).
  apply node_of_slaves in En as [Es _]. assert (slaves_ok h1) as Hok1 by (unfold slaves_ok; by rewrite Es).
  case_bool_decide; [|by eapply remote_handle_keeps].
  cbv zeta in E. apply bind_Ret in E as (q & _ & E). apply bind_Ret in E as (h2 & Ep & E).
  apply bind_Ret in E as ([a b] & _ & E). injection E as _ <- _. apply put_node_slaves in Ep.
  unfold slaves_ok. by rewrite Ep.
Qed.

Lemma connect_keeps accept h text w : keeps h (connect_command accept h text w).
Proof.
  intros Hok h' w' E. unfold connect_command in E. destruct (scan_fd_id text) as [fd id].
  case_bool_decide as Hf; [by inv_out|].
  assert (fd ≠ 0) as Hfd by (intros ->; apply Hf; by left).
  apply bind_Ret in E as (s & Es & E).
  case_bool_decide; [by inv_out|]. apply bind_Ret in E as (h1 & Ep & E).
  apply slaves_put in Ep; [|done|by apply fd_ok].
  apply bind_Ret in E as (w1 & _ & E). apply bind_Ret in E as (w2 & _ & E). destruct accept.
  - apply bind_Ret in E as (h2 & Ep2 & E). apply slaves_put in Ep2; [|done|by apply fd_ok].
    by eapply dispatch_queue_keeps.
  - apply bind_Ret in E as (h2 & Ep2 & E). apply slaves_put in Ep2; [|done|by apply fd_ok].
    by injection E as <- _.
Qed.

Lemma harbor_command_keeps h msg source w : keeps h (harbor_command h msg source w).
Proof.
  intros Hok h' w' E. unfold harbor_command in E. apply bind_Ret in E as (c & _ & E). cbv zeta in E.
  repeat case_bool_decide; try done; try (by inv_out).
  - by eapply update_name_keeps.
  - by eapply connect_keeps.
  - by eapply connect_keeps.
Qed.

Lemma mainloop_keeps h e w : keeps h (mainloop h e w).
Proof.
  intros Hok h' w' E. destruct e as [m|msg source|handle name type session source msg|type session source].
  - cbn [mainloop] in E. unfold socket_event in E. repeat case_bool_decide.
    + apply bind_Ret in E as ([h1 w1] & Ep & E). apply bind_Ret in E as (w2 & _ & E).
      injection E as -> _. by eapply push_socket_data_keeps.
    + inv_out. done.
    + by inv_out.
    + by inv_out.
    + by inv_out.
  - by eapply harbor_command_keeps.
  - cbn [mainloop] in E. apply bind_Ret in E as ([[r h1] w1] & Ep & E).
    assert (slaves_ok h1) as Hok1.
    { destruct (bool_decide (handle = 0)); [by eapply remote_name_keeps|by eapply remote_handle_keeps]. }
    case_bool_decide; [by inv_out|]. by inv_out.
  - cbn [mainloop] in E. apply bind_Ret in E as (w1 & _ & E). case_bool_decide; [|by inv_out].
    inv_out. split_pairs. by inv_out.
Qed.

(** the states of the service: created, initialised, and any input handled *)
Inductive reachable : harbor → Prop :=
  | r_create : reachable harbor_create
  | r_init h args w r h' w' : reachable h → harbor_init h args w = Ret (r, h', w') → reachable h'
  | r_step h e w h' w' : reachable h → mainloop h e w = Ret (h', w') → reachable h'.

Lemma reachable_ok h : reachable h → slaves_ok h.
Proof.
  induction 1 as [|h args w r h' w' _ Hok E|h e w h' w' _ Hok E].
  - apply Forall_replicate. by intros _.
  - unfold harbor_init in E. destruct (match scan_int args with None => _ | Some _ => _ end) as [id sl].
    case_bool_decide; [by inv_out|]. inv_out. exact Hok.
  - by eapply mainloop_keeps.
Qed.

(** The error for a message to a closed harbor is never sent: in no state the
    service can reach is a harbor closed and without socket, which is what the code
    asks for. A message for a closed harbor is written to the closed socket, and
    its source gets no error. *)
Theorem harbor_down_never_reported h id s : reachable h → 0 ≤ id →
  hb_s h !! Z.to_nat id = Some s → s_status s = STATUS_DOWN →
  s_fd s ≠ 0 ∧
  ∀ source destination type session msg w, Z.shiftr destination HANDLE_REMOTE_SHIFT = id → id ≠ hb_id h →
    remote_send_handle h source destination type session msg w =
    w ← send_remote (s_fd s) (bytes msg) (wire_header source destination type session) w; Ret (0, h, w).
Proof.
  intros Hr Hid Hs Hst.
  assert (slave_ok s) as Hok by (eapply Forall_lookup_1; [by apply reachable_ok|exact Hs]).
  assert (s_fd s ≠ 0) as Hfd by (by eapply active_fd). split; [done|].
  intros source destination type session msg w Hd Hne. unfold remote_send_handle. rewrite Hd.
  rewrite bool_decide_eq_false_2 by done. rewrite (proj2 (get_idx_Ret _ _ s)) by done.
  rewrite Ret_bind, Hst. by rewrite bool_decide_eq_false_2 by (intros [|]; done).
Qed.
End down.
