(* ===== verification/HarborWitness.v ===== *)
(** * Runs of the harbor service

    The core as a log of what the service asked for, and the theorems about the
    service at concrete harbors. *)
From S2P Require Import Prelude CLib Bytes CNum Handle DataBuffer ServiceApi Harbor.
From S2P Require Import HarborSpec HarborRoute HarborDown.
From Stdlib Require Import Ascii String.
#[local] Open Scope Z_scope.

Inductive event : Type :=
  | Sent (source destination type session : Z) (msg : list Z)
  | Wire (fd : Z) (msg : list Z)
  | Start (fd : Z)
  | Shut (fd : Z)
  | Freed (l : loc)
  | Said (text : string).

#[local] Instance log_api : ServiceApi (list event) := {
  skynet_send source destination type session msg w := Ret (0, w ++ [Sent source destination type session msg]);
  skynet_socket_close fd w := Ret (w ++ [Shut fd]);
  skynet_socket_start fd w := Ret (w ++ [Start fd]);
  skynet_socket_send fd msg w := Ret (w ++ [Wire fd msg]);
  skynet_socket_listen _ _ _ w := Ret (0, w);
  skynet_queryname _ w := Ret (0, w);
  skynet_error text w := Ret (w ++ [Said text]);
  skynet_free l w := Ret (w ++ [Freed l]);
  skynet_callback w := Ret w;
  skynet_harbor_start w := Ret w
}.

(** harbor 1, with harbor 2 on socket 7 *)
Definition connected (st : Z) : slave := Slave 7 None st 0 0 [0; 0; 0; 0] [].
Definition demo (s : slave) : harbor :=
  MkHarbor 1 0x01000005 hash_new (<[2%nat := s]> (replicate (Z.to_nat REMOTE_MAX) empty_slave)).

Lemma demo_slave s : hb_s (demo s) !! 2%nat = Some s.
Proof. vm_compute. reflexivity. Qed.

Lemma harbor_reassembles_witness :
  delivers (demo (connected STATUS_HEADER)) 2 (connected STATUS_HEADER)
    ([] ++ [0; 0; 0; 13; 65] ++ replicate 12 0 ++ [0; 0])
    (push_socket_data (demo (connected STATUS_HEADER))
       (SocketMessage SKYNET_SOCKET_TYPE_DATA 7 19 (Message 0 ([0; 0; 0; 13; 65] ++ replicate 12 0 ++ [0; 0])) [])).
Proof.
  apply (harbor_reassembles (demo (connected STATUS_HEADER)) 2 (connected STATUS_HEADER) []
    (SocketMessage SKYNET_SOCKET_TYPE_DATA 7 19 (Message 0 ([0; 0; 0; 13; 65] ++ replicate 12 0 ++ [0; 0])) [])).
  - reflexivity.
  - vm_compute. reflexivity.
  - lia.
  - apply demo_slave.
  - left. cbn. repeat split; lia.
  - constructor.
  - cbn. repeat constructor; lia.
Defined.

(** harbor 1 sends two bytes to harbor 2, which has six bytes of their frame *)
Definition sent_frame : list Z := [0; 0; 0; 14; 65; 66; 1; 0; 0; 9; 10; 0; 0; 7; 0; 0; 0; 3].
Definition receiver : harbor :=
  MkHarbor 2 0 hash_new (<[1%nat := Slave 9 None STATUS_CONTENT 14 2 [0; 0; 0; 14] [65; 66]]> (replicate (Z.to_nat REMOTE_MAX) empty_slave)).

Lemma harbor_roundtrip_witness :
  (∀ w, remote_send_handle (demo (connected STATUS_HEADER)) 0x01000009 0x02000007 10 3 (Message 0 [65; 66]) w =
        w ← skynet_socket_send 7 sent_frame w; Ret (0, demo (connected STATUS_HEADER), w)) ∧
  ∃ r', ∀ w, push_socket_data receiver (SocketMessage SKYNET_SOCKET_TYPE_DATA 9 12 (Message 0 (drop 6 sent_frame)) []) w =
    w ← deliver_local 0x01000009 0x02000007 10 3 [65; 66] w; Ret (with_slave receiver 1 r', w).
Proof.
  destruct (harbor_roundtrip (demo (connected STATUS_HEADER)) receiver (connected STATUS_HEADER)
    0x01000009 0x02000007 10 3 (Message 0 [65; 66])) as (H1 & H2 & _); [unfold word32; done..|].
  split; [exact (H1 ltac:(discriminate))|].
  destruct (H2 eq_refl 1 (Slave 9 None STATUS_CONTENT 14 2 [0; 0; 0; 14] [65; 66]) (take 6 sent_frame)
    (SocketMessage SKYNET_SOCKET_TYPE_DATA 9 12 (Message 0 (drop 6 sent_frame)) [])) as (r' & _ & _ & E).
  - split; [reflexivity|]. split; [vm_compute; reflexivity|]. split; [reflexivity|]. split; [vm_compute; reflexivity|].
    split; [|split; apply (bool_decide_unpack _); vm_compute; exact I].
    right. split; [reflexivity|]. exists 0, 0, 14. repeat split. discriminate.
  - reflexivity.
  - exists r'. exact E.
Defined.

Lemma harbor_waits_then_flushes_witness : ∃ q,
  hq_repr q [HarborMsg (wire_header 0x01000009 0x02000007 10 3) (Message 0 [65; 66])] ∧
  ∀ w, remote_send_handle (demo empty_slave) 0x01000009 0x02000007 10 3 (Message 0 [65; 66]) w =
       Ret (1, with_slave (demo empty_slave) 2 (set_queue (Some q) empty_slave), w).
Proof.
  destruct (harbor_waits_then_flushes (demo empty_slave) 2 empty_slave []) as [H _];
    [done|apply demo_slave|done|done|].
  apply (H 0x01000009 0x02000007 10 3 (Message 0 [65; 66])); [done|by left|done].
Defined.

(** a message sent to a name, the name registered, then the harbor accepted *)
Definition late_name : list harbor_input :=
  [HRemote 0 (text_bytes "foo" ++ replicate 13 0) 10 3 0x01000009 (Message 5 [65; 66]);
   HCommand (text_bytes "N foo") 0x02000007;
   HCommand (text_bytes "A 7 2") 0x01000005].
Fixpoint run (h : harbor) (l : list harbor_input) (w : list event) : outcome (list event) :=
  match l with [] => Ret w | e :: l => '(h, w) ← mainloop h e w; run h l w end.

Example late_name_run : run (demo empty_slave) late_name [] =
  Ret [Sent 0 0x01000005 PTYPE_TEXT 0 (text_bytes "Q foo"); Start 7; Wire 7 [1];
       Wire 7 ([0; 0; 0; 14; 65; 66] ++ [1; 0; 0; 9] ++ [10; 0; 0; 0] ++ [0; 0; 0; 3]); Freed 5].
Proof. vm_compute. reflexivity. Qed.
(** the same with the harbor accepted first *)
Example early_name_run :
  run (demo empty_slave) (match late_name with [a; b; c] => [c; a; b] | l => l end) [] =
  Ret [Start 7; Wire 7 [1]; Sent 0 0x01000005 PTYPE_TEXT 0 (text_bytes "Q foo");
       Wire 7 ([0; 0; 0; 14; 65; 66] ++ [1; 0; 0; 9] ++ [10; 0; 0; 7] ++ [0; 0; 0; 3]); Freed 5].
Proof. vm_compute. reflexivity. Qed.

Lemma harbor_name_loses_handle_witness : ∃ q h',
  hq_repr q [addressed 0 (0x01000009, 10, 3, Message 5 [65; 66])] ∧
  (∀ w, dispatch_name_queue (demo empty_slave) (Keyvalue [102] 0 0x02000007 None) q w =
        Ret (h', Keyvalue [102] 0 0x02000007 None, w)) ∧
  ∀ w, ∃ h'', connect_command true h' "7 2" w =
         w ← skynet_socket_start 7 w; w ← skynet_socket_send 7 [1] w;
         w ← each (send_queued 7) [addressed 0 (0x01000009, 10, 3, Message 5 [65; 66])] w; Ret (h'', w).
Proof.
  destruct (push_queue_msg_spec new_queue [] (addressed 0 (0x01000009, 10, 3, Message 5 [65; 66]))
    new_queue_repr) as (q & E & HR); [done|].
  assert (hq_size q = 1024) as Hsz by (injection E as <-; reflexivity).
  destruct (harbor_name_loses_handle (demo empty_slave) (Keyvalue [102] 0 0x02000007 None) q
    [(0x01000009, 10, 3, Message 5 [65; 66])] empty_slave) as (_ & _ & H); [exact HR| |done|apply demo_slave|].
  { rewrite Hsz. done. }
  destruct H as (h' & E1 & E2); [done|done|done|done|done|].
  exists q, h'. split; [exact HR|]. split; [exact E1|]. intros w. apply E2; [reflexivity|done].
Defined.

(** harbor 2 is accepted and sends a length that does not fit *)
Definition next (o : outcome (harbor * list event)) : harbor :=
  match o with Ret (h, _) => h | _ => harbor_create end.
Definition started : harbor := match harbor_init harbor_create "1 16777221" [] with Ret (_, h, _) => h | _ => harbor_create end.
Definition accepted : harbor := next (mainloop started (HCommand (text_bytes "A 7 2") 0x01000005) []).
Definition closing : harbor_input :=
  HSocket (SocketMessage SKYNET_SOCKET_TYPE_DATA 7 4 (Message 5 [1; 0; 0; 0]) []).
Definition closed : harbor := next (mainloop accepted closing []).

Lemma closed_reachable : reachable closed.
Proof.
  apply (r_step accepted closing [] _ [Said "Message is too long from harbor 2"; Shut 7; Freed 5]);
    [|vm_compute; reflexivity].
  apply (r_step started (HCommand (text_bytes "A 7 2") 0x01000005) [] _ [Start 7; Wire 7 [1]]);
    [|vm_compute; reflexivity].
  apply (r_init harbor_create "1 16777221" [] 0 _ []); [constructor|vm_compute; reflexivity].
Qed.

Lemma harbor_down_never_reported_witness :
  s_fd (connected STATUS_DOWN) ≠ 0 ∧
  ∀ source destination type session msg w,
    Z.shiftr destination HANDLE_REMOTE_SHIFT = 2 → 2 ≠ hb_id closed →
    remote_send_handle closed source destination type session msg w =
    w ← send_remote 7 (bytes msg) (wire_header source destination type session) w; Ret (0, closed, w).
Proof.
  destruct (harbor_down_never_reported closed 2 (Slave 7 None STATUS_DOWN 0 0 [1; 0; 0; 0] [])) as [H1 H2];
    [apply closed_reachable|done|vm_compute; reflexivity|reflexivity|].
  split; [exact H1|exact H2].
Defined.
