(* ===== verification/SocketKernel.v ===== *)
(** * What the socket server asks of the system

    The calls of skynet-src/socket_server.c and skynet-src/socket_epoll.h to the
    kernel, the resolver, the allocator and the user objects, as a class over the
    state [W] of all of them, and the laws the theorems rely on. The numbers are
    those of Linux. *)
From S2P Require Import Prelude CLib CNum.
From Stdlib Require Import Ascii String.
#[local] Open Scope Z_scope.

Definition EINTR : Z := 4.
Definition EAGAIN : Z := 11.
Definition ENFILE : Z := 23.
Definition EMFILE : Z := 24.
Definition EINPROGRESS : Z := 115.
Definition AF_UNSPEC : Z := 0.
Definition AF_INET : Z := 2.
Definition AF_INET6 : Z := 10.
Definition SOCK_STREAM : Z := 1.
Definition SOCK_DGRAM : Z := 2.
Definition IPPROTO_TCP : Z := 6.
Definition IPPROTO_UDP : Z := 17.
Definition SOL_SOCKET : Z := 1.
Definition SO_REUSEADDR : Z := 2.
Definition SO_KEEPALIVE : Z := 9.
Definition TCP_NODELAY : Z := 1.
Definition EPOLLIN : Z := 1.
Definition EPOLLOUT : Z := 4.
Definition EPOLLERR : Z := 8.
Definition EPOLLHUP : Z := 16.

(** a result, or -1 with [errno] *)
Inductive io (A : Type) : Type := Ok (a : A) | Err (errno : Z).
Arguments Ok {A} a.
Arguments Err {A} errno.

(** a [sockaddr_in] or [sockaddr_in6]: port and address as bytes in network order *)
Record sockaddr : Type := Sockaddr { sa_family : Z; sa_port : list Z; sa_addr : list Z }.

Record addrinfo : Type := Addrinfo { ai_family : Z; ai_addr : sockaddr }.

Inductive epoll_op : Type := EPOLL_CTL_ADD | EPOLL_CTL_MOD | EPOLL_CTL_DEL.

Class Kernel (W : Type) : Type := {
  k_write : Z → list Z → W → io Z * W;
  k_read : Z → Z → W → io (list Z) * W;
  k_sendto : Z → list Z → sockaddr → W → io Z * W;
  k_recvfrom : Z → Z → W → io (list Z * sockaddr) * W;
  k_close : Z → W → W;
  k_epoll_create : W → io Z * W;
  (** the reading and the writing end *)
  k_pipe : W → io (Z * Z) * W;
  k_socket : Z → Z → Z → W → io Z * W;
  k_connect : Z → sockaddr → W → io unit * W;
  k_bind : Z → sockaddr → W → io unit * W;
  k_listen : Z → Z → W → io unit * W;
  k_accept : Z → W → io (Z * sockaddr) * W;
  k_setsockopt : Z → Z → Z → Z → W → io unit * W;
  k_so_error : Z → W → io Z * W;
  k_getpeername : Z → W → option sockaddr * W;
  k_getsockname : Z → W → option sockaddr * W;
  k_nonblocking : Z → W → W;
  (** the descriptor, the events and the socket they are reported with; false: failed *)
  k_epoll_ctl : epoll_op → Z → Z → Z → option Z → W → bool * W;
  k_epoll_wait : Z → Z → W → io (list (option Z * Z)) * W;
  (** host, port, socket type and protocol: the status if not 0 *)
  k_getaddrinfo : string → string → Z → Z → W → io (list addrinfo) * W;
  k_errno : W → Z;
  k_strerror : Z → string;
  k_gai_strerror : Z → string;
  k_inet_ntop : sockaddr → option string;
  k_stderr : string → W → W;
  (** how many more calls a signal can interrupt *)
  k_signals : W → nat;
  (** [skynet_malloc] and [skynet_free] *)
  k_malloc : Z → W → loc * W;
  k_free : loc → W → W;
  (** the interface of the user objects: where the bytes of an object are, the
      bytes, and its release *)
  soi_buffer : loc → loc;
  soi_bytes : loc → list Z;
  soi_free : loc → W → W
}.

(** ** skynet-src/socket_epoll.h *)
Record event : Type := Event { e_s : option Z; e_read : bool; e_write : bool; e_error : bool; e_eof : bool }.

Section epoll.
Context {W : Type} `{!Kernel W}.

Definition sp_create (w : W) : io Z * W := k_epoll_create w.
Definition sp_release (efd : Z) (w : W) : W := k_close efd w.

(** true: the call failed *)
Definition sp_add (efd sock : Z) (ud : option Z) (w : W) : bool * W :=
  let '(ok, w) := k_epoll_ctl EPOLL_CTL_ADD efd sock EPOLLIN ud w in (negb ok, w).
Definition sp_del (efd sock : Z) (w : W) : W := (k_epoll_ctl EPOLL_CTL_DEL efd sock 0 None w).2.
Definition sp_write (efd sock : Z) (ud : option Z) (enable : bool) (w : W) : W :=
  (k_epoll_ctl EPOLL_CTL_MOD efd sock (Z.lor EPOLLIN (if enable then EPOLLOUT else 0)) ud w).2.

Definition has_flag (flag f : Z) : bool := bool_decide (Z.land flag f ≠ 0).
Definition sp_event (e : option Z * Z) : event :=
  Event e.1 (has_flag e.2 (Z.lor EPOLLIN EPOLLHUP)) (has_flag e.2 EPOLLOUT) (has_flag e.2 EPOLLERR) false.
Definition sp_wait (efd max : Z) (w : W) : io (list event) * W :=
  let '(r, w) := k_epoll_wait efd max w in
  (match r with Ok l => Ok (sp_event <$> l) | Err e => Err e end, w).
End epoll.

(** ** What the theorems rely on

    [wire w fd] is what was written to the descriptor so far. A write takes a
    prefix of its bytes or fails, and only finitely many calls are interrupted;
    the other calls write nothing. *)
Class KernelLaws (W : Type) `{!Kernel W} : Type := {
  wire : W → Z → list Z;
  write_ok fd bs w n w' : k_write fd bs w = (Ok n, w') →
    0 ≤ n ≤ Zlen bs ∧ wire w' fd = wire w fd ++ take (Z.to_nat n) bs ∧ ∀ fd', fd' ≠ fd → wire w' fd' = wire w fd';
  write_err fd bs w e w' : k_write fd bs w = (Err e, w') → wire w' = wire w;
  write_signals fd bs w r w' : k_write fd bs w = (r, w') → (k_signals w' ≤ k_signals w)%nat;
  write_interrupted fd bs w w' : k_write fd bs w = (Err EINTR, w') → (k_signals w' < k_signals w)%nat;
  close_wire fd w : wire (k_close fd w) = wire w;
  free_wire l w : wire (k_free l w) = wire w;
  soi_free_wire l w : wire (soi_free l w) = wire w;
  malloc_wire n w : wire (k_malloc n w).2 = wire w;
  epoll_ctl_wire op efd fd ev ud w : wire (k_epoll_ctl op efd fd ev ud w).2 = wire w;
  stderr_wire text w : wire (k_stderr text w) = wire w
}.
