(* ===== verification/SocketData.v ===== *)
(** * The state of the socket server: skynet-src/socket_server.c

    Sockets, their write buffers, the requests in the command pipe, and the
    functions on one socket the rest is built from. A pointer into [slot] is its
    index; a list of write buffers ends at its [tail]; the union [p] is the
    alternative stored last. *)
From S2P Require Import Prelude CLib CNum SocketKernel.
From Stdlib Require Import Ascii String.
#[local] Open Scope Z_scope.

Definition MAX_INFO : Z := 128.
Definition MAX_SOCKET_P : Z := 16.
Definition MAX_EVENT : Z := 64.
Definition MIN_READ_BUFFER : Z := 64.
Definition SOCKET_TYPE_INVALID : Z := 0.
Definition SOCKET_TYPE_RESERVE : Z := 1.
Definition SOCKET_TYPE_PLISTEN : Z := 2.
Definition SOCKET_TYPE_LISTEN : Z := 3.
Definition SOCKET_TYPE_CONNECTING : Z := 4.
Definition SOCKET_TYPE_CONNECTED : Z := 5.
Definition SOCKET_TYPE_HALFCLOSE : Z := 6.
Definition SOCKET_TYPE_PACCEPT : Z := 7.
Definition SOCKET_TYPE_BIND : Z := 8.
Definition MAX_SOCKET : Z := Z.shiftl 1 MAX_SOCKET_P.
Definition READING_PAUSE : Z := 0.
Definition READING_RESUME : Z := 1.
Definition READING_CLOSE : Z := 2.
Definition HASH_ID (id : Z) : Z := u32 id mod MAX_SOCKET.
Definition ID_TAG16 (id : Z) : Z := Z.land (Z.shiftr id MAX_SOCKET_P) 0xffff.
Definition PROTOCOL_TCP : Z := 0.
Definition PROTOCOL_UDP : Z := 1.
Definition PROTOCOL_UDPv6 : Z := 2.
Definition PROTOCOL_UNKNOWN : Z := 255.
Definition UDP_ADDRESS_SIZE : Z := 19.
Definition MAX_UDP_PACKAGE : Z := 65535.
Definition WARNING_SIZE : Z := 1024 * 1024.
Inductive priority : Type := PRIORITY_HIGH | PRIORITY_LOW.

Definition SOCKET_DATA : Z := 0.
Definition SOCKET_CLOSE : Z := 1.
Definition SOCKET_OPEN : Z := 2.
Definition SOCKET_ACCEPT : Z := 3.
Definition SOCKET_ERR : Z := 4.
Definition SOCKET_EXIT : Z := 5.
Definition SOCKET_UDP : Z := 6.
Definition SOCKET_WARNING : Z := 7.

(** a buffer and its size; the size [USEROBJECT] stands for an object *)
Inductive payload : Type := Memory (buffer : loc) (bytes : list Z) | Object (buffer : loc).
Definition p_buffer (b : payload) : loc := match b with Memory l _ | Object l => l end.

(** the data of a message: nothing, a text of the system, or a buffer *)
Inductive message_data : Type := Null | Text (s : string) | Buffer (l : loc) (bytes : list Z).
Record socket_message : Type := SocketMessage { r_id : Z; r_opaque : Z; r_ud : Z; r_data : message_data }.

(** [struct socket_sendbuffer] *)
Inductive sendbuffer : Type :=
  | SOCKET_BUFFER_MEMORY (buffer : loc) (bytes : list Z)
  | SOCKET_BUFFER_OBJECT (buffer : loc)
  | SOCKET_BUFFER_RAWPOINTER (buffer : loc) (bytes : list Z).

(** [wb_data]: the [sz] bytes from [ptr] on *)
Record write_buffer : Type := WriteBuffer {
  wb_buffer : loc;
  wb_ptr : loc;
  wb_data : list Z;
  wb_userobject : bool;
  wb_udp_address : list Z
}.

Record socket_stat : Type := SocketStat { st_rtime : Z; st_wtime : Z; st_read : Z; st_write : Z }.

Inductive punion : Type := PSize (size : Z) | PAddress (udp_address : list Z).

Record socket : Type := Socket {
  s_opaque : Z;
  s_high : list write_buffer;
  s_low : list write_buffer;
  s_wb_size : Z;
  s_stat : socket_stat;
  s_sending : Z;
  s_fd : Z;
  s_id : Z;
  s_protocol : Z;
  s_type : Z;
  s_reading : Z;
  s_udpconnecting : Z;
  s_warn_size : Z;
  s_p : punion;
  s_dw_lock : bool;
  s_dw_offset : Z;
  s_dw_buffer : option payload
}.
Definition set_opaque v s := Socket v (s_high s) (s_low s) (s_wb_size s) (s_stat s) (s_sending s) (s_fd s) (s_id s) (s_protocol s) (s_type s) (s_reading s) (s_udpconnecting s) (s_warn_size s) (s_p s) (s_dw_lock s) (s_dw_offset s) (s_dw_buffer s).
Definition set_high v s := Socket (s_opaque s) v (s_low s) (s_wb_size s) (s_stat s) (s_sending s) (s_fd s) (s_id s) (s_protocol s) (s_type s) (s_reading s) (s_udpconnecting s) (s_warn_size s) (s_p s) (s_dw_lock s) (s_dw_offset s) (s_dw_buffer s).
Definition set_low v s := Socket (s_opaque s) (s_high s) v (s_wb_size s) (s_stat s) (s_sending s) (s_fd s) (s_id s) (s_protocol s) (s_type s) (s_reading s) (s_udpconnecting s) (s_warn_size s) (s_p s) (s_dw_lock s) (s_dw_offset s) (s_dw_buffer s).
Definition set_wb_size v s := Socket (s_opaque s) (s_high s) (s_low s) v (s_stat s) (s_sending s) (s_fd s) (s_id s) (s_protocol s) (s_type s) (s_reading s) (s_udpconnecting s) (s_warn_size s) (s_p s) (s_dw_lock s) (s_dw_offset s) (s_dw_buffer s).
Definition set_stat v s := Socket (s_opaque s) (s_high s) (s_low s) (s_wb_size s) v (s_sending s) (s_fd s) (s_id s) (s_protocol s) (s_type s) (s_reading s) (s_udpconnecting s) (s_warn_size s) (s_p s) (s_dw_lock s) (s_dw_offset s) (s_dw_buffer s).
Definition set_sending v s := Socket (s_opaque s) (s_high s) (s_low s) (s_wb_size s) (s_stat s) v (s_fd s) (s_id s) (s_protocol s) (s_type s) (s_reading s) (s_udpconnecting s) (s_warn_size s) (s_p s) (s_dw_lock s) (s_dw_offset s) (s_dw_buffer s).
Definition set_fd v s := Socket (s_opaque s) (s_high s) (s_low s) (s_wb_size s) (s_stat s) (s_sending s) v (s_id s) (s_protocol s) (s_type s) (s_reading s) (s_udpconnecting s) (s_warn_size s) (s_p s) (s_dw_lock s) (s_dw_offset s) (s_dw_buffer s).
Definition set_id v s := Socket (s_opaque s) (s_high s) (s_low s) (s_wb_size s) (s_stat s) (s_sending s) (s_fd s) v (s_protocol s) (s_type s) (s_reading s) (s_udpconnecting s) (s_warn_size s) (s_p s) (s_dw_lock s) (s_dw_offset s) (s_dw_buffer s).
Definition set_protocol v s := Socket (s_opaque s) (s_high s) (s_low s) (s_wb_size s) (s_stat s) (s_sending s) (s_fd s) (s_id s) v (s_type s) (s_reading s) (s_udpconnecting s) (s_warn_size s) (s_p s) (s_dw_lock s) (s_dw_offset s) (s_dw_buffer s).
Definition set_type v s := Socket (s_opaque s) (s_high s) (s_low s) (s_wb_size s) (s_stat s) (s_sending s) (s_fd s) (s_id s) (s_protocol s) v (s_reading s) (s_udpconnecting s) (s_warn_size s) (s_p s) (s_dw_lock s) (s_dw_offset s) (s_dw_buffer s).
Definition set_reading v s := Socket (s_opaque s) (s_high s) (s_low s) (s_wb_size s) (s_stat s) (s_sending s) (s_fd s) (s_id s) (s_protocol s) (s_type s) v (s_udpconnecting s) (s_warn_size s) (s_p s) (s_dw_lock s) (s_dw_offset s) (s_dw_buffer s).
Definition set_udpconnecting v s := Socket (s_opaque s) (s_high s) (s_low s) (s_wb_size s) (s_stat s) (s_sending s) (s_fd s) (s_id s) (s_protocol s) (s_type s) (s_reading s) v (s_warn_size s) (s_p s) (s_dw_lock s) (s_dw_offset s) (s_dw_buffer s).
Definition set_warn_size v s := Socket (s_opaque s) (s_high s) (s_low s) (s_wb_size s) (s_stat s) (s_sending s) (s_fd s) (s_id s) (s_protocol s) (s_type s) (s_reading s) (s_udpconnecting s) v (s_p s) (s_dw_lock s) (s_dw_offset s) (s_dw_buffer s).
Definition set_p v s := Socket (s_opaque s) (s_high s) (s_low s) (s_wb_size s) (s_stat s) (s_sending s) (s_fd s) (s_id s) (s_protocol s) (s_type s) (s_reading s) (s_udpconnecting s) (s_warn_size s) v (s_dw_lock s) (s_dw_offset s) (s_dw_buffer s).
Definition set_dw_lock v s := Socket (s_opaque s) (s_high s) (s_low s) (s_wb_size s) (s_stat s) (s_sending s) (s_fd s) (s_id s) (s_protocol s) (s_type s) (s_reading s) (s_udpconnecting s) (s_warn_size s) (s_p s) v (s_dw_offset s) (s_dw_buffer s).
Definition set_dw_offset v s := Socket (s_opaque s) (s_high s) (s_low s) (s_wb_size s) (s_stat s) (s_sending s) (s_fd s) (s_id s) (s_protocol s) (s_type s) (s_reading s) (s_udpconnecting s) (s_warn_size s) (s_p s) (s_dw_lock s) v (s_dw_buffer s).
Definition set_dw_buffer v s := Socket (s_opaque s) (s_high s) (s_low s) (s_wb_size s) (s_stat s) (s_sending s) (s_fd s) (s_id s) (s_protocol s) (s_type s) (s_reading s) (s_udpconnecting s) (s_warn_size s) (s_p s) (s_dw_lock s) (s_dw_offset s) v.

Definition empty_socket : socket :=
  Socket 0 [] [] 0 (SocketStat 0 0 0 0) 0 0 0 0 SOCKET_TYPE_INVALID READING_PAUSE 0 0 (PSize 0) false 0 None.

(** ** Requests in the command pipe *)
Inductive request : Type :=
  | ROpen (id port opaque : Z) (host : string)
  | RSend (p : priority) (id : Z) (data : payload)
  | RSendUdp (id : Z) (data : payload) (address : list Z)
  | RSetUdp (id : Z) (address : list Z)
  | RClose (id : Z) (shutdown : bool) (opaque : Z)
  | RListen (id fd opaque : Z)
  | RBind (id fd opaque : Z)
  | RResume (id opaque : Z)
  | RPause (id opaque : Z)
  | RSetopt (id what value : Z)
  | RUdp (id fd family opaque : Z)
  | RExit.

(** [pipe]: the requests between [sendctrl_fd] and [recvctrl_fd] *)
Record socket_server : Type := SocketServer {
  ss_time : Z;
  ss_recvctrl_fd : Z;
  ss_sendctrl_fd : Z;
  ss_checkctrl : bool;
  ss_event_fd : Z;
  ss_alloc_id : Z;
  ss_event_n : Z;
  ss_event_index : Z;
  ss_ev : list event;
  ss_slot : list socket;
  ss_pipe : list request
}.
Definition ss_set_time v ss := SocketServer v (ss_recvctrl_fd ss) (ss_sendctrl_fd ss) (ss_checkctrl ss) (ss_event_fd ss) (ss_alloc_id ss) (ss_event_n ss) (ss_event_index ss) (ss_ev ss) (ss_slot ss) (ss_pipe ss).
Definition ss_set_checkctrl v ss := SocketServer (ss_time ss) (ss_recvctrl_fd ss) (ss_sendctrl_fd ss) v (ss_event_fd ss) (ss_alloc_id ss) (ss_event_n ss) (ss_event_index ss) (ss_ev ss) (ss_slot ss) (ss_pipe ss).
Definition ss_set_alloc_id v ss := SocketServer (ss_time ss) (ss_recvctrl_fd ss) (ss_sendctrl_fd ss) (ss_checkctrl ss) (ss_event_fd ss) v (ss_event_n ss) (ss_event_index ss) (ss_ev ss) (ss_slot ss) (ss_pipe ss).
Definition ss_set_event_n v ss := SocketServer (ss_time ss) (ss_recvctrl_fd ss) (ss_sendctrl_fd ss) (ss_checkctrl ss) (ss_event_fd ss) (ss_alloc_id ss) v (ss_event_index ss) (ss_ev ss) (ss_slot ss) (ss_pipe ss).
Definition ss_set_event_index v ss := SocketServer (ss_time ss) (ss_recvctrl_fd ss) (ss_sendctrl_fd ss) (ss_checkctrl ss) (ss_event_fd ss) (ss_alloc_id ss) (ss_event_n ss) v (ss_ev ss) (ss_slot ss) (ss_pipe ss).
Definition ss_set_ev v ss := SocketServer (ss_time ss) (ss_recvctrl_fd ss) (ss_sendctrl_fd ss) (ss_checkctrl ss) (ss_event_fd ss) (ss_alloc_id ss) (ss_event_n ss) (ss_event_index ss) v (ss_slot ss) (ss_pipe ss).
Definition ss_set_slot v ss := SocketServer (ss_time ss) (ss_recvctrl_fd ss) (ss_sendctrl_fd ss) (ss_checkctrl ss) (ss_event_fd ss) (ss_alloc_id ss) (ss_event_n ss) (ss_event_index ss) (ss_ev ss) v (ss_pipe ss).
Definition ss_set_pipe v ss := SocketServer (ss_time ss) (ss_recvctrl_fd ss) (ss_sendctrl_fd ss) (ss_checkctrl ss) (ss_event_fd ss) (ss_alloc_id ss) (ss_event_n ss) (ss_event_index ss) (ss_ev ss) (ss_slot ss) v.

Definition put_socket (ss : socket_server) (i : Z) (s : socket) : outcome socket_server :=
  l ← set_idx (ss_slot ss) i s; Ret (ss_set_slot l ss).
Definition get_socket (ss : socket_server) (i : Z) : outcome socket := get_idx (ss_slot ss) i.
