(* ===== verification/SocketWrite.v ===== *)
(** * Writing and closing one socket: skynet-src/socket_server.c

    The lock of a socket, its write buffers, and the socket thread's way to send
    them. A function that returns a type and fills a message returns both
    together; [None] is the type -1. *)
From S2P Require Import Prelude CLib CNum SocketKernel SocketData.
From Stdlib Require Import Ascii String.
#[local] Open Scope Z_scope.

(** ** The lock: [n] is the count of [struct socket_lock] *)
Definition spinlock_lock (s : socket) : outcome socket := if s_dw_lock s then NoFuel else Ret (set_dw_lock true s).
Definition spinlock_unlock (s : socket) : socket := set_dw_lock false s.
Definition socket_lock (s : socket) (n : Z) : outcome (socket * Z) :=
  s ← (if bool_decide (n = 0) then spinlock_lock s else Ret s); Ret (s, n + 1).
Definition socket_trylock (s : socket) (n : Z) : bool * socket * Z :=
  if bool_decide (n = 0) then
    if s_dw_lock s then (false, s, n) else (true, set_dw_lock true s, n + 1)
  else (true, s, n + 1).
Definition socket_unlock (s : socket) (n : Z) : outcome (socket * Z) :=
  if bool_decide (n - 1 ≤ 0) then cassert (bool_decide (n - 1 = 0));; Ret (spinlock_unlock s, n - 1)
  else Ret (s, n - 1).

Definition empty_list (l : list write_buffer) : bool := match l with [] => true | _ => false end.
Definition get_list (pr : priority) (s : socket) : list write_buffer :=
  match pr with PRIORITY_HIGH => s_high s | PRIORITY_LOW => s_low s end.
Definition set_list (pr : priority) (l : list write_buffer) (s : socket) : socket :=
  match pr with PRIORITY_HIGH => set_high l s | PRIORITY_LOW => set_low l s end.

Definition stat_read (ss : socket_server) (s : socket) (n : Z) : socket :=
  set_stat (SocketStat (ss_time ss) (st_wtime (s_stat s)) (u64 (st_read (s_stat s) + n)) (st_write (s_stat s))) s.
Definition stat_write (ss : socket_server) (s : socket) (n : Z) : socket :=
  set_stat (SocketStat (st_rtime (s_stat s)) (ss_time ss) (st_read (s_stat s)) (u64 (st_write (s_stat s) + n))) s.

Definition message_of (s : socket) : socket_message := SocketMessage (s_id s) (s_opaque s) 0 Null.
Definition result : Type := option (Z * socket_message).
Definition is_close (r : result) : bool :=
  match r with Some (t, _) => bool_decide (t = SOCKET_CLOSE) | None => false end.

Section write.
Context {W : Type} `{!Kernel W}.

(** where the bytes to send are, the bytes, and whether it is an object *)
Definition send_object_init (b : payload) : loc * list Z * bool :=
  match b with
  | Object l => (soi_buffer l, soi_bytes l, true)
  | Memory l bs => (l, bs, false)
  end.
Definition free_payload (b : payload) (w : W) : W :=
  match b with Object l => soi_free l w | Memory l _ => k_free l w end.
Definition write_buffer_free (wb : write_buffer) (w : W) : W :=
  if wb_userobject wb then soi_free (wb_buffer wb) w else k_free (wb_buffer wb) w.

Definition free_wb_list (l : list write_buffer) (w : W) : W := fold_left (λ w wb, write_buffer_free wb w) l w.

Definition free_buffer (buf : sendbuffer) (w : W) : W :=
  match buf with
  | SOCKET_BUFFER_MEMORY l _ => k_free l w
  | SOCKET_BUFFER_OBJECT l => soi_free l w
  | SOCKET_BUFFER_RAWPOINTER _ _ => w
  end.
Definition clone_buffer (buf : sendbuffer) (w : W) : payload * W :=
  match buf with
  | SOCKET_BUFFER_MEMORY l bs => (Memory l bs, w)
  | SOCKET_BUFFER_OBJECT l => (Object l, w)
  | SOCKET_BUFFER_RAWPOINTER _ bs => let '(tmp, w) := k_malloc (Zlen bs) w in (Memory tmp bs, w)
  end.

Definition force_close (ss : socket_server) (s : socket) (n : Z) (w : W) :
    outcome (socket_message * socket * Z * W) :=
  let result := message_of s in
  if bool_decide (s_type s = SOCKET_TYPE_INVALID) then Ret (result, s, n, w)
  else
    cassert (bool_decide (s_type s ≠ SOCKET_TYPE_RESERVE));;
    let w := free_wb_list (s_high s) w in
    let w := free_wb_list (s_low s) w in
    let s := set_low [] (set_high [] s) in
    let w := if bool_decide (s_reading s = READING_RESUME) then sp_del (ss_event_fd ss) (s_fd s) w else w in
    let s := set_reading READING_CLOSE s in
    '(s, n) ← socket_lock s n;
    let w := if bool_decide (s_type s ≠ SOCKET_TYPE_BIND) then k_close (s_fd s) w else w in
    let s := set_type SOCKET_TYPE_INVALID s in
    let '(s, w) :=
      match s_dw_buffer s with
      | Some b => (set_dw_buffer None s, free_payload b w)
      | None => (s, w)
      end in
    '(s, n) ← socket_unlock s n;
    Ret (result, s, n, w).

(** ** Sending *)

(** [write] until it is not interrupted *)
Fixpoint write_retry (fuel : nat) (fd : Z) (bs : list Z) (w : W) : outcome (io Z * W) :=
  match fuel with
  | O => NoFuel
  | S fuel =>
      match k_write fd bs w with
      | (Err e, w) => if bool_decide (e = EINTR) then write_retry fuel fd bs w else Ret (Err e, w)
      | (Ok n, w) => Ret (Ok n, w)
      end
  end.
Definition write_again (fd : Z) (bs : list Z) (w : W) : outcome (io Z * W) :=
  write_retry (S (k_signals w)) fd bs w.

(** [l] is the list with priority [pr]: the rounds of the loop *)
Fixpoint send_list_tcp (ss : socket_server) (pr : priority) (l : list write_buffer) (s : socket) (n : Z) (w : W) :
    outcome (result * socket * Z * W) :=
  match l with
  | [] => Ret (None, set_list pr [] s, n, w)
  | tmp :: next =>
      let s := set_list pr l s in
      '(r, w) ← write_again (s_fd s) (wb_data tmp) w;
      match r with
      | Err e =>
          if bool_decide (e = EAGAIN) then Ret (None, s, n, w)
          else '(m, s, n, w) ← force_close ss s n w; Ret (Some (SOCKET_CLOSE, m), s, n, w)
      | Ok sz =>
          let s := stat_write ss s (i32 sz) in
          let s := set_wb_size (s_wb_size s - sz) s in
          if bool_decide (sz ≠ Zlen (wb_data tmp)) then
            let tmp := WriteBuffer (wb_buffer tmp) (wb_ptr tmp + sz) (drop (Z.to_nat sz) (wb_data tmp))
                         (wb_userobject tmp) (wb_udp_address tmp) in
            Ret (None, set_list pr (tmp :: next) s, n, w)
          else send_list_tcp ss pr next s n (write_buffer_free tmp w)
      end
  end.

(** the address a datagram goes to; [None] when it is not of the protocol of the socket *)
Definition udp_socket_address (s : socket) (udp_address : list Z) : outcome (option sockaddr) :=
  type ← get_idx udp_address 0;
  if bool_decide (type ≠ s_protocol s) then Ret None
  else if bool_decide (s_protocol s = PROTOCOL_UDP) then
    Ret (Some (Sockaddr AF_INET (take 2 (drop 1 udp_address)) (take 4 (drop 3 udp_address))))
  else if bool_decide (s_protocol s = PROTOCOL_UDPv6) then
    Ret (Some (Sockaddr AF_INET6 (take 2 (drop 1 udp_address)) (take 16 (drop 3 udp_address))))
  else Ret None.

Definition drop_udp (pr : priority) (tmp : write_buffer) (next : list write_buffer) (s : socket) (w : W) : socket * W :=
  (set_list pr next (set_wb_size (s_wb_size s - Zlen (wb_data tmp)) s), write_buffer_free tmp w).

Fixpoint send_list_udp (ss : socket_server) (pr : priority) (l : list write_buffer) (s : socket) (w : W) :
    outcome (socket * W) :=
  match l with
  | [] => Ret (set_list pr [] s, w)
  | tmp :: next =>
      let s := set_list pr l s in
      sa ← udp_socket_address s (wb_udp_address tmp);
      match sa with
      | None =>
          let w := k_stderr ("socket-server : udp (" +:+ fmt_d (s_id s) +:+ ") type mismatch.") w in
          Ret (drop_udp pr tmp next s w)
      | Some sa =>
          match k_sendto (s_fd s) (wb_data tmp) sa w with
          | (Err e, w) =>
              if bool_decide (e = EINTR ∨ e = EAGAIN) then Ret (s, w)
              else
                let w := k_stderr ("socket-server : udp (" +:+ fmt_d (s_id s) +:+ ") sendto error " +:+
                                   k_strerror e +:+ ".") w in
                Ret (drop_udp pr tmp next s w)
          | (Ok _, w) =>
              let s := stat_write ss s (i32 (Zlen (wb_data tmp))) in
              let s := set_wb_size (s_wb_size s - Zlen (wb_data tmp)) s in
              send_list_udp ss pr next s (write_buffer_free tmp w)
          end
      end
  end.

Definition send_list (ss : socket_server) (pr : priority) (s : socket) (n : Z) (w : W) :
    outcome (result * socket * Z * W) :=
  if bool_decide (s_protocol s = PROTOCOL_TCP) then send_list_tcp ss pr (get_list pr s) s n w
  else '(s, w) ← send_list_udp ss pr (get_list pr s) s w; Ret (None, s, n, w).

Definition list_uncomplete (l : list write_buffer) : bool :=
  match l with
  | [] => false
  | wb :: _ => bool_decide (wb_ptr wb ≠ wb_buffer wb)
  end.

Definition raise_uncomplete (s : socket) : outcome socket :=
  match s_low s with
  | [] => Undef
  | tmp :: low => cassert (empty_list (s_high s));; Ret (set_high [tmp] (set_low low s))
  end.

Definition send_buffer_empty (s : socket) : bool := empty_list (s_high s) && empty_list (s_low s).

(** both lists are empty *)
Definition send_finished (ss : socket_server) (i : Z) (s : socket) (n : Z) (w : W) :
    outcome (result * socket * Z * W) :=
  cassert (send_buffer_empty s && bool_decide (s_wb_size s = 0));;
  let w := sp_write (ss_event_fd ss) (s_fd s) (Some i) false w in
  if bool_decide (s_type s = SOCKET_TYPE_HALFCLOSE) then
    '(m, s, n, w) ← force_close ss s n w; Ret (Some (SOCKET_CLOSE, m), s, n, w)
  else if bool_decide (0 < s_warn_size s) then
    Ret (Some (SOCKET_WARNING, message_of s), set_warn_size 0 s, n, w)
  else Ret (None, s, n, w).

Definition send_buffer_ (ss : socket_server) (i : Z) (s : socket) (n : Z) (w : W) :
    outcome (result * socket * Z * W) :=
  cassert (negb (list_uncomplete (s_low s)));;
  '(r, s, n, w) ← send_list ss PRIORITY_HIGH s n w;
  if is_close r then Ret (r, s, n, w)
  else if negb (empty_list (s_high s)) then Ret (None, s, n, w)
  else if empty_list (s_low s) then send_finished ss i s n w
  else
    '(r, s, n, w) ← send_list ss PRIORITY_LOW s n w;
    if is_close r then Ret (r, s, n, w)
    else if list_uncomplete (s_low s) then s ← raise_uncomplete s; Ret (None, s, n, w)
    else if negb (empty_list (s_low s)) then Ret (None, s, n, w)
    else send_finished ss i s n w.

(** the rest of a direct write goes before everything else *)
Definition direct_rest (s : socket) : socket :=
  match s_dw_buffer s with
  | None => s
  | Some b =>
      let '(ptr, bs, user) := send_object_init b in
      let buf := WriteBuffer (p_buffer b) (ptr + s_dw_offset s) (drop (Z.to_nat (s_dw_offset s)) bs) user [] in
      set_dw_buffer None (set_high (buf :: s_high s) (set_wb_size (s_wb_size s + Zlen (wb_data buf)) s))
  end.
Definition send_buffer (ss : socket_server) (i : Z) (s : socket) (n : Z) (w : W) :
    outcome (result * socket * Z * W) :=
  let '(locked, s, n) := socket_trylock s n in
  if locked then
    '(r, s, n, w) ← send_buffer_ ss i (direct_rest s) n w;
    '(s, n) ← socket_unlock s n;
    Ret (r, s, n, w)
  else Ret (None, s, n, w).

Definition new_buffer (b : payload) (udp_address : list Z) : write_buffer :=
  let '(ptr, bs, user) := send_object_init b in WriteBuffer (p_buffer b) ptr bs user udp_address.
Definition append_sendbuffer_ (pr : priority) (s : socket) (buf : write_buffer) : socket :=
  let s := set_list pr (get_list pr s ++ [buf]) s in set_wb_size (s_wb_size s + Zlen (wb_data buf)) s.
Definition append_sendbuffer_udp (pr : priority) (s : socket) (b : payload) (udp_address : list Z) : socket :=
  append_sendbuffer_ pr s (new_buffer b udp_address).
Definition append_sendbuffer (s : socket) (b : payload) : socket :=
  append_sendbuffer_ PRIORITY_HIGH s (new_buffer b []).
Definition append_sendbuffer_low (s : socket) (b : payload) : socket :=
  append_sendbuffer_ PRIORITY_LOW s (new_buffer b []).

(** the address of a datagram without one is that of the socket *)
Definition udp_address_of (s : socket) (udp_address : option (list Z)) : outcome (list Z) :=
  match udp_address, s_p s with
  | Some a, _ => Ret a
  | None, PAddress a => Ret a
  | None, PSize _ => Undef
  end.

Definition overload_warning (s : socket) : result * socket :=
  if bool_decide (WARNING_SIZE ≤ s_wb_size s ∧ s_warn_size s ≤ s_wb_size s) then
    let s := set_warn_size (if bool_decide (s_warn_size s = 0) then WARNING_SIZE * 2 else s_warn_size s * 2) s in
    let ud := if bool_decide (s_wb_size s mod 1024 = 0) then s_wb_size s / 1024 else s_wb_size s / 1024 + 1 in
    (Some (SOCKET_WARNING, SocketMessage (s_id s) (s_opaque s) (i32 ud) Null), s)
  else (None, s).

Definition send_socket (ss : socket_server) (id : Z) (b : payload) (pr : priority)
    (udp_address : option (list Z)) (w : W) : outcome (result * socket_server * W) :=
  let i := HASH_ID id in
  s ← get_socket ss i;
  let type := s_type s in
  let '(_, bs, _) := send_object_init b in
  if bool_decide (type = SOCKET_TYPE_INVALID ∨ s_id s ≠ id ∨ type = SOCKET_TYPE_HALFCLOSE ∨
                  type = SOCKET_TYPE_PACCEPT) then Ret (None, ss, free_payload b w)
  else if bool_decide (type = SOCKET_TYPE_PLISTEN ∨ type = SOCKET_TYPE_LISTEN) then
    let w := k_stderr ("socket-server: write to listen fd " +:+ fmt_d id +:+ ".") w in
    Ret (None, ss, free_payload b w)
  else
    let finish s w := let '(r, s) := overload_warning s in ss ← put_socket ss i s; Ret (r, ss, w) in
    if send_buffer_empty s && bool_decide (type = SOCKET_TYPE_CONNECTED) then
      let enable w := sp_write (ss_event_fd ss) (s_fd s) (Some i) true w in
      if bool_decide (s_protocol s = PROTOCOL_TCP) then finish (append_sendbuffer s b) (enable w)
      else
        udp_address ← udp_address_of s udp_address;
        sa ← udp_socket_address s udp_address;
        match sa with
        | None =>
            let w := k_stderr ("socket-server: udp socket (" +:+ fmt_d id +:+ ") type mistach.") w in
            Ret (None, ss, free_payload b w)
        | Some sa =>
            let '(r, w) := k_sendto (s_fd s) bs sa w in
            if match r with Ok n => bool_decide (n = Zlen bs) | Err _ => false end then
              ss ← put_socket ss i (stat_write ss s (i32 (Zlen bs))); Ret (None, ss, free_payload b w)
            else finish (append_sendbuffer_udp pr s b udp_address) (enable w)
        end
    else if bool_decide (s_protocol s = PROTOCOL_TCP) then
      finish (match pr with PRIORITY_LOW => append_sendbuffer_low s b | PRIORITY_HIGH => append_sendbuffer s b end) w
    else
      udp_address ← udp_address_of s udp_address;
      finish (append_sendbuffer_udp pr s b udp_address) w.
End write.
