(* ===== verification/SocketCtrl.v ===== *)
(** * The requests of the other threads: skynet-src/socket_server.c

    What the socket thread does for each request it takes from the command pipe. *)
From S2P Require Import Prelude CLib CNum SocketKernel SocketData SocketWrite.
From Stdlib Require Import Ascii String.
#[local] Open Scope Z_scope.

Definition set_slot_type (ss : socket_server) (i type : Z) : outcome socket_server :=
  s ← get_socket ss i; put_socket ss i (set_type type s).

(** [sending] and the ids: the reference count of the requests for a socket *)
Definition dec_sending_ref (ss : socket_server) (id : Z) : outcome socket_server :=
  let i := HASH_ID id in
  s ← get_socket ss i;
  if bool_decide (s_id s = id ∧ s_protocol s = PROTOCOL_TCP) then
    cassert (bool_decide (Z.land (s_sending s) 0xffff ≠ 0));;
    put_socket ss i (set_sending (u32 (s_sending s - 1)) s)
  else Ret ss.

Definition nomore_sending_data (s : socket) : bool :=
  send_buffer_empty s && bool_decide (s_dw_buffer s = None) && bool_decide (Z.land (s_sending s) 0xffff = 0).

(** ** Ids *)

(** [reserve_id] takes no lock: what the other threads do between the accesses of a
    round, before its ATOM_AND, before the test of the type and before its ATOM_CAS *)
Record interference : Type := Interference {
  before_and : socket_server → socket_server;
  before_test : socket_server → socket_server;
  before_cas : socket_server → socket_server
}.
Definition alone : interference := Interference id id id.

(** what a round came to: an id, a slot that is not free, or a slot that another
    thread took first *)
Inductive round : Type := Got (id : Z) | Taken | Lost.
Definition reserve_step (others : interference) (ss : socket_server) : outcome (round * socket_server) :=
  let id := i32 (ss_alloc_id ss + 1) in
  let ss := ss_set_alloc_id id ss in
  let '(id, ss) :=
    if bool_decide (id < 0) then
      let ss := before_and others ss in
      let id := Z.land (ss_alloc_id ss) 0x7fffffff in (id, ss_set_alloc_id id ss)
    else (id, ss) in
  let i := HASH_ID id in
  let ss := before_test others ss in
  s ← get_socket ss i;
  if bool_decide (s_type s = SOCKET_TYPE_INVALID) then
    let ss := before_cas others ss in
    s ← get_socket ss i;
    if bool_decide (s_type s = SOCKET_TYPE_INVALID) then
      ss ← put_socket ss i (set_fd (-1) (set_udpconnecting 0 (set_protocol PROTOCOL_UNKNOWN (set_id id
             (set_type SOCKET_TYPE_RESERVE s)))));
      Ret (Got id, ss)
    else Ret (Lost, ss)
  else Ret (Taken, ss).
(** [k]: the rounds so far; a round that was lost is not counted in [i] *)
Fixpoint reserve_loop (fuel : nat) (others : nat → interference) (k : nat) (i : Z) (ss : socket_server) :
    outcome (Z * socket_server) :=
  if bool_decide (i < MAX_SOCKET) then
    match fuel with
    | O => NoFuel
    | S fuel =>
        '(r, ss) ← reserve_step (others k) ss;
        match r with
        | Got id => Ret (id, ss)
        | Taken => reserve_loop fuel others (S k) (i + 1) ss
        | Lost => reserve_loop fuel others (S k) (i - 1 + 1) ss
        end
    end
  else Ret (-1, ss).
(** a call that no other thread disturbs *)
Definition reserve_id (ss : socket_server) : outcome (Z * socket_server) :=
  reserve_loop (Z.to_nat MAX_SOCKET) (λ _, alone) 0 0 ss.

Section ctrl.
Context {W : Type} `{!Kernel W}.

Definition check_wb_list (l : list write_buffer) : outcome unit := cassert (empty_list l).

(** the reserved slot becomes the socket of [fd]; [None] when the poll refuses it *)
Definition new_fd (ss : socket_server) (id fd protocol opaque : Z) (add : bool) (w : W) :
    outcome (option socket * socket_server * W) :=
  let i := HASH_ID id in
  s ← get_socket ss i;
  cassert (bool_decide (s_type s = SOCKET_TYPE_RESERVE));;
  let '(failed, w) := if add then sp_add (ss_event_fd ss) fd (Some i) w else (false, w) in
  if failed then
    ss ← put_socket ss i (set_type SOCKET_TYPE_INVALID s); Ret (None, ss, w)
  else
    check_wb_list (s_high s);;
    check_wb_list (s_low s);;
    let s := Socket opaque (s_high s) (s_low s) 0 (SocketStat 0 0 0 0) (u32 (Z.shiftl (ID_TAG16 id) 16)) fd id
               protocol (s_type s) (if add then READING_RESUME else READING_PAUSE) (s_udpconnecting s) 0
               (PSize MIN_READ_BUFFER) (s_dw_lock s) (s_dw_offset s) None in
    ss ← put_socket ss i s;
    Ret (Some s, ss, w).

Definition limit_text : message_data := Text "reach skynet socket number limit".

(** the first address that takes a connection: its descriptor, and whether it is
    connected already; the last error otherwise *)
Fixpoint try_connect (l : list addrinfo) (errno : Z) (w : W) : (option (Z * bool * addrinfo)) * Z * W :=
  match l with
  | [] => (None, errno, w)
  | ai :: l =>
      match k_socket (ai_family ai) SOCK_STREAM IPPROTO_TCP w with
      | (Err e, w) => try_connect l e w
      | (Ok sock, w) =>
          let '(_, w) := k_setsockopt sock SOL_SOCKET SO_KEEPALIVE 1 w in
          let w := k_nonblocking sock w in
          match k_connect sock (ai_addr ai) w with
          | (Ok _, w) => (Some (sock, true, ai), errno, w)
          | (Err e, w) =>
              if bool_decide (e = EINPROGRESS) then (Some (sock, false, ai), e, w)
              else try_connect l e (k_close sock w)
          end
      end
  end.

Definition address_text (sa : sockaddr) : message_data :=
  match k_inet_ntop sa with Some t => Text t | None => Null end.

Definition open_socket (ss : socket_server) (id port opaque : Z) (host : string) (w : W) :
    outcome (result * socket_server * W) :=
  let i := HASH_ID id in
  let failed data ss w :=
    ss ← set_slot_type ss i SOCKET_TYPE_INVALID;
    Ret (Some (SOCKET_ERR, SocketMessage id opaque 0 data), ss, w) in
  match k_getaddrinfo host (fmt_d port) SOCK_STREAM IPPROTO_TCP w with
  | (Err status, w) => failed (Text (k_gai_strerror status)) ss w
  | (Ok ai_list, w) =>
      match try_connect ai_list 0 w with
      | (None, errno, w) => failed (Text (k_strerror errno)) ss w
      | (Some (sock, connected, ai), _, w) =>
          '(ns, ss, w) ← new_fd ss id sock PROTOCOL_TCP opaque true w;
          match ns with
          | None => failed limit_text ss (k_close sock w)
          | Some ns =>
              if connected then
                ss ← put_socket ss i (set_type SOCKET_TYPE_CONNECTED ns);
                Ret (Some (SOCKET_OPEN, SocketMessage id opaque 0 (address_text (ai_addr ai))), ss, w)
              else
                ss ← put_socket ss i (set_type SOCKET_TYPE_CONNECTING ns);
                Ret (None, ss, sp_write (ss_event_fd ss) (s_fd ns) (Some i) true w)
          end
      end
  end.

Definition listen_socket (ss : socket_server) (id listen_fd opaque : Z) (w : W) :
    outcome (result * socket_server * W) :=
  '(s, ss, w) ← new_fd ss id listen_fd PROTOCOL_TCP opaque false w;
  match s with
  | Some s => ss ← put_socket ss (HASH_ID id) (set_type SOCKET_TYPE_PLISTEN s); Ret (None, ss, w)
  | None =>
      let w := k_close listen_fd w in
      ss ← set_slot_type ss (HASH_ID id) SOCKET_TYPE_INVALID;
      Ret (Some (SOCKET_ERR, SocketMessage id opaque 0 limit_text), ss, w)
  end.

(** a request names a socket that is gone *)
Definition stale (s : socket) (id : Z) : bool :=
  bool_decide (s_type s = SOCKET_TYPE_INVALID ∨ s_id s ≠ id).

Definition close_socket (ss : socket_server) (id : Z) (shutdown : bool) (opaque : Z) (w : W) :
    outcome (result * socket_server * W) :=
  let i := HASH_ID id in
  s ← get_socket ss i;
  if stale s id then Ret (Some (SOCKET_CLOSE, SocketMessage id opaque 0 Null), ss, w)
  else
    '(r, s, n, w) ← (if negb (nomore_sending_data s) then send_buffer ss i s 0 w else Ret (None, s, 0, w));
    if match r with Some (type, _) => bool_decide (type ≠ SOCKET_WARNING) | None => false end then
      ss ← put_socket ss i s; Ret (r, ss, w)
    else if shutdown || nomore_sending_data s then
      '(m, s, n, w) ← force_close ss s n w;
      ss ← put_socket ss i s;
      Ret (Some (SOCKET_CLOSE, SocketMessage id opaque (r_ud m) (r_data m)), ss, w)
    else
      ss ← put_socket ss i (set_type SOCKET_TYPE_HALFCLOSE s);
      Ret (None, ss, w).

Definition bind_socket (ss : socket_server) (id fd opaque : Z) (w : W) : outcome (result * socket_server * W) :=
  '(s, ss, w) ← new_fd ss id fd PROTOCOL_TCP opaque true w;
  match s with
  | None => Ret (Some (SOCKET_ERR, SocketMessage id opaque 0 limit_text), ss, w)
  | Some s =>
      let w := k_nonblocking fd w in
      ss ← put_socket ss (HASH_ID id) (set_type SOCKET_TYPE_BIND s);
      Ret (Some (SOCKET_OPEN, SocketMessage id opaque 0 (Text "binding")), ss, w)
  end.

Definition resume_type (id opaque : Z) (s : socket) : result * socket :=
  let opened text s := (Some (SOCKET_OPEN, SocketMessage id opaque 0 (Text text)), s) in
  if bool_decide (s_type s = SOCKET_TYPE_PACCEPT ∨ s_type s = SOCKET_TYPE_PLISTEN) then
    opened "start" (set_opaque opaque (set_type (if bool_decide (s_type s = SOCKET_TYPE_PACCEPT)
                                                 then SOCKET_TYPE_CONNECTED else SOCKET_TYPE_LISTEN) s))
  else if bool_decide (s_type s = SOCKET_TYPE_CONNECTED) then opened "transfer" (set_opaque opaque s)
  else (None, s).

Definition resume_socket (ss : socket_server) (id opaque : Z) (w : W) :
    outcome (result * socket_server * W) :=
  let i := HASH_ID id in
  s ← get_socket ss i;
  if stale s id then Ret (Some (SOCKET_ERR, SocketMessage id opaque 0 (Text "invalid socket")), ss, w)
  else
    let paused := bool_decide (s_reading s = READING_PAUSE) in
    let '(failed, w) := if paused then sp_add (ss_event_fd ss) (s_fd s) (Some i) w else (false, w) in
    if failed then
      '(m, s, _, w) ← force_close ss s 0 w;
      ss ← put_socket ss i s;
      Ret (Some (SOCKET_ERR, SocketMessage (r_id m) (r_opaque m) (r_ud m) (Text (k_strerror (k_errno w)))), ss, w)
    else
      let '(r, s) := resume_type id opaque (if paused then set_reading READING_RESUME s else s) in
      ss ← put_socket ss i s;
      Ret (r, ss, w).

Definition pause_socket (ss : socket_server) (id : Z) (w : W) : outcome (socket_server * W) :=
  let i := HASH_ID id in
  s ← get_socket ss i;
  if stale s id then Ret (ss, w)
  else if bool_decide (s_reading s = READING_RESUME) then
    let w := sp_del (ss_event_fd ss) (s_fd s) w in
    ss ← put_socket ss i (set_reading READING_PAUSE s); Ret (ss, w)
  else Ret (ss, w).

Definition setopt_socket (ss : socket_server) (id what value : Z) (w : W) : outcome W :=
  s ← get_socket ss (HASH_ID id);
  if stale s id then Ret w else Ret (k_setsockopt (s_fd s) IPPROTO_TCP what value w).2.

Definition add_udp_socket (ss : socket_server) (id fd family opaque : Z) (w : W) : outcome (socket_server * W) :=
  let protocol := if bool_decide (family = AF_INET6) then PROTOCOL_UDPv6 else PROTOCOL_UDP in
  '(ns, ss, w) ← new_fd ss id fd protocol opaque true w;
  match ns with
  | None => let w := k_close fd w in
            ss ← set_slot_type ss (HASH_ID id) SOCKET_TYPE_INVALID; Ret (ss, w)
  | Some ns =>
      ss ← put_socket ss (HASH_ID id)
             (set_p (PAddress (replicate (Z.to_nat UDP_ADDRESS_SIZE) 0)) (set_type SOCKET_TYPE_CONNECTED ns));
      Ret (ss, w)
  end.

(** [memcpy] over the front of the address *)
Definition copy_address (address : list Z) (n : nat) (s : socket) : outcome socket :=
  match s_p s with
  | PAddress old => Ret (set_p (PAddress (take n address ++ drop n old)) s)
  | PSize _ => Undef
  end.

Definition set_udp_address (ss : socket_server) (id : Z) (address : list Z) (w : W) :
    outcome (result * socket_server * W) :=
  let i := HASH_ID id in
  s ← get_socket ss i;
  if stale s id then Ret (None, ss, w)
  else
    type ← get_idx address 0;
    if bool_decide (type ≠ s_protocol s) then
      Ret (Some (SOCKET_ERR, SocketMessage (s_id s) (s_opaque s) 0 (Text "protocol mismatch")), ss, w)
    else
      s ← copy_address address (if bool_decide (type = PROTOCOL_UDP) then 7 else 19) s;
      ss ← put_socket ss i (set_udpconnecting (s_udpconnecting s - 1) s);
      Ret (None, ss, w).

(** the handler of one request *)
Definition ctrl_cmd (ss : socket_server) (req : request) (w : W) :
    outcome (result * socket_server * W) :=
  match req with
  | RResume id opaque => resume_socket ss id opaque w
  | RPause id _ => '(ss, w) ← pause_socket ss id w; Ret (None, ss, w)
  | RBind id fd opaque => bind_socket ss id fd opaque w
  | RListen id fd opaque => listen_socket ss id fd opaque w
  | RClose id shutdown opaque => close_socket ss id shutdown opaque w
  | ROpen id port opaque host => open_socket ss id port opaque host w
  | RExit => Ret (Some (SOCKET_EXIT, SocketMessage 0 0 0 Null), ss, w)
  | RSend pr id data =>
      '(ret, ss, w) ← send_socket ss id data pr None w;
      ss ← dec_sending_ref ss id;
      Ret (ret, ss, w)
  | RSendUdp id data address => send_socket ss id data PRIORITY_HIGH (Some address) w
  | RSetUdp id address => set_udp_address ss id address w
  | RSetopt id what value => w ← setopt_socket ss id what value w; Ret (None, ss, w)
  | RUdp id fd family opaque => '(ss, w) ← add_udp_socket ss id fd family opaque w; Ret (None, ss, w)
  end.
End ctrl.
