(* ===== verification/SocketPoll.v ===== *)
(** * The events of the sockets: skynet-src/socket_server.c

    Reading, connecting and accepting, and the loop of the socket thread, which
    serves the command pipe before the events of the poll. *)
From S2P Require Import Prelude CLib CNum SocketKernel SocketData SocketWrite SocketCtrl.
From Stdlib Require Import Ascii String.
#[local] Open Scope Z_scope.

Section poll.
Context {W : Type} `{!Kernel W}.

Definition with_text (text : string) (m : socket_message) : socket_message :=
  SocketMessage (r_id m) (r_opaque m) (r_ud m) (Text text).

(** close with the text of an error *)
Definition close_with_error (ss : socket_server) (s : socket) (text : W → string) (w : W) :
    outcome (result * socket * W) :=
  '(m, s, _, w) ← force_close ss s 0 w;
  Ret (Some (SOCKET_ERR, with_text (text w) m), s, w).

Definition p_size (s : socket) : outcome Z := match s_p s with PSize z => Ret z | PAddress _ => Undef end.

Definition forward_message_tcp (ss : socket_server) (s : socket) (w : W) : outcome (result * socket * W) :=
  sz ← p_size s;
  let '(buffer, w) := k_malloc sz w in
  match k_read (s_fd s) sz w with
  | (Err e, w) =>
      let w := k_free buffer w in
      if bool_decide (e = EINTR) then Ret (None, s, w)
      else if bool_decide (e = EAGAIN) then Ret (None, s, k_stderr "socket-server: EAGAIN capture." w)
      else close_with_error ss s (λ w, k_strerror (k_errno w)) w
  | (Ok bs, w) =>
      let n := Zlen bs in
      if bool_decide (n = 0) then
        let w := k_free buffer w in
        '(m, s, _, w) ← force_close ss s 0 w;
        Ret (Some (SOCKET_CLOSE, m), s, w)
      else if bool_decide (s_type s = SOCKET_TYPE_HALFCLOSE) then Ret (None, s, k_free buffer w)
      else
        let s := stat_read ss s n in
        s ← (if bool_decide (n = sz) then size ← chk_int (sz * 2); Ret (set_p (PSize size) s)
             else if bool_decide (MIN_READ_BUFFER < sz ∧ n * 2 < sz) then Ret (set_p (PSize (sz ÷ 2)) s)
             else Ret s);
        Ret (Some (SOCKET_DATA, SocketMessage (s_id s) (s_opaque s) n (Buffer buffer bs)), s, w)
  end.

Definition gen_udp_address (protocol : Z) (sa : sockaddr) : list Z := u8 protocol :: sa_port sa ++ sa_addr sa.

Definition forward_message_udp (ss : socket_server) (s : socket) (w : W) : outcome (result * socket * W) :=
  match k_recvfrom (s_fd s) MAX_UDP_PACKAGE w with
  | (Err e, w) =>
      if bool_decide (e = EINTR ∨ e = EAGAIN) then Ret (None, s, w)
      else close_with_error ss s (λ w, k_strerror (k_errno w)) w
  | (Ok (bs, sa), w) =>
      let n := Zlen bs in
      let s := stat_read ss s n in
      let v4 := bool_decide (sa_family sa = AF_INET) in
      let protocol := if v4 then PROTOCOL_UDP else PROTOCOL_UDPv6 in
      if bool_decide (s_protocol s ≠ protocol) then Ret (None, s, w)
      else
        let '(data, w) := k_malloc (n + 1 + 2 + (if v4 then 4 else 16)) w in
        Ret (Some (SOCKET_UDP, SocketMessage (s_id s) (s_opaque s) n
                                 (Buffer data (bs ++ gen_udp_address protocol sa))), s, w)
  end.

Definition report_connect (ss : socket_server) (i : Z) (s : socket) (w : W) : outcome (result * socket * W) :=
  let '(code, w) := k_so_error (s_fd s) w in
  match code with
  | Err _ => close_with_error ss s (λ w, k_strerror (k_errno w)) w
  | Ok error =>
      if bool_decide (error ≠ 0) then close_with_error ss s (λ _, k_strerror error) w
      else
        let s := set_type SOCKET_TYPE_CONNECTED s in
        let w := if nomore_sending_data s then sp_write (ss_event_fd ss) (s_fd s) (Some i) false w else w in
        let '(sa, w) := k_getpeername (s_fd s) w in
        let data := match sa with Some sa => address_text sa | None => Null end in
        Ret (Some (SOCKET_OPEN, SocketMessage (s_id s) (s_opaque s) 0 data), s, w)
  end.

(** [ntohs] of the port *)
Definition port_of (sa : sockaddr) : Z := match sa_port sa with [a; b] => a * 256 + b | _ => 0 end.
Definition getname (sa : sockaddr) : option string :=
  tmp ← k_inet_ntop sa; Some (tmp +:+ ":" +:+ fmt_d (port_of sa)).

(** 1: a connection with its id; 0: nothing; -1: too many files *)
Definition report_accept (ss : socket_server) (i : Z) (s : socket) (w : W) :
    outcome (Z * option socket_message * socket_server * W) :=
  match k_accept (s_fd s) w with
  | (Err e, w) =>
      if bool_decide (e = EMFILE ∨ e = ENFILE) then
        Ret (-1, Some (SocketMessage (s_id s) (s_opaque s) 0 (Text (k_strerror e))), ss, w)
      else Ret (0, None, ss, w)
  | (Ok (client_fd, sa), w) =>
      '(id, ss) ← reserve_id ss;
      if bool_decide (id < 0) then Ret (0, None, ss, k_close client_fd w)
      else
        let '(_, w) := k_setsockopt client_fd SOL_SOCKET SO_KEEPALIVE 1 w in
        let w := k_nonblocking client_fd w in
        '(ns, ss, w) ← new_fd ss id client_fd PROTOCOL_TCP (s_opaque s) false w;
        match ns with
        | None => Ret (0, None, ss, k_close client_fd w)
        | Some ns =>
            ss ← put_socket ss i (stat_read ss s 1);
            ss ← put_socket ss (HASH_ID id) (set_type SOCKET_TYPE_PACCEPT ns);
            let data := match getname sa with Some t => Text t | None => Null end in
            Ret (1, Some (SocketMessage (s_id s) (s_opaque s) id data), ss, w)
        end
  end.

(** ** The loop *)

(** the first pending event of the socket that was closed is dropped *)
Fixpoint clear_event (n : nat) (i : Z) (ss : socket_server) (id : Z) : outcome (list event) :=
  match n with
  | O => Ret (ss_ev ss)
  | S n =>
      e ← get_idx (ss_ev ss) i;
      match e_s e with
      | None => clear_event n (i + 1) ss id
      | Some k =>
          s ← get_socket ss k;
          if bool_decide (s_type s = SOCKET_TYPE_INVALID ∧ s_id s = id) then
            set_idx (ss_ev ss) i (Event None (e_read e) (e_write e) (e_error e) (e_eof e))
          else clear_event n (i + 1) ss id
      end
  end.
Definition clear_closed_event (ss : socket_server) (type id : Z) : outcome socket_server :=
  if bool_decide (type = SOCKET_CLOSE ∨ type = SOCKET_ERR) then
    ev ← clear_event (Z.to_nat (ss_event_n ss - ss_event_index ss)) (ss_event_index ss) ss id;
    Ret (ss_set_ev ev ss)
  else Ret ss.

(** the event of a socket that is neither connecting, listening nor invalid *)
Definition socket_event (ss : socket_server) (k i : Z) (e : event) (s : socket) (w : W) :
    outcome (result * socket_server * W) :=
  let put s ss := put_socket ss i s in
  let back ss := ss_set_event_index k ss in
  if e_read e then
    '(r, s, w) ← (if bool_decide (s_protocol s = PROTOCOL_TCP) then forward_message_tcp ss s w
                  else forward_message_udp ss s w);
    ss ← put s ss;
    match r with
    | Some (type, _) =>
        if bool_decide (s_protocol s ≠ PROTOCOL_TCP ∧ type = SOCKET_UDP) then Ret (r, back ss, w)
        else if e_write e && bool_decide (type ≠ SOCKET_CLOSE ∧ type ≠ SOCKET_ERR) then
          ev ← set_idx (ss_ev ss) k (Event (e_s e) false (e_write e) (e_error e) (e_eof e));
          Ret (r, back (ss_set_ev ev ss), w)
        else Ret (r, ss, w)
    | None =>
        if e_write e then
          ev ← set_idx (ss_ev ss) k (Event (e_s e) false (e_write e) (e_error e) (e_eof e));
          Ret (r, back (ss_set_ev ev ss), w)
        else Ret (r, ss, w)
    end
  else if e_write e then
    '(r, s, _, w) ← send_buffer ss i s 0 w;
    ss ← put s ss; Ret (r, ss, w)
  else if e_error e then
    let '(code, w) := k_so_error (s_fd s) w in
    let err w := match code with
                 | Err _ => k_strerror (k_errno w)
                 | Ok error => if bool_decide (error ≠ 0) then k_strerror error else "Unknown error"%string
                 end in
    '(r, s, w) ← close_with_error ss s (λ _, err w) w;
    ss ← put s ss; Ret (r, ss, w)
  else if e_eof e then
    '(m, s, _, w) ← force_close ss s 0 w;
    ss ← put s ss; Ret (Some (SOCKET_CLOSE, m), ss, w)
  else Ret (None, ss, w).

(** the event at [event_index], which is passed *)
Definition dispatch_event (ss : socket_server) (w : W) : outcome (result * socket_server * W) :=
  let k := ss_event_index ss in
  e ← get_idx (ss_ev ss) k;
  let ss := ss_set_event_index (k + 1) ss in
  match e_s e with
  | None => Ret (None, ss, w)
  | Some i =>
      s ← get_socket ss i;
      if bool_decide (s_type s = SOCKET_TYPE_CONNECTING) then
        '(r, s, w) ← report_connect ss i s w;
        ss ← put_socket ss i s; Ret (r, ss, w)
      else if bool_decide (s_type s = SOCKET_TYPE_LISTEN) then
        '(ok, m, ss, w) ← report_accept ss i s w;
        Ret (match m with
             | Some m => if bool_decide (0 < ok) then Some (SOCKET_ACCEPT, m) else Some (SOCKET_ERR, m)
             | None => None
             end, ss, w)
      else if bool_decide (s_type s = SOCKET_TYPE_INVALID) then
        Ret (None, ss, k_stderr "socket-server: invalid socket" w)
      else socket_event ss k i e s w
  end.

(** what one round of the loop ends with *)
Inductive round : Type :=
  | Continue
  (** a type with its message, -1 when the wait failed *)
  | Return (r : result).

Definition poll_round (ss : socket_server) (more : bool) (w : W) :
    outcome (round * socket_server * bool * W) :=
  match ss_checkctrl ss, ss_pipe ss with
  | true, req :: pipe =>
      '(r, ss, w) ← ctrl_cmd (ss_set_pipe pipe ss) req w;
      match r with
      | Some (type, m) => ss ← clear_closed_event ss type (r_id m); Ret (Return r, ss, more, w)
      | None => Ret (Continue, ss, more, w)
      end
  | _, _ =>
      let ss := ss_set_checkctrl false ss in
      let dispatch ss more w :=
        '(r, ss, w) ← dispatch_event ss w;
        Ret (match r with Some _ => Return r | None => Continue end, ss, more, w) in
      if bool_decide (ss_event_index ss = ss_event_n ss) then
        let '(evs, w) := sp_wait (ss_event_fd ss) MAX_EVENT w in
        let ss := ss_set_event_index 0 (ss_set_checkctrl true ss) in
        match evs with
        | Ok ((_ :: _) as evs) => dispatch (ss_set_event_n (Zlen evs) (ss_set_ev evs ss)) false w
        | Ok [] => Ret (if bool_decide (k_errno w = EINTR) then Continue else Return None, ss_set_event_n 0 ss, false, w)
        | Err e => Ret (if bool_decide (e = EINTR) then Continue else Return None, ss_set_event_n 0 ss, false, w)
        end
      else dispatch ss more w
  end.

(** [more] tells the caller that the poll was not waited for *)
Fixpoint socket_server_poll (fuel : nat) (ss : socket_server) (more : bool) (w : W) :
    outcome (result * socket_server * bool * W) :=
  match fuel with
  | O => NoFuel
  | S fuel =>
      '(o, ss, more, w) ← poll_round ss more w;
      match o with
      | Continue => socket_server_poll fuel ss more w
      | Return r => Ret (r, ss, more, w)
      end
  end.
End poll.
