(* ===== verification/SocketApi.v ===== *)
(** * The socket server for the other threads: skynet-src/socket_server.c

    What a service calls: a send that may write at once, and the requests for the
    socket thread. *)
From S2P Require Import Prelude CLib CNum SocketKernel SocketData SocketWrite SocketCtrl SocketPoll.
From Stdlib Require Import Ascii String.
#[local] Open Scope Z_scope.

(** one write, which the pipe takes whole *)
Definition send_request (ss : socket_server) (req : request) : socket_server := ss_set_pipe (ss_pipe ss ++ [req]) ss.

(** the count of the requests for a socket of this id; a full count is waited for *)
Definition inc_sending_ref (s : socket) (id : Z) : outcome socket :=
  if bool_decide (s_protocol s ≠ PROTOCOL_TCP) then Ret s
  else if bool_decide (Z.shiftr (s_sending s) 16 = ID_TAG16 id) then
    if bool_decide (Z.land (s_sending s) 0xffff = 0xffff) then NoFuel
    else Ret (set_sending (u32 (s_sending s + 1)) s)
  else Ret s.

Definition can_direct_write (s : socket) (id : Z) : bool :=
  bool_decide (s_id s = id) && nomore_sending_data s && bool_decide (s_type s = SOCKET_TYPE_CONNECTED) &&
  bool_decide (s_udpconnecting s = 0).

(** what [socket_server_info] tells about a socket *)
Record socket_info : Type := SocketInfo {
  si_id : Z; si_type : Z; si_opaque : Z; si_read : Z; si_write : Z; si_rtime : Z; si_wtime : Z;
  si_wbuffer : Z; si_name : string
}.
Definition SOCKET_INFO_LISTEN : Z := 1.
Definition SOCKET_INFO_TCP : Z := 2.
Definition SOCKET_INFO_UDP : Z := 3.
Definition SOCKET_INFO_BIND : Z := 4.

Section api.
Context {W : Type} `{!Kernel W}.

Definition FD_SETSIZE : Z := 1024.
Definition socket_server_create (time : Z) (w : W) : outcome (option socket_server * W) :=
  match sp_create w with
  | (Err _, w) => Ret (None, k_stderr "socket-server: create event pool failed." w)
  | (Ok efd, w) =>
      match k_pipe w with
      | (Err _, w) => Ret (None, k_stderr "socket-server: create socket pair failed." (sp_release efd w))
      | (Ok (r, s), w) =>
          let '(failed, w) := sp_add efd r None w in
          if failed then
            let w := k_stderr "socket-server: can't add server fd to event pool." w in
            Ret (None, sp_release efd (k_close s (k_close r w)))
          else
            cassert (bool_decide (r < FD_SETSIZE));;
            Ret (Some (SocketServer time r s true efd 0 0 0 []
                         (replicate (Z.to_nat MAX_SOCKET) empty_socket) []), w)
      end
  end.
Definition socket_server_updatetime (ss : socket_server) (time : Z) : socket_server := ss_set_time time ss.

Definition release_slot (i : Z) (p : socket_server * W) : outcome (socket_server * W) :=
  let '(ss, w) := p in
  s ← get_socket ss i;
  if bool_decide (s_type s ≠ SOCKET_TYPE_RESERVE) then
    '(_, s, _, w) ← force_close ss s 0 w;
    ss ← put_socket ss i s; Ret (ss, w)
  else Ret (ss, w).
Definition socket_server_release (ss : socket_server) (w : W) : outcome W :=
  '(ss, w) ← for_loop release_slot (Z.to_nat MAX_SOCKET) 0 1 (ss, w);
  Ret (sp_release (ss_event_fd ss) (k_close (ss_recvctrl_fd ss) (k_close (ss_sendctrl_fd ss) w))).

(** the bytes of a buffer: those [send_object_init_from_sendbuffer] points to *)
Definition sendbuffer_bytes (buf : sendbuffer) : list Z :=
  match buf with
  | SOCKET_BUFFER_MEMORY _ bs | SOCKET_BUFFER_RAWPOINTER _ bs => bs
  | SOCKET_BUFFER_OBJECT l => soi_bytes l
  end.

(** how far a send came: it is over with a result, or goes on as a request *)
Inductive progress : Type := Done (r : Z) | Later.

(** the bytes that go out at once; the rest, if any, is left to the socket thread *)
Definition direct_write (ss : socket_server) (i : Z) (s : socket) (buf : sendbuffer) (w : W) :
    outcome (progress * socket * W) :=
  let bs := sendbuffer_bytes buf in
  sent ← (if bool_decide (s_protocol s = PROTOCOL_TCP) then Ret (Some (k_write (s_fd s) bs w))
          else
            address ← udp_address_of s None;
            sa ← udp_socket_address s address;
            Ret (match sa with Some sa => Some (k_sendto (s_fd s) bs sa w) | None => None end));
  match sent with
  | None =>
      let w := k_stderr ("socket-server : set udp (" +:+ fmt_d (s_id s) +:+ ") address first.") w in
      Ret (Done (-1), s, free_buffer buf w)
  | Some (r, w) =>
      let n := match r with Ok n => n | Err _ => 0 end in
      let s := stat_write ss s (i32 n) in
      if bool_decide (n = Zlen bs) then Ret (Done 0, s, free_buffer buf w)
      else
        let '(b, w) := clone_buffer buf w in
        let s := set_dw_offset n (set_dw_buffer (Some b) s) in
        Ret (Done 0, s, sp_write (ss_event_fd ss) (s_fd s) (Some i) true w)
  end.

(** [direct] under the lock of the socket, if it can be had *)
Definition try_direct (id i : Z) (s : socket) (w : W)
    (direct : socket → W → outcome (progress * socket * W)) : outcome (progress * socket * W) :=
  if can_direct_write s id then
    let '(locked, s, n) := socket_trylock s 0 in
    if locked then
      '(r, s, w) ← (if can_direct_write s id then direct s w else Ret (Later, s, w));
      '(s, _) ← socket_unlock s n;
      Ret (r, s, w)
    else Ret (Later, s, w)
  else Ret (Later, s, w).

(** the send up to the request *)
Definition send_begin (ss : socket_server) (id : Z) (buf : sendbuffer) (w : W) :
    outcome (progress * socket_server * W) :=
  let i := HASH_ID id in
  s ← get_socket ss i;
  if bool_decide (s_id s ≠ id ∨ s_type s = SOCKET_TYPE_INVALID) then Ret (Done (-1), ss, free_buffer buf w)
  else
    '(r, s, w) ← try_direct id i s w (λ s w, direct_write ss i s buf w);
    s ← match r with Later => inc_sending_ref s id | Done _ => Ret s end;
    ss ← put_socket ss i s;
    Ret (r, ss, w).
Definition send_end (ss : socket_server) (pr : priority) (id : Z) (buf : sendbuffer) (w : W) : socket_server * W :=
  let '(b, w) := clone_buffer buf w in (send_request ss (RSend pr id b), w).

Definition socket_server_send (ss : socket_server) (id : Z) (buf : sendbuffer) (w : W) :
    outcome (Z * socket_server * W) :=
  '(r, ss, w) ← send_begin ss id buf w;
  match r with
  | Done r => Ret (r, ss, w)
  | Later => let '(ss, w) := send_end ss PRIORITY_HIGH id buf w in Ret (0, ss, w)
  end.

Definition send_low_begin (ss : socket_server) (id : Z) (buf : sendbuffer) (w : W) :
    outcome (progress * socket_server * W) :=
  let i := HASH_ID id in
  s ← get_socket ss i;
  if bool_decide (s_id s ≠ id ∨ s_type s = SOCKET_TYPE_INVALID) then Ret (Done (-1), ss, free_buffer buf w)
  else s ← inc_sending_ref s id; ss ← put_socket ss i s; Ret (Later, ss, w).
Definition socket_server_send_lowpriority (ss : socket_server) (id : Z) (buf : sendbuffer) (w : W) :
    outcome (Z * socket_server * W) :=
  '(r, ss, w) ← send_low_begin ss id buf w;
  match r with
  | Done r => Ret (r, ss, w)
  | Later => let '(ss, w) := send_end ss PRIORITY_LOW id buf w in Ret (0, ss, w)
  end.

Definition socket_server_exit (ss : socket_server) : socket_server := send_request ss RExit.
Definition socket_server_close (ss : socket_server) (opaque id : Z) : socket_server :=
  send_request ss (RClose id false opaque).
Definition socket_server_shutdown (ss : socket_server) (opaque id : Z) : socket_server :=
  send_request ss (RClose id true opaque).
Definition socket_server_start (ss : socket_server) (opaque id : Z) : socket_server :=
  send_request ss (RResume id opaque).
Definition socket_server_pause (ss : socket_server) (opaque id : Z) : socket_server :=
  send_request ss (RPause id opaque).
Definition socket_server_nodelay (ss : socket_server) (id : Z) : socket_server :=
  send_request ss (RSetopt id TCP_NODELAY 1).

(** the size of [struct request_open] without the host, on a 64-bit platform *)
Definition SIZEOF_OPEN : Z := 24.
Definition socket_server_connect (ss : socket_server) (opaque : Z) (addr : string) (port : Z) (w : W) :
    outcome (Z * socket_server * W) :=
  if bool_decide (256 ≤ Z.of_nat (String.length addr) + SIZEOF_OPEN) then
    Ret (-1, ss, k_stderr ("socket-server : Invalid addr " +:+ addr +:+ ".") w)
  else
    '(id, ss) ← reserve_id ss;
    if bool_decide (id < 0) then Ret (-1, ss, w)
    else Ret (id, send_request ss (ROpen id port opaque addr), w).

(** the descriptor and its family, -1 if there is none *)
Definition do_bind (host : option string) (port protocol : Z) (w : W) : outcome (option (Z * Z) * W) :=
  let host := match host with None | Some EmptyString => "0.0.0.0"%string | Some h => h end in
  type ← (if bool_decide (protocol = IPPROTO_TCP) then Ret SOCK_STREAM
          else cassert (bool_decide (protocol = IPPROTO_UDP));; Ret SOCK_DGRAM);
  match k_getaddrinfo host (fmt_d port) type protocol w with
  | (Err _, w) => Ret (None, w)
  | (Ok [], w) => Undef
  | (Ok (ai :: _), w) =>
      match k_socket (ai_family ai) type 0 w with
      | (Err _, w) => Ret (None, w)
      | (Ok fd, w) =>
          match k_setsockopt fd SOL_SOCKET SO_REUSEADDR 1 w with
          | (Err _, w) => Ret (None, k_close fd w)
          | (Ok _, w) =>
              match k_bind fd (ai_addr ai) w with
              | (Err _, w) => Ret (None, k_close fd w)
              | (Ok _, w) => Ret (Some (fd, ai_family ai), w)
              end
          end
      end
  end.
Definition do_listen (host : option string) (port backlog : Z) (w : W) : outcome (option Z * W) :=
  '(r, w) ← do_bind host port IPPROTO_TCP w;
  match r with
  | None => Ret (None, w)
  | Some (listen_fd, _) =>
      match k_listen listen_fd backlog w with
      | (Err _, w) => Ret (None, k_close listen_fd w)
      | (Ok _, w) => Ret (Some listen_fd, w)
      end
  end.
Definition socket_server_listen (ss : socket_server) (opaque : Z) (addr : option string) (port backlog : Z) (w : W) :
    outcome (Z * socket_server * W) :=
  '(fd, w) ← do_listen addr port backlog w;
  match fd with
  | None => Ret (-1, ss, w)
  | Some fd =>
      '(id, ss) ← reserve_id ss;
      if bool_decide (id < 0) then Ret (id, ss, k_close fd w)
      else Ret (id, send_request ss (RListen id fd opaque), w)
  end.
Definition socket_server_bind (ss : socket_server) (opaque fd : Z) : outcome (Z * socket_server) :=
  '(id, ss) ← reserve_id ss;
  if bool_decide (id < 0) then Ret (-1, ss) else Ret (id, send_request ss (RBind id fd opaque)).

(** ** UDP *)
Definition socket_server_udp (ss : socket_server) (opaque : Z) (addr : option string) (port : Z) (w : W) :
    outcome (Z * socket_server * W) :=
  '(r, w) ← (if bool_decide (port ≠ 0 ∨ addr ≠ None) then do_bind addr port IPPROTO_UDP w
             else match k_socket AF_INET SOCK_DGRAM 0 w with
                  | (Err _, w) => Ret (None, w)
                  | (Ok fd, w) => Ret (Some (fd, AF_INET), w)
                  end);
  match r with
  | None => Ret (-1, ss, w)
  | Some (fd, family) =>
      let w := k_nonblocking fd w in
      '(id, ss) ← reserve_id ss;
      if bool_decide (id < 0) then Ret (-1, ss, k_close fd w)
      else Ret (id, send_request ss (RUdp id fd family opaque), w)
  end.

Definition udp_address_size (address : list Z) : outcome (option Z) :=
  type ← get_idx address 0;
  Ret (if bool_decide (type = PROTOCOL_UDP) then Some 7
       else if bool_decide (type = PROTOCOL_UDPv6) then Some 19 else None).

Definition direct_send_udp (ss : socket_server) (s : socket) (udp_address : list Z) (buf : sendbuffer) (w : W) :
    outcome (progress * socket * W) :=
  sa ← udp_socket_address s udp_address;
  match sa with
  | None => Ret (Done (-1), s, free_buffer buf w)
  | Some sa =>
      match k_sendto (s_fd s) (sendbuffer_bytes buf) sa w with
      | (Ok n, w) => Ret (Done 0, stat_write ss s (i32 n), free_buffer buf w)
      | (Err _, w) => Ret (Later, s, w)
      end
  end.
Definition socket_server_udp_send (ss : socket_server) (id : Z) (udp_address : list Z) (buf : sendbuffer) (w : W) :
    outcome (Z * socket_server * W) :=
  let i := HASH_ID id in
  s ← get_socket ss i;
  if bool_decide (s_id s ≠ id ∨ s_type s = SOCKET_TYPE_INVALID) then Ret (-1, ss, free_buffer buf w)
  else
    addrsz ← udp_address_size udp_address;
    match addrsz with
    | None => Ret (-1, ss, free_buffer buf w)
    | Some addrsz =>
        '(r, s, w) ← try_direct id i s w (λ s w, direct_send_udp ss s udp_address buf w);
        ss ← put_socket ss i s;
        match r with
        | Done r => Ret (r, ss, w)
        | Later =>
            let '(b, w) := clone_buffer buf w in
            Ret (0, send_request ss (RSendUdp id b (take (Z.to_nat addrsz) udp_address)), w)
        end
    end.

Definition socket_server_udp_connect (ss : socket_server) (id : Z) (addr : string) (port : Z) (w : W) :
    outcome (Z * socket_server * W) :=
  let i := HASH_ID id in
  s ← get_socket ss i;
  if bool_decide (s_id s ≠ id ∨ s_type s = SOCKET_TYPE_INVALID) then Ret (-1, ss, w)
  else
    '(s, n) ← socket_lock s 0;
    '(s, _) ← socket_unlock (set_udpconnecting (s_udpconnecting s + 1) s) n;
    ss ← put_socket ss i s;
    match k_getaddrinfo addr (fmt_d port) SOCK_DGRAM IPPROTO_UDP w with
    | (Err _, w) => Ret (-1, ss, w)
    | (Ok [], w) => Undef
    | (Ok (ai :: _), w) =>
        if bool_decide (ai_family ai = AF_INET) then
          Ret (0, send_request ss (RSetUdp id (gen_udp_address PROTOCOL_UDP (ai_addr ai))), w)
        else if bool_decide (ai_family ai = AF_INET6) then
          Ret (0, send_request ss (RSetUdp id (gen_udp_address PROTOCOL_UDPv6 (ai_addr ai))), w)
        else Ret (-1, ss, w)
    end.

(** the address behind the [ud] bytes of a datagram, with its size *)
Definition socket_server_udp_address (data : list Z) (ud : Z) : outcome (option (list Z * Z)) :=
  let address := drop (Z.to_nat ud) data in
  addrsz ← udp_address_size address;
  Ret (match addrsz with Some n => Some (take (Z.to_nat n) address, n) | None => None end).

(** ** Information *)
Definition query_info (s : socket) (w : W) : outcome (option socket_info * W) :=
  let info type (name : option string) :=
    Some (SocketInfo (s_id s) type (s_opaque s) (st_read (s_stat s)) (st_write (s_stat s))
            (st_rtime (s_stat s)) (st_wtime (s_stat s)) (s_wb_size s) (default ""%string name)) in
  if bool_decide (s_type s = SOCKET_TYPE_BIND) then Ret (info SOCKET_INFO_BIND None, w)
  else if bool_decide (s_type s = SOCKET_TYPE_LISTEN) then
    let '(u, w) := k_getsockname (s_fd s) w in
    Ret (info SOCKET_INFO_LISTEN (u ≫= getname), w)
  else if bool_decide (s_type s = SOCKET_TYPE_CONNECTED) then
    if bool_decide (s_protocol s = PROTOCOL_TCP) then
      let '(u, w) := k_getpeername (s_fd s) w in
      Ret (info SOCKET_INFO_TCP (u ≫= getname), w)
    else
      address ← udp_address_of s None;
      sa ← udp_socket_address s address;
      Ret (info SOCKET_INFO_UDP (sa ≫= getname), w)
  else Ret (None, w).

(** the list grows at its front *)
Definition info_slot (i : Z) (p : socket_server * list socket_info * W) :
    outcome (socket_server * list socket_info * W) :=
  let '(ss, si, w) := p in
  s ← get_socket ss i;
  '(temp, w) ← query_info s w;
  Ret (ss, match temp with Some temp => temp :: si | None => si end, w).
Definition socket_server_info (ss : socket_server) (w : W) : outcome (list socket_info * W) :=
  '(_, si, w) ← for_loop info_slot (Z.to_nat MAX_SOCKET) 0 1 (ss, [], w);
  Ret (si, w).
End api.
