(* ===== verification/SocketStream.v ===== *)
(** * What goes out of a TCP socket

    [send_buffer], the socket thread's way to send, takes bytes from the front of
    what is pending: the rest of a direct write, the high list, the low list. *)
From S2P Require Import Prelude CLib CNum SocketKernel SocketData SocketWrite SocketCtrl.
From Stdlib Require Import Ascii String.
#[local] Open Scope Z_scope.

(** ** Pending bytes *)
Definition data_of (l : list write_buffer) : list Z := mjoin (wb_data <$> l).
#[global] Arguments data_of : simpl never.

Lemma data_of_cons x l : data_of (x :: l) = wb_data x ++ data_of l.
Proof. done. Qed.
Lemma data_of_app l k : data_of (l ++ k) = data_of l ++ data_of k.
Proof. unfold data_of. by rewrite fmap_app, join_app. Qed.

(** [x] with [j] of its bytes gone *)
Definition advance (j : Z) (x : write_buffer) : write_buffer :=
  WriteBuffer (wb_buffer x) (wb_ptr x + j) (drop (Z.to_nat j) (wb_data x)) (wb_userobject x) (wb_udp_address x).

Lemma advance_0 x : advance 0 x = x.
Proof. destruct x. unfold advance. cbn. by rewrite Z.add_0_r, drop_0. Qed.

(** the list after some bytes were sent from its front *)
Inductive sent_from : list write_buffer → list Z → list write_buffer → Prop :=
  | sent_all l : sent_from l (data_of l) []
  | sent_part done x next j : 0 ≤ j ≤ Zlen (wb_data x) →
      sent_from (done ++ x :: next) (data_of done ++ take (Z.to_nat j) (wb_data x)) (advance j x :: next).

Lemma sent_from_none l : sent_from l [] l.
Proof.
  destruct l as [|x l]; [apply (sent_all [])|]. rewrite <- (advance_0 x) at 2.
  apply (sent_part [] x l 0). pose proof (Zlen_nonneg (wb_data x)). lia.
Qed.

Lemma sent_from_cons x l bs l' : sent_from l bs l' → sent_from (x :: l) (wb_data x ++ bs) l'.
Proof.
  intros [k|done y next j Hj].
  - apply (sent_all (x :: k)).
  - rewrite app_assoc. by apply (sent_part (x :: done) y next j).
Qed.

Lemma sent_from_data l bs l' : sent_from l bs l' → data_of l = bs ++ data_of l'.
Proof.
  intros [k|done x next j Hj]; [by rewrite app_nil_r|].
  rewrite data_of_app, !data_of_cons. cbn [advance wb_data].
  by rewrite <- !app_assoc, (app_assoc (take _ _)), take_drop.
Qed.

Section stream.
Context {W : Type} `{!Kernel W} `{!KernelLaws W}.

(** the bytes, and nothing else, were written to the descriptor *)
Definition appended (fd : Z) (bs : list Z) (w w' : W) : Prop :=
  wire w' fd = wire w fd ++ bs ∧ ∀ fd', fd' ≠ fd → wire w' fd' = wire w fd'.

Lemma appended_none fd (w w' : W) : wire w' = wire w → appended fd [] w w'.
Proof. intros E. unfold appended. by rewrite E, app_nil_r. Qed.

Lemma appended_trans fd bs bs' (w w1 w2 : W) :
  appended fd bs w w1 → appended fd bs' w1 w2 → appended fd (bs ++ bs') w w2.
Proof.
  intros [H1 H2] [H3 H4]. split; [by rewrite H3, H1, app_assoc|].
  intros fd' Hne. by rewrite H4, H2.
Qed.

Lemma appended_quiet fd bs (w w1 w2 : W) : appended fd bs w w1 → wire w2 = wire w1 → appended fd bs w w2.
Proof. intros [H1 H2] E. split; rewrite E; eauto. Qed.

Lemma free_wb_wire wb (w : W) : wire (write_buffer_free wb w) = wire w.
Proof. unfold write_buffer_free. destruct (wb_userobject wb); [apply soi_free_wire|apply free_wire]. Qed.

Lemma free_payload_wire b (w : W) : wire (free_payload b w) = wire w.
Proof. destruct b; [apply free_wire|apply soi_free_wire]. Qed.

Lemma free_list_wire l (w : W) : wire (free_wb_list l w) = wire w.
Proof.
  revert w. induction l as [|wb l IH]; intros w; [done|]. unfold free_wb_list in *. cbn [fold_left].
  by rewrite IH, free_wb_wire.
Qed.

Lemma sp_write_wire efd fd ud b (w : W) : wire (sp_write efd fd ud b w) = wire w.
Proof. apply epoll_ctl_wire. Qed.
Lemma sp_del_wire efd fd (w : W) : wire (sp_del efd fd w) = wire w.
Proof. apply epoll_ctl_wire. Qed.

(** ** Closing *)
Definition closed (s : socket) : Prop :=
  s_type s = SOCKET_TYPE_INVALID ∧ s_high s = [] ∧ s_low s = [] ∧ s_dw_buffer s = None.

Definition lock_fits (s : socket) (n : Z) : Prop := 0 ≤ n ∧ (s_dw_lock s = true ↔ 0 < n).

Lemma force_close_spec ss s n (w : W) : s_type s ≠ SOCKET_TYPE_INVALID → s_type s ≠ SOCKET_TYPE_RESERVE →
  lock_fits s n →
  ∃ s' w', force_close ss s n w = Ret (message_of s, s', n, w') ∧ closed s' ∧ s_dw_lock s' = s_dw_lock s ∧
    s_id s' = s_id s ∧ s_reading s' = READING_CLOSE ∧ wire w' = wire w.
Proof.
  intros Ht Hr [Hn Hl]. unfold force_close. rewrite bool_decide_eq_false_2 by done.
  rewrite (bool_decide_eq_true_2 (s_type s ≠ SOCKET_TYPE_RESERVE)) by done.
  cbn [cassert]. rewrite Ret_bind. cbv zeta.
  set (w1 := if bool_decide (s_reading _ = _) then _ else _).
  assert (wire w1 = wire w) as E1.
  { unfold w1. case_bool_decide; rewrite ?sp_del_wire; by rewrite !free_list_wire. }
  destruct s as [op hi lo wb st se fd id pr ty re uc ws p lk off dw]. cbn in *.
  unfold socket_lock, spinlock_lock. cbn [s_dw_lock set_reading set_low set_high].
  assert (∀ w : W, wire (if bool_decide (ty ≠ SOCKET_TYPE_BIND) then k_close fd w else w) = wire w) as Ec.
  { intros w2. case_bool_decide; [apply close_wire|done]. }
  destruct (decide (n = 0)) as [->|Hne].
  - assert (lk = false) as -> by (destruct lk; [pose proof (proj1 Hl eq_refl); lia|done]).
    rewrite bool_decide_eq_true_2 by done. rewrite !Ret_bind. cbn.
    destruct dw as [b|]; unfold socket_unlock; cbn; eexists _, _;
      (split; [reflexivity|]); repeat split; cbn; rewrite ?free_payload_wire, ?Ec; done.
  - assert (lk = true) as -> by (apply Hl; lia). rewrite bool_decide_eq_false_2 by done.
    rewrite !Ret_bind. cbn.
    destruct dw as [b|]; unfold socket_unlock; cbn; rewrite (bool_decide_eq_false_2 (n + 1 - 1 ≤ 0)) by lia;
      rewrite Ret_bind; replace (n + 1 - 1) with n by lia; eexists _, _;
      (split; [reflexivity|]); repeat split; cbn; rewrite ?free_payload_wire, ?Ec; done.
Qed.

(** ** One list *)
Lemma write_retry_spec fuel fd bs (w : W) : (k_signals w < fuel)%nat →
  ∃ r w', write_retry fuel fd bs w = Ret (r, w') ∧
    match r with
    | Ok n => 0 ≤ n ≤ Zlen bs ∧ appended fd (take (Z.to_nat n) bs) w w'
    | Err e => e ≠ EINTR ∧ appended fd [] w w'
    end.
Proof.
  revert w. induction fuel as [|fuel IH]; intros w Hf; [lia|]. cbn [write_retry].
  destruct (k_write fd bs w) as [r w1] eqn:Ew. destruct r as [n|e].
  - apply write_ok in Ew as (Hn & E & Eo). eexists _, _. split; [reflexivity|]. done.
  - case_bool_decide as He.
    + subst e. pose proof (write_interrupted _ _ _ _ Ew). apply write_err in Ew.
      destruct (IH w1) as (r & w2 & E & Hr); [lia|]. exists r, w2. split; [done|].
      destruct r; destruct Hr as [H1 H2]; (split; [done|]);
        by apply (appended_trans fd [] _ w w1 w2 (appended_none _ _ _ Ew)).
    + apply write_err in Ew. eexists _, _. split; [reflexivity|]. split; [done|]. by apply appended_none.
Qed.

Lemma set_list_twice pr l l' s : set_list pr l (set_list pr l' s) = set_list pr l s.
Proof. by destruct pr, s. Qed.

(** [s] after [bs] was sent *)
Definition after_send (pr : priority) (l : list write_buffer) (bs : list Z) (st : socket_stat) (s : socket) : socket :=
  set_list pr l (set_wb_size (s_wb_size s - Zlen bs) (set_stat st s)).

Lemma after_send_twice pr l bs st l' bs' st' s :
  after_send pr l bs st (after_send pr l' bs' st' s) = after_send pr l (bs' ++ bs) st s.
Proof.
  unfold after_send. rewrite Zlen_app, Z.sub_add_distr. by destruct pr, s.
Qed.

Lemma send_list_tcp_spec ss pr l s n (w : W) : s_type s ≠ SOCKET_TYPE_INVALID → s_type s ≠ SOCKET_TYPE_RESERVE →
  lock_fits s n →
  ∃ r s' w' bs l', send_list_tcp ss pr l s n w = Ret (r, s', n, w') ∧ sent_from l bs l' ∧
    appended (s_fd s) bs w w' ∧
    ((r = Some (SOCKET_CLOSE, message_of s) ∧ closed s' ∧ s_dw_lock s' = s_dw_lock s ∧ s_id s' = s_id s) ∨
     (r = None ∧ ∃ st, s' = after_send pr l' bs st s)).
Proof.
  revert s w. induction l as [|x l IH]; intros s w Ht Hr Hl.
  { exists None, (set_list pr [] s), w, [], []. split; [done|]. split; [apply sent_from_none|].
    split; [by apply appended_none|]. right. split; [done|]. exists (s_stat s).
    unfold after_send. rewrite Zlen_nil, Z.sub_0_r. by destruct s, pr. }
  cbn [send_list_tcp]. set (s0 := set_list pr (x :: l) s).
  assert (s_fd s0 = s_fd s) as Efd by (by destruct pr).
  assert (s_type s0 = s_type s ∧ s_dw_lock s0 = s_dw_lock s ∧ message_of s0 = message_of s ∧ s_id s0 = s_id s)
    as (Et & Elk & Em & Eid) by (by destruct pr).
  unfold write_again. rewrite Efd. destruct (write_retry_spec (S (k_signals w)) (s_fd s) (wb_data x) w)
    as (res & w1 & E & Hres); [lia|]. rewrite E, Ret_bind. destruct res as [sz|e].
  - destruct Hres as [Hsz Happ]. case_bool_decide as Hfull.
    + eexists _, _, _, (data_of [] ++ take (Z.to_nat sz) (wb_data x)), (advance sz x :: l).
      split; [reflexivity|]. split; [by apply (sent_part [])|]. split; [done|]. right. split; [done|].
      exists (s_stat (stat_write ss s (i32 sz))). unfold after_send, stat_write.
      assert (Zlen (data_of [] ++ take (Z.to_nat sz) (wb_data x)) = sz) as ->.
      { change (Zlen (take (Z.to_nat sz) (wb_data x)) = sz). unfold Zlen in *. rewrite length_take. lia. }
      by destruct pr, s.
    + assert (sz = Zlen (wb_data x)) as -> by lia.
      rewrite take_ge in Happ by (unfold Zlen; lia).
      set (s1 := set_wb_size _ _).
      destruct (IH s1 (write_buffer_free x w1)) as (r & s' & w' & bs & l' & E1 & Hsf & Ha & Hcase).
      { unfold s1. cbn. by rewrite Et. }
      { unfold s1. cbn. by rewrite Et. }
      { unfold lock_fits, s1. cbn. by rewrite Elk. }
      exists r, s', w', (wb_data x ++ bs), l'. split; [done|]. split; [by apply sent_from_cons|]. split.
      * apply (appended_trans _ _ _ _ (write_buffer_free x w1)).
        -- eapply appended_quiet; [done|apply free_wb_wire].
        -- by destruct pr.
      * destruct Hcase as [(-> & Hc & Hk & Hi)|(-> & st & ->)].
        -- left. split; [by destruct pr|]. by destruct pr.
        -- right. split; [done|]. exists st. rewrite <- (after_send_twice pr l' bs st (x :: l) (wb_data x)
             (s_stat s1) s). f_equal. unfold s1, stat_write, after_send. by destruct pr, s.
  - destruct Hres as [He Happ]. case_bool_decide.
    + exists None, s0, w1, [], (x :: l). split; [done|]. split; [apply sent_from_none|]. split; [done|].
      right. split; [done|]. exists (s_stat s). unfold after_send, s0. rewrite Zlen_nil, Z.sub_0_r.
      by destruct s, pr.
    + destruct (force_close_spec ss s0 n w1) as (s' & w' & E1 & Hc & Hk & Hi & _ & Ew).
      { by rewrite Et. } { by rewrite Et. } { unfold lock_fits. by rewrite Elk. }
      rewrite E1, Ret_bind, Em. exists (Some (SOCKET_CLOSE, message_of s)), s', w', [], (x :: l).
      split; [done|]. split; [apply sent_from_none|]. split; [by eapply appended_quiet|].
      left. by rewrite Hk, Hi, Elk, Eid.
Qed.

(** ** Both lists *)
Definition fresh (wb : write_buffer) : Prop := wb_ptr wb = wb_buffer wb.
Definition payload_bytes (b : payload) : list Z := (send_object_init b).1.2.
Definition direct_bytes (s : socket) : list Z :=
  match s_dw_buffer s with Some b => drop (Z.to_nat (s_dw_offset s)) (payload_bytes b) | None => [] end.
(** the bytes still to be sent, in the order they go out *)
Definition pending (s : socket) : list Z := direct_bytes s ++ data_of (s_high s) ++ data_of (s_low s).

Record tcp_ok (s : socket) : Prop := {
  t_protocol : s_protocol s = PROTOCOL_TCP;
  t_low : Forall fresh (s_low s);
  t_size : s_wb_size s = Zlen (data_of (s_high s)) + Zlen (data_of (s_low s));
  t_open : s_type s ≠ SOCKET_TYPE_INVALID ∧ s_type s ≠ SOCKET_TYPE_RESERVE
}.

Definition with_lists (hi lo : list write_buffer) (size : Z) (st : socket_stat) (warn : Z) (s : socket) : socket :=
  set_warn_size warn (set_high hi (set_low lo (set_wb_size size (set_stat st s)))).

(** what one run of [send_buffer_] does: whole packages move from the low list to
    the front, and the bytes that went out are those at the front *)
Definition flushes (s : socket) (bs : list Z) (r : result) (s' : socket) : Prop :=
  (r = Some (SOCKET_CLOSE, message_of s) ∧ closed s' ∧ s_dw_lock s' = s_dw_lock s ∧ s_id s' = s_id s ∧
   ∃ rest, data_of (s_high s) ++ data_of (s_low s) = bs ++ rest) ∨
  (is_close r = false ∧ ∃ moved hi lo st warn, s_low s = moved ++ lo ∧
   data_of (s_high s ++ moved) = bs ++ data_of hi ∧
   s' = with_lists hi lo (s_wb_size s - Zlen bs) st warn s ∧
   (s_type s = SOCKET_TYPE_HALFCLOSE → hi ≠ [] ∨ lo ≠ []) ∧
   (r = None ∨ r = Some (SOCKET_WARNING, message_of s) ∧ hi = [] ∧ lo = [])).

Lemma close_is_close m : is_close (Some (SOCKET_CLOSE, m)) = true.
Proof. done. Qed.

Lemma send_list_tcp_eq ss pr s n (w : W) : tcp_ok s →
  send_list ss pr s n w = send_list_tcp ss pr (get_list pr s) s n w.
Proof. intros [Hp _ _ _]. unfold send_list. by rewrite bool_decide_eq_true_2. Qed.

Lemma after_send_high_ok l bs st s : tcp_ok s → data_of (s_high s) = bs ++ data_of l →
  tcp_ok (after_send PRIORITY_HIGH l bs st s).
Proof.
  intros [H1 H2 H3 H4] E. split; try done. change (s_wb_size s - Zlen bs = Zlen (data_of l) + Zlen (data_of (s_low s))).
  rewrite H3, E, Zlen_app. lia.
Qed.

Lemma send_finished_spec ss i s n (w : W) st moved bs :
  (* [s] is [s0] with everything sent *)
  ∀ s0, tcp_ok s0 → lock_fits s0 n → s_low s0 = moved → data_of (s_high s0 ++ moved) = bs →
  s = with_lists [] [] (s_wb_size s0 - Zlen bs) st (s_warn_size s0) s0 →
  ∃ r s' w', send_finished ss i s n w = Ret (r, s', n, w') ∧ wire w' = wire w ∧ flushes s0 bs r s'.
Proof.
  intros s0 [H1 H2 H3 H4] Hl Hm Hbs ->. unfold send_finished.
  assert (s_wb_size s0 - Zlen bs = 0) as Hz.
  { rewrite H3, <- Hbs, data_of_app, Zlen_app, Hm. lia. }
  change (send_buffer_empty _) with true. cbn [s_wb_size with_lists set_warn_size set_high set_low set_wb_size].
  rewrite (bool_decide_eq_true_2 _ Hz). cbn [andb cassert]. rewrite Ret_bind. cbv zeta.
  set (s1 := with_lists _ _ _ _ _ s0). change (s_type s1) with (s_type s0). change (s_warn_size s1) with (s_warn_size s0).
  case_bool_decide as Hh; [|case_bool_decide as Hw].
  - destruct (force_close_spec ss s1 n (sp_write (ss_event_fd ss) (s_fd s1) (Some i) false w))
      as (s' & w' & E & Hc & Hk & Hi & _ & Ew); try apply H4; [exact Hl|].
    rewrite E, Ret_bind. eexists _, _, _. split; [reflexivity|]. split; [by rewrite Ew, sp_write_wire|].
    left. split; [done|]. split; [done|]. split; [done|]. split; [done|]. exists [].
    by rewrite app_nil_r, <- Hbs, data_of_app, Hm.
  - eexists _, _, _. split; [reflexivity|]. split; [apply sp_write_wire|]. right. split; [done|].
    exists moved, [], [], st, 0. rewrite !app_nil_r. split; [done|]. split; [done|]. split; [done|].
    split; [done|]. by right.
  - eexists _, _, _. split; [reflexivity|]. split; [apply sp_write_wire|]. right. split; [done|].
    exists moved, [], [], st, (s_warn_size s0). rewrite !app_nil_r. split; [done|]. split; [done|]. split; [done|].
    split; [done|]. by left.
Qed.

Lemma sent_from_fresh l bs l' : Forall fresh l → sent_from l bs l' →
  (list_uncomplete l' = false ∧ ∃ moved, l = moved ++ l' ∧ data_of moved = bs) ∨
  (list_uncomplete l' = true ∧ ∃ moved x lo, l' = x :: lo ∧ l = moved ++ lo ∧ data_of moved = bs ++ wb_data x).
Proof.
  intros Hf Hs. revert Hf. destruct Hs as [k|done x next j Hj]; intros Hf.
  - left. split; [done|]. exists k. by rewrite app_nil_r.
  - apply Forall_app in Hf as [_ [Hx _]%Forall_cons]. unfold fresh in Hx.
    unfold list_uncomplete. cbn [advance wb_ptr wb_buffer]. case_bool_decide as Hp.
    + right. split; [done|]. exists (done ++ [x]), (advance j x), next. split; [done|].
      split; [by rewrite <- app_assoc|]. rewrite data_of_app. cbn [advance wb_data].
      by rewrite <- app_assoc, take_drop, data_of_cons, app_nil_r.
    + left. split; [done|]. assert (j = 0) as -> by lia. exists done. split; [by rewrite advance_0|].
      by rewrite take_0, app_nil_r.
Qed.

Lemma send_buffer__spec ss i s n (w : W) : tcp_ok s → lock_fits s n →
  ∃ r s' w' bs, send_buffer_ ss i s n w = Ret (r, s', n, w') ∧ appended (s_fd s) bs w w' ∧ flushes s bs r s'.
Proof.
  intros Hok Hl. pose proof Hok as [H1 H2 H3 [H4 H5]]. unfold send_buffer_.
  assert (list_uncomplete (s_low s) = false) as ->.
  { destruct (s_low s) as [|x lo]; [done|]. apply Forall_cons in H2 as [Hx _].
    unfold list_uncomplete. apply bool_decide_eq_false_2. intros Hne. by apply Hne. }
  cbn [negb cassert]. rewrite Ret_bind, send_list_tcp_eq by done. cbn [get_list].
  destruct (send_list_tcp_spec ss PRIORITY_HIGH (s_high s) s n w H4 H5 Hl)
    as (r & s1 & w1 & bs & hi & E & Hsf & Ha & Hcase). rewrite E, Ret_bind.
  pose proof (sent_from_data _ _ _ Hsf) as Hhi.
  destruct Hcase as [(-> & Hc & Hk & Hi)|(-> & st & ->)].
  { cbv beta iota. rewrite close_is_close. eexists _, _, _, bs. split; [reflexivity|]. split; [done|].
    left. split; [done|]. split; [done|]. split; [done|]. split; [done|]. exists (data_of hi ++ data_of (s_low s)).
    by rewrite Hhi, app_assoc. }
  cbv beta iota. change (is_close None) with false. cbv iota. set (s1 := after_send _ _ _ _ s).
  change (s_high s1) with hi. change (s_low s1) with (s_low s).
  destruct hi as [|x hi]; cbn [empty_list negb]; cbv iota.
  2:{ eexists _, _, _, bs. split; [reflexivity|]. split; [done|]. right. split; [done|].
      exists [], (x :: hi), (s_low s), st, (s_warn_size s). split; [done|]. split; [by rewrite app_nil_r|].
      split; [by destruct s|]. split; [by left|]. by left. }
  rewrite app_nil_r in Hhi. assert (tcp_ok s1) as Hok1 by (apply after_send_high_ok; [done|by rewrite app_nil_r]).
  destruct (empty_list (s_low s)) eqn:Elow.
  { assert (s_low s = []) as El by (by destruct (s_low s)).
    destruct (send_finished_spec ss i s1 n w1 st [] bs s Hok Hl El) as (r & s' & w' & E1 & Ew & Hfl).
    - by rewrite app_nil_r.
    - unfold s1, after_send. destruct s. cbn in *. by rewrite El.
    - eexists _, _, _, bs. split; [done|]. split; [by eapply appended_quiet|done]. }
  rewrite send_list_tcp_eq by done. cbn [get_list].
  destruct (send_list_tcp_spec ss PRIORITY_LOW (s_low s1) s1 n w1) as (r2 & s2 & w2 & bs2 & lo & E2 & Hsf2 & Ha2 & Hcase2);
    [done|done|exact Hl|]. rewrite E2, Ret_bind. change (s_low s1) with (s_low s) in Hsf2.
  change (s_fd s1) with (s_fd s) in Ha2. pose proof (appended_trans _ _ _ _ _ _ Ha Ha2) as Ha'.
  destruct Hcase2 as [(-> & Hc & Hk & Hi)|(-> & st2 & ->)].
  { cbv beta iota. rewrite close_is_close. eexists _, _, _, (bs ++ bs2). split; [reflexivity|]. split; [done|].
    left. split; [done|]. split; [done|]. split; [done|]. split; [done|]. exists (data_of lo).
    by rewrite Hhi, (sent_from_data _ _ _ Hsf2), app_assoc. }
  cbv beta iota. change (is_close None) with false. cbv iota.
  change (s_low (after_send PRIORITY_LOW lo bs2 st2 s1)) with lo.
  assert (s_wb_size s1 - Zlen bs2 = s_wb_size s - Zlen (bs ++ bs2)) as Hsz.
  { rewrite Zlen_app. change (s_wb_size s1) with (s_wb_size s - Zlen bs). lia. }
  destruct (sent_from_fresh _ _ _ H2 Hsf2) as [(Hu & moved & Em & Hd)|(Hu & moved & x & lo' & -> & Em & Hd)];
    rewrite Hu; cbv iota.
  - destruct lo as [|x lo]; cbn [empty_list negb]; cbv iota.
    + rewrite app_nil_r in Em.
      destruct (send_finished_spec ss i (after_send PRIORITY_LOW [] bs2 st2 s1) n w2 st2 moved (bs ++ bs2) s Hok Hl Em)
        as (r & s' & w' & E1 & Ew & Hfl).
      * by rewrite data_of_app, Hhi, Hd.
      * unfold after_send. rewrite Hsz. by destruct s.
      * eexists _, _, _, _. split; [done|]. split; [by eapply appended_quiet|done].
    + eexists _, _, _, _. split; [reflexivity|]. split; [done|]. right. split; [done|].
      exists moved, [], (x :: lo), st2, (s_warn_size s). split; [done|].
      split; [by rewrite data_of_app, Hhi, Hd, app_nil_r|]. split; [|split; [by right|by left]].
      unfold after_send. rewrite Hsz. by destruct s.
  - unfold raise_uncomplete. set (s2 := after_send PRIORITY_LOW (x :: lo') bs2 st2 s1).
    change (s_low s2) with (x :: lo'). change (s_high s2) with (@nil write_buffer). cbn [empty_list cassert].
    rewrite !Ret_bind. eexists _, _, _, _. split; [reflexivity|]. split; [done|]. right. split; [done|].
    exists moved, [x], lo', st2, (s_warn_size s). split; [done|].
    split; [by rewrite data_of_app, Hhi, Hd, data_of_cons, app_nil_r, app_assoc|].
    split; [|split; [by left|by left]]. unfold s2, after_send. rewrite Hsz. by destruct s.
Qed.

(** ** With the rest of a direct write *)
Lemma direct_rest_lists s : data_of (s_high (direct_rest s)) = direct_bytes s ++ data_of (s_high s) ∧
  s_low (direct_rest s) = s_low s ∧ s_dw_buffer (direct_rest s) = None.
Proof.
  unfold direct_rest, direct_bytes, payload_bytes. destruct (s_dw_buffer s) as [b|] eqn:E; [|done].
  by destruct (send_object_init b) as [[ptr bs] user].
Qed.

Lemma direct_rest_same s : s_fd (direct_rest s) = s_fd s ∧ s_type (direct_rest s) = s_type s ∧
  s_id (direct_rest s) = s_id s ∧ s_dw_lock (direct_rest s) = s_dw_lock s ∧
  message_of (direct_rest s) = message_of s ∧ s_sending (direct_rest s) = s_sending s ∧
  s_protocol (direct_rest s) = s_protocol s.
Proof.
  unfold direct_rest. destruct (s_dw_buffer s) as [b|]; [|done].
  by destruct (send_object_init b) as [[ptr bs] user].
Qed.

Lemma direct_rest_ok s : tcp_ok s → tcp_ok (direct_rest s).
Proof.
  intros [H1 H2 H3 H4]. unfold direct_rest. destruct (s_dw_buffer s) as [b|]; [|done].
  destruct (send_object_init b) as [[ptr bs] user]. split; try done.
  set (d := drop (Z.to_nat (s_dw_offset s)) bs).
  change (s_wb_size s + Zlen d = Zlen (d ++ data_of (s_high s)) + Zlen (data_of (s_low s))).
  rewrite Zlen_app. lia.
Qed.

Lemma send_buffer_blocked ss i s (w : W) : s_dw_lock s = true → send_buffer ss i s 0 w = Ret (None, s, 0, w).
Proof. intros Hl. unfold send_buffer, socket_trylock. by rewrite bool_decide_eq_true_2, Hl by done. Qed.

Lemma send_buffer_spec ss i s (w : W) : tcp_ok s → s_dw_lock s = false →
  ∃ r s' w' bs, send_buffer ss i s 0 w = Ret (r, spinlock_unlock s', 0, w') ∧ appended (s_fd s) bs w w' ∧
    flushes (direct_rest (set_dw_lock true s)) bs r s'.
Proof.
  intros Hok Hl. unfold send_buffer, socket_trylock. rewrite bool_decide_eq_true_2, Hl by done.
  cbv beta iota. set (s1 := set_dw_lock true s).
  assert (tcp_ok s1) as Hok1 by (by destruct Hok).
  destruct (direct_rest_same s1) as (Efd & _ & _ & Elk & _).
  destruct (send_buffer__spec ss i (direct_rest s1) 1 w) as (r & s' & w' & bs & E & Ha & Hf).
  { by apply direct_rest_ok. }
  { split; [lia|]. by rewrite Elk. }
  change (0 + 1) with 1. rewrite E, Ret_bind. exists r, s', w', bs.
  split; [|split; [by rewrite Efd in Ha|done]]. reflexivity.
Qed.

Lemma flushes_ok s bs r s' : tcp_ok s → s_dw_buffer s = None → flushes s bs r s' → is_close r = false →
  tcp_ok s' ∧ s_dw_buffer s' = None ∧ data_of (s_high s) ++ data_of (s_low s) = bs ++ pending s' ∧
  s_type s' = s_type s ∧ (s_type s = SOCKET_TYPE_HALFCLOSE → s_high s' ≠ [] ∨ s_low s' ≠ []).
Proof.
  intros [H1 H2 H3 H4] Hdw [(-> & _)|(_ & moved & hi & lo & st & warn & Em & Ed & -> & Hh & _)] Hr; [done|].
  rewrite data_of_app in Ed. rewrite Em in H2, H3.
  assert (data_of (s_high s) ++ data_of (s_low s) = bs ++ data_of hi ++ data_of lo) as Eall.
  { by rewrite Em, data_of_app, app_assoc, Ed, <- app_assoc. }
  split; [|split; [done|split; [|split; [done|exact Hh]]]].
  - split; [done| | |done].
    + by apply Forall_app in H2 as [_ H2].
    + change (s_wb_size s - Zlen bs = Zlen (data_of hi) + Zlen (data_of lo)).
      assert (Zlen (data_of (s_high s)) + Zlen (data_of moved) = Zlen bs + Zlen (data_of hi)) as El.
      { by rewrite <- !Zlen_app, Ed. }
      rewrite H3, data_of_app, Zlen_app. lia.
  - unfold pending, direct_bytes. change (s_dw_buffer (with_lists hi lo _ st warn s)) with (s_dw_buffer s).
    by rewrite Hdw, Eall.
Qed.

(** The socket thread's way to send a TCP socket takes bytes from the front of
    what is pending: the rest of a direct write, the high list, the low list. It
    never fails an assertion and ends with the lock free. Unless it closes the
    socket nothing is lost or repeated and the accounts are right; a half-closed
    socket is closed as soon as nothing is left, and otherwise only when a write
    fails. While another thread holds the lock, nothing happens. *)
Theorem send_buffer_stream ss i s (w : W) : tcp_ok s →
  (s_dw_lock s = true → send_buffer ss i s 0 w = Ret (None, s, 0, w)) ∧
  (s_dw_lock s = false → ∃ r s' w' bs, send_buffer ss i s 0 w = Ret (r, s', 0, w') ∧
     appended (s_fd s) bs w w' ∧ s_dw_lock s' = false ∧
     ((r = Some (SOCKET_CLOSE, message_of s) ∧ closed s' ∧ ∃ rest, pending s = bs ++ rest) ∨
      (is_close r = false ∧ tcp_ok s' ∧ s_dw_buffer s' = None ∧ pending s = bs ++ pending s' ∧
       s_type s' = s_type s ∧ (s_type s = SOCKET_TYPE_HALFCLOSE → s_high s' ≠ [] ∨ s_low s' ≠ [])))).
Proof.
  intros Hok. split; [apply send_buffer_blocked|]. intros Hl.
  destruct (send_buffer_spec ss i s w Hok Hl) as (r & s' & w' & bs & E & Ha & Hf).
  exists r, (spinlock_unlock s'), w', bs. split; [done|]. split; [done|]. split; [done|].
  set (s1 := set_dw_lock true s) in *. destruct (direct_rest_lists s1) as (Ehi & Elo & Edw).
  destruct (direct_rest_same s1) as (_ & Ety & _ & _ & Em & _).
  assert (pending s = data_of (s_high (direct_rest s1)) ++ data_of (s_low (direct_rest s1))) as Ep.
  { rewrite Ehi, Elo. unfold pending. by rewrite <- app_assoc. }
  assert (tcp_ok (direct_rest s1)) as Hok1 by (apply direct_rest_ok; by destruct Hok).
  destruct (is_close r) eqn:Er.
  - left. destruct Hf as [(-> & Hc & _ & _ & rest & Er')|(Hr & _)]; [|congruence].
    split; [by rewrite Em|]. split; [exact Hc|]. exists rest. by rewrite Ep.
  - right. split; [done|]. destruct (flushes_ok _ _ _ _ Hok1 Edw Hf Er) as ([T1 T2 T3 T4] & Hd & Hp & Ht & Hh).
    rewrite Ety in *. repeat split; try done; try apply T4. by rewrite Ep.
Qed.
End stream.
