(* ===== verification/SocketIds.v ===== *)
(** * Ids of sockets

    [reserve_id] takes the next id whose slot is free; a request for an id that
    was given up does not touch the socket that has its slot now. *)
From S2P Require Import Prelude CLib CNum SocketKernel SocketData SocketWrite SocketCtrl.
From Stdlib Require Import Ascii String.
#[local] Open Scope Z_scope.

(** ** Reserving *)
Definition id_ok (id : Z) : Prop := 0 ≤ id < 2 ^ 31.
Definition next_id (id : Z) : Z := (id + 1) mod 2 ^ 31.

Record server_ok (ss : socket_server) : Prop := {
  k_slots : Zlen (ss_slot ss) = MAX_SOCKET;
  k_alloc : id_ok (ss_alloc_id ss)
}.

Lemma HASH_ID_eq id : id_ok id → HASH_ID id = id mod MAX_SOCKET.
Proof. unfold id_ok, HASH_ID, u32. intros. by rewrite (Z.mod_small id (2 ^ 32)) by lia. Qed.

Lemma HASH_ID_range id : 0 ≤ HASH_ID id < MAX_SOCKET.
Proof. by apply mod_range. Qed.

Lemma next_id_ok id : id_ok (next_id id).
Proof. by apply mod_range. Qed.

Lemma HASH_ID_next id : id_ok id → HASH_ID (next_id id) = (HASH_ID id + 1) mod MAX_SOCKET.
Proof.
  intros Hid. rewrite !HASH_ID_eq by (done || apply next_id_ok). unfold next_id. change MAX_SOCKET with (2 ^ 16).
  rewrite mod_pow2_mod by lia. by rewrite Zplus_mod_idemp_l.
Qed.

Definition reserved (id : Z) (s : socket) : socket :=
  set_fd (-1) (set_udpconnecting 0 (set_protocol PROTOCOL_UNKNOWN (set_id id (set_type SOCKET_TYPE_RESERVE s)))).

Lemma get_slot ss i : server_ok ss → 0 ≤ i < MAX_SOCKET → ∃ s, get_socket ss i = Ret s ∧ ss_slot ss !! Z.to_nat i = Some s.
Proof. intros [Hl _] Hi. apply get_idx_ok. by rewrite Hl. Qed.

(** *** A call that no other thread disturbs *)

(** one round looks at the slot of the next id *)
Lemma reserve_step_spec ss s : server_ok ss → ss_slot ss !! Z.to_nat (HASH_ID (next_id (ss_alloc_id ss))) = Some s →
  let id := next_id (ss_alloc_id ss) in
  reserve_step alone ss =
    if bool_decide (s_type s = SOCKET_TYPE_INVALID) then
      Ret (Got id, ss_set_slot (<[Z.to_nat (HASH_ID id) := reserved id s]> (ss_slot ss)) (ss_set_alloc_id id ss))
    else Ret (Taken, ss_set_alloc_id id ss).
Proof.
  intros [Hl Ha] Hs id. unfold reserve_step. cbv zeta. cbn [alone before_and before_test before_cas].
  unfold Datatypes.id.
  assert ((if bool_decide (i32 (ss_alloc_id ss + 1) < 0) then
     (Z.land (ss_alloc_id (ss_set_alloc_id (i32 (ss_alloc_id ss + 1)) ss)) 0x7fffffff,
      ss_set_alloc_id (Z.land (ss_alloc_id (ss_set_alloc_id (i32 (ss_alloc_id ss + 1)) ss)) 0x7fffffff)
        (ss_set_alloc_id (i32 (ss_alloc_id ss + 1)) ss))
     else (i32 (ss_alloc_id ss + 1), ss_set_alloc_id (i32 (ss_alloc_id ss + 1)) ss)) = (id, ss_set_alloc_id id ss)) as ->.
  { unfold id, next_id, id_ok in *. destruct (decide (ss_alloc_id ss = 2 ^ 31 - 1)) as [->|Hne].
    - done.
    - rewrite i32_small by lia. rewrite bool_decide_eq_false_2 by lia. by rewrite Z.mod_small by lia. }
  cbv beta iota. unfold get_socket. change (ss_slot (ss_set_alloc_id id ss)) with (ss_slot ss).
  pose proof (HASH_ID_range id). rewrite (proj2 (get_idx_Ret _ _ s)) by (split; [lia|exact Hs]). rewrite Ret_bind.
  destruct (bool_decide (s_type s = SOCKET_TYPE_INVALID)) eqn:Ety; [|done]. rewrite Ret_bind, Ety.
  unfold put_socket. change (ss_slot (ss_set_alloc_id id ss)) with (ss_slot ss).
  rewrite set_idx_ok by (rewrite Hl; lia). done.
Qed.

(** what is found in the [n] rounds that are left *)
Lemma reserve_loop_spec n k0 ss : server_ok ss → (n ≤ Z.to_nat MAX_SOCKET)%nat →
  let loop := reserve_loop n (λ _, alone) k0 (MAX_SOCKET - Z.of_nat n) ss in
  (∃ k id s, (k < n)%nat ∧ id_ok id ∧ HASH_ID id = (HASH_ID (ss_alloc_id ss) + 1 + Z.of_nat k) mod MAX_SOCKET ∧
     ss_slot ss !! Z.to_nat (HASH_ID id) = Some s ∧ s_type s = SOCKET_TYPE_INVALID ∧
     loop = Ret (id, ss_set_slot (<[Z.to_nat (HASH_ID id) := reserved id s]> (ss_slot ss)) (ss_set_alloc_id id ss))) ∨
  ((∀ k, (k < n)%nat → ∃ s, ss_slot ss !! Z.to_nat ((HASH_ID (ss_alloc_id ss) + 1 + Z.of_nat k) mod MAX_SOCKET) = Some s ∧
      s_type s ≠ SOCKET_TYPE_INVALID) ∧
   ∃ id, id_ok id ∧ loop = Ret (-1, ss_set_alloc_id id ss)).
Proof.
  revert k0 ss. induction n as [|n IH]; intros k0 ss Hok Hn loop; unfold loop; clear loop; cbn [reserve_loop].
  { right. split; [intros k Hk; lia|]. exists (ss_alloc_id ss). split; [apply Hok|].
    rewrite bool_decide_eq_false_2 by lia. by destruct ss. }
  rewrite bool_decide_eq_true_2 by lia. set (id := next_id (ss_alloc_id ss)).
  destruct (get_slot ss (HASH_ID id) Hok (HASH_ID_range id)) as (s & _ & Hs).
  rewrite (reserve_step_spec ss s Hok Hs). cbv zeta. fold id.
  assert (HASH_ID id = (HASH_ID (ss_alloc_id ss) + 1) mod MAX_SOCKET) as Hh by (apply HASH_ID_next; apply Hok).
  case_bool_decide as Hty.
  - left. exists 0%nat, id, s. rewrite Ret_bind. split; [lia|]. split; [apply next_id_ok|].
    split; [by rewrite Z.add_0_r|]. done.
  - rewrite Ret_bind. assert (server_ok (ss_set_alloc_id id ss)) as Hok'.
    { split; [apply Hok|apply next_id_ok]. }
    assert (∀ k, (HASH_ID (ss_alloc_id (ss_set_alloc_id id ss)) + 1 + Z.of_nat k) mod MAX_SOCKET =
                 (HASH_ID (ss_alloc_id ss) + 1 + Z.of_nat (S k)) mod MAX_SOCKET) as Hk.
    { intros k. change (ss_alloc_id (ss_set_alloc_id id ss)) with id. rewrite Hh.
      rewrite <- Z.add_assoc, Zplus_mod_idemp_l. f_equal. lia. }
    replace (MAX_SOCKET - Z.of_nat (S n) + 1) with (MAX_SOCKET - Z.of_nat n) by lia.
    destruct (IH (S k0) _ Hok' ltac:(lia)) as [(k & id' & s' & Hlt & Hid & Hhash & Hs' & Ht & E)|(Hall & id' & Hid & E)].
    + left. exists (S k), id', s'. split; [lia|]. split; [done|]. split; [by rewrite Hhash, Hk|].
      split; [exact Hs'|]. split; [exact Ht|]. exact E.
    + right. split; [|by exists id']. intros [|k] Hlt.
      * exists s. rewrite Z.add_0_r, <- Hh. done.
      * destruct (Hall k) as (s' & Hs' & Ht); [lia|]. exists s'. rewrite <- Hk. done.
Qed.

(** *** A call that runs together with other threads *)

(** they may do anything but lose slots *)
Definition keeps_slots (o : interference) : Prop :=
  ∀ ss, Zlen (ss_slot ss) = MAX_SOCKET →
    Zlen (ss_slot (before_and o ss)) = MAX_SOCKET ∧ Zlen (ss_slot (before_test o ss)) = MAX_SOCKET ∧
    Zlen (ss_slot (before_cas o ss)) = MAX_SOCKET.
(** the rounds that are lost to them, of the next [fuel] *)
Fixpoint lost_rounds (fuel : nat) (others : nat → interference) (k : nat) (ss : socket_server) : nat :=
  match fuel with
  | O => O
  | S fuel =>
      match reserve_step (others k) ss with
      | Ret (Taken, ss) => lost_rounds fuel others (S k) ss
      | Ret (Lost, ss) => S (lost_rounds fuel others (S k) ss)
      | _ => O
      end
  end.
(** a slot as this thread found it when it took it *)
Definition took (id : Z) (ss' : socket_server) : Prop :=
  id_ok id ∧ ∃ ss s, ss_slot ss !! Z.to_nat (HASH_ID id) = Some s ∧ s_type s = SOCKET_TYPE_INVALID ∧
    ss' = ss_set_slot (<[Z.to_nat (HASH_ID id) := reserved id s]> (ss_slot ss)) ss.

Lemma land_id x : id_ok (Z.land x 0x7fffffff).
Proof. change 0x7fffffff with (2 ^ 31 - 1). rewrite land_mask by lia. by apply mod_range. Qed.

Lemma reserve_step_any o ss : keeps_slots o → Zlen (ss_slot ss) = MAX_SOCKET →
  ∃ r ss', reserve_step o ss = Ret (r, ss') ∧ Zlen (ss_slot ss') = MAX_SOCKET ∧
    match r with
    | Got id => took id ss'
    | Taken => ∃ id s, id_ok id ∧ ss_slot ss' !! Z.to_nat (HASH_ID id) = Some s ∧ s_type s ≠ SOCKET_TYPE_INVALID
    | Lost => ∃ ss0 id s s', id_ok id ∧ ss' = before_cas o ss0 ∧ ss_slot ss0 !! Z.to_nat (HASH_ID id) = Some s ∧
        s_type s = SOCKET_TYPE_INVALID ∧ ss_slot ss' !! Z.to_nat (HASH_ID id) = Some s' ∧ s_type s' ≠ SOCKET_TYPE_INVALID
    end.
Proof.
  intros Hk Hl. unfold reserve_step. cbv zeta. set (p := if bool_decide (i32 (ss_alloc_id ss + 1) < 0) then _ else _).
  assert (id_ok p.1 ∧ Zlen (ss_slot p.2) = MAX_SOCKET) as [Hid Hp].
  { unfold p. case_bool_decide as Hneg; cbn [fst snd].
    - split; [apply land_id|]. by apply (Hk (ss_set_alloc_id (i32 (ss_alloc_id ss + 1)) ss)).
    - split; [|done]. unfold id_ok, i32 in *. pose proof (mod_range (ss_alloc_id ss + 1 + 2 ^ 31) (2 ^ 32) ltac:(lia)). lia. }
  destruct p as [id ss1]. cbn [fst snd] in Hid, Hp. cbv beta iota.
  destruct (Hk _ Hp) as (_ & Ht & _). destruct (Hk _ Ht) as (_ & _ & Hc). pose proof (HASH_ID_range id) as Hr.
  unfold get_socket. destruct (get_idx_ok (ss_slot (before_test o ss1)) (HASH_ID id)) as (s & -> & Hs); [lia|]. rewrite Ret_bind.
  case_bool_decide as Hty; [|do 2 eexists; split; [done|]; split; [done|by exists id, s]].
  destruct (get_idx_ok (ss_slot (before_cas o (before_test o ss1))) (HASH_ID id)) as (s' & -> & Hs'); [lia|]. rewrite Ret_bind.
  case_bool_decide as Hty'; [|do 2 eexists; split; [done|]; split; [done|by exists (before_test o ss1), id, s, s']].
  unfold put_socket. rewrite set_idx_ok by (rewrite Hc; lia). rewrite Ret_bind. do 2 eexists. split; [done|].
  split; [cbn; by rewrite Zlen_insert|]. split; [done|]. by exists (before_cas o (before_test o ss1)), s'.
Qed.

Lemma reserve_loop_any others fuel : ∀ k i ss, (∀ k, keeps_slots (others k)) → Zlen (ss_slot ss) = MAX_SOCKET → i ≤ MAX_SOCKET →
  MAX_SOCKET - i + Z.of_nat (lost_rounds fuel others k ss) ≤ Z.of_nat fuel →
  ∃ id ss', reserve_loop fuel others k i ss = Ret (id, ss') ∧ Zlen (ss_slot ss') = MAX_SOCKET ∧ (id = -1 ∨ took id ss').
Proof.
  induction fuel as [|fuel IH]; intros k i ss Ho Hl Hi Hf; cbn [reserve_loop lost_rounds] in *;
    (destruct (bool_decide (i < MAX_SOCKET)) eqn:Ei;
       [apply bool_decide_eq_true in Ei|by do 2 eexists; split; [done|]; split; [done|left]]); [lia|].
  destruct (reserve_step_any (others k) ss (Ho k) Hl) as (r & ss' & E & Hl' & Hr). rewrite E in Hf |- *. rewrite Ret_bind.
  destruct r as [id| |].
  - do 2 eexists. split; [done|]. split; [done|by right].
  - apply IH; [done|done|lia|lia].
  - apply IH; [done|done|lia|lia].
Qed.

(** C19. Reserving an id ends, whatever the other threads do to the slots and to the
    counter between any two accesses: after at most one round per slot, and one
    for each time that another thread takes the slot this one has found free,
    between the test and the compare-and-swap. It returns a non-negative id whose
    slot was free when it was taken, and changes that slot and nothing else, or -1.
    A call that no other thread disturbs returns -1 only when no slot is free; all
    that holds across the wrap of the 31-bit counter. *)
Theorem reserve_id_fresh ss : server_ok ss →
  (∀ others fuel, (∀ k, keeps_slots (others k)) → MAX_SOCKET + Z.of_nat (lost_rounds fuel others 0 ss) ≤ Z.of_nat fuel →
     ∃ id ss', reserve_loop fuel others 0 0 ss = Ret (id, ss') ∧ (id = -1 ∨ took id ss')) ∧
  (∀ o ss1 ss2, keeps_slots o → Zlen (ss_slot ss1) = MAX_SOCKET → reserve_step o ss1 = Ret (Lost, ss2) →
     ∃ ss0 id s s', ss2 = before_cas o ss0 ∧ ss_slot ss0 !! Z.to_nat (HASH_ID id) = Some s ∧ s_type s = SOCKET_TYPE_INVALID ∧
       ss_slot ss2 !! Z.to_nat (HASH_ID id) = Some s' ∧ s_type s' ≠ SOCKET_TYPE_INVALID) ∧
  ((∃ id s, id_ok id ∧ ss_slot ss !! Z.to_nat (HASH_ID id) = Some s ∧ s_type s = SOCKET_TYPE_INVALID ∧
      let ss' := ss_set_slot (<[Z.to_nat (HASH_ID id) := reserved id s]> (ss_slot ss)) (ss_set_alloc_id id ss) in
      reserve_id ss = Ret (id, ss') ∧ server_ok ss') ∨
   (Forall (λ s, s_type s ≠ SOCKET_TYPE_INVALID) (ss_slot ss) ∧
      ∃ id, reserve_id ss = Ret (-1, ss_set_alloc_id id ss) ∧ server_ok (ss_set_alloc_id id ss))).
Proof.
  intros Hok. pose proof Hok as [Hl Ha]. split; [|split].
  - intros others fuel Ho Hf. destruct (reserve_loop_any others fuel 0 0 ss Ho Hl) as (id & ss' & E & _ & Hr); [done|lia|].
    by exists id, ss'.
  - intros o ss1 ss2 Ho Hl1 E. destruct (reserve_step_any o ss1 Ho Hl1) as (r & ss' & E' & _ & Hr).
    rewrite E in E'. injection E' as <- <-. destruct Hr as (ss0 & id & s & s' & _ & Hr). by exists ss0, id, s, s'.
  - destruct (reserve_loop_spec (Z.to_nat MAX_SOCKET) 0 ss Hok ltac:(done))
      as [(k & id & s & Hlt & Hid & Hhash & Hs & Ht & E)|(Hall & id & Hid & E)].
    + left. exists id, s. split; [done|]. split; [done|]. split; [done|]. split; [exact E|].
      split; [|done]. cbn. by rewrite Zlen_insert.
    + right. split; [|exists id; split; [exact E|by split]].
      apply Forall_lookup_2. intros j s Hj. pose proof (lookup_lt_Some _ _ _ Hj) as Hlt. unfold Zlen in Hl.
      set (a := HASH_ID (ss_alloc_id ss) + 1) in *.
      set (k := Z.to_nat ((Z.of_nat j - a) mod MAX_SOCKET)).
      pose proof (mod_range (Z.of_nat j - a) MAX_SOCKET ltac:(done)) as Hr.
      destruct (Hall k) as (s' & Hs' & Ht); [unfold k; lia|].
      unfold k in Hs'. rewrite Z2Nat.id in Hs' by lia. rewrite Zplus_mod_idemp_r in Hs'.
      replace (a + (Z.of_nat j - a)) with (Z.of_nat j) in Hs' by lia.
      rewrite Z.mod_small, Nat2Z.id in Hs' by lia. rewrite Hj in Hs'. injection Hs' as <-. exact Ht.
Qed.

(** ** Requests for ids that were given up *)
Section stale.
Context {W : Type} `{!Kernel W}.

(** the requests that name a socket that exists already *)
Definition request_id (req : request) : option Z :=
  match req with
  | RSend _ id _ | RSendUdp id _ _ | RSetUdp id _ | RClose id _ _ | RResume id _ | RPause id _ | RSetopt id _ _ => Some id
  | ROpen _ _ _ _ | RListen _ _ _ | RBind _ _ _ | RUdp _ _ _ _ | RExit => None
  end.

(** what the service is told, and the buffer that is released *)
Definition stale_answer (req : request) : result :=
  match req with
  | RClose id _ opaque => Some (SOCKET_CLOSE, SocketMessage id opaque 0 Null)
  | RResume id opaque => Some (SOCKET_ERR, SocketMessage id opaque 0 (Text "invalid socket"))
  | _ => None
  end.
Definition stale_release (req : request) (w : W) : W :=
  match req with RSend _ _ b | RSendUdp _ b _ => free_payload b w | _ => w end.

(** C20. A request for an id that is not the id of its slot any more, because the
    socket was closed and the slot taken again, changes no socket: its buffer is
    released, a close is answered as done and a start as an error. *)
Theorem stale_request_harmless ss req id s (w : W) : request_id req = Some id →
  get_socket ss (HASH_ID id) = Ret s → s_id s ≠ id →
  ctrl_cmd ss req w = Ret (stale_answer req, ss, stale_release req w).
Proof.
  intros Hr Hs Hid. assert (stale s id = true) as Hst by (apply bool_decide_eq_true_2; by right).
  destruct req; try discriminate Hr; injection Hr as ->; cbn [ctrl_cmd];
    unfold send_socket, set_udp_address, close_socket, resume_socket, pause_socket, setopt_socket.
  1,2: rewrite Hs, Ret_bind; destruct (send_object_init data) as [[? ?] ?];
    rewrite (bool_decide_eq_true_2 (_ ∨ _)) by naive_solver; rewrite ?Ret_bind; try done.
  - unfold dec_sending_ref. rewrite Hs, Ret_bind. rewrite bool_decide_eq_false_2 by naive_solver. done.
  - by rewrite Hs, Ret_bind, Hst.
  - by rewrite Hs, Ret_bind, Hst.
  - by rewrite Hs, Ret_bind, Hst.
  - by rewrite Hs, Ret_bind, Hst.
  - by rewrite Hs, Ret_bind, Hst.
Qed.
End stale.
