(* ===== verification/SocketOrder.v ===== *)
(** * Several threads send to one TCP socket

    The senders and the socket thread as a step relation. A sender writes at once
    when it gets the lock and nothing is waiting, or counts itself in [sending]
    and later puts a request in the pipe; the socket thread takes the requests and
    sends the buffers. Steps of different threads interleave freely. *)
From S2P Require Import Prelude CLib CNum SocketKernel SocketData SocketWrite SocketCtrl SocketPoll SocketApi SocketStream.
From Stdlib Require Import Ascii String.
#[local] Open Scope Z_scope.

Section order.
Context {W : Type} `{!Kernel W} `{!KernelLaws W} (id fd : Z).
#[local] Abbreviation i := (HASH_ID id).

(** a package: how it was sent, and its bytes *)
Definition package : Type := priority * list Z.

(** [y_holder]: the send that has the lock; [y_waiting]: the sends that are counted
    and not in the pipe yet; [y_log]: the packages in the order the sends took
    effect, at getting the lock or at entering the pipe *)
Record sys : Type := Sys {
  y_ss : socket_server;
  y_w : W;
  y_holder : option sendbuffer;
  y_waiting : list (priority * sendbuffer);
  y_log : list package
}.

(** an object is sent with high priority *)
Definition sendable (pr : priority) (buf : sendbuffer) : Prop :=
  pr = PRIORITY_LOW → match buf with SOCKET_BUFFER_OBJECT _ => False | _ => True end.

Inductive step : sys → sys → Prop :=
  | st_lock ss w waiting log buf s s' n ss' :
      get_socket ss i = Ret s → can_direct_write s id = true → socket_trylock s 0 = (true, s', n) →
      put_socket ss i s' = Ret ss' →
      step (Sys ss w None waiting log) (Sys ss' w (Some buf) waiting (log ++ [(PRIORITY_HIGH, sendbuffer_bytes buf)]))
  | st_write ss w waiting log buf s r s' w' ss' :
      get_socket ss i = Ret s → direct_write ss i s buf w = Ret (r, s', w') →
      put_socket ss i (spinlock_unlock s') = Ret ss' →
      step (Sys ss w (Some buf) waiting log) (Sys ss' w' None waiting log)
  | st_count ss w holder waiting log pr buf s s' ss' :
      sendable pr buf → get_socket ss i = Ret s → inc_sending_ref s id = Ret s' → put_socket ss i s' = Ret ss' →
      step (Sys ss w holder waiting log) (Sys ss' w holder (waiting ++ [(pr, buf)]) log)
  | st_request ss w holder l1 l2 log pr buf ss' w' :
      send_end ss pr id buf w = (ss', w') →
      step (Sys ss w holder (l1 ++ (pr, buf) :: l2) log) (Sys ss' w' holder (l1 ++ l2) (log ++ [(pr, sendbuffer_bytes buf)]))
  | st_ctrl ss w holder waiting log req pipe r ss' w' :
      ss_pipe ss = req :: pipe → ctrl_cmd (ss_set_pipe pipe ss) req w = Ret (r, ss', w') →
      step (Sys ss w holder waiting log) (Sys ss' w' holder waiting log)
  | st_flush ss w holder waiting log s r s' n w' ss' :
      get_socket ss i = Ret s → send_buffer ss i s 0 w = Ret (r, s', n, w') → is_close r = false →
      put_socket ss i s' = Ret ss' →
      step (Sys ss w holder waiting log) (Sys ss' w' holder waiting log).

(** ** The invariant *)
Definition in_pipe (req : request) : option package :=
  match req with RSend pr _ b => Some (pr, payload_bytes b) | _ => None end.
(** a request of a sender *)
Definition send_request_ok (req : request) : Prop :=
  match req with
  | RSend pr id' b => id' = id ∧ (pr = PRIORITY_LOW → match b with Object _ => False | Memory _ _ => True end)
  | _ => False
  end.
Definition piped (ss : socket_server) : list package := omap in_pipe (ss_pipe ss).
#[local] Arguments piped : simpl never.

Definition held (holder : option sendbuffer) (s : socket) : list Z :=
  match holder with Some buf => sendbuffer_bytes buf | None => direct_bytes s end.

(** [hs]: the packages that went out or are at the front, whole; [ls]: those of the low list *)
Definition stream_is (base : list Z) (y : sys) (s : socket) (hs ls : list (list Z)) : Prop :=
  wire (y_w y) (s_fd s) ++ held (y_holder y) s ++ data_of (s_high s) = base ++ mjoin hs ∧
  wb_data <$> s_low s = ls ∧
  hs ++ ls ++ (snd <$> piped (y_ss y)) ≡ₚ snd <$> y_log y ∧
  (Forall (λ p, p.1 = PRIORITY_HIGH) (y_log y) → ls = [] ∧ hs ++ (snd <$> piped (y_ss y)) = snd <$> y_log y).

Record inv (base : list Z) (y : sys) (s : socket) : Prop := {
  v_socket : get_socket (y_ss y) i = Ret s;
  v_id : s_id s = id;
  v_type : s_type s = SOCKET_TYPE_CONNECTED;
  v_ok : tcp_ok s;
  v_lock : s_dw_lock s = bool_decide (is_Some (y_holder y));
  v_direct : is_Some (y_holder y) → s_dw_buffer s = None;
  v_pipe : Forall send_request_ok (ss_pipe (y_ss y));
  v_waiting : Forall (λ p, sendable p.1 p.2) (y_waiting y);
  v_count : s_sending s = ID_TAG16 id * 2 ^ 16 + (Zlen (y_waiting y) + Zlen (ss_pipe (y_ss y))) ∧
            Zlen (y_waiting y) + Zlen (ss_pipe (y_ss y)) < 2 ^ 16;
  v_logged : ∀ p, p ∈ piped (y_ss y) → p ∈ y_log y;
  v_stream : ∃ hs ls, stream_is base y s hs ls;
  v_fd : s_fd s = fd
}.

Lemma tag_range : 0 ≤ ID_TAG16 id < 2 ^ 16.
Proof. unfold ID_TAG16. change 0xffff with (2 ^ 16 - 1). rewrite land_mask by lia. by apply mod_range. Qed.

Lemma count_low t c : 0 ≤ t < 2 ^ 16 → 0 ≤ c < 2 ^ 16 → Z.land (t * 2 ^ 16 + c) 0xffff = c.
Proof.
  intros. change 0xffff with (2 ^ 16 - 1). rewrite land_mask, Z.add_comm, Z.mod_add by lia.
  by apply Z.mod_small.
Qed.
Lemma count_high t c : 0 ≤ t < 2 ^ 16 → 0 ≤ c < 2 ^ 16 → Z.shiftr (t * 2 ^ 16 + c) 16 = t.
Proof. intros. rewrite Z.shiftr_div_pow2, Z.div_add_l, Z.div_small by lia. lia. Qed.

Lemma put_socket_get ss j s ss' : put_socket ss j s = Ret ss' →
  get_socket ss' j = Ret s ∧ ss' = ss_set_slot (<[Z.to_nat j := s]> (ss_slot ss)) ss.
Proof.
  unfold put_socket, get_socket. intros E. apply bind_Ret in E as (l & El & E).
  apply set_idx_Ret in El as [Hj ->]. injection E as <-. split; [|done]. apply get_idx_Ret. split; [lia|].
  cbn. apply list_lookup_insert_eq. unfold Zlen in Hj. lia.
Qed.

Lemma clone_bytes buf (w : W) : payload_bytes (clone_buffer buf w).1 = sendbuffer_bytes buf.
Proof.
  destruct buf as [l bs|l|l bs]; try done. unfold clone_buffer.
  destruct (k_malloc (Zlen bs) w) as [tmp w'] eqn:E. done.
Qed.
Lemma clone_wire buf (w : W) : wire (clone_buffer buf w).2 = wire w.
Proof.
  destruct buf as [l bs|l|l bs]; try done. unfold clone_buffer.
  destruct (k_malloc (Zlen bs) w) as [tmp w'] eqn:E. cbn. by rewrite <- (malloc_wire (Zlen bs) w), E.
Qed.

(** ** Each step keeps it *)
Definition empty_lists (s : socket) : Prop := s_high s = [] ∧ s_low s = [].

Lemma send_buffer_empty_true s : send_buffer_empty s = true ↔ empty_lists s.
Proof.
  unfold send_buffer_empty, empty_lists. rewrite andb_true_iff.
  destruct (s_high s), (s_low s); split; try done; by intros [? ?].
Qed.

Lemma nomore_true base y s : inv base y s → nomore_sending_data s = true →
  empty_lists s ∧ s_dw_buffer s = None ∧ y_waiting y = [] ∧ ss_pipe (y_ss y) = [].
Proof.
  intros [_ _ _ _ _ _ _ _ [Hc Hlt] _ _ _] E. unfold nomore_sending_data in E.
  rewrite !andb_true_iff, send_buffer_empty_true, !bool_decide_eq_true in E. destruct E as ((E1 & E2) & E3).
  pose proof (Zlen_nonneg (y_waiting y)). pose proof (Zlen_nonneg (ss_pipe (y_ss y))).
  rewrite Hc, count_low in E3 by (apply tag_range || lia). split; [done|]. split; [done|].
  split; apply Zlen_0; lia.
Qed.

Lemma can_direct_true s : can_direct_write s id = true → nomore_sending_data s = true.
Proof. unfold can_direct_write. rewrite !andb_true_iff. naive_solver. Qed.

Lemma keep_lock base ss w waiting log buf s s' n ss' :
  (∃ s0, inv base (Sys ss w None waiting log) s0) →
  get_socket ss i = Ret s → can_direct_write s id = true → socket_trylock s 0 = (true, s', n) →
  put_socket ss i s' = Ret ss' →
  ∃ s1, inv base (Sys ss' w (Some buf) waiting (log ++ [(PRIORITY_HIGH, sendbuffer_bytes buf)])) s1.
Proof.
  intros [s0 Hinv] Hs Hd Ht Hp. pose proof Hinv as [V1 V2 V3 V4 V5 V6 V7 V8 V9 V10 (hs & ls & E1 & E2 & E3 & E4) V12].
  cbn in *. rewrite Hs in V1. injection V1 as <-.
  destruct (nomore_true _ _ _ Hinv (can_direct_true _ Hd)) as ([Eh El] & Ed & Ew & Epi). cbn in *.
  rewrite El in E2. cbn in E2. subst ls. unfold direct_bytes in E1. rewrite Ed, Eh, !app_nil_r in E1.
  assert (piped ss = []) as Epp by (unfold piped; by rewrite Epi).
  rewrite Epp, !app_nil_r in E3. rewrite Epp, app_nil_r in E4. apply put_socket_get in Hp as [Hg ->].
  unfold socket_trylock in Ht. rewrite bool_decide_eq_true_2 in Ht by done.
  destruct (s_dw_lock s) eqn:Elk; [done|]. injection Ht as <- <-.
  exists (set_dw_lock true s). split; cbn; try done.
  - by destruct V4.
  - intros p Hpp. change (p ∈ piped ss) in Hpp. rewrite Epp in Hpp. by apply elem_of_nil in Hpp.
  - exists (hs ++ [sendbuffer_bytes buf]), []. split; [|split; [|split]]; cbn.
    + by rewrite Eh, mjoin_snoc, app_nil_r, E1, app_assoc.
    + by rewrite El.
    + change (piped _) with (piped ss). rewrite Epp, !app_nil_r, fmap_app. by rewrite E3.
    + intros Hall. split; [done|]. change (piped _) with (piped ss). rewrite Epp, app_nil_r, fmap_app.
      apply Forall_app in Hall as [Hall _]. destruct (E4 Hall) as [_ E]. by rewrite <- E.
Qed.

Lemma keep_write base ss w waiting log buf s r s' w' ss' :
  (∃ s0, inv base (Sys ss w (Some buf) waiting log) s0) →
  get_socket ss i = Ret s → direct_write ss i s buf w = Ret (r, s', w') →
  put_socket ss i (spinlock_unlock s') = Ret ss' →
  ∃ s1, inv base (Sys ss' w' None waiting log) s1.
Proof.
  intros [s0 Hinv] Hs Hd Hp. pose proof Hinv as [V1 V2 V3 V4 V5 V6 V7 V8 V9 V10 (hs & ls & E1 & E2 & E3 & E4) V12].
  cbn in *. rewrite Hs in V1. injection V1 as <-. specialize (V6 ltac:(by eexists)).
  apply put_socket_get in Hp as [Hg ->].
  unfold direct_write in Hd. rewrite (bool_decide_eq_true_2 _ (t_protocol _ V4)), Ret_bind in Hd.
  destruct (k_write (s_fd s) (sendbuffer_bytes buf) w) as [res w1] eqn:Ek.
  set (n := match res with Ok n => n | Err _ => 0 end) in Hd.
  assert (appended (s_fd s) (take (Z.to_nat n) (sendbuffer_bytes buf)) w w1) as Ha.
  { destruct res as [m|e].
    - apply write_ok in Ek as (_ & H1 & H2). by split.
    - apply write_err in Ek. rewrite take_0. by apply appended_none. }
  assert (n ≤ Zlen (sendbuffer_bytes buf)) as Hn.
  { destruct res as [m|e]; [apply write_ok in Ek as [Hm _]; unfold n; lia|]. apply Zlen_nonneg. }
  assert (∃ s1, s' = s1 ∧ wire w' = wire w1 ∧ s_dw_lock s1 = s_dw_lock s ∧
     held None s1 = drop (Z.to_nat n) (sendbuffer_bytes buf) ∧ s_high s1 = s_high s ∧ s_low s1 = s_low s ∧
     s_fd s1 = s_fd s ∧ s_id s1 = s_id s ∧ s_type s1 = s_type s ∧ s_protocol s1 = s_protocol s ∧
     s_wb_size s1 = s_wb_size s ∧ s_sending s1 = s_sending s) as (s1 & -> & Ew & _ & Eh & Ehi & Elo & Efd & Eid & Ety & Epr & Esz & Ese).
  { case_bool_decide as Hall.
    - injection Hd as _ <- <-. eexists. split; [reflexivity|].
      split; [destruct buf; [apply free_wire|apply soi_free_wire|done]|]. repeat split; try done.
      cbn. unfold direct_bytes. cbn. rewrite V6, drop_ge; [done|]. unfold Zlen in Hall. lia.
    - destruct (clone_buffer buf w1) as [b w2] eqn:Ec. injection Hd as _ <- <-. eexists. split; [reflexivity|].
      split; [rewrite sp_write_wire; change w2 with (b, w2).2; rewrite <- Ec; apply clone_wire|].
      repeat split; try done. cbn. unfold direct_bytes. cbn. f_equal.
      change b with (b, w2).1. rewrite <- Ec. apply clone_bytes. }
  exists (spinlock_unlock s1). split; cbn; rewrite ?Eid, ?Ety, ?Ese; try done.
  - destruct V4. split; cbn; rewrite ?Epr, ?Elo, ?Esz, ?Ehi, ?Ety; done.
  - exists hs, ls. split; [|split; [|done]].
    + cbn in *. change (direct_bytes (spinlock_unlock s1)) with (direct_bytes s1). rewrite Eh, Ehi, Efd, Ew.
      destruct Ha as [-> _]. by rewrite <- E1, <- !app_assoc, (app_assoc (take _ _)), take_drop.
    + cbn. by rewrite Elo.
  - by rewrite Efd.
Qed.

Lemma keep_count base ss w holder waiting log pr buf s s' ss' :
  (∃ s0, inv base (Sys ss w holder waiting log) s0) → sendable pr buf →
  get_socket ss i = Ret s → inc_sending_ref s id = Ret s' → put_socket ss i s' = Ret ss' →
  ∃ s1, inv base (Sys ss' w holder (waiting ++ [(pr, buf)]) log) s1.
Proof.
  intros [s0 Hinv] Hok Hs Hi Hp. pose proof Hinv as [V1 V2 V3 V4 V5 V6 V7 V8 [V9 V9'] V10 V11 V12].
  cbn in *. rewrite Hs in V1. injection V1 as <-. apply put_socket_get in Hp as [Hg ->].
  pose proof (Zlen_nonneg waiting). pose proof (Zlen_nonneg (ss_pipe ss)). pose proof tag_range as Ht.
  unfold inc_sending_ref in Hi. rewrite bool_decide_eq_false_2 in Hi by (rewrite (t_protocol _ V4); by intros []).
  rewrite V9, count_high in Hi by lia. rewrite bool_decide_eq_true_2 in Hi by done.
  rewrite count_low in Hi by lia.
  destruct (decide (Zlen waiting + Zlen (ss_pipe ss) = 0xffff)) as [|Hc]; [by rewrite bool_decide_eq_true_2 in Hi|].
  rewrite bool_decide_eq_false_2 in Hi by done. injection Hi as <-.
  set (c := Zlen waiting + Zlen (ss_pipe ss)) in *.
  exists (set_sending (u32 (ID_TAG16 id * 2 ^ 16 + c + 1)) s). split; cbn; try done.
  - by destruct V4.
  - apply Forall_app. split; [done|]. by apply Forall_singleton.
  - rewrite Zlen_app. change (Zlen [(pr, buf)]) with 1. unfold u32.
    rewrite Z.mod_small by lia. split; lia.
Qed.

Lemma keep_request base ss w holder l1 l2 log pr buf ss' w' :
  (∃ s0, inv base (Sys ss w holder (l1 ++ (pr, buf) :: l2) log) s0) → send_end ss pr id buf w = (ss', w') →
  ∃ s1, inv base (Sys ss' w' holder (l1 ++ l2) (log ++ [(pr, sendbuffer_bytes buf)])) s1.
Proof.
  intros [s Hinv] He. pose proof Hinv as [V1 V2 V3 V4 V5 V6 V7 V8 [V9 V9'] V10 (hs & ls & E1 & E2 & E3 & E4) V12].
  cbn in *. unfold send_end in He. pose proof (clone_bytes buf w) as Hb. pose proof (clone_wire buf w) as Hw.
  assert (pr = PRIORITY_LOW → match (clone_buffer buf w).1 with Object _ => False | Memory _ _ => True end) as Hobj.
  { intros Hpr. apply Forall_app in V8 as [_ [Hs _]%Forall_cons]. specialize (Hs Hpr). cbn in Hs.
    destruct buf as [l bs|l|l bs]; try done. unfold clone_buffer. by destruct (k_malloc _ _). }
  destruct (clone_buffer buf w) as [b w1]. injection He as <- <-. cbn in *.
  assert (piped (send_request ss (RSend pr id b)) = piped ss ++ [(pr, sendbuffer_bytes buf)]) as Hpp.
  { unfold piped. cbn. rewrite omap_app. cbn. by rewrite Hb. }
  assert (Zlen (l1 ++ l2) + Zlen (ss_pipe ss ++ [RSend pr id b]) =
    Zlen (l1 ++ (pr, buf) :: l2) + Zlen (ss_pipe ss)) as Hlen.
  { rewrite !Zlen_app, !Zlen_cons, Zlen_nil. lia. }
  exists s. split; cbn; try done.
  - apply Forall_app. split; [done|]. apply Forall_singleton. by split.
  - apply Forall_app in V8 as [? [_ ?]%Forall_cons]. by apply Forall_app.
  - by rewrite Hlen.
  - intros p. rewrite Hpp, !elem_of_app. naive_solver.
  - exists hs, ls. split; [|split; [done|split]]; cbn.
    + by rewrite Hw.
    + rewrite Hpp, !fmap_app. cbn. rewrite <- E3. by rewrite <- !app_assoc.
    + intros Hall. rewrite Hpp, !fmap_app. cbn. apply Forall_app in Hall as [Hall _].
      destruct (E4 Hall) as [-> <-]. split; [done|]. by rewrite <- app_assoc.
Qed.

(** *** The socket thread takes a request *)
Lemma put_socket_ok ss j s0 s : get_socket ss j = Ret s0 →
  put_socket ss j s = Ret (ss_set_slot (<[Z.to_nat j := s]> (ss_slot ss)) ss).
Proof.
  unfold get_socket, put_socket. intros [Hj Hl]%get_idx_Ret. apply lookup_lt_Some in Hl.
  rewrite set_idx_ok by (unfold Zlen; lia). done.
Qed.

Definition memory_if_low (pr : priority) (b : payload) : Prop :=
  pr = PRIORITY_LOW → match b with Object _ => False | Memory _ _ => True end.

Lemma new_buffer_data b a : wb_data (new_buffer b a) = payload_bytes b.
Proof. unfold new_buffer, payload_bytes. by destruct (send_object_init b) as [[p bs] u]. Qed.

Lemma append_ok pr s b : tcp_ok s → memory_if_low pr b → tcp_ok (append_sendbuffer_ pr s (new_buffer b [])).
Proof.
  intros [H1 H2 H3 H4] Hm. assert (data_of [new_buffer b []] = payload_bytes b) as Hd.
  { by rewrite data_of_cons, new_buffer_data, app_nil_r. }
  destruct pr.
  - split; try done.
    change (s_wb_size s + Zlen (wb_data (new_buffer b [])) =
      Zlen (data_of (s_high s ++ [new_buffer b []])) + Zlen (data_of (s_low s))).
    rewrite data_of_app, Zlen_app, Hd, new_buffer_data. lia.
  - split; try done.
    + apply Forall_app. split; [done|]. apply Forall_singleton. specialize (Hm eq_refl). by destruct b.
    + change (s_wb_size s + Zlen (wb_data (new_buffer b [])) =
        Zlen (data_of (s_high s)) + Zlen (data_of (s_low s ++ [new_buffer b []]))).
      rewrite data_of_app, Zlen_app, Hd, new_buffer_data. lia.
Qed.

(** where a package goes *)
Definition list_for (pr : priority) (s : socket) : priority := if send_buffer_empty s then PRIORITY_HIGH else pr.

Lemma send_socket_spec ss s b pr (w : W) : get_socket ss i = Ret s → s_id s = id →
  s_type s = SOCKET_TYPE_CONNECTED → s_protocol s = PROTOCOL_TCP →
  ∃ r warn w', wire w' = wire w ∧
    let s' := set_warn_size warn (append_sendbuffer_ (list_for pr s) s (new_buffer b [])) in
    send_socket ss id b pr None w = Ret (r, ss_set_slot (<[Z.to_nat i := s']> (ss_slot ss)) ss, w').
Proof.
  intros Hg Hid Hty Hpr. unfold send_socket. rewrite Hg, Ret_bind. cbv zeta.
  rewrite (surjective_pairing (send_object_init b)), (surjective_pairing (send_object_init b).1).
  rewrite Hty, Hpr, bool_decide_eq_false_2 by naive_solver. rewrite bool_decide_eq_false_2 by naive_solver.
  set (s1 := append_sendbuffer_ (list_for pr s) s (new_buffer b [])).
  assert (∃ r warn, overload_warning s1 = (r, set_warn_size warn s1)) as (r & warn & Eo).
  { unfold overload_warning. case_bool_decide; [by eexists _, _|]. exists None, (s_warn_size s1). by destruct s1. }
  rewrite !(bool_decide_eq_true_2 (_ = _)) by done. rewrite andb_true_r.
  assert (∀ w : W, (let '(r, s) := overload_warning s1 in ss0 ← put_socket ss i s; Ret (r, ss0, w)) =
    Ret (r, ss_set_slot (<[Z.to_nat i := set_warn_size warn s1]> (ss_slot ss)) ss, w)) as Hfin.
  { intros w1. rewrite Eo. by rewrite (put_socket_ok ss i s), Ret_bind. }
  unfold s1, list_for in *. destruct (send_buffer_empty s).
  - exists r, warn, (sp_write (ss_event_fd ss) (s_fd s) (Some i) true w). split; [apply sp_write_wire|]. apply Hfin.
  - exists r, warn, w. split; [done|]. destruct pr; apply Hfin.
Qed.

(** the count goes down by one *)
Lemma dec_count c t : 0 ≤ t < 2 ^ 16 → 0 < c < 2 ^ 16 →
  Z.land (t * 2 ^ 16 + c) 0xffff ≠ 0 ∧ u32 (t * 2 ^ 16 + c - 1) = t * 2 ^ 16 + c - 1.
Proof. intros. rewrite count_low by lia. unfold u32. rewrite Z.mod_small; lia. Qed.

Lemma piped_cons ss req pipe : ss_pipe ss = req :: pipe → send_request_ok req →
  ∃ pr b, req = RSend pr id b ∧ memory_if_low pr b ∧
    piped ss = (pr, payload_bytes b) :: omap in_pipe pipe.
Proof.
  intros E Hr. destruct req; try done. destruct Hr as [-> Hm]. eexists _, _. split; [done|].
  split; [exact Hm|]. unfold piped. by rewrite E.
Qed.

(** [s] after the request: one package more at the end of its list *)
Definition taken (pr : priority) (b : payload) (warn sending : Z) (s : socket) : socket :=
  set_sending sending (set_warn_size warn (append_sendbuffer_ (list_for pr s) s (new_buffer b []))).

Lemma ctrl_spec base y s req pipe : inv base y s → ss_pipe (y_ss y) = req :: pipe →
  ∃ pr b r warn w', req = RSend pr id b ∧ memory_if_low pr b ∧
    piped (y_ss y) = (pr, payload_bytes b) :: omap in_pipe pipe ∧ wire w' = wire (y_w y) ∧
    let s' := taken pr b warn (s_sending s - 1) s in
    ctrl_cmd (ss_set_pipe pipe (y_ss y)) req (y_w y) =
      Ret (r, ss_set_pipe pipe (ss_set_slot (<[Z.to_nat i := s']> (ss_slot (y_ss y))) (y_ss y)), w').
Proof.
  intros [V1 V2 V3 V4 V5 V6 V7 V8 [V9 V9'] _ _ _] Hpipe. rewrite Hpipe in V7, V9, V9'.
  apply Forall_cons in V7 as [Hreq _]. destruct (piped_cons _ _ _ Hpipe Hreq) as (pr & b & -> & Hm & Hpp).
  rewrite Zlen_cons in V9, V9'. pose proof (Zlen_nonneg pipe). pose proof (Zlen_nonneg (y_waiting y)).
  destruct (send_socket_spec (ss_set_pipe pipe (y_ss y)) s b pr (y_w y)) as (r & warn & w' & Ew & E);
    [exact V1|done|done|apply V4|]. cbv zeta in E.
  exists pr, b, r, warn, w'. split; [done|]. split; [done|]. split; [done|]. split; [done|]. cbv zeta.
  unfold ctrl_cmd. rewrite E, Ret_bind. unfold dec_sending_ref.
  set (s1 := set_warn_size _ _). set (ss1 := ss_set_slot _ _).
  assert (get_socket ss1 i = Ret s1) as Hg1.
  { pose proof (put_socket_ok (ss_set_pipe pipe (y_ss y)) i s s1 V1) as Hp. apply put_socket_get in Hp as [Hg _].
    exact Hg. }
  rewrite Hg1, Ret_bind.
  assert (s_id s1 = s_id s ∧ s_protocol s1 = s_protocol s ∧ s_sending s1 = s_sending s) as (Ei & Ep & Es)
    by (by unfold s1, append_sendbuffer_; destruct (list_for pr s)).
  rewrite Ei, Ep, Es, V2, (t_protocol _ V4). rewrite (bool_decide_eq_true_2 (_ ∧ _)) by done.
  destruct (dec_count (Zlen (y_waiting y) + (1 + Zlen pipe)) (ID_TAG16 id)) as [Hne Hdec];
    [apply tag_range|lia|]. rewrite V9. rewrite (bool_decide_eq_true_2 _ Hne). cbn [cassert]. rewrite Ret_bind.
  rewrite Hdec, (put_socket_ok ss1 i s1), Ret_bind by done. unfold taken. fold s1. unfold ss1.
  cbn. by rewrite list_insert_insert_eq.
Qed.

Lemma keep_ctrl base ss w holder waiting log req pipe r ss' w' :
  (∃ s0, inv base (Sys ss w holder waiting log) s0) → ss_pipe ss = req :: pipe →
  ctrl_cmd (ss_set_pipe pipe ss) req w = Ret (r, ss', w') →
  ∃ s1, inv base (Sys ss' w' holder waiting log) s1.
Proof.
  intros [s Hinv] Hpipe E.
  destruct (ctrl_spec _ _ _ _ _ Hinv Hpipe) as (pr & b & r1 & warn & w1 & -> & Hm & Hpp & Ew & E1).
  cbv zeta in E1. cbn [y_ss y_w] in *. rewrite E in E1. injection E1 as -> -> ->.
  pose proof Hinv as [V1 V2 V3 V4 V5 V6 V7 V8 [V9 V9'] V10 (hs & ls & S1 & S2 & S3 & S4) V12].
  cbn in V1, V2, V3, V4, V5, V6, V7, V8, V9, V9', V10, S1, S2, S3, S4. rewrite Hpipe in V7, V9, V9'.
  rewrite Zlen_cons in V9, V9'. rewrite Hpp in S3, S4, V10. apply Forall_cons in V7 as [_ V7].
  pose proof (put_socket_ok ss i s (taken pr b warn (s_sending s - 1) s) V1) as Hg.
  apply put_socket_get in Hg as [Hg _].
  exists (taken pr b warn (s_sending s - 1) s).
  assert (tcp_ok (taken pr b warn (s_sending s - 1) s)) as Hok'.
  { assert (memory_if_low (list_for pr s) b) as Hm' by (unfold list_for; by destruct (send_buffer_empty s)).
    by destruct (append_ok _ _ _ V4 Hm'). }
  assert (∀ {A} (f : socket → A), (∀ pr' x s0, f (append_sendbuffer_ pr' s0 x) = f s0) →
    (∀ v s0, f (set_warn_size v s0) = f s0) → (∀ v s0, f (set_sending v s0) = f s0) →
    f (taken pr b warn (s_sending s - 1) s) = f s) as Hsame.
  { intros A f F1 F2 F3. unfold taken. by rewrite F3, F2, F1. }
  split; cbn [y_ss y_w y_holder y_waiting y_log]; try done.
  - rewrite (Hsame _ s_id); by (try by intros []).
  - rewrite (Hsame _ s_type); by (try by intros []).
  - rewrite (Hsame _ s_dw_lock); by (try by intros []).
  - rewrite (Hsame _ s_dw_buffer); by (try by intros []).
  - change (s_sending (taken _ _ _ _ _)) with (s_sending s - 1). rewrite V9. cbn [ss_pipe ss_set_pipe].
    split; lia.
  - intros p Hp. apply V10. right. exact Hp.
  - unfold stream_is. cbn [y_ss y_w y_holder y_log]. change (piped _) with (omap in_pipe pipe).
    rewrite Ew. change (s_fd (taken _ _ _ _ _)) with (s_fd (append_sendbuffer_ (list_for pr s) s (new_buffer b []))).
    assert (held holder (taken pr b warn (s_sending s - 1) s) = held holder s) as ->.
    { destruct holder; [done|]. unfold held, direct_bytes.
      rewrite (Hsame _ s_dw_buffer), (Hsame _ s_dw_offset); by (try by intros []). }
    change (s_high (taken _ _ _ _ _)) with (s_high (append_sendbuffer_ (list_for pr s) s (new_buffer b []))).
    change (s_low (taken _ _ _ _ _)) with (s_low (append_sendbuffer_ (list_for pr s) s (new_buffer b []))).
    set (bs := payload_bytes b) in *. cbn [fmap list_fmap snd] in S3, S4.
    destruct (list_for pr s) eqn:El.
    + exists (hs ++ [bs]), ls. cbn. rewrite data_of_app, data_of_cons, new_buffer_data. fold bs.
      change (data_of []) with (@nil Z). rewrite app_nil_r. split; [|split; [done|split]].
      * by rewrite mjoin_snoc, !app_assoc, <- S1, !app_assoc.
      * rewrite <- S3, <- !app_assoc. cbn. by rewrite (Permutation_middle ls).
      * intros Hall. destruct (S4 Hall) as [-> <-]. split; [done|]. by rewrite <- !app_assoc.
    + exists hs, (ls ++ [bs]). cbn. rewrite fmap_app, S2. cbn. rewrite new_buffer_data. fold bs.
      split; [done|]. split; [done|]. split.
      * rewrite <- S3, <- !app_assoc. done.
      * intros Hall. exfalso. unfold list_for in El. destruct (send_buffer_empty s); [done|]. subst pr.
        rewrite Forall_forall in Hall. specialize (Hall _ (V10 _ ltac:(by left))). done.
  - rewrite (Hsame _ s_fd); by (try by intros []).
Qed.

Lemma keep_flush base ss w holder waiting log s r s' n w' ss' :
  (∃ s0, inv base (Sys ss w holder waiting log) s0) → get_socket ss i = Ret s →
  send_buffer ss i s 0 w = Ret (r, s', n, w') → is_close r = false → put_socket ss i s' = Ret ss' →
  ∃ s1, inv base (Sys ss' w' holder waiting log) s1.
Proof.
  intros [s0 Hinv] Hs E Hr Hp.
  pose proof Hinv as [V1 V2 V3 V4 V5 V6 V7 V8 V9 V10 (hs & ls & S1 & S2 & S3 & S4) V12].
  cbn in V1, V2, V3, V4, V5, V6, V7, V8, V9, V10, S1, S2, S3, S4.
  rewrite Hs in V1. injection V1 as <-. apply put_socket_get in Hp as [Hg ->].
  destruct holder as [buf|].
  { rewrite (send_buffer_blocked ss i s w V5) in E. injection E as _ <- _ <-.
    exists s. split; try done. by exists hs, ls. }
  destruct (send_buffer_spec ss i s w V4 V5) as (r1 & s1 & w1 & bs & E1 & Ha & Hf).
  rewrite E in E1. injection E1 as -> -> -> ->.
  set (d := direct_rest (set_dw_lock true s)) in *.
  destruct (direct_rest_lists (set_dw_lock true s)) as (Dhi & Dlo & Ddw).
  destruct (direct_rest_same (set_dw_lock true s)) as (Dfd & Dty & Did & Dlk & _ & Dse & Dpr).
  fold d in Dhi, Dlo, Ddw, Dfd, Dty, Did, Dlk, Dse, Dpr.
  assert (tcp_ok d) as Hokd by (apply direct_rest_ok; by destruct V4).
  destruct (flushes_ok _ _ _ _ Hokd Ddw Hf Hr) as (Hok1 & Hd1 & _).
  destruct Hf as [(-> & _)|(_ & moved & hi & lo & st & warn & Em & Ed & -> & _)]; [by rewrite close_is_close in Hr|].
  set (s1 := with_lists _ _ _ _ _ d) in *. exists (spinlock_unlock s1).
  split; cbn [y_ss y_w y_holder y_waiting y_log]; try done.
  - change (s_id (spinlock_unlock s1)) with (s_id d). by rewrite Did.
  - change (s_type (spinlock_unlock s1)) with (s_type d). by rewrite Dty.
  - by destruct Hok1.
  - change (s_sending (spinlock_unlock s1)) with (s_sending d). by rewrite Dse.
  - exists (hs ++ (wb_data <$> moved)), (wb_data <$> lo). unfold stream_is. cbn [y_ss y_w y_holder y_log].
    change (piped _) with (piped ss).
    assert (ls = (wb_data <$> moved) ++ (wb_data <$> lo)) as Els.
    { rewrite <- S2, <- fmap_app, <- Em. by rewrite Dlo. }
    split; [|split; [done|split]].
    + change (s_fd (spinlock_unlock s1)) with (s_fd d). rewrite Dfd. cbn [s_fd set_dw_lock].
      destruct Ha as [-> _]. change (held None (spinlock_unlock s1)) with (direct_bytes s1).
      unfold direct_bytes. rewrite Hd1. change (s_high (spinlock_unlock s1)) with hi.
      rewrite join_app, (app_assoc base), <- S1. rewrite app_nil_l, <- !app_assoc. f_equal. rewrite <- Ed, data_of_app, Dhi.
      by rewrite <- !app_assoc.
    + rewrite <- S3, Els. by rewrite <- !app_assoc.
    + intros Hall. destruct (S4 Hall) as [-> <-]. symmetry in Els. apply app_eq_nil in Els as [-> ->].
      split; [done|]. by rewrite app_nil_r.
  - change (s_fd (spinlock_unlock s1)) with (s_fd d). by rewrite Dfd.
Qed.

(** ** All steps *)
Lemma keep_step base y y' : step y y' → (∃ s, inv base y s) → ∃ s, inv base y' s.
Proof.
  intros H Hinv. destruct H; [by eapply keep_lock|by eapply keep_write|by eapply keep_count|by eapply keep_request
    |by eapply keep_ctrl|by eapply keep_flush].
Qed.

Lemma keep_steps base y y' : rtc step y y' → (∃ s, inv base y s) → ∃ s, inv base y' s.
Proof. induction 1; [done|]. intros H1. apply IHrtc. by eapply keep_step. Qed.

(** a connected TCP socket before the first send *)
Record idle (ss : socket_server) (s : socket) : Prop := {
  d_socket : get_socket ss i = Ret s;
  d_id : s_id s = id;
  d_fd : s_fd s = fd;
  d_type : s_type s = SOCKET_TYPE_CONNECTED;
  d_protocol : s_protocol s = PROTOCOL_TCP;
  d_lists : s_high s = [] ∧ s_low s = [] ∧ s_dw_buffer s = None ∧ s_wb_size s = 0;
  d_lock : s_dw_lock s = false;
  d_sending : s_sending s = ID_TAG16 id * 2 ^ 16;
  d_pipe : ss_pipe ss = []
}.

Lemma idle_inv ss s (w : W) : idle ss s → inv (wire w fd) (Sys ss w None [] []) s.
Proof.
  intros [D1 D2 D0 D3 D4 (D5 & D6 & D7 & D8) D9 D10 D11]. split; cbn; rewrite ?D11; try done.
  - split; [done|by rewrite D6|by rewrite D5, D6, D8|by rewrite D3].
  - rewrite D10. split; unfold Zlen; cbn; lia.
  - intros p. unfold piped. rewrite D11. by intros ?%elem_of_nil.
  - exists [], []. unfold stream_is. cbn. unfold direct_bytes. rewrite D0, D5, D6, D7.
    unfold piped. rewrite D11. cbn. rewrite !app_nil_r. done.
Qed.

(** C16. Whatever the threads do, the bytes of a TCP socket are those of whole
    packages: what went out, the rest of the write in hand and the high list are
    the packages [hs], one after the other and none cut by another; the low list
    holds [ls], and the pipe the others, each package that was sent once. When no
    low priority is used the packages go out in the order of the sends. *)
Theorem tcp_stream_order ss0 s0 (w0 : W) y : idle ss0 s0 → rtc step (Sys ss0 w0 None [] []) y →
  ∃ s hs ls, get_socket (y_ss y) i = Ret s ∧
    wire (y_w y) fd ++ held (y_holder y) s ++ data_of (s_high s) = wire w0 fd ++ mjoin hs ∧
    wb_data <$> s_low s = ls ∧
    hs ++ ls ++ (snd <$> piped (y_ss y)) ≡ₚ snd <$> y_log y ∧
    (Forall (λ p, p.1 = PRIORITY_HIGH) (y_log y) → hs ++ ls ++ (snd <$> piped (y_ss y)) = snd <$> y_log y).
Proof.
  intros Hi Hs. destruct (keep_steps (wire w0 fd) _ _ Hs) as [s [V1 _ _ _ _ _ _ _ _ _ (hs & ls & E1 & E2 & E3 & E4) V12]].
  { exists s0. by apply idle_inv. }
  exists s, hs, ls. rewrite V12 in E1. split; [done|]. split; [done|]. split; [done|]. split; [done|].
  intros Hall. by destruct (E4 Hall) as [-> <-].
Qed.


(** a send that meets no other thread is the steps it is made of *)
Lemma send_begin_steps base ss (w : W) waiting log buf r ss' w' :
  (∃ s, inv base (Sys ss w None waiting log) s) → send_begin ss id buf w = Ret (r, ss', w') →
  match r with
  | Done r => r = 0 ∧ rtc step (Sys ss w None waiting log)
                (Sys ss' w' None waiting (log ++ [(PRIORITY_HIGH, sendbuffer_bytes buf)]))
  | Later => step (Sys ss w None waiting log) (Sys ss' w' None (waiting ++ [(PRIORITY_HIGH, buf)]) log)
  end.
Proof.
  intros [s [V1 V2 V3 V4 V5 V6 V7 V8 V9 V10 V11 V12]] E. cbn in *. unfold send_begin in E.
  rewrite V1, Ret_bind in E. rewrite bool_decide_eq_false_2 in E by (rewrite V3; naive_solver).
  unfold try_direct, socket_trylock in E.
  assert (s_dw_lock s = false) as Elk by exact V5.
  destruct (can_direct_write s id) eqn:Ed.
  2:{ rewrite Ret_bind in E. apply bind_Ret in E as (s1 & E1 & E). apply bind_Ret in E as (ss1 & E2 & E).
      injection E as <- <- <-. by eapply st_count. }
  rewrite (bool_decide_eq_true_2 (0 = 0)), Elk in E by done. cbv beta iota in E.
  assert (can_direct_write (set_dw_lock true s) id = true) as Edl by exact Ed. rewrite Edl in E.
  apply bind_Ret in E as ([[r1 s1] w1] & E1 & E). apply bind_Ret in E1 as ([[r2 s2] w2] & E0 & E1).
  assert (∃ s3, s1 = spinlock_unlock s2 ∧ r1 = r2 ∧ w1 = w2 ∧ s3 = s2) as (_ & -> & -> & -> & _).
  { unfold socket_unlock in E1. cbn in E1. injection E1 as -> -> ->. by eexists. }
  assert (r2 = Done 0) as ->.
  { unfold direct_write in E0. rewrite (bool_decide_eq_true_2 (s_protocol _ = _)), Ret_bind in E0 by apply V4.
    destruct (k_write _ _ w) as [res w3]. case_bool_decide; [by injection E0|].
    destruct (clone_buffer buf w3) as [b w4]. by injection E0. }
  rewrite Ret_bind in E. apply bind_Ret in E as (ss1 & Ep & E). injection E as <- <- <-. split; [done|].
  pose proof (put_socket_ok ss i s (set_dw_lock true s) V1) as Hput.
  eapply rtc_l; [|apply rtc_once].
  - eapply st_lock; [exact V1|exact Ed| |exact Hput]. unfold socket_trylock.
    by rewrite bool_decide_eq_true_2, Elk.
  - pose proof (put_socket_get _ _ _ _ Hput) as [Hg _].
    eapply st_write; [exact Hg| |].
    + rewrite <- E0. reflexivity.
    + rewrite (put_socket_ok _ _ _ _ V1) in Ep. injection Ep as <-.
      rewrite (put_socket_ok _ _ _ _ Hg). unfold ss_set_slot. cbn. by rewrite list_insert_insert_eq.
Qed.
End order.

(** ** A small system for concrete runs

    An instance of [Kernel]: writes take as many bytes as a script says, the poll
    keeps its interest list, and everything released is recorded. *)
Record sim : Type := Sim {
  (** how much each of the next writes takes; then they would block *)
  m_room : list Z;
  m_written : list (Z * list Z);
  (** the events asked for, per descriptor *)
  m_interest : gmap Z Z;
  m_freed : list loc;
  m_next : loc
}.
Definition set_interest v m := Sim (m_room m) (m_written m) v (m_freed m) (m_next m).

Definition sim_write (fd : Z) (bs : list Z) (m : sim) : io Z * sim :=
  match m_room m with
  | [] => (Err EAGAIN, m)
  | c :: room =>
      let n := Z.max 0 (Z.min c (Zlen bs)) in
      (Ok n, Sim room (m_written m ++ [(fd, take (Z.to_nat n) bs)]) (m_interest m) (m_freed m) (m_next m))
  end.

Definition sim_epoll_ctl (op : epoll_op) (fd ev : Z) (m : sim) : bool * sim :=
  match op, m_interest m !! fd with
  | EPOLL_CTL_ADD, None | EPOLL_CTL_MOD, Some _ => (true, set_interest (<[fd := ev]> (m_interest m)) m)
  | EPOLL_CTL_DEL, Some _ => (true, set_interest (delete fd (m_interest m)) m)
  | _, _ => (false, m)
  end.

Definition sim_free (l : loc) (m : sim) : sim :=
  Sim (m_room m) (m_written m) (m_interest m) (m_freed m ++ [l]) (m_next m).

Definition local_address : sockaddr := Sockaddr AF_INET [0; 80] [127; 0; 0; 1].

#[export] Instance sim_kernel : Kernel sim := {
  k_write := sim_write;
  k_read _ _ m := (Err EAGAIN, m);
  k_sendto _ bs _ m := (Ok (Zlen bs), m);
  k_recvfrom _ _ m := (Err EAGAIN, m);
  k_close _ m := m;
  k_epoll_create m := (Ok 3, m);
  k_pipe m := (Ok (8, 9), m);
  k_socket _ _ _ m := (Ok 5, m);
  k_connect _ _ m := (Err EINPROGRESS, m);
  k_bind _ _ m := (Ok tt, m);
  k_listen _ _ m := (Ok tt, m);
  k_accept _ m := (Ok (6, local_address), m);
  k_setsockopt _ _ _ _ m := (Ok tt, m);
  k_so_error _ m := (Ok 0, m);
  k_getpeername _ m := (Some local_address, m);
  k_getsockname _ m := (Some local_address, m);
  k_nonblocking _ m := m;
  k_epoll_ctl op _ fd ev _ m := sim_epoll_ctl op fd ev m;
  k_epoll_wait _ _ m := (Ok [], m);
  k_getaddrinfo _ _ _ _ m := (Ok [Addrinfo AF_INET local_address], m);
  k_errno _ := 0;
  k_strerror _ := "error"%string;
  k_gai_strerror _ := "error"%string;
  k_inet_ntop _ := Some "127.0.0.1"%string;
  k_stderr _ m := m;
  k_signals _ := 0%nat;
  k_malloc n m := (m_next m, Sim (m_room m) (m_written m) (m_interest m) (m_freed m) (m_next m + n + 16));
  k_free := sim_free;
  soi_buffer l := l + 8;
  soi_bytes _ := [1; 2; 3];
  soi_free := sim_free
}.

Definition sim_wire (m : sim) (fd : Z) : list Z :=
  mjoin (snd <$> filter (λ p, p.1 = fd) (m_written m)).

Lemma sim_wire_snoc room l fd fd' bs i f n :
  sim_wire (Sim room (l ++ [(fd, bs)]) i f n) fd' =
  sim_wire (Sim room l i f n) fd' ++ (if decide (fd = fd') then bs else []).
Proof.
  unfold sim_wire. cbn [m_written]. rewrite filter_app, fmap_app. rewrite join_app. f_equal.
  destruct (decide (fd = fd')) as [E|E].
  - rewrite filter_cons_True by done. cbn. by rewrite app_nil_r.
  - by rewrite filter_cons_False.
Qed.

#[export] Instance sim_laws : KernelLaws sim.
Proof.
  refine {| wire := sim_wire |}; try done.
  - intros fd bs m n m' E. cbn in E. unfold sim_write in E. destruct m as [[|c room] l i f x]; [done|]. cbn in E.
    injection E as <- <-. pose proof (Zlen_nonneg bs). split; [lia|]. split.
    + rewrite sim_wire_snoc, decide_True by done. done.
    + intros fd' Hne. rewrite sim_wire_snoc, decide_False by done. by rewrite app_nil_r.
  - intros fd bs m e m' E. cbn in E. unfold sim_write in E. destruct (m_room m); [by injection E as _ <-|done].
  - intros fd bs m m' E. cbn in E. unfold sim_write in E. destruct (m_room m); [by injection E|done].
  - intros op efd fd ev ud m. cbn. unfold sim_epoll_ctl. destruct op; by destruct (m_interest m !! fd).
Defined.
