(* ===== verification/SocketRaces.v ===== *)
(** * Sends that meet a connect, a close, a pause or an object

    Four orders of calls the socket server does not handle: a send before the
    connect is served, a send behind a close in the pipe, a pause while bytes are
    pending, an object sent with low priority. *)
From S2P Require Import Prelude CLib CNum SocketKernel SocketData SocketWrite SocketCtrl SocketPoll.
From S2P Require Import SocketApi SocketStream SocketIds SocketOrder.
From Stdlib Require Import Ascii String.
#[local] Open Scope Z_scope.

Section races.
Context {W : Type} `{!Kernel W}.

(** the socket thread serves the next [n] requests *)
Fixpoint serve (n : nat) (ss : socket_server) (w : W) : outcome (list result * socket_server * W) :=
  match n, ss_pipe ss with
  | S n, req :: pipe =>
      '(r, ss, w) ← ctrl_cmd (ss_set_pipe pipe ss) req w;
      '(rs, ss, w) ← serve n ss w;
      Ret (r :: rs, ss, w)
  | _, _ => Ret ([], ss, w)
  end.

Lemma nomore_false_lists s : send_buffer_empty s = false → nomore_sending_data s = false.
Proof. unfold nomore_sending_data. by intros ->. Qed.

(** ** A send before the connect is served *)
Lemma send_reserved ss id s buf (w : W) : get_socket ss (HASH_ID id) = Ret s → s_id s = id →
  s_type s = SOCKET_TYPE_RESERVE → s_protocol s = PROTOCOL_UNKNOWN →
  send_begin ss id buf w = Ret (Later, ss_set_slot (<[Z.to_nat (HASH_ID id) := s]> (ss_slot ss)) ss, w).
Proof.
  intros Hs Hid Ht Hp. unfold send_begin. rewrite Hs, Ret_bind. rewrite bool_decide_eq_false_2 by (rewrite Ht; naive_solver).
  unfold try_direct, can_direct_write. rewrite Ht. rewrite (bool_decide_eq_false_2 (SOCKET_TYPE_RESERVE = _)) by done.
  rewrite andb_false_r. cbn [andb]. rewrite Ret_bind. unfold inc_sending_ref. rewrite Hp.
  rewrite bool_decide_eq_true_2, Ret_bind by done. by rewrite (put_socket_ok ss _ s s).
Qed.

Lemma uncounted_request ss id s pr b (w : W) : get_socket ss (HASH_ID id) = Ret s → s_id s = id →
  s_type s = SOCKET_TYPE_CONNECTING → s_protocol s = PROTOCOL_TCP → Z.land (s_sending s) 0xffff = 0 →
  ctrl_cmd ss (RSend pr id b) w = AssertFail.
Proof.
  intros Hs Hid Ht Hp Hc. cbn [ctrl_cmd]. unfold send_socket. rewrite Hs, Ret_bind, Ht, Hp. cbv zeta.
  destruct (send_object_init b) as [[ptr bs] user].
  rewrite bool_decide_eq_false_2 by naive_solver. rewrite bool_decide_eq_false_2 by naive_solver.
  rewrite (bool_decide_eq_false_2 (SOCKET_TYPE_CONNECTING = _)) by done. rewrite andb_false_r.
  rewrite (bool_decide_eq_true_2 (PROTOCOL_TCP = _)) by done.
  set (s1 := match pr with PRIORITY_HIGH => append_sendbuffer s b | PRIORITY_LOW => append_sendbuffer_low s b end).
  assert (s_id s1 = id ∧ s_protocol s1 = PROTOCOL_TCP ∧ s_sending s1 = s_sending s) as (E1 & E2 & E3) by (by destruct pr).
  assert (∃ r warn, overload_warning s1 = (r, set_warn_size warn s1)) as (r & warn & ->).
  { unfold overload_warning. case_bool_decide; [by eexists _, _|]. exists None, (s_warn_size s1). by destruct s1. }
  pose proof (put_socket_ok ss (HASH_ID id) s (set_warn_size warn s1) Hs) as Hput. rewrite Hput, !Ret_bind.
  apply put_socket_get in Hput as [Hg _]. unfold dec_sending_ref. rewrite Hg, Ret_bind.
  cbn [s_id s_protocol s_sending set_warn_size]. rewrite E1, E2, E3, Hc.
  rewrite bool_decide_eq_true_2 by done. by rewrite bool_decide_eq_false_2 by (intros H; by apply H).
Qed.

Lemma open_in_progress ss id port opaque host (w : W) ss' w' :
  open_socket ss id port opaque host w = Ret (None, ss', w') →
  ∃ s, get_socket ss' (HASH_ID id) = Ret s ∧ s_id s = id ∧ s_type s = SOCKET_TYPE_CONNECTING ∧
    s_protocol s = PROTOCOL_TCP ∧ Z.land (s_sending s) 0xffff = 0.
Proof.
  intros E. unfold open_socket in E. destruct (k_getaddrinfo _ _ _ _ w) as [[ais|st] w1].
  2:{ apply bind_Ret in E as (x & _ & E). discriminate E. }
  destruct (try_connect ais 0 w1) as [[[[[sock b] ai]|] errno] w2].
  2:{ apply bind_Ret in E as (x & _ & E). discriminate E. }
  apply bind_Ret in E as ([[[ns|] ss1] w3] & En & E).
  2:{ apply bind_Ret in E as (x & _ & E). discriminate E. }
  destruct b; apply bind_Ret in E as (ss2 & Ep & E); [discriminate E|]. injection E as <- _.
  apply put_socket_get in Ep as [Hg _]. eexists. split; [exact Hg|].
  unfold new_fd in En. apply bind_Ret in En as (s0 & _ & En). apply bind_Ret in En as (u & _ & En).
  destruct (sp_add (ss_event_fd ss) sock (Some (HASH_ID id)) w2) as [[|] w4].
  { apply bind_Ret in En as (x & _ & En). discriminate En. }
  apply bind_Ret in En as (u1 & _ & En). apply bind_Ret in En as (u2 & _ & En).
  apply bind_Ret in En as (ss3 & _ & En). injection En as <- _ _. cbn. repeat split; try done.
  pose proof (tag_range id). unfold u32. rewrite Z.shiftl_mul_pow2, Z.mod_small by lia.
  rewrite <- (Z.add_0_r (_ * _)). by apply count_low.
Qed.

(** C38. A service that sends on the id [connect] gave it before the socket thread
    has served the connect is not counted in [sending], because the protocol of a
    reserved slot is not known yet; its request then finds the count at 0 and
    fails the assertion of [dec_sending_ref]. *)
Theorem connect_then_send_asserts ss id s port opaque host buf (w : W) :
  get_socket ss (HASH_ID id) = Ret s → s_id s = id → s_type s = SOCKET_TYPE_RESERVE →
  s_protocol s = PROTOCOL_UNKNOWN → ss_pipe ss = [ROpen id port opaque host] →
  ∃ ss' w', socket_server_send ss id buf w = Ret (0, ss', w') ∧
    ((∃ ss1 w1, open_socket (ss_set_pipe (tail (ss_pipe ss')) ss') id port opaque host w' = Ret (None, ss1, w1)) →
     serve 2 ss' w' = AssertFail).
Proof.
  intros Hs Hid Ht Hp Hpipe. unfold socket_server_send. rewrite (send_reserved ss id s) by done. rewrite Ret_bind.
  unfold send_end. destruct (clone_buffer buf w) as [b w'] eqn:Ec. eexists _, _. split; [reflexivity|].
  set (ss' := send_request _ _). assert (ss_pipe ss' = [ROpen id port opaque host; RSend PRIORITY_HIGH id b]) as Epi.
  { unfold ss', send_request. cbn. by rewrite Hpipe. }
  rewrite Epi. cbn [tail]. intros (ss1 & w1 & E). cbn [serve]. rewrite Epi. cbn [ctrl_cmd]. rewrite E, Ret_bind.
  assert (ss_pipe ss1 = [RSend PRIORITY_HIGH id b]) as Epi1.
  { clear -E. unfold open_socket, new_fd, set_slot_type in E.
    destruct (k_getaddrinfo _ _ _ _ w') as [[ais|st] w2].
    2:{ apply bind_Ret in E as (x & _ & E). discriminate E. }
    destruct (try_connect ais 0 w2) as [[[[[sock c] ai]|] errno] w3].
    2:{ apply bind_Ret in E as (x & _ & E). discriminate E. }
    apply bind_Ret in E as ([[[ns|] ss2] w4] & En & E).
    2:{ apply bind_Ret in E as (x & _ & E). discriminate E. }
    destruct c; apply bind_Ret in E as (ss3 & Ep & E); [discriminate E|]. injection E as <- _.
    apply put_socket_get in Ep as [_ ->]. cbn.
    apply bind_Ret in En as (s0 & _ & En). apply bind_Ret in En as (u & _ & En).
    destruct (sp_add _ sock _ w3) as [[|] w5].
    { apply bind_Ret in En as (x & _ & En). discriminate En. }
    apply bind_Ret in En as (u1 & _ & En). apply bind_Ret in En as (u2 & _ & En).
    apply bind_Ret in En as (ss4 & Ep & En). injection En as _ <- _. by apply put_socket_get in Ep as [_ ->]. }
  rewrite Epi1. destruct (open_in_progress _ _ _ _ _ _ _ _ E) as (s1 & Hg & H1 & H2 & H3 & H4).
  by rewrite (uncounted_request _ id s1).
Qed.

(** ** A send behind a close in the pipe *)

(** A close that is served while a send is counted but not taken from the pipe
    yet leaves the socket half-closed for good: the send is dropped, nothing is
    left to send, no close is reported, and the last thing asked of the poll is
    not to report that the socket can be written. *)
Theorem close_then_send_stuck ss id s opaque pr b (w : W) :
  get_socket ss (HASH_ID id) = Ret s → s_id s = id → s_type s = SOCKET_TYPE_CONNECTED →
  s_protocol s = PROTOCOL_TCP → s_high s = [] → s_low s = [] → s_dw_buffer s = None → s_dw_lock s = false →
  s_wb_size s = 0 → s_warn_size s = 0 → s_sending s = ID_TAG16 id * 2 ^ 16 + 1 →
  ss_pipe ss = [RClose id false opaque; RSend pr id b] →
  ∃ ss' s', serve 2 ss w = Ret ([None; None], ss',
                             free_payload b (sp_write (ss_event_fd ss) (s_fd s) (Some (HASH_ID id)) false w)) ∧
    ss_pipe ss' = [] ∧ get_socket ss' (HASH_ID id) = Ret s' ∧ s_type s' = SOCKET_TYPE_HALFCLOSE ∧
    nomore_sending_data s' = true.
Proof.
  intros Hs Hid Ht Hp Hhi Hlo Hdw Hlk Hwb Hwarn Hc Hpipe. pose proof (tag_range id) as Htag.
  assert (Z.land (s_sending s) 0xffff = 1) as Hc1 by (rewrite Hc; by apply count_low).
  assert (nomore_sending_data s = false) as Hno.
  { unfold nomore_sending_data. rewrite Hc1. by rewrite andb_false_r. }
  set (i := HASH_ID id). set (w1 := sp_write (ss_event_fd ss) (s_fd s) (Some i) false w).
  set (ss1 := ss_set_pipe [RSend pr id b] ss).
  assert (send_buffer ss1 i s 0 w = Ret (None, s, 0, w1)) as Esb.
  { unfold send_buffer, socket_trylock. rewrite bool_decide_eq_true_2, Hlk by done. cbv beta iota.
    unfold direct_rest. cbn [s_dw_buffer set_dw_lock]. rewrite Hdw. unfold send_buffer_.
    cbn [s_low s_high set_dw_lock]. rewrite Hlo. cbn [list_uncomplete negb cassert]. rewrite Ret_bind.
    unfold send_list. cbn [s_protocol set_dw_lock get_list s_high]. rewrite Hp, Hhi.
    rewrite bool_decide_eq_true_2 by done. cbn [send_list_tcp]. rewrite Ret_bind.
    change (is_close None) with false. cbn [set_list s_high s_low set_high set_dw_lock empty_list negb].
    rewrite Hlo. cbn [empty_list]. unfold send_finished, send_buffer_empty.
    cbn [s_high s_low set_high set_dw_lock s_wb_size s_type s_warn_size]. rewrite Hlo, Hwb, Ht, Hwarn.
    cbn. unfold w1, i. do 4 f_equal. destruct s. cbn in *. by subst. }
  set (s1 := set_type SOCKET_TYPE_HALFCLOSE s).
  set (s2 := set_sending (ID_TAG16 id * 2 ^ 16) s1).
  assert (close_socket ss1 id false opaque w =
    Ret (None, ss_set_slot (<[Z.to_nat i := s1]> (ss_slot ss1)) ss1, w1)) as Ecl.
  { unfold close_socket. change (get_socket ss1 (HASH_ID id)) with (get_socket ss (HASH_ID id)). rewrite Hs, Ret_bind.
    unfold stale. rewrite bool_decide_eq_false_2 by (rewrite Ht; naive_solver). rewrite Hno. cbn [negb].
    fold i. rewrite Esb, Ret_bind. cbn [orb]. rewrite Hno. by rewrite (put_socket_ok ss1 i s), Ret_bind. }
  set (ss2 := ss_set_pipe [] (ss_set_slot (<[Z.to_nat i := s1]> (ss_slot ss1)) ss1)).
  pose proof (put_socket_ok ss i s s1 Hs) as Hput. apply put_socket_get in Hput as [Hg2 _].
  assert (get_socket ss2 i = Ret s1) as Hg by exact Hg2.
  assert (ctrl_cmd ss2 (RSend pr id b) w1 =
    Ret (None, ss_set_slot (<[Z.to_nat i := s2]> (ss_slot ss2)) ss2, free_payload b w1)) as Esend.
  { cbn [ctrl_cmd]. unfold send_socket. fold i. rewrite Hg, Ret_bind. destruct (send_object_init b) as [[ptr bs] user].
    rewrite (bool_decide_eq_true_2 (_ ∨ _)) by (right; right; by left). rewrite Ret_bind.
    unfold dec_sending_ref. fold i. rewrite Hg, Ret_bind. cbn [s_id s_protocol s_sending s1 set_type].
    rewrite Hid, Hp, Hc1. rewrite bool_decide_eq_true_2 by done. rewrite bool_decide_eq_true_2 by done.
    cbn [cassert]. rewrite Ret_bind. rewrite (put_socket_ok ss2 i s1), Ret_bind by done.
    assert (u32 (s_sending s - 1) = ID_TAG16 id * 2 ^ 16) as ->; [|done].
    rewrite Hc, Z.add_simpl_r. unfold u32. apply Z.mod_small. lia. }
  pose proof (put_socket_ok ss2 i s1 s2 Hg) as Hput. apply put_socket_get in Hput as [Hg3 _].
  eexists _, s2. split; [|split; [|split; [exact Hg3|split; [done|]]]].
  - cbn [serve]. rewrite Hpipe. cbn [ctrl_cmd]. fold ss1. rewrite Ecl, Ret_bind.
    change (ss_pipe (ss_set_slot _ ss1)) with [RSend pr id b]. cbv beta iota. fold ss2.
    rewrite Esend, Ret_bind. cbn [serve]. rewrite !Ret_bind. reflexivity.
  - done.
  - unfold nomore_sending_data, send_buffer_empty. cbn [s2 s1 s_high s_low s_dw_buffer s_sending set_sending set_type].
    rewrite Hhi, Hlo, Hdw. rewrite <- (Z.add_0_r (_ * _)), count_low by lia. done.
Qed.

(** ** A pause while bytes are pending *)

(** [s] after one more package when something is pending already *)
Lemma send_pending ss id s pr b (w : W) : get_socket ss (HASH_ID id) = Ret s → s_id s = id →
  s_type s = SOCKET_TYPE_CONNECTED → s_protocol s = PROTOCOL_TCP → send_buffer_empty s = false →
  Z.land (s_sending s) 0xffff ≠ 0 →
  ∃ r ss' s', ctrl_cmd ss (RSend pr id b) w = Ret (r, ss', w) ∧ get_socket ss' (HASH_ID id) = Ret s' ∧
    send_buffer_empty s' = false ∧ s_type s' = SOCKET_TYPE_CONNECTED.
Proof.
  intros Hs Hid Ht Hp He Hc. cbn [ctrl_cmd]. unfold send_socket. rewrite Hs, Ret_bind, Ht, Hp. cbv zeta.
  destruct (send_object_init b) as [[ptr bs] user].
  rewrite bool_decide_eq_false_2 by naive_solver. rewrite bool_decide_eq_false_2 by naive_solver. rewrite He.
  rewrite (bool_decide_eq_true_2 (PROTOCOL_TCP = _)) by done. cbn [andb].
  set (s1 := match pr with PRIORITY_HIGH => append_sendbuffer s b | PRIORITY_LOW => append_sendbuffer_low s b end).
  assert (s_id s1 = id ∧ s_protocol s1 = PROTOCOL_TCP ∧ s_sending s1 = s_sending s ∧ s_type s1 = s_type s)
    as (E1 & E2 & E3 & E4) by (by destruct pr).
  assert (send_buffer_empty s1 = false) as E5.
  { unfold s1, append_sendbuffer, append_sendbuffer_low, append_sendbuffer_, send_buffer_empty.
    destruct pr; cbn; [by destruct (s_high s)|]. rewrite andb_comm. by destruct (s_low s). }
  assert (∃ r warn, overload_warning s1 = (r, set_warn_size warn s1)) as (r & warn & ->).
  { unfold overload_warning. case_bool_decide; [by eexists _, _|]. exists None, (s_warn_size s1). by destruct s1. }
  pose proof (put_socket_ok ss (HASH_ID id) s (set_warn_size warn s1) Hs) as Hput. rewrite Hput, !Ret_bind.
  apply put_socket_get in Hput as [Hg _]. unfold dec_sending_ref. rewrite Hg, Ret_bind.
  cbn [s_id s_protocol s_sending set_warn_size]. rewrite E1, E2, E3.
  rewrite bool_decide_eq_true_2 by done. rewrite bool_decide_eq_true_2 by done. cbn [cassert]. rewrite Ret_bind.
  set (ss1 := ss_set_slot _ ss) in *. set (s2 := set_sending _ _).
  pose proof (put_socket_ok ss1 (HASH_ID id) _ s2 Hg) as Hput. rewrite Hput, Ret_bind.
  apply put_socket_get in Hput as [Hg2 _]. eexists _, _, s2. split; [reflexivity|]. split; [exact Hg2|].
  split; [exact E5|]. cbn. by rewrite E4.
Qed.

(** Pausing a connected socket removes it from the poll, and starting it again
    asks the poll for readable only. When bytes were pending, nothing ever asks
    for writable again: a further send only appends, so the pending bytes and all
    that is sent later stay in the lists. *)
Theorem pause_stalls_writes ss id s o1 o2 (w w2 : W) : get_socket ss (HASH_ID id) = Ret s → s_id s = id →
  s_type s = SOCKET_TYPE_CONNECTED → s_protocol s = PROTOCOL_TCP → s_reading s = READING_RESUME →
  send_buffer_empty s = false → ss_pipe ss = [RPause id o1; RResume id o2] →
  sp_add (ss_event_fd ss) (s_fd s) (Some (HASH_ID id)) (sp_del (ss_event_fd ss) (s_fd s) w) = (false, w2) →
  ∃ rs ss' s', serve 2 ss w = Ret (rs, ss', w2) ∧ get_socket ss' (HASH_ID id) = Ret s' ∧
    s_high s' = s_high s ∧ s_low s' = s_low s ∧ s_reading s' = READING_RESUME ∧
    ∀ pr b, Z.land (s_sending s) 0xffff ≠ 0 →
      ∃ r ss'' s'', ctrl_cmd ss' (RSend pr id b) w2 = Ret (r, ss'', w2) ∧
        get_socket ss'' (HASH_ID id) = Ret s'' ∧ send_buffer_empty s'' = false.
Proof.
  intros Hs Hid Ht Hp Hr He Hpipe Hadd. set (ss0 := ss_set_pipe [RResume id o2] ss).
  set (s1 := set_reading READING_PAUSE s). set (s2 := set_opaque o2 (set_reading READING_RESUME s1)).
  assert (∀ s', s_type s' = SOCKET_TYPE_CONNECTED → s_id s' = id → stale s' id = false) as Hst.
  { intros s' E1 E2. unfold stale. rewrite E1, E2. apply bool_decide_eq_false_2. naive_solver. }
  assert (pause_socket ss0 id w =
    Ret (ss_set_slot (<[Z.to_nat (HASH_ID id) := s1]> (ss_slot ss0)) ss0, sp_del (ss_event_fd ss) (s_fd s) w)) as Epa.
  { unfold pause_socket. change (get_socket ss0 (HASH_ID id)) with (get_socket ss (HASH_ID id)).
    rewrite Hs, Ret_bind, Hst, Hr by done. rewrite bool_decide_eq_true_2 by done.
    by rewrite (put_socket_ok ss0 _ s), Ret_bind. }
  set (ss1 := ss_set_pipe [] (ss_set_slot (<[Z.to_nat (HASH_ID id) := s1]> (ss_slot ss0)) ss0)).
  pose proof (put_socket_ok ss (HASH_ID id) s s1 Hs) as Hput. apply put_socket_get in Hput as [Hg1 _].
  assert (get_socket ss1 (HASH_ID id) = Ret s1) as Hg by exact Hg1.
  assert (resume_socket ss1 id o2 (sp_del (ss_event_fd ss) (s_fd s) w) =
    Ret (Some (SOCKET_OPEN, SocketMessage id o2 0 (Text "transfer")),
         ss_set_slot (<[Z.to_nat (HASH_ID id) := s2]> (ss_slot ss1)) ss1, w2)) as Ere.
  { unfold resume_socket. rewrite Hg, Ret_bind, Hst by done.
    change (s_reading s1) with READING_PAUSE. rewrite bool_decide_eq_true_2 by done.
    change (ss_event_fd ss1) with (ss_event_fd ss). change (s_fd s1) with (s_fd s). rewrite Hadd.
    unfold resume_type. cbn [s_type set_reading s1]. rewrite Ht. rewrite bool_decide_eq_false_2 by naive_solver.
    rewrite bool_decide_eq_true_2 by done. by rewrite (put_socket_ok ss1 _ s1), Ret_bind. }
  pose proof (put_socket_ok ss1 _ s1 s2 Hg) as Hput. apply put_socket_get in Hput as [Hg2 _].
  eexists _, _, s2. split; [|split; [exact Hg2|split; [done|split; [done|split; [done|]]]]].
  - cbn [serve]. rewrite Hpipe. cbn [ctrl_cmd]. fold ss0. rewrite Epa, !Ret_bind.
    change (ss_pipe (ss_set_slot _ ss0)) with [RResume id o2]. cbv beta iota. fold ss1. cbn [ctrl_cmd].
    rewrite Ere, Ret_bind. cbn [serve]. rewrite !Ret_bind. reflexivity.
  - intros pr b Hc. destruct (send_pending _ id s2 pr b w2 Hg2) as (r & ss'' & s'' & E & Hg'' & He'' & _); try done.
    by eexists _, _, _.
Qed.

(** ** An object with low priority *)

(** The list test for a partly sent buffer compares the next byte to send with
    the buffer, which for an object are never the same address: when an object
    sent with low priority becomes the head of the low list, the next time the
    socket can be written [send_buffer] fails its assertion. *)
Theorem low_object_asserts ss id s l (w : W) : get_socket ss (HASH_ID id) = Ret s → s_id s = id →
  s_type s = SOCKET_TYPE_CONNECTED → s_protocol s = PROTOCOL_TCP → s_high s ≠ [] → s_low s = [] →
  s_dw_lock s = false → Z.land (s_sending s) 0xffff ≠ 0 → soi_buffer l ≠ l →
  ∃ r ss' s', ctrl_cmd ss (RSend PRIORITY_LOW id (Object l)) w = Ret (r, ss', w) ∧
    get_socket ss' (HASH_ID id) = Ret s' ∧ send_buffer ss' (HASH_ID id) s' 0 w = AssertFail.
Proof.
  intros Hs Hid Ht Hp Hhi Hlo Hlk Hc Hl. assert (send_buffer_empty s = false) as He.
  { unfold send_buffer_empty. by destruct (s_high s). }
  cbn [ctrl_cmd]. unfold send_socket. rewrite Hs, Ret_bind, Ht, Hp. cbv zeta. cbn [send_object_init].
  rewrite bool_decide_eq_false_2 by naive_solver. rewrite bool_decide_eq_false_2 by naive_solver. rewrite He.
  rewrite (bool_decide_eq_true_2 (PROTOCOL_TCP = _)) by done. cbn [andb].
  set (s1 := append_sendbuffer_low s (Object l)).
  assert (∃ r warn, overload_warning s1 = (r, set_warn_size warn s1)) as (r & warn & ->).
  { unfold overload_warning. case_bool_decide; [by eexists _, _|]. exists None, (s_warn_size s1). by destruct s1. }
  pose proof (put_socket_ok ss (HASH_ID id) s (set_warn_size warn s1) Hs) as Hput. rewrite Hput, !Ret_bind.
  apply put_socket_get in Hput as [Hg _]. unfold dec_sending_ref. rewrite Hg, Ret_bind.
  cbn [s_id s_protocol s_sending set_warn_size]. change (s_id s1) with (s_id s).
  change (s_protocol s1) with (s_protocol s). change (s_sending s1) with (s_sending s). rewrite Hid, Hp.
  rewrite bool_decide_eq_true_2 by done. rewrite bool_decide_eq_true_2 by done. cbn [cassert]. rewrite Ret_bind.
  set (ss1 := ss_set_slot _ ss) in *. set (s2 := set_sending _ _).
  pose proof (put_socket_ok ss1 (HASH_ID id) _ s2 Hg) as Hput. rewrite Hput, Ret_bind.
  apply put_socket_get in Hput as [Hg2 _]. eexists _, _, s2. split; [reflexivity|]. split; [exact Hg2|].
  unfold send_buffer, socket_trylock. rewrite bool_decide_eq_true_2 by done.
  change (s_dw_lock s2) with (s_dw_lock s). rewrite Hlk. cbv beta iota. unfold send_buffer_.
  assert (s_low (direct_rest (set_dw_lock true s2)) = s_low s ++ [new_buffer (Object l) []]) as ->.
  { unfold direct_rest. destruct (s_dw_buffer (set_dw_lock true s2)) as [b|]; [|done].
    by destruct (send_object_init b) as [[ptr bs] user]. }
  rewrite Hlo. cbn [app list_uncomplete new_buffer send_object_init wb_ptr wb_buffer p_buffer].
  by rewrite bool_decide_eq_true_2.
Qed.
End races.
