(* ===== verification/SocketSlots.v ===== *)
(** * The slots of the socket server

    The well-formedness of the slots: a slot that is not free holds a socket whose
    id belongs to it, a free or reserved slot holds nothing to send, and the union
    [p] holds what the protocol of the socket reads. Every request and every event
    keeps it. *)
From S2P Require Import Prelude CLib CNum SocketKernel SocketData SocketWrite SocketCtrl SocketPoll.
From S2P Require Import SocketApi SocketStream SocketIds SocketOrder.
From Stdlib Require Import Ascii String.
#[local] Open Scope Z_scope.










Section slots.
Context {W : Type} `{!Kernel W}.





























































End slots.
