(* ===== verification/SocketWitness.v ===== *)
(** * Runs of the socket server

    The theorems about the socket server at concrete sockets of the small system. *)
From S2P Require Import Prelude CLib CNum SocketKernel SocketData SocketWrite SocketCtrl SocketPoll.
From S2P Require Import SocketApi SocketStream SocketIds SocketOrder SocketRaces SocketSlots.
From Stdlib Require Import Ascii String.
#[local] Open Scope Z_scope.

(** socket 1, of descriptor 5 *)
Definition tcp (high low : list write_buffer) (size count type : Z) : socket :=
  Socket 9 high low size (SocketStat 0 0 0 0) count 5 1 PROTOCOL_TCP type READING_RESUME 0 0
    (PSize MIN_READ_BUFFER) false 0 None.
Definition server (s : socket) (pipe : list request) : socket_server :=
  SocketServer 0 8 9 true 3 1 0 0 [] (<[1%nat := s]> (replicate (Z.to_nat MAX_SOCKET) empty_socket)) pipe.
Definition quiet (room : list Z) : sim := Sim room [] {[5 := EPOLLIN]} [] 4096.

Lemma server_get s pipe : get_socket (server s pipe) (HASH_ID 1) = Ret s.
Proof.
  apply get_idx_Ret. split; [done|]. apply list_lookup_insert_eq. rewrite length_replicate.
  apply Nat.ltb_lt. vm_compute. reflexivity.
Qed.

Definition buffer (l : loc) (bs : list Z) : write_buffer := WriteBuffer l l bs false [].

Lemma send_buffer_stream_witness :
  let s := tcp [buffer 100 [1; 2; 3]] [buffer 200 [4; 5]; buffer 300 [6]] 6 0 SOCKET_TYPE_CONNECTED in
  ∃ r s' w' bs, send_buffer (server s []) 1 s 0 (quiet [3; 1]) = Ret (r, s', 0, w') ∧
    appended 5 bs (quiet [3; 1]) w' ∧ s_dw_lock s' = false ∧
    ((r = Some (SOCKET_CLOSE, message_of s) ∧ SocketStream.closed s' ∧ ∃ rest, pending s = bs ++ rest) ∨
     (is_close r = false ∧ tcp_ok s' ∧ s_dw_buffer s' = None ∧ pending s = bs ++ pending s' ∧
      s_type s' = s_type s ∧ (s_type s = SOCKET_TYPE_HALFCLOSE → s_high s' ≠ [] ∨ s_low s' ≠ []))).
Proof.
  intros s. apply (send_buffer_stream (server s []) 1 s (quiet [3; 1])); [|reflexivity].
  split; [done|by repeat constructor|reflexivity|done].
Defined.

(** the partly sent buffer moved to the high list *)
Example send_buffer_run :
  let s := tcp [buffer 100 [1; 2; 3]] [buffer 200 [4; 5]; buffer 300 [6]] 6 0 SOCKET_TYPE_CONNECTED in
  match send_buffer (server s []) 1 s 0 (quiet [3; 1]) with
  | Ret (r, s', _, w') => (s_high s', s_low s', m_written w')
  | _ => ([], [], [])
  end = ([WriteBuffer 200 201 [5] false []], [buffer 300 [6]], [(5, [1; 2; 3]); (5, [4])]).
Proof. vm_compute. reflexivity. Qed.

(** ** Two sends, the first one cut by a full system buffer *)
Definition start : socket := tcp [] [] 0 (ID_TAG16 1 * 2 ^ 16) SOCKET_TYPE_CONNECTED.
Definition one : sendbuffer := SOCKET_BUFFER_MEMORY 100 [1; 2; 3].
Definition two : sendbuffer := SOCKET_BUFFER_RAWPOINTER 200 [4; 5].
Definition run_begin (ss : socket_server) (buf : sendbuffer) (w : sim) : progress * socket_server * sim :=
  match send_begin ss 1 buf w with Ret p => p | _ => (Done 0, ss, w) end.

Lemma start_idle : idle 1 5 (server start []) start.
Proof. split; try done; apply server_get. Qed.

Definition after_one : progress * socket_server * sim := run_begin (server start []) one (quiet [2]).
Definition after_two : progress * socket_server * sim := run_begin after_one.1.2 two after_one.2.

Definition returns {A} (o : outcome A) : bool := match o with Ret _ => true | _ => false end.
Lemma run_begin_eq ss buf w r : returns (send_begin ss 1 buf w) = true → (run_begin ss buf w).1.1 = r →
  send_begin ss 1 buf w = Ret (r, (run_begin ss buf w).1.2, (run_begin ss buf w).2).
Proof. unfold run_begin. destruct (send_begin ss 1 buf w) as [[[r' ss'] w']| | |]; cbn; by intros ? <-. Qed.

Lemma sent_two : ∃ y, rtc (step 1) (Sys (server start []) (quiet [2]) None [] []) y ∧
  y_holder y = None ∧ y_waiting y = [(PRIORITY_HIGH, two)] ∧ y_log y = [(PRIORITY_HIGH, [1; 2; 3])] ∧
  ss_pipe (y_ss y) = [].
Proof.
  exists (Sys after_two.1.2 after_two.2 None [(PRIORITY_HIGH, two)] [(PRIORITY_HIGH, [1; 2; 3])]).
  split; [|split; [done|split; [done|split; [done|vm_compute; reflexivity]]]].
  assert (∃ s, inv 1 5 (wire (quiet [2]) 5) (Sys (server start []) (quiet [2]) None [] []) s) as Hinv.
  { exists start. apply idle_inv. apply start_idle. }
  assert (send_begin (server start []) 1 one (quiet [2]) = Ret (Done 0, after_one.1.2, after_one.2)) as E1
    by (apply run_begin_eq; vm_compute; reflexivity).
  destruct (send_begin_steps 1 5 _ _ _ [] [] one _ _ _ Hinv E1) as [_ Hs]. eapply transitivity; [exact Hs|].
  apply (keep_steps 1 5 _ _ _ Hs) in Hinv.
  assert (send_begin after_one.1.2 1 two after_one.2 = Ret (Later, after_two.1.2, after_two.2)) as E2
    by (apply run_begin_eq; vm_compute; reflexivity).
  apply rtc_once. exact (send_begin_steps 1 5 _ _ _ [] _ two _ _ _ Hinv E2).
Qed.

Lemma tcp_stream_order_witness : ∃ (y : sys (W := sim)) s hs ls, y_log y = [(PRIORITY_HIGH, [1; 2; 3])] ∧
  get_socket (y_ss y) (HASH_ID 1) = Ret s ∧
  wire (y_w y) 5 ++ held (y_holder y) s ++ data_of (s_high s) = wire (quiet [2]) 5 ++ mjoin hs ∧
  hs ++ ls ++ (snd <$> piped (y_ss y)) = [[1; 2; 3]].
Proof.
  destruct sent_two as (y & Hr & _ & _ & Hlog & _).
  destruct (tcp_stream_order 1 5 (server start []) start (quiet [2]) y start_idle Hr)
    as (s & hs & ls & H1 & H2 & _ & _ & H5).
  exists y, s, hs, ls. split; [exact Hlog|]. split; [exact H1|]. split; [exact H2|].
  rewrite Hlog in H5. apply H5. by repeat constructor.
Defined.


(** ** A created server *)
Definition created : socket_server :=
  SocketServer 0 8 9 true 3 0 0 0 [] (replicate (Z.to_nat MAX_SOCKET) empty_socket) [].

Lemma created_ok : server_ok created.
Proof. split; [|done]. unfold created, ss_slot. apply Zlen_replicate. done. Qed.

(** ** Ids *)
Definition wrapping : socket_server := ss_set_alloc_id (2 ^ 31 - 1) (server start []).
(** another thread that takes slot 1, free so far, before the compare-and-swap of the
    first round *)
Definition take_slot_1 : interference :=
  Interference id id (λ ss, ss_set_slot (<[1%nat := set_type SOCKET_TYPE_RESERVE empty_socket]> (ss_slot ss)) ss).
Definition disturbed (k : nat) : interference := match k with O => take_slot_1 | S _ => alone end.
Lemma disturbed_keeps k : keeps_slots (disturbed k).
Proof. intros ss Hl. destruct k; [|done]. split; [done|]. split; [done|]. cbn. by rewrite Zlen_insert. Qed.

Lemma reserve_id_fresh_witness :
  (server_ok wrapping ∧ ∃ p, reserve_id wrapping = Ret p) ∧
  ∃ id ss', reserve_loop (Z.to_nat (MAX_SOCKET + 1)) disturbed 0 0 created = Ret (id, ss') ∧ (id = -1 ∨ took id ss').
Proof.
  assert (server_ok wrapping) as Hok.
  { split; [|done]. cbn. rewrite Zlen_insert. by apply Zlen_replicate. }
  split; [split; [exact Hok|]|].
  - destruct (reserve_id_fresh wrapping Hok) as (_ & _ & [(id & s & _ & _ & _ & E & _)|(_ & id & E & _)]); eexists; exact E.
  - apply (proj1 (reserve_id_fresh created created_ok) disturbed); [exact disturbed_keeps|].
    change (lost_rounds (Z.to_nat (MAX_SOCKET + 1)) disturbed 0 created) with 1%nat. rewrite Z2Nat.id by done. done.
Defined.
Example wrapped_id : match reserve_id wrapping with Ret (id, _) => id | _ => -1 end = 0.
Proof. vm_compute. reflexivity. Qed.

Lemma stale_request_harmless_witness :
  ctrl_cmd (server start []) (RClose (1 + MAX_SOCKET) false 7) (quiet []) =
  Ret (Some (SOCKET_CLOSE, SocketMessage (1 + MAX_SOCKET) 7 0 Null), server start [], quiet []).
Proof.
  apply (stale_request_harmless (server start []) (RClose (1 + MAX_SOCKET) false 7) (1 + MAX_SOCKET) start (quiet []));
    [reflexivity|apply server_get|done].
Defined.

(** ** The orders that are not handled *)
Definition opening : socket := reserved 1 empty_socket.
Definition connecting : socket_server := server opening [ROpen 1 80 9 "localhost"].
Definition nobody : sim := set_interest ∅ (quiet []).
Definition in_progress (ss : socket_server) (w : sim) : bool :=
  match open_socket (ss_set_pipe (tail (ss_pipe ss)) ss) 1 80 9 "localhost" w with
  | Ret (None, _, _) => true
  | _ => false
  end.
Lemma connect_then_send_asserts_witness : ∃ ss' w',
  socket_server_send connecting 1 one nobody = Ret (0, ss', w') ∧ serve 2 ss' w' = AssertFail.
Proof.
  destruct (connect_then_send_asserts connecting 1 opening 80 9 "localhost" one nobody) as (ss' & w' & E & H);
    [apply server_get|done|done|done|done|].
  exists ss', w'. split; [exact E|]. apply H.
  assert (match socket_server_send connecting 1 one nobody with Ret (_, ss1, w1) => in_progress ss1 w1 | _ => false end
    = true) as Ho by (vm_compute; reflexivity).
  rewrite E in Ho. unfold in_progress in Ho.
  destruct (open_socket _ 1 80 9 "localhost" w') as [[[[x|] ss1] w1]| | |]; try discriminate Ho.
  by exists ss1, w1.
Defined.

Definition counted : socket := tcp [] [] 0 (ID_TAG16 1 * 2 ^ 16 + 1) SOCKET_TYPE_CONNECTED.
Definition closing : socket_server := server counted [RClose 1 false 9; RSend PRIORITY_HIGH 1 (Memory 100 [1; 2])].
Lemma close_then_send_stuck_witness : ∃ ss' s',
  serve 2 closing (quiet []) =
    Ret ([None; None], ss', free_payload (Memory 100 [1; 2])
                              (sp_write (ss_event_fd closing) (s_fd counted) (Some (HASH_ID 1)) false (quiet []))) ∧
  ss_pipe ss' = [] ∧ get_socket ss' (HASH_ID 1) = Ret s' ∧ s_type s' = SOCKET_TYPE_HALFCLOSE ∧
  nomore_sending_data s' = true.
Proof.
  apply (close_then_send_stuck closing 1 counted 9 PRIORITY_HIGH (Memory 100 [1; 2]) (quiet []));
    [apply server_get|done..].
Defined.

Definition waiting : socket := tcp [buffer 100 [1; 2; 3]] [] 3 (ID_TAG16 1 * 2 ^ 16 + 1) SOCKET_TYPE_CONNECTED.
Definition pausing : socket_server := server waiting [RPause 1 9; RResume 1 9].
Definition resumed : sim := set_interest {[5 := EPOLLIN]} (set_interest ∅ (quiet [])).
Lemma pause_stalls_writes_witness : ∃ rs ss' s', serve 2 pausing (quiet []) = Ret (rs, ss', resumed) ∧
  get_socket ss' (HASH_ID 1) = Ret s' ∧ s_high s' = [buffer 100 [1; 2; 3]].
Proof.
  destruct (pause_stalls_writes pausing 1 waiting 9 9 (quiet []) resumed) as (rs & ss' & s' & E & Hg & Hh & _);
    [apply server_get|done|done|done|done|done|done|vm_compute; reflexivity|].
  exists rs, ss', s'. split; [exact E|]. split; [exact Hg|exact Hh].
Defined.

Lemma low_object_asserts_witness : ∃ r ss' s',
  ctrl_cmd (server waiting []) (RSend PRIORITY_LOW 1 (Object 500)) (quiet []) = Ret (r, ss', quiet []) ∧
  get_socket ss' (HASH_ID 1) = Ret s' ∧ send_buffer ss' (HASH_ID 1) s' 0 (quiet []) = AssertFail.
Proof.
  apply (low_object_asserts (server waiting []) 1 waiting 500 (quiet [])); [apply server_get|done..].
Defined.

(** ** Slots: a created server, an id reserved and a descriptor bound to it *)
Definition reserved_one : socket_server :=
  ss_set_slot (<[1%nat := reserved 1 empty_socket]> (ss_slot created)) (ss_set_alloc_id 1 created).

Definition binding : socket_server := send_request reserved_one (RBind 1 7 9).
Definition bound : socket_server * bool :=
  match poll_round binding true (quiet []) with Ret (_, ss, _, _) => (ss, true) | _ => (binding, false) end.
Example bound_type : (s_type <$> ss_slot bound.1 !! 1%nat) = Some SOCKET_TYPE_BIND.
Proof. vm_compute. reflexivity. Qed.
