(* ===== verification/Bits.v ===== *)
(** * Words of 32 bits

    The operators of C on [uint32_t], and linear functions over their bits: a
    function that maps exclusive or to exclusive or is known by its values on the
    powers of two, so that two of them are compared by computation. *)
From S2P Require Import Prelude Bytes.
#[local] Open Scope Z_scope.

Declare Scope bits_scope.
Delimit Scope bits_scope with bits.

Definition shl32 (x n : Z) : Z := u32 (Z.shiftl x n).
Infix "<<" := shl32 (at level 30) : bits_scope.
Infix ">>" := Z.shiftr (at level 30) : bits_scope.
Infix ".&" := Z.land (at level 40, left associativity) : bits_scope.
Infix ".^" := Z.lxor (at level 50, left associativity) : bits_scope.
Infix ".|" := Z.lor (at level 51, left associativity) : bits_scope.
#[local] Open Scope bits_scope.

(** a table whose index is in range *)
Definition at_idx (t : list Z) (i : Z) : Z := nth (Z.to_nat i) t 0.

Lemma shl32_byte a k : 0 ≤ a < 256 → 0 ≤ k ≤ 24 → a << k = Z.shiftl a k.
Proof.
  unfold shl32, u32. intros Ha Hk. rewrite Z.shiftl_mul_pow2 by lia. apply Z.mod_small.
  assert (0 < 2 ^ k ≤ 2 ^ 24) by (split; [lia|apply Z.pow_le_mono_r; lia]). nia.
Qed.

(** ** Linear functions of 64 bits whose values have the bits of a mask *)
Definition in64 (x : Z) : Prop := 0 ≤ x < 2 ^ 64.

Record linear (m : Z) (f : Z → Z) : Prop := {
  l_mask x : in64 x → f x .& m = f x;
  l_xor x y : in64 x → in64 y → f (x .^ y) = f x .^ f y
}.

Lemma in64_lxor x y : in64 x → in64 y → in64 (x .^ y).
Proof.
  unfold in64. intros [Hx Hx'] [Hy Hy']. split; [by apply Z.lxor_nonneg|].
  destruct (decide (x .^ y = 0)) as [->|Hn]; [done|]. assert (0 ≤ x .^ y) by (by apply Z.lxor_nonneg).
  apply Z.log2_lt_pow2; [lia|]. pose proof (Z.log2_lxor x y Hx Hy).
  assert (∀ z, 0 ≤ z < 2 ^ 64 → Z.log2 z < 64) as Hl.
  { intros z Hz. destruct (decide (z = 0)) as [->|]; [done|]. apply Z.log2_lt_pow2; lia. }
  pose proof (Hl x). pose proof (Hl y). lia.
Qed.

Lemma in64_pow i : 0 ≤ i < 64 → in64 (2 ^ i).
Proof. intros. split; [lia|]. apply Z.pow_lt_mono_r; lia. Qed.

(** two linear functions agree if they do on the powers of two *)
Lemma linear_ext_low m m' f g n : linear m f → linear m' g → 0 ≤ n ≤ 64 →
  (∀ i, 0 ≤ i < n → f (2 ^ i) = g (2 ^ i)) → ∀ x, 0 ≤ x < 2 ^ n → f x = g x.
Proof.
  intros Hf Hg [Hn0 Hn1]. revert n Hn0 Hn1. refine (natlike_ind _ _ _).
  - intros _ _ x Hx. assert (x = 0) as -> by lia.
    assert (∀ m f, linear m f → f 0 = 0) as H0.
    { intros m0 h Hh. rewrite <- (Z.lxor_nilpotent 0). rewrite (l_xor _ _ Hh) by done. apply Z.lxor_nilpotent. }
    by rewrite (H0 m f), (H0 m' g).
  - intros n Hn IH Hn' Hi x Hx. specialize (IH ltac:(lia) ltac:(intros; apply Hi; lia)).
    pose proof (in64_pow n ltac:(lia)) as Hp. rewrite Z.pow_succ_r in Hx by lia.
    destruct (decide (x < 2 ^ n)) as [Hlt|Hge]; [apply IH; lia|].
    assert (x = (x - 2 ^ n) .^ 2 ^ n) as ->.
    { rewrite <- Z.add_nocarry_lxor; [lia|].
      replace (2 ^ n) with (Z.shiftl 1 n) at 2 by (rewrite Z.shiftl_mul_pow2; lia). apply land_shiftl_low; lia. }
    assert (in64 (x - 2 ^ n)).
    { unfold in64 in *. lia. }
    rewrite (l_xor _ _ Hf), (l_xor _ _ Hg) by done. f_equal; [apply IH; lia|apply Hi; lia].
Qed.

Definition agree (f g : Z → Z) : bool := forallb (λ i, f (2 ^ Z.of_nat i) =? g (2 ^ Z.of_nat i)) (seq 0 64).
Lemma linear_ext m m' f g : linear m f → linear m' g → agree f g = true → ∀ x, in64 x → f x = g x.
Proof.
  intros Hf Hg Ha x Hx. apply (linear_ext_low m m' f g 64); [done|done|lia| |done].
  intros i Hi. apply Z.eqb_eq. unfold agree in Ha. rewrite forallb_forall in Ha.
  specialize (Ha (Z.to_nat i)). rewrite Z2Nat.id in Ha by lia. apply Ha. apply in_seq. lia.
Qed.

(** ** Building linear functions *)
Section linear.
Context (m : Z) (f : Z → Z) (Hf : linear m f).

Lemma lin_land c : linear (m .& c) (λ x, f x .& c).
Proof.
  split; intros.
  - rewrite Z.land_assoc, <- (Z.land_assoc (f x)), (Z.land_comm c m), Z.land_assoc, (l_mask _ _ Hf) by done.
    by rewrite <- Z.land_assoc, Z.land_diag.
  - rewrite (l_xor _ _ Hf) by done. apply Z.bits_inj'. intros n _. rewrite !Z.land_spec, !Z.lxor_spec, !Z.land_spec.
    by destruct (Z.testbit (f x) n), (Z.testbit (f y) n), (Z.testbit c n).
Qed.

Lemma lin_shr k : linear (m >> k) (λ x, f x >> k).
Proof.
  split; intros; [by rewrite <- Z.shiftr_land, (l_mask _ _ Hf)|]. by rewrite (l_xor _ _ Hf), Z.shiftr_lxor.
Qed.

Lemma lin_shl k : linear (m << k) (λ x, f x << k).
Proof.
  unfold shl32, u32. split; intros.
  - rewrite <- !Z.land_ones by done. apply Z.bits_inj'. intros n _. rewrite !Z.land_spec.
    assert (Z.testbit (Z.shiftl (f x) k) n && Z.testbit (Z.shiftl m k) n = Z.testbit (Z.shiftl (f x) k) n) as H0.
    { by rewrite <- Z.land_spec, <- Z.shiftl_land, (l_mask _ _ Hf). }
    destruct (Z.testbit (Z.shiftl (f x) k) n), (Z.testbit (Z.shiftl m k) n), (Z.testbit (Z.ones 32) n); done.
  - rewrite (l_xor _ _ Hf), Z.shiftl_lxor by done. rewrite <- !Z.land_ones by done. apply Z.bits_inj'. intros n _.
    rewrite !Z.land_spec, !Z.lxor_spec, !Z.land_spec.
    by destruct (Z.testbit (Z.shiftl (f x) k) n), (Z.testbit (Z.shiftl (f y) k) n), (Z.testbit (Z.ones 32) n).
Qed.

Lemma lin_mask m' : m .& m' = m → linear m' f.
Proof.
  intros H. split; [|apply Hf]. intros x Hx. rewrite <- (l_mask _ _ Hf x Hx) at 1.
  rewrite <- Z.land_assoc, H. by apply (l_mask _ _ Hf).
Qed.

(** a table of 16 entries that is linear itself *)
Definition table_mask (t : list Z) : Z := fold_left Z.lor t 0.
Definition linear_table (t : list Z) : bool :=
  forallb (λ i, (at_idx t i .& table_mask t =? at_idx t i) &&
                forallb (λ j, at_idx t (i .^ j) =? at_idx t i .^ at_idx t j) (Z.of_nat <$> seq 0 16))
          (Z.of_nat <$> seq 0 16).
Lemma lin_table t : linear_table t = true → m .& 0xf = m → linear (table_mask t) (λ x, at_idx t (f x)).
Proof.
  intros Ht Hm. unfold linear_table in Ht. rewrite forallb_forall in Ht.
  assert (∀ x, in64 x → In (f x) (Z.of_nat <$> seq 0 16)) as Hin.
  { intros x Hx. assert (0 ≤ f x < 16) as Hr.
    { assert (f x .& 0xf = f x) as E.
      { rewrite <- (l_mask _ _ Hf x Hx), <- Z.land_assoc, Hm. done. }
      rewrite <- E. change 0xf with (2 ^ 4 - 1). rewrite land_mask by done. by apply Z.mod_pos_bound. }
    apply in_map_iff. exists (Z.to_nat (f x)). split; [lia|]. apply in_seq. lia. }
  split.
  - intros x Hx. specialize (Ht _ (Hin x Hx)). apply andb_prop in Ht as [Ht _]. by apply Z.eqb_eq.
  - intros x y Hx Hy. specialize (Ht _ (Hin x Hx)). apply andb_prop in Ht as [_ Ht]. rewrite forallb_forall in Ht.
    rewrite (l_xor _ _ Hf) by done. apply Z.eqb_eq. by apply Ht, Hin.
Qed.

Context (m' : Z) (g : Z → Z) (Hg : linear m' g).

Lemma lin_lxor : linear (m .| m') (λ x, f x .^ g x).
Proof.
  split; intros.
  - rewrite <- (l_mask _ _ Hf x), <- (l_mask _ _ Hg x) by done. apply Z.bits_inj'. intros n _.
    rewrite !Z.land_spec, !Z.lxor_spec, !Z.land_spec, Z.lor_spec.
    by destruct (Z.testbit (f x) n), (Z.testbit (g x) n), (Z.testbit m n), (Z.testbit m' n).
  - rewrite (l_xor _ _ Hf), (l_xor _ _ Hg) by done. apply Z.bits_inj'. intros n _. rewrite !Z.lxor_spec.
    by destruct (Z.testbit (f x) n), (Z.testbit (g x) n), (Z.testbit (f y) n), (Z.testbit (g y) n).
Qed.

Lemma lin_lor : m .& m' = 0 → linear (m .| m') (λ x, f x .| g x).
Proof.
  intros H. assert (∀ x, in64 x → f x .| g x = f x .^ g x) as E.
  { intros x Hx. symmetry. apply Z.lxor_lor. rewrite <- (l_mask _ _ Hf x), <- (l_mask _ _ Hg x) by done.
    rewrite (Z.land_comm (g x)), Z.land_assoc, <- (Z.land_assoc (f x)), H, Z.land_0_r. apply Z.land_0_l. }
  pose proof lin_lxor as [L1 L2]. split; intros; [rewrite !E by done; by apply L1|].
  rewrite !E by (done || by apply in64_lxor). by apply L2.
Qed.
End linear.

Lemma lin_id : linear (2 ^ 64 - 1) (λ x, x).
Proof. split; [|done]. intros x Hx. rewrite land_mask by done. by apply Z.mod_small. Qed.

Lemma linear_proper m f g : (∀ x, in64 x → f x = g x) → linear m f → linear m g.
Proof.
  intros E [H1 H2]. split; intros; rewrite <- !E by (done || by apply in64_lxor); auto.
Qed.

(** the mask of the function is found on the way; [linear_step] is what other files add *)
Ltac linear_step := fail.
Ltac linear_fun :=
  lazymatch goal with
  | |- linear _ (λ x, x) => apply lin_id
  | |- linear _ (λ x, @?f x .& _) => refine (lin_land _ f _ _); linear_fun
  | |- linear _ (λ x, @?f x >> _) => refine (lin_shr _ f _ _); linear_fun
  | |- linear _ (λ x, @?f x << _) => refine (lin_shl _ f _ _); linear_fun
  | |- linear _ (λ x, @?f x .^ @?g x) => refine (lin_lxor _ f _ _ g _); linear_fun
  | |- linear _ (λ x, @?f x .| @?g x) => refine (lin_lor _ f _ _ g _ _); [linear_fun|linear_fun|vm_compute; reflexivity]
  | |- linear _ (λ x, at_idx ?t (@?f x)) =>
      refine (lin_table _ f _ t _ _); [linear_fun|vm_compute; reflexivity|vm_compute; reflexivity]
  | H : linear _ ?f |- linear _ ?f => exact H
  | H : linear _ ?f |- linear _ (λ x, ?f x) => exact H
  | _ => linear_step
  end.
Ltac linear := cbv beta zeta iota delta [fst snd]; eapply lin_mask; [linear_fun|vm_compute; reflexivity].

(** ** Exclusive or of bytes and of the words they make *)
Lemma byte_bits x n : byte x → 8 ≤ n → Z.testbit x n = false.
Proof. unfold byte. intros Hx Hn. rewrite <- (Z.mod_small x (2 ^ 8)) by (change (2 ^ 8) with 256; lia). apply Z.mod_pow2_bits_high. lia. Qed.
Lemma lxor_byte x y : byte x → byte y → byte (x .^ y).
Proof.
  intros Hx Hy. assert (x .^ y = (x .^ y) mod 2 ^ 8) as ->; [|by apply Z.mod_pos_bound].
  apply Z.bits_inj'. intros n Hn. destruct (decide (n < 8)); [by rewrite Z.mod_pow2_bits_low by lia|].
  rewrite Z.mod_pow2_bits_high, Z.lxor_spec, !byte_bits by (done || lia). done.
Qed.
Lemma lxor_low b b' v v' : byte b → byte b' → (b + 256 * v) .^ (b' + 256 * v') = (b .^ b') + 256 * (v .^ v').
Proof.
  intros Hb Hb'. assert (∀ c w, byte c → c + 256 * w = Z.shiftl w 8 .| c) as E.
  { intros c w Hc. unfold byte in Hc. rewrite lor_shift by (change (2 ^ 8) with 256; lia). change (2 ^ 8) with 256. lia. }
  rewrite !E by (done || by apply lxor_byte). apply Z.bits_inj'. intros n Hn.
  rewrite Z.lxor_spec, !Z.lor_spec, Z.lxor_spec. destruct (decide (n < 8)).
  - by rewrite !Z.shiftl_spec_low by lia.
  - rewrite !Z.shiftl_spec, Z.lxor_spec by lia. rewrite (byte_bits b), (byte_bits b') by (done || lia). by rewrite !orb_false_r.
Qed.
Lemma le_lxor l k : Forall byte l → Forall byte k → length l = length k →
  le_bytes (length l) (le_value l .^ le_value k) = zip_with Z.lxor l k.
Proof.
  intros Hl. revert k. induction Hl as [|b l Hb Hl IH]; intros [|b' k] Hk Hlen; try done.
  apply Forall_cons in Hk as [Hb' Hk]. cbn [le_value length le_bytes zip_with]. rewrite lxor_low by done.
  pose proof (lxor_byte b b' Hb Hb') as Hx. unfold byte in Hx. f_equal.
  - rewrite (Z.mul_comm 256), Z.mod_add by done. by apply Z.mod_small.
  - rewrite (Z.mul_comm 256), Z.div_add, Z.div_small by (done || lia). apply IH; [done|by injection Hlen].
Qed.
