(* ===== verification/Des.v ===== *)
(** * DES: lualib-src/lua-crypt.c

    The tables, the key schedule, the cipher on one block, and the functions of
    the library that encode and decode a text with padding. A word is its value;
    a pointer that moves over the subkeys is the list of those left. *)
From S2P Require Import Prelude Bytes LuaValue Bits.
From Stdlib Require Import Ascii String.
#[local] Open Scope Z_scope.
#[local] Open Scope bits_scope.

Definition SB1 : list Z :=
  [0x01010400; 0x00000000; 0x00010000; 0x01010404; 0x01010004; 0x00010404; 0x00000004; 0x00010000;
   0x00000400; 0x01010400; 0x01010404; 0x00000400; 0x01000404; 0x01010004; 0x01000000; 0x00000004;
   0x00000404; 0x01000400; 0x01000400; 0x00010400; 0x00010400; 0x01010000; 0x01010000; 0x01000404;
   0x00010004; 0x01000004; 0x01000004; 0x00010004; 0x00000000; 0x00000404; 0x00010404; 0x01000000;
   0x00010000; 0x01010404; 0x00000004; 0x01010000; 0x01010400; 0x01000000; 0x01000000; 0x00000400;
   0x01010004; 0x00010000; 0x00010400; 0x01000004; 0x00000400; 0x00000004; 0x01000404; 0x00010404;
   0x01010404; 0x00010004; 0x01010000; 0x01000404; 0x01000004; 0x00000404; 0x00010404; 0x01010400;
   0x00000404; 0x01000400; 0x01000400; 0x00000000; 0x00010004; 0x00010400; 0x00000000; 0x01010004].

Definition SB2 : list Z :=
  [0x80108020; 0x80008000; 0x00008000; 0x00108020; 0x00100000; 0x00000020; 0x80100020; 0x80008020;
   0x80000020; 0x80108020; 0x80108000; 0x80000000; 0x80008000; 0x00100000; 0x00000020; 0x80100020;
   0x00108000; 0x00100020; 0x80008020; 0x00000000; 0x80000000; 0x00008000; 0x00108020; 0x80100000;
   0x00100020; 0x80000020; 0x00000000; 0x00108000; 0x00008020; 0x80108000; 0x80100000; 0x00008020;
   0x00000000; 0x00108020; 0x80100020; 0x00100000; 0x80008020; 0x80100000; 0x80108000; 0x00008000;
   0x80100000; 0x80008000; 0x00000020; 0x80108020; 0x00108020; 0x00000020; 0x00008000; 0x80000000;
   0x00008020; 0x80108000; 0x00100000; 0x80000020; 0x00100020; 0x80008020; 0x80000020; 0x00100020;
   0x00108000; 0x00000000; 0x80008000; 0x00008020; 0x80000000; 0x80100020; 0x80108020; 0x00108000].

Definition SB3 : list Z :=
  [0x00000208; 0x08020200; 0x00000000; 0x08020008; 0x08000200; 0x00000000; 0x00020208; 0x08000200;
   0x00020008; 0x08000008; 0x08000008; 0x00020000; 0x08020208; 0x00020008; 0x08020000; 0x00000208;
   0x08000000; 0x00000008; 0x08020200; 0x00000200; 0x00020200; 0x08020000; 0x08020008; 0x00020208;
   0x08000208; 0x00020200; 0x00020000; 0x08000208; 0x00000008; 0x08020208; 0x00000200; 0x08000000;
   0x08020200; 0x08000000; 0x00020008; 0x00000208; 0x00020000; 0x08020200; 0x08000200; 0x00000000;
   0x00000200; 0x00020008; 0x08020208; 0x08000200; 0x08000008; 0x00000200; 0x00000000; 0x08020008;
   0x08000208; 0x00020000; 0x08000000; 0x08020208; 0x00000008; 0x00020208; 0x00020200; 0x08000008;
   0x08020000; 0x08000208; 0x00000208; 0x08020000; 0x00020208; 0x00000008; 0x08020008; 0x00020200].

Definition SB4 : list Z :=
  [0x00802001; 0x00002081; 0x00002081; 0x00000080; 0x00802080; 0x00800081; 0x00800001; 0x00002001;
   0x00000000; 0x00802000; 0x00802000; 0x00802081; 0x00000081; 0x00000000; 0x00800080; 0x00800001;
   0x00000001; 0x00002000; 0x00800000; 0x00802001; 0x00000080; 0x00800000; 0x00002001; 0x00002080;
   0x00800081; 0x00000001; 0x00002080; 0x00800080; 0x00002000; 0x00802080; 0x00802081; 0x00000081;
   0x00800080; 0x00800001; 0x00802000; 0x00802081; 0x00000081; 0x00000000; 0x00000000; 0x00802000;
   0x00002080; 0x00800080; 0x00800081; 0x00000001; 0x00802001; 0x00002081; 0x00002081; 0x00000080;
   0x00802081; 0x00000081; 0x00000001; 0x00002000; 0x00800001; 0x00002001; 0x00802080; 0x00800081;
   0x00002001; 0x00002080; 0x00800000; 0x00802001; 0x00000080; 0x00800000; 0x00002000; 0x00802080].

Definition SB5 : list Z :=
  [0x00000100; 0x02080100; 0x02080000; 0x42000100; 0x00080000; 0x00000100; 0x40000000; 0x02080000;
   0x40080100; 0x00080000; 0x02000100; 0x40080100; 0x42000100; 0x42080000; 0x00080100; 0x40000000;
   0x02000000; 0x40080000; 0x40080000; 0x00000000; 0x40000100; 0x42080100; 0x42080100; 0x02000100;
   0x42080000; 0x40000100; 0x00000000; 0x42000000; 0x02080100; 0x02000000; 0x42000000; 0x00080100;
   0x00080000; 0x42000100; 0x00000100; 0x02000000; 0x40000000; 0x02080000; 0x42000100; 0x40080100;
   0x02000100; 0x40000000; 0x42080000; 0x02080100; 0x40080100; 0x00000100; 0x02000000; 0x42080000;
   0x42080100; 0x00080100; 0x42000000; 0x42080100; 0x02080000; 0x00000000; 0x40080000; 0x42000000;
   0x00080100; 0x02000100; 0x40000100; 0x00080000; 0x00000000; 0x40080000; 0x02080100; 0x40000100].

Definition SB6 : list Z :=
  [0x20000010; 0x20400000; 0x00004000; 0x20404010; 0x20400000; 0x00000010; 0x20404010; 0x00400000;
   0x20004000; 0x00404010; 0x00400000; 0x20000010; 0x00400010; 0x20004000; 0x20000000; 0x00004010;
   0x00000000; 0x00400010; 0x20004010; 0x00004000; 0x00404000; 0x20004010; 0x00000010; 0x20400010;
   0x20400010; 0x00000000; 0x00404010; 0x20404000; 0x00004010; 0x00404000; 0x20404000; 0x20000000;
   0x20004000; 0x00000010; 0x20400010; 0x00404000; 0x20404010; 0x00400000; 0x00004010; 0x20000010;
   0x00400000; 0x20004000; 0x20000000; 0x00004010; 0x20000010; 0x20404010; 0x00404000; 0x20400000;
   0x00404010; 0x20404000; 0x00000000; 0x20400010; 0x00000010; 0x00004000; 0x20400000; 0x00404010;
   0x00004000; 0x00400010; 0x20004010; 0x00000000; 0x20404000; 0x20000000; 0x00400010; 0x20004010].

Definition SB7 : list Z :=
  [0x00200000; 0x04200002; 0x04000802; 0x00000000; 0x00000800; 0x04000802; 0x00200802; 0x04200800;
   0x04200802; 0x00200000; 0x00000000; 0x04000002; 0x00000002; 0x04000000; 0x04200002; 0x00000802;
   0x04000800; 0x00200802; 0x00200002; 0x04000800; 0x04000002; 0x04200000; 0x04200800; 0x00200002;
   0x04200000; 0x00000800; 0x00000802; 0x04200802; 0x00200800; 0x00000002; 0x04000000; 0x00200800;
   0x04000000; 0x00200800; 0x00200000; 0x04000802; 0x04000802; 0x04200002; 0x04200002; 0x00000002;
   0x00200002; 0x04000000; 0x04000800; 0x00200000; 0x04200800; 0x00000802; 0x00200802; 0x04200800;
   0x00000802; 0x04000002; 0x04200802; 0x04200000; 0x00200800; 0x00000000; 0x00000002; 0x04200802;
   0x00000000; 0x00200802; 0x04200000; 0x00000800; 0x04000002; 0x04000800; 0x00000800; 0x00200002].

Definition SB8 : list Z :=
  [0x10001040; 0x00001000; 0x00040000; 0x10041040; 0x10000000; 0x10001040; 0x00000040; 0x10000000;
   0x00040040; 0x10040000; 0x10041040; 0x00041000; 0x10041000; 0x00041040; 0x00001000; 0x00000040;
   0x10040000; 0x10000040; 0x10001000; 0x00001040; 0x00041000; 0x00040040; 0x10040040; 0x10041000;
   0x00001040; 0x00000000; 0x00000000; 0x10040040; 0x10000040; 0x10001000; 0x00041040; 0x00040000;
   0x00041040; 0x00040000; 0x10041000; 0x00001000; 0x00000040; 0x10040040; 0x00001000; 0x00041040;
   0x10001000; 0x00000040; 0x10000040; 0x10040000; 0x10040040; 0x10000000; 0x00040000; 0x10001040;
   0x00000000; 0x10041040; 0x00040040; 0x10000040; 0x10040000; 0x10001000; 0x10001040; 0x00000000;
   0x10041040; 0x00041000; 0x00041000; 0x00001040; 0x00001040; 0x00040040; 0x10000000; 0x10041000].

Definition LHs : list Z :=
  [0x00000000; 0x00000001; 0x00000100; 0x00000101; 0x00010000; 0x00010001; 0x00010100; 0x00010101;
   0x01000000; 0x01000001; 0x01000100; 0x01000101; 0x01010000; 0x01010001; 0x01010100; 0x01010101].

Definition RHs : list Z :=
  [0x00000000; 0x01000000; 0x00010000; 0x01010000; 0x00000100; 0x01000100; 0x00010100; 0x01010100;
   0x00000001; 0x01000001; 0x00010001; 0x01010001; 0x00000101; 0x01000101; 0x00010101; 0x01010101].

(** ** Words and bytes *)
Definition GET_UINT32 (b : list Z) (i : Z) : Z :=
  (at_idx b i << 24) .| (at_idx b (i + 1) << 16) .| (at_idx b (i + 2) << 8) .| at_idx b (i + 3).
Definition PUT_UINT32 (n : Z) : list Z := [u8 (n >> 24); u8 (n >> 16); u8 (n >> 8); u8 n].

(** ** The permutations *)
Definition DES_IP (X Y : Z) : Z * Z :=
  let T := ((X >> 4) .^ Y) .& 0x0f0f0f0f in let Y := Y .^ T in let X := X .^ (T << 4) in
  let T := ((X >> 16) .^ Y) .& 0x0000ffff in let Y := Y .^ T in let X := X .^ (T << 16) in
  let T := ((Y >> 2) .^ X) .& 0x33333333 in let X := X .^ T in let Y := Y .^ (T << 2) in
  let T := ((Y >> 8) .^ X) .& 0x00ff00ff in let X := X .^ T in let Y := Y .^ (T << 8) in
  let Y := ((Y << 1) .| (Y >> 31)) .& 0xffffffff in
  let T := (X .^ Y) .& 0xaaaaaaaa in let Y := Y .^ T in let X := X .^ T in
  let X := ((X << 1) .| (X >> 31)) .& 0xffffffff in
  (X, Y).

Definition DES_FP (X Y : Z) : Z * Z :=
  let X := ((X << 31) .| (X >> 1)) .& 0xffffffff in
  let T := (X .^ Y) .& 0xaaaaaaaa in let X := X .^ T in let Y := Y .^ T in
  let Y := ((Y << 31) .| (Y >> 1)) .& 0xffffffff in
  let T := ((Y >> 8) .^ X) .& 0x00ff00ff in let X := X .^ T in let Y := Y .^ (T << 8) in
  let T := ((Y >> 2) .^ X) .& 0x33333333 in let X := X .^ T in let Y := Y .^ (T << 2) in
  let T := ((X >> 16) .^ Y) .& 0x0000ffff in let Y := Y .^ T in let X := X .^ (T << 16) in
  let T := ((X >> 4) .^ Y) .& 0x0f0f0f0f in let Y := Y .^ T in let X := X .^ (T << 4) in
  (X, Y).

(** ** A round: the new [Y] *)
Definition DES_ROUND (k0 k1 X Y : Z) : Z :=
  let T := k0 .^ X in
  let Y := Y .^ (at_idx SB8 (T .& 0x3f) .^ at_idx SB6 ((T >> 8) .& 0x3f) .^
                 at_idx SB4 ((T >> 16) .& 0x3f) .^ at_idx SB2 ((T >> 24) .& 0x3f)) in
  let T := k1 .^ ((X << 28) .| (X >> 4)) in
  Y .^ (at_idx SB7 (T .& 0x3f) .^ at_idx SB5 ((T >> 8) .& 0x3f) .^
        at_idx SB3 ((T >> 16) .& 0x3f) .^ at_idx SB1 ((T >> 24) .& 0x3f)).

(** ** The key schedule *)
Definition ks_select (X Y : Z) : Z * Z :=
  let T := ((Y >> 4) .^ X) .& 0x0f0f0f0f in let X := X .^ T in let Y := Y .^ (T << 4) in
  let T := (Y .^ X) .& 0x10101010 in let X := X .^ T in let Y := Y .^ T in
  let X := (at_idx LHs (X .& 0xf) << 3) .| (at_idx LHs ((X >> 8) .& 0xf) << 2)
        .| (at_idx LHs ((X >> 16) .& 0xf) << 1) .| at_idx LHs ((X >> 24) .& 0xf)
        .| (at_idx LHs ((X >> 5) .& 0xf) << 7) .| (at_idx LHs ((X >> 13) .& 0xf) << 6)
        .| (at_idx LHs ((X >> 21) .& 0xf) << 5) .| (at_idx LHs ((X >> 29) .& 0xf) << 4) in
  let Y := (at_idx RHs ((Y >> 1) .& 0xf) << 3) .| (at_idx RHs ((Y >> 9) .& 0xf) << 2)
        .| (at_idx RHs ((Y >> 17) .& 0xf) << 1) .| at_idx RHs ((Y >> 25) .& 0xf)
        .| (at_idx RHs ((Y >> 4) .& 0xf) << 7) .| (at_idx RHs ((Y >> 12) .& 0xf) << 6)
        .| (at_idx RHs ((Y >> 20) .& 0xf) << 5) .| (at_idx RHs ((Y >> 28) .& 0xf) << 4) in
  (X .& 0x0fffffff, Y .& 0x0fffffff).

Definition ks_rotate (i X : Z) : Z :=
  if bool_decide (i < 2 ∨ i = 8 ∨ i = 15) then ((X << 1) .| (X >> 27)) .& 0x0fffffff
  else ((X << 2) .| (X >> 26)) .& 0x0fffffff.

Definition subkey0 (X Y : Z) : Z :=
  ((X << 4) .& 0x24000000) .| ((X << 28) .& 0x10000000) .| ((X << 14) .& 0x08000000)
   .| ((X << 18) .& 0x02080000) .| ((X << 6) .& 0x01000000) .| ((X << 9) .& 0x00200000)
   .| ((X >> 1) .& 0x00100000) .| ((X << 10) .& 0x00040000) .| ((X << 2) .& 0x00020000)
   .| ((X >> 10) .& 0x00010000) .| ((Y >> 13) .& 0x00002000) .| ((Y >> 4) .& 0x00001000)
   .| ((Y << 6) .& 0x00000800) .| ((Y >> 1) .& 0x00000400) .| ((Y >> 14) .& 0x00000200)
   .| (Y .& 0x00000100) .| ((Y >> 5) .& 0x00000020) .| ((Y >> 10) .& 0x00000010)
   .| ((Y >> 3) .& 0x00000008) .| ((Y >> 18) .& 0x00000004) .| ((Y >> 26) .& 0x00000002)
   .| ((Y >> 24) .& 0x00000001).

Definition subkey1 (X Y : Z) : Z :=
  ((X << 15) .& 0x20000000) .| ((X << 17) .& 0x10000000) .| ((X << 10) .& 0x08000000)
   .| ((X << 22) .& 0x04000000) .| ((X >> 2) .& 0x02000000) .| ((X << 1) .& 0x01000000)
   .| ((X << 16) .& 0x00200000) .| ((X << 11) .& 0x00100000) .| ((X << 3) .& 0x00080000)
   .| ((X >> 6) .& 0x00040000) .| ((X << 15) .& 0x00020000) .| ((X >> 4) .& 0x00010000)
   .| ((Y >> 2) .& 0x00002000) .| ((Y << 8) .& 0x00001000) .| ((Y >> 14) .& 0x00000808)
   .| ((Y >> 9) .& 0x00000400) .| (Y .& 0x00000200) .| ((Y << 7) .& 0x00000100)
   .| ((Y >> 7) .& 0x00000020) .| ((Y >> 3) .& 0x00000011) .| ((Y << 2) .& 0x00000004)
   .| ((Y >> 21) .& 0x00000002).

Fixpoint ks_loop (n : nat) (i X Y : Z) : list Z :=
  match n with
  | O => []
  | S n =>
      let X := ks_rotate i X in
      let Y := ks_rotate i Y in
      subkey0 X Y :: subkey1 X Y :: ks_loop n (i + 1) X Y
  end.
Definition des_main_ks (key : list Z) : list Z :=
  let '(X, Y) := ks_select (GET_UINT32 key 0) (GET_UINT32 key 4) in
  ks_loop 16 0 X Y.

(** ** A block: two rounds for each four subkeys *)
Fixpoint des_rounds (SK : list Z) (X Y : Z) : Z * Z :=
  match SK with
  | k0 :: k1 :: k2 :: k3 :: SK =>
      let X := DES_ROUND k0 k1 Y X in
      let Y := DES_ROUND k2 k3 X Y in
      des_rounds SK X Y
  | _ => (X, Y)
  end.
Definition des_crypt (SK input : list Z) : list Z :=
  let '(X, Y) := DES_IP (GET_UINT32 input 0) (GET_UINT32 input 4) in
  let '(X, Y) := des_rounds SK X Y in
  let '(Y, X) := DES_FP Y X in
  PUT_UINT32 Y ++ PUT_UINT32 X.

(** the subkeys that decipher: pairs in reverse order *)
Definition reverse_keys (ESK : list Z) : list Z :=
  seq 0 16 ≫= λ i, [at_idx ESK (30 - 2 * Z.of_nat i); at_idx ESK (31 - 2 * Z.of_nat i)].
