(* ===== verification/DesEquiv.v ===== *)
(** * DES as FIPS PUB 46-3 defines it

    The tables of the standard, bits numbered from 1 at the left, and the cipher
    built from them: the reference the program's DES is compared with. *)
From S2P Require Import Prelude Bits Bytes Des.
From Stdlib Require Import Btauto.
#[local] Open Scope Z_scope.
#[local] Open Scope bits_scope.

Definition IP_table : list Z :=
  [58; 50; 42; 34; 26; 18; 10; 2; 60; 52; 44; 36; 28; 20; 12; 4;
   62; 54; 46; 38; 30; 22; 14; 6; 64; 56; 48; 40; 32; 24; 16; 8;
   57; 49; 41; 33; 25; 17; 9; 1; 59; 51; 43; 35; 27; 19; 11; 3;
   61; 53; 45; 37; 29; 21; 13; 5; 63; 55; 47; 39; 31; 23; 15; 7].

Definition FP_table : list Z :=
  [40; 8; 48; 16; 56; 24; 64; 32; 39; 7; 47; 15; 55; 23; 63; 31;
   38; 6; 46; 14; 54; 22; 62; 30; 37; 5; 45; 13; 53; 21; 61; 29;
   36; 4; 44; 12; 52; 20; 60; 28; 35; 3; 43; 11; 51; 19; 59; 27;
   34; 2; 42; 10; 50; 18; 58; 26; 33; 1; 41; 9; 49; 17; 57; 25].

Definition E_table : list Z :=
  [32; 1; 2; 3; 4; 5; 4; 5; 6; 7; 8; 9;
   8; 9; 10; 11; 12; 13; 12; 13; 14; 15; 16; 17;
   16; 17; 18; 19; 20; 21; 20; 21; 22; 23; 24; 25;
   24; 25; 26; 27; 28; 29; 28; 29; 30; 31; 32; 1].

Definition P_table : list Z :=
  [16; 7; 20; 21; 29; 12; 28; 17; 1; 15; 23; 26; 5; 18; 31; 10;
   2; 8; 24; 14; 32; 27; 3; 9; 19; 13; 30; 6; 22; 11; 4; 25].

Definition PC1_table : list Z :=
  [57; 49; 41; 33; 25; 17; 9; 1; 58; 50; 42; 34; 26; 18;
   10; 2; 59; 51; 43; 35; 27; 19; 11; 3; 60; 52; 44; 36;
   63; 55; 47; 39; 31; 23; 15; 7; 62; 54; 46; 38; 30; 22;
   14; 6; 61; 53; 45; 37; 29; 21; 13; 5; 28; 20; 12; 4].

Definition PC2_table : list Z :=
  [14; 17; 11; 24; 1; 5; 3; 28; 15; 6; 21; 10;
   23; 19; 12; 4; 26; 8; 16; 7; 27; 20; 13; 2;
   41; 52; 31; 37; 47; 55; 30; 40; 51; 45; 33; 48;
   44; 49; 39; 56; 34; 53; 46; 42; 50; 36; 29; 32].

Definition S_boxes : list (list Z) :=
  [[14; 4; 13; 1; 2; 15; 11; 8; 3; 10; 6; 12; 5; 9; 0; 7;
    0; 15; 7; 4; 14; 2; 13; 1; 10; 6; 12; 11; 9; 5; 3; 8;
    4; 1; 14; 8; 13; 6; 2; 11; 15; 12; 9; 7; 3; 10; 5; 0;
    15; 12; 8; 2; 4; 9; 1; 7; 5; 11; 3; 14; 10; 0; 6; 13];
   [15; 1; 8; 14; 6; 11; 3; 4; 9; 7; 2; 13; 12; 0; 5; 10;
    3; 13; 4; 7; 15; 2; 8; 14; 12; 0; 1; 10; 6; 9; 11; 5;
    0; 14; 7; 11; 10; 4; 13; 1; 5; 8; 12; 6; 9; 3; 2; 15;
    13; 8; 10; 1; 3; 15; 4; 2; 11; 6; 7; 12; 0; 5; 14; 9];
   [10; 0; 9; 14; 6; 3; 15; 5; 1; 13; 12; 7; 11; 4; 2; 8;
    13; 7; 0; 9; 3; 4; 6; 10; 2; 8; 5; 14; 12; 11; 15; 1;
    13; 6; 4; 9; 8; 15; 3; 0; 11; 1; 2; 12; 5; 10; 14; 7;
    1; 10; 13; 0; 6; 9; 8; 7; 4; 15; 14; 3; 11; 5; 2; 12];
   [7; 13; 14; 3; 0; 6; 9; 10; 1; 2; 8; 5; 11; 12; 4; 15;
    13; 8; 11; 5; 6; 15; 0; 3; 4; 7; 2; 12; 1; 10; 14; 9;
    10; 6; 9; 0; 12; 11; 7; 13; 15; 1; 3; 14; 5; 2; 8; 4;
    3; 15; 0; 6; 10; 1; 13; 8; 9; 4; 5; 11; 12; 7; 2; 14];
   [2; 12; 4; 1; 7; 10; 11; 6; 8; 5; 3; 15; 13; 0; 14; 9;
    14; 11; 2; 12; 4; 7; 13; 1; 5; 0; 15; 10; 3; 9; 8; 6;
    4; 2; 1; 11; 10; 13; 7; 8; 15; 9; 12; 5; 6; 3; 0; 14;
    11; 8; 12; 7; 1; 14; 2; 13; 6; 15; 0; 9; 10; 4; 5; 3];
   [12; 1; 10; 15; 9; 2; 6; 8; 0; 13; 3; 4; 14; 7; 5; 11;
    10; 15; 4; 2; 7; 12; 9; 5; 6; 1; 13; 14; 0; 11; 3; 8;
    9; 14; 15; 5; 2; 8; 12; 3; 7; 0; 4; 10; 1; 13; 11; 6;
    4; 3; 2; 12; 9; 5; 15; 10; 11; 14; 1; 7; 6; 0; 8; 13];
   [4; 11; 2; 14; 15; 0; 8; 13; 3; 12; 9; 7; 5; 10; 6; 1;
    13; 0; 11; 7; 4; 9; 1; 10; 14; 3; 5; 12; 2; 15; 8; 6;
    1; 4; 11; 13; 12; 3; 7; 14; 10; 15; 6; 8; 0; 5; 9; 2;
    6; 11; 13; 8; 1; 4; 10; 7; 9; 5; 0; 15; 14; 2; 3; 12];
   [13; 2; 8; 4; 6; 15; 11; 1; 10; 9; 3; 14; 5; 0; 12; 7;
    1; 15; 13; 8; 10; 3; 7; 4; 12; 5; 6; 11; 0; 14; 9; 2;
    7; 11; 4; 1; 9; 12; 14; 2; 0; 6; 10; 13; 15; 3; 5; 8;
    2; 1; 14; 7; 4; 10; 8; 13; 15; 12; 9; 0; 3; 5; 6; 11]].

Definition shifts : list Z := [1; 1; 2; 2; 2; 2; 2; 2; 1; 2; 2; 2; 2; 2; 2; 1].

(** the bits of a [w]-bit block that a table selects, from the left *)
Definition permute (w : Z) (t : list Z) (x : Z) : Z :=
  fold_left (λ acc k, 2 * acc + Z.b2z (Z.testbit x (w - k))) t 0.

(** the [i]-th of the [n]-bit groups of which [k] follow *)
Definition group (n k x : Z) : Z := (x >> (n * k)) .& (2 ^ n - 1).

(** row: the outer bits, column: the inner ones *)
Definition sbox (i : nat) (b : Z) : Z :=
  at_idx (nth i S_boxes []) (16 * (2 * Z.b2z (Z.testbit b 5) + Z.b2z (Z.testbit b 0)) + ((b >> 1) .& 15)).
Definition substitute (x : Z) : Z :=
  fold_left (λ acc i, 16 * acc + sbox i (group 6 (7 - Z.of_nat i) x)) (seq 0 8) 0.

Definition cipher_function (R K : Z) : Z := permute 32 P_table (substitute (permute 32 E_table R .^ K)).

Definition rotl28 (n x : Z) : Z := (Z.shiftl x n .| (x >> (28 - n))) .& (2 ^ 28 - 1).
Fixpoint fips_schedule (l : list Z) (C D : Z) : list Z :=
  match l with
  | [] => []
  | n :: l =>
      let C := rotl28 n C in let D := rotl28 n D in
      permute 56 PC2_table (Z.shiftl C 28 .| D) :: fips_schedule l C D
  end.
Definition fips_keys (key : Z) : list Z :=
  let CD := permute 64 PC1_table key in fips_schedule shifts (group 28 1 CD) (group 28 0 CD).

Fixpoint fips_rounds (keys : list Z) (L R : Z) : Z * Z :=
  match keys with
  | [] => (L, R)
  | K :: keys => fips_rounds keys R (L .^ cipher_function R K)
  end.
(** the keys in order encipher a block, in reverse order they decipher it *)
Definition fips_des (keys : list Z) (block : Z) : Z :=
  let x := permute 64 IP_table block in
  let '(L, R) := fips_rounds keys (group 32 1 x) (group 32 0 x) in
  permute 64 FP_table (Z.shiftl R 32 .| L).

(** a block of bytes as a number *)
Definition be_number (l : list Z) : Z := fold_left (λ acc b, 256 * acc + b) l 0.

Example fips_vector : fips_des (fips_keys 0x133457799bbcdff1) 0x0123456789abcdef = 0x85e813540f0ab405.
Proof. vm_compute. reflexivity. Qed.
Example fips_inverse_vector :
  fips_des (rev (fips_keys 0x133457799bbcdff1)) 0x85e813540f0ab405 = 0x0123456789abcdef.
Proof. vm_compute. reflexivity. Qed.

(** ** The DES of the program is the DES of the standard

    The program keeps each half of a block rotated by one bit and its subkeys
    spread over bytes. Every bit permutation of both sides is linear, so that the
    two agree because they agree on single bits; the tables of the boxes are
    compared entry by entry; the rounds by induction. *)
(** ** The permutations of the standard are linear *)
Lemma double_xor a b p q : (2 * a + Z.b2z p) .^ (2 * b + Z.b2z q) = 2 * (a .^ b) + Z.b2z (xorb p q).
Proof.
  apply Z.bits_inj'. intros n Hn. rewrite Z.lxor_spec. destruct (decide (n = 0)) as [->|].
  - by rewrite !Z.testbit_0_r.
  - replace n with (Z.succ (Z.pred n)) by lia. rewrite !Z.testbit_succ_r by lia. by rewrite Z.lxor_spec.
Qed.

Lemma permute_xor w t x y : permute w t (x .^ y) = permute w t x .^ permute w t y.
Proof.
  unfold permute. rewrite <- (Z.lxor_nilpotent 0) at 1. generalize 0 at 1 3 as a. generalize 0 at 1 2 as b.
  induction t as [|k t IH]; intros b a; cbn [fold_left]; [done|].
  rewrite <- IH, double_xor. by rewrite Z.lxor_spec.
Qed.

Lemma permute_range w t x : 0 ≤ permute w t x < 2 ^ Zlen t.
Proof.
  unfold permute. assert (∀ a n, 0 ≤ n → 0 ≤ a < 2 ^ n →
    0 ≤ fold_left (λ acc k, 2 * acc + Z.b2z (Z.testbit x (w - k))) t a < 2 ^ (n + Zlen t)) as H.
  { induction t as [|k t IH]; intros a n Hn Ha; cbn [fold_left].
    - change (Zlen (@nil Z)) with 0. by rewrite Z.add_0_r.
    - rewrite Zlen_cons. replace (n + (1 + Zlen t)) with (n + 1 + Zlen t) by lia. apply IH; [lia|].
      rewrite Z.pow_add_r by lia. destruct (Z.testbit x (w - k)); cbn [Z.b2z]; lia. }
  specialize (H 0 0). rewrite Z.add_0_l in H. by apply H.
Qed.

Lemma mask_range x n : 0 ≤ n → 0 ≤ x < 2 ^ n → x .& (2 ^ n - 1) = x.
Proof. intros. rewrite land_mask by done. by apply Z.mod_small. Qed.

Lemma lin_permute m f w t : linear m f → linear (2 ^ Zlen t - 1) (λ x, permute w t (f x)).
Proof.
  intros Hf. split; intros.
  - apply mask_range; [apply Zlen_nonneg|apply permute_range].
  - by rewrite (l_xor _ _ Hf), permute_xor.
Qed.

(** a shift that stays within 64 bits, as the standard side has it *)
Lemma lin_shiftl m f k : 0 ≤ k → linear m f → linear (Z.shiftl m k) (λ x, Z.shiftl (f x) k).
Proof.
  intros Hk Hf. split; intros.
  - by rewrite <- Z.shiftl_land, (l_mask _ _ Hf).
  - by rewrite (l_xor _ _ Hf), Z.shiftl_lxor.
Qed.

Ltac linear_step ::=
  lazymatch goal with
  | |- linear _ (λ x, permute _ _ (@?f x)) => eapply (lin_permute _ f); linear_fun
  | |- linear _ (λ x, Z.shiftl (@?f x) _) => eapply (lin_shiftl _ f); [done|linear_fun]
  end.

Lemma linear_zero m : linear m (λ _, 0).
Proof. split; intros; [apply Z.land_0_l|done]. Qed.

(** a function of the low bits of its argument *)
Definition low (w x : Z) : Z := x .& (2 ^ w - 1).
Lemma low_range w x : 0 ≤ w → 0 ≤ low w x < 2 ^ w.
Proof. intros. unfold low. rewrite land_mask by done. apply mod_range. lia. Qed.
Lemma low_small w x : 0 ≤ w → 0 ≤ x < 2 ^ w → low w x = x.
Proof. apply mask_range. Qed.

Definition rol1 (x : Z) : Z := (x << 1 .| (x >> 31)) .& 0xffffffff.

(** ** The initial and the final permutation *)
Lemma des_ip_spec z : in64 z →
  DES_IP (group 32 1 z) (group 32 0 z) =
  (rol1 (group 32 1 (permute 64 IP_table z)), rol1 (group 32 0 (permute 64 IP_table z))).
Proof.
  intros Hz. rewrite (surjective_pairing (DES_IP _ _)). f_equal.
  - revert z Hz. apply (linear_ext (2 ^ 64 - 1) (2 ^ 64 - 1)); [unfold DES_IP, group; linear|unfold rol1, group; linear|].
    vm_compute. reflexivity.
  - revert z Hz. apply (linear_ext (2 ^ 64 - 1) (2 ^ 64 - 1)); [unfold DES_IP, group; linear|unfold rol1, group; linear|].
    vm_compute. reflexivity.
Qed.

Lemma des_fp_spec z : in64 z →
  DES_FP (rol1 (group 32 1 z)) (rol1 (group 32 0 z)) =
  (group 32 1 (permute 64 FP_table z), group 32 0 (permute 64 FP_table z)).
Proof.
  intros Hz. rewrite (surjective_pairing (DES_FP _ _)). f_equal.
  - revert z Hz. apply (linear_ext (2 ^ 64 - 1) (2 ^ 64 - 1)); [unfold DES_FP, rol1, group; linear|unfold group; linear|].
    vm_compute. reflexivity.
  - revert z Hz. apply (linear_ext (2 ^ 64 - 1) (2 ^ 64 - 1)); [unfold DES_FP, rol1, group; linear|unfold group; linear|].
    vm_compute. reflexivity.
Qed.

(** ** The key schedule *)

(** the groups of a subkey in the bytes of the two words of the program *)
Definition pack0 (K : Z) : Z := group 6 6 K << 24 .| group 6 4 K << 16 .| group 6 2 K << 8 .| group 6 0 K.
Definition pack1 (K : Z) : Z := group 6 7 K << 24 .| group 6 5 K << 16 .| group 6 3 K << 8 .| group 6 1 K.
Definition pack_keys (l : list Z) : list Z := l ≫= λ K, [pack0 K; pack1 K].

Lemma lin_rotate i m f : m .& 0x0fffffff = m → linear m f → linear 0x0fffffff (λ k, ks_rotate i (f k)).
Proof.
  intros Hm Hf. apply (lin_mask _ _ Hf) in Hm. clear Hf. unfold ks_rotate. case_bool_decide; linear.
Qed.

Lemma lin_ks_loop n : ∀ i f g j, linear 0x0fffffff f → linear 0x0fffffff g →
  linear (2 ^ 64 - 1) (λ k, nth j (ks_loop n i (f k) (g k)) 0).
Proof.
  induction n as [|n IH]; intros i f g j Hf Hg; cbn [ks_loop].
  { destruct j; apply linear_zero. }
  pose proof (lin_rotate i _ _ eq_refl Hf) as Hf'. pose proof (lin_rotate i _ _ eq_refl Hg) as Hg'.
  set (f' := λ k, ks_rotate i (f k)) in *. set (g' := λ k, ks_rotate i (g k)) in *.
  destruct j as [|[|j]]; cbn [nth].
  - change (linear (2 ^ 64 - 1) (λ k, subkey0 (f' k) (g' k))). unfold subkey0. linear.
  - change (linear (2 ^ 64 - 1) (λ k, subkey1 (f' k) (g' k))). unfold subkey1. linear.
  - exact (IH (i + 1) f' g' j Hf' Hg').
Qed.

Lemma lin_schedule l : Forall (λ n, n = 1 ∨ n = 2) l → ∀ f g j, linear (2 ^ 28 - 1) f → linear (2 ^ 28 - 1) g →
  linear (2 ^ 64 - 1) (λ k, nth j (pack_keys (fips_schedule l (f k) (g k))) 0).
Proof.
  induction 1 as [|n l Hn _ IH]; intros f g j Hf Hg; cbn [fips_schedule].
  { destruct j; apply linear_zero. }
  assert (∀ h, linear (2 ^ 28 - 1) h → linear (2 ^ 28 - 1) (λ k, rotl28 n (h k))) as Hr.
  { intros h Hh. unfold rotl28. destruct Hn as [-> | ->]; linear. }
  pose proof (Hr f Hf) as Hf'. pose proof (Hr g Hg) as Hg'.
  set (f' := λ k, rotl28 n (f k)) in *. set (g' := λ k, rotl28 n (g k)) in *.
  destruct j as [|[|j]]; cbn [nth pack_keys mbind list_bind app].
  - change (linear (2 ^ 64 - 1) (λ k, pack0 (permute 56 PC2_table (Z.shiftl (f' k) 28 .| g' k)))).
    unfold pack0, group. linear.
  - change (linear (2 ^ 64 - 1) (λ k, pack1 (permute 56 PC2_table (Z.shiftl (f' k) 28 .| g' k)))).
    unfold pack1, group. linear.
  - exact (IH f' g' j Hf' Hg').
Qed.

Definition program_keys (z : Z) : list Z :=
  ks_loop 16 0 (ks_select (group 32 1 z) (group 32 0 z)).1 (ks_select (group 32 1 z) (group 32 0 z)).2.

Lemma lin_program_keys j : linear (2 ^ 64 - 1) (λ z, nth j (program_keys z) 0).
Proof.
  apply (lin_ks_loop 16 0 (λ z, (ks_select (group 32 1 z) (group 32 0 z)).1)
                          (λ z, (ks_select (group 32 1 z) (group 32 0 z)).2)).
  - unfold ks_select, group. linear.
  - unfold ks_select, group. linear.
Qed.

Lemma lin_fips_keys j : linear (2 ^ 64 - 1) (λ z, nth j (pack_keys (fips_keys z)) 0).
Proof.
  apply (lin_schedule shifts) with (f := λ z, group 28 1 (permute 64 PC1_table z))
                                   (g := λ z, group 28 0 (permute 64 PC1_table z)).
  - apply Forall_forall. intros n Hn. unfold shifts in Hn. set_solver.
  - unfold group. linear.
  - unfold group. linear.
Qed.

Lemma ks_loop_length n i X Y : length (ks_loop n i X Y) = (2 * n)%nat.
Proof. revert i X Y. induction n as [|n IH]; intros; cbn [ks_loop length]; [done|]. rewrite IH. lia. Qed.
Lemma schedule_length l C D : length (pack_keys (fips_schedule l C D)) = (2 * length l)%nat.
Proof. revert C D. induction l as [|n l IH]; intros; [done|]. cbn [fips_schedule length] in *. cbn. rewrite IH. lia. Qed.

Lemma keys_of_bits i : 0 ≤ i < 64 → program_keys (2 ^ i) = pack_keys (fips_keys (2 ^ i)).
Proof.
  intros Hi. assert (forallb (λ i, bool_decide (program_keys (2 ^ Z.of_nat i) = pack_keys (fips_keys (2 ^ Z.of_nat i))))
    (seq 0 64) = true) as H by (vm_compute; reflexivity).
  rewrite forallb_forall in H. specialize (H (Z.to_nat i)). rewrite Z2Nat.id in H by lia.
  eapply bool_decide_eq_true, H, in_seq. lia.
Qed.

(** the subkeys of the program are those of the standard, spread over bytes *)
Lemma keys_spec z : in64 z → program_keys z = pack_keys (fips_keys z).
Proof.
  intros Hz. apply (nth_ext _ _ 0 0).
  - unfold program_keys, fips_keys. by rewrite ks_loop_length, schedule_length.
  - unfold program_keys at 1. rewrite ks_loop_length. intros j Hj.
    apply (linear_ext_low _ _ _ _ 64 (lin_program_keys j) (lin_fips_keys j)); [lia| |exact Hz].
    intros i Hi. by rewrite keys_of_bits.
Qed.

(** ** A round *)
Lemma rol1_range x : 0 ≤ rol1 x < 2 ^ 32.
Proof. apply (low_range 32). done. Qed.

(** the bits of the rotated half that a box gets are those of the expansion *)
Lemma expansion_group s k R : 0 ≤ R < 2 ^ 32 →
  agree (λ x, (rol1 (low 32 x) >> s) .& 0x3f) (λ x, group 6 k (permute 32 E_table (low 32 x))) = true →
  (rol1 R >> s) .& 0x3f = group 6 k (permute 32 E_table R).
Proof.
  intros HR Ha. rewrite <- (low_small 32 R) by done. assert (in64 R) as Hz by (unfold in64; lia). revert R HR Hz.
  assert (∀ R, in64 R → (rol1 (low 32 R) >> s) .& 0x3f = group 6 k (permute 32 E_table (low 32 R))) as H; [|auto].
  eapply linear_ext; [unfold rol1, low; linear_fun|unfold group, low; linear_fun|exact Ha].
Qed.

Lemma expansion_rotated s k R : 0 ≤ R < 2 ^ 32 →
  agree (λ x, (((rol1 (low 32 x) << 28) .| (rol1 (low 32 x) >> 4)) >> s) .& 0x3f)
        (λ x, group 6 k (permute 32 E_table (low 32 x))) = true →
  (((rol1 R << 28) .| (rol1 R >> 4)) >> s) .& 0x3f = group 6 k (permute 32 E_table R).
Proof.
  intros HR Ha. rewrite <- (low_small 32 R) by done. assert (in64 R) as Hz by (unfold in64; lia). revert R HR Hz.
  assert (∀ R, in64 R → (((rol1 (low 32 R) << 28) .| (rol1 (low 32 R) >> 4)) >> s) .& 0x3f =
    group 6 k (permute 32 E_table (low 32 R))) as H; [|auto].
  eapply linear_ext; [unfold rol1, low; linear_fun|unfold group, low; linear_fun|exact Ha].
Qed.

Lemma pack_group s k K : in64 K →
  agree (λ x, (pack0 x >> s) .& 0x3f) (λ x, group 6 k x) = true → (pack0 K >> s) .& 0x3f = group 6 k K.
Proof.
  intros HK Ha. revert K HK.
  eapply linear_ext; [unfold pack0, group; linear_fun|unfold group; linear_fun|exact Ha].
Qed.
Lemma pack_group1 s k K : in64 K →
  agree (λ x, (pack1 x >> s) .& 0x3f) (λ x, group 6 k x) = true → (pack1 K >> s) .& 0x3f = group 6 k K.
Proof.
  intros HK Ha. revert K HK.
  eapply linear_ext; [unfold pack1, group; linear_fun|unfold group; linear_fun|exact Ha].
Qed.

Lemma group_xor n k x y : group n k (x .^ y) = group n k x .^ group n k y.
Proof.
  unfold group. rewrite Z.shiftr_lxor. apply Z.bits_inj'. intros i _. rewrite !Z.land_spec, !Z.lxor_spec, !Z.land_spec.
  by destruct (Z.testbit (x >> (n * k)) i), (Z.testbit (y >> (n * k)) i), (Z.testbit (2 ^ n - 1) i).
Qed.
Lemma land_shr_xor s x y c : ((x .^ y) >> s) .& c = ((x >> s) .& c) .^ ((y >> s) .& c).
Proof.
  rewrite Z.shiftr_lxor. apply Z.bits_inj'. intros i _. rewrite !Z.land_spec, !Z.lxor_spec, !Z.land_spec.
  by destruct (Z.testbit (x >> s) i), (Z.testbit (y >> s) i), (Z.testbit c i).
Qed.

(** the box that a table of the program stands for: the permutation and the
    rotation are worked into its entries *)
Definition box (i : nat) (b : Z) : Z := rol1 (permute 32 P_table (Z.shiftl (sbox i b) (4 * (7 - Z.of_nat i)))).
Definition boxes_agree (t : list Z) (i : nat) : bool :=
  forallb (λ b, at_idx t b =? box i b) (Z.of_nat <$> seq 0 64).
Lemma box_spec t i b : boxes_agree t i = true → 0 ≤ b < 64 → at_idx t b = box i b.
Proof.
  intros H Hb. unfold boxes_agree in H. rewrite forallb_forall in H. apply Z.eqb_eq, H.
  apply in_map_iff. exists (Z.to_nat b). split; [lia|]. apply in_seq. lia.
Qed.

Lemma group_range n k x : 0 ≤ n → 0 ≤ group n k x < 2 ^ n.
Proof. intros. unfold group. rewrite land_mask by done. apply mod_range. lia. Qed.

Lemma sbox_range i b : (i < 8)%nat → 0 ≤ b < 64 → 0 ≤ sbox i b < 16.
Proof.
  intros Hi Hb.
  assert (forallb (λ i, forallb (λ b, (0 <=? sbox i (Z.of_nat b)) && (sbox i (Z.of_nat b) <? 16)) (seq 0 64)) (seq 0 8)
    = true) as H by (vm_compute; reflexivity).
  rewrite forallb_forall in H. specialize (H i ltac:(apply in_seq; lia)). rewrite forallb_forall in H.
  specialize (H (Z.to_nat b) ltac:(apply in_seq; lia)). rewrite Z2Nat.id in H by lia.
  apply andb_prop in H as [H1%Z.leb_le H2%Z.ltb_lt]. done.
Qed.

Lemma rol1_xor x y : 0 ≤ x < 2 ^ 32 → 0 ≤ y < 2 ^ 32 → rol1 (x .^ y) = rol1 x .^ rol1 y.
Proof.
  intros Hx Hy. assert (linear (2 ^ 32 - 1) (λ x, rol1 (low 32 x))) as [_ H] by (unfold rol1, low; linear).
  specialize (H x y ltac:(unfold in64; lia) ltac:(unfold in64; lia)).
  assert (low 32 (x .^ y) = x .^ y) as E.
  { unfold low. rewrite <- (low_small 32 x), <- (low_small 32 y) at 2 by done. unfold low.
    apply Z.bits_inj'. intros i _. rewrite !Z.land_spec, !Z.lxor_spec, !Z.land_spec.
    by destruct (Z.testbit x i), (Z.testbit y i), (Z.testbit (2 ^ 32 - 1) i). }
  by rewrite E, !low_small in H.
Qed.
Lemma box_bits_xor x y : rol1 (permute 32 P_table (x .^ y)) = rol1 (permute 32 P_table x) .^ rol1 (permute 32 P_table y).
Proof. rewrite permute_xor. apply rol1_xor; exact (permute_range 32 P_table _). Qed.

Lemma nibble_xor a n : 0 ≤ n < 16 → 16 * a + n = Z.shiftl a 4 .^ n.
Proof.
  intros Hn. rewrite Z.lxor_comm, <- Z.add_nocarry_lxor.
  - rewrite Z.shiftl_mul_pow2 by done. lia.
  - by apply land_shiftl_low.
Qed.
Lemma substitute_nibbles a0 a1 a2 a3 a4 a5 a6 a7 : Forall (λ a, 0 ≤ a < 16) [a0; a1; a2; a3; a4; a5; a6; a7] →
  fold_left (λ acc a, 16 * acc + a) [a0; a1; a2; a3; a4; a5; a6; a7] 0 =
  Z.shiftl a0 28 .^ Z.shiftl a1 24 .^ Z.shiftl a2 20 .^ Z.shiftl a3 16 .^ Z.shiftl a4 12 .^ Z.shiftl a5 8 .^ Z.shiftl a6 4 .^ a7.
Proof.
  intros H. do 8 (apply Forall_cons in H as [? H]). cbn [fold_left].
  rewrite !nibble_xor by done. rewrite !Z.shiftl_lxor, !Z.shiftl_shiftl, Z.shiftl_0_l, Z.lxor_0_l by done. done.
Qed.

Lemma cipher_boxes x : rol1 (permute 32 P_table (substitute x)) =
  box 0 (group 6 7 x) .^ box 1 (group 6 6 x) .^ box 2 (group 6 5 x) .^ box 3 (group 6 4 x) .^
  box 4 (group 6 3 x) .^ box 5 (group 6 2 x) .^ box 6 (group 6 1 x) .^ box 7 (group 6 0 x).
Proof.
  assert (∀ i k, (i < 8)%nat → 0 ≤ sbox i (group 6 k x) < 16) as Hr.
  { intros i k Hi. apply sbox_range; [done|]. by apply (group_range 6). }
  change (substitute x) with (fold_left (λ acc a, 16 * acc + a)
    [sbox 0 (group 6 7 x); sbox 1 (group 6 6 x); sbox 2 (group 6 5 x); sbox 3 (group 6 4 x);
     sbox 4 (group 6 3 x); sbox 5 (group 6 2 x); sbox 6 (group 6 1 x); sbox 7 (group 6 0 x)] 0).
  rewrite substitute_nibbles by (repeat constructor; apply Hr; lia).
  unfold box. rewrite !box_bits_xor. reflexivity.
Qed.

(** a round of the program on the rotated half is a round of the standard *)
Lemma round_spec K R Y : in64 K → 0 ≤ R < 2 ^ 32 →
  DES_ROUND (pack0 K) (pack1 K) (rol1 R) Y = Y .^ rol1 (cipher_function R K).
Proof.
  intros HK HR. unfold DES_ROUND, cipher_function. cbv zeta. set (x := permute 32 E_table R .^ K).
  assert (∀ s k, agree (λ x, (pack0 x >> s) .& 0x3f) (λ x, group 6 k x) = true →
    agree (λ x, (rol1 (low 32 x) >> s) .& 0x3f) (λ x, group 6 k (permute 32 E_table (low 32 x))) = true →
    ((pack0 K .^ rol1 R) >> s) .& 0x3f = group 6 k x) as H0.
  { intros s k H1 H2. unfold x. rewrite land_shr_xor, group_xor, (pack_group s k), (expansion_group s k) by done.
    apply Z.lxor_comm. }
  assert (∀ s k, agree (λ x, (pack1 x >> s) .& 0x3f) (λ x, group 6 k x) = true →
    agree (λ x, (((rol1 (low 32 x) << 28) .| (rol1 (low 32 x) >> 4)) >> s) .& 0x3f)
          (λ x, group 6 k (permute 32 E_table (low 32 x))) = true →
    ((pack1 K .^ ((rol1 R << 28) .| (rol1 R >> 4))) >> s) .& 0x3f = group 6 k x) as H1.
  { intros s k H1 H2. unfold x. rewrite land_shr_xor, group_xor, (pack_group1 s k), (expansion_rotated s k) by done.
    apply Z.lxor_comm. }
  pose proof (H0 0 0 ltac:(vm_compute; reflexivity) ltac:(vm_compute; reflexivity)) as E8.
  pose proof (H1 0 1 ltac:(vm_compute; reflexivity) ltac:(vm_compute; reflexivity)) as E7.
  rewrite Z.shiftr_0_r in E8, E7. rewrite E8, E7.
  rewrite (H0 8 2), (H0 16 4), (H0 24 6), (H1 8 3), (H1 16 5), (H1 24 7) by (vm_compute; reflexivity).
  clear H0 H1 E7 E8. pose proof (λ k, group_range 6 k x ltac:(done)) as Hg. change (2 ^ 6) with 64 in Hg.
  rewrite (box_spec SB8 7), (box_spec SB6 5), (box_spec SB4 3), (box_spec SB2 1), (box_spec SB7 6), (box_spec SB5 4),
    (box_spec SB3 2), (box_spec SB1 0) by (apply Hg || (vm_compute; reflexivity)).
  unfold x. rewrite cipher_boxes. fold x.
  generalize (box 0 (group 6 7 x)) (box 1 (group 6 6 x)) (box 2 (group 6 5 x)) (box 3 (group 6 4 x))
    (box 4 (group 6 3 x)) (box 5 (group 6 2 x)) (box 6 (group 6 1 x)) (box 7 (group 6 0 x)).
  clear. intros. apply Z.bits_inj'. intros n _. rewrite !Z.lxor_spec. btauto.
Qed.

(** ** Rounds *)
Lemma lxor_range n x y : 0 ≤ n → 0 ≤ x < 2 ^ n → 0 ≤ y < 2 ^ n → 0 ≤ x .^ y < 2 ^ n.
Proof.
  intros Hn Hx Hy. assert (x .^ y = low n (x .^ y)) as ->; [|by apply low_range].
  rewrite <- (low_small n x), <- (low_small n y) by done. unfold low.
  apply Z.bits_inj'. intros i _. rewrite !Z.land_spec, !Z.lxor_spec, !Z.land_spec.
  by destruct (Z.testbit x i), (Z.testbit y i), (Z.testbit (2 ^ n - 1) i).
Qed.
Lemma cipher_range R K : 0 ≤ cipher_function R K < 2 ^ 32.
Proof. exact (permute_range 32 P_table _). Qed.

Lemma rounds_spec n : ∀ keys, length keys = (2 * n)%nat → Forall in64 keys →
  ∀ L R, 0 ≤ L < 2 ^ 32 → 0 ≤ R < 2 ^ 32 →
  let '(L', R') := fips_rounds keys L R in
  des_rounds (pack_keys keys) (rol1 L) (rol1 R) = (rol1 L', rol1 R') ∧ 0 ≤ L' < 2 ^ 32 ∧ 0 ≤ R' < 2 ^ 32.
Proof.
  induction n as [|n IH]; intros keys Hl Hk L R HL HR.
  { by destruct keys. }
  destruct keys as [|K1 [|K2 keys]]; [done|cbn in Hl; lia|].
  apply Forall_cons in Hk as [HK1 Hk]. apply Forall_cons in Hk as [HK2 Hk].
  cbn [pack_keys mbind list_bind app des_rounds fips_rounds]. fold (pack_keys keys).
  rewrite (round_spec K1 R) by done. rewrite <- rol1_xor by (done || apply cipher_range).
  set (R1 := L .^ cipher_function R K1). assert (0 ≤ R1 < 2 ^ 32) as H1 by (apply lxor_range; [done|done|apply cipher_range]).
  rewrite (round_spec K2 R1) by done. rewrite <- rol1_xor by (done || apply cipher_range).
  apply IH; [cbn in Hl; lia|done|done|]. apply lxor_range; [done|done|apply cipher_range].
Qed.

(** ** Blocks as numbers *)
Lemma group_high z : 0 ≤ z < 2 ^ 64 → group 32 1 z = z / 2 ^ 32.
Proof.
  intros Hz. unfold group. rewrite land_mask, Z.shiftr_div_pow2 by done. change (2 ^ (32 * 1)) with (2 ^ 32).
  apply Z.mod_small. split; [apply Z.div_pos; lia|]. apply Z.div_lt_upper_bound; lia.
Qed.
Lemma group_low z : group 32 0 z = z mod 2 ^ 32.
Proof. unfold group. rewrite land_mask by done. by rewrite Z.shiftr_0_r. Qed.
Lemma groups_join H L : 0 ≤ H < 2 ^ 32 → 0 ≤ L < 2 ^ 32 →
  in64 (Z.shiftl H 32 .| L) ∧ group 32 1 (Z.shiftl H 32 .| L) = H ∧ group 32 0 (Z.shiftl H 32 .| L) = L.
Proof.
  intros HH HL. rewrite (lor_shift H L 32) by done. assert (in64 (H * 2 ^ 32 + L)) as Hz by (unfold in64; lia).
  split; [done|]. split.
  - rewrite group_high by done. rewrite Z.div_add_l, Z.div_small by lia. lia.
  - rewrite group_low, Z.add_comm, Z.mod_add by lia. by apply Z.mod_small.
Qed.
Lemma groups_of z : in64 z → z = group 32 1 z * 2 ^ 32 + group 32 0 z.
Proof. intros Hz. rewrite group_high, group_low by done. pose proof (Z.div_mod z (2 ^ 32)). lia. Qed.

Lemma be_word a b c d : byte a → byte b → byte c → byte d →
  (a << 24) .| (b << 16) .| (c << 8) .| d = be_number [a; b; c; d].
Proof.
  intros Ha Hb Hc Hd. rewrite !shl32_byte by (done || lia). rewrite be_value by done.
  cbn [be_number fold_left]. unfold be_number. cbn [fold_left]. lia.
Qed.
Lemma block_words l : Zlen l = 8 → Forall byte l →
  in64 (be_number l) ∧ GET_UINT32 l 0 = group 32 1 (be_number l) ∧ GET_UINT32 l 4 = group 32 0 (be_number l).
Proof.
  intros Hl Hb. destruct l as [|a [|b [|c [|d [|e [|f [|g [|h [|? ?]]]]]]]]]; try (unfold Zlen in Hl; cbn [length] in Hl; lia).
  do 8 (apply Forall_cons in Hb as [? Hb]).
  unfold GET_UINT32. cbn [at_idx nth Z.to_nat Z.add Pos.to_nat].
  change (at_idx [a; b; c; d; e; f; g; h] 0) with a. change (at_idx [a; b; c; d; e; f; g; h] 4) with e.
  change (at_idx [a; b; c; d; e; f; g; h] (0 + 1)) with b. change (at_idx [a; b; c; d; e; f; g; h] (0 + 2)) with c.
  change (at_idx [a; b; c; d; e; f; g; h] (0 + 3)) with d. change (at_idx [a; b; c; d; e; f; g; h] (4 + 1)) with f.
  change (at_idx [a; b; c; d; e; f; g; h] (4 + 2)) with g. change (at_idx [a; b; c; d; e; f; g; h] (4 + 3)) with h.
  rewrite !be_word by done.
  assert (∀ a b c d, byte a → byte b → byte c → byte d → 0 ≤ be_number [a; b; c; d] < 2 ^ 32) as Hr.
  { clear. unfold byte, be_number. cbn [fold_left]. lia. }
  assert (be_number [a; b; c; d; e; f; g; h] = Z.shiftl (be_number [a; b; c; d]) 32 .| be_number [e; f; g; h]) as ->.
  { rewrite lor_shift by (done || by apply Hr). unfold be_number. cbn [fold_left]. lia. }
  destruct (groups_join (be_number [a; b; c; d]) (be_number [e; f; g; h])) as (? & -> & ->); [by apply Hr..|done].
Qed.
Lemma put_number Y X : 0 ≤ Y < 2 ^ 32 → 0 ≤ X < 2 ^ 32 → be_number (PUT_UINT32 Y ++ PUT_UINT32 X) = Y * 2 ^ 32 + X.
Proof.
  intros HY HX. unfold PUT_UINT32, be_number, u8. cbn [app fold_left]. rewrite !Z.shiftr_div_pow2 by done.
  change (2 ^ 24) with 16777216. change (2 ^ 16) with 65536. change (2 ^ 8) with 256. Z.to_euclidean_division_equations. lia.
Qed.

(** ** The theorem *)
Lemma schedule_facts l C D : length (fips_schedule l C D) = length l ∧ Forall in64 (fips_schedule l C D).
Proof.
  revert C D. induction l as [|n l IH]; intros C D; [done|]. cbn [fips_schedule length].
  destruct (IH (rotl28 n C) (rotl28 n D)) as [-> H]. split; [done|]. constructor; [|done].
  pose proof (permute_range 56 PC2_table (Z.shiftl (rotl28 n C) 28 .| rotl28 n D)) as Hr.
  change (Zlen PC2_table) with 48 in Hr. unfold in64. lia.
Qed.

Lemma fips_keys_facts z : length (fips_keys z) = 16%nat ∧ Forall in64 (fips_keys z).
Proof.
  unfold fips_keys. cbv zeta. generalize (group 28 1 (permute 64 PC1_table z)) (group 28 0 (permute 64 PC1_table z)).
  intros C D. change 16%nat with (length shifts). apply schedule_facts.
Qed.

Lemma main_ks_spec key : Zlen key = 8 → Forall byte key → des_main_ks key = pack_keys (fips_keys (be_number key)).
Proof.
  intros Hl Hb. destruct (block_words key Hl Hb) as (Hz & E0 & E4). rewrite <- keys_spec by done.
  unfold des_main_ks, program_keys. rewrite E0, E4. by destruct (ks_select _ _).
Qed.

Lemma reverse_pack keys : length keys = 16%nat → reverse_keys (pack_keys keys) = pack_keys (rev keys).
Proof.
  intros Hl. do 16 (destruct keys as [|? keys]; [done|]). destruct keys; [|done]. reflexivity.
Qed.

Lemma crypt_spec keys input : length keys = 16%nat → Forall in64 keys → Zlen input = 8 → Forall byte input →
  be_number (des_crypt (pack_keys keys) input) = fips_des keys (be_number input).
Proof.
  intros Hl Hk Hi Hb. destruct (block_words input Hi Hb) as (Hz & E0 & E4). unfold des_crypt, fips_des.
  rewrite E0, E4, des_ip_spec by done. set (x := permute 64 IP_table (be_number input)).
  pose proof (rounds_spec 8 keys Hl Hk (group 32 1 x) (group 32 0 x) (group_range 32 1 x ltac:(done))
                (group_range 32 0 x ltac:(done))) as Hr.
  destruct (fips_rounds keys (group 32 1 x) (group 32 0 x)) as [L R]. destruct Hr as (-> & HL & HR).
  destruct (groups_join R L HR HL) as (Hj & EH & EL). generalize dependent (Z.shiftl R 32 .| L). intros z Hj EH EL.
  rewrite <- EH, <- EL, des_fp_spec by done. rewrite put_number by (by apply group_range).
  symmetry. apply groups_of. apply (permute_range 64 FP_table).
Qed.

(** C21. The DES of the library is the DES of FIPS PUB 46-3: for every key and block
    of eight bytes, enciphering with the subkeys of [des_main_ks] gives the block
    the standard defines, and with the subkeys in the order [ldesdecode] makes it
    deciphers as the standard does. *)
Theorem des_is_fips key input : Zlen key = 8 → Forall byte key → Zlen input = 8 → Forall byte input →
  be_number (des_crypt (des_main_ks key) input) = fips_des (fips_keys (be_number key)) (be_number input) ∧
  be_number (des_crypt (reverse_keys (des_main_ks key)) input) =
    fips_des (rev (fips_keys (be_number key))) (be_number input).
Proof.
  intros Hk Hbk Hi Hbi. rewrite main_ks_spec by done.
  destruct (fips_keys_facts (be_number key)) as [Hl Hf]. rewrite reverse_pack by done. split.
  - by apply crypt_spec.
  - apply crypt_spec; [by rewrite length_rev|by apply Forall_rev|done|done].
Qed.
