(* ===== verification/Crypt.v ===== *)
(** * The crypt library of Lua services: lualib-src/lua-crypt.c

    The functions Lua calls, over strings of bytes. An index is an [int]: a loop
    that lets it overflow is undefined; the bytes a function collects in its
    buffer are a list, with the size of the buffer where the code does not
    compute it from the same number. *)
From S2P Require Import Prelude CLib CNum Bytes LuaValue Bits Des.
From Stdlib Require Import Ascii String.
#[local] Open Scope Z_scope.
#[local] Open Scope bits_scope.

(** [for (i = i0; i < limit; i += step)] *)
Section count_loop.
Context {A : Type} (step limit : Z) (body : Z → A → lua A).

Fixpoint count_loop (fuel : nat) (i : Z) (s : A) : lua (Z * A) :=
  if bool_decide (i < limit) then
    match fuel with
    | O => LNoFuel
    | S fuel => s ← body i s; i ← lift (chk_int (i + step)); count_loop fuel i s
    end
  else LRet (i, s).
End count_loop.

(** [lua_pushlstring] of the first [n] bytes, which must have been written *)
Definition push_bytes (buffer : list Z) (n : Z) : lua (list Z) :=
  if bool_decide (0 ≤ n ≤ Zlen buffer) then LRet (take (Z.to_nat n) buffer) else LUndef.

Definition PADDING_MODE_ISO7816_4 : Z := 0.
Definition PADDING_MODE_PKCS7 : Z := 1.
Definition PADDING_MODE_COUNT : Z := 2.
Definition SMALL_CHUNK : Z := 256.

(** ** DES with padding *)

(** the eight bytes at [i] *)
Definition block_at (text : list Z) (i : Z) : outcome (list Z) :=
  if bool_decide (0 ≤ i ∧ i + 8 ≤ Zlen text) then Ret (take 8 (drop (Z.to_nat i) text)) else Undef.

Definition padding_add_iso7816_4 (buf : list Z) (offset : Z) : list Z :=
  take (Z.to_nat offset) buf ++ 0x80 :: replicate (Z.to_nat (7 - offset)) 0.
Definition padding_add_pkcs7 (buf : list Z) (offset : Z) : list Z :=
  take (Z.to_nat offset) buf ++ replicate (Z.to_nat (8 - offset)) (u8 (8 - offset)).

(** from the index of the last byte backwards *)
Fixpoint remove_iso7816_4 (n : nat) (buffer : list Z) (last padding : Z) : outcome Z :=
  match n with
  | O => Ret 0
  | S n =>
      b ← get_idx buffer last;
      if bool_decide (b = 0) then remove_iso7816_4 n buffer (last - 1) (padding + 1)
      else if bool_decide (b = 0x80) then Ret padding
      else Ret 0
  end.
Definition padding_remove_iso7816_4 (buffer : list Z) (last : Z) : outcome Z := remove_iso7816_4 8 buffer last 1.

Fixpoint remove_pkcs7 (n : nat) (buffer : list Z) (last padding : Z) : outcome Z :=
  match n with
  | O => Ret padding
  | S n =>
      b ← get_idx buffer (last - 1);
      if bool_decide (b ≠ padding) then Ret 0 else remove_pkcs7 n buffer (last - 1) padding
  end.
Definition padding_remove_pkcs7 (buffer : list Z) (last : Z) : outcome Z :=
  padding ← get_idx buffer last; remove_pkcs7 (Z.to_nat (padding - 1)) buffer last padding.

Definition check_padding_mode (mode : Z) : lua unit :=
  if bool_decide (mode < 0 ∨ PADDING_MODE_COUNT ≤ mode) then LError (Message ("Invalid padding mode " +:+ fmt_d mode))
  else LRet tt.

(** the tail of the text with its padding *)
Definition add_padding (src : list Z) (offset mode : Z) : lua (list Z) :=
  check_padding_mode mode;;
  if bool_decide (8 ≤ offset) then LError (Message "Invalid padding")
  else if bool_decide (offset < 0) then LUndef
  else LRet ((if bool_decide (mode = PADDING_MODE_ISO7816_4) then padding_add_iso7816_4 else padding_add_pkcs7) src offset).
Definition remove_padding (buffer : list Z) (last mode : Z) : lua Z :=
  check_padding_mode mode;;
  lift ((if bool_decide (mode = PADDING_MODE_ISO7816_4) then padding_remove_iso7816_4 else padding_remove_pkcs7) buffer last).

Definition des_key (key : list Z) : lua (list Z) :=
  if bool_decide (Zlen key ≠ 8) then
    LError (Message ("Invalid key size " +:+ fmt_d (i32 (Zlen key)) +:+ ", need 8 bytes"))
  else LRet (des_main_ks key).

(** one block of the loop *)
Definition crypt_block (SK text : list Z) (i : Z) (buffer : list Z) : lua (list Z) :=
  b ← lift (block_at text i); LRet (buffer ++ des_crypt SK b).

Definition ldesencode (key text : list Z) (padding_mode : Z) : lua (list Z) :=
  SK ← des_key key;
  let textsz := Zlen text in
  limit ← lift (chk_int (i32 textsz - 7));
  '(i, buffer) ← count_loop 8 limit (crypt_block SK text) (List.length text) 0 [];
  tail ← add_padding (drop (Z.to_nat i) text) (i32 (textsz - i)) padding_mode;
  push_bytes (buffer ++ des_crypt SK tail) (Z.land (textsz + 8) (Z.lnot 7)).

Definition ldesdecode (key text : list Z) (padding_mode : Z) : lua (list Z) :=
  ESK ← des_key key;
  let SK := reverse_keys ESK in
  let textsz := Zlen text in
  if bool_decide (Z.land textsz 7 ≠ 0 ∨ textsz = 0) then
    LError (Message ("Invalid des crypt text length " +:+ fmt_d (i32 textsz)))
  else
    '(_, buffer) ← count_loop 8 textsz (crypt_block SK text) (List.length text) 0 [];
    padding ← remove_padding buffer (textsz - 1) padding_mode;
    if bool_decide (padding ≤ 0 ∨ 8 < padding) then LError (Message "Invalid des crypt text")
    else push_bytes buffer (textsz - padding).

(** ** Hashing a key *)
Fixpoint hash_loop (str : list Z) (djb_hash js_hash : Z) : Z * Z :=
  match str with
  | [] => (djb_hash, js_hash)
  | c :: str =>
      hash_loop str (u32 (djb_hash + u32 ((djb_hash << 5) + c)))
                (js_hash .^ u32 ((js_hash << 5) + c + (js_hash >> 2)))
  end.
Definition word_bytes (n : Z) : list Z := [n .& 0xff; (n >> 8) .& 0xff; (n >> 16) .& 0xff; (n >> 24) .& 0xff].
Definition Hash (str : list Z) : list Z :=
  let '(djb_hash, js_hash) := hash_loop str 5381 1315423911 in word_bytes djb_hash ++ word_bytes js_hash.
Definition lhashkey (key : list Z) : list Z := Hash key.

(** [random_values] are the results of [random] *)
Definition lrandomkey (random_values : list Z) : list Z :=
  let tmp := (λ r, r .& 0xff) <$> random_values in
  if bool_decide (fold_left Z.lxor tmp 0 = 0) then
    match tmp with c :: tmp => (c .| 1) :: tmp | [] => [] end
  else tmp.

(** ** Hexadecimal text *)
Definition hex : list Z := [48; 49; 50; 51; 52; 53; 54; 55; 56; 57; 97; 98; 99; 100; 101; 102].
Definition hex_pair (text : list Z) (i : Z) (buffer : list Z) : lua (list Z) :=
  c ← lift (get_idx text i); LRet (buffer ++ [at_idx hex (c >> 4); at_idx hex (c .& 0xf)]).
Definition ltohex (text : list Z) : lua (list Z) :=
  let sz := Zlen text in
  '(_, buffer) ← count_loop 1 sz (hex_pair text) (List.length text) 0 [];
  push_bytes buffer (sz * 2).

(** the value is stored in a [uint8_t] *)
Definition HEX (c : Z) : Z := u8 (if bool_decide (48 ≤ c ≤ 57) then c - 48 else c - 97 + 10).
(** [char] is signed *)
Definition char_of (c : Z) : Z := if bool_decide (c < 128) then c else c - 256.
Definition unhex_pair (text : list Z) (i : Z) (buffer : list Z) : lua (list Z) :=
  hi ← lift (get_idx text i); low ← lift (get_idx text (i + 1));
  let hi := HEX (char_of hi) in let low := HEX (char_of low) in
  if bool_decide (16 < hi ∨ 16 < low) then LError (Message "Invalid hex text")
  else LRet (buffer ++ [u8 (Z.shiftl hi 4 .| low)]).
Definition lfromhex (text : list Z) : lua (list Z) :=
  let sz := Zlen text in
  if bool_decide (Z.land sz 1 ≠ 0) then LError (Message ("Invalid hex text size " +:+ fmt_d (i32 sz)))
  else
    '(i, buffer) ← count_loop 2 sz (unhex_pair text) (List.length text) 0 [];
    push_bytes buffer (i / 2).

(** ** Diffie-Hellman over 64 bits *)
Definition P : Z := 0xffffffffffffffc5.
Definition G : Z := 5.

(** one round of the loop over the bits of [b] *)
Definition mul_step (a b m : Z) : Z * Z :=
  let m := if bool_decide (b .& 1 ≠ 0) then
             let t := u64 (P - a) in if bool_decide (t ≤ m) then u64 (m - t) else u64 (m + a)
           else m in
  let a := if bool_decide (u64 (P - a) ≤ a) then u64 (u64 (a * 2) - P) else u64 (a * 2) in
  (a, m).
Fixpoint mul_loop (fuel : nat) (a b m : Z) : outcome Z :=
  if bool_decide (b = 0) then Ret m
  else
    match fuel with
    | O => NoFuel
    | S fuel => let '(a, m) := mul_step a b m in mul_loop fuel a (b >> 1) m
    end.
Definition mul_mod_p (a b : Z) : outcome Z := mul_loop 64 a b 0.

(** the recursion does not end for [b] = 0 *)
Fixpoint pow_loop (fuel : nat) (a b : Z) : outcome Z :=
  if bool_decide (b = 1) then Ret a
  else
    match fuel with
    | O => NoFuel
    | S fuel =>
        t ← pow_loop fuel a (b >> 1);
        t ← mul_mod_p t t;
        if bool_decide (b mod 2 ≠ 0) then mul_mod_p t a else Ret t
    end.
Definition pow_mod_p (a b : Z) : outcome Z := pow_loop 64 a b.
Definition powmodp (a b : Z) : outcome Z := pow_mod_p (if bool_decide (P < a) then a mod P else a) b.

(** the bytes of a string in two 32-bit words, which are joined *)
Definition read_word (x : list Z) (i : Z) : Z :=
  at_idx x i .| (at_idx x (i + 1) << 8) .| (at_idx x (i + 2) << 16) .| (at_idx x (i + 3) << 24).
Definition read_words (x : list Z) : Z * Z := (read_word x 0, read_word x 4).
Definition read64 (x y : list Z) : lua ((Z * Z) * (Z * Z)) :=
  if bool_decide (Zlen x ≠ 8) then LError (Message "Invalid uint64 x")
  else if bool_decide (Zlen y ≠ 8) then LError (Message "Invalid uint64 y")
  else LRet (read_words x, read_words y).
Definition join64 (x : Z * Z) : Z := x.1 .| u64 (Z.shiftl x.2 32).
Definition push64 (r : Z) : list Z :=
  (λ i, (r >> (8 * Z.of_nat i)) .& 0xff) <$> seq 0 8.
Definition pushqword (result : Z * Z) : list Z := word_bytes result.1 ++ word_bytes result.2.

Definition ldhsecret (x y : list Z) : lua (list Z) :=
  '(x, y) ← read64 x y;
  if bool_decide (join64 x = 0 ∨ join64 y = 0) then LError (Message "Can't be 0")
  else r ← lift (powmodp (join64 x) (join64 y)); LRet (push64 r).
Definition ldhexchange (x : list Z) : lua (list Z) :=
  if bool_decide (Zlen x ≠ 8) then LError (Message "Invalid dh uint64 key")
  else
    let x64 := join64 (read_words x) in
    if bool_decide (x64 = 0) then LError (Message "Can't be 0")
    else r ← lift (powmodp G x64); LRet (push64 r).

(** ** Base 64 *)
Definition encoding : list Z := char_code <$> list_ascii_of_string "ABCDEFGHIJKLMNOPQRSTUVWXYZabcdefghijklmnopqrstuvwxyz0123456789+/".
Definition b64_three (text : list Z) (i : Z) (buffer : list Z) : lua (list Z) :=
  a ← lift (get_idx text i); b ← lift (get_idx text (i + 1)); c ← lift (get_idx text (i + 2));
  let v := Z.shiftl a 16 .| Z.shiftl b 8 .| c in
  LRet (buffer ++ [at_idx encoding (v >> 18); at_idx encoding ((v >> 12) .& 0x3f);
                   at_idx encoding ((v >> 6) .& 0x3f); at_idx encoding (v .& 0x3f)]).
Definition b64_tail (text : list Z) (i padding : Z) : outcome (list Z) :=
  if bool_decide (padding = 1) then
    v ← get_idx text i;
    Ret [at_idx encoding (v >> 2); at_idx encoding (Z.shiftl (v .& 3) 4); 61; 61]
  else if bool_decide (padding = 2) then
    a ← get_idx text i; b ← get_idx text (i + 1);
    let v := Z.shiftl a 8 .| b in
    Ret [at_idx encoding (v >> 10); at_idx encoding ((v >> 4) .& 0x3f); at_idx encoding (Z.shiftl (v .& 0xf) 2); 61]
  else Ret [].
Definition lb64encode (text : list Z) : lua (list Z) :=
  let sz := Zlen text in
  let encode_sz := i32 ((sz + 2) / 3 * 4) in
  limit ← lift (chk_int (i32 sz - 2));
  '(i, buffer) ← count_loop 3 limit (b64_three text) (List.length text) 0 [];
  tail ← lift (b64_tail text i (i32 (sz - i)));
  push_bytes (buffer ++ tail) encode_sz.

Definition decoding : list Z :=
  [62; -1; -1; -1; 63; 52; 53; 54; 55; 56; 57; 58; 59; 60; 61; -1; -1; -1; -2; -1; -1; -1;
   0; 1; 2; 3; 4; 5; 6; 7; 8; 9; 10; 11; 12; 13; 14; 15; 16; 17; 18; 19; 20; 21; 22; 23; 24; 25;
   -1; -1; -1; -1; -1; -1;
   26; 27; 28; 29; 30; 31; 32; 33; 34; 35; 36; 37; 38; 39; 40; 41; 42; 43; 44; 45; 46; 47; 48; 49; 50; 51].
Definition b64index (c : Z) : Z :=
  if bool_decide (c < 43) then -1
  else if bool_decide (Zlen decoding ≤ c - 43) then -1
  else at_idx decoding (c - 43).

Definition b64_invalid {A} : lua A := LError (Message "Invalid base64 text").
(** the next four digits from [i] on; other bytes are passed over *)
Fixpoint b64_quad (fuel : nat) (text : list Z) (i : Z) (c : list Z) (padding : Z) : lua (Z * list Z * Z) :=
  if bool_decide (4 ≤ Zlen c) then LRet (i, c, padding)
  else if bool_decide (Zlen text ≤ i) then b64_invalid
  else
    match fuel with
    | O => LNoFuel
    | S fuel =>
        x ← lift (get_idx text i);
        let x := b64index x in
        i ← lift (chk_int (i + 1));
        if bool_decide (x = -1) then b64_quad fuel text i c padding
        else b64_quad fuel text i (c ++ [x]) (if bool_decide (x = -2) then padding + 1 else padding)
    end.
(** the bytes of four digits *)
Definition b64_bytes (c : list Z) (padding : Z) : lua (list Z) :=
  match c with
  | [c0; c1; c2; c3] =>
      if bool_decide (padding = 0) then
        let v := (c0 << 18) .| Z.shiftl c1 12 .| Z.shiftl c2 6 .| c3 in
        LRet [u8 (v >> 16); (v >> 8) .& 0xff; v .& 0xff]
      else if bool_decide (padding = 1) then
        if bool_decide (c3 ≠ -2 ∨ c2 .& 3 ≠ 0) then b64_invalid
        else let v := (c0 << 10) .| Z.shiftl c1 4 .| (c2 >> 2) in LRet [u8 (v >> 8); v .& 0xff]
      else if bool_decide (padding = 2) then
        if bool_decide (c3 ≠ -2 ∨ c2 ≠ -2 ∨ c1 .& 0xf ≠ 0) then b64_invalid
        else let v := (c0 << 2) .| (c1 >> 4) in LRet [u8 v]
      else b64_invalid
  | _ => LUndef
  end.
(** [room] is the size of the buffer *)
Fixpoint b64_loop (fuel : nat) (text : list Z) (room i : Z) (buffer : list Z) : lua (list Z) :=
  if bool_decide (i < Zlen text) then
    match fuel with
    | O => LNoFuel
    | S fuel =>
        '(i, c, padding) ← b64_quad (List.length text) text i [] 0;
        bs ← b64_bytes c padding;
        let buffer := buffer ++ bs in
        if bool_decide (room < Zlen buffer) then LUndef else b64_loop fuel text room i buffer
    end
  else LRet buffer.
Definition lb64decode (text : list Z) : lua (list Z) :=
  let decode_sz := i32 ((Zlen text + 3) / 4 * 3) in
  let room := if bool_decide (SMALL_CHUNK < decode_sz) then decode_sz else SMALL_CHUNK in
  b64_loop (List.length text) text room 0 [].

(** ** Exclusive or with a repeated key *)
Definition xor_step (s1 s2 : list Z) (i : Z) (buffer : list Z) : lua (list Z) :=
  a ← lift (get_idx s1 i); b ← lift (get_idx s2 (i mod Zlen s2)); LRet (buffer ++ [a .^ b]).
Definition lxor_str (s1 s2 : list Z) : lua (list Z) :=
  if bool_decide (Zlen s2 = 0) then LError (Message "Can't xor empty string")
  else
    '(_, buffer) ← count_loop 1 (Zlen s1) (xor_step s1 s2) (List.length s1) 0 [];
    push_bytes buffer (Zlen s1).
