(* ===== verification/DesCodec.v ===== *)
(** * What DES encodes it decodes

    The rounds of the standard run backwards undo themselves, so that [ldesdecode]
    gives back the text [ldesencode] was given, whatever the padding. *)
From S2P Require Import Prelude CLib CNum Bytes LuaValue Bits Des DesEquiv Crypt.
#[local] Open Scope Z_scope.
#[local] Open Scope bits_scope.

(** ** The cipher of the standard *)
Lemma ip_fp z : in64 z → permute 64 IP_table (permute 64 FP_table z) = z.
Proof.
  revert z. eapply (linear_ext _ _ (λ z, permute 64 IP_table (permute 64 FP_table z)) (λ z, z));
    [linear_fun|apply lin_id|vm_compute; reflexivity].
Qed.
Lemma fp_ip z : in64 z → permute 64 FP_table (permute 64 IP_table z) = z.
Proof.
  revert z. eapply (linear_ext _ _ (λ z, permute 64 FP_table (permute 64 IP_table z)) (λ z, z));
    [linear_fun|apply lin_id|vm_compute; reflexivity].
Qed.

Lemma fips_rounds_app ks1 ks2 L R :
  fips_rounds (ks1 ++ ks2) L R = let '(L, R) := fips_rounds ks1 L R in fips_rounds ks2 L R.
Proof. revert L R. induction ks1 as [|K ks1 IH]; intros L R; [done|]. cbn [app fips_rounds]. apply IH. Qed.

Lemma fips_rounds_rev ks L R : let '(L', R') := fips_rounds ks L R in fips_rounds (rev ks) R' L' = (R, L).
Proof.
  revert L R. induction ks as [|K ks IH]; intros L R; [done|]. cbn [fips_rounds].
  specialize (IH R (L .^ cipher_function R K)). destruct (fips_rounds ks R (L .^ cipher_function R K)) as [L' R'].
  cbn [rev]. rewrite fips_rounds_app, IH. cbn [fips_rounds]. by rewrite Z.lxor_assoc, Z.lxor_nilpotent, Z.lxor_0_r.
Qed.

Lemma fips_rounds_range ks L R : 0 ≤ L < 2 ^ 32 → 0 ≤ R < 2 ^ 32 →
  0 ≤ (fips_rounds ks L R).1 < 2 ^ 32 ∧ 0 ≤ (fips_rounds ks L R).2 < 2 ^ 32.
Proof.
  revert L R. induction ks as [|K ks IH]; intros L R HL HR; [done|]. cbn [fips_rounds].
  apply IH; [done|]. apply lxor_range; [done|done|apply cipher_range].
Qed.

Lemma fips_inverse ks z : in64 z → fips_des (rev ks) (fips_des ks z) = z.
Proof.
  intros Hz. unfold fips_des at 2. set (x := permute 64 IP_table z).
  pose proof (permute_range 64 IP_table z : in64 x) as Hx.
  pose proof (group_range 32 1 x ltac:(done)) as HL. pose proof (group_range 32 0 x ltac:(done)) as HR.
  pose proof (fips_rounds_rev ks (group 32 1 x) (group 32 0 x)) as Hrev.
  pose proof (fips_rounds_range ks (group 32 1 x) (group 32 0 x) HL HR) as [HL' HR'].
  destruct (fips_rounds ks (group 32 1 x) (group 32 0 x)) as [L R].
  destruct (groups_join R L HR' HL') as (Hj & EH & EL). unfold fips_des.
  rewrite ip_fp by done. rewrite EH, EL, Hrev.
  rewrite lor_shift by done. rewrite <- groups_of by done. by apply fp_ip.
Qed.

(** ** A block *)
Lemma be_number_inj l l' : length l = length l' → Forall byte l → Forall byte l' → be_number l = be_number l' → l = l'.
Proof.
  unfold be_number. intros Hl Hb Hb'. assert (∀ a a',
    fold_left (λ acc b, 256 * acc + b) l a = fold_left (λ acc b, 256 * acc + b) l' a' → a = a' ∧ l = l') as H.
  { revert l' Hl Hb'. induction Hb as [|b l Hb _ IH]; intros [|b' l'] Hl Hb'; try done; intros a a' E.
    apply Forall_cons in Hb' as [Hb'0 Hb']. cbn [fold_left] in E. apply IH in E as [E ->]; [|by injection Hl|done].
    unfold byte in *. split; [lia|]. f_equal. lia. }
  intros E. by apply (H 0 0).
Qed.

Lemma des_crypt_block SK b : Zlen (des_crypt SK b) = 8 ∧ Forall byte (des_crypt SK b).
Proof.
  unfold des_crypt. destruct (DES_IP _ _) as [X Y]. destruct (des_rounds SK X Y) as [X' Y'].
  destruct (DES_FP Y' X') as [Y1 X1]. split; [done|]. unfold PUT_UINT32. cbn [app].
  repeat constructor; apply mod_range; done.
Qed.

Lemma keys_inverse keys b : length keys = 16%nat → Forall in64 keys → Zlen b = 8 → Forall byte b →
  des_crypt (pack_keys (rev keys)) (des_crypt (pack_keys keys) b) = b.
Proof.
  intros H16 Hf Hl Hb. destruct (block_words b Hl Hb) as (Hz & _ & _).
  destruct (des_crypt_block (pack_keys keys) b) as [Hl1 Hb1].
  destruct (des_crypt_block (pack_keys (rev keys)) (des_crypt (pack_keys keys) b)) as [Hl2 Hb2].
  pose proof (crypt_spec keys b H16 Hf Hl Hb) as E1.
  pose proof (crypt_spec (rev keys) (des_crypt (pack_keys keys) b)) as E2.
  specialize (E2 ltac:(by rewrite length_rev) (Forall_rev Hf) Hl1 Hb1). rewrite E1, fips_inverse in E2 by assumption.
  apply be_number_inj; [|exact Hb2|exact Hb|exact E2]. apply Nat2Z.inj. by rewrite <- Hl in Hl2.
Qed.

Lemma des_inverse key b : Zlen key = 8 → Forall byte key → Zlen b = 8 → Forall byte b →
  des_crypt (reverse_keys (des_main_ks key)) (des_crypt (des_main_ks key) b) = b.
Proof.
  intros Hk Hbk Hl Hb. destruct (fips_keys_facts (be_number key)) as [H16 Hf].
  rewrite main_ks_spec, reverse_pack by assumption. by apply keys_inverse.
Qed.

#[local] Opaque des_crypt des_main_ks reverse_keys.

(** ** Counting loops that collect bytes *)

(** [f k] is what round [k] adds *)
Lemma count_loop_collect step limit body (f : nat → list Z) : 0 < step → ∀ n fuel i buffer,
  (n ≤ fuel)%nat → (∀ k, (k < n)%nat → i + step * Z.of_nat k < limit) → limit ≤ i + step * Z.of_nat n →
  0 ≤ i → i + step * Z.of_nat n ≤ INT_MAX →
  (∀ k buf, (k < n)%nat → body (i + step * Z.of_nat k) buf = LRet (buf ++ f k)) →
  count_loop step limit body fuel i buffer = LRet (i + step * Z.of_nat n, buffer ++ mjoin (f <$> seq 0 n)).
Proof.
  intros Hs n. revert f. induction n as [|n IH]; intros f fuel i buffer Hf Hlt Hge Hi Hmax Hb.
  - rewrite Z.mul_0_r, Z.add_0_r in *. cbn. rewrite app_nil_r.
    destruct fuel; cbn [count_loop]; by rewrite bool_decide_eq_false_2 by lia.
  - destruct fuel as [|fuel]; [lia|]. cbn [count_loop].
    pose proof (Hlt 0%nat ltac:(lia)) as H0. rewrite Z.mul_0_r, Z.add_0_r in H0.
    rewrite bool_decide_eq_true_2 by done.
    pose proof (Hb 0%nat buffer ltac:(lia)) as Hb0. rewrite Z.mul_0_r, Z.add_0_r in Hb0. rewrite Hb0, LRet_bind.
    rewrite chk_int_ok by (unfold INT_MAX in *; nia). cbn [lift]. rewrite LRet_bind.
    rewrite (IH (λ k, f (S k))).
    + f_equal. f_equal; [lia|]. rewrite <- app_assoc. f_equal.
      change (seq 0 (S n)) with (0%nat :: seq 1 n). rewrite <- (fmap_S_seq 0 n). rewrite fmap_cons. cbn [mjoin list_join].
      f_equal. by rewrite <- list_fmap_compose.
    + lia.
    + intros k Hk. specialize (Hlt (S k) ltac:(lia)). lia.
    + lia.
    + lia.
    + lia.
    + intros k buf Hk. specialize (Hb (S k) buf ltac:(lia)).
      replace (i + step + step * Z.of_nat k) with (i + step * Z.of_nat (S k)) by lia. exact Hb.
Qed.

(** ** The loop over the blocks of a text *)
Definition chunk (text : list Z) (k : nat) : list Z := take 8 (drop (8 * k) text).

Lemma chunk_ok text k n : 8 * Z.of_nat n ≤ Zlen text → (k < n)%nat → Forall byte text →
  Zlen (chunk text k) = 8 ∧ Forall byte (chunk text k) ∧ block_at text (8 * Z.of_nat k) = Ret (chunk text k).
Proof.
  unfold Zlen, chunk. intros Hn Hk Hb. split; [rewrite length_take, length_drop; lia|]. split; [by apply Forall_take, Forall_drop|].
  unfold block_at, Zlen. rewrite bool_decide_eq_true_2 by lia. do 2 f_equal. f_equal. lia.
Qed.

Lemma take_chunks text n : 8 * Z.of_nat n ≤ Zlen text → mjoin (chunk text <$> seq 0 n) = take (8 * n) text.
Proof.
  unfold Zlen. intros Hn. induction n as [|n IH]; [done|]. rewrite seq_S, fmap_app, join_app, IH by lia.
  cbn [plus fmap list_fmap mjoin list_join]. rewrite app_nil_r. unfold chunk.
  rewrite take_take_drop. f_equal. lia.
Qed.

Lemma crypt_loop SK text n limit fuel : 8 * Z.of_nat n ≤ Zlen text → Forall byte text → (n ≤ fuel)%nat →
  8 * Z.of_nat n - 8 < limit ≤ 8 * Z.of_nat n → 8 * Z.of_nat n ≤ INT_MAX →
  count_loop 8 limit (crypt_block SK text) fuel 0 [] =
    LRet (8 * Z.of_nat n, mjoin ((λ k, des_crypt SK (chunk text k)) <$> seq 0 n)).
Proof.
  intros Hn Hb Hf Hlim Hmax.
  rewrite (count_loop_collect 8 limit (crypt_block SK text) (λ k, des_crypt SK (chunk text k)) ltac:(done) n);
    try lia; [done|].
  intros k buf Hk. unfold crypt_block. destruct (chunk_ok text k n Hn Hk Hb) as (_ & _ & E). rewrite Z.add_0_l, E. done.
Qed.

Lemma crypted_length SK (f : nat → list Z) n : Zlen (mjoin ((λ k, des_crypt SK (f k)) <$> seq 0 n)) = 8 * Z.of_nat n.
Proof.
  induction n as [|n IH]; [done|]. rewrite seq_S, fmap_app, join_app, Zlen_app, IH. cbn [plus fmap list_fmap mjoin list_join].
  rewrite app_nil_r. destruct (des_crypt_block SK (f n)) as [-> _]. lia.
Qed.
Lemma crypted_bytes SK (f : nat → list Z) n : Forall byte (mjoin ((λ k, des_crypt SK (f k)) <$> seq 0 n)).
Proof.
  induction n as [|n IH]; [by constructor|]. rewrite seq_S, fmap_app, join_app. apply Forall_app. split; [exact IH|].
  cbn [plus fmap list_fmap mjoin list_join]. rewrite app_nil_r. apply des_crypt_block.
Qed.
Lemma crypted_chunk SK (f : nat → list Z) n k : (k < n)%nat →
  chunk (mjoin ((λ k, des_crypt SK (f k)) <$> seq 0 n)) k = des_crypt SK (f k).
Proof.
  intros Hk. unfold chunk. pose proof (crypted_length SK f k) as Hl.
  replace n with (k + S (n - S k))%nat by lia. rewrite seq_app, fmap_app, join_app.
  unfold Zlen in Hl. rewrite drop_app_length' by lia.
  cbn [seq plus fmap list_fmap mjoin list_join]. destruct (des_crypt_block SK (f k)) as [Hl' _]. unfold Zlen in Hl'.
  rewrite take_app_length' by lia. done.
Qed.

(** ** Padding *)
Definition padding (mode r : Z) : list Z :=
  if bool_decide (mode = PADDING_MODE_ISO7816_4) then 0x80 :: replicate (Z.to_nat (7 - r)) 0
  else replicate (Z.to_nat (8 - r)) (8 - r).

Lemma padding_ok mode r : 0 ≤ r < 8 → Zlen (padding mode r) = 8 - r ∧ Forall byte (padding mode r).
Proof.
  intros Hr. unfold padding. case_bool_decide.
  - rewrite Zlen_cons, Zlen_replicate by lia. split; [lia|]. constructor; [done|]. by apply Forall_replicate.
  - rewrite Zlen_replicate by lia. split; [done|]. apply Forall_replicate. unfold byte. lia.
Qed.

Lemma add_padding_ok src r mode : 0 ≤ mode < PADDING_MODE_COUNT → 0 ≤ r < 8 → Zlen src = r →
  add_padding src r mode = LRet (src ++ padding mode r).
Proof.
  intros Hm Hr Hl. unfold add_padding, check_padding_mode. rewrite (bool_decide_eq_false_2 (_ ∨ _)) by lia.
  rewrite LRet_bind, !bool_decide_eq_false_2 by lia. f_equal. unfold padding, padding_add_iso7816_4, padding_add_pkcs7, Zlen in *.
  case_bool_decide; rewrite take_ge by lia; [done|]. do 2 f_equal. unfold u8. apply Z.mod_small. lia.
Qed.

Lemma remove_iso n buffer i k p : get_idx buffer i = Ret 0x80 →
  (∀ j, (0 < j ≤ k)%nat → get_idx buffer (i + Z.of_nat j) = Ret 0) → (k < n)%nat →
  remove_iso7816_4 n buffer (i + Z.of_nat k) p = Ret (p + Z.of_nat k).
Proof.
  intros H0 H1. revert k p H1. induction n as [|n IH]; intros k p H1 Hk; [lia|]. cbn [remove_iso7816_4].
  destruct k as [|k].
  - rewrite !Z.add_0_r, H0. done.
  - rewrite H1 by lia. rewrite Ret_bind, bool_decide_eq_true_2 by done.
    replace (i + Z.of_nat (S k) - 1) with (i + Z.of_nat k) by lia.
    rewrite IH; [f_equal; lia|intros j Hj; apply H1; lia|lia].
Qed.

Lemma remove_same n buffer i k : (∀ j, (j ≤ n)%nat → get_idx buffer (i + Z.of_nat j) = Ret k) →
  remove_pkcs7 n buffer (i + Z.of_nat n) k = Ret k.
Proof.
  revert i. induction n as [|n IH]; intros i H; [done|]. cbn [remove_pkcs7].
  replace (i + Z.of_nat (S n) - 1) with (i + Z.of_nat n) by lia. rewrite H by lia.
  rewrite Ret_bind, bool_decide_eq_false_2 by naive_solver. apply IH. intros j Hj. apply H. lia.
Qed.

Lemma get_app (pre post : list Z) j : 0 ≤ j → get_idx (pre ++ post) (Zlen pre + j) = get_idx post j.
Proof.
  intros Hj. pose proof (Zlen_nonneg pre). unfold get_idx. rewrite !decide_True by lia. f_equal.
  rewrite lookup_app_r by (unfold Zlen in *; lia). f_equal. unfold Zlen in *. lia.
Qed.

Lemma get_replicate (x : Z) n j : 0 ≤ j < n → get_idx (replicate (Z.to_nat n) x) j = Ret x.
Proof. intros. apply get_idx_Ret. split; [lia|]. apply lookup_replicate_2. lia. Qed.

Lemma remove_padding_ok text mode r : 0 ≤ mode < PADDING_MODE_COUNT → 0 ≤ r < 8 →
  remove_padding (text ++ padding mode r) (Zlen (text ++ padding mode r) - 1) mode = LRet (8 - r).
Proof.
  intros Hm Hr. unfold remove_padding, check_padding_mode. rewrite (bool_decide_eq_false_2 (_ ∨ _)) by lia. rewrite LRet_bind.
  rewrite Zlen_app. destruct (padding_ok mode r Hr) as [-> _].
  replace (Zlen text + (8 - r) - 1) with (Zlen text + (7 - r)) by lia. unfold padding.
  case_bool_decide; cbn [lift].
  - unfold padding_remove_iso7816_4. replace (7 - r) with (Z.of_nat (Z.to_nat (7 - r))) at 2 by lia.
    rewrite (remove_iso 8 _ (Zlen text)); [cbn [lift]; f_equal; lia| |intros j Hj|lia].
    + pose proof (get_app text (0x80 :: replicate (Z.to_nat (7 - r)) 0) 0 ltac:(done)) as E. by rewrite Z.add_0_r in E.
    + rewrite get_app by lia. replace (Z.of_nat j) with (1 + Z.of_nat (j - 1)) by lia.
      change (0x80 :: replicate (Z.to_nat (7 - r)) 0) with ([0x80] ++ replicate (Z.to_nat (7 - r)) 0).
      change 1 with (Zlen [0x80]) at 1. rewrite get_app by lia. apply get_replicate. lia.
  - unfold padding_remove_pkcs7. rewrite get_app, get_replicate, Ret_bind by lia.
    replace (8 - r - 1) with (7 - r) by lia. replace (Zlen text + (7 - r)) with (Zlen text + Z.of_nat (Z.to_nat (7 - r))) by lia.
    rewrite remove_same; [done|]. intros j Hj. rewrite get_app by lia. apply get_replicate. lia.
Qed.

(** ** The theorem *)
Lemma push_all l n : n = Zlen l → push_bytes l n = LRet l.
Proof.
  intros ->. unfold push_bytes. rewrite bool_decide_eq_true_2 by (pose proof (Zlen_nonneg l); lia).
  unfold Zlen. by rewrite Nat2Z.id, firstn_all.
Qed.
Lemma round_up n : (n + 8) .& Z.lnot 7 = 8 * (n / 8 + 1).
Proof.
  rewrite <- Z.ldiff_land. change 7 with (Z.ones 3). rewrite Z.ldiff_ones_r by done.
  rewrite Z.shiftl_mul_pow2, Z.shiftr_div_pow2 by done. change (2 ^ 3) with 8.
  replace (n + 8) with (n + 1 * 8) by lia. rewrite Z.div_add by done. lia.
Qed.
Lemma des_key_ok key : Zlen key = 8 → des_key key = LRet (des_main_ks key).
Proof. intros H. unfold des_key. by rewrite bool_decide_eq_false_2 by (intros Hn; by apply Hn). Qed.

(** the blocks that are enciphered: those of the text, then its rest with the padding *)
Definition padded (text : list Z) (mode : Z) : list Z := text ++ padding mode (Zlen text mod 8).

Lemma padded_ok text mode : Forall byte text →
  Zlen (padded text mode) = 8 * (Zlen text / 8 + 1) ∧ Forall byte (padded text mode).
Proof.
  intros Hb. pose proof (mod_range (Zlen text) 8 ltac:(done)) as Hr. destruct (padding_ok mode _ Hr) as [Hl Hp].
  unfold padded. rewrite Zlen_app, Hl. split; [|by apply Forall_app].
  pose proof (Z.div_mod (Zlen text) 8). lia.
Qed.

Lemma desencode_ok key text mode : Zlen key = 8 → Forall byte text → 0 ≤ mode < PADDING_MODE_COUNT →
  Zlen text ≤ INT_MAX - 8 →
  ldesencode key text mode =
    LRet (mjoin ((λ k, des_crypt (des_main_ks key) (chunk (padded text mode) k)) <$> seq 0 (S (Z.to_nat (Zlen text / 8))))).
Proof.
  intros Hk Hb Hm Hmax. unfold ldesencode. rewrite des_key_ok, LRet_bind by done. cbv zeta.
  pose proof (Zlen_nonneg text) as H0. pose proof (Z.div_mod (Zlen text) 8 ltac:(done)) as Hdm.
  pose proof (mod_range (Zlen text) 8 ltac:(done)) as Hr. set (q := Zlen text / 8) in *. set (r := Zlen text mod 8) in *.
  assert (0 ≤ q) as Hq by (by apply Z.div_pos). unfold INT_MAX in *.
  rewrite i32_small by lia. rewrite chk_int_ok by (unfold INT_MAX; lia). cbn [lift]. rewrite LRet_bind.
  destruct (padded_ok text mode Hb) as [Hpl Hpb].
  rewrite (crypt_loop (des_main_ks key) text (Z.to_nat q)) by (done || (unfold Zlen, INT_MAX in *; lia)).
  rewrite LRet_bind. rewrite Z2Nat.id by done. rewrite i32_small by lia.
  replace (Zlen text - 8 * q) with r by lia.
  rewrite add_padding_ok; [|done|done|unfold Zlen in *; rewrite length_drop; lia]. rewrite LRet_bind.
  rewrite seq_S, fmap_app, join_app. cbn [plus fmap list_fmap mjoin list_join]. rewrite app_nil_r.
  assert (chunk (padded text mode) (Z.to_nat q) = drop (Z.to_nat (8 * q)) text ++ padding mode r) as ->.
  { unfold chunk, padded. replace (8 * Z.to_nat q)%nat with (Z.to_nat (8 * q)) by lia.
    rewrite drop_app_le by (unfold Zlen in *; lia). apply take_ge. rewrite length_app, length_drop.
    destruct (padding_ok mode r Hr) as [Hp _]. fold r. unfold Zlen in *. lia. }
  assert ((λ k, des_crypt (des_main_ks key) (chunk (padded text mode) k)) <$> seq 0 (Z.to_nat q) =
          (λ k, des_crypt (des_main_ks key) (chunk text k)) <$> seq 0 (Z.to_nat q)) as ->.
  { apply list_fmap_ext. intros i k Hi%list_elem_of_lookup_2%elem_of_seq. f_equal. unfold chunk, padded.
    unfold Zlen in *. rewrite drop_app_le by lia. apply take_app_le. rewrite length_drop. lia. }
  apply push_all. rewrite Zlen_app, crypted_length, round_up. destruct (des_crypt_block (des_main_ks key)
    (drop (Z.to_nat (8 * q)) text ++ padding mode r)) as [-> _]. fold q. lia.
Qed.

(** What [ldesencode] makes of a text, with either padding, [ldesdecode] turns
    back into the text with the same key; the code is the length of the text
    rounded up to the next multiple of eight. *)
Theorem desdecode_desencode key text mode : Zlen key = 8 → Forall byte key → Forall byte text →
  0 ≤ mode < PADDING_MODE_COUNT → Zlen text ≤ INT_MAX - 8 →
  ∃ code, ldesencode key text mode = LRet code ∧ Zlen code = 8 * (Zlen text / 8 + 1) ∧
    ldesdecode key code mode = LRet text.
Proof.
  intros Hk Hbk Hb Hm Hmax. rewrite desencode_ok by done. eexists. split; [done|].
  pose proof (Zlen_nonneg text) as H0. assert (0 ≤ Zlen text / 8) as Hq by (by apply Z.div_pos).
  pose proof (Z.div_mod (Zlen text) 8 ltac:(done)) as Hdm. pose proof (mod_range (Zlen text) 8 ltac:(done)) as Hr.
  set (n := S (Z.to_nat (Zlen text / 8))) in *. assert (8 * Z.of_nat n = 8 * (Zlen text / 8 + 1)) as Hn by (unfold n; lia).
  destruct (padded_ok text mode Hb) as [Hpl Hpb].
  set (code := mjoin _). assert (Zlen code = 8 * Z.of_nat n) as Hc by apply crypted_length.
  assert (Forall byte code) as Hcb by apply crypted_bytes.
  assert (∀ k, (k < n)%nat → chunk code k = des_crypt (des_main_ks key) (chunk (padded text mode) k)) as Hch.
  { intros k Hkn. by apply crypted_chunk. }
  split; [lia|].
  unfold ldesdecode. rewrite des_key_ok, LRet_bind by done. cbv zeta. rewrite bool_decide_eq_false_2.
  2:{ rewrite Hc. change 7 with (2 ^ 3 - 1). rewrite land_mask by done. change (2 ^ 3) with 8.
      rewrite (Z.mul_comm 8), Z.mod_mul by done. lia. }
  clearbody code. rewrite (crypt_loop _ code n (Zlen code) (length code)); [|lia|exact Hcb|unfold Zlen in Hc; lia|lia|lia].
  rewrite LRet_bind.
  assert ((λ k, des_crypt (reverse_keys (des_main_ks key)) (chunk code k)) <$> seq 0 n =
          chunk (padded text mode) <$> seq 0 n) as ->.
  { apply list_fmap_ext. intros i k Hi%list_elem_of_lookup_2%elem_of_seq. rewrite Hch by lia.
    destruct (chunk_ok (padded text mode) k n) as (Hl & Hbc & _); [lia|lia|done|]. by apply des_inverse. }
  rewrite take_chunks by lia. rewrite take_ge by (unfold Zlen in *; lia).
  replace (Zlen code - 1) with (Zlen (padded text mode) - 1) by lia. unfold padded.
  rewrite remove_padding_ok, LRet_bind by done. rewrite bool_decide_eq_false_2 by lia.
  replace (Zlen code - (8 - Zlen text mod 8)) with (Zlen text) by lia. unfold push_bytes.
  rewrite bool_decide_eq_true_2 by (rewrite Zlen_app; pose proof (Zlen_nonneg (padding mode (Zlen text mod 8))); lia).
  rewrite take_app_length' by (unfold Zlen; lia). done.
Qed.
