(* ===== verification/CryptSpec.v ===== *)
(** * The crypt library: key exchange, hexadecimal text, base 64

    The 64-bit arithmetic of the key exchange computes powers modulo [P], so that
    both sides get the same secret; what the text encoders make, the decoders
    turn back. *)
From S2P Require Import Prelude CLib CNum Bytes LuaValue Bits Des DesCodec Crypt.
From Stdlib Require Import Znumtheory Zpow_facts.
#[local] Open Scope Z_scope.
#[local] Open Scope bits_scope.

(** ** Arithmetic modulo [P] *)
Lemma u64_small x : 0 ≤ x < 2 ^ 64 → u64 x = x.
Proof. apply Z.mod_small. Qed.

Lemma P_bounds : 2 ^ 63 < P < 2 ^ 64.
Proof. done. Qed.

(** a sum of two residues, taken modulo [P] without leaving 64 bits *)
Lemma mul_step_spec a b m : 0 ≤ a < P → 0 ≤ b → 0 ≤ m < P →
  mul_step a b m = ((2 * a) mod P, (m + b mod 2 * a) mod P).
Proof.
  intros Ha Hb Hm. pose proof P_bounds as HP. unfold mul_step. cbv zeta. rewrite (u64_small (P - a)) by lia.
  assert (∀ x y, 0 ≤ x < P → 0 ≤ y < P → (x + y) mod P = if bool_decide (P - y ≤ x) then x + y - P else x + y) as Hadd.
  { intros x y Hx Hy. case_bool_decide.
    - symmetry. apply (Z.mod_unique _ _ 1); lia.
    - apply Z.mod_small. lia. }
  f_equal.
  - replace (2 * a) with (a + a) by lia. rewrite Hadd by done. case_bool_decide.
    + unfold u64. rewrite Zminus_mod_idemp_l, Z.mod_small; lia.
    + rewrite u64_small; lia.
  - change 1 with (2 ^ 1 - 1). rewrite land_mask by done. change (2 ^ 1) with 2.
    pose proof (Z.mod_pos_bound b 2 ltac:(done)). destruct (decide (b mod 2 = 0)) as [E|E].
    + rewrite bool_decide_eq_false_2 by (by intros ?). rewrite E, Z.mul_0_l, Z.add_0_r. symmetry. by apply Z.mod_small.
    + rewrite bool_decide_eq_true_2 by done. replace (b mod 2) with 1 by lia. rewrite Z.mul_1_l, Hadd by done.
      case_bool_decide; rewrite u64_small; lia.
Qed.

Lemma mul_loop_spec fuel a b m : 0 ≤ a < P → 0 ≤ b < 2 ^ Z.of_nat fuel → 0 ≤ m < P →
  mul_loop fuel a b m = Ret ((m + a * b) mod P).
Proof.
  revert a b m. induction fuel as [|fuel IH]; intros a b m Ha Hb Hm; cbn [mul_loop].
  - change (2 ^ Z.of_nat 0) with 1 in Hb. rewrite bool_decide_eq_true_2 by lia. replace b with 0 by lia.
    rewrite Z.mul_0_r, Z.add_0_r, Z.mod_small by done. done.
  - case_bool_decide as Hz.
    + subst b. rewrite Z.mul_0_r, Z.add_0_r, Z.mod_small by done. done.
    + rewrite mul_step_spec by lia. rewrite Nat2Z.inj_succ, Z.pow_succ_r in Hb by lia.
      rewrite Z.shiftr_div_pow2 by done. change (2 ^ 1) with 2. pose proof (Z.div_mod b 2 ltac:(done)) as Hdm.
      rewrite IH; [|by apply Z.mod_pos_bound| |by apply Z.mod_pos_bound].
      * f_equal. rewrite Zplus_mod_idemp_l, <- Zplus_mod_idemp_r, Zmult_mod_idemp_l, Zplus_mod_idemp_r. f_equal. nia.
      * split; [apply Z.div_pos; lia|]. apply Z.div_lt_upper_bound; lia.
Qed.

Lemma mul_mod_p_spec a b : 0 ≤ a < P → 0 ≤ b < 2 ^ 64 → mul_mod_p a b = Ret ((a * b) mod P).
Proof. intros. unfold mul_mod_p. by rewrite mul_loop_spec. Qed.

Lemma pow_loop_spec fuel a b : 0 ≤ a < P → 1 ≤ b < 2 ^ (Z.of_nat fuel + 1) → pow_loop fuel a b = Ret (a ^ b mod P).
Proof.
  intros Ha. pose proof P_bounds as HP. revert b. induction fuel as [|fuel IH]; intros b Hb; cbn [pow_loop].
  - change (2 ^ (Z.of_nat 0 + 1)) with 2 in Hb. rewrite bool_decide_eq_true_2 by lia. replace b with 1 by lia.
    by rewrite Z.pow_1_r, Z.mod_small.
  - case_bool_decide as H1; [subst b; by rewrite Z.pow_1_r, Z.mod_small|].
    rewrite Nat2Z.inj_succ in Hb. replace (Z.succ (Z.of_nat fuel) + 1) with (Z.succ (Z.of_nat fuel + 1)) in Hb by lia.
    rewrite Z.pow_succ_r in Hb by lia. rewrite Z.shiftr_div_pow2 by done. change (2 ^ 1) with 2.
    pose proof (Z.div_mod b 2 ltac:(done)) as Hdm. pose proof (Z.mod_pos_bound b 2 ltac:(done)) as Hmod.
    rewrite IH by (split; [apply Z.div_le_lower_bound; lia|apply Z.div_lt_upper_bound; lia]). rewrite Ret_bind.
    pose proof (Z.mod_pos_bound (a ^ (b / 2)) P ltac:(done)) as Hr.
    rewrite mul_mod_p_spec by lia. rewrite Ret_bind.
    pose proof (Z.mod_pos_bound (a ^ (b / 2) mod P * (a ^ (b / 2) mod P)) P ltac:(done)) as Hr2.
    assert ((a ^ (b / 2) mod P * (a ^ (b / 2) mod P)) mod P = a ^ (2 * (b / 2)) mod P) as E.
    { rewrite <- Zmult_mod. f_equal. rewrite <- Z.pow_add_r by lia. f_equal. lia. }
    case_bool_decide as Hodd.
    + rewrite mul_mod_p_spec by lia. rewrite E, Zmult_mod_idemp_l. do 2 f_equal.
      rewrite <- (Z.pow_1_r a) at 2. rewrite <- Z.pow_add_r by lia. f_equal. lia.
    + rewrite E. do 3 f_equal. lia.
Qed.

Lemma powmodp_spec a b : 0 ≤ a < 2 ^ 64 → a ≠ P → 1 ≤ b < 2 ^ 64 → powmodp a b = Ret (a ^ b mod P).
Proof.
  intros Ha Hne Hb. pose proof P_bounds as HP. unfold powmodp, pow_mod_p. case_bool_decide.
  - rewrite pow_loop_spec; [|by apply Z.mod_pos_bound|change (2 ^ (Z.of_nat 64 + 1)) with (2 * 2 ^ 64); lia].
    f_equal. symmetry. by apply Zpower_mod.
  - apply pow_loop_spec; [lia|]. change (2 ^ (Z.of_nat 64 + 1)) with (2 * 2 ^ 64). lia.
Qed.

(** ** Words of strings *)
Lemma le_word l : length l = 4%nat → Forall byte l → read_word l 0 = le_value l.
Proof.
  intros Hl Hb. destruct l as [|a [|b [|c [|d [|? ?]]]]]; try discriminate Hl.
  do 4 (apply Forall_cons in Hb as [? Hb]). unfold read_word. change (at_idx [a; b; c; d] 0) with a.
  change (at_idx [a; b; c; d] (0 + 1)) with b. change (at_idx [a; b; c; d] (0 + 2)) with c.
  change (at_idx [a; b; c; d] (0 + 3)) with d. rewrite !shl32_byte by (done || lia).
  assert (∀ x y k, 0 ≤ k → 0 ≤ x < 2 ^ k → x .| Z.shiftl y k = x + y * 2 ^ k) as Hor.
  { intros x y k Hk Hx. rewrite Z.shiftl_mul_pow2 by done. by apply lor_high. }
  unfold byte in *. rewrite (Hor a b 8) by lia. rewrite (Hor _ c 16) by lia. rewrite (Hor _ d 24) by lia. cbn [le_value]. lia.
Qed.

Lemma read_words_spec x : Zlen x = 8 → Forall byte x → join64 (read_words x) = le_value x.
Proof.
  intros Hl Hb. destruct x as [|a [|b [|c [|d [|e [|f [|g [|h [|? ?]]]]]]]]]; try discriminate Hl.
  2:{ unfold Zlen in Hl. cbn [length] in Hl. lia. }
  assert (Forall byte [a; b; c; d] ∧ Forall byte [e; f; g; h]) as [H1 H2] by (by apply (Forall_app byte [a; b; c; d])).
  unfold read_words, join64. cbn [fst snd].
  change (read_word [a; b; c; d; e; f; g; h] 0) with (read_word [a; b; c; d] 0).
  change (read_word [a; b; c; d; e; f; g; h] 4) with (read_word [e; f; g; h] 0).
  rewrite !le_word by done.
  pose proof (le_value_range _ H1) as R1. pose proof (le_value_range _ H2) as R2.
  change (256 ^ Zlen [a; b; c; d]) with (2 ^ 32) in R1. change (256 ^ Zlen [e; f; g; h]) with (2 ^ 32) in R2.
  rewrite Z.shiftl_mul_pow2, u64_small by lia. rewrite lor_high by lia. cbn [le_value]. lia.
Qed.

Lemma push64_spec r : push64 r = le_bytes 8 r.
Proof.
  unfold push64. cbn [seq fmap list_fmap le_bytes]. rewrite !byte_at by done.
  rewrite !Z.div_div by done. change (2 ^ (8 * Z.of_nat 0)) with 1. rewrite Z.div_1_r. reflexivity.
Qed.

(** ** The key exchange *)
Lemma power_of_G_nonzero n : 0 ≤ n → G ^ n mod P ≠ 0.
Proof.
  intros Hn E. apply Z.mod_divide in E; [|done].
  assert (Z.coprime P (G ^ n)) as Hc by (apply Z.coprime_pow_r; [done|by vm_compute]).
  assert (Z.gcd P (G ^ n) = P) as Hg by (by apply Z.divide_gcd_iff). unfold Z.coprime in Hc. by rewrite Hg in Hc.
Qed.

Lemma residue_range n : 0 ≤ G ^ n mod P < P.
Proof. by apply Z.mod_pos_bound. Qed.

Lemma dhexchange_ok x : Zlen x = 8 → Forall byte x → le_value x ≠ 0 →
  ldhexchange x = LRet (le_bytes 8 (G ^ le_value x mod P)).
Proof.
  intros Hl Hb Hn. unfold ldhexchange. rewrite bool_decide_eq_false_2 by (intros H; by apply H). cbv zeta.
  rewrite read_words_spec, bool_decide_eq_false_2 by done. pose proof (le_value_range _ Hb) as Hr.
  rewrite Hl in Hr. change (256 ^ 8) with (2 ^ 64) in Hr.
  rewrite powmodp_spec by (done || lia). cbn [lift]. by rewrite LRet_bind, push64_spec.
Qed.

Lemma dhsecret_ok a y : 0 ≤ a < P → a ≠ 0 → Zlen y = 8 → Forall byte y → le_value y ≠ 0 →
  ldhsecret (le_bytes 8 a) y = LRet (le_bytes 8 (a ^ le_value y mod P)).
Proof.
  intros Ha Hn Hl Hb Hy. pose proof P_bounds. unfold ldhsecret, read64.
  assert (Zlen (le_bytes 8 a) = 8) as Hla by apply Zlen_le_bytes.
  rewrite !bool_decide_eq_false_2 by (intros Hx; by apply Hx). rewrite LRet_bind.
  pose proof (le_bytes_ok 8 a) as Hab. rewrite !read_words_spec by done.
  rewrite le_small by (change (256 ^ Z.of_nat 8) with (2 ^ 64); lia).
  rewrite bool_decide_eq_false_2 by naive_solver. pose proof (le_value_range _ Hb) as Hr.
  rewrite Hl in Hr. change (256 ^ 8) with (2 ^ 64) in Hr.
  rewrite powmodp_spec by lia. cbn [lift]. by rewrite LRet_bind, push64_spec.
Qed.

(** The key exchange: for two secrets other than 0, each side can compute its
    public value, and both then compute the same shared value, [G] to the product
    of the secrets modulo the prime; no step is refused, overflows or fails to end. *)
Theorem dh_agreement x y : Zlen x = 8 → Forall byte x → le_value x ≠ 0 →
  Zlen y = 8 → Forall byte y → le_value y ≠ 0 →
  ∃ gx gy secret, ldhexchange x = LRet gx ∧ ldhexchange y = LRet gy ∧
    ldhsecret gx y = LRet secret ∧ ldhsecret gy x = LRet secret ∧
    le_value secret = G ^ (le_value x * le_value y) mod P.
Proof.
  intros Hlx Hbx Hx Hly Hby Hy. pose proof (le_value_range _ Hbx) as Rx. pose proof (le_value_range _ Hby) as Ry.
  pose proof P_bounds.
  exists (le_bytes 8 (G ^ le_value x mod P)), (le_bytes 8 (G ^ le_value y mod P)),
    (le_bytes 8 (G ^ (le_value x * le_value y) mod P)).
  rewrite !dhexchange_ok by done.
  rewrite !dhsecret_ok by (done || apply residue_range || (apply power_of_G_nonzero; lia)).
  rewrite <- !Zpower_mod by done. rewrite <- !Z.pow_mul_r by lia. rewrite (Z.mul_comm (le_value y)).
  do 4 (split; [done|]). pose proof (residue_range (le_value x * le_value y)). rewrite le_small; [done|].
  change (256 ^ Z.of_nat 8) with (2 ^ 64). lia.
Qed.

(** ** Hexadecimal text *)
Definition hex_text (text : list Z) : list Z := text ≫= λ c, [at_idx hex (c >> 4); at_idx hex (c .& 0xf)].

Lemma collect_each (f : Z → list Z) text : mjoin ((λ k, f (nth k text 0)) <$> seq 0 (length text)) = text ≫= f.
Proof.
  induction text as [|c text IH]; [done|]. cbn [length seq fmap list_fmap mjoin list_join mbind list_bind].
  f_equal. rewrite <- IH. f_equal. rewrite <- (fmap_S_seq 0), <- list_fmap_compose. done.
Qed.
Lemma get_nth (l : list Z) k : (k < length l)%nat → get_idx l (Z.of_nat k) = Ret (nth k l 0).
Proof.
  intros Hk. destruct (lookup_lt_is_Some_2 l k Hk) as [x Hx]. apply get_idx_Ret. split; [lia|].
  rewrite Nat2Z.id, Hx. by rewrite (nth_lookup_Some _ _ _ _ Hx).
Qed.

Lemma tohex_ok text : 2 * Zlen text ≤ INT_MAX → ltohex text = LRet (hex_text text).
Proof.
  intros Hmax. unfold ltohex. cbv zeta. pose proof (Zlen_nonneg text). unfold Zlen in *.
  rewrite (count_loop_collect 1 _ (hex_pair text)
             (λ k, [at_idx hex (nth k text 0 >> 4); at_idx hex (nth k text 0 .& 0xf)]) ltac:(done) (length text)); try lia.
  2:{ intros k buf Hk. unfold hex_pair. rewrite Z.add_0_l, Z.mul_1_l, get_nth by done. done. }
  rewrite LRet_bind. cbn [app]. rewrite (collect_each (λ c, [at_idx hex (c >> 4); at_idx hex (c .& 0xf)])).
  fold (hex_text text). apply push_all. unfold hex_text, Zlen. clear. induction text as [|c text IH]; [done|].
  cbn [mbind list_bind app length] in *. lia.
Qed.

(** the bytes the decoder takes for digits, and their values *)
Definition accepted (c : Z) : Prop := 48 ≤ c ≤ 57 ∨ 87 ≤ c ≤ 103.
#[export] Instance accepted_dec c : Decision (accepted c).
Proof. unfold accepted. apply _. Defined.
Definition digit_value (c : Z) : Z := if decide (c ≤ 57) then c - 48 else c - 87.

Lemma byte_cases (Q : Z → bool) c : byte c → forallb (λ n, Q (Z.of_nat n)) (seq 0 256) = true → Q c = true.
Proof.
  unfold byte. intros Hc H. rewrite forallb_forall in H. specialize (H (Z.to_nat c) ltac:(apply in_seq; lia)).
  by rewrite Z2Nat.id in H by lia.
Qed.

Lemma HEX_spec c : byte c → (HEX (char_of c) ≤ 16 ↔ accepted c) ∧ (accepted c → HEX (char_of c) = digit_value c).
Proof.
  intros Hc. assert (bool_decide (HEX (char_of c) ≤ 16) = bool_decide (accepted c) ∧
    (bool_decide (accepted c) = true → HEX (char_of c) = digit_value c)) as [H1 H2].
  { set (Q := λ c, eqb (bool_decide (HEX (char_of c) ≤ 16)) (bool_decide (accepted c)) &&
      implb (bool_decide (accepted c)) (HEX (char_of c) =? digit_value c)).
    assert (forallb (λ n, Q (Z.of_nat n)) (seq 0 256) = true) as HQ by (vm_compute; reflexivity).
    pose proof (byte_cases Q c Hc HQ) as H. unfold Q in H.
    apply andb_prop in H as [H1%eqb_prop H2]. split; [done|]. intros E. rewrite E in H2. by apply Z.eqb_eq. }
  split; [by rewrite <- (bool_decide_eq_true (HEX (char_of c) ≤ 16)), H1, bool_decide_eq_true|]. intros Ha. apply H2. by apply bool_decide_eq_true_2.
Qed.

Fixpoint unhex (l : list Z) : option (list Z) :=
  match l with
  | a :: b :: l =>
      if decide (accepted a ∧ accepted b) then cons (u8 (16 * digit_value a .| digit_value b)) <$> unhex l else None
  | _ => Some []
  end.

Lemma unhex_loop text n : Forall byte text → Zlen text ≤ INT_MAX - 1 → ∀ i buffer fuel, 0 ≤ i →
  Zlen text = i + 2 * Z.of_nat n → (n ≤ fuel)%nat →
  count_loop 2 (Zlen text) (unhex_pair text) fuel i buffer =
    match unhex (drop (Z.to_nat i) text) with
    | Some l => LRet (Zlen text, buffer ++ l)
    | None => LError (Message "Invalid hex text")
    end.
Proof.
  intros Hb Hmax. induction n as [|n IH]; intros i buffer fuel Hi Hl Hf.
  - rewrite drop_ge by (unfold Zlen in *; lia). cbn [unhex]. rewrite app_nil_r.
    destruct fuel; cbn [count_loop]; rewrite bool_decide_eq_false_2 by lia; do 2 f_equal; lia.
  - destruct fuel as [|fuel]; [lia|]. cbn [count_loop]. rewrite bool_decide_eq_true_2 by lia.
    destruct (drop (Z.to_nat i) text) as [|a [|b l]] eqn:E;
      [apply (f_equal length) in E; rewrite length_drop in E; unfold Zlen in *; cbn [length] in E; lia..|].
    assert (get_idx text i = Ret a ∧ get_idx text (i + 1) = Ret b ∧ drop (Z.to_nat (i + 2)) text = l) as (Ea & Eb & El).
    { rewrite !get_idx_Ret. replace (Z.to_nat (i + 1)) with (Z.to_nat i + 1)%nat by lia.
      replace (Z.to_nat (i + 2)) with (Z.to_nat i + 2)%nat by lia.
      rewrite <- (Nat.add_0_r (Z.to_nat i)) at 1. rewrite <- !lookup_drop, <- drop_drop, E.
      repeat split; (done || lia). }
    assert (byte a ∧ byte b) as [Ha Hbb].
    { assert (Forall byte (a :: b :: l)) as H by (rewrite <- E; by apply Forall_drop).
      apply Forall_cons in H as [? H]. apply Forall_cons in H as [? _]. done. }
    destruct (HEX_spec a Ha) as [Aa Va]. destruct (HEX_spec b Hbb) as [Ab Vb].
    assert (unhex_pair text i buffer =
      if bool_decide (16 < HEX (char_of a) ∨ 16 < HEX (char_of b)) then LError (Message "Invalid hex text")
      else LRet (buffer ++ [u8 (Z.shiftl (HEX (char_of a)) 4 .| HEX (char_of b))])) as ->
      by (unfold unhex_pair; by rewrite Ea, Eb).
    cbn [unhex].
    case_decide as Hacc.
    + rewrite bool_decide_eq_false_2 by (destruct Hacc as [?%Aa ?%Ab]; lia). rewrite LRet_bind, chk_int_ok by lia. cbn [lift]. rewrite LRet_bind.
      rewrite IH by lia. rewrite El. destruct (unhex l); [|done]. cbn [fmap option_fmap option_map].
      rewrite <- app_assoc. rewrite Va, Vb by tauto. rewrite Z.shiftl_mul_pow2 by done. change (2 ^ 4) with 16.
      by rewrite (Z.mul_comm _ 16).
    + rewrite bool_decide_eq_true_2; [done|]. destruct (decide (accepted a)); [right|left]; apply Z.lt_nge; rewrite ?Aa, ?Ab; tauto.
Qed.

Lemma unhex_hex text : Forall byte text → unhex (hex_text text) = Some text.
Proof.
  induction 1 as [|c text Hc _ IH]; [done|]. unfold hex_text in *. cbn [mbind list_bind app]. cbn [unhex].
  set (Q := λ c, bool_decide (accepted (at_idx hex (c >> 4)) ∧ accepted (at_idx hex (c .& 0xf))) &&
    (u8 (16 * digit_value (at_idx hex (c >> 4)) .| digit_value (at_idx hex (c .& 0xf))) =? c)).
  assert (forallb (λ n, Q (Z.of_nat n)) (seq 0 256) = true) as HQ by (vm_compute; reflexivity).
  pose proof (byte_cases Q c Hc HQ) as H. unfold Q in H.
  apply andb_prop in H as [H1%bool_decide_eq_true H2%Z.eqb_eq]. rewrite decide_True by done.
  change (mbind _ text) with (text ≫= λ c, [at_idx hex (c >> 4); at_idx hex (c .& 0xf)]).
  rewrite IH. cbn [fmap option_fmap option_map]. by rewrite H2.
Qed.

Lemma unhex_length n : ∀ text l, length text = (2 * n)%nat → unhex text = Some l → length l = n.
Proof.
  induction n as [|n IH]; intros text l Hl Hu.
  - destruct text; [|discriminate Hl]. by injection Hu as <-.
  - destruct text as [|a [|b text]]; [cbn in Hl; lia..|]. cbn [unhex] in Hu. case_decide; [|done].
    destruct (unhex text) as [l'|] eqn:E; [|done]. injection Hu as <-. cbn [length] in *.
    f_equal. apply (IH text); [lia|done].
Qed.

Lemma fromhex_ok text : Forall byte text → Zlen text ≤ INT_MAX - 1 → lfromhex text =
  if decide (Zlen text mod 2 = 0) then
    match unhex text with Some l => LRet l | None => LError (Message "Invalid hex text") end
  else LError (Message ("Invalid hex text size " +:+ fmt_d (Zlen text))).
Proof.
  intros Hb Hmax. pose proof (Zlen_nonneg text) as H0. unfold lfromhex. cbv zeta.
  rewrite (land_mask (Zlen text) 1 ltac:(done) : Zlen text .& 1 = Zlen text mod 2). case_decide as He.
  2:{ rewrite bool_decide_eq_true_2 by done. rewrite i32_small; [done|]. unfold INT_MAX in *. lia. }
  rewrite bool_decide_eq_false_2 by (intros Hn; by apply Hn). pose proof (Z.div_mod (Zlen text) 2 ltac:(done)) as Hdm.
  rewrite (unhex_loop text (Z.to_nat (Zlen text / 2))) by (done || (unfold Zlen in *; lia)). rewrite drop_0.
  destruct (unhex text) as [l|] eqn:E; [|done]. rewrite LRet_bind. cbn [app]. apply push_all.
  apply (unhex_length (Z.to_nat (Zlen text / 2))) in E; [|unfold Zlen in *; lia]. unfold Zlen in *. lia.
Qed.

(** [hexdecode] gives back what [hexencode] was given. It accepts a text of even
    length exactly if all its bytes are digits or from the range W to g: besides
    the digits a to f also the letters W to Z, the signs between the letters, and
    g, as 0 to 9 and 16; anything else is the error about the text. *)
Theorem hexdecode_accepts text : Forall byte text → 2 * Zlen text ≤ INT_MAX - 1 →
  (c ← ltohex text; lfromhex c) = LRet text ∧
  lfromhex text =
    if decide (Zlen text mod 2 = 0) then
      match unhex text with Some l => LRet l | None => LError (Message "Invalid hex text") end
    else LError (Message ("Invalid hex text size " +:+ fmt_d (Zlen text))).
Proof.
  intros Hb Hmax. pose proof (Zlen_nonneg text) as H0. split; [|apply fromhex_ok; [done|lia]].
  assert (Zlen (hex_text text) = 2 * Zlen text ∧ Forall byte (hex_text text)) as [Hl Hbh].
  { clear Hmax H0. unfold hex_text. induction Hb as [|c text Hc _ [IH1 IH2]]; [done|].
    cbn [mbind list_bind app] in *. rewrite !Zlen_cons. split; [lia|].
    assert (∀ i, byte (at_idx hex i)) as Hhex.
    { intros i. unfold at_idx. destruct (nth_in_or_default (Z.to_nat i) hex 0) as [Hi| ->]; [|done].
      assert (Forall byte hex) as Hh by (unfold hex; by repeat constructor). rewrite List.Forall_forall in Hh. by apply Hh. }
    constructor; [apply Hhex|]. constructor; [apply Hhex|exact IH2]. }
  rewrite tohex_ok by lia. rewrite LRet_bind, fromhex_ok by (done || lia). rewrite unhex_hex by done.
  rewrite decide_True; [done|]. rewrite Hl, Z.mul_comm. by apply Z.mod_mul.
Qed.
