(* ===== verification/Base64Spec.v ===== *)
(** * Base 64

    The decoder answers every text, within its buffer, and gives back what the
    encoder made. *)
From S2P Require Import Prelude CLib CNum Bytes LuaValue Bits Des DesCodec Crypt CryptSpec.
#[local] Open Scope Z_scope.
#[local] Open Scope bits_scope.

(** ** Every text is answered *)
Lemma quad_total text : Zlen text ≤ INT_MAX → ∀ fuel i c padding, 0 ≤ i ≤ Zlen text → Zlen c ≤ 4 →
  Zlen text - i ≤ Z.of_nat fuel →
  b64_quad fuel text i c padding = b64_invalid ∨
  ∃ i' c' p, b64_quad fuel text i c padding = LRet (i', c', p) ∧ Zlen c' = 4 ∧ i + (4 - Zlen c) ≤ i' ≤ Zlen text.
Proof.
  intros Hmax. induction fuel as [|fuel IH]; intros i c padding Hi Hc Hf; cbn [b64_quad];
    (case_bool_decide; [right; exists i, c, padding; split; [done|]; lia|]); (case_bool_decide; [by left|]); [lia|].
  destruct (get_idx_ok text i ltac:(lia)) as (x & -> & _). cbn [lift]. rewrite LRet_bind.
  rewrite chk_int_ok by lia. cbn [lift]. rewrite LRet_bind. case_bool_decide.
  - destruct (IH (i + 1) c padding ltac:(lia) Hc ltac:(lia)) as [?|(i' & c' & p & E & Hc' & Hi')]; [by left|].
    right. exists i', c', p. split; [exact E|]. lia.
  - assert (Zlen (c ++ [b64index x]) = Zlen c + 1) as Hl by (rewrite Zlen_app; done).
    destruct (IH (i + 1) (c ++ [b64index x]) (if bool_decide (b64index x = -2) then padding + 1 else padding))
      as [?|(i' & c' & p & E & Hc' & Hi')]; [lia..|by left|].
    right. exists i', c', p. split; [exact E|]. lia.
Qed.

Lemma bytes_total c padding : Zlen c = 4 →
  b64_bytes c padding = b64_invalid ∨ ∃ bs, b64_bytes c padding = LRet bs ∧ Zlen bs ≤ 3.
Proof.
  intros Hc. destruct c as [|c0 [|c1 [|c2 [|c3 [|? ?]]]]]; try (unfold Zlen in Hc; cbn [length] in Hc; lia).
  unfold b64_bytes. case_bool_decide; [right; by eexists|]. case_bool_decide.
  { case_bool_decide; [by left|right; by eexists]. }
  case_bool_decide; [|by left]. case_bool_decide; [by left|right; by eexists].
Qed.

Lemma loop_total text room : Zlen text ≤ INT_MAX → (Zlen text + 3) / 4 * 3 ≤ room → ∀ fuel i buffer q,
  0 ≤ i ≤ Zlen text → Zlen text - i ≤ Z.of_nat fuel → 4 * q ≤ i → Zlen buffer ≤ 3 * q →
  b64_loop fuel text room i buffer = b64_invalid ∨ ∃ bs, b64_loop fuel text room i buffer = LRet bs.
Proof.
  intros Hmax Hroom. induction fuel as [|fuel IH]; intros i buffer q Hi Hf Hq Hb; cbn [b64_loop];
    case_bool_decide; try (right; by eexists); [lia|].
  destruct (quad_total text Hmax (length text) i [] 0) as [-> |(i' & c & p & -> & Hc & Hi')];
    [lia|done|unfold Zlen in *; lia|by left|]. rewrite Zlen_nil in Hi'.
  rewrite LRet_bind. destruct (bytes_total c p Hc) as [-> |(bs & -> & Hbs)]; [by left|]. rewrite LRet_bind. cbv zeta.
  rewrite bool_decide_eq_false_2.
  - apply (IH i' (buffer ++ bs) (q + 1)); [lia|lia|lia|]. rewrite Zlen_app. lia.
  - rewrite Zlen_app. assert (q + 1 ≤ (Zlen text + 3) / 4) by (apply Z.div_le_lower_bound; lia). lia.
Qed.

Definition room_of (text : list Z) : Z :=
  let decode_sz := i32 ((Zlen text + 3) / 4 * 3) in if bool_decide (SMALL_CHUNK < decode_sz) then decode_sz else SMALL_CHUNK.
Lemma room_ok text : Zlen text ≤ INT_MAX → (Zlen text + 3) / 4 * 3 ≤ room_of text.
Proof.
  intros Hmax. unfold room_of. pose proof (Zlen_nonneg text). unfold INT_MAX in *.
  assert (0 ≤ (Zlen text + 3) / 4 * 3 < 2 ^ 31) as Hr.
  { pose proof (Z.div_mod (Zlen text + 3) 4 ltac:(done)). pose proof (Z.mod_pos_bound (Zlen text + 3) 4 ltac:(done)). lia. }
  rewrite i32_small by lia. case_bool_decide; lia.
Qed.

Lemma decode_total text : Zlen text ≤ INT_MAX → lb64decode text = b64_invalid ∨ ∃ bs, lb64decode text = LRet bs.
Proof.
  intros Hmax. unfold lb64decode. fold (room_of text). pose proof (Zlen_nonneg text).
  apply (loop_total text (room_of text) Hmax (room_ok text Hmax) _ 0 [] 0); [lia|unfold Zlen; lia|lia|done].
Qed.

(** ** Digits *)
Lemma index_digit d : 0 ≤ d < 64 → b64index (at_idx encoding d) = d.
Proof.
  intros Hd. assert (forallb (λ n, b64index (at_idx encoding (Z.of_nat n)) =? Z.of_nat n) (seq 0 64) = true) as H
    by (vm_compute; reflexivity).
  rewrite forallb_forall in H. specialize (H (Z.to_nat d) ltac:(apply in_seq; lia)).
  rewrite Z2Nat.id in H by lia. by apply Z.eqb_eq.
Qed.

Definition digits3 (a b c : Z) : list Z :=
  let v := Z.shiftl a 16 .| Z.shiftl b 8 .| c in
  [at_idx encoding (v >> 18); at_idx encoding ((v >> 12) .& 0x3f); at_idx encoding ((v >> 6) .& 0x3f);
   at_idx encoding (v .& 0x3f)].

Lemma six_bits v k : 0 ≤ k → (v >> k) .& 0x3f = v / 2 ^ k mod 64.
Proof. intros. change 0x3f with (2 ^ 6 - 1). rewrite land_mask by done. by rewrite Z.shiftr_div_pow2. Qed.

Lemma three_value a b c : byte a → byte b → byte c →
  let v := a * 65536 + b * 256 + c in
  digits3 a b c = at_idx encoding <$> [v / 262144; v / 4096 mod 64; v / 64 mod 64; v mod 64].
Proof.
  intros Ha Hb Hc v. unfold digits3. assert (Z.shiftl a 16 .| Z.shiftl b 8 .| c = v) as ->.
  { unfold byte in *. rewrite <- Z.lor_assoc, (lor_shift b c 8), (lor_shift a _ 16) by lia. unfold v. lia. }
  cbv zeta. rewrite !six_bits by done. change 0x3f with (2 ^ 6 - 1). rewrite land_mask by done.
  rewrite Z.shiftr_div_pow2 by done. reflexivity.
Qed.

(** the bytes of four digits that came from three *)
Lemma quad_value v : 0 ≤ v < 2 ^ 24 →
  ((v / 262144) << 18) .| Z.shiftl (v / 4096 mod 64) 12 .| Z.shiftl (v / 64 mod 64) 6 .| v mod 64 = v.
Proof.
  intros Hv. pose proof (Z.mod_pos_bound (v / 4096) 64 ltac:(done)). pose proof (Z.mod_pos_bound (v / 64) 64 ltac:(done)).
  pose proof (Z.mod_pos_bound v 64 ltac:(done)).
  assert (0 ≤ v / 262144 < 64) by (split; [apply Z.div_pos; lia|apply Z.div_lt_upper_bound; lia]).
  rewrite (shl32_byte (v / 262144) 18) by lia. rewrite <- !Z.lor_assoc.
  rewrite (lor_shift (v / 64 mod 64) _ 6), (lor_shift (v / 4096 mod 64) _ 12), (lor_shift (v / 262144) _ 18) by lia.
  clear -Hv. Z.to_euclidean_division_equations. lia.
Qed.

Lemma three_bytes a b c : byte a → byte b → byte c → let v := a * 65536 + b * 256 + c in
  b64_bytes [v / 262144; v / 4096 mod 64; v / 64 mod 64; v mod 64] 0 = LRet [a; b; c].
Proof.
  intros Ha Hb Hc v. unfold byte in *. assert (0 ≤ v < 2 ^ 24) as Hv by (unfold v; lia).
  assert (v / 65536 = a ∧ v / 256 mod 256 = b ∧ v mod 256 = c) as (Ea & Eb & Ec).
  { unfold v. clear -Ha Hb Hc. Z.to_euclidean_division_equations. lia. }
  clearbody v. unfold b64_bytes. rewrite bool_decide_eq_true_2 by done. rewrite quad_value by done. cbv zeta.
  rewrite byte_at, byte_low by done. rewrite Z.shiftr_div_pow2 by done. change (2 ^ 16) with 65536. change (2 ^ 8) with 256.
  rewrite Ea, Eb, Ec. unfold u8. by rewrite Z.mod_small by lia.
Qed.

(** the decoder on the tail of two bytes, and of one *)
Definition digits2 (a b : Z) : list Z :=
  let v := Z.shiftl a 8 .| b in
  [at_idx encoding (v >> 10); at_idx encoding ((v >> 4) .& 0x3f); at_idx encoding (Z.shiftl (v .& 0xf) 2); 61].
Definition digits1 (v : Z) : list Z := [at_idx encoding (v >> 2); at_idx encoding (Z.shiftl (v .& 3) 4); 61; 61].

Lemma four_bits v : v .& 0xf = v mod 16.
Proof. change 0xf with (2 ^ 4 - 1). by rewrite land_mask. Qed.
Lemma two_bits v : v .& 3 = v mod 4.
Proof. change 3 with (2 ^ 2 - 1). by rewrite land_mask. Qed.

Lemma two_value a b : byte a → byte b → let v := a * 256 + b in
  digits2 a b = (at_idx encoding <$> [v / 1024; v / 16 mod 64; v mod 16 * 4]) ++ [61].
Proof.
  intros Ha Hb v. unfold digits2, byte in *. rewrite (lor_shift a b 8) by lia. change (a * 2 ^ 8 + b) with v. cbv zeta.
  rewrite six_bits, four_bits, Z.shiftl_mul_pow2, Z.shiftr_div_pow2 by done. reflexivity.
Qed.

Lemma two_bytes a b : byte a → byte b → let v := a * 256 + b in
  b64_bytes [v / 1024; v / 16 mod 64; v mod 16 * 4; -2] 1 = LRet [a; b].
Proof.
  intros Ha Hb v. unfold byte in *. assert (0 ≤ v < 2 ^ 16) as Hv by (unfold v; lia).
  assert (v / 256 = a ∧ v mod 256 = b) as (Ea & Eb).
  { unfold v. clear -Ha Hb. Z.to_euclidean_division_equations. lia. }
  clearbody v. unfold b64_bytes. rewrite bool_decide_eq_false_2, bool_decide_eq_true_2 by done.
  rewrite (bool_decide_eq_false_2 (_ ∨ _)).
  2:{ intros [?|Hn]; [done|]. apply Hn. rewrite two_bits. clear. Z.to_euclidean_division_equations. lia. }
  assert (((v / 1024) << 10) .| Z.shiftl (v / 16 mod 64) 4 .| ((v mod 16 * 4) >> 2) = v) as ->.
  { pose proof (Z.mod_pos_bound (v / 16) 64 ltac:(done)). pose proof (Z.mod_pos_bound v 16 ltac:(done)).
    assert (0 ≤ v / 1024 < 64) by (split; [apply Z.div_pos; lia|apply Z.div_lt_upper_bound; lia]).
    rewrite shl32_byte by lia. rewrite <- Z.lor_assoc, Z.shiftr_div_pow2 by done. change (2 ^ 2) with 4.
    rewrite Z.div_mul by done. rewrite (lor_shift (v / 16 mod 64) _ 4), (lor_shift (v / 1024) _ 10) by lia.
    clear -Hv. Z.to_euclidean_division_equations. lia. }
  cbv zeta. rewrite byte_low, Z.shiftr_div_pow2 by done. change (2 ^ 8) with 256. rewrite Ea, Eb. unfold u8.
  by rewrite Z.mod_small by lia.
Qed.

Lemma one_byte v : byte v → digits1 v = (at_idx encoding <$> [v / 4; v mod 4 * 16]) ++ [61; 61] ∧
  b64_bytes [v / 4; v mod 4 * 16; -2; -2] 2 = LRet [v].
Proof.
  intros Hv. unfold digits1. rewrite two_bits, Z.shiftr_div_pow2, Z.shiftl_mul_pow2 by done. split; [done|].
  unfold byte in Hv. unfold b64_bytes. rewrite !bool_decide_eq_false_2 by done. rewrite bool_decide_eq_true_2 by done.
  rewrite (bool_decide_eq_false_2 (_ ∨ _)).
  2:{ intros [?|[?|Hn]]; [done|done|]. apply Hn. rewrite four_bits. clear. Z.to_euclidean_division_equations. lia. }
  pose proof (Z.mod_pos_bound v 4 ltac:(done)).
  rewrite shl32_byte by (first [split; [apply Z.div_pos; lia|apply Z.div_lt_upper_bound; lia] | done]).
  rewrite Z.shiftr_div_pow2 by done. change (2 ^ 4) with 16. rewrite Z.div_mul by done. rewrite (lor_shift (v / 4) _ 2) by lia.
  cbv zeta. do 2 f_equal. unfold u8. clear -Hv. Z.to_euclidean_division_equations. lia.
Qed.

(** ** The encoder, group by group *)
Fixpoint b64_text (text : list Z) : list Z :=
  match text with
  | a :: b :: c :: text => digits3 a b c ++ b64_text text
  | [a; b] => digits2 a b
  | [a] => digits1 a
  | [] => []
  end.

(** induction by groups of three *)
Lemma by_threes (Q : list Z → Prop) : Q [] → (∀ a, Q [a]) → (∀ a b, Q [a; b]) →
  (∀ a b c l, Q l → Q (a :: b :: c :: l)) → ∀ l, Q l.
Proof.
  intros H0 H1 H2 H3. fix IH 1. intros [|a [|b [|c l]]]; [done|done|done|]. apply H3, IH.
Qed.

Lemma get_middle (pre post : list Z) x : get_idx (pre ++ x :: post) (Zlen pre) = Ret x.
Proof.
  apply get_idx_Ret. split; [apply Zlen_nonneg|]. unfold Zlen. rewrite Nat2Z.id. by rewrite list_lookup_middle.
Qed.
Lemma get_middle1 (pre post : list Z) x y : get_idx (pre ++ x :: y :: post) (Zlen pre + 1) = Ret y.
Proof.
  replace (Zlen pre + 1) with (Zlen (pre ++ [x])) by (rewrite Zlen_app; done).
  replace (pre ++ x :: y :: post) with ((pre ++ [x]) ++ y :: post) by (by rewrite <- app_assoc). apply get_middle.
Qed.
Lemma get_middle2 (pre post : list Z) x y z : get_idx (pre ++ x :: y :: z :: post) (Zlen pre + 2) = Ret z.
Proof.
  replace (Zlen pre + 2) with (Zlen (pre ++ [x; y])) by (rewrite Zlen_app; done).
  replace (pre ++ x :: y :: z :: post) with ((pre ++ [x; y]) ++ z :: post) by (by rewrite <- app_assoc). apply get_middle.
Qed.

Lemma three_step pre a b c post buffer :
  b64_three (pre ++ a :: b :: c :: post) (Zlen pre) buffer = LRet (buffer ++ digits3 a b c).
Proof. unfold b64_three. by rewrite get_middle, get_middle1, get_middle2. Qed.

(** the loop leaves less than three bytes, for the tail *)
Lemma encode_loop text : Zlen text ≤ INT_MAX → ∀ rest fuel pre buffer, text = pre ++ rest → (length rest ≤ fuel)%nat →
  ∃ i buffer' tail, 0 ≤ i ≤ Zlen text ∧ count_loop 3 (Zlen text - 2) (b64_three text) fuel (Zlen pre) buffer = LRet (i, buffer') ∧
    b64_tail text i (Zlen text - i) = Ret tail ∧ buffer' ++ tail = buffer ++ b64_text rest.
Proof.
  intros Hmax rest. induction rest as [|a|a b|a b c rest IH] using by_threes; intros fuel pre buffer -> Hf;
    repeat first [rewrite Zlen_app in * | rewrite Zlen_cons in * | rewrite (@Zlen_nil Z) in *]; pose proof (Zlen_nonneg pre).
  1-3: exists (Zlen pre), buffer; eexists; split; [lia|split];
    [by destruct fuel; cbn [count_loop]; rewrite bool_decide_eq_false_2 by lia|]; unfold b64_tail.
  - rewrite !bool_decide_eq_false_2 by lia. done.
  - rewrite bool_decide_eq_true_2 by lia. rewrite get_middle. done.
  - rewrite bool_decide_eq_false_2, bool_decide_eq_true_2 by lia. rewrite get_middle, get_middle1. done.
  - destruct fuel as [|fuel]; [cbn [length] in Hf; lia|]. pose proof (Zlen_nonneg rest).
    assert (Zlen pre + 3 = Zlen (pre ++ [a; b; c])) as E by (rewrite Zlen_app; done).
    cbn [count_loop]. rewrite bool_decide_eq_true_2 by lia. rewrite three_step, LRet_bind.
    rewrite chk_int_ok by (unfold INT_MAX in *; lia). cbn [lift]. rewrite LRet_bind, E.
    destruct (IH fuel (pre ++ [a; b; c]) (buffer ++ digits3 a b c)) as (i & buffer' & tail & Hi & H1 & H2 & H3);
      [by rewrite <- app_assoc|cbn [length] in Hf; lia|]. 
    exists i, buffer', tail. split; [lia|]. split; [exact H1|]. split; [exact H2|]. rewrite H3. cbn [b64_text]. by rewrite <- app_assoc.
Qed.

Lemma b64_text_length text : Zlen (b64_text text) = (Zlen text + 2) / 3 * 4.
Proof.
  induction text as [|a|a b|a b c text IH] using by_threes; try done.
  cbn [b64_text]. rewrite Zlen_app, IH, !Zlen_cons. change (Zlen (digits3 a b c)) with 4.
  clear. pose proof (Zlen_nonneg text). Z.to_euclidean_division_equations. lia.
Qed.

Lemma encode_ok text : Zlen (b64_text text) ≤ INT_MAX → lb64encode text = LRet (b64_text text).
Proof.
  intros Hmax. rewrite b64_text_length in Hmax. pose proof (Zlen_nonneg text).
  assert (Zlen text ≤ INT_MAX) by (revert Hmax; unfold INT_MAX; clear -H; Z.to_euclidean_division_equations; lia).
  unfold lb64encode. cbv zeta. assert (0 ≤ (Zlen text + 2) / 3 * 4) by (apply Z.mul_nonneg_nonneg; [apply Z.div_pos; lia|done]).
  unfold INT_MAX in *. rewrite !i32_small by lia. rewrite chk_int_ok by (unfold INT_MAX; lia). cbn [lift]. rewrite LRet_bind.
  destruct (encode_loop text ltac:(unfold INT_MAX; lia) text (length text) [] [] eq_refl ltac:(lia))
    as (i & buffer' & tail & Hi & E1 & E2 & E3).
  rewrite Zlen_nil in E1. rewrite E1, LRet_bind, i32_small, E2 by lia. cbn [lift]. rewrite LRet_bind, E3.
  apply push_all. by rewrite b64_text_length.
Qed.

(** ** The decoder on what the encoder made *)
Lemma quad_digits ds : ∀ fuel pre post c padding, Zlen c + Zlen ds = 4 → Forall (λ d, b64index d ≠ -1) ds →
  (length ds ≤ fuel)%nat → Zlen (pre ++ ds ++ post) ≤ INT_MAX →
  b64_quad fuel (pre ++ ds ++ post) (Zlen pre) c padding =
    LRet (Zlen pre + Zlen ds, c ++ (b64index <$> ds), padding + Zlen (filter (λ d, b64index d = -2) ds)).
Proof.
  induction ds as [|d ds IH]; intros fuel pre post c padding Hc Hd Hf Hmax.
  - rewrite Zlen_nil in Hc. rewrite fmap_nil, filter_nil, app_nil_r, Zlen_nil, !Z.add_0_r.
    destruct fuel; cbn [b64_quad]; by rewrite bool_decide_eq_true_2 by lia.
  - apply Forall_cons in Hd as [Hd Hds]. rewrite Zlen_cons in Hc. destruct fuel as [|fuel]; [cbn [length] in Hf; lia|].
    pose proof (Zlen_nonneg ds). pose proof (Zlen_nonneg post). pose proof (Zlen_nonneg pre). cbn [app] in *.
    pose proof Hmax as Hmax'. rewrite Zlen_app, Zlen_cons, Zlen_app in Hmax'. cbn [b64_quad].
    rewrite bool_decide_eq_false_2 by lia. rewrite bool_decide_eq_false_2 by (rewrite Zlen_app, Zlen_cons, Zlen_app; lia).
    rewrite get_middle. cbn [lift]. rewrite LRet_bind, chk_int_ok by lia. cbn [lift]. rewrite LRet_bind.
    rewrite bool_decide_eq_false_2 by done.
    replace (pre ++ d :: ds ++ post) with ((pre ++ [d]) ++ ds ++ post) in * by (by rewrite <- app_assoc).
    replace (Zlen pre + 1) with (Zlen (pre ++ [d])) by (rewrite Zlen_app; done).
    rewrite (IH fuel (pre ++ [d]) post);
      [|rewrite Zlen_app, Zlen_cons, Zlen_nil; lia|done|cbn [length] in Hf; lia|done].
    rewrite fmap_cons, filter_cons, Zlen_app, !Zlen_cons, (@Zlen_nil Z), <- app_assoc. cbn [app].
    repeat case_decide; case_bool_decide; try done; rewrite ?Zlen_cons; apply (f_equal LRet); repeat apply (f_equal2 pair);
      try done; lia.
Qed.

Lemma loop_group ds bs c padding pre post room fuel buffer : Zlen ds = 4 → Forall (λ d, b64index d ≠ -1) ds →
  b64index <$> ds = c → Zlen (filter (λ d, b64index d = -2) ds) = padding → b64_bytes c padding = LRet bs →
  Zlen (pre ++ ds ++ post) ≤ INT_MAX → Zlen (buffer ++ bs) ≤ room →
  b64_loop (S fuel) (pre ++ ds ++ post) room (Zlen pre) buffer =
    b64_loop fuel ((pre ++ ds) ++ post) room (Zlen (pre ++ ds)) (buffer ++ bs).
Proof.
  intros Hl Hd <- <- Hb Hmax Hroom. pose proof (Zlen_nonneg post). pose proof (Zlen_nonneg pre).
  cbn [b64_loop]. rewrite bool_decide_eq_true_2 by (rewrite !Zlen_app; lia).
  rewrite quad_digits; [|by rewrite Zlen_nil|done|rewrite !length_app; lia|done]. rewrite LRet_bind.
  rewrite Z.add_0_l, app_nil_l, Hb, LRet_bind. rewrite bool_decide_eq_false_2 by lia.
  by rewrite <- app_assoc, Zlen_app.
Qed.


Lemma digit_ok d : 0 ≤ d < 64 → b64index (at_idx encoding d) ≠ -1 ∧ b64index (at_idx encoding d) ≠ -2.
Proof. intros. rewrite index_digit by done. lia. Qed.

Lemma digits_ok l : Forall (λ d, 0 ≤ d < 64) l →
  Forall (λ d, b64index d ≠ -1) (at_idx encoding <$> l) ∧ b64index <$> (at_idx encoding <$> l) = l ∧
  filter (λ d, b64index d = -2) (at_idx encoding <$> l) = [].
Proof.
  induction 1 as [|d l Hd _ (IH1 & IH2 & IH3)]; [done|]. destruct (digit_ok d Hd) as [H1 H2]. rewrite !fmap_cons.
  split; [by constructor|]. rewrite index_digit, IH2 by done. split; [done|]. by rewrite filter_cons_False.
Qed.

(** the four digits of a group, with its padding, give the group back *)
Lemma group_ok l n bs : Forall (λ d, 0 ≤ d < 64) l → (length l + n = 4)%nat → b64_bytes (l ++ replicate n (-2)) (Z.of_nat n) = LRet bs →
  let ds := (at_idx encoding <$> l) ++ replicate n 61 in
  ∀ pre post room fuel buffer, Zlen (pre ++ ds ++ post) ≤ INT_MAX → Zlen (buffer ++ bs) ≤ room →
  b64_loop (S fuel) (pre ++ ds ++ post) room (Zlen pre) buffer =
    b64_loop fuel ((pre ++ ds) ++ post) room (Zlen (pre ++ ds)) (buffer ++ bs).
Proof.
  intros Hl Hn Hb ds pre post room fuel buffer. destruct (digits_ok l Hl) as (H1 & H2 & H3).
  assert (b64index <$> replicate n 61 = replicate n (-2)) as Hr by (by rewrite fmap_replicate).
  assert (filter (λ d, b64index d = -2) (replicate n 61) = replicate n 61) as Hp.
  { clear. induction n as [|n IH]; [done|]. cbn [replicate]. rewrite filter_cons_True by done. by rewrite IH. }
  apply (loop_group ds bs (l ++ replicate n (-2)) (Z.of_nat n)).
  - unfold ds, Zlen. rewrite length_app, length_fmap, length_replicate. lia.
  - apply Forall_app. split; [done|]. by apply Forall_replicate.
  - unfold ds. by rewrite fmap_app, H2, Hr.
  - unfold ds. rewrite filter_app, H3, Hp. unfold Zlen. by rewrite length_app, length_replicate.
  - done.
Qed.

Lemma decode_loop room : ∀ rest fuel pre buffer, Forall byte rest → (length (b64_text rest) ≤ fuel)%nat →
  Zlen (pre ++ b64_text rest) ≤ INT_MAX → Zlen buffer + Zlen rest ≤ room →
  b64_loop fuel (pre ++ b64_text rest) room (Zlen pre) buffer = LRet (buffer ++ rest).
Proof.
  assert (∀ fuel pre buffer, b64_loop fuel (pre ++ []) room (Zlen pre) buffer = LRet buffer) as Hend.
  { intros fuel pre buffer. destruct fuel; cbn [b64_loop]; by rewrite app_nil_r, bool_decide_eq_false_2 by lia. }
  induction rest as [|a|a b|a b c rest IH] using by_threes; intros fuel pre buffer Hb Hf Hmax Hroom.
  - rewrite (app_nil_r buffer). apply Hend.
  - destruct fuel as [|fuel]; [cbn in Hf; lia|]. apply Forall_cons in Hb as [Hb _]. destruct (one_byte a Hb) as [E B].
    cbn [b64_text] in *. rewrite E in *. rewrite <- (app_nil_r (_ ++ [61; 61])) in *.
    unfold byte in Hb. rewrite (group_ok [a / 4; a mod 4 * 16] 2 [a]); [apply Hend| |done|exact B|exact Hmax|by rewrite Zlen_app].
    repeat constructor; clear -Hb; Z.to_euclidean_division_equations; lia.
  - destruct fuel as [|fuel]; [cbn in Hf; lia|]. apply Forall_cons in Hb as [Ha Hb]. apply Forall_cons in Hb as [Hb _].
    cbn [b64_text] in *. rewrite two_value in * by done. rewrite <- (app_nil_r (_ ++ [61])) in *.
    pose proof (two_bytes a b Ha Hb) as B. unfold byte in *. set (v := a * 256 + b) in *.
    assert (0 ≤ v < 65536) as Hv by lia.
    rewrite (group_ok [v / 1024; v / 16 mod 64; v mod 16 * 4] 1 [a; b]); [apply Hend| |done|exact B|exact Hmax|by rewrite Zlen_app].
    repeat constructor; clear -Hv; Z.to_euclidean_division_equations; lia.
  - destruct fuel as [|fuel]; [cbn in Hf; lia|]. apply Forall_cons in Hb as [Ha Hb]. apply Forall_cons in Hb as [Hb Hc].
    apply Forall_cons in Hc as [Hc Hrest]. pose proof (three_bytes a b c Ha Hb Hc) as B.
    cbn [b64_text] in *. rewrite three_value in * by done. unfold byte in Ha, Hb, Hc. set (v := a * 65536 + b * 256 + c) in *.
    assert (0 ≤ v < 16777216) as Hv by lia. rewrite <- (app_nil_r (at_idx encoding <$> _)) in *. pose proof (Zlen_nonneg rest).
    rewrite !Zlen_cons in Hroom.
    rewrite (group_ok [v / 262144; v / 4096 mod 64; v / 64 mod 64; v mod 64] 0 [a; b; c]);
      [| |done|exact B|exact Hmax|rewrite Zlen_app; change (Zlen [a; b; c]) with 3; lia].
    + rewrite IH; [by rewrite <- app_assoc|done|rewrite length_app in Hf; cbn in Hf; lia|by rewrite <- app_assoc|].
      rewrite Zlen_app. change (Zlen [a; b; c]) with 3. lia.
    + repeat constructor; clear -Hv; Z.to_euclidean_division_equations; lia.
Qed.

(** Every text is answered, within the decoder's buffer and without
    undefined behaviour, by an error or by bytes; and for every string of
    bytes whose encoding has at most [INT_MAX] bytes, the encoder gives four
    digits for three bytes and the decoder gives the string back. *)
Theorem b64_roundtrip text : Forall byte text → Zlen (b64_text text) ≤ INT_MAX →
  lb64encode text = LRet (b64_text text) ∧ Zlen (b64_text text) = (Zlen text + 2) / 3 * 4 ∧
  lb64decode (b64_text text) = LRet text ∧
  (∀ other, Zlen other ≤ INT_MAX → lb64decode other = b64_invalid ∨ ∃ bytes, lb64decode other = LRet bytes).
Proof.
  intros Hb Hmax. split; [by apply encode_ok|]. split; [apply b64_text_length|]. split; [|apply decode_total].
  unfold lb64decode. fold (room_of (b64_text text)). apply (decode_loop _ text _ [] []); [done|done|done|].
  pose proof (room_ok _ Hmax) as Hr. rewrite b64_text_length in *. rewrite Zlen_nil. revert Hr. clear.
  Z.to_euclidean_division_equations. lia.
Qed.
