(* ===== verification/Sha1.v ===== *)
(** * SHA-1 and HMAC of lualib-src/lsha1.c

    The transform on a block with its circular buffer of 16 words and its
    unrolled calls, the context that takes bytes in pieces, and the two Lua
    functions. Words are 32-bit, the machine is little-endian. *)
From S2P Require Import Prelude Bytes Bits.
#[local] Open Scope Z_scope.
#[local] Open Scope bits_scope.

Definition SHA1_DIGEST_SIZE : Z := 20.
Definition BLOCKSIZE : Z := 64.

Record SHA1_CTX := { state : list Z; count0 : Z; count1 : Z; buffer : list Z }.

Definition rol (value bits : Z) : Z := (value << bits) .| (value >> (32 - bits)).

(** ** The rounds: the working variables and the words of the block *)
Record work := Work { vars : list Z; block : list Z }.
Definition val (s : work) (v : Z) : Z := at_idx (vars s) v.
Definition set_var (v x : Z) (s : work) : work := Work (<[Z.to_nat v := x]> (vars s)) (block s).
Definition set_block (i x : Z) (s : work) : work := Work (vars s) (<[Z.to_nat i := x]> (block s)).

Definition blk0 (i : Z) (s : work) : Z * work :=
  let l := at_idx (block s) i in
  let r := (rol l 24 .& 0xFF00FF00) .| (rol l 8 .& 0x00FF00FF) in (r, set_block i r s).
Definition blk (i : Z) (s : work) : Z * work :=
  let l := at_idx (block s) in
  let r := rol (l ((i + 13) .& 15) .^ l ((i + 8) .& 15) .^ l ((i + 2) .& 15) .^ l (i .& 15)) 1 in
  (r, set_block (i .& 15) r s).

Definition R0 (v w x y z i : Z) (s : work) : work :=
  let '(b, t) := blk0 i s in
  let t := set_var z (u32 (val s z + (((val s w .& (val s x .^ val s y)) .^ val s y) + b + 0x5A827999 + rol (val s v) 5))) t in
  set_var w (rol (val s w) 30) t.
Definition R1 (v w x y z i : Z) (s : work) : work :=
  let '(b, t) := blk i s in
  let t := set_var z (u32 (val s z + (((val s w .& (val s x .^ val s y)) .^ val s y) + b + 0x5A827999 + rol (val s v) 5))) t in
  set_var w (rol (val s w) 30) t.
Definition R2 (v w x y z i : Z) (s : work) : work :=
  let '(b, t) := blk i s in
  let t := set_var z (u32 (val s z + ((val s w .^ val s x .^ val s y) + b + 0x6ED9EBA1 + rol (val s v) 5))) t in
  set_var w (rol (val s w) 30) t.
Definition R3 (v w x y z i : Z) (s : work) : work :=
  let '(b, t) := blk i s in
  let t := set_var z (u32 (val s z + ((((val s w .| val s x) .& val s y) .| (val s w .& val s x)) + b + 0x8F1BBCDC +
                                      rol (val s v) 5))) t in
  set_var w (rol (val s w) 30) t.
Definition R4 (v w x y z i : Z) (s : work) : work :=
  let '(b, t) := blk i s in
  let t := set_var z (u32 (val s z + ((val s w .^ val s x .^ val s y) + b + 0xCA62C1D6 + rol (val s v) 5))) t in
  set_var w (rol (val s w) 30) t.

(** the working variables a to e *)
Definition va : Z := 0.
Definition vb : Z := 1.
Definition vc : Z := 2.
Definition vd : Z := 3.
Definition ve : Z := 4.

Definition rounds : list (work → work) :=
  [R0 va vb vc vd ve 0; R0 ve va vb vc vd 1; R0 vd ve va vb vc 2; R0 vc vd ve va vb 3;
   R0 vb vc vd ve va 4; R0 va vb vc vd ve 5; R0 ve va vb vc vd 6; R0 vd ve va vb vc 7;
   R0 vc vd ve va vb 8; R0 vb vc vd ve va 9; R0 va vb vc vd ve 10; R0 ve va vb vc vd 11;
   R0 vd ve va vb vc 12; R0 vc vd ve va vb 13; R0 vb vc vd ve va 14; R0 va vb vc vd ve 15;
   R1 ve va vb vc vd 16; R1 vd ve va vb vc 17; R1 vc vd ve va vb 18; R1 vb vc vd ve va 19;
   R2 va vb vc vd ve 20; R2 ve va vb vc vd 21; R2 vd ve va vb vc 22; R2 vc vd ve va vb 23;
   R2 vb vc vd ve va 24; R2 va vb vc vd ve 25; R2 ve va vb vc vd 26; R2 vd ve va vb vc 27;
   R2 vc vd ve va vb 28; R2 vb vc vd ve va 29; R2 va vb vc vd ve 30; R2 ve va vb vc vd 31;
   R2 vd ve va vb vc 32; R2 vc vd ve va vb 33; R2 vb vc vd ve va 34; R2 va vb vc vd ve 35;
   R2 ve va vb vc vd 36; R2 vd ve va vb vc 37; R2 vc vd ve va vb 38; R2 vb vc vd ve va 39;
   R3 va vb vc vd ve 40; R3 ve va vb vc vd 41; R3 vd ve va vb vc 42; R3 vc vd ve va vb 43;
   R3 vb vc vd ve va 44; R3 va vb vc vd ve 45; R3 ve va vb vc vd 46; R3 vd ve va vb vc 47;
   R3 vc vd ve va vb 48; R3 vb vc vd ve va 49; R3 va vb vc vd ve 50; R3 ve va vb vc vd 51;
   R3 vd ve va vb vc 52; R3 vc vd ve va vb 53; R3 vb vc vd ve va 54; R3 va vb vc vd ve 55;
   R3 ve va vb vc vd 56; R3 vd ve va vb vc 57; R3 vc vd ve va vb 58; R3 vb vc vd ve va 59;
   R4 va vb vc vd ve 60; R4 ve va vb vc vd 61; R4 vd ve va vb vc 62; R4 vc vd ve va vb 63;
   R4 vb vc vd ve va 64; R4 va vb vc vd ve 65; R4 ve va vb vc vd 66; R4 vd ve va vb vc 67;
   R4 vc vd ve va vb 68; R4 vb vc vd ve va 69; R4 va vb vc vd ve 70; R4 ve va vb vc vd 71;
   R4 vd ve va vb vc 72; R4 vc vd ve va vb 73; R4 vb vc vd ve va 74; R4 va vb vc vd ve 75;
   R4 ve va vb vc vd 76; R4 vd ve va vb vc 77; R4 vc vd ve va vb 78; R4 vb vc vd ve va 79].

(** the words of 64 bytes of memory *)
Definition block_words (bytes : list Z) : list Z :=
  (λ k, le_value (take 4 (drop (4 * k) bytes))) <$> seq 0 16.
Definition SHA1_Transform (state bytes : list Z) : list Z :=
  let s := fold_left (λ s r, r s) rounds (Work state (block_words bytes)) in
  zip_with (λ x y, u32 (x + y)) state (vars s).

(** ** The context; the buffer of a new one holds what the memory held *)
Definition sat_SHA1_Init (context : SHA1_CTX) : SHA1_CTX :=
  {| state := [0x67452301; 0xEFCDAB89; 0x98BADCFE; 0x10325476; 0xC3D2E1F0]; count0 := 0; count1 := 0;
     buffer := buffer context |}.

(** [memcpy] of [bytes] to the offset [j] *)
Definition put_at (j : Z) (bytes buf : list Z) : list Z :=
  take (Z.to_nat j) buf ++ bytes ++ drop (Z.to_nat (j + Zlen bytes)) buf.
Definition part (l : list Z) (i n : Z) : list Z := take (Z.to_nat n) (drop (Z.to_nat i) l).

Fixpoint transform_loop (fuel : nat) (data : list Z) (i : Z) (state : list Z) : Z * list Z :=
  match fuel with
  | O => (i, state)
  | S fuel =>
      if bool_decide (i + 63 < Zlen data) then transform_loop fuel data (i + 64) (SHA1_Transform state (part data i 64))
      else (i, state)
  end.

Definition sat_SHA1_Update (context : SHA1_CTX) (data : list Z) : SHA1_CTX :=
  let len := Zlen data in
  let j := (count0 context >> 3) .& 63 in
  let bits := u64 (Z.shiftl len 3) in
  let c0 := u32 (count0 context + bits) in
  let c1 := if bool_decide (c0 < bits) then u32 (count1 context + 1) else count1 context in
  let c1 := u32 (c1 + (len >> 29)) in
  if bool_decide (63 < j + len) then
    let i := 64 - j in
    let buf := put_at j (part data 0 i) (buffer context) in
    let '(i, st) := transform_loop (List.length data) data i (SHA1_Transform (state context) buf) in
    {| state := st; count0 := c0; count1 := c1; buffer := put_at 0 (part data i (len - i)) buf |}
  else {| state := state context; count0 := c0; count1 := c1; buffer := put_at j data (buffer context) |}.

(** zeros up to 8 bytes before the end of a block: [None] when the fuel is out *)
Fixpoint pad_loop (fuel : nat) (context : SHA1_CTX) : option SHA1_CTX :=
  if bool_decide (count0 context .& 504 ≠ 448) then
    match fuel with O => None | S fuel => pad_loop fuel (sat_SHA1_Update context [0]) end
  else Some context.

Definition final_count (context : SHA1_CTX) : list Z :=
  (λ i, ((if bool_decide (4 ≤ i) then count0 context else count1 context) >> ((3 - (i .& 3)) * 8)) .& 255) <$> seqZ 0 8.
Definition digest_bytes (context : SHA1_CTX) : list Z :=
  (λ i, u8 ((at_idx (state context) (i >> 2) >> ((3 - (i .& 3)) * 8)) .& 255)) <$> seqZ 0 SHA1_DIGEST_SIZE.
Definition sat_SHA1_Final (context : SHA1_CTX) : option (list Z) :=
  let finalcount := final_count context in
  let context := sat_SHA1_Update context [0x80] in
  context ← pad_loop 64 context;
  Some (digest_bytes (sat_SHA1_Update context finalcount)).

(** ** The Lua functions; [stack] is the memory a context starts from *)
Definition lsha1 (stack : SHA1_CTX) (text : list Z) : option (list Z) :=
  sat_SHA1_Final (sat_SHA1_Update (sat_SHA1_Init stack) text).

(** the words of the key are read and written in place *)
Definition xor_key (key : list Z) (xor : Z) : list Z :=
  seq 0 16 ≫= λ k, le_bytes 4 (le_value (take 4 (drop (4 * k) key)) .^ xor).

Definition lhmac_sha1 (stack ctx1 ctx2 : SHA1_CTX) (key text : list Z) : option (list Z) :=
  let rkey := replicate (Z.to_nat BLOCKSIZE) 0 in
  rkey ← (if bool_decide (BLOCKSIZE < Zlen key) then
            digest ← sat_SHA1_Final (sat_SHA1_Update (sat_SHA1_Init stack) key); Some (put_at 0 digest rkey)
          else Some (put_at 0 key rkey));
  let rkey := xor_key rkey 0x5c5c5c5c in
  let ctx1 := sat_SHA1_Update (sat_SHA1_Init ctx1) rkey in
  let rkey := xor_key rkey (0x5c5c5c5c .^ 0x36363636) in
  let ctx2 := sat_SHA1_Update (sat_SHA1_Init ctx2) rkey in
  let ctx2 := sat_SHA1_Update ctx2 text in
  digest2 ← sat_SHA1_Final ctx2;
  sat_SHA1_Final (sat_SHA1_Update ctx1 digest2).
