(* ===== verification/Sha1Equiv.v ===== *)
(** * SHA-1 of FIPS 180-4 and HMAC of RFC 2104

    The reference the code of [Sha1] is compared with: section 5 (padding and
    parsing) and 6.1 (the computation), with the schedule of 80 words and the
    working variables as a tuple. *)
From S2P Require Import Prelude Bytes Bits Sha1.
#[local] Open Scope Z_scope.
#[local] Open Scope bits_scope.

Definition word (x : Z) : Prop := 0 ≤ x < 2 ^ 32.
Definition be_int (l : list Z) : Z := le_value (rev l).
Definition be_bytes (n : nat) (v : Z) : list Z := rev (le_bytes n v).

(** ** Functions and constants (4.1.1, 4.2.1) *)
Definition ROTL (n x : Z) : Z := (x << n) .| (x >> (32 - n)).
Definition NOT (x : Z) : Z := 0xffffffff - x.
Definition Ch (x y z : Z) : Z := (x .& y) .^ (NOT x .& z).
Definition Parity (x y z : Z) : Z := x .^ y .^ z.
Definition Maj (x y z : Z) : Z := (x .& y) .^ (x .& z) .^ (y .& z).
Definition f_of (t : Z) : Z → Z → Z → Z :=
  if bool_decide (t < 20) then Ch else if bool_decide (t < 40) then Parity else if bool_decide (t < 60) then Maj else Parity.
Definition K_of (t : Z) : Z :=
  if bool_decide (t < 20) then 0x5a827999 else if bool_decide (t < 40) then 0x6ed9eba1
  else if bool_decide (t < 60) then 0x8f1bbcdc else 0xca62c1d6.
Definition initial_hash : list Z := [0x67452301; 0xefcdab89; 0x98badcfe; 0x10325476; 0xc3d2e1f0].

(** ** The computation on a block (6.1.2) *)
Definition message_words (M : list Z) : list Z := (λ k, be_int (take 4 (drop (4 * k) M))) <$> seq 0 16.
Fixpoint schedule (n : nat) (W : list Z) : list Z :=
  match n with
  | O => W
  | S n =>
      let t := Zlen W in
      schedule n (W ++ [ROTL 1 (at_idx W (t - 3) .^ at_idx W (t - 8) .^ at_idx W (t - 14) .^ at_idx W (t - 16))])
  end.
Definition five : Type := (Z * Z * Z * Z * Z)%type.
Definition sha_step (W : list Z) (h : five) (t : nat) : five :=
  let '(a, b, c, d, e) := h in let t := Z.of_nat t in
  (u32 (ROTL 5 a + f_of t b c d + e + K_of t + at_idx W t), a, ROTL 30 b, c, d).
Definition five_list (h : five) : list Z := let '(a, b, c, d, e) := h in [a; b; c; d; e].
Definition list_five (l : list Z) : five := (at_idx l 0, at_idx l 1, at_idx l 2, at_idx l 3, at_idx l 4).
Definition compress (H M : list Z) : list Z :=
  let W := schedule 64 (message_words M) in
  zip_with (λ x y, u32 (x + y)) H (five_list (fold_left (sha_step W) (seq 0 80) (list_five H))).

(** ** The hash of a message (5.1.1, 6.1) *)
(** [l] bytes, counted as [bits] bits *)
Definition sha_padding (l bits : Z) : list Z := 0x80 :: replicate (Z.to_nat ((55 - l) mod 64)) 0 ++ be_bytes 8 bits.
(** the hash after the first [n] blocks *)
Definition chain (n : nat) (m : list Z) : list Z :=
  fold_left (λ H k, compress H (take 64 (drop (64 * k) m))) (seq 0 n) initial_hash.
(** the hash of a text whose length is written as [bits] *)
Definition counted_sha1 (text : list Z) (bits : Z) : list Z :=
  let m := text ++ sha_padding (Zlen text) bits in
  chain (length m / 64) m ≫= be_bytes 4.
Definition fips_sha1 (text : list Z) : list Z := counted_sha1 text (8 * Zlen text).

(** ** HMAC (RFC 2104) with blocks of 64 bytes *)
Definition key_block (key : list Z) : list Z :=
  let k := if bool_decide (Zlen key ≤ 64) then key else fips_sha1 key in k ++ replicate (64 - length k) 0.
Definition rfc_hmac_sha1 (key text : list Z) : list Z :=
  fips_sha1 ((Z.lxor 0x5c <$> key_block key) ++ fips_sha1 ((Z.lxor 0x36 <$> key_block key) ++ text)).

Example sha1_abc : fips_sha1 [97; 98; 99] =
  [0xa9; 0x99; 0x3e; 0x36; 0x47; 0x06; 0x81; 0x6a; 0xba; 0x3e; 0x25; 0x71; 0x78; 0x50; 0xc2; 0x6c; 0x9c; 0xd0; 0xd8; 0x9d].
Proof. vm_compute. reflexivity. Qed.

(** ** The transform is the computation of FIPS 180-4 on a block

    The circular buffer of 16 words holds the last 16 words of the schedule, the
    renamed variables of the unrolled calls are the rotated tuple. *)
(** ** Words *)
Lemma u32_word x : word (u32 x).
Proof. unfold word, u32. by apply Z.mod_pos_bound. Qed.
Lemma word_bits x n : word x → 32 ≤ n → Z.testbit x n = false.
Proof. intros Hx Hn. unfold word in Hx. rewrite <- (Z.mod_small x (2 ^ 32)) by done. apply Z.mod_pow2_bits_high. lia. Qed.
Lemma bits_word x : (∀ n, 32 ≤ n → Z.testbit x n = false) → word x.
Proof.
  intros H. assert (x = x mod 2 ^ 32) as ->; [|by apply Z.mod_pos_bound].
  apply Z.bits_inj'. intros n Hn. destruct (decide (n < 32)); [by rewrite Z.mod_pow2_bits_low by lia|].
  rewrite Z.mod_pow2_bits_high by lia. apply H. lia.
Qed.
Lemma lor_word x y : word x → word y → word (x .| y).
Proof. intros Hx Hy. apply bits_word. intros n Hn. by rewrite Z.lor_spec, !word_bits by done. Qed.
Lemma lxor_word x y : word x → word y → word (x .^ y).
Proof. intros Hx Hy. apply bits_word. intros n Hn. by rewrite Z.lxor_spec, !word_bits by done. Qed.
Lemma rol_word x n : word x → 0 ≤ n ≤ 32 → word (rol x n).
Proof.
  intros Hx Hn. apply lor_word; [apply u32_word|]. apply bits_word. intros k Hk. rewrite Z.shiftr_spec by lia.
  apply word_bits; [done|lia].
Qed.

Lemma rol_ROTL x n : rol x n = ROTL n x.
Proof. done. Qed.

Lemma NOT_bits x n : word x → 0 ≤ n < 32 → Z.testbit (NOT x) n = negb (Z.testbit x n).
Proof.
  intros Hx Hn. assert (NOT x = Z.lnot x mod 2 ^ 32) as ->.
  { rewrite <- (Z.mod_add _ 1) by done. rewrite Z.mod_small; unfold Z.lnot, NOT, word in *; lia. }
  rewrite Z.mod_pow2_bits_low, Z.lnot_spec by lia. done.
Qed.
Lemma Ch_code b c d : word b → word c → word d → (b .& (c .^ d)) .^ d = Ch b c d.
Proof.
  intros Hb Hc Hd. unfold Ch. apply Z.bits_inj'. intros n Hn.
  rewrite !Z.lxor_spec, !Z.land_spec, Z.lxor_spec. destruct (decide (n < 32)).
  - rewrite NOT_bits by (done || lia). by destruct (Z.testbit b n), (Z.testbit c n), (Z.testbit d n).
  - rewrite (word_bits c), (word_bits d) by (done || lia). by rewrite !andb_false_r.
Qed.
Lemma Maj_code b c d : ((b .| c) .& d) .| (b .& c) = Maj b c d.
Proof.
  unfold Maj. apply Z.bits_inj'. intros n Hn. rewrite !Z.lxor_spec, !Z.lor_spec, !Z.land_spec, Z.lor_spec.
  by destruct (Z.testbit b n), (Z.testbit c n), (Z.testbit d n).
Qed.

(** ** The words of a block *)
Definition swapped (l : Z) : Z := (rol l 24 .& 0xFF00FF00) .| (rol l 8 .& 0x00FF00FF).

Lemma swap_code x : word x →
  swapped x = ((x .& 0xff) << 24) .| (((x >> 8) .& 0xff) << 16) .| (((x >> 16) .& 0xff) << 8) .| ((x >> 24) .& 0xff).
Proof.
  intros Hx. assert (x .& 0xffffffff = x) as E.
  { change 0xffffffff with (2 ^ 32 - 1). rewrite land_mask by done. by apply Z.mod_small. }
  rewrite <- E. unfold swapped, rol.
  apply (linear_ext (2 ^ 64 - 1) (2 ^ 64 - 1)
    (λ x, ((((x .& 0xffffffff) << 24) .| ((x .& 0xffffffff) >> (32 - 24))) .& 0xFF00FF00) .|
          ((((x .& 0xffffffff) << 8) .| ((x .& 0xffffffff) >> (32 - 8))) .& 0x00FF00FF))
    (λ x, ((x .& 0xffffffff .& 0xff) << 24) .| ((((x .& 0xffffffff) >> 8) .& 0xff) << 16) .|
          ((((x .& 0xffffffff) >> 16) .& 0xff) << 8) .| (((x .& 0xffffffff) >> 24) .& 0xff)));
    [linear|linear|vm_compute; reflexivity|]. unfold in64, word in *. lia.
Qed.

Lemma swapped_be a b c d : byte a → byte b → byte c → byte d →
  swapped (le_value [a; b; c; d]) = be_int [a; b; c; d].
Proof.
  intros Ha Hb Hc Hd. unfold be_int. cbn [rev app le_value]. unfold byte in *.
  rewrite swap_code by (unfold word; lia). rewrite !byte_at, byte_low by done.
  set (x := a + 256 * (b + 256 * (c + 256 * (d + 256 * 0)))).
  assert (x mod 256 = a ∧ x / 2 ^ 8 mod 256 = b ∧ x / 2 ^ 16 mod 256 = c ∧ x / 2 ^ 24 mod 256 = d) as (-> & -> & -> & ->).
  { unfold x. change (2 ^ 8) with 256. change (2 ^ 16) with 65536. change (2 ^ 24) with 16777216. clear -Ha Hb Hc Hd.
    Z.to_euclidean_division_equations. lia. }
  rewrite !shl32_byte, be_value by (done || lia). lia.
Qed.

(** ** Indices *)
Lemma at_insert l i x j : 0 ≤ i < Zlen l → 0 ≤ j → at_idx (<[Z.to_nat i := x]> l) j = if decide (i = j) then x else at_idx l j.
Proof.
  unfold at_idx, Zlen. intros Hi Hj. rewrite !nth_lookup. case_decide as E.
  - subst j. by rewrite list_lookup_insert_eq by lia.
  - by rewrite list_lookup_insert_ne by lia.
Qed.
Lemma at_app l k i : 0 ≤ i < Zlen l → at_idx (l ++ k) i = at_idx l i.
Proof. unfold at_idx, Zlen. intros. apply app_nth1. lia. Qed.
Lemma at_last l x : at_idx (l ++ [x]) (Zlen l) = x.
Proof. unfold at_idx, Zlen. rewrite Nat2Z.id. by rewrite nth_middle. Qed.

(** ** The schedule *)
Lemma schedule_prefix n : ∀ W i, 0 ≤ i < Zlen W → at_idx (schedule n W) i = at_idx W i.
Proof.
  induction n as [|n IH]; intros W i Hi; [done|]. cbn [schedule]. rewrite IH by (rewrite Zlen_app; change (Zlen [_]) with 1; lia).
  by apply at_app.
Qed.
Lemma schedule_next n : ∀ W i, 16 ≤ Zlen W → Zlen W ≤ i < Zlen W + Z.of_nat n → let w := at_idx (schedule n W) in
  w i = ROTL 1 (w (i - 3) .^ w (i - 8) .^ w (i - 14) .^ w (i - 16)).
Proof.
  induction n as [|n IH]; intros W i HW Hi; [lia|]. cbn [schedule]. set (x := ROTL 1 _).
  assert (Zlen (W ++ [x]) = Zlen W + 1) as Hl by by rewrite Zlen_app.
  destruct (decide (i = Zlen W)) as [->|]; [|apply IH; lia]. cbv zeta. rewrite !schedule_prefix by lia.
  rewrite at_last, !at_app by lia. reflexivity.
Qed.

Lemma mod16 x : 0 ≤ x → x .& 15 = x mod 16.
Proof. intros. change 15 with (2 ^ 4 - 1). by rewrite land_mask. Qed.

Section transform.
Context (bytes : list Z) (Hlen : Zlen bytes = 64) (Hbytes : Forall byte bytes).
Let raw := block_words bytes.
Let W := schedule 64 (message_words bytes).

Lemma raw_word k : (k < 16)%nat → ∃ a b c d, byte a ∧ byte b ∧ byte c ∧ byte d ∧ take 4 (drop (4 * k) bytes) = [a; b; c; d].
Proof using Hlen Hbytes.
  intros Hk. assert (length (take 4 (drop (4 * k) bytes)) = 4%nat) as Hl.
  { unfold Zlen in Hlen. rewrite length_take, length_drop. lia. }
  assert (Forall byte (take 4 (drop (4 * k) bytes))) as Hb by by apply Forall_take, Forall_drop.
  destruct (take 4 _) as [|a [|b [|c [|d [|? ?]]]]]; try done. do 4 (apply Forall_cons in Hb as [? Hb]). by exists a, b, c, d.
Qed.

Lemma at_fmap {A} (f : A → Z) (l : list A) k x : l !! k = Some x → at_idx (f <$> l) (Z.of_nat k) = f x.
Proof. intros H. unfold at_idx. rewrite nth_lookup, Nat2Z.id, list_lookup_fmap, H. done. Qed.

Lemma words_of_block i : 0 ≤ i < 16 → swapped (at_idx raw i) = at_idx W i.
Proof using Hlen Hbytes.
  intros Hi. unfold W. rewrite schedule_prefix by (unfold message_words; rewrite Zlen_fmap; change (Zlen (seq 0 16)) with 16; lia).
  replace i with (Z.of_nat (Z.to_nat i)) by lia. assert (seq 0 16 !! Z.to_nat i = Some (Z.to_nat i)) as E by (apply lookup_seq; lia).
  unfold raw, block_words, message_words. rewrite !(at_fmap _ _ _ _ E).
  destruct (raw_word (Z.to_nat i)) as (a & b & c & d & Ha & Hb & Hc & Hd & ->); [lia|]. by apply swapped_be.
Qed.

(** the circular buffer before round [t] *)
Definition holds (t : Z) (l : list Z) : Prop :=
  Zlen l = 16 ∧ (∀ i, 0 ≤ i < t → t - 16 ≤ i → at_idx l (i mod 16) = at_idx W i) ∧
  (∀ i, t ≤ i < 16 → at_idx l i = at_idx raw i).

Lemma holds_next t l : 0 ≤ t → holds t l → holds (t + 1) (<[Z.to_nat (t mod 16) := at_idx W t]> l).
Proof.
  intros Ht (Hl & HW & Hr). pose proof (mod_range t 16 ltac:(done)) as Hm. split; [by rewrite Zlen_insert|].
  split; intros i Hi; [intros Hi2; pose proof (mod_range i 16 ltac:(done))|]; rewrite at_insert by lia; case_decide as E.
  - destruct (decide (i = t)) as [->|]; [done|]. exfalso. clear - E Hi Hi2 n. Z.to_euclidean_division_equations. lia.
  - apply HW; [|lia]. destruct (decide (i = t)) as [->|]; [done|lia].
  - exfalso. clear - E Hi Ht. Z.to_euclidean_division_equations. lia.
  - apply Hr. lia.
Qed.

Lemma blk0_ok t s : 0 ≤ t < 16 → holds t (block s) →
  ∃ l, blk0 t s = (at_idx W t, Work (vars s) l) ∧ holds (t + 1) l.
Proof using Hlen Hbytes.
  intros Ht H. pose proof H as (Hl & _ & Hr). unfold blk0. fold (swapped (at_idx (block s) t)).
  rewrite Hr, words_of_block by lia. eexists. split; [done|]. cbn [block].
  pose proof (holds_next t (block s) ltac:(lia) H) as Hn. rewrite (Z.mod_small t 16) in Hn by lia. exact Hn.
Qed.
Lemma blk_ok t s : 16 ≤ t < 80 → holds t (block s) →
  ∃ l, blk t s = (at_idx W t, Work (vars s) l) ∧ holds (t + 1) l.
Proof using Type.
  intros Ht H. pose proof H as (Hl & HW & _). unfold blk. rewrite !mod16 by lia.
  assert (∀ k, 3 ≤ k ≤ 16 → at_idx (block s) ((t + (16 - k)) mod 16) = at_idx W (t - k)) as E.
  { intros k Hk. rewrite <- HW by lia. f_equal. replace (t + (16 - k)) with (t - k + 1 * 16) by lia. by apply Z.mod_add. }
  pose proof (E 3 ltac:(lia)) as E3. pose proof (E 8 ltac:(lia)) as E8. pose proof (E 14 ltac:(lia)) as E14.
  pose proof (E 16 ltac:(lia)) as E16. change (16 - 3) with 13 in E3. change (16 - 8) with 8 in E8. change (16 - 14) with 2 in E14.
  change (16 - 16) with 0 in E16. rewrite Z.add_0_r in E16.
  rewrite E3, E8, E14, E16, rol_ROTL. assert (at_idx W t = ROTL 1 (at_idx W (t - 3) .^ at_idx W (t - 8) .^ at_idx W (t - 14) .^ at_idx W (t - 16))) as <-.
  { unfold W. assert (Zlen (message_words bytes) = 16) as Hm by (unfold message_words; by rewrite Zlen_fmap).
    apply schedule_next; lia. }
  eexists. split; [done|]. cbn [block]. apply holds_next; [lia|done].
Qed.
End transform.

(** ** The rounds *)
Definition round (f : Z → Z → Z → Z) (K : Z) (ex : Z → work → Z * work) (v w x y z i : Z) (s : work) : work :=
  let '(b, t) := ex i s in
  let t := set_var z (u32 (val s z + (f (val s w) (val s x) (val s y) + b + K + rol (val s v) 5))) t in
  set_var w (rol (val s w) 30) t.
Definition Ch_macro (w x y : Z) : Z := (w .& (x .^ y)) .^ y.
Definition Maj_macro (w x y : Z) : Z := ((w .| x) .& y) .| (w .& x).

Definition call (t : Z) : Z → Z → Z → Z → Z → Z → work → work :=
  if bool_decide (t < 16) then R0 else if bool_decide (t < 20) then R1 else if bool_decide (t < 40) then R2
  else if bool_decide (t < 60) then R3 else R4.
Definition renamed (r k : Z) : Z := (k + 5 - r) mod 5.
Definition round_at (t : nat) : work → work :=
  let r := Z.of_nat t mod 5 in
  call (Z.of_nat t) (renamed r 0) (renamed r 1) (renamed r 2) (renamed r 3) (renamed r 4) (Z.of_nat t).
Lemma rounds_at : rounds = round_at <$> seq 0 80.
Proof. reflexivity. Qed.

Definition f_code (t : Z) : Z → Z → Z → Z :=
  if bool_decide (t < 20) then Ch_macro else if bool_decide (t < 40) then Parity else if bool_decide (t < 60) then Maj_macro else Parity.
Lemma call_round t : call t = round (f_code t) (K_of t) (if bool_decide (t < 16) then blk0 else blk).
Proof.
  unfold call, f_code, K_of. repeat case_bool_decide; try lia; reflexivity.
Qed.
Lemma f_code_of t b c d : word b → word c → word d → f_code t b c d = f_of t b c d.
Proof.
  intros. unfold f_code, f_of. repeat case_bool_decide; try done; [by apply Ch_code|apply Maj_code].
Qed.

(** the variables after [t] rounds *)
Definition arrange (r : Z) (h : five) : list Z :=
  let '(a, b, c, d, e) := h in
  if bool_decide (r = 0) then [a; b; c; d; e] else if bool_decide (r = 1) then [b; c; d; e; a]
  else if bool_decide (r = 2) then [c; d; e; a; b] else if bool_decide (r = 3) then [d; e; a; b; c] else [e; a; b; c; d].
Definition five_words (h : five) : Prop := Forall word (five_list h).

Lemma round_arrange r f K ex i s l bt a b c d e : 0 ≤ r < 5 → vars s = arrange r (a, b, c, d, e) →
  ex i s = (bt, Work (vars s) l) →
  round f K ex (renamed r 0) (renamed r 1) (renamed r 2) (renamed r 3) (renamed r 4) i s =
    Work (arrange ((r + 1) mod 5) (u32 (e + (f b c d + bt + K + rol a 5)), a, rol b 30, c, d)) l.
Proof.
  intros Hr Hv Hex. unfold round. rewrite Hex. unfold val, set_var. cbn [vars block]. rewrite Hv.
  assert (r = 0 ∨ r = 1 ∨ r = 2 ∨ r = 3 ∨ r = 4) as [->|[->|[->|[->| ->]]]] by lia; reflexivity.
Qed.

Lemma step_words W h t : five_words h → five_words (sha_step W h t).
Proof.
  destruct h as [[[[a b] c] d] e]. unfold five_words, sha_step. cbn [five_list]. intros Hw.
  do 5 (apply Forall_cons in Hw as [? Hw]). repeat (apply Forall_cons; split); try done; first [apply u32_word|by apply rol_word].
Qed.

Lemma u32_add_comm5 e f w k a : u32 (e + (f + w + k + a)) = u32 (a + f + e + k + w).
Proof. f_equal. lia. Qed.

Section transform.
Context (bytes : list Z) (Hlen : Zlen bytes = 64) (Hbytes : Forall byte bytes).
Let W := schedule 64 (message_words bytes).

Lemma round_ok t s h : (t < 80)%nat → five_words h → vars s = arrange (Z.of_nat t mod 5) h → holds bytes (Z.of_nat t) (block s) →
  ∃ l, round_at t s = Work (arrange (Z.of_nat (S t) mod 5) (sha_step W h t)) l ∧ holds bytes (Z.of_nat (S t)) l.
Proof using Hlen Hbytes.
  intros Ht Hw Hv Hb. destruct h as [[[[a b] c] d] e]. unfold five_words in Hw. cbn [five_list] in Hw.
  do 5 (apply Forall_cons in Hw as [? Hw]).
  assert (∃ l, (if bool_decide (Z.of_nat t < 16) then blk0 else blk) (Z.of_nat t) s = (at_idx W (Z.of_nat t), Work (vars s) l) ∧
               holds bytes (Z.of_nat t + 1) l) as (l & Hex & Hl).
  { case_bool_decide; [apply blk0_ok|apply blk_ok]; (done || lia). }
  exists l. replace (Z.of_nat (S t)) with (Z.of_nat t + 1) by lia. split; [|exact Hl]. unfold round_at. rewrite call_round.
  rewrite (round_arrange _ _ _ _ _ _ _ _ a b c d e (mod_range _ 5 ltac:(done)) Hv Hex).
  rewrite Zplus_mod_idemp_l. unfold sha_step. by rewrite f_code_of, u32_add_comm5 by done.
Qed.

Lemma rounds_ok n : ∀ t s h, (t + n = 80)%nat → five_words h → vars s = arrange (Z.of_nat t mod 5) h → holds bytes (Z.of_nat t) (block s) →
  vars (fold_left (λ s r, r s) (round_at <$> seq t n) s) = five_list (fold_left (sha_step W) (seq t n) h).
Proof using Hlen Hbytes.
  induction n as [|n IH]; intros t s h Ht Hw Hv Hb.
  - cbn. rewrite Hv. assert (t = 80%nat) as -> by lia. by destruct h as [[[[? ?] ?] ?] ?].
  - cbn [seq fmap list_fmap fold_left]. destruct (round_ok t s h) as (l & -> & Hl); [lia|done..|].
    apply IH; [lia|by apply step_words|done|done].
Qed.

Lemma transform_compress H : length H = 5%nat → Forall word H → SHA1_Transform H bytes = compress H bytes.
Proof using Hlen Hbytes.
  intros Hl Hw. unfold SHA1_Transform, compress. f_equal. rewrite rounds_at. apply rounds_ok; [done| | |].
  - destruct H as [|a [|b [|c [|d [|e [|? ?]]]]]]; done.
  - destruct H as [|a [|b [|c [|d [|e [|? ?]]]]]]; done.
  - split; [cbn [block]; unfold block_words; by rewrite Zlen_fmap|]. split; [lia|done].
Qed.
End transform.

Lemma compress_words H bytes : length H = 5%nat → length (compress H bytes) = 5%nat ∧ Forall word (compress H bytes).
Proof.
  intros Hl. unfold compress. set (h := five_list _). assert (length h = 5%nat) as Hh.
  { unfold h. by destruct (fold_left _ _ _) as [[[[? ?] ?] ?] ?]. }
  split; [by rewrite length_zip_with, Hl, Hh|]. clearbody h. clear Hl Hh. revert h.
  induction H as [|x H IH]; intros [|y h]; try done. constructor; [apply u32_word|apply IH].
Qed.
