(* ===== verification/Sha1Spec.v ===== *)
(** * SHA-1 and HMAC-SHA-1 of the library are those of the standards

    A context stands for the bytes it was given: [represents]. *)
From S2P Require Import Prelude Bytes Bits Sha1 Sha1Equiv.
#[local] Open Scope Z_scope.
#[local] Open Scope bits_scope.

#[local] Opaque compress SHA1_Transform.

(** ** The chain of blocks *)
Lemma chain_S n m : chain (S n) m = compress (chain n m) (take 64 (drop (64 * n) m)).
Proof. unfold chain. by rewrite seq_S, fold_left_app. Qed.
Lemma chain_words n m : length (chain n m) = 5%nat ∧ Forall word (chain n m).
Proof.
  destruct n as [|n]; [split; [done|]; unfold chain, word; repeat constructor; done|].
  rewrite chain_S. apply compress_words. clear. induction n as [|n IH]; [done|]. rewrite chain_S. by apply compress_words.
Qed.
Lemma chain_app n m d : (64 * n ≤ length m)%nat → chain n (m ++ d) = chain n m.
Proof.
  induction n as [|n IH]; intros Hn; [done|]. rewrite !chain_S, IH by lia. apply (f_equal (compress _)).
  rewrite drop_app_le by lia. rewrite take_app_le; [done|]. rewrite length_drop. lia.
Qed.
Lemma transform_chain n m block : take 64 (drop (64 * n) m) = block → (64 * n + 64 ≤ length m)%nat → Forall byte m →
  SHA1_Transform (chain n m) block = chain (S n) m.
Proof.
  intros <- Hl Hb. rewrite chain_S. destruct (chain_words n m). apply transform_compress; [|by apply Forall_take, Forall_drop|done|done].
  unfold Zlen. rewrite length_take, length_drop. lia.
Qed.

(** ** A context and its bytes *)
(** [extra] counts the pieces of 512 MB or more whose carry was counted twice *)
Record represents (c : SHA1_CTX) (m : list Z) (extra : Z) : Prop := {
  r_bytes : Forall byte m;
  r_state : state c = chain (length m / 64) m;
  r_buffer : length (buffer c) = 64%nat;
  r_rest : take (length m mod 64) (buffer c) = drop (64 * (length m / 64)) m;
  r_count0 : count0 c = u32 (8 * Zlen m);
  r_count1 : count1 c = u32 (8 * Zlen m / 2 ^ 32 + extra)
}.

Lemma init_represents stack : length (buffer stack) = 64%nat → represents (sat_SHA1_Init stack) [] 0.
Proof. by split. Qed.

(** the two counts after an update by [Y] bits of a context of [X] bits *)
Definition counts (X extra Y : Z) : Z * Z :=
  let c0 := u32 (u32 X + Y) in
  (c0, u32 ((if bool_decide (c0 < Y) then u32 (u32 (X / 2 ^ 32 + extra) + 1) else u32 (X / 2 ^ 32 + extra)) + Y / 2 ^ 32)).
(** the carry of a piece of 2^32 bits is counted whether there is one or not *)
Definition wrong_carry (X Y : Z) : Z := if decide (2 ^ 32 ≤ Y ∧ X mod 2 ^ 32 + Y mod 2 ^ 32 < 2 ^ 32) then 1 else 0.
Lemma counts_ok X extra Y : 0 ≤ X → 0 ≤ Y → counts X extra Y = (u32 (X + Y), u32 ((X + Y) / 2 ^ 32 + (extra + wrong_carry X Y))).
Proof.
  intros HX HY. unfold counts. assert (u32 (u32 X + Y) = u32 (X + Y)) as E by (unfold u32; apply Zplus_mod_idemp_l).
  rewrite E. apply (f_equal (pair _)). set (k := if bool_decide (u32 (X + Y) < Y) then 1 else 0).
  assert ((X + Y) / 2 ^ 32 + wrong_carry X Y = X / 2 ^ 32 + k + Y / 2 ^ 32) as Ek.
  { unfold k, wrong_carry, u32. change (2 ^ 32) with 4294967296 in *. clear E k extra.
    case_decide as H; case_bool_decide as H'; revert H H'; clear -HX HY; intros H H'; Z.to_euclidean_division_equations; lia. }
  replace ((X + Y) / 2 ^ 32 + (extra + wrong_carry X Y)) with (X / 2 ^ 32 + extra + k + Y / 2 ^ 32) by lia.
  assert (∀ a b, u32 (u32 a + b) = u32 (a + b)) as Hu by (intros; apply Zplus_mod_idemp_l).
  unfold k. destruct (bool_decide _); rewrite ?Hu, <- ?Z.add_assoc, ?Hu; f_equal; lia.
Qed.

Lemma update_counts c data : let X := 8 * Zlen data in X < 2 ^ 64 →
  let c' := sat_SHA1_Update c data in
  (count0 c', count1 c') =
    let c0 := u32 (count0 c + X) in
    (c0, u32 ((if bool_decide (c0 < X) then u32 (count1 c + 1) else count1 c) + X / 2 ^ 32)).
Proof.
  intros X HX. pose proof (Zlen_nonneg data). unfold sat_SHA1_Update. cbv zeta.
  assert (u64 (Z.shiftl (Zlen data) 3) = X) as ->.
  { rewrite Z.shiftl_mul_pow2 by done. unfold u64. rewrite Z.mod_small; unfold X in *; lia. }
  assert (X / 2 ^ 32 = Zlen data >> 29) as ->.
  { rewrite Z.shiftr_div_pow2 by done. unfold X. change (2 ^ 32) with (8 * 2 ^ 29). by rewrite Z.div_mul_cancel_l. }
  case_bool_decide; [|done]. by destruct (transform_loop _ _ _ _).
Qed.

(** ** Pieces of lists *)
Lemma copy_length j bytes buf : 0 ≤ j → (Z.to_nat j + length bytes ≤ length buf)%nat → length (put_at j bytes buf) = length buf.
Proof.
  intros Hj Hl. unfold put_at. rewrite !length_app, length_take, length_drop. unfold Zlen. lia.
Qed.
Lemma copy_take j bytes buf : 0 ≤ j → (Z.to_nat j + length bytes ≤ length buf)%nat →
  take (Z.to_nat j + length bytes) (put_at j bytes buf) = take (Z.to_nat j) buf ++ bytes.
Proof.
  intros Hj Hl. unfold put_at. rewrite app_assoc. apply take_app_length'. rewrite length_app, length_take. lia.
Qed.
Lemma copy_start bytes buf : (length bytes ≤ length buf)%nat → take (length bytes) (put_at 0 bytes buf) = bytes.
Proof. intros. apply (copy_take 0); [done|]. cbn. lia. Qed.

Lemma drop_middle (m data : list Z) k i : (length m + i = k)%nat → drop k (m ++ data) = drop i data.
Proof. intros <-. rewrite drop_app_ge by lia. f_equal. lia. Qed.

(** the whole blocks of [data] from [i] on, where a block starts *)
Lemma transform_loop_ok m data : Forall byte (m ++ data) → ∀ fuel i n, 0 ≤ i ≤ Zlen data →
  Zlen data - i ≤ Z.of_nat fuel → Zlen m + i = 64 * Z.of_nat n →
  ∃ i' n', transform_loop fuel data i (chain n (m ++ data)) = (i', chain n' (m ++ data)) ∧
    0 ≤ i' ≤ Zlen data ∧ Zlen data < i' + 64 ∧ Zlen m + i' = 64 * Z.of_nat n'.
Proof.
  intros Hb. induction fuel as [|fuel IH]; intros i n Hi Hf Hn; cbn [transform_loop]; [exists i, n; by repeat split; lia|].
  case_bool_decide as Hlt; [|exists i, n; by repeat split; lia].
  rewrite (transform_chain n (m ++ data)); [apply IH; lia| | |done].
  - unfold part. rewrite (drop_middle _ _ _ (Z.to_nat i)); [done|]. unfold Zlen in *. lia.
  - rewrite length_app. unfold Zlen in *. lia.
Qed.

(** the offset in the block *)
Lemma offset_of c m e : represents c m e → (count0 c >> 3) .& 63 = Z.of_nat (length m mod 64).
Proof.
  intros H. rewrite (r_count0 _ _ _ H). change 63 with (2 ^ 6 - 1). rewrite land_mask, Z.shiftr_div_pow2 by done.
  rewrite Nat2Z.inj_mod. unfold Zlen, u32. change (2 ^ 3) with 8. change (2 ^ 6) with 64. change (2 ^ 32) with 4294967296. change (Z.of_nat 64) with 64.
  generalize (Z.of_nat (length m)). clear. intros z. Z.to_euclidean_division_equations. lia.
Qed.

Lemma update_state c m e data : represents c m e → Forall byte data →
  let c' := sat_SHA1_Update c data in let n := (length (m ++ data) / 64)%nat in
  state c' = chain n (m ++ data) ∧ length (buffer c') = 64%nat ∧
  take (length (m ++ data) mod 64) (buffer c') = drop (64 * n) (m ++ data).
Proof.
  intros H Hd. pose proof (offset_of _ _ _ H) as Hj. destruct H as [Hm Hs Hl Hr _ _].
  assert (Forall byte (m ++ data)) as Hb by (by apply Forall_app).
  unfold sat_SHA1_Update. cbv zeta. rewrite Hj. set (j := (length m mod 64)%nat) in *. set (q := (length m / 64)%nat) in *.
  assert (length m = 64 * q + j ∧ j < 64)%nat as [Em Hj64].
  { split; [apply Nat.div_mod; lia|apply Nat.mod_upper_bound; lia]. }
  assert (Zlen m = Z.of_nat (length m)) as Ezm by done. assert (Zlen data = Z.of_nat (length data)) as Ezd by done.
  case_bool_decide as Hc.
  - set (i := 64 - Z.of_nat j). set (buf := put_at (Z.of_nat j) (part data 0 i) (buffer c)).
    assert (length (part data 0 i) = 64 - j)%nat as Hsl by (unfold part; rewrite length_take, length_drop; lia).
    assert (length buf = 64)%nat as Hbl by (unfold buf; rewrite copy_length by lia; done).
    assert (buf = take 64 (drop (64 * q) (m ++ data))) as Ebuf.
    { rewrite <- (firstn_all buf), Hbl. unfold buf. replace 64%nat with (Z.to_nat (Z.of_nat j) + length (part data 0 i))%nat at 1 by lia.
      rewrite copy_take by lia. rewrite Nat2Z.id, Hr. rewrite drop_app_le by lia. rewrite take_app_ge by (rewrite length_drop; lia).
      f_equal. unfold part. cbn [Z.to_nat drop]. f_equal. rewrite length_drop. lia. }
    rewrite Hs, <- (chain_app q m data) by lia. rewrite (transform_chain q (m ++ data) buf); [|done|rewrite length_app; lia|done].
    destruct (transform_loop_ok m data Hb (length data) i (S q)) as (i' & n & -> & Hi' & Hlt & Hn); [lia..|].
    cbn [state buffer]. assert (length (m ++ data) / 64 = n)%nat as ->.
    { rewrite length_app. symmetry. apply (Nat.div_unique _ _ _ (length data - Z.to_nat i')); lia. }
    assert (length (m ++ data) mod 64 = length data - Z.to_nat i')%nat as ->.
    { rewrite length_app. symmetry. apply (Nat.mod_unique _ _ n); lia. }
    assert (part data i' (Zlen data - i') = drop (Z.to_nat i') data) as ->.
    { unfold part. apply take_ge. rewrite length_drop. lia. }
    split; [done|]. rewrite copy_length by (rewrite ?length_drop; lia). split; [done|].
    rewrite (drop_middle _ _ _ (Z.to_nat i')) by lia. rewrite <- (length_drop data). apply copy_start. rewrite length_drop. lia.
  - cbn [state buffer]. assert (length (m ++ data) / 64 = q)%nat as ->.
    { rewrite length_app. symmetry. apply (Nat.div_unique _ _ _ (j + length data)); lia. }
    assert (length (m ++ data) mod 64 = j + length data)%nat as ->.
    { rewrite length_app. symmetry. apply (Nat.mod_unique _ _ q); lia. }
    rewrite chain_app by lia. split; [done|]. rewrite copy_length by lia. split; [done|].
    rewrite <- (Nat2Z.id j) at 1. rewrite copy_take by lia. rewrite Nat2Z.id, Hr. by rewrite drop_app_le by lia.
Qed.

Lemma update_counted c m e data : represents c m e → Forall byte data → 8 * Zlen data < 2 ^ 64 →
  represents (sat_SHA1_Update c data) (m ++ data) (e + wrong_carry (8 * Zlen m) (8 * Zlen data)).
Proof.
  intros H Hd Hlt. pose proof (Zlen_nonneg m). pose proof (Zlen_nonneg data).
  destruct (update_state c m e data H Hd) as (Us & Ul & Ur).
  pose proof (update_counts c data Hlt) as E. cbv zeta in E. rewrite (r_count0 _ _ _ H), (r_count1 _ _ _ H) in E.
  pose proof (counts_ok (8 * Zlen m) e (8 * Zlen data) ltac:(lia) ltac:(lia)) as Ec. unfold counts in Ec. cbv zeta in Ec. rewrite Ec in E.
  injection E as E0 E1. split; try done.
  - apply Forall_app. split; [apply H|done].
  - rewrite E0, Zlen_app. f_equal. lia.
  - rewrite E1, Zlen_app, Z.mul_add_distr_l. reflexivity.
Qed.
Lemma update_ok c m e data : represents c m e → Forall byte data → Zlen data < 2 ^ 29 → represents (sat_SHA1_Update c data) (m ++ data) e.
Proof.
  intros H Hd Hlt. pose proof (update_counted c m e data H Hd ltac:(lia)) as H'. unfold wrong_carry in H'.
  by rewrite decide_False, Z.add_0_r in H' by lia.
Qed.

(** ** The padding *)
Lemma one_byte_list x : byte x → Forall byte [x].
Proof. intros. apply Forall_cons. split; [done|]. by apply Forall_nil. Qed.

Lemma count_bits c m e : represents c m e → count0 c .& 504 = 8 * Z.of_nat (length m mod 64).
Proof.
  intros H. rewrite <- (offset_of _ _ _ H). rewrite (r_count0 _ _ _ H). change 63 with (2 ^ 6 - 1).
  rewrite land_mask, Z.shiftr_div_pow2 by done. change (2 ^ 3) with 8. change (2 ^ 6) with 64.
  assert (504 = Z.shiftl 63 3) as -> by done.
  assert (u32 (8 * Zlen m) = Z.shiftl (u32 (8 * Zlen m) / 8) 3) as E.
  { rewrite Z.shiftl_mul_pow2 by done. unfold u32. change (2 ^ 3) with 8. change (2 ^ 32) with 4294967296.
    generalize (Zlen m). clear. intros z. Z.to_euclidean_division_equations. lia. }
  rewrite E at 1. rewrite <- Z.shiftl_land. change 63 with (2 ^ 6 - 1). rewrite land_mask, Z.shiftl_mul_pow2 by done.
  change (2 ^ 6) with 64. lia.
Qed.

Lemma pad_loop_ok z e : ∀ fuel c m, (z ≤ fuel)%nat → (z < 64)%nat → ((length m + z) mod 64 = 56)%nat → represents c m e →
  ∃ c', pad_loop fuel c = Some c' ∧ represents c' (m ++ replicate z 0) e.
Proof.
  induction z as [|z IH]; intros fuel c m Hf Hz Hm H.
  - exists c. rewrite app_nil_r. split; [|done]. rewrite Nat.add_0_r in Hm.
    destruct fuel; cbn [pad_loop]; by rewrite (count_bits _ _ _ H), Hm, bool_decide_eq_false_2 by (intros []; done).
  - destruct fuel as [|fuel]; [lia|]. cbn [pad_loop]. rewrite (count_bits _ _ _ H), bool_decide_eq_true_2.
    2:{ intros E. assert (length m mod 64 = 56)%nat as E' by lia. clear -Hm E' Hz.
        pose proof (Nat.div_mod (length m + S z) 64). pose proof (Nat.div_mod (length m) 64). lia. }
    destruct (IH fuel (sat_SHA1_Update c [0]) (m ++ [0])) as (c' & E & H'); [lia|lia| | |].
    + replace (length (m ++ [0%Z]) + z)%nat with (length m + S z)%nat; [done|rewrite length_app; cbn; lia].
    + by apply update_ok; [|apply one_byte_list|].
    + exists c'. split; [done|]. by rewrite <- app_assoc in H'.
Qed.

Lemma count_byte x i : 0 ≤ x < 2 ^ 64 → 0 ≤ i < 8 →
  ((if bool_decide (4 ≤ i) then u32 x else u32 (x / 2 ^ 32)) >> ((3 - (i .& 3)) * 8)) .& 255 = x / 2 ^ (8 * (7 - i)) mod 256.
Proof.
  intros Hx Hi. change 255 with 0xff. assert (i .& 3 = i mod 4) as -> by (change 3 with (2 ^ 2 - 1); by rewrite land_mask).
  rewrite byte_at by (Z.to_euclidean_division_equations; lia). unfold u32.
  assert (i = 0 ∨ i = 1 ∨ i = 2 ∨ i = 3 ∨ i = 4 ∨ i = 5 ∨ i = 6 ∨ i = 7) as Hc by lia.
  decompose [or] Hc; subst i; case_bool_decide; try lia; repeat match goal with |- context [2 ^ ?k] => let v := eval vm_compute in (2 ^ k) in change (2 ^ k) with v end; clear -Hx; Z.to_euclidean_division_equations; lia.
Qed.

Lemma be_bytes_8 x : be_bytes 8 x = (λ i, x / 2 ^ (8 * (7 - i)) mod 256) <$> seqZ 0 8.
Proof.
  unfold be_bytes. cbn [le_bytes rev app]. rewrite !Z.div_div by done. change (seqZ 0 8) with [0; 1; 2; 3; 4; 5; 6; 7].
  cbn [fmap list_fmap]. change (2 ^ (8 * (7 - 7))) with 1. by rewrite Z.div_1_r.
Qed.

Lemma final_count_ok c m e : represents c m e → 0 ≤ e → 8 * Zlen m + 2 ^ 32 * e < 2 ^ 64 →
  final_count c = be_bytes 8 (8 * Zlen m + 2 ^ 32 * e).
Proof.
  intros H He Hlt. pose proof (Zlen_nonneg m). unfold final_count. rewrite be_bytes_8, (r_count0 _ _ _ H), (r_count1 _ _ _ H).
  replace (u32 (8 * Zlen m)) with (u32 (8 * Zlen m + 2 ^ 32 * e)) by (unfold u32; by rewrite (Z.mul_comm (2 ^ 32)), Z.mod_add).
  replace (8 * Zlen m / 2 ^ 32 + e) with ((8 * Zlen m + 2 ^ 32 * e) / 2 ^ 32) by (by rewrite (Z.mul_comm (2 ^ 32)), Z.div_add).
  apply list_fmap_ext. intros k i Hk. apply count_byte; [lia|]. apply list_elem_of_lookup_2, elem_of_seqZ in Hk. lia.
Qed.

Lemma digest_ok c m e : represents c m e → digest_bytes c = state c ≫= be_bytes 4.
Proof.
  intros H. assert (length (state c) = 5%nat ∧ Forall word (state c)) as [Hl _] by (rewrite (r_state _ _ _ H); apply chain_words).
  unfold digest_bytes. destruct (state c) as [|a [|b [|d [|g [|f [|? ?]]]]]]; try done.
  change (seqZ 0 SHA1_DIGEST_SIZE) with [0; 1; 2; 3; 4; 5; 6; 7; 8; 9; 10; 11; 12; 13; 14; 15; 16; 17; 18; 19].
  assert (∀ x, be_bytes 4 x = (λ k, u8 ((x >> k) .& 255)) <$> [24; 16; 8; 0]) as E.
  { intros x. unfold be_bytes, u8. cbn [le_bytes rev app fmap list_fmap]. change 255 with 0xff. rewrite !byte_at by done.
    rewrite !Z.div_div, !Z.mod_mod by done. change (2 ^ 0) with 1. by rewrite Z.div_1_r. }
  cbn [mbind list_bind]. rewrite !E. reflexivity.
Qed.

Lemma zeros_ok n : Forall byte (replicate n 0).
Proof. by apply Forall_replicate. Qed.

(** the context that was given a text ends with the hash of the text *)
Lemma final_counted c m e : represents c m e → 0 ≤ e → 8 * Zlen m + 2 ^ 32 * e < 2 ^ 64 →
  sat_SHA1_Final c = Some (counted_sha1 m (8 * Zlen m + 2 ^ 32 * e)).
Proof.
  intros H He Hlt. pose proof (Zlen_nonneg m). unfold sat_SHA1_Final. set (bits := 8 * Zlen m + 2 ^ 32 * e) in *.
  assert (represents (sat_SHA1_Update c [0x80]) (m ++ [0x80]) e) as H1 by by apply update_ok; [|apply one_byte_list|].
  set (z := Z.to_nat ((55 - Zlen m) mod 64)). pose proof (mod_range (55 - Zlen m) 64 ltac:(done)) as Hz.
  assert ((length m + 1 + z) mod 64 = 56)%nat as Hmod.
  { apply Nat2Z.inj. rewrite Nat2Z.inj_mod, !Nat2Z.inj_add. unfold z. rewrite Z2Nat.id by lia. change (Z.of_nat 64) with 64.
    change (Z.of_nat 1) with 1. change (Z.of_nat 56) with 56. fold (Zlen m). clear. Z.to_euclidean_division_equations. lia. }
  destruct (pad_loop_ok z e 64 _ (m ++ [0x80]) ltac:(unfold z; lia) ltac:(unfold z; lia) ltac:(rewrite length_app; exact Hmod) H1) as (c2 & -> & H2).
  cbn [mbind option_bind]. apply (f_equal Some). rewrite (final_count_ok _ _ _ H He Hlt).
  assert (represents (sat_SHA1_Update c2 (be_bytes 8 bits)) (m ++ sha_padding (Zlen m) bits) e) as H3.
  { replace (m ++ sha_padding (Zlen m) bits) with (((m ++ [0x80]) ++ replicate z 0) ++ be_bytes 8 bits)
      by (unfold sha_padding; by rewrite <- !app_assoc).
    apply update_ok; [done| |done]. unfold be_bytes. apply Forall_rev, le_bytes_ok. }
  fold bits. rewrite (digest_ok _ _ _ H3), (r_state _ _ _ H3). reflexivity.
Qed.
Lemma final_ok c m : represents c m 0 → 8 * Zlen m < 2 ^ 64 → sat_SHA1_Final c = Some (fips_sha1 m).
Proof. intros H Hlt. rewrite (final_counted c m 0 H) by (done || lia). unfold fips_sha1. by rewrite Z.mul_0_r, Z.add_0_r. Qed.

(** C22. SHA-1 of the library, given a text in pieces of less than 512 MB from
    any memory, is the SHA-1 of FIPS 180-4 of the whole text; a text given as
    one piece of 512 MB or more is hashed with a length that is 2^32 bits too
    large. *)
Theorem sha1_is_fips stack pieces : length (buffer stack) = 64%nat → Forall (Forall byte) pieces →
  8 * Zlen (mjoin pieces) < 2 ^ 63 →
  (Forall (λ p, Zlen p < 2 ^ 29) pieces →
   sat_SHA1_Final (fold_left sat_SHA1_Update pieces (sat_SHA1_Init stack)) = Some (fips_sha1 (mjoin pieces))) ∧
  lsha1 stack (mjoin pieces) =
    Some (if decide (Zlen (mjoin pieces) < 2 ^ 29) then fips_sha1 (mjoin pieces)
          else counted_sha1 (mjoin pieces) (8 * Zlen (mjoin pieces) + 2 ^ 32)).
Proof.
  intros Hs Hb Hmax. pose proof (init_represents stack Hs) as H0. set (text := mjoin pieces) in *.
  assert (Forall byte text) as Hbt.
  { unfold text. clear -Hb. induction Hb as [|p l Hp _ IH]; [by apply Forall_nil|]. by apply Forall_app. }
  pose proof (Zlen_nonneg text) as Hp. split.
  - intros Hsmall. apply final_ok; [|lia]. rewrite <- (app_nil_l text). unfold text. clear -H0 Hb Hsmall. revert H0.
    generalize (sat_SHA1_Init stack) as c, (@nil Z) as m.
    induction pieces as [|p pieces IH]; intros c m Hc; [by rewrite app_nil_r|].
    apply Forall_cons in Hb as [? ?]. apply Forall_cons in Hsmall as [? ?]. cbn [fold_left mjoin list_join].
    rewrite app_assoc. apply IH; [done|done|]. by apply update_ok.
  - unfold lsha1. pose proof (update_counted _ [] 0 text H0 Hbt ltac:(lia)) as H1. rewrite app_nil_l in H1. unfold wrong_carry in H1.
    destruct (decide (Zlen text < 2 ^ 29)) as [Hd|Hd].
    + rewrite decide_False in H1 by lia. apply final_ok; [exact H1|lia].
    + rewrite decide_True in H1.
      2:{ change (Zlen (@nil Z)) with 0. rewrite Z.mul_0_r, Z.mod_0_l by done.
          pose proof (mod_range (8 * Zlen text) (2 ^ 32) ltac:(done)). lia. }
      rewrite (final_counted _ _ _ H1) by lia. do 2 f_equal.
Qed.

(** ** HMAC *)
#[local] Opaque chain.

Lemma xor_groups p l n : byte p → Forall byte l → (4 * n ≤ length l)%nat →
  (seq 0 n ≫= λ k, le_bytes 4 (le_value (take 4 (drop (4 * k) l)) .^ le_value [p; p; p; p])) = Z.lxor p <$> take (4 * n) l.
Proof.
  intros Hp Hl. induction n as [|n IH]; intros Hn; [done|].
  rewrite seq_S, bind_app, IH by lia. cbn [Nat.add mbind list_bind]. rewrite app_nil_r.
  set (g := take 4 (drop (4 * n) l)). assert (take (4 * S n) l = take (4 * n) l ++ g) as ->.
  { unfold g. rewrite take_take_drop. f_equal. lia. }
  rewrite fmap_app. f_equal. assert (length g = 4%nat) as Hg by (unfold g; rewrite length_take, length_drop; lia).
  assert (Forall byte g) as Hgb by (by apply Forall_take, Forall_drop).
  rewrite <- Hg. rewrite le_lxor; [|done|by repeat (apply Forall_cons; split; [done|])|done].
  destruct g as [|a [|b [|c [|d [|? ?]]]]]; try done. cbn. by rewrite !(Z.lxor_comm p).
Qed.

Lemma xor_key_ok p l : byte p → Forall byte l → length l = 64%nat → xor_key l (p * 0x01010101) = Z.lxor p <$> l.
Proof.
  intros Hp Hl Hlen. unfold xor_key. assert (p * 0x01010101 = le_value [p; p; p; p]) as -> by (cbn [le_value]; lia).
  rewrite (xor_groups p l 16 Hp Hl) by lia. f_equal. apply take_ge. lia.
Qed.
Lemma lxor_bytes p l : byte p → Forall byte l → Forall byte (Z.lxor p <$> l).
Proof. intros Hp Hl. apply Forall_fmap. eapply Forall_impl; [exact Hl|]. intros x Hx. by apply lxor_byte. Qed.

(** ** The hash as bytes *)
Lemma sha1_bytes m bits : length (counted_sha1 m bits) = 20%nat ∧ Forall byte (counted_sha1 m bits).
Proof.
  unfold counted_sha1. cbv zeta. set (n := (_ / 64)%nat). destruct (chain_words n (m ++ sha_padding (Zlen m) bits)) as [Hl _].
  set (h := chain _ _) in *. clearbody h. assert (∀ x, length (be_bytes 4 x) = 4%nat ∧ Forall byte (be_bytes 4 x)) as Hx.
  { intros x. split; [done|]. apply Forall_rev, le_bytes_ok. }
  split.
  - destruct h as [|a [|b [|c [|d [|e [|? ?]]]]]]; done.
  - clear Hl. induction h as [|x h IH]; [by apply Forall_nil|]. cbn [mbind list_bind]. apply Forall_app. split; [apply Hx|exact IH].
Qed.

Lemma key_copy k : (length k ≤ 64)%nat → put_at 0 k (replicate (Z.to_nat BLOCKSIZE) 0) = k ++ replicate (64 - length k) 0.
Proof.
  intros Hk. unfold put_at. cbn [Z.to_nat take app]. rewrite Z.add_0_l. change (Z.to_nat BLOCKSIZE) with 64%nat.
  unfold Zlen. by rewrite Nat2Z.id, drop_replicate.
Qed.

Lemma key_block_ok key : Forall byte key → length (key_block key) = 64%nat ∧ Forall byte (key_block key).
Proof.
  intros Hb. unfold key_block. cbv zeta. set (k := if bool_decide _ then _ else _).
  assert (length k ≤ 64 ∧ Forall byte k)%nat as [Hl Hk].
  { unfold k. case_bool_decide; [unfold Zlen in *; split; [lia|done]|]. unfold fips_sha1. destruct (sha1_bytes key (8 * Zlen key)). split; [lia|done]. }
  split; [rewrite length_app, length_replicate; lia|]. apply Forall_app. split; [done|apply zeros_ok].
Qed.

(** the key as a block *)
Lemma rkey_ok stack key : length (buffer stack) = 64%nat → Forall byte key → Zlen key < 2 ^ 29 →
  (if bool_decide (BLOCKSIZE < Zlen key) then
     digest ← sat_SHA1_Final (sat_SHA1_Update (sat_SHA1_Init stack) key);
     Some (put_at 0 digest (replicate (Z.to_nat BLOCKSIZE) 0))
   else Some (put_at 0 key (replicate (Z.to_nat BLOCKSIZE) 0))) = Some (key_block key).
Proof.
  intros Hs Hk Hl. unfold key_block, BLOCKSIZE at 1. case_bool_decide.
  - rewrite bool_decide_eq_false_2 by lia.
    rewrite (final_ok _ key); [|by apply (update_ok _ []); [by apply init_represents| |]|lia].
    cbn [mbind option_bind]. rewrite key_copy; [reflexivity|]. unfold fips_sha1. rewrite (proj1 (sha1_bytes _ _)). lia.
  - rewrite bool_decide_eq_true_2 by lia. rewrite key_copy; [reflexivity|]. unfold Zlen in *. lia.
Qed.

Lemma pads_ok kb : length kb = 64%nat → Forall byte kb →
  xor_key kb 0x5c5c5c5c = Z.lxor 0x5c <$> kb ∧
  xor_key (Z.lxor 0x5c <$> kb) (0x5c5c5c5c .^ 0x36363636) = Z.lxor 0x36 <$> kb.
Proof.
  intros Hl Hb. split; [exact (xor_key_ok 0x5c kb ltac:(done) Hb Hl)|].
  change (0x5c5c5c5c .^ 0x36363636) with (0x6a * 0x01010101). rewrite xor_key_ok;
    [|done|by apply lxor_bytes|by rewrite length_fmap].
  rewrite <- list_fmap_compose. apply list_fmap_ext. intros ? x _. unfold compose. by rewrite <- Z.lxor_assoc.
Qed.

(** a hash of a block and a text *)
Lemma two_pieces ctx block text : length (buffer ctx) = 64%nat → Zlen block = 64 → Forall byte block →
  Forall byte text → Zlen text < 2 ^ 29 →
  sat_SHA1_Final (sat_SHA1_Update (sat_SHA1_Update (sat_SHA1_Init ctx) block) text) = Some (fips_sha1 (block ++ text)).
Proof.
  intros Hc Hl Hb Ht Hlt. apply final_ok; [|rewrite Zlen_app; lia].
  apply update_ok; [|done|done]. apply (update_ok _ []); [by apply init_represents|done|lia].
Qed.

Lemma Some_bind {A B} (x : A) (f : A → option B) : (Some x ≫= f) = f x.
Proof. reflexivity. Qed.

(** C23. HMAC-SHA-1 of the library, whatever memory its three contexts start
    from, is the HMAC of RFC 2104 over SHA-1 for every key and text of less
    than 512 MB: short keys are padded with zeros, keys longer than a block are
    hashed first. *)
Theorem hmac_sha1_is_rfc2104 stack ctx1 ctx2 key text :
  length (buffer stack) = 64%nat → length (buffer ctx1) = 64%nat → length (buffer ctx2) = 64%nat →
  Forall byte key → Forall byte text → Zlen key < 2 ^ 29 → Zlen text < 2 ^ 29 →
  lhmac_sha1 stack ctx1 ctx2 key text = Some (rfc_hmac_sha1 key text).
Proof.
  intros Hs H1 H2 Hk Ht Hlk Hlt. unfold lhmac_sha1. cbv zeta. rewrite rkey_ok by done. rewrite Some_bind.
  destruct (key_block_ok key Hk) as [Hl Hb]. destruct (pads_ok _ Hl Hb) as [E1 E2]. rewrite E1, E2.
  assert (∀ p, Zlen (Z.lxor p <$> key_block key) = 64) as H64 by (intros p; unfold Zlen; by rewrite length_fmap, Hl).
  rewrite two_pieces; [|done|done|by apply lxor_bytes|done|done]. rewrite Some_bind.
  set (inner := fips_sha1 _). assert (length inner = 20%nat ∧ Forall byte inner) as [Hdl Hdb] by apply sha1_bytes.
  rewrite two_pieces; [|done|done|by apply lxor_bytes|done|unfold Zlen; by rewrite Hdl]. unfold rfc_hmac_sha1. reflexivity.
Qed.
