(* ===== verification/Md5.v ===== *)
(** * The MD5 library of Lua scripts: 3rd/lua-md5/md5.c and md5lib.c

    The hash, the exclusive or of two strings, and the CFB cipher made of the
    hash. [long] has 64 bits. *)
From S2P Require Import Prelude CLib CNum Bytes LuaValue Bits Crypt.
From Stdlib Require Import Ascii String.
#[local] Open Scope Z_scope.
#[local] Open Scope bits_scope.

(** ** md5.c *)
Module Md5c.
Definition NOT (x : Z) : Z := u32 (Z.lnot x).
Definition rotate (D num : Z) : Z := (D << num) .| (D >> (32 - num)).
Definition F (x y z : Z) : Z := (x .& y) .| (NOT x .& z).
Definition G (x y z : Z) : Z := (x .& z) .| (y .& NOT z).
Definition H (x y z : Z) : Z := x .^ y .^ z.
Definition I (x y z : Z) : Z := y .^ (x .| NOT z).
Definition T : list Z :=
  [0xd76aa478; 0xe8c7b756; 0x242070db; 0xc1bdceee; 0xf57c0faf; 0x4787c62a; 0xa8304613; 0xfd469501;
   0x698098d8; 0x8b44f7af; 0xffff5bb1; 0x895cd7be; 0x6b901122; 0xfd987193; 0xa679438e; 0x49b40821;
   0xf61e2562; 0xc040b340; 0x265e5a51; 0xe9b6c7aa; 0xd62f105d; 0x02441453; 0xd8a1e681; 0xe7d3fbc8;
   0x21e1cde6; 0xc33707d6; 0xf4d50d87; 0x455a14ed; 0xa9e3e905; 0xfcefa3f8; 0x676f02d9; 0x8d2a4c8a;
   0xfffa3942; 0x8771f681; 0x6d9d6122; 0xfde5380c; 0xa4beea44; 0x4bdecfa9; 0xf6bb4b60; 0xbebfbc70;
   0x289b7ec6; 0xeaa127fa; 0xd4ef3085; 0x04881d05; 0xd9d4d039; 0xe6db99e5; 0x1fa27cf8; 0xc4ac5665;
   0xf4292244; 0x432aff97; 0xab9423a7; 0xfc93a039; 0x655b59c3; 0x8f0ccc92; 0xffeff47d; 0x85845dd1;
   0x6fa87e4f; 0xfe2ce6e0; 0xa3014314; 0x4e0811a1; 0xf7537e82; 0xbd3af235; 0x2ad7d2bb; 0xeb86d391].

Fixpoint put_words (input : list Z) : list Z :=
  match input with
  | [] => []
  | v :: input => 
      let v1 := v >> 8 in let v2 := v1 >> 8 in let v3 := v2 >> 8 in
      [v .& 0xff; v1 .& 0xff; v2 .& 0xff; v3 .& 0xff] ++ put_words input
  end.
Definition word32tobytes (input : list Z) : list Z := put_words input.
Definition inic_digest : list Z := [0x67452301; 0xEFCDAB89; 0x98BADCFE; 0x10325476].

(** one of the assignments to [d[x]] with the words [w] and [t] and the shift [num] *)
Definition assign (f : Z → Z → Z → Z) (x y z u : Z) (w t num : Z) (d : list Z) : list Z :=
  let at_ := at_idx d in
  let v := u32 (at_ x + f (at_ y) (at_ z) (at_ u) + w + t) in
  let v := rotate v num in
  <[Z.to_nat x := u32 (v + at_ y)]> d.
Definition pass1 (m : list Z) (j : Z) (d : list Z) : list Z :=
  let d := assign F 0 1 2 3 (at_idx m j) (at_idx T j) 7 d in
  let d := assign F 3 0 1 2 (at_idx m (j + 1)) (at_idx T (j + 1)) 12 d in
  let d := assign F 2 3 0 1 (at_idx m (j + 2)) (at_idx T (j + 2)) 17 d in
  assign F 1 2 3 0 (at_idx m (j + 3)) (at_idx T (j + 3)) 22 d.
Definition pass2 (m : list Z) (j : Z) (d : list Z) : list Z :=
  let d := assign G 0 1 2 3 (at_idx m ((5 * j + 1) .& 0x0f)) (at_idx T (j - 1 + 17)) 5 d in
  let d := assign G 3 0 1 2 (at_idx m ((5 * (j + 1) + 1) .& 0x0f)) (at_idx T (j + 0 + 17)) 9 d in
  let d := assign G 2 3 0 1 (at_idx m ((5 * (j + 2) + 1) .& 0x0f)) (at_idx T (j + 1 + 17)) 14 d in
  assign G 1 2 3 0 (at_idx m ((5 * (j + 3) + 1) .& 0x0f)) (at_idx T (j + 2 + 17)) 20 d.
Definition pass3 (m : list Z) (j : Z) (d : list Z) : list Z :=
  let d := assign H 0 1 2 3 (at_idx m ((3 * j + 5) .& 0x0f)) (at_idx T (j - 1 + 33)) 4 d in
  let d := assign H 3 0 1 2 (at_idx m ((3 * (j + 1) + 5) .& 0x0f)) (at_idx T (j + 0 + 33)) 11 d in
  let d := assign H 2 3 0 1 (at_idx m ((3 * (j + 2) + 5) .& 0x0f)) (at_idx T (j + 1 + 33)) 16 d in
  assign H 1 2 3 0 (at_idx m ((3 * (j + 3) + 5) .& 0x0f)) (at_idx T (j + 2 + 33)) 23 d.
Definition pass4 (m : list Z) (j : Z) (d : list Z) : list Z :=
  let d := assign I 0 1 2 3 (at_idx m ((7 * j) .& 0x0f)) (at_idx T (j - 1 + 49)) 6 d in
  let d := assign I 3 0 1 2 (at_idx m ((7 * (j + 1)) .& 0x0f)) (at_idx T (j + 0 + 49)) 10 d in
  let d := assign I 2 3 0 1 (at_idx m ((7 * (j + 2)) .& 0x0f)) (at_idx T (j + 1 + 49)) 15 d in
  assign I 1 2 3 0 (at_idx m ((7 * (j + 3)) .& 0x0f)) (at_idx T (j + 2 + 49)) 21 d.
(** [for (j=0; j<4*4; j+=4)] *)
Definition by_fours (pass : Z → list Z → list Z) (d : list Z) : list Z :=
  fold_left (λ d j, pass j d) [0; 4; 8; 12] d.
Definition digest (m d : list Z) : list Z :=
  by_fours (pass4 m) (by_fours (pass3 m) (by_fours (pass2 m) (by_fours (pass1 m) d))).

Definition bytestoword32 (pt : list Z) : list Z :=
  (λ i, let j := 4 * Z.of_nat i in
        ((((((at_idx pt (j + 3) << 8) .| at_idx pt (j + 2)) << 8) .| at_idx pt (j + 1)) << 8) .| at_idx pt j)) <$> seq 0 16.
Definition put_length (x : list Z) (len : Z) : list Z :=
  <[15%nat := (len >> (32 - 3)) .& 0x7]> (<[14%nat := u32 (i64 (Z.shiftl len 3) .& 0xffffffff)]> x).

(** the words of a block of [num] bytes, and the new status *)
Definition converte (pt : list Z) (num old_status : Z) : list Z * Z :=
  let '(pt, new_status) :=
    if bool_decide (num < 64) then
      let buff := take (Z.to_nat num) pt ++ replicate (Z.to_nat (64 - num)) 0 in
      (if bool_decide (old_status = 0) then <[Z.to_nat num := 0x80]> buff else buff, 1)
    else (pt, 0) in
  (bytestoword32 pt, if bool_decide (num ≤ 64 - 9) then 2 else new_status).

Fixpoint md5_loop (fuel : nat) (message : list Z) (len i status : Z) (d : list Z) : option (list Z) :=
  if bool_decide (status ≠ 2) then
    match fuel with
    | O => None
    | S fuel =>
        let numbytes := if bool_decide (64 ≤ len - i) then 64 else len - i in
        let '(wbuff, status) := converte (take (Z.to_nat numbytes) (drop (Z.to_nat i) message)) numbytes status in
        let wbuff := if bool_decide (status = 2) then put_length wbuff len else wbuff in
        let d' := digest wbuff d in
        md5_loop fuel message len (i + numbytes) status (zip_with (λ x y, u32 (x + y)) d' d)
    end
  else Some d.
(** two more rounds than whole blocks are enough *)
Definition md5 (message : list Z) : option (list Z) :=
  word32tobytes <$> md5_loop (List.length message / 64 + 2) message (Zlen message) 0 0 inic_digest.
End Md5c.

(** ** md5lib.c *)
Definition MAXKEY : Z := 256.
Definition CFB_BLOCKSIZE : Z := 16.

Definition lmd5 (message : list Z) : option (list Z) := Md5c.md5 message.
Definition ex_or (s1 s2 : list Z) : lua (list Z) :=
  if bool_decide (Zlen s1 = Zlen s2) then LRet (zip_with Z.lxor s1 s2)
  else LError (Message "bad argument #2 to 'exor' (lengths must be equal)").

(** the seed padded to a block, and the key *)
Definition initblock (seed key : list Z) : lua (list Z) :=
  if bool_decide (MAXKEY < Zlen key) then LError (Message "key too long (> 256)")
  else LRet (take 16 (seed ++ replicate 16 0) ++ key).

(** [memcpy] of the first bytes *)
Definition update_seed (bytes block : list Z) : list Z := bytes ++ drop (List.length bytes) block.
Definition hashed (block : list Z) : lua (list Z) :=
  match Md5c.md5 block with Some code => LRet code | None => LNoFuel end.

Fixpoint codestream (fuel : nat) (msg block : list Z) : lua (list Z) :=
  match msg with
  | [] => LRet []
  | _ =>
      match fuel with
      | O => LNoFuel
      | S fuel =>
          code ← hashed block;
          let out := zip_with Z.lxor code (take 16 msg) in
          rest ← codestream fuel (drop 16 msg) (update_seed out block);
          LRet (out ++ rest)
      end
  end.
Fixpoint decodestream (fuel : nat) (cypher block : list Z) : lua (list Z) :=
  match cypher with
  | [] => LRet []
  | _ =>
      match fuel with
      | O => LNoFuel
      | S fuel =>
          code ← hashed block;
          let out := zip_with Z.lxor code (take 16 cypher) in
          rest ← decodestream fuel (drop 16 cypher) (update_seed (take 16 cypher) block);
          LRet (out ++ rest)
      end
  end.

(** [seed] is the argument, or the bytes of [time(NULL)] when there is none *)
Definition crypt (msg key seed : list Z) : lua (list Z) :=
  if bool_decide (CFB_BLOCKSIZE < Zlen seed) then LError (Message "seed too long (> 16)")
  else
    block ← initblock seed key;
    out ← codestream (List.length msg) msg block;
    LRet ((Zlen seed :: seed) ++ out).
(** the seed length is a [char]; the string ends with a zero *)
Definition decrypt (cyphertext key : list Z) : lua (list Z) :=
  let lseed := u64 (char_of (at_idx cyphertext 0)) in
  if bool_decide (u64 (lseed + 1) ≤ Zlen cyphertext ∧ lseed ≤ CFB_BLOCKSIZE) then
    let seed := take (Z.to_nat lseed) (drop 1 cyphertext) in
    let cypher := drop (Z.to_nat (lseed + 1)) cyphertext in
    block ← initblock seed key;
    decodestream (List.length cypher) cypher block
  else LError (Message "bad argument #1 to 'decrypt' (invalid cyphered string)").

(** ** The hashes of lua-crypt.c *)
Module Hmac.
Definition k : list Z :=
  [0xd76aa478; 0xe8c7b756; 0x242070db; 0xc1bdceee; 0xf57c0faf; 0x4787c62a; 0xa8304613; 0xfd469501;
   0x698098d8; 0x8b44f7af; 0xffff5bb1; 0x895cd7be; 0x6b901122; 0xfd987193; 0xa679438e; 0x49b40821;
   0xf61e2562; 0xc040b340; 0x265e5a51; 0xe9b6c7aa; 0xd62f105d; 0x02441453; 0xd8a1e681; 0xe7d3fbc8;
   0x21e1cde6; 0xc33707d6; 0xf4d50d87; 0x455a14ed; 0xa9e3e905; 0xfcefa3f8; 0x676f02d9; 0x8d2a4c8a;
   0xfffa3942; 0x8771f681; 0x6d9d6122; 0xfde5380c; 0xa4beea44; 0x4bdecfa9; 0xf6bb4b60; 0xbebfbc70;
   0x289b7ec6; 0xeaa127fa; 0xd4ef3085; 0x04881d05; 0xd9d4d039; 0xe6db99e5; 0x1fa27cf8; 0xc4ac5665;
   0xf4292244; 0x432aff97; 0xab9423a7; 0xfc93a039; 0x655b59c3; 0x8f0ccc92; 0xffeff47d; 0x85845dd1;
   0x6fa87e4f; 0xfe2ce6e0; 0xa3014314; 0x4e0811a1; 0xf7537e82; 0xbd3af235; 0x2ad7d2bb; 0xeb86d391].
Definition r : list Z :=
  [7; 12; 17; 22; 7; 12; 17; 22; 7; 12; 17; 22; 7; 12; 17; 22;
   5; 9; 14; 20; 5; 9; 14; 20; 5; 9; 14; 20; 5; 9; 14; 20;
   4; 11; 16; 23; 4; 11; 16; 23; 4; 11; 16; 23; 4; 11; 16; 23;
   6; 10; 15; 21; 6; 10; 15; 21; 6; 10; 15; 21; 6; 10; 15; 21].
Definition LEFTROTATE (x c : Z) : Z := (x << c) .| (x >> (32 - c)).

Definition digest_step (w : list Z) (s : Z * Z * Z * Z) (i : nat) : Z * Z * Z * Z :=
  let '(a, b, c, d) := s in
  let i := Z.of_nat i in
  let '(f, g) :=
    if bool_decide (i < 16) then ((b .& c) .| (u32 (Z.lnot b) .& d), i)
    else if bool_decide (i < 32) then ((d .& b) .| (u32 (Z.lnot d) .& c), (5 * i + 1) mod 16)
    else if bool_decide (i < 48) then (b .^ c .^ d, (3 * i + 5) mod 16)
    else (c .^ (b .| u32 (Z.lnot d)), (7 * i) mod 16) in
  (d, u32 (b + LEFTROTATE (u32 (a + f + at_idx k i + at_idx w g)) (at_idx r i)), b, c).
Definition digest_md5 (w : list Z) : Z * Z * Z * Z :=
  fold_left (digest_step w) (seq 0 64) (0x67452301, 0xefcdab89, 0x98badcfe, 0x10325476).

Definition hmac (x y : Z * Z) : Z * Z :=
  let w := [x.2; x.1; y.2; y.1; x.2; x.1; y.2; y.1; x.2; x.1; y.2; y.1; x.2; x.1; y.2; y.1] in
  let '(a, b, c, d) := digest_md5 w in (c .^ d, a .^ b).
Definition hmac_md5 (x y : Z * Z) : Z * Z :=
  let w := [x.1; x.2; y.1; y.2; x.1; x.2; y.1; y.2; x.1; x.2; y.1; y.2; 0x80; 0; 384; 0] in
  let '(a, b, c, d) := digest_md5 w in
  (u32 (a + 0x67452301) .^ u32 (c + 0x98badcfe), u32 (b + 0xefcdab89) .^ u32 (d + 0x10325476)).

Definition lhmac64 (x y : list Z) : lua (list Z) :=
  '(x, y) ← read64 x y; LRet (pushqword (hmac x y)).
Definition lhmac64_md5 (x y : list Z) : lua (list Z) :=
  '(x, y) ← read64 x y; LRet (pushqword (hmac_md5 x y)).
Definition lhmac_hash (x text : list Z) : lua (list Z) :=
  if bool_decide (Zlen x ≠ 8) then LError (Message "Invalid uint64 key")
  else LRet (pushqword (hmac (read_words (Hash text)) (read_words x))).
End Hmac.
