(* ===== verification/Md5Hash.v ===== *)
(** * MD5 of RFC 1321, and the two MD5s of the program

    The reference has the variables as a tuple that rotates; md5.c assigns them
    in place, four at a time, and lua-crypt.c has its own loop. *)
From S2P Require Import Prelude CLib CNum Bytes LuaValue Bits Crypt Md5.
#[local] Open Scope Z_scope.
#[local] Open Scope bits_scope.

(** ** RFC 1321 *)
Definition rfc_not (x : Z) : Z := 0xffffffff - x.
Definition rfc_f (t : Z) (x y z : Z) : Z :=
  if bool_decide (t < 16) then (x .& y) .| (rfc_not x .& z)
  else if bool_decide (t < 32) then (x .& z) .| (y .& rfc_not z)
  else if bool_decide (t < 48) then x .^ y .^ z
  else y .^ (x .| rfc_not z).
Definition rfc_k (t : Z) : Z :=
  if bool_decide (t < 16) then t else if bool_decide (t < 32) then (1 + 5 * t) mod 16
  else if bool_decide (t < 48) then (5 + 3 * t) mod 16 else (7 * t) mod 16.
Definition rfc_s (t : Z) : Z :=
  at_idx (if bool_decide (t < 16) then [7; 12; 17; 22] else if bool_decide (t < 32) then [5; 9; 14; 20]
          else if bool_decide (t < 48) then [4; 11; 16; 23] else [6; 10; 15; 21]) (t mod 4).
Definition rfc_rotl (x s : Z) : Z := u32 (x * 2 ^ s) .| (x / 2 ^ (32 - s)).
Definition four : Type := (Z * Z * Z * Z)%type.
Definition rfc_step (X : list Z) (h : four) (t : nat) : four :=
  let '(a, b, c, d) := h in let t := Z.of_nat t in
  (d, u32 (b + rfc_rotl (u32 (a + rfc_f t b c d + at_idx X (rfc_k t) + at_idx Md5c.T t)) (rfc_s t)), b, c).
Definition add_four (g h : four) : four :=
  let '(a, b, c, d) := g in let '(a', b', c', d') := h in (u32 (a + a'), u32 (b + b'), u32 (c + c'), u32 (d + d')).
Definition rfc_words (block : list Z) : list Z := (λ i, le_value (take 4 (drop (4 * i) block))) <$> seq 0 16.
Definition rfc_block (h : four) (block : list Z) : four :=
  add_four (fold_left (rfc_step (rfc_words block)) (seq 0 64) h) h.
Definition rfc_init : four := (0x67452301, 0xefcdab89, 0x98badcfe, 0x10325476).
Definition rfc_pad (l bits : Z) : list Z := 0x80 :: replicate (Z.to_nat ((55 - l) mod 64)) 0 ++ le_bytes 8 bits.
Definition md5_chain (n : nat) (m : list Z) : four :=
  fold_left (λ h k, rfc_block h (take 64 (drop (64 * k) m))) (seq 0 n) rfc_init.
Definition four_bytes (h : four) : list Z :=
  let '(a, b, c, d) := h in le_bytes 4 a ++ le_bytes 4 b ++ le_bytes 4 c ++ le_bytes 4 d.
Definition md5_counted (text : list Z) (bits : Z) : list Z :=
  let m := text ++ rfc_pad (Zlen text) bits in four_bytes (md5_chain (length m / 64) m).
Definition rfc_md5 (text : list Z) : list Z := md5_counted text (8 * Zlen text).

(** ** The rounds of lua-crypt.c *)
Lemma u32_lnot x : 0 ≤ x < 2 ^ 32 → u32 (Z.lnot x) = rfc_not x.
Proof. intros Hx. unfold u32, rfc_not, Z.lnot. rewrite <- (Z.mod_add _ 1) by done. rewrite Z.mod_small; lia. Qed.

Definition u32s (h : four) : Prop :=
  let '(a, b, c, d) := h in 0 ≤ a < 2 ^ 32 ∧ 0 ≤ b < 2 ^ 32 ∧ 0 ≤ c < 2 ^ 32 ∧ 0 ≤ d < 2 ^ 32.
Lemma u32_range x : 0 ≤ u32 x < 2 ^ 32.
Proof. by apply Z.mod_pos_bound. Qed.
Lemma rfc_step_range X h t : u32s h → u32s (rfc_step X h t).
Proof. destruct h as [[[a b] c] d]. intros (? & ? & ? & ?). unfold rfc_step, u32s. pose proof u32_range. auto. Qed.
Lemma add_four_range g h : u32s (add_four g h).
Proof. destruct g as [[[? ?] ?] ?], h as [[[? ?] ?] ?]. unfold add_four, u32s. pose proof u32_range. auto. Qed.

Lemma rotl_rfc x s : 0 ≤ s ≤ 32 → (x << s) .| (x >> (32 - s)) = rfc_rotl x s.
Proof. intros Hs. unfold rfc_rotl, shl32. by rewrite Z.shiftl_mul_pow2, Z.shiftr_div_pow2 by lia. Qed.

(** the tables of the two programs, in closed form *)
Lemma table_r t : (t < 64)%nat → at_idx Hmac.r (Z.of_nat t) = rfc_s (Z.of_nat t) ∧ 0 ≤ rfc_s (Z.of_nat t) ≤ 32.
Proof.
  intros Ht. assert (forallb (λ t, (at_idx Hmac.r (Z.of_nat t) =? rfc_s (Z.of_nat t)) && (0 <=? rfc_s (Z.of_nat t)) && (rfc_s (Z.of_nat t) <=? 32)) (seq 0 64) = true) as H
    by (vm_compute; reflexivity).
  rewrite forallb_forall in H. specialize (H t ltac:(apply in_seq; lia)). apply andb_prop in H as [H H3]. apply andb_prop in H as [H1 H2].
  split; [by apply Z.eqb_eq|lia].
Qed.

Lemma digest_step_rfc w h t : (t < 64)%nat → u32s h → Hmac.digest_step w h t = rfc_step w h t.
Proof.
  destruct h as [[[a b] c] d]. intros Ht (Ha & Hb & Hc & Hd). unfold Hmac.digest_step, rfc_step, Hmac.LEFTROTATE.
  destruct (table_r t Ht) as [-> Hs]. rewrite !u32_lnot by done. unfold rfc_f, rfc_k.
  change Hmac.k with Md5c.T. rewrite (Z.add_comm 1), (Z.add_comm 5 (3 * _)).
  repeat case_bool_decide; try lia; rewrite rotl_rfc by done;
    rewrite <- (Z.add_assoc (a + _)), (Z.add_comm (at_idx Md5c.T _)), (Z.add_assoc (a + _)); try reflexivity.
  by rewrite (Z.land_comm d b), (Z.land_comm _ c).
Qed.

Lemma digest_md5_rfc w : Hmac.digest_md5 w = fold_left (rfc_step w) (seq 0 64) rfc_init.
Proof.
  unfold Hmac.digest_md5. assert (∀ n t h, (t + n ≤ 64)%nat → u32s h →
    fold_left (Hmac.digest_step w) (seq t n) h = fold_left (rfc_step w) (seq t n) h) as H; [|apply (H 64%nat); [lia|done]].
  induction n as [|n IH]; intros t h Ht Hh; [done|]. cbn [seq fold_left]. rewrite digest_step_rfc by (done || lia).
  apply IH; [lia|by apply rfc_step_range].
Qed.

(** ** The assignments of md5.c *)
Definition md5c_f (t : Z) : Z → Z → Z → Z :=
  if bool_decide (t < 16) then Md5c.F else if bool_decide (t < 32) then Md5c.G
  else if bool_decide (t < 48) then Md5c.H else Md5c.I.
(** the register that holds variable [k] before assignment [r] of four *)
Definition register (r k : Z) : Z := (k + 4 - r) mod 4.
Definition assign_at (m : list Z) (d : list Z) (t : nat) : list Z :=
  let t := Z.of_nat t in let r := t mod 4 in
  Md5c.assign (md5c_f t) (register r 0) (register r 1) (register r 2) (register r 3) (at_idx m (rfc_k t))
              (at_idx Md5c.T t) (rfc_s t) d.
#[local] Strategy opaque [Md5c.assign].
Lemma by_fours_at m pass b d : (∀ j d, (j < 4)%nat → pass (4 * Z.of_nat j) d = fold_left (assign_at m) (seq (b + 4 * j) 4) d) →
  Md5c.by_fours pass d = fold_left (assign_at m) (seq b 16) d.
Proof.
  intros H. unfold Md5c.by_fours. cbn [fold_left]. rewrite (H 0%nat), (H 1%nat), (H 2%nat), (H 3%nat) by lia.
  rewrite <- !fold_left_app. f_equal. cbn [seq app Nat.mul Nat.add]. rewrite !Nat.add_succ_r, Nat.add_0_r. reflexivity.
Qed.
Lemma digest_assigns m d : Md5c.digest m d = fold_left (assign_at m) (seq 0 64) d.
Proof.
  assert (∀ j, (j < 4)%nat → j = 0 ∨ j = 1 ∨ j = 2 ∨ j = 3)%nat as H4 by lia.
  unfold Md5c.digest. rewrite (by_fours_at m (Md5c.pass1 m) 0), (by_fours_at m (Md5c.pass2 m) 16), (by_fours_at m (Md5c.pass3 m) 32), (by_fours_at m (Md5c.pass4 m) 48);
    [change (seq 0 64) with (seq 0 16 ++ seq 16 16 ++ seq 32 16 ++ seq 48 16); by rewrite !fold_left_app| | | |]; intros j d' [->|[->|[->| ->]]]%H4; reflexivity.
Qed.

#[local] Strategy transparent [Md5c.assign].
Definition registers (r : Z) (h : four) : list Z :=
  let '(a, b, c, d) := h in
  if bool_decide (r = 0) then [a; b; c; d] else if bool_decide (r = 1) then [b; c; d; a]
  else if bool_decide (r = 2) then [c; d; a; b] else [d; a; b; c].

Lemma md5c_f_rfc t b c d : 0 ≤ b < 2 ^ 32 → 0 ≤ c < 2 ^ 32 → 0 ≤ d < 2 ^ 32 → md5c_f t b c d = rfc_f t b c d.
Proof.
  intros. unfold md5c_f, rfc_f, Md5c.F, Md5c.G, Md5c.H, Md5c.I, Md5c.NOT. repeat case_bool_decide; by rewrite ?u32_lnot.
Qed.

Lemma assign_ok m h t : (t < 64)%nat → u32s h →
  assign_at m (registers (Z.of_nat t mod 4) h) t = registers (Z.of_nat (S t) mod 4) (rfc_step m h t).
Proof.
  destruct h as [[[a b] c] d]. intros Ht (Ha & Hb & Hc & Hd). unfold assign_at, rfc_step.
  rewrite <- (md5c_f_rfc _ b c d) by done. destruct (table_r t Ht) as [_ Hs]. rewrite <- rotl_rfc by done.
  replace (Z.of_nat (S t) mod 4) with ((Z.of_nat t mod 4 + 1) mod 4) by (rewrite Zplus_mod_idemp_l; f_equal; lia).
  pose proof (mod_range (Z.of_nat t) 4 ltac:(done)) as Hr. set (r := Z.of_nat t mod 4) in *. clearbody r.
  set (K := at_idx m _). set (W := at_idx Md5c.T _). set (s := rfc_s _) in *. set (f := md5c_f _).
  unfold Md5c.assign, Md5c.rotate. rewrite (Z.add_comm b).
  assert (r = 0 ∨ r = 1 ∨ r = 2 ∨ r = 3) as [->|[->|[->| ->]]] by lia; reflexivity.
Qed.

Lemma digest_rfc m h : u32s h →
  Md5c.digest m (registers 0 h) = registers 0 (fold_left (rfc_step m) (seq 0 64) h).
Proof.
  intros Hh. rewrite digest_assigns.
  assert (∀ n t h, (t + n = 64)%nat → u32s h →
    fold_left (assign_at m) (seq t n) (registers (Z.of_nat t mod 4) h) = registers 0 (fold_left (rfc_step m) (seq t n) h)) as H.
  { induction n as [|n IH]; intros t g Ht Hg; [assert (t = 64%nat) as -> by lia; done|].
    cbn [seq fold_left]. rewrite assign_ok by (done || lia). apply IH; [lia|by apply rfc_step_range]. }
  exact (H 64%nat 0%nat h eq_refl Hh).
Qed.

(** ** md5.c hashes as RFC 1321, and the HMAC of lua-crypt.c with it *)
(** ** Words *)
Lemma word_of_bytes a b c d : byte a → byte b → byte c → byte d →
  (((((d << 8) .| c) << 8) .| b) << 8) .| a = le_value [a; b; c; d].
Proof.
  unfold byte. intros Ha Hb Hc Hd. cbn [le_value].
  assert (∀ x y, 0 ≤ x < 2 ^ 24 → 0 ≤ y < 256 → (x << 8) .| y = y + 256 * x) as E.
  { intros x y Hx Hy. unfold shl32, u32. rewrite Z.mod_small by (rewrite Z.shiftl_mul_pow2 by done; lia).
    rewrite lor_shift by (change (2 ^ 8) with 256; lia). change (2 ^ 8) with 256. lia. }
  rewrite (E d c) by lia. rewrite (E _ b) by lia. rewrite (E _ a) by lia. lia.
Qed.

Lemma words_rfc pt : length pt = 64%nat → Forall byte pt → Md5c.bytestoword32 pt = rfc_words pt.
Proof.
  intros Hl Hb. unfold Md5c.bytestoword32, rfc_words. apply list_fmap_ext. intros ? i [Hi Hlt]%lookup_seq.
  assert (Forall byte (take 4 (drop (4 * i) pt))) as Hb4 by by apply Forall_take, Forall_drop.
  assert (∀ k, (k < 4)%nat → at_idx pt (4 * Z.of_nat i + Z.of_nat k) = nth k (take 4 (drop (4 * i) pt)) 0) as E.
  { intros k Hk. replace (4 * Z.of_nat i + Z.of_nat k) with (Z.of_nat (4 * i + k)) by lia. unfold at_idx. rewrite Nat2Z.id, !nth_lookup.
    by rewrite lookup_take_lt, lookup_drop by done. }
  pose proof (E 0%nat ltac:(lia)) as E0. rewrite Z.add_0_r in E0. rewrite E0,
    (E 1%nat ltac:(lia) : at_idx pt (4 * Z.of_nat i + 1) = _), (E 2%nat ltac:(lia) : at_idx pt (4 * Z.of_nat i + 2) = _),
    (E 3%nat ltac:(lia) : at_idx pt (4 * Z.of_nat i + 3) = _).
  assert (length (take 4 (drop (4 * i) pt)) = 4%nat) as H4 by (rewrite length_take, length_drop; lia).
  destruct (take 4 _) as [|a [|b [|c [|d [|? ?]]]]]; try done. do 4 (apply Forall_cons in Hb4 as [? Hb4]). by apply word_of_bytes.
Qed.

(** the two words of the length *)
Lemma put_length_rfc p z len : length p = 56%nat → length z = 8%nat → 0 ≤ len < 2 ^ 60 →
  Md5c.put_length (rfc_words (p ++ z)) len = rfc_words (p ++ le_bytes 8 ((8 * len) mod 2 ^ 35)).
Proof.
  intros Hp Hz Hlen. set (bits := (8 * len) mod 2 ^ 35).
  assert (∀ y, length y = 8%nat → rfc_words (p ++ y) = ((λ i, le_value (take 4 (drop (4 * i) p))) <$> seq 0 14) ++
            [le_value (take 4 y); le_value (take 4 (drop 4 y))]) as E.
  { intros y Hy. unfold rfc_words. change (seq 0 16) with (seq 0 14 ++ [14%nat; 15%nat]). rewrite fmap_app. f_equal.
    - apply list_fmap_ext. intros ? i [Hi Hlt]%lookup_seq. f_equal. rewrite drop_app_le by lia. apply take_app_le. rewrite length_drop. lia.
    - cbn [fmap list_fmap]. rewrite !drop_app_ge by lia. rewrite Hp. reflexivity. }
  rewrite !E by (done || apply le_bytes_length). unfold Md5c.put_length.
  set (l := _ <$> seq 0 14). assert (length l = 14%nat) as Hl by done. clearbody l.
  rewrite !insert_app_r_alt by lia. rewrite Hl. cbn [Nat.sub insert list_insert].
  do 2 f_equal; [|f_equal].
  - change (take 4 (le_bytes 8 bits)) with (le_bytes 4 bits). rewrite le_roundtrip. change (256 ^ Z.of_nat 4) with (2 ^ 32).
    rewrite Z.shiftl_mul_pow2 by done. change 0xffffffff with (2 ^ 32 - 1). rewrite land_mask by done.
    unfold u32, i64, bits. change (2 ^ 3) with 8. rewrite Z.mod_mod by done. 
    change (2 ^ 32) with 4294967296. change (2 ^ 63) with 9223372036854775808. change (2 ^ 64) with 18446744073709551616.
    change (2 ^ 35) with 34359738368. change (2 ^ 60) with 1152921504606846976 in Hlen. clear -Hlen.
    Z.to_euclidean_division_equations. lia.
  - change (take 4 (drop 4 (le_bytes 8 bits))) with (le_bytes 4 (bits / 256 / 256 / 256 / 256)). rewrite !Z.div_div by done.
    rewrite le_roundtrip. change (256 ^ Z.of_nat 4) with (2 ^ 32). change 0x7 with (2 ^ 3 - 1). rewrite land_mask, Z.shiftr_div_pow2 by done.
    unfold bits. change (256 * 256 * 256 * 256) with 4294967296. change (2 ^ (32 - 3)) with 536870912. change (2 ^ 3) with 8.
    change (2 ^ 32) with 4294967296. change (2 ^ 35) with 34359738368. clear -Hlen. Z.to_euclidean_division_equations. lia.
Qed.

(** ** A round of the loop *)
Lemma md5_chain_S n m : md5_chain (S n) m = rfc_block (md5_chain n m) (take 64 (drop (64 * n) m)).
Proof. unfold md5_chain. by rewrite seq_S, fold_left_app. Qed.
Lemma md5_chain_range n m : u32s (md5_chain n m).
Proof. destruct n; [by repeat split|]. rewrite md5_chain_S. apply add_four_range. Qed.

Lemma round_rfc h block : u32s h →
  zip_with (λ x y, u32 (x + y)) (Md5c.digest (rfc_words block) (registers 0 h)) (registers 0 h) = registers 0 (rfc_block h block).
Proof.
  intros Hh. rewrite digest_rfc by done. unfold rfc_block. destruct (fold_left _ _ _) as [[[? ?] ?] ?], h as [[[? ?] ?] ?]. reflexivity.
Qed.

(** ** The loop over the message *)
Section md5.
Context (msg : list Z) (Hb : Forall byte msg) (Hlen : Zlen msg < 2 ^ 60).
Let bits := (8 * Zlen msg) mod 2 ^ 35.
Let M := msg ++ rfc_pad (Zlen msg) bits.

Lemma block_round n block fuel i num status words status' : block = take 64 (drop (64 * n) M) →
  status ≠ 2 → num = (if bool_decide (64 ≤ Zlen msg - i) then 64 else Zlen msg - i) →
  Md5c.converte (take (Z.to_nat num) (drop (Z.to_nat i) msg)) num status = (words, status') →
  (if bool_decide (status' = 2) then Md5c.put_length words (Zlen msg) else words) = rfc_words block →
  Md5c.md5_loop (S fuel) msg (Zlen msg) i status (registers 0 (md5_chain n M)) =
    Md5c.md5_loop fuel msg (Zlen msg) (i + num) status' (registers 0 (md5_chain (S n) M)).
Proof using Type.
  intros -> Hs -> Hc Hw. cbn [Md5c.md5_loop]. rewrite bool_decide_eq_true_2 by done. rewrite Hc, Hw.
  rewrite round_rfc by apply md5_chain_range. by rewrite md5_chain_S.
Qed.

Lemma loop_ends fuel i n : Md5c.md5_loop fuel msg (Zlen msg) i 2 (registers 0 (md5_chain n M)) = Some (registers 0 (md5_chain n M)).
Proof using Type. destruct fuel; cbn [Md5c.md5_loop]; by rewrite bool_decide_eq_false_2 by (intros []; done). Qed.

(** the rest of the message after [q] blocks, when it is less than a block *)
Lemma last_blocks q fuel rest : rest = drop (64 * q) msg → (64 * q + length rest = length msg)%nat → (length rest < 64)%nat → (2 ≤ fuel)%nat →
  Md5c.md5_loop fuel msg (Zlen msg) (64 * Z.of_nat q) 0 (registers 0 (md5_chain q M)) =
    Some (registers 0 (md5_chain (length M / 64) M)).
Proof using Hb Hlen.
  intros Hrest Hl Hr Hf. destruct fuel as [|[|fuel]]; try lia. assert (Forall byte rest) as Hrb by (subst rest; by apply Forall_drop).
  assert (Zlen msg - 64 * Z.of_nat q = Z.of_nat (length rest)) as Hnum by (unfold Zlen; lia).
  assert (drop (64 * q) M = rest ++ rfc_pad (Zlen msg) bits) as HM by (unfold M; rewrite drop_app_le by lia; by rewrite <- Hrest).
  assert (take (Z.to_nat (Z.of_nat (length rest))) (drop (Z.to_nat (64 * Z.of_nat q)) msg) = rest) as Hpt.
  { replace (Z.to_nat (64 * Z.of_nat q)) with (64 * q)%nat by lia. rewrite <- Hrest, Nat2Z.id. by apply take_ge. }
  assert (Zlen (le_bytes 8 bits) = 8) as H8 by done.
  set (r := length rest) in *. assert (r = length rest) as Er by done. clearbody r.
  assert (Hz0 : ∀ n, Forall byte (replicate n 0)) by (intros n; by apply Forall_replicate).
  assert (<[r := 0x80]> (rest ++ replicate (64 - r) 0) = rest ++ 0x80 :: replicate (63 - r) 0) as Hins.
  { rewrite insert_app_r_alt by lia. rewrite <- Er, Nat.sub_diag. replace (64 - r)%nat with (S (63 - r)) by lia. done. }
  assert (take (Z.to_nat (Z.of_nat r)) rest ++ replicate (Z.to_nat (64 - Z.of_nat r)) 0 = rest ++ replicate (64 - r) 0) as Hbuf.
  { rewrite Nat2Z.id, take_ge by lia. do 2 f_equal. lia. }
  pose proof (Zlen_nonneg msg) as Hpos.
  destruct (decide (r ≤ 55)%nat) as [Hshort|Hlong].
  - assert (Z.to_nat ((55 - Zlen msg) mod 64) = 55 - r)%nat as Hpad.
    { rewrite <- (Z.mod_add _ (Z.of_nat q)) by done. rewrite Z.mod_small by lia. lia. }
    rewrite (block_round q (take 64 (drop (64 * q) M)) _ _ (Z.of_nat r) 0
               (Md5c.bytestoword32 (rest ++ 0x80 :: replicate (63 - r) 0)) 2); [|done|done| | |].
    + rewrite loop_ends. do 2 f_equal. f_equal. unfold M. rewrite length_app. unfold rfc_pad. cbn [length].
      rewrite length_app, length_replicate, Hpad, le_bytes_length. apply (Nat.div_unique _ _ _ 0); lia.
    + rewrite Hnum, bool_decide_eq_false_2 by lia. done.
    + unfold Md5c.converte. rewrite Hpt. rewrite bool_decide_eq_true_2 by lia. rewrite (bool_decide_eq_true_2 (0 = 0)) by done.
      rewrite Hbuf, Nat2Z.id, Hins. by rewrite bool_decide_eq_true_2 by lia.
    + rewrite bool_decide_eq_true_2 by done. rewrite words_rfc.
      * assert (rest ++ 0x80 :: replicate (63 - r) 0 = (rest ++ 0x80 :: replicate (55 - r) 0) ++ replicate 8 0) as ->.
        { rewrite <- app_assoc. cbn [app]. rewrite <- replicate_add. do 3 f_equal. lia. }
        rewrite put_length_rfc; [|rewrite length_app; cbn [length]; rewrite length_replicate; lia|done|done].
        fold bits. rewrite HM. unfold rfc_pad. rewrite Hpad. f_equal. rewrite take_ge; [by rewrite <- app_assoc|].
        rewrite length_app. cbn [length]. rewrite length_app, length_replicate, le_bytes_length. lia.
      * rewrite length_app. cbn [length]. rewrite length_replicate. lia.
      * apply Forall_app. split; [done|]. apply Forall_cons. by split.
  - assert (Z.to_nat ((55 - Zlen msg) mod 64) = 119 - r)%nat as Hpad.
    { rewrite <- (Z.mod_add _ (Z.of_nat q + 1)) by done. rewrite Z.mod_small by lia. lia. }
    assert (drop (64 * S q) M = replicate 56 0 ++ le_bytes 8 bits) as HM2.
    { replace (64 * S q)%nat with (64 * q + 64)%nat by lia. rewrite <- drop_drop, HM. unfold rfc_pad. rewrite Hpad.
      rewrite drop_app_ge by lia. rewrite <- Er. replace (64 - r)%nat with (S (63 - r)) by lia. cbn [drop].
      rewrite drop_app_le by (rewrite length_replicate; lia). rewrite drop_replicate. do 2 f_equal. lia. }
    rewrite (block_round q (take 64 (drop (64 * q) M)) _ _ (Z.of_nat r) 0
               (Md5c.bytestoword32 (rest ++ 0x80 :: replicate (63 - r) 0)) 1); [|done|done| | |].
    + rewrite (block_round (S q) (take 64 (drop (64 * S q) M)) _ _ 0 1 (Md5c.bytestoword32 (replicate 64 0)) 2); [|done|done| | |].
      * rewrite loop_ends. do 2 f_equal. f_equal. unfold M. rewrite length_app. unfold rfc_pad. cbn [length].
        rewrite length_app, length_replicate, Hpad, le_bytes_length. apply (Nat.div_unique _ _ _ 0); lia.
      * rewrite bool_decide_eq_false_2 by lia. lia.
      * unfold Md5c.converte. rewrite !(bool_decide_eq_true_2 (0 < 64)), (bool_decide_eq_false_2 (1 = 0)) by done. reflexivity.
      * rewrite bool_decide_eq_true_2 by done. rewrite words_rfc by (done || apply Hz0).
        change (replicate 64 0) with (replicate 56 0 ++ replicate 8 0). rewrite put_length_rfc by (done || lia). fold bits. by rewrite HM2.
    + rewrite Hnum, bool_decide_eq_false_2 by lia. done.
    + unfold Md5c.converte. rewrite Hpt. rewrite bool_decide_eq_true_2 by lia. rewrite (bool_decide_eq_true_2 (0 = 0)) by done.
      rewrite Hbuf, Nat2Z.id, Hins. by rewrite bool_decide_eq_false_2 by lia.
    + rewrite bool_decide_eq_false_2 by done. rewrite words_rfc.
      * f_equal. rewrite HM. unfold rfc_pad. rewrite Hpad. rewrite take_app_ge by lia. rewrite <- Er. f_equal.
        replace (64 - r)%nat with (S (63 - r)) by lia. cbn [take]. f_equal. rewrite take_app_le by (rewrite length_replicate; lia).
        rewrite take_replicate. f_equal. lia.
      * rewrite length_app. cbn [length]. rewrite length_replicate. lia.
      * apply Forall_app. split; [done|]. apply Forall_cons. by split.
Qed.

Lemma whole_blocks n : ∀ q fuel, (64 * (q + n) ≤ length msg < 64 * (q + n) + 64)%nat → (n + 2 ≤ fuel)%nat →
  Md5c.md5_loop fuel msg (Zlen msg) (64 * Z.of_nat q) 0 (registers 0 (md5_chain q M)) =
    Some (registers 0 (md5_chain (length M / 64) M)).
Proof using Hb Hlen.
  induction n as [|n IH]; intros q fuel Hl Hf.
  - apply (last_blocks q fuel (drop (64 * q) msg)); [done|rewrite length_drop; lia|rewrite length_drop; lia|lia].
  - destruct fuel as [|fuel]; [lia|]. set (block := take 64 (drop (64 * q) msg)).
    assert (length block = 64%nat) as Hbl by (unfold block; rewrite length_take, length_drop; lia).
    rewrite (block_round q block _ _ 64 0 (Md5c.bytestoword32 block) 0); [| |done| | |].
    + replace (64 * Z.of_nat q + 64) with (64 * Z.of_nat (S q)) by lia. apply IH; lia.
    + unfold block, M. rewrite drop_app_le by lia. rewrite take_app_le; [done|]. rewrite length_drop. lia.
    + rewrite bool_decide_eq_true_2; [done|]. unfold Zlen. lia.
    + replace (Z.to_nat (64 * Z.of_nat q)) with (64 * q)%nat by lia. change (Z.to_nat 64) with 64%nat. fold block. reflexivity.
    + rewrite bool_decide_eq_false_2 by done. apply words_rfc; [done|]. by apply Forall_take, Forall_drop.
Qed.

Lemma put_registers h : Md5c.word32tobytes (registers 0 h) = four_bytes h.
Proof using Type.
  destruct h as [[[a b] c] d]. change (registers 0 (a, b, c, d)) with [a; b; c; d]. unfold Md5c.word32tobytes, four_bytes.
  cbn [Md5c.put_words].
  cbv zeta. cbn [app le_bytes]. rewrite !byte_low, !Z.shiftr_div_pow2 by done. reflexivity.
Qed.

(** every message is hashed; the count of its bits is kept modulo 2^35 *)
Lemma md5_ok : Md5c.md5 msg = Some (md5_counted msg bits).
Proof using Hb Hlen.
  unfold Md5c.md5, md5_counted. fold bits. fold M. pose proof (Nat.div_mod (length msg) 64 ltac:(lia)) as Hd.
  pose proof (Nat.mod_upper_bound (length msg) 64 ltac:(lia)).
  pose proof (whole_blocks (length msg / 64) 0 (length msg / 64 + 2) ltac:(lia) ltac:(lia)) as H0.
  change (64 * Z.of_nat 0) with 0 in H0. change (registers 0 (md5_chain 0 M)) with Md5c.inic_digest in H0. rewrite H0.
  cbn [fmap option_fmap option_map]. by rewrite put_registers.
Qed.
End md5.

Lemma md5_length text bits : length (md5_counted text bits) = 16%nat ∧ Forall byte (md5_counted text bits).
Proof.
  unfold md5_counted. destruct (md5_chain _ _) as [[[a b] c] d]. split; [done|]. unfold four_bytes.
  repeat (apply Forall_app; split); apply le_bytes_ok.
Qed.
