(* ===== verification/Md5Lib.v ===== *)
(** * What the MD5 library and the HMAC of the crypt library promise *)
From S2P Require Import Prelude CLib CNum Bytes LuaValue Bits Crypt CryptSpec Md5 Md5Hash.
#[local] Open Scope Z_scope.
#[local] Open Scope bits_scope.

(** md5.c hashes every message, within two rounds more than its whole
    blocks, with the count of its bits modulo 2^35: as RFC 1321 for messages of
    less than 4 GB. *)
Theorem md5_is_rfc1321 msg : Forall byte msg → Zlen msg < 2 ^ 60 →
  lmd5 msg = Some (md5_counted msg ((8 * Zlen msg) mod 2 ^ 35)) ∧
  (Zlen msg < 2 ^ 32 → lmd5 msg = Some (rfc_md5 msg)).
Proof.
  intros Hb Hl. unfold lmd5. rewrite (md5_ok msg Hb Hl). split; [done|]. intros Hs. pose proof (Zlen_nonneg msg).
  unfold rfc_md5. by rewrite Z.mod_small by lia.
Qed.

(** ** The hash of lua-crypt.c *)
Lemma word_bytes_le n : word_bytes n = le_bytes 4 n.
Proof.
  unfold word_bytes. cbn [le_bytes]. rewrite !byte_at, byte_low, !Z.div_div by done. reflexivity.
Qed.
Lemma le_lxor_words a c : 0 ≤ a < 2 ^ 32 → 0 ≤ c < 2 ^ 32 → le_bytes 4 (a .^ c) = zip_with Z.lxor (le_bytes 4 a) (le_bytes 4 c).
Proof.
  intros Ha Hc. rewrite <- (le_lxor (le_bytes 4 a) (le_bytes 4 c)); [|apply le_bytes_ok|apply le_bytes_ok|done].
  rewrite le_bytes_length, !le_small by done. done.
Qed.

Lemma xor_eight s1 s2 : length s1 = 8%nat → length s2 = 8%nat → lxor_str s1 s2 = LRet (zip_with Z.lxor s1 s2).
Proof.
  intros H1 H2. do 8 (destruct s1 as [|? s1]; [done|]). destruct s1; [|done].
  do 8 (destruct s2 as [|? s2]; [done|]). destruct s2; [|done]. reflexivity.
Qed.

Lemma words_of_pair x y : Zlen x = 8 → Zlen y = 8 → Forall byte x → Forall byte y →
  rfc_words ((x ++ y ++ x ++ y ++ x ++ y) ++ rfc_pad 48 384) =
    let '(x1, x2) := read_words x in let '(y1, y2) := read_words y in
    [x1; x2; y1; y2; x1; x2; y1; y2; x1; x2; y1; y2; 0x80; 0; 384; 0].
Proof.
  intros Hx Hy Hbx Hby. unfold Zlen in Hx, Hy.
  assert (length x = 8 ∧ length y = 8)%nat as [Hx8 Hy8] by lia. clear Hx Hy.
  assert (∀ z, length z = 8%nat → Forall byte z → read_words z = (le_value (take 4 z), le_value (take 4 (drop 4 z)))) as E.
  { clear. intros z Hl Hb. do 8 (destruct z as [|? z]; [done|]). destruct z; [|done]. cbn [take drop].
    do 8 (apply Forall_cons in Hb as [? Hb]). unfold read_words.
    rewrite <- !le_word; [reflexivity|done|by repeat (apply Forall_cons; split; [done|])|done|by repeat (apply Forall_cons; split; [done|])]. }
  rewrite !E by done. do 8 (destruct x as [|? x]; [done|]). destruct x; [|done].
  do 8 (destruct y as [|? y]; [done|]). destruct y; [|done]. reflexivity.
Qed.

(** hmac64_md5 is what its comment says: the exclusive or of the halves of
    the MD5, computed by the other library, of the pair repeated three times. *)
Theorem hmac64_md5_halves x y : Zlen x = 8 → Zlen y = 8 → Forall byte x → Forall byte y →
  ∃ m, lmd5 (x ++ y ++ x ++ y ++ x ++ y) = Some m ∧ Hmac.lhmac64_md5 x y = lxor_str (take 8 m) (drop 8 m).
Proof.
  intros Hx Hy Hbx Hby. set (t := x ++ y ++ x ++ y ++ x ++ y).
  assert (Zlen t = 48) as Ht by (unfold t; rewrite !Zlen_app; lia).
  assert (Forall byte t) as Hbt by (unfold t; by rewrite !Forall_app).
  exists (rfc_md5 t). split; [apply md5_is_rfc1321; [done|lia|lia]|].
  unfold Hmac.lhmac64_md5, read64. rewrite !bool_decide_eq_false_2 by lia. rewrite LRet_bind.
  pose proof (words_of_pair x y Hx Hy Hbx Hby) as Hw. destruct (read_words x) as [x1 x2], (read_words y) as [y1 y2].
  unfold Hmac.hmac_md5. cbn [fst snd]. rewrite <- Hw, digest_md5_rfc. unfold rfc_md5. rewrite Ht. unfold md5_counted. rewrite Ht.
  change (8 * 48) with 384. fold t in Hw |- *. set (M := t ++ rfc_pad 48 384).
  assert (length M = 64%nat) as HM by (unfold M; rewrite length_app; unfold Zlen in Ht; change (length (rfc_pad 48 384)) with 16%nat; lia).
  rewrite HM. change (64 / 64)%nat with 1%nat. rewrite md5_chain_S. change (md5_chain 0 M) with rfc_init.
  change (drop (64 * 0) M) with M. rewrite (take_ge M) by lia. unfold rfc_block.
  destruct (fold_left _ _ _) as [[[a b] c] d]. unfold add_four, rfc_init, four_bytes.
  set (A := u32 (a + _)). set (B := u32 (b + _)). set (C := u32 (c + _)). set (D := u32 (d + _)).
  change (take 8 _) with (le_bytes 4 A ++ le_bytes 4 B). change (drop 8 _) with (le_bytes 4 C ++ le_bytes 4 D).
  rewrite xor_eight by done. unfold pushqword. cbn [fst snd]. rewrite !word_bytes_le, !le_lxor_words by apply u32_range.
  by rewrite zip_with_app.
Qed.

(** ** The cipher *)
Lemma hashed_ok block : Forall byte block → Zlen block < 2 ^ 60 →
  ∃ code, hashed block = LRet code ∧ length code = 16%nat ∧ Forall byte code.
Proof.
  intros Hb Hl. unfold hashed. rewrite (md5_ok block Hb Hl). eexists. split; [done|]. apply md5_length.
Qed.

Lemma zip_lxor_twice code msg : (length msg ≤ length code)%nat → zip_with Z.lxor code (zip_with Z.lxor code msg) = msg.
Proof.
  revert msg. induction code as [|c code IH]; intros [|m msg] Hl; try done; cbn [length] in Hl; [lia|].
  cbn [zip_with]. rewrite IH by lia. f_equal. by rewrite <- Z.lxor_assoc, Z.lxor_nilpotent, Z.lxor_0_l.
Qed.
Lemma zip_lxor_bytes l k : Forall byte l → Forall byte k → Forall byte (zip_with Z.lxor l k).
Proof.
  intros Hl. revert k. induction Hl as [|x l Hx Hl IH]; intros [|y k] Hk; try by apply Forall_nil.
  apply Forall_cons in Hk as [? ?]. apply Forall_cons. split; [by apply lxor_byte|by apply IH].
Qed.

Lemma update_seed_ok out block : (length out ≤ 16)%nat → Forall byte out → (16 ≤ length block)%nat → Forall byte block → Zlen block < 2 ^ 60 →
  (16 ≤ length (update_seed out block))%nat ∧ Forall byte (update_seed out block) ∧ Zlen (update_seed out block) < 2 ^ 60.
Proof.
  intros Ho Hbo Hl Hb Hlt. assert (length (update_seed out block) = length block) as E by (unfold update_seed; rewrite length_app, length_drop; lia).
  unfold Zlen in *. rewrite E. repeat split; [done| |done]. apply Forall_app. split; [done|by apply Forall_drop].
Qed.

(** the two streams use the same blocks *)
Lemma streams n : ∀ msg fuel fuel' block, (length msg ≤ n)%nat → (length msg ≤ fuel)%nat → (length msg ≤ fuel')%nat → Forall byte msg →
  (16 ≤ length block)%nat → Forall byte block → Zlen block < 2 ^ 60 →
  ∃ out, codestream fuel msg block = LRet out ∧ length out = length msg ∧ Forall byte out ∧ decodestream fuel' out block = LRet msg.
Proof.
  induction n as [|n IH]; intros msg fuel fuel' block Hn Hf Hf' Hm Hl Hb Hlt.
  { destruct msg; [|cbn in Hn; lia]. exists []. destruct fuel, fuel'; repeat split; by try apply Forall_nil. }
  destruct (decide (msg = [])) as [->|Hne]; [exists []; destruct fuel, fuel'; repeat split; by try apply Forall_nil|].
  assert (0 < length msg)%nat as Hpos by (destruct msg; [done|cbn; lia]).
  destruct fuel as [|fuel], fuel' as [|fuel']; try lia.
  destruct (hashed_ok block Hb Hlt) as (code & Hc & Hcl & Hcb). set (out := zip_with Z.lxor code (take 16 msg)).
  assert (length out = Nat.min 16 (length msg)) as Hol by (unfold out; rewrite length_zip_with, length_take; lia).
  assert (Forall byte out) as Hob by (unfold out; apply zip_lxor_bytes; [done|by apply Forall_take]).
  destruct (update_seed_ok out block ltac:(lia) Hob Hl Hb Hlt) as (Hl' & Hb' & Hlt').
  destruct (IH (drop 16 msg) fuel fuel' (update_seed out block)) as (rest & E1 & E2 & E3 & E4);
    try done; try (rewrite length_drop; lia); [by apply Forall_drop|].
  exists (out ++ rest). rewrite length_drop in E2. split; [|split; [rewrite length_app; lia|split; [by apply Forall_app|]]].
  - cbn [codestream]. destruct msg; [done|]. rewrite Hc, LRet_bind. fold out. cbv zeta. by rewrite E1, LRet_bind.
  - assert (take 16 (out ++ rest) = out ∧ drop 16 (out ++ rest) = rest) as [Et Ed].
    { destruct (decide (16 ≤ length msg)%nat).
      - split; [apply take_app_length'|apply drop_app_length']; lia.
      - destruct rest; [|cbn in E2; lia]. rewrite app_nil_r. split; [apply take_ge; lia|apply drop_ge; lia]. }
    destruct (out ++ rest) as [|o l] eqn:Eo; [apply (f_equal length) in Eo; rewrite length_app in Eo; cbn in Eo; lia|].
    cbn [decodestream]. rewrite Hc, LRet_bind. cbv zeta. rewrite Et, Ed, E4, LRet_bind. unfold out. rewrite zip_lxor_twice.
    + by rewrite take_drop.
    + rewrite length_take. lia.
Qed.

(** For every message, key of at most 256 bytes and seed of at most 16,
    decrypting the encrypted message gives it back; longer keys and seeds are
    refused. *)
Theorem decrypt_crypt msg key seed : Forall byte msg → Forall byte key → Forall byte seed → Zlen msg < 2 ^ 60 →
  match crypt msg key seed with
  | LRet c => Zlen seed ≤ 16 ∧ Zlen key ≤ 256 ∧ Zlen c = 1 + Zlen seed + Zlen msg ∧ decrypt c key = LRet msg
  | LError _ => 16 < Zlen seed ∨ 256 < Zlen key
  | _ => False
  end.
Proof.
  intros Hm Hk Hs Hlm. unfold crypt, CFB_BLOCKSIZE. pose proof (Zlen_nonneg seed) as H0. case_bool_decide as Hseed; [by left|].
  unfold initblock, MAXKEY. case_bool_decide as Hkey; [by right|]. rewrite LRet_bind.
  set (block := take 16 (seed ++ replicate 16 0) ++ key).
  assert (16 ≤ length block)%nat as Hbl by (unfold block; rewrite length_app, length_take, length_app, length_replicate; lia).
  assert (Forall byte block) as Hbb.
  { unfold block. apply Forall_app. split; [|done]. apply Forall_take, Forall_app. split; [done|by apply Forall_replicate]. }
  assert (Zlen block < 2 ^ 60) as Hblt.
  { unfold block. rewrite Zlen_app. unfold Zlen at 1. rewrite length_take. lia. }
  destruct (streams (length msg) msg (length msg) (length msg) block) as (out & -> & Hol & Hob & Hdec); try done.
  rewrite LRet_bind. split; [lia|]. split; [lia|]. split; [rewrite Zlen_app, Zlen_cons; unfold Zlen; lia|].
  unfold decrypt. cbn [app]. change (at_idx (Zlen seed :: seed ++ out) 0) with (Zlen seed).
  assert (u64 (char_of (Zlen seed)) = Zlen seed) as ->.
  { unfold char_of. rewrite bool_decide_eq_true_2 by lia. apply u64_small. lia. }
  rewrite u64_small by lia. unfold CFB_BLOCKSIZE. rewrite bool_decide_eq_true_2.
  2:{ rewrite Zlen_cons, Zlen_app. pose proof (Zlen_nonneg out). lia. }
  cbv zeta. cbn [drop]. assert (Z.to_nat (Zlen seed) = length seed) as E1 by (unfold Zlen; lia).
  assert (Z.to_nat (Zlen seed + 1) = S (length seed)) as E2 by (unfold Zlen; lia). rewrite E1, E2. cbn [drop].
  rewrite drop_0, take_app_length, drop_app_length. unfold initblock, MAXKEY. rewrite bool_decide_eq_false_2 by lia. rewrite LRet_bind.
  fold block. by rewrite Hol.
Qed.
