(* ===== verification/CryptWitness.v ===== *)
(** * Concrete runs of the crypt library and of the hashes *)
From S2P Require Import Prelude CLib CNum Bytes LuaValue Bits Des DesEquiv DesCodec Crypt CryptSpec Base64Spec Sha1 Sha1Equiv Sha1Spec Md5 Md5Hash Md5Lib.
#[local] Open Scope Z_scope.

Definition des_key8 : list Z := [0x13; 0x34; 0x57; 0x79; 0x9b; 0xbc; 0xdf; 0xf1].
Definition des_block : list Z := [0x01; 0x23; 0x45; 0x67; 0x89; 0xab; 0xcd; 0xef].
Lemma des_bytes : Forall byte des_key8 ∧ Forall byte des_block.
Proof. split; repeat (apply Forall_cons; split; [by vm_compute|]); apply Forall_nil; exact I. Qed.

Lemma des_is_fips_witness :
  be_number (des_crypt (des_main_ks des_key8) des_block) = fips_des (fips_keys (be_number des_key8)) (be_number des_block).
Proof. exact (proj1 (des_is_fips des_key8 des_block eq_refl (proj1 des_bytes) eq_refl (proj2 des_bytes))). Defined.

Lemma desdecode_desencode_witness :
  ∃ code, ldesencode des_key8 [1; 2; 3] PADDING_MODE_PKCS7 = LRet code ∧ Zlen code = 8 * (Zlen [1; 2; 3] / 8 + 1) ∧
    ldesdecode des_key8 code PADDING_MODE_PKCS7 = LRet [1; 2; 3].
Proof.
  apply (desdecode_desencode des_key8 [1; 2; 3] PADDING_MODE_PKCS7); [done|exact (proj1 des_bytes)| |done|done].
  repeat (apply Forall_cons; split; [done|]). by apply Forall_nil.
Defined.

Lemma dh_agreement_witness :
  ∃ gx gy secret, ldhexchange [3; 0; 0; 0; 0; 0; 0; 0] = LRet gx ∧ ldhexchange [4; 0; 0; 0; 0; 0; 0; 9] = LRet gy ∧
    ldhsecret gx [4; 0; 0; 0; 0; 0; 0; 9] = LRet secret ∧ ldhsecret gy [3; 0; 0; 0; 0; 0; 0; 0] = LRet secret ∧
    le_value secret = G ^ (le_value [3; 0; 0; 0; 0; 0; 0; 0] * le_value [4; 0; 0; 0; 0; 0; 0; 9]) mod P.
Proof.
  apply (dh_agreement [3; 0; 0; 0; 0; 0; 0; 0] [4; 0; 0; 0; 0; 0; 0; 9]);
    try done; repeat (apply Forall_cons; split; [done|]); by apply Forall_nil.
Defined.

(** the decoder takes "W" and "g" for digits *)
Lemma hexdecode_accepts_witness : lfromhex [87; 103] = LRet [16].
Proof.
  rewrite (proj2 (hexdecode_accepts [87; 103] ltac:(repeat (apply Forall_cons; split; [done|]); by apply Forall_nil) ltac:(done))).
  vm_compute. reflexivity.
Defined.

Lemma b64_roundtrip_witness : lb64encode [1; 2; 3; 4] = LRet (b64_text [1; 2; 3; 4]) ∧ lb64decode (b64_text [1; 2; 3; 4]) = LRet [1; 2; 3; 4].
Proof.
  destruct (b64_roundtrip [1; 2; 3; 4]) as (H1 & _ & H2 & _); [|done|by split].
  repeat (apply Forall_cons; split; [done|]). by apply Forall_nil.
Defined.

(** ** Hashes *)
Definition garbage : SHA1_CTX := {| state := [1]; count0 := 7; count1 := 7; buffer := replicate 64 255 |}.
Ltac concrete_bytes := repeat (apply Forall_cons; split; [done|]); apply Forall_nil; exact I.

Definition pieces : list (list Z) := [[97; 98]; [99]].
Lemma pieces_ok : Forall (Forall byte) pieces ∧ 8 * Zlen (mjoin pieces) < 2 ^ 63 ∧ Forall (λ p, Zlen p < 2 ^ 29) pieces.
Proof.
  split; [|split; [done|]]; (apply Forall_cons; split; [|apply Forall_cons; split; [|by apply Forall_nil]]); try done; concrete_bytes.
Qed.
Lemma sha1_is_fips_witness :
  sat_SHA1_Final (fold_left sat_SHA1_Update pieces (sat_SHA1_Init garbage)) = Some (fips_sha1 (mjoin pieces)).
Proof.
  exact (proj1 (sha1_is_fips garbage pieces eq_refl (proj1 pieces_ok) (proj1 (proj2 pieces_ok))) (proj2 (proj2 pieces_ok))).
Defined.

Lemma hmac_sha1_is_rfc2104_witness : lhmac_sha1 garbage garbage garbage [107] [1; 2; 3] = Some (rfc_hmac_sha1 [107] [1; 2; 3]).
Proof. apply (hmac_sha1_is_rfc2104 garbage garbage garbage [107] [1; 2; 3]); try done; concrete_bytes. Defined.

Lemma md5_is_rfc1321_witness : lmd5 [97; 98; 99] = Some (rfc_md5 [97; 98; 99]).
Proof. refine (proj2 (md5_is_rfc1321 [97; 98; 99] _ _) _); [concrete_bytes|done|done]. Defined.
Example md5_abc : lmd5 [97; 98; 99] =
  Some [0x90; 0x01; 0x50; 0x98; 0x3c; 0xd2; 0x4f; 0xb0; 0xd6; 0x96; 0x3f; 0x7d; 0x28; 0xe1; 0x7f; 0x72].
Proof. vm_compute. reflexivity. Qed.

Lemma hmac64_md5_halves_witness : let x := [1; 2; 3; 4; 5; 6; 7; 8] in
  ∃ m, lmd5 (x ++ x ++ x ++ x ++ x ++ x) = Some m ∧ Hmac.lhmac64_md5 x x = lxor_str (take 8 m) (drop 8 m).
Proof. cbv zeta. apply (hmac64_md5_halves [1; 2; 3; 4; 5; 6; 7; 8] [1; 2; 3; 4; 5; 6; 7; 8]); try done; concrete_bytes. Defined.

Lemma decrypt_crypt_witness : ∃ c, crypt [1; 2; 3] [4] [5; 6] = LRet c ∧ decrypt c [4] = LRet [1; 2; 3].
Proof.
  pose proof (decrypt_crypt [1; 2; 3] [4] [5; 6] ltac:(concrete_bytes) ltac:(concrete_bytes) ltac:(concrete_bytes) ltac:(done)) as H.
  destruct (crypt [1; 2; 3] [4] [5; 6]) as [c|e| |].
  - exists c. split; [done|apply H].
  - exfalso. unfold Zlen in H. cbn in H. lia.
  - destruct H.
  - destruct H.
Defined.
