(* ===== verification/Bson.v ===== *)
(** * BSON documents: lualib-src/lua-bson.c

    The encoder writes a Lua table into a growing buffer; the decoder reads the
    bytes of a document. A table is given by what the code sees of it: the length
    and the items of a table with [__len], the pairs a [__pairs] iteration
    yields, or the entries of a table without metatable in the order of
    [lua_next]. What [lua_rawlen] answers for the latter is a parameter. *)
From S2P Require Import Prelude CLib CNum Bytes LuaValue Bits Crypt.
From Stdlib Require Import Ascii String.
#[local] Open Scope Z_scope.
#[local] Open Scope bits_scope.

Definition DEFAULT_CAP : Z := 64.
Definition MAX_NUMBER : Z := 1024.
Definition BSON_MAX_DEPTH : Z := 128.
Definition BSON_REAL : Z := 1.
Definition BSON_STRING : Z := 2.
Definition BSON_DOCUMENT : Z := 3.
Definition BSON_ARRAY : Z := 4.
Definition BSON_BINARY : Z := 5.
Definition BSON_OBJECTID : Z := 7.
Definition BSON_BOOLEAN : Z := 8.
Definition BSON_DATE : Z := 9.
Definition BSON_NULL : Z := 10.
Definition BSON_REGEX : Z := 11.
Definition BSON_DBPOINTER : Z := 12.
Definition BSON_JSCODE : Z := 13.
Definition BSON_SYMBOL : Z := 14.
Definition BSON_CODEWS : Z := 15.
Definition BSON_INT32 : Z := 16.
Definition BSON_TIMESTAMP : Z := 17.
Definition BSON_INT64 : Z := 18.
Definition BSON_MINKEY : Z := 255.
Definition BSON_MAXKEY : Z := 127.
Definition BSON_TYPE_SHIFT : Z := 5.

(** ** What is encoded *)
Inductive bkey : Type :=
  | KString (s : list Z)
  | KNumber
  | KOther (typename : string).
Inductive bvalue : Type :=
  | BNil
  | BBool (b : bool)
  | BInt (z : Z)
  | BReal (bits : Z)
  | BString (s : list Z)
  (** a full userdata: the memory from its start on *)
  | BUserdata (memory : list Z)
  | BOther (typename : string)
  (** [__len] returns an integer or not; the items [lua_geti] gives, then nil *)
  | BLen (len : option Z) (items : list bvalue)
  | BPairs (es : list (bkey * bvalue))
  (** [last] tells that the border has no entry after it in the order of [lua_next] *)
  | BTable (border : Z) (last : bool) (items : list bvalue) (es : list (bkey * bvalue)).

(** ** The buffer *)
Record bson : Type := Bson { size : Z; cap : Z; ptr : list Z }.

Definition get_length (data : list Z) : lua Z :=
  if bool_decide (4 ≤ Zlen data) then LRet (i32 (le_value (take 4 data))) else LUndef.

Definition bson_create : bson := Bson 0 DEFAULT_CAP [].

(** [do cap *= 2 while (cap <= size + sz)] *)
Fixpoint double_cap (fuel : nat) (cap need : Z) : outcome Z :=
  match fuel with
  | O => NoFuel
  | S fuel => cap ← chk_int (cap * 2); if bool_decide (cap ≤ need) then double_cap fuel cap need else Ret cap
  end.
Definition bson_reserve (b : bson) (sz : Z) : outcome bson :=
  need ← chk_int (size b + sz);
  if bool_decide (need ≤ cap b) then Ret b
  else c ← double_cap 32 (cap b) need; Ret (Bson (size b) c (ptr b)).

(** the bytes stored from [size] on, which must fit *)
Definition store (b : bson) (bytes : list Z) : outcome bson :=
  if bool_decide (size b + Zlen bytes ≤ cap b) then
    Ret (Bson (size b + Zlen bytes) (cap b) (take (Z.to_nat (size b)) (ptr b) ++ bytes))
  else Undef.

Definition write_byte (b : bson) (v : Z) : outcome bson := b ← bson_reserve b 1; store b [u8 v].
Definition write_int32 (b : bson) (v : Z) : outcome bson :=
  let uv := u32 v in
  b ← bson_reserve b 4; store b [uv .& 0xff; (uv >> 8) .& 0xff; (uv >> 16) .& 0xff; (uv >> 24) .& 0xff].
Definition write_length (b : bson) (v off : Z) : outcome bson :=
  let uv := u32 v in
  if bool_decide (0 ≤ off ∧ off + 4 ≤ Zlen (ptr b)) then
    Ret (Bson (size b) (cap b) (copy_at (ptr b) off [uv .& 0xff; (uv >> 8) .& 0xff; (uv >> 16) .& 0xff; (uv >> 24) .& 0xff]))
  else Undef.
Definition write_int64 (b : bson) (v : Z) : outcome bson :=
  let uv := u64 v in
  b ← bson_reserve b 8; store b ((λ i, (uv >> i) .& 0xff) <$> [0; 8; 16; 24; 32; 40; 48; 56]).
Definition write_double (b : bson) (bits : Z) : outcome bson :=
  b ← bson_reserve b 8; store b ((λ i, (bits >> i) .& 0xff) <$> [0; 8; 16; 24; 32; 40; 48; 56]).
(** the four bytes are written when the length is known *)
Definition reserve_length (b : bson) : outcome (Z * bson) :=
  let sz := size b in
  b ← bson_reserve b 4; b ← store b [0; 0; 0; 0]; Ret (sz, b).

(** ** UTF-8 *)
Definition MAXUNICODE : Z := 0x10FFFF.
Definition limits : list Z := [0xFF; 0x7F; 0x7FF; 0xFFFF].

(** the loop over the continuation bytes: [None] for an invalid one *)
Fixpoint utf8_loop (fuel : nat) (s : list Z) (limit c count res : Z) : outcome (option (Z * Z * Z)) :=
  if bool_decide (c .& 0x40 ≠ 0) then
    match fuel with
    | O => NoFuel
    | S fuel =>
        let count := count + 1 in
        if bool_decide (limit ≤ count) then Ret None
        else
          cc ← get_idx s count;
          if bool_decide (cc .& 0xC0 ≠ 0x80) then Ret None
          else utf8_loop fuel s limit (c << 1) count ((res << 6) .| (cc .& 0x3F))
    end
  else Ret (Some (c, count, res)).
(** the bytes of the character at [s], 0 when it is not valid *)
Definition utf8_copy (s : list Z) (limit : Z) : outcome Z :=
  if bool_decide (limit < 1) then Ret 0
  else
    c ← get_idx s 0;
    let c := u32 (char_of c) in
    if bool_decide (c < 0x80) then Ret 1
    else
      r ← utf8_loop 32 s limit c 0 0;
      match r with
      | None => Ret 0
      | Some (c, count, res) =>
          if bool_decide (32 ≤ count * 5) then Undef
          else
            let res := res .| ((c .& 0x7F) << (count * 5)) in
            if bool_decide (3 < count) then Ret 0
            else if bool_decide (MAXUNICODE < res) then Ret 0
            else if bool_decide (res ≤ at_idx limits count) then Ret 0
            else Ret (count + 1)
      end.

(** the characters of [src] are copied one by one into [room] bytes *)
Fixpoint check_chars (fuel : nat) (src : list Z) (n room : Z) : lua unit :=
  if bool_decide (0 < n) then
    match fuel with
    | O => LNoFuel
    | S fuel =>
        c ← lift (utf8_copy src n);
        if bool_decide (c = 0) then LError (Message "Invalid utf8 string")
        else if bool_decide (room < c) then LUndef
        else check_chars fuel (drop (Z.to_nat c) src) (n - c) (room - c)
    end
  else LRet ().
(** [sz] is a [size_t] *)
Definition write_string (b : bson) (key : list Z) (sz : Z) : lua bson :=
  b ← lift (bson_reserve b (i32 (u64 (sz + 1))));
  _ ← check_chars (S (List.length key)) key sz (cap b - size b);
  lift (store b (take (Z.to_nat sz) key ++ [0])).

(** ** Appending *)
Definition append_key (bs : bson) (type : Z) (key : list Z) : lua bson :=
  bs ← lift (write_byte bs type); write_string bs key (Zlen key).
Definition is_32bit (v : Z) : bool := bool_decide (- 2 ^ 31 ≤ v ≤ 2 ^ 31 - 1).
Definition append_integer (bs : bson) (key : list Z) (i : Z) : lua bson :=
  if is_32bit i then bs ← append_key bs BSON_INT32 key; lift (write_int32 bs i)
  else bs ← append_key bs BSON_INT64 key; lift (write_int64 bs i).
Definition append_real (bs : bson) (key : list Z) (d : Z) : lua bson :=
  bs ← append_key bs BSON_REAL key; lift (write_double bs d).

(** a block of bytes *)
Definition append_bytes (bs : bson) (bytes : list Z) : lua bson :=
  lift (bs ← bson_reserve bs (i32 (Zlen bytes)); store bs bytes).
Definition write_binary (b : bson) (buffer : list Z) : lua bson :=
  '(length, b) ← lift (reserve_length b);
  b ← append_bytes b buffer;
  lift (write_length b (Zlen buffer - 1) length).

(** [i] counts the bytes after the last zero; all of them when there is none *)
Fixpoint after_zero (str : list Z) (len : Z) (fuel : nat) (i : Z) : outcome Z :=
  if bool_decide (i < len) then
    match fuel with
    | O => NoFuel
    | S fuel => x ← get_idx str (len - i - 1); if bool_decide (x = 0) then Ret i else after_zero str len fuel (i + 1)
    end
  else Ret i.
(** the pattern and the options, each with its zero; without a zero between
    them the length of the pattern wraps. [str] has the zero that ends a Lua string. *)
Definition write_regex (bs : bson) (str : list Z) (slen : Z) : lua bson :=
  let len := u64 (slen - 3) in
  if bool_decide (Zlen str < len) then LUndef
  else
    i ← lift (after_zero str len (List.length str) 0);
    bs ← write_string bs str (u64 (len - i - 1));
    write_string bs (drop (Z.to_nat (len - i)) str) i.

(** a string that starts with a zero and a type *)
Definition append_object (bs : bson) (key : list Z) (s : list Z) : lua bson :=
  let len := Zlen s in
  let subt := at_idx s 1 in
  let str := drop 2 s in
  bs ← append_key bs subt key;
  if bool_decide (subt = BSON_BINARY) then write_binary bs str
  else if bool_decide (subt = BSON_OBJECTID ∧ len ≠ 2 + 12) then LError (Message ("Invalid object id " +:+ c_text str))
  else if bool_decide (subt ∈ [BSON_OBJECTID; BSON_JSCODE; BSON_DBPOINTER; BSON_SYMBOL; BSON_CODEWS]) then append_bytes bs str
  else if bool_decide (subt = BSON_DATE) then
    if bool_decide (len ≠ 2 + 4) then LError (Message "Invalid date")
    else lift (write_int64 bs (le_value (take 4 str) * 1000))
  else if bool_decide (subt = BSON_TIMESTAMP) then
    if bool_decide (len ≠ 2 + 8) then LError (Message "Invalid timestamp")
    else bs ← lift (write_int32 bs (le_value (take 4 str))); lift (write_int32 bs (le_value (take 4 (drop 4 str))))
  else if bool_decide (subt = BSON_REGEX) then write_regex bs (str ++ [0]) len
  else if bool_decide (subt ∈ [BSON_MINKEY; BSON_MAXKEY; BSON_NULL]) then LRet bs
  else LError (Message ("Invalid subtype " +:+ fmt_d subt)).

Definition append_string (bs : bson) (key : list Z) (s : list Z) : lua bson :=
  if bool_decide (1 < Zlen s ∧ at_idx s 0 = 0) then append_object bs key s
  else
    bs ← append_key bs BSON_STRING key;
    '(off, bs) ← lift (reserve_length bs);
    bs ← write_string bs s (Zlen s);
    lift (write_length bs (Zlen s + 1) off).

(** the size is in the first four bytes *)
Definition append_userdata (bs : bson) (key : list Z) (memory : list Z) : lua bson :=
  bs ← append_key bs BSON_DOCUMENT key;
  sz ← get_length memory;
  if bool_decide (0 ≤ sz ≤ Zlen memory) then append_bytes bs (take (Z.to_nat sz) memory) else LUndef.

Definition decimal (s : string) : list Z := char_code <$> list_ascii_of_string s.
Definition bson_numstr (i : Z) : list Z :=
  if bool_decide (i < MAX_NUMBER) then decimal (fmt_d i) else decimal (fmt_u i).

(** the zero at the end, and the length at the start *)
Definition end_document (b : bson) (length : Z) : lua bson :=
  b ← lift (write_byte b 0); lift (write_length b (size b - length) length).

Section append_table.
Context (append_one : bson → list Z → bvalue → Z → lua bson).

Fixpoint pack_items (items : list bvalue) (b : bson) (depth len i : Z) : lua bson :=
  if bool_decide (i ≤ len) then
    let key := bson_numstr (u32 (i - 1)) in
    match items with
    | [] => append_one b key BNil depth
    | v :: items => b ← append_one b key v depth; pack_items items b depth len (i + 1)
    end
  else LRet b.
(** [len] is a [size_t] *)
Definition pack_array (items : list bvalue) (b : bson) (depth len : Z) : lua bson :=
  '(length, b) ← lift (reserve_length b);
  b ← pack_items items b depth len 1;
  end_document b length.

Definition pack_dict_data (b : bson) (depth : Z) (p : bkey * bvalue) : lua bson :=
  match p.1 with
  | KNumber => LError (Message "Bson dictionary's key can't be number")
  | KString key => append_one b key p.2 depth
  | KOther kt => LError (Message ("Invalid key type : " +:+ kt))
  end.
Fixpoint pack_entries (es : list (bkey * bvalue)) (b : bson) (depth : Z) : lua bson :=
  match es with [] => LRet b | p :: es => b ← pack_dict_data b depth p; pack_entries es b depth end.
Definition pack_simple_dict (es : list (bkey * bvalue)) (b : bson) (depth : Z) : lua bson :=
  '(length, b) ← lift (reserve_length b); b ← pack_entries es b depth; end_document b length.
Definition pack_meta_dict (es : list (bkey * bvalue)) (b : bson) (depth : Z) : lua bson :=
  '(length, b) ← lift (reserve_length b); b ← pack_entries es b depth; end_document b length.

Definition is_rawarray (border : Z) (last : bool) : bool := bool_decide (0 < border) && last.

Definition append_table (bs : bson) (key : list Z) (t : bvalue) (depth : Z) : lua bson :=
  if bool_decide (BSON_MAX_DEPTH < depth) then LError (Message "Too depth while encoding bson")
  else
    match t with
    | BLen None _ => LError (Message "__len should return integer")
    | BLen (Some len) items => bs ← append_key bs BSON_ARRAY key; pack_array items bs depth (u64 len)
    | BPairs es => bs ← append_key bs BSON_DOCUMENT key; pack_meta_dict es bs depth
    | BTable border last items es =>
        if is_rawarray border last then bs ← append_key bs BSON_ARRAY key; pack_array items bs depth border
        else bs ← append_key bs BSON_DOCUMENT key; pack_simple_dict es bs depth
    | _ => LUndef
    end.
End append_table.

(** the recursion ends at [MAX_DEPTH] *)
Fixpoint append_one (fuel : nat) (bs : bson) (key : list Z) (v : bvalue) (depth : Z) : lua bson :=
  match fuel with
  | O => LNoFuel
  | S fuel =>
      match v with
      | BInt i => append_integer bs key i
      | BReal d => append_real bs key d
      | BUserdata memory => append_userdata bs key memory
      | BString s => append_string bs key s
      | BLen _ _ | BPairs _ | BTable _ _ _ _ => append_table (append_one fuel) bs key v (depth + 1)
      | BBool x => bs ← append_key bs BSON_BOOLEAN key; lift (write_byte bs (if x then 1 else 0))
      | BNil => LError (Message "Bson array has a hole (nil), Use bson.null instead")
      | BOther t => LError (Message ("Invalid value type : " +:+ t))
      end
  end.
Definition APPEND_FUEL : nat := 130.

(** the keys, as [lua_tolstring] converts them, and the values of [encode_order] *)
Fixpoint pack_ordered (i : Z) (kvs : list (option (list Z) * bvalue)) (b : bson) (depth : Z) : lua bson :=
  match kvs with
  | [] => LRet b
  | (None, _) :: _ => LError (Message ("Argument " +:+ fmt_d (i + 1) +:+ " need a string"))
  | (Some key, v) :: kvs => b ← append_one APPEND_FUEL b key v depth; pack_ordered (i + 2) kvs b depth
  end.
Definition pack_ordered_dict (kvs : list (option (list Z) * bvalue)) (b : bson) (depth : Z) : lua bson :=
  '(length, b) ← lift (reserve_length b); b ← pack_ordered 0 kvs b depth; end_document b length.

(** the document as a userdata; [meta] tells that the table has [__pairs], and
    [es] are the pairs of that iteration or the entries of the table *)
Definition encode_bson (meta : bool) (es : list (bkey * bvalue)) (b : bson) : lua (list Z) :=
  b ← (if meta then pack_meta_dict (append_one APPEND_FUEL) es b 0 else pack_simple_dict (append_one APPEND_FUEL) es b 0);
  LRet (take (Z.to_nat (size b)) (ptr b)).
Definition lencode (meta : bool) (es : list (bkey * bvalue)) : lua (list Z) := encode_bson meta es bson_create.
Definition lencode_order (kvs : list (option (list Z) * bvalue)) : lua (list Z) :=
  b ← pack_ordered_dict kvs bson_create 0; LRet (take (Z.to_nat (size b)) (ptr b)).

(** ** Reading *)
Section decode.
(** the memory the document is in *)
Context (memory : list Z).

Record bson_reader : Type := Reader { r_ptr : Z; r_size : Z }.

Definition check_reader (br : bson_reader) (sz : Z) : lua unit :=
  if bool_decide (r_size br < sz) then
    LError (Message ("Invalid bson block (" +:+ fmt_d (r_size br) +:+ ":" +:+ fmt_d sz +:+ ")"))
  else LRet ().
Definition advance (br : bson_reader) (sz : Z) : bson_reader := Reader (r_ptr br + sz) (r_size br - sz).
Definition bytes_from (p n : Z) : lua (list Z) :=
  if bool_decide (0 ≤ p ∧ 0 ≤ n ∧ p + n ≤ Zlen memory) then LRet (take (Z.to_nat n) (drop (Z.to_nat p) memory)) else LUndef.

Definition read_byte (br : bson_reader) : lua (Z * bson_reader) :=
  _ ← check_reader br 1; b ← bytes_from (r_ptr br) 1; LRet (le_value b, advance br 1).
Definition read_int32 (br : bson_reader) : lua (Z * bson_reader) :=
  _ ← check_reader br 4; b ← bytes_from (r_ptr br) 4; LRet (i32 (le_value b), advance br 4).
Definition read_int64 (br : bson_reader) : lua (Z * bson_reader) :=
  _ ← check_reader br 8; b ← bytes_from (r_ptr br) 8; LRet (i64 (le_value b), advance br 8).
Definition read_double (br : bson_reader) : lua (Z * bson_reader) :=
  _ ← check_reader br 8; b ← bytes_from (r_ptr br) 8; LRet (le_value b, advance br 8).
(** the position; [sz] may be negative *)
Definition read_bytes (br : bson_reader) (sz : Z) : lua (Z * bson_reader) :=
  _ ← check_reader br sz; LRet (r_ptr br, advance br sz).

Fixpoint cstring_loop (fuel : nat) (br : bson_reader) (i : Z) : lua Z :=
  match fuel with
  | O => LNoFuel
  | S fuel =>
      if bool_decide (i = r_size br) then LError (Message "Invalid bson block : cstring")
      else
        b ← bytes_from (r_ptr br + i) 1;
        if bool_decide (le_value b = 0) then LRet i else cstring_loop fuel br (i + 1)
  end.
(** the characters before the zero *)
Definition read_cstring (br : bson_reader) : lua (list Z * bson_reader) :=
  i ← cstring_loop (S (List.length memory)) br 0;
  s ← bytes_from (r_ptr br) i;
  LRet (s, advance br (i + 1)).

(** adding [n] bytes, a [size_t], to a buffer that holds [held] bytes *)
Definition add_bytes (held p n : Z) : lua (list Z) :=
  if bool_decide (0 ≤ n) then bytes_from p n
  else if bool_decide (2 ^ 64 ≤ held + u64 n) then LError (Message "buffer too large")
  else LError (Message "not enough memory").
Definition make_object (type p len : Z) : lua value :=
  bs ← add_bytes 2 p len; LRet (VString ([0; type] ++ bs)).

(** the key of the entry: the index is an [int], the sum with 1 a [long] *)
Definition array_index (key : list Z) : lua Z :=
  let n := strtol (c_text key) 10 in if bool_decide (n = LONG_MAX) then LUndef else LRet (i32 (n + 1)).
Definition entry_key (array : bool) (key : list Z) : lua value :=
  if array then id ← array_index key; LRet (VInt id) else LRet (VString key).

(** the values that are not documents *)
Definition read_scalar (bt : Z) (t : bson_reader) : lua (value * bson_reader) :=
  if bool_decide (bt = BSON_REAL) then '(d, t) ← read_double t; LRet (VReal d, t)
  else if bool_decide (bt = BSON_BOOLEAN) then '(b, t) ← read_byte t; LRet (VBool (bool_decide (b ≠ 0)), t)
  else if bool_decide (bt = BSON_STRING) then
    '(sz, t) ← read_int32 t;
    if bool_decide (sz ≤ 0) then LError (Message ("Invalid bson string , length = " +:+ fmt_d sz))
    else '(p, t) ← read_bytes t sz; s ← bytes_from p (sz - 1); LRet (VString s, t)
  else if bool_decide (bt = BSON_BINARY) then
    '(sz, t) ← read_int32 t;
    '(subtype, t) ← read_byte t;
    '(p, t) ← read_bytes t sz;
    s ← add_bytes 3 p sz;
    LRet (VString ([0; BSON_BINARY; subtype] ++ s), t)
  else if bool_decide (bt = BSON_OBJECTID) then
    '(p, t) ← read_bytes t 12; v ← make_object BSON_OBJECTID p 12; LRet (v, t)
  else if bool_decide (bt = BSON_DATE) then
    '(date, t) ← read_int64 t;
    LRet (VString ([0; BSON_DATE] ++ le_bytes 4 (u32 (Z.quot date 1000))), t)
  else if bool_decide (bt ∈ [BSON_MINKEY; BSON_MAXKEY; BSON_NULL]) then LRet (VString [0; bt], t)
  else if bool_decide (bt = BSON_REGEX) then
    '(r1, t) ← read_cstring t;
    '(r2, t) ← read_cstring t;
    LRet (VString ([0; BSON_REGEX] ++ r1 ++ [0] ++ r2 ++ [0]), t)
  else if bool_decide (bt = BSON_INT32) then '(i, t) ← read_int32 t; LRet (VInt i, t)
  else if bool_decide (bt = BSON_TIMESTAMP) then
    '(inc, t) ← read_int32 t;
    '(ts, t) ← read_int32 t;
    LRet (VString ([0; BSON_TIMESTAMP] ++ le_bytes 4 inc ++ le_bytes 4 ts), t)
  else if bool_decide (bt = BSON_INT64) then '(i, t) ← read_int64 t; LRet (VInt i, t)
  else if bool_decide (bt = BSON_DBPOINTER) then
    let p := r_ptr t in
    '(sz, t) ← read_int32 t;
    n ← lift (chk_int (sz + 12));
    '(_, t) ← read_bytes t n;
    n ← lift (chk_int (sz + 16));
    v ← make_object BSON_DBPOINTER p n; LRet (v, t)
  else if bool_decide (bt ∈ [BSON_JSCODE; BSON_SYMBOL]) then
    let p := r_ptr t in
    '(sz, t) ← read_int32 t;
    '(_, t) ← read_bytes t sz;
    n ← lift (chk_int (sz + 4));
    v ← make_object bt p n; LRet (v, t)
  else if bool_decide (bt = BSON_CODEWS) then
    let p := r_ptr t in
    '(sz, t) ← read_int32 t;
    n ← lift (chk_int (sz - 4));
    '(_, t) ← read_bytes t n;
    v ← make_object bt p sz; LRet (v, t)
  else LError (Message ("Invalid bson type : " +:+ fmt_d bt)).

Section fields.
Context (unpack_dict : bson_reader → bool → lua (value * bson_reader)).

Definition read_value (bt : Z) (t : bson_reader) : lua (value * bson_reader) :=
  if bool_decide (bt = BSON_DOCUMENT) then unpack_dict t false
  else if bool_decide (bt = BSON_ARRAY) then unpack_dict t true
  else read_scalar bt t.
Fixpoint unpack_fields (fuel : nat) (t : bson_reader) (array : bool) (es : list (value * value)) :
    lua (list (value * value)) :=
  match fuel with
  | O => LNoFuel
  | S fuel =>
      if bool_decide (r_size t = 0) then LRet es
      else
        '(bt, t) ← read_byte t;
        '(key, t) ← read_cstring t;
        k ← entry_key array key;
        '(v, t) ← read_value bt t;
        es ← rawset es k v;
        unpack_fields fuel t array es
  end.
End fields.

Fixpoint unpack_dict (fuel : nat) (br : bson_reader) (array : bool) : lua (value * bson_reader) :=
  match fuel with
  | O => LNoFuel
  | S fuel =>
      '(sz, br) ← read_int32 br;
      n ← lift (chk_int (sz - 5));
      '(bytes, br) ← read_bytes br n;
      '(end_, br) ← read_byte br;
      if bool_decide (end_ ≠ 0) then LError (Message "Invalid document end")
      else
        es ← unpack_fields (unpack_dict fuel) (S (List.length memory)) (Reader bytes n) array [];
        LRet (VTable es, br)
  end.

(** the length is that of the document itself *)
Definition ldecode : lua value :=
  len ← get_length memory;
  '(v, _) ← unpack_dict (S (List.length memory)) (Reader 0 len) false;
  LRet v.
End decode.
