(* ===== verification/BsonUtf8.v ===== *)
(** * The strings a BSON document takes

    The check of [write_string] accepts exactly the UTF-8 of sequences of code
    points up to 10FFFF (surrogates included), each in its shortest form. *)
From S2P Require Import Prelude CLib CNum Bytes LuaValue Bits Crypt CryptSpec Bson.
#[local] Open Scope Z_scope.
#[local] Open Scope bits_scope.

Definition utf8_encode (cp : Z) : list Z :=
  if bool_decide (cp < 0x80) then [cp]
  else if bool_decide (cp < 0x800) then [0xC0 + cp / 64; 0x80 + cp mod 64]
  else if bool_decide (cp < 0x10000) then [0xE0 + cp / 4096; 0x80 + cp / 64 mod 64; 0x80 + cp mod 64]
  else [0xF0 + cp / 262144; 0x80 + cp / 4096 mod 64; 0x80 + cp / 64 mod 64; 0x80 + cp mod 64].
Definition code_point (cp : Z) : Prop := 0 ≤ cp ≤ MAXUNICODE.
Definition characters (s : list Z) : Prop := ∃ cps, Forall code_point cps ∧ s = cps ≫= utf8_encode.

(** ** Bits of a byte *)
Lemma bits_of_byte x : byte x →
  bool_decide (x .& 0xC0 ≠ 0x80) = negb (bool_decide (128 ≤ x < 192)) ∧ x .& 0x3F = x mod 64.
Proof.
  intros Hx. split.
  - set (Q := λ x, eqb (bool_decide (x .& 0xC0 ≠ 0x80)) (negb (bool_decide (128 ≤ x < 192)))).
    assert (forallb (λ n, Q (Z.of_nat n)) (seq 0 256) = true) as HQ by (vm_compute; reflexivity).
    pose proof (byte_cases Q x Hx HQ) as H. by apply eqb_prop in H.
  - change 0x3F with (2 ^ 6 - 1). by rewrite land_mask.
Qed.
Lemma bit6 c : 0 ≤ c → bool_decide (c .& 0x40 ≠ 0) = bool_decide (64 ≤ c mod 128).
Proof.
  intros Hc. assert (c .& 0x40 = (c mod 128) .& 0x40) as ->.
  { change 128 with (2 ^ 7). rewrite <- land_mask by done. by rewrite <- Z.land_assoc. }
  pose proof (mod_range c 128 ltac:(done)) as Hm. set (x := c mod 128) in *. clearbody x.
  set (Q := λ x, implb (bool_decide (x < 128)) (eqb (bool_decide (x .& 0x40 ≠ 0)) (bool_decide (64 ≤ x)))).
  assert (forallb (λ n, Q (Z.of_nat n)) (seq 0 256) = true) as HQ by (vm_compute; reflexivity).
  pose proof (byte_cases Q x ltac:(unfold byte; lia) HQ) as H. unfold Q in H. rewrite bool_decide_eq_true_2 in H by lia.
  by apply eqb_prop in H.
Qed.
Lemma low7 c : c .& 0x7F = c mod 128.
Proof. change 0x7F with (2 ^ 7 - 1). by rewrite land_mask. Qed.

(** the lead byte, sign-extended, and what its shifts leave *)
Lemma lead_mod b n : byte b → 128 ≤ b → 0 ≤ n ≤ 7 → u32 (u32 (char_of b) * 2 ^ n) mod 128 = (b * 2 ^ n) mod 128.
Proof.
  intros Hb H1 Hn. unfold char_of. rewrite bool_decide_eq_false_2 by lia. unfold u32.
  rewrite Zmult_mod_idemp_l. change 128 with (2 ^ 7). rewrite mod_pow2_mod by lia.
  replace ((b - 256) * 2 ^ n) with (b * 2 ^ n + (- 2 * 2 ^ n) * 2 ^ 7) by lia. by rewrite Z.mod_add.
Qed.

(** ** The continuation bytes *)

(** how many bytes follow a lead byte *)
Definition lead_ones (b : Z) : Z :=
  if bool_decide (b < 192) then 0 else if bool_decide (b < 224) then 1 else if bool_decide (b < 240) then 2
  else if bool_decide (b < 248) then 3 else if bool_decide (b < 252) then 4 else if bool_decide (b < 254) then 5
  else if bool_decide (b < 255) then 6 else 7.
Definition lead_at (b j : Z) : Z := u32 (u32 (char_of b) * 2 ^ j).

Lemma lead_ones_range b : 0 ≤ lead_ones b ≤ 7.
Proof. unfold lead_ones. repeat case_bool_decide; lia. Qed.

Lemma lead_test b j : byte b → 128 ≤ b → 0 ≤ j ≤ lead_ones b →
  bool_decide (lead_at b j .& 0x40 ≠ 0) = bool_decide (j < lead_ones b).
Proof.
  intros Hb H1 Hj. pose proof (lead_ones_range b). unfold lead_at.
  rewrite bit6 by (apply Z.mod_pos_bound; lia). rewrite lead_mod by (done || lia).
  set (Q := λ b, forallb (λ j, let j := Z.of_nat j in implb (128 <=? b) (implb (j <=? lead_ones b)
    (eqb (bool_decide (64 ≤ (b * 2 ^ j) mod 128)) (bool_decide (j < lead_ones b))))) (seq 0 8)).
  assert (forallb (λ n, Q (Z.of_nat n)) (seq 0 256) = true) as HQ by (vm_compute; reflexivity).
  pose proof (byte_cases Q b Hb HQ) as Hc. unfold Q in Hc.
  rewrite forallb_forall in Hc. specialize (Hc (Z.to_nat j) ltac:(apply in_seq; lia)). cbv zeta in Hc.
  rewrite Z2Nat.id in Hc by lia. rewrite (proj2 (Z.leb_le 128 b)), (proj2 (Z.leb_le j (lead_ones b))) in Hc by lia.
  by apply eqb_prop in Hc.
Qed.
Lemma lead_next b j : byte b → 0 ≤ j → lead_at b j << 1 = lead_at b (j + 1).
Proof.
  intros Hb Hj. unfold lead_at, shl32, u32. rewrite Z.shiftl_mul_pow2 by done.
  rewrite Z.pow_add_r, Z.mul_assoc by lia. by rewrite Zmult_mod_idemp_l.
Qed.

(** the value of [n] continuation bytes *)
Fixpoint continued (n : nat) (s : list Z) (res : Z) : option Z :=
  match n, s with
  | O, _ => Some res
  | S n, x :: s => if bool_decide (128 ≤ x < 192) then continued n s ((res << 6) .| (x mod 64)) else None
  | S _, [] => None
  end.

Lemma utf8_loop_spec b n : byte b → 128 ≤ b → ∀ fuel pre t res, (n ≤ fuel)%nat → Forall byte t →
  1 ≤ Zlen pre → Zlen pre - 1 + Z.of_nat n = lead_ones b →
  utf8_loop fuel (pre ++ t) (Zlen (pre ++ t)) (lead_at b (Zlen pre - 1)) (Zlen pre - 1) res =
  Ret ((λ r, (lead_at b (lead_ones b), lead_ones b, r)) <$> continued n t res).
Proof.
  intros Hb H1. induction n as [|n IH]; intros fuel pre t res Hf Ht Hp Hn.
  - replace (Zlen pre - 1) with (lead_ones b) by lia. pose proof (lead_ones_range b).
    assert (bool_decide (lead_at b (lead_ones b) .& 0x40 ≠ 0) = false) as E.
    { rewrite lead_test by (done || lia). apply bool_decide_eq_false_2. lia. }
    destruct fuel as [|fuel]; cbn [utf8_loop]; rewrite E; done.
  - destruct fuel as [|fuel]; [lia|]. cbn [utf8_loop].
    rewrite lead_test, bool_decide_eq_true_2 by (done || lia).
    replace (Zlen pre - 1 + 1) with (Zlen pre) by lia. destruct t as [|x t].
    { rewrite app_nil_r, bool_decide_eq_true_2 by lia. done. }
    rewrite bool_decide_eq_false_2 by (rewrite Zlen_app, Zlen_cons; pose proof (Zlen_nonneg t); lia).
    assert (get_idx (pre ++ x :: t) (Zlen pre) = Ret x) as ->.
    { apply get_idx_Ret. split; [lia|]. unfold Zlen. rewrite Nat2Z.id. by rewrite list_lookup_middle. }
    rewrite Ret_bind. apply Forall_cons in Ht as [Hx Ht]. destruct (bits_of_byte x Hx) as [E1 E2]. rewrite E1, E2.
    cbn [continued]. destruct (decide (128 ≤ x < 192)) as [Hc|Hc];
      [rewrite !(bool_decide_eq_true_2 _ Hc)|by rewrite !(bool_decide_eq_false_2 _ Hc)]. cbn [negb].
    rewrite lead_next by (done || lia). rewrite (cons_middle x pre t), app_assoc.
    specialize (IH fuel (pre ++ [x]) t ((res << 6) .| (x mod 64))).
    assert (Zlen (pre ++ [x]) = Zlen pre + 1) as El by (by rewrite Zlen_app). rewrite El in IH.
    replace (Zlen pre + 1 - 1) with (Zlen pre) in IH by lia. replace (Zlen pre - 1 + 1) with (Zlen pre) by lia.
    apply IH; (done || lia).
Qed.

(** ** The check of one character *)
Lemma utf8_copy_multi b t : byte b → Forall byte t → 128 ≤ b →
  utf8_copy (b :: t) (Zlen (b :: t)) =
  match continued (Z.to_nat (lead_ones b)) t 0 with
  | None => Ret 0
  | Some r =>
      if bool_decide (lead_ones b = 7) then Undef
      else
        let res := r .| (((b * 2 ^ lead_ones b) mod 128) << (lead_ones b * 5)) in
        if bool_decide (3 < lead_ones b) then Ret 0
        else if bool_decide (MAXUNICODE < res) then Ret 0
        else if bool_decide (res ≤ at_idx limits (lead_ones b)) then Ret 0
        else Ret (lead_ones b + 1)
  end.
Proof.
  intros Hb Ht H1. pose proof (lead_ones_range b). unfold utf8_copy.
  rewrite bool_decide_eq_false_2 by (rewrite Zlen_cons; pose proof (Zlen_nonneg t); lia).
  change (get_idx (b :: t) 0) with (Ret b). rewrite Ret_bind. cbv zeta.
  assert (u32 (char_of b) = lead_at b 0) as ->.
  { unfold lead_at, u32. by rewrite Z.mul_1_r, Z.mod_mod. }
  rewrite bool_decide_eq_false_2.
  2:{ unfold lead_at, char_of, u32. rewrite bool_decide_eq_false_2, Z.mul_1_r, Z.mod_mod by lia. unfold byte in Hb.
      rewrite <- (Z.mod_unique (b - 256) (2 ^ 32) (-1) (b - 256 + 2 ^ 32)); lia. }
  pose proof (utf8_loop_spec b (Z.to_nat (lead_ones b)) Hb H1 32 [b] t 0 ltac:(lia) Ht ltac:(done)) as E.
  change (Zlen [b]) with 1 in E. change (1 - 1) with 0 in E. cbn [app] in E. rewrite E by lia.
  rewrite Ret_bind. destruct (continued _ t 0) as [r|]; cbn [fmap option_fmap option_map]; [|done].
  rewrite (bool_decide_ext (32 ≤ lead_ones b * 5) (lead_ones b = 7)) by lia. rewrite low7.
  unfold lead_at. by rewrite lead_mod by (done || lia).
Qed.

Lemma shift_or r y : 0 ≤ y < 64 → 0 ≤ r < 2 ^ 26 → (r << 6) .| y = r * 64 + y.
Proof.
  intros Hy Hr. unfold shl32, u32. rewrite Z.shiftl_mul_pow2, Z.mod_small by lia.
  rewrite Z.lor_comm, lor_high by lia. lia.
Qed.
Lemma or_shift y r k : 0 ≤ k ≤ 31 → 0 ≤ y < 2 ^ k → 0 ≤ r → r * 2 ^ k < 2 ^ 32 → y .| (r << k) = y + r * 2 ^ k.
Proof.
  intros Hk Hy Hr H. unfold shl32, u32. rewrite Z.shiftl_mul_pow2, Z.mod_small by nia. by rewrite lor_high by lia.
Qed.

Lemma shift_split r k j n : 0 ≤ k → 0 ≤ j → n = k + j → (r * 2 ^ k) << j = r << n.
Proof.
  intros Hk Hj ->. unfold shl32. rewrite !Z.shiftl_mul_pow2, Z.pow_add_r by lia. f_equal. lia.
Qed.

Definition cont (x : Z) : Prop := 128 ≤ x < 192.
#[global] Instance cont_dec x : Decision (cont x) := _.

Lemma lor_0_l' x : (0 << 6) .| x = x.
Proof. done. Qed.

(** the value after the continuation bytes, and its range *)
Definition value_of (b : Z) (xs : list Z) : Z :=
  match xs with
  | [x] => (b - 192) * 64 + x mod 64
  | [x; y] => (b - 224) * 4096 + x mod 64 * 64 + y mod 64
  | [x; y; z] => (b - 240) * 262144 + x mod 64 * 4096 + y mod 64 * 64 + z mod 64
  | _ => b
  end.

(** the answer for a lead byte and the bytes that follow it *)
Definition char_answer (b : Z) (xs : list Z) : Z :=
  let v := value_of b xs in
  if bool_decide (Forall cont xs ∧ v ≤ MAXUNICODE ∧ at_idx limits (Zlen xs) < v) then 1 + Zlen xs else 0.

Lemma continued_3 x y z rest :
  continued 1 (x :: rest) 0 = (if bool_decide (cont x) then Some (x mod 64) else None) ∧
  continued 2 (x :: y :: rest) 0 = (if bool_decide (cont x ∧ cont y) then Some (x mod 64 * 64 + y mod 64) else None) ∧
  continued 3 (x :: y :: z :: rest) 0 =
    (if bool_decide (cont x ∧ cont y ∧ cont z) then Some (x mod 64 * 4096 + y mod 64 * 64 + z mod 64) else None).
Proof.
  pose proof (mod_range x 64 ltac:(done)). pose proof (mod_range y 64 ltac:(done)). pose proof (mod_range z 64 ltac:(done)).
  cbn [continued]. rewrite lor_0_l', !shift_or by lia. fold (cont x) (cont y) (cont z).
  destruct (decide (cont x)) as [Hx|Hx];
    [|repeat split; rewrite !bool_decide_eq_false_2; naive_solver].
  destruct (decide (cont y)) as [Hy|Hy], (decide (cont z)) as [Hz|Hz];
    repeat split; rewrite ?(bool_decide_eq_true_2 (cont _)), ?(bool_decide_eq_false_2 (cont _)) by done;
    rewrite ?bool_decide_eq_true_2 by done; rewrite ?bool_decide_eq_false_2 by naive_solver; f_equal; lia.
Qed.

Lemma lead_low b k : lead_ones b = k → 1 ≤ k ≤ 3 → 128 ≤ b →
  (b * 2 ^ k) mod 128 = (b - (256 - 2 ^ (7 - k))) * 2 ^ k ∧ 0 ≤ b - (256 - 2 ^ (7 - k)) < 2 ^ (6 - k).
Proof.
  intros Hl Hk Hb. unfold lead_ones in Hl. assert (k = 1 ∨ k = 2 ∨ k = 3) as [-> | [-> | ->]] by lia; change (2 ^ 1) with 2;
    repeat case_bool_decide; try lia; (split; [|lia]); Z.to_euclidean_division_equations; lia.
Qed.

Lemma answer_of (P : Prop) `{Decision P} k acc r v : 1 ≤ k ≤ 3 → 0 ≤ acc < 64 ^ k → 0 ≤ r < 2 ^ (6 - k) →
  v = r * 64 ^ k + acc →
  match (if bool_decide P then Some acc else None) with
  | None => Ret 0
  | Some acc =>
      if bool_decide (k = 7) then Undef
      else
        let res := acc .| ((r * 2 ^ k) << (k * 5)) in
        if bool_decide (3 < k) then Ret 0 else if bool_decide (MAXUNICODE < res) then Ret 0
        else if bool_decide (res ≤ at_idx limits k) then Ret 0 else Ret (k + 1)
  end = Ret (if bool_decide (P ∧ v ≤ MAXUNICODE ∧ at_idx limits k < v) then 1 + k else 0).
Proof.
  intros Hk Ha Hr ->. destruct (decide P) as [HP|HP]; [|by rewrite !bool_decide_eq_false_2 by tauto].
  rewrite (bool_decide_eq_true_2 P) by done. rewrite (bool_decide_eq_false_2 (k = 7)), (bool_decide_eq_false_2 (3 < k)) by lia.
  assert (acc .| ((r * 2 ^ k) << (k * 5)) = r * 64 ^ k + acc) as ->.
  { assert (k = 1 ∨ k = 2 ∨ k = 3) as [-> | [-> | ->]] by lia;
      [rewrite (shift_split _ _ _ 6) by lia|rewrite (shift_split _ _ _ 12) by lia|rewrite (shift_split _ _ _ 18) by lia]; rewrite or_shift by lia; lia. }
  cbv zeta. case_bool_decide; [by rewrite bool_decide_eq_false_2 by lia|].
  case_bool_decide; [by rewrite bool_decide_eq_false_2 by lia|]. rewrite bool_decide_eq_true_2 by (split_and!; [done|lia..]).
  f_equal. lia.
Qed.

Lemma if_decide_ext {A} (P Q : Prop) `{Decision P} `{Decision Q} (x y : A) :
  (P ↔ Q) → (if bool_decide P then x else y) = (if bool_decide Q then x else y).
Proof. intros E. by rewrite (bool_decide_ext P Q). Qed.

Lemma utf8_copy_lead b xs rest : byte b → Forall byte (xs ++ rest) → 128 ≤ b → Zlen xs = lead_ones b → 1 ≤ lead_ones b ≤ 3 →
  utf8_copy (b :: xs ++ rest) (Zlen (b :: xs ++ rest)) = Ret (char_answer b xs).
Proof.
  intros Hb Ht H1 Hl Hk. rewrite utf8_copy_multi by done. rewrite <- Hl in *. unfold char_answer.
  destruct (lead_low b (Zlen xs) ltac:(done) Hk H1) as [-> Hr].
  destruct xs as [|x [|y [|z [|? ?]]]]; [unfold Zlen in Hk; cbn in Hk; lia| | | |unfold Zlen in Hk; cbn in Hk; lia];
    pose proof (mod_range x 64 ltac:(done)).
  - destruct (continued_3 x x x rest) as (C & _ & _). change (Z.to_nat (Zlen [x])) with 1%nat.
    rewrite <- (app_comm_cons [] rest x), app_nil_l, C. change (Zlen [x]) with 1 in *.
    rewrite (answer_of _ 1 _ _ (value_of b [x])) by (cbn [value_of]; lia). f_equal. apply if_decide_ext.
    rewrite Forall_singleton. done.
  - pose proof (mod_range y 64 ltac:(done)). destruct (continued_3 x y x rest) as (_ & C & _).
    change (Z.to_nat (Zlen [x; y])) with 2%nat. cbn [app]. rewrite C. change (Zlen [x; y]) with 2 in *.
    rewrite (answer_of _ 2 _ _ (value_of b [x; y])) by (cbn [value_of]; lia). f_equal. apply if_decide_ext.
    by rewrite !Forall_cons, Forall_nil, !(right_id True (∧)).
  - pose proof (mod_range y 64 ltac:(done)). pose proof (mod_range z 64 ltac:(done)). destruct (continued_3 x y z rest) as (_ & _ & C).
    change (Z.to_nat (Zlen [x; y; z])) with 3%nat. cbn [app]. rewrite C. change (Zlen [x; y; z]) with 3 in *.
    rewrite (answer_of _ 3 _ _ (value_of b [x; y; z])) by (cbn [value_of]; lia). f_equal. apply if_decide_ext.
    by rewrite !Forall_cons, Forall_nil, !(right_id True (∧)).
Qed.

(** a sequence of [1 + Zlen xs] bytes, with the lead [b], that stands for a code point *)
Definition well_led (b : Z) (xs : list Z) : Prop :=
  byte b ∧ 128 ≤ b ∧ Zlen xs = lead_ones b ∧ 1 ≤ lead_ones b ≤ 3 ∧ Forall cont xs ∧
  at_idx limits (Zlen xs) < value_of b xs ≤ MAXUNICODE.

Lemma cont_split x : cont x → x = 128 + x mod 64.
Proof. unfold cont. intros. Z.to_euclidean_division_equations. lia. Qed.

Lemma cont_low x : cont x → ∃ r, 0 ≤ r < 64 ∧ x = 128 + r ∧ x mod 64 = r.
Proof. intros H. exists (x mod 64). split; [by apply mod_range|]. split; [by apply cont_split|done]. Qed.

(** the digits in base 64 *)
Lemma digits64 a r : 0 ≤ r < 64 → (a * 64 + r) / 64 = a ∧ (a * 64 + r) mod 64 = r.
Proof.
  intros. split; [rewrite Z.div_add_l, Z.div_small by lia; lia|].
  by rewrite Z.add_comm, Z.mod_add, Z.mod_small by lia.
Qed.
Lemma digits64_2 a p r : 0 ≤ p < 64 → 0 ≤ r < 64 →
  (a * 4096 + p * 64 + r) / 4096 = a ∧ (a * 4096 + p * 64 + r) / 64 mod 64 = p ∧ (a * 4096 + p * 64 + r) mod 64 = r.
Proof.
  intros. replace (a * 4096 + p * 64 + r) with ((a * 64 + p) * 64 + r) by lia. destruct (digits64 (a * 64 + p) r) as [E1 E2]; [done|].
  destruct (digits64 a p) as [E3 E4]; [done|]. rewrite E1, E2, E4. split_and!; [|done..].
  change 4096 with (64 * 64). by rewrite <- Z.div_div, E1 by lia.
Qed.
Lemma digits64_3 a q p r : 0 ≤ q < 64 → 0 ≤ p < 64 → 0 ≤ r < 64 →
  let v := a * 262144 + q * 4096 + p * 64 + r in
  v / 262144 = a ∧ v / 4096 mod 64 = q ∧ v / 64 mod 64 = p ∧ v mod 64 = r.
Proof.
  intros. assert (v = (a * 4096 + q * 64 + p) * 64 + r) as -> by (unfold v; lia). destruct (digits64 (a * 4096 + q * 64 + p) r) as [E1 E2]; [done|].
  destruct (digits64_2 a q p) as (E3 & E4 & E5); [done..|]. rewrite E1, E2, E5.
  split; [change 262144 with (64 * 4096); by rewrite <- Z.div_div, E1 by lia|]. split; [|done].
  change 4096 with (64 * 64). rewrite <- Z.div_div by lia. change (64 * 64) with 4096. by rewrite E1.
Qed.

Lemma encode_led b xs : well_led b xs → utf8_encode (value_of b xs) = b :: xs.
Proof.
  intros (Hb & H1 & Hl & Hk & Hc & Hv). destruct (lead_low b _ eq_refl Hk H1) as [_ Hr]. rewrite <- Hl in *.
  unfold MAXUNICODE in Hv. unfold utf8_encode.
  destruct xs as [|x [|y [|z [|? ?]]]]; [unfold Zlen in Hk; cbn in Hk; lia| | | |unfold Zlen in Hk; cbn in Hk; lia];
    rewrite ?Forall_cons in Hc; cbn [value_of] in *.
  - change (Zlen [x]) with 1 in *. change (at_idx limits 1) with 0x7f in Hv.
    destruct Hc as [(r & Hx & -> & E1)%cont_low _]. rewrite E1 in *. destruct (digits64 (b - 192) r) as [-> ->]; [done|].
    rewrite bool_decide_eq_false_2, bool_decide_eq_true_2 by lia. f_equal. lia.
  - change (Zlen [x; y]) with 2 in *. change (at_idx limits 2) with 0x7ff in Hv.
    destruct Hc as [(r & Hx & -> & E1)%cont_low [(p & Hp & -> & E2)%cont_low _]]. rewrite E1, E2 in *.
    destruct (digits64_2 (b - 224) r p) as (-> & -> & ->); [done..|].
    rewrite !bool_decide_eq_false_2, bool_decide_eq_true_2 by lia. f_equal. lia.
  - change (Zlen [x; y; z]) with 3 in *. change (at_idx limits 3) with 0xffff in Hv.
    destruct Hc as [(r & Hx & -> & E1)%cont_low [(p & Hp & -> & E2)%cont_low [(q & Hq & -> & E3)%cont_low _]]].
    rewrite E1, E2, E3 in *.
    destruct (digits64_3 (b - 240) r p q) as (-> & -> & -> & ->); [done..|].
    rewrite !bool_decide_eq_false_2 by lia. f_equal. lia.
Qed.

Lemma cont_mod x : cont (0x80 + x mod 64) ∧ (0x80 + x mod 64) mod 64 = x mod 64.
Proof.
  pose proof (mod_range x 64 ltac:(done)). split; [unfold cont; lia|]. change 0x80 with (2 * 64).
  by rewrite Z.add_comm, Z.mod_add, Z.mod_mod.
Qed.
Lemma lead_of b k : 1 ≤ k ≤ 3 → 256 - 2 ^ (7 - k) ≤ b < 256 - 2 ^ (6 - k) → byte b ∧ 128 ≤ b ∧ lead_ones b = k.
Proof.
  intros Hk Hb. assert (k = 1 ∨ k = 2 ∨ k = 3) as [-> | [-> | ->]] by lia; cbn in Hb;
    (split; [unfold byte; lia|]); (split; [lia|]); unfold lead_ones; repeat case_bool_decide; lia.
Qed.
Lemma led_encode cp : code_point cp → 128 ≤ cp → ∃ b xs, well_led b xs ∧ utf8_encode cp = b :: xs ∧ value_of b xs = cp.
Proof.
  unfold code_point, MAXUNICODE, utf8_encode. intros Hc H1. rewrite bool_decide_eq_false_2 by lia.
  assert (∀ b xs k, 1 ≤ k ≤ 3 → 256 - 2 ^ (7 - k) ≤ b < 256 - 2 ^ (6 - k) → Zlen xs = k → Forall cont xs → value_of b xs = cp →
    at_idx limits k < cp → ∃ b' xs', well_led b' xs' ∧ b :: xs = b' :: xs' ∧ value_of b' xs' = cp) as Hi.
  { intros b xs k Hk Hb Hl Hx Hv Hm. destruct (lead_of b k Hk Hb) as (? & ? & <-). exists b, xs. split_and!; [|done..].
    unfold well_led. rewrite Hv, Hl. unfold MAXUNICODE. split_and!; (done || lia). }
  destruct (cont_mod cp) as [C1 D1], (cont_mod (cp / 64)) as [C2 D2], (cont_mod (cp / 4096)) as [C3 D3].
  case_bool_decide as E1; [|case_bool_decide as E2].
  - apply (Hi _ _ 1); [done|cbn; Z.to_euclidean_division_equations; lia|done|by rewrite ?Forall_cons, Forall_nil| |change (at_idx limits 1) with 127; lia].
    cbn [value_of]. rewrite D1. Z.to_euclidean_division_equations. lia.
  - apply (Hi _ _ 2); [done|cbn; Z.to_euclidean_division_equations; lia|done|by rewrite ?Forall_cons, Forall_nil| |change (at_idx limits 2) with 2047; lia].
    cbn [value_of]. rewrite D1, D2. Z.to_euclidean_division_equations. lia.
  - apply (Hi _ _ 3); [done|cbn; Z.to_euclidean_division_equations; lia|done|by rewrite ?Forall_cons, Forall_nil| |change (at_idx limits 3) with 65535; lia].
    cbn [value_of]. rewrite D1, D2, D3. Z.to_euclidean_division_equations. lia.
Qed.

(** ** A string is accepted when it is the UTF-8 of code points *)
Lemma utf8_copy_char cp rest : code_point cp → Forall byte (utf8_encode cp ++ rest) →
  utf8_copy (utf8_encode cp ++ rest) (Zlen (utf8_encode cp ++ rest)) = Ret (Zlen (utf8_encode cp)).
Proof.
  intros Hc Hb. destruct (decide (cp < 128)) as [Hl|Hl].
  - assert (utf8_encode cp = [cp]) as E by (unfold utf8_encode; by rewrite bool_decide_eq_true_2). rewrite E in *.
    unfold utf8_copy. cbn [app]. rewrite bool_decide_eq_false_2 by (rewrite Zlen_cons; pose proof (Zlen_nonneg rest); lia).
    change (get_idx (cp :: rest) 0) with (Ret cp). rewrite Ret_bind. cbv zeta. unfold code_point in Hc. unfold char_of, u32.
    rewrite (bool_decide_eq_true_2 (cp < 128)), Z.mod_small by lia. by rewrite bool_decide_eq_true_2.
  - destruct (led_encode cp Hc ltac:(lia)) as (b & xs & (Wb & W1 & Wl & Wk & Wc & Wv) & Ee & E).
    rewrite Ee in *. cbn [app] in *. apply Forall_cons in Hb as [_ Hb]. rewrite utf8_copy_lead by done. unfold char_answer.
    rewrite bool_decide_eq_true_2 by (split_and!; [done|lia..]). by rewrite Zlen_cons.
Qed.

Lemma utf8_copy_sound s n : Forall byte s → utf8_copy s (Zlen s) = Ret n → n ≠ 0 →
  ∃ cp rest, code_point cp ∧ s = utf8_encode cp ++ rest ∧ n = Zlen (utf8_encode cp).
Proof.
  intros Hb E Hn. destruct s as [|b s]; [by injection E as <-|]. apply Forall_cons in Hb as [Hb Hs].
  destruct (decide (b < 128)) as [Hl|Hl].
  - exists b, s. assert (utf8_encode b = [b]) as Eb by (unfold utf8_encode; by rewrite bool_decide_eq_true_2).
    pose proof (utf8_copy_char b s) as H. rewrite Eb in *. unfold byte in Hb.
    assert (code_point b) as Hc by (unfold code_point, MAXUNICODE; lia). cbn [app] in *.
    rewrite H in E by (done || by apply Forall_cons). by injection E as <-.
  - pose proof (lead_ones_range b) as Hr. rewrite utf8_copy_multi in E by (done || lia).
    destruct (continued _ s 0) as [r|] eqn:Ec; [|by injection E as <-].
    destruct (decide (1 ≤ lead_ones b ≤ 3)) as [Hk|Hk].
    + assert (∃ xs rest, s = xs ++ rest ∧ Zlen xs = lead_ones b) as (xs & rest & -> & Hlen).
      { exists (take (Z.to_nat (lead_ones b)) s), (drop (Z.to_nat (lead_ones b)) s). split; [by rewrite take_drop|].
        assert (∀ n s res, continued n s res = Some r → (n ≤ length s)%nat) as Hlen.
        { clear. intros n. induction n as [|n IH]; intros [|x s] res E; cbn in *; try lia; [done|].
          case_bool_decide; [|done]. apply IH in E. lia. }
        apply Hlen in Ec. unfold Zlen. rewrite length_take. lia. }
      pose proof (utf8_copy_lead b xs rest Hb Hs ltac:(lia) Hlen Hk) as H.
      rewrite utf8_copy_multi, Ec in H by (done || lia). rewrite H in E. injection E as <-. clear H.
      assert (Forall cont xs ∧ value_of b xs ≤ MAXUNICODE ∧ at_idx limits (Zlen xs) < value_of b xs) as Hv.
      { unfold char_answer in Hn. by case_bool_decide. }
      assert (char_answer b xs = 1 + Zlen xs) as -> by (unfold char_answer; by rewrite bool_decide_eq_true_2).
      destruct Hv as (Hc & Hm & Hlim). rewrite <- Hlen in Hk.
      exists (value_of b xs), rest.
      assert (well_led b xs) as Hw by (unfold well_led; rewrite <- Hlen; split_and!; (done || lia)).
      rewrite encode_led by done. split_and!; [|done|by rewrite Zlen_cons].
      unfold code_point. split; [|done]. assert (0 ≤ at_idx limits (Zlen xs)); [|lia].
      assert (Zlen xs = 1 ∨ Zlen xs = 2 ∨ Zlen xs = 3) as [-> | [-> | ->]] by lia; done.
    + assert (lead_ones b = 0 ∨ 3 < lead_ones b) as [H0|H3] by lia.
      * rewrite H0 in *. injection Ec as <-. cbv zeta in E. change (bool_decide (0 = 7)) with false in E.
        change (bool_decide (3 < 0)) with false in E. rewrite Z.mul_1_r in E. change (0 * 5) with 0 in E.
        rewrite or_shift in E by (pose proof (mod_range b 128 ltac:(done)); lia).
        pose proof (mod_range b 128 ltac:(done)). unfold MAXUNICODE in E. change (at_idx limits 0) with 255 in E.
        rewrite bool_decide_eq_false_2, bool_decide_eq_true_2 in E by lia. by injection E as <-.
      * case_bool_decide; [done|]. cbv zeta in E. rewrite bool_decide_eq_true_2 in E by done. by injection E as <-.
Qed.

(** the lead byte FF asks for seven bytes, and a shift by 35 *)
Definition shift_overflow (s : list Z) : Prop :=
  ∃ pre cs rest, s = pre ++ 255 :: cs ++ rest ∧ Zlen cs = 7 ∧ Forall cont cs.

Lemma continued_conts n : ∀ s res r, continued n s res = Some r → ∃ cs rest, s = cs ++ rest ∧ length cs = n ∧ Forall cont cs.
Proof.
  induction n as [|n IH]; intros s res r E; [by exists [], s|]. destruct s as [|x s]; [done|]. cbn in E.
  case_bool_decide as Hx; [|done]. apply IH in E as (cs & rest & -> & <- & Hc). exists (x :: cs), rest.
  split_and!; [done|done|by apply Forall_cons].
Qed.

Lemma utf8_copy_total s : Forall byte s → (∃ n, utf8_copy s (Zlen s) = Ret n) ∨ utf8_copy s (Zlen s) = Undef ∧ shift_overflow s.
Proof.
  intros Hb. destruct s as [|b s]; [left; by eexists|]. destruct (Forall_cons_1 _ _ _ Hb) as [Hb1 Hs].
  destruct (decide (b < 128)) as [Hl|Hl].
  - left. exists 1. unfold byte in Hb1. pose proof (utf8_copy_char b s) as H.
    assert (utf8_encode b = [b]) as Eb by (unfold utf8_encode; by rewrite bool_decide_eq_true_2). rewrite Eb in H.
    apply H; [unfold code_point, MAXUNICODE; lia|done].
  - rewrite utf8_copy_multi by (done || lia). destruct (continued _ s 0) as [r|] eqn:Ec; [|left; by eexists].
    case_bool_decide as H7; [|cbv zeta; left; repeat case_bool_decide; by eexists].
    right. split; [done|]. rewrite H7 in Ec. apply continued_conts in Ec as (cs & rest & -> & Hc & Hf).
    exists [], cs, rest. unfold Zlen. rewrite Hc. split_and!; [|done..]. cbn [app]. f_equal.
    unfold lead_ones in H7. unfold byte in Hb1. repeat case_bool_decide; lia.
Qed.

Lemma encode_length cp : 1 ≤ Zlen (utf8_encode cp).
Proof. unfold utf8_encode. repeat case_bool_decide; by vm_compute. Qed.

Lemma characters_encode cp rest : code_point cp → Forall byte (utf8_encode cp ++ rest) →
  characters (utf8_encode cp ++ rest) ↔ characters rest.
Proof.
  intros Hc Hb. split.
  - intros (cps & Hcps & E). destruct cps as [|cp' cps].
    { pose proof (encode_length cp) as Hl. apply app_eq_nil in E as [E _]. rewrite E in Hl. done. }
    apply Forall_cons in Hcps as [Hc' Hcps]. cbn [mbind list_bind] in E.
    exists cps. split; [done|].
    pose proof (utf8_copy_char cp rest Hc Hb) as E1. pose proof (utf8_copy_char cp' (cps ≫= utf8_encode) Hc') as E2.
    rewrite E in Hb, E1. rewrite E2 in E1 by done. injection E1 as E1. unfold Zlen in E1. apply app_inj_1 in E as [_ E]; [done|lia].
  - intros (cps & Hcps & ->). exists (cp :: cps). split; [by apply Forall_cons|done].
Qed.

(** bytes after the string are not read *)
Lemma utf8_loop_prefix s more fuel : ∀ c count res, 0 ≤ count →
  utf8_loop fuel (s ++ more) (Zlen s) c count res = utf8_loop fuel s (Zlen s) c count res.
Proof.
  induction fuel as [|fuel IH]; intros c count res Hc; cbn [utf8_loop]; [done|]. case_bool_decide; [|done].
  case_bool_decide as Hl; [done|]. unfold get_idx. rewrite !decide_True by lia.
  rewrite lookup_app_l by (unfold Zlen in Hl; lia). destruct (deref _) as [x| | |]; [rewrite !Ret_bind|done..].
  case_bool_decide; [done|]. apply IH. lia.
Qed.
Lemma utf8_copy_prefix s more : utf8_copy (s ++ more) (Zlen s) = utf8_copy s (Zlen s).
Proof.
  unfold utf8_copy. case_bool_decide as Hl; [done|]. destruct s as [|b s]; [done|].
  change (get_idx ((b :: s) ++ more) 0) with (Ret b). change (get_idx (b :: s) 0) with (Ret b). rewrite !Ret_bind.
  case_bool_decide; [done|]. by rewrite utf8_loop_prefix.
Qed.

Lemma check_chars_spec more fuel : ∀ s room, Forall byte s → (length s < fuel)%nat → Zlen s ≤ room →
  characters s ∧ check_chars fuel (s ++ more) (Zlen s) room = LRet () ∨
  ¬ characters s ∧ (check_chars fuel (s ++ more) (Zlen s) room = LError (Message "Invalid utf8 string") ∨
                    check_chars fuel (s ++ more) (Zlen s) room = LUndef ∧ shift_overflow s).
Proof.
  induction fuel as [|fuel IH]; intros s room Hb Hf Hr; [lia|]. cbn [check_chars]. rewrite utf8_copy_prefix.
  case_bool_decide as H0.
  2:{ assert (s = []) as -> by (apply Zlen_0; pose proof (Zlen_nonneg s); lia). left. split; [by exists []|done]. }
  destruct (utf8_copy_total s Hb) as [[n E]|[E Ho]].
  2:{ rewrite E. right. cbn [lift mbind lua_bind]. split; [|by right]. intros (cps & Hcps & ->). destruct cps as [|cp cps]; [done|].
      apply Forall_cons in Hcps as [Hc _]. change ((cp :: cps) ≫= utf8_encode) with (utf8_encode cp ++ (cps ≫= utf8_encode)) in *.
      by rewrite utf8_copy_char in E. }
  rewrite E. cbn [lift]. rewrite LRet_bind. case_bool_decide as Hn.
  { right. split; [|by left]. subst n. intros (cps & Hcps & ->). destruct cps as [|cp cps]; [done|].
    apply Forall_cons in Hcps as [Hc _]. change ((cp :: cps) ≫= utf8_encode) with (utf8_encode cp ++ (cps ≫= utf8_encode)) in *.
    rewrite utf8_copy_char in E by done. pose proof (encode_length cp). injection E as E. lia. }
  apply utf8_copy_sound in E as (cp & rest & Hc & -> & ->); [|done..].
  pose proof (encode_length cp) as Hl. rewrite Zlen_app in *. pose proof (Zlen_nonneg rest).
  rewrite bool_decide_eq_false_2 by lia. rewrite characters_encode by done.
  replace (drop (Z.to_nat (Zlen (utf8_encode cp))) ((utf8_encode cp ++ rest) ++ more)) with (rest ++ more)
    by (unfold Zlen; by rewrite Nat2Z.id, <- app_assoc, drop_app_length).
  replace (Zlen (utf8_encode cp) + Zlen rest - Zlen (utf8_encode cp)) with (Zlen rest) by lia.
  apply Forall_app in Hb as [_ Hb]. rewrite length_app in Hf. unfold Zlen in Hl.
  destruct (IH rest (room - Zlen (utf8_encode cp)) Hb ltac:(lia) ltac:(lia)) as [H1|[H1 [H2|[H2 (pre & cs & r & -> & H3)]]]];
    [by left|right; by split; [|left]|right; split; [done|right]]. split; [done|].
  exists (utf8_encode cp ++ pre), cs, r. by rewrite <- app_assoc.
Qed.
