(* ===== verification/BsonWrite.v ===== *)
(** * What the BSON encoder adds to its buffer

    [writes m bytes] says that [m] appends [bytes] to any buffer, whatever its
    capacity, as long as the result stays below 1 GB. *)
From S2P Require Import Prelude CLib CNum Bytes LuaValue Bits Crypt CryptSpec Bson BsonUtf8.
#[local] Open Scope Z_scope.
#[local] Open Scope bits_scope.

Definition MAX_DOCUMENT : Z := 2 ^ 30.

Record holds (b : bson) (bytes : list Z) : Prop := {
  h_ptr : ptr b = bytes;
  h_size : size b = Zlen bytes;
  h_fits : size b ≤ cap b;
  h_cap : DEFAULT_CAP ≤ cap b
}.

Lemma holds_create : holds bson_create [].
Proof. by split. Qed.

(** the doubling ends above what is needed *)
Lemma double_cap_ok fuel : ∀ c need, DEFAULT_CAP ≤ c ≤ need → need < MAX_DOCUMENT → need < c * 2 ^ Z.of_nat fuel →
  ∃ c', double_cap fuel c need = Ret c' ∧ need < c' ∧ c ≤ c'.
Proof.
  unfold MAX_DOCUMENT, DEFAULT_CAP. induction fuel as [|fuel IH]; intros c need Hc Hn Hf; [lia|]. cbn [double_cap].
  rewrite chk_int_ok by (unfold INT_MAX; lia). rewrite Ret_bind. case_bool_decide as H; [|exists (c * 2); split_and!; [done|lia..]].
  destruct (IH (c * 2) need) as (c' & E & H1 & H2); [lia|done| |exists c'; split_and!; [done|lia..]].
  rewrite Nat2Z.inj_succ, Z.pow_succ_r in Hf by lia. lia.
Qed.

Lemma bson_reserve_ok b bytes n : holds b bytes → 0 ≤ n → Zlen bytes + n < MAX_DOCUMENT →
  ∃ b', bson_reserve b n = Ret b' ∧ holds b' bytes ∧ Zlen bytes + n ≤ cap b'.
Proof.
  intros [Hp Hs Hf Hc] Hn Hm. pose proof (Zlen_nonneg bytes). unfold bson_reserve.
  unfold MAX_DOCUMENT, DEFAULT_CAP in *.
  rewrite chk_int_ok by (unfold INT_MAX; lia). rewrite Ret_bind. case_bool_decide as Hle; [exists b; by split_and!; [|split|lia]|].
  destruct (double_cap_ok 32 (cap b) (size b + n)) as (c' & E & H1 & H2); [unfold DEFAULT_CAP; lia|unfold MAX_DOCUMENT; lia| |].
  { change (2 ^ Z.of_nat 32) with (2 ^ 32). lia. }
  rewrite E, Ret_bind. eexists. split; [done|]. cbn. split; [split; cbn; [done|done|lia|unfold DEFAULT_CAP; lia]|lia].
Qed.

Lemma store_ok b bytes new : holds b bytes → Zlen bytes + Zlen new ≤ cap b →
  ∃ b', store b new = Ret b' ∧ holds b' (bytes ++ new).
Proof.
  intros [Hp Hs Hf Hc] H. unfold store. rewrite bool_decide_eq_true_2 by lia. eexists. split; [done|].
  rewrite Hp, Hs. replace (Z.to_nat (Zlen bytes)) with (length bytes) by (unfold Zlen; lia). rewrite firstn_all. split; cbn; [done|by rewrite Zlen_app|lia|done].
Qed.

(** ** Appending *)
Definition writes (m : bson → lua bson) (bytes : list Z) : Prop :=
  ∀ b pre, holds b pre → Zlen pre + Zlen bytes < MAX_DOCUMENT → ∃ b', m b = LRet b' ∧ holds b' (pre ++ bytes).

#[export] Instance writes_proper : Proper (pointwise_relation bson eq ==> eq ==> iff) writes.
Proof. intros m m' E l l' <-. unfold writes. by setoid_rewrite E. Qed.

Lemma writes_nil : writes LRet [].
Proof. intros b pre Hb _. exists b. by rewrite app_nil_r. Qed.

Lemma writes_bind m f l l' : writes m l → writes f l' → writes (λ b, m b ≫= f) (l ++ l').
Proof.
  intros Hm Hf b pre Hb Hl. rewrite Zlen_app in Hl. pose proof (Zlen_nonneg l'). pose proof (Zlen_nonneg l).
  destruct (Hm b pre Hb ltac:(lia)) as (b1 & E1 & H1). rewrite E1, LRet_bind.
  destruct (Hf b1 (pre ++ l) H1) as (b2 & E2 & H2); [rewrite Zlen_app; lia|]. exists b2. by rewrite app_assoc.
Qed.

Lemma writes_store bytes new : bytes = new → writes (λ b, lift (b ← bson_reserve b (Zlen bytes); store b new)) bytes.
Proof.
  intros <- b pre Hb Hl. destruct (bson_reserve_ok b pre (Zlen bytes) Hb (Zlen_nonneg _) Hl) as (b1 & E1 & H1 & Hc).
  rewrite E1, Ret_bind. destruct (store_ok b1 pre bytes H1 Hc) as (b2 & -> & H2). by exists b2.
Qed.

(** the bytes of an integer do not depend on its sign *)
Lemma le_bytes_mod n : ∀ v, le_bytes n (v mod 256 ^ Z.of_nat n) = le_bytes n v.
Proof.
  induction n as [|n IH]; intros v; [done|]. cbn [le_bytes]. rewrite Nat2Z.inj_succ, Z.pow_succ_r by lia.
  assert (0 < 256 ^ Z.of_nat n) by lia. rewrite Z.rem_mul_r by lia. f_equal.
  - rewrite Z.mul_comm, Z.mod_add, Z.mod_mod; lia.
  - rewrite Z.mul_comm, Z.div_add by lia. rewrite (Z.div_small (v mod 256)) by (apply mod_range; lia). rewrite Z.add_0_l. apply IH.
Qed.
Lemma int32_bytes v : [u32 v .& 0xff; (u32 v >> 8) .& 0xff; (u32 v >> 16) .& 0xff; (u32 v >> 24) .& 0xff] = le_bytes 4 v.
Proof.
  rewrite <- (le_bytes_mod 4 v). change (v mod 256 ^ Z.of_nat 4) with (u32 v). rewrite byte_low, !byte_at by lia.
  cbn [le_bytes]. rewrite !Z.div_div by lia. done.
Qed.
Lemma int64_bytes v : (λ i, (v >> i) .& 0xff) <$> [0; 8; 16; 24; 32; 40; 48; 56] = le_bytes 8 v.
Proof. cbn [fmap list_fmap]. rewrite !byte_at by lia. rewrite Z.div_1_r. cbn [le_bytes]. rewrite !Z.div_div by lia. done. Qed.

Lemma writes_byte v : byte v → writes (λ b, lift (write_byte b v)) [v].
Proof.
  intros Hv. apply (writes_store [v] [u8 v]). f_equal. unfold u8. symmetry. by apply Z.mod_small.
Qed.
Lemma writes_int32 v : writes (λ b, lift (write_int32 b v)) (le_bytes 4 v).
Proof. apply (writes_store (le_bytes 4 v)). symmetry. apply int32_bytes. Qed.
Lemma writes_double v : writes (λ b, lift (write_double b v)) (le_bytes 8 v).
Proof. apply (writes_store (le_bytes 8 v)). symmetry. apply int64_bytes. Qed.
Lemma writes_int64 v : writes (λ b, lift (write_int64 b v)) (le_bytes 8 v).
Proof.
  apply (writes_store (le_bytes 8 v)). cbv zeta. rewrite int64_bytes. symmetry.
  change (u64 v) with (v mod 256 ^ Z.of_nat 8). apply le_bytes_mod.
Qed.
Lemma writes_bytes l : writes (λ b, append_bytes b l) l.
Proof.
  intros b pre Hb Hl. pose proof (writes_store l l eq_refl b pre Hb Hl) as H. unfold append_bytes.
  unfold MAX_DOCUMENT in Hl. pose proof (Zlen_nonneg pre). pose proof (Zlen_nonneg l).
  by rewrite i32_small by lia.
Qed.

(** ** Strings *)

(** every outcome of writing a string *)
Lemma write_string_spec s more b pre : Forall byte s → holds b pre → Zlen pre + Zlen s + 1 < MAX_DOCUMENT →
  characters s ∧ (∃ b', write_string b (s ++ more) (Zlen s) = LRet b' ∧ holds b' (pre ++ s ++ [0])) ∨
  ¬ characters s ∧ (write_string b (s ++ more) (Zlen s) = LError (Message "Invalid utf8 string") ∨
                    write_string b (s ++ more) (Zlen s) = LUndef ∧ shift_overflow s).
Proof.
  intros Hs Hb Hl. unfold write_string. pose proof (Zlen_nonneg s). pose proof (Zlen_nonneg pre). unfold MAX_DOCUMENT in Hl.
  assert (i32 (u64 (Zlen s + 1)) = Zlen s + 1) as ->.
  { unfold u64. rewrite Z.mod_small by lia. apply i32_small. lia. }
  destruct (bson_reserve_ok b pre (Zlen s + 1) Hb ltac:(lia)) as (b1 & E1 & H1 & Hc); [unfold MAX_DOCUMENT; lia|].
  rewrite E1. cbn [lift]. rewrite LRet_bind. pose proof H1 as [_ Hsz _ _].
  destruct (check_chars_spec more (S (length (s ++ more))) s (cap b1 - size b1) Hs ltac:(rewrite length_app; lia) ltac:(lia)) as [[Hch E]|[Hch E]].
  - left. split; [done|]. rewrite E, LRet_bind. replace (Z.to_nat (Zlen s)) with (length s) by (unfold Zlen; lia).
    rewrite take_app_length. destruct (store_ok b1 pre (s ++ [0]) H1) as (b2 & -> & H2); [rewrite Zlen_app, Zlen_cons, (@Zlen_nil Z); lia|].
    by exists b2.
  - right. split; [done|]. destruct E as [E|[E Ho]]; rewrite E; [by left|by right].
Qed.

Lemma writes_prefix s more : Forall byte s → characters s → writes (λ b, write_string b (s ++ more) (Zlen s)) (s ++ [0]).
Proof.
  intros Hs Hc b pre Hb Hl. rewrite Zlen_app, Zlen_cons, (@Zlen_nil Z) in Hl.
  destruct (write_string_spec s more b pre Hs Hb ltac:(lia)) as [[_ H]|[? _]]; done.
Qed.
Lemma writes_string s : Forall byte s → characters s → writes (λ b, write_string b s (Zlen s)) (s ++ [0]).
Proof. intros Hs Hc. pose proof (writes_prefix s [] Hs Hc) as H. by rewrite app_nil_r in H. Qed.

(** ** Lengths written afterwards *)
Lemma reserve_length_ok b pre : holds b pre → Zlen pre + 4 < MAX_DOCUMENT →
  ∃ b', reserve_length b = Ret (Zlen pre, b') ∧ holds b' (pre ++ [0; 0; 0; 0]).
Proof.
  intros Hb Hl. unfold reserve_length. destruct (bson_reserve_ok b pre 4 Hb) as (b1 & -> & H1 & Hc); [done|done|].
  rewrite Ret_bind. destruct (store_ok b1 pre [0; 0; 0; 0] H1 Hc) as (b2 & -> & H2). rewrite Ret_bind.
  exists b2. split; [|done]. by destruct Hb as [_ -> _ _].
Qed.

Lemma copy_at_middle (pre old new post : list Z) : length old = length new →
  copy_at (pre ++ old ++ post) (Zlen pre) new = pre ++ new ++ post.
Proof.
  intros Hl. unfold copy_at. replace (Z.to_nat (Zlen pre)) with (length pre) by (unfold Zlen; lia).
  by rewrite take_app_length, <- Hl, <- length_app, (app_assoc pre old), drop_app_length.
Qed.
Lemma write_length_ok b pre bytes v : holds b (pre ++ [0; 0; 0; 0] ++ bytes) →
  ∃ b', write_length b v (Zlen pre) = Ret b' ∧ holds b' (pre ++ le_bytes 4 v ++ bytes).
Proof.
  intros [Hp Hs Hf Hc]. unfold write_length. pose proof (Zlen_nonneg pre). pose proof (Zlen_nonneg bytes).
  rewrite Hp. rewrite bool_decide_eq_true_2 by (rewrite !Zlen_app; change (Zlen [0; 0; 0; 0]) with 4; lia).
  eexists. split; [done|]. rewrite int32_bytes, copy_at_middle by done.
  rewrite !Zlen_app in Hs. split; cbn [ptr size cap]; [done| |done|done]. rewrite !Zlen_app, Zlen_le_bytes. done.
Qed.

(** a length, a body, and what is done when the body is there *)
Lemma writes_reserved m bytes k v : writes m bytes →
  (∀ b off, size b = off + 4 + Zlen bytes → k off b = lift (write_length b v off)) →
  writes (λ b, '(off, b) ← lift (reserve_length b); b ← m b; k off b) (le_bytes 4 v ++ bytes).
Proof.
  intros Hm Hk b pre Hb Hl. rewrite Zlen_app, Zlen_le_bytes in Hl. pose proof (Zlen_nonneg bytes).
  destruct (reserve_length_ok b pre Hb ltac:(lia)) as (b1 & -> & H1). cbn [lift]. rewrite LRet_bind.
  destruct (Hm b1 _ H1) as (b2 & -> & H2); [rewrite Zlen_app; change (Zlen [0; 0; 0; 0]) with 4; lia|].
  rewrite LRet_bind, Hk.
  2:{ destruct H2 as [_ -> _ _]. rewrite !Zlen_app. change (Zlen [0; 0; 0; 0]) with 4. lia. }
  rewrite <- app_assoc in H2. destruct (write_length_ok b2 pre bytes v H2) as (b3 & -> & H3). by exists b3.
Qed.

(** the frame of a document around its elements *)
Definition document (elements : list Z) : list Z := le_bytes 4 (Zlen elements + 5) ++ elements ++ [0].

Lemma writes_document m elements : writes m elements →
  writes (λ b, '(length, b) ← lift (reserve_length b); b ← m b; end_document b length) (document elements).
Proof.
  intros Hm. unfold document.
  assert (writes (λ b, '(length, b) ← lift (reserve_length b); b ← (b ← m b; lift (write_byte b 0));
    lift (write_length b (size b - length) length)) (le_bytes 4 (Zlen elements + 5) ++ elements ++ [0])) as H.
  { apply writes_reserved; [apply writes_bind; [done|by apply writes_byte]|]. intros b off Hb.
    rewrite Zlen_app in Hb. change (Zlen [0]) with 1 in Hb. do 2 f_equal. lia. }
  eapply writes_proper; [|reflexivity|exact H]. intros b. destruct (lift (reserve_length b)) as [[off b1]| | |]; [|done..].
  rewrite !LRet_bind. by destruct (m b1).
Qed.

(** ** Keys and elements *)

(** a key: UTF-8 without a zero *)
Definition key_text (key : list Z) : Prop := Forall byte key ∧ characters key ∧ 0 ∉ key.

Definition element (type : Z) (key payload : list Z) : list Z := type :: key ++ 0 :: payload.

Lemma writes_key type key : byte type → key_text key → writes (λ b, append_key b type key) (element type key []).
Proof.
  intros Ht (Hb & Hc & _). apply (writes_bind (λ b, lift (write_byte b type)) (λ b, write_string b key (Zlen key)) [type]);
    [by apply writes_byte|by apply writes_string].
Qed.
Lemma writes_element type key m payload : byte type → key_text key → writes m payload →
  writes (λ b, append_key b type key ≫= m) (element type key payload).
Proof.
  intros Ht Hk Hm. assert (element type key payload = element type key [] ++ payload) as ->.
  { unfold element. by rewrite <- app_comm_cons, <- app_assoc. }
  apply writes_bind; [by apply writes_key|done].
Qed.
