(* ===== verification/BsonSpec.v ===== *)
(** * BSON: what a document stands for, and the round trip

    [encodes h v type payload val] is the format: the value [v], whose nesting is
    at most [h], is an element of the type [type] with the bytes [payload], and
    reads back as [val]. The encoder writes these bytes and the decoder reads
    that value. *)
From S2P Require Import Prelude CLib CNum Bytes LuaValue Bits Crypt CryptSpec Bson BsonUtf8 BsonWrite.
From Stdlib Require Import Ascii String.
#[local] Open Scope Z_scope.
#[local] Open Scope bits_scope.

(** ** Keys that are numbers *)
Lemma decimal_digits s : all_digits 10 s → Forall (λ x, 48 ≤ x ≤ 57) (decimal s).
Proof.
  induction s as [|c s IH]; intros Hd; [by apply Forall_nil|]. destruct Hd as [(up & v & -> & Hv) Hd].
  unfold decimal. cbn [list_ascii_of_string fmap list_fmap]. apply Forall_cons. split; [|by apply IH].
  unfold digit_chr. rewrite decide_True by lia. rewrite char_code_chr by lia. lia.
Qed.

Lemma ascii_text key : Forall (λ x, 1 ≤ x < 128) key → key_text key.
Proof.
  intros H. split; [|split].
  - eapply Forall_impl; [exact H|]. cbn. unfold byte. lia.
  - exists key. split; [eapply Forall_impl; [exact H|]; cbn; unfold code_point, MAXUNICODE; lia|].
    induction H as [|x key Hx H IH]; [done|]. change ((x :: key) ≫= utf8_encode) with (utf8_encode x ++ (key ≫= utf8_encode)).
    rewrite <- IH. unfold utf8_encode. by rewrite bool_decide_eq_true_2 by lia.
  - intros H0. rewrite Forall_forall in H. specialize (H _ H0). lia.
Qed.

Lemma c_text_decimal s : all_digits 10 s → c_text (decimal s) = s.
Proof.
  induction s as [|c s IH]; intros Hd; [done|]. pose proof (decimal_digits _ Hd) as Hr. destruct Hd as [_ Hd].
  unfold decimal in *. cbn [list_ascii_of_string fmap list_fmap] in *. apply Forall_cons in Hr as [Hc _]. cbn [c_text].
  rewrite bool_decide_eq_false_2 by lia. f_equal; [|by apply IH].
  unfold char_code. by rewrite N2Z.id, ascii_N_embedding.
Qed.

Lemma bson_numstr_ok i : 0 ≤ i < 2 ^ 31 - 1 → key_text (bson_numstr i) ∧ array_index (bson_numstr i) = LRet (i + 1).
Proof.
  intros Hi. assert (bson_numstr i = decimal (fmt_u i)) as ->.
  { unfold bson_numstr, fmt_d. rewrite decide_False by lia. by case_bool_decide. }
  assert (all_digits 10 (fmt_u i)) as Hd by (apply show_base_digits; [lia|lia|done]). split.
  - apply ascii_text. eapply Forall_impl; [by apply decimal_digits|]. cbn. lia.
  - unfold array_index. rewrite c_text_decimal by done. unfold strtol. rewrite strto_of_digits by (done || lia).
    destruct (strto_show_base 10 19 false ltac:(lia) i "") as (k & _ & E).
    { split; [lia|]. apply Z.lt_le_trans with (10 ^ 10); [lia|]. by apply Z.pow_le_mono_r. }
    unfold fmt_u. rewrite E. cbn [strto_digits fst]. rewrite decide_False by (unfold LONG_MAX; lia). cbv zeta.
    rewrite bool_decide_eq_false_2 by (unfold LONG_MAX; lia). rewrite i32_small by lia. done.
Qed.

(** ** The format *)

(** strings that carry a type: [0; type] and a body *)
Inductive object : list Z → Z → list Z → Prop :=
  | object_null t : t ∈ [BSON_MINKEY; BSON_MAXKEY; BSON_NULL] → object [0; t] t []
  | object_binary sub data : byte sub → Forall byte data →
      object (0 :: BSON_BINARY :: sub :: data) BSON_BINARY (le_bytes 4 (Zlen data) ++ sub :: data)
  | object_id id : Forall byte id → Zlen id = 12 → object (0 :: BSON_OBJECTID :: id) BSON_OBJECTID id
  | object_date ts : 0 ≤ ts < 2 ^ 32 → object (0 :: BSON_DATE :: le_bytes 4 ts) BSON_DATE (le_bytes 8 (ts * 1000))
  | object_timestamp inc ts : 0 ≤ inc < 2 ^ 32 → 0 ≤ ts < 2 ^ 32 →
      object (0 :: BSON_TIMESTAMP :: le_bytes 4 inc ++ le_bytes 4 ts) BSON_TIMESTAMP (le_bytes 4 inc ++ le_bytes 4 ts)
  | object_regex pat opt : key_text pat → key_text opt →
      object (0 :: BSON_REGEX :: pat ++ 0 :: opt ++ [0]) BSON_REGEX (pat ++ 0 :: opt ++ [0])
  | object_code t text : t ∈ [BSON_JSCODE; BSON_SYMBOL] → Forall byte text →
      object (0 :: t :: le_bytes 4 (Zlen text) ++ text) t (le_bytes 4 (Zlen text) ++ text)
  | object_pointer ref : Forall byte ref → 12 ≤ Zlen ref →
      object (0 :: BSON_DBPOINTER :: le_bytes 4 (Zlen ref - 12) ++ ref) BSON_DBPOINTER (le_bytes 4 (Zlen ref - 12) ++ ref)
  | object_codews scope : Forall byte scope →
      object (0 :: BSON_CODEWS :: le_bytes 4 (Zlen scope + 4) ++ scope) BSON_CODEWS (le_bytes 4 (Zlen scope + 4) ++ scope).

(** the elements of a table and the entries they become *)
Definition is_array (v : bvalue) : option (list bvalue) :=
  match v with
  | BLen (Some len) items => if bool_decide (len = Zlen items) then Some items else None
  | BTable border last items _ => if is_rawarray border last && bool_decide (border = Zlen items) then Some items else None
  | _ => None
  end.
Definition is_dict (v : bvalue) : option (list (bkey * bvalue)) :=
  match v with
  | BPairs es => Some es
  | BTable border last _ es => if is_rawarray border last then None else Some es
  | _ => None
  end.

Inductive encodes : nat → bvalue → Z → list Z → value → Prop :=
  | encodes_int32 h i : is_32bit i = true → encodes h (BInt i) BSON_INT32 (le_bytes 4 i) (VInt i)
  | encodes_int64 h i : is_32bit i = false → - 2 ^ 63 ≤ i < 2 ^ 63 → encodes h (BInt i) BSON_INT64 (le_bytes 8 i) (VInt i)
  | encodes_real h d : 0 ≤ d < 2 ^ 64 → encodes h (BReal d) BSON_REAL (le_bytes 8 d) (VReal d)
  | encodes_bool h x : encodes h (BBool x) BSON_BOOLEAN [if x then 1 else 0] (VBool x)
  | encodes_string h s : Forall byte s → characters s → ¬ (1 < Zlen s ∧ at_idx s 0 = 0) →
      encodes h (BString s) BSON_STRING (le_bytes 4 (Zlen s + 1) ++ s ++ [0]) (VString s)
  | encodes_object h s t payload : object s t payload → encodes h (BString s) t payload (VString s)
  | encodes_array h v items elements es : is_array v = Some items → encodes_items h 1 items elements es →
      encodes (S h) v BSON_ARRAY (document elements) (VTable es)
  | encodes_dict h v kvs elements es : is_dict v = Some kvs → encodes_entries h kvs elements es →
      encodes (S h) v BSON_DOCUMENT (document elements) (VTable es)
  (** an encoded document, in a userdata that may be longer *)
  | encodes_userdata h h' kvs elements es rest : encodes_entries h' kvs elements es → 
      encodes h (BUserdata (document elements ++ rest)) BSON_DOCUMENT (document elements) (VTable es)
with encodes_items : nat → Z → list bvalue → list Z → list (value * value) → Prop :=
  | items_nil h i : encodes_items h i [] [] []
  | items_cons h i v vs t payload val elements es : encodes h v t payload val → encodes_items h (i + 1) vs elements es →
      encodes_items h i (v :: vs) (element t (bson_numstr (i - 1)) payload ++ elements) ((VInt i, val) :: es)
with encodes_entries : nat → list (bkey * bvalue) → list Z → list (value * value) → Prop :=
  | entries_nil h : encodes_entries h [] [] []
  | entries_cons h key v kvs t payload val elements es : key_text key → encodes h v t payload val →
      encodes_entries h kvs elements es → Forall (λ p, p.1 ≠ VString key) es →
      encodes_entries h ((KString key, v) :: kvs) (element t key payload ++ elements) ((VString key, val) :: es).

Scheme encodes_mut := Minimality for encodes Sort Prop
  with items_mut := Minimality for encodes_items Sort Prop
  with entries_mut := Minimality for encodes_entries Sort Prop.
Combined Scheme encodes_mutind from encodes_mut, items_mut, entries_mut.

(** ** The encoder writes the format *)
#[local] Opaque le_bytes.

(** a condition on constants *)
Ltac decide_const :=
  repeat match goal with
  | |- context [@bool_decide ?P ?D] =>
      let b := eval vm_compute in (@bool_decide P D) in
      match b with true => idtac | false => idtac end;
      replace (@bool_decide P D) with b by (vm_compute; reflexivity)
  end.

Lemma after_zero_spec (pre opt post : list Z) fuel : 0 ∉ opt → ∀ i, 0 ≤ i ≤ Zlen opt → Zlen opt - i < Z.of_nat fuel →
  after_zero (pre ++ 0 :: opt ++ post) (Zlen pre + 1 + Zlen opt) fuel i = Ret (Zlen opt).
Proof.
  intros H0. pose proof (Zlen_nonneg pre). induction fuel as [|fuel IH]; intros i Hi Hf; [lia|]. cbn [after_zero].
  rewrite bool_decide_eq_true_2 by lia. destruct (decide (i = Zlen opt)) as [->|Hne].
  - assert (get_idx (pre ++ 0 :: opt ++ post) (Zlen pre + 1 + Zlen opt - Zlen opt - 1) = Ret 0) as ->; [|done].
    apply get_idx_Ret. split; [lia|]. replace (Zlen pre + 1 + Zlen opt - Zlen opt - 1) with (Zlen pre) by lia.
    unfold Zlen. by rewrite Nat2Z.id, list_lookup_middle.
  - destruct (lookup_lt_is_Some_2 opt (Z.to_nat (Zlen opt - i - 1))) as [x Hx]; [unfold Zlen in *; lia|].
    assert (get_idx (pre ++ 0 :: opt ++ post) (Zlen pre + 1 + Zlen opt - i - 1) = Ret x) as ->.
    { apply get_idx_Ret. split; [lia|]. rewrite lookup_app_r by (unfold Zlen in *; lia).
      replace (Z.to_nat (Zlen pre + 1 + Zlen opt - i - 1) - List.length pre)%nat with (S (Z.to_nat (Zlen opt - i - 1)))
        by (unfold Zlen in *; lia).
      change ((opt ++ post) !! Z.to_nat (Zlen opt - i - 1) = Some x). rewrite lookup_app_l; [done|unfold Zlen in *; lia]. }
    rewrite Ret_bind, bool_decide_eq_false_2; [apply IH; lia|]. intros ->. apply H0. by eapply list_elem_of_lookup_2.
Qed.

Lemma writes_regex pat opt : key_text pat → key_text opt →
  writes (λ b, write_regex b ((pat ++ 0 :: opt ++ [0]) ++ [0]) (Zlen (0 :: BSON_REGEX :: pat ++ 0 :: opt ++ [0]))) (pat ++ 0 :: opt ++ [0]).
Proof.
  intros (Hp & Hpc & _) (Ho & Hoc & Ho0) b pre Hb Hl. pose proof (Zlen_nonneg pre) as N1. pose proof (Zlen_nonneg pat) as N2.
  pose proof (Zlen_nonneg opt) as N3. unfold MAX_DOCUMENT in Hl. rewrite !Zlen_app, Zlen_cons, Zlen_app in Hl.
  change (Zlen [0]) with 1 in Hl. unfold write_regex. cbv zeta.
  assert (u64 (Zlen (0 :: BSON_REGEX :: pat ++ 0 :: opt ++ [0]) - 3) = Zlen pat + 1 + Zlen opt) as ->.
  { rewrite !Zlen_cons, Zlen_app, Zlen_cons, Zlen_app. change (Zlen [0]) with 1. unfold u64. rewrite Z.mod_small; lia. }
  rewrite bool_decide_eq_false_2 by (rewrite !Zlen_app, Zlen_cons, Zlen_app; change (Zlen [0]) with 1; lia).
  assert ((pat ++ 0 :: opt ++ [0]) ++ [0] = pat ++ 0 :: opt ++ [0; 0]) as ->.
  { rewrite <- app_assoc. cbn [app]. by rewrite <- app_assoc. }
  rewrite after_zero_spec by (done || (unfold Zlen; rewrite ?length_app; cbn [List.length]; rewrite ?length_app; lia)).
  cbn [lift]. rewrite LRet_bind. replace (Zlen pat + 1 + Zlen opt - Zlen opt - 1) with (Zlen pat) by lia.
  replace (Zlen pat + 1 + Zlen opt - Zlen opt) with (Zlen pat + 1) by lia. unfold u64. rewrite Z.mod_small by lia.
  assert (drop (Z.to_nat (Zlen pat + 1)) (pat ++ 0 :: opt ++ [0; 0]) = opt ++ [0; 0]) as ->.
  { replace (Z.to_nat (Zlen pat + 1)) with (List.length (pat ++ [0])) by (rewrite length_app; unfold Zlen; cbn; lia).
    assert (pat ++ 0 :: opt ++ [0; 0] = (pat ++ [0]) ++ opt ++ [0; 0]) as -> by (by rewrite <- app_assoc). apply drop_app_length. }
  assert (pat ++ 0 :: opt ++ [0] = (pat ++ [0]) ++ (opt ++ [0])) as -> by (by rewrite <- app_assoc).
  apply (writes_bind (λ b, write_string b (pat ++ 0 :: opt ++ [0; 0]) (Zlen pat)) (λ b, write_string b (opt ++ [0; 0]) (Zlen opt)));
    [by apply writes_prefix..|done|].
  rewrite !Zlen_app. change (Zlen [0]) with 1. unfold MAX_DOCUMENT. lia.
Qed.

Lemma writes_binary sub data : byte sub → Forall byte data →
  writes (λ b, write_binary b (sub :: data)) (le_bytes 4 (Zlen data) ++ sub :: data).
Proof.
  intros Hs Hd. apply (writes_reserved (λ b, append_bytes b (sub :: data)) (sub :: data)
    (λ off b, lift (write_length b (Zlen (sub :: data) - 1) off))); [apply writes_bytes|].
  intros b off _. do 2 f_equal. rewrite Zlen_cons. lia.
Qed.

(** the case of [append_object] for a type *)
Ltac object_case t :=
  let b := fresh in
  intros b; unfold append_object; cbv zeta;
  change (at_idx _ 1) with t; cbn [drop]; decide_const; cbn match.

Lemma take_le_bytes n v l : take n (le_bytes n v ++ l) = le_bytes n v.
Proof. rewrite <- (le_bytes_length n v) at 1. apply take_app_length. Qed.
Lemma drop_le_bytes n v l : drop n (le_bytes n v ++ l) = l.
Proof. rewrite <- (le_bytes_length n v) at 1. apply drop_app_length. Qed.

Lemma tagged_long t (l : list Z) : 1 < Zlen (0 :: t :: l) ∧ at_idx (0 :: t :: l) 0 = 0.
Proof. rewrite !Zlen_cons. pose proof (Zlen_nonneg l). split; [lia|done]. Qed.

Lemma object_writes s t payload key : object s t payload → key_text key →
  writes (λ b, append_string b key s) (element t key payload).
Proof.
  intros Ho Hk. assert (∀ m, byte t → 1 < Zlen s ∧ at_idx s 0 = 0 → writes m payload →
    (∀ b, append_object b key s = append_key b t key ≫= m) → writes (λ b, append_string b key s) (element t key payload)) as Hw.
  { intros m Ht Hs Hm E. eapply writes_proper; [|reflexivity|by apply (writes_element t key m)].
    intros b. unfold append_string. by rewrite bool_decide_eq_true_2. }
  destruct Ho as [t Ht|sub data Hs Hd|id Hi Hl|ts Ht|inc ts Hi Ht|pat opt Hp Ho|t text Ht Hx|ref Hr Hl|scope Hs].
  - apply (Hw LRet); [|apply tagged_long|apply writes_nil|];
      set_unfold in Ht; destruct Ht as [-> | [-> | [-> | []]]]; try done.
  - apply (Hw (λ b, write_binary b (sub :: data))); [done|apply tagged_long|by apply writes_binary|].
    object_case BSON_BINARY. done.
  - apply (Hw (λ b, append_bytes b id)); [done|apply tagged_long|apply writes_bytes|]. object_case BSON_OBJECTID.
    rewrite bool_decide_eq_false_2; [done|]. rewrite !Zlen_cons, Hl. lia.
  - apply (Hw (λ b, lift (write_int64 b (ts * 1000)))); [done|apply tagged_long|apply writes_int64|]. object_case BSON_DATE.
    rewrite drop_0. pose proof (take_le_bytes 4 ts []) as E. rewrite app_nil_r in E. rewrite E, le_small by (change (256 ^ Z.of_nat 4) with (2 ^ 32); lia). done.
  - apply (Hw (λ b, lift (write_int32 b inc) ≫= λ b, lift (write_int32 b ts))); [done|apply tagged_long| |].
    + apply (writes_bind _ (λ b, lift (write_int32 b ts))); apply writes_int32.
    + object_case BSON_TIMESTAMP. rewrite drop_0, take_le_bytes, drop_le_bytes. pose proof (take_le_bytes 4 ts []) as E. rewrite app_nil_r in E.
      rewrite E, !le_small by (change (256 ^ Z.of_nat 4) with (2 ^ 32); lia). done.
  - apply (Hw (λ b, write_regex b ((pat ++ 0 :: opt ++ [0]) ++ [0]) (Zlen (0 :: BSON_REGEX :: pat ++ 0 :: opt ++ [0]))));
      [done|apply tagged_long|by apply writes_regex|]. object_case BSON_REGEX. done.
  - apply (Hw (λ b, append_bytes b (le_bytes 4 (Zlen text) ++ text))); [|apply tagged_long|apply writes_bytes|];
      set_unfold in Ht; destruct Ht as [-> | [-> | []]]; try done.
  - apply (Hw (λ b, append_bytes b (le_bytes 4 (Zlen ref - 12) ++ ref))); [done|apply tagged_long|apply writes_bytes|].
    object_case BSON_DBPOINTER. done.
  - apply (Hw (λ b, append_bytes b (le_bytes 4 (Zlen scope + 4) ++ scope))); [done|apply tagged_long|apply writes_bytes|].
    object_case BSON_CODEWS. done.
Qed.

Lemma writes_small m l : (Zlen l < MAX_DOCUMENT → writes m l) → writes m l.
Proof. intros H b pre Hb Hl. pose proof (Zlen_nonneg pre). apply H; [lia|done|done]. Qed.

Lemma Zlen_element t key payload : Zlen (element t key payload) = 2 + Zlen key + Zlen payload.
Proof. unfold element. rewrite Zlen_cons, Zlen_app, Zlen_cons. lia. Qed.
Lemma Zlen_document elements : Zlen (document elements) = Zlen elements + 5.
Proof. unfold document. rewrite !Zlen_app, Zlen_le_bytes. change (Zlen [0]) with 1. lia. Qed.

Lemma items_length h i vs elements es : encodes_items h i vs elements es → Zlen vs ≤ Zlen elements.
Proof.
  revert i elements es. induction vs as [|v vs IH]; intros i elements es H; inversion H; subst; [done|].
  rewrite Zlen_app, Zlen_cons, Zlen_element. pose proof (Zlen_nonneg (bson_numstr (i - 1))).
  match goal with |- context [Zlen payload] => pose proof (Zlen_nonneg payload) end.
  match goal with H : encodes_items _ _ vs _ _ |- _ => apply IH in H end. lia.
Qed.

Lemma get_length_document elements rest : Zlen elements + 5 < MAX_DOCUMENT →
  get_length (document elements ++ rest) = LRet (Zlen elements + 5).
Proof.
  unfold MAX_DOCUMENT. intros Hl. pose proof (Zlen_nonneg elements). pose proof (Zlen_nonneg rest). unfold get_length.
  rewrite bool_decide_eq_true_2 by (rewrite Zlen_app, Zlen_document; lia). unfold document.
  by rewrite <- app_assoc, take_le_bytes, i32_le by lia.
Qed.

Lemma object_type s t payload : object s t payload → byte t.
Proof.
  destruct 1 as [t Ht| | | | | |t ? Ht| |]; try done; set_unfold in Ht; destruct_or?; subst; done.
Qed.
Lemma encodes_type h v t payload val : encodes h v t payload val → byte t ∧ val ≠ VNil.
Proof. destruct 1; (split; [|done]); try done. by eapply object_type. Qed.

(** how a table is written *)
Lemma append_array fuel b key v items depth : is_array v = Some items → depth + 1 ≤ BSON_MAX_DEPTH → Zlen items < 2 ^ 30 →
  append_one (S fuel) b key v depth =
  append_key b BSON_ARRAY key ≫= λ b, pack_array (append_one fuel) items b (depth + 1) (Zlen items).
Proof.
  intros Ha Hd Hl. pose proof (Zlen_nonneg items).
  assert (u64 (Zlen items) = Zlen items) as Hu by (apply Z.mod_small; lia).
  destruct v as [| | | | | | |[len|] items'| |border last items' es]; try done; cbn [is_array] in Ha; case_match eqn:E; try done;
    injection Ha as ->; cbn [append_one]; unfold append_table;
    rewrite bool_decide_eq_false_2 by lia.
  - apply bool_decide_eq_true in E as ->. by rewrite Hu.
  - apply andb_prop in E as [-> ->%bool_decide_eq_true]. done.
Qed.
Lemma append_dict fuel b key v kvs depth : is_dict v = Some kvs → depth + 1 ≤ BSON_MAX_DEPTH →
  append_one (S fuel) b key v depth =
  append_key b BSON_DOCUMENT key ≫= λ b, pack_simple_dict (append_one fuel) kvs b (depth + 1).
Proof.
  intros Ha Hd. destruct v as [| | | | | | | |es|border last items' es]; try done; cbn [is_dict] in Ha;
    cbn [append_one]; unfold append_table; rewrite bool_decide_eq_false_2 by lia; [by injection Ha as ->|].
  destruct (is_rawarray border last); [done|]. by injection Ha as ->.
Qed.

(** the cases of the encoder that do not recur *)
Lemma integer_writes fuel i key depth : key_text key → 
  writes (λ b, append_one (S fuel) b key (BInt i) depth)
    (if is_32bit i then element BSON_INT32 key (le_bytes 4 i) else element BSON_INT64 key (le_bytes 8 i)).
Proof.
  intros Hk. cbn [append_one]. unfold append_integer. destruct (is_32bit i).
  - apply (writes_element _ _ (λ b, lift (write_int32 b i))); [done|done|apply writes_int32].
  - apply (writes_element _ _ (λ b, lift (write_int64 b i))); [done|done|apply writes_int64].
Qed.
Lemma string_writes fuel s key depth : Forall byte s → characters s → ¬ (1 < Zlen s ∧ at_idx s 0 = 0) → key_text key →
  writes (λ b, append_one (S fuel) b key (BString s) depth) (element BSON_STRING key (le_bytes 4 (Zlen s + 1) ++ s ++ [0])).
Proof.
  intros Hs Hc Hp Hk. cbn [append_one]. unfold append_string. rewrite bool_decide_eq_false_2 by done.
  apply (writes_element _ _ (λ b, '(off, b) ← lift (reserve_length b); b ← write_string b s (Zlen s); lift (write_length b (Zlen s + 1) off)));
    [done|done|].
  apply (writes_reserved (λ b, write_string b s (Zlen s)) (s ++ [0]) (λ off b, lift (write_length b (Zlen s + 1) off)));
    [by apply writes_string|done].
Qed.
Lemma userdata_writes fuel elements rest key depth : key_text key → Zlen elements + 5 < MAX_DOCUMENT →
  writes (λ b, append_one (S fuel) b key (BUserdata (document elements ++ rest)) depth) (element BSON_DOCUMENT key (document elements)).
Proof.
  intros Hk Hl. cbn [append_one]. unfold append_userdata.
  apply (writes_element _ _ (λ b, sz ← get_length (document elements ++ rest);
    if bool_decide (0 ≤ sz ≤ Zlen (document elements ++ rest)) then append_bytes b (take (Z.to_nat sz) (document elements ++ rest)) else LUndef));
    [done|done|].
  rewrite get_length_document by lia. eapply writes_proper; [|reflexivity|apply writes_bytes]. intros b. rewrite LRet_bind.
  rewrite <- Zlen_document, bool_decide_eq_true_2 by (rewrite Zlen_app; pose proof (Zlen_nonneg rest); pose proof (Zlen_nonneg (document elements)); lia).
  f_equal. unfold Zlen. by rewrite Nat2Z.id, take_app_length.
Qed.

Lemma encodes_writes :
  (∀ h v t payload val, encodes h v t payload val → ∀ key depth fuel, key_text key → (h < fuel)%nat →
     depth + Z.of_nat h ≤ BSON_MAX_DEPTH → writes (λ b, append_one fuel b key v depth) (element t key payload)) ∧
  (∀ h i vs elements es, encodes_items h i vs elements es → ∀ depth fuel, (h < fuel)%nat →
     depth + Z.of_nat h ≤ BSON_MAX_DEPTH → 1 ≤ i → i + Zlen vs ≤ 2 ^ 30 →
     writes (λ b, pack_items (append_one fuel) vs b depth (i - 1 + Zlen vs) i) elements) ∧
  (∀ h kvs elements es, encodes_entries h kvs elements es → ∀ depth fuel, (h < fuel)%nat →
     depth + Z.of_nat h ≤ BSON_MAX_DEPTH → writes (λ b, pack_entries (append_one fuel) kvs b depth) elements).
Proof.
  apply encodes_mutind.
  - intros h i Hi key depth fuel Hk Hf Hd. destruct fuel as [|fuel]; [lia|]. pose proof (integer_writes fuel i key depth Hk) as H. by rewrite Hi in H.
  - intros h i Hi Hr key depth fuel Hk Hf Hd. destruct fuel as [|fuel]; [lia|]. pose proof (integer_writes fuel i key depth Hk) as H. by rewrite Hi in H.
  - intros h d Hr key depth fuel Hk Hf Hd. destruct fuel as [|fuel]; [lia|]. cbn [append_one].
    apply (writes_element _ _ (λ b, lift (write_double b d))); [done|done|apply writes_double].
  - intros h x key depth fuel Hk Hf Hd. destruct fuel as [|fuel]; [lia|]. cbn [append_one].
    apply (writes_element _ _ (λ b, lift (write_byte b (if x then 1 else 0)))); [done|done|].
    apply writes_byte. by destruct x.
  - intros h s Hs Hc Hp key depth fuel Hk Hf Hd. destruct fuel as [|fuel]; [lia|]. by apply string_writes.
  - intros h s t payload Ho key depth fuel Hk Hf Hd. destruct fuel as [|fuel]; [lia|]. by apply object_writes.
  - intros h v items elements es Ha Hi IH key depth fuel Hk Hf Hd. apply writes_small. rewrite Zlen_element, Zlen_document.
    pose proof (items_length _ _ _ _ _ Hi). pose proof (Zlen_nonneg key). unfold MAX_DOCUMENT. intros Hl.
    destruct fuel as [|fuel]; [lia|]. eapply writes_proper; [intros b; by apply append_array; (done || lia)|reflexivity|].
    apply writes_element; [done|done|]. apply (writes_document (λ b, pack_items (append_one fuel) items b (depth + 1) (Zlen items) 1)).
    replace (Zlen items) with (1 - 1 + Zlen items) by lia. apply IH; lia.
  - intros h v kvs elements es Ha Hi IH key depth fuel Hk Hf Hd.
    destruct fuel as [|fuel]; [lia|]. eapply writes_proper; [intros b; by apply append_dict; (done || lia)|reflexivity|].
    apply writes_element; [done|done|]. apply (writes_document (λ b, pack_entries (append_one fuel) kvs b (depth + 1))).
    apply IH; lia.
  - intros h h' kvs elements es rest Hi _ key depth fuel Hk Hf Hd. apply writes_small. rewrite Zlen_element, Zlen_document.
    pose proof (Zlen_nonneg key). intros Hl. destruct fuel as [|fuel]; [lia|]. apply userdata_writes; [done|lia].
  - intros h i depth fuel Hf Hd Hi Hl. change (Zlen (@nil bvalue)) with 0.
    eapply writes_proper; [|reflexivity|apply writes_nil]. intros b. cbn [pack_items]. by rewrite bool_decide_eq_false_2 by lia.
  - intros h i v vs t payload val elements es Hv IHv Hvs IHvs depth fuel Hf Hd Hi Hl. rewrite Zlen_cons in *. pose proof (Zlen_nonneg vs).
    eapply writes_proper; [|reflexivity|].
    2:{ apply (writes_bind (λ b, append_one fuel b (bson_numstr (i - 1)) v depth) (λ b, pack_items (append_one fuel) vs b depth (i + 1 - 1 + Zlen vs) (i + 1)));
        [apply IHv; [by apply bson_numstr_ok; lia|done|done]|apply IHvs; lia]. }
    intros b. cbn [pack_items]. rewrite bool_decide_eq_true_2 by lia. unfold u32. rewrite Z.mod_small by lia.
    by replace (i - 1 + (1 + Zlen vs)) with (i + 1 - 1 + Zlen vs) by lia.
  - intros h depth fuel Hf Hd. apply writes_nil.
  - intros h key v kvs t payload val elements es Hk Hv IHv Hvs IHvs _ depth fuel Hf Hd.
    apply (writes_bind (λ b, append_one fuel b key v depth) (λ b, pack_entries (append_one fuel) kvs b depth)); [by apply IHv|by apply IHvs].
Qed.
