(* ===== verification/BsonRead.v ===== *)
(** * The BSON decoder reads what the format says *)
From S2P Require Import Prelude CLib CNum Bytes LuaValue Bits Crypt CryptSpec Bson BsonUtf8 BsonWrite BsonSpec.
#[local] Open Scope Z_scope.
#[local] Open Scope bits_scope.
#[local] Opaque le_bytes.

Section read.
Context (memory : list Z).

(** the bytes [l] are at [p] *)
Definition at_pos (p : Z) (l : list Z) : Prop := 0 ≤ p ∧ ∃ post, drop (Z.to_nat p) memory = l ++ post.

Lemma at_pos_app p a b : at_pos p (a ++ b) ↔ at_pos p a ∧ at_pos (p + Zlen a) b.
Proof.
  assert (∀ post : list Z, 0 ≤ p → drop (Z.to_nat p) memory = a ++ post → drop (Z.to_nat (p + Zlen a)) memory = post) as Hd.
  { intros post Hp E. replace (Z.to_nat (p + Zlen a)) with (Z.to_nat p + List.length a)%nat by (unfold Zlen; lia).
    by rewrite <- drop_drop, E, drop_app_length. }
  pose proof (Zlen_nonneg a). split.
  - intros (Hp & post & E). rewrite <- app_assoc in E. split; [split; [done|by eexists]|]. split; [lia|]. exists post. by apply Hd.
  - intros [(Hp & post & E) (_ & post' & E')]. rewrite (Hd post) in E' by done. split; [done|]. exists post'. by rewrite <- app_assoc, <- E'.
Qed.

Lemma at_pos_length p l : at_pos p l → 0 ≤ p ∧ p + Zlen l ≤ Zlen memory ∨ l = [].
Proof.
  intros (Hp & post & E). destruct (decide (l = [])) as [->|Hl]; [by right|left]. split; [done|].
  apply (f_equal List.length) in E. rewrite length_drop, length_app in E. destruct l; [done|]. unfold Zlen. cbn [List.length] in *. lia.
Qed.

(** [f] reads [a] from the [n] bytes at [p] *)
Definition reads {A} (f : bson_reader → lua (A * bson_reader)) (p n : Z) (a : A) : Prop :=
  ∀ r, n ≤ r → f (Reader p r) = LRet (a, Reader (p + n) (r - n)).

Lemma bytes_from_at p l : at_pos p l → l ≠ [] ∨ p ≤ Zlen memory → bytes_from memory p (Zlen l) = LRet l.
Proof.
  intros Ha Hl. pose proof (at_pos_length p l Ha) as Hr. destruct Ha as (Hp & post & E). unfold bytes_from. pose proof (Zlen_nonneg l).
  rewrite bool_decide_eq_true_2.
  - f_equal. rewrite E. unfold Zlen. by rewrite Nat2Z.id, take_app_length.
  - destruct Hr as [Hr | ->]; [lia|]. change (Zlen (@nil Z)) with 0 in *. destruct Hl; [done|lia].
Qed.

Lemma bytes_from_1 p x : at_pos p [x] → bytes_from memory p 1 = LRet [x].
Proof. intros Ha. apply (bytes_from_at p [x] Ha). by left. Qed.

Lemma check_reader_ok p r n : n ≤ r → check_reader (Reader p r) n = LRet ().
Proof. intros. unfold check_reader. by rewrite bool_decide_eq_false_2 by (cbn; lia). Qed.

Lemma read_byte_at p x : at_pos p [x] → reads (read_byte memory) p 1 x.
Proof.
  intros Ha r Hr. unfold read_byte. rewrite check_reader_ok by done. rewrite LRet_bind. cbn [r_ptr].
  rewrite (bytes_from_1 p x) by done. rewrite LRet_bind. cbn [le_value]. by rewrite Z.add_0_r.
Qed.
Lemma le_bytes_nonempty n v : (0 < n)%nat → le_bytes n v ≠ [].
Proof. intros Hn E. pose proof (le_bytes_length n v) as Hl. rewrite E in Hl. cbn in Hl. lia. Qed.

Lemma read_int32_any p v : at_pos p (le_bytes 4 v) → reads (read_int32 memory) p 4 (i32 v).
Proof.
  intros Ha r Hr. unfold read_int32. rewrite check_reader_ok by done. rewrite LRet_bind. cbn [r_ptr].
  pose proof (bytes_from_at p _ Ha) as E. rewrite Zlen_le_bytes in E. change (Z.of_nat 4) with 4 in E.
  rewrite E by (left; apply le_bytes_nonempty; lia). rewrite LRet_bind, le_roundtrip.
  change (256 ^ Z.of_nat 4) with (2 ^ 32). unfold i32. by rewrite Zplus_mod_idemp_l.
Qed.
Lemma read_int32_at p v : at_pos p (le_bytes 4 v) → - 2 ^ 31 ≤ v < 2 ^ 31 → reads (read_int32 memory) p 4 v.
Proof. intros Ha Hv. pose proof (read_int32_any p v Ha) as H. by rewrite i32_small in H. Qed.
Lemma i32_bytes v : le_bytes 4 (i32 v) = le_bytes 4 v.
Proof.
  rewrite <- (le_bytes_mod 4 (i32 v)), <- (le_bytes_mod 4 v). f_equal. change (256 ^ Z.of_nat 4) with (2 ^ 32). unfold i32.
  rewrite Zminus_mod_idemp_l. f_equal. lia.
Qed.
Lemma read_int64_at p v : at_pos p (le_bytes 8 v) → - 2 ^ 63 ≤ v < 2 ^ 63 → reads (read_int64 memory) p 8 v.
Proof.
  intros Ha Hv r Hr. unfold read_int64. rewrite check_reader_ok by done. rewrite LRet_bind. cbn [r_ptr].
  pose proof (bytes_from_at p _ Ha) as E. rewrite Zlen_le_bytes in E. change (Z.of_nat 8) with 8 in E.
  rewrite E by (left; apply le_bytes_nonempty; lia). by rewrite LRet_bind, i64_le.
Qed.
Lemma read_double_at p v : at_pos p (le_bytes 8 v) → 0 ≤ v < 2 ^ 64 → reads (read_double memory) p 8 v.
Proof.
  intros Ha Hv r Hr. unfold read_double. rewrite check_reader_ok by done. rewrite LRet_bind. cbn [r_ptr].
  pose proof (bytes_from_at p _ Ha) as E. rewrite Zlen_le_bytes in E. change (Z.of_nat 8) with 8 in E.
  rewrite E by (left; apply le_bytes_nonempty; lia). by rewrite LRet_bind, le_small.
Qed.
Lemma skip_bytes_at p n : reads (λ br, read_bytes br n) p n p.
Proof. intros r Hr. unfold read_bytes. by rewrite check_reader_ok. Qed.

Lemma cstring_loop_at p s r fuel : at_pos p (s ++ [0]) → 0 ∉ s → Zlen s + 1 ≤ r → ∀ i, 0 ≤ i ≤ Zlen s → Zlen s - i < Z.of_nat fuel →
  cstring_loop memory fuel (Reader p r) i = LRet (Zlen s).
Proof.
  intros Ha H0 Hr. induction fuel as [|fuel IH]; intros i Hi Hf; [lia|]. cbn [cstring_loop r_size r_ptr].
  rewrite bool_decide_eq_false_2 by lia.
  assert (∃ x, at_pos (p + i) [x] ∧ (i = Zlen s ∧ x = 0 ∨ i < Zlen s ∧ x ≠ 0)) as (x & Hx & Hc).
  { destruct (decide (i = Zlen s)) as [->|Hne]; [exists 0; split; [by apply at_pos_app in Ha as [_ Ha]|by left]|].
    destruct (lookup_lt_is_Some_2 s (Z.to_nat i)) as [x Hx]; [unfold Zlen in *; lia|]. exists x.
    pose proof (take_drop_middle _ _ _ Hx) as E. rewrite <- E, <- app_assoc in Ha. apply at_pos_app in Ha as [_ Ha].
    replace (Zlen (take (Z.to_nat i) s)) with i in Ha by (unfold Zlen in *; rewrite length_take; lia).
    cbn [app] in Ha. split; [by apply (at_pos_app _ [x]) in Ha as [? _]|]. right. split; [lia|]. intros ->. apply H0. by eapply list_elem_of_lookup_2. }
  rewrite (bytes_from_1 _ x) by done. rewrite LRet_bind. cbn [le_value]. rewrite Z.add_0_r.
  destruct Hc as [[-> ->]|[Hl Hx0]]; [by rewrite bool_decide_eq_true_2|]. rewrite bool_decide_eq_false_2 by done. apply IH; lia.
Qed.
Lemma read_cstring_at p s : at_pos p (s ++ [0]) → 0 ∉ s → reads (read_cstring memory) p (Zlen s + 1) s.
Proof.
  intros Ha H0 r Hr. unfold read_cstring. pose proof (Zlen_nonneg s).
  destruct (at_pos_length _ _ Ha) as [Hl|Hl]; [|by apply app_nil in Hl as [_ Hl]]. rewrite Zlen_app in Hl. change (Zlen [0]) with 1 in Hl.
  rewrite (cstring_loop_at p s) by (done || unfold Zlen in *; lia). rewrite LRet_bind. cbn [r_ptr].
  apply at_pos_app in Ha as [Ha _]. rewrite bytes_from_at by (done || right; lia). rewrite LRet_bind. unfold advance. cbn [r_ptr r_size].
  do 3 f_equal; lia.
Qed.

(** ** The values that are no documents *)
Context (unpack_dict : bson_reader → bool → lua (value * bson_reader)).
#[local] Abbreviation read := (read_value memory unpack_dict).

(** the case of a type *)
Ltac read_case := intros r Hr; unfold read_value, read_scalar; decide_const; cbn match.

Lemma reader_eq p q r r' : p = q → r = r' → Reader p r = Reader q r'.
Proof. by intros -> ->. Qed.

Lemma add_bytes_at held p l : at_pos p l → l ≠ [] ∨ p ≤ Zlen memory → add_bytes memory held p (Zlen l) = LRet l.
Proof. intros Ha Hl. unfold add_bytes. rewrite bool_decide_eq_true_2 by apply Zlen_nonneg. by apply bytes_from_at. Qed.

Lemma make_object_at t p l n : at_pos p l → l ≠ [] → n = Zlen l → make_object memory t p n = LRet (VString (0 :: t :: l)).
Proof. intros Ha Hl ->. unfold make_object. by rewrite add_bytes_at by (done || by left). Qed.

(** an object whose body starts with its length *)
Lemma counted_at p n (l : list Z) : at_pos p (le_bytes 4 n ++ l) → - 2 ^ 31 ≤ n < 2 ^ 31 →
  reads (read_int32 memory) p 4 n ∧ le_bytes 4 n ++ l ≠ [] ∧ Zlen (le_bytes 4 n ++ l) = 4 + Zlen l.
Proof.
  intros Ha Hn. split; [apply read_int32_at; [by apply at_pos_app in Ha as [? _]|done]|].
  split; [intros [E _]%app_nil; by apply (le_bytes_nonempty 4 n) in E; [|lia]|]. by rewrite Zlen_app, Zlen_le_bytes.
Qed.

Lemma object_reads s t payload p : object s t payload → at_pos p payload → Zlen payload < MAX_DOCUMENT → reads (read t) p (Zlen payload) (VString s).
Proof.
  unfold MAX_DOCUMENT. intros Ho Ha Hm. destruct Ho as [t Ht|sub data Hs Hd|id Hi Hl|ts Ht|inc ts Hi Ht|pat opt Hp Ho|t text Ht Hx|ref Hx Hl|scope Hs].
  - set_unfold in Ht. destruct Ht as [-> | [-> | [-> | []]]]; read_case; rewrite Z.add_0_r, Z.sub_0_r; done.
  - pose proof (Zlen_nonneg data). rewrite Zlen_app, Zlen_cons, Zlen_le_bytes in Hm. 
    destruct (counted_at p _ _ Ha ltac:(lia)) as (Hn & _ & El). rewrite El, Zlen_cons. read_case.
    rewrite Hn by lia. rewrite LRet_bind. apply at_pos_app in Ha as [_ Ha]. rewrite Zlen_le_bytes in Ha.
    apply (at_pos_app _ [sub]) in Ha as [Hb Ha]. rewrite (read_byte_at _ sub) by (done || lia). rewrite LRet_bind.
    rewrite skip_bytes_at by lia. rewrite LRet_bind.
    rewrite add_bytes_at; [|done|right].
    2:{ pose proof (at_pos_length _ _ Hb) as [H1|H1]; [change (Zlen [sub]) with 1 in H1; lia|done]. }
    rewrite LRet_bind. do 2 f_equal. apply reader_eq; lia.
  - rewrite Hl. read_case. rewrite skip_bytes_at by lia. rewrite LRet_bind. rewrite (make_object_at _ _ _ _ Ha) by (done || by intros ->). done.
  - rewrite Zlen_le_bytes. read_case. rewrite (read_int64_at p (ts * 1000)) by (done || lia). rewrite LRet_bind.
    rewrite Z.quot_mul by lia. unfold u32. by rewrite Z.mod_small.
  - rewrite Zlen_app, !Zlen_le_bytes. apply at_pos_app in Ha as [Ha1 Ha2]. rewrite Zlen_le_bytes in Ha2. read_case.
    rewrite (read_int32_any p inc) by (done || lia). rewrite LRet_bind. rewrite (read_int32_any _ ts) by (done || lia). rewrite LRet_bind.
    rewrite !i32_bytes. do 2 f_equal. apply reader_eq; lia.
  - destruct Hp as (_ & _ & Hp), Ho as (_ & _ & Ho). rewrite Zlen_app, Zlen_cons, Zlen_app. change (Zlen [0]) with 1.
    pose proof (Zlen_nonneg pat). pose proof (Zlen_nonneg opt).
    assert (pat ++ 0 :: opt ++ [0] = (pat ++ [0]) ++ (opt ++ [0])) as Ep by (by rewrite <- app_assoc). rewrite Ep in Ha.
    apply at_pos_app in Ha as [Ha1 Ha2]. rewrite Zlen_app in Ha2. change (Zlen [0]) with 1 in Ha2. read_case.
    rewrite (read_cstring_at _ pat) by (done || lia). rewrite LRet_bind.
    rewrite (read_cstring_at _ opt) by (done || lia). rewrite LRet_bind. do 2 f_equal. apply reader_eq; lia.
  - pose proof (Zlen_nonneg text). rewrite Zlen_app, Zlen_le_bytes in Hm. 
    destruct (counted_at p _ _ Ha ltac:(lia)) as (Hn & Hne & El). rewrite El.
    set_unfold in Ht. destruct Ht as [-> | [-> | []]]; read_case; rewrite Hn by lia; rewrite LRet_bind;
      rewrite skip_bytes_at by lia; rewrite LRet_bind; rewrite chk_int_ok by (unfold INT_MAX; lia); cbn [lift r_ptr];
      rewrite LRet_bind; rewrite (make_object_at _ _ _ _ Ha Hne) by lia; rewrite LRet_bind;
      do 2 f_equal; apply reader_eq; lia.
  - rewrite Zlen_app, Zlen_le_bytes in Hm. destruct (counted_at p _ _ Ha ltac:(lia)) as (Hn & Hne & El). rewrite El.
    read_case. rewrite Hn by lia. rewrite LRet_bind. rewrite !chk_int_ok by (unfold INT_MAX; lia). cbn [lift r_ptr]. rewrite LRet_bind.
    rewrite skip_bytes_at by lia. rewrite !LRet_bind.
    rewrite (make_object_at _ _ _ _ Ha Hne) by lia. rewrite LRet_bind.
    do 2 f_equal. apply reader_eq; lia.
  - pose proof (Zlen_nonneg scope). rewrite Zlen_app, Zlen_le_bytes in Hm. destruct (counted_at p _ _ Ha ltac:(lia)) as (Hn & Hne & El). rewrite El.
    read_case. rewrite Hn by lia. rewrite LRet_bind. rewrite chk_int_ok by (unfold INT_MAX; lia). cbn [lift r_ptr]. rewrite LRet_bind.
    rewrite skip_bytes_at by lia. rewrite LRet_bind.
    rewrite (make_object_at _ _ _ _ Ha Hne) by lia. rewrite LRet_bind.
    do 2 f_equal. apply reader_eq; lia.
Qed.
End read.

(** ** Documents *)
Section documents.
Context (memory : list Z).

Lemma document_parts pos elements : at_pos memory pos (document elements) →
  at_pos memory pos (le_bytes 4 (Zlen elements + 5)) ∧ at_pos memory (pos + 4) elements ∧ at_pos memory (pos + 4 + Zlen elements) [0].
Proof. intros [Ha1 Ha2]%at_pos_app. rewrite Zlen_le_bytes in Ha2. by apply at_pos_app in Ha2. Qed.

(** the frame is read, and the elements are left to the loop *)
Lemma unpack_frame fuel array elements pos r : at_pos memory pos (document elements) → Zlen elements + 5 < MAX_DOCUMENT →
  Zlen elements + 5 ≤ r →
  unpack_dict memory (S fuel) (Reader pos r) array =
  es ← unpack_fields memory (unpack_dict memory fuel) (S (List.length memory)) (Reader (pos + 4) (Zlen elements)) array [];
  LRet (VTable es, Reader (pos + (Zlen elements + 5)) (r - (Zlen elements + 5))).
Proof.
  unfold MAX_DOCUMENT. intros Ha Hm Hr. pose proof (Zlen_nonneg elements). destruct (document_parts _ _ Ha) as (Ha1 & _ & Ha3).
  cbn [unpack_dict]. rewrite (read_int32_at _ _ _ Ha1) by lia. rewrite LRet_bind.
  rewrite chk_int_ok by (unfold INT_MAX; lia). cbn [lift]. rewrite LRet_bind. rewrite skip_bytes_at by lia. rewrite LRet_bind.
  replace (Zlen elements + 5 - 5) with (Zlen elements) by lia. rewrite (read_byte_at _ _ _ Ha3) by lia. rewrite LRet_bind.
  change (bool_decide (0 ≠ 0)) with false. cbn match. destruct (unpack_fields _ _ _ _ _ _); [|reflexivity..]. rewrite !LRet_bind.
  do 2 f_equal. apply reader_eq; lia.
Qed.

Lemma document_reads fuel array elements es pos : at_pos memory pos (document elements) → Zlen elements + 5 < MAX_DOCUMENT →
  unpack_fields memory (unpack_dict memory fuel) (S (List.length memory)) (Reader (pos + 4) (Zlen elements)) array [] = LRet es →
  reads (λ br, unpack_dict memory (S fuel) br array) pos (Zlen elements + 5) (VTable es).
Proof. intros Ha Hm E r Hr. by rewrite (unpack_frame _ _ elements) by done; rewrite E. Qed.

(** one element *)
Lemma element_parts pos t key payload : at_pos memory pos (element t key payload) →
  at_pos memory pos [t] ∧ at_pos memory (pos + 1) (key ++ [0]) ∧ at_pos memory (pos + 2 + Zlen key) payload.
Proof.
  assert (element t key payload = [t] ++ (key ++ [0]) ++ payload) as ->.
  { unfold element. cbn [app]. f_equal. by rewrite <- app_assoc. }
  intros [Ha1 Ha2]%at_pos_app. apply at_pos_app in Ha2 as [Ha2 Ha3]. change (Zlen [t]) with 1 in *.
  rewrite Zlen_app in Ha3. change (Zlen [0]) with 1 in Ha3. by replace (pos + 2 + Zlen key) with (pos + 1 + (Zlen key + 1)) by lia.
Qed.
(** the reading of an element before the others *)
Lemma fields_step ud fuel array t key payload es more pos :
  at_pos memory pos (element t key payload) → 0 ∉ key →
  unpack_fields memory ud (S fuel) (Reader pos (Zlen (element t key payload ++ more))) array es =
  k ← entry_key array key;
  '(v, br) ← read_value memory ud t (Reader (pos + 2 + Zlen key) (Zlen payload + Zlen more));
  es ← rawset es k v;
  unpack_fields memory ud fuel br array es.
Proof.
  intros Ha H0. pose proof (Zlen_nonneg key). pose proof (Zlen_nonneg payload). pose proof (Zlen_nonneg more).
  rewrite Zlen_app, Zlen_element. cbn [unpack_fields]. rewrite bool_decide_eq_false_2 by (cbn [r_size]; lia).
  destruct (element_parts pos t key payload Ha) as (Ha1 & Ha2 & _).
  rewrite (read_byte_at _ _ _ Ha1) by lia. rewrite LRet_bind. rewrite (read_cstring_at _ _ _ Ha2 H0) by lia. rewrite LRet_bind.
  replace (pos + 1 + (Zlen key + 1)) with (pos + 2 + Zlen key) by lia.
  by replace (2 + Zlen key + Zlen payload + Zlen more - 1 - (Zlen key + 1)) with (Zlen payload + Zlen more) by lia.
Qed.
Lemma element_fields ud fuel array k t key payload val es es' more pos :
  at_pos memory pos (element t key payload) → 0 ∉ key → 
  reads (read_value memory ud t) (pos + 2 + Zlen key) (Zlen payload) val →
  entry_key array key = LRet k → rawset es k val = LRet es' →
  unpack_fields memory ud (S fuel) (Reader pos (Zlen (element t key payload ++ more))) array es =
  unpack_fields memory ud fuel (Reader (pos + Zlen (element t key payload)) (Zlen more)) array es'.
Proof.
  intros Ha H0 Hv Hk Hset. pose proof (Zlen_nonneg more). rewrite fields_step, Hk, LRet_bind by done. rewrite Hv by lia. rewrite LRet_bind, Hset, LRet_bind.
  f_equal. rewrite Zlen_element. apply reader_eq; lia.
Qed.

Lemma rawset_fresh k val es : key_ok k → Forall (λ p, same_key k p.1 = false) es → val ≠ VNil → rawset es k val = LRet (es ++ [(k, val)]).
Proof. intros Hk Hf Hv. unfold rawset. rewrite Hk. by rewrite set_entry_fresh. Qed.

(** a document with the fields of its elements *)
Lemma framed_reads array elements es pos fuel : at_pos memory pos (document elements) →
  Zlen (document elements) < MAX_DOCUMENT → Zlen (document elements) < Z.of_nat fuel →
  (∀ pos fuel fuel', at_pos memory pos elements → Zlen elements < MAX_DOCUMENT → Zlen elements < Z.of_nat fuel →
    Zlen elements < Z.of_nat fuel' → unpack_fields memory (unpack_dict memory fuel) fuel' (Reader pos (Zlen elements)) array [] = LRet es) →
  reads (λ br, unpack_dict memory fuel br array) pos (Zlen (document elements)) (VTable es).
Proof.
  intros Ha Hm Hf Hu. pose proof (at_pos_length _ _ _ Ha) as [Hl|Hl].
  2:{ apply (f_equal Zlen) in Hl. rewrite Zlen_document, (@Zlen_nil Z) in Hl. pose proof (Zlen_nonneg elements). lia. }
  rewrite Zlen_document in *. pose proof (Zlen_nonneg elements). destruct fuel as [|fuel]; [lia|]. apply document_reads; [done|done|].
  unfold document in Ha. apply at_pos_app in Ha as [_ Ha]. rewrite Zlen_le_bytes in Ha. apply at_pos_app in Ha as [Ha _].
  apply Hu; [done|lia|lia|unfold Zlen in *; lia].
Qed.

(** the values without a table in them *)
Lemma integer_reads ud i pos : at_pos memory pos (if is_32bit i then le_bytes 4 i else le_bytes 8 i) → - 2 ^ 63 ≤ i < 2 ^ 63 →
  reads (read_value memory ud (if is_32bit i then BSON_INT32 else BSON_INT64)) pos (Zlen (if is_32bit i then le_bytes 4 i else le_bytes 8 i)) (VInt i).
Proof.
  intros Ha Hi r Hr. destruct (is_32bit i) eqn:E; rewrite Zlen_le_bytes in *; unfold read_value, read_scalar; decide_const; cbn match.
  - unfold is_32bit in E. apply bool_decide_eq_true in E. by rewrite (read_int32_at _ _ i) by (done || lia).
  - by rewrite (read_int64_at _ _ i) by (done || lia).
Qed.
Lemma string_reads ud s pos : at_pos memory pos (le_bytes 4 (Zlen s + 1) ++ s ++ [0]) → Zlen (le_bytes 4 (Zlen s + 1) ++ s ++ [0]) < MAX_DOCUMENT →
  reads (read_value memory ud BSON_STRING) pos (Zlen (le_bytes 4 (Zlen s + 1) ++ s ++ [0])) (VString s).
Proof.
  intros Ha Hm. rewrite !Zlen_app, Zlen_le_bytes in *. change (Zlen [0]) with 1 in *. pose proof (Zlen_nonneg s).
  unfold MAX_DOCUMENT in Hm. apply at_pos_app in Ha as [Ha1 Ha2]. rewrite Zlen_le_bytes in Ha2. apply at_pos_app in Ha2 as [Ha2 Ha3].
  pose proof (at_pos_length _ _ _ Ha3) as [Hl|Hl]; [change (Zlen [0]) with 1 in Hl|done].
  intros r Hr. unfold read_value, read_scalar. decide_const. cbn match. rewrite (read_int32_at _ _ _ Ha1) by lia. rewrite LRet_bind.
  rewrite bool_decide_eq_false_2 by lia. rewrite skip_bytes_at by lia. rewrite LRet_bind.
  replace (Zlen s + 1 - 1) with (Zlen s) by lia. change (Z.of_nat 4) with 4 in *. rewrite bytes_from_at by (done || right; lia).
  rewrite LRet_bind. do 2 f_equal. apply reader_eq; lia.
Qed.

Lemma encodes_reads :
  (∀ h v t payload val, encodes h v t payload val → ∀ pos fuel, at_pos memory pos payload → Zlen payload < MAX_DOCUMENT →
     Zlen payload < Z.of_nat fuel → reads (read_value memory (unpack_dict memory fuel) t) pos (Zlen payload) val) ∧
  (∀ h i vs elements es, encodes_items h i vs elements es → ∀ pos fuel fuel' es0, at_pos memory pos elements →
     Zlen elements < MAX_DOCUMENT → Zlen elements < Z.of_nat fuel → Zlen elements < Z.of_nat fuel' → 1 ≤ i → i + Zlen vs ≤ 2 ^ 30 →
     Forall (λ p, ∃ j, p.1 = VInt j ∧ j < i) es0 →
     unpack_fields memory (unpack_dict memory fuel) fuel' (Reader pos (Zlen elements)) true es0 = LRet (es0 ++ es)) ∧
  (∀ h kvs elements es, encodes_entries h kvs elements es → ∀ pos fuel fuel' es0, at_pos memory pos elements →
     Zlen elements < MAX_DOCUMENT → Zlen elements < Z.of_nat fuel → Zlen elements < Z.of_nat fuel' →
     (∀ p, p ∈ es → Forall (λ q, same_key p.1 q.1 = false) es0) →
     unpack_fields memory (unpack_dict memory fuel) fuel' (Reader pos (Zlen elements)) false es0 = LRet (es0 ++ es)).
Proof.
  apply encodes_mutind.
  - intros h i Hi pos fuel Ha _ _. pose proof (integer_reads (unpack_dict memory fuel) i pos) as H. rewrite Hi in H.
    apply H; [done|]. unfold is_32bit in Hi. apply bool_decide_eq_true in Hi. lia.
  - intros h i Hi Hr pos fuel Ha _ _. pose proof (integer_reads (unpack_dict memory fuel) i pos) as H. rewrite Hi in H. by apply H.
  - intros h d Hd pos fuel Ha _ _. rewrite Zlen_le_bytes.
    intros r Hr. unfold read_value, read_scalar. decide_const. cbn match. by rewrite (read_double_at _ _ d) by (done || lia).
  - intros h x pos fuel Ha _ _. intros r Hr. unfold read_value, read_scalar. decide_const. cbn match.
    rewrite (read_byte_at _ _ _ Ha) by done. rewrite LRet_bind. by destruct x.
  - intros h s Hs Hc Hp pos fuel Ha Hm _. by apply string_reads.
  - intros h s t payload Ho pos fuel Ha Hm _. by apply object_reads.
  - intros h v items elements es Hv Hi IH pos fuel Ha Hm Hf. pose proof (items_length _ _ _ _ _ Hi) as Hlen.
    unfold MAX_DOCUMENT in *. rewrite Zlen_document in Hm. apply (framed_reads true); [done|rewrite Zlen_document; unfold MAX_DOCUMENT; lia|done|].
    intros pos' f f' Ha' Hm' Hf' Hf''. apply (IH pos' f f' []); (done || lia || apply Forall_nil).
  - intros h v kvs elements es Hv Hi IH pos fuel Ha Hm Hf. apply (framed_reads false); [done..|].
    intros pos' f f' Ha' Hm' Hf' Hf''. apply (IH pos' f f' []); (done || intros; apply Forall_nil).
  - intros h h' kvs elements es rest Hi IH pos fuel Ha Hm Hf. apply (framed_reads false); [done..|].
    intros pos' f f' Ha' Hm' Hf' Hf''. apply (IH pos' f f' []); (done || intros; apply Forall_nil).
  - intros h i pos fuel fuel' es0 _ _ _ Hf _ _ _. destruct fuel' as [|fuel']; [done|]. by rewrite app_nil_r.
  - intros h i v vs t payload val elements es Hv IHv Hvs IHvs pos fuel fuel' es0 Ha Hm Hf Hf' Hi Hl Hes.
    destruct fuel' as [|fuel']; [pose proof (Zlen_nonneg (element t (bson_numstr (i - 1)) payload ++ elements)); lia|].
    apply at_pos_app in Ha as [Ha1 Ha2]. rewrite Zlen_cons in Hl. pose proof (Zlen_nonneg vs).
    destruct (bson_numstr_ok (i - 1) ltac:(lia)) as [(_ & _ & H0) Hidx]. destruct (encodes_type _ _ _ _ _ Hv) as [_ Hnil].
    rewrite Zlen_app, Zlen_element in Hm, Hf, Hf'. pose proof (Zlen_nonneg (bson_numstr (i - 1))).
    pose proof (Zlen_nonneg elements). pose proof (Zlen_nonneg payload).
    rewrite (element_fields _ _ true (VInt i) _ _ _ val _ (es0 ++ [(VInt i, val)]) _ _ Ha1 H0);
      [|apply IHv; [by eapply element_parts|lia|lia]|unfold entry_key; rewrite Hidx, LRet_bind; do 2 f_equal; lia|].
    2:{ apply rawset_fresh; [done| |done].
        eapply Forall_impl; [exact Hes|]. intros q (j & -> & Hj). cbn. by apply bool_decide_eq_false_2; lia. }
    rewrite (IHvs _ _ _ (es0 ++ [(VInt i, val)])); [by rewrite <- app_assoc|done|lia|lia|lia|lia|lia|].
    apply Forall_app. split; [eapply Forall_impl; [exact Hes|]; intros q (j & -> & Hj); exists j; split; [done|lia]|].
    apply Forall_singleton. exists i. split; [done|lia].
  - intros h pos fuel fuel' es0 _ _ _ Hf _. destruct fuel' as [|fuel']; [done|]. by rewrite app_nil_r.
  - intros h key v kvs t payload val elements es Hk Hv IHv Hvs IHvs Hnew pos fuel fuel' es0 Ha Hm Hf Hf' Hes.
    destruct fuel' as [|fuel']; [pose proof (Zlen_nonneg (element t key payload ++ elements)); lia|].
    apply at_pos_app in Ha as [Ha1 Ha2]. destruct Hk as (_ & _ & H0). destruct (encodes_type _ _ _ _ _ Hv) as [_ Hnil].
    rewrite Zlen_app, Zlen_element in Hm, Hf, Hf'. pose proof (Zlen_nonneg key).
    pose proof (Zlen_nonneg elements). pose proof (Zlen_nonneg payload).
    rewrite (element_fields _ _ false (VString key) _ _ _ val _ (es0 ++ [(VString key, val)]) _ _ Ha1 H0);
      [|apply IHv; [by eapply element_parts|lia|lia]|done|].
    2:{ apply rawset_fresh; [done| |done]. apply (Hes (VString key, val)). by left. }
    rewrite (IHvs _ _ _ (es0 ++ [(VString key, val)])); [by rewrite <- app_assoc|done|lia|lia|lia|].
    intros q Hq. apply Forall_app. split; [apply Hes; by right|]. apply Forall_singleton. cbn.
    rewrite Forall_forall in Hnew. specialize (Hnew q Hq). destruct q.1; try done. cbn. apply bool_decide_eq_false_2. congruence.
Qed.
End documents.
