(* ===== verification/BsonTotal.v ===== *)
(** * Decoding bytes from anywhere

    [ldecode] is given what a database server sent. It always ends, and it stays
    inside the document unless an element of the types that start with a length
    claims one that is negative or close to the largest [int]. *)
From S2P Require Import Prelude CLib CNum Bytes LuaValue Bits Crypt CryptSpec Bson BsonUtf8 BsonWrite BsonSpec BsonRead.
#[local] Open Scope Z_scope.
#[local] Open Scope bits_scope.
#[local] Opaque le_bytes.

(** ** The elements that decoding comes to *)
Definition COUNTED : list Z := [BSON_DOCUMENT; BSON_ARRAY; BSON_DBPOINTER; BSON_JSCODE; BSON_SYMBOL; BSON_CODEWS].
Definition bad_length (n : Z) : Prop := n < 0 ∨ 2 ^ 31 - 17 < n.
#[export] Instance bad_length_dec n : Decision (bad_length n).
Proof. unfold bad_length. apply _. Defined.

(** the bytes before the first NUL *)
Fixpoint cstring (l : list Z) : list Z :=
  match l with [] => [] | x :: l => if decide (x = 0) then [] else x :: cstring l end.

Section elements.
Context (memory : list Z).

Definition dword (q : Z) : Z := i32 (le_value (take 4 (drop (Z.to_nat q) memory))).
Definition cstring_at (q : Z) : list Z := cstring (drop (Z.to_nat q) memory).

(** the bytes of a value of type [bt] at [q], as the format gives them *)
Definition value_extent (bt q : Z) : option Z :=
  if decide (bt ∈ [BSON_REAL; BSON_INT64; BSON_DATE; BSON_TIMESTAMP]) then Some 8
  else if decide (bt = BSON_BOOLEAN) then Some 1
  else if decide (bt = BSON_INT32) then Some 4
  else if decide (bt = BSON_OBJECTID) then Some 12
  else if decide (bt ∈ [BSON_MINKEY; BSON_MAXKEY; BSON_NULL]) then Some 0
  else if decide (bt ∈ [BSON_DOCUMENT; BSON_ARRAY; BSON_CODEWS]) then Some (dword q)
  else if decide (bt ∈ [BSON_STRING; BSON_JSCODE; BSON_SYMBOL]) then Some (4 + dword q)
  else if decide (bt = BSON_BINARY) then Some (5 + dword q)
  else if decide (bt = BSON_DBPOINTER) then Some (16 + dword q)
  else if decide (bt = BSON_REGEX) then
    let n := Zlen (cstring_at q) + 1 in Some (n + Zlen (cstring_at (q + n)) + 1)
  else None.

(** the elements between [p] and [e], those of nested documents and arrays included, come
    to one that starts with a bad length, or, in an array, has an index that does not fit a
    [long] *)
Fixpoint bad_fields (fuel : nat) (array : bool) (p e : Z) : bool :=
  match fuel with
  | O => false
  | S fuel =>
      let bt := default 0 (memory !! Z.to_nat p) in
      let key := cstring_at (p + 1) in
      let q := p + 2 + Zlen key in
      if decide (p < e ∧ q ≤ e) then
        array && bool_decide (strtol (c_text key) 10 = LONG_MAX) ||
        bool_decide (bt ∈ COUNTED ∧ q + 4 ≤ e ∧ bad_length (dword q)) ||
        bool_decide (bt ∈ [BSON_DOCUMENT; BSON_ARRAY] ∧ q + 4 ≤ e ∧ q + dword q ≤ e) &&
          bad_fields fuel (bool_decide (bt = BSON_ARRAY)) (q + 4) (q + dword q - 1) ||
        match value_extent bt q with
        | Some n => bool_decide (0 ≤ n) && bad_fields fuel array (q + n) e
        | None => false
        end
      else false
  end.
(** of the whole document *)
Definition bad_element : bool := bad_fields (S (List.length memory)) false 4 (dword 0 - 1).

(** with fuel for the bytes from [p] on *)
Definition bad_from (array : bool) (p e : Z) : Prop :=
  bad_fields (S (Z.to_nat (Zlen memory - p))) array p e = true.

Lemma bad_fields_mono fuel fuel' array p e : bad_fields fuel array p e = true → (fuel ≤ fuel')%nat →
  bad_fields fuel' array p e = true.
Proof.
  revert fuel' array p e. induction fuel as [|fuel IH]; intros fuel' array p e Hb Hf; [done|].
  destruct fuel' as [|fuel']; [lia|]. cbn [bad_fields] in *. destruct (decide _); [|done].
  rewrite !orb_true_iff in *. destruct Hb as [[[Hb|Hb]|[Hb Hn]%andb_true_iff]|Hb]; [by auto..| |].
  - left. right. rewrite Hb. eapply IH; [done|lia].
  - right. destruct (value_extent _ _); [|done]. apply andb_true_iff in Hb as [H0 Hb].
    rewrite H0. eapply IH; [done|lia].
Qed.

(** the header of an element: its type, its key, and where its value starts *)
Record header (p e bt : Z) (key : list Z) : Prop := {
  hd_pos : 0 ≤ p < e;
  hd_type : memory !! Z.to_nat p = Some bt;
  hd_key : cstring_at (p + 1) = key;
  hd_end : p + 2 + Zlen key ≤ e ≤ Zlen memory
}.

Section element.
Context (array : bool) (p e bt : Z) (key : list Z) (Hh : header p e bt key).
#[local] Abbreviation q := (p + 2 + Zlen key).

Lemma bad_from_unfold : bad_from array p e ↔
  (array = true ∧ strtol (c_text key) 10 = LONG_MAX) ∨
  (bt ∈ COUNTED ∧ q + 4 ≤ e ∧ bad_length (dword q)) ∨
  ((bt ∈ [BSON_DOCUMENT; BSON_ARRAY] ∧ q + 4 ≤ e ∧ q + dword q ≤ e) ∧
    bad_fields (Z.to_nat (Zlen memory - p)) (bool_decide (bt = BSON_ARRAY)) (q + 4) (q + dword q - 1) = true) ∨
  ∃ n, value_extent bt q = Some n ∧ 0 ≤ n ∧ bad_fields (Z.to_nat (Zlen memory - p)) array (q + n) e = true.
Proof.
  destruct Hh as [Hp Ht Hk He]. unfold bad_from. cbn [bad_fields]. rewrite Ht, Hk. cbn [default from_option id].
  rewrite decide_True by lia. rewrite !orb_true_iff, !andb_true_iff, !bool_decide_eq_true.
  assert (match value_extent bt q with
    | Some n => bool_decide (0 ≤ n) && bad_fields (Z.to_nat (Zlen memory - p)) array (q + n) e
    | None => false end = true ↔
    ∃ n, value_extent bt q = Some n ∧ 0 ≤ n ∧ bad_fields (Z.to_nat (Zlen memory - p)) array (q + n) e = true) as ->.
  { destruct (value_extent bt q) as [n|]; [|naive_solver]. rewrite andb_true_iff, bool_decide_eq_true. naive_solver. }
  tauto.
Qed.

Lemma bad_index : array = true → strtol (c_text key) 10 = LONG_MAX → bad_from array p e.
Proof. intros. apply bad_from_unfold. by left. Qed.
Lemma bad_counted : bt ∈ COUNTED → q + 4 ≤ e → bad_length (dword q) → bad_from array p e.
Proof. intros. apply bad_from_unfold. right. by left. Qed.
Lemma bad_inside : bt ∈ [BSON_DOCUMENT; BSON_ARRAY] → q + 4 ≤ e → q + dword q ≤ e →
  bad_from (bool_decide (bt = BSON_ARRAY)) (q + 4) (q + dword q - 1) → bad_from array p e.
Proof.
  intros Ht H4 He Hb. apply bad_from_unfold. right. right. left. split; [done|]. destruct Hh as [Hp _ _ He'].
  pose proof (Zlen_nonneg key). eapply bad_fields_mono; [exact Hb|]. lia.
Qed.
Lemma bad_next n : value_extent bt q = Some n → 0 ≤ n → bad_from array (q + n) e → bad_from array p e.
Proof.
  intros Hn H0 Hb. apply bad_from_unfold. right. right. right. exists n. split; [done|]. split; [done|].
  destruct Hh as [Hp _ _ He]. pose proof (Zlen_nonneg key). eapply bad_fields_mono; [exact Hb|]. lia.
Qed.
End element.
End elements.

(** the outcome of a call: [P] of what it returns, [U] when it is undefined *)
Definition answers {A} (U : Prop) (P : A → Prop) (m : lua A) : Prop :=
  match m with LRet a => P a | LError _ => True | LUndef => U | LNoFuel => False end.

Lemma answers_bind {A B} U (P : A → Prop) (Q : B → Prop) m f :
  answers U P m → (∀ a, P a → answers U Q (f a)) → answers U Q (m ≫= f).
Proof. destruct m; cbn; auto. Qed.
Lemma answers_weaken {A} U U' (P Q : A → Prop) m : answers U P m → (U → U') → (∀ a, P a → Q a) → answers U' Q m.
Proof. destruct m; cbn; auto. Qed.

Section total.
Context (memory : list Z) (Hmem : Forall byte memory).

(** a reader inside the memory; its size may be negative *)
Definition reader_ok (br : bson_reader) : Prop := 0 ≤ r_ptr br ∧ r_ptr br + r_size br ≤ Zlen memory.
(** it went on from [br], not further than the end of [br] *)
Definition goes_on (br br' : bson_reader) (n : Z) : Prop :=
  reader_ok br' ∧ r_ptr br + n ≤ r_ptr br' ∧ r_ptr br' + r_size br' = r_ptr br + r_size br.

Lemma advance_goes_on br n m : reader_ok br → 0 ≤ r_ptr br + n → m ≤ n → goes_on br (advance br n) m.
Proof. intros [Hp Hl] Hn Hm. unfold goes_on, reader_ok, advance. cbn [r_ptr r_size]. lia. Qed.

Lemma bytes_from_inside p n : 0 ≤ p → 0 ≤ n → p + n ≤ Zlen memory →
  ∃ l, bytes_from memory p n = LRet l ∧ at_pos memory p l ∧ Zlen l = n ∧ Forall byte l.
Proof.
  intros Hp Hn Hl. unfold bytes_from. rewrite bool_decide_eq_true_2 by lia. eexists. split; [done|]. unfold Zlen in *.
  split_and!; [|rewrite length_take, length_drop; lia|by apply Forall_take, Forall_drop].
  split; [done|]. exists (drop (Z.to_nat n) (drop (Z.to_nat p) memory)). by rewrite take_drop.
Qed.

Lemma check_reader_answers U br n : answers U (λ _, n ≤ r_size br) (check_reader br n).
Proof. unfold check_reader. case_bool_decide; cbn; [done|lia]. Qed.

(** ** The readers *)
Lemma read_byte_answers U br : reader_ok br →
  answers U (λ p, at_pos memory (r_ptr br) [p.1] ∧ p.2 = advance br 1 ∧ 1 ≤ r_size br ∧ goes_on br p.2 1) (read_byte memory br).
Proof.
  intros Hok. pose proof Hok as [Hp Hl]. unfold read_byte. eapply answers_bind; [apply check_reader_answers|]. intros [] Hr.
  destruct (bytes_from_inside (r_ptr br) 1) as (l & -> & Ha & Hn & Hb); [done|done|lia|]. rewrite LRet_bind. cbn [answers fst snd].
  destruct l as [|x [|y l]]; [done| |rewrite !Zlen_cons in Hn; pose proof (Zlen_nonneg l); lia]. cbn [le_value]. rewrite Z.add_0_r.
  split; [done|]. split; [done|]. split; [done|]. apply advance_goes_on; (done || lia).
Qed.

Lemma read_int32_answers U br : reader_ok br →
  answers U (λ p, at_pos memory (r_ptr br) (le_bytes 4 p.1) ∧ - 2 ^ 31 ≤ p.1 < 2 ^ 31 ∧ p.2 = advance br 4 ∧ 4 ≤ r_size br ∧ goes_on br p.2 4)
    (read_int32 memory br).
Proof.
  intros Hok. pose proof Hok as [Hp Hl]. unfold read_int32. eapply answers_bind; [apply check_reader_answers|]. intros [] Hr.
  destruct (bytes_from_inside (r_ptr br) 4) as (l & -> & Ha & Hn & Hb); [done|done|lia|]. rewrite LRet_bind. cbn [answers fst snd].
  pose proof (mod_range (le_value l + 2 ^ 31) (2 ^ 32) ltac:(done)).
  split; [|split; [unfold i32; lia|]; split; [done|]; split; [done|]; apply advance_goes_on; (done || lia)].
  rewrite i32_bytes. replace 4%nat with (List.length l) by (unfold Zlen in Hn; lia). by rewrite le_value_bytes.
Qed.

Lemma read_wide_answers U br (f : list Z → Z) : reader_ok br →
  answers U (λ p, goes_on br p.2 8 ∧ p.2 = advance br 8) (_ ← check_reader br 8; b ← bytes_from memory (r_ptr br) 8; LRet (f b, advance br 8)).
Proof.
  intros Hok. pose proof Hok as [Hp Hl]. eapply answers_bind; [apply check_reader_answers|]. intros [] Hr.
  destruct (bytes_from_inside (r_ptr br) 8) as (l & -> & Ha & Hn & Hb); [done|done|lia|]. rewrite LRet_bind. cbn [answers fst snd].
  split; [apply advance_goes_on; (done || lia)|done].
Qed.

(** a size that may be negative *)
Lemma read_bytes_answers U br n : answers U (λ p, p = (r_ptr br, advance br n) ∧ n ≤ r_size br) (read_bytes br n).
Proof. unfold read_bytes. eapply answers_bind; [apply check_reader_answers|]. by intros [] Hr. Qed.

Lemma cstring_loop_answers U br fuel : reader_ok br → ∀ i, 0 ≤ i ≤ r_size br → r_size br - i < Z.of_nat fuel →
  answers U (λ n, i ≤ n < r_size br ∧ at_pos memory (r_ptr br + n) [0] ∧ (∀ j, i ≤ j < n → ¬ at_pos memory (r_ptr br + j) [0]))
    (cstring_loop memory fuel br i).
Proof.
  intros [Hp Hl]. induction fuel as [|fuel IH]; intros i Hi Hf; [lia|]. cbn [cstring_loop]. case_bool_decide as He; [done|].
  destruct (bytes_from_inside (r_ptr br + i) 1) as (l & -> & Ha & Hn & Hb); [lia|done|lia|]. rewrite LRet_bind.
  destruct l as [|x [|y l]]; [done| |rewrite !Zlen_cons in Hn; pose proof (Zlen_nonneg l); lia].
  cbn [le_value]. rewrite Z.mul_0_r, Z.add_0_r. case_bool_decide as H0.
  - subst x. split; [lia|]. split; [done|]. intros j Hj. lia.
  - eapply answers_weaken; [apply IH; lia|done|]. intros n (Hn' & Ha' & Hj). split; [lia|]. split; [done|].
    intros j Hjr. destruct (decide (j = i)) as [->|]; [|apply Hj; lia]. intros (_ & post & E). destruct Ha as (_ & post' & E').
    rewrite E in E'. by injection E' as <-.
Qed.
Lemma read_cstring_answers U br : reader_ok br → 0 ≤ r_size br →
  answers U (λ p, at_pos memory (r_ptr br) (p.1 ++ [0]) ∧ (0 ∉ p.1) ∧ p.2 = advance br (Zlen p.1 + 1) ∧ goes_on br p.2 1 ∧ 0 ≤ r_size p.2)
    (read_cstring memory br).
Proof.
  intros Hok Hs. unfold read_cstring. pose proof Hok as [Hp Hl].
  eapply answers_bind; [apply (cstring_loop_answers U br _ Hok); unfold Zlen in *; lia|]. intros n (Hn & H0 & Hj).
  destruct (bytes_from_inside (r_ptr br) n) as (l & -> & Ha & Hn' & Hb); [done|lia|lia|]. rewrite LRet_bind. cbn [answers fst snd].
  split; [apply at_pos_app; by rewrite Hn'|]. split.
  - intros (k & Hk)%list_elem_of_lookup. pose proof (take_drop_middle _ _ _ Hk) as E. rewrite <- E in Ha.
    apply at_pos_app in Ha as [_ Ha]. apply (at_pos_app _ _ [0]) in Ha as [Ha _]. pose proof (lookup_lt_Some _ _ _ Hk).
    apply (Hj (Z.of_nat k)); [unfold Zlen in *; lia|]. replace (Z.of_nat k) with (Zlen (take k l)); [done|].
    unfold Zlen. rewrite length_take. lia.
  - rewrite Hn'. split; [done|]. split; [apply advance_goes_on; (done || lia)|cbn; lia].
Qed.

Lemma cstring_spec p s : at_pos memory p (s ++ [0]) → 0 ∉ s → cstring_at memory p = s.
Proof.
  intros (_ & post & E) H0. unfold cstring_at. rewrite E, <- app_assoc. clear E. induction s as [|x s IH]; [done|].
  apply not_elem_of_cons in H0 as [Hx H0]. cbn. rewrite decide_False by done. f_equal. by apply IH.
Qed.
Lemma dword_at p n : at_pos memory p (le_bytes 4 n) → - 2 ^ 31 ≤ n < 2 ^ 31 → dword memory p = n.
Proof. intros (_ & post & E) Hn. unfold dword. by rewrite E, take_le_bytes, i32_le. Qed.

(** ** Values *)

(** a bad length at [t] is an excuse *)
Definition excuses (U : Prop) (bt : Z) (t : bson_reader) : Prop :=
  bt ∈ COUNTED → 4 ≤ r_size t → bad_length (dword memory (r_ptr t)) → U.
(** the value of type [bt] at [t] was read as far as [t'] *)
Definition value_read (bt : Z) (t t' : bson_reader) : Prop :=
  goes_on t t' 0 ∧ value_extent memory bt (r_ptr t) = Some (r_ptr t' - r_ptr t).

Lemma goes_on_trans br br1 br2 n m k : goes_on br br1 n → goes_on br1 br2 m → k ≤ n + m → goes_on br br2 k.
Proof. unfold goes_on. intros (_ & H1 & H2) (H & H3 & H4) Hk. split; [done|]. lia. Qed.
Lemma goes_on_refl br : reader_ok br → goes_on br br 0.
Proof. intros H. split; [done|]. lia. Qed.

(** bytes after a length: inside the memory, or refused *)
Lemma add_bytes_answers U held p n : 0 ≤ p → p + n ≤ Zlen memory → answers U (λ _, 0 ≤ n) (add_bytes memory held p n).
Proof.
  intros Hp Hl. unfold add_bytes. case_bool_decide; [|by case_bool_decide].
  destruct (bytes_from_inside p n) as (l & -> & _); [done|done|lia|]. done.
Qed.
Lemma make_object_answers U t p n : 0 ≤ p → p + n ≤ Zlen memory → answers U (λ _, 0 ≤ n) (make_object memory t p n).
Proof. intros Hp Hl. unfold make_object. eapply answers_bind; [by apply (add_bytes_answers U)|]. done. Qed.

(** a length that is checked for overflow *)
Lemma chk_answers (U : Prop) n : U ∨ - 2 ^ 31 ≤ n ≤ INT_MAX → answers U (λ x, x = n) (lift (chk_int n)).
Proof. intros H. unfold chk_int. case_decide; [done|]. destruct H; [done|lia]. Qed.

Lemma excused_length (U : Prop) bt t n : excuses U bt t → at_pos memory (r_ptr t) (le_bytes 4 n) → bt ∈ COUNTED →
  4 ≤ r_size t → - 2 ^ 31 ≤ n < 2 ^ 31 → U ∨ 0 ≤ n ≤ 2 ^ 31 - 17.
Proof.
  intros Hx Ha Ht H4 Hr. destruct (decide (0 ≤ n ≤ 2 ^ 31 - 17)); [by right|left]. apply Hx; [done|done|].
  rewrite (dword_at _ n) by done. unfold bad_length. lia.
Qed.

(** an object of [n] bytes at the value, of which [n - 4] come after the length *)
Lemma counted_end U bt t n : reader_ok t → n - 4 ≤ r_size t - 4 →
  answers U (λ p, goes_on t p.2 0 ∧ r_ptr p.2 = r_ptr t + n) (v ← make_object memory bt (r_ptr t) n; LRet (v, advance (advance t 4) (n - 4))).
Proof.
  intros Hok Hn. pose proof Hok as [Hp Hl]. eapply answers_bind; [apply make_object_answers; lia|]. intros v Hv.
  cbn [answers fst snd] in *. unfold goes_on, reader_ok, advance. cbn [r_ptr r_size]. lia.
Qed.

Lemma pointer_answers U bt t : excuses U bt t → bt = BSON_DBPOINTER → reader_ok t →
  answers U (λ p, value_read bt t p.2)
    ('(sz, t1) ← read_int32 memory t; n ← lift (chk_int (sz + 12)); '(_, t2) ← read_bytes t1 n;
     n ← lift (chk_int (sz + 16)); v ← make_object memory BSON_DBPOINTER (r_ptr t) n; LRet (v, t2)).
Proof.
  intros Hh -> Hok. eapply answers_bind; [by apply read_int32_answers|]. intros [sz t1]; cbn [fst snd]; intros (Ha & Hr & -> & Hs & Hg). cbn [fst snd] in *.
  pose proof (excused_length _ _ _ _ Hh Ha ltac:(unfold COUNTED; set_unfold; tauto) Hs Hr) as Hb.
  pose proof (dword_at _ _ Ha Hr) as Hd.
  eapply answers_bind; [apply chk_answers; unfold INT_MAX; destruct Hb; [by left|right; lia]|]. intros n1 ->. cbn beta.
  eapply answers_bind; [apply read_bytes_answers|]. intros [q t2] [[= -> ->] Hn]. cbn [fst snd] in *.
  eapply answers_bind; [apply chk_answers; unfold INT_MAX; destruct Hb; [by left|right; lia]|]. intros n2 ->.
  unfold advance in Hn. cbn [r_size] in Hn. replace (sz + 12) with (sz + 16 - 4) by lia.
  eapply answers_weaken; [apply (counted_end U); [done|lia]|done|]. intros [v t'] [Hgo Hend]. split; [done|].
  cbn [snd] in *. change (Some (16 + dword memory (r_ptr t)) = Some (r_ptr t' - r_ptr t)). f_equal. lia.
Qed.
Lemma code_answers U bt t : excuses U bt t → bt ∈ [BSON_JSCODE; BSON_SYMBOL] → reader_ok t →
  answers U (λ p, value_read bt t p.2)
    ('(sz, t1) ← read_int32 memory t; '(_, t2) ← read_bytes t1 sz;
     n ← lift (chk_int (sz + 4)); v ← make_object memory bt (r_ptr t) n; LRet (v, t2)).
Proof.
  intros Hh Ht Hok. eapply answers_bind; [by apply read_int32_answers|]. intros [sz t1]; cbn [fst snd]; intros (Ha & Hr & -> & Hs & Hg). cbn [fst snd] in *.
  pose proof (excused_length _ _ _ _ Hh Ha ltac:(unfold COUNTED; set_unfold; tauto) Hs Hr) as Hb.
  pose proof (dword_at _ _ Ha Hr) as Hd.
  eapply answers_bind; [apply read_bytes_answers|]. intros [q t2] [[= -> ->] Hn]. cbn [fst snd] in *.
  eapply answers_bind; [apply chk_answers; unfold INT_MAX; destruct Hb; [by left|right; lia]|]. intros n2 ->.
  unfold advance in Hn. cbn [r_size] in Hn. replace (advance (advance t 4) sz) with (advance (advance t 4) (sz + 4 - 4)) by (f_equal; lia).
  eapply answers_weaken; [apply (counted_end U); [done|lia]|done|]. intros [v t'] [Hgo Hend]. split; [done|].
  cbn [snd] in *. transitivity (Some (4 + dword memory (r_ptr t))); [set_unfold in Ht; by destruct Ht as [-> | [-> | []]]|f_equal; lia].
Qed.
Lemma codews_answers U bt t : excuses U bt t → bt = BSON_CODEWS → reader_ok t →
  answers U (λ p, value_read bt t p.2)
    ('(sz, t1) ← read_int32 memory t; n ← lift (chk_int (sz - 4)); '(_, t2) ← read_bytes t1 n;
     v ← make_object memory bt (r_ptr t) sz; LRet (v, t2)).
Proof.
  intros Hh -> Hok. eapply answers_bind; [by apply read_int32_answers|]. intros [sz t1]; cbn [fst snd]; intros (Ha & Hr & -> & Hs & Hg). cbn [fst snd] in *.
  pose proof (excused_length _ _ _ _ Hh Ha ltac:(unfold COUNTED; set_unfold; tauto) Hs Hr) as Hb.
  pose proof (dword_at _ _ Ha Hr) as Hd.
  eapply answers_bind; [apply chk_answers; unfold INT_MAX; destruct Hb; [by left|right; lia]|]. intros n1 ->. cbn beta.
  eapply answers_bind; [apply read_bytes_answers|]. intros [q t2] [[= -> ->] Hn]. cbn [fst snd] in *.
  unfold advance in Hn. cbn [r_size] in Hn.
  eapply answers_weaken; [apply (counted_end U); [done|lia]|done|]. intros [v t'] [Hgo Hend]. split; [done|].
  cbn [snd] in *. change (Some (dword memory (r_ptr t)) = Some (r_ptr t' - r_ptr t)). f_equal. lia.
Qed.

Lemma string_answers U t : reader_ok t →
  answers U (λ p, value_read BSON_STRING t p.2)
    ('(sz, t1) ← read_int32 memory t;
     if bool_decide (sz ≤ 0) then LError (Message ("Invalid bson string , length = " +:+ fmt_d sz))
     else '(p, t2) ← read_bytes t1 sz; s ← bytes_from memory p (sz - 1); LRet (VString s, t2)).
Proof.
  intros Hok. pose proof Hok as [Hp Hl]. eapply answers_bind; [by apply read_int32_answers|].
  intros [sz t1]; cbn [fst snd]; intros (Ha & Hr & -> & H4 & Hg). pose proof (dword_at _ _ Ha Hr) as Hd. cbn [fst snd] in *.
  case_bool_decide; [done|]. eapply answers_bind; [apply read_bytes_answers|]. intros [q t2] [[= -> ->] Hn]. cbn [fst snd advance r_size r_ptr] in *.
  destruct (bytes_from_inside (r_ptr t + 4) (sz - 1)) as (l & -> & _); [lia..|]. rewrite LRet_bind. cbn [answers fst snd]. split.
  - eapply goes_on_trans; [exact Hg|apply (advance_goes_on _ _ 0); [apply Hg|cbn [advance r_ptr]; lia|lia]|lia].
  - change (Some (4 + dword memory (r_ptr t)) = Some (r_ptr t + 4 + sz - r_ptr t)). f_equal. lia.
Qed.
Lemma binary_answers U t : reader_ok t →
  answers U (λ p, value_read BSON_BINARY t p.2)
    ('(sz, t1) ← read_int32 memory t; '(subtype, t2) ← read_byte memory t1; '(p, t3) ← read_bytes t2 sz;
     s ← add_bytes memory 3 p sz; LRet (VString ([0; BSON_BINARY; subtype] ++ s), t3)).
Proof.
  intros Hok. pose proof Hok as [Hp Hl]. eapply answers_bind; [by apply read_int32_answers|].
  intros [sz t1]; cbn [fst snd]; intros (Ha & Hr & -> & H4 & Hg). pose proof (dword_at _ _ Ha Hr) as Hd. cbn [fst snd] in *.
  eapply answers_bind; [apply read_byte_answers, Hg|]. intros [sub t2]; cbn [fst snd]; intros (_ & -> & Hb & Hg'). cbn [fst snd] in *.
  eapply answers_bind; [apply read_bytes_answers|]. intros [q t3] [[= -> ->] Hn]. cbn [fst snd advance r_size r_ptr] in *.
  eapply answers_bind; [apply (add_bytes_answers _ 3); lia|]. intros s Hsz. cbn [answers fst snd] in *. split.
  - eapply (goes_on_trans _ _ _ 4 1); [exact Hg|eapply (goes_on_trans _ _ _ 1 0); [exact Hg'| |done]|done].
    apply (advance_goes_on _ _ 0); [apply Hg'|cbn [advance r_ptr]; lia|lia].
  - change (Some (5 + dword memory (r_ptr t)) = Some (r_ptr t + 4 + 1 + sz - r_ptr t)). f_equal. lia.
Qed.

(** [n] bytes were read, as many as the format says *)
Lemma value_read_advance bt t t' n : goes_on t t' n → 0 ≤ n → r_ptr t' = r_ptr t + n → value_extent memory bt (r_ptr t) = Some n →
  value_read bt t t'.
Proof.
  intros (Hok & Hp & He) Hn Ep Hx. split; [by split; [|lia]|]. rewrite Hx. f_equal. lia.
Qed.

Lemma regex_answers U t : reader_ok t → 0 ≤ r_size t →
  answers U (λ p, value_read BSON_REGEX t p.2)
    ('(r1, t) ← read_cstring memory t; '(r2, t) ← read_cstring memory t;
     LRet (VString ([0; BSON_REGEX] ++ r1 ++ [0] ++ r2 ++ [0]), t)).
Proof.
  intros Hok Hs. eapply answers_bind; [by apply read_cstring_answers|]. intros [r1 t1]; cbn [fst snd]; intros (Ha1 & H1 & -> & Hg & Hs1).
  eapply answers_bind; [apply read_cstring_answers; [apply Hg|done]|]. intros [r2 t2]; cbn [fst snd]; intros (Ha2 & H2 & -> & Hg2 & Hs2).
  cbn [answers fst snd]. split; [eapply goes_on_trans; [exact Hg|exact Hg2|lia]|].
  cbn [advance r_ptr] in Ha2. unfold value_extent. decide_const. rewrite (cstring_spec _ _ Ha1 H1). cbv zeta. rewrite (cstring_spec _ _ Ha2 H2).
  cbn [advance r_ptr]. f_equal. lia.
Qed.

Lemma read_scalar_answers U bt t : excuses U bt t → reader_ok t → 0 ≤ r_size t →
  answers U (λ p, value_read bt t p.2) (read_scalar memory bt t).
Proof.
  intros Hh Hok Hs. unfold read_scalar. pose proof Hok as [Hp Hl].
  case_bool_decide as E.
  { subst bt. eapply answers_bind; [by apply (read_wide_answers _ t le_value)|]. intros [d t'] [Hg E]. cbn in *.
    by apply (value_read_advance _ _ _ 8); [|done|rewrite E|]. }
  clear E. case_bool_decide as E.
  { subst bt. eapply answers_bind; [by apply read_byte_answers|]. intros [d t']; cbn [fst snd]; intros (_ & -> & _ & Hg). cbn in *.
    by apply (value_read_advance _ _ _ 1). }
  clear E. case_bool_decide as E; [subst bt; by apply string_answers|]. clear E.
  case_bool_decide as E; [subst bt; by apply binary_answers|]. clear E.
  case_bool_decide as E.
  { subst bt. eapply answers_bind; [apply read_bytes_answers|]. intros [q t1] [[= -> ->] Hn]. cbn [fst snd] in *.
    eapply answers_bind; [apply make_object_answers; lia|]. intros v _. cbn [answers fst snd].
    by apply (value_read_advance _ _ _ 12); [apply advance_goes_on; [done|lia..]|..]. }
  clear E. case_bool_decide as E.
  { subst bt. eapply answers_bind; [by apply (read_wide_answers _ t (λ b, i64 (le_value b)))|]. intros [d t'] [Hg E]. cbn [answers fst snd] in *.
    by apply (value_read_advance _ _ _ 8); [|done|rewrite E|]. }
  clear E. case_bool_decide as E.
  { cbn [answers snd]. apply (value_read_advance _ _ _ 0); [by apply goes_on_refl|done|lia|].
    set_unfold in E. by destruct E as [-> | [-> | [-> | []]]]. }
  clear E. case_bool_decide as E; [subst bt; by apply regex_answers|]. clear E.
  case_bool_decide as E.
  { subst bt. eapply answers_bind; [by apply read_int32_answers|]. intros [d t']; cbn [fst snd]; intros (_ & _ & -> & _ & Hg). cbn [answers fst snd] in *.
    by apply (value_read_advance _ _ _ 4). }
  clear E. case_bool_decide as E.
  { subst bt. eapply answers_bind; [by apply read_int32_answers|]. intros [r1 t1]; cbn [fst snd]; intros (_ & _ & -> & _ & Hg). cbn [fst snd] in *.
    eapply answers_bind; [apply read_int32_answers, Hg|]. intros [r2 t2]; cbn [fst snd]; intros (_ & _ & -> & _ & Hg2). cbn [answers fst snd] in *.
    apply (value_read_advance _ _ _ 8); [by eapply goes_on_trans|done|cbn; lia|done]. }
  clear E. case_bool_decide as E.
  { subst bt. eapply answers_bind; [by apply (read_wide_answers _ t (λ b, i64 (le_value b)))|]. intros [d t'] [Hg E]. cbn [answers fst snd] in *.
    by apply (value_read_advance _ _ _ 8); [|done|rewrite E|]. }
  clear E. case_bool_decide as E; [subst bt; by apply pointer_answers|]. clear E.
  case_bool_decide as E; [by apply code_answers|]. clear E.
  case_bool_decide as E; [subst bt; by apply codews_answers|]. done.
Qed.

(** ** Documents *)

(** the document at [br]: a length that is no excuse, and elements that are an excuse *)
Definition nested_ok (U : Prop) (array : bool) (br : bson_reader) : Prop := ∀ n,
  at_pos memory (r_ptr br) (le_bytes 4 n) → - 2 ^ 31 ≤ n < 2 ^ 31 → 4 ≤ r_size br →
  (U ∨ 0 ≤ n ∧ 1 ≤ r_ptr br + n) ∧
  (n ≤ r_size br → bad_from memory array (r_ptr br + 4) (r_ptr br + n - 1) → U).

(** what a nested decoder does with readers after [lo] *)
Definition nested (ud : bson_reader → bool → lua (value * bson_reader)) (lo : Z) : Prop :=
  ∀ U br array, nested_ok U array br → reader_ok br → 0 ≤ r_size br → lo < r_ptr br →
    answers U (λ p, goes_on br p.2 0 ∧ r_ptr p.2 = r_ptr br + dword memory (r_ptr br)) (ud br array).

Lemma entry_key_answers (U : Prop) (array : bool) key : (array = true → strtol (c_text key) 10 = LONG_MAX → U) →
  answers U (λ _, True) (entry_key array key).
Proof. intros H. unfold entry_key, array_index. destruct array; [|done]. case_bool_decide; [|done]. by apply H. Qed.

Lemma read_value_answers (U : Prop) ud lo bt t : nested ud lo → excuses U bt t →
  (bt ∈ [BSON_DOCUMENT; BSON_ARRAY] → 4 ≤ r_size t → dword memory (r_ptr t) ≤ r_size t →
   bad_from memory (bool_decide (bt = BSON_ARRAY)) (r_ptr t + 4) (r_ptr t + dword memory (r_ptr t) - 1) → U) →
  reader_ok t → 0 ≤ r_size t → lo < r_ptr t → 1 ≤ r_ptr t →
  answers U (λ p, value_read bt t p.2) (read_value memory ud bt t).
Proof.
  intros Hud Hx Hin Hok Hs Hlo H1.
  assert (∀ array, bt ∈ [BSON_DOCUMENT; BSON_ARRAY] → array = bool_decide (bt = BSON_ARRAY) →
    answers U (λ p, value_read bt t p.2) (ud t array)) as Hdoc.
  { intros array Hbt ->. eapply answers_weaken; [apply (Hud U); [|done..]|done|].
    - intros n Ha Hr H4. rewrite (dword_at _ _ Ha Hr) in Hin.
      assert (bt ∈ COUNTED) as Hc by (unfold COUNTED; set_unfold; tauto). destruct Hok.
      split; [destruct (excused_length _ _ _ _ Hx Ha Hc H4 Hr); [by left|right; lia]|]. intros Hn Hb.
      by apply Hin.
    - intros [v t'] [Hg E]. split; [done|]. cbn [snd] in *.
      transitivity (Some (dword memory (r_ptr t))); [set_unfold in Hbt; by destruct Hbt as [-> | [-> | []]]|f_equal; lia]. }
  clear Hin. unfold read_value. destruct (decide (bt = BSON_DOCUMENT)) as [->|E1]; [decide_const; apply Hdoc; [set_solver|done]|].
  rewrite (bool_decide_eq_false_2 (bt = BSON_DOCUMENT)) by done.
  destruct (decide (bt = BSON_ARRAY)) as [->|E2]; [decide_const; apply Hdoc; [set_solver|done]|].
  rewrite (bool_decide_eq_false_2 (bt = BSON_ARRAY)) by done. by apply read_scalar_answers.
Qed.

Lemma unpack_fields_answers ud lo : nested ud lo → ∀ fuel t array es, reader_ok t → lo ≤ r_ptr t → 0 < Z.of_nat fuel →
  Zlen memory - r_ptr t < Z.of_nat fuel →
  answers (bad_from memory array (r_ptr t) (r_ptr t + r_size t)) (λ _, True) (unpack_fields memory ud fuel t array es).
Proof.
  intros Hud. induction fuel as [|fuel IH]; intros t array es Hok Hlo Hf Hm; [lia|]. cbn [unpack_fields]. case_bool_decide; [done|].
  eapply answers_bind; [by apply read_byte_answers|]. intros [bt t1]; cbn [fst snd]; intros (Ht & -> & Hs & Hg).
  eapply answers_bind; [apply read_cstring_answers; [apply Hg|cbn; lia]|]. intros [key t2]; cbn [fst snd].
  intros (Hk & H0 & -> & Hg2 & Hs2). cbn [advance r_ptr] in Hk.
  set (t2 := advance (advance t 1) (Zlen key + 1)) in *. pose proof (Zlen_nonneg key). pose proof Hok as [Hp Hl].
  assert (reader_ok t2) as Hok2 by apply Hg2.
  assert (r_ptr t2 = r_ptr t + 2 + Zlen key ∧ r_size t2 = r_size t - 2 - Zlen key) as [Ep Es] by (cbn; lia).
  set (p := r_ptr t) in *. set (e := p + r_size t) in *.
  assert (header memory p e bt key) as Hh.
  { split; [lia| |by apply cstring_spec|lia]. destruct Ht as (_ & post & E).
    by rewrite <- (Nat.add_0_r (Z.to_nat p)), <- lookup_drop, E. }
  apply (answers_bind _ (λ _, True)); [apply entry_key_answers; intros; by eapply bad_index|]. intros k _.
  eapply (answers_bind _ (λ p, value_read bt t2 p.2)).
  { apply (read_value_answers _ _ lo); [done| | |done|lia|lia|lia].
    - intros Hc H4 Hb. rewrite Ep in Hb. eapply bad_counted; [exact Hh|done|lia|done].
    - intros Hbt H4 Hn Hb. rewrite Ep in Hn, Hb. eapply bad_inside; [exact Hh|done|lia|lia|done]. }
  intros [v t3]; cbn [fst snd]; intros [(Hok3 & Hp3 & He3) Hx].
  apply (answers_bind _ (λ _, True)); [unfold rawset; by destruct (norm_key _)|]. intros es' _.
  eapply answers_weaken; [apply IH; [done|lia|lia|lia]| |done].
  rewrite Ep in Hx, Hp3. replace (r_ptr t3 + r_size t3) with e by lia. intros Hb.
  eapply (bad_next memory array p e bt key Hh); [exact Hx|lia|]. by replace (p + 2 + Zlen key + (r_ptr t3 - (p + 2 + Zlen key))) with (r_ptr t3) by lia.
Qed.

(** a document shorter than five bytes has a reader of a negative size, and no byte can be read *)
Lemma fields_short ud fuel t array es : r_size t < 0 → ∃ e, unpack_fields memory ud (S fuel) t array es = LError e.
Proof.
  intros Hs. cbn [unpack_fields]. rewrite bool_decide_eq_false_2 by lia. unfold read_byte, check_reader.
  rewrite bool_decide_eq_true_2 by lia. by eexists.
Qed.

Lemma short_answers (U : Prop) P fuel br2 sz n array : reader_ok br2 ∨ U → n < 0 →
  answers U P
    ('(end_, br3) ← read_byte memory br2;
     if bool_decide (end_ ≠ 0) then LError (Message "Invalid document end")
     else es ← unpack_fields memory (unpack_dict memory fuel) (S (List.length memory)) (Reader sz n) array []; LRet (VTable es, br3)).
Proof.
  intros Hok Hn. apply (answers_bind _ (λ _, True)).
  - destruct Hok as [Hok|Hb]; [eapply answers_weaken; [by apply (read_byte_answers U)|done|done]|].
    unfold read_byte, check_reader, bytes_from. by destruct (bool_decide (r_size br2 < 1)), (bool_decide (0 ≤ r_ptr br2 ∧ _)).
  - intros [end_ br3] _. case_bool_decide; [done|].
    destruct (fields_short (unpack_dict memory fuel) (List.length memory) (Reader sz n) array [] Hn) as [e ->]. done.
Qed.

Lemma unpack_dict_answers fuel : ∀ U br array, nested_ok U array br → reader_ok br → 0 ≤ r_size br → 0 < Z.of_nat fuel →
  Zlen memory - r_ptr br < Z.of_nat fuel →
  answers U (λ p, goes_on br p.2 0 ∧ r_ptr p.2 = r_ptr br + dword memory (r_ptr br)) (unpack_dict memory fuel br array).
Proof.
  induction fuel as [|fuel IH]; intros U br array Hnest Hok Hs0 Hf Hm; [lia|]. cbn [unpack_dict].
  eapply answers_bind; [by apply read_int32_answers|]. intros [sz br1]; cbn [fst snd]; intros (Ha & Hr & -> & Hs & Hg).
  destruct (Hnest sz Ha Hr Hs) as [Hlen Hin]. destruct Hok as [Hp Hl]. rewrite (dword_at _ _ Ha Hr).
  eapply answers_bind; [apply (chk_answers U); unfold INT_MAX; destruct Hlen; [by left|right; lia]|]. intros n ->. cbn beta.
  eapply answers_bind; [apply read_bytes_answers|]. intros [q br2] [[= -> ->] Hn]. cbn [advance r_size] in Hn.
  assert (0 ≤ sz ∧ 1 ≤ r_ptr br + sz → reader_ok (advance (advance br 4) (sz - 5))) as Hok2.
  { intros. unfold reader_ok, advance. cbn [r_ptr r_size]. lia. }
  destruct (decide (sz < 5)) as [Hz|Hz]; [apply short_answers; [destruct Hlen; [by right|left; by apply Hok2]|lia]|].
  eapply answers_bind; [apply read_byte_answers, Hok2; lia|]. intros [end_ br3]; cbn [fst snd]; intros (_ & -> & He1 & Hg3).
  cbn [advance r_size] in He1. case_bool_decide; [done|]. apply (answers_bind _ (λ _, True)).
  - eapply answers_weaken; [apply (unpack_fields_answers _ (r_ptr br + 4))| |done].
    + intros U' br' array' Hnest' Hok' Hs' Hlo. apply IH; [done|done|done|lia|lia].
    + unfold reader_ok. cbn [advance r_ptr r_size]. lia.
    + cbn. lia.
    + unfold Zlen in *. lia.
    + cbn. unfold Zlen in *. lia.
    + cbn [advance r_ptr r_size]. replace (r_ptr br + 4 + (sz - 5)) with (r_ptr br + sz - 1) by lia. apply Hin. lia.
  - intros es _. cbn [answers fst snd]. split; [|cbn; lia].
    eapply (goes_on_trans _ _ _ 4 (-4)); [exact Hg| |done].
    eapply (goes_on_trans _ _ _ (sz - 5) 1); [apply (advance_goes_on _ (sz - 5)); [apply Hg|cbn [advance r_ptr]; lia|lia]|exact Hg3|lia].
Qed.

(** Decoding answers: a value, an error, or an undefined read when such an element is there. *)
Lemma decode_answers : 4 ≤ Zlen memory → i32 (le_value (take 4 memory)) ≤ Zlen memory →
  match ldecode memory with LRet _ | LError _ => True | LUndef => bad_element memory = true | LNoFuel => False end.
Proof.
  intros H4 Hlen. unfold ldecode, get_length. rewrite bool_decide_eq_true_2 by done. rewrite LRet_bind.
  set (len := i32 (le_value (take 4 memory))) in *. change (answers (bad_element memory = true) (λ _, True)
    ('(v, _) ← unpack_dict memory (S (List.length memory)) (Reader 0 len) false; LRet v)).
  destruct (decide (len < 4)) as [Hs|Hs].
  { cbn [unpack_dict]. unfold read_int32, check_reader. by rewrite bool_decide_eq_true_2. }
  eapply answers_bind; [apply unpack_dict_answers; cbn [r_ptr r_size]; [|split; cbn; lia|lia|lia|unfold Zlen; lia]|by intros [v br] _].
  intros n Ha Hr _. cbn [r_ptr r_size] in *. assert (n = len) as ->.
  { unfold len. destruct Ha as (_ & post & E). change (Z.to_nat 0) with 0%nat in E.
    rewrite drop_0 in E. by rewrite E, take_le_bytes, i32_le. }
  split; [right; lia|]. intros _ Hb. unfold bad_element. rewrite (dword_at _ _ Ha Hr).
  eapply bad_fields_mono; [exact Hb|]. unfold Zlen in *. lia.
Qed.
End total.
