(* ===== verification/BsonIndex.v ===== *)
(** * BSON: replacing values in an encoded document

    [makeindex] records where the values of a fixed size are, [__newindex]
    writes another value over them. *)
From S2P Require Import Prelude CLib CNum Bytes LuaValue Bits Crypt Bson CryptSpec BsonUtf8 BsonWrite BsonSpec BsonRead.
From Stdlib Require Import String.
#[local] Open Scope Z_scope.
#[local] Open Scope bits_scope.

(** what the Lua API answers of an argument: as a number (its bits), as a
    boolean, as a string, as an integer, and as [%f] prints it *)
Record lua_arg : Type := Arg {
  a_number : option Z; a_boolean : bool; a_string : option (list Z); a_integer : option Z; a_shown : string
}.

Section makeindex.
Context (memory : list Z).

(** the bytes of a value that is passed over, and how many follow when they are
    of a fixed number *)
Definition index_value (bt : Z) (br : bson_reader) : lua (Z * bson_reader) :=
  if bool_decide (bt ∈ [BSON_INT64; BSON_TIMESTAMP; BSON_DATE; BSON_REAL]) then LRet (8, br)
  else if bool_decide (bt = BSON_BOOLEAN) then LRet (1, br)
  else if bool_decide (bt ∈ [BSON_JSCODE; BSON_SYMBOL; BSON_STRING]) then
    '(sz, br) ← read_int32 memory br; '(_, br) ← read_bytes br sz; LRet (0, br)
  else if bool_decide (bt ∈ [BSON_CODEWS; BSON_ARRAY; BSON_DOCUMENT]) then
    '(sz, br) ← read_int32 memory br; n ← lift (chk_int (sz - 4)); '(_, br) ← read_bytes br n; LRet (0, br)
  else if bool_decide (bt = BSON_BINARY) then
    '(sz, br) ← read_int32 memory br; n ← lift (chk_int (sz + 1)); '(_, br) ← read_bytes br n; LRet (0, br)
  else if bool_decide (bt = BSON_OBJECTID) then LRet (12, br)
  else if bool_decide (bt ∈ [BSON_MINKEY; BSON_MAXKEY; BSON_NULL]) then LRet (0, br)
  else if bool_decide (bt = BSON_REGEX) then
    '(_, br) ← read_cstring memory br; '(_, br) ← read_cstring memory br; LRet (0, br)
  else if bool_decide (bt = BSON_INT32) then LRet (4, br)
  else if bool_decide (bt = BSON_DBPOINTER) then
    '(sz, br) ← read_int32 memory br; n ← lift (chk_int (sz + 12)); '(_, br) ← read_bytes br n; LRet (0, br)
  else LError (Message ("Invalid bson type : " +:+ fmt_d bt)).

Fixpoint index_fields (fuel : nat) (br : bson_reader) (es : list (value * value)) : lua (list (value * value)) :=
  match fuel with
  | O => LNoFuel
  | S fuel =>
      if bool_decide (r_size br = 0) then LRet es
      else
        '(bt, br) ← read_byte memory br;
        '(key, br) ← read_cstring memory br;
        '(field_size, br) ← index_value bt br;
        if bool_decide (0 < field_size) then
          off ← lift (chk_int (r_ptr br * 2 ^ BSON_TYPE_SHIFT));
          let id := bt .| off in
          '(_, br) ← read_bytes br field_size;
          es ← rawset es (VString key) (VInt id);
          index_fields fuel br es
        else index_fields fuel br es
  end.

(** the table that becomes the user value of the document *)
Definition lmakeindex : lua (list (value * value)) :=
  len ← get_length memory;
  n ← lift (chk_int (len - 5));
  index_fields (S (List.length memory)) (Reader 4 n) [].
End makeindex.

(** the bytes at [off], with room for 16 *)
Definition patch (memory : list Z) (off : Z) (bytes : list Z) : lua (list Z) :=
  if bool_decide (0 ≤ off ∧ off + Zlen bytes ≤ Zlen memory) then LRet (copy_at memory off bytes) else LUndef.
(** what is written into the empty [struct bson] at the value *)
Definition written (m : outcome bson) : lua (list Z) := b ← lift m; LRet (ptr b).
Definition at_value : bson := Bson 0 16 [].

Definition replace_object (type : Z) (data : list Z) : lua (list Z) :=
  let len := Zlen data in
  if bool_decide (len < 6 ∨ at_idx data 0 ≠ 0 ∨ at_idx data 1 ≠ type) then
    LError (Message ("Type mismatch, need bson type " +:+ fmt_d type))
  else if bool_decide (type = BSON_OBJECTID) then
    if bool_decide (len ≠ 2 + 12) then LError (Message "Invalid object id") else LRet (take 12 (drop 2 data))
  else if bool_decide (type = BSON_DATE) then
    if bool_decide (len ≠ 2 + 4) then LError (Message "Invalid date")
    else written (write_int64 at_value (le_value (take 4 (drop 2 data)) * 1000))
  else if bool_decide (type = BSON_TIMESTAMP) then
    if bool_decide (len ≠ 2 + 8) then LError (Message "Invalid timestamp")
    else written (b ← write_int32 at_value (le_value (take 4 (drop 2 data))); write_int32 b (le_value (take 4 (drop 6 data))))
  else LRet [].

(** the bytes of the new value *)
Definition replacement (type : Z) (arg : lua_arg) : lua (list Z) :=
  if bool_decide (type = BSON_REAL) then
    match a_number arg with None => LError (Message "number expected") | Some d => written (write_double at_value d) end
  else if bool_decide (type = BSON_BOOLEAN) then written (write_byte at_value (if a_boolean arg then 1 else 0))
  else if bool_decide (type ∈ [BSON_OBJECTID; BSON_DATE; BSON_TIMESTAMP]) then
    match a_string arg with None => LError (Message "string expected") | Some data => replace_object type data end
  else if bool_decide (type = BSON_INT32) then
    match a_integer arg with
    | None => LError (Message (a_shown arg +:+ " must be a 32bit integer "))
    | Some i => written (write_int32 at_value (i32 i))
    end
  else if bool_decide (type = BSON_INT64) then
    match a_integer arg with
    | None => LError (Message (a_shown arg +:+ " must be a 64bit integer "))
    | Some i => written (write_int64 at_value i)
    end
  else LError (Message ("Can't replace type " +:+ fmt_d type)).

Fixpoint rawget (es : list (value * value)) (k : value) : value :=
  match es with
  | [] => VNil
  | (k', v) :: es => if same_key k k' then v else rawget es k
  end.

(** [index] is the user value, a table after [makeindex]; [shown] is the key as
    [lua_tostring] gives it *)
Definition lreplace (memory : list Z) (index : option (list (value * value))) (key : value) (shown : string) (arg : lua_arg) :
    lua (list Z) :=
  match index with
  | None => LError (Message "call makeindex first")
  | Some es =>
      match rawget es key with
      | VInt id =>
          let type := id .& (2 ^ BSON_TYPE_SHIFT - 1) in
          let offset := id >> BSON_TYPE_SHIFT in
          bytes ← replacement type arg;
          patch memory offset bytes
      | _ => LError (Message ("Can't replace key : " +:+ shown))
      end
  end.

(** ** Replacing a value of an encoded document is replacing it in the table *)
#[local] Opaque le_bytes.

(** ** A document as a list of fields *)
Record field : Type := Field { f_type : Z; f_key : list Z; f_payload : list Z; f_value : value }.

Definition field_bytes (f : field) : list Z := element (f_type f) (f_key f) (f_payload f).
Definition fields_bytes (fs : list field) : list Z := fs ≫= field_bytes.
Definition fields_entries (fs : list field) : list (value * value) := (λ f, (VString (f_key f), f_value f)) <$> fs.

Lemma fields_bytes_cons f fs : fields_bytes (f :: fs) = field_bytes f ++ fields_bytes fs.
Proof. done. Qed.

(** the decoder reads the value *)
Definition readable (t : Z) (payload : list Z) (val : value) : Prop :=
  ∀ memory pos fuel, at_pos memory pos payload → Zlen payload < MAX_DOCUMENT → Zlen payload < Z.of_nat fuel →
    reads (read_value memory (unpack_dict memory fuel) t) pos (Zlen payload) val.

(** the values that can be replaced, by their size *)
Definition fixed_size (t : Z) : option Z :=
  if bool_decide (t ∈ [BSON_INT64; BSON_TIMESTAMP; BSON_DATE; BSON_REAL]) then Some 8
  else if bool_decide (t = BSON_BOOLEAN) then Some 1
  else if bool_decide (t = BSON_OBJECTID) then Some 12
  else if bool_decide (t = BSON_INT32) then Some 4
  else None.
(** [makeindex] finds the value, or passes over it *)
Definition passable (t : Z) (payload : list Z) : Prop :=
  match fixed_size t with
  | Some n => Zlen payload = n
  | None => ∀ memory pos, at_pos memory pos payload → Zlen payload < MAX_DOCUMENT → reads (index_value memory t) pos (Zlen payload) 0
  end.

Definition field_ok (f : field) : Prop :=
  byte (f_type f) ∧ (0 ∉ f_key f) ∧ readable (f_type f) (f_payload f) (f_value f) ∧ passable (f_type f) (f_payload f) ∧ f_value f ≠ VNil.
Definition fields_ok (fs : list field) : Prop := Forall field_ok fs ∧ NoDup (f_key <$> fs).

(** ** The encoder's elements are fields *)
Ltac index_case := intros r Hr; unfold index_value; decide_const; cbn match.

(** a value of [n + d] bytes after its length is passed over *)
Lemma skip_counted memory pos n (l : list Z) d (f : Z → outcome Z) :
  at_pos memory pos (le_bytes 4 n ++ l) → - 2 ^ 31 ≤ n < 2 ^ 31 → f n = Ret (Zlen l) → d = 4 + Zlen l →
  reads (λ br, '(sz, br) ← read_int32 memory br; n ← lift (f sz); '(_, br) ← read_bytes br n; LRet (0, br)) pos d 0.
Proof.
  intros Ha Hn Hf -> r Hr. pose proof (Zlen_nonneg l). destruct (counted_at memory pos _ _ Ha Hn) as (H4 & _ & _).
  rewrite H4 by lia. rewrite LRet_bind, Hf. cbn [lift]. rewrite LRet_bind, skip_bytes_at by lia. rewrite LRet_bind.
  do 2 f_equal. apply reader_eq; lia.
Qed.

Lemma object_passable s t payload : object s t payload → passable t payload.
Proof.
  intros Ho. destruct Ho as [t Ht|sub data Hs Hd|id Hi Hl|ts Ht|inc ts Hi Ht|pat opt Hp Ho|t text Ht Hx|ref Hx Hl|scope Hs];
    try (by unfold passable; vm_compute fixed_size; rewrite ?Zlen_app, ?Zlen_le_bytes).
  - set_unfold in Ht. destruct Ht as [-> | [-> | [-> | []]]]; intros memory pos Ha Hm; index_case; by rewrite Z.add_0_r, Z.sub_0_r.
  - intros memory pos Ha Hm. unfold MAX_DOCUMENT in Hm. pose proof (Zlen_nonneg data). rewrite Zlen_app, Zlen_cons, Zlen_le_bytes in *.
    index_case. apply (skip_counted memory pos _ _ _ (λ sz, chk_int (sz + 1)) Ha); [lia| |rewrite Zlen_cons; lia|lia].
    rewrite chk_int_ok by (unfold INT_MAX; lia). rewrite Zlen_cons. f_equal. lia.
  - intros memory pos Ha Hm. destruct Hp as (_ & _ & Hp), Ho as (_ & _ & Ho). rewrite Zlen_app, Zlen_cons, Zlen_app. change (Zlen [0]) with 1.
    pose proof (Zlen_nonneg pat). pose proof (Zlen_nonneg opt).
    assert (pat ++ 0 :: opt ++ [0] = (pat ++ [0]) ++ (opt ++ [0])) as Ep by (by rewrite <- app_assoc). rewrite Ep in Ha.
    apply at_pos_app in Ha as [Ha1 Ha2]. rewrite Zlen_app in Ha2. change (Zlen [0]) with 1 in Ha2. index_case.
    rewrite (read_cstring_at _ _ pat) by (done || lia). rewrite LRet_bind.
    rewrite (read_cstring_at _ _ opt) by (done || lia). rewrite LRet_bind. do 2 f_equal. apply reader_eq; lia.
  - set_unfold in Ht. destruct Ht as [-> | [-> | []]]; intros memory pos Ha Hm; unfold MAX_DOCUMENT in Hm; pose proof (Zlen_nonneg text);
      rewrite Zlen_app, Zlen_le_bytes in *; index_case; apply (skip_counted memory pos _ _ _ Ret Ha); (done || lia).
  - intros memory pos Ha Hm. unfold MAX_DOCUMENT in Hm. rewrite Zlen_app, Zlen_le_bytes in *.
    index_case. apply (skip_counted memory pos _ _ _ (λ sz, chk_int (sz + 12)) Ha); [lia| |done|lia].
    rewrite chk_int_ok by (unfold INT_MAX; lia). f_equal. lia.
  - intros memory pos Ha Hm. unfold MAX_DOCUMENT in Hm. pose proof (Zlen_nonneg scope). rewrite Zlen_app, Zlen_le_bytes in *.
    index_case. apply (skip_counted memory pos _ _ _ (λ sz, chk_int (sz - 4)) Ha); [lia| |done|lia].
    rewrite chk_int_ok by (unfold INT_MAX; lia). f_equal. lia.
Qed.

Lemma document_passable t elements : t ∈ [BSON_DOCUMENT; BSON_ARRAY] → passable t (document elements).
Proof.
  intros Ht. set_unfold in Ht. pose proof (Zlen_nonneg elements).
  destruct Ht as [-> | [-> | []]]; intros memory pos Ha Hm; rewrite Zlen_document in *; unfold MAX_DOCUMENT in Hm; unfold document in Ha;
    index_case; (apply (skip_counted memory pos _ _ _ (λ sz, chk_int (sz - 4)) Ha);
      [lia|rewrite chk_int_ok by (unfold INT_MAX; lia); f_equal| |lia]); rewrite Zlen_app; change (Zlen [0]) with 1; lia.
Qed.

Lemma encodes_passable h v t payload val : encodes h v t payload val → passable t payload.
Proof.
  destruct 1 as [| | |h []|h s Hs Hc Hp|h s t payload Ho| | |]; try (by unfold passable; vm_compute fixed_size; rewrite ?Zlen_le_bytes);
    try (by apply document_passable; set_solver).
  - intros memory pos Ha Hm. unfold MAX_DOCUMENT in Hm. pose proof (Zlen_nonneg s). rewrite !Zlen_app, Zlen_le_bytes in *.
    change (Zlen [0]) with 1 in *.
    index_case. apply (skip_counted memory pos _ _ _ Ret Ha); [lia| | |lia]; rewrite Zlen_app; change (Zlen [0]) with 1; [done|lia].
  - by eapply object_passable.
Qed.

Lemma encodes_readable h v t payload val : encodes h v t payload val → readable t payload val.
Proof. intros He memory. destruct (encodes_reads memory) as (Hr & _). by apply (Hr h v). Qed.

(** the fields of encoded entries, one for each *)
Definition field_of h (kv : bkey * bvalue) (f : field) : Prop :=
  kv.1 = KString (f_key f) ∧ encodes h kv.2 (f_type f) (f_payload f) (f_value f).

Lemma entries_fields h kvs elements es : encodes_entries h kvs elements es →
  ∃ fs, Forall2 (field_of h) kvs fs ∧ elements = fields_bytes fs ∧ es = fields_entries fs ∧ fields_ok fs.
Proof.
  revert elements es. induction kvs as [|[k v] kvs IH]; intros elements es H; inversion H as [|? key ? ? t payload val elements' es' Hk Hv He Hnew]; subst.
  - exists []. split_and!; [done..|]. split; [by apply Forall_nil|apply NoDup_nil_2].
  - destruct (IH _ _ He) as (fs & Hf & -> & -> & Hok & Hnd). exists (Field t key payload val :: fs). split_and!; [|done|done|].
    + by apply Forall2_cons.
    + destruct Hk as (_ & _ & H0). destruct (encodes_type _ _ _ _ _ Hv) as [Hb Hnil]. split.
      * apply Forall_cons. split; [|done]. split; [done|]. split; [done|]. split; [by eapply encodes_readable|]. split; [by eapply encodes_passable|done].
      * cbn. apply NoDup_cons. split; [|done]. intros Hin. apply list_elem_of_fmap in Hin as (f & -> & Hin).
        rewrite Forall_forall in Hnew. apply (Hnew (VString (f_key f), f_value f)); [|done]. apply list_elem_of_fmap. by exists f.
Qed.

(** ** Decoding and indexing fields *)
Lemma Zlen_field f : Zlen (field_bytes f) = 2 + Zlen (f_key f) + Zlen (f_payload f).
Proof. apply Zlen_element. Qed.

Lemma fresh_key key (es : list (value * value)) v k : Forall (λ q, same_key (VString k) q.1 = false) es → k ≠ key →
  Forall (λ q, same_key (VString k) q.1 = false) (es ++ [(VString key, v)]).
Proof. intros H Hne. apply Forall_app. split; [done|]. apply Forall_singleton. by apply bool_decide_eq_false_2. Qed.

Section fields.
Context (memory : list Z).

Lemma fields_read fs : fields_ok fs → ∀ pos fuel fuel' es0, at_pos memory pos (fields_bytes fs) → Zlen (fields_bytes fs) < MAX_DOCUMENT →
  Zlen (fields_bytes fs) < Z.of_nat fuel → Zlen (fields_bytes fs) < Z.of_nat fuel' →
  (∀ f, f ∈ fs → Forall (λ q, same_key (VString (f_key f)) q.1 = false) es0) →
  unpack_fields memory (unpack_dict memory fuel) fuel' (Reader pos (Zlen (fields_bytes fs))) false es0 = LRet (es0 ++ fields_entries fs).
Proof.
  intros [Hok Hnd]. revert Hnd. induction Hok as [|f fs (Hb & H0 & Hr & _ & Hnil) Hok IH]; intros Hnd pos fuel fuel' es0 Ha Hm Hf Hf' Hes.
  - destruct fuel' as [|fuel']; [done|]. cbn. by rewrite app_nil_r.
  - apply NoDup_cons in Hnd as [Hnew Hnd]. rewrite fields_bytes_cons in *. pose proof (Zlen_nonneg (fields_bytes fs)).
    pose proof (Zlen_nonneg (f_key f)). pose proof (Zlen_nonneg (f_payload f)).
    destruct fuel' as [|fuel']; [rewrite Zlen_app in Hf'; pose proof (Zlen_nonneg (field_bytes f)); lia|].
    apply at_pos_app in Ha as [Ha1 Ha2]. destruct (element_parts _ _ _ _ _ Ha1) as (_ & _ & Ha3).
    rewrite Zlen_app, Zlen_field in Hm, Hf, Hf'.
    rewrite (element_fields _ _ _ false (VString (f_key f)) _ _ _ (f_value f) _ (es0 ++ [(VString (f_key f), f_value f)]) _ _ Ha1 H0);
      [|apply Hr; [done|lia|lia]|done|apply rawset_fresh; [done|apply Hes; by left|done]].
    rewrite IH; [by rewrite <- app_assoc|done|done|lia|lia|lia|].
    intros f' Hin. apply fresh_key; [apply Hes; by right|]. intros E. apply Hnew. apply list_elem_of_fmap. by exists f'.
Qed.

(** the entry of [makeindex] for a value at [off] *)
Definition index_id (t off : Z) : Z := t .| (off * 2 ^ BSON_TYPE_SHIFT).
Fixpoint fields_index (pos : Z) (fs : list field) : list (value * value) :=
  match fs with
  | [] => []
  | f :: fs =>
      (if fixed_size (f_type f) is Some _ then [(VString (f_key f), VInt (index_id (f_type f) (pos + 2 + Zlen (f_key f))))] else []) ++
      fields_index (pos + Zlen (field_bytes f)) fs
  end.

Lemma fixed_index t n br : fixed_size t = Some n → index_value memory t br = LRet (n, br) ∧ 0 < n ∧ 0 ≤ t < 2 ^ BSON_TYPE_SHIFT.
Proof.
  unfold fixed_size. intros H. case_bool_decide as E1.
  { injection H as <-. set_unfold in E1. by destruct E1 as [-> | [-> | [-> | [-> | []]]]]. }
  case_bool_decide; [injection H as <-; by subst t|]. case_bool_decide; [injection H as <-; by subst t|].
  case_bool_decide; [injection H as <-; by subst t|done].
Qed.

Lemma index_step fuel f fs pos es es' : at_pos memory pos (field_bytes f) → field_ok f → 0 ≤ pos → pos + Zlen (field_bytes f) < 2 ^ 26 →
  (match fixed_size (f_type f) with
   | Some _ => rawset es (VString (f_key f)) (VInt (index_id (f_type f) (pos + 2 + Zlen (f_key f))))
   | None => LRet es
   end) = LRet es' →
  index_fields memory (S fuel) (Reader pos (Zlen (fields_bytes (f :: fs)))) es =
  index_fields memory fuel (Reader (pos + Zlen (field_bytes f)) (Zlen (fields_bytes fs))) es'.
Proof.
  intros Ha (Hb & H0 & _ & Hp & _) Hpos Hm Hes. pose proof (Zlen_nonneg (f_key f)). pose proof (Zlen_nonneg (f_payload f)).
  pose proof (Zlen_nonneg (fields_bytes fs)). destruct (element_parts _ _ _ _ _ Ha) as (Ha1 & Ha2 & Ha3).
  rewrite fields_bytes_cons, Zlen_app, Zlen_field in *. cbn [index_fields]. rewrite bool_decide_eq_false_2 by (cbn [r_size]; lia).
  rewrite (read_byte_at _ _ _ Ha1) by lia. rewrite LRet_bind. rewrite (read_cstring_at _ _ _ Ha2 H0) by lia. rewrite LRet_bind.
  replace (pos + 1 + (Zlen (f_key f) + 1)) with (pos + 2 + Zlen (f_key f)) by lia. unfold passable in Hp.
  destruct (fixed_size (f_type f)) as [n|] eqn:E.
  - destruct (fixed_index _ _ (Reader (pos + 2 + Zlen (f_key f))
      (2 + Zlen (f_key f) + Zlen (f_payload f) + Zlen (fields_bytes fs) - 1 - (Zlen (f_key f) + 1))) E) as (-> & Hn & _).
    rewrite LRet_bind, bool_decide_eq_true_2 by done. cbn [r_ptr]. rewrite chk_int_ok by (unfold INT_MAX, BSON_TYPE_SHIFT; lia).
    cbn [lift]. rewrite LRet_bind, skip_bytes_at by lia. rewrite LRet_bind. unfold index_id in Hes. rewrite Hes, LRet_bind.
    f_equal. apply reader_eq; lia.
  - rewrite Hp by (done || unfold MAX_DOCUMENT; lia). rewrite LRet_bind. change (bool_decide (0 < 0)) with false. injection Hes as ->.
    cbn match. f_equal. apply reader_eq; lia.
Qed.

Lemma fields_indexed fs : fields_ok fs → ∀ pos fuel es0, at_pos memory pos (fields_bytes fs) → 0 ≤ pos →
  pos + Zlen (fields_bytes fs) < 2 ^ 26 → Zlen (fields_bytes fs) < Z.of_nat fuel →
  (∀ f, f ∈ fs → Forall (λ q, same_key (VString (f_key f)) q.1 = false) es0) →
  index_fields memory fuel (Reader pos (Zlen (fields_bytes fs))) es0 = LRet (es0 ++ fields_index pos fs).
Proof.
  intros [Hok Hnd]. revert Hnd. induction Hok as [|f fs Hf Hok IH]; intros Hnd pos fuel es0 Ha Hp Hm Hfu Hes.
  - destruct fuel as [|fuel]; [done|]. cbn. by rewrite app_nil_r.
  - apply NoDup_cons in Hnd as [Hnew Hnd]. pose proof (Zlen_nonneg (fields_bytes fs)). pose proof (Zlen_field f) as El.
    pose proof (Zlen_nonneg (f_key f)). pose proof (Zlen_nonneg (f_payload f)).
    destruct fuel as [|fuel]; [pose proof (Zlen_nonneg (fields_bytes (f :: fs))); lia|].
    rewrite fields_bytes_cons in Ha. apply at_pos_app in Ha as [Ha1 Ha2]. rewrite fields_bytes_cons, Zlen_app in Hm, Hfu.
    set (entry := if fixed_size (f_type f) is Some _ then [(VString (f_key f), VInt (index_id (f_type f) (pos + 2 + Zlen (f_key f))))] else []).
    rewrite (index_step _ _ _ _ _ (es0 ++ entry) Ha1 Hf Hp) by
      (lia || (unfold entry; case_match; [apply rawset_fresh; [done|apply Hes; by left|done]|by rewrite app_nil_r])).
    rewrite IH; [cbn [fields_index]; by rewrite <- app_assoc|done|done|lia|lia|lia|].
    intros f' Hin. unfold entry. case_match; [|rewrite app_nil_r; apply Hes; by right].
    apply fresh_key; [apply Hes; by right|]. intros E. apply Hnew. apply list_elem_of_fmap. by exists f'.
Qed.
End fields.

(** ** Writing over a value *)

(** a new value of a type, its bytes and what it reads back as *)
Inductive replaces : Z → lua_arg → list Z → value → Prop :=
  | replaces_real arg d : a_number arg = Some d → 0 ≤ d < 2 ^ 64 → replaces BSON_REAL arg (le_bytes 8 d) (VReal d)
  | replaces_boolean arg : replaces BSON_BOOLEAN arg [if a_boolean arg then 1 else 0] (VBool (a_boolean arg))
  (** an integer that does not fit is cut *)
  | replaces_int32 arg i : a_integer arg = Some i → replaces BSON_INT32 arg (le_bytes 4 i) (VInt (i32 i))
  | replaces_int64 arg i : a_integer arg = Some i → - 2 ^ 63 ≤ i < 2 ^ 63 → replaces BSON_INT64 arg (le_bytes 8 i) (VInt i)
  | replaces_object arg s t payload : a_string arg = Some s → object s t payload →
      t ∈ [BSON_OBJECTID; BSON_DATE; BSON_TIMESTAMP] → replaces t arg payload (VString s).

Lemma written_value bytes n : Zlen bytes = n → n ≤ 16 → 
  written (b ← bson_reserve at_value n; store b bytes) = LRet bytes.
Proof.
  intros <- Hn. pose proof (Zlen_nonneg bytes). unfold written, bson_reserve, at_value. cbn [size cap].
  rewrite chk_int_ok by (unfold INT_MAX; lia). rewrite Ret_bind, bool_decide_eq_true_2 by lia. rewrite Ret_bind. unfold store. cbn [size cap ptr].
  rewrite bool_decide_eq_true_2 by lia. done.
Qed.
Lemma written_int32 i : written (write_int32 at_value i) = LRet (le_bytes 4 i).
Proof. unfold write_int32. cbv zeta. rewrite int32_bytes. apply written_value; [apply Zlen_le_bytes|done]. Qed.
Lemma written_int64 i : written (write_int64 at_value i) = LRet (le_bytes 8 i).
Proof.
  unfold write_int64. cbv zeta. rewrite int64_bytes. change (u64 i) with (i mod 256 ^ Z.of_nat 8). rewrite le_bytes_mod.
  apply written_value; [apply Zlen_le_bytes|done].
Qed.
Lemma written_double i : written (write_double at_value i) = LRet (le_bytes 8 i).
Proof. unfold write_double. rewrite int64_bytes. apply written_value; [apply Zlen_le_bytes|done]. Qed.
Lemma written_timestamp inc ts :
  written (b ← write_int32 at_value inc; write_int32 b ts) = LRet (le_bytes 4 inc ++ le_bytes 4 ts).
Proof.
  assert (∀ l new, Zlen new = 4 → store (Bson (Zlen l) 16 l) new = if bool_decide (Zlen l + 4 ≤ 16) then Ret (Bson (Zlen l + 4) 16 (l ++ new)) else Undef) as Hst.
  { intros l new Hn. unfold store. cbn [size cap ptr]. rewrite Hn.
    replace (Z.to_nat (Zlen l)) with (List.length l) by (unfold Zlen; lia). by rewrite firstn_all. }
  unfold write_int32. cbv zeta. rewrite !int32_bytes. change (bson_reserve at_value 4) with (Ret at_value). rewrite Ret_bind.
  change at_value with (Bson (Zlen (@nil Z)) 16 []). rewrite (Hst []) by apply Zlen_le_bytes. rewrite bool_decide_eq_true_2 by done.
  rewrite Ret_bind. change (Zlen (@nil Z) + 4) with 4. cbn [app].
  assert (∀ l, bson_reserve (Bson 4 16 l) 4 = Ret (Bson 4 16 l)) as -> by done. rewrite Ret_bind.
  assert (4 = Zlen (le_bytes 4 inc)) as E by (by rewrite Zlen_le_bytes). rewrite E at 1. rewrite Hst by apply Zlen_le_bytes.
  by rewrite Zlen_le_bytes, bool_decide_eq_true_2 by done.
Qed.

Lemma i32_range z : - 2 ^ 31 ≤ i32 z < 2 ^ 31.
Proof. unfold i32. pose proof (mod_range (z + 2 ^ 31) (2 ^ 32) ltac:(done)). lia. Qed.

Ltac replace_case := unfold replace_object; cbv zeta; change (at_idx _ 0) with 0; cbn [drop]; rewrite ?drop_0.

Lemma object_replaced s t payload : object s t payload → t ∈ [BSON_OBJECTID; BSON_DATE; BSON_TIMESTAMP] →
  replace_object t s = LRet payload ∧ fixed_size t = Some (Zlen payload).
Proof.
  intros Ho Ht. set_unfold in Ht.
  destruct Ho as [t H|sub data Hs Hd|id Hi Hl|ts Hts|inc ts Hi Hts|pat opt Hp Ho|t text H Hx|ref Hx Hl|scope Hs];
    try (by destruct Ht as [|[|[|[]]]]); try (set_unfold in H; by destruct_or?; subst).
  - split; [|by rewrite Hl]. replace_case. change (at_idx _ 1) with BSON_OBJECTID. rewrite !Zlen_cons, Hl.
    rewrite bool_decide_eq_false_2 by (unfold BSON_OBJECTID; lia). decide_const. cbn match. f_equal.
    apply take_ge. unfold Zlen in Hl. lia.
  - split; [|by rewrite Zlen_le_bytes]. replace_case. change (at_idx _ 1) with BSON_DATE. rewrite !Zlen_cons, Zlen_le_bytes.
    rewrite bool_decide_eq_false_2 by (unfold BSON_DATE; lia). decide_const. cbn match.
    pose proof (take_le_bytes 4 ts []) as E. rewrite app_nil_r in E. rewrite E, le_small by (change (256 ^ Z.of_nat 4) with (2 ^ 32); lia).
    apply written_int64.
  - split; [|by rewrite Zlen_app, !Zlen_le_bytes]. replace_case. change (at_idx _ 1) with BSON_TIMESTAMP.
    rewrite !Zlen_cons, Zlen_app, !Zlen_le_bytes. rewrite bool_decide_eq_false_2 by (unfold BSON_TIMESTAMP; lia). decide_const. cbn match.
    rewrite take_le_bytes, drop_le_bytes. pose proof (take_le_bytes 4 ts []) as E. rewrite app_nil_r in E.
    rewrite E, !le_small by (change (256 ^ Z.of_nat 4) with (2 ^ 32); lia). apply written_timestamp.
Qed.

Lemma replaces_written t arg payload val : replaces t arg payload val →
  replacement t arg = LRet payload ∧ fixed_size t = Some (Zlen payload) ∧ readable t payload val ∧ val ≠ VNil.
Proof.
  destruct 1 as [arg d Hd Hr|arg|arg i Hi|arg i Hi Hr|arg s t payload Hs Ho Ht]; unfold replacement.
  - decide_const. cbn match. rewrite Hd, written_double. split_and!; [done|by rewrite Zlen_le_bytes|by eapply (encodes_readable 0), encodes_real|done].
  - decide_const. cbn match. split_and!; [by destruct (a_boolean arg)|done|apply (encodes_readable 0 (BBool (a_boolean arg))), encodes_bool|done].
  - decide_const. cbn match. rewrite Hi, written_int32, i32_bytes. split_and!; [done|by rewrite Zlen_le_bytes| |done].
    rewrite <- i32_bytes. eapply (encodes_readable 0), encodes_int32. unfold is_32bit. apply bool_decide_eq_true. pose proof (i32_range i). lia.
  - decide_const. cbn match. rewrite Hi, written_int64. split_and!; [done|by rewrite Zlen_le_bytes| |done].
    intros memory pos fuel Ha _ _. rewrite Zlen_le_bytes. intros r Hr'. unfold read_value, read_scalar. decide_const. cbn match.
    by rewrite (read_int64_at _ _ i) by (done || lia).
  - destruct (object_replaced s t payload Ho Ht) as [E1 E2]. split_and!; [|done|by eapply (encodes_readable 0), encodes_object|done].
    rewrite Hs. set_unfold in Ht. destruct Ht as [-> | [-> | [-> | []]]]; decide_const; cbn match; exact E1.
Qed.

(** ** The entry of a value, and the document after *)
Lemma index_id_parts t off : 0 ≤ t < 2 ^ BSON_TYPE_SHIFT → 0 ≤ off →
  index_id t off .& (2 ^ BSON_TYPE_SHIFT - 1) = t ∧ index_id t off >> BSON_TYPE_SHIFT = off.
Proof.
  intros Ht Hoff. unfold index_id. rewrite lor_high by done. rewrite land_mask, Z.shiftr_div_pow2 by done.
  rewrite Z.mod_add, Z.div_add, Z.mod_small, Z.div_small by (done || lia). done.
Qed.

Lemma rawget_index fs1 f fs2 n : fixed_size (f_type f) = Some n → f_key f ∉ (f_key <$> fs1) → ∀ pos,
  rawget (fields_index pos (fs1 ++ f :: fs2)) (VString (f_key f)) =
  VInt (index_id (f_type f) (pos + Zlen (fields_bytes fs1) + 2 + Zlen (f_key f))).
Proof.
  intros Hf. induction fs1 as [|f1 fs1 IH]; intros Hnew pos.
  - cbn [app fields_index]. rewrite Hf. cbn [app rawget same_key]. rewrite bool_decide_eq_true_2 by done.
    change (Zlen (fields_bytes [])) with 0. do 2 f_equal. lia.
  - rewrite fmap_cons in Hnew. apply not_elem_of_cons in Hnew as [Hne Hnew]. cbn [app fields_index].
    rewrite fields_bytes_cons, Zlen_app. specialize (IH Hnew (pos + Zlen (field_bytes f1))).
    replace (pos + (Zlen (field_bytes f1) + Zlen (fields_bytes fs1))) with (pos + Zlen (field_bytes f1) + Zlen (fields_bytes fs1)) by lia.
    case_match; cbn [app rawget same_key]; [rewrite bool_decide_eq_false_2 by done|]; exact IH.
Qed.

Lemma fields_bytes_app fs1 fs2 : fields_bytes (fs1 ++ fs2) = fields_bytes fs1 ++ fields_bytes fs2.
Proof. apply bind_app. Qed.

(** writing over the payload of a field *)
Lemma patch_field fs1 t key old new v fs2 : Zlen new = Zlen old →
  patch (document (fields_bytes (fs1 ++ Field t key old v :: fs2))) (4 + Zlen (fields_bytes fs1) + 2 + Zlen key) new =
  LRet (document (fields_bytes (fs1 ++ Field t key new v :: fs2))).
Proof.
  intros Hl. set (pre := le_bytes 4 (Zlen (fields_bytes (fs1 ++ Field t key old v :: fs2)) + 5) ++ fields_bytes fs1 ++ [t] ++ key ++ [0]).
  assert (∀ p, Zlen p = Zlen old → document (fields_bytes (fs1 ++ Field t key p v :: fs2)) = pre ++ p ++ fields_bytes fs2 ++ [0]) as E.
  { intros p Hp. unfold document, pre. rewrite !fields_bytes_app, !fields_bytes_cons. unfold field_bytes, element. cbn [f_type f_key f_payload].
    assert (∀ q, Zlen (fields_bytes fs1 ++ (t :: key ++ 0 :: q) ++ fields_bytes fs2) = Zlen (fields_bytes fs1) + 2 + Zlen key + Zlen q + Zlen (fields_bytes fs2)) as Hz.
    { intros q. rewrite !Zlen_app, Zlen_cons, Zlen_app, Zlen_cons. lia. }
    rewrite !Hz, Hp. rewrite <- !app_assoc. cbn [app]. by rewrite <- !app_assoc. }
  assert (Zlen pre = 4 + Zlen (fields_bytes fs1) + 2 + Zlen key) as Hpre.
  { unfold pre. rewrite !Zlen_app, Zlen_le_bytes. change (Zlen [t]) with 1. change (Zlen [0]) with 1. lia. }
  rewrite (E old), (E new) by done. unfold patch. rewrite <- Hpre. pose proof (Zlen_nonneg pre). pose proof (Zlen_nonneg (fields_bytes fs2)).
  rewrite bool_decide_eq_true_2 by (rewrite !Zlen_app; change (Zlen [0]) with 1; lia).
  by rewrite copy_at_middle by (unfold Zlen in Hl; lia).
Qed.

Lemma fields_decoded fs rest : fields_ok fs → Zlen (fields_bytes fs) + 5 < MAX_DOCUMENT →
  ldecode (document (fields_bytes fs) ++ rest) = LRet (VTable (fields_entries fs)).
Proof.
  intros Hok Hl. unfold ldecode. rewrite get_length_document by done. rewrite LRet_bind. set (memory := document (fields_bytes fs) ++ rest).
  assert (reads (λ br, unpack_dict memory (S (List.length memory)) br false) 0 (Zlen (document (fields_bytes fs))) (VTable (fields_entries fs))) as E.
  { apply framed_reads; [split; [done|by exists rest]|by rewrite Zlen_document|unfold memory, Zlen; rewrite length_app; lia|].
    intros pos fuel fuel' Ha H1 H2 H3. by rewrite (fields_read memory fs Hok _ _ _ []). }
  by rewrite E by (rewrite Zlen_document; lia).
Qed.

Lemma fields_made_index fs : fields_ok fs → Zlen (fields_bytes fs) + 5 < 2 ^ 26 →
  lmakeindex (document (fields_bytes fs)) = LRet (fields_index 4 fs).
Proof.
  intros Hok Hl. unfold lmakeindex. pose proof (Zlen_nonneg (fields_bytes fs)).
  pose proof (get_length_document (fields_bytes fs) [] ltac:(unfold MAX_DOCUMENT; lia)) as E. rewrite app_nil_r in E. rewrite E, LRet_bind.
  rewrite chk_int_ok by (unfold INT_MAX; lia). cbn [lift]. rewrite LRet_bind.
  replace (Zlen (fields_bytes fs) + 5 - 5) with (Zlen (fields_bytes fs)) by lia.
  rewrite (fields_indexed _ fs Hok 4 _ []); [done| |done|lia| |intros; by apply Forall_nil].
  - apply (document_parts _ 0). split; [done|]. exists []. by rewrite app_nil_r.
  - unfold Zlen. pose proof (Zlen_document (fields_bytes fs)) as Hz. unfold Zlen in Hz. lia.
Qed.

(** replacing one of the fields *)
Lemma replace_field fs1 f fs2 arg shown payload val : fields_ok (fs1 ++ f :: fs2) → Zlen (fields_bytes (fs1 ++ f :: fs2)) + 5 < 2 ^ 26 →
  replaces (f_type f) arg payload val →
  lreplace (document (fields_bytes (fs1 ++ f :: fs2))) (Some (fields_index 4 (fs1 ++ f :: fs2))) (VString (f_key f)) shown arg =
    LRet (document (fields_bytes (fs1 ++ Field (f_type f) (f_key f) payload val :: fs2))) ∧
  ldecode (document (fields_bytes (fs1 ++ Field (f_type f) (f_key f) payload val :: fs2))) =
    LRet (VTable (fields_entries (fs1 ++ Field (f_type f) (f_key f) payload val :: fs2))).
Proof.
  intros Hok Hl Hr. destruct (replaces_written _ _ _ _ Hr) as (E & Hfix & Hread & Hnil). destruct Hok as [Hok Hnd].
  pose proof Hok as Hall. apply Forall_app in Hok as [Hok1 Hok]. apply Forall_cons in Hok as [(Hb & H0 & Hrd & Hp & Hn) Hok2].
  assert (Zlen payload = Zlen (f_payload f)) as Hlen by (unfold passable in Hp; by rewrite Hfix in Hp).
  assert (∀ p q, Zlen p = Zlen q → Zlen (fields_bytes (fs1 ++ Field (f_type f) (f_key f) p val :: fs2)) = Zlen (fields_bytes (fs1 ++ Field (f_type f) (f_key f) q val :: fs2))) as Hsame.
  { intros p q Hpq. rewrite !fields_bytes_app, !fields_bytes_cons, !Zlen_app, !Zlen_field. cbn [f_key f_payload]. lia. }
  assert (fields_bytes (fs1 ++ f :: fs2) = fields_bytes (fs1 ++ Field (f_type f) (f_key f) (f_payload f) val :: fs2)) as Ef.
  { by rewrite !fields_bytes_app, !fields_bytes_cons. }
  pose proof Hnd as Hnd'. rewrite fmap_app in Hnd. apply NoDup_app in Hnd as (_ & Hdis & _). split.
  - unfold lreplace. rewrite (rawget_index _ _ _ _ Hfix).
    2:{ intros Hin. apply (Hdis _ Hin). left. }
    destruct (fixed_index [] _ _ (Reader 0 0) Hfix) as (_ & _ & Ht). pose proof (Zlen_nonneg (fields_bytes fs1)). pose proof (Zlen_nonneg (f_key f)).
    destruct (index_id_parts (f_type f) (4 + Zlen (fields_bytes fs1) + 2 + Zlen (f_key f)) Ht ltac:(lia)) as [-> ->].
    rewrite E, LRet_bind, Ef. by apply patch_field.
  - pose proof (fields_decoded (fs1 ++ Field (f_type f) (f_key f) payload val :: fs2) []) as Hd. rewrite app_nil_r in Hd. apply Hd.
    + split; [|by rewrite fmap_app, fmap_cons in *]. apply Forall_app. split; [done|]. apply Forall_cons. split; [|done].
      split; [done|]. split; [done|]. split; [done|]. split; [|done]. cbn. unfold passable. by rewrite Hfix.
    + rewrite (Hsame _ _ Hlen), <- Ef. unfold MAX_DOCUMENT. lia.
Qed.

(** the type of a value that can be replaced *)
Definition fixed_type (v : bvalue) : option Z :=
  match v with
  | BInt i => Some (if is_32bit i then BSON_INT32 else BSON_INT64)
  | BReal _ => Some BSON_REAL
  | BBool _ => Some BSON_BOOLEAN
  | BString (0 :: t :: _) => if bool_decide (t ∈ [BSON_OBJECTID; BSON_DATE; BSON_TIMESTAMP]) then Some t else None
  | _ => None
  end.

Lemma fixed_type_encodes h v t t' payload val : encodes h v t payload val → fixed_type v = Some t' → t = t'.
Proof.
  intros He Ht. destruct He as [h i Hi|h i Hi Hr|h d Hd|h x|h s Hs Hc Hp|h s t payload Ho|h v items els es Ha|h v kvs els es Ha|]; cbn [fixed_type] in Ht;
    try (by injection Ht as <-); try (rewrite Hi in Ht; by injection Ht as <-); try (by destruct v).
  - destruct s as [|x [|y s]]; [done|by destruct x|]. destruct x; [|done..]. destruct Hp. rewrite !Zlen_cons. pose proof (Zlen_nonneg s). split; [lia|done].
  - destruct Ho; cbn [fixed_type] in Ht; case_bool_decide; try done; by injection Ht as <-.
  - done.
Qed.
