(* ===== verification/BsonThms.v ===== *)
(** * BSON documents: the theorems *)
From S2P Require Import Prelude CLib CNum Bytes LuaValue Bits Crypt CryptSpec Bson BsonUtf8 BsonWrite BsonSpec BsonRead BsonTotal BsonIndex.
#[local] Open Scope Z_scope.

#[local] Opaque le_bytes.

(** the arguments of [encode_order] for the same keys and values *)
Definition in_order (kvs : list (bkey * bvalue)) : list (option (list Z) * bvalue) :=
  (λ p, (match p.1 with KString key => Some key | _ => None end, p.2)) <$> kvs.

Lemma pack_ordered_entries h kvs elements es : encodes_entries h kvs elements es → ∀ i b depth,
  pack_ordered i (in_order kvs) b depth = pack_entries (append_one APPEND_FUEL) kvs b depth.
Proof.
  revert elements es. induction kvs as [|p kvs IH]; intros elements es H i b depth; [done|]. inversion H; subst. cbn [in_order fmap list_fmap fst snd pack_ordered pack_entries pack_dict_data].
  change (fmap (M := list) _ kvs) with (in_order kvs).
  destruct (append_one APPEND_FUEL b key v depth) as [b1|e| |]; [|reflexivity..]. rewrite !LRet_bind. by eapply IH.
Qed.

(** a buffer that was filled gives its bytes *)
Lemma writes_result m bytes : writes m bytes → Zlen bytes < MAX_DOCUMENT →
  (b ← m bson_create; LRet (take (Z.to_nat (size b)) (ptr b))) = LRet bytes.
Proof.
  intros Hm Hl. destruct (Hm bson_create [] holds_create Hl) as (b & -> & [Hp Hs _ _]). rewrite LRet_bind, Hp, Hs.
  f_equal. unfold Zlen. rewrite Nat2Z.id. apply firstn_all.
Qed.

(** C24. A table of the format, nested at most 128 deep, is encoded to its
    document, by [encode] with or without [__pairs] and by [encode_order], and
    the document is decoded to the table. *)
Theorem bson_roundtrip h kvs elements es :
  encodes_entries h kvs elements es → Z.of_nat h ≤ BSON_MAX_DEPTH → Zlen elements + 5 < MAX_DOCUMENT →
  (∀ meta, lencode meta kvs = LRet (document elements)) ∧
  lencode_order (in_order kvs) = LRet (document elements) ∧
  ∀ rest, ldecode (document elements ++ rest) = LRet (VTable es).
Proof.
  intros He Hh Hl. destruct encodes_writes as (_ & _ & Hw).
  assert (writes (λ b, pack_simple_dict (append_one APPEND_FUEL) kvs b 0) (document elements)) as Hd.
  { apply writes_document. apply (Hw h _ _ _ He); unfold APPEND_FUEL, BSON_MAX_DEPTH in *; lia. }
  assert (Zlen (document elements) < MAX_DOCUMENT) as Hl' by (by rewrite Zlen_document).
  split; [intros []; by apply (writes_result _ _ Hd)|]. split.
  - apply (writes_result (λ b, pack_ordered_dict (in_order kvs) b 0)); [|done]. unfold pack_ordered_dict. apply writes_document.
    eapply writes_proper; [intros b; by eapply pack_ordered_entries|reflexivity|]. apply (Hw h _ _ _ He); unfold APPEND_FUEL, BSON_MAX_DEPTH in *; lia.
  - intros rest. unfold ldecode. rewrite get_length_document by done. rewrite LRet_bind.
    destruct (encodes_reads (document elements ++ rest)) as (_ & _ & Hr).
    assert (reads (λ br, unpack_dict (document elements ++ rest) (S (List.length (document elements ++ rest))) br false)
      0 (Zlen (document elements)) (VTable es)) as E.
    { apply framed_reads; [split; [done|by exists rest]|done|unfold Zlen; rewrite length_app; lia|].
      intros pos fuel fuel' Ha H1 H2 H3. apply (Hr _ _ _ _ He pos fuel fuel' []); (done || intros; apply Forall_nil). }
    rewrite E by (rewrite Zlen_document; lia). done.
Qed.

(** A string is written when it is the UTF-8 of code points up to 10FFFF in
    their shortest forms, surrogates included, and refused otherwise, but for a
    lead byte FF with seven continuation bytes, a shift C leaves undefined. *)
Theorem bson_strings_utf8 s b pre :
  Forall byte s → holds b pre → Zlen pre + Zlen s + 1 < MAX_DOCUMENT →
  characters s ∧ (∃ b', write_string b s (Zlen s) = LRet b' ∧ holds b' (pre ++ s ++ [0])) ∨
  ¬ characters s ∧ (write_string b s (Zlen s) = LError (Message "Invalid utf8 string") ∨
                    write_string b s (Zlen s) = LUndef ∧ shift_overflow s).
Proof. intros Hs Hb Hl. pose proof (write_string_spec s [] b pre Hs Hb Hl) as H. by rewrite app_nil_r in H. Qed.

(** C25. For any bytes that hold as many as the document declares, decoding ends with a
    value or an error and stays inside the bytes, unless the elements of the document, read
    one after the other and those of its documents and arrays with them, come to one that
    starts with its length and claims a negative one or one close to INT_MAX, or to an index
    of an array that does not fit a long. *)
Theorem bson_decode_answers memory :
  Forall byte memory → 4 ≤ Zlen memory → i32 (le_value (take 4 memory)) ≤ Zlen memory →
  match ldecode memory with LRet _ | LError _ => True | LUndef => bad_element memory = true | LNoFuel => False end.
Proof. intros Hb H4 Hl. by apply decode_answers. Qed.

(** a document whose length leads before the memory *)
Lemma unpack_negative memory fuel p r n array : at_pos memory p (le_bytes 4 n) → 4 ≤ r → 5 - 2 ^ 31 ≤ n ≤ - p →
  unpack_dict memory (S fuel) (Reader p r) array = LUndef.
Proof.
  intros Ha Hr Hn. cbn [unpack_dict]. pose proof Ha as [Hp _]. rewrite (read_int32_at _ _ _ Ha) by lia. rewrite LRet_bind.
  rewrite chk_int_ok by (unfold INT_MAX; lia). cbn [lift]. rewrite LRet_bind, skip_bytes_at by lia. rewrite LRet_bind.
  unfold read_byte. rewrite check_reader_ok by lia. rewrite LRet_bind. unfold bytes_from. cbn [r_ptr].
  by rewrite bool_decide_eq_false_2 by lia.
Qed.

(** A document whose first element is a document with a length below the
    start of the outer one is read before its first byte. *)
Theorem bson_negative_length key n rest array :
  let memory := document (element (if array : bool then BSON_ARRAY else BSON_DOCUMENT) key (le_bytes 4 n ++ rest)) in
  0 ∉ key → Zlen memory < MAX_DOCUMENT → 5 - 2 ^ 31 ≤ n ≤ - Zlen key - 6 → ldecode memory = LUndef.
Proof.
  intros memory H0 Hm Hn. set (elements := element _ key _) in memory.
  pose proof (Zlen_nonneg key). pose proof (Zlen_nonneg rest). unfold memory in Hm. rewrite Zlen_document in Hm.
  assert (at_pos memory 0 (document elements)) as Ha by (split; [done|exists []; by rewrite app_nil_r]).
  destruct (document_parts _ _ _ Ha) as (_ & Ha2 & _). destruct (element_parts _ _ _ _ _ Ha2) as (_ & _ & Ha4).
  apply at_pos_app in Ha4 as [Ha4 _]. unfold ldecode. pose proof (get_length_document elements [] Hm) as E. rewrite app_nil_r in E.
  change (get_length memory) with (get_length (document elements)). rewrite E, LRet_bind, (unpack_frame _ _ _ elements) by (done || lia).
  pose proof (fields_step memory (unpack_dict memory (List.length memory)) (List.length memory) false _ _ _ [] [] _ Ha2 H0) as Hstep.
  rewrite app_nil_r in Hstep. fold elements in Hstep. rewrite Hstep. clear Hstep. cbn [entry_key]. rewrite LRet_bind. pose proof (Zlen_nonneg elements) as Hz.
  destruct (List.length memory) as [|fuel] eqn:Ef.
  { apply (f_equal Z.of_nat) in Ef. change (Zlen memory = 0) in Ef. unfold memory in Ef. rewrite Zlen_document in Ef. lia. }
  rewrite Zlen_app, Zlen_le_bytes. change (Zlen (@nil Z)) with 0. unfold read_value.
  destruct array; decide_const; cbn match; rewrite (unpack_negative _ _ _ _ _ _ Ha4) by lia; reflexivity.
Qed.

(** Replacing a value of fixed size in a document below 64 MB through the
    index of [makeindex] gives the document of the table with the new value; an
    integer over a 32-bit one is cut to 32 bits. *)
Theorem bson_replace h kvs elements es i key v old t arg shown payload new :
  encodes_entries h kvs elements es → Zlen elements + 5 < 2 ^ 26 →
  kvs !! i = Some (KString key, v) → es !! i = Some (VString key, old) → fixed_type v = Some t → replaces t arg payload new →
  ∃ index doc, lmakeindex (document elements) = LRet index ∧
    lreplace (document elements) (Some index) (VString key) shown arg = LRet doc ∧
    ldecode doc = LRet (VTable (<[i := (VString key, new)]> es)).
Proof.
  intros He Hl Hkv Hes Ht Hr. destruct (entries_fields _ _ _ _ He) as (fs & Hfs & -> & -> & Hok).
  destruct (Forall2_lookup_l _ _ _ _ _ Hfs Hkv) as (f & Hf & [= ->] & Hv). cbn [snd] in Hv.
  pose proof (fixed_type_encodes _ _ _ _ _ _ Hv Ht) as <-. pose proof (take_drop_middle _ _ _ Hf) as E.
  destruct (replace_field (take i fs) f (drop (S i) fs) arg shown payload new) as [H1 H2]; [by rewrite E|by rewrite E|done|].
  rewrite E in H1. eexists _, _. split; [by apply fields_made_index|]. split; [exact H1|]. rewrite H2. do 2 f_equal.
  unfold fields_entries. rewrite insert_take_drop by (by rewrite length_fmap; apply lookup_lt_Some in Hf).
  by rewrite fmap_app, fmap_cons, fmap_take, fmap_drop.
Qed.

(** ** The theorems of BSON at concrete inputs *)
(** { a = 1, b = { "hi", true }, c = null } *)
Definition sample : list (bkey * bvalue) :=
  [(KString [97], BInt 1);
   (KString [98], BLen (Some 2) [BString [104; 105]; BBool true]);
   (KString [99], BTable 0 false [] [(KString [120], BString [0; 10])])].
Definition sample_table : list (value * value) :=
  [(VString [97], VInt 1);
   (VString [98], VTable [(VInt 1, VString [104; 105]); (VInt 2, VBool true)]);
   (VString [99], VTable [(VString [120], VString [0; 10])])].

Lemma plain_key x : 1 ≤ x < 128 → key_text [x].
Proof. intros Hx. apply ascii_text. by apply Forall_singleton. Qed.

Lemma sample_encodes : ∃ elements, encodes_entries 1 sample elements sample_table ∧ Zlen elements = 40.
Proof.
  eexists. split.
  - apply entries_cons; [by apply plain_key|by apply encodes_int32| |by repeat (apply Forall_cons; split; [done|]); apply Forall_nil].
    apply entries_cons; [by apply plain_key| | |by apply Forall_singleton].
    + eapply encodes_array; [done|]. apply items_cons; [apply encodes_string|apply items_cons; [apply encodes_bool|apply items_nil]].
      * by repeat (apply Forall_cons; split; [done|]); apply Forall_nil.
      * by apply (ascii_text [104; 105]); repeat (apply Forall_cons; split; [done|]); apply Forall_nil.
      * intros [_ H]. discriminate H.
    + apply entries_cons; [by apply plain_key| |apply entries_nil|by apply Forall_nil].
      eapply encodes_dict; [done|]. apply entries_cons; [by apply plain_key| |apply entries_nil|by apply Forall_nil].
      apply encodes_object, object_null. set_solver.
  - vm_compute. reflexivity.
Qed.

Lemma bson_roundtrip_witness :
  ∃ elements, lencode false sample = LRet (document elements) ∧ ldecode (document elements) = LRet (VTable sample_table).
Proof.
  destruct sample_encodes as (elements & He & Hl). exists elements.
  destruct (bson_roundtrip 1 sample elements sample_table He) as (H1 & _ & H2); [done|rewrite Hl; done|].
  split; [apply H1|]. specialize (H2 []). by rewrite app_nil_r in H2.
Defined.

(** a two-byte character, and then a lead byte alone *)
Lemma bson_strings_utf8_witness : write_string bson_create [0xC3; 0xA9; 0xFF] 3 = LError (Message "Invalid utf8 string").
Proof.
  destruct (bson_strings_utf8 [0xC3; 0xA9; 0xFF] bson_create []) as [[_ (b' & E & _)]|[_ [E|[E _]]]].
  - by repeat (apply Forall_cons; split; [done|]); apply Forall_nil.
  - apply holds_create.
  - done.
  - vm_compute in E. discriminate E.
  - exact E.
  - vm_compute in E. discriminate E.
Defined.

(** { a = -1 }, and a document that ends early *)
Lemma bson_decode_answers_witness :
  ldecode [12; 0; 0; 0; 16; 97; 0; 255; 255; 255; 255; 0] ≠ LUndef ∧
  ∃ e, ldecode [12; 0; 0; 0; 16; 97; 0; 1; 0; 0; 0; 7; 0] = LError e.
Proof.
  split.
  - pose proof (bson_decode_answers [12; 0; 0; 0; 16; 97; 0; 255; 255; 255; 255; 0]) as H. intros E. rewrite E in H.
    assert (bad_element [12; 0; 0; 0; 16; 97; 0; 255; 255; 255; 255; 0] = true) as Hb.
    { apply H; [|done|done]. by repeat (apply Forall_cons; split; [done|]); apply Forall_nil. }
    vm_compute in Hb. discriminate Hb.
  - pose proof (bson_decode_answers [12; 0; 0; 0; 16; 97; 0; 1; 0; 0; 0; 7; 0]) as H.
    destruct (ldecode _) eqn:E; [|by eexists| |].
    + vm_compute in E. discriminate E.
    + vm_compute in E. discriminate E.
    + exfalso. apply H; [|done|done]. by repeat (apply Forall_cons; split; [done|]); apply Forall_nil.
Defined.

(** { a = document of length -100 } *)
Lemma bson_negative_length_witness : ldecode [16; 0; 0; 0; 3; 97; 0; 156; 255; 255; 255; 5; 4; 4; 4; 0] = LUndef.
Proof. apply (bson_negative_length [97] (-100) [5; 4; 4; 4] false); [by vm_compute; set_solver|done|done]. Defined.

(** the 1 of the first document becomes 7 *)
Lemma bson_replace_witness :
  ∃ elements index doc, lmakeindex (document elements) = LRet index ∧
    lreplace (document elements) (Some index) (VString [97]) "a" (Arg None true None (Some 7) "7.000000") = LRet doc ∧
    ldecode doc = LRet (VTable (<[0%nat := (VString [97], VInt 7)]> sample_table)).
Proof.
  destruct sample_encodes as (elements & He & Hl). exists elements.
  apply (bson_replace 1 sample elements sample_table 0 [97] (BInt 1) (VInt 1) BSON_INT32 _ _ (le_bytes 4 7) (VInt 7));
    [exact He|rewrite Hl; done|done|done|done|]. by apply replaces_int32.
Defined.
