(* ===== verification/BsonTypes.v ===== *)
(** * BSON: the values that are strings with a type

    The constructors of dates, timestamps, regular expressions, binaries and
    object ids, and [type], which takes them apart. *)
From S2P Require Import Prelude CLib CNum Bytes LuaValue Bits Crypt Bson CryptSpec BsonUtf8 BsonWrite BsonSpec BsonRead.
From Stdlib Require Import Ascii String.
#[local] Open Scope Z_scope.
#[local] Open Scope bits_scope.

Definition text (s : string) : value := VString (decimal s).

(** ** Constructors *)
Definition ldate (d : Z) : list Z := [0; BSON_DATE] ++ le_bytes 4 (i32 d).
(** [inc] is the static counter, used when there is no second argument *)
Definition ltimestamp (inc d : Z) (i : option Z) : list Z * Z :=
  match i with
  | None => ([0; BSON_TIMESTAMP] ++ le_bytes 4 inc ++ le_bytes 4 (i32 d), u32 (inc + 1))
  | Some i => ([0; BSON_TIMESTAMP] ++ le_bytes 4 (u32 i) ++ le_bytes 4 (i32 d), inc)
  end.
Definition lregex (pattern : list Z) (options : option (list Z)) : list Z :=
  [0; BSON_REGEX] ++ pattern ++ [0] ++ default [] options ++ [0].
Definition lbinary (s : list Z) : list Z := [0; BSON_BINARY; 0] ++ s.

(** ** Object ids *)
Definition hextoint (c : Z) : Z :=
  let c := char_of c in
  if bool_decide (48 ≤ c ≤ 57) then c - 48
  else if bool_decide (97 ≤ c ≤ 122) then c - 97 + 10
  else if bool_decide (65 ≤ c ≤ 90) then c - 65 + 10
  else 0.

(** the static state: [oid_header] and [oid_counter] *)
Record oid_state : Type := Oid { oid_header : list Z; oid_counter : Z }.

(** the characters of the host name, at most 256 *)
Fixpoint host_hash (hostname : list Z) (i : nat) (h : Z) : Z * Z :=
  match hostname with
  | [] => (h, Z.of_nat i)
  | c :: hostname =>
      if bool_decide (c = 0) then (h, Z.of_nat i)
      else host_hash hostname (S i) (h .^ u32 ((h << 5) + (h >> 2) + char_of c))
  end.
(** [hostname] is [None] when [gethostname] fails; [stack] is the address of a local *)
Definition init_oid_header (st : oid_state) (hostname : option (list Z)) (pid now stack : Z) : oid_state :=
  if bool_decide (oid_counter st ≠ 0) then st
  else
    let h := match hostname with
             | None => 0
             | Some hostname => let '(h, i) := host_hash (take 256 hostname) 0 0 in h .^ i
             end in
    let c := u32 ((h .^ now) .^ stack) in
    Oid [h .& 0xff; (h >> 8) .& 0xff; (h >> 16) .& 0xff; pid .& 0xff; (pid >> 8) .& 0xff] (if bool_decide (c = 0) then 1 else c).

(** twelve bytes from 24 digits *)
Definition hex_bytes (str : list Z) : list Z :=
  (λ i, u8 ((hextoint (at_idx str (i * 2)) << 4) .| hextoint (at_idx str (i * 2 + 1)))) <$> seqZ 0 12.
(** [str] is the argument as [lua_tolstring] converts it, if it is a string or a number; [ti] is the time *)
Definition lobjectid (st : oid_state) (str : option (list Z)) (ti : Z) : lua (list Z * oid_state) :=
  match str with
  | Some str =>
      if bool_decide (Zlen str ≠ 24) then LError (Message ("Invalid objectid " +:+ c_text str))
      else LRet ([0; BSON_OBJECTID] ++ hex_bytes str, st)
  | None =>
      let id := oid_counter st in
      LRet ([0; BSON_OBJECTID; (ti >> 24) .& 0xff; (ti >> 16) .& 0xff; (ti >> 8) .& 0xff; ti .& 0xff] ++ oid_header st ++
            [(id >> 16) .& 0xff; (id >> 8) .& 0xff; id .& 0xff], Oid (oid_header st) (u32 (id + 1)))
  end.

(** ** Types *)
Definition oid_hex : list Z := decimal "0123456789abcdef".
Definition too_big : lua_error := Message "memory allocation error: block too big".

(** the results, the name of the type first *)
Definition lsubtype (subtype : Z) (buf : list Z) : lua (list value) :=
  let sz := Zlen buf in
  if bool_decide (subtype = BSON_BINARY) then
    match buf with
    | [] => LError too_big
    | sub :: data => LRet [text "binary"; VString data; VInt sub]
    end
  else if bool_decide (subtype = BSON_OBJECTID) then
    if bool_decide (sz ≠ 12) then LError (Message "Invalid object id")
    else LRet [text "objectid"; VString (buf ≫= λ b, [at_idx oid_hex (b >> 4); at_idx oid_hex (b .& 0xf)])]
  else if bool_decide (subtype = BSON_DATE) then
    if bool_decide (sz ≠ 4) then LError (Message "Invalid date") else LRet [text "date"; VInt (i32 (le_value buf))]
  else if bool_decide (subtype = BSON_TIMESTAMP) then
    if bool_decide (sz ≠ 8) then LError (Message "Invalid timestamp")
    else LRet [text "timestamp"; VInt (le_value (take 4 (drop 4 buf))); VInt (le_value (take 4 buf))]
  else if bool_decide (subtype = BSON_REGEX) then
    if bool_decide (sz = 0) then LUndef
    else
      let sz := sz - 1 in
      i ← lift (after_zero buf sz (List.length buf) 0);
      if bool_decide (i = sz) then LError (Message "Invalid regex")
      else LRet [text "regex"; VString (take (Z.to_nat (sz - i - 1)) buf); VString (take (Z.to_nat i) (drop (Z.to_nat (sz - i)) buf))]
  else if bool_decide (subtype = BSON_MINKEY) then LRet [text "minkey"]
  else if bool_decide (subtype = BSON_MAXKEY) then LRet [text "maxkey"]
  else if bool_decide (subtype = BSON_NULL) then LRet [text "nil"]
  else if bool_decide (subtype ∈ [BSON_JSCODE; BSON_DBPOINTER; BSON_SYMBOL; BSON_CODEWS]) then LRet [text "unsupported"; VString buf]
  else LError (Message ("Invalid subtype " +:+ fmt_d subtype)).

Definition ltype (v : value) : lua (list value) :=
  match v with
  | VInt _ | VReal _ => LRet [text "number"; v]
  | VBool _ => LRet [text "boolean"; v]
  | VTable _ | VPairs _ => LRet [text "table"; v]
  | VNil => LRet [text "nil"]
  | VString str =>
      if bool_decide (at_idx str 0 = 0 ∧ 2 ≤ Zlen str) then lsubtype (at_idx str 1) (drop 2 str)
      else LRet [text "string"; v]
  | VPointer _ => LError (Message "Invalid type userdata")
  | VOther t => LError (Message ("Invalid type " +:+ t))
  end.

(** the document's bytes, and their number *)
Definition ltostring (memory : list Z) : list Z := memory.
Definition llen (memory : list Z) : Z := Zlen memory.

(** ** BSON: [type] takes apart what the constructors made *)
#[local] Opaque le_bytes.

Lemma ltype_tagged t body : ltype (VString (0 :: t :: body)) = lsubtype t body.
Proof. cbn [ltype]. rewrite bool_decide_eq_true_2; [done|]. rewrite !Zlen_cons. pose proof (Zlen_nonneg body). split; [done|lia]. Qed.

Lemma le_value_4 v : le_value (le_bytes 4 v) = u32 v.
Proof. apply le_roundtrip. Qed.

Lemma type_date d : ltype (VString (ldate d)) = LRet [text "date"; VInt (i32 d)].
Proof.
  unfold ldate. cbn [app]. rewrite ltype_tagged. unfold lsubtype. cbv zeta. rewrite Zlen_le_bytes. decide_const. cbn match.
  rewrite i32_bytes, le_value_4. unfold i32, u32. by rewrite Zplus_mod_idemp_l.
Qed.

Lemma type_timestamp inc d i :
  ltype (VString (ltimestamp inc d i).1) = LRet [text "timestamp"; VInt (u32 d); VInt (u32 (default inc i))].
Proof.
  assert (∀ a, ltype (VString (0 :: BSON_TIMESTAMP :: le_bytes 4 a ++ le_bytes 4 (i32 d))) = LRet [text "timestamp"; VInt (u32 d); VInt (u32 a)]) as H.
  { intros a. rewrite ltype_tagged. unfold lsubtype. cbv zeta. rewrite Zlen_app, !Zlen_le_bytes. decide_const. cbn match.
    rewrite drop_le_bytes, take_le_bytes. pose proof (take_le_bytes 4 (i32 d) []) as E. rewrite app_nil_r in E.
    by rewrite E, i32_bytes, !le_value_4. }
  destruct i as [i|]; cbn [ltimestamp fst default app]; [|apply H]. rewrite (H (u32 i)). unfold u32. by rewrite Z.mod_mod.
Qed.

Lemma type_regex pattern options : 0 ∉ default [] options →
  ltype (VString (lregex pattern options)) = LRet [text "regex"; VString pattern; VString (default [] options)].
Proof.
  set (opt := default [] options). intros H0. unfold lregex. fold opt. cbn [app]. rewrite ltype_tagged. unfold lsubtype. cbv zeta.
  pose proof (Zlen_nonneg pattern). pose proof (Zlen_nonneg opt).
  assert (Zlen (pattern ++ 0 :: opt ++ [0]) = Zlen pattern + 1 + Zlen opt + 1) as El.
  { rewrite Zlen_app, Zlen_cons, Zlen_app. change (Zlen [0]) with 1. lia. }
  rewrite El. decide_const. cbn match. rewrite bool_decide_eq_false_2 by lia.
  replace (Zlen pattern + 1 + Zlen opt + 1 - 1) with (Zlen pattern + 1 + Zlen opt) by lia.
  rewrite after_zero_spec by (done || (unfold Zlen; rewrite length_app; cbn [List.length]; rewrite length_app; lia)).
  cbn [lift]. rewrite LRet_bind, bool_decide_eq_false_2 by lia.
  replace (Z.to_nat (Zlen pattern + 1 + Zlen opt - Zlen opt - 1)) with (List.length pattern) by (unfold Zlen; lia). rewrite take_app_length.
  assert (pattern ++ 0 :: opt ++ [0] = (pattern ++ [0]) ++ opt ++ [0]) as -> by (by rewrite <- app_assoc).
  replace (Z.to_nat (Zlen pattern + 1 + Zlen opt - Zlen opt)) with (List.length (pattern ++ [0])) by (rewrite length_app; unfold Zlen; cbn; lia).
  rewrite drop_app_length. unfold Zlen at 1. by rewrite Nat2Z.id, take_app_length.
Qed.

Lemma type_binary s : ltype (VString (lbinary s)) = LRet [text "binary"; VString s; VInt 0].
Proof. unfold lbinary. cbn [app]. by rewrite ltype_tagged. Qed.

(** ** Object ids *)
Definition hex_digit (c : Z) : Prop := 48 ≤ c ≤ 57 ∨ 97 ≤ c ≤ 102 ∨ 65 ≤ c ≤ 70.
Definition lower (c : Z) : Z := if decide (65 ≤ c ≤ 70) then c + 32 else c.

Lemma hextoint_digit c : hex_digit c → 0 ≤ hextoint c < 16 ∧ at_idx oid_hex (hextoint c) = lower c.
Proof.
  intros Hc. set (Q := λ c, implb (bool_decide (hex_digit c))
    ((0 <=? hextoint c) && (hextoint c <? 16) && (at_idx oid_hex (hextoint c) =? lower c))).
  assert (forallb (λ n, Q (Z.of_nat n)) (seq 0 256) = true) as HQ by (vm_compute; reflexivity).
  assert (byte c) as Hb by (unfold hex_digit, byte in *; lia).
  pose proof (byte_cases Q c Hb HQ) as H. unfold Q in H. rewrite bool_decide_eq_true_2 in H by done.
  apply andb_prop in H as [H1 H2]. apply andb_prop in H1 as [H1 H3]. apply Z.leb_le in H1. apply Z.ltb_lt in H3. apply Z.eqb_eq in H2. lia.
Qed.

Lemma hex_pair_type a b : hex_digit a → hex_digit b →
  let x := u8 ((hextoint a << 4) .| hextoint b) in [at_idx oid_hex (x >> 4); at_idx oid_hex (x .& 0xf)] = [lower a; lower b].
Proof.
  intros Ha Hb. destruct (hextoint_digit a Ha) as [Ra <-], (hextoint_digit b Hb) as [Rb <-]. cbv zeta.
  assert (u8 ((hextoint a << 4) .| hextoint b) = hextoint a * 16 + hextoint b) as ->.
  { unfold shl32, u32, u8. rewrite Z.shiftl_mul_pow2, (Z.mod_small (hextoint a * 2 ^ 4)) by lia.
    rewrite Z.lor_comm, lor_high by lia. rewrite Z.mod_small; lia. }
  rewrite Z.shiftr_div_pow2 by done. change 0xf with (2 ^ 4 - 1). rewrite land_mask by done. change (2 ^ 4) with 16.
  rewrite Z.div_add_l, Z.div_small by lia. rewrite Z.add_0_r. do 2 f_equal. f_equal.
  rewrite Z.add_comm, Z.mod_add by lia. apply Z.mod_small. lia.
Qed.

(** the bytes of the pairs of digits *)
Fixpoint pair_bytes (str : list Z) : list Z :=
  match str with a :: b :: str => u8 ((hextoint a << 4) .| hextoint b) :: pair_bytes str | _ => [] end.

Lemma hex_bytes_pairs str : Zlen str = 24 → hex_bytes str = pair_bytes str.
Proof.
  intros Hl. do 24 (destruct str as [|? str]; [done|]). destruct str; [reflexivity|]. unfold Zlen in Hl. cbn [List.length] in Hl. lia.
Qed.
Lemma pair_bytes_type n : ∀ str, List.length str = (2 * n)%nat → Forall hex_digit str →
  (pair_bytes str ≫= λ b, [at_idx oid_hex (b >> 4); at_idx oid_hex (b .& 0xf)]) = lower <$> str.
Proof.
  induction n as [|n IH]; intros str Hl Hs; [by destruct str|]. destruct str as [|a [|b str]]; [done|cbn in Hl; lia|].
  apply Forall_cons in Hs as [Ha Hs]. apply Forall_cons in Hs as [Hb Hs]. cbn [List.length] in Hl. specialize (IH str ltac:(lia) Hs).
  pose proof (hex_pair_type a b Ha Hb) as E. cbv zeta in E. cbn [pair_bytes]. set (x := u8 _) in *. clearbody x.
  change ((x :: pair_bytes str) ≫= λ b, [at_idx oid_hex (b >> 4); at_idx oid_hex (b .& 0xf)])
    with ([at_idx oid_hex (x >> 4); at_idx oid_hex (x .& 0xf)] ++ (pair_bytes str ≫= λ b, [at_idx oid_hex (b >> 4); at_idx oid_hex (b .& 0xf)])).
  by rewrite E, IH.
Qed.

Lemma type_objectid st str ti : Zlen str = 24 → Forall hex_digit str →
  lobjectid st (Some str) ti = LRet (0 :: BSON_OBJECTID :: hex_bytes str, st) ∧
  ltype (VString (0 :: BSON_OBJECTID :: hex_bytes str)) = LRet [text "objectid"; VString (lower <$> str)].
Proof.
  intros Hl Hs. unfold lobjectid. rewrite bool_decide_eq_false_2 by lia. split; [done|].
  rewrite ltype_tagged. unfold lsubtype. cbv zeta. decide_const. cbn match.
  rewrite hex_bytes_pairs by done. rewrite (pair_bytes_type 12); [done| |done]. unfold Zlen in Hl. lia.
Qed.

(** ** Fresh object ids *)

(** the ids of calls without an argument at the times [tis] *)
Fixpoint fresh_ids (st : oid_state) (tis : list Z) : list (lua (list Z)) :=
  match tis with
  | [] => []
  | ti :: tis =>
      match lobjectid st None ti with
      | LRet (oid, st) => LRet oid :: fresh_ids st tis
      | LError e => [LError e]
      | LUndef => [LUndef]
      | LNoFuel => [LNoFuel]
      end
  end.

(** the counter in the last three bytes *)
Definition id_counter (oid : list Z) : Z := le_value (reverse (drop 11 oid)).

#[local] Transparent le_bytes.
Lemma fresh_id st ti : Zlen (oid_header st) = 5 → ∃ oid,
  lobjectid st None ti = LRet (oid, Oid (oid_header st) (u32 (oid_counter st + 1))) ∧ Zlen oid = 14 ∧
  id_counter oid = oid_counter st mod 2 ^ 24.
Proof.
  destruct st as [header counter]. cbn [oid_header oid_counter]. intros Hh. eexists. split; [reflexivity|].
  do 5 (destruct header as [|? header]; [done|]). destruct header; [|unfold Zlen in Hh; cbn in Hh; lia]. split; [reflexivity|].
  unfold id_counter. cbn [oid_header oid_counter app drop]. unfold reverse. cbn [rev_append le_value].
  rewrite !byte_at by lia. rewrite byte_low. change (2 ^ 24) with (256 ^ Z.of_nat 3). rewrite <- le_roundtrip.
  cbn [le_bytes le_value]. by rewrite !Z.div_div by lia.
Qed.

Lemma fresh_ids_ok tis : ∀ st, Zlen (oid_header st) = 5 →
  ∃ oids, fresh_ids st tis = LRet <$> oids ∧ List.length oids = List.length tis ∧
    ∀ i oid, oids !! i = Some oid → Zlen oid = 14 ∧ id_counter oid = (oid_counter st + Z.of_nat i) mod 2 ^ 24.
Proof.
  induction tis as [|ti tis IH]; intros st Hh; [by exists []|]. destruct (fresh_id st ti Hh) as (oid & E & Hl & Hc). cbn [fresh_ids]. rewrite E.
  destruct (IH (Oid (oid_header st) (u32 (oid_counter st + 1))) Hh) as (oids & -> & Hlen & Hids). exists (oid :: oids).
  split; [done|]. split; [cbn; by rewrite Hlen|]. intros [|i] o Ho; [injection Ho as <-; by rewrite Z.add_0_r|].
  destruct (Hids i o Ho) as [H1 ->]. split; [done|]. cbn [oid_counter]. unfold u32. rewrite Nat2Z.inj_succ.
  rewrite <- Zplus_mod_idemp_l, mod_pow2_mod, Zplus_mod_idemp_l by lia. f_equal. lia.
Qed.

Lemma fresh_ids_distinct tis st : Zlen (oid_header st) = 5 → Z.of_nat (List.length tis) ≤ 2 ^ 24 →
  ∃ oids, fresh_ids st tis = LRet <$> oids ∧ NoDup oids ∧ Forall (λ oid, Zlen oid = 14) oids.
Proof.
  intros Hh Hl. destruct (fresh_ids_ok tis st Hh) as (oids & E & Hlen & Hids). exists oids. split; [done|]. split.
  - apply NoDup_alt. intros i j oid Hi Hj. destruct (Hids i oid Hi) as [_ Hci], (Hids j oid Hj) as [_ Hcj]. rewrite Hci in Hcj.
    apply lookup_lt_Some in Hi, Hj. pose proof (ring_offset_inj (oid_counter st) (Z.of_nat i) (Z.of_nat j) (2 ^ 24)). lia.
  - apply Forall_forall. intros oid Hin. apply list_elem_of_lookup in Hin as [i Hi]. by destruct (Hids i oid Hi).
Qed.

(** every state but the zeros of the start has a header *)
Lemma init_oid_header_ok st hostname pid now stack : oid_counter st = 0 ∨ Zlen (oid_header st) = 5 →
  Zlen (oid_header (init_oid_header st hostname pid now stack)) = 5 ∧ oid_counter (init_oid_header st hostname pid now stack) ≠ 0.
Proof.
  intros H. unfold init_oid_header. case_bool_decide as Hc; [by destruct H|]. cbv zeta. cbn [oid_header oid_counter].
  split; [done|]. by case_bool_decide.
Qed.

(** A date before 1970 is written as one after 2106: [type] takes its four bytes
    as signed, the encoder as unsigned. *)
Lemma date_before_1970 d : - 2 ^ 31 ≤ d < 0 →
  ltype (VString (ldate d)) = LRet [text "date"; VInt d] ∧ object (ldate d) BSON_DATE (le_bytes 8 ((d + 2 ^ 32) * 1000)).
Proof.
  intros Hd. split; [rewrite type_date, i32_small; (done || lia)|]. unfold ldate. rewrite i32_small by lia.
  replace (le_bytes 4 d) with (le_bytes 4 (d + 2 ^ 32)); [apply object_date; lia|].
  rewrite <- (le_bytes_mod 4 (d + 2 ^ 32)), <- (le_bytes_mod 4 d). f_equal. change (256 ^ Z.of_nat 4) with (2 ^ 32).
  replace (d + 2 ^ 32) with (d + 1 * 2 ^ 32) by lia. by rewrite Z.mod_add.
Qed.
