(* ===== verification/Cluster.v ===== *)
(** * Messages between the nodes of a cluster: lualib-src/lua-cluster.c

    Requests and responses packed into frames of a two-byte length, cut into
    parts when they are long, and put together again by the receiver, with the
    handler of service/clusteragent.lua that receives the requests of a
    connection. Frames are built in arrays on the stack, whose content at the
    start is unknown and an argument of the functions. A block of memory is the
    list of the bytes that may be read at its address. *)
From S2P Require Import Prelude CLib CNum Bytes LuaValue.
From Stdlib Require Import Ascii String.
#[local] Open Scope Z_scope.

Definition TEMP_LENGTH : Z := 0x8200.
Definition MULTI_PART : Z := 0x8000.

(** ** A call that owns the message: how often it freed it, and its answer *)
Record run (A : Type) : Type := Run { frees : nat; answer : lua A }.
Arguments Run {A}.
Arguments frees {A}.
Arguments answer {A}.
#[export] Instance run_bind : MBind run := λ A B f m,
  match answer m with
  | LRet a => Run (frees m + frees (f a)) (answer (f a))
  | LError e => Run (frees m) (LError e)
  | LUndef => Run (frees m) LUndef
  | LNoFuel => Run (frees m) LNoFuel
  end.
Definition call {A} (m : lua A) : run A := Run 0 m.
Definition skynet_free : run unit := Run 1 (LRet tt).

(** ** The buffer on the stack *)
Definition poke (buf : list Z) (off : Z) (src : list Z) : lua (list Z) :=
  if bool_decide (0 ≤ off ∧ off + Zlen src ≤ Zlen buf) then LRet (copy_at buf off src) else LUndef.
Definition push_lstring (buf : list Z) (n : Z) : lua (list Z) :=
  if bool_decide (0 ≤ n ≤ Zlen buf) then LRet (take (Z.to_nat n) buf) else LUndef.

Definition fill_uint32 (buf : list Z) (off n : Z) : lua (list Z) :=
  poke buf off [Z.land n 0xff; Z.land (Z.shiftr n 8) 0xff; Z.land (Z.shiftr n 16) 0xff; Z.land (Z.shiftr n 24) 0xff].
Definition fill_header (buf : list Z) (sz : Z) : lua (list Z) :=
  lift (cassert (bool_decide (sz < 0x10000)));;
  poke buf 0 [Z.land (Z.shiftr sz 8) 0xff; Z.land sz 0xff].

(** [memcpy] from the message *)
Definition copy_block (block : list Z) (n : Z) : lua (list Z) := push_lstring block n.

(** ** Requests *)
Definition lua_tointeger (v : value) : Z :=
  match v with
  | VInt z => z
  | VReal bits => match real_key bits with Some (VInt z) => z | _ => 0 end
  | _ => 0
  end.
Definition lua_typename (v : value) : string :=
  match v with
  | VNil => "nil"
  | VBool _ => "boolean"
  | VInt _ | VReal _ => "number"
  | VString _ => "string"
  | VPointer _ => "userdata"
  | VTable _ | VPairs _ => "table"
  | VOther t => t
  end.
Definition parts (sz : Z) : Z := u32 (sz - 1) / MULTI_PART + 1.

(** the request and the number of its parts, 0 when it is whole *)
Definition packreq_number (buf : list Z) (addr : value) (session : Z) (msg : list Z) (sz : Z) (is_push : bool) :
    run (list Z * Z) :=
  let addr := u32 (lua_tointeger addr) in
  if bool_decide (sz < MULTI_PART) then
    call (buf ← fill_header buf (sz + 9);
          buf ← poke buf 2 [0];
          buf ← fill_uint32 buf 3 addr;
          buf ← fill_uint32 buf 7 (if is_push then 0 else u32 session);
          bytes ← copy_block msg sz;
          buf ← poke buf 11 bytes;
          s ← push_lstring buf (sz + 11);
          LRet (s, 0))
  else
    call (buf ← fill_header buf 13;
          buf ← poke buf 2 [if is_push then 0x41 else 1];
          buf ← fill_uint32 buf 3 addr;
          buf ← fill_uint32 buf 7 (u32 session);
          buf ← fill_uint32 buf 11 sz;
          s ← push_lstring buf 15;
          LRet (s, parts sz)).

Definition packreq_string (buf : list Z) (addr : value) (session : Z) (msg : list Z) (sz : Z) (is_push : bool) :
    run (list Z * Z) :=
  match addr with
  | VString name =>
      let namelen := Zlen name in
      if bool_decide (namelen < 1 ∨ 255 < namelen) then
        _ ← skynet_free; call (LError (Message ("name is too long " +:+ c_text name)))
      else if bool_decide (sz < MULTI_PART) then
        call (buf ← fill_header buf (sz + 6 + namelen);
              buf ← poke buf 2 [0x80];
              buf ← poke buf 3 [u8 namelen];
              buf ← poke buf 4 name;
              buf ← fill_uint32 buf (4 + namelen) (if is_push then 0 else u32 session);
              bytes ← copy_block msg sz;
              buf ← poke buf (8 + namelen) bytes;
              s ← push_lstring buf (sz + 8 + namelen);
              LRet (s, 0))
      else
        call (buf ← fill_header buf (10 + namelen);
              buf ← poke buf 2 [if is_push then 0xc1 else 0x81];
              buf ← poke buf 3 [u8 namelen];
              buf ← poke buf 4 name;
              buf ← fill_uint32 buf (4 + namelen) (u32 session);
              buf ← fill_uint32 buf (8 + namelen) sz;
              s ← push_lstring buf (12 + namelen);
              LRet (s, parts sz))
  | _ => _ ← skynet_free; call (LError (Message ("name is not a string, it's a " +:+ lua_typename addr)))
  end.

Fixpoint packreq_multi (part : nat) (buf : list Z) (session : Z) (ptr : list Z) (sz : Z) : lua (list (list Z)) :=
  match part with
  | O => LRet []
  | S part =>
      let '(s, t) := if bool_decide (MULTI_PART < sz) then (MULTI_PART, 2) else (sz, 3) in
      buf ← poke buf 2 [t];
      buf ← fill_header buf (s + 5);
      buf ← fill_uint32 buf 3 (u32 session);
      bytes ← copy_block ptr s;
      buf ← poke buf 7 bytes;
      frame ← push_lstring buf (s + 7);
      rest ← packreq_multi part buf session (drop (Z.to_nat s) ptr) (u32 (sz - s));
      LRet (frame :: rest)
  end.

Definition is_number (v : value) : bool := match v with VInt _ | VReal _ => true | _ => false end.

(** the request, the next session, and the parts; [buf2] is the array of
    [packreq_multi], [buf] that of the request *)
Definition packrequest (buf buf2 : list Z) (addr : value) (session : Z) (msg : option (list Z)) (sz : Z) (is_push : bool) :
    run (list Z * Z * option (list (list Z))) :=
  match msg with
  | None => call (LError (Message "Invalid request message"))
  | Some msg =>
      let sz := u32 sz in
      let session := i32 session in
      if bool_decide (session ≤ 0) then
        _ ← skynet_free; call (LError (Message ("Invalid request session " +:+ fmt_d session)))
      else
        '(request, multipak) ← (if is_number addr then packreq_number buf addr session msg sz is_push
                                else packreq_string buf addr session msg sz is_push);
        let new_session := u32 (session + 1) in
        let new_session := if bool_decide (INT_MAX < new_session) then 1 else new_session in
        if bool_decide (multipak = 0) then _ ← skynet_free; call (LRet (request, new_session, None))
        else
          frames ← call (packreq_multi (Z.to_nat (parts sz)) buf2 session msg sz);
          _ ← skynet_free; call (LRet (request, new_session, Some frames))
  end.

Definition lpackrequest buf buf2 addr session msg sz := packrequest buf buf2 addr session msg sz false.
Definition lpackpush buf buf2 addr session msg sz := packrequest buf buf2 addr session msg sz true.

Definition lpacktrace (buf tag : list Z) : lua (list Z) :=
  let sz := Zlen tag in
  if bool_decide (0x8000 < sz) then LError (Message ("trace tag is too long : " +:+ fmt_d (i32 sz)))
  else
    buf ← poke buf 2 [4];
    buf ← fill_header buf (sz + 1);
    buf ← poke buf 3 tag;
    push_lstring buf (sz + 3).

(** ** What the unpacking functions return: Lua values and fresh blocks *)
Inductive arg : Type :=
  | Val (v : value)
  | Buffer (bytes : list Z).

Definition byte_of (buf : list Z) (i : Z) : lua Z := lift (get_idx buf i).
Definition unpack_uint32 (buf : list Z) (off : Z) : lua Z :=
  a ← byte_of buf off; b ← byte_of buf (off + 1); c ← byte_of buf (off + 2); d ← byte_of buf (off + 3);
  LRet (u32 (Z.lor (Z.lor (Z.lor a (Z.shiftl b 8)) (Z.shiftl c 16)) (Z.shiftl d 24))).
(** [sz] bytes from an offset *)
Definition block_at (buf : list Z) (off sz : Z) : lua (list Z) :=
  if bool_decide (0 ≤ off ∧ 0 ≤ sz ∧ off + sz ≤ Zlen buf) then
    LRet (take (Z.to_nat sz) (drop (Z.to_nat off) buf))
  else LUndef.
Definition return_buffer (buf : list Z) (off sz : Z) : lua (list arg) :=
  bytes ← block_at buf off sz; LRet [Buffer bytes; Val (VInt sz)].

Definition invalid_size (sz : Z) : lua_error := Message ("Invalid cluster message (size=" +:+ fmt_d sz +:+ ")").

(** nil, and the mark of a push *)
Definition push_mark (session : Z) : list arg :=
  if bool_decide (session = 0) then [Val VNil; Val (VBool true)] else [].

Definition unpackreq_number (buf : list Z) (sz : Z) : lua (list arg) :=
  if bool_decide (sz < 9) then LError (invalid_size sz)
  else
    address ← unpack_uint32 buf 1;
    session ← unpack_uint32 buf 5;
    msg ← return_buffer buf 9 (sz - 9);
    LRet (Val (VInt address) :: Val (VInt session) :: msg ++ push_mark session).

Definition unpackmreq_number (buf : list Z) (sz : Z) (is_push : bool) : lua (list arg) :=
  if bool_decide (sz ≠ 13) then
    LError (Message ("Invalid cluster message size " +:+ fmt_d sz +:+ " (multi req must be 13)"))
  else
    address ← unpack_uint32 buf 1;
    session ← unpack_uint32 buf 5;
    size ← unpack_uint32 buf 9;
    LRet [Val (VInt address); Val (VInt session); Val VNil; Val (VInt size); Val (VBool true); Val (VBool is_push)].

Definition unpackmreq_part (buf : list Z) (sz : Z) : lua (list arg) :=
  if bool_decide (sz < 5) then LError (Message "Invalid cluster multi part message")
  else
    t ← byte_of buf 0;
    session ← unpack_uint32 buf 1;
    msg ← return_buffer buf 5 (sz - 5);
    LRet (Val (VBool false) :: Val (VInt session) :: msg ++ [Val (VBool (bool_decide (t = 2)))]).

Definition unpacktrace (buf : list Z) (sz : Z) : lua (list arg) :=
  tag ← block_at buf 1 (sz - 1); LRet [Val (VString tag)].

(** [sz < namesz + 6] compares unsigned numbers, [sz] is at least 2 there *)
Definition unpackreq_string (buf : list Z) (sz : Z) : lua (list arg) :=
  if bool_decide (sz < 2) then LError (invalid_size sz)
  else
    namesz ← byte_of buf 1;
    if bool_decide (sz < namesz + 6) then LError (invalid_size sz)
    else
      name ← block_at buf 2 namesz;
      session ← unpack_uint32 buf (namesz + 2);
      msg ← return_buffer buf (2 + namesz + 4) (sz - namesz - 6);
      LRet (Val (VString name) :: Val (VInt session) :: msg ++ push_mark session).

Definition unpackmreq_string (buf : list Z) (sz : Z) (is_push : bool) : lua (list arg) :=
  if bool_decide (sz < 2) then LError (invalid_size sz)
  else
    namesz ← byte_of buf 1;
    if bool_decide (sz < namesz + 10) then LError (invalid_size sz)
    else
      name ← block_at buf 2 namesz;
      session ← unpack_uint32 buf (namesz + 2);
      size ← unpack_uint32 buf (namesz + 6);
      LRet [Val (VString name); Val (VInt session); Val VNil; Val (VInt size); Val (VBool true); Val (VBool is_push)].

(** a Lua string, which a zero follows, or a block and its size *)
Inductive lua_message : Type :=
  | MString (s : list Z)
  | MPointer (block : list Z) (sz : Z).

Definition signed_char (b : Z) : Z := if bool_decide (b < 128) then b else b - 256.

Definition lunpackrequest (m : lua_message) : lua (list arg) :=
  let '(msg, sz) := match m with
    | MString s => (s ++ [0], i32 (Zlen s))
    | MPointer block sz => (block, i32 sz)
    end in
  t ← byte_of msg 0;
  if bool_decide (t = 0) then unpackreq_number msg sz
  else if bool_decide (t = 1) then unpackmreq_number msg sz false
  else if bool_decide (t = 0x41) then unpackmreq_number msg sz true
  else if bool_decide (t = 2 ∨ t = 3) then unpackmreq_part msg sz
  else if bool_decide (t = 4) then unpacktrace msg sz
  else if bool_decide (t = 0x80) then unpackreq_string msg sz
  else if bool_decide (t = 0x81) then unpackmreq_string msg sz false
  else if bool_decide (t = 0xc1) then unpackmreq_string msg sz true
  else LError (Message ("Invalid req package type " +:+ fmt_d (signed_char t))).

(** ** Responses *)
Inductive response : Type :=
  | One (s : list Z)
  | Many (ss : list (list Z)).

Fixpoint packresponse_parts (part : nat) (buf : list Z) (session : Z) (ptr : list Z) (sz : Z) : lua (list (list Z)) :=
  match part with
  | O => LRet []
  | S part =>
      let '(s, t) := if bool_decide (MULTI_PART < sz) then (MULTI_PART, 3) else (sz, 4) in
      buf ← poke buf 6 [t];
      buf ← fill_header buf (s + 5);
      buf ← fill_uint32 buf 2 session;
      bytes ← copy_block ptr s;
      buf ← poke buf 7 bytes;
      frame ← push_lstring buf (s + 7);
      rest ← packresponse_parts part buf session (drop (Z.to_nat s) ptr) (u64 (sz - s));
      LRet (frame :: rest)
  end.

(** [m]: a Lua string, or a pointer and its size; [buf] and [buf2] are the
    arrays of the response in parts and of the whole one *)
Definition lpackresponse (buf buf2 : list Z) (session : Z) (ok : bool) (m : lua_message) : lua response :=
  let session := u32 session in
  let '(msg, sz) := match m with MString s => (s, Zlen s) | MPointer block sz => (block, u64 sz) end in
  if ok && bool_decide (MULTI_PART < sz) then
    buf ← fill_header buf 9;
    buf ← fill_uint32 buf 2 session;
    buf ← poke buf 6 [2];
    buf ← fill_uint32 buf 7 (u32 sz);
    first ← push_lstring buf 11;
    rest ← packresponse_parts (Z.to_nat ((sz - 1) / MULTI_PART + 1)) buf session msg sz;
    LRet (Many (first :: rest))
  else
    let sz := if bool_decide (MULTI_PART < sz) then MULTI_PART else sz in
    buf ← fill_header buf2 (sz + 5);
    buf ← fill_uint32 buf 2 session;
    buf ← poke buf 6 [if ok then 1 else 0];
    bytes ← copy_block msg sz;
    buf ← poke buf 7 bytes;
    s ← push_lstring buf (sz + 7);
    LRet (One s).

(** no value for what is not a response *)
Definition lunpackresponse (s : list Z) : lua (list value) :=
  let sz := Zlen s in
  let buf := s ++ [0] in
  if bool_decide (sz < 5) then LRet []
  else
    session ← unpack_uint32 buf 0;
    t ← byte_of buf 4;
    data ← block_at buf 5 (sz - 5);
    if bool_decide (t = 0) then LRet [VInt session; VBool false; VString data]
    else if bool_decide (t = 1 ∨ t = 4) then LRet [VInt session; VBool true; VString data]
    else if bool_decide (t = 2) then
      if bool_decide (sz ≠ 9) then LRet []
      else size ← unpack_uint32 buf 5; LRet [VInt session; VBool true; VInt size; VBool true]
    else if bool_decide (t = 3) then LRet [VInt session; VBool true; VString data; VBool true]
    else LRet [].

(** ** Putting the parts together: the table is the list of its items *)
Definition lappend (t : list value) (buffer sz : arg) : lua (list value) :=
  match buffer with
  | Val VNil => match sz with Val VNil => LRet t | Val v => LRet (t ++ [v]) | Buffer _ => LUndef end
  | Buffer bytes =>
      match sz with
      | Val (VInt n) => s ← push_lstring bytes (i32 n); LRet (t ++ [VString s])
      | _ => LError (Message "number expected")
      end
  | _ => LError (Message "Need lightuserdata")
  end.

Fixpoint concat_loop (l : list value) (buff : list Z) (sz : Z) : option (list Z) :=
  match l with
  | VString str :: l =>
      if bool_decide (sz < Zlen str + Zlen buff) then None else concat_loop l (buff ++ str) sz
  | _ => if bool_decide (Zlen buff ≠ sz) then None else Some buff
  end.

(** a negative size asks for more memory than there is *)
Definition lconcat (t : list value) : lua (option (list Z)) :=
  match t with
  | v :: l =>
      if is_number v then
        let sz := i32 (lua_tointeger v) in
        if bool_decide (sz < 0) then LUndef else LRet (concat_loop l [] sz)
      else LRet None
  | [] => LRet None
  end.

Definition lisname (name : value) : bool :=
  match name with VString (b :: _) => bool_decide (b = 64) | _ => false end.

(** the name of the host, if [gethostname] knows it, and the process id *)
Definition lnodename (hostname : option string) (pid : Z) : string :=
  match hostname with
  | Some h => h +:+ fmt_d pid
  | None => "noname" +:+ fmt_d pid
  end.

(** ** The receiver: dispatch_request of service/clusteragent.lua, up to the
    call of the service a request is for *)
Record large : Type := Large {
  l_addr : value;
  l_push : value;
  l_tag : option (list Z);
  l_parts : list value
}.
Record agent : Type := Agent {
  large_request : gmap Z large;
  tracetag : option (list Z)
}.

Inductive action : Type :=
  | Traced
  | Wait (session : Z)
  (** the service gets the message; the sender waits for a response or not *)
  | Serve (session : Z) (addr : value) (msg : list Z) (is_push : bool)
  (** the same for the service that has registered the name at clusterd; the answer
      to a name that none has is Invalid name *)
  | ServeName (session : Z) (name : value) (msg : list Z) (is_push : bool)
  (** the answer is the address clusterd has for the name in the message *)
  | Query (session : Z) (msg : list Z)
  (** the answer: Invalid name *)
  | Invalid (session : Z)
  (** the answer: Invalid large req *)
  | Refuse (session : Z).

Definition truthy (v : value) : bool := match v with VNil | VBool false => false | _ => true end.
Definition nth_arg (args : list arg) (i : nat) : arg := nth i args (Val VNil).
Definition nth_value (args : list arg) (i : nat) : value :=
  match nth_arg args i with Val v => v | Buffer _ => VNil end.

(** a whole message with its address, behind the parts *)
Definition serve (session : Z) (addr : value) (msg : list Z) (is_push : bool) : action :=
  match addr with
  | VInt 0 => Query session msg
  | _ =>
      if lisname addr then ServeName session addr msg is_push
      else if truthy addr then Serve session addr msg is_push
      else Invalid session
  end.

Definition dispatch_request (a : agent) (args : list arg) : lua (agent * action) :=
  let addr := nth_value args 0 in
  let msg := nth_arg args 2 in
  let sz := nth_arg args 3 in
  let is_push := nth_value args 5 in
  match nth_value args 1 with
  | VInt session =>
      if truthy (nth_value args 4) then
        let req := default (Large addr is_push (tracetag a) []) (large_request a !! session) in
        items ← lappend (l_parts req) msg sz;
        LRet (Agent (<[session := Large (l_addr req) (l_push req) (l_tag req) items]> (large_request a)) None,
              Wait session)
      else
        match large_request a !! session with
        | Some req =>
            let larges := delete session (large_request a) in
            items ← lappend (l_parts req) msg sz;
            whole ← lconcat items;
            match whole with
            | Some bytes => LRet (Agent larges (l_tag req), serve session (l_addr req) bytes (truthy (l_push req)))
            | None => LRet (Agent larges None, Refuse session)
            end
        | None =>
            match msg with
            | Buffer bytes => LRet (a, serve session addr bytes (truthy is_push))
            | _ => LRet (Agent (large_request a) None, Refuse session)
            end
        end
  | _ => LRet (Agent (large_request a) (match addr with VString t => Some t | _ => None end), Traced)
  end.

(** a frame without its length, as the gate forwards it *)
Definition receive (a : agent) (body : list Z) : lua (agent * action) :=
  args ← lunpackrequest (MPointer body (Zlen body)); dispatch_request a args.

Fixpoint receive_all (a : agent) (bodies : list (list Z)) : lua (agent * list action) :=
  match bodies with
  | [] => LRet (a, [])
  | body :: bodies =>
      '(a, act) ← receive a body; '(a, acts) ← receive_all a bodies; LRet (a, act :: acts)
  end.

(** ** The sender: dispatch_by_session of lualib/skynet/socketchannel.lua

    A request waits under its session until its result is there; a result in
    parts is a table. *)
Inductive result : Type :=
  | Whole (v : value)
  | Parts (l : list value).
Record channel : Type := Channel {
  thread : gset Z;
  result_data : gmap Z (list value);
  finished : gmap Z (bool * result)
}.

(** the values of [cluster.unpackresponse]; none closes the channel *)
Definition dispatch_by_session (c : channel) (vs : list value) : option channel :=
  match vs with
  | VInt session :: VBool result_ok :: data :: more =>
      if decide (session ∈ thread c) then
        let padding := match more with v :: _ => truthy v | [] => false end in
        if padding && result_ok then
          Some (Channel (thread c)
            (<[session := default [] (result_data c !! session) ++ [data]]> (result_data c)) (finished c))
        else
          let r := match result_data c !! session with
            | Some l => if result_ok then Parts (l ++ [data]) else Whole data
            | None => Whole data
            end in
          Some (Channel (thread c ∖ {[session]}) (delete session (result_data c))
            (<[session := (result_ok, r)]> (finished c)))
      else Some c
  | _ => None
  end.

Definition read_response (c : channel) (body : list Z) : lua (option channel) :=
  vs ← lunpackresponse body; LRet (dispatch_by_session c vs).
Fixpoint read_responses (c : channel) (bodies : list (list Z)) : lua (option channel) :=
  match bodies with
  | [] => LRet (Some c)
  | body :: bodies =>
      c ← read_response c body;
      match c with Some c => read_responses c bodies | None => LRet None end
  end.

(** what the request of [clustersender.lua] returns *)
Definition response_value (r : result) : lua (option (list Z)) :=
  match r with
  | Whole (VString s) => LRet (Some s)
  | Whole _ => LRet None
  | Parts l => lconcat l
  end.
