(* ===== verification/ClusterSpec.v ===== *)
(** * Cluster messages: the frames, their reading, and the delivery of requests *)
From S2P Require Import Prelude CLib CNum Bytes DataBuffer NetPack NetPackSpec LuaValue Cluster.
From Stdlib Require Import String.
#[local] Open Scope Z_scope.

(** ** The array on the stack: [pre] is what it is known to start with *)
Definition stack_array (buf : list Z) : Prop := Zlen buf = TEMP_LENGTH.
Definition starts (buf pre : list Z) : Prop := stack_array buf ∧ ∃ post, buf = pre ++ post.

Lemma starts_nil buf : stack_array buf → starts buf [].
Proof. intros H. split; [done|]. by exists buf. Qed.

Lemma starts_any buf n : stack_array buf → 0 ≤ n ≤ TEMP_LENGTH → ∃ pre, Zlen pre = n ∧ starts buf pre.
Proof.
  intros H Hn. exists (take (Z.to_nat n) buf). split.
  - unfold stack_array, Zlen in *. rewrite length_take. lia.
  - split; [done|]. exists (drop (Z.to_nat n) buf). by rewrite take_drop.
Qed.

Lemma copy_mid pre mid post src : Zlen src = Zlen mid →
  copy_at (pre ++ mid ++ post) (Zlen pre) src = pre ++ src ++ post.
Proof.
  intros Hl. unfold copy_at, Zlen in *. rewrite Nat2Z.id, take_app_length. f_equal. f_equal.
  rewrite drop_app_ge by lia. replace (List.length pre + List.length src - List.length pre)%nat with (List.length mid) by lia.
  by rewrite drop_app_length.
Qed.

(** bytes stored over known ones *)
Lemma poke_over buf a b c off src : starts buf (a ++ b ++ c) → off = Zlen a → Zlen src = Zlen b →
  ∃ buf', poke buf off src = LRet buf' ∧ starts buf' (a ++ src ++ c).
Proof.
  intros [Hl [post ->]] -> Hs. unfold stack_array in Hl. rewrite !Zlen_app in Hl.
  exists (a ++ src ++ c ++ post). unfold poke.
  pose proof (Zlen_nonneg a). pose proof (Zlen_nonneg c). pose proof (Zlen_nonneg post).
  rewrite bool_decide_eq_true_2 by (rewrite !Zlen_app; lia). split.
  - rewrite <- !app_assoc. by rewrite copy_mid.
  - split; [unfold stack_array; rewrite !Zlen_app; lia|]. exists post. by rewrite <- !app_assoc.
Qed.

(** bytes stored behind the known ones *)
Lemma poke_next buf pre off src : starts buf pre → off = Zlen pre → Zlen pre + Zlen src ≤ TEMP_LENGTH →
  ∃ buf', poke buf off src = LRet buf' ∧ starts buf' (pre ++ src).
Proof.
  intros [Hl [post Hb]] -> Hs. pose proof (Zlen_nonneg src) as H0. pose proof (Zlen_nonneg pre) as H1.
  assert (starts buf (pre ++ take (List.length src) post ++ [])) as Hst.
  { split; [done|]. exists (drop (List.length src) post). by rewrite app_nil_r, <- app_assoc, take_drop. }
  assert (Zlen (take (List.length src) post) = Zlen src) as Ht.
  { unfold stack_array in Hl. subst. rewrite Zlen_app in Hl. unfold Zlen in *. rewrite length_take. lia. }
  destruct (poke_over _ _ _ _ (Zlen pre) src Hst eq_refl ltac:(lia)) as (buf' & E & Hst'). exists buf'.
  by rewrite app_nil_r in Hst'.
Qed.

Lemma push_starts buf pre n : starts buf pre → n = Zlen pre → push_lstring buf n = LRet pre.
Proof.
  intros [Hl [post ->]] ->. unfold push_lstring. rewrite Zlen_app.
  pose proof (Zlen_nonneg pre). pose proof (Zlen_nonneg post). rewrite bool_decide_eq_true_2 by lia.
  unfold Zlen. by rewrite Nat2Z.id, take_app_length.
Qed.

Lemma copy_block_ok msg n : 0 ≤ n ≤ Zlen msg → copy_block msg n = LRet (take (Z.to_nat n) msg).
Proof. intros H. unfold copy_block, push_lstring. by rewrite bool_decide_eq_true_2. Qed.
Lemma copy_block_all msg n : n = Zlen msg → copy_block msg n = LRet msg.
Proof.
  intros ->. rewrite copy_block_ok by (pose proof (Zlen_nonneg msg); lia).
  unfold Zlen. by rewrite Nat2Z.id, firstn_all.
Qed.

(** ** Numbers *)
Definition dword (n : Z) : list Z :=
  [Z.land n 0xff; Z.land (Z.shiftr n 8) 0xff; Z.land (Z.shiftr n 16) 0xff; Z.land (Z.shiftr n 24) 0xff].
Definition word (n : Z) : list Z := [Z.land (Z.shiftr n 8) 0xff; Z.land n 0xff].

Lemma Zlen_word n : Zlen (word n) = 2.
Proof. done. Qed.
Lemma Zlen_dword n : Zlen (dword n) = 4.
Proof. done. Qed.

Lemma byte_of_app pre b post : byte_of (pre ++ b :: post) (Zlen pre) = LRet b.
Proof.
  unfold byte_of, get_idx. rewrite decide_True by apply Zlen_nonneg. unfold Zlen. rewrite Nat2Z.id.
  rewrite lookup_app_r, Nat.sub_diag by lia. done.
Qed.

Lemma dword_value a b c d : byte a → byte b → byte c → byte d →
  u32 (Z.lor (Z.lor (Z.lor a (Z.shiftl b 8)) (Z.shiftl c 16)) (Z.shiftl d 24)) =
  a + b * 2 ^ 8 + c * 2 ^ 16 + d * 2 ^ 24.
Proof.
  unfold byte. intros Ha Hb Hc Hd. rewrite !Z.shiftl_mul_pow2 by lia.
  rewrite (lor_high a b 8), (lor_high _ c 16), (lor_high _ d 24) by lia. unfold u32. rewrite Z.mod_small; lia.
Qed.

Lemma unpack_dword pre n post off : off = Zlen pre → unpack_uint32 (pre ++ dword n ++ post) off = LRet (u32 n).
Proof.
  intros ->. unfold unpack_uint32, dword. cbn [app].
  set (a := Z.land n 0xff). set (b := Z.land (Z.shiftr n 8) 0xff).
  set (c := Z.land (Z.shiftr n 16) 0xff). set (d := Z.land (Z.shiftr n 24) 0xff).
  assert (∀ q x r, byte_of (pre ++ q ++ x :: r) (Zlen pre + Zlen q) = LRet x) as Hq.
  { intros q x r. rewrite <- Zlen_app, app_assoc. apply byte_of_app. }
  rewrite byte_of_app, LRet_bind.
  pose proof (Hq [a] b (c :: d :: post)) as H1. pose proof (Hq [a; b] c (d :: post)) as H2.
  pose proof (Hq [a; b; c] d post) as H3.
  change (Zlen [a]) with 1 in H1. change (Zlen [a; b]) with 2 in H2. change (Zlen [a; b; c]) with 3 in H3.
  cbn [app] in H1, H2, H3. rewrite H1, LRet_bind, H2, LRet_bind, H3, LRet_bind. f_equal.
  unfold a, b, c, d. rewrite byte_low, !byte_at by lia. rewrite dword_value by apply mod_byte.
  unfold u32. Z.div_mod_to_equations. lia.
Qed.

Lemma block_at_mid pre mid post off sz : off = Zlen pre → sz = Zlen mid →
  block_at (pre ++ mid ++ post) off sz = LRet mid.
Proof.
  intros -> ->. unfold block_at. rewrite !Zlen_app.
  pose proof (Zlen_nonneg pre). pose proof (Zlen_nonneg mid). pose proof (Zlen_nonneg post).
  rewrite bool_decide_eq_true_2 by lia. f_equal. unfold Zlen. rewrite !Nat2Z.id, drop_app_length, take_app_length. done.
Qed.

(** ** The frames of a request *)
Definition frame (body : list Z) : list Z := word (Zlen body) ++ body.

Lemma word_frame n body : n = Zlen body → word n ++ body = frame body.
Proof. by intros ->. Qed.

(** the address as the receiver sees it *)
Definition address (addr : value) : value :=
  match addr with VInt z => VInt (u32 z) | v => v end.
Definition address_ok (addr : value) : Prop :=
  match addr with VInt _ => True | VString name => 1 ≤ Zlen name ≤ 255 | _ => False end.
Definition address_bytes (addr : value) : list Z :=
  match addr with
  | VInt z => dword (u32 z)
  | VString name => u8 (Zlen name) :: name
  | _ => []
  end.
Definition kind_of (addr : value) (t : Z) : Z := match addr with VInt _ => t | _ => t + 0x80 end.

Definition whole_body (addr : value) (session : Z) (msg : list Z) : list Z :=
  kind_of addr 0 :: address_bytes addr ++ dword session ++ msg.
Definition first_body (addr : value) (session : Z) (size : Z) (is_push : bool) : list Z :=
  kind_of addr (if is_push then 0x41 else 1) :: address_bytes addr ++ dword session ++ dword size.

Lemma address_bytes_length addr : address_ok addr → Zlen (address_bytes addr) ≤ 256.
Proof. destruct addr; try done. cbn [address_ok address_bytes]. rewrite Zlen_cons. lia. Qed.

Lemma fill_header_next buf sz : stack_array buf → 0 ≤ sz < 0x10000 →
  ∃ buf', fill_header buf sz = LRet buf' ∧ starts buf' (word sz).
Proof.
  intros Hb Hs. unfold fill_header. rewrite bool_decide_eq_true_2 by lia. cbn [cassert lift].
  rewrite LRet_bind. by apply (poke_next buf [] 0 (word sz)); [apply starts_nil| |].
Qed.

Lemma fill_header_over buf x y post sz : starts buf (x :: y :: post) → 0 ≤ sz < 0x10000 →
  ∃ buf', fill_header buf sz = LRet buf' ∧ starts buf' (word sz ++ post).
Proof.
  intros Hb Hs. unfold fill_header. rewrite bool_decide_eq_true_2 by lia. cbn [cassert lift].
  rewrite LRet_bind. by apply (poke_over buf [] [x; y] post 0 (word sz)).
Qed.

Lemma fill_uint32_next buf pre off n : starts buf pre → off = Zlen pre → Zlen pre + 4 ≤ TEMP_LENGTH →
  ∃ buf', fill_uint32 buf off n = LRet buf' ∧ starts buf' (pre ++ dword n).
Proof. intros. by apply (poke_next buf pre off (dword n)). Qed.

(** a field stored behind the known bytes of the buffer *)
Ltac lens :=
  repeat first [rewrite Zlen_app | rewrite Zlen_dword | rewrite Zlen_word | rewrite Zlen_cons | rewrite Zlen_nil];
  unfold TEMP_LENGTH, MULTI_PART in *; try done; try lia.
Ltac next_field H :=
  let b' := fresh "buf" in let E := fresh "E" in let H' := fresh H in
  lazymatch goal with
  | |- context [poke ?b ?off ?src ≫= _] =>
      edestruct (poke_next b _ off src H) as (b' & E & H'); [by lens|by lens|]
  | |- context [fill_uint32 ?b ?off ?n ≫= _] =>
      edestruct (fill_uint32_next b _ off n H) as (b' & E & H'); [by lens|by lens|]
  end; rewrite E, LRet_bind; clear E H; rename H' into H.
Ltac header H :=
  lazymatch goal with
  | |- context [fill_header ?b ?sz] =>
      let b' := fresh "buf" in
      destruct (fill_header_next b sz ltac:(done) ltac:(lens)) as (b' & -> & H); rewrite LRet_bind
  end.
Ltac pushed H :=
  lazymatch goal with
  | |- context [push_lstring ?b ?n] => rewrite (push_starts b _ n H) by lens; rewrite ?LRet_bind
  end.
Ltac read_all := rewrite copy_block_all, LRet_bind by done.

Section pack.
Context (buf : list Z) (Hb : stack_array buf).

Lemma packreq_number_whole z session msg is_push : Zlen msg < MULTI_PART →
  packreq_number buf (VInt z) session msg (Zlen msg) is_push =
  call (LRet (frame (whole_body (VInt z) (if is_push then 0 else u32 session) msg), 0)).
Proof.
  intros Hm. unfold packreq_number. rewrite bool_decide_eq_true_2 by done. f_equal. pose proof (Zlen_nonneg msg).
  header H1. do 3 next_field H1. read_all. next_field H1. pushed H1.
  do 2 f_equal. unfold frame, whole_body. cbn [kind_of address_bytes lua_tointeger].
  rewrite <- !app_assoc. apply word_frame. lens.
Qed.

Lemma packreq_number_first z session msg sz is_push : MULTI_PART ≤ sz →
  packreq_number buf (VInt z) session msg sz is_push =
  call (LRet (frame (first_body (VInt z) (u32 session) sz is_push), parts sz)).
Proof.
  intros Hm. unfold packreq_number. rewrite bool_decide_eq_false_2 by lia. f_equal.
  header H1. do 4 next_field H1. pushed H1.
  by destruct is_push.
Qed.

Lemma packreq_string_whole name session msg is_push : 1 ≤ Zlen name ≤ 255 → Zlen msg < MULTI_PART →
  packreq_string buf (VString name) session msg (Zlen msg) is_push =
  call (LRet (frame (whole_body (VString name) (if is_push then 0 else u32 session) msg), 0)).
Proof.
  intros Hn Hm. unfold packreq_string. rewrite bool_decide_eq_false_2, bool_decide_eq_true_2 by lia. f_equal.
  pose proof (Zlen_nonneg msg).
  header H1. do 4 next_field H1. read_all. next_field H1. pushed H1.
  do 2 f_equal. unfold frame, whole_body. cbn [kind_of address_bytes].
  rewrite <- !app_assoc. apply word_frame. lens.
Qed.

Lemma packreq_string_first name session msg sz is_push : 1 ≤ Zlen name ≤ 255 → MULTI_PART ≤ sz →
  packreq_string buf (VString name) session msg sz is_push =
  call (LRet (frame (first_body (VString name) (u32 session) sz is_push), parts sz)).
Proof.
  intros Hn Hm. unfold packreq_string. rewrite !bool_decide_eq_false_2 by lia. f_equal.
  header H1. do 5 next_field H1. pushed H1.
  do 2 f_equal. unfold frame, first_body. cbn [kind_of address_bytes].
  rewrite <- !app_assoc. destruct is_push; apply word_frame; lens.
Qed.
End pack.

(** ** The parts *)
Fixpoint chunks (n : nat) (msg : list Z) : list (list Z) :=
  match n with
  | O => []
  | S n => take (Z.to_nat MULTI_PART) msg :: chunks n (drop (Z.to_nat MULTI_PART) msg)
  end.
Definition n_parts (sz : Z) : nat := Z.to_nat (parts sz).

(** the bodies of the parts, the last of which is marked *)
Fixpoint part_list (f : bool → list Z → list Z) (cs : list (list Z)) : list (list Z) :=
  match cs with
  | [] => []
  | [c] => [f true c]
  | c :: cs => f false c :: part_list f cs
  end.
Definition request_part (session : Z) (last : bool) (chunk : list Z) : list Z :=
  (if last then 3 else 2) :: dword session ++ chunk.
Definition response_part (session : Z) (last : bool) (chunk : list Z) : list Z :=
  dword session ++ (if last then 4 else 3) :: chunk.

Lemma u32_small x : 0 ≤ x < 2 ^ 32 → u32 x = x.
Proof. apply Z.mod_small. Qed.

(** one more part than whole ones before it *)
Definition cut (n : nat) (sz : Z) : Prop :=
  (Z.of_nat n - 1) * MULTI_PART < sz ≤ Z.of_nat n * MULTI_PART.

Lemma cut_parts sz : 0 < sz < 2 ^ 32 → cut (n_parts sz) sz.
Proof. intros H. unfold cut, n_parts, parts, MULTI_PART. rewrite u32_small by lia. Z.div_mod_to_equations. lia. Qed.

Lemma take_prefix {A} n (l : list A) : take (List.length (take n l)) l = take n l.
Proof.
  rewrite length_take. destruct (Nat.le_ge_cases n (List.length l)); [by rewrite Nat.min_l|].
  by rewrite Nat.min_r, !take_ge by lia.
Qed.

#[local] Opaque MULTI_PART.
Record cut_step (n : nat) (msg c rest : list Z) : Prop := {
  cs_size : (if bool_decide (MULTI_PART < Zlen msg) then MULTI_PART else Zlen msg) = Zlen c;
  cs_range : 0 ≤ Zlen c ≤ MULTI_PART;
  cs_read : copy_block msg (Zlen c) = LRet c;
  cs_drop : drop (Z.to_nat (Zlen c)) msg = rest;
  cs_rest : Zlen msg - Zlen c = Zlen rest;
  cs_cut : cut n (Zlen rest);
  cs_list f : part_list f (chunks (S n) msg) =
    f (negb (bool_decide (MULTI_PART < Zlen msg))) c :: part_list f (chunks n rest)
}.

Lemma cut_step_ok n msg : cut (S n) (Zlen msg) →
  cut_step n msg (take (Z.to_nat MULTI_PART) msg) (drop (Z.to_nat MULTI_PART) msg).
Proof.
  unfold cut. intros Hc. set (c := take _ msg). set (rest := drop _ msg). pose proof (Zlen_nonneg msg) as H0.
  assert (0 < MULTI_PART) as HM by done.
  assert (Zlen c = if bool_decide (MULTI_PART < Zlen msg) then MULTI_PART else Zlen msg) as Hl.
  { unfold c, Zlen in *. rewrite length_take. case_bool_decide; lia. }
  assert (drop (Z.to_nat (Zlen c)) msg = rest) as Hd.
  { rewrite Hl. unfold rest. case_bool_decide; [done|]. unfold Zlen in *. by rewrite !drop_ge by lia. }
  assert (Zlen msg - Zlen c = Zlen rest) as Hr.
  { pose proof (take_drop (Z.to_nat MULTI_PART) msg) as E. fold c rest in E. rewrite <- E at 1. rewrite Zlen_app. lia. }
  assert (0 ≤ Zlen c ≤ MULTI_PART) as Hcr by (rewrite Hl; case_bool_decide; lia).
  split; [by rewrite Hl|done| |done|done| |].
  - rewrite copy_block_ok by (pose proof (Zlen_nonneg rest); lia).
    f_equal. unfold c, Zlen. rewrite Nat2Z.id. apply take_prefix.
  - unfold cut. rewrite <- Hr, Hl. case_bool_decide; nia.
  - intros f. cbn [chunks part_list]. fold c rest. destruct n as [|n].
    + rewrite bool_decide_eq_false_2 by lia. done.
    + rewrite bool_decide_eq_true_2 by lia. done.
Qed.

#[local] Transparent MULTI_PART.

(** the array of the parts: the mark of the part is stored before its length *)
Lemma packreq_multi_spec n buf session msg : stack_array buf → Zlen msg < 2 ^ 32 → cut n (Zlen msg) →
  packreq_multi n buf session msg (Zlen msg) = LRet (frame <$> part_list (request_part (u32 session)) (chunks n msg)).
Proof.
  revert buf msg. induction n as [|n IH]; intros buf msg Hb Hm Hc; [done|].
  apply cut_step_ok in Hc as [Hs Hcr Hrd Hdr Hrs Hcut Hpl]. rewrite Hpl. clear Hpl.
  set (c := take _ msg) in *. set (rest := drop (Z.to_nat MULTI_PART) msg) in *. clearbody c rest. cbn [packreq_multi].
  set (k := if bool_decide _ then _ else _).
  set (t := if negb (bool_decide (MULTI_PART < Zlen msg)) then 3 else 2).
  assert (k = (Zlen c, t)) as -> by (unfold k, t; rewrite <- Hs; by case_bool_decide). cbv beta iota.
  destruct (starts_any buf 3 Hb ltac:(by vm_compute)) as (pre & Hp & Hst).
  destruct pre as [|x0 [|x1 [|x2 [|? ?]]]]; unfold Zlen in Hp; cbn in Hp; try lia. clear Hp.
  destruct (poke_over buf [x0; x1] [x2] [] 2 [t] Hst eq_refl eq_refl) as (b1 & -> & H1). rewrite LRet_bind. clear Hst.
  destruct (fill_header_over b1 x0 x1 [t] (Zlen c + 5) H1 ltac:(lens)) as (b2 & -> & H2). rewrite LRet_bind. clear H1.
  next_field H2. rewrite Hrd, LRet_bind. next_field H2. pushed H2.
  pose proof (Zlen_nonneg rest). rewrite Hdr, Hrs, (u32_small (Zlen rest)) by lia.
  rewrite IH by (try apply H2; lia || done). rewrite LRet_bind. cbn [fmap list_fmap]. do 2 f_equal.
  rewrite <- !app_assoc. unfold request_part. fold t. apply word_frame. lens.
Qed.

Lemma packresponse_parts_spec n buf session msg : stack_array buf → Zlen msg < 2 ^ 64 → cut n (Zlen msg) →
  packresponse_parts n buf session msg (Zlen msg) = LRet (frame <$> part_list (response_part session) (chunks n msg)).
Proof.
  revert buf msg. induction n as [|n IH]; intros buf msg Hb Hm Hc; [done|].
  apply cut_step_ok in Hc as [Hs Hcr Hrd Hdr Hrs Hcut Hpl]. rewrite Hpl. clear Hpl.
  set (c := take _ msg) in *. set (rest := drop (Z.to_nat MULTI_PART) msg) in *. clearbody c rest. cbn [packresponse_parts].
  set (k := if bool_decide _ then _ else _).
  set (t := if negb (bool_decide (MULTI_PART < Zlen msg)) then 4 else 3).
  assert (k = (Zlen c, t)) as -> by (unfold k, t; rewrite <- Hs; by case_bool_decide). cbv beta iota.
  destruct (starts_any buf 7 Hb ltac:(by vm_compute)) as (pre & Hp & Hst).
  destruct pre as [|x0 [|x1 [|x2 [|x3 [|x4 [|x5 [|x6 [|? ?]]]]]]]]; unfold Zlen in Hp; cbn in Hp; try lia. clear Hp.
  destruct (poke_over buf [x0; x1; x2; x3; x4; x5] [x6] [] 6 [t] Hst eq_refl eq_refl) as (b1 & -> & H1). rewrite LRet_bind. clear Hst.
  destruct (fill_header_over b1 x0 x1 [x2; x3; x4; x5; t] (Zlen c + 5) H1 ltac:(lens)) as (b2 & -> & H2). rewrite LRet_bind. clear H1.
  destruct (poke_over b2 (word (Zlen c + 5)) [x2; x3; x4; x5] [t] 2 (dword session) H2 eq_refl eq_refl) as (b3 & E & H3).
  unfold fill_uint32. fold (dword session). rewrite E, LRet_bind. clear E H2.
  rewrite Hrd, LRet_bind. next_field H3. pushed H3.
  pose proof (Zlen_nonneg rest). rewrite Hdr, Hrs. unfold u64. rewrite Z.mod_small by lia.
  rewrite IH by (try apply H3; lia || done). rewrite LRet_bind. cbn [fmap list_fmap]. do 2 f_equal.
  rewrite <- !app_assoc. unfold response_part. fold t. apply word_frame. lens.
Qed.

(** ** The bodies of a request *)
Definition request_bodies (addr : value) (session : Z) (msg : list Z) (is_push : bool) : list (list Z) :=
  if bool_decide (Zlen msg < MULTI_PART) then [whole_body addr (if is_push then 0 else session) msg]
  else first_body addr session (Zlen msg) is_push ::
       part_list (request_part session) (chunks (n_parts (Zlen msg)) msg).

Definition next_session (session : Z) : Z := if bool_decide (session = INT_MAX) then 1 else session + 1.

Definition split_frames (l : list (list Z)) : list Z * option (list (list Z)) :=
  match l with
  | [] => ([], None)
  | f :: [] => (f, None)
  | f :: l => (f, Some l)
  end.

Lemma chunks_length n msg : List.length (chunks n msg) = n.
Proof. revert msg. induction n as [|n IH]; intros msg; cbn; [done|]. by rewrite IH. Qed.
Lemma part_list_length f cs : List.length (part_list f cs) = List.length cs.
Proof. induction cs as [|c [|d cs] IH]; [done..|]. cbn [part_list List.length] in *. by rewrite IH. Qed.

Lemma parts_positive sz : MULTI_PART ≤ sz < 2 ^ 32 → 1 ≤ parts sz.
Proof. unfold parts, MULTI_PART. intros H. rewrite u32_small by lia. Z.div_mod_to_equations. lia. Qed.

Lemma packrequest_spec buf buf2 addr session msg is_push :
  stack_array buf → stack_array buf2 → address_ok addr → 0 < session < 2 ^ 31 → Zlen msg < 2 ^ 32 →
  packrequest buf buf2 addr session (Some msg) (Zlen msg) is_push =
  let '(request, parts) := split_frames (frame <$> request_bodies addr session msg is_push) in
  Run 1 (LRet (request, next_session session, parts)).
Proof.
  intros Hb Hb2 Ha Hs Hm. unfold packrequest. pose proof (Zlen_nonneg msg).
  rewrite (u32_small (Zlen msg)), i32_small, bool_decide_eq_false_2 by lia.
  set (new := if bool_decide _ then _ else _).
  assert (new = next_session session) as ->.
  { unfold new, next_session, INT_MAX. rewrite u32_small by lia. repeat case_bool_decide; lia. }
  unfold request_bodies. case_bool_decide as Hw.
  - assert ((if is_number addr then packreq_number buf addr session msg (Zlen msg) is_push
             else packreq_string buf addr session msg (Zlen msg) is_push) =
            call (LRet (frame (whole_body addr (if is_push then 0 else session) msg), 0))) as ->.
    { rewrite <- (u32_small session) at 3 by lia.
      destruct addr; try done; [by apply packreq_number_whole|by apply packreq_string_whole]. }
    done.
  - assert (MULTI_PART ≤ Zlen msg) as Hm' by lia. pose proof (parts_positive (Zlen msg) ltac:(lia)) as Hp.
    assert ((if is_number addr then packreq_number buf addr session msg (Zlen msg) is_push
             else packreq_string buf addr session msg (Zlen msg) is_push) =
            call (LRet (frame (first_body addr session (Zlen msg) is_push), parts (Zlen msg)))) as ->.
    { rewrite <- (u32_small session) at 3 by lia.
      destruct addr; try done; [by apply packreq_number_first|by apply packreq_string_first]. }
    unfold mbind, run_bind, call. cbn [answer frees]. cbv beta iota. rewrite bool_decide_eq_false_2 by lia. cbn [answer frees].
    rewrite packreq_multi_spec by (try apply cut_parts; unfold MULTI_PART in *; lia || done).
    rewrite (u32_small session) by lia. cbn [answer frees fmap list_fmap].
    pose proof (part_list_length (request_part session) (chunks (n_parts (Zlen msg)) msg)) as Hl.
    rewrite chunks_length in Hl. unfold n_parts in *. destruct (part_list _ _) eqn:E; [cbn in Hl; lia|]. done.
Qed.

(** ** Frames are packets of the packet filter *)
Definition body_ok (body : list Z) : Prop := Zlen body < 0x10000.

Lemma word_size n : 0 ≤ n < 0x10000 → Z.lor (Z.shiftl (Z.land (Z.shiftr n 8) 0xff) 8) (Z.land n 0xff) = n.
Proof.
  intros H. rewrite byte_at, byte_low by lia. rewrite lor_shift by (try apply mod_byte; lia).
  Z.div_mod_to_equations. lia.
Qed.

Lemma unpacked_frames bodies : Forall body_ok bodies → unpacked (mjoin (frame <$> bodies)) = (bodies, []).
Proof.
  induction 1 as [|body bodies Hb Hok IH]; [done|]. rewrite fmap_cons, mjoin_cons. unfold frame at 1, word.
  rewrite <- app_assoc. cbn [app]. rewrite unpacked_cons. cbv zeta. unfold body_ok in Hb. pose proof (Zlen_nonneg body).
  rewrite word_size, Zlen_app by lia. pose proof (Zlen_nonneg (mjoin (frame <$> bodies))).
  rewrite decide_False by lia. unfold Zlen. rewrite Nat2Z.id, take_app_length, drop_app_length, IH. done.
Qed.

Lemma chunks_bounded n msg : Forall (λ c, Zlen c ≤ MULTI_PART) (chunks n msg).
Proof.
  revert msg. induction n as [|n IH]; intros msg; cbn [chunks]; constructor; [|apply IH].
  unfold MULTI_PART, Zlen. rewrite length_take. lia.
Qed.

Lemma part_list_Forall (P Q : list Z → Prop) f cs : (∀ b c, Q c → P (f b c)) → Forall Q cs → Forall P (part_list f cs).
Proof.
  intros Hf. induction 1 as [|c cs Hc Hcs IH]; [by apply Forall_nil|]. cbn [part_list].
  destruct cs; [constructor; [by apply Hf|by apply Forall_nil]|constructor; [by apply Hf|exact IH]].
Qed.

Lemma request_bodies_ok addr session msg is_push : address_ok addr → Forall body_ok (request_bodies addr session msg is_push).
Proof.
  intros Ha. pose proof (address_bytes_length addr Ha). unfold request_bodies. case_bool_decide.
  - constructor; [|by apply Forall_nil]. unfold body_ok, whole_body. rewrite Zlen_cons, !Zlen_app, Zlen_dword.
    unfold MULTI_PART in *. lia.
  - constructor; [unfold body_ok, first_body; rewrite Zlen_cons, !Zlen_app, !Zlen_dword; lia|].
    eapply part_list_Forall; [|apply chunks_bounded]. intros b c Hc. cbv beta in Hc.
    unfold body_ok, request_part, MULTI_PART in *. rewrite Zlen_cons, Zlen_app, Zlen_dword. lia.
Qed.

(** ** Reading them *)
Definition pointer (body : list Z) : lua_message := MPointer body (Zlen body).

Lemma lunpack_kind body t rest : body = t :: rest → Zlen body < 2 ^ 31 →
  lunpackrequest (pointer body) =
  let sz := Zlen body in
  if bool_decide (t = 0) then unpackreq_number body sz
  else if bool_decide (t = 1) then unpackmreq_number body sz false
  else if bool_decide (t = 0x41) then unpackmreq_number body sz true
  else if bool_decide (t = 2 ∨ t = 3) then unpackmreq_part body sz
  else if bool_decide (t = 4) then unpacktrace body sz
  else if bool_decide (t = 0x80) then unpackreq_string body sz
  else if bool_decide (t = 0x81) then unpackmreq_string body sz false
  else if bool_decide (t = 0xc1) then unpackmreq_string body sz true
  else LError (Message ("Invalid req package type " +:+ fmt_d (signed_char t))).
Proof.
  intros Hb Hl. unfold lunpackrequest, pointer. rewrite i32_small by (pose proof (Zlen_nonneg body); lia).
  assert (byte_of body 0 = LRet t) as -> by (subst; done). done.
Qed.

Definition whole_args (addr : value) (session : Z) (msg : list Z) : list arg :=
  [Val (address addr); Val (VInt session); Buffer msg; Val (VInt (Zlen msg))] ++ push_mark session.
Definition first_args (addr : value) (session size : Z) (is_push : bool) : list arg :=
  [Val (address addr); Val (VInt session); Val VNil; Val (VInt size); Val (VBool true); Val (VBool is_push)].
Definition part_args (session : Z) (last : bool) (chunk : list Z) : list arg :=
  [Val (VBool false); Val (VInt session); Buffer chunk; Val (VInt (Zlen chunk)); Val (VBool (negb last))].

Definition dword_ok (n : Z) : Prop := 0 ≤ n < 2 ^ 32.

(** the fields of a body after the address *)
Lemma u8_name (name : list Z) : 1 ≤ Zlen name ≤ 255 → u8 (Zlen name) = Zlen name.
Proof. intros. apply Z.mod_small. lia. Qed.

Lemma unpack_whole addr session msg : address_ok addr → dword_ok session → Zlen msg < MULTI_PART →
  lunpackrequest (pointer (whole_body addr session msg)) = LRet (whole_args addr session msg).
Proof.
  intros Ha Hs Hm. pose proof (address_bytes_length addr Ha) as Hal. unfold MULTI_PART in Hm. pose proof (Zlen_nonneg msg) as H0.
  unfold dword_ok in Hs. assert (u32 session = session) as Eu by (by apply u32_small).
  assert (Zlen (whole_body addr session msg) = 1 + Zlen (address_bytes addr) + 4 + Zlen msg) as Hl.
  { unfold whole_body. rewrite Zlen_cons, !Zlen_app, Zlen_dword. lia. }
  erewrite lunpack_kind by (done || lia). cbv zeta. rewrite Hl.
  unfold whole_body, whole_args. destruct addr as [| |z| |name| | | |]; try done; cbn [address_bytes kind_of address address_ok] in *.
  - rewrite bool_decide_eq_true_2 by done. unfold unpackreq_number. rewrite Zlen_dword, bool_decide_eq_false_2 by lia.
    set (B := 0 :: dword (u32 z) ++ dword session ++ msg).
    assert (unpack_uint32 B 1 = LRet (u32 (u32 z))) as -> by exact (unpack_dword [0] (u32 z) (dword session ++ msg) 1 eq_refl).
    assert (unpack_uint32 B 5 = LRet (u32 session)) as -> by exact (unpack_dword (0 :: dword (u32 z)) session msg 5 eq_refl).
    unfold return_buffer.
    assert (block_at B 9 (1 + 4 + 4 + Zlen msg - 9) = LRet msg) as ->.
    { pose proof (block_at_mid (0 :: dword (u32 z) ++ dword session) msg [] 9 (1 + 4 + 4 + Zlen msg - 9) eq_refl ltac:(lia)) as E.
      rewrite app_nil_r in E. exact E. }
    rewrite !LRet_bind, Eu, u32_small by (apply mod_range; lia). replace (1 + 4 + 4 + Zlen msg - 9) with (Zlen msg) by lia. done.
  - do 5 rewrite bool_decide_eq_false_2 by lia. rewrite bool_decide_eq_true_2 by done.
    rewrite u8_name in * by done. rewrite Zlen_cons.
    unfold unpackreq_string. rewrite bool_decide_eq_false_2 by lia.
    match goal with |- context [byte_of ?X 1] => set (B := X) end.
    assert (byte_of B 1 = LRet (Zlen name)) as -> by done. rewrite LRet_bind, bool_decide_eq_false_2 by lia.
    rewrite (block_at_mid [128; Zlen name] name (dword session ++ msg) 2 (Zlen name) eq_refl eq_refl : block_at B 2 (Zlen name) = _), LRet_bind.
    assert (unpack_uint32 B (Zlen name + 2) = LRet (u32 session)) as ->.
    { apply (unpack_dword (128 :: Zlen name :: name)). rewrite !Zlen_cons. lia. }
    unfold return_buffer.
    assert (block_at B (2 + Zlen name + 4) (1 + (1 + Zlen name) + 4 + Zlen msg - Zlen name - 6) = LRet msg) as ->.
    { pose proof (block_at_mid (128 :: Zlen name :: name ++ dword session) msg [] (2 + Zlen name + 4) (1 + (1 + Zlen name) + 4 + Zlen msg - Zlen name - 6)
        ltac:(rewrite !Zlen_cons, Zlen_app, Zlen_dword; lia) ltac:(lia)) as E.
      rewrite app_nil_r in E. cbn [app] in E. rewrite <- app_assoc in E. exact E. }
    rewrite !LRet_bind, Eu. replace (1 + (1 + Zlen name) + 4 + Zlen msg - Zlen name - 6) with (Zlen msg) by lia. done.
Qed.

Lemma unpack_first addr session size is_push : address_ok addr → dword_ok session → dword_ok size →
  lunpackrequest (pointer (first_body addr session size is_push)) = LRet (first_args addr session size is_push).
Proof.
  intros Ha Hs Hz. pose proof (address_bytes_length addr Ha) as Hal. unfold dword_ok in *.
  assert (Zlen (first_body addr session size is_push) = 9 + Zlen (address_bytes addr)) as Hl.
  { unfold first_body. rewrite Zlen_cons, !Zlen_app, !Zlen_dword. lia. }
  erewrite lunpack_kind by (done || lia). cbv zeta. rewrite Hl.
  unfold first_body, first_args. destruct addr as [| |z| |name| | | |]; try done; cbn [address_bytes kind_of address address_ok] in *.
  - assert (∀ B, B = (if is_push then 65 else 1) :: dword (u32 z) ++ dword session ++ dword size →
      unpackmreq_number B (9 + 4) is_push = LRet (first_args (VInt z) session size is_push)) as HB.
    { intros B ->. unfold unpackmreq_number. set (t := if is_push then 65 else 1).
      pose proof (unpack_dword [t] (u32 z) (dword session ++ dword size) 1 eq_refl) as E1.
      pose proof (unpack_dword (t :: dword (u32 z)) session (dword size) 5 eq_refl) as E2.
      pose proof (unpack_dword (t :: dword (u32 z) ++ dword session) size [] 9 eq_refl) as E3.
      rewrite app_nil_r in E3. cbn [app] in E1, E2, E3. rewrite <- app_assoc in E3.
      rewrite bool_decide_eq_false_2 by lia. rewrite E1, LRet_bind, E2, LRet_bind, E3, LRet_bind.
      rewrite (u32_small (u32 z)), (u32_small session), (u32_small size) by (try (apply mod_range); lia). done. }
    rewrite Zlen_dword. destruct is_push; by apply HB.
  - rewrite u8_name, Zlen_cons in * by done.
    assert (∀ B, B = (if is_push then 0xc1 else 0x81) :: Zlen name :: name ++ dword session ++ dword size →
      unpackmreq_string B (9 + (1 + Zlen name)) is_push = LRet (first_args (VString name) session size is_push)) as HB.
    { intros B ->. unfold unpackmreq_string. set (t := if is_push then 0xc1 else 0x81).
      assert (byte_of (t :: Zlen name :: name ++ dword session ++ dword size) 1 = LRet (Zlen name)) as -> by done.
      pose proof (block_at_mid [t; Zlen name] name (dword session ++ dword size) 2 (Zlen name) eq_refl eq_refl) as E1.
      pose proof (unpack_dword (t :: Zlen name :: name) session (dword size) (Zlen name + 2) ltac:(rewrite !Zlen_cons; lia)) as E2.
      pose proof (unpack_dword (t :: Zlen name :: name ++ dword session) size [] (Zlen name + 6)
        ltac:(rewrite !Zlen_cons, Zlen_app, Zlen_dword; lia)) as E3.
      rewrite app_nil_r in E3. cbn [app] in E1, E2, E3. rewrite <- app_assoc in E3.
      rewrite !bool_decide_eq_false_2, LRet_bind, bool_decide_eq_false_2 by lia.
      rewrite E1, LRet_bind, E2, LRet_bind, E3, LRet_bind. rewrite !u32_small by lia. done. }
    destruct is_push; by apply HB.
Qed.

Lemma unpack_part session last chunk : dword_ok session → Zlen chunk ≤ MULTI_PART →
  lunpackrequest (pointer (request_part session last chunk)) = LRet (part_args session last chunk).
Proof.
  unfold dword_ok, MULTI_PART. intros Hs Hc. pose proof (Zlen_nonneg chunk) as H0.
  assert (Zlen (request_part session last chunk) = 5 + Zlen chunk) as Hl.
  { unfold request_part. rewrite Zlen_cons, Zlen_app, Zlen_dword. lia. }
  assert (unpackmreq_part (request_part session last chunk) (5 + Zlen chunk) = LRet (part_args session last chunk)) as HB.
  { unfold unpackmreq_part, request_part. set (t := if last then 3 else 2). rewrite bool_decide_eq_false_2 by lia.
    assert (byte_of (t :: dword session ++ chunk) 0 = LRet t) as -> by done.
    pose proof (unpack_dword [t] session chunk 1 eq_refl) as E1. cbn [app] in E1.
    rewrite LRet_bind, E1, LRet_bind. unfold return_buffer.
    pose proof (block_at_mid (t :: dword session) chunk [] 5 (5 + Zlen chunk - 5) eq_refl ltac:(lia)) as E2.
    rewrite app_nil_r in E2. cbn [app] in E2. rewrite E2, !LRet_bind, u32_small by lia.
    replace (5 + Zlen chunk - 5) with (Zlen chunk) by lia. unfold part_args, t. by destruct last. }
  erewrite lunpack_kind by (done || lia). cbv zeta. rewrite Hl. by destruct last.
Qed.

(** ** The receiver *)
Lemma push_lstring_all s : push_lstring s (Zlen s) = LRet s.
Proof. by apply copy_block_all. Qed.

Lemma lappend_buffer t chunk : Zlen chunk < 2 ^ 31 →
  lappend t (Buffer chunk) (Val (VInt (Zlen chunk))) = LRet (t ++ [VString chunk]).
Proof.
  intros H. unfold lappend. pose proof (Zlen_nonneg chunk). by rewrite i32_small, push_lstring_all by lia.
Qed.

Lemma concat_loop_strings cs buff sz : Zlen buff + Zlen (mjoin cs) = sz →
  concat_loop (VString <$> cs) buff sz = Some (buff ++ mjoin cs).
Proof.
  revert buff. induction cs as [|c cs IH]; intros buff Hs; cbn [fmap list_fmap concat_loop].
  - change (Zlen (mjoin [])) with 0 in Hs. change (mjoin []) with (@nil Z). by rewrite bool_decide_eq_false_2, app_nil_r by lia.
  - rewrite mjoin_cons, Zlen_app in Hs. pose proof (Zlen_nonneg (mjoin cs)).
    rewrite bool_decide_eq_false_2 by lia. rewrite IH by (rewrite Zlen_app; lia). by rewrite mjoin_cons, app_assoc.
Qed.

Lemma lconcat_strings cs : Zlen (mjoin cs) < 2 ^ 31 → lconcat (VInt (Zlen (mjoin cs)) :: (VString <$> cs)) = LRet (Some (mjoin cs)).
Proof.
  intros H. unfold lconcat. cbn [is_number lua_tointeger]. pose proof (Zlen_nonneg (mjoin cs)).
  rewrite i32_small, bool_decide_eq_false_2 by lia. by rewrite concat_loop_strings.
Qed.

Lemma chunks_join n msg : cut n (Zlen msg) → mjoin (chunks n msg) = msg.
Proof.
  revert msg. induction n as [|n IH]; intros msg Hc.
  - unfold cut in Hc. cbn. symmetry. apply Zlen_0. pose proof (Zlen_nonneg msg). lia.
  - pose proof (cut_step_ok _ _ Hc) as [_ _ _ _ _ Hcut _]. cbn [chunks]. rewrite mjoin_cons, IH by done. apply take_drop.
Qed.

(** what a session was answered with *)
Definition answers (session : Z) (act : action) : bool :=
  match act with
  | Traced | Wait _ => false
  | Serve s _ _ _ | ServeName s _ _ _ | Query s _ | Invalid s | Refuse s => bool_decide (s = session)
  end.
Lemma answers_serve s s' addr msg push : answers s (serve s' addr msg push) = bool_decide (s' = s).
Proof.
  unfold serve. repeat case_match; done.
Qed.
Definition served (session : Z) (acts : list action) : list action := filter (λ act, answers session act) acts.

(** the session of a body, as the receiver reads it *)
Definition session_of (body : list Z) : option Z :=
  match lunpackrequest (pointer body) with
  | LRet args => match nth_value args 1 with VInt s => Some s | _ => None end
  | _ => None
  end.
Definition of_session (session : Z) (body : list Z) : bool := bool_decide (session_of body = Some session).

(** what the nodes of a cluster send *)
Inductive cluster_body : list Z → Prop :=
  | cb_whole addr session msg : address_ok addr → dword_ok session → Zlen msg < MULTI_PART →
      cluster_body (whole_body addr session msg)
  | cb_first addr session size is_push : address_ok addr → dword_ok session → 0 ≤ size < 2 ^ 31 →
      cluster_body (first_body addr session size is_push)
  | cb_part session last chunk : dword_ok session → Zlen chunk ≤ MULTI_PART →
      cluster_body (request_part session last chunk)
  | cb_trace tag : Zlen tag ≤ 0x8000 → cluster_body (4 :: tag).

(** the parts held start with no negative size *)
Definition large_ok (r : large) : Prop :=
  match l_parts r with VInt n :: _ => 0 ≤ n < 2 ^ 31 | VString _ :: _ => True | _ => False end.
Definition agent_ok (a : agent) : Prop := map_Forall (λ _, large_ok) (large_request a).

(** the step of the receiver for each kind of body *)
Definition open_large (a : agent) (s : Z) (addr push : value) : large :=
  default (Large addr push (tracetag a) []) (large_request a !! s).
Definition add_part (r : large) (v : value) : large := Large (l_addr r) (l_push r) (l_tag r) (l_parts r ++ [v]).

Lemma unpack_trace tag : Zlen tag ≤ 0x8000 → lunpackrequest (pointer (4 :: tag)) = LRet [Val (VString tag)].
Proof.
  intros H. pose proof (Zlen_nonneg tag). erewrite lunpack_kind by (done || (rewrite Zlen_cons; lia)).
  cbv zeta. unfold unpacktrace. do 4 rewrite bool_decide_eq_false_2 by lia. rewrite bool_decide_eq_true_2 by done.
  rewrite Zlen_cons. pose proof (block_at_mid [4] tag [] 1 (1 + Zlen tag - 1) eq_refl ltac:(lia)) as E.
  rewrite app_nil_r in E. cbn [app] in E. by rewrite E.
Qed.

Lemma receive_trace a tag : Zlen tag ≤ 0x8000 →
  receive a (4 :: tag) = LRet (Agent (large_request a) (Some tag), Traced).
Proof. intros H. unfold receive. fold (pointer (4 :: tag)). by rewrite unpack_trace. Qed.

Lemma receive_first a addr s size is_push : address_ok addr → dword_ok s → dword_ok size →
  receive a (first_body addr s size is_push) =
  LRet (Agent (<[s := add_part (open_large a s (address addr) (VBool is_push)) (VInt size)]> (large_request a)) None, Wait s).
Proof. intros. unfold receive. fold (pointer (first_body addr s size is_push)). by rewrite unpack_first. Qed.

Lemma receive_part a s chunk : dword_ok s → Zlen chunk ≤ MULTI_PART →
  receive a (request_part s false chunk) =
  LRet (Agent (<[s := add_part (open_large a s (VBool false) VNil) (VString chunk)]> (large_request a)) None, Wait s).
Proof.
  intros Hs Hc. unfold receive. fold (pointer (request_part s false chunk)). rewrite unpack_part, LRet_bind by done.
  unfold dispatch_request, part_args. unfold nth_value, nth_arg; cbn [nth negb truthy].
  unfold MULTI_PART in Hc. rewrite lappend_buffer by lia. done.
Qed.

Lemma receive_last a s chunk : dword_ok s → Zlen chunk ≤ MULTI_PART →
  receive a (request_part s true chunk) =
  match large_request a !! s with
  | Some req =>
      whole ← lconcat (l_parts req ++ [VString chunk]);
      match whole with
      | Some bytes => LRet (Agent (delete s (large_request a)) (l_tag req), serve s (l_addr req) bytes (truthy (l_push req)))
      | None => LRet (Agent (delete s (large_request a)) None, Refuse s)
      end
  | None => LRet (a, Invalid s)
  end.
Proof.
  intros Hs Hc. unfold receive. fold (pointer (request_part s true chunk)). rewrite unpack_part, LRet_bind by done.
  unfold dispatch_request, part_args. unfold nth_value, nth_arg; cbn [nth negb truthy].
  unfold MULTI_PART in Hc. destruct (large_request a !! s); [|done]. by rewrite lappend_buffer by lia.
Qed.

Lemma receive_whole a addr s msg : address_ok addr → dword_ok s → Zlen msg < MULTI_PART →
  receive a (whole_body addr s msg) =
  match large_request a !! s with
  | Some req =>
      whole ← lconcat (l_parts req ++ [VString msg]);
      match whole with
      | Some bytes => LRet (Agent (delete s (large_request a)) (l_tag req), serve s (l_addr req) bytes (truthy (l_push req)))
      | None => LRet (Agent (delete s (large_request a)) None, Refuse s)
      end
  | None => LRet (a, serve s (address addr) msg (bool_decide (s = 0)))
  end.
Proof.
  intros Ha Hs Hc. unfold receive. fold (pointer (whole_body addr s msg)). rewrite unpack_whole, LRet_bind by done.
  unfold dispatch_request, whole_args, push_mark. unfold MULTI_PART in Hc.
  case_bool_decide; unfold nth_value, nth_arg; cbn [nth negb truthy app];
    (destruct (large_request a !! s); [by rewrite lappend_buffer by lia|done]).
Qed.

(** ** The receiver keeps the sessions apart *)
Lemma lconcat_ok r v : large_ok r → ∃ whole, lconcat (l_parts r ++ [v]) = LRet whole.
Proof.
  unfold large_ok. destruct (l_parts r) as [|[] l]; try done; intros H; cbn [app lconcat is_number lua_tointeger]; [|eauto].
  rewrite i32_small, bool_decide_eq_false_2 by lia. eauto.
Qed.

Lemma open_large_ok a s addr push v : agent_ok a → (∀ n, v = VInt n → 0 ≤ n < 2 ^ 31) →
  (∃ n, v = VInt n) ∨ (∃ t, v = VString t) → large_ok (add_part (open_large a s addr push) v).
Proof.
  intros Ha Hv Hk. unfold open_large. destruct (large_request a !! s) as [r|] eqn:E; cbn [default].
  - specialize (Ha _ _ E). cbv beta in Ha. unfold large_ok, add_part in *. cbn [l_parts id]. by destruct (l_parts r) as [|[] l].
  - unfold large_ok, add_part. cbn. destruct Hk as [[n ->]|[t ->]]; [by apply Hv|done].
Qed.

(** one step: it succeeds, keeps the invariant, and leaves the other sessions alone *)
Lemma receive_step a body : agent_ok a → cluster_body body →
  ∃ a' act, receive a body = LRet (a', act) ∧ agent_ok a' ∧
    ∀ s, session_of body ≠ Some s → large_request a' !! s = large_request a !! s ∧ answers s act = false.
Proof.
  intros Ha Hb. destruct Hb as [addr s msg Had Hs Hm|addr s size is_push Had Hs Hz|s last chunk Hs Hc|tag Ht].
  - rewrite receive_whole by done. unfold session_of. rewrite unpack_whole by done. change (nth_value _ _) with (VInt s).
    destruct (large_request a !! s) as [r|] eqn:E.
    + destruct (lconcat_ok r (VString msg) (Ha _ _ E)) as [[bytes|] ->]; rewrite LRet_bind;
        (do 2 eexists; split; [done|]; split; [exact (map_Forall_delete _ _ _ Ha)|]; intros s' Hne;
         assert (s ≠ s') by congruence; cbn [large_request]; rewrite lookup_delete_ne by done; split; [done|]; rewrite ?answers_serve; cbn; by rewrite bool_decide_eq_false_2).
    + do 2 eexists. split; [done|]. split; [done|]. intros s' Hne. assert (s ≠ s') by congruence.
      split; [done|]. rewrite ?answers_serve. cbn. by rewrite bool_decide_eq_false_2.
  - rewrite receive_first by (unfold dword_ok in *; lia || done). unfold session_of.
    rewrite unpack_first by (unfold dword_ok in *; lia || done). change (nth_value _ _) with (VInt s).
    do 2 eexists. split; [done|]. split.
    + apply map_Forall_insert_2; [|exact Ha]. apply open_large_ok; [done| |eauto]. intros n [= <-]. done.
    + intros s' Hne. assert (s ≠ s') by congruence. cbn [large_request]. by rewrite lookup_insert_ne.
  - unfold session_of. rewrite unpack_part by done. change (nth_value _ _) with (VInt s). destruct last.
    + rewrite receive_last by done. destruct (large_request a !! s) as [r|] eqn:E.
      * destruct (lconcat_ok r (VString chunk) (Ha _ _ E)) as [[bytes|] ->]; rewrite LRet_bind;
        (do 2 eexists; split; [done|]; split; [exact (map_Forall_delete _ _ _ Ha)|]; intros s' Hne;
         assert (s ≠ s') by congruence; cbn [large_request]; rewrite lookup_delete_ne by done; split; [done|]; rewrite ?answers_serve; cbn; by rewrite bool_decide_eq_false_2).
      * do 2 eexists. split; [done|]. split; [done|]. intros s' Hne. assert (s ≠ s') by congruence.
        split; [done|]. rewrite ?answers_serve. cbn. by rewrite bool_decide_eq_false_2.
    + rewrite receive_part by done. do 2 eexists. split; [done|]. split.
      * apply map_Forall_insert_2; [|exact Ha]. apply open_large_ok; [done|done|eauto].
      * intros s' Hne. assert (s ≠ s') by congruence. cbn [large_request]. by rewrite lookup_insert_ne.
  - rewrite receive_trace by done. eauto 10.
Qed.

Lemma receive_all_cons a body l a1 act : receive a body = LRet (a1, act) →
  receive_all a (body :: l) = ('(a2, acts) ← receive_all a1 l; LRet (a2, act :: acts)).
Proof. intros E. cbn [receive_all]. by rewrite E. Qed.

Lemma served_cons s act acts : served s (act :: acts) = if answers s act then act :: served s acts else served s acts.
Proof. unfold served. rewrite filter_cons. by destruct (answers s act). Qed.

(** what became of session [s] while a stream was received *)
Definition outcome_of (a : agent) (l : list (list Z)) (s : Z) (r : option large) (acts : list action) : Prop :=
  ∃ a' all, receive_all a l = LRet (a', all) ∧ large_request a' !! s = r ∧ served s all = acts.

Lemma outcome_cons a body l s r acts a1 act : receive a body = LRet (a1, act) → outcome_of a1 l s r acts →
  outcome_of a (body :: l) s r (if answers s act then act :: acts else acts).
Proof.
  intros E (a' & all & El & Hr & Ha). exists a', (act :: all). rewrite (receive_all_cons _ _ _ _ _ E), El.
  split; [done|]. split; [done|]. by rewrite served_cons, Ha.
Qed.

(** induction on a stream: a body of another session changes nothing for [s] *)
Lemma stream_ind s (P : list (list Z) → option large → option large → list action → Prop) :
  (∀ r, P [] r r []) →
  (∀ a a1 act body rest r acts, receive a body = LRet (a1, act) → P rest (large_request a1 !! s) r acts →
     P (body :: rest) (large_request a !! s) r (if answers s act then act :: acts else acts)) →
  ∀ l a, agent_ok a → Forall cluster_body l →
    ∃ r acts, P (filter (λ b, of_session s b) l) (large_request a !! s) r acts ∧ outcome_of a l s r acts.
Proof.
  intros H0 Hstep l. induction l as [|body l IH]; intros a Ha Hl.
  - exists (large_request a !! s), []. split; [apply H0|]. by exists a, [].
  - apply Forall_cons in Hl as [Hb Hl]. rewrite filter_cons.
    destruct (receive_step a body Ha Hb) as (a1 & act & E & Ha1 & Hs).
    destruct (IH a1 Ha1 Hl) as (r & acts & HP & Ho). pose proof (outcome_cons _ _ _ _ _ _ _ _ E Ho) as Ho'.
    destruct (of_session s body) eqn:Eb.
    + rewrite decide_True by done. eauto.
    + rewrite decide_False by auto. destruct (Hs s) as [Hr Hact]. { intros Es. apply bool_decide_eq_false in Eb. done. }
      rewrite Hact in Ho'. rewrite Hr in HP. eauto.
Qed.

(** the progress of one request through the stream: [whole] is served at its end *)
Inductive request_state (s : Z) (addr : value) (push : bool) (msg : list Z) : list (list Z) → option large → Prop :=
  | rs_whole : address_ok addr → Zlen msg < MULTI_PART → push = bool_decide (s = 0) →
      request_state s addr push msg [whole_body addr s msg] None
  | rs_first cs : address_ok addr → msg = mjoin cs → cs ≠ [] → Forall (λ c, Zlen c ≤ MULTI_PART) cs →
      request_state s addr push msg (first_body addr s (Zlen msg) push :: part_list (request_part s) cs) None
  | rs_parts tag passed cs : msg = mjoin (passed ++ cs) → cs ≠ [] → Forall (λ c, Zlen c ≤ MULTI_PART) cs →
      request_state s addr push msg (part_list (request_part s) cs)
        (Some (Large (address addr) (VBool push) tag (VInt (Zlen msg) :: (VString <$> passed)))).

Lemma request_state_served s addr push msg l a :
  dword_ok s → Zlen msg < 2 ^ 31 → agent_ok a → Forall cluster_body l →
  request_state s addr push msg (filter (λ b, of_session s b) l) (large_request a !! s) →
  outcome_of a l s None [serve s (address addr) msg push].
Proof.
  intros Hs Hm Ha Hl Hst. pose proof (Zlen_nonneg msg) as Hm0.
  destruct (stream_ind s (λ rest r0 r acts,
     (rest = [] → r = r0 ∧ acts = []) ∧
     (request_state s addr push msg rest r0 → r = None ∧ acts = [serve s (address addr) msg push])))
    with (l := l) (a := a) as (r & acts & [_ HP] & Ho); [| |done|done|].
  - intros r. split; [done|]. intros H. inversion H; subst. destruct cs as [|? []]; done.
  - intros a0 a1 act body rest r acts E [IH0 IH1]. split; [done|].
    assert (answers s (serve s (address addr) msg push) = true) as Hans by (by rewrite answers_serve, bool_decide_eq_true_2).
    intros H. inversion H as [Had Hlen Hpush Hb Hr|cs Had Hmsg Hne Hcs Hb Hr|tag passed cs Hmsg Hne Hcs Hb Hr]; subst.
    + rewrite receive_whole, <- Hr in E by done. injection E as <- <-. destruct (IH0 eq_refl) as [-> ->].
      by rewrite Hans.
    + rewrite receive_first in E by (done || (unfold dword_ok; lia)). injection E as <- <-. apply IH1.
      cbn [large_request answers]. rewrite lookup_insert_eq. unfold open_large. rewrite <- Hr.
      apply (rs_parts s addr push (mjoin cs) _ [] cs); done.
    + assert (∃ c cs', cs = c :: cs') as (c & cs' & ->) by (destruct cs; [done|eauto]).
      apply Forall_cons in Hcs as [Hc Hcs]. destruct cs' as [|d cs'].
      * cbn [part_list] in Hb. injection Hb as <- <-. rewrite receive_last, <- Hr in E by done. cbn [l_parts l_addr l_push l_tag] in E.
        pose proof (lconcat_strings (passed ++ [c]) Hm) as Ej. rewrite fmap_app in Ej.
        change (VInt ?n :: ?x ++ ?y) with ((VInt n :: x) ++ y) in Ej. cbn [fmap list_fmap] in Ej.
        assert (truthy (VBool push) = push) as Ht by (by destruct push).
        rewrite Ej, LRet_bind, Ht in E. injection E as <- <-. destruct (IH0 eq_refl) as [-> ->].
        rewrite Hans. cbn [large_request]. by rewrite lookup_delete_eq.
      * change (part_list (request_part s) (c :: d :: cs')) with
          (request_part s false c :: part_list (request_part s) (d :: cs')) in Hb. injection Hb as <- <-.
        rewrite receive_part in E by done. injection E as <- <-. apply IH1. cbn [large_request answers].
        rewrite lookup_insert_eq. unfold open_large. rewrite <- Hr.
        pose proof (rs_parts s addr push (mjoin (passed ++ c :: d :: cs')) tag (passed ++ [c]) (d :: cs')) as Hp.
        rewrite <- app_assoc, fmap_app in Hp. by apply Hp.
  - by destruct (HP Hst) as [-> ->].
Qed.

(** ** The theorems *)
Definition request_session (session : Z) (msg : list Z) (is_push : bool) : Z :=
  if is_push && bool_decide (Zlen msg < MULTI_PART) then 0 else session.

(** C26. The frames packrequest makes of a message are packets of the packet filter,
    and when they arrive among other messages of the cluster, in their order, the
    receiver serves the address once with the message, as a push or a request,
    and forgets the parts; the message is freed once. [s] is the session on the
    wire, 0 for a push of one frame. To serve an address is to give the message
    to the service with this handle, or to that with this name if it begins with
    @; address 0 is the question for the address of a name. *)
Theorem cluster_request_delivered buf buf2 addr session msg is_push a stream :
  stack_array buf → stack_array buf2 → address_ok addr → 0 < session < 2 ^ 31 → Zlen msg < 2 ^ 31 →
  let bodies := request_bodies addr session msg is_push in
  let s := request_session session msg is_push in
  agent_ok a → large_request a !! s = None →
  Forall cluster_body stream → filter (λ b, of_session s b) stream = bodies →
  (∃ request parts,
    packrequest buf buf2 addr session (Some msg) (Zlen msg) is_push =
      Run 1 (LRet (request, next_session session, parts)) ∧
    unpacked (request ++ mjoin (default [] parts)) = (bodies, [])) ∧
  outcome_of a stream s None [serve s (address addr) msg is_push].
Proof.
  intros Hb Hb2 Had Hs Hm bodies s Ha Hnone Hst Hf. pose proof (Zlen_nonneg msg).
  assert (bodies ≠ []) as Hne by (unfold bodies, request_bodies; by case_bool_decide).
  split.
  - rewrite packrequest_spec by (done || lia). fold bodies.
    pose proof (unpacked_frames bodies (request_bodies_ok addr session msg is_push Had)) as Hu.
    destruct bodies as [|b [|b2 bs]]; [done|..]; cbn [fmap list_fmap split_frames]; do 2 eexists; (split; [done|]); exact Hu.
  - apply request_state_served; [|lia|done|done|].
    { unfold s, request_session, dword_ok. destruct (is_push && _); lia. }
    rewrite Hf, Hnone. unfold bodies, s, request_session, request_bodies. case_bool_decide as Hw.
    + rewrite andb_true_r. destruct is_push; apply rs_whole; try done. by rewrite bool_decide_eq_false_2 by lia.
    + rewrite andb_false_r. apply rs_first; [done| | |apply chunks_bounded].
      * rewrite chunks_join; [done|]. apply cut_parts. unfold MULTI_PART in *. lia.
      * pose proof (parts_positive (Zlen msg) ltac:(unfold MULTI_PART in *; lia)).
        pose proof (chunks_length (n_parts (Zlen msg)) msg) as Hl. unfold n_parts in *. intros E. rewrite E in Hl. cbn in Hl. lia.
Qed.
