(* ===== verification/ClusterReply.v ===== *)
(** * Cluster messages: the responses, from their packing to the request that waits *)
From S2P Require Import Prelude CLib CNum Bytes DataBuffer NetPack NetPackSpec LuaValue Cluster ClusterSpec.
From Stdlib Require Import String.
#[local] Open Scope Z_scope.

Definition whole_response (session : Z) (ok : bool) (msg : list Z) : list Z :=
  dword session ++ (if ok then 1 else 0) :: msg.
Definition first_response (session size : Z) : list Z := dword session ++ 2 :: dword size.

(** the text of an error is cut *)
Definition response_text (ok : bool) (msg : list Z) : list Z :=
  if ok then msg else take (Z.to_nat MULTI_PART) msg.
Definition response_bodies (session : Z) (ok : bool) (msg : list Z) : list (list Z) :=
  let text := response_text ok msg in
  if bool_decide (Zlen text ≤ MULTI_PART) then [whole_response session ok text]
  else first_response session (Zlen text) :: part_list (response_part session) (chunks (n_parts (Zlen text)) text).
Definition frames_of (r : response) : list (list Z) := match r with One s => [s] | Many ss => ss end.
Definition message_bytes (m : lua_message) : list Z := match m with MString s => s | MPointer block _ => block end.
Definition message_ok (m : lua_message) : Prop := match m with MString _ => True | MPointer block sz => sz = Zlen block end.

Lemma Zlen_take_le {A} n (l : list A) : 0 ≤ n → Zlen (take (Z.to_nat n) l) = Z.min n (Zlen l).
Proof. intros. unfold Zlen. rewrite length_take. lia. Qed.

Lemma response_text_length ok msg : bool_decide (Zlen (response_text ok msg) ≤ MULTI_PART) =
  negb (ok && bool_decide (MULTI_PART < Zlen msg)).
Proof.
  unfold response_text. destruct ok; cbn [andb].
  - repeat case_bool_decide; try done; lia.
  - rewrite Zlen_take_le by done. apply bool_decide_eq_true_2. lia.
Qed.

Lemma lpackresponse_spec buf buf2 session ok m : stack_array buf → stack_array buf2 → message_ok m →
  0 ≤ session < 2 ^ 32 → Zlen (message_bytes m) < 2 ^ 32 →
  ∃ r, lpackresponse buf buf2 session ok m = LRet r ∧ frames_of r = frame <$> response_bodies session ok (message_bytes m).
Proof.
  intros Hb Hb2 Hm Hs Hl. unfold lpackresponse. set (p := match m with MString s => _ | MPointer block sz => _ end).
  pose proof (Zlen_nonneg (message_bytes m)) as H0.
  assert (p = (message_bytes m, Zlen (message_bytes m))) as ->.
  { unfold p. destruct m; cbn in *; [done|]. subst. unfold u64. by rewrite Z.mod_small by lia. }
  cbv beta iota zeta. rewrite u32_small by done. set (msg := message_bytes m) in *. clearbody msg.
  unfold response_bodies. rewrite response_text_length. destruct (ok && _) eqn:Eo; cbn [negb].
  - apply andb_true_iff in Eo as [-> Eo%bool_decide_eq_true]. cbn [response_text].
    header H1. next_field H1. next_field H1. next_field H1. pushed H1.
    rewrite u32_small by lia.
    assert ((Zlen msg - 1) / MULTI_PART + 1 = parts (Zlen msg)) as ->.
    { unfold parts. unfold MULTI_PART in Eo. by rewrite u32_small by lia. }
    unfold MULTI_PART in Eo.
    rewrite packresponse_parts_spec by (try apply H1; try apply cut_parts; lia || done).
    by eexists.
  - assert (Zlen (response_text ok msg) = if bool_decide (MULTI_PART < Zlen msg) then MULTI_PART else Zlen msg) as Ht.
    { unfold response_text. destruct ok; [by cbn in Eo; rewrite Eo|]. rewrite Zlen_take_le by done.
      case_bool_decide; lia. }
    rewrite <- Ht. set (text := response_text ok msg) in *.
    assert (Zlen text ≤ MULTI_PART) as Hle by (rewrite Ht; case_bool_decide; lia). pose proof (Zlen_nonneg text).
    assert (copy_block msg (Zlen text) = LRet text) as Hrd.
    { unfold text, response_text in *. destruct ok; [by apply copy_block_all|].
      rewrite copy_block_ok by (rewrite Zlen_take_le in *; lia). f_equal. unfold Zlen. rewrite Nat2Z.id. apply take_prefix. }
    header H1. next_field H1. next_field H1. rewrite Hrd, LRet_bind. next_field H1. pushed H1.
    eexists. split; [done|]. cbn [frames_of fmap list_fmap]. f_equal.
    rewrite <- !app_assoc. unfold whole_response. apply word_frame. lens.
Qed.

(** ** Reading them *)
Lemma unpack_response session t data : dword_ok session → lunpackresponse (dword session ++ t :: data) =
  if bool_decide (t = 0) then LRet [VInt session; VBool false; VString data]
  else if bool_decide (t = 1 ∨ t = 4) then LRet [VInt session; VBool true; VString data]
  else if bool_decide (t = 2) then
    if bool_decide (Zlen data ≠ 4) then LRet []
    else size ← unpack_uint32 (dword session ++ t :: data ++ [0]) 5; LRet [VInt session; VBool true; VInt size; VBool true]
  else if bool_decide (t = 3) then LRet [VInt session; VBool true; VString data; VBool true]
  else LRet [].
Proof.
  intros Hs. unfold lunpackresponse. cbv zeta. pose proof (Zlen_nonneg data). rewrite Zlen_app, Zlen_dword, Zlen_cons.
  rewrite bool_decide_eq_false_2 by lia. rewrite <- app_assoc. cbn [app].
  pose proof (unpack_dword [] session (t :: data ++ [0]) 0 eq_refl) as E1. rewrite app_nil_l in E1.
  rewrite E1, LRet_bind, u32_small by done. clear E1.
  assert (byte_of (dword session ++ t :: data ++ [0]) 4 = LRet t) as -> by exact (byte_of_app (dword session) t (data ++ [0])).
  rewrite LRet_bind. replace (4 + (1 + Zlen data) - 5) with (Zlen data) by lia.
  pose proof (block_at_mid (dword session ++ [t]) data [0] 5 (Zlen data) eq_refl eq_refl) as E2.
  rewrite <- app_assoc in E2. cbn [app] in E2. rewrite E2, LRet_bind.
  replace (bool_decide (4 + (1 + Zlen data) ≠ 9)) with (bool_decide (Zlen data ≠ 4)) by (apply bool_decide_ext; lia).
  done.
Qed.

(** what the channel gets for each body *)
Definition response_kind (body : list Z) (session : Z) (ok : bool) (data : value) (padding : bool) : Prop :=
  ∃ more, lunpackresponse body = LRet (VInt session :: VBool ok :: data :: more) ∧
    match more with v :: _ => truthy v | [] => false end = padding.

Lemma kind_whole session ok msg : dword_ok session →
  response_kind (whole_response session ok msg) session ok (VString msg) false.
Proof. intros Hs. exists []. unfold whole_response. rewrite unpack_response by done. by destruct ok. Qed.

Lemma kind_first session size : dword_ok session → dword_ok size →
  response_kind (first_response session size) session true (VInt size) true.
Proof.
  intros Hs Hz. exists [VBool true]. unfold first_response. rewrite unpack_response by done. split; [|done].
  do 2 rewrite bool_decide_eq_false_2 by lia. rewrite bool_decide_eq_true_2, bool_decide_eq_false_2 by (done || (rewrite Zlen_dword; lia)).
  assert (unpack_uint32 (dword session ++ 2 :: dword size ++ [0]) 5 = LRet (u32 size)) as ->
    by exact (unpack_dword (dword session ++ [2]) size [0] 5 eq_refl).
  by rewrite u32_small.
Qed.

Lemma kind_part session last chunk : dword_ok session →
  response_kind (response_part session last chunk) session true (VString chunk) (negb last).
Proof.
  intros Hs. exists (if last then [] else [VBool true]). unfold response_part. rewrite unpack_response by done. by destruct last.
Qed.

(** ** The channel keeps the sessions apart *)
Definition kind (body : list Z) : option (Z * bool * value * bool) :=
  match lunpackresponse body with
  | LRet (VInt session :: VBool ok :: data :: more) =>
      Some (session, ok, data, match more with v :: _ => truthy v | [] => false end)
  | _ => None
  end.
Lemma kind_spec body session ok data padding : response_kind body session ok data padding →
  kind body = Some (session, ok, data, padding).
Proof. intros (more & E & <-). unfold kind. by rewrite E. Qed.

Definition answers_to (session : Z) (body : list Z) : bool :=
  match kind body with Some (s, _, _, _) => bool_decide (s = session) | None => false end.

(** what the channel holds for a session *)
Record view : Type := View { v_waits : bool; v_data : option (list value); v_done : option (bool * result) }.
Definition view_of (c : channel) (s : Z) : view :=
  View (bool_decide (s ∈ thread c)) (result_data c !! s) (finished c !! s).
Definition view_step (v : view) (body : list Z) : view :=
  match kind body with
  | Some (_, ok, data, padding) =>
      if v_waits v then
        if padding && ok then View true (Some (default [] (v_data v) ++ [data])) (v_done v)
        else View false None (Some (ok, match v_data v with
                                        | Some l => if ok then Parts (l ++ [data]) else Whole data
                                        | None => Whole data end))
      else v
  | None => v
  end.

Lemma read_step c body : is_Some (kind body) → ∃ c', read_response c body = LRet (Some c') ∧
  ∀ s, view_of c' s = if answers_to s body then view_step (view_of c s) body else view_of c s.
Proof.
  intros [[[[s ok] data] padding] Hk]. unfold read_response, answers_to, view_step. rewrite Hk.
  unfold kind in Hk. destruct (lunpackresponse body) as [[|[] [|[] [|d more]]]| | |]; try discriminate Hk.
  injection Hk as -> -> -> Hp. rewrite LRet_bind. cbn [dispatch_by_session].
  set (p := match more with [] => false | v :: _ => truthy v end) in *. rewrite Hp. clear Hp.
  destruct (decide (s ∈ thread c)) as [Hin|Hout].
  - destruct (padding && ok); (eexists; split; [done|]); intros s'; unfold view_of;
      cbn [thread result_data finished v_waits v_data v_done]; (destruct (decide (s = s')) as [<-|Hne];
      [rewrite (bool_decide_eq_true_2 (s = s)), (bool_decide_eq_true_2 (s ∈ thread c)) by done
      |rewrite (bool_decide_eq_false_2 (s = s')) by done]).
    + by rewrite lookup_insert_eq.
    + by rewrite lookup_insert_ne.
    + rewrite lookup_insert_eq, lookup_delete_eq. rewrite bool_decide_eq_false_2 by set_solver. done.
    + rewrite lookup_insert_ne, lookup_delete_ne by done. f_equal. apply bool_decide_ext. set_solver.
  - eexists. split; [done|]. intros s'. case_bool_decide as Es; [subst s'|done].
    unfold view_of. cbn [v_waits]. by rewrite (bool_decide_eq_false_2 (s ∈ thread c)).
Qed.

Lemma read_stream s stream c : Forall (λ body, is_Some (kind body)) stream →
  ∃ c', read_responses c stream = LRet (Some c') ∧
    view_of c' s = foldl view_step (view_of c s) (filter (λ b, answers_to s b) stream).
Proof.
  intros Hk. revert c. induction Hk as [|body stream Hb Hs IH]; intros c; [by exists c|].
  destruct (read_step c body Hb) as (c1 & E & Hv). destruct (IH c1) as (c2 & E2 & Hv2).
  exists c2. cbn [read_responses]. rewrite E, LRet_bind. split; [done|]. rewrite Hv2, Hv, filter_cons.
  destruct (answers_to s body); [by rewrite decide_True|by rewrite decide_False by auto].
Qed.

(** the parts of a response add up *)
Lemma view_parts session cs l f : dword_ok session → cs ≠ [] →
  foldl view_step (View true (Some l) f) (part_list (response_part session) cs) =
  View false None (Some (true, Parts (l ++ (VString <$> cs)))).
Proof.
  intros Hs. revert l. induction cs as [|c [|d cs] IH]; intros l Hne; [done|..].
  - cbn [part_list foldl]. unfold view_step. by rewrite (kind_spec _ _ _ _ _ (kind_part session true c Hs)).
  - change (part_list (response_part session) (c :: d :: cs)) with
      (response_part session false c :: part_list (response_part session) (d :: cs)). cbn [foldl].
    unfold view_step at 2. rewrite (kind_spec _ _ _ _ _ (kind_part session false c Hs)).
    cbn [v_waits v_data v_done negb andb default id]. rewrite IH by done. by rewrite <- app_assoc.
Qed.

(** C27. The frames lpackresponse makes of a result, or of the first 32K of an error,
    are packets, and when they arrive among other responses, in their order, the
    request that waits for the session ends with that result. *)
Theorem cluster_response_delivered buf buf2 session ok m c stream :
  stack_array buf → stack_array buf2 → message_ok m → 0 ≤ session < 2 ^ 32 → Zlen (message_bytes m) < 2 ^ 31 →
  let bodies := response_bodies session ok (message_bytes m) in
  session ∈ thread c → result_data c !! session = None →
  Forall (λ body, is_Some (kind body)) stream → filter (λ b, answers_to session b) stream = bodies →
  (∃ r, lpackresponse buf buf2 session ok m = LRet r ∧ unpacked (mjoin (frames_of r)) = (bodies, [])) ∧
  ∃ c' r, read_responses c stream = LRet (Some c') ∧ (session ∉ thread c') ∧
    finished c' !! session = Some (ok, r) ∧ response_value r = LRet (Some (response_text ok (message_bytes m))).
Proof.
  intros Hb Hb2 Hm Hs Hl bodies Hin Hnone Hk Hf. set (msg := message_bytes m) in *.
  assert (dword_ok session) as Hd by done.
  assert (Zlen (response_text ok msg) ≤ Zlen msg) as Htl.
  { unfold response_text. destruct ok; [done|]. rewrite Zlen_take_le by done. lia. }
  pose proof (Zlen_nonneg (response_text ok msg)) as Ht0. split.
  - destruct (lpackresponse_spec buf buf2 session ok m) as (r & E & Hr); [done..|fold msg; lia|].
    exists r. split; [done|]. rewrite Hr. apply unpacked_frames. unfold bodies, response_bodies.
    case_bool_decide as Hc.
    + constructor; [|by apply Forall_nil]. unfold body_ok, whole_response, MULTI_PART in *.
      rewrite Zlen_app, Zlen_cons, Zlen_dword. lia.
    + constructor; [done|]. eapply part_list_Forall; [|apply chunks_bounded]. intros b ch Hch. cbv beta in Hch.
      unfold body_ok, response_part, MULTI_PART in *. rewrite Zlen_app, Zlen_cons, Zlen_dword. lia.
  - destruct (read_stream session stream c Hk) as (c' & E & Hv). exists c'.
    assert (view_of c session = View true None (finished c !! session)) as Hv0.
    { unfold view_of. by rewrite bool_decide_eq_true_2, Hnone. }
    rewrite Hf, Hv0 in Hv. clear Hv0.
    assert (∃ r, view_of c' session = View false None (Some (ok, r)) ∧
      response_value r = LRet (Some (response_text ok msg))) as (r & Hr & Hval).
    { rewrite Hv. unfold bodies, response_bodies. case_bool_decide as Hc.
      - cbn [foldl]. unfold view_step. rewrite (kind_spec _ _ _ _ _ (kind_whole session ok _ Hd)). by eexists.
      - destruct ok; [|exfalso; apply Hc; unfold response_text; rewrite Zlen_take_le by done; lia].
        cbn [response_text] in *. cbn [foldl]. unfold view_step at 2.
        rewrite (kind_spec _ _ _ _ _ (kind_first session (Zlen msg) Hd ltac:(unfold dword_ok; lia))).
        cbn [v_waits v_data v_done andb default app].
        assert (cut (n_parts (Zlen msg)) (Zlen msg)) as Hcut by (apply cut_parts; unfold MULTI_PART in *; lia).
        rewrite view_parts; [|done|].
        + eexists. split; [done|]. cbn [response_value app].
          pose proof (lconcat_strings (chunks (n_parts (Zlen msg)) msg)) as Ej. rewrite chunks_join in Ej by done. by apply Ej.
        + pose proof (parts_positive (Zlen msg) ltac:(unfold MULTI_PART in *; lia)).
          pose proof (chunks_length (n_parts (Zlen msg)) msg) as Hcl. unfold n_parts in *. intros En. rewrite En in Hcl. cbn in Hcl. lia. }
    exists r. unfold view_of in Hr. injection Hr as Hw Hdata Hfin. apply bool_decide_eq_false in Hw. done.
Qed.

(** ** Any bytes *)
Definition defined {A} (m : lua A) : Prop := (∃ a, m = LRet a) ∨ (∃ e, m = LError e).
Definition reads_all (buf : list Z) : Prop := Forall byte buf.

Lemma defined_bind {A B} (m : lua A) (f : A → lua B) : (∃ a, m = LRet a) → (∀ a, m = LRet a → defined (f a)) → defined (m ≫= f).
Proof. intros [a E] H. rewrite E. by apply H. Qed.
Lemma defined_ret {A} (a : A) : defined (LRet a).
Proof. left. eauto. Qed.
Lemma defined_error {A} e : defined (@LError A e).
Proof. right. eauto. Qed.
Lemma byte_of_ok buf i : reads_all buf → 0 ≤ i < Zlen buf → ∃ b, byte_of buf i = LRet b ∧ byte b.
Proof.
  intros Hb Hi. destruct (get_idx_ok buf i Hi) as (b & E & Hl). exists b. unfold byte_of. rewrite E. split; [done|].
  unfold reads_all in Hb. rewrite Forall_forall in Hb. apply Hb. by apply (list_elem_of_lookup_2 _ (Z.to_nat i)).
Qed.
Lemma byte_of_some buf i : 0 ≤ i < Zlen buf → ∃ b, byte_of buf i = LRet b.
Proof. intros Hi. destruct (get_idx_ok buf i Hi) as (b & E & _). exists b. unfold byte_of. by rewrite E. Qed.
Lemma unpack_uint32_ok buf i : 0 ≤ i → i + 4 ≤ Zlen buf → ∃ n, unpack_uint32 buf i = LRet n.
Proof.
  intros H0 H1. unfold unpack_uint32.
  destruct (byte_of_some buf i) as [a ->]; [lia|]. destruct (byte_of_some buf (i + 1)) as [b ->]; [lia|].
  destruct (byte_of_some buf (i + 2)) as [c ->]; [lia|]. destruct (byte_of_some buf (i + 3)) as [d ->]; [lia|]. by eexists.
Qed.
Lemma block_at_ok buf off sz : 0 ≤ off → 0 ≤ sz → off + sz ≤ Zlen buf → ∃ l, block_at buf off sz = LRet l.
Proof. intros. unfold block_at. rewrite bool_decide_eq_true_2 by lia. by eexists. Qed.
Lemma return_buffer_ok buf off sz : 0 ≤ off → 0 ≤ sz → off + sz ≤ Zlen buf → ∃ l, return_buffer buf off sz = LRet l.
Proof. intros. unfold return_buffer. destruct (block_at_ok buf off sz) as [l ->]; [done..|]. by eexists. Qed.

Ltac read_ok :=
  repeat first
    [ apply defined_ret | apply defined_error
    | apply defined_bind; [first [apply byte_of_some | apply unpack_uint32_ok | apply block_at_ok | apply return_buffer_ok]; lia|intros ? _] ].

Lemma unpackreq_defined buf sz push : reads_all buf → sz ≤ Zlen buf → 1 ≤ sz →
  defined (unpackreq_number buf sz) ∧ defined (unpackmreq_number buf sz push) ∧ defined (unpackmreq_part buf sz) ∧
  defined (unpacktrace buf sz) ∧ defined (unpackreq_string buf sz) ∧ defined (unpackmreq_string buf sz push).
Proof.
  intros Hb Hs H1. split_and!.
  - unfold unpackreq_number. case_bool_decide; read_ok.
  - unfold unpackmreq_number. case_bool_decide; read_ok.
  - unfold unpackmreq_part. case_bool_decide; read_ok.
  - unfold unpacktrace. read_ok.
  - unfold unpackreq_string. case_bool_decide; [read_ok|].
    destruct (byte_of_ok buf 1 Hb ltac:(lia)) as (n & -> & Hn). unfold byte in Hn. rewrite LRet_bind. case_bool_decide; read_ok.
  - unfold unpackmreq_string. case_bool_decide; [read_ok|].
    destruct (byte_of_ok buf 1 Hb ltac:(lia)) as (n & -> & Hn). unfold byte in Hn. rewrite LRet_bind. case_bool_decide; read_ok.
Qed.

(** what can be read: a string, or a block of at least one byte *)
Definition readable (m : lua_message) : Prop :=
  match m with
  | MString s => reads_all s ∧ Zlen s < 2 ^ 31
  | MPointer block sz => reads_all block ∧ 1 ≤ sz ≤ Zlen block ∧ sz < 2 ^ 31
  end.

Lemma lunpackrequest_defined m : readable m → defined (lunpackrequest m).
Proof.
  assert (∀ buf sz, reads_all buf → sz < Zlen buf ∨ 1 ≤ sz ≤ Zlen buf → 0 ≤ sz → (sz = 0 → buf = [0]) →
    ∀ t, byte_of buf 0 = LRet t →
    defined (if bool_decide (t = 0) then unpackreq_number buf sz
      else if bool_decide (t = 1) then unpackmreq_number buf sz false
      else if bool_decide (t = 0x41) then unpackmreq_number buf sz true
      else if bool_decide (t = 2 ∨ t = 3) then unpackmreq_part buf sz
      else if bool_decide (t = 4) then unpacktrace buf sz
      else if bool_decide (t = 0x80) then unpackreq_string buf sz
      else if bool_decide (t = 0x81) then unpackmreq_string buf sz false
      else if bool_decide (t = 0xc1) then unpackmreq_string buf sz true
      else LError (Message ("Invalid req package type " +:+ fmt_d (signed_char t))))) as H.
  { intros buf sz Hb Hs H0 Hz t Ht. destruct (decide (sz = 0)) as [->|Hne].
    - rewrite (Hz eq_refl) in Ht. injection Ht as <-. rewrite bool_decide_eq_true_2 by done. apply defined_error.
    - destruct (unpackreq_defined buf sz false Hb) as (D1 & D2 & D3 & D4 & D5 & D6); [lia..|].
      destruct (unpackreq_defined buf sz true Hb) as (_ & D2' & _ & _ & _ & D6'); [lia..|].
      repeat (case_bool_decide; [done|]). apply defined_error. }
  intros Hm. unfold lunpackrequest. destruct m as [s|block sz]; cbn [readable] in Hm.
  - destruct Hm as [Hb Hl]. pose proof (Zlen_nonneg s). rewrite i32_small by lia.
    assert (reads_all (s ++ [0])) as Hb' by (apply Forall_app; split; [done|]; repeat constructor; done).
    destruct (byte_of_some (s ++ [0]) 0) as [t Et]; [rewrite Zlen_app; change (Zlen [0]) with 1; lia|].
    rewrite Et, LRet_bind. apply (H (s ++ [0]) (Zlen s)); try done.
    + rewrite Zlen_app. change (Zlen [0]) with 1. lia.
    + intros E%Zlen_0. by subst.
  - destruct Hm as (Hb & Hs & Hl). rewrite i32_small by lia.
    destruct (byte_of_some block 0) as [t Et]; [lia|]. rewrite Et, LRet_bind. apply (H block sz); try done; lia.
Qed.

Lemma lunpackresponse_defined s : ∃ vs, lunpackresponse s = LRet vs.
Proof.
  unfold lunpackresponse. cbv zeta. case_bool_decide; [by eexists|]. pose proof (Zlen_app s [0]) as El. change (Zlen [0]) with 1 in El.
  destruct (unpack_uint32_ok (s ++ [0]) 0) as [n ->]; [lia..|]. destruct (byte_of_some (s ++ [0]) 4) as [t ->]; [lia|].
  destruct (block_at_ok (s ++ [0]) 5 (Zlen s - 5)) as [d ->]; [lia..|]. rewrite !LRet_bind.
  repeat case_bool_decide; try (by eexists). destruct (unpack_uint32_ok (s ++ [0]) 5) as [k ->]; [lia..|]. by eexists.
Qed.

(** C28. Whatever a peer sends, reading a string or a block of at least one byte as a
    request, and a string as a response, ends with values or an error and reads
    no byte outside; an empty block is read at its first byte. *)
Theorem cluster_unpack_safe m s :
  (readable m → defined (lunpackrequest m)) ∧ (∃ vs, lunpackresponse s = LRet vs) ∧
  lunpackrequest (MPointer [] 0) = LUndef.
Proof. split; [apply lunpackrequest_defined|]. split; [apply lunpackresponse_defined|done]. Qed.

(** ** The message given to packrequest *)
Definition bad_name (addr : value) : Prop :=
  match addr with VInt _ | VReal _ => False | VString name => Zlen name < 1 ∨ 255 < Zlen name | _ => True end.
Definition as_address (addr : value) : value := match addr with VReal _ => VInt (lua_tointeger addr) | v => v end.

(** C39. packrequest frees the message it is given exactly once: after an error for a
    session that is not positive as an [int] or for a bad name, and otherwise
    with the frames of the request; it never writes outside its arrays. *)
Theorem cluster_message_released buf buf2 addr session msg is_push :
  stack_array buf → stack_array buf2 → Zlen msg < 2 ^ 32 →
  let r := packrequest buf buf2 addr session (Some msg) (Zlen msg) is_push in
  frees r = 1%nat ∧
  (i32 session ≤ 0 ∨ bad_name addr → ∃ e, answer r = LError e) ∧
  (0 < i32 session → ¬ bad_name addr →
   let '(request, parts) := split_frames (frame <$> request_bodies (as_address addr) (i32 session) msg is_push) in
   answer r = LRet (request, next_session (i32 session), parts)).
Proof.
  intros Hb Hb2 Hm r. unfold r. clear r.
  assert (∀ r, r = packrequest buf buf2 addr session (Some msg) (Zlen msg) is_push →
    (i32 session ≤ 0 → ∃ e, r = Run 1 (LError e)) ∧ (0 < i32 session → bad_name addr → ∃ e, r = Run 1 (LError e)) ∧
    (0 < i32 session → ¬ bad_name addr →
      let '(request, parts) := split_frames (frame <$> request_bodies (as_address addr) (i32 session) msg is_push) in
      r = Run 1 (LRet (request, next_session (i32 session), parts)))) as H.
  { intros r ->. split_and!.
    - intros Hs. unfold packrequest. rewrite bool_decide_eq_true_2 by done. by eexists.
    - intros Hs Hbad. unfold packrequest. rewrite bool_decide_eq_false_2 by lia.
      destruct addr as [| | | |s| | | |]; try done; try (by eexists). cbn [bad_name is_number] in *.
      unfold packreq_string. cbv zeta. rewrite (bool_decide_eq_true_2 (Zlen s < 1 ∨ 255 < Zlen s)) by done. by eexists.
    - intros Hs Hgood.
      assert (packrequest buf buf2 addr session (Some msg) (Zlen msg) is_push =
              packrequest buf buf2 (as_address addr) (i32 session) (Some msg) (Zlen msg) is_push) as ->.
      { unfold packrequest. rewrite (i32_small (i32 session)); [by destruct addr|]. unfold i32, INT_MAX in *.
        pose proof (mod_range (session + 2 ^ 31) (2 ^ 32) ltac:(lia)). lia. }
      pose proof (packrequest_spec buf buf2 (as_address addr) (i32 session) msg is_push Hb Hb2) as Hp.
      destruct (split_frames _) as [request parts]. apply Hp; [|unfold i32 in *;
        pose proof (mod_range (session + 2 ^ 31) (2 ^ 32) ltac:(lia)); lia|done].
      destruct addr; try done; cbn [bad_name as_address address_ok] in *; try done. lia. }
  destruct (H _ eq_refl) as (H1 & H2 & H3). clear H. set (r := packrequest _ _ _ _ _ _ _) in *. clearbody r.
  destruct (decide (i32 session ≤ 0)) as [Hs|Hs].
  - destruct (H1 Hs) as [e ->]. split; [done|]. split; [by eexists|lia].
  - assert (Decision (bad_name addr)) as Hd by (destruct addr; cbn; apply _). destruct (decide (bad_name addr)) as [Hbad|Hgood].
    + destruct (H2 ltac:(lia) Hbad) as [e ->]. split; [done|]. split; [by eexists|done].
    + specialize (H3 ltac:(lia) Hgood). destruct (split_frames _) as [request parts]. rewrite H3.
      split; [done|]. split; [intros [?|?]; [lia|done]|done].
Qed.

(** ** Witnesses *)
Definition some_array : list Z := replicate (Z.to_nat TEMP_LENGTH) 7.
Definition long_message : list Z := replicate (Z.to_nat 32769) 65.
(** another request between the parts of a long one, and a part of a third *)
Definition some_stream : list (list Z) :=
  match request_bodies (VString [64; 65]) 5 long_message false with
  | first :: more => first :: whole_body (VInt 9) 6 [1; 2] :: [4; 40] :: request_part 3 false [8] :: more
  | [] => []
  end.

Lemma cluster_request_delivered_witness :
  (∃ request parts,
    packrequest some_array some_array (VString [64; 65]) 5 (Some long_message) (Zlen long_message) false =
      Run 1 (LRet (request, next_session 5, parts)) ∧
    unpacked (request ++ mjoin (default [] parts)) = (request_bodies (VString [64; 65]) 5 long_message false, [])) ∧
  outcome_of (Agent ∅ None) some_stream (request_session 5 long_message false) None
    [ServeName (request_session 5 long_message false) (VString [64; 65]) long_message false].
Proof.
  apply (cluster_request_delivered some_array some_array (VString [64; 65]) 5 long_message false (Agent ∅ None) some_stream).
  - by vm_compute.
  - by vm_compute.
  - by vm_compute.
  - done.
  - by vm_compute.
  - intros i x Hx. done.
  - vm_compute. reflexivity.
  - unfold some_stream.
    assert (request_bodies (VString [64; 65]) 5 long_message false =
      [first_body (VString [64; 65]) 5 32769 false; request_part 5 false (replicate (Z.to_nat 32768) 65);
       request_part 5 true [65]]) as -> by (apply (bool_decide_eq_true_1 _); vm_compute; reflexivity).
    repeat apply Forall_cons_2; [apply cb_first|apply cb_whole|apply (cb_trace [40])|apply cb_part|apply cb_part|apply cb_part|by apply Forall_nil];
      by vm_compute.
  - apply (bool_decide_eq_true_1 _). vm_compute. reflexivity.
Defined.

Lemma cluster_response_delivered_witness :
  (∃ r, lpackresponse some_array some_array 5 true (MString long_message) = LRet r ∧
    unpacked (mjoin (frames_of r)) = (response_bodies 5 true long_message, [])) ∧
  ∃ c' r, read_responses (Channel {[5; 6]} ∅ ∅) (whole_response 6 false [1] :: response_bodies 5 true long_message) = LRet (Some c') ∧
    (5 ∉ thread c') ∧ finished c' !! 5 = Some (true, r) ∧
    response_value r = LRet (Some (response_text true long_message)).
Proof.
  apply (cluster_response_delivered some_array some_array 5 true (MString long_message) (Channel {[5; 6]} ∅ ∅)
    (whole_response 6 false [1] :: response_bodies 5 true long_message)).
  - by vm_compute.
  - by vm_compute.
  - done.
  - done.
  - by vm_compute.
  - cbn [thread]. set_solver.
  - done.
  - rewrite Forall_forall. intros b Hb.
    assert (forallb (λ b, match kind b with Some _ => true | None => false end)
      (whole_response 6 false [1] :: response_bodies 5 true long_message) = true) as H by (vm_compute; reflexivity).
    rewrite forallb_forall in H. apply list_elem_of_In, H in Hb. destruct (kind b); [by eexists|done].
  - apply (bool_decide_eq_true_1 _). vm_compute. reflexivity.
Defined.

Lemma cluster_unpack_safe_witness :
  (readable (MPointer [3; 5] 2) → defined (lunpackrequest (MPointer [3; 5] 2))) ∧
  (∃ vs, lunpackresponse [1; 2; 3] = LRet vs) ∧ lunpackrequest (MPointer [] 0) = LUndef.
Proof. apply (cluster_unpack_safe (MPointer [3; 5] 2) [1; 2; 3]). Defined.

Lemma cluster_message_released_witness :
  let r := packrequest some_array some_array (VString []) 5 (Some [1; 2]) (Zlen [1; 2]) false in
  frees r = 1%nat ∧
  (i32 5 ≤ 0 ∨ bad_name (VString []) → ∃ e, answer r = LError e) ∧
  (0 < i32 5 → ¬ bad_name (VString []) →
   let '(request, parts) := split_frames (frame <$> request_bodies (as_address (VString [])) (i32 5) [1; 2] false) in
   answer r = LRet (request, next_session (i32 5), parts)).
Proof. apply (cluster_message_released some_array some_array (VString []) 5 [1; 2] false); by vm_compute. Defined.
