(* ===== verification/LuaSocket.v ===== *)
(** * Sockets of Lua services: the read buffers of lualib-src/lua-socket.c

    A read buffer is a chain of nodes, each with a block of received bytes; the
    nodes of all buffers of a service come from one pool, a Lua table with the
    list of free nodes and the arrays the nodes live in. A node is named by its
    position in these arrays. The nodes are a heap; a block is its bytes, and
    the blocks freed are recorded in their order. *)
From S2P Require Import Prelude CLib CNum Bytes LuaValue.
From Stdlib Require Import Ascii String.
#[local] Open Scope Z_scope.

Definition LARGE_PAGE_NODE : Z := 12.
Definition POOL_SIZE_WARNING : Z := 32.

Record buffer_node : Type := BufferNode {
  bn_msg : option (list Z);
  bn_sz : Z;
  bn_next : option loc
}.
Record socket_buffer : Type := SocketBuffer {
  sb_size : Z;
  sb_offset : Z;
  sb_head : option loc;
  sb_tail : option loc
}.
(** [pages]: the sizes of the arrays in the table from index 2 on; [warned]: the
    warnings about the size of the pool *)
Record pool : Type := Pool {
  nodes : gmap loc buffer_node;
  free_node : option loc;
  pages : list Z;
  released : list (list Z);
  warned : list Z
}.
Definition empty_pool : pool := Pool ∅ None [] [] [].

Definition set_nodes (h : gmap loc buffer_node) (p : pool) : pool :=
  Pool h (free_node p) (pages p) (released p) (warned p).
Definition set_free (f : option loc) (p : pool) : pool :=
  Pool (nodes p) f (pages p) (released p) (warned p).
Definition release (msg : list Z) (p : pool) : pool :=
  Pool (nodes p) (free_node p) (pages p) (released p ++ [msg]) (warned p).

Definition node_at (p : pool) (l : option loc) : lua buffer_node :=
  lift (l ← deref l; deref (nodes p !! l)).
Definition msg_of (n : buffer_node) : lua (list Z) := lift (deref (bn_msg n)).
Definition int_of (x : Z) : lua Z := lift (chk_int x).
(** the memory from [msg + off] on: [n] bytes of it *)
Definition span (msg : list Z) (off n : Z) : lua (list Z) :=
  if bool_decide (0 ≤ off ∧ 0 ≤ n ∧ off + n ≤ Zlen msg) then
    LRet (take (Z.to_nat n) (drop (Z.to_nat off) msg))
  else LUndef.

(** ** The pool *)
Definition lfreepool (pool : list buffer_node) : list (list Z) * list buffer_node :=
  (omap bn_msg pool, (λ n, BufferNode None (bn_sz n) (bn_next n)) <$> pool).

(** a new array whose first node is called [base] *)
Fixpoint new_nodes (base : loc) (n : nat) (h : gmap loc buffer_node) : gmap loc buffer_node :=
  match n with
  | O => h
  | S n =>
      <[base := BufferNode None 0 (match n with O => None | S _ => Some (base + 1) end)]> (new_nodes (base + 1) n h)
  end.
Definition pool_nodes (p : pool) : Z := foldr Z.add 0 (pages p).
Definition lnewpool (sz : Z) (p : pool) : pool :=
  Pool (new_nodes (pool_nodes p) (Z.to_nat sz) (nodes p)) (free_node p) (pages p ++ [sz]) (released p) (warned p).

Definition lnewbuffer : socket_buffer := SocketBuffer 0 0 None None.

(** the length of the table of the pool, whose first item is the free node *)
Definition table_size (p : pool) : Z := match pages p with [] => 1 | l => 1 + Zlen l end.
Definition page_size (tsz : Z) : Z :=
  Z.shiftl 8 (if bool_decide (tsz ≤ LARGE_PAGE_NODE - 3) then tsz else LARGE_PAGE_NODE - 3).

(** a free node, from a new array when there is none *)
Definition get_free_node (p : pool) : lua (loc * pool) :=
  match free_node p with
  | Some l => LRet (l, p)
  | None =>
      let tsz := table_size p in
      let first := pool_nodes p in
      let p := lnewpool (page_size tsz) p in
      LRet (first, if bool_decide (POOL_SIZE_WARNING < tsz)
                   then Pool (nodes p) (free_node p) (pages p) (released p) (warned p ++ [tsz]) else p)
  end.

(** [sb], [msg]: the objects at index 1 and 3, if they are userdata *)
Definition lpushbuffer (sb : option socket_buffer) (p : pool) (msg : option (list Z)) (sz : Z) :
    lua (Z * socket_buffer * pool) :=
  match sb, msg with
  | None, _ => LError (Message "need buffer object at param 1")
  | _, None => LError (Message "need message block at param 3")
  | Some sb, Some msg =>
      let sz := i32 sz in
      '(f, p) ← get_free_node p;
      n ← node_at p (Some f);
      let p := set_free (bn_next n) p in
      let h := <[f := BufferNode (Some msg) sz None]> (nodes p) in
      '(sb, p) ←
        match sb_head sb with
        | None =>
            lift (cassert (bool_decide (sb_tail sb = None)));;
            LRet (SocketBuffer (sb_size sb) (sb_offset sb) (Some f) (Some f), set_nodes h p)
        | Some _ =>
            let p := set_nodes h p in
            t ← lift (deref (sb_tail sb));
            n ← node_at p (Some t);
            LRet (SocketBuffer (sb_size sb) (sb_offset sb) (sb_head sb) (Some f),
                  set_nodes (<[t := BufferNode (bn_msg n) (bn_sz n) (Some f)]> (nodes p)) p)
        end;
      size ← int_of (sb_size sb + sz);
      LRet (size, SocketBuffer size (sb_offset sb) (sb_head sb) (sb_tail sb), p)
  end.

Definition return_free_node (sb : socket_buffer) (p : pool) : lua (socket_buffer * pool) :=
  f ← lift (deref (sb_head sb));
  n ← node_at p (Some f);
  let sb := SocketBuffer (sb_size sb) 0 (bn_next n)
    (match bn_next n with None => None | Some _ => sb_tail sb end) in
  let p := match bn_msg n with Some msg => release msg p | None => p end in
  let h := <[f := BufferNode None 0 (free_node p)]> (nodes p) in
  LRet (sb, set_free (Some f) (set_nodes h p)).

Definition add_offset (sz : Z) (sb : socket_buffer) : socket_buffer :=
  SocketBuffer (sb_size sb) (sb_offset sb + sz) (sb_head sb) (sb_tail sb).

(** the loop of [pop_lstring]: what it adds to the buffer of the string *)
Fixpoint pop_loop (fuel : nat) (sb : socket_buffer) (p : pool) (sz skip : Z) : lua (list Z * socket_buffer * pool) :=
  match fuel with
  | O => LNoFuel
  | S fuel =>
      current ← node_at p (sb_head sb);
      let bytes := bn_sz current - sb_offset sb in
      if bool_decide (sz ≤ bytes) then
        s ← (if bool_decide (skip < sz) then
               msg ← msg_of current; span msg (sb_offset sb) (sz - skip)
             else LRet []);
        let sb := add_offset sz sb in
        '(sb, p) ← (if bool_decide (bytes = sz) then return_free_node sb p else LRet (sb, p));
        LRet (s, sb, p)
      else
        let real_sz := sz - skip in
        s ← (if bool_decide (0 < real_sz) then
               msg ← msg_of current; span msg (sb_offset sb) (if bool_decide (real_sz < bytes) then real_sz else bytes)
             else LRet []);
        '(sb, p) ← return_free_node sb p;
        let sz := sz - bytes in
        if bool_decide (sz = 0) then LRet (s, sb, p)
        else
          lift (cassert (bool_decide (sb_head sb ≠ None)));;
          '(rest, sb, p) ← pop_loop fuel sb p sz skip;
          LRet (s ++ rest, sb, p)
  end.

Definition pop_lstring (sb : socket_buffer) (p : pool) (sz skip : Z) : lua (list Z * socket_buffer * pool) :=
  current ← node_at p (sb_head sb);
  let bytes := bn_sz current - sb_offset sb in
  if bool_decide (sz < bytes) then
    msg ← msg_of current;
    s ← span msg (sb_offset sb) (sz - skip);
    LRet (s, add_offset sz sb, p)
  else if bool_decide (sz = bytes) then
    msg ← msg_of current;
    s ← span msg (sb_offset sb) (sz - skip);
    '(sb, p) ← return_free_node sb p;
    LRet (s, sb, p)
  else pop_loop (S (size (nodes p))) sb p sz skip.

Fixpoint be_loop (s : list Z) (sz : Z) : Z :=
  match s with [] => sz | b :: s => be_loop s (Z.lor (u64 (Z.shiftl sz 8)) b) end.
Definition lheader (s : list Z) : lua Z :=
  if bool_decide (4 < Zlen s ∨ Zlen s < 1) then LError (Message ("Invalid read " +:+ c_text s))
  else LRet (be_loop s 0).

Definition set_size (n : Z) (sb : socket_buffer) : socket_buffer :=
  SocketBuffer n (sb_offset sb) (sb_head sb) (sb_tail sb).

(** nil or a string, the size left *)
Definition lpopbuffer (sb : option socket_buffer) (p : pool) (sz : Z) :
    lua (option (list Z) * Z * socket_buffer * pool) :=
  match sb with
  | None => LError (Message "Need buffer object at param 1")
  | Some sb =>
      let sz := i32 sz in
      if bool_decide (sb_size sb < sz ∨ sz = 0) then LRet (None, sb_size sb, sb, p)
      else
        '(s, sb, p) ← pop_lstring sb p sz 0;
        size ← int_of (sb_size sb - sz);
        LRet (Some s, size, set_size size sb, p)
  end.

Fixpoint return_all (fuel : nat) (sb : socket_buffer) (p : pool) : lua (socket_buffer * pool) :=
  match sb_head sb with
  | None => LRet (sb, p)
  | Some _ =>
      match fuel with
      | O => LNoFuel
      | S fuel => '(sb, p) ← return_free_node sb p; return_all fuel sb p
      end
  end.
(** [None]: a value that is no userdata; [is_nil] tells nil from the others *)
Definition lclearbuffer (sb : option socket_buffer) (is_nil : bool) (p : pool) : lua (option (socket_buffer * pool)) :=
  match sb with
  | None => if is_nil then LRet None else LError (Message "Need buffer object at param 1")
  | Some sb => '(sb, p) ← return_all (size (nodes p)) sb p; LRet (Some (set_size 0 sb, p))
  end.

Fixpoint read_all (fuel : nat) (sb : socket_buffer) (p : pool) : lua (list Z * socket_buffer * pool) :=
  match sb_head sb with
  | None => LRet ([], sb, p)
  | Some l =>
      match fuel with
      | O => LNoFuel
      | S fuel =>
          current ← node_at p (Some l);
          msg ← msg_of current;
          s ← span msg (sb_offset sb) (bn_sz current - sb_offset sb);
          '(sb, p) ← return_free_node sb p;
          '(rest, sb, p) ← read_all fuel sb p;
          LRet (s ++ rest, sb, p)
      end
  end.
Definition lreadall (sb : option socket_buffer) (p : pool) : lua (list Z * socket_buffer * pool) :=
  match sb with
  | None => LError (Message "Need buffer object at param 1")
  | Some sb => '(s, sb, p) ← read_all (size (nodes p)) sb p; LRet (s, set_size 0 sb, p)
  end.

Definition ldrop (msg : option (list Z)) (p : pool) : pool :=
  match msg with Some msg => release msg p | None => p end.

(** every round goes to the next node *)
Fixpoint check_sep (fuel : nat) (p : pool) (node : option loc) (from : Z) (sep : list Z) : lua bool :=
  match fuel with
  | O => LNoFuel
  | S fuel =>
      n ← node_at p node;
      let sz := bn_sz n - from in
      if bool_decide (Zlen sep ≤ sz) then
        msg ← msg_of n; s ← span msg from (Zlen sep); LRet (bool_decide (s = sep))
      else
        same ← (if bool_decide (0 < sz) then
                  msg ← msg_of n; s ← span msg from sz; LRet (bool_decide (s = take (Z.to_nat sz) sep))
                else LRet true);
        if same : bool then check_sep fuel p (bn_next n) 0 (drop (Z.to_nat sz) sep) else LRet false
  end.

Inductive line : Type :=
  | NoLine
  | HasLine
  | Line (s : list Z).

(** [todo] rounds are left, this is round [i] *)
Fixpoint readline_loop (todo : nat) (sb : socket_buffer) (p : pool) (check : bool) (sep : list Z)
    (i : Z) (current : option loc) (from bytes : Z) : lua (line * socket_buffer * pool) :=
  match todo with
  | O => LRet (NoLine, sb, p)
  | S todo =>
      found ← check_sep (S (size (nodes p))) p current from sep;
      if found : bool then
        if check then LRet (HasLine, sb, p)
        else
          '(s, sb, p) ← pop_lstring sb p (i + Zlen sep) (Zlen sep);
          size ← int_of (sb_size sb - (i + Zlen sep));
          LRet (Line s, set_size size sb, p)
      else
        let from := from + 1 in
        let bytes := bytes - 1 in
        if bool_decide (bytes = 0) then
          n ← node_at p current;
          match bn_next n with
          | None => LRet (NoLine, sb, p)
          | Some l =>
              next ← node_at p (Some l);
              readline_loop todo sb p check sep (i + 1) (Some l) 0 (bn_sz next)
          end
        else readline_loop todo sb p check sep (i + 1) current from bytes
  end.

(** [check]: the pool is not given *)
Definition lreadline (sb : option socket_buffer) (p : pool) (check : bool) (sep : list Z) :
    lua (line * socket_buffer * pool) :=
  match sb with
  | None => LError (Message "Need buffer object at param 1")
  | Some sb =>
      match sb_head sb with
      | None => LRet (NoLine, sb, p)
      | Some l =>
          current ← node_at p (Some l);
          let from := sb_offset sb in
          let bytes := bn_sz current - from in
          readline_loop (Z.to_nat (sb_size sb - Zlen sep + 1)) sb p check sep 0 (Some l) from bytes
      end
  end.
