(* ===== verification/LuaSocketSpec.v ===== *)
(** * Read buffers of Lua sockets: every buffer is a stream of bytes *)
From S2P Require Import Prelude CLib CNum Bytes LuaValue LuaSocket.
From Stdlib Require Import String.
#[local] Open Scope Z_scope.

(** ** Chains of nodes *)
Fixpoint free_chain (h : gmap loc buffer_node) (p : option loc) (ls : list loc) : Prop :=
  match ls with
  | [] => p = None
  | l :: ls => p = Some l ∧ ∃ nx, h !! l = Some (BufferNode None 0 nx) ∧ free_chain h nx ls
  end.
(** the nodes of a buffer with their blocks *)
Fixpoint chain (h : gmap loc buffer_node) (p : option loc) (lms : list (loc * list Z)) : Prop :=
  match lms with
  | [] => p = None
  | (l, m) :: lms => p = Some l ∧ m ≠ [] ∧ ∃ nx, h !! l = Some (BufferNode (Some m) (Zlen m) nx) ∧ chain h nx lms
  end.

Lemma free_chain_agree h h' p ls : (∀ l, l ∈ ls → h' !! l = h !! l) → free_chain h p ls → free_chain h' p ls.
Proof.
  revert p. induction ls as [|l ls IH]; intros p Ha; [done|]. intros (-> & nx & E & Hc).
  split; [done|]. exists nx. rewrite Ha by set_solver. split; [done|]. apply IH; [|done]. intros. apply Ha. set_solver.
Qed.
Lemma chain_agree h h' p lms : (∀ l, l ∈ lms.*1 → h' !! l = h !! l) → chain h p lms → chain h' p lms.
Proof.
  revert p. induction lms as [|[l m] lms IH]; intros p Ha; [done|]. intros (-> & Hm & nx & E & Hc).
  split; [done|]. split; [done|]. exists nx. rewrite Ha by set_solver. split; [done|]. apply IH; [|done].
  intros. apply Ha. set_solver.
Qed.
Lemma chain_lookup h p lms l : chain h p lms → l ∈ lms.*1 → is_Some (h !! l).
Proof.
  revert p. induction lms as [|[k m] lms IH]; intros p Hc Hl; [by apply not_elem_of_nil in Hl|].
  destruct Hc as (-> & _ & nx & E & Hc). cbn in Hl. apply elem_of_cons in Hl as [Hk|Hl]; [subst; eauto|by eapply IH].
Qed.
Lemma chain_length_dom h p lms : chain h p lms → NoDup lms.*1 → (List.length lms ≤ size h)%nat.
Proof.
  intros Hc Hnd. rewrite <- (length_fmap fst), <- (size_list_to_set (C := gset loc)) by done.
  rewrite <- size_dom. apply subseteq_size. intros l Hl%elem_of_list_to_set. apply elem_of_dom. by eapply chain_lookup.
Qed.

(** ** One buffer and the pool *)
Definition blocks (lms : list (loc * list Z)) : list (list Z) := lms.*2.
Definition text (off : Z) (ms : list (list Z)) : list Z := drop (Z.to_nat off) (mjoin ms).
Definition offset_ok (off : Z) (ms : list (list Z)) : Prop :=
  match ms with [] => off = 0 | m :: _ => 0 ≤ off < Zlen m end.

Record buffer_state (p : pool) (sb : socket_buffer) (fl : list loc) (lms : list (loc * list Z)) : Prop := {
  bs_free : free_chain (nodes p) (free_node p) fl;
  bs_chain : chain (nodes p) (sb_head sb) lms;
  bs_tail : sb_tail sb = last lms.*1;
  bs_nodup : NoDup (fl ++ lms.*1);
  bs_offset : offset_ok (sb_offset sb) (blocks lms)
}.

(** the first [n] nodes went back to the pool, in their order *)
Record consumed (p p' : pool) (fl fl' : list loc) (lms : list (loc * list Z)) (n : nat) : Prop := {
  co_free : fl' = reverse (take n lms.*1) ++ fl;
  co_released : released p' = released p ++ take n (blocks lms);
  co_frame k : k ∉ fl ++ lms.*1 → nodes p' !! k = nodes p !! k;
  co_dom : dom (nodes p') = dom (nodes p);
  co_pages : pages p' = pages p;
  co_warned : warned p' = warned p
}.

Lemma consumed_refl p fl lms : consumed p p fl fl lms 0.
Proof. split; try done. cbn. by rewrite app_nil_r. Qed.

Lemma consumed_trans p p1 p2 fl fl1 fl2 lms l m lms1 n :
  lms = (l, m) :: lms1 → consumed p p1 fl fl1 lms 1 → consumed p1 p2 fl1 fl2 lms1 n → consumed p p2 fl fl2 lms (S n).
Proof.
  intros -> [-> R1 F1 D1 P1 W1] [-> R2 F2 D2 P2 W2]. split; try congruence.
  - cbn [fmap list_fmap take fst]. by rewrite !reverse_cons, <- !app_assoc, take_0.
  - rewrite R2, R1. cbn. by rewrite <- app_assoc.
  - intros k Hk. rewrite F2, F1; [done|done|]. cbn in *. set_solver.
Qed.

Lemma text_cons off l m lms : 0 ≤ off ≤ Zlen m → text off (blocks ((l, m) :: lms)) = drop (Z.to_nat off) m ++ mjoin (blocks lms).
Proof.
  intros H. unfold text, blocks. cbn [fmap list_fmap snd]. rewrite mjoin_cons. apply drop_app_le. unfold Zlen in H. lia.
Qed.
Lemma text_0 ms : text 0 ms = mjoin ms.
Proof. done. Qed.

Lemma return_free_spec p sb fl l m lms : buffer_state p sb fl ((l, m) :: lms) →
  ∃ sb' p', return_free_node sb p = LRet (sb', p') ∧ buffer_state p' sb' (l :: fl) lms ∧
    sb_offset sb' = 0 ∧ sb_size sb' = sb_size sb ∧ consumed p p' fl (l :: fl) ((l, m) :: lms) 1.
Proof.
  intros [Hf (Hh & Hm & nx & El & Hc) Ht Hnd Ho]. unfold return_free_node, node_at. rewrite Hh. cbn [deref lift mbind outcome_bind].
  rewrite LRet_bind. cbn [deref mbind outcome_bind]. rewrite El. cbn [deref lift]. rewrite LRet_bind. cbn [bn_msg bn_next].
  cbn [fmap list_fmap fst] in *. apply NoDup_app in Hnd as (Hnf & Hdis & Hnl). apply NoDup_cons in Hnl as [Hll Hnl].
  do 2 eexists. split; [done|]. split_and!; try done.
  - split; cbn [nodes free_node set_free set_nodes release sb_head sb_tail sb_offset].
    + cbn [free_chain]. split; [done|]. exists (free_node p). rewrite lookup_insert_eq. split; [done|].
      eapply free_chain_agree; [|exact Hf]. intros k Hk. rewrite lookup_insert_ne; [done|]. intros <-. set_solver.
    + eapply chain_agree; [|exact Hc]. intros k Hk. rewrite lookup_insert_ne; [done|]. intros <-. done.
    + destruct lms as [|[l2 m2] lms]; cbn [chain] in Hc; [by subst|]. destruct Hc as (-> & _). rewrite Ht. done.
    + cbn. apply NoDup_cons. split; [set_solver|]. apply NoDup_app. split; [done|]. split; [set_solver|done].
    + destruct lms as [|[l2 m2] lms]; [done|]. cbn in Hc. destruct Hc as (_ & Hm2 & _). cbn.
      destruct m2; [done|]. rewrite Zlen_cons. pose proof (Zlen_nonneg m2). lia.
  - split; cbn [nodes free_node set_free set_nodes release released pages warned]; try done.
    + intros k Hk. rewrite lookup_insert_ne; [done|]. intros <-. set_solver.
    + apply dom_insert_lookup_L. by eexists.
Qed.

Lemma return_add_offset k sb p : return_free_node (add_offset k sb) p = return_free_node sb p.
Proof. done. Qed.

Lemma node_at_chain p sb fl l m lms : buffer_state p sb fl ((l, m) :: lms) →
  sb_head sb = Some l ∧ m ≠ [] ∧ ∃ nx, node_at p (Some l) = LRet (BufferNode (Some m) (Zlen m) nx) ∧
    chain (nodes p) nx lms.
Proof.
  intros [_ (Hh & Hm & nx & El & Hc) _ _ _]. split; [done|]. split; [done|]. exists nx.
  unfold node_at. cbn [deref mbind outcome_bind lift]. rewrite El. done.
Qed.

Lemma span_ok msg off n : 0 ≤ off → 0 ≤ n → off + n ≤ Zlen msg →
  span msg off n = LRet (take (Z.to_nat n) (drop (Z.to_nat off) msg)).
Proof. intros. unfold span. by rewrite bool_decide_eq_true_2. Qed.

(** what a read of [sz] bytes leaves *)
Record popped (p : pool) (sb : socket_buffer) (fl : list loc) (lms : list (loc * list Z)) (sz : Z)
    (sb' : socket_buffer) (p' : pool) (fl' : list loc) (n : nat) : Prop := {
  po_state : buffer_state p' sb' fl' (drop n lms);
  po_consumed : consumed p p' fl fl' lms n;
  po_size : sb_size sb' = sb_size sb;
  po_text : text (sb_offset sb') (blocks (drop n lms)) = drop (Z.to_nat sz) (text (sb_offset sb) (blocks lms))
}.

Lemma popped_within p sb fl l m lms sz : buffer_state p sb fl ((l, m) :: lms) → 0 ≤ sz → sz < Zlen m - sb_offset sb →
  popped p sb fl ((l, m) :: lms) sz (add_offset sz sb) p fl 0.
Proof.
  intros Hst H0 H1. pose proof Hst as [Hf Hc Ht Hnd Ho]. cbn in Ho. split; [|apply consumed_refl|done|].
  - split; try done. cbn in *. lia.
  - cbn [drop add_offset sb_offset]. rewrite !text_cons by lia. rewrite drop_app_le by (unfold Zlen in *; rewrite length_drop; lia).
    rewrite drop_drop. do 2 f_equal. lia.
Qed.

Lemma popped_block p sb fl l m lms sb' p' :
  buffer_state p sb fl ((l, m) :: lms) → buffer_state p' sb' (l :: fl) lms → sb_offset sb' = 0 → sb_size sb' = sb_size sb →
  consumed p p' fl (l :: fl) ((l, m) :: lms) 1 →
  popped p sb fl ((l, m) :: lms) (Zlen m - sb_offset sb) sb' p' (l :: fl) 1.
Proof.
  intros Hst Hst' Ho' Hs Hc. pose proof (bs_offset _ _ _ _ Hst) as Ho. cbn in Ho.
  split; cbn [drop]; try done. rewrite drop_0, Ho', text_0, text_cons by lia.
  rewrite drop_app_ge by (unfold Zlen in *; rewrite length_drop; lia).
  rewrite length_drop. unfold Zlen in *. replace (Z.to_nat _ - _)%nat with 0%nat by lia. done.
Qed.

Lemma popped_trans p sb fl l m lms sb1 p1 sz sb2 p2 fl2 n :
  popped p sb fl ((l, m) :: lms) (Zlen m - sb_offset sb) sb1 p1 (l :: fl) 1 → 0 ≤ sz - (Zlen m - sb_offset sb) →
  0 ≤ sb_offset sb < Zlen m →
  popped p1 sb1 (l :: fl) lms (sz - (Zlen m - sb_offset sb)) sb2 p2 fl2 n →
  popped p sb fl ((l, m) :: lms) sz sb2 p2 fl2 (S n).
Proof.
  intros [S1 C1 Z1 T1] H0 Ho [S2 C2 Z2 T2]. cbn [drop] in *. rewrite drop_0 in *. split; [done| |congruence|].
  - by eapply consumed_trans.
  - change (drop (S n) ((l, m) :: lms)) with (drop n lms). rewrite T2, T1, drop_drop. f_equal. lia.
Qed.

(** the bytes of the first block, then those of the others *)
Lemma take_text off l m lms k : 0 ≤ off < Zlen m →
  take (Z.to_nat k) (text off (blocks ((l, m) :: lms))) =
  if bool_decide (k < Zlen m - off) then take (Z.to_nat k) (drop (Z.to_nat off) m)
  else drop (Z.to_nat off) m ++ take (Z.to_nat (k - (Zlen m - off))) (text 0 (blocks lms)).
Proof.
  intros Ho. rewrite text_cons, text_0 by lia. unfold Zlen in *. case_bool_decide.
  - rewrite take_app_le by (rewrite length_drop; lia). done.
  - rewrite take_app_ge by (rewrite length_drop; lia). rewrite length_drop. do 2 f_equal. lia.
Qed.

Lemma Zlen_text off l m lms : 0 ≤ off ≤ Zlen m →
  Zlen (text off (blocks ((l, m) :: lms))) = Zlen m - off + Zlen (text 0 (blocks lms)).
Proof. intros H. rewrite text_cons, text_0, Zlen_app by lia. unfold Zlen in *. rewrite length_drop. lia. Qed.

Definition pops (f : lua (list Z * socket_buffer * pool)) p sb fl lms sz skip : Prop :=
  ∃ sb' p' fl' n,
    f = LRet (take (Z.to_nat (sz - skip)) (text (sb_offset sb) (blocks lms)), sb', p') ∧
    popped p sb fl lms sz sb' p' fl' n.

Lemma pop_loop_spec fuel p sb fl lms sz skip : buffer_state p sb fl lms →
  0 < sz ≤ Zlen (text (sb_offset sb) (blocks lms)) → 0 ≤ skip → (List.length lms ≤ fuel)%nat →
  pops (pop_loop fuel sb p sz skip) p sb fl lms sz skip.
Proof.
  revert p sb fl lms sz. induction fuel as [|fuel IH]; intros p sb fl lms sz Hst Hsz Hsk Hfuel.
  { destruct lms; [|cbn in Hfuel; lia]. unfold text, Zlen in Hsz. cbn in Hsz. rewrite drop_nil in Hsz. cbn in Hsz. lia. }
  destruct lms as [|[l m] lms].
  { unfold text, Zlen in Hsz. cbn in Hsz. rewrite drop_nil in Hsz. cbn in Hsz. lia. }
  destruct (node_at_chain _ _ _ _ _ _ Hst) as (Hh & Hm & nx & En & Hnx).
  pose proof (bs_offset _ _ _ _ Hst) as Ho. cbn in Ho. rewrite Zlen_text in Hsz by lia.
  cbn [pop_loop]. rewrite Hh, En, LRet_bind. cbn [bn_sz bn_msg bn_next msg_of deref lift].
  set (bytes := Zlen m - sb_offset sb) in *.
  destruct (return_free_spec p sb fl l m lms Hst) as (sb1 & p1 & Er & Hst1 & Ho1 & Hs1 & Hc1).
  pose proof (popped_block _ _ _ _ _ _ _ _ Hst Hst1 Ho1 Hs1 Hc1) as Hp1. fold bytes in Hp1.
  assert (0 < bytes) as Hb by (unfold bytes; lia).
  assert (∀ k, 0 ≤ k ≤ bytes → span m (sb_offset sb) k = LRet (take (Z.to_nat k) (drop (Z.to_nat (sb_offset sb)) m))) as Hspan.
  { intros k Hk. apply span_ok; unfold bytes in *; lia. }
  assert (∀ k, k ≤ 0 → take (Z.to_nat k) (text (sb_offset sb) (blocks ((l, m) :: lms))) = []) as Hneg.
  { intros k Hk. by replace (Z.to_nat k) with 0%nat by lia. }
  destruct (decide (sz ≤ bytes)) as [Hle|Hgt].
  - rewrite bool_decide_eq_true_2 by done.
    assert ((if bool_decide (skip < sz) then msg ← LRet m; span msg (sb_offset sb) (sz - skip) else LRet []) =
      LRet (take (Z.to_nat (sz - skip)) (text (sb_offset sb) (blocks ((l, m) :: lms))))) as ->.
    { case_bool_decide as Hlt; [|by rewrite Hneg by lia]. rewrite LRet_bind, Hspan by lia.
      rewrite take_text by done. fold bytes. case_bool_decide; [done|].
      replace (Z.to_nat (sz - skip - bytes)) with 0%nat by lia. rewrite take_0, app_nil_r, take_ge; [done|].
      unfold bytes, Zlen in *. rewrite length_drop. lia. }
    rewrite LRet_bind. case_bool_decide as Heq.
    + rewrite return_add_offset, Er, !LRet_bind. exists sb1, p1, (l :: fl), 1%nat. split; [done|]. by rewrite <- Heq.
    + rewrite LRet_bind. exists (add_offset sz sb), p, fl, 0%nat. split; [done|]. apply popped_within; [done|lia|].
      fold bytes. lia.
  - rewrite bool_decide_eq_false_2 by done. rewrite Er.
    assert (0 < sz - bytes ≤ Zlen (text (sb_offset sb1) (blocks lms))) as Hsz1 by (rewrite Ho1; lia).
    assert (is_Some (sb_head sb1)) as Hsome.
    { destruct lms as [|[l2 m2] lms]; [rewrite Ho1 in Hsz1; change (Zlen (text 0 (blocks []))) with 0 in Hsz1; lia|].
      pose proof (bs_chain _ _ _ _ Hst1) as (-> & _). by eexists. }
    assert (bool_decide (sb_head sb1 ≠ None) = true) as Hhd by (apply bool_decide_eq_true_2; destruct Hsome as [? ->]; done).
    set (body := if bool_decide (0 < sz - skip) then _ else _).
    assert (body = LRet (take (Z.to_nat (Z.min (sz - skip) bytes)) (drop (Z.to_nat (sb_offset sb)) m))) as ->.
    { unfold body. clear Hhd. rewrite LRet_bind. case_bool_decide as Hreal.
      - rewrite Hspan by (case_bool_decide; lia). do 3 f_equal. case_bool_decide; lia.
      - by replace (Z.to_nat (Z.min (sz - skip) bytes)) with 0%nat by lia. }
    rewrite !LRet_bind. rewrite bool_decide_eq_false_2 by lia. rewrite Hhd. clear Hhd. cbn [cassert lift]. rewrite LRet_bind.
    destruct (IH p1 sb1 (l :: fl) lms (sz - bytes) Hst1 Hsz1 Hsk ltac:(cbn in Hfuel; lia)) as (sb2 & p2 & fl2 & n & E2 & Hp2).
    rewrite E2, LRet_bind. exists sb2, p2, fl2, (S n). split.
    + do 3 f_equal. rewrite Ho1, take_text by done. fold bytes. case_bool_decide.
      * replace (Z.to_nat (sz - bytes - skip)) with 0%nat by lia. rewrite take_0, app_nil_r. f_equal. lia.
      * rewrite take_ge by (unfold bytes, Zlen in *; rewrite length_drop; lia). do 3 f_equal. lia.
    + eapply popped_trans; [exact Hp1|fold bytes; lia|done|]. fold bytes. exact Hp2.
Qed.

Lemma pop_lstring_spec p sb fl lms sz skip : buffer_state p sb fl lms → lms ≠ [] →
  0 ≤ skip ≤ sz → sz ≤ Zlen (text (sb_offset sb) (blocks lms)) →
  pops (pop_lstring sb p sz skip) p sb fl lms sz skip.
Proof.
  intros Hst Hne Hsk Hsz. destruct lms as [|[l m] lms]; [done|].
  destruct (node_at_chain _ _ _ _ _ _ Hst) as (Hh & Hm & nx & En & Hnx).
  pose proof (bs_offset _ _ _ _ Hst) as Ho. cbn in Ho. pose proof Hsz as Hsz'. rewrite Zlen_text in Hsz by lia.
  unfold pop_lstring. rewrite Hh, En, LRet_bind. cbn [bn_sz bn_msg bn_next msg_of deref lift].
  set (bytes := Zlen m - sb_offset sb) in *.
  assert (sz ≤ bytes → span m (sb_offset sb) (sz - skip) =
    LRet (take (Z.to_nat (sz - skip)) (text (sb_offset sb) (blocks ((l, m) :: lms))))) as Hspan.
  { intros Hle. rewrite span_ok by (unfold bytes in *; lia). f_equal. rewrite take_text by done. fold bytes.
    case_bool_decide; [done|]. replace (Z.to_nat (sz - skip - bytes)) with 0%nat by lia. rewrite take_0, app_nil_r, take_ge; [done|].
    unfold bytes, Zlen in *. rewrite length_drop. lia. }
  case_bool_decide as Hlt; [|case_bool_decide as Heq].
  - rewrite LRet_bind, Hspan, LRet_bind by lia. exists (add_offset sz sb), p, fl, 0%nat. split; [done|].
    apply popped_within; [done|lia|]. fold bytes. lia.
  - rewrite LRet_bind, Hspan, LRet_bind by lia.
    destruct (return_free_spec p sb fl l m lms Hst) as (sb1 & p1 & Er & Hst1 & Ho1 & Hs1 & Hc1).
    rewrite Er, LRet_bind. exists sb1, p1, (l :: fl), 1%nat. split; [done|].
    pose proof (popped_block _ _ _ _ _ _ _ _ Hst Hst1 Ho1 Hs1 Hc1) as Hp1. fold bytes in Hp1. by rewrite Heq.
  - apply pop_loop_spec; [done|lia|lia|].
    pose proof (chain_length_dom _ _ _ (bs_chain _ _ _ _ Hst)) as Hd.
    pose proof (bs_nodup _ _ _ _ Hst) as Hnd. apply NoDup_app in Hnd as (_ & _ & Hnd). specialize (Hd Hnd). lia.
Qed.

Lemma chain_none h lms : chain h None lms → lms = [].
Proof. destruct lms as [|[l m] lms]; [done|]. by intros [? _]. Qed.

Lemma read_all_spec fuel p sb fl lms : buffer_state p sb fl lms → (List.length lms ≤ fuel)%nat →
  ∃ sb' p' fl', read_all fuel sb p = LRet (text (sb_offset sb) (blocks lms), sb', p') ∧
    popped p sb fl lms (Zlen (text (sb_offset sb) (blocks lms))) sb' p' fl' (List.length lms).
Proof.
  revert p sb fl lms. induction fuel as [|fuel IH]; intros p sb fl lms Hst Hf; (destruct lms as [|[l m] lms];
    [pose proof (bs_chain _ _ _ _ Hst) as Hc; cbn in Hc; cbn [read_all]; rewrite Hc; exists sb, p, fl;
     pose proof (bs_offset _ _ _ _ Hst) as Ho; cbn in Ho; rewrite Ho; split; [done|]; split; [done|apply consumed_refl|done|rewrite Ho; done]|]).
  - cbn in Hf. lia.
  - destruct (node_at_chain _ _ _ _ _ _ Hst) as (Hh & Hm & nx & En & Hnx).
    pose proof (bs_offset _ _ _ _ Hst) as Ho. cbn in Ho.
    cbn [read_all]. rewrite Hh, En, LRet_bind. cbn [bn_sz bn_msg bn_next msg_of deref lift].
    rewrite LRet_bind, span_ok, LRet_bind by lia.
    destruct (return_free_spec p sb fl l m lms Hst) as (sb1 & p1 & Er & Hst1 & Ho1 & Hs1 & Hc1).
    pose proof (popped_block _ _ _ _ _ _ _ _ Hst Hst1 Ho1 Hs1 Hc1) as Hp1. rewrite Er, LRet_bind.
    destruct (IH p1 sb1 (l :: fl) lms Hst1 ltac:(cbn in Hf; lia)) as (sb2 & p2 & fl2 & E2 & Hp2).
    rewrite E2, LRet_bind. rewrite Ho1 in Hp2. exists sb2, p2, fl2. rewrite Zlen_text by lia. split.
    + rewrite take_ge by (unfold Zlen in *; rewrite length_drop; lia). rewrite Ho1, (text_cons _ l), text_0 by lia. done.
    + eapply popped_trans; [exact Hp1|pose proof (Zlen_nonneg (text 0 (blocks lms))); lia|done|].
      by replace (Zlen m - sb_offset sb + Zlen (text 0 (blocks lms)) - (Zlen m - sb_offset sb)) with (Zlen (text 0 (blocks lms))) by lia.
Qed.

(** clearing returns the same nodes as reading everything *)
Lemma return_all_spec fuel p sb fl lms : buffer_state p sb fl lms → (List.length lms ≤ fuel)%nat →
  ∃ sb' p' fl', return_all fuel sb p = LRet (sb', p') ∧
    popped p sb fl lms (Zlen (text (sb_offset sb) (blocks lms))) sb' p' fl' (List.length lms).
Proof.
  intros Hst Hf. destruct (read_all_spec fuel p sb fl lms Hst Hf) as (sb' & p' & fl' & E & Hp).
  exists sb', p', fl'. split; [|done]. clear Hp Hf. revert p sb fl lms Hst E.
  induction fuel as [|fuel IH]; intros p sb fl lms Hst E.
  - destruct lms as [|[l m] lms]; [|pose proof (bs_chain _ _ _ _ Hst) as (Hh & _); cbn [read_all] in E; by rewrite Hh in E].
    pose proof (bs_chain _ _ _ _ Hst) as Hc. cbn in Hc. cbn [read_all return_all] in *. rewrite Hc in *. by injection E as _ <- <-.
  - destruct lms as [|[l m] lms].
    + pose proof (bs_chain _ _ _ _ Hst) as Hc. cbn in Hc. cbn [read_all return_all] in *. rewrite Hc in *. by injection E as _ <- <-.
    + destruct (node_at_chain _ _ _ _ _ _ Hst) as (Hh & Hm & nx & En & Hnx). pose proof (bs_offset _ _ _ _ Hst) as Ho. cbn in Ho.
      destruct (return_free_spec p sb fl l m lms Hst) as (sb1 & p1 & Er & Hst1 & Ho1 & Hs1 & Hc1).
      cbn [read_all return_all] in *. rewrite Hh in *. rewrite En, LRet_bind in E. cbn [bn_sz bn_msg bn_next msg_of deref lift] in E.
      rewrite LRet_bind, span_ok, LRet_bind, Er, LRet_bind in E by lia. rewrite Er, LRet_bind.
      destruct (read_all fuel sb1 p1) as [[[s2 sb2] p2]| | |] eqn:E2; try discriminate E. injection E as Ex <- <-.
      apply (IH _ _ _ _ Hst1). rewrite E2. do 3 f_equal. rewrite Ho1, text_0.
      change (m :: blocks lms) with (blocks ((l, m) :: lms)) in Ex. rewrite text_cons in Ex by lia. rewrite take_ge in Ex by (unfold Zlen in *; rewrite length_drop; lia).
      by apply app_inv_head in Ex.
Qed.

(** ** Pushing *)
Lemma new_nodes_other base n h k : ¬ (base ≤ k < base + Z.of_nat n) → new_nodes base n h !! k = h !! k.
Proof.
  revert base. induction n as [|n IH]; intros base Hk; [done|]. cbn [new_nodes].
  rewrite lookup_insert_ne by lia. apply IH. lia.
Qed.
Lemma new_nodes_some base n h k : base ≤ k < base + Z.of_nat n → is_Some (new_nodes base n h !! k).
Proof.
  revert base. induction n as [|n IH]; intros base Hk; [lia|]. cbn [new_nodes].
  destruct (decide (base = k)) as [->|]; [rewrite lookup_insert_eq; by eexists|]. rewrite lookup_insert_ne by done. apply IH. lia.
Qed.
Lemma new_nodes_chain base n h :
  free_chain (new_nodes base n h) (match n with O => None | S _ => Some base end) (seqZ base (Z.of_nat n)).
Proof.
  revert base. induction n as [|n IH]; intros base; [done|]. rewrite seqZ_cons by lia. cbn [new_nodes free_chain].
  split; [done|]. rewrite lookup_insert_eq. eexists. split; [done|].
  replace (Z.pred (Z.of_nat (S n))) with (Z.of_nat n) by lia. replace (Z.succ base) with (base + 1) by lia.
  specialize (IH (base + 1)). eapply free_chain_agree; [|destruct n; exact IH].
  intros k Hk%elem_of_seqZ. apply lookup_insert_ne. lia.
Qed.

(** the arrays of the pool hold the nodes 0, 1, ... *)
Definition pool_ok (p : pool) : Prop :=
  Forall (λ n, 0 ≤ n) (pages p) ∧ ∀ k, is_Some (nodes p !! k) ↔ 0 ≤ k < pool_nodes p.

Lemma page_size_positive tsz : 1 ≤ tsz → 16 ≤ page_size tsz.
Proof.
  intros H. unfold page_size, LARGE_PAGE_NODE. rewrite Z.shiftl_mul_pow2 by (case_bool_decide; lia).
  assert (2 ^ 1 ≤ 2 ^ (if bool_decide (tsz ≤ 12 - 3) then tsz else 12 - 3)) by (apply Z.pow_le_mono_r; try case_bool_decide; lia). lia.
Qed.

Lemma pool_nodes_snoc l n : foldr Z.add 0 (l ++ [n]) = foldr Z.add 0 l + n.
Proof. induction l as [|x l IH]; cbn in *; lia. Qed.

(** taking a free node: the list of free nodes is [l :: fl'], where nodes were
    added when there was none *)
Lemma get_free_node_spec p fl : pool_ok p → free_chain (nodes p) (free_node p) fl → NoDup fl →
  ∃ l p' fl' nx added,
    get_free_node p = LRet (l, p') ∧ l :: fl' = fl ++ added ∧
    nodes p' !! l = Some (BufferNode None 0 nx) ∧ free_chain (nodes p') nx fl' ∧ NoDup (l :: fl') ∧
    pool_ok p' ∧ released p' = released p ∧
    (∀ k, k ∉ added → nodes p' !! k = nodes p !! k) ∧ (∀ k, k ∈ added ↔ is_Some (nodes p' !! k) ∧ nodes p !! k = None).
Proof.
  intros Hok Hf Hnd. destruct fl as [|l fl].
  - cbn in Hf. unfold get_free_node. rewrite Hf. set (base := pool_nodes p).
    assert (1 ≤ table_size p) as Hts.
    { unfold table_size. destruct (pages p) as [|x l]; [done|]. rewrite Zlen_cons. pose proof (Zlen_nonneg l). lia. }
    pose proof (page_size_positive _ Hts) as Hps. set (sz := page_size (table_size p)) in *.
    set (p1 := if bool_decide _ then _ else _). destruct Hok as [Hpg Hdom].
    assert (nodes p1 = new_nodes base (Z.to_nat sz) (nodes p) ∧ pages p1 = pages p ++ [sz] ∧ released p1 = released p) as (En & Ep & Er).
    { unfold p1, lnewpool. by case_bool_decide. }
    assert (0 ≤ base) as Hbase.
    { unfold base, pool_nodes. clear -Hpg. induction Hpg; cbn; lia. }
    pose proof (new_nodes_chain base (Z.to_nat sz) (nodes p)) as Hc. rewrite <- En in Hc.
    rewrite Z2Nat.id in Hc by lia. rewrite seqZ_cons in Hc by lia. destruct Hc as (_ & nx & El & Hc).
    assert (NoDup (seqZ base sz)) as Hnds by apply NoDup_seqZ. rewrite seqZ_cons in Hnds by lia.
    assert (∀ k, k ∈ seqZ base sz ↔ is_Some (nodes p1 !! k) ∧ nodes p !! k = None) as Hadd.
    { intros k. rewrite elem_of_seqZ, En. split.
      - intros Hk. split; [apply new_nodes_some; lia|]. apply eq_None_not_Some. rewrite Hdom. fold base. lia.
      - intros [Hs Hn]. destruct (decide (base ≤ k < base + sz)) as [|Hout]; [done|].
        rewrite new_nodes_other in Hs by lia. rewrite Hn in Hs. by destruct Hs. }
    exists base, p1, (seqZ (Z.succ base) (Z.pred sz)), nx, (seqZ base sz). split_and!; try done.
    + rewrite (seqZ_cons base) by lia. done.
    + split.
      * rewrite Ep. apply Forall_app. split; [done|]. repeat constructor. lia.
      * intros k. unfold pool_nodes. rewrite Ep, pool_nodes_snoc. fold (pool_nodes p). fold base. rewrite En.
        destruct (decide (base ≤ k < base + sz)) as [Hin|Hout].
        -- split; [lia|]. intros _. apply new_nodes_some. lia.
        -- rewrite new_nodes_other, Hdom by lia. fold base. lia.
    + intros k Hk. rewrite elem_of_seqZ in Hk. rewrite En. apply new_nodes_other. lia.
  - destruct Hf as (Hf & nx & El & Hc). unfold get_free_node. rewrite Hf.
    exists l, p, fl, nx, []. rewrite app_nil_r. split_and!; try done.
    intros k. split; [intros Hk; by apply not_elem_of_nil in Hk|]. intros [Hs Hn]. rewrite Hn in Hs. by destruct Hs.
Qed.

Lemma chain_snoc h h' p lms l m nx : chain h p lms → lms ≠ [] → m ≠ [] → (∀ k, k ∈ lms.*1 → k ≠ l) → NoDup lms.*1 →
  h' !! l = Some (BufferNode (Some m) (Zlen m) nx) → nx = None →
  (∀ k t, last lms.*1 = Some t → k ∈ lms.*1 → k ≠ t → h' !! k = h !! k) →
  (∀ t n, last lms.*1 = Some t → h !! t = Some n → h' !! t = Some (BufferNode (bn_msg n) (bn_sz n) (Some l))) →
  chain h' p (lms ++ [(l, m)]).
Proof.
  intros Hc Hne Hm Hl Hnd El -> Hother Hlast. revert p Hc. induction lms as [|[k b] lms IH]; intros p Hc; [done|].
  destruct Hc as (-> & Hb & nx & Ek & Hc). cbn [app chain]. split; [done|]. split; [done|].
  cbn [fmap list_fmap fst] in *. apply NoDup_cons in Hnd as [Hk Hnd].
  destruct lms as [|[k2 b2] lms].
  - exists (Some l). split; [by apply (Hlast k _ eq_refl Ek)|]. cbn. split; [done|]. split; [done|]. by exists None.
  - exists nx. cbn [fmap list_fmap fst] in *. assert (last (k :: k2 :: lms.*1) = last (k2 :: lms.*1)) as Elast by done.
    assert (k ≠ k2 ∧ last (k2 :: lms.*1) ≠ Some k) as [Hkk Hkl].
    { split; [set_solver|]. intros E%last_Some_elem_of. done. }
    destruct (last (k2 :: lms.*1)) as [t|] eqn:Et; [|by apply last_None in Et].
    split; [rewrite (Hother k t); [done|done|set_solver|congruence]|].
    apply IH; try done.
    + intros j Hj. apply Hl. set_solver.
    + intros j t' Ht' Hj Hjt. apply (Hother j t'); [congruence|set_solver|done].
    + intros t' n Ht' En. apply Hlast; [congruence|done].
Qed.

(** what a push did to the nodes: [l] was free, or is new *)
Record pushed (p p' : pool) (fl fl' : list loc) (lms : list (loc * list Z)) (l : loc) : Prop := {
  pu_free : ∃ added, l :: fl' = fl ++ added ∧ ∀ k, k ∈ added ↔ is_Some (nodes p' !! k) ∧ nodes p !! k = None;
  pu_frame k : k ∉ l :: fl' ++ lms.*1 → nodes p' !! k = nodes p !! k;
  pu_released : released p' = released p;
  pu_ok : pool_ok p'
}.

Lemma last_tail_chain p sb fl lms : buffer_state p sb fl lms → lms ≠ [] →
  ∃ t m, sb_tail sb = Some t ∧ last lms.*1 = Some t ∧ t ∈ lms.*1 ∧ ∃ nx, nodes p !! t = Some (BufferNode (Some m) (Zlen m) nx).
Proof.
  intros [_ Hc Ht _ _] Hne. rewrite Ht. destruct (last lms.*1) as [t|] eqn:E; [|apply last_None in E; by destruct lms].
  assert (t ∈ lms.*1) as Hin by (by apply last_Some_elem_of).
  assert (∃ m nx, nodes p !! t = Some (BufferNode (Some m) (Zlen m) nx)) as (m & nx & Em).
  { clear -Hc Hin. revert Hc. generalize (sb_head sb). induction lms as [|[k b] lms IH]; intros q Hc; [by apply not_elem_of_nil in Hin|].
    destruct Hc as (-> & _ & nx & Ek & Hc). cbn in Hin. apply elem_of_cons in Hin as [->|Hin]; [eauto|by eapply IH]. }
  exists t, m. eauto 10.
Qed.

Lemma push_spec p sb fl lms msg : pool_ok p → buffer_state p sb fl lms → msg ≠ [] →
  0 ≤ sb_size sb → sb_size sb + Zlen msg ≤ INT_MAX →
  ∃ sb' p' l fl', lpushbuffer (Some sb) p (Some msg) (Zlen msg) = LRet (sb_size sb + Zlen msg, sb', p') ∧
    buffer_state p' sb' fl' (lms ++ [(l, msg)]) ∧ pushed p p' fl fl' lms l ∧
    sb_size sb' = sb_size sb + Zlen msg ∧ sb_offset sb' = sb_offset sb.
Proof.
  intros Hok Hst Hmsg Hs0 Hs1. pose proof Hst as [Hf Hc Ht Hnd Ho]. apply NoDup_app in Hnd as (Hndf & Hdis & Hndl).
  pose proof (Zlen_nonneg msg) as Hm0. unfold INT_MAX in Hs1.
  destruct (get_free_node_spec p fl Hok Hf Hndf) as (l & p1 & fl' & nx & added & Eg & Efl & El & Hf1 & Hnd1 & Hok1 & Hr1 & Hsame & Hadd).
  unfold lpushbuffer. rewrite i32_small, Eg, LRet_bind by lia. cbv beta iota.
  assert (node_at p1 (Some l) = LRet (BufferNode None 0 nx)) as -> by (unfold node_at; cbn; by rewrite El).
  rewrite LRet_bind. cbn [bn_next set_free nodes].
  set (h := <[l := BufferNode (Some msg) (Zlen msg) None]> (nodes p1)).
  assert (∀ k, k ∈ lms.*1 → k ∉ added) as Hnotadded.
  { intros k Hk Ha%Hadd. destruct Ha as [_ Hn]. destruct (chain_lookup _ _ _ _ Hc Hk) as [? E]. by rewrite Hn in E. }
  assert (∀ k, k ∈ lms.*1 → k ∉ l :: fl') as Hdis'.
  { intros k Hk. rewrite Efl. intros [Hin|Hin]%elem_of_app; [by apply (Hdis k)|by apply (Hnotadded k)]. }
  assert (∀ k, k ∈ lms.*1 → h !! k = nodes p !! k) as Hsame'.
  { intros k Hk. unfold h. rewrite lookup_insert_ne by (intros <-; apply (Hdis' l Hk); by left). apply Hsame. by apply Hnotadded. }
  apply NoDup_cons in Hnd1 as [Hlf Hndf'].
  assert (∀ h', (∀ k, k ∉ l :: lms.*1 → h' !! k = nodes p1 !! k) → free_chain h' nx fl') as Hfree.
  { intros h' Hh'. eapply free_chain_agree; [|exact Hf1]. intros k Hk. apply Hh'. intros [->|Hin]%elem_of_cons; [done|].
    apply (Hdis' k Hin). by right. }
  assert (NoDup (fl' ++ (lms ++ [(l, msg)]).*1)) as Hnd'.
  { rewrite fmap_app. cbn. apply NoDup_app. split; [done|]. split.
    - intros k Hk [Hin|Hin]%elem_of_app; [apply (Hdis' k Hin); by right|]. apply list_elem_of_singleton in Hin as ->. done.
    - apply NoDup_app. split; [done|]. split; [|apply NoDup_singleton]. intros k Hk Hin.
      apply list_elem_of_singleton in Hin as ->. apply (Hdis' l Hk). by left. }
  assert (∀ h', (∀ k, is_Some (h' !! k) ↔ is_Some (nodes p1 !! k)) → (∀ k, k ∉ l :: lms.*1 → h' !! k = nodes p1 !! k) →
    pushed p (set_nodes h' (set_free nx p1)) fl fl' lms l) as Hpushed.
  { intros h' Hd' Hh'. split; cbn [nodes set_nodes set_free released].
    - exists added. split; [done|]. intros k. by rewrite Hadd, Hd'.
    - intros k Hk. rewrite Hh', Hsame; [done| |set_solver]. intros Hin. apply Hk.
      assert (k ∈ l :: fl') by (rewrite Efl; set_solver). set_solver.
    - done.
    - destruct Hok1 as [Hpg Hdom]. split; [done|]. intros k. cbn [nodes set_nodes set_free]. by rewrite Hd'. }
  assert (∀ k, is_Some (h !! k) ↔ is_Some (nodes p1 !! k)) as Hhd.
  { intros k. unfold h. destruct (decide (k = l)) as [->|]; [rewrite lookup_insert_eq, El; split; by eexists|by rewrite lookup_insert_ne]. }
  assert (offset_ok (sb_offset sb) (blocks (lms ++ [(l, msg)]))) as Ho'.
  { unfold blocks. rewrite fmap_app. destruct lms as [|[k b] lms]; [|done]. cbn in Ho |- *. rewrite Ho.
    destruct msg; [done|]. rewrite Zlen_cons. pose proof (Zlen_nonneg msg). lia. }
  destruct lms as [|[k b] lms].
  - cbn in Hc. rewrite Hc. cbn [fmap list_fmap last] in Ht. rewrite Ht. rewrite bool_decide_eq_true_2 by done. cbn [cassert lift].
    rewrite !LRet_bind. unfold int_of. rewrite chk_int_ok by (unfold INT_MAX; cbn [sb_size]; lia). cbn [lift sb_size]. rewrite LRet_bind.
    do 4 eexists. split; [done|]. split; [|split; [apply Hpushed; [done|]|done]].
    + split; cbn [nodes free_node set_nodes set_free sb_head sb_tail sb_offset app]; try done.
      * apply Hfree. intros j Hj. unfold h. apply lookup_insert_ne. set_solver.
      * cbn. split; [done|]. split; [done|]. exists None. unfold h. by rewrite lookup_insert_eq.
    + intros j Hj. unfold h. apply lookup_insert_ne. set_solver.
  - destruct (last_tail_chain _ _ _ _ Hst ltac:(done)) as (t & bm & Et & El2 & Hin & nxt & En).
    pose proof Hc as (Hh & _). rewrite Hh, Et. cbn [deref lift]. rewrite LRet_bind.
    assert (node_at (set_nodes h (set_free nx p1)) (Some t) = LRet (BufferNode (Some bm) (Zlen bm) nxt)) as ->.
    { unfold node_at. cbn [deref mbind outcome_bind lift nodes set_nodes set_free]. by rewrite Hsame', En. }
    rewrite !LRet_bind. unfold int_of. rewrite chk_int_ok by (unfold INT_MAX; cbn [sb_size]; lia). cbn [lift sb_size bn_msg bn_sz sb_offset sb_head sb_tail]. rewrite LRet_bind.
    cbn [nodes set_nodes set_free].
    set (h' := <[t := BufferNode (Some bm) (Zlen bm) (Some l)]> h).
    assert (∀ j, j ∉ l :: ((k, b) :: lms).*1 → h' !! j = nodes p1 !! j) as Hout.
    { intros j Hj. unfold h', h. rewrite !lookup_insert_ne; [done| |]; intros <-; set_solver. }
    exists (SocketBuffer (sb_size sb + Zlen msg) (sb_offset sb) (Some k) (Some l)), (set_nodes h' (set_free nx p1)), l, fl'.
    split; [by rewrite <- Hh|]. split; [|split; [apply Hpushed; [|done]|done]].
    + split; cbn [nodes free_node set_nodes set_free sb_head sb_tail sb_offset]; try done.
      * by apply Hfree.
      * rewrite <- Hh. eapply (chain_snoc (nodes p) h'); try done.
        -- intros j Hj ->. apply (Hdis' l Hj). by left.
        -- unfold h'. rewrite lookup_insert_ne by (intros ->; apply (Hdis' l Hin); by left). unfold h. by rewrite lookup_insert_eq.
        -- intros j t' Ht' Hj Hne. assert (t' = t) as -> by congruence. unfold h'. rewrite lookup_insert_ne by done. by apply Hsame'.
        -- intros t' n Ht' En'. assert (t' = t) as -> by congruence. rewrite En in En'. injection En' as <-. unfold h'. by rewrite lookup_insert_eq.
      * rewrite fmap_app, last_app. done.
    + intros j. unfold h'. destruct (decide (j = t)) as [->|]; [|by rewrite lookup_insert_ne].
      rewrite lookup_insert_eq. rewrite <- Hhd, Hsame', En by done. split; by eexists.
Qed.

(** ** Searching a separator *)
Definition starts_with (sep t : list Z) : bool := bool_decide (take (List.length sep) t = sep).
(** the first place where the separator stands *)
Fixpoint find_sep (sep t : list Z) : option Z :=
  if starts_with sep t then Some 0
  else match t with [] => None | _ :: t => Z.succ <$> find_sep sep t end.

Lemma find_sep_unfold sep t : find_sep sep t =
  if starts_with sep t then Some 0 else match t with [] => None | _ :: t => Z.succ <$> find_sep sep t end.
Proof. by destruct t. Qed.

Lemma starts_with_short sep t : Zlen t < Zlen sep → starts_with sep t = false.
Proof.
  intros H. apply bool_decide_eq_false_2. intros E%(f_equal List.length). rewrite length_take in E. unfold Zlen in H. lia.
Qed.
Lemma find_sep_short sep t : Zlen t < Zlen sep → find_sep sep t = None.
Proof.
  induction t as [|x t IH]; intros H; rewrite find_sep_unfold, starts_with_short by done; [done|].
  rewrite IH; [done|]. rewrite Zlen_cons in H. lia.
Qed.
Lemma find_sep_range sep t i : find_sep sep t = Some i → 0 ≤ i ∧ i + Zlen sep ≤ Zlen t.
Proof.
  revert i. induction t as [|x t IH]; intros i; rewrite find_sep_unfold.
  - destruct (starts_with sep []) eqn:E; [|done]. intros [= <-].
    destruct (decide (Zlen ([] : list Z) < Zlen sep)) as [Hs|]; [by rewrite starts_with_short in E|lia].
  - destruct (starts_with sep (x :: t)) eqn:E.
    + intros [= <-]. destruct (decide (Zlen (x :: t) < Zlen sep)) as [Hs|]; [by rewrite starts_with_short in E|lia].
    + destruct (find_sep sep t) as [j|]; [|done]. intros [= <-]. rewrite Zlen_cons. specialize (IH j eq_refl). lia.
Qed.

Lemma chain_node h p l m lms : chain (nodes h) p ((l, m) :: lms) → ∃ nx,
  node_at h p = LRet (BufferNode (Some m) (Zlen m) nx) ∧ chain (nodes h) nx lms.
Proof.
  intros (-> & Hm & nx & El & Hc). exists nx. split; [|done]. unfold node_at. cbn [deref mbind outcome_bind lift]. by rewrite El.
Qed.

Lemma split_prefix (a sep t : list Z) k : k = List.length a → (List.length a ≤ List.length sep)%nat →
  bool_decide (a ++ take (List.length sep - List.length a) t = sep) =
  bool_decide (a = take k sep) && starts_with (drop k sep) t.
Proof.
  intros -> Hl. apply eq_true_iff_eq. unfold starts_with. rewrite andb_true_iff, !bool_decide_eq_true, length_drop.
  split.
  - intros E. rewrite <- E. split; [by rewrite take_app_length|]. rewrite drop_app_length. by rewrite E.
  - intros [E1 E2]. rewrite E2. rewrite E1 at 1. apply take_drop.
Qed.

Lemma check_sep_spec fuel p node l m lms from sep : chain (nodes p) node ((l, m) :: lms) → 0 ≤ from ≤ Zlen m →
  Zlen sep ≤ Zlen (drop (Z.to_nat from) m ++ mjoin (blocks lms)) → (List.length lms < fuel)%nat →
  check_sep fuel p node from sep = LRet (starts_with sep (drop (Z.to_nat from) m ++ mjoin (blocks lms))).
Proof.
  revert node l m lms from sep. induction fuel as [|fuel IH]; intros node l m lms from sep Hc Hfrom Hsep Hf; [lia|].
  destruct (chain_node _ _ _ _ _ Hc) as (nx & En & Hnx). cbn [check_sep]. rewrite En, LRet_bind.
  cbn [bn_sz bn_msg bn_next msg_of deref lift]. pose proof (Zlen_nonneg sep).
  assert (Zlen (drop (Z.to_nat from) m) = Zlen m - from) as Hd by (unfold Zlen in *; rewrite length_drop; lia).
  rewrite Zlen_app, Hd in Hsep. unfold starts_with.
  case_bool_decide as Hlt.
  - rewrite LRet_bind, span_ok, LRet_bind by lia. f_equal.
    rewrite take_app_le by (unfold Zlen in *; lia). unfold Zlen. by rewrite (Nat2Z.id (List.length sep)).
  - assert (∃ l2 m2 lms2, lms = (l2, m2) :: lms2) as (l2 & m2 & lms2 & ->).
    { destruct lms as [|[l2 m2] lms2]; [|eauto]. change (Zlen (mjoin (blocks []))) with 0 in Hsep. lia. }
    rewrite take_app_ge by (unfold Zlen in *; lia).
    assert (∀ rest, rest = drop (Z.to_nat (Zlen m - from)) sep →
      check_sep fuel p nx 0 rest = LRet (starts_with rest (mjoin (blocks ((l2, m2) :: lms2))))) as Hrec.
    { intros rest ->. rewrite (IH nx l2 m2 lms2); [by rewrite drop_0|done|pose proof (Zlen_nonneg m2); lia| |cbn in Hf; lia].
      rewrite drop_0. change (m2 ++ mjoin (blocks lms2)) with (mjoin (blocks ((l2, m2) :: lms2))).
      unfold Zlen in *. rewrite length_drop. lia. }
    assert (bool_decide (drop (Z.to_nat from) m ++ take (List.length sep - List.length (drop (Z.to_nat from) m)) (mjoin (blocks ((l2, m2) :: lms2))) = sep) =
      bool_decide (drop (Z.to_nat from) m = take (Z.to_nat (Zlen m - from)) sep) &&
      starts_with (drop (Z.to_nat (Zlen m - from)) sep) (mjoin (blocks ((l2, m2) :: lms2)))) as ->.
    { apply split_prefix; unfold Zlen in *; lia. }
    destruct (decide (0 < Zlen m - from)) as [Hpos|Hpos].
    + rewrite bool_decide_eq_true_2, LRet_bind, span_ok, !LRet_bind by lia.
      rewrite (take_ge (drop (Z.to_nat from) m)) by (unfold Zlen in *; rewrite length_drop; lia).
      case_bool_decide; [by rewrite Hrec|done].
    + rewrite bool_decide_eq_false_2 by lia. rewrite LRet_bind. assert (from = Zlen m) as -> by lia.
      rewrite Hrec by done. rewrite bool_decide_eq_true_2; [done|].
      replace (Z.to_nat (Zlen m - Zlen m)) with 0%nat by lia. rewrite take_0. apply drop_ge. unfold Zlen. lia.
Qed.

(** the round at which the text after the current position is [drop from m ++ ...] *)
Lemma readline_loop_spec todo p sb fl lms (check : bool) sep i current from l m rest :
  buffer_state p sb fl lms → chain (nodes p) current ((l, m) :: rest) → (List.length rest < List.length lms)%nat →
  0 ≤ from < Zlen m → 0 ≤ i → sb_size sb = Zlen (text (sb_offset sb) (blocks lms)) → sb_size sb ≤ INT_MAX →
  let t := drop (Z.to_nat from) m ++ mjoin (blocks rest) in
  drop (Z.to_nat i) (text (sb_offset sb) (blocks lms)) = t → todo = Z.to_nat (Zlen t - Zlen sep + 1) →
  match find_sep sep t with
  | None => readline_loop todo sb p check sep i current from (Zlen m - from) = LRet (NoLine, sb, p)
  | Some j =>
      if check then readline_loop todo sb p check sep i current from (Zlen m - from) = LRet (HasLine, sb, p)
      else ∃ sb' p' fl' n,
        readline_loop todo sb p check sep i current from (Zlen m - from) =
          LRet (Line (take (Z.to_nat (i + j)) (text (sb_offset sb) (blocks lms))), set_size (sb_size sb - (i + j + Zlen sep)) sb', p') ∧
        popped p sb fl lms (i + j + Zlen sep) sb' p' fl' n
  end.
Proof.
  intros Hst. revert i current from l m rest. induction todo as [|todo IH]; intros i current from l m rest Hc Hlen Hfrom Hi Hsz Hmax t Ht Htodo.
  { rewrite find_sep_short by lia. done. }
  pose proof (Zlen_nonneg sep) as Hsep0. pose proof (Zlen_nonneg t) as Ht0.
  pose proof (chain_length_dom _ _ _ (bs_chain _ _ _ _ Hst)) as Hdom.
  pose proof (bs_nodup _ _ _ _ Hst) as Hnd. apply NoDup_app in Hnd as (_ & _ & Hnd). specialize (Hdom Hnd).
  cbn [readline_loop]. rewrite (check_sep_spec _ p current l m rest from sep); [|done|lia|fold t; lia|lia]. fold t. rewrite LRet_bind.
  assert (Zlen t = Zlen m - from + Zlen (mjoin (blocks rest))) as Htl.
  { unfold t. rewrite Zlen_app. unfold Zlen in *. rewrite length_drop. lia. }
  rewrite find_sep_unfold. destruct (starts_with sep t) eqn:Esw.
  - destruct check; [done|]. rewrite Z.add_0_r.
    assert (Zlen t = Zlen (text (sb_offset sb) (blocks lms)) - i) as Htt.
    { rewrite <- Ht. unfold Zlen. rewrite length_drop. assert (0 < Zlen t) as Hpos by (pose proof (Zlen_nonneg (mjoin (blocks rest))); lia).
      rewrite <- Ht in Hpos. unfold Zlen in Hpos. rewrite length_drop in Hpos. lia. }
    destruct (pop_lstring_spec p sb fl lms (i + Zlen sep) (Zlen sep) Hst) as (sb' & p' & fl' & n & E & Hp);
      [by destruct lms; [cbn in Hlen; lia|]|lia|lia|].
    rewrite E, LRet_bind. unfold int_of. rewrite (po_size _ _ _ _ _ _ _ _ _ Hp), chk_int_ok by (unfold INT_MAX in *; lia).
    cbn [lift]. rewrite LRet_bind. exists sb', p', fl', n. replace (i + Zlen sep - Zlen sep) with i by lia. done.
  - assert (sep ≠ ([] : list Z)) as Hne.
    { intros ->. apply bool_decide_eq_false in Esw. cbn in Esw. by rewrite take_0 in Esw. }
    assert (∃ x t', t = x :: t') as (x & t' & Et).
    { destruct t as [|x t']; [|eauto]. rewrite Zlen_nil in Htl. pose proof (Zlen_nonneg (mjoin (blocks rest))). lia. }
    assert (drop (Z.to_nat (i + 1)) (text (sb_offset sb) (blocks lms)) = t') as Ht'.
    { replace (Z.to_nat (i + 1)) with (Z.to_nat i + 1)%nat by lia. rewrite <- drop_drop, Ht, Et. done. }
    assert (todo = Z.to_nat (Zlen t' - Zlen sep + 1)) as Htodo'.
    { rewrite Et, Zlen_cons in Htodo. lia. }
    rewrite Et. destruct (chain_node _ _ _ _ _ Hc) as (nx & En & Hnx).
    assert (∀ k, (match find_sep sep t' with Some j => Some (Z.succ j) | None => None end) = k →
      Z.succ <$> find_sep sep t' = k) as Hk by (intros k <-; done).
    destruct (decide (Zlen m - from - 1 = 0)) as [Hlast|Hmore].
    + rewrite bool_decide_eq_true_2 by done. rewrite En, LRet_bind. cbn [bn_next].
      assert (t' = mjoin (blocks rest)) as Et'.
      { pose proof Et as E. unfold t in E. destruct (drop (Z.to_nat from) m) as [|y r] eqn:Ed.
        - apply (f_equal List.length) in Ed. rewrite length_drop in Ed. cbn in Ed. unfold Zlen in *. lia.
        - assert (r = []) as ->; [|cbn in E; by injection E].
          apply (f_equal List.length) in Ed. rewrite length_drop in Ed. cbn in Ed. unfold Zlen in *. destruct r; [done|cbn in Ed; lia]. }
      destruct rest as [|[l2 m2] rest].
      * cbn in Hnx. subst nx. assert (t' = []) as -> by done. cbn [find_sep].
        rewrite starts_with_short; [done|]. destruct sep; [done|]. rewrite Zlen_cons, Zlen_nil. pose proof (Zlen_nonneg sep). lia.
      * pose proof Hnx as Hnx'. destruct Hnx' as (-> & Hm2 & nx2 & El2 & _). destruct (chain_node _ _ _ _ _ Hnx) as (nx2' & En2 & _).
        rewrite En2, LRet_bind. cbn [bn_sz].
        specialize (IH (i + 1) (Some l2) 0 l2 m2 rest Hnx ltac:(cbn in Hlen; lia)).
        rewrite drop_0, Z.sub_0_r in IH. change (m2 ++ mjoin (blocks rest)) with (mjoin (blocks ((l2, m2) :: rest))) in IH.
        rewrite <- Et' in IH. cbv zeta in IH.
        assert (0 < Zlen m2) by (destruct m2; [done|rewrite Zlen_cons; pose proof (Zlen_nonneg m2); lia]).
        specialize (IH ltac:(lia) ltac:(lia) Hsz Hmax Ht' Htodo').
        destruct (find_sep sep t') as [j|]; cbn [fmap option_fmap option_map]; [|done].
        replace (i + Z.succ j) with (i + 1 + j) by lia. done.
    + rewrite bool_decide_eq_false_2 by done.
      assert (t' = drop (Z.to_nat (from + 1)) m ++ mjoin (blocks rest)) as Et'.
      { pose proof Et as E. unfold t in E. replace (Z.to_nat (from + 1)) with (Z.to_nat from + 1)%nat by lia. rewrite <- drop_drop.
        destruct (drop (Z.to_nat from) m) as [|y r] eqn:Ed; [|cbn in E |- *; rewrite drop_0; by injection E].
        apply (f_equal List.length) in Ed. rewrite length_drop in Ed. cbn in Ed. unfold Zlen in *. lia. }
      specialize (IH (i + 1) current (from + 1) l m rest Hc Hlen ltac:(lia) ltac:(lia) Hsz Hmax).
      cbv zeta in IH. rewrite <- Et' in IH. specialize (IH Ht' Htodo'). replace (Zlen m - (from + 1)) with (Zlen m - from - 1) in IH by lia.
      destruct (find_sep sep t') as [j|]; cbn [fmap option_fmap option_map]; [|done].
      replace (i + Z.succ j) with (i + 1 + j) by lia. done.
Qed.

Lemma lreadline_spec p sb fl lms (check : bool) sep : buffer_state p sb fl lms → lms ≠ [] →
  sb_size sb = Zlen (text (sb_offset sb) (blocks lms)) → sb_size sb ≤ INT_MAX →
  let t := text (sb_offset sb) (blocks lms) in
  match find_sep sep t with
  | None => lreadline (Some sb) p check sep = LRet (NoLine, sb, p)
  | Some j =>
      if check then lreadline (Some sb) p check sep = LRet (HasLine, sb, p)
      else ∃ sb' p' fl' n,
        lreadline (Some sb) p check sep = LRet (Line (take (Z.to_nat j) t), set_size (sb_size sb - (j + Zlen sep)) sb', p') ∧
        popped p sb fl lms (j + Zlen sep) sb' p' fl' n
  end.
Proof.
  intros Hst Hne Hsz Hmax t. destruct lms as [|[l m] lms]; [done|].
  destruct (node_at_chain _ _ _ _ _ _ Hst) as (Hh & Hm & nx & En & Hnx).
  pose proof (bs_offset _ _ _ _ Hst) as Ho. cbn in Ho. unfold lreadline. rewrite Hh, En, LRet_bind. cbn [bn_sz].
  pose proof (bs_chain _ _ _ _ Hst) as Hc. rewrite Hh in Hc.
  pose proof (readline_loop_spec (Z.to_nat (sb_size sb - Zlen sep + 1)) p sb fl ((l, m) :: lms) check sep 0 (Some l) (sb_offset sb) l m lms
    Hst Hc ltac:(cbn; lia) Ho ltac:(lia) Hsz Hmax) as H.
  cbv zeta in H. rewrite drop_0, <- (text_cons (sb_offset sb) l m lms) in H by lia. fold t in H. specialize (H eq_refl ltac:(by rewrite Hsz)).
  exact H.
Qed.

(** ** The buffers of a service and their pool

    All buffers of a service share one pool. Whatever is done with one of them,
    its bytes are those of a stream, the others keep theirs, every node belongs
    to one buffer or is free, and a block is freed when its last byte is read. *)
Record service : Type := Service { sv_pool : pool; sv_bufs : gmap Z socket_buffer }.

Inductive op : Type :=
  | NewBuffer (i : Z)
  | Push (i : Z) (msg : list Z)
  | Pop (i sz : Z)
  | ReadAll (i : Z)
  | Clear (i : Z)
  | ReadLine (i : Z) (sep : list Z)
  | CheckLine (i : Z) (sep : list Z).

Inductive answer_ : Type :=
  | Nothing
  | Size (n : Z)
  | Popped (s : option (list Z)) (n : Z)
  | Text (s : list Z)
  | LineIs (l : line).

Definition store_buffer (i : Z) (sb : socket_buffer) (p : pool) (sv : service) : service :=
  Service p (<[i := sb]> (sv_bufs sv)).

Definition run_op (sv : service) (o : op) : lua (answer_ * service) :=
  let p := sv_pool sv in
  match o with
  | NewBuffer i => LRet (Nothing, store_buffer i lnewbuffer p sv)
  | Push i msg => '(n, sb, p) ← lpushbuffer (sv_bufs sv !! i) p (Some msg) (Zlen msg); LRet (Size n, store_buffer i sb p sv)
  | Pop i sz => '(s, n, sb, p) ← lpopbuffer (sv_bufs sv !! i) p sz; LRet (Popped s n, store_buffer i sb p sv)
  | ReadAll i => '(s, sb, p) ← lreadall (sv_bufs sv !! i) p; LRet (Text s, store_buffer i sb p sv)
  | Clear i =>
      r ← lclearbuffer (sv_bufs sv !! i) true p;
      match r with Some (sb, p) => LRet (Nothing, store_buffer i sb p sv) | None => LRet (Nothing, sv) end
  | ReadLine i sep => '(l, sb, p) ← lreadline (sv_bufs sv !! i) p false sep; LRet (LineIs l, store_buffer i sb p sv)
  | CheckLine i sep => '(l, sb, p) ← lreadline (sv_bufs sv !! i) p true sep; LRet (LineIs l, store_buffer i sb p sv)
  end.

(** ** The specification: a stream of bytes per buffer *)
Definition op_buffer (o : op) : Z :=
  match o with
  | NewBuffer i | Push i _ | Pop i _ | ReadAll i | Clear i | ReadLine i _ | CheckLine i _ => i
  end.
Definition stream_op (bs : list Z) (o : op) : answer_ * list Z :=
  match o with
  | NewBuffer _ => (Nothing, [])
  | Push _ msg => (Size (Zlen bs + Zlen msg), bs ++ msg)
  | Pop _ sz =>
      if bool_decide (Zlen bs < sz ∨ sz = 0) then (Popped None (Zlen bs), bs)
      else (Popped (Some (take (Z.to_nat sz) bs)) (Zlen bs - sz), drop (Z.to_nat sz) bs)
  | ReadAll _ => (Text bs, [])
  | Clear _ => (Nothing, [])
  | ReadLine _ sep =>
      match bs, find_sep sep bs with
      | _ :: _, Some j => (LineIs (Line (take (Z.to_nat j) bs)), drop (Z.to_nat (j + Zlen sep)) bs)
      | _, _ => (LineIs NoLine, bs)
      end
  | CheckLine _ sep =>
      match bs, find_sep sep bs with _ :: _, Some _ => (LineIs HasLine, bs) | _, _ => (LineIs NoLine, bs) end
  end.
(** no block is empty, no size overflows *)
Definition op_ok (bs : option (list Z)) (o : op) : Prop :=
  match o, bs with
  | NewBuffer _, None => True
  | Push _ msg, Some bs => msg ≠ [] ∧ Zlen bs + Zlen msg ≤ INT_MAX
  | Pop _ sz, Some _ => 0 ≤ sz ≤ INT_MAX
  | (ReadAll _ | Clear _ | ReadLine _ _ | CheckLine _ _), Some _ => True
  | _, _ => False
  end.

(** a buffer holds blocks, the first of which is read up to the offset *)
Abbreviation held := (prod (list (list Z)) Z) (only parsing).
Definition bytes_of (h : held) : list Z := text h.2 h.1.
Definition given (o : op) : list (list Z) := match o with Push _ msg => [msg] | _ => [] end.

(** ** The invariant *)
Record buffer_inv (sv : service) (fl : list loc) (i : Z) (lms : list (loc * list Z)) (h : held) : Prop := {
  bi_buf : ∃ sb, sv_bufs sv !! i = Some sb ∧ buffer_state (sv_pool sv) sb fl lms ∧ h = (blocks lms, sb_offset sb) ∧
    sb_size sb = Zlen (bytes_of h) ∧ sb_size sb ≤ INT_MAX
}.
Record service_state (sv : service) (fl : list loc) (L : gmap Z (list (loc * list Z))) (S : gmap Z held) : Prop := {
  ss_ok : pool_ok (sv_pool sv);
  ss_free : free_chain (nodes (sv_pool sv)) (free_node (sv_pool sv)) fl;
  ss_nodup : NoDup fl;
  ss_some i lms : L !! i = Some lms → ∃ h, S !! i = Some h ∧ buffer_inv sv fl i lms h;
  ss_none i : L !! i = None → S !! i = None ∧ sv_bufs sv !! i = None;
  ss_disjoint i j li lj k : L !! i = Some li → L !! j = Some lj → k ∈ li.*1 → k ∈ lj.*1 → i = j;
  ss_cover k : is_Some (nodes (sv_pool sv) !! k) → k ∈ fl ∨ ∃ i lms, L !! i = Some lms ∧ k ∈ lms.*1
}.
Definition service_inv (sv : service) (S : gmap Z held) : Prop := ∃ fl L, service_state sv fl L S.

Lemma consumed_mem p p' fl fl' lms n : consumed p p' fl fl' lms n →
  ∀ k, k ∈ fl' ↔ k ∈ fl ∨ k ∈ take n lms.*1.
Proof. intros [-> _ _ _ _ _] k. rewrite elem_of_app, elem_of_reverse. tauto. Qed.

Lemma take_drop_mem {A} n (l : list A) k : k ∈ l ↔ k ∈ take n l ∨ k ∈ drop n l.
Proof. rewrite <- elem_of_app, take_drop. done. Qed.

(** the buffers that are not touched *)
Lemma other_buffer p p' fl fl' lms n sb2 lms2 : consumed p p' fl fl' lms n → buffer_state p sb2 fl lms2 →
  free_chain (nodes p') (free_node p') fl' → NoDup fl' → (∀ k, k ∈ lms.*1 → k ∈ lms2.*1 → False) → buffer_state p' sb2 fl' lms2.
Proof.
  intros Hc [Hf Hch Ht Hnd Ho] Hf' Hnd' Hdis. split; try done.
  - eapply chain_agree; [|exact Hch]. intros k Hk. apply (co_frame _ _ _ _ _ _ Hc).
    intros [Hin|Hin]%elem_of_app; [|by apply (Hdis k)]. apply NoDup_app in Hnd as (_ & Hd & _). by apply (Hd k).
  - apply NoDup_app in Hnd as (_ & Hd & Hnl). apply NoDup_app. split; [done|]. split; [|done].
    intros k Hk Hin. apply (consumed_mem _ _ _ _ _ _ Hc) in Hk as [Hk|Hk]; [by apply (Hd k)|].
    apply (Hdis k); [|done]. apply (take_drop_mem n). by left.
Qed.

(** reading from buffer [i] *)
Lemma read_state sv fl L S i sb lms sz sb' p' fl' n : service_state sv fl L S → L !! i = Some lms →
  sv_bufs sv !! i = Some sb → popped (sv_pool sv) sb fl lms sz sb' p' fl' n → 0 ≤ sz ≤ sb_size sb →
  let h' := (blocks (drop n lms), sb_offset sb') in
  service_inv (store_buffer i (set_size (sb_size sb - sz) sb') p' sv) (<[i := h']> S) ∧
  (∃ h, S !! i = Some h ∧ bytes_of h' = drop (Z.to_nat sz) (bytes_of h) ∧
    ∃ freed, released p' = released (sv_pool sv) ++ freed ∧ freed ++ h'.1 = h.1).
Proof.
  intros [Hok Hf Hnd Hsome Hnone Hdis Hcov] HL Hsb [Hst Hcon Hsize Htext] Hsz h'.
  destruct (Hsome i lms HL) as (h & HS & [(sb0 & Hsb0 & Hst0 & Hh & Hlen & Hmax)]). rewrite Hsb in Hsb0. injection Hsb0 as <-. subst h.
  cbn [bytes_of fst snd] in *. unfold bytes_of in Hlen. cbn [fst snd] in Hlen.
  pose proof (bs_free _ _ _ _ Hst) as Hf'. pose proof (bs_nodup _ _ _ _ Hst) as Hnd'. apply NoDup_app in Hnd' as (Hnd' & _ & _).
  split.
  - exists fl', (<[i := drop n lms]> L). split; cbn [sv_pool sv_bufs store_buffer]; try done.
    + destruct Hok as [Hpg Hdom]. split; [by rewrite (co_pages _ _ _ _ _ _ Hcon)|]. intros k.
      unfold pool_nodes. rewrite (co_pages _ _ _ _ _ _ Hcon). fold (pool_nodes (sv_pool sv)). rewrite <- Hdom.
      rewrite <- !elem_of_dom. by rewrite (co_dom _ _ _ _ _ _ Hcon).
    + intros j lj Hj. destruct (decide (i = j)) as [<-|Hne].
      * rewrite lookup_insert_eq in Hj. rewrite lookup_insert_eq. injection Hj as <-. exists h'. split; [done|]. split.
        exists (set_size (sb_size sb - sz) sb'). cbn [sv_bufs store_buffer sv_pool]. rewrite lookup_insert_eq. split; [done|]. split; [by destruct Hst|].
        split; [done|]. unfold bytes_of, h'. cbn [fst snd set_size sb_size]. rewrite Htext. split; [|lia].
        rewrite Hlen. unfold Zlen. rewrite length_drop. unfold Zlen in Hlen. lia.
      * rewrite lookup_insert_ne in Hj by done. rewrite lookup_insert_ne by done. destruct (Hsome j lj Hj) as (hj & HSj & [(sbj & Hsbj & Hstj & Hhj)]).
        exists hj. split; [done|]. split. exists sbj. cbn [sv_bufs store_buffer sv_pool]. rewrite lookup_insert_ne by done.
        split; [done|]. split; [|done]. eapply other_buffer; try done.
        intros k Hk1 Hk2. apply Hne. by apply (Hdis i j lms lj k).
    + intros j Hj. destruct (decide (i = j)) as [<-|Hne]; [by rewrite lookup_insert_eq in Hj|].
      rewrite lookup_insert_ne in Hj by done. rewrite lookup_insert_ne by done. rewrite lookup_insert_ne by done. by apply Hnone.
    + intros j1 j2 l1 l2 k H1 H2 Hk1 Hk2.
      assert (∀ j lj, <[i := drop n lms]> L !! j = Some lj → k ∈ lj.*1 → ∃ lj', L !! j = Some lj' ∧ k ∈ lj'.*1) as Hback.
      { intros j lj Hj Hk. destruct (decide (i = j)) as [<-|Hne]; [|rewrite lookup_insert_ne in Hj by done; eauto].
        rewrite lookup_insert_eq in Hj. injection Hj as <-. exists lms. split; [done|]. rewrite fmap_drop in Hk.
        apply (take_drop_mem n). by right. }
      destruct (Hback _ _ H1 Hk1) as (l1' & H1' & Hk1'). destruct (Hback _ _ H2 Hk2) as (l2' & H2' & Hk2').
      by apply (Hdis _ _ _ _ k H1' H2').
    + intros k Hk. rewrite <- elem_of_dom, (co_dom _ _ _ _ _ _ Hcon), elem_of_dom in Hk.
      rewrite (consumed_mem _ _ _ _ _ _ Hcon). destruct (Hcov k Hk) as [Hin|(j & lj & Hj & Hin)]; [by left; left|].
      destruct (decide (i = j)) as [<-|Hne].
      * rewrite HL in Hj. injection Hj as <-. apply (take_drop_mem n) in Hin as [Hin|Hin]; [by left; right|].
        right. exists i, (drop n lms). rewrite lookup_insert_eq, fmap_drop. done.
      * right. exists j, lj. by rewrite lookup_insert_ne.
  - exists (blocks lms, sb_offset sb). split; [done|]. unfold bytes_of, h'. cbn [fst snd]. split; [done|].
    exists (take n (blocks lms)). split; [apply (co_released _ _ _ _ _ _ Hcon)|]. unfold blocks. rewrite fmap_drop. apply take_drop.
Qed.

(** pushing into buffer [i] *)
Lemma push_state sv fl L S i sb lms msg sb' p' l fl' : service_state sv fl L S → L !! i = Some lms →
  sv_bufs sv !! i = Some sb → buffer_state p' sb' fl' (lms ++ [(l, msg)]) → pushed (sv_pool sv) p' fl fl' lms l →
  sb_size sb' = sb_size sb + Zlen msg → sb_offset sb' = sb_offset sb → sb_size sb + Zlen msg ≤ INT_MAX →
  let h' := (blocks lms ++ [msg], sb_offset sb') in
  service_inv (store_buffer i sb' p' sv) (<[i := h']> S) ∧
  (∃ h, S !! i = Some h ∧ bytes_of h' = bytes_of h ++ msg ∧ released p' = released (sv_pool sv) ∧ h'.1 = h.1 ++ [msg]).
Proof.
  intros [Hok Hf Hnd Hsome Hnone Hdis Hcov] HL Hsb Hst Hpu Hsize Hoff Hmax h'.
  destruct (Hsome i lms HL) as (h & HS & [(sb0 & Hsb0 & Hst0 & Hh & Hlen & _)]). rewrite Hsb in Hsb0. injection Hsb0 as <-. subst h.
  unfold bytes_of in Hlen. cbn [fst snd] in Hlen.
  pose proof (bs_nodup _ _ _ _ Hst) as Hnd'. apply NoDup_app in Hnd' as (Hnd' & Hdis' & _).
  pose proof (pu_free _ _ _ _ _ _ Hpu) as (added & Efl & Hadd).
  assert (∀ k, k ∈ l :: fl' ↔ k ∈ fl ∨ k ∈ added) as Hmem by (intros k; by rewrite Efl, elem_of_app).
  assert (∀ j lj k, L !! j = Some lj → k ∈ lj.*1 → k ∉ l :: fl') as Hout.
  { intros j lj k Hj Hk Hin. destruct (Hsome j lj Hj) as (hj & _ & [(sbj & _ & [_ Hcj _ Hndj _] & _)]).
    apply Hmem in Hin as [Hin|Hin].
    - apply NoDup_app in Hndj as (_ & Hd & _). by apply (Hd k).
    - apply Hadd in Hin as [_ Hn]. destruct (chain_lookup _ _ _ _ Hcj Hk) as [? E]. by rewrite Hn in E. }
  assert (text (sb_offset sb') (blocks lms ++ [msg]) = text (sb_offset sb) (blocks lms) ++ msg) as Htext.
  { rewrite Hoff. unfold text. rewrite mjoin_snoc. apply drop_app_le.
    pose proof (bs_offset _ _ _ _ Hst0) as Ho. destruct (blocks lms) as [|m ms]; [cbn in Ho; rewrite Ho; cbn; lia|].
    cbn in Ho. rewrite mjoin_cons, length_app. unfold Zlen in Ho. lia. }
  split.
  - exists fl', (<[i := lms ++ [(l, msg)]]> L). split; cbn [sv_pool sv_bufs store_buffer].
    + apply (pu_ok _ _ _ _ _ _ Hpu).
    + apply (bs_free _ _ _ _ Hst).
    + done.
    + intros j lj Hj. destruct (decide (i = j)) as [<-|Hne].
      * rewrite lookup_insert_eq in Hj. rewrite lookup_insert_eq. injection Hj as <-. exists h'. split; [done|]. split.
        exists sb'. cbn [sv_bufs store_buffer sv_pool]. rewrite lookup_insert_eq. split; [done|]. split; [done|].
        unfold h', bytes_of. cbn [fst snd]. rewrite Htext, Zlen_app. split; [unfold blocks; by rewrite fmap_app|]. lia.
      * rewrite lookup_insert_ne in Hj by done. rewrite lookup_insert_ne by done.
        destruct (Hsome j lj Hj) as (hj & HSj & [(sbj & Hsbj & [Hfj Hcj Htj Hndj Hoj] & Hhj)]).
        exists hj. split; [done|]. split. exists sbj. cbn [sv_bufs store_buffer sv_pool]. rewrite lookup_insert_ne by done.
        split; [done|]. split; [|done]. split; [apply (bs_free _ _ _ _ Hst)| |done| |done].
        -- eapply chain_agree; [|exact Hcj]. intros k Hk. apply (pu_frame _ _ _ _ _ _ Hpu).
           rewrite app_comm_cons. intros [Hin|Hin]%elem_of_app; [by apply (Hout j lj k Hj Hk)|].
           apply Hne. by apply (Hdis i j lms lj k).
        -- apply NoDup_app in Hndj as (_ & _ & Hndl). apply NoDup_app. split; [done|]. split; [|done].
           intros k Hk Hin. apply (Hout j lj k Hj Hin). by right.
    + intros j Hj. destruct (decide (i = j)) as [<-|Hne]; [by rewrite lookup_insert_eq in Hj|].
      rewrite lookup_insert_ne in Hj by done. rewrite !lookup_insert_ne by done. by apply Hnone.
    + intros j1 j2 l1 l2 k H1 H2 Hk1 Hk2.
      assert (∀ j lj, <[i := lms ++ [(l, msg)]]> L !! j = Some lj → k ∈ lj.*1 →
        (∃ lj', L !! j = Some lj' ∧ k ∈ lj'.*1) ∨ (j = i ∧ k = l)) as Hback.
      { intros j lj Hj Hk. destruct (decide (i = j)) as [<-|Hne]; [|rewrite lookup_insert_ne in Hj by done; eauto].
        rewrite lookup_insert_eq in Hj. injection Hj as <-. rewrite fmap_app in Hk. apply elem_of_app in Hk as [Hk|Hk]; [eauto|].
        cbn in Hk. apply list_elem_of_singleton in Hk as ->. by right. }
      destruct (Hback _ _ H1 Hk1) as [(l1' & H1' & Hk1')|[-> ->]], (Hback _ _ H2 Hk2) as [(l2' & H2' & Hk2')|[-> Hl]].
      * by apply (Hdis _ _ _ _ k H1' H2').
      * subst k. destruct (Hout _ _ _ H1' Hk1'). by left.
      * destruct (Hout _ _ _ H2' Hk2'). by left.
      * done.
    + intros k Hk. destruct (nodes (sv_pool sv) !! k) as [nd|] eqn:En.
      * destruct (Hcov k (mk_is_Some _ _ En)) as [Hin|(j & lj & Hj & Hin)].
        -- assert (k ∈ l :: fl') as [->|Hin']%elem_of_cons by (apply Hmem; by left); [|by left].
           right. exists i, (lms ++ [(l, msg)]). rewrite lookup_insert_eq, fmap_app. split; [done|]. apply elem_of_app. right. by left.
        -- right. destruct (decide (i = j)) as [<-|Hne].
           ++ exists i, (lms ++ [(l, msg)]). rewrite lookup_insert_eq, fmap_app. split; [done|]. apply elem_of_app. left.
              rewrite HL in Hj. by injection Hj as <-.
           ++ exists j, lj. by rewrite lookup_insert_ne.
      * assert (k ∈ added) as Hin by (by apply Hadd).
        assert (k ∈ l :: fl') as [->|Hin']%elem_of_cons by (apply Hmem; by right); [|by left].
        right. exists i, (lms ++ [(l, msg)]). rewrite lookup_insert_eq, fmap_app. split; [done|]. apply elem_of_app. right. by left.
  - exists (blocks lms, sb_offset sb). split; [done|]. unfold bytes_of, h'. cbn [fst snd]. split; [done|].
    split; [apply (pu_released _ _ _ _ _ _ Hpu)|done].
Qed.

Lemma new_state sv fl L S i : service_state sv fl L S → S !! i = None →
  service_inv (store_buffer i lnewbuffer (sv_pool sv) sv) (<[i := ([], 0)]> S).
Proof.
  intros [Hok Hf Hnd Hsome Hnone Hdis Hcov] HS.
  assert (L !! i = None) as HL.
  { destruct (L !! i) as [lms|] eqn:E; [|done]. destruct (Hsome i lms E) as (h & E' & _). by rewrite HS in E'. }
  exists fl, (<[i := []]> L). split; cbn [sv_pool sv_bufs store_buffer]; try done.
  - intros j lj Hj. destruct (decide (i = j)) as [<-|Hne].
    + rewrite lookup_insert_eq in Hj. injection Hj as <-. rewrite lookup_insert_eq. eexists. split; [done|]. split.
      exists lnewbuffer. cbn [sv_bufs store_buffer sv_pool]. rewrite lookup_insert_eq. split; [done|].
      split; [|done]. split; try done. cbn. by rewrite app_nil_r.
    + rewrite lookup_insert_ne in Hj by done. rewrite lookup_insert_ne by done. destruct (Hsome j lj Hj) as (hj & HSj & [(sbj & Hsbj & Hr)]).
      exists hj. split; [done|]. split. exists sbj. cbn [sv_bufs store_buffer sv_pool]. by rewrite lookup_insert_ne.
  - intros j Hj. destruct (decide (i = j)) as [<-|Hne]; [by rewrite lookup_insert_eq in Hj|].
    rewrite lookup_insert_ne in Hj by done. rewrite !lookup_insert_ne by done. by apply Hnone.
  - intros j1 j2 l1 l2 k H1 H2 Hk1 Hk2.
    destruct (decide (i = j1)) as [<-|Hne1]; [rewrite lookup_insert_eq in H1; injection H1 as <-; by apply not_elem_of_nil in Hk1|].
    destruct (decide (i = j2)) as [<-|Hne2]; [rewrite lookup_insert_eq in H2; injection H2 as <-; by apply not_elem_of_nil in Hk2|].
    rewrite lookup_insert_ne in H1, H2 by done. by apply (Hdis _ _ _ _ k H1 H2).
  - intros k Hk. destruct (Hcov k Hk) as [Hin|(j & lj & Hj & Hin)]; [by left|]. right. exists j, lj.
    rewrite lookup_insert_ne; [done|]. intros <-. by rewrite HL in Hj.
Qed.

(** ** One operation *)
Definition held_of (S : gmap Z held) (i : Z) : list (list Z) := default [] (fst <$> S !! i).
Definition stream_of (S : gmap Z held) (i : Z) : list Z := default [] (bytes_of <$> S !! i).

Definition step_ok (sv : service) (S : gmap Z held) (o : op) : Prop :=
  let i := op_buffer o in
  ∃ sv' h', run_op sv o = LRet ((stream_op (stream_of S i) o).1, sv') ∧ service_inv sv' (<[i := h']> S) ∧
    bytes_of h' = (stream_op (stream_of S i) o).2 ∧
    ∃ freed, released (sv_pool sv') = released (sv_pool sv) ++ freed ∧ freed ++ h'.1 = held_of S i ++ given o.

Lemma service_buffer sv fl L (S : gmap Z held) (i : Z) (h : held) : service_state sv fl L S → S !! i = Some h →
  ∃ lms sb, L !! i = Some lms ∧ sv_bufs sv !! i = Some sb ∧ buffer_state (sv_pool sv) sb fl lms ∧ h = (blocks lms, sb_offset sb) ∧
    sb_size sb = Zlen (bytes_of h) ∧ sb_size sb ≤ INT_MAX.
Proof.
  intros Hs HS. destruct (L !! i) as [lms|] eqn:HL.
  - destruct (ss_some _ _ _ _ Hs i lms HL) as (h' & E & [(sb & Hsb & Hst & Hh & Hr)]). rewrite HS in E. injection E as <-. eauto 10.
  - destruct (ss_none _ _ _ _ Hs i HL) as [E _]. by rewrite HS in E.
Qed.

Lemma unchanged_ok sv (S : gmap Z held) (i : Z) sb (h : held) : service_inv sv S → S !! i = Some h → sv_bufs sv !! i = Some sb →
  let sv' := store_buffer i sb (sv_pool sv) sv in
  service_inv sv' (<[i := h]> S) ∧
  ∃ freed, released (sv_pool sv') = released (sv_pool sv) ++ freed ∧ freed ++ h.1 = held_of S i ++ [].
Proof.
  intros Hinv HS Hsb sv'. unfold sv', store_buffer. rewrite !insert_id by done. split; [by destruct sv|].
  exists []. cbn [sv_pool]. rewrite !app_nil_r. unfold held_of. rewrite HS. done.
Qed.

(** a read of [sz] bytes is the step of its operation *)
Lemma reads_ok sv fl (L : gmap Z (list (loc * list Z))) (S : gmap Z held) o lms sb (h : held) sz sb' p' fl' n a :
  service_state sv fl L S → L !! op_buffer o = Some lms → S !! op_buffer o = Some h → sv_bufs sv !! op_buffer o = Some sb →
  popped (sv_pool sv) sb fl lms sz sb' p' fl' n → 0 ≤ sz ≤ sb_size sb → given o = [] →
  run_op sv o = LRet (a, store_buffer (op_buffer o) (set_size (sb_size sb - sz) sb') p' sv) →
  stream_op (bytes_of h) o = (a, drop (Z.to_nat sz) (bytes_of h)) → step_ok sv S o.
Proof.
  intros Hs HL HS Hsb Hp Hsz Hg Hrun Hop. set (i := op_buffer o) in *.
  destruct (read_state sv fl L S i sb lms sz sb' p' fl' n Hs HL Hsb Hp Hsz) as (Hinv & h0 & HS0 & Hb & freed & Hr & Hf).
  rewrite HS in HS0. injection HS0 as <-. unfold step_ok. fold i. unfold stream_of. rewrite HS. cbn [fmap option_fmap option_map default id].
  do 2 eexists. rewrite Hop. split; [exact Hrun|]. split; [exact Hinv|]. split; [exact Hb|].
  exists freed. split; [exact Hr|]. rewrite Hf, Hg, app_nil_r. unfold held_of. by rewrite HS.
Qed.

Lemma bytes_nil_blocks p sb fl lms h : buffer_state p sb fl lms → h = (blocks lms, sb_offset sb) →
  bytes_of h = [] ↔ lms = [].
Proof.
  intros Hst ->. unfold bytes_of. cbn [fst snd]. pose proof (bs_offset _ _ _ _ Hst) as Ho. split.
  - destruct lms as [|[l m] lms]; [done|]. cbn in Ho. rewrite text_cons by lia. intros E%app_nil. destruct E as [E _].
    apply (f_equal List.length) in E. rewrite length_drop in E. cbn in E. unfold Zlen in Ho. lia.
  - intros ->. cbn in Ho. by rewrite Ho.
Qed.

Lemma stream_readline bs i sep : bs ≠ [] → stream_op bs (ReadLine i sep) =
  match find_sep sep bs with
  | Some j => (LineIs (Line (take (Z.to_nat j) bs)), drop (Z.to_nat (j + Zlen sep)) bs)
  | None => (LineIs NoLine, bs)
  end.
Proof. by destruct bs. Qed.
Lemma stream_checkline bs i sep : bs ≠ [] → stream_op bs (CheckLine i sep) =
  (LineIs (match find_sep sep bs with Some _ => HasLine | None => NoLine end), bs).
Proof. destruct bs; [done|]. intros _. cbn [stream_op]. by destruct (find_sep sep _). Qed.

(** Every operation on a buffer does what the stream of its bytes tells. *)
Lemma run_op_ok sv (S : gmap Z held) o : service_inv sv S → op_ok (bytes_of <$> S !! op_buffer o) o → step_ok sv S o.
Proof.
  intros [fl [L Hs]] Hok.
  assert (service_inv sv S) as Hinv by (by exists fl, L).
  destruct (S !! op_buffer o) as [h|] eqn:HS; cbn [fmap option_fmap option_map] in Hok.
  2: { destruct o; try done. cbn [op_buffer] in HS. unfold step_ok. cbn [op_buffer run_op stream_op].
    eexists _, ([], 0). split; [done|]. split; [by eapply new_state|]. split; [done|]. exists [].
    rewrite app_nil_r. unfold held_of. cbn [op_buffer]. rewrite HS. done. }
  destruct (service_buffer _ _ _ _ _ _ Hs HS) as (lms & sb & HL & Hsb & Hst & Hh & Hsize & Hmax).
  pose proof (bytes_nil_blocks _ _ _ _ _ Hst Hh) as Hnil.
  assert (bytes_of h = text (sb_offset sb) (blocks lms)) as Hbytes by (by rewrite Hh).
  pose proof (Zlen_nonneg (bytes_of h)) as H0.
  pose proof (chain_length_dom _ _ _ (bs_chain _ _ _ _ Hst)) as Hdom.
  pose proof (bs_nodup _ _ _ _ Hst) as Hnd. apply NoDup_app in Hnd as (_ & _ & Hnd). specialize (Hdom Hnd).
  destruct o as [i|i msg|i sz|i|i|i sep|i sep]; cbn [op_buffer op_ok] in *; [done|..].
  - destruct Hok as [Hmsg Hlen]. rewrite <- Hsize in Hlen.
    destruct (push_spec _ _ _ _ msg (ss_ok _ _ _ _ Hs) Hst Hmsg ltac:(lia) Hlen) as (sb' & p' & l & fl' & E & Hst' & Hpu & Hsz' & Ho').
    destruct (push_state sv fl L S i sb lms msg sb' p' l fl' Hs HL Hsb Hst' Hpu Hsz' Ho' Hlen) as (Hinv' & h0 & HS0 & Hb & Hr & Hbl).
    rewrite HS in HS0. injection HS0 as <-. unfold step_ok. cbn [op_buffer given].
    exists (store_buffer i sb' p' sv), (blocks lms ++ [msg], sb_offset sb'). unfold stream_of. rewrite HS. cbn [fmap option_fmap option_map default id stream_op fst snd run_op].
    rewrite Hsb, E, LRet_bind, Hsize. split; [done|]. split; [done|]. split; [exact Hb|]. exists [].
    rewrite app_nil_r. unfold held_of. rewrite HS. split; [exact Hr|]. by rewrite Hh.
  - unfold INT_MAX in Hok. destruct (decide (Zlen (bytes_of h) < sz ∨ sz = 0)) as [Hno|Hyes].
    + destruct (unchanged_ok sv S i sb h Hinv HS Hsb) as (Hinv' & freed & Hr & Hf). unfold step_ok. cbn [op_buffer given].
      unfold stream_of. rewrite HS. cbn [fmap option_fmap option_map default id stream_op id run_op]. rewrite (bool_decide_eq_true_2 (Zlen _ < sz ∨ _)) by done.
      unfold lpopbuffer. rewrite Hsb, i32_small, (bool_decide_eq_true_2 (sb_size sb < sz ∨ sz = 0)) by (lia || (rewrite Hsize; done)).
      cbn [fst snd]. rewrite LRet_bind, Hsize. do 2 eexists. split; [done|]. split; [exact Hinv'|]. split; [done|]. by exists freed.
    + assert (lms ≠ []) as Hne.
      { intros El. apply Hnil in El. rewrite El in Hyes. rewrite Zlen_nil in Hyes. lia. }
      destruct (pop_lstring_spec _ _ _ _ sz 0 Hst Hne ltac:(lia) ltac:(rewrite <- Hbytes; lia)) as (sb' & p' & fl' & n & E & Hp).
      eapply (reads_ok sv fl L S (Pop i sz)); try done; [lia| |].
      * cbn [run_op op_buffer]. unfold lpopbuffer. rewrite Hsb, i32_small, bool_decide_eq_false_2, E, LRet_bind by (lia || (rewrite Hsize; done)).
        unfold int_of. rewrite (po_size _ _ _ _ _ _ _ _ _ Hp), chk_int_ok by (unfold INT_MAX in *; lia). cbn [lift]. rewrite !LRet_bind. done.
      * cbn [stream_op]. rewrite bool_decide_eq_false_2 by done. rewrite Z.sub_0_r, <- Hbytes, Hsize. done.
  - destruct (read_all_spec (size (nodes (sv_pool sv))) _ _ _ _ Hst ltac:(lia)) as (sb' & p' & fl' & E & Hp).
    rewrite <- Hbytes, <- Hsize in Hp. eapply (reads_ok sv fl L S (ReadAll i)); try done; [lia| |].
    + cbn [run_op op_buffer]. unfold lreadall. rewrite Hsb, E, !LRet_bind, Z.sub_diag. done.
    + cbn [stream_op]. rewrite <- Hbytes, drop_ge; [done|]. rewrite Hsize. unfold Zlen. lia.
  - destruct (return_all_spec (size (nodes (sv_pool sv))) _ _ _ _ Hst ltac:(lia)) as (sb' & p' & fl' & E & Hp).
    rewrite <- Hbytes, <- Hsize in Hp. eapply (reads_ok sv fl L S (Clear i)); try done; [lia| |].
    + cbn [run_op op_buffer]. unfold lclearbuffer. rewrite Hsb, E, !LRet_bind, Z.sub_diag. done.
    + cbn [stream_op]. rewrite drop_ge; [done|]. rewrite Hsize. unfold Zlen. lia.
  - destruct (bytes_of h) as [|x bs] eqn:Ebs.
    + assert (lms = []) as El by (by apply Hnil). destruct (unchanged_ok sv S i sb h Hinv HS Hsb) as (Hinv' & freed & Hr & Hf).
      unfold step_ok. cbn [op_buffer given run_op]. unfold stream_of. rewrite HS. cbn [fmap option_fmap option_map default id]. rewrite Ebs. cbn [stream_op fst snd].
      unfold lreadline. rewrite Hsb. pose proof (bs_chain _ _ _ _ Hst) as Hc. rewrite El in Hc. cbn in Hc. rewrite Hc, LRet_bind.
      do 2 eexists. split; [done|]. split; [exact Hinv'|]. split; [done|]. by exists freed.
    + assert (lms ≠ []) as Hne by (intros El; apply Hnil in El; done). rewrite <- Ebs in *.
      pose proof (lreadline_spec _ _ _ _ false sep Hst Hne ltac:(by rewrite <- Hbytes) Hmax) as Hl. cbv zeta in Hl. rewrite <- Hbytes in Hl.
      pose proof (stream_readline (bytes_of h) i sep ltac:(by rewrite Ebs)) as Hop.
      destruct (find_sep sep (bytes_of h)) as [j|] eqn:Ef.
      * destruct Hl as (sb' & p' & fl' & n & E & Hp). pose proof (find_sep_range _ _ _ Ef). pose proof (Zlen_nonneg sep).
        eapply (reads_ok sv fl L S (ReadLine i sep)); try done; [lia|].
        cbn [run_op op_buffer]. rewrite Hsb, E, LRet_bind. done.
      * destruct (unchanged_ok sv S i sb h Hinv HS Hsb) as (Hinv' & freed & Hr & Hf). unfold step_ok. cbn [op_buffer given].
        unfold stream_of. rewrite HS. cbn [fmap option_fmap option_map default id]. rewrite Hop. cbn [run_op fst snd].
        rewrite Hsb, Hl, LRet_bind. do 2 eexists. split; [done|]. split; [exact Hinv'|]. split; [done|]. by exists freed.
  - destruct (unchanged_ok sv S i sb h Hinv HS Hsb) as (Hinv' & freed & Hr & Hf). unfold step_ok. cbn [op_buffer given run_op].
    unfold stream_of. rewrite HS. cbn [fmap option_fmap option_map default id]. rewrite Hsb.
    destruct (bytes_of h) as [|x bs] eqn:Ebs.
    + assert (lms = []) as El by (by apply Hnil). cbn [stream_op fst snd]. unfold lreadline.
      pose proof (bs_chain _ _ _ _ Hst) as Hc. rewrite El in Hc. cbn in Hc. rewrite Hc, LRet_bind.
      do 2 eexists. split; [done|]. split; [exact Hinv'|]. split; [done|]. by exists freed.
    + assert (lms ≠ []) as Hne by (intros El; apply Hnil in El; done). rewrite <- Ebs in *.
      pose proof (lreadline_spec _ _ _ _ true sep Hst Hne ltac:(by rewrite <- Hbytes) Hmax) as Hl. cbv zeta in Hl. rewrite <- Hbytes in Hl.
      rewrite (stream_checkline (bytes_of h) i sep) by (by rewrite Ebs).
      exists (store_buffer i sb (sv_pool sv) sv), h. destruct (find_sep sep (bytes_of h)); rewrite Hl, LRet_bind;
        (split; [done|]; split; [exact Hinv'|]; split; [done|]; by exists freed).
Qed.

(** ** Any sequence of operations *)
Fixpoint run_ops (sv : service) (os : list op) : lua (list answer_ * service) :=
  match os with
  | [] => LRet ([], sv)
  | o :: os => '(r, sv) ← run_op sv o; '(rs, sv) ← run_ops sv os; LRet (r :: rs, sv)
  end.
Definition new_service : service := Service empty_pool ∅.

(** the same operations on streams, each of them allowed *)
Inductive stream_ops : gmap Z (list Z) → list op → list answer_ → gmap Z (list Z) → Prop :=
  | so_nil C : stream_ops C [] [] C
  | so_cons C o os rs C' : op_ok (C !! op_buffer o) o →
      let r := stream_op (default [] (C !! op_buffer o)) o in
      stream_ops (<[op_buffer o := r.2]> C) os rs C' → stream_ops C (o :: os) (r.1 :: rs) C'.

(** all blocks that buffers hold *)
Definition all_held (S : gmap Z held) : list (list Z) := mjoin ((λ x, x.2.1) <$> map_to_list S).

Lemma mjoin_Permutation {A} (l l' : list (list A)) : l ≡ₚ l' → mjoin l ≡ₚ mjoin l'.
Proof.
  induction 1 as [|x l l' _ IH|x y l|l l1 l2 _ IH1 _ IH2]; [done| | |by rewrite IH1].
  - by rewrite !mjoin_cons, IH.
  - rewrite !mjoin_cons, !app_assoc. f_equiv. apply Permutation_app_comm.
Qed.

Lemma all_held_insert S i h : S !! i = None → all_held (<[i := h]> S) ≡ₚ h.1 ++ all_held S.
Proof. intros HS. unfold all_held. by rewrite (mjoin_Permutation _ _ (fmap_Permutation _ _ _ (map_to_list_insert _ _ _ HS))). Qed.

Lemma all_held_update S i h : all_held (<[i := h]> S) ++ held_of S i ≡ₚ h.1 ++ all_held S.
Proof.
  unfold held_of. destruct (S !! i) as [h0|] eqn:HS; cbn [fmap option_fmap option_map default id].
  - rewrite <- insert_delete_eq, all_held_insert by apply lookup_delete_eq.
    rewrite <- (insert_id S i h0 HS) at 2. rewrite <- insert_delete_eq, (all_held_insert (delete i S) i h0) by apply lookup_delete_eq.
    rewrite <- app_assoc. f_equiv. apply Permutation_app_comm.
  - by rewrite all_held_insert, app_nil_r.
Qed.

Lemma perm_cancel {A} (f h1 H1 hd H g : list A) : f ++ h1 = hd ++ g → H1 ++ hd ≡ₚ h1 ++ H → f ++ H1 ≡ₚ H ++ g.
Proof.
  intros Hf Hh. apply (Permutation_app_inv_r hd). rewrite <- app_assoc, Hh, app_assoc, Hf, <- (app_assoc H).
  rewrite (Permutation_app_comm H). f_equiv. apply Permutation_app_comm.
Qed.

Definition contents (S : gmap Z held) : gmap Z (list Z) := bytes_of <$> S.

Lemma run_ops_ok os sv S rs C : service_inv sv S → stream_ops (contents S) os rs C →
  ∃ sv' S', run_ops sv os = LRet (rs, sv') ∧ service_inv sv' S' ∧ contents S' = C ∧
    ∃ freed, released (sv_pool sv') = released (sv_pool sv) ++ freed ∧
      freed ++ all_held S' ≡ₚ all_held S ++ (os ≫= given).
Proof.
  revert sv S rs. induction os as [|o os IH]; intros sv S rs Hinv Hso; inversion Hso as [|? ? ? rs' ? Hok r Hso']; subst.
  - exists sv, S. split; [done|]. split; [done|]. split; [done|]. exists []. by rewrite !app_nil_r.
  - unfold contents in Hok. rewrite lookup_fmap in Hok.
    destruct (run_op_ok sv S o Hinv Hok) as (sv1 & h1 & E & Hinv1 & Hb & freed1 & Hr1 & Hf1).
    assert (default [] (contents S !! op_buffer o) = stream_of S (op_buffer o)) as Hd by (unfold contents, stream_of; by rewrite lookup_fmap).
    unfold r in Hso'. rewrite Hd, <- Hb in Hso'.
    assert (<[op_buffer o := bytes_of h1]> (contents S) = contents (<[op_buffer o := h1]> S)) as Hc by (unfold contents; by rewrite fmap_insert).
    rewrite Hc in Hso'. destruct (IH sv1 _ rs' Hinv1 Hso') as (sv2 & S2 & E2 & Hinv2 & HC & freed2 & Hr2 & Hf2).
    exists sv2, S2. cbn [run_ops]. unfold r. rewrite E, LRet_bind, E2, LRet_bind, Hd. split; [done|]. split; [done|]. split; [done|].
    exists (freed1 ++ freed2). split; [by rewrite Hr2, Hr1, app_assoc|]. cbn [mbind list_bind].
    pose proof (perm_cancel _ _ _ _ _ _ Hf1 (all_held_update S (op_buffer o) h1)) as Hu.
    by rewrite <- app_assoc, Hf2, app_assoc, Hu, <- app_assoc.
Qed.

Lemma new_service_inv : service_inv new_service ∅.
Proof.
  assert (∀ k, ¬ is_Some ((∅ : gmap loc buffer_node) !! k)) as Hn by (intros k [x Hx]; by rewrite lookup_empty in Hx).
  exists [], ∅. split; try done.
  - split; [by apply Forall_nil|]. intros k. split; [intros H; by destruct (Hn k)|]. unfold pool_nodes. cbn. lia.
  - by apply NoDup_nil.
  - intros k H. by destruct (Hn k).
Qed.

(** C29. Whatever is done with the read buffers of a service, which share a pool of
    nodes, each of them answers as the stream of the bytes pushed into it: lengths,
    the bytes read, lines up to a separator that may lie across blocks. Every
    node belongs to one buffer or is free, and each block is freed once, when it
    was read: the blocks given are those freed and those held. *)
Theorem socket_buffers_are_streams os rs C : stream_ops ∅ os rs C →
  ∃ sv S, run_ops new_service os = LRet (rs, sv) ∧ service_inv sv S ∧ contents S = C ∧
    released (sv_pool sv) ++ all_held S ≡ₚ os ≫= given.
Proof.
  intros Hso. assert (contents ∅ = ∅) as Hc by apply fmap_empty. rewrite <- Hc in Hso.
  destruct (run_ops_ok os new_service ∅ rs C new_service_inv Hso) as (sv & S & E & Hinv & HC & freed & Hr & Hf).
  exists sv, S. split; [done|]. split; [done|]. split; [done|]. cbn in Hr. by rewrite Hr.
Qed.

(** two buffers, a line across two blocks, a block read in part *)
Definition some_ops : list op :=
  [NewBuffer 1; NewBuffer 2; Push 1 [65; 13]; Push 2 [1; 2; 3]; Push 1 [10; 66]; CheckLine 1 [13; 10]; ReadLine 1 [13; 10];
   Pop 2 2; Pop 1 5; ReadAll 1; Clear 2].

Lemma socket_buffers_are_streams_witness :
  ∃ sv S, run_ops new_service some_ops =
    LRet ([Nothing; Nothing; Size 2; Size 3; Size 4; LineIs HasLine; LineIs (Line [65]);
           Popped (Some [1; 2]) 1; Popped None 1; Text [66]; Nothing], sv) ∧
    service_inv sv S ∧ contents S = {[1 := []; 2 := []]} ∧ released (sv_pool sv) ++ all_held S ≡ₚ some_ops ≫= given.
Proof.
  apply socket_buffers_are_streams.
  assert (∀ C C' o os r rs C2, op_ok (C !! op_buffer o) o → r = (stream_op (default [] (C !! op_buffer o)) o).1 →
    C' = <[op_buffer o := (stream_op (default [] (C !! op_buffer o)) o).2]> C → stream_ops C' os rs C2 →
    stream_ops C (o :: os) (r :: rs) C2) as Hcons.
  { intros C C' o os r rs C2 Hok -> -> Hso. by apply so_cons. }
  unfold some_ops.
  apply (Hcons _ {[1 := []]}); [done|done|by vm_compute|].
  apply (Hcons _ {[1 := []; 2 := []]}); [done|done|by vm_compute|].
  apply (Hcons _ {[1 := [65; 13]; 2 := []]}); [done|done|by vm_compute|].
  apply (Hcons _ {[1 := [65; 13]; 2 := [1; 2; 3]]}); [done|done|by vm_compute|].
  apply (Hcons _ {[1 := [65; 13; 10; 66]; 2 := [1; 2; 3]]}); [done|done|by vm_compute|].
  apply (Hcons _ {[1 := [65; 13; 10; 66]; 2 := [1; 2; 3]]}); [done|by vm_compute|by vm_compute|].
  apply (Hcons _ {[1 := [66]; 2 := [1; 2; 3]]}); [done|by vm_compute|by vm_compute|].
  apply (Hcons _ {[1 := [66]; 2 := [3]]}); [done|by vm_compute|by vm_compute|].
  apply (Hcons _ {[1 := [66]; 2 := [3]]}); [done|by vm_compute|by vm_compute|].
  apply (Hcons _ {[1 := []; 2 := [3]]}); [done|by vm_compute|by vm_compute|].
  apply (Hcons _ {[1 := []; 2 := []]}); [done|by vm_compute|by vm_compute|].
  apply so_nil.
Defined.
