(* ===== verification/SkynetSocket.v ===== *)
(** * Sockets for services: skynet-src/skynet_socket.c

    The socket thread turns each result of the socket server into a message in
    the queue of a service; the services call the server with their handle. The
    static [SOCKET_SERVER] is passed as state, next to the system [W] and the
    process. [lunpack] of lualib-src/lua-socket.c reads the messages. *)
From S2P Require Import Prelude CLib Bytes Mq GlobalMq Handle HandleTable Timer CNum Module Node Server ServerSpec.
From S2P Require Import SocketKernel SocketData SocketWrite SocketCtrl SocketPoll SocketApi SocketOrder.
From Stdlib Require Import Ascii String.
#[local] Open Scope Z_scope.

(** the text of a padded message is cut *)
Definition MAX_TEXT : Z := 128.

(** [skynet_socket_message] and what follows it in its block; the four bytes
    between [ud] and [buffer], which C leaves open, are zeros *)
Definition message_block (type id ud buffer : Z) (text : list Z) : list Z :=
  le_bytes 4 type ++ le_bytes 4 id ++ le_bytes 4 ud ++ le_bytes 4 0 ++ le_bytes 8 buffer ++ text.

(** the characters before the NUL of a text, which must have one *)
Definition text_of (d : message_data) : outcome (list Z) :=
  match d with
  | Null => Ret []
  | Text s => Ret (bytes_of s)
  | Buffer _ bs => s ← c_string bs; Ret (bytes_of s)
  end.

Section poll.
Context {W : Type} `{!Kernel W} `{!External}.

(** a text of the socket server is never sent as a buffer *)
Definition buffer_of (d : message_data) : outcome Z :=
  match d with Null => Ret 0 | Buffer l _ => Ret l | Text _ => Undef end.

Definition forward_message (type : Z) (padding : bool) (r : socket_message) (w : W) (n : node) : outcome (W * node) :=
  text ← (if padding then text_of (r_data r) else Ret []);
  let text := take (Z.to_nat MAX_TEXT) text in
  buffer ← (if padding then Ret 0 else buffer_of (r_data r));
  let sz := sizeof_socket_message + Zlen text in
  let '(sm, n) := skynet_malloc (Bytes (message_block type (r_id r) (r_ud r) buffer text)) n in
  let message := Message 0 0 (Some sm) (Z.lor sz (Z.shiftl PTYPE_SOCKET MESSAGE_TYPE_SHIFT)) in
  '(e, n) ← context_push (u32 (r_opaque r)) message n;
  if bool_decide (e ≠ 0) then
    n ← skynet_free (Some sm) n;
    Ret (if bool_decide (buffer = 0) then w else k_free buffer w, n)
  else Ret (w, n).

(** the type of the message for a type of result, and whether a text follows *)
Definition forward_type (type : Z) : option (Z * bool) :=
  if bool_decide (type = SOCKET_DATA) then Some (SKYNET_SOCKET_TYPE_DATA, false)
  else if bool_decide (type = SOCKET_CLOSE) then Some (SKYNET_SOCKET_TYPE_CLOSE, false)
  else if bool_decide (type = SOCKET_OPEN) then Some (SKYNET_SOCKET_TYPE_CONNECT, true)
  else if bool_decide (type = SOCKET_ERR) then Some (SKYNET_SOCKET_TYPE_ERROR, true)
  else if bool_decide (type = SOCKET_ACCEPT) then Some (SKYNET_SOCKET_TYPE_ACCEPT, true)
  else if bool_decide (type = SOCKET_UDP) then Some (SKYNET_SOCKET_TYPE_UDP, false)
  else if bool_decide (type = SOCKET_WARNING) then Some (SKYNET_SOCKET_TYPE_WARNING, false)
  else None.

(** what is done with a result of the socket server: true, the thread ends *)
Definition poll_forward (r : result) (w : W) (n : node) : outcome (bool * bool * W * node) :=
  match r with
  | None => n ← error None ("Unknown socket message type " +:+ fmt_d (-1) +:+ ".") n; Ret (false, false, w, n)
  | Some (type, m) =>
      if bool_decide (type = SOCKET_EXIT) then Ret (true, true, w, n)
      else
        match forward_type type with
        | Some (type, padding) => '(w, n) ← forward_message type padding m w n; Ret (false, true, w, n)
        | None => n ← error None ("Unknown socket message type " +:+ fmt_d type +:+ ".") n; Ret (false, false, w, n)
        end
  end.
(** 0: the thread ends, -1: there may be more events or none was understood, 1:
    the wait is over *)
Definition skynet_socket_poll (fuel : nat) (ss : socket_server) (w : W) (n : node) :
    outcome (Z * socket_server * W * node) :=
  '(r, ss, more, w) ← socket_server_poll fuel ss true w;
  '(exit, known, w, n) ← poll_forward r w n;
  Ret (if exit : bool then 0 else if known : bool then (if more : bool then -1 else 1) else -1, ss, w, n).

(** ** The calls of a service, with its handle *)
Definition skynet_socket_init (ti : timer) (w : W) : outcome (option socket_server * W) :=
  socket_server_create (skynet_now ti) w.
Definition skynet_socket_exit (ss : socket_server) : socket_server := socket_server_exit ss.
Definition skynet_socket_free (ss : socket_server) (w : W) : outcome W := socket_server_release ss w.
Definition skynet_socket_updatetime (ti : timer) (ss : socket_server) : socket_server :=
  socket_server_updatetime ss (skynet_now ti).
Definition skynet_socket_sendbuffer (ss : socket_server) (id : Z) (buf : sendbuffer) (w : W) :=
  socket_server_send ss id buf w.
Definition skynet_socket_sendbuffer_lowpriority (ss : socket_server) (id : Z) (buf : sendbuffer) (w : W) :=
  socket_server_send_lowpriority ss id buf w.
Definition skynet_socket_listen (handle : Z) (ss : socket_server) (host : string) (port backlog : Z) (w : W) :=
  socket_server_listen ss (u32 handle) (Some host) port backlog w.
Definition skynet_socket_connect (handle : Z) (ss : socket_server) (host : string) (port : Z) (w : W) :=
  socket_server_connect ss (u32 handle) host port w.
Definition skynet_socket_bind (handle : Z) (ss : socket_server) (fd : Z) := socket_server_bind ss (u32 handle) fd.
Definition skynet_socket_close (handle : Z) (ss : socket_server) (id : Z) := socket_server_close ss (u32 handle) id.
Definition skynet_socket_shutdown (handle : Z) (ss : socket_server) (id : Z) :=
  socket_server_shutdown ss (u32 handle) id.
Definition skynet_socket_start (handle : Z) (ss : socket_server) (id : Z) := socket_server_start ss (u32 handle) id.
Definition skynet_socket_pause (handle : Z) (ss : socket_server) (id : Z) := socket_server_pause ss (u32 handle) id.
Definition skynet_socket_nodelay (ss : socket_server) (id : Z) := socket_server_nodelay ss id.
Definition skynet_socket_udp (handle : Z) (ss : socket_server) (addr : option string) (port : Z) (w : W) :=
  socket_server_udp ss (u32 handle) addr port w.
Definition skynet_socket_udp_connect (ss : socket_server) (id : Z) (addr : string) (port : Z) (w : W) :=
  socket_server_udp_connect ss id addr port w.
Definition skynet_socket_udp_sendbuffer (ss : socket_server) (address : list Z) (id : Z) (buf : sendbuffer) (w : W) :=
  socket_server_udp_send ss id address buf w.
Definition skynet_socket_info (ss : socket_server) (w : W) : outcome (list socket_info * W) := socket_server_info ss w.
End poll.

(** the address behind a datagram; [mem]: the bytes of the buffer *)
Definition skynet_socket_udp_address (type ud : Z) (mem : list Z) : outcome (option (list Z * Z)) :=
  if bool_decide (type ≠ SKYNET_SOCKET_TYPE_UDP) then Ret None else socket_server_udp_address mem ud.

(** type, id, ud, the text or the pointer, and the address of a datagram *)
Inductive unpacked : Type :=
  | UText (s : list Z)
  | UPointer (p : loc).
(** [block]: the bytes of the message; [mem]: the bytes of the buffer it points to *)
Definition lunpack (block : list Z) (size : Z) (mem : loc → list Z) :
    outcome (Z * Z * Z * unpacked * option (list Z)) :=
  let int_at off := i32 (le_value (take 4 (drop off block))) in
  let type := int_at 0%nat in
  let buffer := le_value (take 8 (drop 16 block)) in
  if bool_decide (sizeof_socket_message ≤ Zlen block) then
    msg ← (if bool_decide (buffer = 0) then
             let n := u64 (i32 size - sizeof_socket_message) in
             if bool_decide (sizeof_socket_message + n ≤ Zlen block)
             then Ret (UText (take (Z.to_nat n) (drop (Z.to_nat sizeof_socket_message) block))) else Undef
           else Ret (UPointer buffer));
    address ← (if bool_decide (type = SKYNET_SOCKET_TYPE_UDP) then
                 a ← skynet_socket_udp_address type (int_at 8%nat) (mem buffer);
                 Ret (match a with Some (address, _) => Some address | None => None end)
               else Ret None);
    Ret (type, int_at 4%nat, int_at 8%nat, msg, address)
  else Undef.

(** ** What a service sees of a result *)
Lemma message_block_fields type id ud buffer text :
  let b := message_block type id ud buffer text in
  take 4 (drop 0 b) = le_bytes 4 type ∧ take 4 (drop 4 b) = le_bytes 4 id ∧ take 4 (drop 8 b) = le_bytes 4 ud ∧
  take 8 (drop 16 b) = le_bytes 8 buffer ∧ drop 24 b = text ∧ Zlen b = sizeof_socket_message + Zlen text.
Proof.
  cbv zeta. repeat split. unfold message_block. rewrite !Zlen_app, !Zlen_le_bytes. unfold sizeof_socket_message. lia.
Qed.

(** the data of a result that goes with its kind of message *)
Definition data_ok (padding : bool) (d : message_data) : Prop :=
  if padding then ∃ s, text_of d = Ret s
  else match d with Null => True | Text _ => False | Buffer l _ => 0 < l < 2 ^ 64 end.
Definition payload_of (padding : bool) (d : message_data) : unpacked :=
  if padding then UText (match text_of d with Ret s => take (Z.to_nat MAX_TEXT) s | _ => [] end)
  else match d with Buffer l _ => UPointer l | _ => UText [] end.
Definition address_of (type : Z) (ud : Z) (d : message_data) : outcome (option (list Z)) :=
  if bool_decide (type = SKYNET_SOCKET_TYPE_UDP) then
    a ← socket_server_udp_address (match d with Buffer _ bs => bs | _ => [] end) ud;
    Ret (match a with Some (address, _) => Some address | None => None end)
  else Ret None.

Section delivery.
Context {W : Type} `{!Kernel W} `{!External}.

Lemma lunpack_block type id ud d padding s (l : Z) mem :
  - 2 ^ 31 ≤ type < 2 ^ 31 → - 2 ^ 31 ≤ id < 2 ^ 31 → - 2 ^ 31 ≤ ud < 2 ^ 31 →
  data_ok padding d → (if padding then text_of d = Ret s ∧ l = 0 else s = [] ∧ buffer_of d = Ret l) →
  (padding = true → type ≠ SKYNET_SOCKET_TYPE_UDP) →
  (type = SKYNET_SOCKET_TYPE_UDP → ∃ p bs, d = Buffer p bs ∧ mem p = bs) →
  let text := take (Z.to_nat MAX_TEXT) s in
  lunpack (message_block type id ud l text) (sizeof_socket_message + Zlen text) mem =
    a ← address_of type ud d; Ret (type, id, ud, payload_of padding d, a).
Proof.
  intros Ht Hi Hu Hd Hb Hp Hm text.
  destruct (message_block_fields type id ud l text) as (E0 & E4 & E8 & E16 & E24 & El).
  assert (Zlen text ≤ 128) as Htext by (unfold text, Zlen, MAX_TEXT; rewrite length_take; lia).
  assert (0 ≤ l < 2 ^ 64) as Hl.
  { destruct padding; [destruct Hb; lia|]. destruct Hb as [_ Hb], d; try done; injection Hb as <-; cbn in Hd; lia. }
  pose proof (Zlen_nonneg text) as H0.
  unfold lunpack. rewrite E0, E4, E8, E16, El, !i32_le by done. rewrite le_small by (change (256 ^ Z.of_nat 8) with (2 ^ 64); lia).
  rewrite bool_decide_eq_true_2 by lia.
  rewrite i32_small by (unfold sizeof_socket_message; lia).
  replace (u64 (sizeof_socket_message + Zlen text - sizeof_socket_message)) with (Zlen text)
    by (unfold u64; rewrite Z.mod_small; lia).
  rewrite (bool_decide_eq_true_2 (_ + Zlen text ≤ _)) by lia.
  change (Z.to_nat sizeof_socket_message) with 24%nat. rewrite E24, (take_ge text) by (unfold Zlen; lia).
  assert ((if bool_decide (l = 0) then Ret (UText text) else Ret (UPointer l)) = Ret (payload_of padding d)) as ->.
  { unfold payload_of. destruct padding; [destruct Hb as [E ->]; by rewrite E|]. destruct Hb as [-> Hb].
    destruct d; cbn in Hb, Hd; try done; injection Hb as <-; [done|]. by rewrite bool_decide_eq_false_2 by lia. }
  cbn [mbind outcome_bind]. unfold address_of. case_bool_decide as Eu; [|done].
  destruct (Hm Eu) as (q & bs & -> & Hbs). destruct padding; [by destruct (Hp eq_refl)|]. destruct Hb as [_ Hb].
  injection Hb as <-. unfold skynet_socket_udp_address. rewrite bool_decide_eq_false_2 by tauto. rewrite Hbs.
  by destruct (socket_server_udp_address bs ud) as [[[]|]| | |].
Qed.

(** the message of a result: its block, and what is pushed *)
Definition result_block (k : Z) (padding : bool) (m : socket_message) : list Z :=
  message_block k (r_id m) (r_ud m)
    (match payload_of padding (r_data m) with UPointer l => l | UText _ => 0 end)
    (match payload_of padding (r_data m) with UText s => s | UPointer _ => [] end).
Definition result_message (k : Z) (padding : bool) (m : socket_message) (p : loc) : skynet_message :=
  Message 0 0 (Some p) (Z.lor (Zlen (result_block k padding m)) (Z.shiftl PTYPE_SOCKET MESSAGE_TYPE_SHIFT)).

Lemma forward_message_push k padding m w n : data_ok padding (r_data m) →
  forward_message k padding m w n =
    let '(p, n') := skynet_malloc (Bytes (result_block k padding m)) n in
    '(e, n') ← context_push (u32 (r_opaque m)) (result_message k padding m p) n';
    if bool_decide (e ≠ 0) then
      n' ← skynet_free (Some p) n';
      Ret (match payload_of padding (r_data m) with UPointer l => k_free l w | UText _ => w end, n')
    else Ret (w, n').
Proof.
  intros Hd. unfold forward_message, result_message, result_block, payload_of, data_ok in *.
  destruct padding.
  - destruct Hd as [s Hs]. rewrite Hs. cbn [mbind outcome_bind skynet_malloc].
    by rewrite (proj2 (proj2 (proj2 (proj2 (proj2 (message_block_fields k _ _ 0 _)))))).
  - destruct (r_data m) as [| |l bs]; try done; cbn [mbind outcome_bind skynet_malloc buffer_of].
    by rewrite (bool_decide_eq_false_2 (l = 0)) by lia.
Qed.

Lemma forward_type_bounds type k padding : forward_type type = Some (k, padding) →
  1 ≤ k ≤ 7 ∧ type ≠ SOCKET_EXIT ∧ (padding = true → k ≠ SKYNET_SOCKET_TYPE_UDP).
Proof.
  unfold forward_type. intros E.
  repeat case_bool_decide; simplify_eq; (split; [vm_compute; done|]); split; try done;
    match goal with H : type = _ |- _ => rewrite H end; done.
Qed.

Definition payload_text (padding : bool) (m : socket_message) : list Z :=
  match payload_of padding (r_data m) with UText s => s | UPointer _ => [] end.

Lemma result_block_size k padding m :
  Zlen (result_block k padding m) = sizeof_socket_message + Zlen (payload_text padding m) ∧
  0 ≤ Zlen (payload_text padding m) ≤ MAX_TEXT.
Proof.
  split; [exact (proj2 (proj2 (proj2 (proj2 (proj2 (message_block_fields k _ _ _ _))))))|].
  split; [apply Zlen_nonneg|]. unfold payload_text, payload_of, Zlen, MAX_TEXT.
  destruct padding; [|destruct (r_data m); cbn; lia].
  destruct (text_of (r_data m)); [rewrite length_take|..]; cbn; lia.
Qed.

(** the size and the type share a word *)
Lemma result_message_size k padding m p :
  let size := sz (result_message k padding m p) in
  Z.shiftr size MESSAGE_TYPE_SHIFT = PTYPE_SOCKET ∧
  Z.land size MESSAGE_TYPE_MASK = sizeof_socket_message + Zlen (payload_text padding m).
Proof.
  destruct (result_block_size k padding m) as [E Hb]. unfold sizeof_socket_message, MAX_TEXT in *.
  destruct (unpack_size (Zlen (result_block k padding m)) PTYPE_SOCKET) as [E1 E2]; [lia|done|].
  cbv zeta. unfold result_message. cbn [sz]. rewrite pack_size by (done || lia). by rewrite E1, E2.
Qed.

Lemma result_unpacked k padding m mem : 1 ≤ k ≤ 7 → (padding = true → k ≠ SKYNET_SOCKET_TYPE_UDP) →
  data_ok padding (r_data m) → - 2 ^ 31 ≤ r_id m < 2 ^ 31 → - 2 ^ 31 ≤ r_ud m < 2 ^ 31 →
  (k = SKYNET_SOCKET_TYPE_UDP → ∃ p bs, r_data m = Buffer p bs) →
  (∀ p bs, r_data m = Buffer p bs → mem p = bs) →
  lunpack (result_block k padding m) (sizeof_socket_message + Zlen (payload_text padding m)) mem =
    a ← address_of k (r_ud m) (r_data m); Ret (k, r_id m, r_ud m, payload_of padding (r_data m), a).
Proof.
  intros Hk Hpk Hd Hi Hu Hudp Hmem. unfold result_block, payload_text.
  destruct padding eqn:Ep.
  - destruct Hd as [s Hs]. unfold payload_of at 1 2 3. rewrite Hs.
    apply (lunpack_block k _ _ (r_data m) true s 0); try done; [lia|by exists s|]. intros Ek. by destruct (Hpk eq_refl).
  - assert (∃ l, buffer_of (r_data m) = Ret l ∧ match payload_of false (r_data m) with UText _ => 0 | UPointer l => l end = l ∧
      match payload_of false (r_data m) with UText s => s | UPointer _ => [] end = []) as (l & Hl & -> & ->)
      by (destruct (r_data m); try done; eexists; split; done).
    apply (lunpack_block k _ _ (r_data m) false [] l); try done; [lia|].
    intros Ek. destruct (Hudp Ek) as (q & bs & Eq). exists q, bs. split; [done|]. by apply Hmem.
Qed.

(** C30. A result of the socket server for a live service appends one message to
    its queue, from which the service reads the type, the id, the number and
    the text (its first 128 characters) or the buffer, with the address of a
    datagram; for a service that is gone everything of it is freed and the
    process is as before. *)
Theorem socket_result_delivered type k padding (m : socket_message) w n :
  slots_inv (skynet_context_handle n) (storage n) →
  forward_type type = Some (k, padding) → data_ok padding (r_data m) →
  - 2 ^ 31 ≤ r_id m < 2 ^ 31 → - 2 ^ 31 ≤ r_ud m < 2 ^ 31 →
  (k = SKYNET_SOCKET_TYPE_UDP → ∃ p bs, r_data m = Buffer p bs) →
  let h := u32 (r_opaque m) in
  let sm := fresh (dom (heap n)) in
  let msg := result_message k padding m sm in
  (∀ p c, serves n h p c →
    poll_forward (Some (type, m)) w n =
      (s ← skynet_mq_push (ctx_queue c) msg (mq n);
       Ret (false, true, w, set_mq s (set_heap (<[sm := Bytes (result_block k padding m)]> (heap n)) n)))) ∧
  ((∀ p, ¬ registered (skynet_context_handle n) (storage n) h p) →
    poll_forward (Some (type, m)) w n =
      Ret (false, true, match payload_of padding (r_data m) with UPointer l => k_free l w | UText _ => w end, n)) ∧
  Z.shiftr (sz msg) MESSAGE_TYPE_SHIFT = PTYPE_SOCKET ∧
  (∀ mem, (∀ p bs, r_data m = Buffer p bs → mem p = bs) →
    lunpack (result_block k padding m) (Z.land (sz msg) MESSAGE_TYPE_MASK) mem =
      a ← address_of k (r_ud m) (r_data m); Ret (k, r_id m, r_ud m, payload_of padding (r_data m), a)).
Proof.
  intros Hs Hk Hd Hi Hu Hudp h sm msg.
  destruct (forward_type_bounds _ _ _ Hk) as (Hkb & Hne & Hpk).
  set (n' := set_heap (<[sm := Bytes (result_block k padding m)]> (heap n)) n).
  destruct (result_message_size k padding m sm) as [E1 E2].
  assert (poll_forward (Some (type, m)) w n =
    '(w, n) ← forward_message k padding m w n; Ret (false, true, w, n)) as ->
    by (unfold poll_forward; by rewrite bool_decide_eq_false_2, Hk).
  rewrite forward_message_push by done. cbn [skynet_malloc].
  change (set_heap _ n) with n'. fold sm h msg.
  split; [|split; [|split; [done|]]].
  - intros p c Hserves. assert (serves n' h p c) as Hserves' by exact Hserves.
    rewrite (push_serves n' h p c msg Hs Hserves'). change (mq n') with (mq n).
    by destruct (skynet_mq_push (ctx_queue c) msg (mq n)).
  - intros Hn. rewrite (push_none n' h msg Hs Hn). cbn [mbind outcome_bind]. rewrite bool_decide_eq_true_2 by done.
    unfold skynet_free. change (heap n') with (<[sm := Bytes (result_block k padding m)]> (heap n)).
    rewrite lookup_insert_eq. cbn [deref mbind outcome_bind]. do 2 f_equal.
    rewrite delete_insert_id; [by destruct n|]. apply not_elem_of_dom, is_fresh.
  - intros mem Hmem. unfold msg. rewrite E2. by apply result_unpacked.
Qed.
End delivery.

#[local] Definition idle_system : sim := Sim [] [] ∅ [] 100.

(** the data of a socket, and a text longer than fits, for the one service *)
Lemma socket_result_delivered_witness :
  poll_forward (Some (SOCKET_DATA, SocketMessage 7 0x1000002 3 (Buffer 9 [1; 2; 3]))) idle_system one_node =
    Ret (false, true, k_free 9 idle_system, one_node) ∧
  lunpack (result_block SKYNET_SOCKET_TYPE_ERROR true (SocketMessage 7 0x1000001 0 (Text "refused"))) 31 (λ _, []) =
    Ret (SKYNET_SOCKET_TYPE_ERROR, 7, 0, UText (bytes_of "refused"), None).
Proof.
  split.
  - apply (socket_result_delivered SOCKET_DATA SKYNET_SOCKET_TYPE_DATA false
      (SocketMessage 7 0x1000002 3 (Buffer 9 [1; 2; 3])) idle_system one_node); try done; [exact one_slots|].
    intros q (i & Hi & Hq & Hh).
    destruct (sl_ctx _ _ one_slots i q Hi Hq) as (x & Hx & Hx' & Hm).
    rewrite Hh in Hx'. injection Hx' as Hx'. change (harbor (storage one_node)) with 0x1000000 in Hx'.
    change (slot_size (storage one_node)) with 4 in Hm. change (u32 _) with 0x1000002 in Hx'.
    assert (x = 2) as -> by lia. subst i. done.
  - destruct (socket_result_delivered SOCKET_ERR SKYNET_SOCKET_TYPE_ERROR true
      (SocketMessage 7 0x1000001 0 (Text "refused")) idle_system one_node) as (_ & _ & _ & E);
      [exact one_slots|done|by exists (bytes_of "refused")|done|done|done|].
    apply (E (λ _, [])). done.
Defined.
