(* ===== verification/LuaSocketApi.v ===== *)
(** * Sockets of Lua services: the calls of lualib-src/lua-socket.c

    Addresses, the data of a send from Lua values, and the calls of the socket
    server with the handle of the service. Lua strings are their bytes; a NUL
    follows them in memory. *)
From S2P Require Import Prelude CLib CNum Bytes LuaValue Module SocketKernel SocketData SocketWrite SocketCtrl SocketPoll SocketApi SkynetSocket.
From Stdlib Require Import Ascii String.
#[local] Open Scope Z_scope.

Definition BACKLOG : Z := 32.

(** ** Addresses *)

(** what lies between [s] and [rest], a later part of it *)
Definition up_to (s rest : string) : string := substring 0 (String.length s - String.length rest) s.
Definition after_char (s : string) : string :=
  match s with EmptyString => EmptyString | String _ s => s end.

Definition invalid_address {A} (addr : string) : lua A :=
  LError (Message ("Invalid address " +:+ addr +:+ ".")).

(** host and port; [port]: the number at the index of the port, if there is one *)
Definition address_port (addr : list Z) (port : option Z) : lua (string * Z) :=
  let addr := c_text addr in
  match port with
  | Some port => LRet (addr, i32 port)
  | None =>
      match strchr 91 addr with
      | Some host =>
          (* ipv6 *)
          let host := after_char host in
          match strchr 93 addr with
          | None => invalid_address addr
          | Some sep =>
              if bool_decide (String.length host < String.length sep)%nat then LUndef
              else
                let tmp := up_to host sep in
                match strchr 58 (after_char sep) with
                | None => invalid_address addr
                | Some sep => LRet (tmp, i32 (strtoul (after_char sep) 10))
                end
          end
      | None =>
          match strchr 58 addr with
          | None => invalid_address addr
          | Some sep => LRet (up_to addr sep, i32 (strtoul (after_char sep) 10))
          end
      end
  end.

(** ** The data of a send *)

(** the value at the index of the data: a full userdata with its bytes, a light
    one with the bytes in memory from it on, or a Lua value *)
Inductive send_arg : Type :=
  | ArgUserdata (p : loc) (bytes : list Z)
  | ArgLight (p : loc) (mem : list Z)
  | ArgValue (v : value).

Section send.
(** the text of a number: the conversion of Lua; [geti]: what indexing the table
    gives, on each of the two passes *)
Context (number_text : value → list Z).

(** [lua_tolstring] *)
Definition tolstring (v : value) : option (list Z) :=
  match v with
  | VString s => Some s
  | VInt _ | VReal _ => Some (number_text v)
  | _ => None
  end.
Definition checklstring (v : value) : lua (list Z) :=
  match tolstring v with Some s => LRet s | None => LError (Message "string expected") end.

Fixpoint count_size (fuel : nat) (geti : Z → value) (i tlen : Z) : lua Z :=
  match fuel with
  | O => LNoFuel
  | S fuel =>
      match geti i with
      | VNil => LRet tlen
      | v => s ← checklstring v; count_size fuel geti (i32 (i + 1)) (u64 (tlen + Zlen s))
      end
  end.

(** the loop: the bytes written, how many are missing *)
Fixpoint concat_loop (fuel : nat) (geti : Z → value) (i tlen : Z) : lua (list Z * Z) :=
  match fuel with
  | O => LNoFuel
  | S fuel =>
      match geti i with
      | VNil => LRet ([], tlen)
      | v =>
          match tolstring v with
          | None => LRet ([], tlen)
          | Some s =>
              if bool_decide (tlen < Zlen s) then LRet ([], tlen)
              else '(rest, missing) ← concat_loop fuel geti (i32 (i + 1)) (u64 (tlen - Zlen s)); LRet (s ++ rest, missing)
          end
      end
  end.

Context {W : Type} `{!Kernel W}.

(** the system, also when an error is raised *)
Definition concat_table (fuel : nat) (geti : Z → value) (buffer : loc) (tlen : Z) (w : W) : lua (list Z) * W :=
  match concat_loop fuel geti 1 tlen with
  | LRet (bs, missing) =>
      if bool_decide (missing ≠ 0) then (LError (Message "Invalid strings table"), k_free buffer w) else (LRet bs, w)
  | LError e => (LError e, w)
  | LUndef => (LUndef, w)
  | LNoFuel => (LNoFuel, w)
  end.

(** the first [n] bytes in memory from a pointer on *)
Definition prefix (mem : list Z) (n : Z) : lua (list Z) :=
  if bool_decide (0 ≤ n ≤ Zlen mem) then LRet (take (Z.to_nat n) mem) else LUndef.

(** [size]: the integer at the next index, if it is one; [p]: where the bytes of a string are *)
Definition get_buffer (fuel : nat) (p : loc) (arg : send_arg) (size : option Z) (w : W) : lua sendbuffer * W :=
  match arg with
  | ArgUserdata p bytes =>
      (match size with
       | Some n => bs ← prefix bytes (u64 n); LRet (SOCKET_BUFFER_RAWPOINTER p bs)
       | None => LRet (SOCKET_BUFFER_RAWPOINTER p bytes)
       end, w)
  | ArgLight p mem =>
      let sz := match size with Some n => i32 n | None => -1 end in
      (if bool_decide (sz < 0) then LRet (SOCKET_BUFFER_OBJECT p)
       else bs ← prefix mem sz; LRet (SOCKET_BUFFER_MEMORY p bs), w)
  | ArgValue (VTable es) =>
      match count_size fuel (rawgeti es) 1 0 with
      | LRet len =>
          let '(buffer, w) := k_malloc len w in
          let '(bs, w) := concat_table fuel (rawgeti es) buffer len w in
          (bs ← bs; LRet (SOCKET_BUFFER_MEMORY buffer bs), w)
      | LError e => (LError e, w)
      | LUndef => (LUndef, w)
      | LNoFuel => (LNoFuel, w)
      end
  | ArgValue v => (s ← checklstring v; LRet (SOCKET_BUFFER_RAWPOINTER p s), w)
  end.

Definition with_buffer {A} (b : lua sendbuffer * W) (f : sendbuffer → W → lua (A * W)) : lua (A * W) :=
  buf ← fst b; f buf (snd b).

Definition lsend (fuel : nat) (p : loc) (id : Z) (arg : send_arg) (size : option Z) (ss : socket_server) (w : W) :
    lua (bool * socket_server * W) :=
  with_buffer (get_buffer fuel p arg size w) (λ buf w,
    '(err, ss, w) ← lift (skynet_socket_sendbuffer ss (i32 id) buf w); LRet (bool_decide (err = 0), ss, w)).
Definition lsendlow (fuel : nat) (p : loc) (id : Z) (arg : send_arg) (size : option Z) (ss : socket_server) (w : W) :
    lua (bool * socket_server * W) :=
  with_buffer (get_buffer fuel p arg size w) (λ buf w,
    '(err, ss, w) ← lift (skynet_socket_sendbuffer_lowpriority ss (i32 id) buf w);
    LRet (bool_decide (err = 0), ss, w)).
Definition ludp_send (fuel : nat) (p : loc) (id : Z) (address : list Z) (arg : send_arg) (size : option Z)
    (ss : socket_server) (w : W) : lua (bool * socket_server * W) :=
  with_buffer (get_buffer fuel p arg size w) (λ buf w,
    '(err, ss, w) ← lift (skynet_socket_udp_sendbuffer ss (address ++ [0]) (i32 id) buf w);
    LRet (bool_decide (err = 0), ss, w)).

(** ** Connections *)
Definition lconnect (handle : Z) (addr : list Z) (port : option Z) (ss : socket_server) (w : W) :
    lua (Z * socket_server * W) :=
  '(host, port) ← address_port addr port;
  if bool_decide (port = 0) then LError (Message "Invalid port")
  else lift (skynet_socket_connect handle ss host port w).
Definition lclose (handle id : Z) (ss : socket_server) : socket_server := skynet_socket_close handle ss (i32 id).
Definition lshutdown (handle id : Z) (ss : socket_server) : socket_server := skynet_socket_shutdown handle ss (i32 id).
Definition llisten (handle : Z) (host : list Z) (port : Z) (backlog : option Z) (ss : socket_server) (w : W) :
    lua (Z * socket_server * W) :=
  '(id, ss, w) ← lift (skynet_socket_listen handle ss (c_text host) (i32 port) (i32 (default BACKLOG backlog)) w);
  if bool_decide (id < 0) then LError (Message "Listen error") else LRet (id, ss, w).
Definition lbind (handle fd : Z) (ss : socket_server) : lua (Z * socket_server) :=
  lift (skynet_socket_bind handle ss (i32 fd)).
Definition lstart (handle id : Z) (ss : socket_server) : socket_server := skynet_socket_start handle ss (i32 id).
Definition lpause (handle id : Z) (ss : socket_server) : socket_server := skynet_socket_pause handle ss (i32 id).
Definition lnodelay (id : Z) (ss : socket_server) : socket_server := skynet_socket_nodelay ss (i32 id).

(** ** Datagrams *)
Definition ludp (handle : Z) (addr : option (list Z)) (port : option Z) (ss : socket_server) (w : W) :
    lua (Z * socket_server * W) :=
  '(host, port) ← match addr with
                  | Some addr => '(host, port) ← address_port addr port; LRet (Some host, port)
                  | None => LRet (None, 0)
                  end;
  '(id, ss, w) ← lift (skynet_socket_udp handle ss host port w);
  if bool_decide (id < 0) then LError (Message "udp init failed") else LRet (id, ss, w).
Definition ludp_connect (id : Z) (addr : list Z) (port : option Z) (ss : socket_server) (w : W) :
    lua (socket_server * W) :=
  '(host, port) ← address_port addr port;
  '(e, ss, w) ← lift (skynet_socket_udp_connect ss (i32 id) host port w);
  if bool_decide (e ≠ 0) then LError (Message "udp connect failed") else LRet (ss, w).

(** the bytes of the port are read before the size is looked at *)
Definition ludp_address (addr : list Z) : lua (string * Z) :=
  let mem := addr ++ [0] in
  p1 ← lift (get_idx mem 1);
  p2 ← lift (get_idx mem 2);
  let port := Z.lor (Z.shiftl p1 8) p2 in
  family ← (if bool_decide (Zlen addr = 1 + 2 + 4) then LRet AF_INET
            else if bool_decide (Zlen addr ≠ 1 + 2 + 16) then LError (Message "Invalid udp address")
            else LRet AF_INET6);
  match k_inet_ntop (Sockaddr family [p1; p2] (drop 3 addr)) with
  | None => LError (Message "Invalid udp address")
  | Some tmp => LRet (tmp, port)
  end.
End send.

(** ** Information *)
Definition key (s : string) : value := VString (Node.bytes_of s).
Definition int_field (k : string) (n : Z) : value * value := (key k, VInt (i64 n)).
Definition name_field (k : string) (name : string) : list (value * value) :=
  match name with EmptyString => [] | _ => [(key k, VString (Node.bytes_of name))] end.
Definition getinfo (si : socket_info) : value :=
  let base := [int_field "id" (si_id si); int_field "address" (si_opaque si)] in
  let stream type :=
    base ++ [(key "type", key type); int_field "read" (si_read si); int_field "write" (si_write si);
             int_field "wbuffer" (si_wbuffer si); int_field "rtime" (si_rtime si); int_field "wtime" (si_wtime si)] ++
    name_field "peer" (si_name si) in
  VTable
    (if bool_decide (si_type si = SOCKET_INFO_LISTEN) then
       base ++ [(key "type", key "LISTEN"); int_field "accept" (si_read si); int_field "rtime" (si_rtime si)] ++
       name_field "sock" (si_name si)
     else if bool_decide (si_type si = SOCKET_INFO_TCP) then stream "TCP"%string
     else if bool_decide (si_type si = SOCKET_INFO_UDP) then stream "UDP"%string
     else if bool_decide (si_type si = SOCKET_INFO_BIND) then stream "BIND"%string
     else base ++ [(key "type", key "UNKNOWN")]).
Definition linfo {W} `{!Kernel W} (ss : socket_server) (w : W) : outcome (value * W) :=
  '(si, w) ← skynet_socket_info ss w;
  Ret (VTable (imap (λ i s, (VInt (Z.of_nat i + 1), getinfo s)) si), w).

(** ** Light pointers: [str2p] *)
Definition lstr2p {W} `{!Kernel W} (str : list Z) (w : W) : loc * Z * W :=
  let '(ptr, w) := k_malloc (Zlen str) w in (ptr, i32 (Zlen str), w).

(** ** Addresses as text *)
Lemma strchr_skip c a s : strchr c a = None → strchr c (a +:+ s) = strchr c s.
Proof.
  induction a as [|d a IH]; intros E; [done|]. change (String d a +:+ s) with (String d (a +:+ s)).
  cbn [strchr] in *. case_decide; [done|]. by apply IH.
Qed.

Lemma up_to_app a s : up_to (a +:+ s) s = a.
Proof.
  unfold up_to. rewrite length_append, Nat.add_sub. induction a as [|d a IH].
  - by destruct s.
  - change (String d a +:+ s) with (String d (a +:+ s)). cbn [String.length substring]. by rewrite IH.
Qed.

Lemma strtoul_fmt_u n : 0 ≤ n < 2 ^ 31 → strtoul (fmt_u n) 10 = n.
Proof.
  intros Hn. unfold strtoul, fmt_u.
  rewrite strto_of_digits by (try apply show_base_digits; simpl; lia || done).
  destruct (strto_show_base 10 19 false ltac:(lia) n "") as (k & _ & E).
  { split; [lia|]. apply Z.lt_le_trans with (10 ^ 10); [lia|]. by apply Z.pow_le_mono_r. }
  rewrite E. cbn [strto_digits fst]. rewrite decide_False by (unfold ULONG_MAX; lia). lia.
Qed.

(** no character [c] in the decimal digits *)
Lemma strchr_digits c s : all_digits 10 s → c < 48 ∨ 57 < c → strchr c s = None.
Proof.
  induction s as [|d s IH]; intros Hd Hc; [done|]. destruct Hd as [(up & v & -> & Hv) Hd]. cbn [strchr].
  rewrite decide_False; [by apply IH|]. unfold digit_chr. rewrite decide_True, char_code_chr by lia. lia.
Qed.

Lemma port_digits n : 0 ≤ n → all_digits 10 (fmt_u n).
Proof. intros. by apply show_base_digits. Qed.

Lemma strchr_colon s : strchr 58 (":" +:+ s) = Some (":" +:+ s).
Proof. done. Qed.

(** an address of version 4 or a name, and one of version 6 in brackets *)
Lemma address_port_v4 addr host n : c_text addr = host +:+ ":" +:+ fmt_u n → 0 ≤ n < 2 ^ 31 →
  strchr 58 host = None → strchr 91 host = None → address_port addr None = LRet (host, n).
Proof.
  intros E Hn Hc Hb. unfold address_port. rewrite E.
  assert (strchr 91 (host +:+ ":" +:+ fmt_u n) = None) as ->.
  { rewrite strchr_skip by done. change (strchr 91 (":" +:+ fmt_u n)) with (strchr 91 (fmt_u n)).
    apply strchr_digits; [apply port_digits; lia|lia]. }
  rewrite strchr_skip, strchr_colon, up_to_app by done. change (after_char (":" +:+ fmt_u n)) with (fmt_u n).
  rewrite strtoul_fmt_u by done. rewrite i32_small by lia. done.
Qed.
Lemma address_port_v6 addr host n : c_text addr = "[" +:+ host +:+ "]:" +:+ fmt_u n → 0 ≤ n < 2 ^ 31 →
  strchr 93 host = None → address_port addr None = LRet (host, n).
Proof.
  intros E Hn Hc. unfold address_port. rewrite E.
  change (strchr 91 ("[" +:+ host +:+ "]:" +:+ fmt_u n)) with (Some ("[" +:+ (host +:+ "]:" +:+ fmt_u n))).
  cbv zeta iota.
  change (after_char ("[" +:+ (host +:+ "]:" +:+ fmt_u n))) with (host +:+ "]:" +:+ fmt_u n).
  change (strchr 93 ("[" +:+ host +:+ "]:" +:+ fmt_u n)) with (strchr 93 (host +:+ "]:" +:+ fmt_u n)).
  rewrite strchr_skip by done. change (strchr 93 ("]:" +:+ fmt_u n)) with (Some ("]:" +:+ fmt_u n)). cbv iota.
  rewrite bool_decide_eq_false_2 by (rewrite length_append; lia). rewrite up_to_app.
  change (after_char ("]:" +:+ fmt_u n)) with (":" +:+ fmt_u n). rewrite strchr_colon.
  change (after_char (":" +:+ fmt_u n)) with (fmt_u n). rewrite strtoul_fmt_u by done. rewrite i32_small by lia. done.
Qed.

(** a bracket that closes before one opens: a copy of negative length *)
Lemma address_port_brackets addr a b : c_text addr = a +:+ "]" +:+ b →
  strchr 93 a = None → strchr 91 a = None → is_Some (strchr 91 b) → address_port addr None = LUndef.
Proof.
  intros E Ha Ha' [h Hh]. unfold address_port. rewrite E, !strchr_skip by done.
  change (strchr 91 ("]" +:+ b)) with (strchr 91 b). rewrite Hh.
  change (strchr 93 ("]" +:+ b)) with (Some ("]" +:+ b)). cbv zeta iota.
  rewrite bool_decide_eq_true_2; [done|].
  assert (String.length h ≤ String.length b)%nat as Hl.
  { clear -Hh. revert h Hh. induction b as [|d b IH]; intros h Hh; [done|]. cbn [strchr] in Hh. case_decide.
    - by injection Hh as <-.
    - cbn. specialize (IH _ Hh). lia. }
  rewrite length_append. destruct h as [|d h]; cbn in *; lia.
Qed.

(** ** The bytes of a table *)
Section table.
Context (number_text : value → list Z).
Abbreviation tolstring := (tolstring number_text).
Abbreviation count_size := (count_size number_text).
Abbreviation concat_loop := (concat_loop number_text).

(** the items from index [i] on *)
Fixpoint items (geti : Z → value) (i : Z) (ss : list (list Z)) : Prop :=
  match ss with
  | [] => geti i = VNil
  | s :: ss => geti i ≠ VNil ∧ tolstring (geti i) = Some s ∧ items geti (i + 1) ss
  end.
Definition total_size (ss : list (list Z)) : Z := Zlen (List.concat ss).

Lemma count_size_items geti ss : ∀ fuel i tlen, items geti i ss → (List.length ss < fuel)%nat →
  - 2 ^ 31 ≤ i → i + Zlen ss < 2 ^ 31 → 0 ≤ tlen → tlen + total_size ss < 2 ^ 64 →
  count_size fuel geti i tlen = LRet (tlen + total_size ss).
Proof.
  unfold total_size. induction ss as [|s ss IH]; intros fuel i tlen Hi Hf H1 H2 H3 H4; (destruct fuel; [lia|]); cbn in Hi |- *.
  - rewrite Hi. f_equal. rewrite Zlen_nil. lia.
  - destruct Hi as (Hn & Ht & Hi). rewrite Zlen_cons in H2. cbn [List.concat] in *. rewrite Zlen_app in *. cbn in Hf.
    pose proof (Zlen_nonneg s). pose proof (Zlen_nonneg ss). pose proof (Zlen_nonneg (List.concat ss)).
    assert (∀ v, tolstring v = Some s → (s' ← checklstring number_text v;
      count_size fuel geti (i32 (i + 1)) (u64 (tlen + Zlen s'))) = LRet (tlen + (Zlen s + Zlen (List.concat ss)))) as Hs.
    { intros v Hv. unfold checklstring. rewrite Hv. cbn [mbind lua_bind].
      rewrite i32_small by lia. unfold u64. rewrite Z.mod_small by lia. rewrite IH by (done || lia). f_equal. lia. }
    destruct (geti i); try done; exact (Hs _ Ht).
Qed.

Lemma concat_loop_items geti ss : ∀ fuel i tlen, items geti i ss → (List.length ss < fuel)%nat →
  - 2 ^ 31 ≤ i → i + Zlen ss < 2 ^ 31 → total_size ss ≤ tlen < 2 ^ 64 →
  concat_loop fuel geti i tlen = LRet (List.concat ss, tlen - total_size ss).
Proof.
  unfold total_size. induction ss as [|s ss IH]; intros fuel i tlen Hi Hf H1 H2 H3; (destruct fuel; [lia|]); cbn in Hi |- *.
  - rewrite Hi. do 2 f_equal. rewrite Zlen_nil. lia.
  - destruct Hi as (Hn & Ht & Hi). rewrite Zlen_cons in H2. cbn [List.concat] in *. rewrite Zlen_app in *. cbn in Hf.
    pose proof (Zlen_nonneg s). pose proof (Zlen_nonneg ss). pose proof (Zlen_nonneg (List.concat ss)).
    assert (∀ v, tolstring v = Some s → match tolstring v with
      | None => LRet ([], tlen)
      | Some s => if bool_decide (tlen < Zlen s) then LRet ([], tlen)
        else '(rest, missing) ← concat_loop fuel geti (i32 (i + 1)) (u64 (tlen - Zlen s)); LRet (s ++ rest, missing)
      end = LRet (s ++ List.concat ss, tlen - (Zlen s + Zlen (List.concat ss)))) as Hs.
    { intros v Hv. rewrite Hv, bool_decide_eq_false_2 by lia. rewrite i32_small by lia. unfold u64.
      rewrite Z.mod_small by lia. rewrite IH by (done || lia). cbn [mbind lua_bind]. do 2 f_equal. lia. }
    destruct (geti i); try done; exact (Hs _ Ht).
Qed.

(** whatever the second pass finds, it stays inside the buffer *)
Lemma concat_loop_inside geti : ∀ fuel i tlen bs missing, 0 ≤ tlen < 2 ^ 64 →
  concat_loop fuel geti i tlen = LRet (bs, missing) → Zlen bs + missing = tlen ∧ 0 ≤ missing.
Proof.
  induction fuel as [|fuel IH]; intros i tlen bs missing Ht E; [done|]. cbn in E.
  assert (∀ s, (if bool_decide (tlen < Zlen s) then LRet ([], tlen)
    else '(rest, missing) ← concat_loop fuel geti (i32 (i + 1)) (u64 (tlen - Zlen s)); LRet (s ++ rest, missing)) =
    LRet (bs, missing) → Zlen bs + missing = tlen ∧ 0 ≤ missing) as Hs.
  { intros s E'. pose proof (Zlen_nonneg s). case_bool_decide.
    - injection E' as <- <-. rewrite Zlen_nil. lia.
    - unfold u64 in E'. rewrite Z.mod_small in E' by lia.
      destruct (concat_loop fuel geti (i32 (i + 1)) (tlen - Zlen s)) as [[rest m]| | |] eqn:Er; try done.
      injection E' as <- <-. apply IH in Er; [|lia]. rewrite Zlen_app. lia. }
  destruct (geti i); cbn in E; try (by apply (Hs _ E)); injection E as <- <-; rewrite Zlen_nil; lia.
Qed.

Lemma concat_loop_answers geti : ∀ fuel i tlen,
  (∃ r, concat_loop fuel geti i tlen = LRet r) ∨ concat_loop fuel geti i tlen = LNoFuel.
Proof.
  induction fuel as [|fuel IH]; intros i tlen; [by right|]. cbn.
  destruct (geti i); cbn; try (by left; eexists); (case_bool_decide; [by left; eexists|]);
    match goal with |- context [concat_loop fuel geti ?j ?t] => destruct (IH j t) as [[[rest m] ->] | ->] end;
    cbn; (by left; eexists) || by right.
Qed.

Context {W : Type} `{!Kernel W}.
Lemma concat_table_inside fuel geti buffer tlen (w : W) : 0 ≤ tlen < 2 ^ 64 →
  match concat_table number_text fuel geti buffer tlen w with
  | (LRet bs, w') => Zlen bs = tlen ∧ w' = w
  | (LError _, w') => w' = k_free buffer w
  | (LUndef, _) => False
  | (LNoFuel, _) => True
  end.
Proof.
  intros Ht. unfold concat_table. destruct (concat_loop fuel geti 1 tlen) as [[bs missing]|e| |] eqn:E; try done.
  - apply concat_loop_inside in E; [|done]. case_bool_decide; [done|]. split; [lia|done].
  - by destruct (concat_loop_answers geti fuel 1 tlen) as [[? E']|E']; rewrite E' in E.
  - by destruct (concat_loop_answers geti fuel 1 tlen) as [[? E']|E']; rewrite E' in E.
Qed.

(** a table of strings and numbers is sent as one block *)
Lemma get_buffer_table fuel p es ss size (w : W) : items (rawgeti es) 1 ss → (List.length ss < fuel)%nat →
  Zlen ss < 2 ^ 31 - 1 → total_size ss < 2 ^ 64 →
  get_buffer number_text fuel p (ArgValue (VTable es)) size w =
    (LRet (SOCKET_BUFFER_MEMORY (fst (k_malloc (total_size ss) w)) (List.concat ss)), snd (k_malloc (total_size ss) w)).
Proof.
  intros Hi Hf Hl Ht. pose proof (Zlen_nonneg ss). pose proof (Zlen_nonneg (List.concat ss)).
  unfold get_buffer. rewrite (count_size_items _ ss) by (done || lia). rewrite Z.add_0_l.
  destruct (k_malloc (total_size ss) w) as [buffer w']. unfold concat_table.
  rewrite (concat_loop_items _ ss) by (unfold total_size in *; done || lia).
  rewrite Z.sub_diag, bool_decide_eq_false_2 by lia. done.
Qed.
End table.

(** ** The address of a datagram *)
Section address.
Context {W : Type} `{!Kernel W}.
Lemma port_value a b : byte a → byte b → Z.lor (Z.shiftl a 8) b = a * 256 + b.
Proof. unfold byte. intros. rewrite lor_shift by lia. lia. Qed.

(** the address that goes with a datagram reads back as host and port *)
Lemma ludp_address_gen protocol (sa : sockaddr) tmp :
  sa_family sa = (if bool_decide (protocol = PROTOCOL_UDP) then AF_INET else AF_INET6) →
  List.length (sa_port sa) = 2%nat → Forall byte (sa_port sa) →
  List.length (sa_addr sa) = (if bool_decide (protocol = PROTOCOL_UDP) then 4 else 16)%nat →
  k_inet_ntop sa = Some tmp →
  ludp_address (gen_udp_address protocol sa) = LRet (tmp, port_of sa).
Proof.
  intros Hf Hp Hb Ha Ht. destruct sa as [family port addr]. cbn in *.
  destruct port as [|a [|b [|]]]; try done. apply Forall_cons in Hb as [Hb1 Hb2]. apply Forall_cons in Hb2 as [Hb2 _].
  unfold gen_udp_address, ludp_address. cbn [sa_port sa_addr app get_idx lift].
  change (get_idx (u8 protocol :: a :: b :: addr ++ [0]) 1) with (Ret a).
  change (get_idx (u8 protocol :: a :: b :: addr ++ [0]) 2) with (Ret b). cbn [lift mbind lua_bind].
  assert (Zlen (u8 protocol :: a :: b :: addr) = 3 + (if bool_decide (protocol = PROTOCOL_UDP) then 4 else 16)) as ->
    by (rewrite !Zlen_cons; unfold Zlen; rewrite Ha; case_bool_decide; lia).
  unfold port_of. cbn [sa_port]. rewrite port_value by done.
  change (drop 3 (u8 protocol :: a :: b :: addr)) with addr.
  subst family. case_bool_decide.
  - rewrite bool_decide_eq_true_2 by lia. cbn [mbind lua_bind]. by rewrite Ht.
  - rewrite !bool_decide_eq_false_2 by lia. cbn [mbind lua_bind]. by rewrite Ht.
Qed.

(** a string of less than two bytes is read past its end *)
Lemma ludp_address_short addr : Zlen addr < 2 → ludp_address addr = LUndef.
Proof. destruct addr as [|a [|b addr]]; try done. rewrite !Zlen_cons. pose proof (Zlen_nonneg addr). lia. Qed.
End address.
