(* ===== verification/SprotoPack.v ===== *)
(** * Zero packing of structured messages: lualib-src/sproto/sproto.c and lsproto.c

    [sproto_pack] writes eight bytes as a header of eight bits and the bytes that
    are not zero; runs of segments without zeros, or with few, go out whole. The
    writer works in a buffer that may be too small, and counts on: its answer is
    the size it needs. Only accesses are checked: the pointers of both routines
    may run past the end of a small buffer. *)
From S2P Require Import Prelude CLib CNum Bytes LuaValue.
From Stdlib Require Import String.
#[local] Open Scope Z_scope.
#[local] Abbreviation length := List.length.

(** [n] bytes of an array from [off] on, which must be there *)
Definition slice (l : list Z) (off n : Z) : outcome (list Z) :=
  if bool_decide (0 ≤ off ∧ 0 ≤ n ∧ off + n ≤ Zlen l) then Ret (take (Z.to_nat n) (drop (Z.to_nat off) l)) else Undef.
(** [memcpy] into an array *)
Definition put_bytes (b : list Z) (ptr : Z) (src : list Z) : outcome (list Z) :=
  if bool_decide (0 ≤ ptr ∧ ptr + Zlen src ≤ Zlen b) then Ret (copy_at b ptr src) else Undef.

(** ** Writing *)

(** the eight bytes of a segment: header and count of those that are not zero *)
Fixpoint seg_loop (seg : list Z) (i header notzero : Z) (b : list Z) (ptr sz : Z) : outcome (Z * Z * list Z) :=
  match seg with
  | [] => Ret (header, notzero, b)
  | x :: seg =>
      if bool_decide (x ≠ 0) then
        let header := Z.lor header (Z.shiftl 1 i) in
        if bool_decide (0 < sz) then
          b ← set_idx b ptr x;
          seg_loop seg (i + 1) header (notzero + 1) b (ptr + 1) (sz - 1)
        else seg_loop seg (i + 1) header (notzero + 1) b ptr sz
      else seg_loop seg (i + 1) header notzero b ptr sz
  end.

(** [b] is the buffer and [ptr] the place in it; the size and the buffer *)
Definition pack_seg (src b : list Z) (ptr sz n : Z) : outcome (Z * list Z) :=
  let obuffer := bool_decide (0 ≤ sz - 1) in
  sz ← chk_int (sz - 1);
  '(header, notzero, b) ← seg_loop src 0 0 0 b (ptr + 1) sz;
  let notzero := if bool_decide ((notzero = 7 ∨ notzero = 6) ∧ 0 < n) then 8 else notzero in
  if bool_decide (notzero = 8) then Ret (if bool_decide (0 < n) then 8 else 10, b)
  else
    b ← (if obuffer then set_idx b ptr header else Ret b);
    Ret (notzero + 1, b).

(** a pointer into the source, or to the padded copy of its last segment *)
Inductive src_ptr : Type := At (i : Z) | Tmp.

(** the comparison of [src] with the end is meant for pointers into the source *)
Definition write_ff (srcv : list Z) (src : src_ptr) (des : list Z) (ptr n : Z) : outcome (list Z) :=
  match src with
  | Tmp => Undef
  | At i =>
      des ← set_idx des ptr 0xff;
      des ← set_idx des (ptr + 1) (u8 (n - 1));
      if bool_decide (i + n * 8 ≤ Zlen srcv) then
        bs ← slice srcv i (n * 8); put_bytes des (ptr + 2) bs
      else
        let sz := Zlen srcv - i in
        bs ← slice srcv i sz;
        des ← put_bytes des (ptr + 2) bs;
        put_bytes des (ptr + 2 + sz) (replicate (Z.to_nat (n * 8 - sz)) 0)
  end.

Record packer : Type := Packer {
  p_ff_srcstart : src_ptr;
  p_ff_desstart : Z;
  p_ff_n : Z;
  p_size : Z;
  p_bufsz : Z;
  p_buffer : list Z
}.

(** the run is written, if the buffer had room for it *)
Definition flush_ff (srcv : list Z) (s : packer) (n : Z) : outcome (list Z) :=
  if bool_decide (0 ≤ p_bufsz s) then write_ff srcv (p_ff_srcstart s) (p_buffer s) (p_ff_desstart s) n
  else Ret (p_buffer s).

(** the eight bytes from [i] on, the last ones padded *)
Definition read_seg (srcv : list Z) (i : Z) : outcome (src_ptr * list Z) :=
  let padding := i + 8 - Zlen srcv in
  if bool_decide (0 < padding) then
    bs ← slice srcv i (8 - padding); Ret (Tmp, bs ++ replicate (Z.to_nat padding) 0)
  else bs ← slice srcv i 8; Ret (At i, bs).

Definition pack_step (srcv : list Z) (i : Z) (s : packer) : outcome packer :=
  '(src, seg) ← read_seg srcv i;
  let ptr := p_size s in
  '(n, b) ← pack_seg seg (p_buffer s) ptr (p_bufsz s) (p_ff_n s);
  bufsz ← chk_int (p_bufsz s - n);
  size ← chk_int (p_size s + n);
  let s := Packer (p_ff_srcstart s) (p_ff_desstart s) (p_ff_n s) size bufsz b in
  if bool_decide (n = 10) then Ret (Packer src ptr 1 size bufsz b)
  else if bool_decide (n = 8 ∧ 0 < p_ff_n s) then
    let ff_n := p_ff_n s + 1 in
    if bool_decide (ff_n = 256) then
      b ← flush_ff srcv s 256; Ret (Packer (p_ff_srcstart s) (p_ff_desstart s) 0 size bufsz b)
    else Ret (Packer (p_ff_srcstart s) (p_ff_desstart s) ff_n size bufsz b)
  else if bool_decide (0 < p_ff_n s) then
    b ← flush_ff srcv s (p_ff_n s); Ret (Packer (p_ff_srcstart s) (p_ff_desstart s) 0 size bufsz b)
  else Ret s.

Fixpoint pack_loop (fuel : nat) (srcv : list Z) (i : Z) (s : packer) : outcome packer :=
  if bool_decide (i < Zlen srcv) then
    match fuel with
    | O => NoFuel
    | S fuel => s ← pack_step srcv i s; i ← chk_int (i + 8); pack_loop fuel srcv i s
    end
  else Ret s.

(** the size of the result, which fits if it is not more than that of the buffer *)
Definition sproto_pack (srcv bufferv : list Z) : outcome (Z * list Z) :=
  s ← pack_loop (length srcv) srcv 0 (Packer Tmp 0 0 0 (Zlen bufferv) bufferv);
  b ← (if bool_decide (0 ≤ p_bufsz s ∧ 0 < p_ff_n s) then
         write_ff srcv (p_ff_srcstart s) (p_buffer s) (p_ff_desstart s) (p_ff_n s)
       else Ret (p_buffer s));
  Ret (p_size s, b).

(** ** Reading *)

(** what is left of the source, where the reader is, and the buffer *)
Record unpacker : Type := Unpacker {
  u_src : Z;
  u_srcsz : Z;
  u_ptr : Z;
  u_bufsz : Z;
  u_size : Z;
  u_buffer : list Z
}.

Definition put_byte (x : Z) (s : unpacker) : outcome unpacker :=
  b ← set_idx (u_buffer s) (u_ptr s) x;
  Ret (Unpacker (u_src s) (u_srcsz s) (u_ptr s + 1) (u_bufsz s - 1) (u_size s) b).

(** one round of the loop: it goes on, or the result is -1 *)
Inductive unpack_result : Type := Go (s : unpacker) | Stop (b : list Z).

(** bits [i] to 7 of the header; [mem]: the memory from the source on *)
Fixpoint unpack_bits (k : nat) (mem : list Z) (header i : Z) (s : unpacker) : outcome unpack_result :=
  match k with
  | O => Ret (Go s)
  | S k =>
      let next s := size ← chk_int (u_size s + 1);
        unpack_bits k mem header (i + 1) (Unpacker (u_src s) (u_srcsz s) (u_ptr s) (u_bufsz s) size (u_buffer s)) in
      if Z.testbit header i then
        if bool_decide (u_srcsz s < 0) then Ret (Stop (u_buffer s))
        else
          s ← (if bool_decide (0 < u_bufsz s) then x ← get_idx mem (u_src s); put_byte x s else Ret s);
          next (Unpacker (u_src s + 1) (u_srcsz s - 1) (u_ptr s) (u_bufsz s) (u_size s) (u_buffer s))
      else
        s ← (if bool_decide (0 < u_bufsz s) then put_byte 0 s else Ret s);
        next s
  end.

Definition unpack_ff (mem : list Z) (s : unpacker) : outcome unpack_result :=
  if bool_decide (u_srcsz s < 0) then Ret (Stop (u_buffer s))
  else
    x ← get_idx mem (u_src s);
    let n := (x + 1) * 8 in
    if bool_decide (u_srcsz s < n + 1) then Ret (Stop (u_buffer s))
    else
      let src := u_src s + 1 in
      b ← (if bool_decide (n ≤ u_bufsz s) then bs ← slice mem src n; put_bytes (u_buffer s) (u_ptr s) bs
           else Ret (u_buffer s));
      bufsz ← chk_int (u_bufsz s - n);
      size ← chk_int (u_size s + n);
      Ret (Go (Unpacker (src + n) (u_srcsz s - (n + 1)) (u_ptr s + n) bufsz size b)).

Definition unpack_step (mem : list Z) (s : unpacker) : outcome unpack_result :=
  header ← get_idx mem (u_src s);
  let s := Unpacker (u_src s + 1) (u_srcsz s - 1) (u_ptr s) (u_bufsz s) (u_size s) (u_buffer s) in
  if bool_decide (header = 0xff) then unpack_ff mem s else unpack_bits 8 mem header 0 s.

Fixpoint unpack_loop (fuel : nat) (mem : list Z) (s : unpacker) : outcome (Z * list Z) :=
  if bool_decide (0 < u_srcsz s) then
    match fuel with
    | O => NoFuel
    | S fuel =>
        r ← unpack_step mem s;
        match r with Stop b => Ret (-1, b) | Go s => unpack_loop fuel mem s end
    end
  else Ret (u_size s, u_buffer s).

(** the bytes of [mem] up to [srcsz] are unpacked; [mem] may go on behind them *)
Definition sproto_unpack (mem : list Z) (srcsz : Z) (bufferv : list Z) : outcome (Z * list Z) :=
  unpack_loop (Z.to_nat srcsz) mem (Unpacker 0 srcsz 0 (Zlen bufferv) 0 bufferv).

(** ** The calls of the Lua library: lsproto.c

    They share an output buffer, which grows. What a new buffer holds, zeros
    here, is overwritten before it is read. *)
Definition ENCODE_BUFFERSIZE : Z := 2050.
Definition ENCODE_MAXSIZE : Z := 0x1000000.

(** the size doubles until it is enough *)
Fixpoint expand_size (fuel : nat) (osz nsz : Z) : outcome Z :=
  match fuel with
  | O => NoFuel
  | S fuel =>
      osz ← chk_int (osz * 2);
      if bool_decide (osz < nsz) then expand_size fuel osz nsz else Ret osz
  end.
Definition expand_buffer (osz nsz : Z) : lua (list Z) :=
  osz ← lift (expand_size 32 osz nsz);
  if bool_decide (ENCODE_MAXSIZE < osz) then
    LError (Message ("object is too large (>" +:+ fmt_d ENCODE_MAXSIZE +:+ ")"))
  else LRet (replicate (Z.to_nat osz) 0).

(** a call that is given the first [n] bytes of the buffer *)
Definition with_space {A} (n : Z) (output : list Z) (f : list Z → outcome (A * list Z)) : lua (A * list Z) :=
  '(r, b) ← lift (f (take (Z.to_nat n) output)); LRet (r, b ++ drop (Z.to_nat n) output).

(** the string and the buffer *)
Definition lpack (s output : list Z) : lua (list Z * list Z) :=
  let sz := Zlen s in
  let maxsz := u64 ((sz + 2047) / 2048 * 2 + sz + 2) in
  let osz := Zlen output in
  output ← (if bool_decide (osz < maxsz) then expand_buffer osz (i32 maxsz) else LRet output);
  '(bytes, output) ← with_space maxsz output (sproto_pack s);
  if bool_decide (maxsz < bytes) then LError (Message ("packing error, return size = " +:+ fmt_d bytes))
  else LRet (take (Z.to_nat bytes) output, output).

(** a Lua string: a NUL follows it *)
Definition lunpack (s output : list Z) : lua (list Z * list Z) :=
  let sz := i32 (Zlen s) in
  let osz := Zlen output in
  let invalid {A} : lua A := LError (Message "Invalid unpack stream") in
  '(r, output) ← lift (sproto_unpack (s ++ [0]) sz output);
  if bool_decide (r < 0) then invalid
  else if bool_decide (osz < r) then
    output ← expand_buffer osz r;
    '(r, output) ← with_space r output (sproto_unpack (s ++ [0]) sz);
    if bool_decide (r < 0) then invalid else LRet (take (Z.to_nat r) output, output)
  else LRet (take (Z.to_nat r) output, output).

(** ** The packed format *)
Inductive block : Type := Seg (s : list Z) | Run (ss : list (list Z)).

Definition nonzero (s : list Z) : list Z := filter (λ x, x ≠ 0) s.
Fixpoint header_of (s : list Z) : Z :=
  match s with [] => 0 | x :: s => (if bool_decide (x ≠ 0) then 1 else 0) + 2 * header_of s end.
Definition enc (b : block) : list Z :=
  match b with Seg s => header_of s :: nonzero s | Run ss => 255 :: (Zlen ss - 1) :: mjoin ss end.
Definition raw (b : block) : list Z := match b with Seg s => s | Run ss => mjoin ss end.
Definition segment (s : list Z) : Prop := length s = 8%nat ∧ Forall byte s.
Definition block_ok (b : block) : Prop :=
  match b with
  | Seg s => segment s ∧ Zlen (nonzero s) ≤ 7
  | Run ss => 1 ≤ Zlen ss ≤ 256 ∧ Forall segment ss
  end.
(** the source with zeros up to a multiple of eight *)
Definition padded (l : list Z) : list Z := l ++ replicate (Z.to_nat ((- Zlen l) mod 8)) 0.

(** ** Writing into a buffer *)
Lemma take_insert_snoc (b : list Z) ptr x : 0 ≤ ptr < Zlen b →
  take (Z.to_nat (ptr + 1)) (<[Z.to_nat ptr := x]> b) = take (Z.to_nat ptr) b ++ [x].
Proof.
  unfold Zlen. intros Hp. replace (Z.to_nat (ptr + 1)) with (S (Z.to_nat ptr)) by lia.
  rewrite (take_S_r _ _ x) by (apply list_lookup_insert_eq; lia). by rewrite take_insert_ge.
Qed.

Lemma take_agree (b b' : list Z) (m n : nat) : (n ≤ m)%nat → take m b = take m b' → take n b = take n b'.
Proof. intros Hn E. rewrite <- (Nat.min_l n m Hn), <- !take_take. by rewrite E. Qed.

Lemma drop_agree (b b' : list Z) (m n : nat) : (m ≤ n)%nat → drop m b = drop m b' → drop n b = drop n b'.
Proof. intros Hn E. replace n with (m + (n - m))%nat by lia. by rewrite <- !drop_drop, E. Qed.

(** a longer prefix is known: so is a shorter one *)
Lemma take_front (b p q : list Z) n m : 0 ≤ n → Zlen p = n → n ≤ m →
  take (Z.to_nat m) b = p ++ q → take (Z.to_nat n) b = p.
Proof.
  intros Hn Hp Hm E. assert (take (Z.to_nat n) (take (Z.to_nat m) b) = p) as <-.
  { rewrite E, take_app_le by (unfold Zlen in Hp; lia). apply take_ge. unfold Zlen in Hp. lia. }
  rewrite take_take. f_equal. lia.
Qed.

Lemma seg_loop_ok s : ∀ i h c b ptr sz, 0 ≤ i → 0 ≤ h < 2 ^ i → 0 ≤ ptr → ptr + sz = Zlen b →
  ∃ b', seg_loop s i h c b ptr sz = Ret (h + 2 ^ i * header_of s, c + Zlen (nonzero s), b') ∧
    Zlen b' = Zlen b ∧ take (Z.to_nat ptr) b' = take (Z.to_nat ptr) b ∧
    (Zlen (nonzero s) ≤ sz → take (Z.to_nat (ptr + Zlen (nonzero s))) b' = take (Z.to_nat ptr) b ++ nonzero s).
Proof.
  induction s as [|x s IH]; intros i h c b ptr sz Hi Hh Hp Hb; cbn [seg_loop header_of].
  - exists b. change (nonzero []) with (@nil Z). change (Zlen []) with 0. rewrite app_nil_r.
    split; [do 3 f_equal; lia|]. split; [done|]. split; [done|]. intros _. by rewrite Z.add_0_r.
  - assert (0 ≤ 2 ^ i) by (apply Z.pow_nonneg; lia). unfold nonzero. rewrite filter_cons. fold (nonzero s).
    pose proof (Zlen_nonneg (nonzero s)).
    destruct (decide (x ≠ 0)) as [Hx|Hx].
    + rewrite bool_decide_eq_true_2 by done.
      assert (Z.lor h (Z.shiftl 1 i) = h + 2 ^ i) as -> by (rewrite Z.shiftl_mul_pow2, lor_high by lia; lia).
      assert (h + 2 ^ i < 2 ^ (i + 1)) by (rewrite Z.pow_add_r by lia; lia).
      rewrite Zlen_cons. case_bool_decide as Hs.
      * rewrite set_idx_ok by lia. cbn [mbind outcome_bind].
        destruct (IH (i + 1) (h + 2 ^ i) (c + 1) (<[Z.to_nat ptr := x]> b) (ptr + 1) (sz - 1))
          as (b' & -> & Hl & Ht & He); [lia..|rewrite Zlen_insert; lia|].
        rewrite Zlen_insert in Hl. rewrite take_insert_snoc in Ht, He by lia.
        exists b'. split; [|split; [done|split]].
        -- do 3 f_equal; [rewrite Z.pow_add_r by lia|]; lia.
        -- apply (take_front _ _ [x] _ (ptr + 1)); try lia; [|done].
           unfold Zlen in *. rewrite length_take. lia.
        -- intros Hn. replace (ptr + (1 + Zlen (nonzero s))) with (ptr + 1 + Zlen (nonzero s)) by lia.
           rewrite He by lia. by rewrite <- app_assoc.
      * destruct (IH (i + 1) (h + 2 ^ i) (c + 1) b ptr sz) as (b' & -> & Hl & Ht & He); [lia..|].
        exists b'. split; [|split; [done|split; [done|lia]]].
        do 3 f_equal; [rewrite Z.pow_add_r by lia|]; lia.
    + rewrite bool_decide_eq_false_2 by done.
      destruct (IH (i + 1) h c b ptr sz) as (b' & -> & Hl & Ht & He); [lia|rewrite Z.pow_add_r by lia; lia|lia..|].
      exists b'. split; [|done]. do 3 f_equal. rewrite Z.pow_add_r by lia. lia.
Qed.

(** the segment goes out with others that have no zeros *)
Definition joins (c n : Z) : bool := bool_decide (c = 8 ∨ (c = 7 ∨ c = 6) ∧ 0 < n).
Lemma nonzero_le s : Zlen (nonzero s) ≤ Zlen s.
Proof. unfold nonzero, Zlen. pose proof (length_filter (λ x, x ≠ 0) s). lia. Qed.

(** a byte is put in front of bytes already there *)
Lemma insert_front (b q : list Z) ptr x m : 0 ≤ ptr < Zlen b → Zlen q = m →
  take (Z.to_nat (ptr + 1 + m)) b = take (Z.to_nat (ptr + 1)) b ++ q →
  take (Z.to_nat (ptr + 1 + m)) (<[Z.to_nat ptr := x]> b) = take (Z.to_nat ptr) b ++ x :: q.
Proof.
  intros Hp Hm E. pose proof (Zlen_nonneg q). unfold Zlen in Hp.
  rewrite take_insert_lt by lia. rewrite E, insert_app_l by (rewrite length_take; lia).
  rewrite <- take_insert_lt by lia. rewrite take_insert_snoc by (unfold Zlen; lia). by rewrite <- app_assoc.
Qed.

Lemma pack_seg_ok s b ptr sz n : segment s → 0 ≤ ptr → ptr + sz = Zlen b → - 2 ^ 31 < sz ≤ INT_MAX →
  let c := Zlen (nonzero s) in
  ∃ b', pack_seg s b ptr sz n =
      Ret (if joins c n then (if bool_decide (0 < n) then 8 else 10) else c + 1, b') ∧
    Zlen b' = Zlen b ∧ take (Z.to_nat ptr) b' = take (Z.to_nat ptr) b ∧
    (joins c n = false → c + 1 ≤ sz → take (Z.to_nat (ptr + (c + 1))) b' = take (Z.to_nat ptr) b ++ enc (Seg s)).
Proof.
  intros [Hs _] Hp Hb Hsz c. pose proof (Zlen_nonneg (nonzero s)) as Hc0.
  pose proof (nonzero_le s) as Hc. fold c in Hc0, Hc. unfold Zlen in Hc at 1. rewrite Hs in Hc.
  unfold pack_seg. rewrite chk_int_ok by lia. cbn [mbind outcome_bind].
  destruct (seg_loop_ok s 0 0 0 b (ptr + 1) (sz - 1)) as (b1 & -> & Hl & Ht & He); [lia..|].
  cbn [mbind outcome_bind]. rewrite Z.add_0_l. fold c. fold c in He. unfold joins.
  assert (take (Z.to_nat ptr) b1 = take (Z.to_nat ptr) b) as Ht0.
  { apply (take_agree _ _ (Z.to_nat (ptr + 1))); [lia|done]. }
  destruct (decide (c = 8 ∨ (c = 7 ∨ c = 6) ∧ 0 < n)) as [Hj|Hj].
  - exists b1. rewrite (bool_decide_eq_true_2 _ Hj).
    assert ((if bool_decide ((c = 7 ∨ c = 6) ∧ 0 < n) then 8 else c) = 8) as -> by (case_bool_decide; lia).
    rewrite bool_decide_eq_true_2 by done. done.
  - rewrite (bool_decide_eq_false_2 _ Hj), (bool_decide_eq_false_2 ((c = 7 ∨ c = 6) ∧ 0 < n)) by tauto.
    rewrite bool_decide_eq_false_2 by tauto. case_bool_decide as Ho.
    + rewrite set_idx_ok by lia. cbn [mbind outcome_bind]. eexists. split; [done|]. rewrite Zlen_insert.
      split; [done|]. rewrite take_insert_ge by lia. split; [done|]. intros _ Hfit.
      replace (ptr + (c + 1)) with (ptr + 1 + c) by lia. rewrite <- Ht0. cbn [enc].
      assert (0 + 2 ^ 0 * header_of s = header_of s) as -> by lia. apply insert_front; [lia|done|].
      rewrite Ht. apply He. lia.
    + cbn [mbind outcome_bind]. exists b1. split; [done|]. split; [done|]. split; [done|]. intros _ Hfit. lia.
Qed.

(** ** Writing a run *)
Lemma put_bytes_ok b ptr src : 0 ≤ ptr → ptr + Zlen src ≤ Zlen b →
  ∃ b', put_bytes b ptr src = Ret b' ∧ Zlen b' = Zlen b ∧
    take (Z.to_nat (ptr + Zlen src)) b' = take (Z.to_nat ptr) b ++ src ∧
    drop (Z.to_nat (ptr + Zlen src)) b' = drop (Z.to_nat (ptr + Zlen src)) b.
Proof.
  intros Hp Hl. exists (copy_at b ptr src). destruct (copy_at_spec b ptr src Hp Hl) as [E1 E2].
  unfold put_bytes. rewrite bool_decide_eq_true_2 by done. split; [done|]. split; [done|]. split; [done|].
  unfold copy_at, Zlen in *. rewrite app_assoc.
  assert (Z.to_nat (ptr + Z.of_nat (length src)) = Z.to_nat ptr + length src)%nat as -> by lia.
  rewrite drop_app_length'; [done|]. rewrite length_app, length_take. lia.
Qed.

Lemma slice_ok l off n : 0 ≤ off → 0 ≤ n → off + n ≤ Zlen l →
  slice l off n = Ret (take (Z.to_nat n) (drop (Z.to_nat off) l)) ∧
  Zlen (take (Z.to_nat n) (drop (Z.to_nat off) l)) = n.
Proof.
  intros Ho Hn Hl. unfold slice. rewrite bool_decide_eq_true_2 by done. split; [done|].
  unfold Zlen in *. rewrite length_take, length_drop. lia.
Qed.

Lemma Zlen_padded l : Zlen (padded l) = Zlen l + (- Zlen l) mod 8 ∧ (Zlen (padded l)) mod 8 = 0.
Proof.
  unfold padded. rewrite Zlen_app, Zlen_replicate by (apply mod_range; lia). split; [done|].
  rewrite Zplus_mod_idemp_r. by rewrite Z.add_opp_diag_r.
Qed.

Lemma write_ff_ok srcv j b p n : 0 ≤ p → p + (8 * n + 2) ≤ Zlen b → 1 ≤ n ≤ 256 →
  0 ≤ j ≤ Zlen srcv → j mod 8 = 0 → j + 8 * n ≤ Zlen (padded srcv) →
  ∃ b', write_ff srcv (At j) b p n = Ret b' ∧ Zlen b' = Zlen b ∧
    take (Z.to_nat (p + (8 * n + 2))) b' =
      take (Z.to_nat p) b ++ 255 :: (n - 1) :: take (Z.to_nat (8 * n)) (drop (Z.to_nat j) (padded srcv)) ∧
    drop (Z.to_nat (p + (8 * n + 2))) b' = drop (Z.to_nat (p + (8 * n + 2))) b.
Proof.
  intros Hp Hb Hn Hj Hm Hl. destruct (Zlen_padded srcv) as [El Em].
  pose proof (mod_range (- Zlen srcv) 8 ltac:(lia)) as Hr.
  unfold write_ff. rewrite set_idx_ok by lia. cbn [mbind outcome_bind].
  rewrite set_idx_ok by (rewrite Zlen_insert; lia). cbn [mbind outcome_bind].
  set (b1 := <[Z.to_nat (p + 1) := u8 (n - 1)]> (<[Z.to_nat p := 255]> b)).
  assert (Zlen b1 = Zlen b) as Hb1 by (unfold b1; by rewrite !Zlen_insert).
  assert (take (Z.to_nat (p + 2)) b1 = take (Z.to_nat p) b ++ [255; n - 1]) as Et.
  { unfold b1. replace (p + 2) with (p + 1 + 1) by lia. rewrite take_insert_snoc by (rewrite Zlen_insert; lia).
    rewrite take_insert_snoc by lia. unfold u8. rewrite Z.mod_small by lia. by rewrite <- app_assoc. }
  assert (∀ k : nat, (Z.to_nat (p + 2) ≤ k)%nat → drop k b1 = drop k b) as Ed
    by (intros k Hk; unfold b1; by rewrite !drop_insert_lt by lia).
  case_bool_decide as Hc.
  - destruct (slice_ok srcv j (n * 8)) as [-> Hz]; [lia..|]. cbn [mbind outcome_bind].
    destruct (put_bytes_ok b1 (p + 2) (take (Z.to_nat (n * 8)) (drop (Z.to_nat j) srcv))) as (b' & -> & E1 & E2 & E3); [lia..|].
    exists b'. split; [done|]. split; [lia|]. rewrite Hz in E3. rewrite Hz, Et in E2.
    replace (p + (8 * n + 2)) with (p + 2 + n * 8) by lia. split; [|rewrite E3; apply Ed; lia]. rewrite E2, <- app_assoc. do 2 f_equal. cbn. do 2 f_equal.
    unfold padded. rewrite drop_app_le by (unfold Zlen in *; lia).
    rewrite take_app_le by (rewrite length_drop; unfold Zlen in *; lia). by rewrite Z.mul_comm.
  - destruct (slice_ok srcv j (Zlen srcv - j)) as [-> Hz]; [lia..|]. cbn [mbind outcome_bind].
    destruct (put_bytes_ok b1 (p + 2) (take (Z.to_nat (Zlen srcv - j)) (drop (Z.to_nat j) srcv))) as (b2 & -> & E1 & E2 & D2); [lia..|].
    cbn [mbind outcome_bind]. rewrite Hz in D2. rewrite Hz, Et in E2.
    assert (n * 8 - (Zlen srcv - j) = (- Zlen srcv) mod 8) as En.
    { apply Z.mod_divide in Hm as [k Hk]; [|lia]. apply Z.mod_divide in Em as [q Hq]; [|lia]. lia. }
    destruct (put_bytes_ok b2 (p + 2 + (Zlen srcv - j)) (replicate (Z.to_nat (n * 8 - (Zlen srcv - j))) 0)) as (b3 & -> & E3 & E4 & D4);
      [lia|rewrite Zlen_replicate by lia; lia|].
    exists b3. split; [done|]. split; [lia|]. rewrite Zlen_replicate in D4 by lia. rewrite Zlen_replicate in E4 by lia.
    rewrite E2 in E4.
    replace (p + (8 * n + 2)) with (p + 2 + (Zlen srcv - j) + (n * 8 - (Zlen srcv - j))) by lia.
    split; [|rewrite D4, (drop_agree b2 b1 (Z.to_nat (p + 2 + (Zlen srcv - j)))) by (done || lia); apply Ed; lia].
    rewrite E4, <- !app_assoc. do 2 f_equal. cbn. do 2 f_equal. rewrite En. unfold padded.
    rewrite drop_app_le by (unfold Zlen in *; lia). rewrite !take_ge; [done|..];
      rewrite ?length_app, ?length_replicate, length_drop; unfold Zlen in *; lia.
Qed.

(** ** The segments of the source *)
Lemma padded_bytes l : Forall byte l → Forall byte (padded l).
Proof. intros Hl. apply Forall_app. split; [done|]. apply Forall_replicate. unfold byte. lia. Qed.

Lemma nonzero_app s t : nonzero (s ++ t) = nonzero s ++ nonzero t.
Proof. apply filter_app. Qed.
Lemma nonzero_zeros n : nonzero (replicate n 0) = [].
Proof. induction n as [|n IH]; [done|]. cbn [replicate]. unfold nonzero. rewrite filter_cons_False by lia. exact IH. Qed.

Definition seg_at (srcv : list Z) (i : Z) : list Z := take 8 (drop (Z.to_nat i) (padded srcv)).
Lemma read_seg_ok srcv i : Forall byte srcv → 0 ≤ i < Zlen srcv → i mod 8 = 0 →
  read_seg srcv i = Ret (if bool_decide (Zlen srcv < i + 8) then Tmp else At i, seg_at srcv i) ∧
  segment (seg_at srcv i) ∧ i + 8 ≤ Zlen (padded srcv) ∧
  (Zlen srcv < i + 8 → Zlen (padded srcv) = i + 8 ∧ Zlen (nonzero (seg_at srcv i)) ≤ Zlen srcv - i).
Proof.
  intros Hb Hi Hm. destruct (Zlen_padded srcv) as [El Em]. pose proof (mod_range (- Zlen srcv) 8 ltac:(lia)) as Hr.
  assert (i + 8 ≤ Zlen (padded srcv) ∧ (Zlen srcv < i + 8 → Zlen (padded srcv) = i + 8)) as [Hle Heq].
  { apply Z.mod_divide in Hm as [k Hk]; [|lia]. apply Z.mod_divide in Em as [q Hq]; [|lia]. lia. }
  assert (segment (seg_at srcv i)) as Hs.
  { split; [unfold seg_at; rewrite length_take, length_drop; unfold Zlen in Hle; lia|].
    apply Forall_take, Forall_drop, padded_bytes, Hb. }
  unfold read_seg. cbv zeta. case_bool_decide as Hp.
  - assert (seg_at srcv i = drop (Z.to_nat i) srcv ++ replicate (Z.to_nat (i + 8 - Zlen srcv)) 0) as Eseg.
    { specialize (Heq ltac:(lia)). unfold seg_at, padded. rewrite drop_app_le by (unfold Zlen in *; lia).
      rewrite take_ge by (rewrite length_app, length_replicate, length_drop; unfold Zlen in *; lia).
      do 2 f_equal. lia. }
    rewrite bool_decide_eq_true_2 by lia.
    destruct (slice_ok srcv i (8 - (i + 8 - Zlen srcv))) as [-> Hz]; [lia..|]. cbn [mbind outcome_bind].
    rewrite take_ge in Hz |- * by (rewrite length_drop; unfold Zlen in *; lia).
    split; [by rewrite Eseg|]. split; [done|]. split; [done|]. intros _. split; [by apply Heq; lia|].
    rewrite Eseg, nonzero_app, nonzero_zeros, app_nil_r. etrans; [apply nonzero_le|]. lia.
  - rewrite bool_decide_eq_false_2 by lia. destruct (slice_ok srcv i 8) as [-> Hz]; [lia..|]. cbn [mbind outcome_bind].
    split; [|split; [done|split; [done|lia]]]. do 2 f_equal. unfold seg_at, padded.
    rewrite drop_app_le by (unfold Zlen in *; lia). change (Z.to_nat 8) with 8%nat.
    by rewrite take_app_le by (rewrite length_drop; unfold Zlen in *; lia).
Qed.

Lemma take_seg srcv i : 0 ≤ i →
  take (Z.to_nat (i + 8)) (padded srcv) = take (Z.to_nat i) (padded srcv) ++ seg_at srcv i.
Proof.
  intros Hi. unfold seg_at. rewrite take_take_drop. f_equal. lia.
Qed.

(** ** The blocks of a source *)
Definition blk_step (p : list block * list (list Z)) (seg : list Z) : list block * list (list Z) :=
  let '(blks, run) := p in
  if joins (Zlen (nonzero seg)) (Zlen run) then
    if bool_decide (Zlen run + 1 = 256) then (blks ++ [Run (run ++ [seg])], []) else (blks, run ++ [seg])
  else if bool_decide (0 < Zlen run) then (blks ++ [Run run; Seg seg], []) else (blks ++ [Seg seg], []).
Fixpoint blk_loop (k : nat) (srcv : list Z) (i : Z) (p : list block * list (list Z)) : list block * list (list Z) :=
  match k with O => p | S k => blk_loop k srcv (i + 8) (blk_step p (seg_at srcv i)) end.
Definition blocks (srcv : list Z) : list block :=
  let '(blks, run) := blk_loop (Z.to_nat (Zlen (padded srcv) / 8)) srcv 0 ([], []) in
  blks ++ (if bool_decide (0 < Zlen run) then [Run run] else []).
Definition packed (srcv : list Z) : list Z := mjoin (enc <$> blocks srcv).

(** ** The invariant of the writer *)
Definition run_size (n : Z) : Z := if bool_decide (0 < n) then 8 * n + 2 else 0.
(** two bytes for each full run, and for the last one *)
Definition max_packed (n : Z) : Z := (n + 2047) / 2048 * 2 + n + 2.

(** [blks] are done, [run] is the run that is open; [full] counts full runs *)
Record pack_inv (srcv : list Z) (L i : Z) (s : packer) (blks : list block) (run : list (list Z)) (full : Z) : Prop := {
  pi_i : 0 ≤ i ≤ Zlen (padded srcv) ∧ i mod 8 = 0;
  pi_blks : Forall block_ok blks;
  pi_run : Forall segment run ∧ Zlen run = p_ff_n s ∧ p_ff_n s < 256;
  pi_raw : mjoin (raw <$> blks) ++ mjoin run = take (Z.to_nat i) (padded srcv);
  pi_size : p_size s = Zlen (mjoin (enc <$> blks)) + run_size (p_ff_n s);
  pi_room : p_bufsz s = L - p_size s ∧ Zlen (p_buffer s) = L;
  pi_start : 0 < p_ff_n s → p_ff_srcstart s = At (i - 8 * p_ff_n s) ∧
    p_ff_desstart s = Zlen (mjoin (enc <$> blks)) ∧ 0 ≤ i - 8 * p_ff_n s ≤ Zlen srcv;
  pi_out : Zlen (mjoin (enc <$> blks)) ≤ L →
    take (Z.to_nat (Zlen (mjoin (enc <$> blks)))) (p_buffer s) = mjoin (enc <$> blks);
  pi_full : 0 ≤ full ∧ 2048 * full ≤ i - 8 * p_ff_n s;
  pi_bound : if bool_decide (i ≤ Zlen srcv) then Zlen (mjoin (enc <$> blks)) ≤ i - 8 * p_ff_n s + 2 * full
             else p_size s ≤ max_packed (Zlen srcv)
}.

Lemma fmap_snoc_join {A} (f : A → list Z) l x : mjoin (f <$> (l ++ [x])) = mjoin (f <$> l) ++ f x.
Proof. rewrite fmap_app. cbn [fmap list_fmap]. by rewrite mjoin_snoc. Qed.

Lemma segments_length run : Forall segment run → Zlen (mjoin run) = 8 * Zlen run.
Proof.
  induction 1 as [|s run [Hs _] Hr IH]; [done|]. rewrite mjoin_cons, Zlen_app, Zlen_cons, IH. unfold Zlen at 1. lia.
Qed.

(** the open run is the part of the source it starts at *)
Lemma run_bytes srcv i run done_ n : Forall segment run → Zlen run = n → 0 ≤ i - 8 * n → i ≤ Zlen (padded srcv) →
  done_ ++ mjoin run = take (Z.to_nat i) (padded srcv) →
  take (Z.to_nat (8 * n)) (drop (Z.to_nat (i - 8 * n)) (padded srcv)) = mjoin run.
Proof.
  intros Hr Hn Hi Hle E. pose proof (segments_length _ Hr) as Hl. pose proof (Zlen_nonneg run).
  assert (length done_ = Z.to_nat (i - 8 * n)) as Hd.
  { apply (f_equal Zlen) in E. rewrite Zlen_app in E. unfold Zlen in E at 3. rewrite length_take in E. unfold Zlen in *. lia. }
  rewrite <- (drop_app_length' done_ (mjoin run) (Z.to_nat (i - 8 * n))) by lia. rewrite E, skipn_firstn_comm.
  f_equal. lia.
Qed.

(** a run is written out *)
Lemma flush_ok srcv b blks run i m done_ : let E := mjoin (enc <$> blks) in
  Forall segment run → Zlen run = m → 1 ≤ m ≤ 256 → i mod 8 = 0 → 0 ≤ i - 8 * m ≤ Zlen srcv → i ≤ Zlen (padded srcv) →
  done_ ++ mjoin run = take (Z.to_nat i) (padded srcv) →
  Zlen E + (8 * m + 2) ≤ Zlen b → take (Z.to_nat (Zlen E)) b = E →
  ∃ b', write_ff srcv (At (i - 8 * m)) b (Zlen E) m = Ret b' ∧ Zlen b' = Zlen b ∧
    take (Z.to_nat (Zlen E + (8 * m + 2))) b' = mjoin (enc <$> (blks ++ [Run run])) ∧
    drop (Z.to_nat (Zlen E + (8 * m + 2))) b' = drop (Z.to_nat (Zlen E + (8 * m + 2))) b.
Proof.
  intros E Hr Hn Hm Hi Hj Hp Hraw Hfit Ht. pose proof (Zlen_nonneg E).
  destruct (write_ff_ok srcv (i - 8 * m) b (Zlen E) m) as (b' & -> & E1 & E2 & E3); [lia..| |lia|].
  { apply Z.mod_divide in Hi as [k ->]; [|lia]. replace (k * 8 - 8 * m) with ((k - m) * 8) by lia. by apply Z.mod_mul. }
  exists b'. split; [done|]. split; [done|]. split; [|done].
  rewrite E2, Ht, (run_bytes srcv i run done_ m) by (done || lia).
  rewrite fmap_snoc_join. cbn [enc]. by rewrite Hn.
Qed.

Lemma max_packed_ge n full : 2048 * full < n → n + 2 * full + 4 ≤ max_packed n.
Proof. unfold max_packed. intros H. assert (full + 1 ≤ (n + 2047) / 2048) by (apply Z.div_le_lower_bound; lia). lia. Qed.

Section step.
Context (srcv : list Z) (L i : Z) (s : packer) (blks : list block) (run : list (list Z)) (full : Z).
Context (Hbytes : Forall byte srcv) (Hlen : Zlen srcv < 2 ^ 29) (HL : 0 ≤ L ≤ INT_MAX) (Hi : i < Zlen srcv).
Context (I : pack_inv srcv L i s blks run full).
Abbreviation E := (mjoin (enc <$> blks)).
Abbreviation seg := (seg_at srcv i).
Abbreviation c := (Zlen (nonzero seg)).
Abbreviation n := (p_ff_n s).

(** what holds before a step *)
Lemma step_facts : 0 ≤ i ∧ 0 ≤ n < 256 ∧ 0 ≤ Zlen E ≤ i - 8 * n + 2 * full ∧ 0 ≤ full ∧ 2048 * full ≤ i - 8 * n ∧
  0 ≤ c ≤ 8 ∧ segment seg ∧ (i + 8) mod 8 = 0 ∧ i + 8 ≤ Zlen (padded srcv) ∧
  (Zlen srcv < i + 8 → c ≤ Zlen srcv - i).
Proof.
  destruct I as [[Hi0 Hm] Hb (Hr & Hn & H256) Hraw Hsz _ Hst _ Hf Hbd].
  rewrite bool_decide_eq_true_2 in Hbd by lia.
  destruct (read_seg_ok srcv i Hbytes ltac:(lia) Hm) as (_ & Hs & Hp & Hlast).
  pose proof (Zlen_nonneg run). pose proof (Zlen_nonneg E). pose proof (nonzero_le seg) as Hc.
  pose proof (Zlen_nonneg (nonzero seg)).
  assert (Zlen seg = 8) as E8 by (unfold Zlen; by rewrite (proj1 Hs)). rewrite E8 in Hc.
  assert ((i + 8) mod 8 = 0) by (rewrite <- Zplus_mod_idemp_l, Hm; done).
  repeat (split; [lia||done|]). intros Hx. by apply Hlast.
Qed.

(** the bytes read so far, when the segment is a block or joins the run *)
Lemma raw_seg : mjoin (raw <$> blks) ++ mjoin run ++ seg = take (Z.to_nat (i + 8)) (padded srcv).
Proof.
  destruct step_facts as (Hi0 & _). by rewrite take_seg, <- (pi_raw _ _ _ _ _ _ _ I), app_assoc by done.
Qed.
Lemma raw_run : mjoin (raw <$> blks) ++ mjoin (run ++ [seg]) = take (Z.to_nat (i + 8)) (padded srcv).
Proof.
  by rewrite mjoin_snoc, raw_seg.
Qed.

Context (b1 : list Z) (Hb1 : Zlen b1 = L) (Ht1 : take (Z.to_nat (p_size s)) b1 = take (Z.to_nat (p_size s)) (p_buffer s)).

Lemma kept : Zlen E ≤ L → take (Z.to_nat (Zlen E)) b1 = E.
Proof.
  intros HE. rewrite <- (pi_out _ _ _ _ _ _ _ I HE) at 2. apply (take_agree _ _ (Z.to_nat (p_size s))); [|done].
  rewrite (pi_size _ _ _ _ _ _ _ I). unfold run_size. case_bool_decide; lia.
Qed.

(** a segment with zeros, and no run is open *)
Lemma inv_seg : n = 0 → joins c n = false →
  (c + 1 ≤ p_bufsz s → take (Z.to_nat (p_size s + (c + 1))) b1 = take (Z.to_nat (p_size s)) (p_buffer s) ++ enc (Seg seg)) →
  pack_inv srcv L (i + 8)
    (Packer (p_ff_srcstart s) (p_ff_desstart s) n (p_size s + (c + 1)) (p_bufsz s - (c + 1)) b1) (blks ++ [Seg seg]) [] full.
Proof.
  intros Hn Hj Hout. destruct step_facts as (Hi0 & Hn0 & HE & Hf & Hf' & Hc & Hs & Hm & Hp & Hlast).
  apply bool_decide_eq_false in Hj. pose proof (kept) as Hk.
  destruct I as [_ Hb (Hr & Hrl & _) Hraw Hsz [Hrm Hbl] _ _ _ _].
  assert (run = []) as Er by (apply Zlen_0; lia).
  rewrite Hn in *. change (run_size 0) with 0 in Hsz. rewrite Z.add_0_r in Hsz.
  assert (Zlen (mjoin (enc <$> (blks ++ [Seg seg]))) = Zlen E + (c + 1)) as EE
    by (rewrite fmap_snoc_join, Zlen_app; cbn [enc]; rewrite Zlen_cons; lia).
  split; cbn [p_ff_n p_size p_bufsz p_buffer].
  - lia.
  - apply Forall_app. split; [done|]. apply Forall_singleton. split; [done|]. lia.
  - split; [by apply Forall_nil|done].
  - rewrite <- raw_seg, Er, fmap_snoc_join. cbn [mjoin raw]. by rewrite app_nil_r.
  - rewrite EE. change (run_size 0) with 0. lia.
  - lia.
  - lia.
  - rewrite EE, <- Hsz, fmap_snoc_join. intros Hfit. rewrite Hout by lia. f_equal.
    rewrite Hsz. apply (pi_out _ _ _ _ _ _ _ I). lia.
  - lia.
  - rewrite EE. case_bool_decide as Hx; [lia|]. pose proof (max_packed_ge (Zlen srcv) full ltac:(lia)). specialize (Hlast ltac:(lia)). lia.
Qed.

(** a segment without zeros opens a run or joins it *)
Lemma inv_join : joins c n = true → n + 1 < 256 →
  let des := if bool_decide (0 < n) then p_ff_desstart s else p_size s in
  let src := if bool_decide (0 < n) then p_ff_srcstart s else if bool_decide (Zlen srcv < i + 8) then Tmp else At i in
  let r := if bool_decide (0 < n) then 8 else 10 in
  pack_inv srcv L (i + 8) (Packer src des (n + 1) (p_size s + r) (p_bufsz s - r) b1) blks (run ++ [seg]) full.
Proof.
  intros Hj H256 des src r. destruct step_facts as (Hi0 & Hn0 & HE & Hf & Hf' & Hc & Hs & Hm & Hp & Hlast).
  apply bool_decide_eq_true in Hj. pose proof kept as Hk.
  destruct I as [_ Hb (Hr & Hrl & _) Hraw Hsz [Hrm Hbl] Hst _ _ _].
  assert (run_size (n + 1) = run_size n + r) as Ers by (unfold run_size, r; repeat case_bool_decide; lia).
  split; cbn [p_ff_n p_size p_bufsz p_buffer p_ff_srcstart p_ff_desstart].
  - lia.
  - done.
  - split; [apply Forall_app; split; [done|by apply Forall_singleton]|]. rewrite Zlen_app, Zlen_cons, Zlen_nil. lia.
  - apply raw_run.
  - lia.
  - lia.
  - intros _. unfold src, des. case_bool_decide as Hx.
    + destruct (Hst Hx) as (-> & -> & ?). split; [f_equal; lia|]. split; [done|lia].
    + rewrite bool_decide_eq_false_2 by (intros Hy; specialize (Hlast Hy); lia).
      split; [f_equal; lia|]. unfold run_size in Hsz. rewrite bool_decide_eq_false_2 in Hsz by lia. lia.
  - exact Hk.
  - lia.
  - case_bool_decide as Hx; [lia|]. pose proof (max_packed_ge (Zlen srcv) full ltac:(lia)). specialize (Hlast ltac:(lia)).
    unfold run_size, r in *. repeat case_bool_decide; lia.
Qed.

(** the 256th segment of a run *)
Lemma inv_full b2 : 0 < n → joins c n = true → n + 1 = 256 →
  Zlen b2 = L → (p_size s + 8 ≤ L → take (Z.to_nat (p_size s + 8)) b2 = mjoin (enc <$> (blks ++ [Run (run ++ [seg])]))) →
  pack_inv srcv L (i + 8) (Packer (p_ff_srcstart s) (p_ff_desstart s) 0 (p_size s + 8) (p_bufsz s - 8) b2)
    (blks ++ [Run (run ++ [seg])]) [] (full + 1).
Proof.
  intros Hpos Hj H256 Hb2 Hout. destruct step_facts as (Hi0 & Hn0 & HE & Hf & Hf' & Hc & Hs & Hm & Hp & Hlast).
  apply bool_decide_eq_true in Hj.
  destruct I as [_ Hb (Hr & Hrl & _) Hraw Hsz [Hrm Hbl] _ _ _ _].
  unfold run_size in Hsz. rewrite bool_decide_eq_true_2 in Hsz by done.
  assert (Forall segment (run ++ [seg])) as Hr' by (apply Forall_app; split; [done|by apply Forall_singleton]).
  assert (Zlen (run ++ [seg]) = 256) as Hl' by (rewrite Zlen_app, Zlen_cons, Zlen_nil; lia).
  assert (Zlen (mjoin (enc <$> (blks ++ [Run (run ++ [seg])]))) = p_size s + 8) as EE.
  { rewrite fmap_snoc_join, Zlen_app. cbn [enc]. rewrite !Zlen_cons, (segments_length (run ++ [seg])) by done. lia. }
  split; cbn [p_ff_n p_size p_bufsz p_buffer].
  - lia.
  - apply Forall_app. split; [done|]. apply Forall_singleton. cbn [block_ok]. split; [lia|done].
  - split; [by apply Forall_nil|done].
  - rewrite <- raw_run, fmap_snoc_join. cbn [raw]. change (mjoin []) with (@nil Z). by rewrite app_nil_r.
  - rewrite EE. change (run_size 0) with 0. lia.
  - lia.
  - lia.
  - rewrite EE. exact Hout.
  - lia.
  - rewrite EE. case_bool_decide as Hx; [lia|]. pose proof (max_packed_ge (Zlen srcv) full ltac:(lia)). specialize (Hlast ltac:(lia)). lia.
Qed.

(** a segment with zeros ends a run *)
Lemma inv_end b2 : 0 < n → joins c n = false → Zlen b2 = L →
  (p_size s + (c + 1) ≤ L → take (Z.to_nat (p_size s + (c + 1))) b2 = mjoin (enc <$> (blks ++ [Run run; Seg seg]))) →
  pack_inv srcv L (i + 8)
    (Packer (p_ff_srcstart s) (p_ff_desstart s) 0 (p_size s + (c + 1)) (p_bufsz s - (c + 1)) b2)
    (blks ++ [Run run; Seg seg]) [] full.
Proof.
  intros Hpos Hj Hb2 Hout. destruct step_facts as (Hi0 & Hn0 & HE & Hf & Hf' & Hc & Hs & Hm & Hp & Hlast).
  apply bool_decide_eq_false in Hj.
  destruct I as [_ Hb (Hr & Hrl & H256) Hraw Hsz [Hrm Hbl] _ _ _ _].
  unfold run_size in Hsz. rewrite bool_decide_eq_true_2 in Hsz by done.
  assert (blks ++ [Run run; Seg seg] = (blks ++ [Run run]) ++ [Seg seg]) as Eb by (by rewrite <- app_assoc).
  assert (Zlen (mjoin (enc <$> (blks ++ [Run run; Seg seg]))) = p_size s + (c + 1)) as EE.
  { rewrite Eb, !fmap_snoc_join, !Zlen_app. cbn [enc]. rewrite !Zlen_cons, (segments_length run) by done. lia. }
  split; cbn [p_ff_n p_size p_bufsz p_buffer].
  - lia.
  - apply Forall_app. split; [done|]. apply Forall_cons. split; [split; [lia|done]|]. apply Forall_singleton. split; [done|]. lia.
  - split; [by apply Forall_nil|done].
  - rewrite <- raw_seg, Eb, !fmap_snoc_join. cbn [raw]. change (mjoin []) with (@nil Z). by rewrite app_nil_r, <- app_assoc.
  - rewrite EE. change (run_size 0) with 0. lia.
  - lia.
  - lia.
  - rewrite EE. exact Hout.
  - lia.
  - rewrite EE. case_bool_decide as Hx; [lia|]. pose proof (max_packed_ge (Zlen srcv) full ltac:(lia)). specialize (Hlast ltac:(lia)). lia.
Qed.

(** the run is written when the buffer has room for what is packed so far *)
Lemma flush_full : 0 < n → n + 1 = 256 →
  ∃ b2, flush_ff srcv (Packer (p_ff_srcstart s) (p_ff_desstart s) n (p_size s + 8) (p_bufsz s - 8) b1) 256 = Ret b2 ∧
    Zlen b2 = L ∧
    (p_size s + 8 ≤ L → take (Z.to_nat (p_size s + 8)) b2 = mjoin (enc <$> (blks ++ [Run (run ++ [seg])]))).
Proof.
  intros Hpos H256. destruct step_facts as (Hi0 & Hn0 & HE & Hf & Hf' & Hc & Hs & Hm & Hp & Hlast).
  pose proof kept as Hk. pose proof raw_run as Hraw.
  destruct I as [_ _ (Hr & Hrl & _) _ Hsz [Hrm _] Hst _ _ _]. destruct (Hst Hpos) as (Es & Ed & Hj).
  unfold run_size in Hsz. rewrite bool_decide_eq_true_2 in Hsz by done.
  unfold flush_ff. cbn [p_bufsz p_ff_srcstart p_ff_desstart p_buffer]. case_bool_decide as Hfit.
  - destruct (flush_ok srcv b1 blks (run ++ [seg]) (i + 8) 256 (mjoin (raw <$> blks))) as (b2 & E1 & E2 & E3 & _);
      [by apply Forall_app_2; [|apply Forall_singleton]|rewrite Zlen_app, Zlen_cons, Zlen_nil; lia|lia|done|lia|done|done|lia|apply Hk; lia|].
    exists b2. rewrite Es, Ed. replace (i - 8 * n) with (i + 8 - 8 * 256) by lia. split; [done|]. split; [lia|]. intros _.
    rewrite <- E3. do 2 f_equal. lia.
  - exists b1. split; [done|]. split; [done|]. lia.
Qed.

Lemma flush_end : 0 < n → joins c n = false →
  (c + 1 ≤ p_bufsz s → take (Z.to_nat (p_size s + (c + 1))) b1 = take (Z.to_nat (p_size s)) (p_buffer s) ++ enc (Seg seg)) →
  ∃ b2, flush_ff srcv (Packer (p_ff_srcstart s) (p_ff_desstart s) n (p_size s + (c + 1)) (p_bufsz s - (c + 1)) b1) n = Ret b2 ∧
    Zlen b2 = L ∧
    (p_size s + (c + 1) ≤ L → take (Z.to_nat (p_size s + (c + 1))) b2 = mjoin (enc <$> (blks ++ [Run run; Seg seg]))).
Proof.
  intros Hpos Hj Hout. destruct step_facts as (Hi0 & Hn0 & HE & Hf & Hf' & Hc & Hs & Hm & Hp & Hlast).
  pose proof kept as Hk.
  destruct I as [[Hi1 Hi2] _ (Hr & Hrl & _) Hraw Hsz [Hrm HbL] Hst _ _ _]. destruct (Hst Hpos) as (Es & Ed & Hj').
  unfold run_size in Hsz. rewrite bool_decide_eq_true_2 in Hsz by done.
  unfold flush_ff. cbn [p_bufsz p_ff_srcstart p_ff_desstart p_buffer]. case_bool_decide as Hfit.
  - destruct (flush_ok srcv b1 blks run i n (mjoin (raw <$> blks))) as (b2 & E1 & E2 & E3 & E4);
      [done|done|lia|done|lia|lia|done|lia|apply Hk; lia|].
    exists b2. rewrite Es, Ed. split; [done|]. split; [lia|]. intros _. rewrite <- Hsz in E3, E4.
    assert (blks ++ [Run run; Seg seg] = (blks ++ [Run run]) ++ [Seg seg]) as -> by (by rewrite <- app_assoc).
    rewrite fmap_snoc_join, <- E3. specialize (Hout ltac:(lia)).
    replace (Z.to_nat (p_size s + (c + 1))) with (Z.to_nat (p_size s) + Z.to_nat (c + 1))%nat in Hout |- * by lia.
    rewrite <- take_take_drop, E4. f_equal. rewrite <- take_take_drop, Ht1 in Hout. by apply app_inv_head in Hout.
  - exists b1. split; [done|]. split; [done|]. lia.
Qed.
End step.

Lemma pack_step_ok srcv L i s blks run full : Forall byte srcv → Zlen srcv < 2 ^ 29 → 0 ≤ L ≤ INT_MAX → i < Zlen srcv →
  pack_inv srcv L i s blks run full →
  let '(blks', run') := blk_step (blks, run) (seg_at srcv i) in
  ∃ s' full', pack_step srcv i s = Ret s' ∧ pack_inv srcv L (i + 8) s' blks' run' full'.
Proof.
  intros Hbytes Hlen HL Hi I.
  destruct (step_facts srcv L i s blks run full Hbytes Hi I) as (Hi0 & Hn0 & HE & Hf & Hf' & Hc & Hs & Hm & Hp & Hlast).
  destruct (read_seg_ok srcv i Hbytes ltac:(lia) (proj2 (pi_i _ _ _ _ _ _ _ I))) as (Er & _).
  pose proof (pi_room _ _ _ _ _ _ _ I) as [Hroom HbL]. pose proof (pi_size _ _ _ _ _ _ _ I) as Hsz.
  pose proof (pi_run _ _ _ _ _ _ _ I) as (Hr & Hrl & _).
  assert (run_size (p_ff_n s) ≤ 8 * p_ff_n s + 2 ∧ 0 ≤ run_size (p_ff_n s)) as [Hrs Hrs'] by (unfold run_size; repeat case_bool_decide; lia).
  unfold INT_MAX in HL.
  destruct (pack_seg_ok (seg_at srcv i) (p_buffer s) (p_size s) (p_bufsz s) (p_ff_n s) Hs)
    as (b1 & Eseg & Hb1 & Ht1 & Hout); [lia|lia|unfold INT_MAX; lia|].
  rewrite HbL in Hb1. unfold pack_step. rewrite Er. cbn [mbind outcome_bind]. rewrite Eseg. cbn [mbind outcome_bind].
  cbn [blk_step]. rewrite Hrl.
  set (c := Zlen (nonzero (seg_at srcv i))) in *.
  destruct (joins c (p_ff_n s)) eqn:Hj.
  - pose proof (proj1 (bool_decide_eq_true _) Hj) as Hj'. destruct (decide (0 < p_ff_n s)) as [Hpos|Hpos].
    + rewrite !(bool_decide_eq_true_2 _ Hpos), !chk_int_ok by (unfold INT_MAX; lia). cbn [mbind outcome_bind p_ff_n].
      rewrite (bool_decide_eq_false_2 (8 = 10)), (bool_decide_eq_true_2 (8 = 8 ∧ 0 < p_ff_n s)) by lia.
      destruct (decide (p_ff_n s + 1 = 256)) as [H256|H256].
      * rewrite !(bool_decide_eq_true_2 _ H256). destruct (flush_full srcv L i s blks run full Hbytes Hi I b1 Hb1 Ht1 Hpos H256) as (b2 & -> & Hb2 & Hout2).
        cbn [mbind outcome_bind]. do 2 eexists. split; [done|]. by apply (inv_full srcv L i s blks run full Hbytes Hi I).
      * rewrite !(bool_decide_eq_false_2 _ H256). do 2 eexists. split; [done|].
        pose proof (inv_join srcv L i s blks run full Hbytes Hi I b1 Hb1 Ht1 Hj ltac:(lia)) as I'. cbv zeta in I'.
        rewrite !(bool_decide_eq_true_2 _ Hpos) in I'. exact I'.
    + rewrite (bool_decide_eq_false_2 (0 < p_ff_n s)), !chk_int_ok by (unfold INT_MAX; lia). cbn [mbind outcome_bind p_ff_n].
      rewrite (bool_decide_eq_false_2 (p_ff_n s + 1 = 256)) by lia.
      rewrite (bool_decide_eq_true_2 (10 = 10)) by done. do 2 eexists. split; [done|].
      pose proof (inv_join srcv L i s blks run full Hbytes Hi I b1 Hb1 Ht1 Hj ltac:(lia)) as I'. cbv zeta in I'.
      rewrite !(bool_decide_eq_false_2 _ Hpos) in I'. assert (p_ff_n s = 0) as E0 by lia. rewrite E0 in I'. exact I'.
  - pose proof (proj1 (bool_decide_eq_false _) Hj) as Hj'. rewrite !chk_int_ok by (unfold INT_MAX; lia).
    cbn [mbind outcome_bind p_ff_n].
    rewrite (bool_decide_eq_false_2 (c + 1 = 10)), (bool_decide_eq_false_2 (c + 1 = 8 ∧ 0 < p_ff_n s)) by lia.
    subst c. destruct (decide (0 < p_ff_n s)) as [Hpos|Hpos].
    + rewrite !(bool_decide_eq_true_2 _ Hpos).
      destruct (flush_end srcv L i s blks run full Hbytes Hi I b1 Hb1 Ht1 Hpos Hj (Hout eq_refl)) as (b2 & -> & Hb2 & Hout2).
      cbn [mbind outcome_bind]. do 2 eexists. split; [done|]. by apply (inv_end srcv L i s blks run full Hbytes Hi I).
    + rewrite !(bool_decide_eq_false_2 _ Hpos). do 2 eexists. split; [done|].
      apply (inv_seg srcv L i s blks run full Hbytes Hi I); [done|done|lia|done|exact (Hout eq_refl)].
Qed.

Lemma pack_loop_ok srcv L full : Forall byte srcv → Zlen srcv < 2 ^ 29 → 0 ≤ L ≤ INT_MAX → ∀ k fuel i s p,
  pack_inv srcv L i s p.1 p.2 full → i + 8 * Z.of_nat k = Zlen (padded srcv) → Zlen srcv - i ≤ Z.of_nat fuel →
  let p' := blk_loop k srcv i p in
  ∃ s' full', pack_loop fuel srcv i s = Ret s' ∧ pack_inv srcv L (Zlen (padded srcv)) s' p'.1 p'.2 full'.
Proof.
  intros Hb Hl HL k. revert full. induction k as [|k IH]; intros full fuel i s p I Hk Hf p'.
  - exists s, full. replace i with (Zlen (padded srcv)) in * by lia. split; [|done].
    assert (¬ Zlen (padded srcv) < Zlen srcv) as Hn.
    { destruct (Zlen_padded srcv) as [E _]. pose proof (mod_range (- Zlen srcv) 8 ltac:(lia)). lia. }
    destruct fuel; cbn [pack_loop]; by rewrite bool_decide_eq_false_2.
  - destruct (Zlen_padded srcv) as [E _]. pose proof (mod_range (- Zlen srcv) 8 ltac:(lia)).
    pose proof (proj1 (pi_i _ _ _ _ _ _ _ I)). assert (i < Zlen srcv) as Hi by lia. pose proof (pack_step_ok srcv L i s p.1 p.2 full Hb Hl HL Hi I) as Hs.
    destruct p as [blks run]. cbn [fst snd] in Hs.
    destruct (blk_step (blks, run) (seg_at srcv i)) as [blks1 run1] eqn:Ep. destruct Hs as (s1 & full1 & Es & I1).
    destruct fuel as [|fuel]; [lia|]. cbn [pack_loop]. rewrite bool_decide_eq_true_2 by done. rewrite Es.
    cbn [mbind outcome_bind]. rewrite chk_int_ok by (unfold INT_MAX; lia). cbn [mbind outcome_bind].
    unfold p'. cbn [blk_loop]. rewrite Ep. apply (IH full1); [done|lia|lia].
Qed.

(** any buffer: the answer is the size of the packed bytes, which are in the
    buffer if they fit *)
Lemma sproto_pack_ok srcv buf : Forall byte srcv → Zlen srcv < 2 ^ 29 → Zlen buf ≤ INT_MAX →
  (∃ b, sproto_pack srcv buf = Ret (Zlen (packed srcv), b) ∧ Zlen b = Zlen buf ∧
    (Zlen (packed srcv) ≤ Zlen buf → take (Z.to_nat (Zlen (packed srcv))) b = packed srcv)) ∧
  Zlen (packed srcv) ≤ max_packed (Zlen srcv) ∧
  Forall block_ok (blocks srcv) ∧ mjoin (raw <$> blocks srcv) = padded srcv.
Proof.
  intros Hb Hl HL. pose proof (Zlen_nonneg buf). pose proof (Zlen_nonneg srcv).
  destruct (Zlen_padded srcv) as [El Em]. pose proof (mod_range (- Zlen srcv) 8 ltac:(lia)).
  destruct (pack_loop_ok srcv (Zlen buf) 0 Hb Hl ltac:(lia) (Z.to_nat (Zlen (padded srcv) / 8)) (length srcv) 0
    (Packer Tmp 0 0 0 (Zlen buf) buf) ([], [])) as (s & full & Es & I).
  - split; cbn [p_ff_n p_size p_bufsz p_buffer fst snd]; try done; try lia.
    + split; [lia|done].
    + by rewrite bool_decide_eq_true_2 by lia.
  - rewrite Z2Nat.id by (apply Z.div_pos; lia). pose proof (Z.div_mod (Zlen (padded srcv)) 8 ltac:(lia)). lia.
  - unfold Zlen. lia.
  - unfold packed, blocks. destruct (blk_loop _ srcv 0 ([], [])) as [blks run]. cbn [fst snd] in I.
    unfold sproto_pack. rewrite Es. cbn [mbind outcome_bind].
    destruct I as [[Hi Him] Hbl (Hr & Hrl & H256) Hraw Hsz [Hrm HbL] Hst Hout [Hf Hf'] Hbd].
    pose proof Hraw as Hraw0. rewrite take_ge in Hraw by (unfold Zlen; lia). rewrite Hrl. pose proof (Zlen_nonneg run).
    assert (p_size s ≤ max_packed (Zlen srcv)) as Hmax.
    { case_bool_decide as Hx; [|done]. assert (full ≤ (Zlen srcv + 2047) / 2048) by (apply Z.div_le_lower_bound; lia).
      unfold max_packed, run_size in *. case_bool_decide; lia. }
    clear Hbd. unfold run_size in Hsz. destruct (decide (0 < p_ff_n s)) as [Hpos|Hpos].
    + rewrite !(bool_decide_eq_true_2 _ Hpos) in *.
      assert (Zlen (mjoin (enc <$> (blks ++ [Run run]))) = p_size s) as EE.
      { rewrite fmap_snoc_join, Zlen_app. cbn [enc]. rewrite !Zlen_cons, (segments_length run) by done. lia. }
      rewrite EE. split; [|split; [done|split]].
      * destruct (Hst Hpos) as (-> & -> & Hj). case_bool_decide as Hfit.
        -- destruct (flush_ok srcv (p_buffer s) blks run (Zlen (padded srcv)) (p_ff_n s) (mjoin (raw <$> blks)))
             as (b & -> & E1 & E2 & _); [done|done|lia|done|lia|lia|exact Hraw0|lia|apply Hout; lia|].
           exists b. split; [done|]. split; [lia|]. intros _. rewrite <- E2. do 2 f_equal. lia.
        -- exists (p_buffer s). split; [done|]. split; [done|]. lia.
      * apply Forall_app. split; [done|]. apply Forall_singleton. cbn. split; [lia|done].
      * by rewrite fmap_snoc_join.
    + rewrite !(bool_decide_eq_false_2 _ Hpos) in *. rewrite app_nil_r, Z.add_0_r in *. rewrite <- Hsz.
      rewrite bool_decide_eq_false_2 by tauto.
      assert (run = []) as -> by (apply Zlen_0; pose proof (Zlen_nonneg run); lia).
      split; [|split; [done|split; [done|]]].
      * exists (p_buffer s). split; [done|]. split; [done|]. intros Hfit. rewrite Hsz. apply Hout. lia.
      * change (mjoin []) with (@nil Z) in Hraw. by rewrite app_nil_r in Hraw.
Qed.

(** ** Reading what was written *)

(** the reader has delivered [out]; the buffer, of size [L], holds it unless it is full *)
Record unpack_inv (L : Z) (out : list Z) (s : unpacker) : Prop := {
  ui_size : u_size s = Zlen out;
  ui_len : Zlen (u_buffer s) = L;
  ui_room : - u_size s ≤ u_bufsz s ≤ L;
  ui_out : (u_ptr s = u_size s ∧ u_bufsz s = L - u_size s ∧ take (Z.to_nat (u_size s)) (u_buffer s) = out ∧ u_size s ≤ L) ∨
    (u_bufsz s ≤ 0 ∧ L < u_size s)
}.

(** one more byte, if there is room *)
Definition emit (x : Z) (s : unpacker) : outcome unpacker :=
  if bool_decide (0 < u_bufsz s) then put_byte x s else Ret s.
Definition move (d : Z) (s : unpacker) : unpacker :=
  Unpacker (u_src s + d) (u_srcsz s - d) (u_ptr s) (u_bufsz s) (u_size s) (u_buffer s).
Definition count (s : unpacker) : unpacker :=
  Unpacker (u_src s) (u_srcsz s) (u_ptr s) (u_bufsz s) (u_size s + 1) (u_buffer s).

Lemma emit_ok L out s x : unpack_inv L out s →
  ∃ s', emit x s = Ret s' ∧ unpack_inv L (out ++ [x]) (count s') ∧
    u_src s' = u_src s ∧ u_srcsz s' = u_srcsz s ∧ u_size s' = u_size s.
Proof.
  intros [Hz Hl Hr Ho]. pose proof (Zlen_nonneg out). unfold emit.
  assert (Zlen (out ++ [x]) = u_size s + 1) as Ez by (rewrite Zlen_app, Zlen_cons, Zlen_nil; lia).
  case_bool_decide as Hb.
  - destruct Ho as [(Hp & Hb' & Ht & Hle)|]; [|lia]. unfold put_byte. rewrite set_idx_ok by lia. cbn [mbind outcome_bind].
    eexists. split; [done|]. split; [|done]. split; cbn [count u_size u_buffer u_bufsz u_ptr]; rewrite ?Zlen_insert; [lia|done|lia|].
    left. split; [lia|]. split; [lia|]. split; [|lia]. rewrite Hp, take_insert_snoc by lia. by rewrite Ht.
  - exists s. split; [done|]. split; [|done]. split; cbn [count u_size u_buffer u_bufsz u_ptr]; [lia|done|lia|].
    right. destruct Ho as [(Hp & Hb' & Ht & Hle)|]; lia.
Qed.

Lemma inv_move L out d s : unpack_inv L out s → unpack_inv L out (move d s).
Proof. by intros []. Qed.

Lemma testbit_header h i x m : 0 ≤ i → 0 ≤ h < 2 ^ i →
  Z.testbit (h + 2 ^ i * ((if bool_decide (x ≠ 0) then 1 else 0) + 2 * m)) i = bool_decide (x ≠ 0).
Proof.
  intros Hi Hh. rewrite Z.testbit_eqb by lia. rewrite Z.mul_comm, Z.div_add, Z.div_small, Z.add_0_l by lia.
  rewrite (Z.mul_comm 2), Z.mod_add by lia. by case_bool_decide.
Qed.

Lemma get_mid (pre post : list Z) x : get_idx (pre ++ x :: post) (Zlen pre) = Ret x.
Proof. apply get_idx_Ret. unfold Zlen. split; [lia|]. rewrite Nat2Z.id. by rewrite list_lookup_middle. Qed.

(** the bits of a header deliver its segment *)
Lemma unpack_bits_ok seg : ∀ i h pre post L out s, 0 ≤ i → 0 ≤ h < 2 ^ i →
  unpack_inv L out s → u_src s = Zlen pre → Zlen (nonzero seg) ≤ u_srcsz s → Zlen out + Zlen seg ≤ INT_MAX →
  ∃ s', unpack_bits (length seg) (pre ++ nonzero seg ++ post) (h + 2 ^ i * header_of seg) i s = Ret (Go s') ∧
    unpack_inv L (out ++ seg) s' ∧ u_src s' = u_src s + Zlen (nonzero seg) ∧ u_srcsz s' = u_srcsz s - Zlen (nonzero seg).
Proof.
  induction seg as [|x seg IH]; intros i h pre post L out s Hi Hh I Hs Hsz Hmax.
  - exists s. rewrite app_nil_r. change (Zlen (nonzero [])) with 0. split; [done|]. split; [done|]. lia.
  - rewrite Zlen_cons in Hmax. cbn [length unpack_bits header_of]. rewrite testbit_header by done.
    pose proof (Zlen_nonneg out). pose proof (Zlen_nonneg seg). pose proof (Zlen_nonneg (nonzero seg)).
    assert (0 < 2 ^ i) by (apply Z.pow_pos_nonneg; lia).
    assert (2 ^ (i + 1) = 2 * 2 ^ i) as Epow by (rewrite Z.pow_add_r by lia; lia).
    unfold nonzero in Hsz |- *. rewrite filter_cons in Hsz |- *. fold (nonzero seg) in Hsz |- *.
    destruct (decide (x ≠ 0)) as [Hx|Hx].
    + rewrite Zlen_cons in *. rewrite (bool_decide_eq_true_2 _ Hx). rewrite bool_decide_eq_false_2 by lia.
      destruct (emit_ok L out s x I) as (s1 & Ee & I1 & Es1 & Es2 & Ez). unfold emit in Ee.
      assert ((if bool_decide (0 < u_bufsz s) then x0 ← get_idx (pre ++ (x :: nonzero seg) ++ post) (u_src s); put_byte x0 s else Ret s) = Ret s1) as ->.
      { rewrite Hs. change ((x :: nonzero seg) ++ post) with (x :: (nonzero seg ++ post)). by rewrite get_mid. }
      cbn [mbind outcome_bind u_size]. pose proof (ui_size _ _ _ I). rewrite chk_int_ok by (unfold INT_MAX in *; lia).
      cbn [mbind outcome_bind u_src u_srcsz u_ptr u_bufsz u_buffer].
      destruct (IH (i + 1) (h + 2 ^ i) (pre ++ [x]) post L (out ++ [x]) (move 1 (count s1))) as (s' & E & I' & E1 & E2);
        [lia|lia|by apply inv_move| |cbn [move count u_srcsz]; lia|rewrite Zlen_app, Zlen_cons, Zlen_nil; lia|].
      { cbn [move count u_src]. rewrite Zlen_app, Zlen_cons, Zlen_nil. lia. }
      exists s'. rewrite <- !app_assoc in *. cbn [app] in *. split; [|split; [done|]].
      * rewrite <- E. f_equal. lia.
      * cbn [move count u_src u_srcsz] in E1, E2. lia.
    + rewrite (bool_decide_eq_false_2 _ Hx). assert (x = 0) as -> by lia.
      destruct (emit_ok L out s 0 I) as (s1 & Ee & I1 & Es1 & Es2 & Ez). unfold emit in Ee. rewrite Ee.
      cbn [mbind outcome_bind]. pose proof (ui_size _ _ _ I). rewrite chk_int_ok by (unfold INT_MAX in *; lia).
      cbn [mbind outcome_bind].
      destruct (IH (i + 1) h pre post L (out ++ [0]) (count s1)) as (s' & E & I' & E1 & E2);
        [lia|lia|done|cbn [count u_src]; lia|cbn [count u_srcsz]; lia|rewrite Zlen_app, Zlen_cons, Zlen_nil; lia|].
      exists s'. rewrite <- !app_assoc in *. cbn [app] in *. split; [|split; [done|]].
      * rewrite <- E. f_equal. lia.
      * cbn [count u_src u_srcsz] in E1, E2. lia.
Qed.

Lemma header_range s : 0 ≤ header_of s < 2 ^ Zlen s.
Proof.
  induction s as [|x s IH]; [done|]. cbn [header_of]. rewrite Zlen_cons, Z.pow_add_r by (pose proof (Zlen_nonneg s); lia).
  case_bool_decide; lia.
Qed.
Lemma header_full s : header_of s = 2 ^ Zlen s - 1 → Zlen (nonzero s) = Zlen s.
Proof.
  induction s as [|x s IH]; intros E; [done|]. pose proof (header_range s). pose proof (Zlen_nonneg s).
  cbn [header_of] in E. rewrite Zlen_cons, Z.pow_add_r in E by lia. unfold nonzero. rewrite filter_cons. fold (nonzero s).
  case_bool_decide as Hx; [|lia]. rewrite decide_True by done. rewrite !Zlen_cons, IH by lia. done.
Qed.

Lemma slice_app (pre q post : list Z) : slice (pre ++ q ++ post) (Zlen pre) (Zlen q) = Ret q.
Proof.
  destruct (slice_ok (pre ++ q ++ post) (Zlen pre) (Zlen q)) as [-> _].
  - apply Zlen_nonneg.
  - apply Zlen_nonneg.
  - rewrite !Zlen_app. pose proof (Zlen_nonneg post). lia.
  - unfold Zlen. rewrite !Nat2Z.id, drop_app_length. by rewrite take_app_length.
Qed.

Lemma unpack_ff_ok ss pre post L out s : 1 ≤ Zlen ss ≤ 256 → Forall segment ss → 0 ≤ L ≤ INT_MAX →
  unpack_inv L out s → u_src s = Zlen pre → 1 + Zlen (mjoin ss) ≤ u_srcsz s → Zlen out + Zlen (mjoin ss) ≤ INT_MAX →
  ∃ s', unpack_ff (pre ++ (Zlen ss - 1) :: mjoin ss ++ post) s = Ret (Go s') ∧ unpack_inv L (out ++ mjoin ss) s' ∧
    u_src s' = u_src s + (1 + Zlen (mjoin ss)) ∧ u_srcsz s' = u_srcsz s - (1 + Zlen (mjoin ss)).
Proof.
  intros Hn Hss HL [Hz Hl Hr Ho] Hs Hsz Hmax. pose proof (segments_length _ Hss) as En. pose proof (Zlen_nonneg out).
  unfold unpack_ff. rewrite bool_decide_eq_false_2 by lia. rewrite Hs, get_mid. cbn [mbind outcome_bind].
  replace ((Zlen ss - 1 + 1) * 8) with (Zlen (mjoin ss)) by lia. rewrite bool_decide_eq_false_2 by lia.
  assert (∃ b, (if bool_decide (Zlen (mjoin ss) ≤ u_bufsz s) then
      bs ← slice (pre ++ (Zlen ss - 1) :: mjoin ss ++ post) (Zlen pre + 1) (Zlen (mjoin ss)); put_bytes (u_buffer s) (u_ptr s) bs
      else Ret (u_buffer s)) = Ret b ∧ Zlen b = L ∧
      (Zlen (mjoin ss) ≤ u_bufsz s → take (Z.to_nat (u_size s + Zlen (mjoin ss))) b = out ++ mjoin ss)) as (b & -> & Hb & Ht).
  { case_bool_decide as Hfit; [|by exists (u_buffer s)].
    destruct Ho as [(Hp & Hbz & Ht & Hle)|]; [|lia].
    assert (slice (pre ++ (Zlen ss - 1) :: mjoin ss ++ post) (Zlen pre + 1) (Zlen (mjoin ss)) = Ret (mjoin ss)) as ->.
    { pose proof (slice_app (pre ++ [Zlen ss - 1]) (mjoin ss) post) as E. rewrite Zlen_app, <- app_assoc in E. exact E. }
    cbn [mbind outcome_bind]. destruct (put_bytes_ok (u_buffer s) (u_ptr s) (mjoin ss)) as (b & E1 & E2 & E3 & _); [lia|lia|].
    exists b. split; [done|]. split; [lia|]. intros _. rewrite <- Hp, E3, Hp. by rewrite Ht. }
  cbn [mbind outcome_bind]. unfold INT_MAX in *. rewrite !chk_int_ok by (unfold INT_MAX; lia). cbn [mbind outcome_bind].
  eexists. split; [done|]. cbn [u_src u_srcsz]. split; [|lia].
  split; cbn [u_size u_buffer u_bufsz u_ptr]; [rewrite Zlen_app; lia|done|lia|].
  destruct Ho as [(Hp & Hbz & _ & Hle)|]; [|right; lia].
  destruct (decide (Zlen (mjoin ss) ≤ u_bufsz s)) as [Hfit|]; [left|right; lia].
  split; [lia|]. split; [lia|]. split; [by apply Ht|lia].
Qed.

Lemma unpack_step_ok b pre post L out s : block_ok b → 0 ≤ L ≤ INT_MAX → unpack_inv L out s → u_src s = Zlen pre →
  Zlen (enc b) ≤ u_srcsz s → Zlen out + Zlen (raw b) ≤ INT_MAX →
  ∃ s', unpack_step (pre ++ enc b ++ post) s = Ret (Go s') ∧ unpack_inv L (out ++ raw b) s' ∧
    u_src s' = u_src s + Zlen (enc b) ∧ u_srcsz s' = u_srcsz s - Zlen (enc b).
Proof.
  intros Hb HL I Hs Hsz Hmax. unfold unpack_step. rewrite Hs. destruct b as [seg|ss]; cbn [enc raw app] in *.
  - destruct Hb as [[H8 _] Hc]. rewrite get_mid. cbn [mbind outcome_bind]. rewrite Zlen_cons in *.
    assert (Zlen seg = 8) as E8 by (unfold Zlen; by rewrite H8).
    rewrite bool_decide_eq_false_2 by (intros E; pose proof (header_full seg) as Hf; rewrite E8 in Hf; specialize (Hf E); lia).
    destruct (unpack_bits_ok seg 0 0 (pre ++ [header_of seg]) post L out (move 1 s)) as (s' & E & I' & E1 & E2);
      [done|done|by apply inv_move|cbn [move u_src]; rewrite Zlen_app, Zlen_cons, Zlen_nil; lia|cbn [move u_srcsz]; lia|done|].
    exists s'. rewrite H8, <- app_assoc in E. cbn [app] in E. unfold move in E, E1, E2. rewrite Z.add_0_l, Z.mul_1_l, Hs in E.
    cbn [u_src u_srcsz] in E1, E2. split; [exact E|]. split; [done|]. lia.
  - destruct Hb as [Hn Hss]. rewrite get_mid. cbn [mbind outcome_bind]. rewrite !Zlen_cons in *.
    destruct (unpack_ff_ok ss (pre ++ [255]) post L out (move 1 s)) as (s' & E & I' & E1 & E2);
      [done|done|done|by apply inv_move|cbn [move u_src]; rewrite Zlen_app, Zlen_cons, Zlen_nil; lia|cbn [move u_srcsz]; lia|done|].
    exists s'. rewrite <- app_assoc in E. cbn [app] in E. unfold move in E, E1, E2. rewrite Hs in E.
    cbn [u_src u_srcsz] in E1, E2. rewrite bool_decide_eq_true_2 by done. split; [exact E|]. split; [done|]. lia.
Qed.

Lemma enc_pos b : 1 ≤ Zlen (enc b).
Proof. destruct b as [s|ss]; cbn [enc]; rewrite !Zlen_cons; [pose proof (Zlen_nonneg (nonzero s))|pose proof (Zlen_nonneg (mjoin ss))]; lia. Qed.

Lemma packed_fuel s : (length (blocks s) ≤ Z.to_nat (Zlen (packed s)))%nat.
Proof.
  unfold packed. induction (blocks s) as [|bl blks IH]; [cbn; lia|]. cbn [fmap list_fmap length].
  rewrite mjoin_cons, Zlen_app. pose proof (enc_pos bl). pose proof (Zlen_nonneg (mjoin (enc <$> blks))). cbn. lia.
Qed.

Lemma unpack_loop_ok blks : ∀ fuel pre post L out s, Forall block_ok blks → 0 ≤ L ≤ INT_MAX → unpack_inv L out s →
  u_src s = Zlen pre → u_srcsz s = Zlen (mjoin (enc <$> blks)) → Zlen out + Zlen (mjoin (raw <$> blks)) ≤ INT_MAX →
  (length blks ≤ fuel)%nat →
  ∃ b, unpack_loop fuel (pre ++ mjoin (enc <$> blks) ++ post) s = Ret (Zlen (out ++ mjoin (raw <$> blks)), b) ∧ Zlen b = L ∧
    (Zlen (out ++ mjoin (raw <$> blks)) ≤ L →
     take (Z.to_nat (Zlen (out ++ mjoin (raw <$> blks)))) b = out ++ mjoin (raw <$> blks)).
Proof.
  induction blks as [|bl blks IH]; intros fuel pre post L out s Hb HL I Hs Hsz Hmax Hf; cbn [fmap list_fmap] in *.
  - change (mjoin []) with (@nil Z) in *. rewrite app_nil_r. change (Zlen []) with 0 in Hsz.
    destruct I as [Hz Hl Hr Ho]. exists (u_buffer s).
    assert (unpack_loop fuel (pre ++ [] ++ post) s = Ret (u_size s, u_buffer s)) as ->
      by (destruct fuel; cbn [unpack_loop]; by rewrite bool_decide_eq_false_2 by lia).
    rewrite Hz. split; [done|]. split; [done|]. intros HL'. destruct Ho as [(_ & _ & Ht & _)|]; [by rewrite Hz in Ht|lia].
  - apply Forall_cons in Hb as [Hb1 Hb2]. rewrite !mjoin_cons in *. rewrite !Zlen_app in *.
    pose proof (enc_pos bl). pose proof (Zlen_nonneg (mjoin (enc <$> blks))). pose proof (Zlen_nonneg (mjoin (raw <$> blks))).
    destruct fuel as [|fuel]; [cbn in Hf; lia|]. cbn [unpack_loop]. rewrite bool_decide_eq_true_2 by lia.
    destruct (unpack_step_ok bl pre (mjoin (enc <$> blks) ++ post) L out s) as (s' & E & I' & E1 & E2); [done|done|done|done|lia|lia|].
    rewrite <- app_assoc. rewrite E. cbn [mbind outcome_bind].
    destruct (IH fuel (pre ++ enc bl) post L (out ++ raw bl) s') as (b & E3 & E4 & E5);
      [done|done|done|rewrite Zlen_app; lia|lia|rewrite Zlen_app; lia|cbn in Hf; lia|].
    rewrite <- !app_assoc in *. exists b. rewrite E3, !Zlen_app in *. rewrite Z.add_assoc in *. done.
Qed.

(** ** Any bytes can be unpacked *)

(** [N] bytes are given; the memory goes on for one more *)
Record unpack_safe (N L : Z) (s : unpacker) : Prop := {
  us_src : 0 ≤ u_src s ∧ u_src s + u_srcsz s = N;
  us_len : Zlen (u_buffer s) = L;
  us_room : - u_size s ≤ u_bufsz s ≤ L ∧ (0 < u_bufsz s → 0 ≤ u_ptr s ∧ u_ptr s + u_bufsz s = L);
  us_size : 0 ≤ u_size s
}.
Lemma emit_safe N L s x : unpack_safe N L s →
  ∃ s', emit x s = Ret s' ∧ unpack_safe N L (count s') ∧
    u_src s' = u_src s ∧ u_srcsz s' = u_srcsz s ∧ u_size s' = u_size s.
Proof.
  intros [Hs Hl [Hr Hp] Hz]. unfold emit. case_bool_decide as Hb.
  - unfold put_byte. rewrite set_idx_ok by lia. eexists. split; [done|]. split; [|done].
    split; cbn [count u_size u_buffer u_bufsz u_ptr u_src u_srcsz]; rewrite ?Zlen_insert; lia.
  - exists s. split; [done|]. split; [|done]. split; cbn [count u_size u_buffer u_bufsz u_ptr u_src u_srcsz]; lia.
Qed.

Lemma unpack_bits_safe mem N L header k : N < Zlen mem → 8 * N + 8 ≤ INT_MAX → ∀ i s, unpack_safe N L s →
  -1 ≤ u_srcsz s → u_size s + Z.of_nat k ≤ 8 * N + 8 →
  ∃ r, unpack_bits k mem header i s = Ret r ∧
    match r with
    | Stop b => Zlen b = L
    | Go s' => unpack_safe N L s' ∧ -1 ≤ u_srcsz s' ∧ u_size s' = u_size s + Z.of_nat k ∧ u_src s ≤ u_src s'
    end.
Proof.
  intros Hmem HN. induction k as [|k IH]; intros i s S Hsz Hb.
  - eexists. split; [done|]. cbn. split; [done|]. lia.
  - destruct (us_src _ _ _ S) as [Hs HsN]. pose proof (us_size _ _ _ S). cbn [unpack_bits]. destruct (Z.testbit header i).
    + case_bool_decide as Hlow; [eexists; split; [done|]; apply S|].
      destruct (get_idx_ok mem (u_src s)) as (x & Ex & _); [lia|].
      assert ((if bool_decide (0 < u_bufsz s) then x0 ← get_idx mem (u_src s); put_byte x0 s else Ret s) = emit x s) as ->
        by (unfold emit; by rewrite Ex).
      destruct (emit_safe N L s x S) as (s1 & -> & S1 & E1 & E2 & E3). cbn [mbind outcome_bind u_size].
      rewrite chk_int_ok by lia. cbn [mbind outcome_bind u_src u_srcsz u_ptr u_bufsz u_buffer].
      destruct (IH (i + 1) (move 1 (count s1))) as (r & E & Hr).
      * destruct S1 as [[? ?] ? ? ?]. by split; cbn [move count u_src u_srcsz u_ptr u_bufsz u_size u_buffer] in *; lia.
      * cbn [move count u_srcsz]. lia.
      * cbn [move count u_size]. lia.
      * exists r. split; [exact E|]. destruct r as [s'|]; [|done]. cbn [move count u_src u_size] in Hr. split; [apply Hr|]. lia.
    + destruct (emit_safe N L s 0 S) as (s1 & Ee & S1 & E1 & E2 & E3). unfold emit in Ee. rewrite Ee. cbn [mbind outcome_bind u_size].
      rewrite chk_int_ok by lia. cbn [mbind outcome_bind u_src u_srcsz u_ptr u_bufsz u_buffer].
      destruct (IH (i + 1) (count s1)) as (r & E & Hr); [done|cbn [count u_srcsz]; lia|cbn [count u_size]; lia|].
      exists r. split; [exact E|]. destruct r as [s'|]; [|done]. cbn [count u_src u_size] in Hr. split; [apply Hr|]. lia.
Qed.

Lemma unpack_ff_safe mem N L s : Forall byte mem → N < Zlen mem → 8 * N + 8 ≤ INT_MAX → 0 ≤ L ≤ INT_MAX → unpack_safe N L s →
  u_size s ≤ 8 * u_src s →
  ∃ r, unpack_ff mem s = Ret r ∧
    match r with
    | Stop b => Zlen b = L
    | Go s' => unpack_safe N L s' ∧ -1 ≤ u_srcsz s' ∧ u_size s' ≤ 8 * u_src s' ∧ u_src s < u_src s'
    end.
Proof.
  intros Hby Hmem HN HL [[Hs HsN] Hl [Hr Hp] Hz] Hb. unfold unpack_ff.
  case_bool_decide as Hlow; [eexists; by split|].
  destruct (get_idx_ok mem (u_src s)) as (x & -> & Hx); [lia|]. cbn [mbind outcome_bind].
  assert (byte x) as Hxb by (exact (Forall_lookup_1 _ _ _ _ Hby Hx)). unfold byte in Hxb.
  case_bool_decide as Hshort; [eexists; by split|].
  set (n := (x + 1) * 8) in *.
  assert (∃ b, (if bool_decide (n ≤ u_bufsz s) then bs ← slice mem (u_src s + 1) n; put_bytes (u_buffer s) (u_ptr s) bs
      else Ret (u_buffer s)) = Ret b ∧ Zlen b = L) as (b & -> & Eb).
  { case_bool_decide as Hfit; [|by exists (u_buffer s)].
    destruct (slice_ok mem (u_src s + 1) n) as [-> El]; [lia..|]. cbn [mbind outcome_bind].
    destruct (put_bytes_ok (u_buffer s) (u_ptr s) (take (Z.to_nat n) (drop (Z.to_nat (u_src s + 1)) mem)))
      as (b & E1 & E2 & _); [lia|lia|]. exists b. split; [done|lia]. }
  unfold INT_MAX in *. cbn [mbind outcome_bind]. rewrite !chk_int_ok by (unfold INT_MAX; lia). cbn [mbind outcome_bind].
  eexists. split; [done|]. cbn [u_src u_srcsz u_size u_bufsz]. split; [|lia].
  split; cbn [u_src u_srcsz u_size u_bufsz u_ptr u_buffer]; lia.
Qed.

Lemma unpack_loop_safe mem N L : Forall byte mem → N < Zlen mem → 8 * N + 8 ≤ INT_MAX → 0 ≤ L ≤ INT_MAX →
  ∀ fuel s, unpack_safe N L s → -8 ≤ u_srcsz s → u_size s ≤ 8 * u_src s → u_src s ≤ N + 8 → u_srcsz s ≤ Z.of_nat fuel →
  ∃ r b, unpack_loop fuel mem s = Ret (r, b) ∧ Zlen b = L ∧ -1 ≤ r ≤ 8 * (N + 8).
Proof.
  intros Hby Hmem HN HL fuel. induction fuel as [|fuel IH]; intros s S Hsz Hb Hsrc Hf; cbn [unpack_loop];
    destruct (us_src _ _ _ S) as [Hs HsN]; pose proof (us_size _ _ _ S).
  - rewrite bool_decide_eq_false_2 by lia. do 2 eexists. split; [done|]. split; [apply S|lia].
  - case_bool_decide as Hpos; [|do 2 eexists; split; [done|]; split; [apply S|lia]].
    unfold unpack_step. destruct (get_idx_ok mem (u_src s)) as (x & -> & Hx); [lia|]. cbn [mbind outcome_bind].
    assert (unpack_safe N L (move 1 s)) as S1 by (destruct S; split; cbn [move u_src u_srcsz u_size u_bufsz u_ptr u_buffer]; lia).
    change (Unpacker (u_src s + 1) (u_srcsz s - 1) (u_ptr s) (u_bufsz s) (u_size s) (u_buffer s)) with (move 1 s).
    case_bool_decide as Hff.
    + destruct (unpack_ff_safe mem N L (move 1 s)) as (r & -> & Hr); [done..|cbn [move u_size u_src]; lia|].
      cbn [mbind outcome_bind]. destruct r as [s'|b]; [|do 2 eexists; split; [done|]; split; [done|lia]].
      cbn [move u_src] in Hr. destruct Hr as (S' & ? & ? & ?). destruct (us_src _ _ _ S') as [? ?]. apply IH; [done|lia..].
    + destruct (unpack_bits_safe mem N L x 8 Hmem HN 0 (move 1 s)) as (r & -> & Hr);
        [done|cbn [move u_srcsz]; lia|cbn [move u_size]; lia|].
      cbn [mbind outcome_bind]. destruct r as [s'|b]; [|do 2 eexists; split; [done|]; split; [done|lia]].
      cbn [move u_src u_size] in Hr. destruct Hr as (S' & ? & ? & ?). destruct (us_src _ _ _ S') as [? ?]. apply IH; [done|lia..].
Qed.

(** ** The properties *)

(** Packing is inverted by unpacking: for a buffer of any size [sproto_pack]
    answers the length of the packed bytes, which are in the buffer if they fit,
    and [sproto_unpack] of these bytes, whatever follows them in memory, answers
    the length of the source with zeros up to a multiple of eight, and delivers
    that if it fits. *)
Theorem sproto_pack_roundtrip srcv : Forall byte srcv → Zlen srcv < 2 ^ 29 →
  (∀ buf, Zlen buf ≤ INT_MAX → ∃ b, sproto_pack srcv buf = Ret (Zlen (packed srcv), b) ∧ Zlen b = Zlen buf ∧
    (Zlen (packed srcv) ≤ Zlen buf → take (Z.to_nat (Zlen (packed srcv))) b = packed srcv)) ∧
  (∀ buf more, Zlen buf ≤ INT_MAX →
    ∃ b, sproto_unpack (packed srcv ++ more) (Zlen (packed srcv)) buf = Ret (Zlen (padded srcv), b) ∧ Zlen b = Zlen buf ∧
    (Zlen (padded srcv) ≤ Zlen buf → take (Z.to_nat (Zlen (padded srcv))) b = padded srcv)).
Proof.
  intros Hb Hl. split; [intros buf HL; by apply sproto_pack_ok|]. intros buf more HL.
  destruct (sproto_pack_ok srcv [] Hb Hl) as (_ & _ & Hok & Hraw); [done|]. rewrite <- Hraw.
  pose proof (Zlen_nonneg buf). destruct (Zlen_padded srcv) as [El _]. pose proof (mod_range (- Zlen srcv) 8 ltac:(lia)).
  apply (unpack_loop_ok (blocks srcv) _ [] more (Zlen buf) []); try done.
  - split; cbn [u_size u_buffer u_bufsz u_ptr]; [done|done|lia|]. left. split; [done|]. split; [lia|]. split; [done|lia].
  - rewrite Hraw. change (Zlen []) with 0. unfold INT_MAX. lia.
  - apply packed_fuel.
Qed.

(** C33. The packed bytes are at most two for each 2048 of the source, and two, longer
    than it: a buffer of this size, as the Lua library keeps one, always has
    room for them. *)
Theorem sproto_pack_fits srcv buf : Forall byte srcv → Zlen srcv < 2 ^ 29 → max_packed (Zlen srcv) ≤ Zlen buf ≤ INT_MAX →
  ∃ n b, sproto_pack srcv buf = Ret (n, b) ∧ 0 ≤ n ≤ max_packed (Zlen srcv) ∧ take (Z.to_nat n) b = packed srcv.
Proof.
  intros Hb Hl HL. destruct (sproto_pack_ok srcv buf Hb Hl) as ((b & E & _ & Ht) & Hm & _); [lia|].
  exists (Zlen (packed srcv)), b. pose proof (Zlen_nonneg (packed srcv)). split; [done|]. split; [lia|]. apply Ht. lia.
Qed.

(** C34. Any bytes, up to 256 MB, are unpacked without a write outside the buffer,
    when one more byte can be read behind them: the checks of the size come after
    the byte has been read. Without that byte, a text that ends with the header of
    a run, or with the header of a segment, is read one byte past its end, and the
    segment cut off is taken as whole with that byte. *)
Theorem sproto_unpack_safe mem srcsz buf : Forall byte mem → 0 ≤ srcsz < Zlen mem → 8 * srcsz + 8 ≤ INT_MAX →
  Zlen buf ≤ INT_MAX →
  (∃ r b, sproto_unpack mem srcsz buf = Ret (r, b) ∧ Zlen b = Zlen buf ∧ -1 ≤ r ≤ 8 * (srcsz + 8)) ∧
  sproto_unpack [0xff] 1 [0] = Undef ∧ sproto_unpack [1] 1 [0] = Undef ∧ ∀ x, sproto_unpack [1; x] 1 [0] = Ret (8, [x]).
Proof.
  intros Hb Hm HN HL. split; [|split; [done|by split]]. pose proof (Zlen_nonneg buf).
  apply (unpack_loop_safe mem srcsz (Zlen buf)); try done; try lia; cbn [u_size u_src u_srcsz]; try lia.
Qed.

Lemma expand_size_ok nsz : 0 < nsz ≤ 2 ^ 23 → ∀ fuel osz, 0 < osz < nsz → nsz ≤ osz * 2 ^ (Z.of_nat fuel) →
  ∃ n, expand_size fuel osz nsz = Ret n ∧ nsz ≤ n < 2 * nsz.
Proof.
  intros Hn. induction fuel as [|fuel IH]; intros osz Ho Hf; [simpl in Hf; lia|].
  rewrite Nat2Z.inj_succ, Z.pow_succ_r in Hf by lia.
  cbn [expand_size]. rewrite chk_int_ok by (unfold INT_MAX; lia). cbn [mbind outcome_bind].
  case_bool_decide; [apply IH; lia|]. exists (osz * 2). split; [done|lia].
Qed.

Lemma expand_buffer_ok osz nsz : 0 < osz < nsz → nsz ≤ 2 ^ 23 →
  ∃ b, expand_buffer osz nsz = LRet b ∧ nsz ≤ Zlen b < 2 ^ 24.
Proof.
  intros Ho Hn. destruct (expand_size_ok nsz ltac:(lia) 32 osz Ho) as (n & E & Hb); [change (2 ^ Z.of_nat 32) with (2 ^ 32); lia|].
  unfold expand_buffer. rewrite E. cbn [lift mbind lua_bind].
  rewrite bool_decide_eq_false_2 by (unfold ENCODE_MAXSIZE; lia). eexists. split; [done|]. rewrite Zlen_replicate by lia. lia.
Qed.

Lemma with_space_ok {A} n output (f : list Z → outcome (A * list Z)) (r : A) b : 0 ≤ n ≤ Zlen output →
  f (take (Z.to_nat n) output) = Ret (r, b) → Zlen b = n →
  with_space n output f = LRet (r, b ++ drop (Z.to_nat n) output) ∧ Zlen (b ++ drop (Z.to_nat n) output) = Zlen output.
Proof.
  intros Hn E Hb. unfold with_space. rewrite E. split; [done|]. rewrite Zlen_app, Hb.
  unfold Zlen in *. rewrite length_drop. lia.
Qed.
Lemma Zlen_take (l : list Z) n : 0 ≤ n ≤ Zlen l → Zlen (take (Z.to_nat n) l) = n.
Proof. unfold Zlen. intros. rewrite length_take. lia. Qed.

Lemma lpack_ok s output o : Forall byte s → Zlen s < 2 ^ 29 → max_packed (Zlen s) ≤ 2 ^ 23 → 0 < max_packed (Zlen s) →
  (if bool_decide (Zlen output < max_packed (Zlen s)) then expand_buffer (Zlen output) (max_packed (Zlen s)) else LRet output) = LRet o →
  max_packed (Zlen s) ≤ Zlen o ≤ INT_MAX →
  ∃ b, lpack s output = LRet (packed s, b) ∧ Zlen b = Zlen o.
Proof.
  intros Hs Hl Hm H0 Eo Ho. unfold lpack. fold (max_packed (Zlen s)). cbv zeta.
  assert (u64 (max_packed (Zlen s)) = max_packed (Zlen s)) as -> by (unfold u64; apply Z.mod_small; lia).
  rewrite i32_small by lia. rewrite Eo. cbn [mbind lua_bind].
  destruct (sproto_pack_ok s (take (Z.to_nat (max_packed (Zlen s))) o) Hs Hl) as ((b & E & Hb & Ht) & Hfit & _).
  { rewrite Zlen_take by lia. unfold INT_MAX. lia. }
  rewrite Zlen_take in Hb, Ht by lia. destruct (with_space_ok (max_packed (Zlen s)) o (sproto_pack s) (Zlen (packed s)) b) as [-> El]; [lia|done|done|].
  cbn [mbind lua_bind]. rewrite bool_decide_eq_false_2 by lia. eexists. split; [|exact El]. do 2 f_equal.
  rewrite take_app_le by (unfold Zlen in *; lia). apply Ht. lia.
Qed.

Lemma unpack_packed s buf : Forall byte s → Zlen s < 2 ^ 29 → Zlen buf ≤ INT_MAX →
  ∃ b, sproto_unpack (packed s ++ [0]) (Zlen (packed s)) buf = Ret (Zlen (padded s), b) ∧ Zlen b = Zlen buf ∧
    (Zlen (padded s) ≤ Zlen buf → take (Z.to_nat (Zlen (padded s))) b = padded s).
Proof.
  intros Hs Hl HL. destruct (sproto_pack_ok s [] Hs Hl) as (_ & _ & Hok & Hraw); [done|]. rewrite <- Hraw.
  pose proof (Zlen_nonneg buf). destruct (Zlen_padded s) as [El _]. pose proof (mod_range (- Zlen s) 8 ltac:(lia)).
  apply (unpack_loop_ok (blocks s) _ [] [0] (Zlen buf) []); try done.
  - split; cbn [u_size u_buffer u_bufsz u_ptr]; [done|done|lia|]. left. split; [done|]. split; [lia|]. split; [done|lia].
  - rewrite Hraw. change (Zlen []) with 0. unfold INT_MAX. lia.
  - apply packed_fuel.
Qed.

Lemma lunpack_ok s output : Forall byte s → Zlen s < 2 ^ 29 → Zlen (padded s) ≤ 2 ^ 23 → 0 < Zlen output ≤ INT_MAX →
  Zlen (packed s) < 2 ^ 31 → ∃ b, lunpack (packed s) output = LRet (padded s, b).
Proof.
  intros Hs Hl Hp Ho Hk. pose proof (Zlen_nonneg (packed s)). pose proof (Zlen_nonneg (padded s)).
  unfold lunpack. rewrite i32_small by lia.
  destruct (unpack_packed s output Hs Hl ltac:(lia)) as (b & -> & Hb & Ht). cbn [lift mbind lua_bind].
  rewrite bool_decide_eq_false_2 by lia. case_bool_decide as Hbig; [|eexists; by rewrite Ht by lia].
  destruct (expand_buffer_ok (Zlen output) (Zlen (padded s))) as (o & -> & Hol); [lia|done|]. cbn [mbind lua_bind].
  destruct (unpack_packed s (take (Z.to_nat (Zlen (padded s))) o) Hs Hl) as (b2 & E & Hb2 & Ht2).
  { rewrite Zlen_take by lia. unfold INT_MAX. lia. }
  rewrite Zlen_take in Hb2, Ht2 by lia.
  destruct (with_space_ok (Zlen (padded s)) o (sproto_unpack (packed s ++ [0]) (Zlen (packed s))) (Zlen (padded s)) b2) as [-> _]; [lia|done|done|].
  cbn [mbind lua_bind]. rewrite bool_decide_eq_false_2 by lia. eexists. do 2 f_equal.
  rewrite take_app_le by (unfold Zlen in *; lia). apply Ht2. lia.
Qed.

(** C32. What the Lua library packs it unpacks to the source with zeros up to a
    multiple of eight, whatever the sizes of its buffers, for sources of up to 8
    MB less the overhead; the buffers grow as needed. *)
Theorem sproto_lua_roundtrip s output output' : Forall byte s → max_packed (Zlen s) ≤ 2 ^ 23 →
  0 < Zlen output ≤ INT_MAX → 0 < Zlen output' ≤ INT_MAX →
  ∃ b b', lpack s output = LRet (packed s, b) ∧ 0 < Zlen b ≤ INT_MAX ∧ lunpack (packed s) output' = LRet (padded s, b').
Proof.
  intros Hs Hm Ho Ho'. pose proof (Zlen_nonneg s). pose proof (Zlen_nonneg (packed s)).
  assert (Zlen s < 2 ^ 29 ∧ Zlen (padded s) ≤ 2 ^ 23) as [Hl Hp].
  { unfold max_packed in Hm. destruct (Zlen_padded s) as [El Em]. pose proof (mod_range (- Zlen s) 8 ltac:(lia)).
    apply Z.mod_divide in Em as [q Hq]; [|lia].
    destruct (decide (Zlen s = 0)) as [E0|]; [rewrite E0 in *; change ((- 0) mod 8) with 0 in *; lia|].
    assert (1 ≤ (Zlen s + 2047) / 2048) by (apply Z.div_le_lower_bound; lia). lia. }
  destruct (sproto_pack_ok s [] Hs Hl) as (_ & Hfit & Hok & Hraw); [done|].
  assert (∃ b, (if bool_decide (Zlen output < max_packed (Zlen s)) then expand_buffer (Zlen output) (max_packed (Zlen s))
    else LRet output) = LRet b ∧ max_packed (Zlen s) ≤ Zlen b ≤ INT_MAX) as (o & Eo & Hol).
  { case_bool_decide; [|exists output; split; [done|lia]].
    destruct (expand_buffer_ok (Zlen output) (max_packed (Zlen s))) as (b & E & Hb); [lia|done|].
    exists b. split; [done|]. unfold INT_MAX. lia. }
  assert (0 < max_packed (Zlen s)) as Hmp.
  { unfold max_packed. assert (0 ≤ (Zlen s + 2047) / 2048) by (apply Z.div_pos; lia). lia. }
  destruct (lpack_ok s output o Hs Hl Hm Hmp Eo Hol) as (b & Eb & Hbl).
  destruct (lunpack_ok s output' Hs Hl Hp) as (b' & Eb'); [unfold INT_MAX in *; lia|lia|].
  exists b, b'. split; [done|]. split; [lia|done].
Qed.

(** three segments: two without zeros, and four bytes *)
Definition some_source : list Z := [1; 2; 3; 4; 5; 6; 7; 8; 9; 8; 7; 6; 5; 4; 0; 2; 0; 1; 0; 3].
Definition some_packed : list Z := [255; 1; 1; 2; 3; 4; 5; 6; 7; 8; 9; 8; 7; 6; 5; 4; 0; 2; 10; 1; 3].

Lemma sproto_pack_roundtrip_witness : packed some_source = some_packed ∧
  (∃ b, sproto_pack some_source (replicate 30 7) = Ret (21, b) ∧ take 21 b = some_packed) ∧
  (∃ b, sproto_unpack some_packed 21 (replicate 24 7) = Ret (24, b) ∧ b = some_source ++ [0; 0; 0; 0]).
Proof.
  assert (packed some_source = some_packed) as Ep by reflexivity. split; [exact Ep|].
  destruct (sproto_pack_roundtrip some_source) as [Hp Hu];
    [apply (bool_decide_unpack _); vm_compute; exact I|reflexivity|].
  rewrite Ep in Hp, Hu. split.
  - destruct (Hp (replicate 30 7)) as (b & E & _ & Ht); [discriminate|]. exists b. split; [exact E|]. apply Ht. discriminate.
  - destruct (Hu (replicate 24 7) []) as (b & E & El & Ht); [discriminate|]. exists b. split; [exact E|].
    change (some_source ++ [0; 0; 0; 0]) with (padded some_source). rewrite <- (Ht ltac:(discriminate)). symmetry. apply take_ge. change (Zlen (padded some_source)) with 24. change (Zlen (replicate 24 7)) with 24 in El. unfold Zlen in El. lia.
Defined.

Lemma sproto_pack_fits_witness : ∃ n b, sproto_pack some_source (replicate 30 7) = Ret (n, b) ∧ take (Z.to_nat n) b = some_packed.
Proof.
  destruct (sproto_pack_fits some_source (replicate 30 7)) as (n & b & E & _ & Ht);
    [apply (bool_decide_unpack _); vm_compute; exact I|reflexivity|split; discriminate|].
  exists n, b. split; [exact E|exact Ht].
Defined.

Lemma sproto_unpack_safe_witness : ∃ r b, sproto_unpack [3; 7; 9] 2 [0; 0] = Ret (r, b) ∧ Zlen b = 2.
Proof.
  destruct (sproto_unpack_safe [3; 7; 9] 2 [0; 0]) as ((r & b & E & El & _) & _);
    [apply (bool_decide_unpack _); vm_compute; exact I|split; [discriminate|reflexivity]|discriminate|discriminate|].
  exists r, b. split; [exact E|exact El].
Defined.

Lemma sproto_lua_roundtrip_witness : ∃ b b', lpack some_source [7; 7] = LRet (some_packed, b) ∧ lunpack some_packed [9] = LRet (padded some_source, b').
Proof.
  destruct (sproto_lua_roundtrip some_source [7; 7] [9]) as (b & b' & E & _ & E');
    [apply (bool_decide_unpack _); vm_compute; exact I|discriminate|split; [reflexivity|discriminate]..|].
  exists b, b'. split; [exact E|exact E'].
Defined.
