(* ===== verification/Sproto.v ===== *)
(** * Structured messages: the encoder and decoder of lualib-src/sproto/sproto.c

    A message type is a list of fields; the values are given and taken by a
    callback of the user. The encoder works in a buffer of a fixed size, the
    decoder on the bytes it is given; the types, which a schema describes, are
    arguments. *)
From S2P Require Import Prelude Bytes SprotoPack.
From Stdlib Require Import String.
#[local] Open Scope Z_scope.
#[local] Abbreviation length := List.length.

Definition SPROTO_TINTEGER : Z := 0.
Definition SPROTO_TBOOLEAN : Z := 1.
Definition SPROTO_TSTRING : Z := 2.
Definition SPROTO_TDOUBLE : Z := 3.
Definition SPROTO_TSTRUCT : Z := 4.
Definition SPROTO_TARRAY : Z := 0x80.
Definition SPROTO_CB_ERROR : Z := -1.
Definition SPROTO_CB_NIL : Z := -2.
Definition SPROTO_CB_NOARRAY : Z := -3.
Definition SIZEOF_LENGTH : Z := 4.
Definition SIZEOF_HEADER : Z := 2.
Definition SIZEOF_FIELD : Z := 2.
Definition SIZEOF_INT32 : Z := 4.
Definition SIZEOF_INT64 : Z := 8.

Record field : Type := Field {
  f_tag : Z;
  f_type : Z;
  f_name : string;
  f_st : option loc;
  f_key : Z;
  f_extra : Z
}.
(** [base]: the first tag when the tags are consecutive, else -1 *)
Record sproto_type : Type := SprotoType { st_base : Z; st_maxn : Z; st_f : list field }.
Definition st_n (st : sproto_type) : Z := Zlen (st_f st).

(** the type of a list of fields, which must be in the order of their tags; the
    number of words a message may need *)
Fixpoint count_words (last maxn : Z) (fs : list field) : option Z :=
  match fs with
  | [] => Some maxn
  | f :: fs =>
      if bool_decide (f_tag f ≤ last) then None
      else count_words (f_tag f) (if bool_decide (last + 1 < f_tag f) then maxn + 1 else maxn) fs
  end.
Definition import_type (fs : list field) : outcome (option sproto_type) :=
  match count_words (-1) (Zlen fs) fs with
  | None => Ret None
  | Some maxn =>
      first ← get_idx fs 0;
      last ← get_idx fs (Zlen fs - 1);
      let base := f_tag first in
      Ret (Some (SprotoType (if bool_decide (f_tag last - base + 1 ≠ Zlen fs) then -1 else base) maxn fs))
  end.

(** what the callback is told; [a_value]: what a decoded value is *)
Inductive arg_value : Type := ANull | AInt (v : Z) | ABytes (bs : list Z).
Record sproto_arg : Type := SprotoArg {
  a_tagname : string;
  a_tagid : Z;
  a_type : Z;
  a_subtype : option loc;
  a_value : arg_value;
  a_length : Z;
  a_index : Z;
  a_mainindex : Z;
  a_extra : Z
}.
Definition arg_of (f : field) (type : Z) : sproto_arg :=
  SprotoArg (f_name f) (f_tag f) type (f_st f) ANull 0 0 (f_key f) (f_extra f).
Definition at_index (i : Z) (a : sproto_arg) : sproto_arg :=
  SprotoArg (a_tagname a) (a_tagid a) (a_type a) (a_subtype a) (a_value a) (a_length a) i (a_mainindex a) (a_extra a).
Definition with_value (v : arg_value) (n : Z) (a : sproto_arg) : sproto_arg :=
  SprotoArg (a_tagname a) (a_tagid a) (a_type a) (a_subtype a) v n (a_index a) (a_mainindex a) (a_extra a).

(** ** Words *)
Definition toword (p : list Z) (off : Z) : outcome Z :=
  a ← get_idx p off; b ← get_idx p (off + 1); Ret (Z.lor a (Z.shiftl b 8)).
Definition todword (p : list Z) (off : Z) : outcome Z :=
  a ← get_idx p off; b ← get_idx p (off + 1); c ← get_idx p (off + 2); d ← get_idx p (off + 3);
  Ret (Z.lor (Z.lor (Z.lor a (Z.shiftl b 8)) (Z.shiftl c 16)) (Z.shiftl d 24)).

(** ** Fields by their tags *)
Fixpoint findtag_loop (fuel : nat) (fs : list field) (tag begin end_ : Z) : outcome (option field) :=
  if bool_decide (begin < end_) then
    match fuel with
    | O => NoFuel
    | S fuel =>
        let mid := (begin + end_) ÷ 2 in
        f ← get_idx fs mid;
        if bool_decide (f_tag f = tag) then Ret (Some f)
        else if bool_decide (f_tag f < tag) then findtag_loop fuel fs tag (mid + 1) end_
        else findtag_loop fuel fs tag begin mid
    end
  else Ret None.
Definition findtag (st : sproto_type) (tag : Z) : outcome (option field) :=
  if bool_decide (0 ≤ st_base st) then
    let tag := tag - st_base st in
    if bool_decide (tag < 0 ∨ st_n st ≤ tag) then Ret None
    else f ← get_idx (st_f st) tag; Ret (Some f)
  else findtag_loop (S (length (st_f st))) (st_f st) tag 0 (st_n st).

(** ** Decoding *)
Section decode.
(** the callback and its state; it reads the bytes it is given *)
Context {U : Type} (cb : sproto_arg → U → Z * U).

Definition expand64 (v : Z) : Z :=
  if bool_decide (Z.land v 0x80000000 ≠ 0) then Z.lor v (u64 (Z.shiftl (u64 (-1)) 32)) else v.

Definition give_int (a : sproto_arg) (v : Z) (u : U) : Z * U := cb (with_value (AInt v) 8 a) u.
Definition give_bytes (mem : list Z) (off n : Z) (a : sproto_arg) (u : U) : outcome (Z * U) :=
  bs ← slice mem off n; Ret (cb (with_value (ABytes bs) n a) u).

(** the state, also when the answer is -1 *)
Fixpoint decode_array_object (fuel : nat) (mem : list Z) (stream sz index : Z) (a : sproto_arg) (u : U) :
    outcome (Z * U) :=
  if bool_decide (0 < sz) then
    match fuel with
    | O => NoFuel
    | S fuel =>
        if bool_decide (sz < SIZEOF_LENGTH) then Ret (-1, u)
        else
          hsz ← todword mem stream;
          let stream := stream + SIZEOF_LENGTH in
          let sz := sz - SIZEOF_LENGTH in
          if bool_decide (u32 sz < hsz) then Ret (-1, u)
          else
            '(r, u) ← give_bytes mem stream (i32 hsz) (at_index index a) u;
            if bool_decide (r ≠ 0) then Ret (-1, u)
            else decode_array_object fuel mem (stream + hsz) (sz - hsz) (index + 1) a u
    end
  else Ret (0, u).

(** [k] values are left, of which [read] gives the next *)
Fixpoint decode_values (k : nat) (read : Z → outcome Z) (i : Z) (a : sproto_arg) (u : U) : outcome U :=
  match k with
  | O => Ret u
  | S k => v ← read i; decode_values k read (i + 1) a (snd (give_int (at_index (i + 1) a) v u))
  end.

Definition int64_at (mem : list Z) (off : Z) : outcome Z :=
  low ← todword mem off; hi ← todword mem (off + SIZEOF_INT32); Ret (Z.lor low (u64 (Z.shiftl hi 32))).

Definition decode_array (mem : list Z) (stream : Z) (a : sproto_arg) (u : U) : outcome (Z * U) :=
  sz ← todword mem stream;
  if bool_decide (sz = 0) then Ret (0, snd (cb (with_value ANull 0 (at_index (-1) a)) u))
  else
    let stream := stream + SIZEOF_LENGTH in
    if bool_decide (a_type a = SPROTO_TDOUBLE ∨ a_type a = SPROTO_TINTEGER) then
      len ← get_idx mem stream;
      let stream := stream + 1 in
      let sz := sz - 1 in
      if bool_decide (len = SIZEOF_INT32) then
        if bool_decide (sz mod SIZEOF_INT32 ≠ 0) then Ret (-1, u)
        else
          u ← decode_values (Z.to_nat (sz / SIZEOF_INT32))
                (λ i, v ← todword mem (stream + i * SIZEOF_INT32); Ret (expand64 v)) 0 a u;
          Ret (0, u)
      else if bool_decide (len = SIZEOF_INT64) then
        if bool_decide (sz mod SIZEOF_INT64 ≠ 0) then Ret (-1, u)
        else
          u ← decode_values (Z.to_nat (sz / SIZEOF_INT64)) (λ i, int64_at mem (stream + i * SIZEOF_INT64)) 0 a u;
          Ret (0, u)
      else Ret (-1, u)
    else if bool_decide (a_type a = SPROTO_TBOOLEAN) then
      u ← decode_values (Z.to_nat sz) (λ i, get_idx mem (stream + i)) 0 a u; Ret (0, u)
    else if bool_decide (a_type a = SPROTO_TSTRING ∨ a_type a = SPROTO_TSTRUCT) then
      decode_array_object (Z.to_nat sz) mem stream (i32 sz) 1 a u
    else Ret (-1, u).

(** a field with its data at [currentdata] *)
Definition decode_data (mem : list Z) (currentdata : Z) (f : field) (a : sproto_arg) (u : U) : outcome (Z * U) :=
  if bool_decide (Z.land (f_type f) SPROTO_TARRAY ≠ 0) then decode_array mem currentdata a u
  else if bool_decide (f_type f = SPROTO_TDOUBLE ∨ f_type f = SPROTO_TINTEGER) then
    sz ← todword mem currentdata;
    if bool_decide (sz = SIZEOF_INT32) then
      v ← todword mem (currentdata + SIZEOF_LENGTH); Ret (0, snd (give_int a (expand64 v) u))
    else if bool_decide (sz ≠ SIZEOF_INT64) then Ret (-1, u)
    else v ← int64_at mem (currentdata + SIZEOF_LENGTH); Ret (0, snd (give_int a v u))
  else if bool_decide (f_type f = SPROTO_TSTRING ∨ f_type f = SPROTO_TSTRUCT) then
    sz ← todword mem currentdata;
    '(r, u) ← give_bytes mem (currentdata + SIZEOF_LENGTH) (i32 sz) a u;
    Ret (if bool_decide (r ≠ 0) then -1 else 0, u)
  else Ret (-1, u).

(** [k] field words are left, the next at [stream]; the data left is at
    [datastream], [size] bytes *)
Fixpoint decode_fields (k : nat) (st : sproto_type) (mem : list Z) (stream datastream size tag : Z) (u : U) :
    outcome (option Z * U) :=
  match k with
  | O => Ret (Some size, u)
  | S k =>
      value ← toword mem stream;
      let stream := stream + SIZEOF_FIELD in
      let tag := tag + 1 in
      if bool_decide (Z.land value 1 ≠ 0) then decode_fields k st mem stream datastream size (tag + value ÷ 2) u
      else
        let value := value ÷ 2 - 1 in
        let currentdata := datastream in
        let field_ datastream size :=
          f ← findtag st tag;
          match f with
          | None => decode_fields k st mem stream datastream size tag u
          | Some f =>
              let a := arg_of f (Z.land (f_type f) (Z.lnot SPROTO_TARRAY)) in
              '(r, u) ← (if bool_decide (value < 0) then decode_data mem currentdata f a u
                         else if bool_decide (f_type f ≠ SPROTO_TINTEGER ∧ f_type f ≠ SPROTO_TBOOLEAN) then Ret (-1, u)
                         else Ret (0, snd (give_int a value u)));
              if bool_decide (r ≠ 0) then Ret (None, u) else decode_fields k st mem stream datastream size tag u
          end in
        if bool_decide (value < 0) then
          if bool_decide (size < SIZEOF_LENGTH) then Ret (None, u)
          else
            sz ← todword mem datastream;
            (* the sum and the comparison are unsigned *)
            if bool_decide (u32 size < u32 (sz + SIZEOF_LENGTH)) then Ret (None, u)
            else field_ (datastream + u32 (sz + SIZEOF_LENGTH)) (i32 (size - u32 (sz + SIZEOF_LENGTH)))
        else field_ datastream size
  end.

(** the bytes read, or -1 *)
Definition sproto_decode (st : sproto_type) (mem : list Z) (u : U) : outcome (Z * U) :=
  let size := Zlen mem in
  if bool_decide (size < SIZEOF_HEADER) then Ret (-1, u)
  else
    fn ← toword mem 0;
    let stream := SIZEOF_HEADER in
    let rest := size - SIZEOF_HEADER in
    if bool_decide (rest < fn * SIZEOF_FIELD) then Ret (-1, u)
    else
      '(r, u) ← decode_fields (Z.to_nat fn) st mem stream (stream + fn * SIZEOF_FIELD) (rest - fn * SIZEOF_FIELD) (-1) u;
      Ret (match r with Some left_ => size - left_ | None => -1 end, u).
End decode.

(** ** Encoding *)

(** [memcpy] to [ptr] of the low bytes of a number *)
Definition put_le (n : nat) (b : list Z) (ptr v : Z) : outcome (list Z) := put_bytes b ptr (le_bytes n v).

(** the size of the data with its own four bytes *)
Definition fill_size (b : list Z) (data sz : Z) : outcome (Z * list Z) :=
  b ← put_le 4 b data sz; Ret (sz + SIZEOF_LENGTH, b).
(** the sizes are compared as [size_t] *)
Definition encode_integer (v : Z) (b : list Z) (data size : Z) : outcome (Z * list Z) :=
  if bool_decide (u64 size < SIZEOF_LENGTH + 4) then Ret (-1, b)
  else b ← put_le 4 b (data + 4) v; fill_size b data 4.
Definition encode_uint64 (v : Z) (b : list Z) (data size : Z) : outcome (Z * list Z) :=
  if bool_decide (u64 size < SIZEOF_LENGTH + 8) then Ret (-1, b)
  else b ← put_le 8 b (data + 4) v; fill_size b data 8.

Section encode.
(** the callback: its answer, and the bytes it writes to the place of the value *)
Context {U : Type} (cb : sproto_arg → U → Z * list Z * U).

(** a callback that writes more than it may *)
Definition ask (a : sproto_arg) (n : Z) (u : U) : outcome (Z * list Z * U) :=
  let '(sz, w, u) := cb (with_value ANull n a) u in
  if bool_decide (Zlen w ≤ n) then Ret (sz, w, u) else Undef.
(** a number of [n] bytes from the union; a callback that answers their number has
    written them *)
Definition from_union (n : nat) (w : list Z) : Z := le_value (take n w).

Definition encode_object (a : sproto_arg) (b : list Z) (data size : Z) (u : U) : outcome (Z * list Z * U) :=
  if bool_decide (size < SIZEOF_LENGTH) then Ret (-1, b, u)
  else
    '(sz, w, u) ← ask a (size - SIZEOF_LENGTH) u;
    b ← put_bytes b (data + SIZEOF_LENGTH) w;
    if bool_decide (sz < 0) then Ret (if bool_decide (sz = SPROTO_CB_NIL) then 0 else -1, b, u)
    else
      cassert (bool_decide (sz ≤ size - SIZEOF_LENGTH));;
      '(n, b) ← fill_size b data sz; Ret (n, b, u).

(** the upper half of a number widened to eight bytes *)
Definition uint32_to_uint64 (negative : bool) (b : list Z) (buffer : Z) : outcome (list Z) :=
  put_bytes b (buffer + 4) (replicate 4 (if negative then 0xff else 0)).

(** the numbers written so far, from the last one on, get eight bytes *)
Fixpoint widen (k : nat) (b : list Z) (header : Z) : outcome (list Z) :=
  match k with
  | O => Ret b
  | S i =>
      let i' := Z.of_nat i in
      w ← slice b (header + 1 + i' * SIZEOF_INT32) SIZEOF_INT32;
      b ← put_bytes b (header + 1 + i' * SIZEOF_INT64) w;
      x ← get_idx b (header + 1 + i' * SIZEOF_INT64 + 3);
      b ← uint32_to_uint64 (bool_decide (Z.land x 0x80 ≠ 0)) b (header + 1 + i' * SIZEOF_INT64);
      widen i b header
  end.

(** NULL, no array, or the end of what was written *)
Inductive array_end : Type := ArrayNull | NoArray | ArrayEnd (buffer : Z).

Fixpoint integer_loop (fuel : nat) (a : sproto_arg) (b : list Z) (header buffer size intlen index : Z) (u : U) :
    outcome (array_end * list Z * U) :=
  match fuel with
  | O => NoFuel
  | S fuel =>
      '(sz, w, u) ← ask (at_index index a) 8 u;
      if bool_decide (sz ≤ 0) then
        if bool_decide (sz = SPROTO_CB_NIL) then
          if bool_decide (buffer = header + 1) then Ret (ArrayEnd header, b, u)
          else b ← set_idx b header (u8 intlen); Ret (ArrayEnd buffer, b, u)
        else if bool_decide (sz = SPROTO_CB_NOARRAY) then
          if bool_decide (buffer = header + 1) then Ret (NoArray, b, u)
          else b ← set_idx b header (u8 intlen); Ret (NoArray, b, u)
        else Ret (ArrayNull, b, u)
      else if bool_decide (size < SIZEOF_INT64) then Ret (ArrayNull, b, u)
      else if bool_decide (sz = SIZEOF_INT32) then
        let v := from_union 4 w in
        b ← put_le 4 b buffer v;
        b ← (if bool_decide (intlen = SIZEOF_INT64) then uint32_to_uint64 (bool_decide (Z.land v 0x80000000 ≠ 0)) b buffer
             else Ret b);
        integer_loop fuel a b header (buffer + intlen) (size - intlen) intlen (index + 1) u
      else if bool_decide (sz ≠ SIZEOF_INT64) then Ret (ArrayNull, b, u)
      else
        let v := from_union 8 w in
        if bool_decide (intlen = SIZEOF_INT32) then
          let size := size - (index - 1) * SIZEOF_INT32 in
          if bool_decide (size < SIZEOF_INT64) then Ret (ArrayNull, b, u)
          else
            let buffer := buffer + (index - 1) * SIZEOF_INT32 in
            b ← widen (Z.to_nat (index - 1)) b header;
            b ← put_le 8 b buffer v;
            integer_loop fuel a b header (buffer + SIZEOF_INT64) (size - SIZEOF_INT64) SIZEOF_INT64 (index + 1) u
        else
          b ← put_le 8 b buffer v;
          integer_loop fuel a b header (buffer + intlen) (size - intlen) intlen (index + 1) u
  end.
(** every number takes four bytes of the room or more *)
Definition encode_integer_array (a : sproto_arg) (b : list Z) (buffer size : Z) (u : U) : outcome (array_end * list Z * U) :=
  if bool_decide (size < 1) then Ret (ArrayNull, b, u)
  else integer_loop (S (Z.to_nat size)) a b buffer (buffer + 1) (size - 1) SIZEOF_INT32 1 u.

Fixpoint boolean_loop (fuel : nat) (a : sproto_arg) (b : list Z) (buffer size index : Z) (u : U) :
    outcome (array_end * list Z * U) :=
  match fuel with
  | O => NoFuel
  | S fuel =>
      '(sz, w, u) ← ask (at_index index a) 4 u;
      if bool_decide (sz < 0) then
        Ret (if bool_decide (sz = SPROTO_CB_NIL) then ArrayEnd buffer
             else if bool_decide (sz = SPROTO_CB_NOARRAY) then NoArray else ArrayNull, b, u)
      else if bool_decide (size < 1) then Ret (ArrayNull, b, u)
      else
        b ← set_idx b buffer (if bool_decide (le_value w = 0) then 0 else 1);
        boolean_loop fuel a b (buffer + 1) (size - 1) (index + 1) u
  end.

Fixpoint object_loop (fuel : nat) (a : sproto_arg) (b : list Z) (buffer size index : Z) (u : U) :
    outcome (array_end * list Z * U) :=
  match fuel with
  | O => NoFuel
  | S fuel =>
      if bool_decide (size < SIZEOF_LENGTH) then Ret (ArrayNull, b, u)
      else
        let size := size - SIZEOF_LENGTH in
        '(sz, w, u) ← ask (at_index index a) size u;
        b ← put_bytes b (buffer + SIZEOF_LENGTH) w;
        if bool_decide (sz < 0) then
          Ret (if bool_decide (sz = SPROTO_CB_NIL) then ArrayEnd buffer
               else if bool_decide (sz = SPROTO_CB_NOARRAY) then NoArray else ArrayNull, b, u)
        else
          b ← put_le 4 b buffer sz;
          object_loop fuel a b (buffer + SIZEOF_LENGTH + sz) (size - sz) (index + 1) u
  end.

Definition encode_array (a : sproto_arg) (b : list Z) (data size : Z) (u : U) : outcome (Z * list Z * U) :=
  if bool_decide (size < SIZEOF_LENGTH) then Ret (-1, b, u)
  else
    let size := size - SIZEOF_LENGTH in
    let buffer := data + SIZEOF_LENGTH in
    '(r, b, u) ←
      (if bool_decide (a_type a = SPROTO_TDOUBLE ∨ a_type a = SPROTO_TINTEGER) then encode_integer_array a b buffer size u
       else if bool_decide (a_type a = SPROTO_TBOOLEAN) then boolean_loop (S (S (Z.to_nat size))) a b buffer size 1 u
       else object_loop (S (S (Z.to_nat size))) a b buffer size 1 u);
    match r with
    | ArrayNull => Ret (-1, b, u)
    | NoArray => Ret (0, b, u)
    | ArrayEnd buffer => '(n, b) ← fill_size b data (buffer - (data + SIZEOF_LENGTH)); Ret (n, b, u)
    end.

(** what a field came to: nothing, the end with a result, or a size and a value
    for its word *)
Inductive encoded : Type := EncSkip | EncReturn (r : Z) | EncField (sz value : Z).

Definition encode_number (a : sproto_arg) (b : list Z) (data size : Z) (u : U) : outcome (encoded * list Z * U) :=
  '(sz, w, u) ← ask a 8 u;
  if bool_decide (sz < 0) then
    Ret (if bool_decide (sz = SPROTO_CB_NIL) then EncSkip
         else if bool_decide (sz = SPROTO_CB_NOARRAY) then EncReturn 0 else EncReturn (-1), b, u)
  else if bool_decide (sz = SIZEOF_INT32) then
    let v := from_union 4 w in
    if bool_decide (v < 0x7fff) then Ret (EncField 2 ((v + 1) * 2), b, u)
    else '(n, b) ← encode_integer v b data size; Ret (EncField n 0, b, u)
  else if bool_decide (sz = SIZEOF_INT64) then
    '(n, b) ← encode_uint64 (from_union 8 w) b data size; Ret (EncField n 0, b, u)
  else Ret (EncReturn (-1), b, u).

Definition encode_field (f : field) (b : list Z) (data size : Z) (u : U) : outcome (encoded * list Z * U) :=
  let type := f_type f in
  if bool_decide (Z.land type SPROTO_TARRAY ≠ 0) then
    '(n, b, u) ← encode_array (arg_of f (Z.land type (Z.lnot SPROTO_TARRAY))) b data size u; Ret (EncField n 0, b, u)
  else
    let a := arg_of f type in
    if bool_decide (type = SPROTO_TDOUBLE ∨ type = SPROTO_TINTEGER ∨ type = SPROTO_TBOOLEAN) then
      encode_number a b data size u
    else if bool_decide (type = SPROTO_TSTRUCT ∨ type = SPROTO_TSTRING) then
      '(n, b, u) ← encode_object a b data size u; Ret (EncField n 0, b, u)
    else Ret (EncField (-1) 0, b, u).

(** the word of a field, after a word for the tags skipped; [None]: too many *)
Definition put_record (b : list Z) (index lasttag tag value : Z) : outcome (option (Z * list Z)) :=
  let record := SIZEOF_HEADER + SIZEOF_FIELD * index in
  let skip := tag - lasttag - 1 in
  if bool_decide (0 < skip) then
    let skip := (skip - 1) * 2 + 1 in
    if bool_decide (0xffff < skip) then Ret None
    else
      b ← put_le 2 b record skip;
      b ← put_le 2 b (record + SIZEOF_FIELD) value;
      Ret (Some (index + 2, b))
  else b ← put_le 2 b record value; Ret (Some (index + 1, b)).

(** the buffer starts at 0; the answer, or the number of words and the end of the data *)
Fixpoint encode_fields (fs : list field) (b : list Z) (data size index lasttag : Z) (u : U) :
    outcome ((Z + Z * Z) * list Z * U) :=
  match fs with
  | [] => Ret (inr (index, data), b, u)
  | f :: fs =>
      '(e, b, u) ← encode_field f b data size u;
      match e with
      | EncSkip => encode_fields fs b data size index lasttag u
      | EncReturn r => Ret (inl r, b, u)
      | EncField sz value =>
          if bool_decide (sz < 0) then Ret (inl (-1), b, u)
          else if bool_decide (0 < sz) then
            let moved := if bool_decide (value = 0) then sz else 0 in
            r ← put_record b index lasttag (f_tag f) value;
            match r with
            | None => Ret (inl (-1), b, u)
            | Some (index, b) => encode_fields fs b (data + moved) (size - moved) index (f_tag f) u
            end
          else encode_fields fs b data size index lasttag u
      end
  end.

Definition sproto_encode (st : sproto_type) (b : list Z) (u : U) : outcome (Z * list Z * U) :=
  let size := Zlen b in
  let header_sz := SIZEOF_HEADER + st_maxn st * SIZEOF_FIELD in
  if bool_decide (size < header_sz) then Ret (-1, b, u)
  else
    '(r, b, u) ← encode_fields (st_f st) b header_sz (size - header_sz) 0 (-1) u;
    match r with
    | inl r => Ret (r, b, u)
    | inr (index, data) =>
        b ← put_le 2 b 0 index;
        let datasz := data - header_sz in
        b ← (if bool_decide (index ≠ st_maxn st) then
               bs ← slice b header_sz datasz; put_bytes b (SIZEOF_HEADER + index * SIZEOF_FIELD) bs
             else Ret b);
        Ret (SIZEOF_HEADER + index * SIZEOF_FIELD + datasz, b, u)
    end.
End encode.

(** ** Words of bytes *)
Lemma four_places (l : list Z) off : Forall byte l → 0 ≤ off → off + 4 ≤ Zlen l →
  ∃ a b c d, take 4 (drop (Z.to_nat off) l) = [a; b; c; d] ∧ byte a ∧ byte b ∧ byte c ∧ byte d ∧
    get_idx l off = Ret a ∧ get_idx l (off + 1) = Ret b ∧ get_idx l (off + 2) = Ret c ∧ get_idx l (off + 3) = Ret d.
Proof.
  intros Hb Ho Hl. unfold Zlen in Hl.
  destruct (drop (Z.to_nat off) l) as [|a [|b [|c [|d r]]]] eqn:E;
    try (apply (f_equal length) in E; rewrite length_drop in E; cbn in E; lia).
  assert (Forall byte (drop (Z.to_nat off) l)) as Hd by (by apply Forall_drop). rewrite E in Hd.
  repeat match goal with H : Forall byte (_ :: _) |- _ => apply Forall_cons in H as [? H] end.
  assert (∀ k : nat, l !! (Z.to_nat off + k)%nat = (a :: b :: c :: d :: r) !! k) as Hk
    by (intros k; by rewrite <- E, lookup_drop).
  exists a, b, c, d. split; [done|]. do 4 (split; [done|]).
  repeat split; apply get_idx_Ret; (split; [lia|]).
  - rewrite <- (Nat.add_0_r (Z.to_nat off)). by rewrite (Hk 0%nat).
  - replace (Z.to_nat (off + 1)) with (Z.to_nat off + 1)%nat by lia. by rewrite (Hk 1%nat).
  - replace (Z.to_nat (off + 2)) with (Z.to_nat off + 2)%nat by lia. by rewrite (Hk 2%nat).
  - replace (Z.to_nat (off + 3)) with (Z.to_nat off + 3)%nat by lia. by rewrite (Hk 3%nat).
Qed.

Lemma todword_ok l off : Forall byte l → 0 ≤ off → off + 4 ≤ Zlen l →
  todword l off = Ret (le_value (take 4 (drop (Z.to_nat off) l))) ∧ 0 ≤ le_value (take 4 (drop (Z.to_nat off) l)) < 2 ^ 32.
Proof.
  intros Hb Ho Hl. destruct (four_places l off Hb Ho Hl) as (a & b & c & d & E & Ha & Hb' & Hc & Hd & Ea & Eb & Ec & Ed).
  unfold todword. rewrite Ea, Eb, Ec, Ed, E. cbn [mbind outcome_bind le_value]. unfold byte in *.
  rewrite !Z.shiftl_mul_pow2 by lia. rewrite (lor_high a b 8), (lor_high _ c 16), (lor_high _ d 24) by lia.
  split; [f_equal|]; lia.
Qed.

Lemma toword_ok l off : Forall byte l → 0 ≤ off → off + 2 ≤ Zlen l →
  toword l off = Ret (le_value (take 2 (drop (Z.to_nat off) l))) ∧ 0 ≤ le_value (take 2 (drop (Z.to_nat off) l)) < 2 ^ 16.
Proof.
  intros Hb Ho Hl. unfold Zlen in Hl.
  destruct (drop (Z.to_nat off) l) as [|a [|b r]] eqn:E;
    try (apply (f_equal length) in E; rewrite length_drop in E; cbn in E; lia).
  assert (Forall byte (drop (Z.to_nat off) l)) as Hd by (by apply Forall_drop). rewrite E in Hd.
  apply Forall_cons in Hd as [Ha Hd]. apply Forall_cons in Hd as [Hb' _].
  assert (∀ k : nat, l !! (Z.to_nat off + k)%nat = (a :: b :: r) !! k) as Hk by (intros k; by rewrite <- E, lookup_drop).
  assert (get_idx l off = Ret a) as Ea.
  { apply get_idx_Ret. split; [lia|]. rewrite <- (Nat.add_0_r (Z.to_nat off)). by rewrite (Hk 0%nat). }
  assert (get_idx l (off + 1) = Ret b) as Eb.
  { apply get_idx_Ret. split; [lia|]. replace (Z.to_nat (off + 1)) with (Z.to_nat off + 1)%nat by lia. by rewrite (Hk 1%nat). }
  change (take 2 (a :: b :: r)) with [a; b]. unfold toword. rewrite Ea, Eb. cbn [mbind outcome_bind le_value]. unfold byte in *.
  rewrite Z.shiftl_mul_pow2, (lor_high a b 8) by lia. split; [f_equal|]; lia.
Qed.

(** ** The search for a tag *)
Lemma findtag_loop_answers fs tag : ∀ fuel b e, 0 ≤ b → e ≤ Zlen fs → e - b < Z.of_nat fuel →
  ∃ r, findtag_loop fuel fs tag b e = Ret r.
Proof.
  induction fuel as [|fuel IH]; intros b e Hb He Hf; cbn [findtag_loop]; case_bool_decide as Hbe; try (by eexists); [lia|].
  assert (b ≤ (b + e) ÷ 2 < e) as Hm.
  { rewrite Z.quot_div_nonneg by lia. pose proof (Z.div_mod (b + e) 2 ltac:(lia)). pose proof (mod_range (b + e) 2 ltac:(lia)). lia. }
  destruct (get_idx_ok fs ((b + e) ÷ 2)) as (f & -> & _); [lia|]. cbn [mbind outcome_bind].
  case_bool_decide; [by eexists|]. case_bool_decide; apply IH; lia.
Qed.
Lemma findtag_answers st tag : ∃ r, findtag st tag = Ret r.
Proof.
  unfold findtag. case_bool_decide.
  - case_bool_decide as Ht; [by eexists|]. unfold st_n in Ht.
    destruct (get_idx_ok (st_f st) (tag - st_base st)) as (f & -> & _); [lia|]. by eexists.
  - apply findtag_loop_answers; [lia|unfold st_n; lia|unfold st_n, Zlen; lia].
Qed.

(** ** The sizes that are read

    A field whose word is zero has its data, a size and as many bytes, behind the
    data of the fields before it. *)
Fixpoint zero_words (k : nat) (mem : list Z) (stream : Z) : nat :=
  match k with
  | O => O
  | S k => ((match toword mem stream with Ret v => if bool_decide (v = 0%Z) then 1 else 0 | _ => 0 end) +
            zero_words k mem (stream + 2))%nat
  end.
(** one of the next [k] sizes wraps when its own four bytes are added to it *)
Fixpoint sizes_wrap (k : nat) (mem : list Z) (pos : Z) : bool :=
  match k with
  | O => false
  | S k =>
      match todword mem pos with
      | Ret n => if bool_decide (2 ^ 32 - 4 ≤ n) then true else sizes_wrap k mem (pos + 4 + n)
      | _ => false
      end
  end.
Definition wrapping_size (mem : list Z) : bool :=
  match toword mem 0 with
  | Ret fn => sizes_wrap (zero_words (Z.to_nat fn) mem 2) mem (2 + fn * 2)
  | _ => false
  end.

(** ** Decoding stays inside *)
Section safe.
Context {U : Type} (cb : sproto_arg → U → Z * U).
Context (mem : list Z) (Hbytes : Forall byte mem) (Hlen : Zlen mem ≤ INT_MAX).
Implicit Types (a : sproto_arg) (u : U).

Lemma give_bytes_answers off n a u : 0 ≤ off → 0 ≤ n → off + n ≤ Zlen mem → ∃ r, give_bytes cb mem off n a u = Ret r.
Proof. intros. unfold give_bytes. destruct (slice_ok mem off n) as [-> _]; [done..|]. by eexists. Qed.

Lemma decode_array_object_answers a : ∀ fuel stream sz index u, 0 ≤ stream → stream + sz ≤ Zlen mem → sz ≤ Z.of_nat fuel →
  ∃ r u', decode_array_object cb fuel mem stream sz index a u = Ret (r, u').
Proof.
  induction fuel as [|fuel IH]; intros stream sz index u Hs Hz Hf; cbn [decode_array_object];
    case_bool_decide as Hpos; try (by do 2 eexists); [lia|].
  unfold SIZEOF_LENGTH in *. case_bool_decide; [by do 2 eexists|].
  destruct (todword_ok mem stream Hbytes) as [-> Hv]; [lia..|]. cbn [mbind outcome_bind].
  set (hsz := le_value _) in *. case_bool_decide as Hh; [by do 2 eexists|].
  unfold INT_MAX, u32 in *. rewrite Z.mod_small in Hh by lia. rewrite i32_small by lia.
  destruct (give_bytes_answers (stream + 4) hsz (at_index index a) u) as ([r u'] & ->); [lia..|]. cbn [mbind outcome_bind].
  case_bool_decide; [by do 2 eexists|]. apply IH; lia.
Qed.

Lemma decode_values_answers read a k : ∀ i u, (∀ j, i ≤ j < i + Z.of_nat k → ∃ v, read j = Ret v) →
  ∃ u', decode_values cb k read i a u = Ret u'.
Proof.
  induction k as [|k IH]; intros i u Hr; [by eexists|]. cbn [decode_values].
  destruct (Hr i ltac:(lia)) as [v ->]. cbn [mbind outcome_bind]. apply IH. intros j Hj. apply Hr. lia.
Qed.

Lemma int64_answers off : 0 ≤ off → off + 8 ≤ Zlen mem → ∃ v, int64_at mem off = Ret v.
Proof.
  intros. unfold int64_at, SIZEOF_INT32. destruct (todword_ok mem off Hbytes) as [-> _]; [lia..|]. cbn [mbind outcome_bind].
  destruct (todword_ok mem (off + 4) Hbytes) as [-> _]; [lia..|]. by eexists.
Qed.

(** [n]: the size of the data, which is there *)
Lemma decode_array_answers stream a u n : todword mem stream = Ret n → 0 ≤ stream → 0 ≤ n → stream + 4 + n ≤ Zlen mem →
  ∃ r u', decode_array cb mem stream a u = Ret (r, u').
Proof.
  intros En Hs Hn Hl. unfold decode_array, SIZEOF_LENGTH, SIZEOF_INT32, SIZEOF_INT64, INT_MAX in *. rewrite En. cbn [mbind outcome_bind].
  case_bool_decide; [by do 2 eexists|]. case_bool_decide; [|case_bool_decide; [|case_bool_decide; [|by do 2 eexists]]].
  - destruct (get_idx_ok mem (stream + 4)) as (len & -> & _); [lia|]. cbn [mbind outcome_bind].
    case_bool_decide; [|case_bool_decide; [|by do 2 eexists]].
    + case_bool_decide as Hm; [by do 2 eexists|]. edestruct decode_values_answers as [u' ->]; [|by do 2 eexists].
      intros j Hj. pose proof (Z.div_mod (n - 1) 4 ltac:(lia)).
      rewrite Z2Nat.id in Hj by (apply Z.div_pos; lia).
      destruct (todword_ok mem (stream + 4 + 1 + j * 4) Hbytes) as [-> _]; [lia..|]. by eexists.
    + case_bool_decide as Hm; [by do 2 eexists|]. edestruct decode_values_answers as [u' ->]; [|by do 2 eexists].
      intros j Hj. pose proof (Z.div_mod (n - 1) 8 ltac:(lia)).
      rewrite Z2Nat.id in Hj by (apply Z.div_pos; lia). apply int64_answers; lia.
  - edestruct decode_values_answers as [u' ->]; [|by do 2 eexists]. intros j Hj. rewrite Z2Nat.id in Hj by lia.
    destruct (get_idx_ok mem (stream + 4 + j)) as (v & -> & _); [lia|]. by eexists.
  - rewrite i32_small by lia. apply decode_array_object_answers; lia.
Qed.

Lemma decode_data_answers pos f a u n : todword mem pos = Ret n → 0 ≤ pos → 0 ≤ n → pos + 4 + n ≤ Zlen mem →
  ∃ r u', decode_data cb mem pos f a u = Ret (r, u').
Proof.
  intros En Hs Hn Hl. unfold decode_data, SIZEOF_LENGTH, SIZEOF_INT32, SIZEOF_INT64, INT_MAX in *.
  case_bool_decide; [by eapply decode_array_answers|]. case_bool_decide.
  - rewrite En. cbn [mbind outcome_bind]. case_bool_decide.
    + destruct (todword_ok mem (pos + 4) Hbytes) as [-> _]; [lia..|]. by do 2 eexists.
    + case_bool_decide; [by do 2 eexists|]. destruct (int64_answers (pos + 4)) as [v ->]; [lia..|]. by do 2 eexists.
  - case_bool_decide; [|by do 2 eexists]. rewrite En. cbn [mbind outcome_bind]. rewrite i32_small by lia.
    destruct (give_bytes_answers (pos + 4) n a u) as ([r u'] & ->); [lia..|]. by do 2 eexists.
Qed.

Lemma decode_fields_answers st k : ∀ stream pos size tag u, 0 ≤ stream → stream + 2 * Z.of_nat k ≤ Zlen mem →
  0 ≤ pos → 0 ≤ size → pos + size = Zlen mem → sizes_wrap (zero_words k mem stream) mem pos = false →
  ∃ r u', decode_fields cb k st mem stream pos size tag u = Ret (r, u') ∧ ∀ n, r = Some n → 0 ≤ n ≤ size.
Proof.
  induction k as [|k IH]; intros stream pos size tag u Hs Hk Hp Hz Hl Hw.
  { do 2 eexists. split; [done|]. intros n [= <-]. lia. }
  cbn [decode_fields zero_words] in Hw |- *. unfold SIZEOF_FIELD, SIZEOF_LENGTH.
  destruct (toword_ok mem stream Hbytes) as [Ev Hv]; [lia..|]. rewrite Ev in Hw |- *. clear Ev. cbn [mbind outcome_bind].
  set (w := le_value _) in *.
  assert (∀ pos' size' (m : outcome (Z * U)) f,
    0 ≤ pos' → 0 ≤ size' ≤ size → pos' + size' = Zlen mem → sizes_wrap (zero_words k mem (stream + 2)) mem pos' = false →
    (∃ r u', m = Ret (r, u')) →
    ∃ r u', ('(r, u) ← m; if bool_decide (r ≠ 0) then Ret (None, u)
      else decode_fields cb k st mem (stream + 2) pos' size' f u) = Ret (r, u') ∧ ∀ n, r = Some n → 0 ≤ n ≤ size) as Hgo.
  { clear Hw. intros pos' size' m f H1 H2 H3 H4 (r & u' & ->). cbn [mbind outcome_bind]. case_bool_decide; [by do 2 eexists|].
    destruct (IH (stream + 2) pos' size' f u') as (r' & u'' & E & Hn); [lia..|done|]. exists r', u''. split; [done|].
    intros n En. specialize (Hn n En). lia. }
  assert (∀ pos' size' t, 0 ≤ pos' → 0 ≤ size' ≤ size → pos' + size' = Zlen mem →
    sizes_wrap (zero_words k mem (stream + 2)) mem pos' = false →
    ∃ r u', decode_fields cb k st mem (stream + 2) pos' size' t u = Ret (r, u') ∧ ∀ n, r = Some n → 0 ≤ n ≤ size) as Hskip.
  { intros pos' size' t H1 H2 H3 H4. apply (Hgo pos' size' (Ret (0, u)) t H1 H2 H3 H4). by do 2 eexists. }
  destruct (bool_decide (w = 0)) eqn:Ezero; [apply bool_decide_eq_true in Ezero|apply bool_decide_eq_false in Ezero].
  - rewrite Ezero. rewrite (bool_decide_eq_false_2 (Z.land 0 1 ≠ 0)) by (by intros []). change (0 ÷ 2 - 1) with (-1).
    rewrite bool_decide_eq_true_2 by lia.
    destruct (bool_decide (size < 4)) eqn:Esz; [by do 2 eexists|]. apply bool_decide_eq_false in Esz. cbn [Nat.add sizes_wrap] in Hw.
    destruct (todword_ok mem pos Hbytes) as [Ew Hx]; [lia..|]. revert Ew Hx.
    generalize (le_value (take 4 (drop (Z.to_nat pos) mem))) as sz. intros sz Ew Hx. rewrite Ew in Hw |- *. cbn [mbind outcome_bind].
    destruct (bool_decide (2 ^ 32 - 4 ≤ sz)) eqn:Hbig; [done|]. apply bool_decide_eq_false in Hbig. unfold u32, INT_MAX in *. rewrite !(Z.mod_small) by lia.
    case_bool_decide; [by do 2 eexists|]. rewrite i32_small by lia. replace (pos + 4 + sz) with (pos + (sz + 4)) in Hw by lia.
    destruct (findtag_answers st (tag + 1)) as [[f|] Ef]; rewrite Ef; cbn [mbind outcome_bind].
    + apply Hgo; [lia..|done|]. eapply decode_data_answers; [exact Ew|lia..].
    + apply Hskip; [lia..|done].
  - cbn [Nat.add] in Hw. case_bool_decide as Hodd; [apply Hskip; [lia..|done]|].
    assert (0 ≤ w ÷ 2 - 1) as Hpos.
    { rewrite Z.quot_div_nonneg by lia. rewrite (land_mask _ 1) in Hodd by lia. change (2 ^ 1) with 2 in Hodd.
      pose proof (Z.div_mod w 2 ltac:(lia)). destruct (decide (w mod 2 = 0)); [lia|by destruct Hodd]. }
    rewrite bool_decide_eq_false_2 by lia. destruct (findtag_answers st (tag + 1)) as [[f|] Ef]; rewrite Ef; cbn [mbind outcome_bind].
    + apply Hgo; [lia..|done|]. case_bool_decide; by do 2 eexists.
    + apply Hskip; [lia..|done].
Qed.
End safe.

(** message types with one field, a string or a number *)
Definition one_string : sproto_type := SprotoType 0 1 [Field 0 SPROTO_TSTRING "name" None (-1) 0].
Definition one_integer : sproto_type := SprotoType 0 1 [Field 0 SPROTO_TINTEGER "id" None (-1) 0].

(** C35. Decoding any bytes as a message of any type, with any callback, ends and
    reads only these bytes, with the number of bytes read or -1, unless the size
    in front of the data of a field is one of the four that wrap to 0..3 when its
    own four bytes are added; with such a size the data of a field of 4 GB is
    taken to be there. Only the sizes in front of the data of the fields count,
    each found behind the data of the field before it: the data itself, a number
    -1 for example, may be any. *)
Theorem sproto_decode_safe {U} (cb : sproto_arg → U → Z * U) st mem u : Forall byte mem → Zlen mem ≤ INT_MAX →
  (wrapping_size mem = false →
   ∃ r u', sproto_decode cb st mem u = Ret (r, u') ∧ (r = -1 ∨ 0 ≤ r ≤ Zlen mem)) ∧
  sproto_decode cb one_string [1; 0; 0; 0; 0xfe; 0xff; 0xff; 0xff] u = Undef.
Proof.
  intros Hb Hl. split; [|reflexivity]. intros Hsizes.
  unfold sproto_decode, SIZEOF_HEADER, SIZEOF_FIELD. case_bool_decide; [by do 2 eexists; split; [done|left]|].
  destruct (toword_ok mem 0 Hb) as [Ev Hv]; [lia..|]. unfold wrapping_size in Hsizes. rewrite Ev in Hsizes |- *. clear Ev.
  cbn [mbind outcome_bind]. set (fn := le_value _) in *.
  case_bool_decide; [by do 2 eexists; split; [done|left]|].
  destruct (decode_fields_answers cb mem Hb Hl st (Z.to_nat fn) 2 (2 + fn * 2) (Zlen mem - 2 - fn * 2) (-1) u)
    as (r & u' & -> & Hn); [lia..|done|]. cbn [mbind outcome_bind]. do 2 eexists. split; [done|].
  destruct r as [n|]; [right|by left]. specialize (Hn n eq_refl). lia.
Qed.

(** a message that holds the number -1, whose bytes are those of a size that wraps *)
Lemma sproto_decode_safe_witness :
  wrapping_size [1; 0; 0; 0; 0xfe; 0xff; 0xff; 0xff] = true ∧
  ∃ r u', sproto_decode (λ a u, (0, a_value a :: u)) one_integer [1; 0; 0; 0; 4; 0; 0; 0; 0xff; 0xff; 0xff; 0xff] [] = Ret (r, u').
Proof.
  split; [reflexivity|].
  destruct (sproto_decode_safe (λ a u, (0, a_value a :: u)) one_integer [1; 0; 0; 0; 4; 0; 0; 0; 0xff; 0xff; 0xff; 0xff] []) as [H _];
    [apply (bool_decide_unpack _); vm_compute; exact I|discriminate|].
  destruct H as (r & u' & E & _); [reflexivity|].
  exists r, u'. exact E.
Defined.

(** ** Parts of a buffer *)
Definition sub (b : list Z) (off n : Z) : list Z := take (Z.to_nat n) (drop (Z.to_nat off) b).

Lemma sub_app b off n m : 0 ≤ off → 0 ≤ n → 0 ≤ m → sub b off (n + m) = sub b off n ++ sub b (off + n) m.
Proof.
  intros. unfold sub. rewrite !Z2Nat.inj_add by lia. rewrite <- drop_drop. by rewrite take_take_drop.
Qed.
Lemma sub_zero b off : sub b off 0 = [].
Proof. unfold sub. by rewrite take_0. Qed.
Lemma Zlen_sub b off n : 0 ≤ off → 0 ≤ n → off + n ≤ Zlen b → Zlen (sub b off n) = n.
Proof. unfold sub, Zlen. intros. rewrite length_take, length_drop. lia. Qed.
Lemma sub_at (pre q post : list Z) : sub (pre ++ q ++ post) (Zlen pre) (Zlen q) = q.
Proof. unfold sub, Zlen. rewrite !Nat2Z.id, drop_app_length. by rewrite take_app_length. Qed.

Lemma put_sub b p w : 0 ≤ p → p + Zlen w ≤ Zlen b →
  ∃ b', put_bytes b p w = Ret b' ∧ Zlen b' = Zlen b ∧ sub b' p (Zlen w) = w ∧
    ∀ off n, 0 ≤ off → 0 ≤ n → off + n ≤ p ∨ p + Zlen w ≤ off → sub b' off n = sub b off n.
Proof.
  intros Hp Hl. exists (copy_at b p w). destruct (copy_at_spec b p w Hp Hl) as [E1 _].
  unfold put_bytes. rewrite bool_decide_eq_true_2 by done. split; [done|]. split; [done|].
  assert (length (take (Z.to_nat p) b) = Z.to_nat p) as Ht by (rewrite length_take; unfold Zlen in *; lia).
  pose proof (Zlen_nonneg w). split.
  - unfold sub, copy_at, Zlen. rewrite Nat2Z.id. rewrite drop_app_ge, Ht, Nat.sub_diag, drop_0 by lia. by rewrite take_app_length.
  - intros off n Ho Hn [Hlo|Hhi]; unfold sub, copy_at.
    + rewrite drop_app_le, take_app_le by (rewrite ?length_drop; lia).
      rewrite skipn_firstn_comm, take_take. f_equal. lia.
    + rewrite app_assoc, drop_app_ge by (rewrite length_app, Ht; unfold Zlen in *; lia). rewrite drop_drop. do 2 f_equal.
      rewrite length_app, Ht. unfold Zlen in *. lia.
Qed.

Lemma put_nil b p : 0 ≤ p ≤ Zlen b → put_bytes b p [] = Ret b.
Proof.
  intros Hp. unfold put_bytes. rewrite bool_decide_eq_true_2 by (change (Zlen []) with 0; lia).
  unfold copy_at. cbn [length app]. by rewrite Nat.add_0_r, take_drop.
Qed.

Lemma put_le_sub k b p v : 0 ≤ p → p + Z.of_nat k ≤ Zlen b →
  ∃ b', put_le k b p v = Ret b' ∧ Zlen b' = Zlen b ∧ sub b' p (Z.of_nat k) = le_bytes k v ∧
    ∀ off n, 0 ≤ off → 0 ≤ n → off + n ≤ p ∨ p + Z.of_nat k ≤ off → sub b' off n = sub b off n.
Proof.
  intros Hp Hl. unfold put_le. destruct (put_sub b p (le_bytes k v)) as (b' & E); [done|by rewrite Zlen_le_bytes|].
  rewrite Zlen_le_bytes in E. by exists b'.
Qed.

Lemma toword_sub mem off v : Forall byte mem → 0 ≤ off → off + 2 ≤ Zlen mem → sub mem off 2 = le_bytes 2 v → 0 ≤ v < 2 ^ 16 →
  toword mem off = Ret v.
Proof.
  intros Hb Ho Hl E Hv. destruct (toword_ok mem off Hb Ho Hl) as [-> _]. unfold sub in E. change (Z.to_nat 2) with 2%nat in E.
  by rewrite E, le_small.
Qed.
Lemma todword_sub mem off v : Forall byte mem → 0 ≤ off → off + 4 ≤ Zlen mem → sub mem off 4 = le_bytes 4 v → 0 ≤ v < 2 ^ 32 →
  todword mem off = Ret v.
Proof.
  intros Hb Ho Hl E Hv. destruct (todword_ok mem off Hb Ho Hl) as [-> _]. unfold sub in E. change (Z.to_nat 4) with 4%nat in E.
  by rewrite E, le_small.
Qed.

Lemma le_bytes_app n m v : le_bytes (n + m) v = le_bytes n v ++ le_bytes m (v / 256 ^ Z.of_nat n).
Proof.
  revert v. induction n as [|n IH]; intros v; cbn [Nat.add le_bytes app].
  - by rewrite Z.div_1_r.
  - rewrite IH, Nat2Z.inj_succ, Z.pow_succ_r by lia. by rewrite Z.div_div by lia.
Qed.

Lemma sub_sub b p n off k : 0 ≤ p → 0 ≤ off → 0 ≤ k → off + k ≤ n → sub (sub b p n) off k = sub b (p + off) k.
Proof.
  intros. unfold sub. rewrite skipn_firstn_comm, take_take, drop_drop. f_equal; [lia|]. f_equal. lia.
Qed.
Lemma get_sub b p n i x : 0 ≤ p → 0 ≤ i < n → sub b p n !! Z.to_nat i = Some x → get_idx b (p + i) = Ret x.
Proof.
  intros Hp Hi E. apply get_idx_Ret. split; [lia|]. unfold sub in E. rewrite lookup_take_lt, lookup_drop in E by lia.
  rewrite <- E. f_equal. lia.
Qed.

(** a buffer changed inside a range only *)
Definition same_outside (b b' : list Z) (p n : Z) : Prop :=
  ∀ off k, 0 ≤ off → 0 ≤ k → off + k ≤ p ∨ p + n ≤ off → sub b' off k = sub b off k.

Lemma same_trans b1 b2 b3 p n : same_outside b1 b2 p n → same_outside b2 b3 p n → same_outside b1 b3 p n.
Proof. intros H1 H2 off k Ho Hk Hd. by rewrite H2, H1. Qed.
Lemma same_wide b b' p n p' n' : same_outside b b' p n → p' ≤ p → p + n ≤ p' + n' → same_outside b b' p' n'.
Proof. intros H Hp Hn off k Ho Hk Hd. apply H; lia. Qed.

(** bytes written at a place, and nothing else changed *)
Definition wrote (b b' : list Z) (p : Z) (w : list Z) : Prop :=
  Zlen b' = Zlen b ∧ sub b' p (Zlen w) = w ∧ same_outside b b' p (Zlen w).
Lemma wrote_nil b p : wrote b b p [].
Proof. split; [done|]. split; [apply sub_zero|]. by intros off k _ _ _. Qed.
Lemma wrote_fits b b' p w : 0 ≤ p ≤ Zlen b → wrote b b' p w → p + Zlen w ≤ Zlen b.
Proof.
  intros Hp (Hl & Hs & _). apply (f_equal length) in Hs. unfold sub, Zlen in *. rewrite length_take, length_drop in Hs. lia.
Qed.
Lemma wrote_nothing b b' p : 0 ≤ p ≤ Zlen b → wrote b b' p [] → b' = b.
Proof.
  intros Hp (Hl & _ & Ho). unfold Zlen in *.
  pose proof (Ho 0 p ltac:(lia) ltac:(lia) ltac:(lia)) as E1. pose proof (Ho p (Z.of_nat (length b) - p) ltac:(lia) ltac:(lia) ltac:(cbn; lia)) as E2.
  unfold sub in E1, E2. change (Z.to_nat 0) with 0%nat in E1. rewrite !drop_0 in E1.
  rewrite !take_ge in E2 by (rewrite length_drop; lia). by rewrite <- (take_drop (Z.to_nat p) b'), E1, E2, take_drop.
Qed.
Lemma wrote_put b p w : 0 ≤ p → p + Zlen w ≤ Zlen b → ∃ b', put_bytes b p w = Ret b' ∧ wrote b b' p w.
Proof. intros Hp Hl. destruct (put_sub b p w Hp Hl) as (b' & E & E1 & E2 & E3). by exists b'. Qed.
Lemma wrote_le k b p v : 0 ≤ p → p + Z.of_nat k ≤ Zlen b → ∃ b', put_le k b p v = Ret b' ∧ wrote b b' p (le_bytes k v).
Proof. intros Hp Hl. unfold put_le. apply wrote_put; [done|]. by rewrite Zlen_le_bytes. Qed.
(** the next bytes, and the bytes in front *)
Lemma wrote_app b b1 b2 p w1 w2 : 0 ≤ p → wrote b b1 p w1 → wrote b1 b2 (p + Zlen w1) w2 → wrote b b2 p (w1 ++ w2).
Proof.
  intros Hp (L1 & S1 & O1) (L2 & S2 & O2). pose proof (Zlen_nonneg w1). pose proof (Zlen_nonneg w2). split; [lia|].
  rewrite Zlen_app. split.
  - rewrite sub_app, S2, O2 by lia. by rewrite S1.
  - apply (same_trans _ b1); eapply same_wide; try done; lia.
Qed.
Lemma wrote_front b b1 b2 p w1 w2 : 0 ≤ p → wrote b b1 (p + Zlen w1) w2 → wrote b1 b2 p w1 → wrote b b2 p (w1 ++ w2).
Proof.
  intros Hp (L1 & S1 & O1) (L2 & S2 & O2). pose proof (Zlen_nonneg w1). pose proof (Zlen_nonneg w2). split; [lia|].
  rewrite Zlen_app. split.
  - rewrite sub_app, S2 by lia. f_equal. by rewrite O2 by lia.
  - apply (same_trans _ b1); eapply same_wide; try done; lia.
Qed.
Lemma wrote_over b b1 b2 p w1 w2 : wrote b b1 p w1 → wrote b1 b2 p w2 → Zlen w1 ≤ Zlen w2 → wrote b b2 p w2.
Proof.
  intros (L1 & S1 & O1) (L2 & S2 & O2) Hw. split; [lia|]. split; [done|].
  apply (same_trans _ b1); [|done]. eapply same_wide; [exact O1|lia..].
Qed.
Lemma set_idx_put (b : list Z) p x : 0 ≤ p < Zlen b → set_idx b p x = put_bytes b p [x].
Proof.
  intros Hp. rewrite set_idx_ok by done. unfold put_bytes. rewrite bool_decide_eq_true_2 by (change (Zlen [x]) with 1; lia).
  f_equal. unfold copy_at. unfold Zlen in Hp. rewrite (insert_take_drop b (Z.to_nat p) x) by lia. cbn [app length].
  by replace (Z.to_nat p + 1)%nat with (S (Z.to_nat p)) by lia.
Qed.
Lemma wrote_set b p x : 0 ≤ p < Zlen b → ∃ b', set_idx b p x = Ret b' ∧ wrote b b' p [x].
Proof. intros Hp. rewrite set_idx_put by done. apply wrote_put; [lia|]. change (Zlen [x]) with 1. lia. Qed.

(** bytes of elements, one after the other *)
Section flat.
Context {A : Type} (f : A → list Z).
Fixpoint flat (l : list A) : list Z := match l with [] => [] | x :: l => f x ++ flat l end.
Lemma flat_app l k : flat (l ++ k) = flat l ++ flat k.
Proof. induction l as [|x l IH]; [done|]. cbn [app flat]. by rewrite IH, app_assoc. Qed.
Lemma flat_snoc l x : flat (l ++ [x]) = flat l ++ f x.
Proof. rewrite flat_app. cbn [flat]. by rewrite app_nil_r. Qed.
Context (w : Z) (Hw : ∀ x, Zlen (f x) = w).
Lemma Zlen_flat l : Zlen (flat l) = w * Zlen l.
Proof. induction l as [|x l IH]; cbn [flat]; [by rewrite Zlen_nil, (Zlen_nil (A := A)), Z.mul_0_r|]. rewrite Zlen_app, Zlen_cons, Hw, IH. nia. Qed.
Lemma sub_flat mem p l i x : 0 ≤ p → 0 ≤ w → sub mem p (w * Zlen l) = flat l → l !! i = Some x →
  sub mem (p + w * Z.of_nat i) w = f x.
Proof.
  intros Hp Hw0 E Hi. pose proof (lookup_lt_Some _ _ _ Hi) as Hlt.
  assert (Zlen (take i l) = Z.of_nat i) as Ei by (unfold Zlen; rewrite length_take; lia).
  rewrite <- (sub_sub mem p (w * Zlen l)) by (unfold Zlen; nia). rewrite E, <- (take_drop_middle _ _ _ Hi), flat_app. cbn [flat].
  pose proof (sub_at (flat (take i l)) (f x) (flat (drop (S i) l))) as S. by rewrite Zlen_flat, Hw, Ei in S.
Qed.
End flat.

(** ** The numbers of arrays *)

(** a number that a sender gives in four bytes or in eight *)
Inductive num : Type := N32 (v : Z) | N64 (v : Z).
Definition num_ok (n : num) : Prop := match n with N32 v => 0 ≤ v < 2 ^ 32 | N64 v => 0 ≤ v < 2 ^ 64 end.
#[global] Instance num_ok_dec n : Decision (num_ok n).
Proof. destruct n; cbn; apply _. Defined.
Definition wide (n : num) : bool := match n with N32 _ => false | N64 _ => true end.
Definition num_low (n : num) : Z := match n with N32 v | N64 v => v end.
Definition num64 (n : num) : Z := match n with N32 v => expand64 v | N64 v => v end.
(** what the sender writes, and the two forms in the message *)
Definition num_bytes (n : num) : list Z := match n with N32 v => le_bytes 4 v | N64 v => le_bytes 8 v end.
Definition num4 (n : num) : list Z := le_bytes 4 (num_low n).
Definition num8 (n : num) : list Z := le_bytes 8 (num64 n).
Definition ints_data (l : list num) : list Z :=
  match l with [] => [] | _ => if existsb wide l then 8 :: flat num8 l else 4 :: flat num4 l end.

Lemma Zlen_num4 n : Zlen (num4 n) = 4.
Proof. apply Zlen_le_bytes. Qed.
Lemma Zlen_num8 n : Zlen (num8 n) = 8.
Proof. apply Zlen_le_bytes. Qed.

Lemma sign_bit v k : 0 ≤ k → 0 ≤ v < 2 ^ (k + 1) → Z.land v (2 ^ k) ≠ 0 ↔ 2 ^ k ≤ v.
Proof.
  intros Hk Hv. rewrite Z.pow_add_r in Hv by lia. change (2 ^ 1) with 2 in Hv.
  assert (0 < 2 ^ k) by lia.
  assert (Z.land v (2 ^ k) = 2 ^ k * (v / 2 ^ k)) as ->.
  { apply Z.bits_inj'. intros j Hj. rewrite Z.land_spec, Z.pow2_bits_eqb, (Z.mul_comm (2 ^ k)), <- Z.shiftl_mul_pow2, Z.shiftl_spec by lia.
    rewrite <- Z.shiftr_div_pow2 by lia. destruct (Z.eqb_spec k j) as [<-|Hn].
    - rewrite Z.sub_diag, andb_true_r, Z.shiftr_spec by lia. done.
    - rewrite andb_false_r. symmetry. destruct (decide (j < k)); [apply Z.testbit_neg_r; lia|].
      rewrite Z.shiftr_spec by lia. rewrite Z.sub_add. apply Z.testbit_false; [lia|].
      rewrite Z.div_small; [done|]. split; [lia|]. assert (2 ^ (k + 1) ≤ 2 ^ j) by (apply Z.pow_le_mono_r; lia).
      rewrite Z.pow_add_r in * by lia. lia. }
  pose proof (Z.div_mod v (2 ^ k) ltac:(lia)). pose proof (mod_range v (2 ^ k) ltac:(lia)).
  assert (0 ≤ v / 2 ^ k) by (apply Z.div_pos; lia). assert (v / 2 ^ k < 2) by (apply Z.div_lt_upper_bound; lia).
  assert (v / 2 ^ k = 0 ∨ v / 2 ^ k = 1) as [E|E] by lia; rewrite E in *; lia.
Qed.

Lemma expand64_eq v : 0 ≤ v < 2 ^ 32 → expand64 v = if bool_decide (2 ^ 31 ≤ v) then v + (2 ^ 32 - 1) * 2 ^ 32 else v.
Proof.
  intros Hv. unfold expand64. pose proof (sign_bit v 31 ltac:(lia) ltac:(change (31 + 1) with 32; lia)) as S. change 0x80000000 with (2 ^ 31).
  destruct (bool_decide (Z.land v (2 ^ 31) ≠ 0)) eqn:E; [apply bool_decide_eq_true in E|apply bool_decide_eq_false in E].
  - rewrite bool_decide_eq_true_2 by tauto. change (u64 (Z.shiftl (u64 (-1)) 32)) with ((2 ^ 32 - 1) * 2 ^ 32). apply lor_high; lia.
  - rewrite bool_decide_eq_false_2 by tauto. done.
Qed.
Lemma num64_range n : num_ok n → 0 ≤ num64 n < 2 ^ 64.
Proof. destruct n as [v|v]; cbn [num_ok num64]; intros Hv; [|done]. rewrite expand64_eq by done. case_bool_decide; lia. Qed.

Lemma num8_narrow v : 0 ≤ v < 2 ^ 32 → num8 (N32 v) = le_bytes 4 v ++ replicate 4 (if bool_decide (2 ^ 31 ≤ v) then 0xff else 0).
Proof.
  intros Hv. unfold num8. cbn [num64]. rewrite expand64_eq by done. change 8%nat with (4 + 4)%nat.
  rewrite le_bytes_app. change (256 ^ Z.of_nat 4) with (2 ^ 32). case_bool_decide.
  - rewrite Z.div_add, (Z.div_small v) by lia. change (le_bytes 4 (0 + (2 ^ 32 - 1))) with (replicate 4 255). f_equal.
    rewrite <- (le_value_bytes (le_bytes 4 (v + _))), <- (le_value_bytes (le_bytes 4 v)) by apply le_bytes_ok.
    rewrite !le_bytes_length, !le_roundtrip. change (256 ^ Z.of_nat 4) with (2 ^ 32). by rewrite Z.mod_add by lia.
  - by rewrite (Z.div_small v) by lia.
Qed.

(** a number of four bytes gets its upper half *)
Lemma wrote_narrow b p v : 0 ≤ p → p + 8 ≤ Zlen b → 0 ≤ v < 2 ^ 32 → 
  ∀ b1, wrote b b1 p (le_bytes 4 v) →
  ∃ b2, uint32_to_uint64 (bool_decide (2 ^ 31 ≤ v)) b1 p = Ret b2 ∧ wrote b b2 p (num8 (N32 v)).
Proof.
  intros Hp Hl Hv b1 H1. pose proof (proj1 H1) as L1. unfold uint32_to_uint64.
  destruct (wrote_put b1 (p + 4) (replicate 4 (if bool_decide (2 ^ 31 ≤ v) then 0xff else 0))) as (b2 & E & H2);
    [lia|change (p + 4 + 4 ≤ Zlen b1); lia|]. exists b2. split; [exact E|]. rewrite num8_narrow by done.
  eapply wrote_app; [done|exact H1|exact H2].
Qed.
Lemma top_byte v b p : 0 ≤ p → 0 ≤ v < 2 ^ 32 → sub b p 4 = le_bytes 4 v →
  ∃ x, get_idx b (p + 3) = Ret x ∧ bool_decide (Z.land x 0x80 ≠ 0) = bool_decide (2 ^ 31 ≤ v).
Proof.
  intros Hp Hv E. exists (v / 256 / 256 / 256 mod 256). split.
  - apply (get_sub b p 4 3); [done|lia|]. by rewrite E.
  - rewrite !Z.div_div by lia. change (256 * (256 * 256)) with (2 ^ 24). change (256 * 256 * 256) with (2 ^ 24).
    assert (0 ≤ v / 2 ^ 24 < 256) by (split; [apply Z.div_pos; lia|apply Z.div_lt_upper_bound; lia]).
    rewrite Z.mod_small by lia. apply bool_decide_ext. change 0x80 with (2 ^ 7). rewrite (sign_bit (v / 2 ^ 24) 7 ltac:(lia) ltac:(change (2 ^ (7 + 1)) with 256; lia)).
    pose proof (Z.div_mod v (2 ^ 24) ltac:(lia)). pose proof (mod_range v (2 ^ 24) ltac:(lia)). lia.
Qed.

(** ** The loops of the encoder *)
Lemma ints_wide l : existsb wide l = true → ints_data l = 8 :: flat num8 l ∧ Zlen (ints_data l) = 1 + 8 * Zlen l.
Proof.
  intros Hw. destruct l as [|n l]; [done|]. unfold ints_data. rewrite Hw, Zlen_cons, (Zlen_flat num8 8) by apply Zlen_num8. done.
Qed.
Lemma ints_narrow l : l ≠ [] → existsb wide l = false → ints_data l = 4 :: flat num4 l ∧ Zlen (ints_data l) = 1 + 4 * Zlen l.
Proof.
  intros Hn Hw. destruct l as [|n l]; [done|]. unfold ints_data. rewrite Hw, Zlen_cons, (Zlen_flat num4 4) by apply Zlen_num4. done.
Qed.
Lemma existsb_narrow l : existsb wide l = false ↔ Forall (λ n, wide n = false) l.
Proof.
  induction l as [|n l IH]; cbn [existsb]; [by split|]. rewrite orb_false_iff, IH, Forall_cons. done.
Qed.

Section array_loops.
Context {U : Type} (cb : sproto_arg → U → Z * list Z * U) (a : sproto_arg) (u : U).
Context (b0 : list Z) (start : Z) (Hstart : 0 ≤ start).

(** the element that is next *)
Lemma lookup_todo {A} (l pre todo : list A) : l = pre ++ todo → l !! Z.to_nat (Zlen pre) = head todo.
Proof. intros ->. unfold Zlen. rewrite Nat2Z.id, lookup_app_r, Nat.sub_diag by done. by destruct todo. Qed.

Section ints.
Context (l : list num) (Hl : Forall num_ok l).
Context (Hask : ∀ i, 0 ≤ i → ask cb (at_index (i + 1) a) 8 u =
  Ret (match l !! Z.to_nat i with Some n => (Zlen (num_bytes n), num_bytes n, u) | None => (SPROTO_CB_NIL, [], u) end)).

Definition ints_end (r : outcome (array_end * list Z * U)) : Prop :=
  ∃ e b', r = Ret (e, b', u) ∧
    ((e = ArrayEnd (start + Zlen (ints_data l)) ∧ wrote b0 b' start (ints_data l)) ∨
     (e = ArrayNull ∧ Zlen b0 - start < Zlen (ints_data l) + 4)).

Lemma from_union_bytes k v : 0 ≤ v < 256 ^ Z.of_nat k → from_union k (le_bytes k v) = v.
Proof. intros Hv. unfold from_union. rewrite take_ge by (rewrite le_bytes_length; lia). by apply le_small. Qed.

(** the end of the loop: the first byte *)
Lemma wrote_header b k w : Zlen (k :: w) ≤ Zlen b0 - start → wrote b0 b (start + 1) w → 0 ≤ k < 256 →
  ∃ b', set_idx b start (u8 k) = Ret b' ∧ wrote b0 b' start (k :: w).
Proof.
  intros Hf Hb Hk. rewrite Zlen_cons in Hf. pose proof (Zlen_nonneg w). pose proof (proj1 Hb).
  destruct (wrote_set b start (u8 k)) as (b' & E & H'); [lia|]. exists b'. split; [done|].
  unfold u8 in *. rewrite Z.mod_small in H' by (change (2 ^ 8) with 256; lia). by apply (wrote_front b0 b b' start [k] w).
Qed.

(** all numbers in eight bytes *)
Lemma loop_wide todo : ∀ fuel pre b size, l = pre ++ todo → existsb wide l = true → pre ≠ [] →
  wrote b0 b (start + 1) (flat num8 pre) → start + 1 + 8 * Zlen pre + size = Zlen b0 → 0 ≤ size < Z.of_nat fuel →
  ints_end (integer_loop cb fuel a b start (start + 1 + 8 * Zlen pre) size 8 (Zlen pre + 1) u).
Proof.
  induction todo as [|n todo IH]; intros [|fuel] pre b size El Hw Hd Hb Hsz Hf; try lia;
    pose proof (Zlen_nonneg pre); cbn [integer_loop]; rewrite (Hask (Zlen pre)), (lookup_todo l pre _ El) by done; cbn [head mbind outcome_bind];
    unfold SPROTO_CB_NIL, SIZEOF_INT64, SIZEOF_INT32; destruct (ints_wide l Hw) as [Ed Ez]; pose proof (f_equal Zlen El) as Ezl; rewrite Zlen_app in Ezl.
  - rewrite app_nil_r in El. subst pre. assert (Zlen l ≠ 0) by (by intros ?%Zlen_0).
    rewrite (bool_decide_eq_true_2 (-2 ≤ 0)), (bool_decide_eq_true_2 (-2 = -2)), bool_decide_eq_false_2 by lia.
    destruct (wrote_header b 8 (flat num8 l)) as (b' & E & H'); [rewrite <- Ed; lia|done|lia|]. rewrite E. cbn [mbind outcome_bind].
    do 2 eexists. split; [done|]. left. rewrite Ed at 2. split; [f_equal; lia|done].
  - rewrite Zlen_cons in Ezl. pose proof (Zlen_nonneg todo). assert (num_ok n) as Hn by (rewrite El in Hl; apply Forall_app in Hl as [_ Hl]; by inversion Hl).
    assert (Zlen (num_bytes n) = if wide n then 8 else 4) as En by (destruct n; apply Zlen_le_bytes).
    rewrite bool_decide_eq_false_2 by (rewrite En; destruct (wide n); lia).
    case_bool_decide as Hs; [do 2 eexists; split; [done|]; right; split; [done|lia]|]. rewrite En.
    assert (∀ b1, wrote b b1 (start + 1 + 8 * Zlen pre) (num8 n) →
      ints_end (integer_loop cb fuel a b1 start (start + 1 + 8 * Zlen pre + 8) (size - 8) 8 (Zlen pre + 1 + 1) u)) as Hgo.
    { intros b1 W1. assert (Zlen (pre ++ [n]) = Zlen pre + 1) as Es by (rewrite Zlen_app; done).
      replace (start + 1 + 8 * Zlen pre + 8) with (start + 1 + 8 * Zlen (pre ++ [n])) by lia. rewrite <- Es.
      apply IH; [by rewrite <- app_assoc|done|by destruct pre| |lia|lia].
      rewrite flat_snoc. eapply wrote_app; [lia|exact Hb|]. by rewrite (Zlen_flat num8 8) by apply Zlen_num8. }
    pose proof (proj1 Hb). destruct n as [v|v]; cbn [wide num_bytes num_ok] in *.
    + rewrite bool_decide_eq_true_2 by done. rewrite from_union_bytes by (change (256 ^ Z.of_nat 4) with (2 ^ 32); lia).
      destruct (wrote_le 4 b (start + 1 + 8 * Zlen pre) v) as (b1 & -> & W1); [lia|lia|]. cbn [mbind outcome_bind].
      rewrite (bool_decide_eq_true_2 (8 = 8)) by done. change 0x80000000 with (2 ^ 31).
      rewrite (bool_decide_ext _ _ (sign_bit v 31 ltac:(lia) ltac:(change (31 + 1) with 32; lia))).
      destruct (wrote_narrow b (start + 1 + 8 * Zlen pre) v ltac:(lia) ltac:(lia) Hn b1 W1) as (b2 & -> & W2). cbn [mbind outcome_bind]. by apply Hgo.
    + rewrite (bool_decide_eq_false_2 (8 = 4)), (bool_decide_eq_false_2 (8 ≠ 8)) by lia.
      rewrite from_union_bytes by (change (256 ^ Z.of_nat 8) with (2 ^ 64); lia).
      destruct (wrote_le 8 b (start + 1 + 8 * Zlen pre) v) as (b1 & -> & W1); [lia|lia|]. cbn [mbind outcome_bind]. by apply Hgo.
Qed.

(** the numbers written so far get eight bytes *)
Lemma widen_ok pre : ∀ b, Forall num_ok pre → Forall (λ n, wide n = false) pre → start + 1 + 8 * Zlen pre ≤ Zlen b →
  sub b (start + 1) (4 * Zlen pre) = flat num4 pre →
  ∃ b', widen (length pre) b start = Ret b' ∧ wrote b b' (start + 1) (flat num8 pre).
Proof.
  induction pre as [|n pre IH] using rev_ind; intros b Hok Hn Hfit Hs; [exists b; split; [done|apply wrote_nil]|].
  apply Forall_app in Hok as [Hok Hok1]. apply Forall_app in Hn as [Hn Hn1].
  destruct n as [v|v]; [|by inversion Hn1]. assert (0 ≤ v < 2 ^ 32) as Hv by (by inversion Hok1). pose proof (Zlen_nonneg pre).
  rewrite length_app, Nat.add_1_r. cbn [widen]. unfold SIZEOF_INT32, SIZEOF_INT64. fold (Zlen pre).
  assert (Zlen (pre ++ [N32 v]) = Zlen pre + 1) as Es by (by rewrite Zlen_app). rewrite Es in *.
  replace (4 * (Zlen pre + 1)) with (4 * Zlen pre + 4) in Hs by lia. rewrite sub_app, flat_snoc in Hs by lia.
  apply app_inj_1 in Hs as [Hs1 Hs2];
    [|apply Nat2Z.inj; fold (Zlen (flat num4 pre)); rewrite (Zlen_flat num4 4) by apply Zlen_num4; apply (Zlen_sub b (start + 1)); lia].
  change (num4 (N32 v)) with (le_bytes 4 v) in Hs2.
  replace (start + 1 + Zlen pre * 4) with (start + 1 + 4 * Zlen pre) by lia.
  replace (start + 1 + Zlen pre * 8) with (start + 1 + 8 * Zlen pre) by lia.
  destruct (slice_ok b (start + 1 + 4 * Zlen pre) 4) as [-> _]; [lia..|]. unfold sub in Hs2 at 1. rewrite Hs2. cbn [mbind outcome_bind].
  destruct (wrote_put b (start + 1 + 8 * Zlen pre) (le_bytes 4 v)) as (b1 & -> & W1); [lia|rewrite Zlen_le_bytes; lia|]. cbn [mbind outcome_bind].
  destruct (top_byte v b1 (start + 1 + 8 * Zlen pre)) as (x & -> & Ex); [lia|done|apply (proj1 (proj2 W1))|]. cbn [mbind outcome_bind]. rewrite Ex.
  destruct (wrote_narrow b (start + 1 + 8 * Zlen pre) v ltac:(lia) ltac:(lia) Hv b1 W1) as (b2 & -> & W2). cbn [mbind outcome_bind].
  pose proof (proj1 W2). destruct (IH b2) as (b' & E & W); [done|done|lia| |].
  { rewrite (proj2 (proj2 W2)) by lia. done. }
  exists b'. split; [exact E|]. rewrite flat_snoc. eapply wrote_front; [lia| |exact W].
  by rewrite (Zlen_flat num8 8) by apply Zlen_num8.
Qed.

(** all numbers so far in four bytes *)
Lemma loop_narrow todo : ∀ fuel pre b size, l = pre ++ todo → Forall (λ n, wide n = false) pre →
  wrote b0 b (start + 1) (flat num4 pre) → start + 1 + 4 * Zlen pre + size = Zlen b0 → 0 ≤ size < Z.of_nat fuel →
  ints_end (integer_loop cb fuel a b start (start + 1 + 4 * Zlen pre) size 4 (Zlen pre + 1) u).
Proof.
  induction todo as [|n todo IH]; intros [|fuel] pre b size El Hw Hb Hsz Hf; try lia;
    pose proof (Zlen_nonneg pre) as Hpre; cbn [integer_loop]; rewrite (Hask (Zlen pre)), (lookup_todo l pre _ El) by done; cbn [head mbind outcome_bind];
    unfold SPROTO_CB_NIL, SIZEOF_INT64, SIZEOF_INT32; pose proof (f_equal Zlen El) as Ezl; rewrite Zlen_app in Ezl.
  - rewrite app_nil_r in El. subst pre. rewrite (bool_decide_eq_true_2 (-2 ≤ 0)), (bool_decide_eq_true_2 (-2 = -2)) by lia. case_bool_decide as Hz.
    + assert (l = []) as El by (apply Zlen_0; lia). rewrite El in Hb. do 2 eexists. split; [done|]. left. rewrite El. cbn [ints_data]. rewrite Zlen_nil, Z.add_0_r.
      split; [done|]. apply wrote_nothing in Hb as ->; [apply wrote_nil|lia].
    + destruct (ints_narrow l) as [Ed Ez]; [intros El; apply Hz; rewrite El; change (Zlen []) with 0; lia|by apply existsb_narrow|].
      destruct (wrote_header b 4 (flat num4 l)) as (b' & E & H'); [rewrite <- Ed; lia|done|lia|]. rewrite E. cbn [mbind outcome_bind].
      do 2 eexists. split; [done|]. left. rewrite Ed at 2. split; [f_equal; lia|done].
  - rewrite Zlen_cons in Ezl. pose proof (Zlen_nonneg todo).
    assert (Forall num_ok pre ∧ num_ok n) as [Hpok Hn] by (rewrite El in Hl; apply Forall_app in Hl as [? Hl]; split; [done|by inversion Hl]).
    assert (Zlen (num_bytes n) = if wide n then 8 else 4) as En by (destruct n; apply Zlen_le_bytes).
    assert (Zlen (pre ++ [n]) = Zlen pre + 1) as Es by (by rewrite Zlen_app).
    assert (1 + 4 * Zlen l ≤ Zlen (ints_data l)) as Hmin.
    { destruct (existsb wide l) eqn:Ex; [apply ints_wide in Ex; lia|]. apply ints_narrow in Ex; [lia|]. rewrite El. by destruct pre. }
    rewrite bool_decide_eq_false_2 by (rewrite En; destruct (wide n); lia).
    case_bool_decide as Hs; [do 2 eexists; split; [done|]; right; split; [done|lia]|]. rewrite En.
    pose proof (proj1 Hb) as Lb. destruct n as [v|v]; cbn [wide num_bytes num_ok] in *.
    + rewrite bool_decide_eq_true_2 by done. rewrite from_union_bytes by (change (256 ^ Z.of_nat 4) with (2 ^ 32); lia).
      destruct (wrote_le 4 b (start + 1 + 4 * Zlen pre) v) as (b1 & -> & W1); [lia|lia|]. cbn [mbind outcome_bind].
      rewrite (bool_decide_eq_false_2 (4 = 8)) by lia. cbn [mbind outcome_bind].
      replace (start + 1 + 4 * Zlen pre + 4) with (start + 1 + 4 * Zlen (pre ++ [N32 v])) by lia. rewrite <- Es.
      apply IH; [by rewrite <- app_assoc|by apply Forall_app; split; [|constructor]| |lia|lia].
      rewrite flat_snoc. eapply wrote_app; [lia|exact Hb|]. by rewrite (Zlen_flat num4 4) by apply Zlen_num4.
    + rewrite (bool_decide_eq_false_2 (8 = 4)), (bool_decide_eq_false_2 (8 ≠ 8)), (bool_decide_eq_true_2 (4 = 4)) by lia.
      assert (existsb wide l = true) as Hwide by (rewrite El, existsb_app; cbn [existsb wide]; apply orb_true_r).
      destruct (ints_wide l Hwide) as [Ed Ez].
      rewrite from_union_bytes by (change (256 ^ Z.of_nat 8) with (2 ^ 64); lia).
      case_bool_decide; [do 2 eexists; split; [done|]; right; split; [done|lia]|].
      replace (Z.to_nat (Zlen pre + 1 - 1)) with (length pre) by (unfold Zlen; lia).
      destruct (widen_ok pre b) as (b1 & -> & W1); [done|done|lia| |]; cbn [mbind outcome_bind].
      { rewrite <- (Zlen_flat num4 4) by apply Zlen_num4. apply (proj1 (proj2 Hb)). }
      pose proof (proj1 W1). replace (start + 1 + 4 * Zlen pre + (Zlen pre + 1 - 1) * 4) with (start + 1 + 8 * Zlen pre) by lia.
      destruct (wrote_le 8 b1 (start + 1 + 8 * Zlen pre) v) as (b2 & -> & W2); [lia|lia|]. cbn [mbind outcome_bind].
      replace (start + 1 + 8 * Zlen pre + 8) with (start + 1 + 8 * Zlen (pre ++ [N64 v])) by lia. rewrite <- Es.
      apply (loop_wide todo); [by rewrite <- app_assoc|done|by destruct pre| |lia|lia].
      rewrite flat_snoc. eapply wrote_app; [lia| |by rewrite (Zlen_flat num8 8) by apply Zlen_num8].
      eapply wrote_over; [exact Hb|exact W1|]. rewrite (Zlen_flat num4 4), (Zlen_flat num8 8) by (apply Zlen_num4 || apply Zlen_num8). lia.
Qed.

Lemma encode_ints_ok size : 0 ≤ size → start + size = Zlen b0 → ints_end (encode_integer_array cb a b0 start size u).
Proof.
  intros Hs Hb. unfold encode_integer_array. case_bool_decide.
  - do 2 eexists. split; [done|]. right. split; [done|]. pose proof (Zlen_nonneg (ints_data l)). lia.
  - unfold SIZEOF_INT32. pose proof (loop_narrow l (S (Z.to_nat size)) [] b0 (size - 1)) as E. change (Zlen []) with 0 in E.
    change (4 * 0) with 0 in E. rewrite Z.add_0_r in E. apply E; [done|constructor|apply wrote_nil|lia|lia].
Qed.
End ints.

(** arrays of booleans *)
Definition bit_of (x : bool) : list Z := [if x then 1 else 0].
Definition bools_end (l : list bool) (r : outcome (array_end * list Z * U)) : Prop :=
  ∃ e b', r = Ret (e, b', u) ∧
    ((e = ArrayEnd (start + Zlen l) ∧ wrote b0 b' start (flat bit_of l)) ∨ (e = ArrayNull ∧ Zlen b0 - start < Zlen l)).

Lemma boolean_loop_ok l todo
  (Hask : ∀ i, 0 ≤ i → ask cb (at_index (i + 1) a) 4 u =
    Ret (match l !! Z.to_nat i with Some x => (4, le_bytes 4 (if x : bool then 1 else 0), u) | None => (SPROTO_CB_NIL, [], u) end)) :
  ∀ fuel pre b size, l = pre ++ todo → wrote b0 b start (flat bit_of pre) → start + Zlen pre + size = Zlen b0 →
  0 ≤ size < Z.of_nat fuel → bools_end l (boolean_loop cb fuel a b (start + Zlen pre) size (Zlen pre + 1) u).
Proof.
  induction todo as [|x todo IH]; intros [|fuel] pre b size El Hb Hsz Hf; try lia;
    pose proof (Zlen_nonneg pre) as Hpre; cbn [boolean_loop]; rewrite (Hask (Zlen pre)), (lookup_todo l pre _ El) by done; cbn [head mbind outcome_bind];
    unfold SPROTO_CB_NIL; pose proof (f_equal Zlen El) as Ezl; rewrite Zlen_app in Ezl.
  - rewrite app_nil_r in El. subst pre. rewrite (bool_decide_eq_true_2 (-2 < 0)), (bool_decide_eq_true_2 (-2 = -2)) by lia.
    do 2 eexists. split; [done|]. by left.
  - rewrite Zlen_cons in Ezl. pose proof (Zlen_nonneg todo). rewrite bool_decide_eq_false_2 by lia.
    case_bool_decide as Hs; [do 2 eexists; split; [done|]; right; split; [done|lia]|]. pose proof (proj1 Hb).
    assert ((if bool_decide (le_value (le_bytes 4 (if x then 1 else 0)) = 0) then 0 else 1) = (if x then 1 else 0)) as -> by (by destruct x).
    destruct (wrote_set b (start + Zlen pre) (if x then 1 else 0)) as (b1 & -> & W1); [lia|]. cbn [mbind outcome_bind].
    assert (Zlen (pre ++ [x]) = Zlen pre + 1) as Es by (by rewrite Zlen_app).
    replace (start + Zlen pre + 1) with (start + Zlen (pre ++ [x])) by lia. rewrite <- Es.
    apply IH; [by rewrite <- app_assoc| |lia|lia]. rewrite flat_snoc. eapply wrote_app; [lia|exact Hb|].
    rewrite (Zlen_flat bit_of 1) by done. by rewrite Z.mul_1_l.
Qed.

(** arrays of strings and structures: each with its size *)
Definition object_bytes (bs : list Z) : list Z := le_bytes 4 (Zlen bs) ++ bs.
Lemma Zlen_object bs : Zlen (object_bytes bs) = 4 + Zlen bs.
Proof. unfold object_bytes. by rewrite Zlen_app, Zlen_le_bytes. Qed.
Definition objects_end (l : list (list Z)) (r : outcome (array_end * list Z * U)) : Prop :=
  ∃ e b', r = Ret (e, b', u) ∧
    ((e = ArrayEnd (start + Zlen (flat object_bytes l)) ∧ wrote b0 b' start (flat object_bytes l)) ∨
     (e = ArrayNull ∧ Zlen b0 - start < Zlen (flat object_bytes l) + 4)).

Lemma object_loop_ok l todo
  (Hask : ∀ i n, 0 ≤ i → 0 ≤ n → ask cb (at_index (i + 1) a) n u =
    Ret (match l !! Z.to_nat i with
         | Some bs => if bool_decide (Zlen bs ≤ n) then (Zlen bs, bs, u) else (SPROTO_CB_ERROR, [], u)
         | None => (SPROTO_CB_NIL, [], u)
         end)) :
  ∀ fuel pre b size, l = pre ++ todo → wrote b0 b start (flat object_bytes pre) →
  start + Zlen (flat object_bytes pre) + size = Zlen b0 → 0 ≤ size < Z.of_nat fuel →
  objects_end l (object_loop cb fuel a b (start + Zlen (flat object_bytes pre)) size (Zlen pre + 1) u).
Proof.
  induction todo as [|bs todo IH]; intros [|fuel] pre b size El Hb Hsz Hf; try lia;
    pose proof (Zlen_nonneg pre) as Hpre; pose proof (Zlen_nonneg (flat object_bytes pre)) as Hp0;
    pose proof (f_equal (λ x, Zlen (flat object_bytes x)) El) as Ezl; cbn beta in Ezl; rewrite flat_app, Zlen_app in Ezl;
    match type of Ezl with _ = _ + Zlen ?r => pose proof (Zlen_nonneg r) end;
    cbn [object_loop]; unfold SIZEOF_LENGTH; pose proof (proj1 Hb);
    (case_bool_decide; [do 2 eexists; split; [done|]; right; split; [done|lia]|]);
    rewrite (Hask (Zlen pre)), (lookup_todo l pre _ El) by lia; cbn [head mbind outcome_bind].
  - rewrite app_nil_r in El. subst pre. cbn [mbind outcome_bind]. rewrite put_nil by lia. cbn [mbind outcome_bind]. unfold SPROTO_CB_NIL.
    rewrite (bool_decide_eq_true_2 (-2 < 0)), (bool_decide_eq_true_2 (-2 = -2)) by lia.
    do 2 eexists. split; [done|]. by left.
  - cbn [flat] in Ezl. rewrite Zlen_app, Zlen_object in Ezl. pose proof (Zlen_nonneg (flat object_bytes todo)). pose proof (Zlen_nonneg bs).
    case_bool_decide as Hs; cbn [mbind outcome_bind].
    + destruct (wrote_put b (start + Zlen (flat object_bytes pre) + 4) bs) as (b1 & -> & W1); [lia|lia|]. cbn [mbind outcome_bind].
      rewrite bool_decide_eq_false_2 by lia. pose proof (proj1 W1).
      destruct (wrote_le 4 b1 (start + Zlen (flat object_bytes pre)) (Zlen bs)) as (b2 & -> & W2); [lia|lia|]. cbn [mbind outcome_bind].
      assert (Zlen (pre ++ [bs]) = Zlen pre + 1) as Es by (by rewrite Zlen_app).
      assert (Zlen (flat object_bytes (pre ++ [bs])) = Zlen (flat object_bytes pre) + 4 + Zlen bs) as Ef
        by (rewrite flat_snoc, Zlen_app, Zlen_object; lia).
      replace (start + Zlen (flat object_bytes pre) + 4 + Zlen bs) with (start + Zlen (flat object_bytes (pre ++ [bs]))) by lia. rewrite <- Es.
      apply IH; [by rewrite <- app_assoc| |lia|lia]. rewrite flat_snoc. eapply wrote_app; [lia|exact Hb|].
      eapply wrote_front; [lia| |exact W2]. by rewrite Zlen_le_bytes.
    + rewrite put_nil by lia. cbn [mbind outcome_bind]. unfold SPROTO_CB_ERROR, SPROTO_CB_NIL, SPROTO_CB_NOARRAY.
      rewrite (bool_decide_eq_true_2 (-1 < 0)), (bool_decide_eq_false_2 (-1 = -2)), (bool_decide_eq_false_2 (-1 = -3)) by lia.
      do 2 eexists. split; [done|]. right. split; [done|lia].
Qed.
End array_loops.

(** ** Messages as records and data *)

(** a value of a field, and what becomes of it *)
Inductive val : Type :=
  | V32 (v : Z) | V64 (v : Z) | VBytes (bs : list Z)
  | VInts (l : list num) | VBools (l : list bool) | VObjects (l : list (list Z)).
Inductive item : Type := Word (v : Z) | Chunk (bs : list Z).
Definition item_of (v : val) : item :=
  match v with
  | V32 v => if bool_decide (v < 0x7fff) then Word v else Chunk (le_bytes 4 v)
  | V64 v => Chunk (le_bytes 8 v)
  | VBytes bs => Chunk bs
  | VInts l => Chunk (ints_data l)
  | VBools l => Chunk (flat bit_of l)
  | VObjects l => Chunk (flat object_bytes l)
  end.
Definition val_ok (f : field) (v : val) : Prop :=
  match v with
  | V32 v => 0 ≤ v < 2 ^ 32 ∧ (f_type f = SPROTO_TINTEGER ∨ f_type f = SPROTO_TBOOLEAN ∧ v < 0x7fff)
  | V64 v => 0 ≤ v < 2 ^ 64 ∧ (f_type f = SPROTO_TINTEGER ∨ f_type f = SPROTO_TDOUBLE)
  | VBytes bs => Forall byte bs ∧ (f_type f = SPROTO_TSTRING ∨ f_type f = SPROTO_TSTRUCT)
  | VInts l => Forall num_ok l ∧ (f_type f = SPROTO_TARRAY + SPROTO_TINTEGER ∨ f_type f = SPROTO_TARRAY + SPROTO_TDOUBLE)
  | VBools l => f_type f = SPROTO_TARRAY + SPROTO_TBOOLEAN
  | VObjects l =>
      Forall (Forall byte) l ∧ (f_type f = SPROTO_TARRAY + SPROTO_TSTRING ∨ f_type f = SPROTO_TARRAY + SPROTO_TSTRUCT)
  end.
(** what the receiver is given, with the index in an array: numbers have 64 bits; an
    empty array is a call with the index -1 *)
Fixpoint numbered (i : Z) (vs : list arg_value) : list (Z * arg_value) :=
  match vs with [] => [] | v :: vs => (i, v) :: numbered (i + 1) vs end.
Definition elements (vs : list arg_value) : list (Z * arg_value) :=
  match vs with [] => [(-1, ANull)] | _ => numbered 1 vs end.
Definition received (v : val) : list (Z * arg_value) :=
  match v with
  | V32 v => [(0, AInt (if bool_decide (v < 0x7fff) then v else expand64 v))]
  | V64 v => [(0, AInt v)]
  | VBytes bs => [(0, ABytes bs)]
  | VInts l => elements ((λ n, AInt (num64 n)) <$> l)
  | VBools l => elements ((λ x : bool, AInt (if x then 1 else 0)) <$> l)
  | VObjects l => elements (ABytes <$> l)
  end.
(** with the tag of the field *)
Definition delivery : Type := Z * Z * arg_value.
Definition delivered (tag : Z) (v : val) : list delivery := (λ p, (tag, p.1, p.2)) <$> received v.
Fixpoint deliveries (l : list (field * val)) : list delivery :=
  match l with [] => [] | (f, v) :: l => delivered (f_tag f) v ++ deliveries l end.

Abbreviation present := (list (field * val)) (only parsing).
Definition chunk_of (v : val) : list Z :=
  match item_of v with Word _ => [] | Chunk bs => le_bytes 4 (Zlen bs) ++ bs end.
Definition word_of (v : val) : Z := match item_of v with Word v => (v + 1) * 2 | Chunk _ => 0 end.
Definition skip_of (last tag : Z) : list Z :=
  if bool_decide (0 < tag - last - 1) then le_bytes 2 ((tag - last - 1 - 1) * 2 + 1) else [].
Fixpoint records (last : Z) (l : present) : list Z :=
  match l with
  | [] => []
  | (f, v) :: l => skip_of last (f_tag f) ++ le_bytes 2 (word_of v) ++ records (f_tag f) l
  end.
Fixpoint chunks (l : present) : list Z := match l with [] => [] | (f, v) :: l => chunk_of v ++ chunks l end.
(** the words of the records *)
Fixpoint words (last : Z) (l : present) : Z :=
  match l with
  | [] => 0
  | (f, v) :: l => (if bool_decide (0 < f_tag f - last - 1) then 2 else 1) + words (f_tag f) l
  end.
Definition message (l : present) : list Z := le_bytes 2 (words (-1) l) ++ records (-1) l ++ chunks l.

Section values.
(** the values, by the tags of their fields *)
Context (value : Z → option val).
Definition given (fs : list field) : present := omap (λ f, pair f <$> value (f_tag f)) fs.

(** a sender of the values, and a receiver; the elements of an array are asked for
    one by one, from 1 on, until there is none *)
Definition send_bytes (bs : list Z) (n : Z) (u : unit) : Z * list Z * unit :=
  if bool_decide (Zlen bs ≤ n) then (Zlen bs, bs, u) else (SPROTO_CB_ERROR, [], u).
Definition send_element {A} (l : list A) (i : Z) (send : A → Z * list Z * unit) (u : unit) : Z * list Z * unit :=
  match l !! Z.to_nat (i - 1) with Some x => send x | None => (SPROTO_CB_NIL, [], u) end.
Definition send_cb (a : sproto_arg) (u : unit) : Z * list Z * unit :=
  match value (a_tagid a) with
  | None => (if bool_decide (0 < a_index a) then SPROTO_CB_NOARRAY else SPROTO_CB_NIL, [], u)
  | Some (V32 v) => (4, le_bytes 4 v, u)
  | Some (V64 v) => (8, le_bytes 8 v, u)
  | Some (VBytes bs) => send_bytes bs (a_length a) u
  | Some (VInts l) => send_element l (a_index a) (λ n, (Zlen (num_bytes n), num_bytes n, u)) u
  | Some (VBools l) => send_element l (a_index a) (λ x, (4, le_bytes 4 (if x : bool then 1 else 0), u)) u
  | Some (VObjects l) => send_element l (a_index a) (λ bs, send_bytes bs (a_length a) u) u
  end.
Definition recv_cb (a : sproto_arg) (u : list delivery) : Z * list delivery :=
  (0, u ++ [(a_tagid a, a_index a, a_value a)]).

(** a type of the schema: a basic one, or an array of one *)
Definition basic (t : Z) : Prop := 0 ≤ t ≤ 4.
Definition field_ok (f : field) : Prop :=
  (basic (f_type f) ∨ basic (f_type f - SPROTO_TARRAY)) ∧ ∀ v, value (f_tag f) = Some v → val_ok f v.

Lemma basic_cases t : basic t → t = 0 ∨ t = 1 ∨ t = 2 ∨ t = 3 ∨ t = 4.
Proof. unfold basic. lia. Qed.

(** a size and the bytes behind it *)
Lemma fill_chunk b data w sz : 0 ≤ data → 0 ≤ sz → Zlen w = sz → data + 4 + sz ≤ Zlen b →
  ∃ b', (b ← put_bytes b (data + 4) w; fill_size b data sz) = Ret (sz + 4, b') ∧ Zlen b' = Zlen b ∧
    sub b' data (4 + sz) = le_bytes 4 sz ++ w ∧ same_outside b b' data (4 + sz).
Proof.
  intros Hd Hs Hw Hl. destruct (put_sub b (data + 4) w) as (b1 & -> & El1 & Es1 & Ep1); [lia|lia|]. cbn [mbind outcome_bind].
  unfold fill_size. destruct (put_le_sub 4 b1 data sz) as (b2 & -> & El2 & Es2 & Ep2); [lia|lia|]. cbn [mbind outcome_bind].
  exists b2. split; [done|]. split; [lia|]. split.
  - rewrite sub_app by lia. change (Z.of_nat 4) with 4 in *. rewrite Es2. f_equal. rewrite Ep2 by lia. by rewrite <- Hw at 1.
  - intros off k Ho Hk Hx. rewrite Ep2, Ep1; [done|lia..].
Qed.

Definition number (f : field) : Prop := f_type f = SPROTO_TDOUBLE ∨ f_type f = SPROTO_TINTEGER ∨ f_type f = SPROTO_TBOOLEAN.
Definition object (f : field) : Prop := f_type f = SPROTO_TSTRUCT ∨ f_type f = SPROTO_TSTRING.
Definition base_type (f : field) : Z := f_type f - SPROTO_TARRAY.
Definition array (f : field) : Prop := basic (base_type f).

Lemma array_type f : array f → Z.land (f_type f) SPROTO_TARRAY ≠ 0 ∧ Z.land (f_type f) (Z.lnot SPROTO_TARRAY) = base_type f.
Proof.
  unfold array, base_type. intros Hb. assert (f_type f = f_type f - SPROTO_TARRAY + SPROTO_TARRAY) as E by lia. revert E.
  destruct (basic_cases _ Hb) as [E|[E|[E|[E|E]]]]; rewrite E; intros ->; by split.
Qed.

Lemma encode_field_eq f b data size u : field_ok f →
  (number f ∧ encode_field send_cb f b data size u = encode_number send_cb (arg_of f (f_type f)) b data size u) ∨
  (object f ∧ encode_field send_cb f b data size u =
    '(n, b, u) ← encode_object send_cb (arg_of f (f_type f)) b data size u; Ret (EncField n 0, b, u)) ∨
  (array f ∧ encode_field send_cb f b data size u =
    '(n, b, u) ← encode_array send_cb (arg_of f (base_type f)) b data size u; Ret (EncField n 0, b, u)).
Proof.
  intros [[Ht|Ht] _].
  - unfold encode_field, number, object. destruct (basic_cases _ Ht) as [E|[E|[E|[E|E]]]]; rewrite E; auto.
  - right. right. split; [exact Ht|]. destruct (array_type f Ht) as [E1 E2]. unfold encode_field.
    by rewrite bool_decide_eq_true_2, E2 by done.
Qed.

(** an array with its size *)
Lemma fill_array {A} b b' data w (u : A) : 0 ≤ data → data + 4 + Zlen w ≤ Zlen b → wrote b b' (data + 4) w →
  ∃ b'', ('(n, b) ← fill_size b' data (data + 4 + Zlen w - (data + 4)); Ret (n, b, u)) = Ret (4 + Zlen w, b'', u) ∧
    wrote b b'' data (le_bytes 4 (Zlen w) ++ w).
Proof.
  intros Hd Hl Hw. pose proof (Zlen_nonneg w). pose proof (proj1 Hw). unfold fill_size, SIZEOF_LENGTH.
  replace (data + 4 + Zlen w - (data + 4)) with (Zlen w) by lia.
  destruct (wrote_le 4 b' data (Zlen w)) as (b'' & -> & W); [lia|lia|]. cbn [mbind outcome_bind]. exists b''.
  split; [by rewrite (Z.add_comm (Zlen w))|]. eapply wrote_front; [done| |exact W]. by rewrite Zlen_le_bytes.
Qed.

Definition array_data (v : val) : option (list Z) :=
  match v with
  | VInts l => Some (ints_data l) | VBools l => Some (flat bit_of l) | VObjects l => Some (flat object_bytes l)
  | _ => None
  end.
Lemma encode_array_ok f v w b data size u : val_ok f v → value (f_tag f) = Some v → array_data v = Some w →
  0 ≤ data → 0 ≤ size → data + size = Zlen b →
  ∃ n b', encode_array send_cb (arg_of f (base_type f)) b data size u = Ret (n, b', u) ∧
    ((n = 4 + Zlen w ∧ wrote b b' data (le_bytes 4 (Zlen w) ++ w) ∧ n ≤ size) ∨ (n = -1 ∧ size < 4 + Zlen w + 4)).
Proof.
  intros Hv Ev Ew Hd Hs Hb. pose proof (Zlen_nonneg w). unfold encode_array, SIZEOF_LENGTH.
  case_bool_decide; [do 2 eexists; split; [done|]; right; split; [done|lia]|].
  assert (∀ i n, 0 ≤ i → 0 ≤ n → send_cb (with_value ANull n (at_index (i + 1) (arg_of f (base_type f)))) u =
    match v with
    | VInts l => match l !! Z.to_nat i with Some x => (Zlen (num_bytes x), num_bytes x, u) | None => (SPROTO_CB_NIL, [], u) end
    | VBools l => match l !! Z.to_nat i with Some x => (4, le_bytes 4 (if x : bool then 1 else 0), u) | None => (SPROTO_CB_NIL, [], u) end
    | VObjects l => match l !! Z.to_nat i with Some bs => send_bytes bs n u | None => (SPROTO_CB_NIL, [], u) end
    | _ => send_cb (with_value ANull n (at_index (i + 1) (arg_of f (base_type f)))) u
    end) as Hsend.
  { intros i n Hi Hn. destruct v; try done; unfold send_cb; cbn [with_value at_index arg_of a_tagid a_index a_length]; rewrite Ev;
      unfold send_element; by replace (i + 1 - 1) with i by lia. }
  assert (∀ b', wrote b b' (data + 4) w →
    ∃ n b'', ('(n, b) ← fill_size b' data (data + 4 + Zlen w - (data + 4)); Ret (n, b, u)) = Ret (n, b'', u) ∧
      ((n = 4 + Zlen w ∧ wrote b b'' data (le_bytes 4 (Zlen w) ++ w) ∧ n ≤ size) ∨ (n = -1 ∧ size < 4 + Zlen w + 4))) as Hend.
  { intros b' W. pose proof (wrote_fits b b' (data + 4) w ltac:(lia) W).
    destruct (fill_array b b' data w u) as (b'' & E & W'); [done|lia|done|]. exists (4 + Zlen w), b''. split; [exact E|]. left.
    split; [done|]. split; [done|lia]. }
  assert (∀ b', size - 4 < Zlen w + 4 → ∃ n b'', Ret (-1, b', u) = Ret (n, b'', u) ∧
      ((n = 4 + Zlen w ∧ wrote b b'' data (le_bytes 4 (Zlen w) ++ w) ∧ n ≤ size) ∨ (n = -1 ∧ size < 4 + Zlen w + 4))) as Hfull.
  { intros b' Hx. do 2 eexists. split; [done|]. right. split; [done|lia]. }
  destruct v as [| | |l|l|l]; try done; cbn [array_data val_ok] in Ew, Hv; injection Ew as <-; unfold base_type in *;
    cbn [arg_of a_type] in *.
  - rewrite bool_decide_eq_true_2 by (destruct Hv as [_ [E|E]]; rewrite E; auto).
    destruct (encode_ints_ok send_cb (arg_of f (f_type f - SPROTO_TARRAY)) u b (data + 4) ltac:(lia) l (proj1 Hv)) with (size - 4)
      as (e & b' & -> & [[-> W]|[-> Hno]]); [|lia|lia| |]; cbn [mbind outcome_bind]; [|by apply Hend|apply Hfull; lia].
    intros i Hi. unfold ask. rewrite Hsend by lia. destruct (l !! Z.to_nat i) as [[x|x]|]; by rewrite ?Zlen_le_bytes.
  - rewrite bool_decide_eq_false_2, bool_decide_eq_true_2 by (rewrite Hv; unfold SPROTO_TDOUBLE, SPROTO_TINTEGER, SPROTO_TBOOLEAN; lia).
    destruct (boolean_loop_ok send_cb (arg_of f (f_type f - SPROTO_TARRAY)) u b (data + 4) ltac:(lia) l l) with (S (S (Z.to_nat (size - 4)))) (@nil bool) b (size - 4)
      as (e & b' & E & He); [|done|apply wrote_nil|rewrite Zlen_nil; lia|lia|].
    { intros i Hi. unfold ask. rewrite Hsend by lia. destruct (l !! Z.to_nat i) as [[]|]; done. }
    rewrite Zlen_nil, Z.add_0_r in E. change (0 + 1) with 1 in E. rewrite E. cbn [mbind outcome_bind].
    assert (Zlen (flat bit_of l) = Zlen l) as Ez by (rewrite (Zlen_flat bit_of 1) by done; apply Z.mul_1_l). rewrite <- Ez in He.
    destruct He as [[-> W]|[-> Hno]]; [by apply Hend|apply Hfull; lia].
  - rewrite !bool_decide_eq_false_2 by (destruct Hv as [_ [E|E]]; rewrite E; unfold SPROTO_TDOUBLE, SPROTO_TINTEGER, SPROTO_TBOOLEAN, SPROTO_TSTRING, SPROTO_TSTRUCT; lia).
    destruct (object_loop_ok send_cb (arg_of f (f_type f - SPROTO_TARRAY)) u b (data + 4) ltac:(lia) l l) with (S (S (Z.to_nat (size - 4)))) (@nil (list Z)) b (size - 4)
      as (e & b' & E & He); [|done|apply wrote_nil|cbn [flat]; rewrite Zlen_nil; lia|lia|].
    { intros i n Hi Hn. unfold ask. rewrite Hsend by lia. destruct (l !! Z.to_nat i) as [bs|]; [|by rewrite bool_decide_eq_true_2].
      unfold send_bytes. case_bool_decide; [by rewrite bool_decide_eq_true_2|by rewrite bool_decide_eq_true_2]. }
    cbn [flat] in E. change (Zlen []) with 0 in E. rewrite Z.add_0_r in E. change (0 + 1) with 1 in E. rewrite E. cbn [mbind outcome_bind].
    destruct He as [[-> W]|[-> Hno]]; [by apply Hend|apply Hfull; lia].
Qed.

(** one field with a value *)
Lemma encode_present f v b data size u : field_ok f → value (f_tag f) = Some v → 0 ≤ data → 0 ≤ size ≤ INT_MAX → data + size = Zlen b →
  ∃ e b', encode_field send_cb f b data size u = Ret (e, b', u) ∧
    ((Zlen (chunk_of v) ≤ size ∧ Zlen b' = Zlen b ∧ sub b' data (Zlen (chunk_of v)) = chunk_of v ∧
      same_outside b b' data (Zlen (chunk_of v)) ∧
      ∃ sz, e = EncField sz (word_of v) ∧ 0 < sz ∧ (if bool_decide (word_of v = 0) then sz else 0) = Zlen (chunk_of v)) ∨
     (e = EncField (-1) 0 ∧ size < Zlen (chunk_of v) + 4)).
Proof.
  intros Hf Ev Hd Hs Hl. pose proof (proj2 Hf v Ev) as Hv. unfold INT_MAX in Hs.
  assert (same_outside b b data 0) as Hsame by (by intros off k _ _ _).
  pose proof from_union_bytes as Hu.
  destruct (encode_field_eq f b data size u Hf) as [[Hn ->]|[[Ho ->]|[Harr ->]]].
  - unfold encode_number, ask, send_cb, chunk_of, word_of, item_of. cbn [arg_of with_value a_tagid]. rewrite Ev.
    destruct v as [v|v|bs|l|l|l]; cbn in Hv;
      try (exfalso; unfold number, SPROTO_TARRAY, SPROTO_TDOUBLE, SPROTO_TINTEGER, SPROTO_TBOOLEAN, SPROTO_TSTRING, SPROTO_TSTRUCT in *; lia).
    + rewrite Zlen_le_bytes. rewrite bool_decide_eq_true_2 by lia. cbn [mbind outcome_bind].
      rewrite Hu by (change (256 ^ Z.of_nat 4) with (2 ^ 32); lia). rewrite (bool_decide_eq_false_2 (4 < 0)), (bool_decide_eq_true_2 (4 = SIZEOF_INT32)) by done.
      case_bool_decide as Hsm.
      * do 2 eexists. split; [done|]. left. change (Zlen []) with 0. rewrite sub_zero. split; [lia|]. do 3 (split; [done|]).
        exists 2. split; [done|]. split; [lia|]. by rewrite bool_decide_eq_false_2 by lia.
      * unfold encode_integer, SIZEOF_LENGTH, u64. rewrite Z.mod_small by lia. rewrite Zlen_app, !Zlen_le_bytes. change (Z.of_nat 4 + Z.of_nat 4) with 8.
        case_bool_decide; [do 2 eexists; split; [done|]; right; split; [done|lia]|].
        destruct (fill_chunk b data (le_bytes 4 v) 4) as (b' & E & E1 & E2 & E3); [lia|lia|by rewrite Zlen_le_bytes|lia|].
        unfold put_le. rewrite E. cbn [mbind outcome_bind]. do 2 eexists. split; [done|]. left. split; [lia|].
        do 3 (split; [done|]). exists 8. by split.
    + rewrite Zlen_le_bytes. rewrite bool_decide_eq_true_2 by lia. cbn [mbind outcome_bind].
      rewrite (bool_decide_eq_false_2 (8 < 0)), (bool_decide_eq_false_2 (8 = SIZEOF_INT32)), (bool_decide_eq_true_2 (8 = SIZEOF_INT64)) by done.
      rewrite Hu by (change (256 ^ Z.of_nat 8) with (2 ^ 64); lia).
      unfold encode_uint64, SIZEOF_LENGTH, u64. rewrite Z.mod_small by lia. rewrite Zlen_app, !Zlen_le_bytes. change (Z.of_nat 4 + Z.of_nat 8) with 12.
      case_bool_decide; [do 2 eexists; split; [done|]; right; split; [done|lia]|].
      destruct (fill_chunk b data (le_bytes 8 v) 8) as (b' & E & E1 & E2 & E3); [lia|lia|by rewrite Zlen_le_bytes|lia|].
      unfold put_le. rewrite E. cbn [mbind outcome_bind]. do 2 eexists. split; [done|]. left. split; [lia|].
      do 3 (split; [done|]). exists 12. by split.
  - destruct v as [v|v|bs|l|l|l]; cbn in Hv;
      try (exfalso; unfold object, SPROTO_TARRAY, SPROTO_TDOUBLE, SPROTO_TINTEGER, SPROTO_TBOOLEAN, SPROTO_TSTRING, SPROTO_TSTRUCT in *; lia).
    pose proof (Zlen_nonneg bs). unfold encode_object, SIZEOF_LENGTH, chunk_of, word_of. cbn [item_of]. rewrite Zlen_app, Zlen_le_bytes. change (Z.of_nat 4) with 4.
    case_bool_decide; [do 2 eexists; split; [done|]; right; split; [done|lia]|].
    unfold ask, send_cb, send_bytes. cbn [arg_of with_value a_tagid a_length]. rewrite Ev. case_bool_decide as Hfit.
    + rewrite bool_decide_eq_true_2 by done. cbn [mbind outcome_bind].
      destruct (fill_chunk b data bs (Zlen bs)) as (b' & E & E1 & E2 & E3); [lia|lia|done|lia|].
      destruct (put_bytes b (data + 4) bs) as [b1| | |] eqn:E0; try done. cbn [mbind outcome_bind] in E |- *.
      rewrite bool_decide_eq_false_2 by lia. rewrite bool_decide_eq_true_2 by lia. cbn [cassert mbind outcome_bind]. rewrite E.
      cbn [mbind outcome_bind]. do 2 eexists. split; [done|]. left. split; [lia|]. do 3 (split; [done|]). eexists. split; [done|].
      split; [lia|]. rewrite bool_decide_eq_true_2 by done. lia.
    + rewrite bool_decide_eq_true_2 by (change (Zlen []) with 0; lia). cbn [mbind outcome_bind].
      rewrite put_nil by lia. cbn [mbind outcome_bind].
      do 2 eexists. split; [done|]. right. split; [done|lia].
  - assert (∃ w, array_data v = Some w) as [w Ew].
    { destruct v; cbn [array_data]; try (by eexists); exfalso; cbn [val_ok] in Hv; unfold array, base_type, basic in Harr;
        unfold SPROTO_TARRAY, SPROTO_TDOUBLE, SPROTO_TINTEGER, SPROTO_TBOOLEAN, SPROTO_TSTRING, SPROTO_TSTRUCT in *; lia. }
    assert (item_of v = Chunk w) as Ei by (destruct v; try done; cbn in Ew |- *; congruence).
    assert (chunk_of v = le_bytes 4 (Zlen w) ++ w) as Ec by (unfold chunk_of; by rewrite Ei).
    assert (Zlen (chunk_of v) = 4 + Zlen w) as Ecl by (by rewrite Ec, Zlen_app, Zlen_le_bytes).
    destruct (encode_array_ok f v w b data size u Hv Ev Ew) as (n & b' & -> & Hn); [lia..|]. cbn [mbind outcome_bind].
    destruct Hn as [(-> & W & Hn)|[-> Hn]]; [|do 2 eexists; split; [done|]; right; split; [done|lia]].
    rewrite <- Ec in W. destruct W as (W1 & W2 & W3). do 2 eexists. split; [done|]. left. split; [lia|]. do 3 (split; [done|]).
    eexists. unfold word_of. rewrite Ei. split; [done|]. pose proof (Zlen_nonneg w). split; [lia|]. by rewrite Ecl.
Qed.

Lemma encode_absent f b data size u : field_ok f → value (f_tag f) = None → 0 ≤ data → 0 ≤ size → data + size = Zlen b →
  ∃ e b', encode_field send_cb f b data size u = Ret (e, b', u) ∧
    (((e = EncSkip ∨ e = EncField 0 0) ∧ Zlen b' = Zlen b ∧ same_outside b b' data 0) ∨ (e = EncField (-1) 0 ∧ size < 8)).
Proof.
  intros Hf Ev Hd Hs Hl. assert (same_outside b b data 0) as Hsame by (by intros off k _ _ _).
  destruct (encode_field_eq f b data size u Hf) as [[Hn ->]|[[Ho ->]|[Harr ->]]].
  - unfold encode_number, ask, send_cb. cbn [arg_of with_value a_tagid]. rewrite Ev. cbn [mbind outcome_bind].
    do 2 eexists. split; [reflexivity|]. left. split; [by left|done].
  - unfold encode_object, SIZEOF_LENGTH. case_bool_decide; [do 2 eexists; split; [done|]; right; split; [done|lia]|].
    unfold ask, send_cb. cbn [arg_of with_value a_tagid a_length]. rewrite Ev.
    rewrite bool_decide_eq_true_2 by (change (Zlen []) with 0; lia). cbn [mbind outcome_bind].
    rewrite put_nil by lia. cbn [mbind outcome_bind]. do 2 eexists. split; [reflexivity|]. left. split; [by right|done].
  - unfold encode_array, SIZEOF_LENGTH. case_bool_decide; [do 2 eexists; split; [done|]; right; split; [done|lia]|].
    assert (∀ n, send_cb (with_value ANull n (at_index 1 (arg_of f (base_type f)))) u = (SPROTO_CB_NOARRAY, [], u)) as Hsend
      by (intros n; unfold send_cb; cbn [with_value at_index arg_of a_tagid a_index]; by rewrite Ev).
    unfold encode_integer_array. cbn [boolean_loop object_loop integer_loop arg_of a_type]. unfold ask. rewrite !Hsend.
    case_bool_decide; [|case_bool_decide].
    + case_bool_decide; [do 2 eexists; split; [done|]; right; split; [done|lia]|].
      cbn [mbind outcome_bind]. rewrite (bool_decide_eq_true_2 (data + 4 + 1 = data + 4 + 1)) by done.
      do 2 eexists. split; [reflexivity|]. left. split; [by right|done].
    + do 2 eexists. split; [reflexivity|]. left. split; [by right|done].
    + unfold SIZEOF_LENGTH. case_bool_decide; [do 2 eexists; split; [done|]; right; split; [done|lia]|].
      rewrite bool_decide_eq_true_2 by (change (Zlen []) with 0; lia). cbn [mbind outcome_bind]. rewrite put_nil by lia. cbn [mbind outcome_bind].
      do 2 eexists. split; [reflexivity|]. left. split; [by right|done].
Qed.

(** ** The fields of a message *)
Fixpoint ascending (last : Z) (fs : list field) : Prop :=
  match fs with [] => True | f :: fs => last < f_tag f < 2 ^ 15 ∧ ascending (f_tag f) fs end.
(** the words all fields need *)
Fixpoint words_max (last : Z) (fs : list field) : Z :=
  match fs with [] => 0 | f :: fs => (if bool_decide (last + 1 < f_tag f) then 2 else 1) + words_max (f_tag f) fs end.

Lemma words_nonneg last l : 0 ≤ words last l.
Proof. revert last. induction l as [|[f v] l IH]; intros last; cbn [words]; [done|]. specialize (IH (f_tag f)). case_bool_decide; lia. Qed.
Lemma words_max_nonneg last fs : 0 ≤ words_max last fs.
Proof. revert last. induction fs as [|f fs IH]; intros last; cbn [words_max]; [done|]. specialize (IH (f_tag f)). case_bool_decide; lia. Qed.

Lemma put_record_ok b index last tag v : 0 ≤ index → -1 ≤ last < tag → tag < 2 ^ 15 →
  let w := if bool_decide (0 < tag - last - 1) then 2 else 1 in
  2 + 2 * (index + w) ≤ Zlen b →
  ∃ b', put_record b index last tag v = Ret (Some (index + w, b')) ∧ Zlen b' = Zlen b ∧
    sub b' (2 + 2 * index) (2 * w) = skip_of last tag ++ le_bytes 2 v ∧ same_outside b b' (2 + 2 * index) (2 * w).
Proof.
  intros Hi Hl Ht w Hb. unfold put_record, skip_of, SIZEOF_HEADER, SIZEOF_FIELD. subst w. case_bool_decide as Hs.
  - rewrite bool_decide_eq_false_2 by lia.
    destruct (put_le_sub 2 b (2 + 2 * index) ((tag - last - 1 - 1) * 2 + 1)) as (b1 & -> & E1 & S1 & P1); [lia|lia|]. cbn [mbind outcome_bind].
    destruct (put_le_sub 2 b1 (2 + 2 * index + 2) v) as (b2 & -> & E2 & S2 & P2); [lia|lia|]. cbn [mbind outcome_bind].
    change (Z.of_nat 2) with 2 in *. exists b2. split; [done|]. split; [lia|]. split.
    + change (2 * 2) with (2 + 2). rewrite sub_app, S2, P2, S1 by lia. done.
    + intros off k Ho Hk Hx. rewrite P2, P1; [done|lia..].
  - destruct (put_le_sub 2 b (2 + 2 * index) v) as (b1 & -> & E1 & S1 & P1); [lia|lia|]. cbn [mbind outcome_bind].
    change (Z.of_nat 2) with 2 in *. exists b1. split; [done|]. split; [lia|]. split; [exact S1|].
    intros off k Ho Hk Hx. rewrite P1; [done|lia..].
Qed.

Lemma records_length last l : Zlen (records last l) = 2 * words last l.
Proof.
  revert last. induction l as [|[f v] l IH]; intros last; cbn [records words]; [done|].
  rewrite !Zlen_app, Zlen_le_bytes, IH. unfold skip_of. case_bool_decide; rewrite ?Zlen_le_bytes; change (Zlen []) with 0; lia.
Qed.

Lemma given_cons f fs : given (f :: fs) = match value (f_tag f) with Some v => (f, v) :: given fs | None => given fs end.
Proof. unfold given. cbn [omap list_omap]. by destruct (value (f_tag f)). Qed.

(** the remaining fields, after [index] words; [prev] is the field before them in
    the type, [last] the one that was written last *)
Lemma encode_fields_ok maxn fs : ∀ b data size index last prev u,
  ascending prev fs → Forall field_ok fs → -1 ≤ last ≤ prev → 0 ≤ index →
  index + (if bool_decide (last < prev) then 1 else 0) + words_max prev fs ≤ maxn →
  2 + 2 * maxn ≤ data → 0 ≤ size → data + size = Zlen b → Zlen b ≤ INT_MAX →
  let l := given fs in
  ∃ r b', encode_fields send_cb fs b data size index last u = Ret (r, b', u) ∧
    ((r = inr (index + words last l, data + Zlen (chunks l)) ∧ Zlen (chunks l) ≤ size ∧ index + words last l ≤ maxn ∧
      Zlen b' = Zlen b ∧ sub b' (2 + 2 * index) (2 * words last l) = records last l ∧
      sub b' data (Zlen (chunks l)) = chunks l ∧
      ∀ off k, 0 ≤ off → 0 ≤ k → off + k ≤ 2 + 2 * index ∨ 2 + 2 * maxn ≤ off ∧ off + k ≤ data → sub b' off k = sub b off k) ∨
     (r = inl (-1) ∧ size < Zlen (chunks l) + 8)).
Proof.
  induction fs as [|f fs IH]; intros b data size index last prev u Ha Hf Hlast Hi Hw Hd Hs Hb HL l.
  - exists (inr (index, data)), b. split; [done|]. left. unfold l. cbn [given omap list_omap words records chunks words_max] in *.
    change (given []) with (@nil (field * val)). cbn [words records chunks]. change (Zlen []) with 0.
    rewrite !Z.add_0_r, !sub_zero. split; [done|]. split; [lia|]. split; [destruct (bool_decide (last < prev)); cbn [words_max] in Hw; lia|]. done.
  - destruct Ha as [Ht Ha]. apply Forall_cons in Hf as [Hf1 Hf2]. cbn [words_max] in Hw. pose proof (words_max_nonneg (f_tag f) fs) as Hw0.
    assert (0 ≤ maxn) as Hm0 by (repeat case_bool_decide; lia).
    unfold l. rewrite given_cons. cbn [encode_fields]. destruct (value (f_tag f)) as [v|] eqn:Ev.
    + destruct (encode_present f v b data size u Hf1 Ev) as (e & b1 & -> & He); [lia|lia|lia|]. cbn [mbind outcome_bind].
      pose proof (Zlen_nonneg (chunk_of v)). pose proof (Zlen_nonneg (chunks (given fs))).
      destruct He as [(Hfit & El & Es & Ep & sz & -> & Hsz & Hmv)|[-> Hno]].
      * rewrite bool_decide_eq_false_2, bool_decide_eq_true_2 by lia. rewrite Hmv.
        set (w := if bool_decide (0 < f_tag f - last - 1) then 2 else 1).
        assert (1 ≤ w ≤ 2 ∧ index + w + words_max (f_tag f) fs ≤ maxn) as [Hw1 Hw2] by (unfold w; repeat case_bool_decide; lia).
        destruct (put_record_ok b1 index last (f_tag f) (word_of v)) as (b2 & Er & El2 & Es2 & Ep2); [lia|lia|lia|fold w; lia|].
        fold w in Er, Es2, Ep2. rewrite Er. cbn [mbind outcome_bind].
        destruct (IH b2 (data + Zlen (chunk_of v)) (size - Zlen (chunk_of v)) (index + w) (f_tag f) (f_tag f) u) as (r & b3 & -> & Hr);
          [done|done|lia|lia|rewrite bool_decide_eq_false_2 by lia; lia|lia|lia|lia|lia|].
        eexists _, b3. split; [done|]. cbn [chunks words records]. rewrite Zlen_app. fold w.
        destruct Hr as [(-> & Hc & Hw3 & El3 & Er3 & Ec3 & Ep3)|[-> Hc]]; [left|right; split; [done|lia]].
        split; [do 2 f_equal; lia|]. split; [lia|]. split; [lia|]. split; [lia|].
        pose proof (words_nonneg (f_tag f) (given fs)). split; [|split].
        -- replace (2 * (w + words (f_tag f) (given fs))) with (2 * w + 2 * words (f_tag f) (given fs)) by lia.
           rewrite sub_app by lia. replace (2 + 2 * index + 2 * w) with (2 + 2 * (index + w)) by lia. rewrite Er3.
           rewrite Ep3 by lia. rewrite Es2, app_assoc. done.
        -- rewrite sub_app, Ec3 by lia. f_equal. rewrite Ep3, Ep2 by lia. exact Es.
        -- intros off k Ho Hk Hx. rewrite Ep3, Ep2, Ep; [done|lia..].
      * exists (inl (-1)), b1. split; [done|]. right. split; [done|]. cbn [chunks]. rewrite Zlen_app. lia.
    + destruct (encode_absent f b data size u Hf1 Ev) as (e & b1 & -> & He); [lia|lia|lia|]. cbn [mbind outcome_bind].
      pose proof (Zlen_nonneg (chunks (given fs))).
      destruct He as [(He & El & Ep)|[-> Hno]]; [|exists (inl (-1)), b1; split; [done|right; split; [done|lia]]].
      destruct (IH b1 data size index last (f_tag f) u) as (r & b2 & E & Hr);
        [done|done|lia|lia|rewrite bool_decide_eq_true_2 by lia; repeat case_bool_decide; lia|lia|lia|lia|lia|].
      exists r, b2. split; [destruct He as [-> | ->]; exact E|].
      destruct Hr as [(-> & Hc & Hw3 & El3 & Er3 & Ec3 & Ep3)|Hr]; [left|by right].
      split; [done|]. split; [done|]. split; [done|]. split; [lia|]. split; [done|]. split; [done|].
      pose proof (words_nonneg last (given fs)). intros off k Ho Hk Hx. rewrite Ep3, Ep; [done|lia..].
Qed.

Lemma words_max_le last fs : ascending last fs → last < 2 ^ 15 → words_max last fs ≤ 2 ^ 15 - 1 - last.
Proof.
  revert last. induction fs as [|f fs IH]; intros last Ha Hl; cbn [words_max]; [lia|]. destruct Ha as [Ht Ha].
  specialize (IH _ Ha ltac:(lia)). case_bool_decide; lia.
Qed.

(** the type of a message, and the size of a message of it *)
Definition type_ok (st : sproto_type) : Prop := ascending (-1) (st_f st) ∧ st_maxn st = words_max (-1) (st_f st).

Lemma sproto_encode_ok st b u : type_ok st → Forall field_ok (st_f st) → Zlen b ≤ INT_MAX →
  let l := given (st_f st) in
  ∃ r b', sproto_encode send_cb st b u = Ret (r, b', u) ∧
    ((r = Zlen (message l) ∧ r ≤ Zlen b ∧ sub b' 0 r = message l) ∨
     (r = -1 ∧ Zlen b < 2 + 2 * st_maxn st + Zlen (chunks l) + 8)).
Proof.
  intros [Ha Hm] Hf HL l. pose proof (words_max_nonneg (-1) (st_f st)) as Hw0. pose proof (Zlen_nonneg (chunks l)).
  unfold sproto_encode, SIZEOF_HEADER, SIZEOF_FIELD. case_bool_decide as Hsz; [do 2 eexists; split; [done|]; right; split; [done|lia]|].
  destruct (encode_fields_ok (st_maxn st) (st_f st) b (2 + st_maxn st * 2) (Zlen b - (2 + st_maxn st * 2)) 0 (-1) (-1) u)
    as (r & b1 & -> & Hr); [done|done|lia|lia|rewrite bool_decide_eq_false_2 by lia; lia|lia|lia|lia|done|].
  fold l in Hr. cbn [mbind outcome_bind].
  destruct Hr as [(-> & Hc & Hw & El & Er & Ec & _)|[-> Hno]]; [|do 2 eexists; split; [done|]; right; split; [done|lia]].
  rewrite Z.add_0_l in *. change (2 + 2 * 0) with 2 in Er. pose proof (words_nonneg (-1) l).
  destruct (put_le_sub 2 b1 0 (words (-1) l)) as (b2 & -> & El2 & Es2 & Ep2); [lia|lia|]. change (Z.of_nat 2) with 2 in *.
  cbn [mbind outcome_bind]. set (n := Zlen (chunks l)) in *.
  replace (2 + st_maxn st * 2 + n - (2 + st_maxn st * 2)) with n by lia.
  assert (∃ b3, (if bool_decide (words (-1) l ≠ st_maxn st) then
      bs ← slice b2 (2 + st_maxn st * 2) n; put_bytes b2 (2 + words (-1) l * 2) bs else Ret b2) = Ret b3 ∧
      Zlen b3 = Zlen b2 ∧ sub b3 (2 + words (-1) l * 2) n = chunks l ∧
      ∀ off k, 0 ≤ off → 0 ≤ k → off + k ≤ 2 + words (-1) l * 2 → sub b3 off k = sub b2 off k) as (b3 & -> & El3 & Es3 & Ep3).
  { case_bool_decide as Hne.
    - destruct (slice_ok b2 (2 + st_maxn st * 2) n) as [-> Hz]; [lia..|]. cbn [mbind outcome_bind].
      change (take (Z.to_nat n) (drop (Z.to_nat (2 + st_maxn st * 2)) b2)) with (sub b2 (2 + st_maxn st * 2) n) in *.
      assert (sub b2 (2 + st_maxn st * 2) n = chunks l) as Eb by (rewrite Ep2 by lia; exact Ec). rewrite Eb in *. fold n in Hz.
      destruct (put_sub b2 (2 + words (-1) l * 2) (chunks l)) as (b3 & -> & E1 & E2 & E3); [lia|fold n; lia|].
      exists b3. split; [done|]. split; [done|]. split; [exact E2|]. intros off k Ho Hk Hx. apply E3; lia.
    - exists b2. split; [done|]. split; [done|]. split; [|done]. rewrite Ep2 by lia.
      assert (words (-1) l = st_maxn st) as -> by (destruct (decide (words (-1) l = st_maxn st)); [done|by destruct Hne]). exact Ec. }
  cbn [mbind outcome_bind]. do 2 eexists. split; [done|]. left.
  assert (Zlen (message l) = 2 + words (-1) l * 2 + n) as Em
    by (unfold message; rewrite !Zlen_app, Zlen_le_bytes, records_length; fold n; lia).
  split; [done|]. split; [lia|]. unfold message.
  rewrite sub_app, Z.add_0_l, Es3 by lia. rewrite app_assoc. f_equal. rewrite Ep3 by lia.
  rewrite sub_app, Es2 by lia. f_equal. rewrite Z.add_0_l, Ep2 by lia. rewrite Z.mul_comm. exact Er.
Qed.
End values.

(** ** The search finds every field *)
Lemma ascending_lookup fs : ∀ last i j f g, ascending last fs → fs !! i = Some f → fs !! j = Some g → (i ≤ j)%nat →
  last < f_tag f ∧ Z.of_nat j - Z.of_nat i ≤ f_tag g - f_tag f.
Proof.
  induction fs as [|h fs IH]; intros last i j f g Ha Hi Hj Hij; [done|].
  destruct Ha as [Ht Ha].
  destruct i as [|i], j as [|j]; cbn in Hi, Hj; simplify_eq; try lia.
  - destruct fs as [|h2 fs]; [done|]. destruct (IH (f_tag f) 0%nat j h2 g Ha eq_refl Hj ltac:(lia)) as [H1 H2]. lia.
  - destruct (IH (f_tag h) i j f g Ha Hi Hj ltac:(lia)) as [H1 H2]. lia.
Qed.

Lemma findtag_loop_finds fs last i f : ascending last fs → fs !! i = Some f →
  ∀ fuel b e, 0 ≤ b ≤ Z.of_nat i → Z.of_nat i < e ≤ Zlen fs → e - b < Z.of_nat fuel →
  findtag_loop fuel fs (f_tag f) b e = Ret (Some f).
Proof.
  intros Ha Hi. induction fuel as [|fuel IH]; intros b e Hb He Hf; [lia|]. cbn [findtag_loop].
  rewrite bool_decide_eq_true_2 by lia.
  assert (b ≤ (b + e) ÷ 2 < e) as Hm.
  { rewrite Z.quot_div_nonneg by lia. pose proof (Z.div_mod (b + e) 2 ltac:(lia)). pose proof (mod_range (b + e) 2 ltac:(lia)). lia. }
  destruct (get_idx_ok fs ((b + e) ÷ 2)) as (g & -> & Hg); [lia|]. cbn [mbind outcome_bind].
  destruct (lt_eq_lt_dec i (Z.to_nat ((b + e) ÷ 2))) as [[Hlt|Heq]|Hgt].
  - destruct (ascending_lookup fs last i _ f g Ha Hi Hg ltac:(lia)) as [_ Ht].
    rewrite !bool_decide_eq_false_2 by lia. apply IH; lia.
  - rewrite <- Heq, Hi in Hg. injection Hg as <-. by rewrite bool_decide_eq_true_2.
  - destruct (ascending_lookup fs last _ i g f Ha Hg Hi ltac:(lia)) as [_ Ht].
    rewrite bool_decide_eq_false_2, bool_decide_eq_true_2 by lia. apply IH; lia.
Qed.

(** a base is only kept for tags without gaps *)
Definition base_ok (st : sproto_type) : Prop :=
  st_base st < 0 ∨ ∃ f g, st_f st !! 0%nat = Some f ∧ st_f st !! Nat.pred (length (st_f st)) = Some g ∧
    st_base st = f_tag f ∧ f_tag g - f_tag f + 1 = st_n st.

Lemma findtag_finds st f : ascending (-1) (st_f st) → base_ok st → f ∈ st_f st → findtag st (f_tag f) = Ret (Some f).
Proof.
  intros Ha Hb Hf. apply list_elem_of_lookup in Hf as [i Hi]. pose proof (lookup_lt_Some _ _ _ Hi) as Hlt.
  unfold findtag, st_n in *. destruct Hb as [Hb|(f0 & g & H0 & Hg & Eb & El)].
  - rewrite bool_decide_eq_false_2 by lia. apply (findtag_loop_finds _ (-1) i); [done|done|lia|unfold Zlen; lia|unfold Zlen; lia].
  - destruct (ascending_lookup _ _ 0%nat i f0 f Ha H0 Hi ltac:(lia)) as [Hp H1].
    destruct (ascending_lookup _ _ i _ f g Ha Hi Hg ltac:(lia)) as [_ H2]. unfold st_n, Zlen in El.
    assert (f_tag f - st_base st = Z.of_nat i) as Ei by lia.
    rewrite bool_decide_eq_true_2 by lia. rewrite Ei, bool_decide_eq_false_2 by (unfold Zlen; lia).
    unfold get_idx. rewrite decide_True by lia. by rewrite Nat2Z.id, Hi.
Qed.

(** the types that [import_type] makes *)
Lemma count_words_ok fs : ∀ last m x, count_words last m fs = Some x → Forall (λ f, f_tag f < 2 ^ 15) fs →
  ascending last fs ∧ x = m + (words_max last fs - Zlen fs).
Proof.
  induction fs as [|f fs IH]; intros last m x E Hb; cbn [count_words ascending words_max] in *.
  - injection E as <-. change (Zlen []) with 0. split; [done|lia].
  - apply Forall_cons in Hb as [Hb1 Hb2]. case_bool_decide as Ht; [done|]. apply IH in E as [Ha E]; [|done].
    split; [split; [lia|done]|]. rewrite Zlen_cons, E. repeat case_bool_decide; lia.
Qed.

Lemma import_type_ok fs st : import_type fs = Ret (Some st) → Forall (λ f, f_tag f < 2 ^ 15) fs →
  st_f st = fs ∧ type_ok st ∧ base_ok st.
Proof.
  unfold import_type. intros E Hb. destruct (count_words (-1) (Zlen fs) fs) as [maxn|] eqn:Ec; [|done].
  apply count_words_ok in Ec as [Ha Em]; [|done].
  apply bind_Ret in E as (f & Ef & E). apply bind_Ret in E as (g & Eg & E). injection E as <-.
  apply get_idx_Ret in Ef as [_ Hf]. apply get_idx_Ret in Eg as [_ Hg]. split; [done|]. split.
  - split; [done|]. cbn. lia.
  - unfold base_ok. cbn [st_base st_f st_n]. case_bool_decide as Hx; [left; lia|right].
    exists f, g. split; [exact Hf|]. split; [|split; [done|]].
    + rewrite <- Hg. f_equal. unfold Zlen. lia.
    + unfold st_n. cbn [st_f]. lia.
Qed.

(** ** Decoding a message *)
Lemma int64_sub mem off v : Forall byte mem → 0 ≤ off → off + 8 ≤ Zlen mem → sub mem off 8 = le_bytes 8 v → 0 ≤ v < 2 ^ 64 →
  int64_at mem off = Ret v.
Proof.
  intros Hb Ho Hl E Hv. change 8 with (4 + 4) in E. rewrite sub_app in E by lia.
  change 8%nat with (4 + 4)%nat in E. rewrite le_bytes_app in E. change (256 ^ Z.of_nat 4) with (2 ^ 32) in E.
  apply app_inj_1 in E as [E1 E2];
    [|apply Nat2Z.inj; rewrite le_bytes_length; change (Zlen (sub mem off 4) = 4); apply Zlen_sub; lia].
  pose proof (Z.div_mod v (2 ^ 32) ltac:(lia)) as Ev. pose proof (mod_range v (2 ^ 32) ltac:(lia)).
  assert (0 ≤ v / 2 ^ 32 < 2 ^ 32) by (split; [apply Z.div_pos; lia|apply Z.div_lt_upper_bound; lia]).
  assert (le_bytes 4 v = le_bytes 4 (v mod 2 ^ 32)) as Em.
  { rewrite <- (le_value_bytes (le_bytes 4 v)) by apply le_bytes_ok. by rewrite le_bytes_length, le_roundtrip. }
  unfold int64_at, SIZEOF_INT32. rewrite (todword_sub mem off (v mod 2 ^ 32)) by (rewrite <- ?Em; done || lia).
  cbn [mbind outcome_bind]. rewrite (todword_sub mem (off + 4) (v / 2 ^ 32)) by (done || lia). cbn [mbind outcome_bind].
  rewrite Z.shiftl_mul_pow2 by lia. unfold u64. rewrite (Z.mod_small (v / 2 ^ 32 * 2 ^ 32)) by lia. rewrite lor_high by lia. f_equal. lia.
Qed.

Section decoding.
Context (mem : list Z) (Hbytes : Forall byte mem) (Hlen : Zlen mem ≤ INT_MAX).

Lemma chunk_header v pos : 0 ≤ pos → pos + Zlen (chunk_of v) ≤ Zlen mem → sub mem pos (Zlen (chunk_of v)) = chunk_of v →
  ∀ bs, item_of v = Chunk bs →
  todword mem pos = Ret (Zlen bs) ∧ sub mem (pos + 4) (Zlen bs) = bs ∧ pos + 4 + Zlen bs ≤ Zlen mem ∧ Zlen (chunk_of v) = 4 + Zlen bs.
Proof.
  intros Hp Hl E bs Ei. unfold chunk_of in *. rewrite Ei in *. rewrite Zlen_app, Zlen_le_bytes in *. change (Z.of_nat 4) with 4 in *.
  pose proof (Zlen_nonneg bs). rewrite sub_app in E by lia.
  apply app_inj_1 in E as [E1 E2];
    [|apply Nat2Z.inj; rewrite le_bytes_length; change (Zlen (sub mem pos 4) = 4); apply Zlen_sub; lia].
  unfold INT_MAX in *. split; [by apply todword_sub; try done; lia|]. split; [done|]. lia.
Qed.

Lemma val_type f v : val_ok f v → array_data v = None → basic (f_type f).
Proof.
  unfold basic. destruct v; cbn; try done; unfold SPROTO_TINTEGER, SPROTO_TBOOLEAN, SPROTO_TDOUBLE, SPROTO_TSTRING, SPROTO_TSTRUCT; lia.
Qed.
Lemma val_array f v w : val_ok f v → array_data v = Some w → array f ∧ item_of v = Chunk w.
Proof.
  unfold array, base_type, basic. intros Hv Hw. destruct v; cbn in *; simplify_eq; split; try done;
    unfold SPROTO_TARRAY, SPROTO_TINTEGER, SPROTO_TBOOLEAN, SPROTO_TDOUBLE, SPROTO_TSTRING, SPROTO_TSTRUCT in *; lia.
Qed.

(** arrays *)
Abbreviation tagged tag l := ((λ p : Z * arg_value, (tag, p.1, p.2)) <$> l) (only parsing).
Lemma decode_values_ok a read vs : ∀ i acc, (∀ j v, vs !! j = Some v → read (i + Z.of_nat j) = Ret v) →
  decode_values recv_cb (length vs) read i a acc = Ret (acc ++ tagged (a_tagid a) (numbered (i + 1) (AInt <$> vs))).
Proof.
  induction vs as [|v vs IH]; intros i acc Hr; cbn [length decode_values fmap list_fmap numbered]; [by rewrite app_nil_r|].
  pose proof (Hr 0%nat v eq_refl) as E. rewrite Z.add_0_r in E. rewrite E. cbn [mbind outcome_bind].
  rewrite IH.
  - unfold give_int, recv_cb. cbn [snd with_value at_index a_tagid a_index a_value fst]. by rewrite <- app_assoc.
  - intros j w Hj. specialize (Hr (S j) w Hj). rewrite <- Hr. f_equal. lia.
Qed.

Lemma decode_objects_ok a l : ∀ fuel stream sz index acc, 0 ≤ stream → sz = Zlen (flat object_bytes l) → stream + sz ≤ Zlen mem →
  sub mem stream sz = flat object_bytes l → sz ≤ Z.of_nat fuel →
  decode_array_object recv_cb fuel mem stream sz index a acc = Ret (0, acc ++ tagged (a_tagid a) (numbered index (ABytes <$> l))).
Proof.
  unfold INT_MAX in Hlen. induction l as [|bs l IH]; intros fuel stream sz index acc Hs Hz Hl Hsub Hf; cbn [flat] in Hz, Hsub.
  - change (Zlen []) with 0 in Hz. subst sz. destruct fuel; cbn; by rewrite app_nil_r.
  - pose proof (Zlen_nonneg bs). pose proof (Zlen_nonneg (flat object_bytes l)). rewrite Zlen_app, Zlen_object in Hz. unfold object_bytes at 1 in Hsub.
    rewrite <- app_assoc in Hsub. rewrite Hz in Hsub. replace (4 + Zlen bs + Zlen (flat object_bytes l)) with (4 + (Zlen bs + Zlen (flat object_bytes l))) in Hsub by lia.
    rewrite sub_app in Hsub by lia.
    apply app_inj_1 in Hsub as [E1 E2]; [|apply Nat2Z.inj; rewrite le_bytes_length; apply (Zlen_sub mem stream 4); lia].
    rewrite sub_app in E2 by lia.
    apply app_inj_1 in E2 as [E2 E3]; [|apply Nat2Z.inj; apply (Zlen_sub mem (stream + 4) (Zlen bs)); lia].
    destruct fuel as [|fuel]; [lia|]. cbn [decode_array_object]. unfold SIZEOF_LENGTH. rewrite bool_decide_eq_true_2, bool_decide_eq_false_2 by lia.
    rewrite (todword_sub mem stream (Zlen bs)) by (done || lia). cbn [mbind outcome_bind].
    unfold u32. rewrite Z.mod_small, bool_decide_eq_false_2, i32_small by lia. unfold give_bytes.
    destruct (slice_ok mem (stream + 4) (Zlen bs)) as [-> _]; [lia..|]. unfold sub in E2 at 1. rewrite E2. cbn [mbind outcome_bind].
    unfold recv_cb at 1. rewrite (bool_decide_eq_false_2 (0 ≠ 0)) by lia.
    rewrite IH; [|lia..|replace (sz - 4 - Zlen bs) with (Zlen (flat object_bytes l)) by lia; exact E3|lia].
    cbn [with_value at_index a_tagid a_index a_value fmap list_fmap numbered fst snd]. by rewrite <- app_assoc.
Qed.

Lemma decode_ints_ok a l pos acc : Forall num_ok l → a_type a = SPROTO_TINTEGER ∨ a_type a = SPROTO_TDOUBLE →
  0 ≤ pos → todword mem pos = Ret (Zlen (ints_data l)) → pos + 4 + Zlen (ints_data l) ≤ Zlen mem →
  sub mem (pos + 4) (Zlen (ints_data l)) = ints_data l →
  decode_array recv_cb mem pos a acc = Ret (0, acc ++ tagged (a_tagid a) (elements ((λ n, AInt (num64 n)) <$> l))).
Proof.
  intros Hl Ht Hp Ew Hfit Hs. unfold decode_array, SIZEOF_LENGTH, SIZEOF_INT32, SIZEOF_INT64. rewrite Ew. cbn [mbind outcome_bind].
  destruct (decide (l = [])) as [->|Hne]; [rewrite bool_decide_eq_true_2 by done; reflexivity|].
  assert (elements ((λ n, AInt (num64 n)) <$> l) = numbered (0 + 1) (AInt <$> (num64 <$> l))) as ->
    by (rewrite <- list_fmap_compose; by destruct l).
  pose proof (Zlen_nonneg l). assert (Zlen l ≠ 0) by (by intros ?%Zlen_0).
  assert (∀ k w (g : num → list Z), (∀ n, Zlen (g n) = w) → 0 < w → 0 ≤ k < 256 → ints_data l = k :: flat g l → Zlen (ints_data l) = 1 + w * Zlen l →
    get_idx mem (pos + 4) = Ret k ∧ sub mem (pos + 4 + 1) (w * Zlen l) = flat g l) as Hparts.
  { intros k w g Hg Hw0 Hk Ed Ez. rewrite Ez, Ed in Hs. rewrite sub_app in Hs by nia. change (k :: flat g l) with ([k] ++ flat g l) in Hs.
    apply app_inj_1 in Hs as [E1 E2]; [|apply Nat2Z.inj; apply (Zlen_sub mem (pos + 4) 1); nia]. split; [|done].
    pose proof (get_sub mem (pos + 4) 1 0 k ltac:(lia) ltac:(lia)) as G. rewrite Z.add_0_r in G. apply G. by rewrite E1. }
  rewrite (bool_decide_eq_false_2 (Zlen (ints_data l) = 0)), (bool_decide_eq_true_2 (_ ∨ _)) by (tauto || (destruct l; [done|]; unfold ints_data; destruct (existsb wide _); rewrite Zlen_cons; pose proof (Zlen_nonneg (flat num8 (n :: l))); pose proof (Zlen_nonneg (flat num4 (n :: l))); lia)).
  destruct (existsb wide l) eqn:Ex.
  - destruct (ints_wide l Ex) as [Ed Ez]. destruct (Hparts 8 8 num8 Zlen_num8 ltac:(lia) ltac:(lia) Ed Ez) as [-> Hf]. cbn [mbind outcome_bind].
    rewrite (bool_decide_eq_false_2 (8 = 4)), (bool_decide_eq_true_2 (8 = 8)) by lia.
    replace (Zlen (ints_data l) - 1) with (Zlen l * 8) by lia. rewrite Z.mod_mul, Z.div_mul by lia. rewrite bool_decide_eq_false_2 by lia.
    replace (Z.to_nat (Zlen l)) with (length (num64 <$> l)) by (rewrite length_fmap; unfold Zlen; lia).
    rewrite (decode_values_ok a); [done|]. intros j v Hj. rewrite list_lookup_fmap in Hj. destruct (l !! j) as [n|] eqn:En; [|done]. injection Hj as <-.
    pose proof (lookup_lt_Some _ _ _ En). pose proof (sub_flat num8 8 Zlen_num8 mem (pos + 4 + 1) l j n ltac:(lia) ltac:(lia) Hf En) as Hn.
    apply int64_sub; [done|lia|unfold Zlen in *; lia| |apply num64_range; by eapply Forall_lookup_1].
    fold (num8 n). rewrite <- Hn. f_equal. lia.
  - destruct (ints_narrow l Hne Ex) as [Ed Ez]. destruct (Hparts 4 4 num4 Zlen_num4 ltac:(lia) ltac:(lia) Ed Ez) as [-> Hf]. cbn [mbind outcome_bind].
    rewrite (bool_decide_eq_true_2 (4 = 4)) by lia.
    replace (Zlen (ints_data l) - 1) with (Zlen l * 4) by lia. rewrite Z.mod_mul, Z.div_mul by lia. rewrite bool_decide_eq_false_2 by lia.
    replace (Z.to_nat (Zlen l)) with (length (num64 <$> l)) by (rewrite length_fmap; unfold Zlen; lia).
    rewrite (decode_values_ok a); [done|]. intros j v Hj. rewrite list_lookup_fmap in Hj. destruct (l !! j) as [n|] eqn:En; [|done]. injection Hj as <-.
    pose proof (lookup_lt_Some _ _ _ En). pose proof (sub_flat num4 4 Zlen_num4 mem (pos + 4 + 1) l j n ltac:(lia) ltac:(lia) Hf En) as Hn.
    apply existsb_narrow in Ex. assert (wide n = false) as Hwn by (by eapply Forall_lookup_1 in Ex). destruct n as [v|]; [|done].
    assert (num_ok (N32 v)) as Hv by (by eapply Forall_lookup_1 in Hl). cbn in Hv.
    rewrite (todword_sub mem _ v); [done|done|lia|unfold Zlen in *; lia| |done].
    change (le_bytes 4 v) with (num4 (N32 v)). rewrite <- Hn. f_equal. lia.
Qed.

Lemma decode_bools_ok a l pos acc : a_type a = SPROTO_TBOOLEAN →
  0 ≤ pos → todword mem pos = Ret (Zlen (flat bit_of l)) → pos + 4 + Zlen (flat bit_of l) ≤ Zlen mem →
  sub mem (pos + 4) (Zlen (flat bit_of l)) = flat bit_of l →
  decode_array recv_cb mem pos a acc = Ret (0, acc ++ tagged (a_tagid a) (elements ((λ x : bool, AInt (if x then 1 else 0)) <$> l))).
Proof.
  intros Ht Hp Ew Hfit Hs. assert (Zlen (flat bit_of l) = Zlen l) as Ez by (rewrite (Zlen_flat bit_of 1) by done; apply Z.mul_1_l).
  unfold decode_array, SIZEOF_LENGTH. rewrite Ew. cbn [mbind outcome_bind]. rewrite Ez in *.
  destruct (decide (l = [])) as [->|Hne]; [rewrite bool_decide_eq_true_2 by done; reflexivity|].
  assert (elements ((λ x : bool, AInt (if x then 1 else 0)) <$> l) =
    numbered (0 + 1) (AInt <$> ((λ x : bool, if x then 1 else 0) <$> l))) as -> by (rewrite <- list_fmap_compose; by destruct l).
  assert (Zlen l ≠ 0) by (by intros ?%Zlen_0).
  rewrite Ht, (bool_decide_eq_false_2 (Zlen l = 0)), (bool_decide_eq_false_2 (_ ∨ _)), (bool_decide_eq_true_2 (SPROTO_TBOOLEAN = _))
    by (done || unfold SPROTO_TBOOLEAN, SPROTO_TDOUBLE, SPROTO_TINTEGER; lia).
  replace (Z.to_nat (Zlen l)) with (length ((λ x : bool, if x then 1 else 0) <$> l)) by (rewrite length_fmap; unfold Zlen; lia).
  rewrite (decode_values_ok a); [done|]. intros j v Hj. rewrite list_lookup_fmap in Hj. destruct (l !! j) as [x|] eqn:En; [|done].
  cbn in Hj. injection Hj as <-. pose proof (lookup_lt_Some _ _ _ En).
  assert (sub mem (pos + 4) (1 * Zlen l) = flat bit_of l) as Hs' by (by rewrite Z.mul_1_l).
  pose proof (sub_flat bit_of 1 (λ _, eq_refl) mem (pos + 4) l j x ltac:(lia) ltac:(lia) Hs' En) as Hn.
  pose proof (get_sub mem (pos + 4 + 1 * Z.of_nat j) 1 0 (if x then 1 else 0) ltac:(lia) ltac:(lia)) as G.
  rewrite <- G by (by rewrite Hn). f_equal. lia.
Qed.

Lemma decode_array_ok f v w pos acc : val_ok f v → array_data v = Some w → 0 ≤ pos → pos + Zlen (chunk_of v) ≤ Zlen mem →
  sub mem pos (Zlen (chunk_of v)) = chunk_of v →
  decode_array recv_cb mem pos (arg_of f (base_type f)) acc = Ret (0, acc ++ delivered (f_tag f) v).
Proof.
  intros Hv Ew Hp Hl E. destruct (val_array f v w Hv Ew) as [_ Ei]. destruct (chunk_header v pos Hp Hl E w Ei) as (Ed & Es & Hfit & _).
  unfold delivered. unfold INT_MAX in *. pose proof (Zlen_nonneg w).
  destruct v as [| | |l|l|l]; try done; cbn [array_data val_ok received] in *; injection Ew as <-; unfold base_type.
  - apply decode_ints_ok; try done; cbn [arg_of a_type]; destruct Hv as [? [Et|Et]]; rewrite ?Et; try done; [by left|by right].
  - apply decode_bools_ok; try done. cbn [arg_of a_type]. by rewrite Hv.
  - unfold decode_array, SIZEOF_LENGTH. rewrite Ed. cbn [mbind outcome_bind].
    destruct (decide (l = [])) as [->|Hne]; [rewrite bool_decide_eq_true_2 by done; reflexivity|].
    assert (elements (ABytes <$> l) = numbered 1 (ABytes <$> l)) as -> by (by destruct l).
    assert (Zlen (flat object_bytes l) ≠ 0).
    { destruct l as [|bs l]; [done|]. cbn [flat]. rewrite Zlen_app, Zlen_object. pose proof (Zlen_nonneg bs). pose proof (Zlen_nonneg (flat object_bytes l)). lia. }
    cbn [arg_of a_type]. rewrite !bool_decide_eq_false_2
      by (lia || (destruct Hv as [_ [Et|Et]]; rewrite Et; unfold SPROTO_TBOOLEAN, SPROTO_TDOUBLE, SPROTO_TINTEGER, SPROTO_TSTRING, SPROTO_TSTRUCT, SPROTO_TARRAY; lia)).
    rewrite bool_decide_eq_true_2 by (destruct Hv as [_ [Et|Et]]; rewrite Et; auto). rewrite i32_small by lia.
    rewrite (decode_objects_ok _ l); [done|lia|done|lia|done|lia].
Qed.

Lemma decode_chunk f v pos acc bs : val_ok f v → item_of v = Chunk bs → 0 ≤ pos → pos + Zlen (chunk_of v) ≤ Zlen mem →
  sub mem pos (Zlen (chunk_of v)) = chunk_of v →
  decode_data recv_cb mem pos f (arg_of f (Z.land (f_type f) (Z.lnot SPROTO_TARRAY))) acc =
    Ret (0, acc ++ delivered (f_tag f) v).
Proof.
  intros Hv Ei Hp Hl E. destruct (chunk_header v pos Hp Hl E bs Ei) as (Ew & Es & Hfit & _). unfold INT_MAX in *.
  unfold decode_data, SIZEOF_LENGTH, SIZEOF_INT32, SIZEOF_INT64.
  destruct (array_data v) as [w|] eqn:Ea.
  { destruct (val_array f v w Hv Ea) as [Hty _]. destruct (array_type f Hty) as [E1 E2]. rewrite bool_decide_eq_true_2, E2 by done.
    by eapply decode_array_ok. }
  assert (bool_decide (Z.land (f_type f) SPROTO_TARRAY ≠ 0) = false) as ->
    by (destruct (basic_cases _ (val_type f v Hv Ea)) as [Et|[Et|[Et|[Et|Et]]]]; by rewrite Et).
  destruct v as [v|v|bs'| | |]; try done; cbn [val_ok item_of] in *; unfold delivered; cbn [received].
  - case_bool_decide as Hsm; [done|]. assert (bs = le_bytes 4 v) as -> by congruence. rewrite Zlen_le_bytes in *. change (Z.of_nat 4) with 4 in *.
    rewrite bool_decide_eq_true_2 by (unfold SPROTO_TINTEGER, SPROTO_TBOOLEAN, SPROTO_TDOUBLE in *; lia). rewrite Ew. cbn [mbind outcome_bind].
    rewrite bool_decide_eq_true_2 by done. rewrite (todword_sub mem (pos + 4) v) by (done || lia). done.
  - assert (bs = le_bytes 8 v) as -> by congruence. rewrite Zlen_le_bytes in *. change (Z.of_nat 8) with 8 in *.
    rewrite bool_decide_eq_true_2 by (unfold SPROTO_TINTEGER, SPROTO_TBOOLEAN, SPROTO_TDOUBLE in *; lia). rewrite Ew. cbn [mbind outcome_bind].
    rewrite (bool_decide_eq_false_2 (8 = 4)), (bool_decide_eq_false_2 (8 ≠ 8)) by lia.
    rewrite (int64_sub mem (pos + 4) v) by (done || lia). done.
  - injection Ei as ->. pose proof (Zlen_nonneg bs).
    rewrite bool_decide_eq_false_2 by (unfold SPROTO_TINTEGER, SPROTO_TDOUBLE, SPROTO_TSTRING, SPROTO_TSTRUCT in *; lia).
    rewrite bool_decide_eq_true_2 by tauto. rewrite Ew. cbn [mbind outcome_bind]. rewrite i32_small by lia.
    unfold give_bytes. destruct (slice_ok mem (pos + 4) (Zlen bs)) as [-> _]; [lia..|]. unfold sub in Es. rewrite Es. done.
Qed.

Lemma decode_fields_message st l : ∀ last stream pos size acc,
  (∀ f v, (f, v) ∈ l → findtag st (f_tag f) = Ret (Some f) ∧ val_ok f v) → ascending last (fst <$> l) → -1 ≤ last →
  0 ≤ stream → stream + 2 * words last l ≤ Zlen mem → sub mem stream (2 * words last l) = records last l →
  0 ≤ pos → size = Zlen (chunks l) → pos + size = Zlen mem → sub mem pos size = chunks l →
  decode_fields recv_cb (Z.to_nat (words last l)) st mem stream pos size last acc =
    Ret (Some 0, acc ++ deliveries l).
Proof.
  induction l as [|[f v] l IH]; intros last stream pos size acc Hin Ha Hl Hs Hsl Er Hp Hz Hpl Ec.
  - cbn in Hz |- *. rewrite app_nil_r, Hz. done.
  - destruct Ha as [Ht Ha]. cbn [fst fmap list_fmap] in Ht, Ha. destruct (Hin f v) as [Hfind Hv]; [by left|].
    pose proof (words_nonneg (f_tag f) l) as Hw. cbn [words records chunks] in *. unfold INT_MAX in *.
    set (w := words (f_tag f) l) in *.
    assert (∀ stream' tag', 0 ≤ stream' → tag' = f_tag f - 1 → stream' + 2 * (1 + w) ≤ Zlen mem →
      sub mem stream' (2 * (1 + w)) = le_bytes 2 (word_of v) ++ records (f_tag f) l →
      decode_fields recv_cb (S (Z.to_nat w)) st mem stream' pos size tag' acc =
        Ret (Some 0, acc ++ deliveries ((f, v) :: l))) as Hfield.
    { intros stream' tag' Hs' -> Hl' E'. replace (2 * (1 + w)) with (2 + 2 * w) in E' by lia. rewrite sub_app in E' by lia.
      apply app_inj_1 in E' as [E1 E2];
        [|apply Nat2Z.inj; rewrite le_bytes_length; change (Zlen (sub mem stream' 2) = 2); apply Zlen_sub; lia].
      pose proof (Zlen_nonneg (chunk_of v)). pose proof (Zlen_nonneg (chunks l)).
      rewrite Zlen_app in Hz. rewrite Hz, sub_app in Ec by lia.
      apply app_inj_1 in Ec as [Ec1 Ec2]; [|apply Nat2Z.inj; apply (Zlen_sub mem pos (Zlen (chunk_of v))); lia].
      cbn [decode_fields]. unfold SIZEOF_FIELD, SIZEOF_LENGTH. replace (f_tag f - 1 + 1) with (f_tag f) by lia.
      assert (∀ acc', decode_fields recv_cb (Z.to_nat w) st mem (stream' + 2) (pos + Zlen (chunk_of v)) (Zlen (chunks l)) (f_tag f) acc' =
        Ret (Some 0, acc' ++ deliveries l)) as Hrest.
      { intros acc'. apply IH; try done; try lia. intros g v' Hg. apply Hin. by right. }
      destruct (item_of v) as [x|bs] eqn:Ei.
      - assert (v = V32 x ∧ x < 0x7fff) as [-> Hx].
        { destruct v as [y|y|y|y|y|y]; cbn in Ei; try done. case_bool_decide; [by injection Ei as <-|done]. }
        unfold word_of in E1. rewrite Ei in E1. cbn in Hv.
        rewrite (toword_sub mem stream' ((x + 1) * 2)) by (done || lia). cbn [mbind outcome_bind].
        assert (Z.land ((x + 1) * 2) 1 = 0) as Eodd by (rewrite (land_mask _ 1) by lia; rewrite Z.mod_mul; lia).
        rewrite bool_decide_eq_false_2 by (rewrite Eodd; lia).
        assert ((x + 1) * 2 ÷ 2 - 1 = x) as -> by (rewrite Z.quot_mul by lia; lia).
        rewrite bool_decide_eq_false_2 by lia. rewrite Hfind. cbn [mbind outcome_bind].
        rewrite bool_decide_eq_false_2 by (unfold SPROTO_TINTEGER, SPROTO_TBOOLEAN in *; lia). unfold give_int, recv_cb at 1. cbn [snd mbind outcome_bind].
        rewrite (bool_decide_eq_false_2 (0 ≠ 0)) by lia. unfold chunk_of in Hrest, Hz. rewrite Ei in Hrest, Hz. change (Zlen []) with 0 in Hrest, Hz.
        rewrite Z.add_0_r in Hrest. rewrite Hz, Z.add_0_l, Hrest. cbn [deliveries]. unfold delivered. cbn [received].
        rewrite bool_decide_eq_true_2 by done. unfold recv_cb. cbn [snd with_value arg_of a_tagid a_value a_index fmap list_fmap fst]. by rewrite <- app_assoc.
      - destruct (chunk_header v pos Hp ltac:(lia) Ec1 bs Ei) as (Ew & _ & _ & Ecl).
        unfold word_of in E1. rewrite Ei in E1. rewrite (toword_sub mem stream' 0) by (done || lia). cbn [mbind outcome_bind].
        rewrite (bool_decide_eq_false_2 (Z.land 0 1 ≠ 0)) by (by intros []). change (0 ÷ 2 - 1) with (-1).
        rewrite (bool_decide_eq_true_2 (-1 < 0)) by lia. pose proof (Zlen_nonneg bs).
        rewrite bool_decide_eq_false_2 by lia. rewrite Ew. cbn [mbind outcome_bind].
        unfold u32. rewrite !Z.mod_small by lia. rewrite bool_decide_eq_false_2 by lia. rewrite i32_small by lia.
        rewrite Hfind. cbn [mbind outcome_bind].
        rewrite (decode_chunk f v pos acc bs Hv Ei Hp ltac:(lia) Ec1). cbn [mbind outcome_bind].
        rewrite (bool_decide_eq_false_2 (0 ≠ 0)) by lia.
        replace (pos + (Zlen bs + 4)) with (pos + Zlen (chunk_of v)) by lia.
        replace (size - (Zlen bs + 4)) with (Zlen (chunks l)) by lia. rewrite Hrest. cbn [deliveries].
        by rewrite <- app_assoc. }
    unfold skip_of in Er. case_bool_decide as Hskip.
    + replace (Z.to_nat (2 + w)) with (S (S (Z.to_nat w))) by lia.
      replace (2 * (2 + w)) with (2 + 2 * (1 + w)) in Er by lia. rewrite sub_app in Er by lia.
      apply app_inj_1 in Er as [E1 E2];
        [|apply Nat2Z.inj; rewrite le_bytes_length; change (Zlen (sub mem stream 2) = 2); apply Zlen_sub; lia].
      remember (S (Z.to_nat w)) as k eqn:Ek. cbn [decode_fields]. unfold SIZEOF_FIELD.
      set (sk := f_tag f - last - 1) in *. rewrite (toword_sub mem stream ((sk - 1) * 2 + 1)) by (done || lia). cbn [mbind outcome_bind].
      assert (Z.land ((sk - 1) * 2 + 1) 1 = 1) as Eodd.
      { rewrite (land_mask _ 1) by lia. rewrite Z.add_comm, Z.mod_add by lia. done. }
      rewrite Eodd, bool_decide_eq_true_2 by done. apply Hfield; [lia| |lia|exact E2].
      rewrite Z.quot_div_nonneg by lia. rewrite Z.add_comm, Z.div_add_l by lia. change (1 / 2) with 0. unfold sk. lia.
    + replace (Z.to_nat (1 + w)) with (S (Z.to_nat w)) by lia. apply Hfield; [done|lia|lia|exact Er].
Qed.
End decoding.

Lemma elem_given value fs f v : (f, v) ∈ given value fs → f ∈ fs ∧ value (f_tag f) = Some v.
Proof.
  unfold given. intros (g & Hg & E)%list_elem_of_omap. destruct (value (f_tag g)) as [w|] eqn:Ew; [|done]. cbn in E.
  injection E as -> ->. done.
Qed.

Lemma given_ascending value fs : ∀ last, ascending last fs → ascending last (fst <$> given value fs).
Proof.
  assert (∀ fs a b, a ≤ b → ascending b fs → ascending a fs) as Hw.
  { intros gs a b Hab. destruct gs as [|g gs]; [done|]. intros [H1 H2]. split; [lia|done]. }
  induction fs as [|f fs IH]; intros last Ha; [done|]. destruct Ha as [Ht Ha]. rewrite given_cons.
  destruct (value (f_tag f)) as [v|].
  - split; [done|]. apply IH, Ha.
  - apply (Hw _ _ (f_tag f)); [lia|]. apply IH, Ha.
Qed.

Lemma words_le_max last l : words last l ≤ words_max last (fst <$> l).
Proof.
  revert last. induction l as [|[f v] l IH]; intros last; cbn [words words_max fmap list_fmap fst]; [done|].
  specialize (IH (f_tag f)). repeat case_bool_decide; lia.
Qed.

Lemma flat_byte {A} (f : A → list Z) l : (∀ x, x ∈ l → Forall byte (f x)) → Forall byte (flat f l).
Proof.
  induction l as [|x l IH]; intros Hf; cbn [flat]; [constructor|]. apply Forall_app. split; [apply Hf; by left|].
  apply IH. intros y Hy. apply Hf. by right.
Qed.
Lemma item_byte f v bs : val_ok f v → item_of v = Chunk bs → Forall byte bs.
Proof.
  destruct v as [x|x|bs'|l|l|l]; cbn [val_ok item_of]; intros Hv Ei;
    [case_bool_decide; [done|]|..]; assert (∀ x y, Chunk x = Chunk y → x = y) as Hinj by congruence; apply Hinj in Ei as <-;
    [apply le_bytes_ok..| | | |].
  - by destruct Hv.
  - destruct l as [|n l]; [constructor|]. unfold ints_data.
    destruct (existsb wide _); (constructor; [unfold byte; lia|]); apply flat_byte; intros; apply le_bytes_ok.
  - apply flat_byte. intros [] _; (constructor; [unfold byte; lia|constructor]).
  - destruct Hv as [Hv _]. rewrite Forall_forall in Hv. apply flat_byte. intros bs Hb.
    apply Forall_app. split; [apply le_bytes_ok|by apply Hv].
Qed.

Lemma message_byte l : (∀ f v, (f, v) ∈ l → val_ok f v) → Forall byte (message l).
Proof.
  intros Hv. unfold message. apply Forall_app; split; [apply le_bytes_ok|]. apply Forall_app; split.
  - generalize (-1). clear Hv. induction l as [|[f v] l IH]; intros last; cbn [records]; [constructor|].
    repeat (apply Forall_app; split); [|apply le_bytes_ok|apply IH]. unfold skip_of. case_bool_decide; [apply le_bytes_ok|constructor].
  - induction l as [|[f v] l IH]; cbn [chunks]; [constructor|]. apply Forall_app; split.
    + assert (val_ok f v) as H by (apply Hv; by left). unfold chunk_of.
      destruct (item_of v) as [x|bs] eqn:Ei; [constructor|]. apply Forall_app. split; [apply le_bytes_ok|by eapply item_byte].
    + apply IH. intros g w Hg. apply (Hv g w). by right.
Qed.

Lemma sproto_decode_ok st l : base_ok st → ascending (-1) (st_f st) → ascending (-1) (fst <$> l) →
  (∀ f v, (f, v) ∈ l → f ∈ st_f st ∧ val_ok f v) → Zlen (message l) ≤ INT_MAX →
  sproto_decode recv_cb st (message l) [] = Ret (Zlen (message l), deliveries l).
Proof.
  intros Hb Ha Hl Hin HL. set (mem := message l) in *.
  assert (Forall byte mem) as Hbytes by (apply message_byte; intros f v Hf; by apply Hin in Hf as [_ ?]).
  pose proof (words_nonneg (-1) l) as Hw0. pose proof (words_le_max (-1) l). pose proof (words_max_le (-1) _ Hl ltac:(lia)).
  pose proof (records_length (-1) l) as Er. pose proof (Zlen_nonneg (chunks l)).
  assert (Zlen mem = 2 + (2 * words (-1) l + Zlen (chunks l))) as Em
    by (unfold mem, message; rewrite !Zlen_app, Zlen_le_bytes, Er; lia).
  set (w := words (-1) l) in *.
  assert (sub mem 0 2 = le_bytes 2 w) as E1 by exact (sub_at [] (le_bytes 2 w) _).
  assert (sub mem 2 (2 * w) = records (-1) l) as E2
    by (pose proof (sub_at (le_bytes 2 w) (records (-1) l) (chunks l)) as E; rewrite Er in E; exact E).
  assert (sub mem (2 + 2 * w) (Zlen (chunks l)) = chunks l) as E3.
  { pose proof (sub_at (le_bytes 2 w ++ records (-1) l) (chunks l) []) as E. rewrite Zlen_app, Er, Zlen_le_bytes in E.
    rewrite app_nil_r, <- app_assoc in E. exact E. }
  unfold sproto_decode, SIZEOF_HEADER, SIZEOF_FIELD. rewrite bool_decide_eq_false_2 by lia.
  rewrite (toword_sub mem 0 w) by (done || lia). cbn [mbind outcome_bind]. rewrite bool_decide_eq_false_2 by lia.
  unfold w at 1.
  rewrite (decode_fields_message mem Hbytes HL st l (-1) 2 (2 + w * 2) (Zlen mem - 2 - w * 2) []); fold w; try lia; try done.
  - intros f v Hf. apply Hin in Hf as [Hf Hv]. split; [|done]. by apply findtag_finds.
  - replace (2 + w * 2) with (2 + 2 * w) by lia. by replace (Zlen mem - 2 - w * 2) with (Zlen (chunks l)) by lia.
Qed.

(** C31. A message that is encoded is decoded to what was in it: for any type that a
    schema makes, with fields of the basic types and arrays of them, and any
    values of its fields, where some are absent (numbers in four bytes or in
    eight, also mixed in one array, booleans, strings and structures as bytes;
    doubles in eight bytes), the encoder answers -1 for lack of room only when its
    buffer is smaller than what the fields may need, eight bytes more than the
    largest message, and otherwise writes a message, from which the decoder, over
    the same type, gives each field that was present, in the order of the tags,
    its tag and its value, of an array each element with its index, and reads the
    message to its end. The tags of a schema are below 2^15, since its encoding
    gives them 15 bits. *)
Theorem sproto_message_roundtrip value fs st b u :
  import_type fs = Ret (Some st) → Forall (λ f, f_tag f < 2 ^ 15) fs → Forall (field_ok value) fs → Zlen b ≤ INT_MAX →
  let l := given value fs in
  ∃ r b', sproto_encode (send_cb value) st b u = Ret (r, b', u) ∧
    ((r = -1 ∧ Zlen b < 2 + 2 * st_maxn st + Zlen (chunks l) + 8) ∨
     (r = Zlen (message l) ∧ sproto_decode recv_cb st (sub b' 0 r) [] = Ret (r, deliveries l))).
Proof.
  intros Ei Ht Hf HL l. destruct (import_type_ok fs st Ei Ht) as (<- & Hok & Hbase).
  destruct (sproto_encode_ok value st b u Hok Hf HL) as (r & b' & E & Hr). exists r, b'. split; [exact E|].
  destruct Hr as [(-> & Hle & Es)|[-> Hno]]; [right|by left]. split; [done|]. fold l in Es |- *. rewrite Es.
  destruct Hok as [Ha _]. apply sproto_decode_ok; [done|done|by apply given_ascending| |].
  - intros f v [Hin Hv]%elem_given. split; [done|]. rewrite Forall_forall in Hf. by apply Hf.
  - fold l in Hle. lia.
Qed.

(** a number, a string that is absent, a number of 64 bits after a gap, a text, an
    array of numbers, of which the first is negative and the second wide, an
    array of strings and an empty array of booleans *)
Definition some_fields : list field :=
  [Field 0 SPROTO_TINTEGER "id" None (-1) 0; Field 1 SPROTO_TSTRING "name" None (-1) 0;
   Field 5 SPROTO_TINTEGER "time" None (-1) 0; Field 6 SPROTO_TSTRING "text" None (-1) 0;
   Field 7 (SPROTO_TARRAY + SPROTO_TINTEGER) "list" None (-1) 0; Field 8 (SPROTO_TARRAY + SPROTO_TSTRING) "names" None (-1) 0;
   Field 9 (SPROTO_TARRAY + SPROTO_TBOOLEAN) "flags" None (-1) 0].
Definition some_values (tag : Z) : option val :=
  match tag with
  | 0 => Some (V32 7)
  | 5 => Some (V64 (2 ^ 40))
  | 6 => Some (VBytes [104; 105])
  | 7 => Some (VInts [N32 (2 ^ 32 - 2); N64 (2 ^ 40)])
  | 8 => Some (VObjects [[97]; []])
  | 9 => Some (VBools [])
  | _ => None
  end.

Lemma sproto_message_roundtrip_witness :
  ∃ r b', sproto_encode (send_cb some_values) (SprotoType (-1) 8 some_fields) (replicate 128 0) tt = Ret (r, b', tt) ∧
    sproto_decode recv_cb (SprotoType (-1) 8 some_fields) (sub b' 0 r) [] =
      Ret (r, [(0, 0, AInt 7); (5, 0, AInt (2 ^ 40)); (6, 0, ABytes [104; 105]); (7, 1, AInt (2 ^ 64 - 2)); (7, 2, AInt (2 ^ 40));
               (8, 1, ABytes [97]); (8, 2, ABytes []); (9, -1, ANull)]).
Proof.
  destruct (sproto_message_roundtrip some_values some_fields (SprotoType (-1) 8 some_fields) (replicate 128 0) tt)
    as (r & b' & E & Hr); [reflexivity|apply (bool_decide_unpack _); vm_compute; exact I| |done|].
  - unfold some_fields. repeat (apply Forall_cons; split); [..|apply Forall_nil; exact I];
      (split; [unfold basic; cbn; unfold SPROTO_TARRAY, SPROTO_TINTEGER, SPROTO_TSTRING, SPROTO_TBOOLEAN; lia|]);
      intros v Hv; cbn in Hv; try discriminate Hv; injection Hv as <-; cbn; unfold SPROTO_TARRAY, SPROTO_TINTEGER, SPROTO_TSTRING;
      repeat split; try lia; try (by left); apply (bool_decide_unpack _); vm_compute; exact I.
  - exists r, b'. destruct Hr as [[_ Hno]|[Er Ed]]; [by vm_compute in Hno|]. split; [exact E|exact Ed].
Defined.
