(* ===== verification/Stm.v ===== *)
(** * Shared snapshots: lualib-src/lua-stm.c and skynet-src/rwlock.h

    A writer publishes messages in an object that the readers of other services
    hold by reference. Services run in their own threads, so the code is modelled
    as programs whose steps are the single accesses to the shared memory; a step
    relation interleaves them in any order. The memory is sequentially
    consistent, as it is for the barriers of the source on its platforms. *)
From S2P Require Import Prelude.
From stdpp Require Import relations sorting.
#[local] Open Scope Z_scope.

(** ** The shared memory *)

(** a copy: addresses of copies are numbers in the order of allocation *)
Record stm_copy : Type := StmCopy { c_reference : Z; c_sz : Z; c_msg : list Z }.
Record stm_object : Type := StmObject { o_write : Z; o_read : Z; o_reference : Z; o_copy : option nat }.
(** [m_obj], [m_copies]: what is allocated; [m_made]: every message a copy was
    made of, in order; [m_handed]: the pointers that [lcopy] returned and that are
    not the object of a reader yet *)
Record memory : Type := Memory {
  m_obj : option stm_object;
  m_copies : gmap nat stm_copy;
  m_made : list (list Z * Z);
  m_handed : Z
}.

Definition set_obj (o : option stm_object) (m : memory) : memory := Memory o (m_copies m) (m_made m) (m_handed m).
Definition set_copies (cs : gmap nat stm_copy) (m : memory) : memory := Memory (m_obj m) cs (m_made m) (m_handed m).
Definition set_write (x : Z) (o : stm_object) : stm_object := StmObject x (o_read o) (o_reference o) (o_copy o).
Definition set_read (x : Z) (o : stm_object) : stm_object := StmObject (o_write o) x (o_reference o) (o_copy o).
Definition set_reference (x : Z) (o : stm_object) : stm_object := StmObject (o_write o) (o_read o) x (o_copy o).
Definition set_copy (c : option nat) (o : stm_object) : stm_object := StmObject (o_write o) (o_read o) (o_reference o) c.

(** ** Programs of single accesses

    The continuation of an access is given what the access reads. The two loops
    of the lock are cycles of their accesses: [RLock], until no writer is there,
    then [RInc], [RTest], and either [k] or [RDec] and [RLock] again; [WLock],
    until the flag was clear, then [WWait], until the readers are gone, then [k]. *)
Inductive prog : Type :=
  | Done
  (* rwlock_rlock: wait for no writer, count, look for a writer, count back *)
  | RLock (k : prog) | RInc (k : prog) | RTest (k : prog) | RDec (k : prog)
  | RUnlock (k : prog)
  (* rwlock_wlock: test and set, wait for no readers *)
  | WLock (k : prog) | WWait (k : prog)
  | WUnlock (k : prog)
  (* the object: its pointer to a copy and its references *)
  | LoadCopy (k : option nat → prog) | StoreCopy (c : option nat) (k : prog)
  | DecRef (k : Z → prog) | IncRef (k : Z → prog)
  | FreeObj (k : prog)
  (* copies *)
  | NewCopy (msg : list Z) (sz : Z) (k : nat → prog)
  | DecCopy (c : nat) (k : Z → prog) | IncCopy (c : nat) (k : Z → prog)
  | FreeCopy (c : nat) (k : prog)
  | Assert (b : bool) (k : prog)
  (* the service: the box of its userdata, the function that reads a message, the
     pointer that is returned *)
  | SetObjNull (k : prog) | SetLast (c : option nat) (k : prog)
  | Deliver (c : nat) (k : prog)
  | Hand (k : prog).

Definition rwlock_rlock (k : prog) : prog := RLock k.
Definition rwlock_runlock (k : prog) : prog := RUnlock k.
Definition rwlock_wlock (k : prog) : prog := WLock k.
Definition rwlock_wunlock (k : prog) : prog := WUnlock k.

(** the address of the copy goes to [k] *)
Definition stm_newcopy (msg : list Z) (sz : Z) (k : nat → prog) : prog := NewCopy msg sz k.

Definition stm_releasecopy (copy : option nat) (k : prog) : prog :=
  match copy with
  | None => k
  | Some c => DecCopy c (λ reference, if bool_decide (reference = 0) then FreeCopy c k else k)
  end.

Definition not_null {A} (p : option A) : bool := match p with Some _ => true | None => false end.

Definition stm_release (k : prog) : prog :=
  LoadCopy (λ c, Assert (not_null c) (
  rwlock_wlock (
  LoadCopy (λ c, stm_releasecopy c (
  StoreCopy None (
  DecRef (λ reference,
    if bool_decide (0 < reference) then rwlock_wunlock k
    else FreeObj k))))))).

Definition stm_releasereader (k : prog) : prog :=
  rwlock_rlock (
  DecRef (λ reference,
    if bool_decide (reference = 0) then LoadCopy (λ c, Assert (negb (not_null c)) (FreeObj k))
    else rwlock_runlock k)).

Definition stm_grab (k : prog) : prog :=
  rwlock_rlock (IncRef (λ ref, rwlock_runlock (Assert (bool_decide (0 < ref)) k))).

Definition stm_copy_ (k : option nat → prog) : prog :=
  rwlock_rlock (
  LoadCopy (λ ret,
    match ret with
    | Some c => IncCopy c (λ ref, Assert (bool_decide (0 < ref)) (rwlock_runlock (k ret)))
    | None => rwlock_runlock (k ret)
    end)).

Definition stm_update (msg : list Z) (sz : Z) (k : prog) : prog :=
  stm_newcopy msg sz (λ copy,
  rwlock_wlock (
  LoadCopy (λ oldcopy,
  StoreCopy (Some copy) (
  rwlock_wunlock (
  stm_releasecopy oldcopy k))))).

(** ** The calls of the services *)
Definition lcopy : prog := stm_grab (Hand Done).
Definition lupdate (msg : list Z) (sz : Z) : prog := stm_update msg sz Done.
Definition ldeletewriter : prog := stm_release (SetObjNull Done).
Definition ldeletereader (lastcopy : option nat) : prog :=
  stm_releasereader (SetObjNull (stm_releasecopy lastcopy (SetLast None Done))).
Definition lread (lastcopy : option nat) : prog :=
  stm_copy_ (λ copy,
    if decide (copy = lastcopy) then stm_releasecopy copy Done
    else
      stm_releasecopy lastcopy (
      SetLast copy (
      match copy with Some c => Deliver c Done | None => Done end))).

(** the userdata of a service: [obj]: its pointer is not NULL *)
Inductive box : Type := Writer (obj : bool) | Reader (obj : bool) (lastcopy : option nat).
(** [t_log]: the copies that were read, with their messages *)
Record thread : Type := Thread { t_box : box; t_prog : prog; t_log : list (nat * (list Z * Z)) }.

Definition goto (p : prog) (t : thread) : thread := Thread (t_box t) p (t_log t).
Definition set_box (b : box) (t : thread) : thread := Thread b (t_prog t) (t_log t).
Definition null_obj (b : box) : box := match b with Writer _ => Writer false | Reader _ l => Reader false l end.
Definition set_last (c : option nat) (b : box) : box := match b with Writer o => Writer o | Reader o _ => Reader o c end.

(** the object and the only reference of its writer *)
Definition stm_new (msg : list Z) (sz : Z) : memory :=
  Memory (Some (StmObject 0 0 1 (Some 0%nat))) {[ 0%nat := StmCopy 1 (u32 sz) msg ]} [(msg, u32 sz)] 0.
Definition lnewwriter : thread := Thread (Writer true) Done [].
Definition lnewreader : thread := Thread (Reader true None) Done [].

(** ** Steps *)

(** one access: what is freed is no longer there. [--obj->reference] of
    [stm_release] is one step like the atomic operations, since the references
    are changed only by a thread that has the lock. *)
Definition exec (t : thread) (m : memory) : outcome (thread * memory) :=
  match t_prog t with
  | Done => Ret (t, m)
  | RLock k => o ← deref (m_obj m); Ret (goto (if bool_decide (o_write o ≠ 0) then RLock k else RInc k) t, m)
  | RInc k => o ← deref (m_obj m); Ret (goto (RTest k) t, set_obj (Some (set_read (o_read o + 1) o)) m)
  | RTest k => o ← deref (m_obj m); Ret (goto (if bool_decide (o_write o ≠ 0) then RDec k else k) t, m)
  | RDec k => o ← deref (m_obj m); Ret (goto (RLock k) t, set_obj (Some (set_read (o_read o - 1) o)) m)
  | RUnlock k => o ← deref (m_obj m); Ret (goto k t, set_obj (Some (set_read (o_read o - 1) o)) m)
  | WLock k =>
      o ← deref (m_obj m);
      Ret (goto (if bool_decide (o_write o ≠ 0) then WLock k else WWait k) t, set_obj (Some (set_write 1 o)) m)
  | WWait k => o ← deref (m_obj m); Ret (goto (if bool_decide (o_read o ≠ 0) then WWait k else k) t, m)
  | WUnlock k => o ← deref (m_obj m); Ret (goto k t, set_obj (Some (set_write 0 o)) m)
  | LoadCopy k => o ← deref (m_obj m); Ret (goto (k (o_copy o)) t, m)
  | StoreCopy c k => o ← deref (m_obj m); Ret (goto k t, set_obj (Some (set_copy c o)) m)
  | DecRef k =>
      o ← deref (m_obj m);
      Ret (goto (k (o_reference o - 1)) t, set_obj (Some (set_reference (o_reference o - 1) o)) m)
  | IncRef k =>
      o ← deref (m_obj m);
      Ret (goto (k (o_reference o)) t, set_obj (Some (set_reference (o_reference o + 1) o)) m)
  | FreeObj k => o ← deref (m_obj m); Ret (goto k t, set_obj None m)
  | NewCopy msg sz k =>
      let c := length (m_made m) in
      Ret (goto (k c) t,
        Memory (m_obj m) (<[c := StmCopy 1 (u32 sz) msg]> (m_copies m)) (m_made m ++ [(msg, u32 sz)]) (m_handed m))
  | DecCopy c k =>
      cp ← deref (m_copies m !! c);
      let r := c_reference cp - 1 in
      Ret (goto (k r) t, set_copies (<[c := StmCopy r (c_sz cp) (c_msg cp)]> (m_copies m)) m)
  | IncCopy c k =>
      cp ← deref (m_copies m !! c);
      let r := c_reference cp in
      Ret (goto (k r) t, set_copies (<[c := StmCopy (r + 1) (c_sz cp) (c_msg cp)]> (m_copies m)) m)
  | FreeCopy c k => cp ← deref (m_copies m !! c); Ret (goto k t, set_copies (delete c (m_copies m)) m)
  | Assert b k => cassert b;; Ret (goto k t, m)
  | SetObjNull k => Ret (set_box (null_obj (t_box t)) (goto k t), m)
  | SetLast c k => Ret (set_box (set_last c (t_box t)) (goto k t), m)
  | Deliver c k =>
      cp ← deref (m_copies m !! c);
      Ret (Thread (t_box t) k (t_log t ++ [(c, (c_msg cp, c_sz cp))]), m)
  | Hand k => Ret (goto k t, Memory (m_obj m) (m_copies m) (m_made m) (m_handed m + 1))
  end.

Inductive call : Type := CallCopy | CallUpdate (msg : list Z) (sz : Z) | CallDelete | CallRead.
(** the calls that a service can make with its userdata: [lcopy] reads only the
    first field, which the boxes of writers and readers share *)
Definition program (c : call) (b : box) : option prog :=
  match b, c with
  | Writer true, CallCopy => Some lcopy
  | Writer true, CallUpdate msg sz => Some (lupdate msg sz)
  | Writer true, CallDelete => Some ldeletewriter
  | Reader true _, CallCopy => Some lcopy
  | Reader true l, CallRead => Some (lread l)
  | Reader true l, CallDelete => Some (ldeletereader l)
  | _, _ => None
  end.

Record sys : Type := Sys { s_threads : list thread; s_mem : memory }.
Inductive event : Type := ERun (i : nat) | ECall (i : nat) (c : call) | ENewReader.
(** an access, a call of a service that is in none, a reader for a pointer that
    was handed out; [Ret None]: not possible *)
Definition happen (e : event) (s : sys) : outcome (option sys) :=
  match e with
  | ERun i =>
      match s_threads s !! i with
      | None => Ret None
      | Some t => '(t, m) ← exec t (s_mem s); Ret (Some (Sys (<[i := t]> (s_threads s)) m))
      end
  | ECall i c =>
      Ret (t ← s_threads s !! i;
           match t_prog t with
           | Done => p ← program c (t_box t); Some (Sys (<[i := goto p t]> (s_threads s)) (s_mem s))
           | _ => None
           end)
  | ENewReader =>
      let m := s_mem s in
      Ret (if bool_decide (0 < m_handed m)
           then Some (Sys (s_threads s ++ [lnewreader]) (Memory (m_obj m) (m_copies m) (m_made m) (m_handed m - 1)))
           else None)
  end.
Definition stm_step (s s' : sys) : Prop := ∃ e, happen e s = Ret (Some s').
Definition stm_start (msg : list Z) (sz : Z) : sys := Sys [lnewwriter] (stm_new msg sz).
Definition stm_reachable (s : sys) : Prop := ∃ msg sz, rtc stm_step (stm_start msg sz) s.

(** ** What a thread holds

    [g_ref]: its references to the object; [g_copies]: those to copies, by
    copy; [g_dead]: a copy whose references it has counted down to zero;
    [g_seen]: the copy it saw under the lock; [g_hole]: it has taken the
    object's own reference to its copy; [g_last]: it has counted the references
    of the object down to zero; [g_active]: it is the writer and has not
    withdrawn the copy; [g_new]: a copy it has made and not published; [g_gone]:
    it has seen that there is no copy. *)
(** where it is in the protocol of the lock: its reader is counted but has not
    looked for a writer again; its flag is set but there may be readers *)
Inductive lock_state : Type := Free | Counted | Shared | Flagged | Exclusive.
#[global] Instance lock_state_eq_dec : EqDecision lock_state.
Proof. solve_decision. Defined.
Record ghost : Type := Ghost {
  g_lock : lock_state; g_ref : Z; g_copies : nat → Z; g_dead : option nat; g_seen : option (option nat);
  g_hole : bool; g_last : bool; g_active : bool; g_new : option nat; g_gone : bool
}.
Definition with_lock (x : lock_state) (g : ghost) : ghost :=
  Ghost x (g_ref g) (g_copies g) (g_dead g) None (g_hole g) (g_last g) (g_active g) (g_new g) (g_gone g).
Definition with_ref (x : Z) (g : ghost) : ghost :=
  Ghost (g_lock g) x (g_copies g) (g_dead g) (g_seen g) (g_hole g) (g_last g) (g_active g) (g_new g) (g_gone g).
Definition with_copies (x : nat → Z) (g : ghost) : ghost :=
  Ghost (g_lock g) (g_ref g) x (g_dead g) (g_seen g) (g_hole g) (g_last g) (g_active g) (g_new g) (g_gone g).
Definition with_dead (x : option nat) (g : ghost) : ghost :=
  Ghost (g_lock g) (g_ref g) (g_copies g) x (g_seen g) (g_hole g) (g_last g) (g_active g) (g_new g) (g_gone g).
Definition with_seen (x : option nat) (g : ghost) : ghost :=
  Ghost (g_lock g) (g_ref g) (g_copies g) (g_dead g) (Some x) (g_hole g) (g_last g) (g_active g) (g_new g)
    (g_gone g || negb (not_null x)).
Definition with_hole (x : bool) (g : ghost) : ghost :=
  Ghost (g_lock g) (g_ref g) (g_copies g) (g_dead g) (g_seen g) x (g_last g) (g_active g) (g_new g) (g_gone g).
Definition with_last (x : bool) (g : ghost) : ghost :=
  Ghost (g_lock g) (g_ref g) (g_copies g) (g_dead g) (g_seen g) (g_hole g) x (g_active g) (g_new g) (g_gone g).
Definition with_active (x : bool) (g : ghost) : ghost :=
  Ghost (g_lock g) (g_ref g) (g_copies g) (g_dead g) (g_seen g) (g_hole g) (g_last g) x (g_new g) (g_gone g).
Definition with_new (x : option nat) (g : ghost) : ghost :=
  Ghost (g_lock g) (g_ref g) (g_copies g) (g_dead g) (g_seen g) (g_hole g) (g_last g) (g_active g) x (g_gone g).
Definition add_at (c : nat) (d : Z) (f : nat → Z) : nat → Z := λ x, f x + (if decide (x = c) then d else 0).

(** holding the object: a reference to it, or the duty to free it *)
Definition holds (g : ghost) : Prop := 0 < g_ref g ∨ g_last g = true.
Definition sane (g : ghost) : Prop :=
  0 ≤ g_ref g ∧ (∀ c, 0 ≤ g_copies g c) ∧ (g_hole g = true → g_lock g = Exclusive ∧ g_active g = true) ∧
  (g_last g = true → g_ref g = 0 ∧ (g_lock g = Shared ∨ g_lock g = Exclusive)) ∧ (g_active g = true → 0 < g_ref g) ∧ (g_new g ≠ None → g_active g = true) ∧
  (g_seen g ≠ None → g_lock g = Shared ∧ holds g).

Abbreviation log := (list (nat * (list Z * Z))) (only parsing).
(** between two calls *)
Definition rest (b : box) (l : log) (g : ghost) : Prop :=
  g_lock g = Free ∧ g_dead g = None ∧ g_hole g = false ∧ g_last g = false ∧ g_new g = None ∧
  match b with
  | Writer o => g_active g = o ∧ g_ref g = (if o then 1 else 0) ∧ ∀ x, g_copies g x = 0
  | Reader o last =>
      g_active g = false ∧ g_ref g = (if o then 1 else 0) ∧
      (∀ x, g_copies g x = if decide (last = Some x) then 1 else 0) ∧
      if o then
        match last with Some c => c ∈ l.*1 ∧ ∀ x, x ∈ l.*1 → (x ≤ c)%nat | None => l = [] ∨ g_gone g = true end
      else last = None
  end.

(** what the rest of a program needs of what its thread holds *)
Inductive ok : box → log → ghost → prog → Prop :=
  | ok_Done b l g : rest b l g → ok b l g Done
  | ok_RLock b l g k : g_lock g = Free → 0 < g_ref g → ok b l (with_lock Shared g) k → ok b l g (RLock k)
  | ok_RInc b l g k : g_lock g = Free → 0 < g_ref g → ok b l (with_lock Shared g) k → ok b l g (RInc k)
  | ok_RTest b l g k : g_lock g = Counted → 0 < g_ref g → ok b l (with_lock Shared g) k → ok b l g (RTest k)
  | ok_RDec b l g k : g_lock g = Counted → 0 < g_ref g → ok b l (with_lock Shared g) k → ok b l g (RDec k)
  | ok_RUnlock b l g k : g_lock g = Shared → g_last g = false →
      (0 < g_ref g ∨ ∃ last, k = SetObjNull (stm_releasecopy last (SetLast None Done))) →
      ok b l (with_lock Free g) k → ok b l g (RUnlock k)
  | ok_WLock b l g k : g_lock g = Free → g_active g = true → ok b l (with_lock Exclusive g) k → ok b l g (WLock k)
  | ok_WWait b l g k : g_lock g = Flagged → g_active g = true → ok b l (with_lock Exclusive g) k → ok b l g (WWait k)
  | ok_WUnlock b l g k : g_lock g = Exclusive → g_hole g = false → g_last g = false →
      ok b l (with_lock Free g) k → ok b l g (WUnlock k)
  | ok_Load_free b l g k : g_lock g = Free → g_active g = true → (∀ c, ok b l g (k (Some c))) → ok b l g (LoadCopy k)
  | ok_Load_shared b l g k : g_lock g = Shared → holds g →
      (∀ v, (g_last g = true → v = None) →
        (∀ c, v = Some c → g_gone g = false ∧ ∀ x, x ∈ l.*1 → (x ≤ c)%nat) → ok b l (with_seen v g) (k v)) →
      ok b l g (LoadCopy k)
  | ok_Load_exclusive b l g k : g_lock g = Exclusive → g_active g = true → g_hole g = false →
      (∀ c, ok b l (with_hole true (with_copies (add_at c 1 (g_copies g)) g)) (k (Some c))) → ok b l g (LoadCopy k)
  | ok_Store_new b l g c k : g_hole g = true → 0 < g_copies g c → g_new g = Some c →
      ok b l (with_new None (with_hole false (with_copies (add_at c (-1) (g_copies g)) g))) k → ok b l g (StoreCopy (Some c) k)
  | ok_Store_null b l g k : g_hole g = true → g_new g = None →
      ok b l (with_active false (with_hole false g)) k → ok b l g (StoreCopy None k)
  | ok_DecRef b l g k : g_ref g = 1 → g_active g = false → (g_lock g = Shared ∨ g_lock g = Exclusive) → g_seen g = None → g_last g = false →
      (∀ r, 0 < r → ok b l (with_ref 0 g) (k r)) → ok b l (with_last true (with_ref 0 g)) (k 0) → ok b l g (DecRef k)
  | ok_IncRef b l g k : g_lock g = Shared → 0 < g_ref g →
      (∀ r, 0 < r → ok b l (with_ref (g_ref g + 1) g) (k r)) → ok b l g (IncRef k)
  | ok_FreeObj b l g k : g_last g = true → g_active g = false →
      ok b l (with_last false (with_lock Free g)) k → ok b l g (FreeObj k)
  | ok_NewCopy b l g msg sz k : g_active g = true → g_new g = None →
      (∀ c, ok b l (with_new (Some c) (with_copies (add_at c 1 (g_copies g)) g)) (k c)) → ok b l g (NewCopy msg sz k)
  | ok_DecCopy b l g c k : 0 < g_copies g c → g_dead g = None →
      (∀ r, 0 < r → ok b l (with_copies (add_at c (-1) (g_copies g)) g) (k r)) →
      ok b l (with_dead (Some c) (with_copies (add_at c (-1) (g_copies g)) g)) (k 0) → ok b l g (DecCopy c k)
  | ok_IncCopy b l g c k : g_seen g = Some (Some c) →
      (∀ r, 0 < r → ok b l (with_copies (add_at c 1 (g_copies g)) g) (k r)) → ok b l g (IncCopy c k)
  | ok_FreeCopy b l g c k : g_dead g = Some c → ok b l (with_dead None g) k → ok b l g (FreeCopy c k)
  | ok_Assert b l g k : ok b l g k → ok b l g (Assert true k)
  | ok_SetObjNull b l g k : ok (null_obj b) l g k → ok b l g (SetObjNull k)
  | ok_SetLast b l g c k : ok (set_last c b) l g k → ok b l g (SetLast c k)
  | ok_Deliver b l g c k : 0 < g_copies g c → g_new g = None → (∀ x, x ∈ l.*1 → (x < c)%nat) →
      (∀ v, ok b (l ++ [(c, v)]) g k) → ok b l g (Deliver c k)
  | ok_Hand b l g k : 1 < g_ref g → ok b l (with_ref (g_ref g - 1) g) k → ok b l g (Hand k).

(** ** The calls keep to what they hold *)

(** releasing a copy that is held *)
Lemma ok_releasecopy b l g last k : g_dead g = None → (∀ c, last = Some c → 0 < g_copies g c) →
  (∀ cs, (∀ x, cs x = g_copies g x - if decide (last = Some x) then 1 else 0) → ok b l (with_copies cs g) k) →
  ok b l g (stm_releasecopy last k).
Proof.
  intros Hd Hc Hk. destruct last as [c|]; cbn [stm_releasecopy].
  - assert (∀ x, add_at c (-1) (g_copies g) x = g_copies g x - (if decide (Some c = Some x) then 1 else 0)) as E.
    { intros x. unfold add_at. destruct (decide (x = c)), (decide (Some c = Some x)); naive_solver lia. }
    apply ok_DecCopy; [by apply Hc|done| |].
    + intros r Hr. rewrite bool_decide_eq_false_2 by lia. apply Hk, E.
    + rewrite bool_decide_eq_true_2 by done. apply ok_FreeCopy; [done|]. specialize (Hk _ E). destruct g. cbn in *. by subst.
  - specialize (Hk (g_copies g)). destruct g. cbn in *. apply Hk. intros x. case_decide; [done|lia].
Qed.

(** the sides of the conditions on ghosts *)
Ltac side := cbn; first [done | lia | by left | left; cbn; lia | by right; left | by right].

Lemma ok_lcopy_reader last l g : rest (Reader true last) l g → ok (Reader true last) l g lcopy.
Proof.
  intros R. pose proof R as (H1 & H2 & H3 & H4 & H5 & H6 & H7 & H8 & H9).
  apply ok_RLock; [side..|]. apply ok_IncRef; [side..|]. intros r Hr. apply ok_RUnlock; [side..|].
  rewrite bool_decide_eq_true_2 by done. apply ok_Assert, ok_Hand; [side|]. apply ok_Done.
  destruct g. cbn in *. subst. unfold rest. cbn. repeat split; try done; lia.
Qed.

Lemma ok_lcopy l g : rest (Writer true) l g → ok (Writer true) l g lcopy.
Proof.
  intros R. pose proof R as (H1 & H2 & H3 & H4 & H5 & H6 & H7 & H8).
  apply ok_RLock; [side..|]. apply ok_IncRef; [side..|]. intros r Hr. apply ok_RUnlock; [side..|].
  rewrite bool_decide_eq_true_2 by done. apply ok_Assert, ok_Hand; [side|]. apply ok_Done.
  destruct g. cbn in *. subst. unfold rest. cbn. repeat split; try done; lia.
Qed.

Lemma ok_lupdate l g msg sz : rest (Writer true) l g → ok (Writer true) l g (lupdate msg sz).
Proof.
  intros R. pose proof R as (H1 & H2 & H3 & H4 & H5 & H6 & H7 & H8).
  apply ok_NewCopy; [side..|]. intros c. apply ok_WLock; [side..|]. apply ok_Load_exclusive; [side..|]. intros old.
  apply ok_Store_new; [side| |side|].
  { cbn. unfold add_at. rewrite H8. repeat case_decide; lia. }
  apply ok_WUnlock; [side..|]. apply ok_releasecopy; [side| |].
  { intros x [= ->]. cbn. unfold add_at. rewrite H8. repeat case_decide; simplify_eq; lia. }
  intros cs Hcs. apply ok_Done. destruct g. cbn in *. subst. unfold rest. cbn. repeat split; try done.
  intros x. rewrite Hcs. unfold add_at. rewrite H8. repeat case_decide; simplify_eq; lia.
Qed.

Lemma ok_ldeletewriter l g : rest (Writer true) l g → ok (Writer true) l g ldeletewriter.
Proof.
  intros R. pose proof R as (H1 & H2 & H3 & H4 & H5 & H6 & H7 & H8).
  apply ok_Load_free; [side..|]. intros c. apply ok_Assert, ok_WLock; [side..|]. apply ok_Load_exclusive; [side..|]. intros old.
  apply ok_releasecopy; [side| |].
  { intros x [= ->]. cbn. unfold add_at. rewrite H8. repeat case_decide; simplify_eq; lia. }
  intros cs Hcs. apply ok_Store_null; [side..|].
  assert (∀ g', g_dead g' = None → g_hole g' = false → g_last g' = false → g_new g' = None → g_active g' = false → g_ref g' = 0 →
    g_lock g' = Free → g_copies g' = cs → ok (Writer true) l g' (SetObjNull Done)) as Hend.
  { intros g' ? ? ? ? ? ? ? E. apply ok_SetObjNull, ok_Done. cbn. unfold rest. repeat split; try done. intros x. rewrite E, Hcs.
    cbn. unfold add_at. rewrite H8. repeat case_decide; simplify_eq; lia. }
  apply ok_DecRef; [side..| |].
  - intros r Hr. rewrite bool_decide_eq_true_2 by done. apply ok_WUnlock; [side..|]. by apply Hend.
  - rewrite bool_decide_eq_false_2 by done. apply ok_FreeObj; [side..|]. by apply Hend.
Qed.

Lemma ok_ldeletereader last l g : rest (Reader true last) l g → ok (Reader true last) l g (ldeletereader last).
Proof.
  intros R. pose proof R as (H1 & H2 & H3 & H4 & H5 & H6 & H7 & H8 & H9).
  assert (∀ g', g_dead g' = None → g_hole g' = false → g_last g' = false → g_new g' = None → g_active g' = false → g_ref g' = 0 →
    g_lock g' = Free → g_copies g' = g_copies g →
    ok (Reader true last) l g' (SetObjNull (stm_releasecopy last (SetLast None Done)))) as Hend.
  { intros g' ? ? ? ? ? ? ? E. apply ok_SetObjNull, ok_releasecopy; [done| |].
    - intros c ->. rewrite E, H8. case_decide; [lia|done].
    - intros cs Hcs. apply ok_SetLast, ok_Done. cbn. unfold rest. cbn. repeat split; try done.
      intros x. rewrite Hcs, E, H8. repeat case_decide; simplify_eq; lia. }
  apply ok_RLock; [side..|]. apply ok_DecRef; [side..| |].
  - intros r Hr. rewrite bool_decide_eq_false_2 by lia. apply ok_RUnlock; [side..|right; by exists last|]. by apply Hend.
  - rewrite bool_decide_eq_true_2 by done. apply ok_Load_shared; [side|by right|]. intros v Hv _. rewrite Hv by done.
    apply ok_Assert, ok_FreeObj; [side..|]. by apply Hend.
Qed.

Lemma ok_lread last l g : rest (Reader true last) l g → ok (Reader true last) l g (lread last).
Proof.
  intros R. pose proof R as (H1 & H2 & H3 & H4 & H5 & H6 & H7 & H8 & H9).
  apply ok_RLock; [side..|]. apply ok_Load_shared; [side|left; side|]. intros v _ Hv. cbn in Hv.
  assert (∀ g', g_dead g' = None → g_hole g' = false → g_last g' = false → g_new g' = None → g_active g' = false → g_ref g' = 1 →
    g_lock g' = Free → (v = None → g_gone g' = true) → (v ≠ None → g_gone g' = g_gone g) →
    (∀ x, g_copies g' x = g_copies g x + if decide (v = Some x) then 1 else 0) →
    ok (Reader true last) l g' (if decide (v = last) then stm_releasecopy v Done
      else stm_releasecopy last (SetLast v (match v with Some c => Deliver c Done | None => Done end)))) as Hend.
  { intros g' ? ? ? ? ? ? ? G1 G2 E. case_decide as Hl.
    - subst last. apply ok_releasecopy; [done| |].
      + intros c ->. rewrite E, H8. repeat case_decide; simplify_eq; lia.
      + intros cs Hcs. apply ok_Done. unfold rest. cbn. repeat split; try done.
        * intros x. rewrite Hcs, E, H8. repeat case_decide; simplify_eq; lia.
        * destruct v; [done|]. right. by apply G1.
    - apply ok_releasecopy; [done| |].
      + intros c ->. rewrite E, H8. repeat case_decide; simplify_eq; lia.
      + intros cs Hcs. apply ok_SetLast. cbn [set_last]. destruct v as [c|].
        * destruct (Hv c eq_refl) as [Hg Hle]. apply ok_Deliver; [|done| |].
          -- cbn. rewrite Hcs, E, H8. repeat case_decide; simplify_eq; lia.
          -- intros x Hx. specialize (Hle x Hx) as Hxc. destruct last as [c'|]; [|destruct H9 as [->|H9]; [by apply elem_of_nil in Hx|congruence]].
             destruct H9 as [Hin Hmax]. specialize (Hmax x Hx). specialize (Hle c' Hin). assert (c ≠ c') by congruence. lia.
          -- intros w. apply ok_Done. unfold rest. cbn. repeat split; try done.
             ++ intros x. rewrite Hcs, E, H8. repeat case_decide; simplify_eq; lia.
             ++ rewrite fmap_app. apply elem_of_app. right. by left.
             ++ intros x. rewrite fmap_app, elem_of_app. intros [Hx|Hx]; [by apply Hle|]. apply list_elem_of_singleton in Hx as ->. cbn. lia.
        * apply ok_Done. unfold rest. cbn. repeat split; try done.
          -- intros x. rewrite Hcs, E, H8. repeat case_decide; simplify_eq; lia.
          -- right. by apply G1. }
  destruct v as [c|].
  - apply ok_IncCopy; [done|]. intros r Hr. rewrite bool_decide_eq_true_2 by done. apply ok_Assert, ok_RUnlock; [side..|].
    apply Hend; cbn; try done; [intros _; by rewrite orb_false_r|]. intros x. unfold add_at. repeat case_decide; simplify_eq; lia.
  - apply ok_RUnlock; [side..|]. apply Hend; cbn; try done; [intros _; by rewrite orb_true_r|]. intros x. rewrite decide_False by done. lia.
Qed.

(** ** Sums over the threads *)
Fixpoint total {A} (f : A → Z) (l : list A) : Z := match l with [] => 0 | x :: l => f x + total f l end.

Section total.
Context {A : Type}.
Implicit Types (f g : A → Z) (l : list A).

Lemma total_app f l k : total f (l ++ k) = total f l + total f k.
Proof. induction l as [|x l IH]; cbn [app total]; lia. Qed.
Lemma total_insert f l i x y : l !! i = Some x → total f (<[i:=y]> l) = total f l - f x + f y.
Proof.
  revert i. induction l as [|z l IH]; intros [|i] Hi; try done.
  - injection Hi as ->. change (<[0%nat:=y]> (x :: l)) with (y :: l). cbn [total]. lia.
  - specialize (IH i Hi). change (<[S i:=y]> (z :: l)) with (z :: <[i:=y]> l). cbn [total]. lia.
Qed.
Lemma total_le f g l : (∀ i x, l !! i = Some x → f x ≤ g x) → total f l ≤ total g l.
Proof.
  induction l as [|z l IH]; intros H; [done|]. cbn [total]. specialize (IH (λ i, H (S i))).
  pose proof (H 0%nat z eq_refl). lia.
Qed.
Definition nonneg f l : Prop := ∀ i x, l !! i = Some x → 0 ≤ f x.
Lemma nonneg_cons f x l : nonneg f (x :: l) → 0 ≤ f x ∧ nonneg f l.
Proof. intros H. split; [by apply (H 0%nat)|]. intros i. apply (H (S i)). Qed.
Lemma total_nonneg f l : nonneg f l → 0 ≤ total f l.
Proof. induction l as [|z l IH]; [done|]. intros [H1 H2]%nonneg_cons. cbn [total]. specialize (IH H2). lia. Qed.
Lemma total_ge f l i x : nonneg f l → l !! i = Some x → f x ≤ total f l.
Proof.
  revert i. induction l as [|z l IH]; intros i Hn Hi; [done|]. apply nonneg_cons in Hn as [H1 H2].
  destruct i as [|i]; cbn [total].
  - injection Hi as ->. pose proof (total_nonneg f l H2). lia.
  - specialize (IH i H2 Hi). lia.
Qed.
Lemma total_2 f l i j x y : nonneg f l → l !! i = Some x → l !! j = Some y → i ≠ j → f x + f y ≤ total f l.
Proof.
  revert i j. induction l as [|z l IH]; intros i j Hn Hi Hj Hij; [done|]. apply nonneg_cons in Hn as [H1 H2].
  destruct i as [|i], j as [|j]; try done; cbn [total].
  - injection Hi as ->. pose proof (total_ge f l j y H2 Hj). lia.
  - injection Hj as ->. pose proof (total_ge f l i x H2 Hi). lia.
  - specialize (IH i j H2 Hi Hj ltac:(congruence)). lia.
Qed.
End total.

(** ** The invariant *)
Definition one (b : bool) : Z := if b then 1 else 0.
Abbreviation tg := (thread * ghost)%type (only parsing).
Definition refs (x : tg) : Z := g_ref x.2.
Definition readers (x : tg) : Z := one (match g_lock x.2 with Counted | Shared => true | _ => false end).
Definition writers (x : tg) : Z := one (match g_lock x.2 with Flagged | Exclusive => true | _ => false end).
Definition shared (x : tg) : Z := one (match g_lock x.2 with Shared => true | _ => false end).
Definition exclusive (x : tg) : Z := one (match g_lock x.2 with Exclusive => true | _ => false end).
Definition lasts (x : tg) : Z := one (g_last x.2).
Definition holes (x : tg) : Z := one (g_hole x.2).
Definition actives (x : tg) : Z := one (g_active x.2).
Definition held (c : nat) (x : tg) : Z := g_copies x.2 c.
Definition deads (c : nat) (x : tg) : Z := one (bool_decide (g_dead x.2 = Some c)).

(** the object's own reference to its copy *)
Definition owns (o : option stm_object) (l : list tg) (c : nat) : Z :=
  match o with Some o => if decide (total holes l = 0 ∧ o_copy o = Some c) then 1 else 0 | None => 0 end.

Definition obj_inv (handed : Z) (o : option stm_object) (l : list tg) : Prop :=
  match o with
  | Some o =>
      o_reference o = handed + total refs l ∧ o_read o = total readers l ∧ o_write o = total writers l ∧
      total writers l ≤ 1 ∧ (total exclusive l = 0 ∨ total shared l = 0) ∧
      total lasts l = one (bool_decide (o_reference o = 0)) ∧ total actives l ≤ 1 ∧
      (total holes l = 0 → total actives l = one (not_null (o_copy o)))
  | None => handed + total refs l = 0 ∧ total lasts l = 0 ∧ total exclusive l = 0 ∧ total actives l = 0
  end.
Definition copy_inv (m : memory) (l : list tg) (c : nat) : Prop :=
  match m_copies m !! c with
  | Some cp =>
      c_reference cp = total (held c) l + owns (m_obj m) l c ∧
      total (deads c) l = one (bool_decide (c_reference cp = 0)) ∧ m_made m !! c = Some (c_msg cp, c_sz cp)
  | None => total (held c) l + owns (m_obj m) l c = 0 ∧ total (deads c) l = 0
  end.
(** what was read is what was made, in the order it was made *)
Definition log_ok (made : list (list Z * Z)) (l : log) : Prop :=
  StronglySorted lt l.*1 ∧ ∀ c v, (c, v) ∈ l → made !! c = Some v.

(** [n]: the last copy that was published *)
Record inv (n : nat) (m : memory) (l : list tg) : Prop := Inv {
  inv_ok : ∀ i t g, l !! i = Some (t, g) → ok (t_box t) (t_log t) g (t_prog t) ∧ sane g;
  inv_handed : 0 ≤ m_handed m;
  inv_obj : obj_inv (m_handed m) (m_obj m) l;
  inv_seen : ∀ i t g v, l !! i = Some (t, g) → g_seen g = Some v → ∃ o, m_obj m = Some o ∧ o_copy o = v;
  inv_copies : ∀ c, copy_inv m l c;
  inv_now : ∀ o c, m_obj m = Some o → total holes l = 0 → o_copy o = Some c → c = n;
  inv_made : (n < length (m_made m))%nat;
  inv_news : ∀ i t g c, l !! i = Some (t, g) → g_new g = Some c → (n < c)%nat;
  inv_held : ∀ i t g c, l !! i = Some (t, g) → 0 < g_copies g c → (c ≤ n)%nat ∨ g_new g = Some c;
  inv_logs : ∀ i t g, l !! i = Some (t, g) → log_ok (m_made m) (t_log t) ∧ (∀ c, c ∈ (t_log t).*1 → (c ≤ n)%nat);
  inv_gone : ∀ i t g, l !! i = Some (t, g) → g_gone g = true → total actives l = 0
}.
Arguments inv_ok {n m l} _.
Arguments inv_handed {n m l} _.
Arguments inv_obj {n m l} _.
Arguments inv_seen {n m l} _.
Arguments inv_copies {n m l} _.
Arguments inv_now {n m l} _.
Arguments inv_made {n m l} _.
Arguments inv_held {n m l} _.
Arguments inv_news {n m l} _.
Arguments inv_logs {n m l} _.
Arguments inv_gone {n m l} _.

Lemma total_pos {A} (f : A → Z) l : 0 < total f l → ∃ i x, l !! i = Some x ∧ 0 < f x.
Proof.
  induction l as [|z l IH]; [done|]. cbn [total]. intros H. destruct (decide (0 < f z)) as [Hz|Hz]; [by exists 0%nat, z|].
  destruct IH as (i & x & Hi & Hx); [lia|]. by exists (S i), x.
Qed.

(** every step is of one thread *)
Ltac sums :=
  unfold refs, readers, writers, shared, exclusive, lasts, holes, actives, held, deads in *; cbn [fst snd
    g_lock g_ref g_copies g_dead g_seen g_hole g_last g_active g_new g_gone
    with_lock with_ref with_copies with_dead with_seen with_hole with_last with_active with_new] in *.
Lemma one_nonneg {A} (f : A → bool) l : nonneg (λ x, one (f x)) l.
Proof. intros i x _. cbn. destruct (f x); cbn; lia. Qed.

Section inv.
Context {n : nat} {m : memory} {l : list tg} (HI : inv n m l).

Lemma refs_nonneg : nonneg refs l.
Proof. intros i [t g] Hi. by destruct (inv_ok HI i t g Hi) as [_ [? _]]. Qed.
Lemma held_nonneg c : nonneg (held c) l.
Proof. intros i [t g] Hi. destruct (inv_ok HI i t g Hi) as [_ (_ & H & _)]. apply H. Qed.

Lemma holds_obj i t g : l !! i = Some (t, g) → holds g → ∃ o, m_obj m = Some o.
Proof.
  intros Hi Hh. pose proof (inv_obj HI) as Ho. pose proof (inv_handed HI). destruct (m_obj m) as [o|]; [by exists o|].
  destruct Ho as (E1 & E2 & _). pose proof (total_ge refs l i _ refs_nonneg Hi) as H1.
  pose proof (total_ge lasts l i _ (one_nonneg _ l) Hi) as H2. pose proof (total_nonneg refs l refs_nonneg). sums.
  destruct Hh as [Hh|Hh]; [lia|]. rewrite Hh in H2. cbn in H2. lia.
Qed.

Lemma exclusive_obj i t g : l !! i = Some (t, g) → g_lock g = Exclusive → ∃ o, m_obj m = Some o.
Proof.
  intros Hi Hh. pose proof (inv_obj HI) as Ho. destruct (m_obj m) as [o|]; [by exists o|].
  destruct Ho as (_ & _ & E3 & _). pose proof (total_ge exclusive l i _ (one_nonneg _ l) Hi) as H2. sums.
  rewrite Hh in H2. cbn in H2. lia.
Qed.

(** only the thread with the lock has the object's reference *)
Lemma no_holes i t g o : l !! i = Some (t, g) → m_obj m = Some o → g_hole g = false →
  g_lock g = Exclusive ∨ g_lock g = Shared → total holes l = 0.
Proof.
  intros Hi Eo Hh Hl. pose proof (inv_obj HI) as Ho. rewrite Eo in Ho. destruct Ho as (_ & _ & _ & E1 & E2 & _).
  pose proof (total_nonneg holes l (one_nonneg _ l)).
  destruct (decide (0 < total holes l)) as [Hp|]; [|lia]. exfalso. apply total_pos in Hp as (j & [t' g'] & Hj & Hp).
  unfold holes in Hp. cbn in Hp. destruct (g_hole g') eqn:Eh; [|cbn in Hp; lia].
  destruct (inv_ok HI j t' g' Hj) as [_ (_ & _ & Hx & _)]. destruct (Hx Eh) as [Hx' _].
  assert (i ≠ j) by (intros E; subst; congruence).
  pose proof (total_ge exclusive l j _ (one_nonneg _ l) Hj) as H1.
  pose proof (total_2 writers l i j _ _ (one_nonneg _ l) Hi Hj ltac:(done)) as H2.
  pose proof (total_ge shared l i _ (one_nonneg _ l) Hi) as H3. sums. rewrite Hx' in *.
  destruct Hl as [Hl|Hl]; rewrite Hl in *; cbn in *; lia.
Qed.
End inv.

(** the fields of the others *)
Lemma lookup_insert_cases {A} (l : list A) i j x y : <[i:=x]> l !! j = Some y → (i = j ∧ x = y) ∨ (i ≠ j ∧ l !! j = Some y).
Proof.
  intros H. destruct (decide (i = j)) as [<-|Hn]; [|right; by rewrite list_lookup_insert_ne in H].
  left. split; [done|]. assert (i < length l)%nat by (apply lookup_lt_Some in H; by rewrite length_insert in H).
  rewrite list_lookup_insert_eq in H by done. by injection H.
Qed.
Ltac others H := apply lookup_insert_cases in H as [[<- [= <- <-]]|[? H]].

(** a step that reads or changes the object but not its pointer *)
Lemma inv_object n m l i t g o o' h' g' p : inv n m l → l !! i = Some (t, g) → m_obj m = Some o → o_copy o' = o_copy o →
  0 ≤ h' → g_copies g' = g_copies g → g_dead g' = g_dead g → g_hole g' = g_hole g → g_active g' = g_active g → g_new g' = g_new g →
  (∀ v, g_seen g' = Some v → v = o_copy o) → (g_gone g' = true → g_gone g = true ∨ total actives l = 0) →
  ok (t_box t) (t_log t) g' p → sane g' → obj_inv h' (Some o') (<[i:=(goto p t, g')]> l) →
  inv n (Memory (Some o') (m_copies m) (m_made m) h') (<[i:=(goto p t, g')]> l).
Proof.
  intros HI Hi Eo Ec Hh E1 E2 E3 E4 E5 Hs Hg Hok Hsane Hobj.
  assert (total holes (<[i:=(goto p t, g')]> l) = total holes l) as Eh
    by (rewrite (total_insert _ _ _ _ _ Hi); sums; rewrite E3; lia).
  assert (total actives (<[i:=(goto p t, g')]> l) = total actives l) as Ea
    by (rewrite (total_insert _ _ _ _ _ Hi); sums; rewrite E4; lia).
  split; cbn.
  - intros j t' g1 Hj. others Hj; [by split|]. by eapply (inv_ok HI).
  - done.
  - done.
  - intros j t' g1 v Hj Hv. exists o'. split; [done|]. rewrite Ec. others Hj; [by rewrite (Hs v)|].
    destruct (inv_seen HI _ _ _ _ Hj Hv) as (o1 & E & <-). by simplify_eq.
  - intros c. pose proof (inv_copies HI c) as Hc. unfold copy_inv, owns in *. cbn. rewrite Eh, Ec. rewrite Eo in Hc.
    assert (total (held c) (<[i:=(goto p t, g')]> l) = total (held c) l) as ->
      by (rewrite (total_insert _ _ _ _ _ Hi); sums; rewrite E1; lia).
    assert (total (deads c) (<[i:=(goto p t, g')]> l) = total (deads c) l) as ->
      by (rewrite (total_insert _ _ _ _ _ Hi); sums; rewrite E2; lia). done.
  - intros o1 c [= <-]. rewrite Eh, Ec. by apply (inv_now HI).
  - apply (inv_made HI).
  - intros j t' g1 c Hj. others Hj; [rewrite E5|]; by eapply (inv_news HI).
  - intros j t' g1 c Hj. others Hj; [rewrite E1, E5; exact (inv_held HI _ _ _ _ Hi)|exact (inv_held HI _ _ _ _ Hj)].
  - intros j t' g1 Hj. others Hj; [exact (inv_logs HI _ _ _ Hi)|exact (inv_logs HI _ _ _ Hj)].
  - intros j t' g1 Hj. rewrite Ea. others Hj; [|exact (inv_gone HI _ _ _ Hj)].
    intros Hx. destruct (Hg Hx) as [Hy|]; [exact (inv_gone HI _ _ _ Hi Hy)|done].
Qed.

(** what the sums say of the lock *)
Lemma sums_le l : total exclusive l ≤ total writers l ∧ total shared l ≤ total readers l ∧
  0 ≤ total exclusive l ∧ 0 ≤ total shared l ∧ 0 ≤ total holes l ∧ 0 ≤ total actives l ∧ 0 ≤ total lasts l ∧
  0 ≤ total readers l ∧ 0 ≤ total writers l.
Proof.
  repeat split; try (apply total_nonneg, one_nonneg).
  - apply total_le. intros i [t g] _. unfold exclusive, writers. cbn. destruct (g_lock g); cbn; lia.
  - apply total_le. intros i [t g] _. unfold shared, readers. cbn. destruct (g_lock g); cbn; lia.
Qed.

(** what they say of one thread *)
Lemma sums_ge n m l i t g : inv n m l → l !! i = Some (t, g) →
  readers (t, g) ≤ total readers l ∧ writers (t, g) ≤ total writers l ∧ shared (t, g) ≤ total shared l ∧
  exclusive (t, g) ≤ total exclusive l ∧ lasts (t, g) ≤ total lasts l ∧ holes (t, g) ≤ total holes l ∧
  actives (t, g) ≤ total actives l ∧ refs (t, g) ≤ total refs l ∧ 0 ≤ total refs l.
Proof.
  intros HI Hi. pose proof (refs_nonneg HI) as Hr.
  repeat split; try (by apply total_nonneg); apply (total_ge _ _ i); try done; apply one_nonneg.
Qed.

(** the new object against the new threads *)
Ltac obj_tac HI Hi :=
  let H1 := fresh in let H2 := fresh in
  match type of HI with inv _ ?m ?l => pose proof (sums_le l) as H1; pose proof (sums_ge _ _ _ _ _ _ HI Hi) as H2 end;
  unfold obj_inv in *; rewrite ?(total_insert _ _ _ _ _ Hi);
  sums; repeat match goal with H : g_lock ?g = _ |- _ => rewrite H in * end;
  repeat match goal with H : g_last ?g = _ |- _ => rewrite H in * end;
  repeat match goal with H : g_active ?g = _ |- _ => rewrite H in * end;
  repeat match goal with H : g_hole ?g = _ |- _ => rewrite H in * end;
  cbn [one not_null o_write o_read o_reference o_copy set_write set_read set_reference set_copy] in *;
  repeat case_bool_decide; cbn [one] in *; repeat split; try lia.
Lemma sane_idle g : sane g → g_lock g = Free ∨ g_lock g = Counted ∨ g_lock g = Flagged → g_hole g = false ∧ g_last g = false.
Proof.
  intros (_ & _ & H1 & H2 & _) Hl. split; apply not_true_is_false; intros E.
  - destruct (H1 E) as [E' _]. rewrite E' in Hl. by destruct Hl as [?|[?|?]].
  - destruct (H2 E) as [_ [E'|E']]; rewrite E' in Hl; by destruct Hl as [?|[?|?]].
Qed.
Lemma sane_lock x g : sane g → (g_hole g = true → x = Exclusive) → (g_last g = true → x = Shared ∨ x = Exclusive) →
  sane (with_lock x g).
Proof.
  intros (H1 & H2 & H3 & H4 & H5 & H6 & H7) Hh Hl. unfold sane. cbn. repeat split; try done.
  - by apply Hh.
  - by apply H3.
  - by apply H4.
  - by apply Hl.
Qed.
Lemma sane_lock_idle x g : sane g → g_lock g = Free ∨ g_lock g = Counted ∨ g_lock g = Flagged → sane (with_lock x g).
Proof. intros Hs Hl. destruct (sane_idle g Hs Hl) as [H1 H2]. apply sane_lock; [done|by rewrite H1|by rewrite H2]. Qed.

Section steps.
Context {n : nat} {m : memory} {l : list tg} (HI : inv n m l).

Lemma memory_obj o : set_obj o m = Memory o (m_copies m) (m_made m) (m_handed m).
Proof. done. Qed.
Lemma memory_same o : m_obj m = o → m = Memory o (m_copies m) (m_made m) (m_handed m).
Proof. destruct m. by intros <-. Qed.

Lemma seen_same i t g o : l !! i = Some (t, g) → m_obj m = Some o → ∀ v, g_seen g = Some v → v = o_copy o.
Proof. intros Hi Eo v Hv. destruct (inv_seen HI _ _ _ _ Hi Hv) as (o1 & E & <-). by simplify_eq. Qed.

Lemma step_lock i t g t' m' k : l !! i = Some (t, g) → t_prog t = RLock k ∨ t_prog t = RInc k ∨ t_prog t = RTest k ∨ t_prog t = RDec k →
  ok (t_box t) (t_log t) g (t_prog t) → exec t m = Ret (t', m') → ∃ n' g', inv n' m' (<[i:=(t', g')]> l).
Proof.
  intros Hi Hp Hok He. destruct (inv_ok HI _ _ _ Hi) as [_ Hs]. pose proof (inv_obj HI) as Ho. pose proof (inv_handed HI) as Hh.
  unfold exec in He.
  destruct Hp as [Ep|[Ep|[Ep|Ep]]]; rewrite Ep in *; destruct (m_obj m) as [o|] eqn:Eo; try done; cbn in He; injection He as <- <-;
    inversion Hok; subst.
  - exists n, g. rewrite (memory_same _ Eo). eapply inv_object; try done; [exact (seen_same _ _ _ _ Hi Eo)|intros; by left| |].
    + case_bool_decide; constructor; done.
    + obj_tac HI Hi.
  - exists n, (with_lock Counted g). rewrite memory_obj. eapply inv_object; try done; [intros; by left|by apply ok_RTest|apply sane_lock_idle; tauto|].
    obj_tac HI Hi.
  - rewrite (memory_same _ Eo). case_bool_decide as Hw.
    + exists n, g. eapply inv_object; try done; [exact (seen_same _ _ _ _ Hi Eo)|intros; by left|by apply ok_RDec|]. obj_tac HI Hi.
    + exists n, (with_lock Shared g). eapply inv_object; try done; [intros; by left|apply sane_lock_idle; tauto|]. obj_tac HI Hi.
  - exists n, (with_lock Free g). rewrite memory_obj. eapply inv_object; try done; [intros; by left|by apply ok_RLock|apply sane_lock_idle; tauto|].
    obj_tac HI Hi.
Qed.
Lemma actives_refs : total actives l ≤ total refs l.
Proof.
  apply total_le. intros i [t g] Hi. destruct (inv_ok HI _ _ _ Hi) as [_ (H1 & _ & _ & _ & H5 & _)].
  unfold actives, refs. cbn. destruct (g_active g); cbn; [specialize (H5 eq_refl)|]; lia.
Qed.

(** a lock that is held: the pointer is what the writer says *)
Lemma copy_actives i t g o : l !! i = Some (t, g) → m_obj m = Some o → g_hole g = false → g_lock g = Exclusive ∨ g_lock g = Shared →
  total actives l = one (not_null (o_copy o)) ∧ (∀ c, o_copy o = Some c → c = n).
Proof.
  intros Hi Eo Hh Hl. pose proof (no_holes HI _ _ _ _ Hi Eo Hh Hl) as Hz. pose proof (inv_obj HI) as Ho. rewrite Eo in Ho.
  split; [by apply Ho|]. intros c. by apply (inv_now HI).
Qed.

Lemma step_unlock i t g t' m' k : l !! i = Some (t, g) → t_prog t = RUnlock k ∨ t_prog t = WUnlock k →
  ok (t_box t) (t_log t) g (t_prog t) → exec t m = Ret (t', m') → ∃ n' g', inv n' m' (<[i:=(t', g')]> l).
Proof.
  intros Hi Hp Hok He. destruct (inv_ok HI _ _ _ Hi) as [_ Hs]. pose proof (inv_obj HI) as Ho. pose proof (inv_handed HI) as Hh.
  unfold exec in He. exists n, (with_lock Free g).
  destruct Hp as [Ep|Ep]; rewrite Ep in *; destruct (m_obj m) as [o|] eqn:Eo; try done; cbn in He; injection He as <- <-;
    inversion Hok; subst; rewrite memory_obj; eapply inv_object; try done; try (intros; by left).
  - apply sane_lock; [done| |congruence]. destruct Hs as (_ & _ & H3 & _). intros E. destruct (H3 E). congruence.
  - obj_tac HI Hi.
  - apply sane_lock; [done|congruence|congruence].
  - obj_tac HI Hi.
Qed.

Lemma step_wlock i t g t' m' k : l !! i = Some (t, g) → t_prog t = WLock k ∨ t_prog t = WWait k →
  ok (t_box t) (t_log t) g (t_prog t) → exec t m = Ret (t', m') → ∃ n' g', inv n' m' (<[i:=(t', g')]> l).
Proof.
  intros Hi Hp Hok He. destruct (inv_ok HI _ _ _ Hi) as [_ Hs]. pose proof (inv_obj HI) as Ho. pose proof (inv_handed HI) as Hh.
  unfold exec in He.
  destruct Hp as [Ep|Ep]; rewrite Ep in *; destruct (m_obj m) as [o|] eqn:Eo; try done; cbn in He; injection He as <- <-;
    inversion Hok; subst.
  - rewrite memory_obj. case_bool_decide as Hw.
    + exists n, g. eapply inv_object; try done; [exact (seen_same _ _ _ _ Hi Eo)|intros; by left|]. obj_tac HI Hi.
    + exists n, (with_lock Flagged g). eapply inv_object; try done; [intros; by left|by apply ok_WWait|apply sane_lock_idle; tauto|].
      obj_tac HI Hi.
  - rewrite (memory_same _ Eo). case_bool_decide as Hw.
    + exists n, g. eapply inv_object; try done; [exact (seen_same _ _ _ _ Hi Eo)|intros; by left|]. obj_tac HI Hi.
    + exists n, (with_lock Exclusive g). eapply inv_object; try done; [intros; by left|apply sane_lock_idle; tauto|]. obj_tac HI Hi.
Qed.

Lemma step_refs i t g t' m' : l !! i = Some (t, g) → (∃ k, t_prog t = DecRef k) ∨ (∃ k, t_prog t = IncRef k) ∨ (∃ k, t_prog t = Hand k) →
  ok (t_box t) (t_log t) g (t_prog t) → exec t m = Ret (t', m') → ∃ n' g', inv n' m' (<[i:=(t', g')]> l).
Proof.
  intros Hi Hp Hok He. destruct (inv_ok HI _ _ _ Hi) as [_ Hs]. pose proof (inv_obj HI) as Ho. pose proof (inv_handed HI) as Hh.
  pose proof Hs as (S1 & S2 & S3 & S4 & S5 & S6 & S7). unfold exec in He.
  destruct Hp as [[k Ep]|[[k Ep]|[k Ep]]]; rewrite Ep in *; inversion Hok; subst.
  - destruct (m_obj m) as [o|] eqn:Eo; [|done]. cbn in He. injection He as <- <-. rewrite memory_obj.
    destruct (decide (o_reference o - 1 = 0)) as [Hz|Hz].
    + exists n, (with_last true (with_ref 0 g)). rewrite Hz. eapply inv_object; try done; [exact (seen_same _ _ _ _ Hi Eo)|intros; by left| |].
      * unfold sane. cbn. repeat split; try done; try congruence.
        -- by apply S3.
        -- by apply S3.
      * obj_tac HI Hi.
    + exists n, (with_ref 0 g). assert (0 < o_reference o - 1) as Hr.
      { pose proof (sums_ge _ _ _ _ _ _ HI Hi). destruct Ho as (E & _). sums. lia. }
      eapply inv_object; try done; [exact (seen_same _ _ _ _ Hi Eo)|intros; by left|auto| |].
      * unfold sane. cbn. repeat split; try done; try congruence; by apply S3.
      * obj_tac HI Hi.
  - destruct (m_obj m) as [o|] eqn:Eo; [|done]. cbn in He. injection He as <- <-. rewrite memory_obj.
    exists n, (with_ref (g_ref g + 1) g). assert (0 < o_reference o) as Hr.
    { pose proof (sums_ge _ _ _ _ _ _ HI Hi). destruct Ho as (E & _). sums. lia. }
    eapply inv_object; try done; [exact (seen_same _ _ _ _ Hi Eo)|intros; by left|auto| |].
    * unfold sane. cbn. split; [lia|]. split; [done|]. split; [done|]. split; [intros E; destruct (S4 E); lia|].
      split; [lia|]. split; [done|]. intros E. split; [done|]. left. cbn. lia.
    * obj_tac HI Hi.
  - injection He as <- <-. destruct (holds_obj HI _ _ _ Hi) as [o Eo]; [left; lia|].
    exists n, (with_ref (g_ref g - 1) g). rewrite Eo in Ho |- *.
    eapply (inv_object _ _ _ _ _ _ _ _ _ (with_ref (g_ref g - 1) g)); try done; try lia; [exact (seen_same _ _ _ _ Hi Eo)|intros; by left| |].
    * unfold sane. cbn. split; [lia|]. split; [done|]. split; [done|]. split; [intros E; destruct (S4 E); lia|].
      split; [lia|]. split; [done|]. intros E. split; [by apply S7|]. left. cbn. lia.
    * obj_tac HI Hi.
Qed.

(** the writer is the only one that may have the object's reference *)
Lemma active_no_holes i t g o : l !! i = Some (t, g) → m_obj m = Some o → g_active g = true → g_hole g = false → total holes l = 0.
Proof.
  intros Hi Eo Ha Hh. pose proof (inv_obj HI) as Ho. rewrite Eo in Ho. destruct Ho as (_ & _ & _ & _ & _ & _ & E & _).
  pose proof (total_nonneg holes l (one_nonneg _ l)).
  destruct (decide (0 < total holes l)) as [Hp|]; [|lia]. exfalso. apply total_pos in Hp as (j & [t' g'] & Hj & Hp).
  unfold holes in Hp. cbn in Hp. destruct (g_hole g') eqn:Eh; [|cbn in Hp; lia].
  destruct (inv_ok HI j t' g' Hj) as [_ (_ & _ & Hx & _)]. destruct (Hx Eh) as [_ Ha'].
  assert (i ≠ j) by (intros E'; subst; congruence).
  pose proof (total_2 actives l i j _ _ (one_nonneg _ l) Hi Hj ltac:(done)) as H2. sums. rewrite Ha, Ha' in H2. cbn in H2. lia.
Qed.

Lemma step_load i t g t' m' k : l !! i = Some (t, g) → t_prog t = LoadCopy k → g_lock g ≠ Exclusive →
  ok (t_box t) (t_log t) g (t_prog t) → exec t m = Ret (t', m') → ∃ n' g', inv n' m' (<[i:=(t', g')]> l).
Proof.
  intros Hi Ep Hx Hok He. destruct (inv_ok HI _ _ _ Hi) as [_ Hs]. pose proof (inv_obj HI) as Ho. pose proof (inv_handed HI) as Hh.
  pose proof Hs as (S1 & S2 & S3 & S4 & S5 & S6 & S7). unfold exec in He. rewrite Ep in *.
  destruct (m_obj m) as [o|] eqn:Eo; [|done]. cbn in He. injection He as <- <-. rewrite (memory_same _ Eo).
  assert (g_hole g = false) as Hhole by (apply not_true_is_false; intros E; by destruct (S3 E)).
  inversion Hok; subst; [| |congruence].
  - exists n, g. pose proof (active_no_holes _ _ _ _ Hi Eo ltac:(done) Hhole) as Hz.
    assert (∃ c, o_copy o = Some c) as [c Ec].
    { pose proof (sums_ge _ _ _ _ _ _ HI Hi) as Hge. destruct Ho as (_ & _ & _ & _ & _ & _ & _ & E). specialize (E Hz).
      destruct (o_copy o) as [c|]; [by exists c|]. sums.
      match goal with H : g_active g = true |- _ => rewrite H in Hge end. cbn in *. lia. }
    eapply inv_object; try done; [exact (seen_same _ _ _ _ Hi Eo)|intros; by left|by rewrite Ec|]. obj_tac HI Hi.
  - destruct (copy_actives _ _ _ _ Hi Eo Hhole ltac:(by right)) as [Ea En]. pose proof actives_refs as Hr.
    exists n, (with_seen (o_copy o) g). eapply inv_object; try done.
    + cbn. by intros v [= <-].
    + cbn. intros E. destruct (g_gone g); [by left|right]. rewrite Ea. by destruct (o_copy o).
    + match goal with H : ∀ v, (g_last g = true → _) → _ |- _ => apply H end.
      * intros El. destruct (o_copy o) as [c|]; [|done]. exfalso. pose proof (sums_ge _ _ _ _ _ _ HI Hi) as Hge. clear Eo.
        unfold obj_inv in Ho. sums. rewrite El in Hge. cbn in Ea, Hge. case_bool_decide; cbn in *; lia.
      * intros c Ec. rewrite (En c Ec). rewrite Ec in Ea. cbn in Ea. split; [|apply (inv_logs HI _ _ _ Hi)].
        apply not_true_is_false. intros E. pose proof (inv_gone HI _ _ _ Hi E). lia.
    + obj_tac HI Hi.
Qed.

(** a step that takes or puts the object's reference to its copy, or keeps both *)
Lemma inv_pointer n' i t g o c' g' p : l !! i = Some (t, g) → m_obj m = Some o → g_dead g' = g_dead g →
  ok (t_box t) (t_log t) g' p → sane g' → (∀ v, g_seen g' = Some v → False) → g_lock g = Exclusive → g_gone g' = g_gone g →
  (n ≤ n')%nat → (n' < length (m_made m))%nat → (∀ c, g_new g' = Some c → (n' < c)%nat) →
  (∀ c, 0 < g_copies g' c → (c ≤ n')%nat ∨ g_new g' = Some c) →
  (n' ≠ n → g_active g = true) → (g_active g' = true → g_active g = true) →
  obj_inv (m_handed m) (Some (set_copy c' o)) (<[i:=(goto p t, g')]> l) →
  (total holes (<[i:=(goto p t, g')]> l) = 0 → ∀ c, c' = Some c → c = n') →
  (∀ c, g_copies g' c + owns (Some (set_copy c' o)) (<[i:=(goto p t, g')]> l) c = g_copies g c + owns (Some o) l c) →
  inv n' (set_obj (Some (set_copy c' o)) m) (<[i:=(goto p t, g')]> l).
Proof.
  intros Hi Eo Ed Hok Hsane Hseen Hl Hg Hn Hmade Hnew Hheld Hact Hact' Hobj Hnow Howns.
  pose proof (inv_obj HI) as Ho. rewrite Eo in Ho. split; cbn.
  - intros j t' g1 Hj. others Hj; [by split|]. by eapply (inv_ok HI).
  - apply (inv_handed HI).
  - done.
  - intros j t' g1 v Hj Hv. others Hj; [by destruct (Hseen v)|]. exfalso.
    destruct (inv_ok HI _ _ _ Hj) as [_ (_ & _ & _ & _ & _ & _ & S7)]. destruct S7 as [S7 _]; [by rewrite Hv|].
    pose proof (sums_ge _ _ _ _ _ _ HI Hi) as G1. pose proof (sums_ge _ _ _ _ _ _ HI Hj) as G2. unfold obj_inv in Ho. sums.
    rewrite Hl in G1. rewrite S7 in G2. cbn in *. lia.
  - intros c. pose proof (inv_copies HI c) as Hc. specialize (Howns c). unfold copy_inv in *. rewrite Eo in Hc. cbn [m_copies m_obj m_made set_obj].
    assert (total (held c) (<[i:=(goto p t, g')]> l) = total (held c) l - g_copies g c + g_copies g' c) as ->
      by (rewrite (total_insert _ _ _ _ _ Hi); done).
    assert (total (deads c) (<[i:=(goto p t, g')]> l) = total (deads c) l) as ->
      by (rewrite (total_insert _ _ _ _ _ Hi); sums; rewrite Ed; lia).
    destruct (m_copies m !! c) as [cp|]; [|lia]. destruct Hc as (H1 & H2 & H3). repeat split; [lia|done|done].
  - intros o1 c [= <-] Hz E. by apply Hnow.
  - done.
  - intros j t' g1 c Hj Hc. others Hj; [by apply Hnew|]. destruct (decide (n' = n)) as [->|Hne]; [by eapply (inv_news HI)|].
    exfalso. specialize (Hact Hne). destruct (inv_ok HI _ _ _ Hj) as [_ (_ & _ & _ & _ & _ & S6 & _)].
    assert (g_active g1 = true) as Ha by (apply S6; congruence).
    pose proof (total_2 actives l i j _ _ (one_nonneg _ l) Hi Hj ltac:(done)) as H2. unfold obj_inv in Ho. sums.
    rewrite Hact, Ha in H2. cbn in H2. lia.
  - intros j t' g1 c Hj Hc. others Hj; [by apply Hheld|]. destruct (inv_held HI _ _ _ _ Hj Hc); [left; lia|by right].
  - intros j t' g1 Hj. others Hj.
    + destruct (inv_logs HI _ _ _ Hi) as [H1 H2]. split; [done|]. intros c Hc. specialize (H2 c Hc). lia.
    + destruct (inv_logs HI _ _ _ Hj) as [H1 H2]. split; [done|]. intros c Hc. specialize (H2 c Hc). lia.
  - assert (total actives (<[i:=(goto p t, g')]> l) ≤ total actives l) as Hle.
    { rewrite (total_insert _ _ _ _ _ Hi). sums. destruct (g_active g') eqn:E; [rewrite (Hact' eq_refl)|destruct (g_active g)]; cbn; lia. }
    pose proof (sums_le (<[i:=(goto p t, g')]> l)).
    intros j t' g1 Hj Hx. others Hj; [rewrite Hg in Hx; pose proof (inv_gone HI _ _ _ Hi Hx)|pose proof (inv_gone HI _ _ _ Hj Hx)]; lia.
Qed.

Lemma holes_actives : total holes l ≤ total actives l.
Proof.
  apply total_le. intros i [t g] Hi. destruct (inv_ok HI _ _ _ Hi) as [_ (_ & _ & H3 & _)].
  unfold holes, actives. cbn. destruct (g_hole g); [destruct (H3 eq_refl) as [_ ->]|destruct (g_active g)]; cbn; lia.
Qed.

(** a copy that is held is there *)
Lemma held_copy i t g c : l !! i = Some (t, g) → 0 < g_copies g c →
  ∃ cp, m_copies m !! c = Some cp ∧ 0 < c_reference cp ∧ m_made m !! c = Some (c_msg cp, c_sz cp).
Proof.
  intros Hi Hc. pose proof (inv_copies HI c) as H. unfold copy_inv in H.
  pose proof (total_ge (held c) l i _ (held_nonneg HI c) Hi) as Hge. unfold held at 1 in Hge. cbn in Hge.
  assert (0 ≤ owns (m_obj m) l c) by (unfold owns; destruct (m_obj m); [case_decide|]; lia).
  destruct (m_copies m !! c) as [cp|]; [|lia]. destruct H as (H1 & _ & H3). exists cp. repeat split; [lia|done].
Qed.

Lemma step_load_exclusive i t g t' m' k : l !! i = Some (t, g) → t_prog t = LoadCopy k → g_lock g = Exclusive →
  ok (t_box t) (t_log t) g (t_prog t) → exec t m = Ret (t', m') → ∃ n' g', inv n' m' (<[i:=(t', g')]> l).
Proof.
  intros Hi Ep Hx Hok He. destruct (inv_ok HI _ _ _ Hi) as [_ Hs]. pose proof (inv_obj HI) as Ho. pose proof (inv_handed HI) as Hh.
  pose proof Hs as (S1 & S2 & S3 & S4 & S5 & S6 & S7). unfold exec in He. rewrite Ep in *.
  destruct (m_obj m) as [o|] eqn:Eo; [|done]. cbn in He. injection He as <- <-.
  assert (g_active g = true ∧ g_hole g = false ∧
    ∀ c, ok (t_box t) (t_log t) (with_hole true (with_copies (add_at c 1 (g_copies g)) g)) (k (Some c))) as (Ha & Hhole & Hk)
    by (inversion Hok; subst; [congruence..|done]).
  destruct (copy_actives _ _ _ _ Hi Eo Hhole ltac:(by left)) as [Ea En]. pose proof (no_holes HI _ _ _ _ Hi Eo Hhole ltac:(by left)) as Hz.
  assert (∃ c, o_copy o = Some c) as [c Ec].
  { pose proof (sums_ge _ _ _ _ _ _ HI Hi) as Hge. destruct (o_copy o) as [c|]; [by exists c|]. sums. rewrite Ha in Hge. cbn in *. lia. }
  set (g' := with_hole true (with_copies (add_at c 1 (g_copies g)) g)). exists n, g'.
  assert (m = set_obj (Some (set_copy (o_copy o) o)) m) as -> by (destruct m, o; cbn in *; by subst).
  cbn [o_copy m_obj]. rewrite Ec.
  assert (total holes (<[i:=(goto (k (Some c)) t, g')]> l) = 1) as Hz' by (rewrite (total_insert _ _ _ _ _ Hi); sums; rewrite Hhole; cbn; lia).
  eapply inv_pointer; try done; try (by apply Hk); try (by apply (inv_made HI)).
  - unfold sane. subst g'. cbn. split; [done|]. split; [intros x; unfold add_at; specialize (S2 x); case_decide; lia|]. done.
  - subst g'. cbn. intros v Hv. destruct S7 as [S7 _]; congruence.
  - subst g'. cbn. intros x Hx'. by eapply (inv_news HI).
  - subst g'. cbn. unfold add_at. intros x Hx'. destruct (decide (x = c)) as [->|]; [left; by rewrite (En c Ec)|].
    apply (inv_held HI _ _ _ _ Hi). lia.
  - subst g'. obj_tac HI Hi.
  - rewrite Hz'. done.
  - intros x. unfold owns. cbn [set_copy o_copy]. rewrite Hz', Hz, Ec. subst g'. cbn [g_copies with_hole with_copies]. unfold add_at.
    repeat case_decide; naive_solver lia.
Qed.

Lemma step_store i t g t' m' c k : l !! i = Some (t, g) → t_prog t = StoreCopy c k →
  ok (t_box t) (t_log t) g (t_prog t) → exec t m = Ret (t', m') → ∃ n' g', inv n' m' (<[i:=(t', g')]> l).
Proof.
  intros Hi Ep Hok He. destruct (inv_ok HI _ _ _ Hi) as [_ Hs]. pose proof (inv_obj HI) as Ho. pose proof (inv_handed HI) as Hh.
  pose proof Hs as (S1 & S2 & S3 & S4 & S5 & S6 & S7). unfold exec in He. rewrite Ep in *.
  destruct (m_obj m) as [o|] eqn:Eo; [|done]. cbn in He. injection He as <- <-.
  assert (g_hole g = true) as Hhole by (by inversion Hok). destruct (S3 Hhole) as [Hl Ha].
  pose proof holes_actives as Hha. pose proof (sums_ge _ _ _ _ _ _ HI Hi) as Hge. pose proof (sums_le l) as Hle.
  assert (total holes l = 1 ∧ total actives l = 1) as [Hz Haz].
  { unfold obj_inv in Ho. sums. rewrite Hhole, Ha in Hge. cbn in Hge. lia. }
  assert (∀ v, g_seen g = Some v → False) as Hns by (intros v Hv; destruct S7 as [S7 _]; congruence).
  destruct c as [c|].
  - assert (0 < g_copies g c ∧ g_new g = Some c) as [Hc Hn] by (by inversion Hok).
    set (g' := with_new None (with_hole false (with_copies (add_at c (-1) (g_copies g)) g))). exists c, g'.
    assert (total holes (<[i:=(goto k t, g')]> l) = 0) as Hz' by (rewrite (total_insert _ _ _ _ _ Hi); sums; rewrite Hhole; cbn; lia).
    pose proof (inv_news HI _ _ _ _ Hi Hn) as Hlt. destruct (held_copy _ _ _ _ Hi Hc) as (cp & _ & _ & Hmade).
    eapply inv_pointer; try done.
    + by inversion Hok.
    + unfold sane. subst g'. cbn. split; [done|]. split; [intros x; unfold add_at; specialize (S2 x); case_decide; subst; lia|]. done.
    + lia.
    + by eapply lookup_lt_Some.
    + subst g'. cbn. unfold add_at. intros x Hx'. left. destruct (decide (x = c)) as [->|]; [done|].
      destruct (inv_held HI _ _ _ x Hi ltac:(lia)); [lia|congruence].
    + subst g'. obj_tac HI Hi.
    + intros _ x [= <-]. done.
    + intros x. unfold owns. cbn [set_copy o_copy]. rewrite Hz', Hz. subst g'. cbn [g_copies with_new with_hole with_copies]. unfold add_at.
      repeat case_decide; naive_solver lia.
  - assert (g_new g = None) as Hn by (by inversion Hok).
    set (g' := with_active false (with_hole false g)). exists n, g'.
    assert (total holes (<[i:=(goto k t, g')]> l) = 0) as Hz' by (rewrite (total_insert _ _ _ _ _ Hi); sums; rewrite Hhole; cbn; lia).
    eapply inv_pointer; try done; try (by apply (inv_made HI)).
    + by inversion Hok.
    + unfold sane. subst g'. cbn. repeat split; try done; try (by apply S4); by rewrite Hn.
    + subst g'. cbn. intros x Hx'. by apply (inv_held HI _ _ _ _ Hi).
    + subst g'. obj_tac HI Hi.
    + intros x. unfold owns. cbn [set_copy o_copy]. rewrite Hz', Hz. subst g'. cbn [g_copies with_active with_hole with_copies].
      repeat case_decide; naive_solver lia.
Qed.

Lemma step_free i t g t' m' k : l !! i = Some (t, g) → t_prog t = FreeObj k →
  ok (t_box t) (t_log t) g (t_prog t) → exec t m = Ret (t', m') → ∃ n' g', inv n' m' (<[i:=(t', g')]> l).
Proof.
  intros Hi Ep Hok He. destruct (inv_ok HI _ _ _ Hi) as [_ Hs]. pose proof (inv_obj HI) as Ho. pose proof (inv_handed HI) as Hh.
  pose proof Hs as (S1 & S2 & S3 & S4 & S5 & S6 & S7). unfold exec in He. rewrite Ep in *.
  destruct (m_obj m) as [o|] eqn:Eo; [|done]. cbn in He. injection He as <- <-.
  assert (g_last g = true ∧ g_active g = false ∧ ok (t_box t) (t_log t) (with_last false (with_lock Free g)) k) as (Hl & Ha & Hk)
    by (by inversion Hok).
  destruct (S4 Hl) as [Hr Hlock].
  pose proof holes_actives as Hha. pose proof actives_refs as Har. pose proof (sums_ge _ _ _ _ _ _ HI Hi) as Hge. pose proof (sums_le l) as Hle.
  assert (total refs l = 0 ∧ m_handed m = 0 ∧ total lasts l = 1 ∧ total actives l = 0 ∧ total holes l = 0) as (Hz1 & Hz2 & Hz3 & Hz4 & Hz5).
  { unfold obj_inv in Ho. sums. rewrite Hl in Hge. cbn in Hge. case_bool_decide; cbn in Ho; lia. }
  assert (o_copy o = None) as Ec.
  { destruct Ho as (_ & _ & _ & _ & _ & _ & _ & E). specialize (E Hz5). rewrite Hz4 in E. by destruct (o_copy o). }
  set (g' := with_last false (with_lock Free g)). exists n, g'.
  assert (total holes (<[i:=(goto k t, g')]> l) = total holes l) as Eh by (rewrite (total_insert _ _ _ _ _ Hi); unfold g'; sums; lia).
  split; cbn.
  - intros j t' g1 Hj. others Hj; [|by eapply (inv_ok HI)]. split; [done|]. unfold sane. subst g'. cbn. rewrite Ha.
    assert (g_hole g = false) as -> by (apply not_true_is_false; intros E; destruct (S3 E); congruence).
    repeat split; try done. intros E. specialize (S6 E). congruence.
  - done.
  - unfold obj_inv. rewrite !(total_insert _ _ _ _ _ Hi). subst g'. unfold obj_inv in Ho. sums. rewrite Hl, Ha in *. cbn [one] in *.
    destruct Hlock as [Hlock|Hlock]; rewrite Hlock in *; cbn [one] in *; lia.
  - intros j t' g1 v Hj Hv. others Hj; [done|]. exfalso. destruct (inv_ok HI _ _ _ Hj) as [_ (_ & _ & _ & _ & _ & _ & S7')].
    destruct S7' as [_ [Hx|Hx]]; [by rewrite Hv| |].
    + pose proof (sums_ge _ _ _ _ _ _ HI Hj). sums. lia.
    + pose proof (total_2 lasts l i j _ _ (one_nonneg _ l) Hi Hj ltac:(done)) as H2. sums. rewrite Hl, Hx in H2. cbn in H2. lia.
  - intros c. pose proof (inv_copies HI c) as Hc. unfold copy_inv, owns in *. rewrite Eo, Ec in Hc. cbn [m_copies m_obj m_made set_obj].
    rewrite decide_False in Hc by (intros [_ ?]; done).
    assert (total (held c) (<[i:=(goto k t, g')]> l) = total (held c) l) as -> by (rewrite (total_insert _ _ _ _ _ Hi); unfold g'; sums; lia).
    assert (total (deads c) (<[i:=(goto k t, g')]> l) = total (deads c) l) as -> by (rewrite (total_insert _ _ _ _ _ Hi); unfold g'; sums; lia).
    done.
  - done.
  - apply (inv_made HI).
  - intros j t' g1 c Hj. others Hj; [|by eapply (inv_news HI)]. subst g'. cbn. by eapply (inv_news HI).
  - intros j t' g1 c Hj. others Hj; [exact (inv_held HI _ _ _ _ Hi)|exact (inv_held HI _ _ _ _ Hj)].
  - intros j t' g1 Hj. others Hj; [exact (inv_logs HI _ _ _ Hi)|exact (inv_logs HI _ _ _ Hj)].
  - intros j t' g1 Hj _. rewrite (total_insert _ _ _ _ _ Hi). subst g'. sums. lia.
Qed.

(** a step that changes the copies *)
Lemma inv_copies_step i t g cs' made' g' p : l !! i = Some (t, g) →
  g_lock g' = g_lock g → g_ref g' = g_ref g → g_seen g' = g_seen g → g_hole g' = g_hole g → g_last g' = g_last g →
  g_active g' = g_active g → g_gone g' = g_gone g →
  ok (t_box t) (t_log t) g' p → sane g' → (∀ c v, m_made m !! c = Some v → made' !! c = Some v) →
  (n < length made')%nat → (∀ c, g_new g' = Some c → (n < c)%nat) →
  (∀ c, 0 < g_copies g' c → (c ≤ n)%nat ∨ g_new g' = Some c) →
  (∀ c, copy_inv (Memory (m_obj m) cs' made' (m_handed m)) (<[i:=(goto p t, g')]> l) c) →
  inv n (Memory (m_obj m) cs' made' (m_handed m)) (<[i:=(goto p t, g')]> l).
Proof.
  intros Hi E1 E2 E3 E4 E5 E6 E7 Hok Hsane Hmade Hlen Hnew Hheld Hcopy.
  split; cbn; try done.
  - intros j t' g1 Hj. others Hj; [by split|]. by eapply (inv_ok HI).
  - apply (inv_handed HI).
  - pose proof (inv_obj HI) as Ho. unfold obj_inv in *. rewrite !(total_insert _ _ _ _ _ Hi). sums. rewrite E1, E2, E4, E5, E6.
    destruct (m_obj m); lia.
  - intros j t' g1 v Hj. others Hj; [rewrite E3|]; by eapply (inv_seen HI).
  - intros o c Eo. rewrite (total_insert _ _ _ _ _ Hi). sums. rewrite E4. intros Hz. apply (inv_now HI o c Eo). unfold holes. lia.
  - intros j t' g1 c Hj. others Hj; [by apply Hnew|by eapply (inv_news HI)].
  - intros j t' g1 c Hj. others Hj; [by apply Hheld|exact (inv_held HI _ _ _ _ Hj)].
  - intros j t' g1 Hj. others Hj; [destruct (inv_logs HI _ _ _ Hi) as [[H1 H2] H3]|destruct (inv_logs HI _ _ _ Hj) as [[H1 H2] H3]];
      (split; [split; [done|]|done]); intros c v Hc; by apply Hmade, H2.
  - intros j t' g1 Hj. rewrite (total_insert _ _ _ _ _ Hi). intros Hx.
    assert (total actives l = 0) as Hz.
    { others Hj; [rewrite E7 in Hx; exact (inv_gone HI _ _ _ Hi Hx)|exact (inv_gone HI _ _ _ Hj Hx)]. }
    sums. rewrite E6. lia.
Qed.

Lemma owns_same i t g g' p made' cs' h c : l !! i = Some (t, g) → g_hole g' = g_hole g →
  owns (m_obj (Memory (m_obj m) cs' made' h)) (<[i:=(goto p t, g')]> l) c = owns (m_obj m) l c.
Proof.
  intros Hi E. unfold owns. cbn. destruct (m_obj m); [|done].
  assert (total holes (<[i:=(goto p t, g')]> l) = total holes l) as -> by (rewrite (total_insert _ _ _ _ _ Hi); sums; rewrite E; lia). done.
Qed.
Lemma owns_nonneg c : 0 ≤ owns (m_obj m) l c.
Proof. unfold owns. destruct (m_obj m); [case_decide|]; lia. Qed.
Lemma deads_nonneg c : nonneg (deads c) l.
Proof. apply one_nonneg. Qed.

Lemma step_newcopy i t g t' m' msg sz k : l !! i = Some (t, g) → t_prog t = NewCopy msg sz k →
  ok (t_box t) (t_log t) g (t_prog t) → exec t m = Ret (t', m') → ∃ n' g', inv n' m' (<[i:=(t', g')]> l).
Proof.
  intros Hi Ep Hok He. destruct (inv_ok HI _ _ _ Hi) as [_ Hs]. unfold exec in He. rewrite Ep in *. injection He as <- <-.
  pose proof Hs as (S1 & S2 & S3 & S4 & S5 & S6 & S7). set (c := length (m_made m)).
  assert (g_active g = true ∧ ∀ c, ok (t_box t) (t_log t) (with_new (Some c) (with_copies (add_at c 1 (g_copies g)) g)) (k c)) as [Ha Hk]
    by (by inversion Hok).
  assert (g_new g = None) as Hnone by (by inversion Hok).
  set (g' := with_new (Some c) (with_copies (add_at c 1 (g_copies g)) g)). exists n, g'. pose proof (inv_made HI) as Hn.
  eapply inv_copies_step; try done.
  - apply Hk.
  - unfold sane. subst g'. cbn. split; [done|]. split; [intros x; unfold add_at; specialize (S2 x); destruct (decide (x = c)); lia|]. done.
  - intros x v Hx. by apply lookup_app_l_Some.
  - rewrite length_app. lia.
  - subst g'. cbn. by intros x [= <-].
  - subst g'. cbn. unfold add_at. intros x Hx'. destruct (decide (x = c)) as [->|]; [by right|]. left.
    destruct (inv_held HI _ _ _ x Hi ltac:(lia)) as [?|E]; [done|congruence].
  - intros x. pose proof (inv_copies HI x) as Hx. unfold copy_inv in *. rewrite (owns_same i t g); [|done|done]. cbn [m_copies m_made].
    assert (total (deads x) (<[i:=(goto (k c) t, g')]> l) = total (deads x) l) as -> by (rewrite (total_insert _ _ _ _ _ Hi); unfold g'; sums; lia).
    assert (total (held x) (<[i:=(goto (k c) t, g')]> l) = total (held x) l + if decide (x = c) then 1 else 0) as ->
      by (rewrite (total_insert _ _ _ _ _ Hi); unfold g'; sums; unfold add_at; lia).
    pose proof (total_nonneg _ _ (deads_nonneg x)). pose proof (total_nonneg _ _ (held_nonneg HI x)). pose proof (owns_nonneg x).
    destruct (decide (x = c)) as [->|Hne].
    + rewrite lookup_insert_eq. destruct (m_copies m !! c) as [cp|].
      * destruct Hx as (_ & _ & Hx). apply lookup_lt_Some in Hx. subst c. lia.
      * cbn. rewrite (bool_decide_eq_false_2 (1 = 0)) by done. repeat split; [lia|cbn; lia|]. subst c. rewrite lookup_app_r by lia. by rewrite Nat.sub_diag.
    + rewrite lookup_insert_ne by done. destruct (m_copies m !! x) as [cp|]; [|lia].
      destruct Hx as (? & ? & Hx). repeat split; [lia|done|]. by apply lookup_app_l_Some.
Qed.

Lemma step_copies i t g t' m' c : l !! i = Some (t, g) →
  (∃ k, t_prog t = DecCopy c k) ∨ (∃ k, t_prog t = IncCopy c k) ∨ (∃ k, t_prog t = FreeCopy c k) →
  ok (t_box t) (t_log t) g (t_prog t) → exec t m = Ret (t', m') → ∃ n' g', inv n' m' (<[i:=(t', g')]> l).
Proof.
  intros Hi Hp Hok He. destruct (inv_ok HI _ _ _ Hi) as [_ Hs]. unfold exec in He.
  pose proof Hs as (S1 & S2 & S3 & S4 & S5 & S6 & S7). pose proof (inv_copies HI c) as Hc. unfold copy_inv in Hc.
  pose proof (total_nonneg _ _ (held_nonneg HI c)) as Hn1. pose proof (owns_nonneg c) as Hn2. pose proof (total_nonneg _ _ (deads_nonneg c)) as Hn3.
  pose proof (total_ge (held c) l i _ (held_nonneg HI c) Hi) as Hge. pose proof (total_ge (deads c) l i _ (deads_nonneg c) Hi) as Hgd.
  (* what changes at [c] and at the others *)
  assert (∀ g' p cs', (∀ x, x ≠ c → cs' !! x = m_copies m !! x ∧ g_copies g' x = g_copies g x ∧ deads x (t, g') = deads x (t, g)) →
    g_hole g' = g_hole g →
    match cs' !! c with
    | Some cp => c_reference cp = total (held c) l - g_copies g c + g_copies g' c + owns (m_obj m) l c ∧
        total (deads c) l - deads c (t, g) + deads c (t, g') = one (bool_decide (c_reference cp = 0)) ∧ m_made m !! c = Some (c_msg cp, c_sz cp)
    | None => total (held c) l - g_copies g c + g_copies g' c + owns (m_obj m) l c = 0 ∧ total (deads c) l - deads c (t, g) + deads c (t, g') = 0
    end → ∀ x, copy_inv (Memory (m_obj m) cs' (m_made m) (m_handed m)) (<[i:=(goto p t, g')]> l) x) as Hcopy.
  { intros g' p cs' Hne Hh Hm x. unfold copy_inv. rewrite (owns_same i t g) by done. cbn [m_copies m_made].
    rewrite !(total_insert _ _ _ _ _ Hi). change (deads x (goto p t, g')) with (deads x (t, g')).
    change (held x (goto p t, g')) with (g_copies g' x). change (held x (t, g)) with (g_copies g x).
    destruct (decide (x = c)) as [->|Hx]; [destruct (cs' !! c); exact Hm|].
    destruct (Hne x Hx) as (-> & -> & ->). pose proof (inv_copies HI x) as H. unfold copy_inv in H.
    destruct (m_copies m !! x) as [cp|]; destruct H as (H1 & H2); [destruct H2 as [H2 H3]; repeat split; [lia|lia|done]|lia]. }
  destruct Hp as [[k Ep]|[[k Ep]|[k Ep]]]; rewrite Ep in *; destruct (m_copies m !! c) as [cp|] eqn:Ec; try done; cbn in He; injection He as <- <-.
  - assert (0 < g_copies g c ∧ g_dead g = None) as [Hpos Hd] by (by inversion Hok). destruct Hc as (H1 & H2 & H3).
    unfold held at 1 in Hge. cbn in Hge.
    assert (∀ x, 0 ≤ add_at c (-1) (g_copies g) x) as Hplus by (intros x; unfold add_at; specialize (S2 x); destruct (decide (x = c)) as [->|]; lia).
    destruct (decide (c_reference cp - 1 = 0)) as [Hz|Hz].
    + set (g' := with_dead (Some c) (with_copies (add_at c (-1) (g_copies g)) g)). exists n, g'. rewrite Hz.
      eapply inv_copies_step; try done; [by inversion Hok|apply (inv_made HI)|exact (λ x, inv_news HI i t g x Hi)|unfold g'; cbn; unfold add_at; intros x Hx'; destruct (decide (x = c)) as [->|]; apply (inv_held HI _ _ _ _ Hi); lia|].
      apply Hcopy; [|done|].
      * intros x Hx. rewrite lookup_insert_ne by done. split; [done|]. unfold g', deads, add_at. cbn. rewrite decide_False by done. split; [lia|].
        rewrite Hd. rewrite bool_decide_eq_false_2 by congruence. by rewrite bool_decide_eq_false_2.
      * rewrite lookup_insert_eq. cbn. unfold g', deads at 2 3, add_at. cbn. rewrite decide_True by done. rewrite Hd.
        rewrite bool_decide_eq_false_2 in H2 by lia. repeat split; [lia| |done]. rewrite bool_decide_eq_false_2 by done.
        rewrite !bool_decide_eq_true_2 by done. cbn in *. lia.
    + set (g' := with_copies (add_at c (-1) (g_copies g)) g). exists n, g'. assert (0 < c_reference cp - 1) as Hr by lia.
      eapply inv_copies_step; try done; [by inversion Hok; auto|apply (inv_made HI)|exact (λ x, inv_news HI i t g x Hi)|unfold g'; cbn; unfold add_at; intros x Hx'; destruct (decide (x = c)) as [->|]; apply (inv_held HI _ _ _ _ Hi); lia|].
      apply Hcopy; [|done|].
      * intros x Hx. rewrite lookup_insert_ne by done. split; [done|]. unfold g', deads, add_at. cbn. rewrite decide_False by done. split; [lia|done].
      * rewrite lookup_insert_eq. cbn. unfold g', deads at 2 3, add_at. cbn. rewrite decide_True by done.
        rewrite bool_decide_eq_false_2 in H2 by lia. repeat split; [lia| |done]. rewrite (bool_decide_eq_false_2 (_ - 1 = 0)) by done. lia.
  - assert (g_seen g = Some (Some c)) as Hseen by (by inversion Hok). destruct Hc as (H1 & H2 & H3).
    destruct (inv_seen HI _ _ _ _ Hi Hseen) as (o & Eo & Eco). destruct (S7 ltac:(by rewrite Hseen)) as [Hl _].
    assert (g_hole g = false) as Hhole by (apply not_true_is_false; intros E; destruct (S3 E); congruence).
    assert (owns (m_obj m) l c = 1) as Hown.
    { unfold owns. rewrite Eo. rewrite decide_True; [done|]. split; [|done]. eapply (no_holes HI); try done. by right. }
    set (g' := with_copies (add_at c 1 (g_copies g)) g). exists n, g'.
    eapply inv_copies_step; try done; [inversion Hok; subst; match goal with H : ∀ r, 0 < r → _ |- _ => apply H; lia end| |
      apply (inv_made HI)|exact (λ x, inv_news HI i t g x Hi)|unfold g'; cbn; unfold add_at; intros x Hx'; destruct (decide (x = c)) as [->|]; [left; by rewrite (inv_now HI o c Eo (no_holes HI _ _ _ _ Hi Eo Hhole ltac:(by right)) Eco)|apply (inv_held HI _ _ _ _ Hi); lia]|].
    + unfold sane. subst g'. cbn. split; [done|]. split; [intros x; unfold add_at; specialize (S2 x); destruct (decide (x = c)); lia|]. done.
    + apply Hcopy; [|done|].
      * intros x Hx. rewrite lookup_insert_ne by done. split; [done|]. unfold g', deads, add_at. cbn. rewrite decide_False by done. split; [lia|done].
      * rewrite lookup_insert_eq. cbn. unfold g', deads at 2 3, add_at. cbn. rewrite decide_True by done.
        rewrite bool_decide_eq_false_2 in H2 by lia. repeat split; [lia| |done]. rewrite (bool_decide_eq_false_2 (_ + 1 = 0)) by lia. lia.
  - assert (g_dead g = Some c) as Hd by (by inversion Hok). destruct Hc as (H1 & H2 & H3).
    unfold deads at 1 in Hgd. cbn in Hgd. rewrite bool_decide_eq_true_2 in Hgd by done. cbn in Hgd.
    case_bool_decide as Hz; cbn in H2; [|lia].
    set (g' := with_dead None g). exists n, g'.
    eapply inv_copies_step; try done; [by inversion Hok|apply (inv_made HI)|exact (λ x, inv_news HI i t g x Hi)|exact (λ x, inv_held HI i t g x Hi)|].
    apply Hcopy; [|done|].
    + intros x Hx. rewrite lookup_delete_ne by done. split; [done|]. split; [done|]. unfold g', deads. cbn. rewrite Hd.
      rewrite bool_decide_eq_false_2 by done. rewrite bool_decide_eq_false_2 by congruence. done.
    + rewrite lookup_delete_eq. unfold g', deads at 2 3. cbn. rewrite Hd. rewrite bool_decide_eq_true_2 by done.
      rewrite bool_decide_eq_false_2 by done. cbn. lia.
Qed.

(** a step that changes nothing shared *)
Lemma inv_local i t g t' : l !! i = Some (t, g) → ok (t_box t') (t_log t') g (t_prog t') →
  log_ok (m_made m) (t_log t') → (∀ c, c ∈ (t_log t').*1 → (c ≤ n)%nat) → inv n m (<[i:=(t', g)]> l).
Proof.
  intros Hi Hok Hlog Hle.
  assert (∀ f : tg → Z, f (t', g) = f (t, g) → total f (<[i:=(t', g)]> l) = total f l) as E
    by (intros f Hf; rewrite (total_insert _ _ _ _ _ Hi); lia).
  split.
  - intros j t1 g1 Hj. others Hj; [split; [done|]; by eapply (inv_ok HI)|by eapply (inv_ok HI)].
  - apply (inv_handed HI).
  - unfold obj_inv. rewrite !E by done. apply (inv_obj HI).
  - intros j t1 g1 v Hj. others Hj; by eapply (inv_seen HI).
  - intros c. unfold copy_inv, owns. rewrite !E by done. apply (inv_copies HI).
  - intros o c. rewrite E by done. apply (inv_now HI).
  - apply (inv_made HI).
  - intros j t1 g1 c Hj. others Hj; by eapply (inv_news HI).
  - intros j t1 g1 c Hj. others Hj; by eapply (inv_held HI).
  - intros j t1 g1 Hj. others Hj; [done|exact (inv_logs HI _ _ _ Hj)].
  - intros j t1 g1 Hj. rewrite E by done. others Hj; [exact (inv_gone HI _ _ _ Hi)|exact (inv_gone HI _ _ _ Hj)].
Qed.

(** every access of a thread keeps the invariant *)
Lemma exec_inv i t g t' m' : l !! i = Some (t, g) → exec t m = Ret (t', m') → ∃ n' g', inv n' m' (<[i:=(t', g')]> l).
Proof.
  intros Hi He. destruct (inv_ok HI _ _ _ Hi) as [Hok Hs]. destruct (inv_logs HI _ _ _ Hi) as [Hlog Hle].
  destruct (t_prog t) as [|k|k|k|k|k|k|k|k|k|c k|k|k|k|msg sz k|c k|c k|c k|a k|k|c k|c k|k] eqn:Ep.
  - unfold exec in He. rewrite Ep in He. injection He as <- <-. exists n, g. apply inv_local with (t := t); try done. by rewrite Ep.
  - eapply (step_lock i t g _ _ k); eauto. by rewrite Ep.
  - eapply (step_lock i t g _ _ k); eauto. by rewrite Ep.
  - eapply (step_lock i t g _ _ k); eauto. by rewrite Ep.
  - eapply (step_lock i t g _ _ k); eauto. by rewrite Ep.
  - eapply (step_unlock i t g _ _ k); eauto. by rewrite Ep.
  - eapply (step_wlock i t g _ _ k); eauto. by rewrite Ep.
  - eapply (step_wlock i t g _ _ k); eauto. by rewrite Ep.
  - eapply (step_unlock i t g _ _ k); eauto. by rewrite Ep.
  - destruct (decide (g_lock g = Exclusive)).
    + eapply (step_load_exclusive i t g _ _ k); eauto. by rewrite Ep.
    + eapply (step_load i t g _ _ k); eauto. by rewrite Ep.
  - eapply (step_store i t g _ _ c k); eauto. by rewrite Ep.
  - eapply (step_refs i t g); eauto. by rewrite Ep.
  - eapply (step_refs i t g); eauto. by rewrite Ep.
  - eapply (step_free i t g _ _ k); eauto. by rewrite Ep.
  - eapply (step_newcopy i t g _ _ msg sz k); eauto. by rewrite Ep.
  - eapply (step_copies i t g _ _ c); eauto. by rewrite Ep.
  - eapply (step_copies i t g _ _ c); eauto. by rewrite Ep.
  - eapply (step_copies i t g _ _ c); eauto. by rewrite Ep.
  - assert (a = true ∧ ok (t_box t) (t_log t) g k) as [-> Hk] by (by inversion Hok).
    unfold exec in He. rewrite Ep in He. cbn in He. injection He as <- <-. exists n, g. by apply inv_local with (t := t).
  - assert (ok (null_obj (t_box t)) (t_log t) g k) as Hk by (by inversion Hok).
    unfold exec in He. rewrite Ep in He. injection He as <- <-. exists n, g. by apply inv_local with (t := t).
  - assert (ok (set_last c (t_box t)) (t_log t) g k) as Hk by (by inversion Hok).
    unfold exec in He. rewrite Ep in He. injection He as <- <-. exists n, g. by apply inv_local with (t := t).
  - assert (0 < g_copies g c ∧ g_new g = None ∧ (∀ x, x ∈ (t_log t).*1 → (x < c)%nat) ∧
      ∀ v, ok (t_box t) (t_log t ++ [(c, v)]) g k) as (Hc & Hn & Hlt & Hk) by (by inversion Hok).
    destruct (held_copy _ _ _ _ Hi Hc) as (cp & Ec & _ & Hmade). unfold exec in He. rewrite Ep, Ec in He. cbn in He. injection He as <- <-.
    destruct Hlog as [Hsort Hin]. exists n, g. apply inv_local with (t := t); cbn; [done|apply Hk| |].
    + split.
      * rewrite fmap_app. cbn. apply StronglySorted_app_2; [|done|repeat constructor].
        intros x y Hx Hy. apply list_elem_of_singleton in Hy as ->. by apply Hlt.
      * intros x v [Hx|Hx]%elem_of_app; [by apply Hin|]. apply list_elem_of_singleton in Hx. by simplify_eq.
    + intros x. rewrite fmap_app. intros [Hx|Hx]%elem_of_app; [by apply Hle|]. apply list_elem_of_singleton in Hx as ->. cbn.
      destruct (inv_held HI _ _ _ _ Hi Hc) as [?|?]; [done|congruence].
  - eapply (step_refs i t g); eauto. by rewrite Ep.
Qed.

Lemma dead_copy i t g c : l !! i = Some (t, g) → g_dead g = Some c → ∃ cp, m_copies m !! c = Some cp.
Proof.
  intros Hi Hd. pose proof (inv_copies HI c) as Hc. unfold copy_inv in Hc. destruct (m_copies m !! c) as [cp|]; [by exists cp|].
  pose proof (total_ge (deads c) l i _ (deads_nonneg c) Hi) as H. unfold deads at 1 in H. cbn in H.
  rewrite bool_decide_eq_true_2 in H by done. cbn in H. lia.
Qed.
Lemma seen_copy i t g c : l !! i = Some (t, g) → g_seen g = Some (Some c) → ∃ cp, m_copies m !! c = Some cp.
Proof.
  intros Hi Hseen. destruct (inv_ok HI _ _ _ Hi) as [_ (_ & _ & S3 & _ & _ & _ & S7)].
  destruct (inv_seen HI _ _ _ _ Hi Hseen) as (o & Eo & Eco). destruct (S7 ltac:(by rewrite Hseen)) as [Hl _].
  assert (g_hole g = false) as Hhole by (apply not_true_is_false; intros E; destruct (S3 E); congruence).
  pose proof (inv_copies HI c) as Hc. unfold copy_inv in Hc. destruct (m_copies m !! c) as [cp|]; [by exists cp|].
  pose proof (total_nonneg _ _ (held_nonneg HI c)). unfold owns in Hc. rewrite Eo, decide_True in Hc; [lia|].
  split; [|done]. eapply (no_holes HI); try done. by right.
Qed.

(** no access fails but the last one of a reader that was not the last *)
Lemma exec_safe i t g : l !! i = Some (t, g) →
  (∃ r, exec t m = Ret r) ∨
  (exec t m = Undef ∧ m_obj m = None ∧ ∃ last, t_prog t = RUnlock (SetObjNull (stm_releasecopy last (SetLast None Done)))).
Proof.
  intros Hi. destruct (inv_ok HI _ _ _ Hi) as [Hok Hs]. pose proof Hs as (S1 & S2 & S3 & S4 & S5 & S6 & S7).
  assert (holds g ∨ g_lock g = Exclusive → ∃ o, m_obj m = Some o) as Hobj.
  { intros [Hh|Hh]; [exact (holds_obj HI _ _ _ Hi Hh)|exact (exclusive_obj HI _ _ _ Hi Hh)]. }
  assert (∀ c, 0 < g_copies g c → ∃ cp, m_copies m !! c = Some cp) as Hcp.
  { intros c Hc. destruct (held_copy _ _ _ _ Hi Hc) as (cp & E & _). by exists cp. }
  unfold exec. inversion Hok; subst; cbn;
    try (destruct Hobj as [o ->]; [first [by (left; left; lia) | by (left; left; auto) | by (left; right) | by right | by left | by (right; apply S3)]|];
      left; by eexists);
    try (by left; eexists).
  - destruct (m_obj m) as [o|]; [left; by eexists|right]. split; [done|]. split; [done|].
    match goal with H : 0 < g_ref g ∨ _ |- _ => destruct H as [Hr|[last ->]] end; [|by exists last].
    destruct Hobj as [o E]; [by left; left|done].
  - destruct (Hcp c) as [cp ->]; [done|]. left. by eexists.
  - destruct (seen_copy _ _ _ _ Hi ltac:(done)) as [cp ->]. left. by eexists.
  - destruct (dead_copy _ _ _ _ Hi ltac:(done)) as [cp ->]. left. by eexists.
  - destruct (Hcp c) as [cp ->]; [done|]. left. by eexists.
Qed.

(** a service that makes a call *)
Lemma call_inv i t g c p : l !! i = Some (t, g) → t_prog t = Done → program c (t_box t) = Some p → inv n m (<[i:=(goto p t, g)]> l).
Proof.
  intros Hi Ep Hp. destruct (inv_ok HI _ _ _ Hi) as [Hok _]. rewrite Ep in Hok.
  assert (rest (t_box t) (t_log t) g) as R by (by inversion Hok). destruct (inv_logs HI _ _ _ Hi) as [Hlog Hle].
  apply inv_local with (t := t); try done. cbn.
  destruct (t_box t) as [[]|[] last] eqn:Eb, c; try done; injection Hp as <-;
    [by apply ok_lcopy|by apply ok_lupdate|by apply ok_ldeletewriter|by apply ok_lcopy_reader|by apply ok_ldeletereader|by apply ok_lread].
Qed.

(** a reader for a pointer that was handed out *)
Definition idle (ref : Z) (active : bool) : ghost := Ghost Free ref (λ _, 0) None None false false active None false.

Lemma reader_inv : 0 < m_handed m →
  inv n (Memory (m_obj m) (m_copies m) (m_made m) (m_handed m - 1)) (l ++ [(lnewreader, idle 1 false)]).
Proof.
  intros Hh.
  assert (∀ f : tg → Z, total f (l ++ [(lnewreader, idle 1 false)]) = total f l + f (lnewreader, idle 1 false)) as E
    by (intros f; rewrite total_app; cbn; lia).
  assert (∀ j t g, (l ++ [(lnewreader, idle 1 false)]) !! j = Some (t, g) → l !! j = Some (t, g) ∨ (t = lnewreader ∧ g = idle 1 false)) as Hj.
  { intros j t g [Hj|[_ Hj]]%lookup_app_Some; [by left|right]. apply list_lookup_singleton_Some in Hj as [_ Hj]. by simplify_eq. }
  split; cbn.
  - intros j t g [H|[-> ->]]%Hj; [by eapply (inv_ok HI)|]. split.
    + apply ok_Done. unfold rest. cbn. repeat split; try done. by left.
    + unfold sane. cbn. repeat split; done.
  - lia.
  - pose proof (inv_obj HI) as Ho. unfold obj_inv in *. rewrite !E. sums. cbn. destruct (m_obj m); lia.
  - intros j t g v [H|[-> ->]]%Hj; [by eapply (inv_seen HI)|done].
  - intros c. pose proof (inv_copies HI c) as Hc. unfold copy_inv, owns in *. cbn. rewrite !E.
    change (holes (lnewreader, idle 1 false)) with 0. change (held c (lnewreader, idle 1 false)) with 0.
    change (deads c (lnewreader, idle 1 false)) with 0. by rewrite !Z.add_0_r.
  - intros o c. rewrite E. change (holes (lnewreader, idle 1 false)) with 0. rewrite Z.add_0_r. apply (inv_now HI).
  - apply (inv_made HI).
  - intros j t g c [H|[-> ->]]%Hj; [by eapply (inv_news HI)|done].
  - intros j t g c [H|[-> ->]]%Hj; [by eapply (inv_held HI)|done].
  - intros j t g [H|[-> ->]]%Hj; [exact (inv_logs HI _ _ _ H)|]. split; [|by intros c Hc%elem_of_nil].
    split; [constructor|by intros c v Hc%elem_of_nil].
  - intros j t g. rewrite E. change (actives (lnewreader, idle 1 false)) with 0. rewrite Z.add_0_r.
    intros [H|[-> ->]]%Hj; [exact (inv_gone HI _ _ _ H)|done].
Qed.
End steps.

Lemma start_inv msg sz : inv 0 (stm_new msg sz) [(lnewwriter, idle 1 true)].
Proof.
  assert (∀ j t g, [(lnewwriter, idle 1 true)] !! j = Some (t, g) → t = lnewwriter ∧ g = idle 1 true) as Hj
    by (intros j t g Hj; apply list_lookup_singleton_Some in Hj as [_ Hj]; by simplify_eq).
  split.
  - intros j t g [-> ->]%Hj. split; [apply ok_Done; unfold rest; cbn; by repeat split|]. unfold sane. cbn. repeat split; done.
  - done.
  - cbn. repeat split; try done. by left.
  - intros j t g v [-> ->]%Hj. done.
  - intros c. unfold copy_inv, owns. cbn. destruct c as [|c].
    + rewrite lookup_singleton_eq. cbn. by repeat split.
    + rewrite lookup_singleton_ne by done. split; [|done]. rewrite decide_False; [done|by intros [_ ?]].
  - intros o c [= <-] _. cbn. by intros [= <-].
  - cbn. lia.
  - intros j t g c [-> ->]%Hj. done.
  - intros j t g c [-> ->]%Hj. done.
  - intros j t g [-> ->]%Hj. split; [|by intros c Hc%elem_of_nil]. split; [constructor|by intros c v Hc%elem_of_nil].
  - intros j t g [-> ->]%Hj. done.
Qed.

Lemma step_inv s s' n l : inv n (s_mem s) l → l.*1 = s_threads s → stm_step s s' → ∃ n' l', inv n' (s_mem s') l' ∧ l'.*1 = s_threads s'.
Proof.
  intros HI El [e He]. destruct e as [i|i c|]; cbn in He.
  - destruct (s_threads s !! i) as [t|] eqn:Hi; [|done]. rewrite <- El in Hi. apply list_lookup_fmap_Some in Hi as ([t1 g] & -> & Hi).
    cbn in He. destruct (exec t1 (s_mem s)) as [[t' m']| | |] eqn:Ex; try done. cbn in He. injection He as <-. cbn.
    destruct (exec_inv HI i t1 g t' m' Hi Ex) as (n' & g' & H). exists n', (<[i:=(t', g')]> l). split; [done|].
    by rewrite list_fmap_insert, El.
  - destruct (s_threads s !! i) as [t|] eqn:Hi; [|done]. rewrite <- El in Hi. apply list_lookup_fmap_Some in Hi as ([t1 g] & -> & Hi).
    cbn in He. destruct (t_prog t1) eqn:Ep; try done. destruct (program c (t_box t1)) as [p|] eqn:Epr; [|done]. cbn in He. injection He as <-. cbn.
    exists n, (<[i:=(goto p t1, g)]> l). split; [by eapply call_inv|]. by rewrite list_fmap_insert, El.
  - case_bool_decide as Hh; [|done]. injection He as <-. cbn. exists n, (l ++ [(lnewreader, idle 1 false)]).
    split; [by apply reader_inv|]. by rewrite fmap_app, El.
Qed.

Lemma reachable_inv s : stm_reachable s → ∃ n l, inv n (s_mem s) l ∧ l.*1 = s_threads s.
Proof.
  intros (msg & sz & H). assert (∃ n l, inv n (s_mem (stm_start msg sz)) l ∧ l.*1 = s_threads (stm_start msg sz)) as H0
    by (exists 0%nat, [(lnewwriter, idle 1 true)]; split; [apply start_inv|done]).
  induction H as [s|s s1 s2 Hs _ IH]; [done|]. apply IH. destruct H0 as (n & l & HI & El). by eapply step_inv.
Qed.

(** ** Schedules *)
Fixpoint run (es : list event) (s : sys) : option sys :=
  match es with
  | [] => Some s
  | e :: es => match happen e s with Ret (Some s) => run es s | _ => None end
  end.
Lemma run_steps es : ∀ s s', run es s = Some s' → rtc stm_step s s'.
Proof.
  induction es as [|e es IH]; intros s s' H; cbn in H; [by injection H as <-|].
  destruct (happen e s) as [[s1|]| | |] eqn:E; try done. eapply rtc_l; [by exists e|]. by apply IH.
Qed.
Lemma run_reachable msg sz es s : run es (stm_start msg sz) = Some s → stm_reachable s.
Proof. intros H. exists msg, sz. by eapply run_steps. Qed.

(** the writer hands out two pointers, and two readers are made *)
Definition two_readers : list event :=
  let copy := ECall 0 CallCopy :: replicate 7 (ERun 0) in copy ++ copy ++ [ENewReader; ENewReader].
(** the writer ends; both readers end, the first stops before it releases its lock *)
Definition race : list event :=
  two_readers ++ ECall 0 CallDelete :: replicate 11 (ERun 0) ++
  [ECall 1 CallDelete; ECall 2 CallDelete] ++ replicate 4 (ERun 1) ++ replicate 7 (ERun 2).
(** the first reader reads, then the writer updates while the second reads *)
Definition reads : list event :=
  two_readers ++ ECall 1 CallRead :: replicate 11 (ERun 1) ++
  ECall 0 (CallUpdate [4; 5; 6] 3) :: ECall 2 CallRead :: replicate 4 (ERun 2) ++ replicate 4 (ERun 0) ++ replicate 6 (ERun 2) ++
  replicate 8 (ERun 0) ++ ECall 1 CallRead :: replicate 12 (ERun 1).

(** ** The properties *)

(** C36. Under any interleaving of the accesses of a writer and of any number of readers, no access touches
    a copy that is freed, no assertion fails, and no access but one touches the
    object after it is freed: that is the release of the lock at the end of the
    deletion of a reader, when another reader was the last and has freed the
    object. When every service has deleted its object and no pointer is under
    way, the object and all copies are freed. *)
Theorem stm_memory_safe s : stm_reachable s →
  (∀ i t, s_threads s !! i = Some t →
    (∃ r, exec t (s_mem s) = Ret r) ∨
    (exec t (s_mem s) = Undef ∧ m_obj (s_mem s) = None ∧
     ∃ last, t_prog t = RUnlock (SetObjNull (stm_releasecopy last (SetLast None Done))))) ∧
  ((∀ i t, s_threads s !! i = Some t → t_prog t = Done ∧ null_obj (t_box t) = t_box t) → m_handed (s_mem s) = 0 →
   m_obj (s_mem s) = None ∧ m_copies (s_mem s) = ∅).
Proof.
  intros (n & l & HI & El)%reachable_inv. split.
  - intros i t Hi. rewrite <- El in Hi. apply list_lookup_fmap_Some in Hi as ([t1 g] & -> & Hi). by eapply exec_safe.
  - intros Hend Hh.
    assert (∀ i t g, l !! i = Some (t, g) → g_ref g = 0 ∧ g_last g = false ∧ (∀ c, g_copies g c = 0) ∧ g_dead g = None) as Hz.
    { intros i t g Hi. destruct (inv_ok HI _ _ _ Hi) as [Hok _]. destruct (Hend i t) as [Ep Eb].
      { rewrite <- El, list_lookup_fmap, Hi. done. }
      rewrite Ep in Hok. assert (rest (t_box t) (t_log t) g) as (R1 & R2 & R3 & R4 & R5 & R6) by (by inversion Hok).
      destruct (t_box t) as [o|o last]; cbn in Eb; injection Eb as <-; [by destruct R6 as (_ & R6 & R7)|].
      destruct R6 as (_ & R6 & R7 & ->). repeat split; try done. }
    assert (∀ f : tg → Z, (∀ i t g, l !! i = Some (t, g) → f (t, g) = 0) → total f l = 0) as Ht.
    { intros f Hf. assert (total f l ≤ total (λ _, 0) l ∧ total (λ _, 0) l ≤ total f l) as [H1 H2]
        by (split; apply total_le; intros i [t g] Hi; rewrite (Hf i t g Hi); done).
      assert (total (λ _ : tg, 0) l = 0) by (clear; induction l; cbn; lia). lia. }
    pose proof (inv_obj HI) as Ho.
    assert (total refs l = 0) as E1 by (apply Ht; intros i t g Hi; by apply (Hz i t g Hi)).
    assert (total lasts l = 0) as E2 by (apply Ht; intros i t g Hi; unfold lasts; cbn; by destruct (Hz i t g Hi) as (_ & -> & _)).
    assert (m_obj (s_mem s) = None) as Eo.
    { destruct (m_obj (s_mem s)) as [o|]; [|done]. exfalso. unfold obj_inv in Ho. rewrite E1, E2, Hh in Ho.
      destruct Ho as (Er & _ & _ & _ & _ & E & _). rewrite Er in E. done. }
    split; [done|]. apply map_empty. intros c. pose proof (inv_copies HI c) as Hc. unfold copy_inv, owns in Hc. rewrite Eo in Hc.
    assert (total (held c) l = 0) as E3 by (apply Ht; intros i t g Hi; by apply (Hz i t g Hi)).
    assert (total (deads c) l = 0) as E4 by (apply Ht; intros i t g Hi; unfold deads; cbn; by destruct (Hz i t g Hi) as (_ & _ & _ & ->)).
    destruct (m_copies (s_mem s) !! c) as [cp|]; [|done]. destruct Hc as (Hc1 & Hc2 & _). rewrite E3 in Hc1. rewrite E4, Hc1 in Hc2. done.
Qed.

Lemma stm_memory_safe_witness :
  ∃ s t, run (race ++ [ERun 2]) (stm_start [1; 2] 2) = Some s ∧ s_threads s !! 2%nat = Some t ∧ ∃ r, exec t (s_mem s) = Ret r.
Proof.
  destruct (run (race ++ [ERun 2]) (stm_start [1; 2] 2)) as [s|] eqn:E; [|by vm_compute in E].
  destruct (stm_memory_safe s (run_reachable _ _ _ _ E)) as [H _].
  destruct (s_threads s !! 2%nat) as [t|] eqn:Et; [|vm_compute in E; injection E as <-; discriminate Et].
  exists s, t. split; [done|]. split; [done|]. destruct (H _ _ Et) as [Hr|[_ [_ [last Hl]]]]; [done|].
  vm_compute in E. injection E as <-. injection Et as <-. discriminate Hl.
Defined.

(** C40. The exception of the property above is reached: of two readers that are
    deleted at the same time, the first counts the references down to one and is
    interrupted, the second frees the object with the lock in it, and the first
    releases the lock in freed memory. *)
Theorem stm_reader_race : ∃ s t, stm_reachable s ∧ s_threads s !! 1%nat = Some t ∧ t_box t = Reader true None ∧
  m_obj (s_mem s) = None ∧ exec t (s_mem s) = Undef.
Proof.
  destruct (run race (stm_start [1; 2] 2)) as [s|] eqn:E; [|by vm_compute in E].
  pose proof (run_reachable _ _ _ _ E) as Hr. vm_compute in E. injection E as <-. do 2 eexists. repeat split; [exact Hr|done..].
Qed.

(** C37. A reader is given snapshots: each message it reads is, whole and with its
    size, one that the writer made, it reads none twice, and it reads them in
    the order in which they were made. *)
Theorem stm_snapshots s i t : stm_reachable s → s_threads s !! i = Some t →
  StronglySorted lt (t_log t).*1 ∧ ∀ c v, (c, v) ∈ t_log t → m_made (s_mem s) !! c = Some v.
Proof.
  intros (n & l & HI & El)%reachable_inv Hi. rewrite <- El in Hi. apply list_lookup_fmap_Some in Hi as ([t1 g] & -> & Hi).
  by destruct (inv_logs HI _ _ _ Hi) as [H _].
Qed.

Lemma stm_snapshots_witness :
  ∃ s t, run reads (stm_start [1; 2] 2) = Some s ∧ s_threads s !! 1%nat = Some t ∧
    t_log t = [(0%nat, ([1; 2], 2)); (1%nat, ([4; 5; 6], 3))] ∧ StronglySorted lt (t_log t).*1.
Proof.
  destruct (run reads (stm_start [1; 2] 2)) as [s|] eqn:E; [|by vm_compute in E].
  destruct (s_threads s !! 1%nat) as [t|] eqn:Et; [|vm_compute in E; injection E as <-; discriminate Et].
  destruct (stm_snapshots s 1%nat t (run_reachable _ _ _ _ E) Et) as [H _]. exists s, t. split; [done|]. split; [done|].
  split; [|exact H]. vm_compute in E. injection E as <-. injection Et as <-. reflexivity.
Defined.
