(* ===== verification/Multicast.v ===== *)
(** * Messages for several services: lualib-src/lua-multicast.c

    A package holds a message and the number of services that will read it; its
    pointer travels in a cell of its own, whose address is the message that is
    sent. The memory is explicit, since the services share it. *)
From S2P Require Import Prelude CLib CNum.
From Stdlib Require Import String.
#[local] Open Scope string_scope.
#[local] Open Scope Z_scope.
#[local] Abbreviation length := List.length.

Record mc_package : Type := McPackage { reference : Z; size : Z; data : loc }.
(** packages, cells with the address of a package, and blocks of bytes, by
    address; what is freed is not there; [brk]: the next address *)
Record heap : Type := Heap {
  packs : gmap loc mc_package;
  cells : gmap loc loc;
  blocks : gmap loc (list Z);
  brk : loc
}.
Definition set_packs (x : gmap loc mc_package) (h : heap) : heap := Heap x (cells h) (blocks h) (brk h).
Definition set_cells (x : gmap loc loc) (h : heap) : heap := Heap (packs h) x (blocks h) (brk h).
Definition set_blocks (x : gmap loc (list Z)) (h : heap) : heap := Heap (packs h) (cells h) x (brk h).

(** a result or the text of a Lua error, with the memory *)
Abbreviation mc A := (outcome ((string + A) * heap)) (only parsing).

Definition sizeof_pointer : Z := 8.

Definition pack (d : loc) (sz : Z) (h : heap) : mc (loc * Z) :=
  let p := brk h in
  let ret := brk h + 1 in
  Ret (inr (ret, sizeof_pointer),
    Heap (<[p := McPackage 0 (u32 sz) d]> (packs h)) (<[ret := p]> (cells h)) (blocks h) (brk h + 2)).

Definition mc_packlocal (d : loc) (n : Z) (h : heap) : mc (loc * Z) :=
  let sz := u64 n in
  if bool_decide (sz ≠ u32 sz) then Ret (inl "Size should be 32bit integer", h) else pack d sz h.

(** [memcpy] of [sz] bytes at [d] *)
Definition copy_block (d sz : Z) (h : heap) : outcome (list Z) :=
  if bool_decide (sz = 0) then Ret []
  else bs ← deref (blocks h !! d); if bool_decide (sz ≤ Zlen bs) then Ret (take (Z.to_nat sz) bs) else Undef.

Definition mc_packremote (d : loc) (n : Z) (h : heap) : mc (loc * Z) :=
  let sz := u64 n in
  if bool_decide (sz ≠ u32 sz) then Ret (inl "Size should be 32bit integer", h)
  else
    bs ← copy_block d sz h;
    let msg := brk h in
    pack msg sz (Heap (packs h) (cells h) (<[msg := bs]> (blocks h)) (brk h + 1)).

Definition mc_unpacklocal (pk : loc) (n : Z) (h : heap) : mc (loc * loc * Z) :=
  let sz := i32 n in
  if bool_decide (sz ≠ sizeof_pointer) then Ret (inl ("Invalid multicast package size " +:+ fmt_d sz), h)
  else
    p ← deref (cells h !! pk);
    k ← deref (packs h !! p);
    Ret (inr (p, data k, size k), h).

Definition mc_bindrefer (pk : loc) (n : Z) (h : heap) : mc loc :=
  let ref := i32 n in
  p ← deref (cells h !! pk);
  k ← deref (packs h !! p);
  if bool_decide (reference k ≠ 0) then Ret (inl "Can't bind a multicast package more than once", h)
  else
    Ret (inr p, Heap (<[p := McPackage ref (size k) (data k)]> (packs h)) (delete pk (cells h)) (blocks h) (brk h)).

Definition mc_closelocal (p : loc) (h : heap) : mc unit :=
  k ← deref (packs h !! p);
  let ref := i32 (reference k - 1) in
  let h := set_packs (<[p := McPackage ref (size k) (data k)]> (packs h)) h in
  if bool_decide (ref ≤ 0) then
    _ ← deref (blocks h !! data k);
    let h := set_packs (delete p (packs h)) (set_blocks (delete (data k) (blocks h)) h) in
    Ret (if bool_decide (ref < 0) then inl ("Invalid multicast package reference " +:+ fmt_d ref) else inr tt, h)
  else Ret (inr tt, h).

Definition mc_remote (pk : loc) (h : heap) : mc (loc * Z) :=
  p ← deref (cells h !! pk);
  k ← deref (packs h !! p);
  Ret (inr (data k, size k), Heap (delete p (packs h)) (delete pk (cells h)) (blocks h) (brk h)).

Definition mc_nextid (n : Z) : Z := Z.land (u32 (u32 n + 256)) 0x7fffffff.

(** ** The life of a package *)

(** the reads of [k] services, one after the other *)
Fixpoint closes (k : nat) (p : loc) (h : heap) : outcome heap :=
  match k with
  | O => Ret h
  | S k => '(r, h) ← mc_closelocal p h; match r with inr _ => closes k p h | inl _ => Undef end
  end.
(** addresses that were given out are below [brk] *)
Definition heap_ok (h : heap) : Prop := packs h !! brk h = None ∧ cells h !! (brk h + 1) = None.

Lemma close_more p h r sz d : packs h !! p = Some (McPackage r sz d) → 1 < r < 2 ^ 31 →
  mc_closelocal p h = Ret (inr tt, set_packs (<[p := McPackage (r - 1) sz d]> (packs h)) h).
Proof.
  intros Hp Hr. unfold mc_closelocal. rewrite Hp. cbn [deref mbind outcome_bind reference size data].
  rewrite i32_small by lia. by rewrite bool_decide_eq_false_2 by lia.
Qed.

Lemma closes_more k : ∀ p h r sz d, packs h !! p = Some (McPackage r sz d) → Z.of_nat k < r < 2 ^ 31 →
  closes k p h = Ret (set_packs (<[p := McPackage (r - Z.of_nat k) sz d]> (packs h)) h).
Proof.
  induction k as [|k IH]; intros p h r sz d Hp Hr; cbn [closes].
  - change (Z.of_nat 0) with 0. rewrite Z.sub_0_r, insert_id by done. by destruct h.
  - rewrite (close_more p h r sz d) by (done || lia). cbn [mbind outcome_bind].
    rewrite (IH p _ (r - 1) sz d); [|by apply lookup_insert_eq|lia].
    f_equal. unfold set_packs. cbn. rewrite insert_insert_eq. by replace (r - 1 - Z.of_nat k) with (r - Z.of_nat (S k)) by lia.
Qed.

Lemma closes_app k j p h : closes (k + j) p h = closes k p h ≫= closes j p.
Proof.
  revert h. induction k as [|k IH]; intros h; [done|]. cbn [Nat.add closes].
  destruct (mc_closelocal p h) as [[[e|[]] h1]| | |]; try done. apply IH.
Qed.

(** A message packed for [n] services: each can read it until it closes the
    package, in any order since a package does not know who closes it; the last
    one frees the message and the package, once, and a further one would use
    freed memory. The cell is freed when the package is bound. *)
Theorem multicast_freed_once d bs n h : heap_ok h → blocks h !! d = Some bs → Zlen bs < 2 ^ 32 → 0 < n < 2 ^ 31 →
  ∃ pk p h1 h2,
    mc_packlocal d (Zlen bs) h = Ret (inr (pk, sizeof_pointer), h1) ∧
    mc_unpacklocal pk sizeof_pointer h1 = Ret (inr (p, d, Zlen bs), h1) ∧
    mc_bindrefer pk n h1 = Ret (inr p, h2) ∧ mc_bindrefer pk n h2 = Undef ∧
    (∀ k, Z.of_nat k < n → ∃ h3, closes k p h2 = Ret h3 ∧ blocks h3 !! d = Some bs) ∧
    ∃ h4, closes (Z.to_nat n) p h2 = Ret h4 ∧
      packs h4 = packs h ∧ cells h4 = cells h ∧ blocks h4 = delete d (blocks h) ∧ mc_closelocal p h4 = Undef.
Proof.
  intros [Hp Hc] Hd Hl Hn. pose proof (Zlen_nonneg bs).
  set (p := brk h). set (pk := brk h + 1).
  set (h1 := Heap (<[p := McPackage 0 (Zlen bs) d]> (packs h)) (<[pk := p]> (cells h)) (blocks h) (brk h + 2)).
  set (h2 := Heap (<[p := McPackage n (Zlen bs) d]> (packs h)) (cells h) (blocks h) (brk h + 2)).
  assert (u32 (Zlen bs) = Zlen bs) as E32 by (unfold u32; rewrite Z.mod_small; lia).
  assert (u64 (Zlen bs) = Zlen bs) as E64 by (unfold u64; rewrite Z.mod_small; lia).
  exists pk, p, h1, h2. split; [|split; [|split; [|split; [|split]]]].
  - unfold mc_packlocal. rewrite E64, E32, bool_decide_eq_false_2 by lia. unfold pack. by rewrite E32.
  - unfold mc_unpacklocal. rewrite bool_decide_eq_false_2 by (vm_compute; congruence). subst h1. cbn [cells packs].
    rewrite lookup_insert_eq. cbn [deref mbind outcome_bind]. by rewrite lookup_insert_eq.
  - unfold mc_bindrefer. subst h1. cbn [cells packs]. rewrite lookup_insert_eq. cbn [deref mbind outcome_bind]. rewrite lookup_insert_eq.
    cbn [deref mbind outcome_bind reference size data blocks brk]. rewrite bool_decide_eq_false_2 by lia.
    rewrite i32_small by lia. subst h2. by rewrite insert_insert_eq, delete_insert_id.
  - unfold mc_bindrefer. subst h2 pk. cbn [cells]. by rewrite Hc.
  - intros k Hk. eexists. split; [apply (closes_more k p h2 n (Zlen bs) d); [by apply lookup_insert_eq|lia]|done].
  - replace (Z.to_nat n) with (Z.to_nat (n - 1) + 1)%nat by lia. rewrite closes_app.
    rewrite (closes_more _ p h2 n (Zlen bs) d) by (apply lookup_insert_eq || lia). cbn [mbind outcome_bind closes].
    unfold mc_closelocal at 1. cbn [packs set_packs]. rewrite lookup_insert_eq. cbn [deref mbind outcome_bind reference size data blocks set_packs].
    replace (n - Z.of_nat (Z.to_nat (n - 1)) - 1) with 0 by lia. change (i32 0) with 0. rewrite bool_decide_eq_true_2 by lia.
    subst h2. cbn [blocks packs cells set_blocks set_packs brk]. rewrite Hd. cbn [deref mbind outcome_bind]. rewrite bool_decide_eq_false_2 by lia.
    eexists. split; [done|]. cbn [blocks packs cells]. rewrite !insert_insert_eq, delete_insert_id by done. repeat split.
    unfold mc_closelocal. subst p. cbn [packs set_packs]. by rewrite Hp.
Qed.

(** ** The ids of channels *)
Lemma mc_nextid_ok n : mc_nextid n = (n + 256) mod 2 ^ 31.
Proof.
  unfold mc_nextid, u32. change 0x7fffffff with (2 ^ 31 - 1). rewrite land_mask by lia.
  rewrite Zplus_mod_idemp_l. by rewrite (mod_pow2_mod _ 31 32) by lia.
Qed.

(** the next ids keep the low byte, the node of the channel, and are different
    from each other until all 2^23 of the node were given *)
Theorem mc_nextids id k j : 0 ≤ id < 2 ^ 31 →
  Nat.iter k mc_nextid id = (id + 256 * Z.of_nat k) mod 2 ^ 31 ∧
  Nat.iter k mc_nextid id mod 256 = id mod 256 ∧
  ((j < k)%nat → Z.of_nat k - Z.of_nat j < 2 ^ 23 → Nat.iter k mc_nextid id ≠ Nat.iter j mc_nextid id).
Proof.
  intros Hid.
  assert (∀ k, Nat.iter k mc_nextid id = (id + 256 * Z.of_nat k) mod 2 ^ 31) as E.
  { clear k j. intros k. induction k as [|k IH].
    - cbn. rewrite Z.add_0_r. by rewrite Z.mod_small.
    - change (Nat.iter (S k) mc_nextid id) with (mc_nextid (Nat.iter k mc_nextid id)). rewrite IH, mc_nextid_ok, Zplus_mod_idemp_l. f_equal. lia. }
  split; [apply E|]. split.
  - rewrite E. change 256 with (2 ^ 8) at 2 3. rewrite (mod_pow2_mod _ 8 31) by lia. change (2 ^ 8) with 256.
    by rewrite Z.mul_comm, Z.mod_add.
  - intros Hj Hk. rewrite !E. intros Eq.
    assert ((256 * (Z.of_nat k - Z.of_nat j)) mod 2 ^ 31 = 0) as Ez.
    { replace (256 * (Z.of_nat k - Z.of_nat j)) with ((id + 256 * Z.of_nat k) - (id + 256 * Z.of_nat j)) by lia.
      rewrite Zminus_mod, Eq, Z.sub_diag. done. }
    rewrite Z.mod_small in Ez; lia.
Qed.
